(* ===== verification/_CoqProject ===== *)
-Q . S2P
Prelude.v
Json.v
Messages.v
Encapsulation.v
GoHeap.v
SnowflakeHeap.v
Broker.v
Metrics.v
BrokerIpc.v
Amp.v
ClientPeer.v
Proxy.v
Task.v
ClientMap.v
TurboTunnel.v
Tunnel.v
Peers.v
Sha2.v
PacketBuffer.v
Wire.v
SignatureHash.v
HandshakeCrypto.v
Prf.v
Record.v
CipherSuite.v
Options.v
Extensions.v
Fragment.v
Handshake.v
Udp.v
HandshakeState.v
ExportState.v
FlightCache.v
Flight12.v
Flight12Auth.v
Flight13.v
Transcript13.v
Handshaker.v
Handshaker13.v
Agreement13.v
Run13.v
DtlsConn.v
ConnData.v
ConnSend.v
ConnRun.v
