(* ===== verification/Prelude.v ===== *)
(** * Verification of Snowflake

    Snowflake lets a client reach the Tor network through short-lived proxies.
    This library models the Go program under src/ as functions and transition
    systems, and proves what its components promise and how they work together.

    ** The program and its model

    _Rendezvous._  A client (src/client) sends the broker (src/broker) an offer,
    a session description of WebRTC.  Proxies (src/proxy) poll the broker; the
    broker matches the two, hands the offer to the proxy and the proxy's answer to
    the client.  The messages are JSON texts over HTTP, or travel in the URLs and
    pages of an AMP cache.
    - [Json]: encoding/json and UTF-8.  [Messages]: src/common/messages,
      namematcher, bridgefingerprint and the session descriptions of util.
    - [GoHeap]: container/heap over the class [HeapInterface] with its contract
      [HeapSpec].  [SnowflakeHeap]: src/broker/snowflake-heap.go.
    - [Broker]: the goroutines of broker.go and ipc.go and their channels.  A
      [world] holds the shared state and the program counters; [exec] runs one
      event, [reachable] is closed under it.
    - [Metrics]: metrics.go.  [BrokerIpc]: bridge-list.go, and the handlers of
      ipc.go and http.go around the matching, split where they wait.
    - [Amp]: src/common/amp, src/broker/amp.go, and the client's exchanges and
      negotiation (src/client/lib/rendezvous*.go), with encoding/base64.
    - [Proxy]: src/proxy/lib: the requests to the broker, the check of relays,
      Start, the sessions with their tokens and the callbacks of the peer connection
      and the data channel, the counter of traffic.
    - [Task]: src/common/task.  [Peers]: the client's collection of proxies
      (src/client/lib/peers.go).  [ClientPeer]: one of them, with its data channel
      and the goroutine that watches it (src/client/lib/webrtc.go).

    _Tunnel._  The proxy relays bytes between the client and a server (src/server).
    The packets of a session are encapsulated in the byte stream and survive the
    change of proxies.
    - [Encapsulation]: src/common/encapsulation.  [ClientMap], [TurboTunnel]:
      src/common/turbotunnel (clientmap.go; queuepacketconn.go and
      redialpacketconn.go).  [Tunnel]: both ends, src/client/lib and
      src/server/lib, with the buffered writer of the Go library.

    _DTLS._  src/dtls is the implementation of DTLS 1.2 and, in part, 1.3 that the
    peer connections use.
    - Formats: [Wire] (errors, integers, the class of cryptobyte), [SignatureHash],
      [Record] (headers, datagrams, contents), [Extensions], [Handshake] (all
      handshake messages), [Fragment] (reassembly), [PacketBuffer], [Udp] (the
      listener over one socket, connection IDs, its goroutines and wait groups).
    - Cryptography: [Sha2], [Prf] (key derivation and key exchange), [CipherSuite]
      (suites and record protection), [HandshakeCrypto] (signatures, chains).
    - Handshake: [Options] (options and configuration), [HandshakeState],
      [ExportState], [FlightCache], [Flight12] with [Flight12Auth], [Flight13],
      [Transcript13], [Handshaker], [Handshaker13], [Agreement13], [Run13].
    - Connection: [DtlsConn] (conn.go), [ConnData] (reading), [ConnSend] (sending),
      [ConnRun] (an executable scheduler, and runs of two connections).

    ** Conventions

    A Go function returns a value, an error or panics: [res] keeps the three
    apart.  Bytes are a list of Z, strings are lists of bytes ([gostring]), sized
    integers are Z with their wrap-around written out ([u16], [u64], [i64]).  Maps
    are [gmap], structs are records, state is passed explicitly; the flights of the
    handshake use a monad with early returns.  Concurrent code is a transition
    system whose events are critical sections and channel operations, and its
    theorems hold in every reachable state, that is for every interleaving.

    What is not in the repository is a class with laws that its documentation
    states, and an instance that meets them: [Cryptobyte], [Ciphers], [PKI],
    [KeyAgreement], [WebRTC], [Html], [NetParsers], the random numbers, clocks and
    callbacks of [World], [ErrorTexts] (texts inside of error messages).  The hash
    functions, JSON, base64, container/heap and bufio of the Go library are
    modelled as they are.

    ** What the theorems show

    - Rendezvous: a poll gets the offer of one client, the answer of a proxy gets
      to the client that has its snowflake and to no other, the parties decode what
      was sent (proxy_gets_offer, negotiation_gets_answer and the properties of
      Broker); the broker does not panic, a poll can always return, the pools are
      priority queues; the messages and pages round trip.
    - Client: what a new peer holds or releases, when making one panics; a peer
      that receives nothing is closed within the timeout and the delays of its
      goroutine.
    - Proxy: which relays it accepts, what its tokens count, and exactly in which
      states an event panics ([Proxy.Sessions.crash]).
    - Tunnel: packets reach the other end, in order, whatever chunks the stream
      comes in; the client map refines a finite map.
    - DTLS handshake: what the peer has shown when a handshake of DTLS 1.2 is
      complete.  A full handshake is authenticated as the configuration demands; a
      resumed one only by the session's secret, which at a client can be the empty
      one and at a server that of a client without a certificate: [ConnRun] has runs
      with both, and with a signature of another key.  The handshake of DTLS 1.3
      agrees on the traffic secrets and its transcript refines that of RFC 8446.
    - DTLS connection: records are numbered without repetition, but for the
      fragments of a message that is wrapped with a connection identifier; data is
      delivered at most once and only if it was protected with the keys of the
      connection; fragments are put together; formats round trip; the packet buffer
      refines a queue.  The listener hands every datagram to the connection of its
      address or identifier, in runs where a connection's writes end before it is
      closed, and the events that panic are characterised.
    - Where the code fails, a theorem exhibits the run: requests, datagrams or
      interleavings that crash it or violate what a comment promises.

    ** Bounds and fuel

    Loops that are not structural have fuel, computed in the definition from the
    length of the input (every turn consumes a byte, or a heap position), and
    lemmas show that the result does not depend on it ([Json.parse_definite]) or
    that a result is always reached ([Encapsulation]: ReadData returns on every
    stream; [Run13]: the state machine of DTLS 1.3 stops).  Where the Go loop does
    not end, as splitBytes with a length of 0, the theorems exclude the argument.
    Numbers are bounded as in Go only; no bound is put on the number of clients,
    proxies, records or steps.

    ** Not modelled, and why

    - The settings of peer connections, WebSocket, KCP, smux and HTTP servers, STUN
      and SOCKS, SQS, GeoIP, hyperloglog and Prometheus: the code calls libraries.
    - The main functions and their flags, logging, texts of events.
    - Construction of URLs, and response headers.
    - Deadlines of connections and, but for [ClientPeer], the times of timers: a
      timer may fire at any moment; contexts are events.
    - DTLS 1.3 after the hello flights: the code returns ErrStateUnimplemented13.
    - encoding/gob, elliptic curves, ciphers and certificates of the Go library:
      classes with laws, or left out.

    This file holds the shared vocabulary: outcomes, bytes and integers, slices,
    and the tactics and lemmas about them. *)
From stdpp Require Import base tactics numbers list strings gmap.
From Stdlib Require Import ZArith Lia.

#[export] Set Default Goal Selector "!".
Open Scope Z_scope.

(** ** Outcomes of Go code

    A Go function of this repository either returns a value, returns a
    non-nil error, or panics (index or slice bounds out of range, nil
    dereference, explicit [panic]).  The three outcomes are kept apart so that
    panic-freedom is a property that can be stated and refuted. *)

Inductive res (E A : Type) : Type :=
| Ok (a : A)
| Err (e : E)
| Panic.
Arguments Ok {E A} a.
Arguments Err {E A} e.
Arguments Panic {E A}.

#[export] Instance res_ret (E : Type) : MRet (res E) := λ A a, Ok a.
#[export] Instance res_bind (E : Type) : MBind (res E) := λ A B f m,
  match m with
  | Ok a => f a
  | Err e => Err e
  | Panic => Panic
  end.

(** [if err := f(); err != nil { return e }]: replaces the error of [m]. *)
Definition map_err {E E' A} (f : E → E') (m : res E A) : res E' A :=
  match m with
  | Ok a => Ok a
  | Err e => Err (f e)
  | Panic => Panic
  end.

(** [safe m Q]: [m] does not panic, and a value it returns satisfies [Q]. *)
Definition safe {E A} (m : res E A) (Q : A → Prop) : Prop :=
  match m with
  | Ok a => Q a
  | Err _ => True
  | Panic => False
  end.

(** [no_panic m]: [m] returns a value or an error. *)
Definition no_panic {E A} (m : res E A) : Prop := safe m (λ _, True).

Section outcomes.
Context {E A B : Type}.
Implicit Types (m : res E A) (k : A → res E B).

Lemma bind_Ok_inv m k b :
    m ≫= k = Ok b → ∃ a, m = Ok a ∧ k a = Ok b.
  Proof. destruct m; simpl; intros; simplify_eq; eauto. Qed.

Lemma safe_bind m k (Q : B → Prop) :
    safe m (λ a, safe (k a) Q) → safe (m ≫= k) Q.
  Proof. by destruct m. Qed.

Lemma safe_mono m (P Q : A → Prop) :
    safe m P → (∀ a, P a → Q a) → safe m Q.
  Proof. destruct m; simpl; auto. Qed.

Lemma safe_no_panic m (Q : A → Prop) : safe m Q → no_panic m.
  Proof. by destruct m. Qed.

Lemma no_panic_iff m : no_panic m ↔ m ≠ Panic.
  Proof. destruct m; simpl; split; try done; auto. Qed.

Lemma safe_Ok m a (Q : A → Prop) : safe m Q → m = Ok a → Q a.
  Proof. by intros ? ->. Qed.
End outcomes.

(** ** Slices

    A Go slice is its list of elements.  A slice expression is allowed by Go
    up to the capacity of the slice; here the bound is the length, so the
    model panics whenever the program could for some capacity. *)

Definition len {A} (l : list A) : Z := Z.of_nat (length l).

(** [l[i]] *)
Definition idx {E A} (l : list A) (i : Z) : res E A :=
  if 0 <=? i then
    match l !! Z.to_nat i with
    | Some a => Ok a
    | None => Panic
    end
  else Panic.

(** [l[lo:hi]] for bounds that are in range. *)
Definition sub {A} (lo hi : Z) (l : list A) : list A :=
  take (Z.to_nat (hi - lo)) (drop (Z.to_nat lo) l).

(** [l[lo:hi]] *)
Definition slice {E A} (l : list A) (lo hi : Z) : res E (list A) :=
  if (0 <=? lo) && (lo <=? hi) && (hi <=? len l) then Ok (sub lo hi l) else Panic.

(** [l[lo:]] *)
Definition slice_from {E A} (l : list A) (lo : Z) : res E (list A) :=
  slice l lo (len l).

(** [make([]byte, n)] *)
Definition zeros (n : Z) : list Z := replicate (Z.to_nat n) 0.

(** A Go string is its bytes; [gs] gives those of a literal. *)
Abbreviation gostring := (list Z).
Definition gs (s : string) : gostring :=
  map (λ a, Z.of_N (Ascii.N_of_ascii a)) (String.list_ascii_of_string s).

(** ** Fixed-width integers *)

Abbreviation bytes := (list Z).

Definition u8 (v : Z) : Z := v mod 2 ^ 8.
Definition u16 (v : Z) : Z := v mod 2 ^ 16.
Definition u32 (v : Z) : Z := v mod 2 ^ 32.
Definition u64 (v : Z) : Z := v mod 2 ^ 64.

(** A signed integer of 64 bits. *)
Definition i64 (v : Z) : Z := (v + 2 ^ 63) mod 2 ^ 64 - 2 ^ 63.

Definition is_byte (b : Z) : Prop := 0 ≤ b < 2 ^ 8.
Definition is_u16 (v : Z) : Prop := 0 ≤ v < 2 ^ 16.
Definition is_u24 (v : Z) : Prop := 0 ≤ v < 2 ^ 24.
Definition is_u32 (v : Z) : Prop := 0 ≤ v < 2 ^ 32.
Definition is_u48 (v : Z) : Prop := 0 ≤ v < 2 ^ 48.
Definition is_u64 (v : Z) : Prop := 0 ≤ v < 2 ^ 64.

Lemma u16_range v : is_u16 (u16 v).
Proof. by apply Z.mod_pos_bound. Qed.

Lemma u16_small v : is_u16 v → u16 v = v.
Proof. intros. by apply Z.mod_small. Qed.

Definition bytes_ok (l : bytes) : Prop := Forall is_byte l.

(** Big-endian encoding of [v] in [n] bytes, and its inverse. *)
Fixpoint be_put (n : nat) (v : Z) : bytes :=
  match n with
  | O => []
  | S n => be_put n (v / 2 ^ 8) ++ [v mod 2 ^ 8]
  end.

Definition be_get (l : bytes) : Z := foldl (λ acc b, acc * 2 ^ 8 + b) 0 l.

(** [binary.BigEndian.Uint16(l)], [Uint32], [Uint64]: the first bytes of [l],
    a panic when there are not enough. *)
Definition get_be {E} (n : nat) (l : bytes) : res E Z :=
  if len l <? Z.of_nat n then Panic else Ok (be_get (take n l)).

Abbreviation Uint16 := (get_be 2).
Abbreviation Uint32 := (get_be 4).
Abbreviation Uint64 := (get_be 8).

(** ** Tactics *)

(** [lia] with division and modulo by constants. *)
Ltac zlia := Z.to_euclidean_division_equations; lia.

(** ** Lemmas on slices *)

Section slices.
Context {E A : Type}.
Implicit Types (l k : list A).

Lemma len_nil : len (@nil A) = 0.
  Proof. done. Qed.

Lemma len_cons a l : len (a :: l) = 1 + len l.
  Proof. unfold len; simpl; lia. Qed.

Lemma len_app l k : len (l ++ k) = len l + len k.
  Proof. unfold len; rewrite length_app; lia. Qed.

Lemma len_nonneg l : 0 ≤ len l.
  Proof. unfold len; lia. Qed.

Lemma len_map {B} (f : B → A) (xs : list B) : len (map f xs) = len xs.
  Proof. unfold len. by rewrite length_map. Qed.

Lemma len_fmap {B} (f : B → A) (xs : list B) : len (f <$> xs) = len xs.
  Proof. unfold len. by rewrite length_fmap. Qed.

Lemma len_replicate n (a : A) : len (replicate n a) = Z.of_nat n.
  Proof. unfold len. by rewrite length_replicate. Qed.

Lemma len_zero_nil l : len l = 0 → l = [].
  Proof. destruct l; rewrite ?len_cons; [done|]. pose proof (len_nonneg l). lia. Qed.

Lemma len_sub lo hi l :
    0 ≤ lo ≤ hi → hi ≤ len l → len (sub lo hi l) = hi - lo.
  Proof. unfold sub, len. rewrite length_take, length_drop. lia. Qed.

Lemma slice_ok lo hi l :
    0 ≤ lo ≤ hi → hi ≤ len l → slice (E:=E) l lo hi = Ok (sub lo hi l).
  Proof.
    intros. unfold slice.
    replace ((0 <=? lo) && (lo <=? hi) && (hi <=? len l)) with true by lia. done.
  Qed.

Lemma slice_from_ok lo l :
    0 ≤ lo ≤ len l → slice_from (E:=E) l lo = Ok (sub lo (len l) l).
  Proof. intros. unfold slice_from. apply slice_ok; lia. Qed.

Lemma idx_ok l i : 0 ≤ i < len l → ∃ a, idx (E:=E) l i = Ok a ∧ a ∈ l.
  Proof.
    unfold len, idx. intros.
    destruct (l !! Z.to_nat i) as [a|] eqn:Ha.
    - exists a. destruct (Z.leb_spec 0 i); [|lia].
      split; [done|]. by eapply list_elem_of_lookup_2.
    - apply lookup_ge_None in Ha. lia.
  Qed.

Lemma safe_idx l i (Q : A → Prop) :
    0 ≤ i < len l → (∀ a, a ∈ l → Q a) → safe (idx (E:=E) l i) Q.
  Proof. intros Hi HQ. destruct (idx_ok l i Hi) as (a & -> & ?). by apply HQ. Qed.

Lemma safe_slice l lo hi (Q : list A → Prop) :
    0 ≤ lo ≤ hi → hi ≤ len l → Q (sub lo hi l) → safe (slice (E:=E) l lo hi) Q.
  Proof. intros. by rewrite slice_ok. Qed.

  (** Access in a concatenation whose pieces have known lengths. *)
Lemma idx_app_r l k i : len l ≤ i → idx (E:=E) (l ++ k) i = idx k (i - len l).
  Proof.
    intros. unfold idx, len in *.
    destruct (Z.leb_spec 0 i), (Z.leb_spec 0 (i - Z.of_nat (length l))); [|lia..].
    rewrite lookup_app_r by lia.
    by replace (Z.to_nat i - length l)%nat with (Z.to_nat (i - Z.of_nat (length l))) by lia.
  Qed.

Lemma idx_app_l l k i : 0 ≤ i < len l → idx (E:=E) (l ++ k) i = idx l i.
  Proof.
    intros. unfold idx, len in *. destruct (Z.leb_spec 0 i); [|lia].
    by rewrite lookup_app_l by lia.
  Qed.

Lemma idx_0 a l : idx (E:=E) (a :: l) 0 = Ok a.
  Proof. done. Qed.

Lemma idx_cons a l i : 0 < i → idx (E:=E) (a :: l) i = idx l (i - 1).
  Proof.
    intros. unfold idx. destruct (Z.leb_spec 0 i), (Z.leb_spec 0 (i - 1)); [|lia..].
    by replace (Z.to_nat i) with (S (Z.to_nat (i - 1))) by lia.
  Qed.

Lemma sub_app_r lo hi l k :
    len l ≤ lo → sub lo hi (l ++ k) = sub (lo - len l) (hi - len l) k.
  Proof.
    intros. unfold sub, len in *. rewrite drop_app_ge by lia.
    f_equal; [lia|]. f_equal. lia.
  Qed.

Lemma sub_app_l hi l k : hi = len l → sub 0 hi (l ++ k) = l.
  Proof.
    intros ->. unfold sub, len.
    rewrite Z.sub_0_r, Nat2Z.id, drop_0. by rewrite take_app_length.
  Qed.

Lemma sub_full l : sub 0 (len l) l = l.
  Proof. rewrite <- (app_nil_r l) at 2. by apply sub_app_l. Qed.

Lemma sub_cons lo hi a l :
    0 < lo → sub lo hi (a :: l) = sub (lo - 1) (hi - 1) l.
  Proof. intros. apply (sub_app_r lo hi [a] l). unfold len; simpl; lia. Qed.

Lemma slice_mid l k m lo hi : lo = len l → hi = len l + len k →
  slice (E:=E) (l ++ k ++ m) lo hi = Ok k.
Proof.
  intros -> ->. pose proof (len_nonneg l). pose proof (len_nonneg k). pose proof (len_nonneg m).
  rewrite slice_ok by (rewrite ?len_app; lia). rewrite sub_app_r, Z.sub_diag by lia.
  by rewrite sub_app_l by lia.
Qed.

Lemma slice_app_l l k n : n = len l → slice (E:=E) (l ++ k) 0 n = Ok l.
Proof. intros ->. by apply (slice_mid []). Qed.

Lemma slice_from_app l k lo : lo = len l → slice_from (E:=E) (l ++ k) lo = Ok k.
Proof.
  intros ->. unfold slice_from. rewrite <- (app_nil_r k) at 1. apply slice_mid; [done|].
  by rewrite len_app.
Qed.

Lemma idx_mid l a k i : i = len l → idx (E:=E) (l ++ a :: k) i = Ok a.
Proof. intros ->. by rewrite idx_app_r, Z.sub_diag by lia. Qed.

Lemma idx_out l i : len l ≤ i → idx (E:=E) l i = Panic.
Proof.
  unfold len, idx. intros Hi. destruct (Z.leb_spec 0 i); [|done].
  by rewrite (proj2 (lookup_ge_None l (Z.to_nat i))) by lia.
Qed.

Lemma slice_out l lo hi : hi < lo ∨ len l < hi → slice (E:=E) l lo hi = Panic.
Proof.
  intros Ho. destruct (slice (E:=E) l lo hi) as [r|e|] eqn:Es; [|by unfold slice in Es; destruct (_ && _)|done].
  exfalso. revert Es. unfold slice. destruct (Z.leb_spec 0 lo), (Z.leb_spec lo hi), (Z.leb_spec hi (len l)); cbn; (done || lia).
Qed.

Lemma split_len l n : 0 ≤ n ≤ len l → ∃ k m, l = k ++ m ∧ len k = n.
Proof.
  intros Hn. exists (take (Z.to_nat n) l), (drop (Z.to_nat n) l). split; [by rewrite take_drop|].
  unfold len in *. rewrite length_take. lia.
Qed.

Lemma slice_inv l lo hi r : slice (E:=E) l lo hi = Ok r → 0 ≤ lo ≤ hi ∧ hi ≤ len l ∧ r = sub lo hi l.
Proof.
  unfold slice. destruct (Z.leb_spec 0 lo), (Z.leb_spec lo hi), (Z.leb_spec hi (len l)); try done.
  intros [= <-]. auto with lia.
Qed.

Lemma sub_nil_len lo l : len l ≤ lo → sub lo (len l) l = [].
  Proof. intros. unfold sub, len in *. by rewrite drop_ge by lia; rewrite take_nil. Qed.

Lemma elem_of_sub a lo hi l : a ∈ sub lo hi l → a ∈ l.
  Proof.
    unfold sub. intros Ha%elem_of_take. destruct Ha as (i & Hi & _).
    rewrite lookup_drop in Hi. by eapply list_elem_of_lookup_2.
  Qed.

Lemma take_drop_sub lo l : 0 ≤ lo ≤ len l →
    l = sub 0 lo l ++ sub lo (len l) l.
  Proof.
    intros. unfold sub, len in *.
    rewrite Z.sub_0_r, drop_0.
    rewrite (take_ge (drop _ _)) by (rewrite length_drop; lia).
    by rewrite take_drop.
  Qed.
End slices.

Lemma len_zeros n : 0 ≤ n → len (zeros n) = n.
Proof. intros. unfold zeros. rewrite len_replicate. lia. Qed.

Create Rewrite HintDb golen.
#[export] Hint Rewrite @len_nil @len_cons @len_app @len_map @len_fmap @len_replicate : golen.

Lemma bytes_ok_app l k : bytes_ok (l ++ k) ↔ bytes_ok l ∧ bytes_ok k.
Proof. apply Forall_app. Qed.

Lemma bytes_ok_cons b l : bytes_ok (b :: l) ↔ is_byte b ∧ bytes_ok l.
Proof. apply Forall_cons. Qed.

Lemma bytes_ok_nil : bytes_ok [].
Proof. constructor. Qed.

Lemma bytes_ok_elem l b : bytes_ok l → b ∈ l → is_byte b.
Proof. unfold bytes_ok. rewrite Forall_forall. auto. Qed.

Lemma bytes_ok_sub lo hi l : bytes_ok l → bytes_ok (sub lo hi l).
Proof. intros. unfold sub. by apply Forall_take, Forall_drop. Qed.

Lemma bytes_ok_take n l : bytes_ok l → bytes_ok (take n l).
Proof. apply Forall_take. Qed.

Lemma bytes_ok_drop n l : bytes_ok l → bytes_ok (drop n l).
Proof. apply Forall_drop. Qed.

(** ** Lemmas on big-endian integers *)

Lemma length_be_put n v : length (be_put n v) = n.
Proof. revert v. induction n; intros; simpl; [done|]. rewrite length_app, IHn. simpl. lia. Qed.

Lemma len_be_put n v : len (be_put n v) = Z.of_nat n.
Proof. unfold len. by rewrite length_be_put. Qed.

Lemma be_put_ok n v : bytes_ok (be_put n v).
Proof.
  revert v. induction n; intros; simpl; [constructor|].
  apply bytes_ok_app. split; [done|]. constructor; [|constructor].
  unfold is_byte. zlia.
Qed.

Lemma be_get_snoc l b : be_get (l ++ [b]) = be_get l * 2 ^ 8 + b.
Proof. unfold be_get. by rewrite foldl_app. Qed.

Lemma be_get_app l k : be_get (l ++ k) = be_get l * 2 ^ (8 * len k) + be_get k.
Proof.
  induction k as [|b k IH] using rev_ind.
  - rewrite app_nil_r. change (be_get []) with 0. change (2 ^ (8 * len [])) with 1. lia.
  - rewrite app_assoc, !be_get_snoc, IH.
    rewrite len_app. change (len [b]) with 1.
    replace (8 * (len k + 1)) with (8 * len k + 8) by lia.
    rewrite Z.pow_add_r by (pose proof (len_nonneg k); lia). lia.
Qed.

Lemma be_get_put n v : be_get (be_put n v) = v mod 2 ^ (8 * Z.of_nat n).
Proof.
  revert v. induction n as [|n IH]; intros.
  - simpl. by rewrite Z.mod_1_r.
  - simpl be_put. rewrite be_get_snoc, IH.
    replace (8 * Z.of_nat (S n)) with (8 * Z.of_nat n + 8) by lia.
    rewrite Z.pow_add_r by lia.
    rewrite (Z.mul_comm (2 ^ (8 * Z.of_nat n))).
    rewrite Z.rem_mul_r by lia. lia.
Qed.

Lemma be_get_range l : bytes_ok l → 0 ≤ be_get l < 2 ^ (8 * len l).
Proof.
  induction l as [|b l IH] using rev_ind; intros Hok.
  - unfold be_get, len. simpl. lia.
  - apply bytes_ok_app in Hok as [Hl Hb]. apply bytes_ok_cons in Hb as [Hb _].
    specialize (IH Hl). rewrite be_get_snoc, len_app. change (len [b]) with 1.
    replace (8 * (len l + 1)) with (8 * len l + 8) by lia.
    rewrite Z.pow_add_r by (pose proof (len_nonneg l); lia).
    unfold is_byte in Hb. nia.
Qed.

Lemma be_put_get l : bytes_ok l → be_put (length l) (be_get l) = l.
Proof.
  induction l as [|b l IH] using rev_ind; intros Hok; [done|].
  apply bytes_ok_app in Hok as [Hl Hb]. apply bytes_ok_cons in Hb as [Hb _].
  rewrite length_app, Nat.add_comm. simpl be_put. rewrite be_get_snoc.
  unfold is_byte in Hb.
  replace ((be_get l * 2 ^ 8 + b) / 2 ^ 8) with (be_get l) by zlia.
  rewrite IH by done. f_equal. f_equal. zlia.
Qed.

Lemma get_be_app {E} n v l :
  get_be (E:=E) n (be_put n v ++ l) = Ok (v mod 2 ^ (8 * Z.of_nat n)).
Proof.
  unfold get_be. rewrite len_app, len_be_put.
  destruct (Z.ltb_spec (Z.of_nat n + len l) (Z.of_nat n)).
  { pose proof (len_nonneg l). lia. }
  rewrite <- (length_be_put n v) at 1. rewrite take_app_length. by rewrite be_get_put.
Qed.

Lemma get_be_put {E} n v l : 0 ≤ v < 2 ^ (8 * Z.of_nat n) →
  get_be (E:=E) n (be_put n v ++ l) = Ok v.
Proof. intros. by rewrite get_be_app, Z.mod_small. Qed.

Lemma safe_get_be {E} n l (Q : Z → Prop) :
  bytes_ok l → Z.of_nat n ≤ len l →
  (∀ v, 0 ≤ v < 2 ^ (8 * Z.of_nat n) → Q v) → safe (get_be (E:=E) n l) Q.
Proof.
  intros Hok Hn HQ. unfold get_be. destruct (Z.ltb_spec (len l) (Z.of_nat n)); [lia|].
  apply HQ. pose proof (be_get_range (take n l) (bytes_ok_take _ _ Hok)) as Hr.
  unfold len in *. rewrite length_take in Hr.
  by replace (n `min` length l)%nat with n in Hr by lia.
Qed.

(** ** Bits

    A fact about every byte is checked by evaluation on the 256 values. *)

Lemma byte_forall (P : Z → bool) :
  forallb P (seqZ 0 256) = true → ∀ b, is_byte b → P b = true.
Proof.
  intros HP b Hb. rewrite forallb_forall in HP. apply HP.
  apply list_elem_of_In, elem_of_seqZ. unfold is_byte in Hb. lia.
Qed.

(** [byte_exhaust b]: proves an equation of booleans or integers on [b : byte]. *)
Ltac byte_exhaust b :=
  match goal with
  | Hb : is_byte b |- ?x = ?y =>
      revert b Hb;
      match goal with
      | |- ∀ b', is_byte b' → @eq bool (@?f b') (@?g b') =>
          let H := fresh in
          assert (∀ b', is_byte b' → Bool.eqb (f b') (g b') = true) as H
            by (apply byte_forall; vm_compute; reflexivity);
          let b'' := fresh in let Hb'' := fresh in
          intros b'' Hb''; apply Bool.eqb_prop, (H b'' Hb'')
      | |- ∀ b', is_byte b' → @eq Z (@?f b') (@?g b') =>
          let H := fresh in
          assert (∀ b', is_byte b' → Z.eqb (f b') (g b') = true) as H
            by (apply byte_forall; vm_compute; reflexivity);
          let b'' := fresh in let Hb'' := fresh in
          intros b'' Hb''; apply Z.eqb_eq, (H b'' Hb'')
      end
  end.

Lemma bits_above k a n : 0 ≤ k ≤ n → 0 ≤ a < 2 ^ k → Z.testbit a n = false.
Proof.
  intros Hk Ha. rewrite Z.testbit_eqb by lia.
  rewrite Z.div_small; [done|]. split; [lia|].
  eapply Z.lt_le_trans; [apply Ha|]. apply Z.pow_le_mono_r; lia.
Qed.

Lemma lor_add k b a : 0 ≤ k → 0 ≤ a < 2 ^ k → Z.lor (b * 2 ^ k) a = b * 2 ^ k + a.
Proof.
  intros Hk Ha.
  assert (Z.land (b * 2 ^ k) a = 0) as Hl.
  { apply Z.bits_inj'. intros n Hn. rewrite Z.land_spec, Z.bits_0.
    destruct (Z.ltb_spec n k).
    - by rewrite Z.mul_pow2_bits_low by lia.
    - rewrite (bits_above k a n) by lia. by rewrite andb_false_r. }
  rewrite <- Z.lxor_lor by done. by rewrite <- Z.add_nocarry_lxor.
Qed.

Lemma land_low k v : 0 ≤ k → Z.land v (Z.ones k) = v mod 2 ^ k.
Proof. apply Z.land_ones. Qed.

(** ** Record updates

    [r <| f := v |>] is the record [r] with the field [f] set to [v].  A record
    type gives its eta expansion as an instance of [Eta]; the update of a field
    replaces the field's projection in it. *)

Class Eta (R : Type) := eta : R → R.

Class Update {R T : Type} (get : R → T) := update : (T → T) → R → R.
Arguments update {R T} get {_} f r : assert.

Ltac derive_update :=
  match goal with
  | |- @Update ?R _ ?get =>
      let i := constr:(_ : Eta R) in
      let e := eval hnf in i in
      match eval pattern get in e with
      | ?F _ => exact (λ f, F (λ r, f (get r)))
      end
  end.

Notation "r <| f := v |>" := (update f (λ _, v) r) (at level 1, left associativity, f at level 9, v at level 200) : stdpp_scope.
