(* ===== verification/Json.v ===== *)
(** * JSON text, as Go's encoding/json reads and writes it

    The broker's messages are JSON objects.  This file has UTF-8 as the standard
    library decodes it, the values of a JSON text with a parser that follows the
    package's scanner (whitespace, escapes, surrogates, the limit on nesting), a
    printer with the package's escapes, and the way a struct is filled from an
    object ([Unmarshal]: exact names before folded names, later members before
    earlier ones, null, unknown members and wrong types). *)
From stdpp Require Import base tactics numbers list strings.
From Stdlib Require Import ZArith Lia DecimalN DecimalZ.
From S2P Require Import Prelude.
Open Scope Z_scope.
#[local] Set Warnings "-register-all".

Module Json.

(** ** UTF-8 *)

Definition RuneError : Z := 0xFFFD.

Definition within (lo hi b : Z) : bool := (lo <=? b) && (b <=? hi).

(** The first rune and its width; a byte that starts none is [RuneError] of width 1. *)
Definition decode_rune (bs : bytes) : Z * nat :=
  match bs with
  | [] => (RuneError, 0%nat)
  | b0 :: t =>
      if b0 <? 0x80 then (b0, 1%nat) else
      if within 0xC2 0xDF b0 then
        match t with
        | b1 :: _ => if within 0x80 0xBF b1 then ((b0 - 0xC0) * 64 + (b1 - 0x80), 2%nat) else (RuneError, 1%nat)
        | _ => (RuneError, 1%nat)
        end
      else if within 0xE0 0xEF b0 then
        match t with
        | b1 :: b2 :: _ =>
            if within (if b0 =? 0xE0 then 0xA0 else 0x80) (if b0 =? 0xED then 0x9F else 0xBF) b1 && within 0x80 0xBF b2
            then ((b0 - 0xE0) * 4096 + (b1 - 0x80) * 64 + (b2 - 0x80), 3%nat) else (RuneError, 1%nat)
        | _ => (RuneError, 1%nat)
        end
      else if within 0xF0 0xF4 b0 then
        match t with
        | b1 :: b2 :: b3 :: _ =>
            if within (if b0 =? 0xF0 then 0x90 else 0x80) (if b0 =? 0xF4 then 0x8F else 0xBF) b1 && within 0x80 0xBF b2 && within 0x80 0xBF b3
            then ((b0 - 0xF0) * 262144 + (b1 - 0x80) * 4096 + (b2 - 0x80) * 64 + (b3 - 0x80), 4%nat) else (RuneError, 1%nat)
        | _ => (RuneError, 1%nat)
        end
      else (RuneError, 1%nat)
  end.

Definition is_surrogate (r : Z) : bool := within 0xD800 0xDFFF r.

Definition encode_rune (r : Z) : bytes :=
  if within 0 0x7F r then [r] else
  if within 0x80 0x7FF r then [0xC0 + r / 64; 0x80 + r mod 64] else
  if within 0x800 0xFFFF r && negb (is_surrogate r) then [0xE0 + r / 4096; 0x80 + r / 64 mod 64; 0x80 + r mod 64] else
  if within 0x10000 0x10FFFF r then [0xF0 + r / 262144; 0x80 + r / 4096 mod 64; 0x80 + r / 64 mod 64; 0x80 + r mod 64] else
  [0xEF; 0xBF; 0xBD].

(** ** Values *)

Inductive json :=
  | JNull
  | JBool (b : bool)
  | JNumber (literal : bytes)
  | JString (s : bytes)
  | JArray (l : list json)
  | JObject (members : list (bytes * json)).

Definition maxNestingDepth : nat := Z.to_nat 10000.

Abbreviation quote := 34.
Abbreviation backslash := 92.

(** *** Reading *)

Fixpoint skip_ws (bs : bytes) : bytes :=
  match bs with
  | c :: t => if existsb (Z.eqb c) [32; 9; 13; 10] then skip_ws t else bs
  | [] => []
  end.

Definition hex_value (c : Z) : option Z :=
  if within 48 57 c then Some (c - 48) else if within 97 102 c then Some (c - 87) else if within 65 70 c then Some (c - 55) else None.

(** Four hexadecimal digits. *)
Definition getu4 (bs : bytes) : option (Z * bytes) :=
  match bs with
  | a :: b :: c :: d :: t =>
      a ← hex_value a; b ← hex_value b; c ← hex_value c; d ← hex_value d;
      Some (a * 4096 + b * 256 + c * 16 + d, t)
  | _ => None
  end.

(** utf16.DecodeRune: the rune of a surrogate pair. *)
Definition decode_pair (r1 r2 : Z) : Z :=
  if within 0xD800 0xDBFF r1 && within 0xDC00 0xDFFF r2 then (r1 - 0xD800) * 1024 + (r2 - 0xDC00) + 0x10000 else RuneError.

(** A rune that was escaped, with what follows. *)
Definition unicode_escape (bs : bytes) : option (Z * bytes) :=
  '(rr, t) ← getu4 bs;
  if is_surrogate rr then
    match t with
    | 92 :: 117 :: u =>
        match getu4 u with
        | Some (rr1, u') => let dec := decode_pair rr rr1 in if dec =? RuneError then Some (RuneError, t) else Some (dec, u')
        | None => Some (RuneError, t)
        end
    | _ => Some (RuneError, t)
    end
  else Some (rr, t).

Definition simple_escape (c : Z) : option Z :=
  if existsb (Z.eqb c) [quote; backslash; 47] then Some c else
  if c =? 98 then Some 8 else if c =? 102 then Some 12 else if c =? 110 then Some 10 else if c =? 114 then Some 13 else if c =? 116 then Some 9 else None.

(** The rest of a string behind its first quote. *)
Fixpoint parse_chars (fuel : nat) (bs : bytes) : option (bytes * bytes) :=
  match fuel with
  | O => None
  | S fuel =>
      match bs with
      | [] => None
      | c :: t =>
          if c =? quote then Some ([], t) else
          if c =? backslash then
            match t with
            | [] => None
            | e :: u =>
                if e =? 117 then
                  '(r, u) ← unicode_escape u; '(s, rest) ← parse_chars fuel u; Some (encode_rune r ++ s, rest)
                else
                  b ← simple_escape e; '(s, rest) ← parse_chars fuel u; Some (b :: s, rest)
            end
          else if c <? 0x20 then None else
            let '(r, n) := decode_rune bs in
            '(s, rest) ← parse_chars fuel (drop n bs); Some (encode_rune r ++ s, rest)
      end
  end.

Definition is_digit (c : Z) : bool := within 48 57 c.

Fixpoint span_digits (bs : bytes) : bytes * bytes :=
  match bs with
  | c :: t => if is_digit c then let '(ds, r) := span_digits t in (c :: ds, r) else ([], bs)
  | [] => ([], [])
  end.

(** One digit or more. *)
Definition digits1 (bs : bytes) : option (bytes * bytes) :=
  let '(ds, r) := span_digits bs in match ds with [] => None | _ => Some (ds, r) end.

Definition integer_part (bs : bytes) : option (bytes * bytes) :=
  match bs with
  | 48 :: t => Some ([48], t)
  | _ => digits1 bs
  end.

Definition fraction_part (bs : bytes) : option (bytes * bytes) :=
  match bs with
  | 46 :: t => '(ds, r) ← digits1 t; Some (46 :: ds, r)
  | _ => Some ([], bs)
  end.

Definition exponent_part (bs : bytes) : option (bytes * bytes) :=
  match bs with
  | e :: t =>
      if (e =? 101) || (e =? 69) then
        let '(sign, t) := match t with c :: u => if (c =? 43) || (c =? 45) then ([c], u) else ([], t) | [] => ([], t) end in
        '(ds, r) ← digits1 t; Some (e :: sign ++ ds, r)
      else Some ([], bs)
  | [] => Some ([], bs)
  end.

Definition scan_number (bs : bytes) : option (bytes * bytes) :=
  let '(sign, t) := match bs with 45 :: t => ([45], t) | _ => ([], bs) end in
  '(i, t) ← integer_part t; '(f, t) ← fraction_part t; '(e, t) ← exponent_part t;
  Some (sign ++ i ++ f ++ e, t).

Definition literal (word : bytes) (v : json) (bs : bytes) : option (json * bytes) :=
  if bool_decide (take (length word) bs = word) then Some (v, drop (length word) bs) else None.

Definition in_object (depth : nat) : bool := (depth <? maxNestingDepth)%nat.

(** A value; the members of an object behind its brace or a comma; the elements
    of an array.  [depth] counts the objects and arrays around them. *)
Fixpoint parse_value (fuel depth : nat) (bs : bytes) {struct fuel} : option (json * bytes) :=
  match fuel with
  | O => None
  | S fuel =>
      match skip_ws bs with
      | [] => None
      | c :: t =>
          if c =? 123 then
            if in_object depth then
              match skip_ws t with
              | 125 :: r => Some (JObject [], r)
              | _ => '(ms, r) ← parse_members fuel (S depth) t; Some (JObject ms, r)
              end
            else None
          else if c =? 91 then
            if in_object depth then
              match skip_ws t with
              | 93 :: r => Some (JArray [], r)
              | _ => '(l, r) ← parse_elements fuel (S depth) t; Some (JArray l, r)
              end
            else None
          else if c =? quote then '(s, r) ← parse_chars (S (length t)) t; Some (JString s, r)
          else if c =? 116 then literal (gs "true") (JBool true) (c :: t)
          else if c =? 102 then literal (gs "false") (JBool false) (c :: t)
          else if c =? 110 then literal (gs "null") JNull (c :: t)
          else '(n, r) ← scan_number (c :: t); Some (JNumber n, r)
      end
  end
with parse_members (fuel depth : nat) (bs : bytes) {struct fuel} : option (list (bytes * json) * bytes) :=
  match fuel with
  | O => None
  | S fuel =>
      match skip_ws bs with
      | 34 :: t =>
          '(k, t) ← parse_chars (S (length t)) t;
          match skip_ws t with
          | 58 :: t =>
              '(v, t) ← parse_value fuel depth t;
              match skip_ws t with
              | 44 :: t => '(ms, r) ← parse_members fuel depth t; Some ((k, v) :: ms, r)
              | 125 :: r => Some ([(k, v)], r)
              | _ => None
              end
          | _ => None
          end
      | _ => None
      end
  end
with parse_elements (fuel depth : nat) (bs : bytes) {struct fuel} : option (list json * bytes) :=
  match fuel with
  | O => None
  | S fuel =>
      '(v, t) ← parse_value fuel depth bs;
      match skip_ws t with
      | 44 :: t => '(l, r) ← parse_elements fuel depth t; Some (v :: l, r)
      | 93 :: r => Some ([v], r)
      | _ => None
      end
  end.

Definition fuel_for (bs : bytes) : nat := (2 * length bs + 2)%nat.

(** The first value of a text, with what is behind it; a text that is one value. *)
Definition parse_prefix (bs : bytes) : option (json * bytes) := parse_value (fuel_for bs) 0 bs.

Definition parse (bs : bytes) : option json :=
  '(v, r) ← parse_prefix bs; match skip_ws r with [] => Some v | _ => None end.

(** *** Writing *)

Definition hex_digit (v : Z) : Z := if v <? 10 then 48 + v else 87 + v.

(** The bytes below 0x80 that are written as they are. *)
Definition htmlSafe (c : Z) : bool := (0x20 <=? c) && negb (existsb (Z.eqb c) [quote; backslash; 60; 62; 38]).

Definition escape_byte (c : Z) : bytes :=
  if existsb (Z.eqb c) [quote; backslash] then [backslash; c] else
  if c =? 8 then [backslash; 98] else if c =? 12 then [backslash; 102] else if c =? 10 then [backslash; 110] else
  if c =? 13 then [backslash; 114] else if c =? 9 then [backslash; 116] else
  [backslash; 117; 48; 48; hex_digit (c / 16); hex_digit (c mod 16)].

Fixpoint quote_chars (fuel : nat) (s : bytes) : bytes :=
  match fuel, s with
  | S fuel, c :: t =>
      if c <? 0x80 then (if htmlSafe c then [c] else escape_byte c) ++ quote_chars fuel t else
      let '(r, n) := decode_rune s in
      (if (r =? RuneError) && (n =? 1)%nat then [backslash; 117; 102; 102; 102; 100]
       else if (r =? 0x2028) || (r =? 0x2029) then [backslash; 117; 50; 48; 50; hex_digit (Z.land r 0xF)]
       else take n s) ++ quote_chars fuel (drop n s)
  | _, _ => []
  end.

Definition print_string (s : bytes) : bytes := [quote] ++ quote_chars (length s) s ++ [quote].

Definition commas (l : list bytes) : bytes := concat (match l with [] => [] | x :: l => x :: ((λ y, 44 :: y) <$> l) end).

Fixpoint print (v : json) : bytes :=
  match v with
  | JNull => gs "null"
  | JBool b => if b then gs "true" else gs "false"
  | JNumber n => n
  | JString s => print_string s
  | JArray l => [91] ++ commas (map print l) ++ [93]
  | JObject ms => [123] ++ commas (map (λ m, print_string m.1 ++ [58] ++ print m.2) ms) ++ [125]
  end.

(** *** Integers *)

Fixpoint uint_bytes (u : Decimal.uint) : bytes :=
  match u with
  | Decimal.Nil => []
  | Decimal.D0 u => 48 :: uint_bytes u | Decimal.D1 u => 49 :: uint_bytes u | Decimal.D2 u => 50 :: uint_bytes u
  | Decimal.D3 u => 51 :: uint_bytes u | Decimal.D4 u => 52 :: uint_bytes u | Decimal.D5 u => 53 :: uint_bytes u
  | Decimal.D6 u => 54 :: uint_bytes u | Decimal.D7 u => 55 :: uint_bytes u | Decimal.D8 u => 56 :: uint_bytes u
  | Decimal.D9 u => 57 :: uint_bytes u
  end.

(** strconv.FormatInt and FormatUint, base 10. *)
Definition format_int (z : Z) : bytes :=
  match Z.to_int z with
  | Decimal.Pos u => uint_bytes u
  | Decimal.Neg u => 45 :: uint_bytes u
  end.

Fixpoint bytes_uint (bs : bytes) : option Decimal.uint :=
  match bs with
  | [] => Some Decimal.Nil
  | c :: t =>
      u ← bytes_uint t;
      match c - 48 with
      | 0 => Some (Decimal.D0 u) | 1 => Some (Decimal.D1 u) | 2 => Some (Decimal.D2 u) | 3 => Some (Decimal.D3 u) | 4 => Some (Decimal.D4 u)
      | 5 => Some (Decimal.D5 u) | 6 => Some (Decimal.D6 u) | 7 => Some (Decimal.D7 u) | 8 => Some (Decimal.D8 u) | 9 => Some (Decimal.D9 u)
      | _ => None
      end
  end.

(** strconv.ParseInt of a JSON number, base 10, 64 bits. *)
Definition parse_int64 (lit : bytes) : option Z :=
  z ← match lit with
      | 45 :: t => u ← bytes_uint t; Some (Z.of_int (Decimal.Neg u))
      | _ => u ← bytes_uint lit; Some (Z.of_int (Decimal.Pos u))
      end;
  if (- 2 ^ 63 <=? z) && (z <? 2 ^ 63) then Some z else None.

(** Whether strconv.ParseFloat finds a JSON number out of range; the exponent is
    read up to five digits, and the rest of its digits are skipped. *)
Definition read_exponent (ds : bytes) : Z := foldl (λ e c, if e <? 10000 then e * 10 + (c - 48) else e) 0 ds.

Definition float_overflows (lit : bytes) : bool :=
  let t := match lit with 45 :: t => t | _ => lit end in
  let '(i, t) := span_digits t in
  let '(f, t) := match t with 46 :: t => span_digits t | _ => ([], t) end in
  let e := match t with
           | _ :: 45 :: ds => - read_exponent ds
           | _ :: 43 :: ds => read_exponent ds
           | _ :: ds => read_exponent ds
           | [] => 0
           end in
  let m := foldl (λ a c, a * 10 + (c - 48)) 0 (i ++ f) in
  let e := e - len f in
  let bound := 2 ^ 1024 - 2 ^ 970 in
  if 0 <=? e then bound <=? m * 10 ^ e else bound * 10 ^ (- e) <=? m.

(** *** Structs *)

(** A field: its name, and how a value is stored; [None] is a value of another
    type. *)
Record field (R : Type) := MkField { f_name : bytes; f_set : json → R → option R }.
Arguments MkField {R}.
Arguments f_name {R}.
Arguments f_set {R}.

Definition string_field {R} (name : bytes) (set : bytes → R → R) : field R :=
  MkField name (λ v r, match v with JNull => Some r | JString s => Some (set s r) | _ => None end).

Definition int64_field {R} (name : bytes) (set : Z → R → R) : field R :=
  MkField name (λ v r, match v with JNull => Some r | JNumber lit => z ← parse_int64 lit; Some (set z r) | _ => None end).

(** A pointer to a string. *)
Definition pointer_field {R} (name : bytes) (set : option bytes → R → R) : field R :=
  MkField name (λ v r, match v with JNull => Some (set None r) | JString s => Some (set (Some s) r) | _ => None end).

(** A name up to case: for names of ASCII letters the other runes that fold to a
    letter are the long s and the Kelvin sign. *)
Fixpoint fold_name (fuel : nat) (s : bytes) : list Z :=
  match fuel, s with
  | S fuel, _ :: _ =>
      let '(r, n) := decode_rune s in
      (if within 97 122 r then r - 32 else if r =? 0x17F then 83 else if r =? 0x212A then 75 else r) :: fold_name fuel (drop n s)
  | _, _ => []
  end.

Definition folded (s : bytes) : list Z := fold_name (length s) s.

Definition find_field {R} (fields : list (field R)) (key : bytes) : option (field R) :=
  match find (λ f, bool_decide (f_name f = key)) fields with
  | Some f => Some f
  | None => find (λ f, bool_decide (folded (f_name f) = folded key)) fields
  end.

(** The members are stored in their order; the first error is reported in the
    end.  [strict] is DisallowUnknownFields. *)
Definition store_member {R} (strict : bool) (fields : list (field R)) (st : R * bool) (m : bytes * json) : R * bool :=
  let '(r, ok) := st in
  match find_field fields m.1 with
  | None => (r, ok && negb strict)
  | Some f => match f_set f m.2 r with Some r => (r, ok) | None => (r, false) end
  end.

Definition store {R} (strict : bool) (fields : list (field R)) (v : json) (r : R) : option R :=
  match v with
  | JNull => Some r
  | JObject ms => let '(r, ok) := foldl (store_member strict fields) (r, true) ms in if ok then Some r else None
  | _ => None
  end.

(** json.Unmarshal into a struct, and Decode of a decoder that was just made. *)
Definition Unmarshal {R} (fields : list (field R)) (data : bytes) (r : R) : option R :=
  v ← parse data; store false fields v r.

(** Behind a value that is no object or array the decoder wants a space or the end. *)
Definition delimited (v : json) (rest : bytes) : bool :=
  match v, rest with
  | JObject _, _ | JArray _, _ | _, [] => true
  | _, c :: _ => existsb (Z.eqb c) [32; 9; 13; 10]
  end.

Definition Decode {R} (strict : bool) (fields : list (field R)) (data : bytes) (r : R) : option R :=
  '(v, rest) ← parse_prefix data; if delimited v rest then store strict fields v r else None.

(** json.Unmarshal into a map of values: every number must be a float64. *)
Fixpoint floats_ok (v : json) : bool :=
  match v with
  | JNumber n => negb (float_overflows n)
  | JArray l => forallb floats_ok l
  | JObject ms => forallb (λ m, floats_ok m.2) ms
  | _ => true
  end.

(** The map's entry for a key; [None] when the text is not an object or null. *)
Definition Unmarshal_map (data : bytes) : option (list (bytes * json)) :=
  v ← parse data;
  match v with
  | JNull => Some []
  | JObject ms => if forallb (λ m, floats_ok m.2) ms then Some ms else None
  | _ => None
  end.

Definition map_lookup (key : bytes) (ms : list (bytes * json)) : option json :=
  snd <$> find (λ m, bool_decide (m.1 = key)) (reverse ms).

(** ** Lemmas *)

Definition is_rune (r : Z) : Prop := 0 ≤ r < 0xD800 ∨ 0xE000 ≤ r ≤ 0x10FFFF.

(** Valid UTF-8. *)
Inductive utf8 : bytes → Prop :=
  | utf8_nil : utf8 []
  | utf8_rune r s : is_rune r → utf8 s → utf8 (encode_rune r ++ s).

Lemma within_spec lo hi b : within lo hi b = true ↔ lo ≤ b ≤ hi.
Proof. unfold within. rewrite andb_true_iff, !Z.leb_le. done. Qed.

Lemma within_not lo hi b : within lo hi b = false ↔ b < lo ∨ hi < b.
Proof. unfold within. rewrite andb_false_iff, !Z.leb_gt. done. Qed.

Ltac ranges := repeat first
  [ rewrite (proj2 (within_spec _ _ _)) by zlia | rewrite (proj2 (within_not _ _ _)) by zlia
  | rewrite (proj2 (Z.ltb_lt _ _)) by zlia | rewrite (proj2 (Z.ltb_ge _ _)) by zlia ]; cbn [andb negb].

(** What the runes are written as. *)
Lemma encode_rune_cases r : is_rune r →
  (0 ≤ r < 0x80 ∧ encode_rune r = [r]) ∨
  (0x80 ≤ r < 0x800 ∧ encode_rune r = [0xC0 + r / 64; 0x80 + r mod 64]) ∨
  (0x800 ≤ r < 0x10000 ∧ ¬ (0xD800 ≤ r ≤ 0xDFFF) ∧ encode_rune r = [0xE0 + r / 4096; 0x80 + r / 64 mod 64; 0x80 + r mod 64]) ∨
  (0x10000 ≤ r ≤ 0x10FFFF ∧ encode_rune r = [0xF0 + r / 262144; 0x80 + r / 4096 mod 64; 0x80 + r / 64 mod 64; 0x80 + r mod 64]).
Proof.
  intros Hr. unfold is_rune in Hr. unfold encode_rune, is_surrogate.
  destruct (Z_lt_le_dec r 0x80); [left; split; [lia|]; by ranges|right]. destruct (Z_lt_le_dec r 0x800); [left; split; [lia|]; by ranges|right].
  destruct (Z_lt_le_dec r 0x10000); [left; split_and!; [lia..|]; by ranges|right]. split; [lia|]. by ranges.
Qed.

Lemma decode_encode r s : is_rune r → decode_rune (encode_rune r ++ s) = (r, length (encode_rune r)).
Proof.
  intros [[Hr ->]|[[Hr ->]|[(Hr & Hs & ->)|[Hr ->]]]]%encode_rune_cases; cbn [app decode_rune length]; ranges.
  - done.
  - f_equal. zlia.
  - replace (within (if 0xE0 + r / 4096 =? 0xE0 then 0xA0 else 0x80) (if 0xE0 + r / 4096 =? 0xED then 0x9F else 0xBF) (0x80 + r / 64 mod 64)) with true.
    { ranges. f_equal. zlia. }
    symmetry. apply within_spec. destruct (Z.eqb_spec (0xE0 + r / 4096) 0xE0), (Z.eqb_spec (0xE0 + r / 4096) 0xED); zlia.
  - replace (within (if 0xF0 + r / 262144 =? 0xF0 then 0x90 else 0x80) (if 0xF0 + r / 262144 =? 0xF4 then 0x8F else 0xBF) (0x80 + r / 4096 mod 64)) with true.
    { ranges. f_equal. zlia. }
    symmetry. apply within_spec. destruct (Z.eqb_spec (0xF0 + r / 262144) 0xF0), (Z.eqb_spec (0xF0 + r / 262144) 0xF4); zlia.
Qed.

(** *** Strings *)

Definition written (c : Z) : bytes := if htmlSafe c then [c] else escape_byte c.

Lemma hex_value_digit v : 0 ≤ v < 16 → hex_value (hex_digit v) = Some v.
Proof.
  intros Hv. unfold hex_digit. destruct (Z.ltb_spec v 10); unfold hex_value; ranges; f_equal; lia.
Qed.

Lemma getu4_digits a b c d t : 0 ≤ a < 16 → 0 ≤ b < 16 → 0 ≤ c < 16 → 0 ≤ d < 16 →
  getu4 (hex_digit a :: hex_digit b :: hex_digit c :: hex_digit d :: t) = Some (a * 4096 + b * 256 + c * 16 + d, t).
Proof. intros Ha Hb Hc Hd. cbn [getu4]. by rewrite !hex_value_digit by done. Qed.

(** An escaped rune of the basic plane. *)
Lemma parse_escaped n r t : 0 ≤ r < 0x10000 → is_rune r →
  parse_chars (S n) ([backslash; 117; hex_digit (r / 4096); hex_digit (r / 256 mod 16); hex_digit (r / 16 mod 16); hex_digit (r mod 16)] ++ t) =
  ('(s, rest) ← parse_chars n t; Some (encode_rune r ++ s, rest)).
Proof.
  intros Hr Hru. cbn [app parse_chars]. change (backslash =? quote) with false. change (backslash =? backslash) with true. change (117 =? 117) with true.
  cbv iota. unfold unicode_escape. rewrite getu4_digits by zlia. cbn [mbind option_bind].
  replace (r / 4096 * 4096 + r / 256 mod 16 * 256 + r / 16 mod 16 * 16 + r mod 16) with r by zlia.
  replace (is_surrogate r) with false; [done|]. symmetry. apply within_not. destruct Hru; lia.
Qed.

Lemma encode_ascii c : 0 ≤ c < 0x80 → encode_rune c = [c].
Proof. intros Hc. unfold encode_rune. by ranges. Qed.

Lemma parse_written n c t : 0 ≤ c < 0x80 → parse_chars (S n) (written c ++ t) = ('(s, rest) ← parse_chars n t; Some (c :: s, rest)).
Proof.
  intros Hc. unfold written. destruct (htmlSafe c) eqn:Es.
  - unfold htmlSafe in Es. rewrite andb_true_iff, negb_true_iff, Z.leb_le in Es. destruct Es as [H20 Es]. cbn [existsb] in Es. rewrite !orb_false_iff in Es.
    destruct Es as (Eq & Eb & _). cbn [app parse_chars]. rewrite Eq, Eb. ranges. cbn [decode_rune]. ranges. cbn [drop]. by rewrite encode_ascii.
  - unfold escape_byte. destruct (existsb (Z.eqb c) [quote; backslash]) eqn:Eq.
    { cbn [existsb] in Eq. rewrite !orb_true_iff, !Z.eqb_eq in Eq. by destruct Eq as [->|[->|?]]. }
    repeat match goal with |- context [if c =? ?k then _ else _] => destruct (Z.eqb_spec c k) as [->|]; [done|] end.
    pose proof (parse_escaped n c t ltac:(lia) ltac:(left; lia)) as He. rewrite encode_ascii in He by done. cbn [app] in He. rewrite <- He.
    replace (c / 4096) with 0 by zlia. replace (c / 256 mod 16) with 0 by zlia. replace (c / 16 mod 16) with (c / 16) by zlia. done.
Qed.

Lemma parse_raw n r t : 0x80 ≤ r → is_rune r → parse_chars (S n) (encode_rune r ++ t) = ('(s, rest) ← parse_chars n t; Some (encode_rune r ++ s, rest)).
Proof.
  intros Hr Hru. pose proof (decode_encode r t Hru) as Hd.
  assert (∃ c u, encode_rune r = c :: u ∧ 0x80 ≤ c) as (c & u & Ec & Hc).
  { destruct (encode_rune_cases r Hru) as [[? ?]|[[? ->]|[(? & ? & ->)|[? ->]]]]; [lia|eexists _, _; split; [done|zlia]..]. }
  cbn [parse_chars]. rewrite Ec in *. cbn [app]. cbn [app] in Hd. rewrite (proj2 (Z.eqb_neq c quote)), (proj2 (Z.eqb_neq c backslash)) by lia.
  rewrite (proj2 (Z.ltb_ge c 0x20)) by lia. rewrite Hd. change (c :: u ++ t) with ((c :: u) ++ t). rewrite drop_app_length. by rewrite Ec.
Qed.

Lemma encode_nonempty r : (0 < length (encode_rune r))%nat.
Proof. unfold encode_rune. repeat case_match; cbn; lia. Qed.

Lemma parse_quoted s k n rest : utf8 s → (length s ≤ k)%nat → (length (quote_chars k s) < n)%nat →
  parse_chars n (quote_chars k s ++ quote :: rest) = Some (s, rest).
Proof.
  intros Hs. revert k n. induction Hs as [|r s Hr _ IH]; intros k n Hk Hn.
  { destruct n; [cbn in Hn; lia|]. by destruct k. }
  pose proof (encode_nonempty r) as Hne. rewrite length_app in Hk. destruct k as [|k]; [lia|]. destruct n as [|n]; [lia|].
  assert (∀ piece, quote_chars (S k) (encode_rune r ++ s) = piece ++ quote_chars k s → (0 < length piece)%nat →
    (∀ t, parse_chars (S n) (piece ++ t) = ('(s, rest) ← parse_chars n t; Some (encode_rune r ++ s, rest))) →
    parse_chars (S n) (quote_chars (S k) (encode_rune r ++ s) ++ quote :: rest) = Some (encode_rune r ++ s, rest)) as Hstep.
  { intros piece Hq Hp Hparse. rewrite Hq in *. rewrite length_app in Hn. rewrite <- (assoc_L (++)), Hparse, IH by lia. done. }
  destruct (Z_lt_le_dec r 0x80) as [Hlt|Hge].
  - apply (Hstep (written r)).
    + rewrite encode_ascii by (destruct Hr; lia). cbn [app quote_chars]. by ranges.
    + unfold written, escape_byte. repeat case_match; cbn; lia.
    + intros t. rewrite parse_written, encode_ascii by (destruct Hr; lia). done.
  - assert (∃ c u, encode_rune r = c :: u ∧ 0x80 ≤ c) as (c & u & Ec & Hc).
    { destruct (encode_rune_cases r Hr) as [[? ?]|[[? ->]|[(? & ? & ->)|[? ->]]]]; [lia|eexists _, _; split; [done|zlia]..]. }
    assert (quote_chars (S k) (encode_rune r ++ s) = (if (r =? 0x2028) || (r =? 0x2029) then [backslash; 117; 50; 48; 50; hex_digit (Z.land r 0xF)] else encode_rune r) ++ quote_chars k s) as Hq.
    { pose proof (decode_encode r s Hr) as Hd. cbn [quote_chars]. rewrite Ec in *. cbn [app] in Hd |- *. rewrite (proj2 (Z.ltb_ge c 0x80)) by lia. rewrite Hd.
      change (c :: u ++ s) with ((c :: u) ++ s). rewrite drop_app_length, take_app_length. rewrite <- Ec.
      replace ((r =? RuneError) && (length (encode_rune r) =? 1)%nat) with false; [done|]. symmetry. apply andb_false_iff. unfold RuneError.
      destruct (Z.eqb_spec r 0xFFFD) as [->|]; [right|by left]. done. }
    destruct ((r =? 0x2028) || (r =? 0x2029)) eqn:El; (eapply Hstep; [exact Hq|cbn; lia || done|]).
    + intros t. rewrite orb_true_iff, !Z.eqb_eq in El. destruct El as [E|E]; subst r; [apply (parse_escaped n 0x2028)|apply (parse_escaped n 0x2029)]; done || (left; lia).
    + intros t. by apply parse_raw.
Qed.

Lemma parse_string s rest : utf8 s → let t := quote_chars (length s) s ++ quote :: rest in parse_chars (S (length t)) t = Some (s, rest).
Proof. intros Hs. apply parse_quoted; [done..|]. rewrite length_app. lia. Qed.

(** *** Numbers *)

(** What may stand behind a value inside of an object or array. *)
Definition closes (rest : bytes) : Prop := match rest with [] => True | c :: _ => c ∈ [44; 125; 93] end.

Lemma span_digits_app bs ds t rest : span_digits bs = (ds, t) → closes rest → span_digits (bs ++ rest) = (ds, t ++ rest).
Proof.
  intros Hs Hc. revert ds t Hs. induction bs as [|c bs IH]; intros ds t.
  - intros [= <- <-]. destruct rest as [|c rest]; [done|]. cbn [app span_digits]. cbn [closes] in Hc.
    rewrite !elem_of_cons, elem_of_nil in Hc. by destruct Hc as [->|[->|[->|[]]]].
  - cbn [app span_digits]. destruct (is_digit c); [|by intros [= <- <-]]. destruct (span_digits bs) as [ds' t'] eqn:E. intros [= <- <-]. by rewrite (IH ds' t').
Qed.

Lemma digits1_app bs ds t rest : digits1 bs = Some (ds, t) → closes rest → digits1 (bs ++ rest) = Some (ds, t ++ rest).
Proof.
  unfold digits1. destruct (span_digits bs) as [ds' t'] eqn:E. intros Hd Hc. rewrite (span_digits_app _ _ _ _ E Hc). destruct ds'; [done|]. by injection Hd as <- <-.
Qed.

Lemma integer_part_app bs i t rest : integer_part bs = Some (i, t) → closes rest → integer_part (bs ++ rest) = Some (i, t ++ rest).
Proof.
  intros Hi Hc. unfold integer_part in *. destruct bs as [|c bs]; [done|]. cbn [app]. destruct (decide (c = 48)) as [->|Hn]; [by injection Hi as <- <-|].
  assert (∀ u, match c with 48 => Some ([48], u) | _ => digits1 (c :: u) end = digits1 (c :: u)) as E.
  { intros u. destruct c as [|p|p]; try done. do 6 (destruct p as [p|p|]; try done). }
  rewrite E in Hi |- *. by apply (digits1_app (c :: bs)).
Qed.

Lemma fraction_part_app bs f t rest : fraction_part bs = Some (f, t) → closes rest → fraction_part (bs ++ rest) = Some (f, t ++ rest).
Proof.
  intros Hf Hc. destruct bs as [|c bs].
  { injection Hf as <- <-. cbn [app]. destruct rest as [|c rest]; [done|]. cbn [closes] in Hc. rewrite !elem_of_cons, elem_of_nil in Hc. by destruct Hc as [->|[->|[->|[]]]]. }
  unfold fraction_part in *. cbn [app]. destruct (decide (c = 46)) as [->|Hn].
  - apply bind_Some in Hf as ([ds r] & Hd & [= <- <-]). by rewrite (digits1_app _ _ _ _ Hd Hc).
  - assert (∀ u, match c with 46 => '(ds, r) ← digits1 u; Some (46 :: ds, r) | _ => Some ([], c :: u) end = Some ([], c :: u)) as E.
    { intros u. destruct c as [|p|p]; try done. do 6 (destruct p as [p|p|]; try done). }
    rewrite E in Hf |- *. by injection Hf as <- <-.
Qed.

Lemma exponent_part_app bs e t rest : exponent_part bs = Some (e, t) → closes rest → exponent_part (bs ++ rest) = Some (e, t ++ rest).
Proof.
  intros He Hc. destruct bs as [|c bs]; cbn [app exponent_part] in *.
  { injection He as <- <-. destruct rest as [|c rest]; [done|]. cbn [closes] in Hc. rewrite !elem_of_cons, elem_of_nil in Hc. by destruct Hc as [->|[->|[->|[]]]]. }
  destruct ((c =? 101) || (c =? 69)); [|by injection He as <- <-]. destruct bs as [|s bs]; [done|]. cbn [app].
  destruct ((s =? 43) || (s =? 45)); apply bind_Some in He as ([ds r] & Hd & [= <- <-]).
  - by rewrite (digits1_app _ _ _ _ Hd Hc).
  - pose proof (digits1_app (s :: bs) _ _ _ Hd Hc) as E. cbn [app] in E. by rewrite E.
Qed.

Lemma scan_number_app bs n t rest : scan_number bs = Some (n, t) → closes rest → scan_number (bs ++ rest) = Some (n, t ++ rest).
Proof.
  unfold scan_number. intros Hn Hc.
  assert (bs ≠ []) as Hne by (by intros ->).
  assert (match bs ++ rest with 45 :: t => ([45], t) | _ => ([], bs ++ rest) end =
    let '(sg, u) := match bs with 45 :: t => ([45], t) | _ => ([], bs) end in (sg, u ++ rest)) as ->.
  { destruct bs as [|c bs]; [done|]. cbn [app]. destruct c as [|p|p]; try done. do 6 (destruct p as [p|p|]; try done). }
  destruct (match bs with 45 :: t => ([45], t) | _ => ([], bs) end) as [sg u].
  apply bind_Some in Hn as ([i t1] & Hi & Hn). apply bind_Some in Hn as ([f t2] & Hf & Hn). apply bind_Some in Hn as ([e t3] & He & [= <- <-]).
  rewrite (integer_part_app _ _ _ _ Hi Hc). cbn [mbind option_bind]. rewrite (fraction_part_app _ _ _ _ Hf Hc). cbn [mbind option_bind].
  by rewrite (exponent_part_app _ _ _ _ He Hc).
Qed.

(** Integers are written as numbers, and read back. *)
Definition is_number (lit : bytes) : Prop := scan_number lit = Some (lit, []).

Lemma bytes_uint_bytes u : bytes_uint (uint_bytes u) = Some u.
Proof. induction u as [|u IH|u IH|u IH|u IH|u IH|u IH|u IH|u IH|u IH|u IH]; cbn [uint_bytes bytes_uint]; rewrite ?IH; done. Qed.

Lemma uint_bytes_digits u : span_digits (uint_bytes u) = (uint_bytes u, []).
Proof. induction u as [|u IH|u IH|u IH|u IH|u IH|u IH|u IH|u IH|u IH|u IH]; cbn [uint_bytes span_digits]; rewrite ?IH; done. Qed.

Lemma integer_part_uint (n : N) : integer_part (uint_bytes (N.to_uint n)) = Some (uint_bytes (N.to_uint n), []).
Proof.
  assert (N.to_uint n = Decimal.zero ∨ (∀ u, N.to_uint n ≠ Decimal.D0 u) ∧ N.to_uint n ≠ Decimal.Nil) as Hd.
  { pose proof (DecimalN.Unsigned.to_of (N.to_uint n)) as Hu. rewrite DecimalN.Unsigned.of_to in Hu. rewrite Hu. unfold Decimal.unorm.
    destruct (Decimal.nzhead (N.to_uint n)) as [|u|u|u|u|u|u|u|u|u|u] eqn:E; [by left|by destruct (DecimalFacts.nzhead_nonzero _ _ E)|by right..]. }
  destruct Hd as [->|[Hd Hn]]; [done|]. pose proof (uint_bytes_digits (N.to_uint n)) as Hs. revert Hs.
  destruct (N.to_uint n) as [|u|u|u|u|u|u|u|u|u|u]; [done|by destruct (Hd u)|..]; cbn [uint_bytes integer_part]; unfold digits1; by intros ->.
Qed.

Lemma Z_to_int_N z : Z.to_int z = if 0 <=? z then Decimal.Pos (N.to_uint (Z.to_N z)) else Decimal.Neg (N.to_uint (Z.to_N (- z))).
Proof. by destruct z. Qed.

Lemma format_int_number z : is_number (format_int z).
Proof.
  unfold is_number, format_int. rewrite Z_to_int_N. destruct (0 <=? z).
  - unfold scan_number. assert (∀ u, match uint_bytes u with 45 :: t => ([45], t) | _ => ([], uint_bytes u) end = ([], uint_bytes u)) as -> by (by intros []).
    rewrite integer_part_uint. cbn. by rewrite app_nil_r.
  - cbn [scan_number]. rewrite integer_part_uint. cbn. by rewrite app_nil_r.
Qed.

Lemma parse_format_int z : - 2 ^ 63 ≤ z < 2 ^ 63 → parse_int64 (format_int z) = Some z.
Proof.
  intros Hz. unfold parse_int64, format_int. pose proof (DecimalZ.of_to z) as Ho.
  destruct (Z.to_int z) as [u|u]; cbn [bytes_uint].
  - assert (match uint_bytes u with 45 :: t => u ← bytes_uint t; Some (Z.of_int (Decimal.Neg u)) | _ => u ← bytes_uint (uint_bytes u); Some (Z.of_int (Decimal.Pos u)) end =
      Some (Z.of_int (Decimal.Pos u))) as ->.
    { pose proof (bytes_uint_bytes u) as Hb. revert Hb. by destruct u; cbn [uint_bytes]; intros ->. }
    rewrite Ho. cbn [mbind option_bind]. rewrite (proj2 (Z.leb_le _ _)), (proj2 (Z.ltb_lt _ _)) by lia. done.
  - rewrite bytes_uint_bytes. cbn [mbind option_bind]. rewrite Ho, (proj2 (Z.leb_le _ _)), (proj2 (Z.ltb_lt _ _)) by lia. done.
Qed.

(** *** Values *)

(** Values that can be written inside of [d] objects and arrays. *)
Inductive text_ok (d : nat) : json → Prop :=
  | ok_null : text_ok d JNull
  | ok_bool b : text_ok d (JBool b)
  | ok_number n : is_number n → text_ok d (JNumber n)
  | ok_string s : utf8 s → text_ok d (JString s)
  | ok_array l : (d < maxNestingDepth)%nat → Forall (text_ok (S d)) l → text_ok d (JArray l)
  | ok_object ms : (d < maxNestingDepth)%nat → Forall (λ m, utf8 m.1 ∧ text_ok (S d) m.2) ms → text_ok d (JObject ms).

Section induction.
Context (P : json → Prop) (Hnull : P JNull) (Hbool : ∀ b, P (JBool b)) (Hnum : ∀ n, P (JNumber n)) (Hstr : ∀ s, P (JString s))
  (Harr : ∀ l, Forall P l → P (JArray l)) (Hobj : ∀ ms, Forall (λ m, P m.2) ms → P (JObject ms)).

Definition json_nested_ind : ∀ v, P v :=
  fix go v :=
    match v with
    | JNull => Hnull
    | JBool b => Hbool b
    | JNumber n => Hnum n
    | JString s => Hstr s
    | JArray l => Harr l ((fix all l := match l return Forall P l with [] => Forall_nil_2 _ | v :: l => Forall_cons_2 _ _ _ (go v) (all l) end) l)
    | JObject ms => Hobj ms ((fix all ms := match ms return Forall (λ m, P m.2) ms with [] => Forall_nil_2 _ | m :: ms => Forall_cons_2 _ _ _ (go m.2) (all ms) end) ms)
    end.
End induction.

Lemma skip_ws_other c t : c ∉ [32; 9; 13; 10] → skip_ws (c :: t) = c :: t.
Proof.
  intros Hc. cbn [skip_ws]. destruct (existsb (Z.eqb c) _) eqn:E; [|done]. apply existsb_exists in E as (x & Hx & ->%Z.eqb_eq). by rewrite <- list_elem_of_In in Hx.
Qed.

Ltac not_listed := rewrite !not_elem_of_cons; repeat split; try lia; apply not_elem_of_nil.

(** How the text of a value begins. *)
Definition head_ok (bs : bytes) : Prop := ∃ c t, bs = c :: t ∧ c ∉ [32; 9; 13; 10; 93; 125].

Lemma number_head n : is_number n → ∃ c t, n = c :: t ∧ 45 ≤ c ≤ 57.
Proof.
  unfold is_number, scan_number. intros Hn. destruct n as [|c t]; [done|]. exists c, t. split; [done|]. destruct (decide (c = 45)) as [->|H45]; [lia|].
  destruct (decide (c = 48)) as [->|H48]; [lia|].
  assert (match c :: t with 45 :: t' => ([45], t') | _ => ([], c :: t) end = ([], c :: t)) as E.
  { destruct c as [|p|p]; try done. do 6 (destruct p as [p|p|]; try done). }
  rewrite E in Hn. apply bind_Some in Hn as ([i t1] & Hi & _).
  assert (integer_part (c :: t) = digits1 (c :: t)) as E2 by (destruct c as [|p|p]; try done; do 6 (destruct p as [p|p|]; try done)).
  rewrite E2 in Hi. unfold digits1 in Hi. cbn [span_digits] in Hi. destruct (is_digit c) eqn:Ed; [|done]. apply within_spec in Ed. lia.
Qed.

Lemma print_head d v : text_ok d v → head_ok (print v).
Proof.
  intros [|b|n Hn|s _|l _ _|ms _ _]; cbn [print].
  - exists 110, (gs "ull"). split; [done|not_listed].
  - destruct b; [exists 116, (gs "rue")|exists 102, (gs "alse")]; (split; [done|not_listed]).
  - destruct (number_head n Hn) as (c & t & -> & Hc). exists c, t. split; [done|not_listed].
  - eexists quote, _. split; [done|not_listed].
  - eexists 91, _. split; [done|not_listed].
  - eexists 123, _. split; [done|not_listed].
Qed.

Lemma commas_cons x y l : commas (x :: y :: l) = x ++ 44 :: commas (y :: l).
Proof. unfold commas. by rewrite fmap_cons. Qed.

Lemma commas_one x : commas [x] = x.
Proof. unfold commas. cbn. by rewrite app_nil_r. Qed.

(** A value is read back: enough fuel is twice the length of its text. *)
Definition reads (v : json) : Prop := ∀ d n rest, text_ok d v → closes rest → (2 * length (print v) ≤ n)%nat →
  parse_value n d (print v ++ rest) = Some (v, rest).

Lemma parse_elements_print l d n rest : l ≠ [] → Forall reads l → Forall (text_ok d) l → (2 * length (commas (map print l)) < n)%nat →
  parse_elements n d (commas (map print l) ++ 93 :: rest) = Some (l, rest).
Proof.
  intros Hne Hr Hok. revert n Hne. induction Hr as [|v l Hv Hl IH]; intros n Hne Hn; [done|]. inversion Hok as [|? ? Hokv Hokl]; subst.
  destruct (print_head d v Hokv) as (c & u & Ec & _). destruct n as [|n]; [lia|]. cbn [parse_elements]. destruct l as [|w l].
  - cbn [map] in *. rewrite commas_one in *. rewrite Hv; [|done|cbn [closes]; rewrite !elem_of_cons; auto|lia]. done.
  - cbn [map] in *. rewrite commas_cons in *. rewrite length_app in Hn. cbn [length] in Hn. rewrite <- (assoc_L (++)). cbn [app].
    rewrite Hv; [|done|cbn [closes]; rewrite !elem_of_cons; auto|lia]. cbn [mbind option_bind]. rewrite skip_ws_other by not_listed.
    rewrite IH; [done..|]. cbn [map]. rewrite Ec in Hn. cbn [length] in Hn. lia.
Qed.

Definition print_member (m : bytes * json) : bytes := print_string m.1 ++ [58] ++ print m.2.

Lemma parse_members_print ms d n rest : ms ≠ [] → Forall (λ m, reads m.2) ms → Forall (λ m, utf8 m.1 ∧ text_ok d m.2) ms →
  (2 * length (commas (map print_member ms)) < n)%nat →
  parse_members n d (commas (map print_member ms) ++ 125 :: rest) = Some (ms, rest).
Proof.
  intros Hne Hr Hok. revert n Hne. induction Hr as [|[k v] ms Hv Hms IH]; intros n Hne Hn; [done|]. inversion Hok as [|? ? [Hk Hokv] Hokms]; subst.
  cbn [fst snd] in *. destruct n as [|n]; [lia|].
  assert (∀ tail, parse_members (S n) d (print_member (k, v) ++ tail) = '(v, t) ← parse_value n d (print v ++ tail);
    match skip_ws t with
    | 44 :: t => '(ms, r) ← parse_members n d t; Some ((k, v) :: ms, r)
    | 125 :: r => Some ([(k, v)], r)
    | _ => None
    end) as Hstep.
  { intros tail. unfold print_member, print_string. cbn [fst snd]. rewrite <- !(assoc_L (++)). cbn [app parse_members]. rewrite skip_ws_other by not_listed.
    rewrite (parse_string k _ Hk). done. }
  assert (length (print v) < length (print_member (k, v)))%nat as Hlen by (unfold print_member, print_string; cbn [fst snd]; rewrite !length_app; cbn [length]; lia).
  destruct ms as [|m ms].
  - cbn [map] in *. rewrite commas_one in *. rewrite Hstep, Hv; [|done|cbn [closes]; rewrite !elem_of_cons; auto|lia]. done.
  - cbn [map] in *. rewrite commas_cons in *. rewrite length_app in Hn. cbn [length] in Hn. rewrite <- (assoc_L (++)). cbn [app]. rewrite Hstep.
    rewrite Hv; [|done|cbn [closes]; rewrite !elem_of_cons; auto|lia]. cbn [mbind option_bind]. rewrite skip_ws_other by not_listed.
    rewrite IH; [done..|]. cbn [map]. lia.
Qed.

Lemma print_reads v : reads v.
Proof.
  induction v as [|b|m|s|l IH|ms IH] using json_nested_ind; intros d n rest Hok Hc Hn.
  - destruct n as [|n]; [cbn in Hn; lia|]. done.
  - destruct n as [|n]; [destruct b; cbn in Hn; lia|]. by destruct b.
  - inversion Hok as [| |? Hm| | |]; subst. destruct (number_head m Hm) as (c & t & Ec & Hcr). destruct n as [|n]; [cbn in Hn; rewrite Ec in Hn; cbn in Hn; lia|].
    pose proof (scan_number_app m m [] rest Hm Hc) as Hs. cbn [print]. rewrite Ec in Hs |- *. cbn [app parse_value] in *. rewrite skip_ws_other by not_listed.
    repeat match goal with |- context [c =? ?k] => rewrite (proj2 (Z.eqb_neq c k)) by lia end. by rewrite Hs.
  - inversion Hok as [| | |? Hs| |]; subst. destruct n as [|n]; [cbn in Hn; lia|]. cbn [print]. unfold print_string. rewrite <- !(assoc_L (++)).
    cbn [app parse_value]. rewrite skip_ws_other by not_listed. by rewrite (parse_string s rest Hs).
  - inversion Hok as [| | | |? Hd Hl|]; subst. cbn [print] in *. rewrite !length_app in Hn. cbn [length] in Hn. destruct n as [|n]; [lia|].
    rewrite <- !(assoc_L (++)). cbn [app parse_value]. rewrite skip_ws_other by not_listed. unfold in_object. rewrite (proj2 (Nat.ltb_lt _ _) Hd).
    destruct l as [|v l]; [done|]. pose proof (Forall_inv Hl) as Hv. destruct (print_head _ _ Hv) as (c & t & Ec & Hh).
    assert (commas (map print (v :: l)) ++ 93 :: rest = c :: (t ++ match map print l with [] => [] | x :: k => 44 :: commas (x :: k) end ++ 93 :: rest)) as E.
    { cbn [map]. destruct (map print l); [rewrite commas_one|rewrite commas_cons]; rewrite Ec; cbn [app]; by rewrite <- ?(assoc_L (++)). }
    pose proof (parse_elements_print (v :: l) (S d) n rest ltac:(done) IH Hl ltac:(lia)) as Hp. rewrite E in Hp |- *.
    rewrite !not_elem_of_cons in Hh. destruct Hh as (? & ? & ? & ? & H93 & ? & _). rewrite skip_ws_other by not_listed.
    destruct c as [|q|q]; try (by rewrite Hp). do 7 (destruct q as [q|q|]; try (by rewrite Hp)); by destruct H93.
  - inversion Hok as [| | | | |? Hd Hms]; subst. cbn [print] in *. change (λ m, print_string m.1 ++ [58] ++ print m.2) with print_member in *.
    rewrite !length_app in Hn. cbn [length] in Hn. destruct n as [|n]; [lia|].
    rewrite <- !(assoc_L (++)). cbn [app parse_value]. rewrite skip_ws_other by not_listed. unfold in_object. rewrite (proj2 (Nat.ltb_lt _ _) Hd).
    destruct ms as [|m ms]; [done|].
    assert (∃ t, commas (map print_member (m :: ms)) ++ 125 :: rest = quote :: t) as [t E].
    { cbn [map]. destruct (map print_member ms); [rewrite commas_one|rewrite commas_cons]; unfold print_member, print_string; cbn [app]; eauto. }
    pose proof (parse_members_print (m :: ms) (S d) n rest ltac:(done) IH Hms ltac:(lia)) as Hp. rewrite E in Hp |- *.
    rewrite skip_ws_other by not_listed. by rewrite Hp.
Qed.

(** What is written is read. *)
Lemma parse_print v : text_ok 0 v → parse (print v) = Some v.
Proof.
  intros Hv. unfold parse, parse_prefix, fuel_for. pose proof (print_reads v 0%nat (2 * length (print v) + 2)%nat [] Hv I ltac:(lia)) as Hp.
  rewrite app_nil_r in Hp. by rewrite Hp.
Qed.

(** *** JSON texts are UTF-8 *)

Definition ascii (c : Z) : Prop := 0 ≤ c < 0x80.

Lemma utf8_app s t : utf8 s → utf8 t → utf8 (s ++ t).
Proof. induction 1 as [|r s Hr _ IH]; [done|]. intros Ht. rewrite <- (assoc_L (++)). constructor; [done|by apply IH]. Qed.

Lemma utf8_ascii s : Forall ascii s → utf8 s.
Proof.
  induction 1 as [|c s Hc _ IH]; [constructor|]. unfold ascii in Hc. change (c :: s) with ([c] ++ s). rewrite <- (encode_ascii c) by done.
  apply (utf8_rune c s); [left; lia|done].
Qed.

Lemma ascii_hex v : 0 ≤ v < 16 → ascii (hex_digit v).
Proof. unfold ascii, hex_digit. intros Hv. destruct (v <? 10); lia. Qed.

Ltac ascii_bytes := repeat (apply Forall_cons; split); try apply Forall_nil; try done; try (by unfold ascii; lia).

Lemma written_ascii c : ascii c → Forall ascii (written c).
Proof.
  intros Hc. unfold written. destruct (htmlSafe c); [by apply Forall_singleton|]. unfold escape_byte. destruct (existsb _ _); [by ascii_bytes|].
  assert (0 ≤ c / 16 < 16 ∧ 0 ≤ c mod 16 < 16) as [H1 H2] by (unfold ascii in Hc; zlia).
  repeat match goal with |- context [if c =? ?k then _ else _] => destruct (c =? k); [by ascii_bytes|] end. ascii_bytes; by apply ascii_hex.
Qed.

Lemma quote_chars_utf8 s k : utf8 s → (length s ≤ k)%nat → utf8 (quote_chars k s).
Proof.
  intros Hs. revert k. induction Hs as [|r s Hr _ IH]; intros k Hk; [destruct k; constructor|].
  pose proof (encode_nonempty r) as Hne. rewrite length_app in Hk. destruct k as [|k]; [lia|].
  destruct (Z_lt_le_dec r 0x80) as [Hlt|Hge].
  - assert (0 ≤ r) by (destruct Hr; lia). rewrite encode_ascii by lia. cbn [app quote_chars]. rewrite (proj2 (Z.ltb_lt r 0x80)) by lia.
    apply utf8_app; [|apply IH; lia]. by apply utf8_ascii, written_ascii.
  - assert (∃ c u, encode_rune r = c :: u ∧ 0x80 ≤ c) as (c & u & Ec & Hc).
    { destruct (encode_rune_cases r Hr) as [[? ?]|[[? ->]|[(? & ? & ->)|[? ->]]]]; [lia|eexists _, _; split; [done|zlia]..]. }
    pose proof (decode_encode r s Hr) as Hd. cbn [quote_chars]. rewrite Ec in *. cbn [app] in Hd |- *. rewrite (proj2 (Z.ltb_ge c 0x80)) by lia. rewrite Hd.
    change (c :: u ++ s) with ((c :: u) ++ s). rewrite drop_app_length, take_app_length. rewrite <- Ec. apply utf8_app; [|apply IH; lia].
    destruct (_ && _); [apply utf8_ascii; ascii_bytes|]. destruct (_ || _).
    + apply utf8_ascii. assert (0 ≤ Z.land r 15 < 16) by (change 15 with (Z.ones 4); rewrite Z.land_ones by lia; apply Z.mod_pos_bound; lia).
      ascii_bytes. by apply ascii_hex.
    + rewrite <- (app_nil_r (encode_rune r)). constructor; [done|constructor].
Qed.

Lemma print_string_utf8 s : utf8 s → utf8 (print_string s).
Proof.
  intros Hs. unfold print_string. apply utf8_app; [apply utf8_ascii; ascii_bytes|]. apply utf8_app; [by apply quote_chars_utf8|]. apply utf8_ascii. ascii_bytes.
Qed.

Lemma span_digits_ascii bs : Forall ascii (span_digits bs).1.
Proof.
  induction bs as [|c t IH]; cbn [span_digits]; [by apply Forall_nil|]. destruct (is_digit c) eqn:E; [|by apply Forall_nil]. destruct (span_digits t). cbn [fst] in *.
  apply within_spec in E. apply Forall_cons_2; [unfold ascii; lia|done].
Qed.

Lemma digits1_ascii bs ds t : digits1 bs = Some (ds, t) → Forall ascii ds.
Proof. unfold digits1. pose proof (span_digits_ascii bs) as Ha. destruct (span_digits bs) as [[|d ds'] t']; [done|]. by intros [= <- <-]. Qed.

Lemma number_ascii n : is_number n → Forall ascii n.
Proof.
  unfold is_number, scan_number. intros Hn. assert (∀ sg u, match n with 45 :: t => ([45], t) | _ => ([], n) end = (sg, u) → Forall ascii sg) as Hs.
  { intros sg u E. repeat case_match; simplify_eq; ascii_bytes || by apply Forall_nil. }
  destruct (match n with 45 :: t => ([45], t) | _ => ([], n) end) as [sg u]. specialize (Hs sg u eq_refl).
  apply bind_Some in Hn as ([i t1] & Hi & Hn). apply bind_Some in Hn as ([f t2] & Hf & Hn). apply bind_Some in Hn as ([e t3] & He & E). injection E as E _. rewrite <- E.
  assert (Forall ascii i). { unfold integer_part in Hi. repeat case_match; try (by eapply digits1_ascii); injection Hi as <- _; ascii_bytes. }
  assert (Forall ascii f).
  { unfold fraction_part in Hf. repeat case_match; try (injection Hf as <- _; by apply Forall_nil).
    apply bind_Some in Hf as ([ds r] & Hd%digits1_ascii & [= <- _]). apply Forall_cons_2; [unfold ascii; lia|done]. }
  assert (Forall ascii e); [|by repeat apply Forall_app_2].
  unfold exponent_part in He. destruct t2 as [|c t2]; [injection He as <- _; by apply Forall_nil|].
  destruct ((c =? 101) || (c =? 69)) eqn:Ec; [|injection He as <- _; by apply Forall_nil]. destruct t2 as [|c' t2]; [done|]. rewrite orb_true_iff, !Z.eqb_eq in Ec.
  destruct ((c' =? 43) || (c' =? 45)) eqn:Ec'; apply bind_Some in He as ([ds r] & Hd%digits1_ascii & [= <- _]); (apply Forall_cons_2; [unfold ascii; lia|]); [|done].
  rewrite orb_true_iff, !Z.eqb_eq in Ec'. apply Forall_cons_2; [unfold ascii; lia|done].
Qed.

Lemma commas_utf8 l : Forall utf8 l → utf8 (commas l).
Proof.
  assert (∀ c s, ascii c → utf8 s → utf8 (c :: s)) as Hcons by (intros c s Hc Hs; apply (utf8_app [c] s); [by apply utf8_ascii, Forall_singleton|done]).
  intros Hl. unfold commas. destruct Hl as [|x l Hx Hl]; [constructor|]. cbn [concat]. apply utf8_app; [done|].
  induction Hl as [|y l Hy _ IH]; [constructor|]. cbn [fmap list_fmap concat app]. apply Hcons; [unfold ascii; lia|]. by apply utf8_app.
Qed.

Lemma print_utf8 v d : text_ok d v → utf8 (print v).
Proof.
  revert d. induction v as [|b|m|s|l IH|ms IH] using json_nested_ind; intros d Hok; inversion Hok as [| |? Hm|? Hs|? _ Hl|? _ Hms]; subst; cbn [print].
  - apply utf8_ascii. ascii_bytes.
  - apply utf8_ascii. destruct b; ascii_bytes.
  - by apply utf8_ascii, number_ascii.
  - by apply print_string_utf8.
  - apply utf8_app; [apply utf8_ascii; ascii_bytes|]. apply utf8_app; [|apply utf8_ascii; ascii_bytes]. apply commas_utf8.
    apply Forall_fmap. rewrite Forall_forall in *. intros x Hx. by apply (IH x Hx (S d)), Hl.
  - apply utf8_app; [apply utf8_ascii; ascii_bytes|]. apply utf8_app; [|apply utf8_ascii; ascii_bytes]. apply commas_utf8.
    apply Forall_fmap. rewrite Forall_forall in *. intros [k x] Hx. cbn [fst snd]. destruct (Hms _ Hx) as [Hk Hv]. apply utf8_app; [by apply print_string_utf8|].
    apply utf8_app; [apply utf8_ascii; ascii_bytes|]. by apply (IH _ Hx (S d)).
Qed.

(** *** The fuel is enough *)

Lemma skip_ws_length bs : (length (skip_ws bs) ≤ length bs)%nat.
Proof. induction bs as [|c t IH]; cbn [skip_ws]; [done|]. destruct (existsb _ _); cbn [length]; lia. Qed.

Lemma span_digits_length bs : let '(ds, t) := span_digits bs in (length t + length ds = length bs)%nat.
Proof. induction bs as [|c t IH]; cbn [span_digits]; [done|]. destruct (is_digit c); [|done]. destruct (span_digits t). cbn [length]. lia. Qed.

Lemma digits1_length bs ds t : digits1 bs = Some (ds, t) → (length t < length bs)%nat.
Proof. unfold digits1. pose proof (span_digits_length bs) as Hl. destruct (span_digits bs) as [[|d ds'] t']; [done|]. intros [= <- <-]. cbn [length] in Hl. lia. Qed.

Lemma scan_number_length bs n t : scan_number bs = Some (n, t) → (length t < length bs)%nat.
Proof.
  unfold scan_number. intros Hn.
  assert (∀ sg u, match bs with 45 :: t => ([45], t) | _ => ([], bs) end = (sg, u) → (length u ≤ length bs)%nat) as Hs.
  { intros sg u E. destruct bs as [|c bs]; [by injection E as <- <-|]. destruct (decide (c = 45)) as [->|Hc]; [injection E as <- <-; cbn; lia|].
    assert (u = c :: bs) as ->; [|done]. destruct c as [|p|p]; try congruence. do 6 (destruct p as [p|p|]; try congruence). }
  destruct (match bs with 45 :: t => ([45], t) | _ => ([], bs) end) as [sg u]. specialize (Hs sg u eq_refl).
  apply bind_Some in Hn as ([i t1] & Hi & Hn). apply bind_Some in Hn as ([f t2] & Hf & Hn). apply bind_Some in Hn as ([e t3] & He & [= <- <-]).
  assert (length t1 < length u)%nat. { unfold integer_part in Hi. destruct u as [|c u]; [done|]. repeat case_match; try (by eapply digits1_length); injection Hi as <- <-; cbn; lia. }
  assert (length t2 ≤ length t1)%nat.
  { unfold fraction_part in Hf. repeat case_match; try (injection Hf as <- <-; done). apply bind_Some in Hf as ([ds r] & Hd%digits1_length & [= <- <-]). cbn. lia. }
  assert (length t3 ≤ length t2)%nat; [|lia]. unfold exponent_part in He. destruct t2 as [|c t2]; [by injection He as <- <-|].
  destruct (_ || _); [|by injection He as <- <-]. destruct t2 as [|c' t2]; [done|].
  destruct ((c' =? 43) || (c' =? 45)); apply bind_Some in He as ([ds r] & Hd%digits1_length & [= <- <-]); cbn in *; lia.
Qed.

Lemma getu4_length bs v t : getu4 bs = Some (v, t) → (length t < length bs)%nat.
Proof.
  unfold getu4. destruct bs as [|a [|b [|c [|d bs]]]]; try done. intros Hg. repeat (apply bind_Some in Hg as (? & _ & Hg)). injection Hg as <- <-. cbn. lia.
Qed.

Lemma unicode_escape_length bs r t : unicode_escape bs = Some (r, t) → (length t < length bs)%nat.
Proof.
  unfold unicode_escape. intros Hu. apply bind_Some in Hu as ([rr u] & Hg%getu4_length & Hu). repeat case_match; simplify_eq; try done.
  all: match goal with Hq : getu4 _ = Some _ |- _ => apply getu4_length in Hq; cbn [length] in *; lia end.
Qed.

Lemma decode_rune_width bs : bs ≠ [] → (0 < (decode_rune bs).2)%nat.
Proof. destruct bs as [|b0 t]; [done|]. intros _. unfold decode_rune. repeat case_match; cbn; lia. Qed.

Lemma parse_chars_fuel n m bs : (length bs < n)%nat → (length bs < m)%nat → parse_chars n bs = parse_chars m bs.
Proof.
  revert m bs. induction n as [|n IH]; intros [|m] bs Hn Hm; try lia. cbn [parse_chars]. destruct bs as [|c t]; [done|]. cbn [length] in *.
  destruct (c =? quote); [done|]. destruct (c =? backslash).
  - destruct t as [|e u]; [done|]. cbn [length] in *. destruct (e =? 117).
    + destruct (unicode_escape u) as [[r u']|] eqn:E; [|done]. apply unicode_escape_length in E. cbn [mbind option_bind]. by rewrite (IH m) by lia.
    + by rewrite (IH m) by lia.
  - destruct (c <? 32); [done|]. pose proof (decode_rune_width (c :: t) ltac:(done)) as Hw. destruct (decode_rune (c :: t)) as [r k]. cbn [snd] in Hw.
    rewrite (IH m); [done|rewrite length_drop; cbn [length]; lia..].
Qed.

Lemma parse_chars_length n bs s t : parse_chars n bs = Some (s, t) → (length t < length bs)%nat.
Proof.
  revert bs s t. induction n as [|n IH]; intros bs s t; [done|]. cbn [parse_chars]. destruct bs as [|c u]; [done|].
  destruct (c =? quote); [intros [= <- <-]; cbn; lia|]. destruct (c =? backslash).
  - destruct u as [|e u]; [done|]. destruct (e =? 117); intros Hp.
    + apply bind_Some in Hp as ([r u'] & Hu%unicode_escape_length & Hp). apply bind_Some in Hp as ([s' t'] & Hr%IH & [= <- <-]). cbn. lia.
    + apply bind_Some in Hp as (b & _ & Hp). apply bind_Some in Hp as ([s' t'] & Hr%IH & [= <- <-]). cbn. lia.
  - destruct (c <? 32); [done|]. pose proof (decode_rune_width (c :: u) ltac:(done)) as Hw. destruct (decode_rune (c :: u)) as [r k]. cbn [snd] in Hw.
    intros Hp. apply bind_Some in Hp as ([s' t'] & Hr%IH & [= <- <-]). rewrite length_drop in Hr. cbn [length] in *. lia.
Qed.

Lemma literal_length word v bs r : word ≠ [] → literal word v bs = Some r → (length r.2 < length bs)%nat.
Proof.
  unfold literal. intros Hw. destruct (bool_decide_reflect (take (length word) bs = word)) as [E|]; [|done]. intros [= <-]. cbn [snd].
  rewrite length_drop. assert (0 < length word)%nat by (destruct word; [done|cbn; lia]). apply (f_equal length) in E. rewrite length_take in E. lia.
Qed.

(** What is left is shorter. *)
Lemma parse_shorter n :
  (∀ d bs v r, parse_value n d bs = Some (v, r) → (length r < length bs)%nat) ∧
  (∀ d bs ms r, parse_members n d bs = Some (ms, r) → (length r < length bs)%nat) ∧
  (∀ d bs l r, parse_elements n d bs = Some (l, r) → (length r < length bs)%nat).
Proof.
  induction n as [|n (IHv & IHm & IHe)]; [done|]. split_and!.
  - intros d bs v r. cbn [parse_value]. pose proof (skip_ws_length bs) as Hs. destruct (skip_ws bs) as [|c t]; [done|]. cbn [length] in Hs.
    pose proof (skip_ws_length t) as Ht. destruct (c =? 123); [|destruct (c =? 91); [|destruct (c =? quote)]].
    + destruct (in_object d); [|done]. intros Hp. assert (skip_ws t = 125 :: r ∨ ∃ ms, parse_members n (S d) t = Some (ms, r)) as [E|[ms E%IHm]]; [|rewrite E in Ht; cbn in Ht; lia|lia].
      repeat case_match; simplify_eq; try (by left); right; apply bind_Some in Hp as ([xs r'] & -> & [= <- <-]); eauto.
    + destruct (in_object d); [|done]. intros Hp. assert (skip_ws t = 93 :: r ∨ ∃ l, parse_elements n (S d) t = Some (l, r)) as [E|[l E%IHe]]; [|rewrite E in Ht; cbn in Ht; lia|lia].
      repeat case_match; simplify_eq; try (by left); right; apply bind_Some in Hp as ([xs r'] & -> & [= <- <-]); eauto.
    + intros Hp. apply bind_Some in Hp as ([s r'] & E%parse_chars_length & [= <- <-]). lia.
    + intros Hp. assert (length r < length (c :: t))%nat; [|cbn [length] in *; lia].
      destruct (c =? 116); [by apply (literal_length (gs "true") (JBool true) (c :: t) (v, r))|].
      destruct (c =? 102); [by apply (literal_length (gs "false") (JBool false) (c :: t) (v, r))|].
      destruct (c =? 110); [by apply (literal_length (gs "null") JNull (c :: t) (v, r))|].
      by apply bind_Some in Hp as ([s r'] & E%scan_number_length & [= <- <-]).
  - intros d bs ms r. cbn [parse_members]. pose proof (skip_ws_length bs) as Hs. intros Hp.
    assert (∃ t, skip_ws bs = 34 :: t ∧ ('(k, t) ← parse_chars (S (length t)) t;
      match skip_ws t with
      | 58 :: t => '(v, t) ← parse_value n d t; match skip_ws t with 44 :: t => '(ms, r) ← parse_members n d t; Some ((k, v) :: ms, r) | 125 :: r => Some ([(k, v)], r) | _ => None end
      | _ => None
      end) = Some (ms, r)) as (t & E & Hp') by (repeat case_match; simplify_eq; eauto).
    rewrite E in Hs. cbn [length] in Hs. clear Hp. apply bind_Some in Hp' as ([k t1] & Ht1%parse_chars_length & Hp). pose proof (skip_ws_length t1) as Hs1.
    assert (∃ t2, skip_ws t1 = 58 :: t2 ∧ ('(v, t) ← parse_value n d t2; match skip_ws t with 44 :: t => '(ms, r) ← parse_members n d t; Some ((k, v) :: ms, r) | 125 :: r => Some ([(k, v)], r) | _ => None end) = Some (ms, r))
      as (t2 & E2 & Hp') by (repeat case_match; simplify_eq; eauto).
    rewrite E2 in Hs1. cbn [length] in Hs1. clear Hp. apply bind_Some in Hp' as ([v t3] & Ht3%IHv & Hp). pose proof (skip_ws_length t3) as Hs3.
    assert ((∃ t4 ms', skip_ws t3 = 44 :: t4 ∧ parse_members n d t4 = Some (ms', r)) ∨ skip_ws t3 = 125 :: r) as [(t4 & ms' & E4 & Hm%IHm)|E4].
    { repeat case_match; simplify_eq; auto. apply bind_Some in Hp as ([ms' r'] & Hm & [= <- <-]). eauto. }
    + rewrite E4 in Hs3. cbn [length] in Hs3. lia.
    + rewrite E4 in Hs3. cbn [length] in Hs3. lia.
  - intros d bs l r. cbn [parse_elements]. intros Hp. apply bind_Some in Hp as ([v t] & Ht%IHv & Hp). pose proof (skip_ws_length t) as Hs.
    assert ((∃ t4 l', skip_ws t = 44 :: t4 ∧ parse_elements n d t4 = Some (l', r)) ∨ skip_ws t = 93 :: r) as [(t4 & l' & E4 & Hm%IHe)|E4].
    { repeat case_match; simplify_eq; auto. apply bind_Some in Hp as ([l' r'] & Hm & [= <- <-]). eauto. }
    + rewrite E4 in Hs. cbn [length] in Hs. lia.
    + rewrite E4 in Hs. cbn [length] in Hs. lia.
Qed.

(** More fuel changes nothing. *)
Lemma parse_more_fuel n :
  (∀ m d bs, 2 * length bs < n → 2 * length bs < m → parse_value n d bs = parse_value m d bs)%nat ∧
  (∀ m d bs, 2 * length bs < n → 2 * length bs < m → parse_members n d bs = parse_members m d bs)%nat ∧
  (∀ m d bs, 2 * length bs + 1 < n → 2 * length bs + 1 < m → parse_elements n d bs = parse_elements m d bs)%nat.
Proof.
  induction n as [|n (IHv & IHm & IHe)]; [split_and!; intros; lia|]. split_and!; intros [|m] d bs Hn Hm; try lia.
  - cbn [parse_value]. pose proof (skip_ws_length bs) as Hs. destruct (skip_ws bs) as [|c t]; [done|]. cbn [length] in Hs.
    rewrite (IHm m (S d) t), (IHe m (S d) t) by lia. done.
  - cbn [parse_members]. pose proof (skip_ws_length bs) as Hs. repeat case_match; try done; cbn [length] in Hs.
    match goal with |- context [parse_chars _ ?u] => destruct (parse_chars (S (length u)) u) as [[k t]|] eqn:E; [|done] end.
    apply parse_chars_length in E. cbn [mbind option_bind]. pose proof (skip_ws_length t) as Ht. repeat case_match; try done; cbn [length] in Ht.
    match goal with |- context [parse_value m d ?u] => rewrite (IHv m d u) by lia; destruct (parse_value m d u) as [[v t2]|] eqn:E2; [|done] end.
    apply (proj1 (parse_shorter m)) in E2. cbn [mbind option_bind]. pose proof (skip_ws_length t2) as Ht2. repeat case_match; try done; cbn [length] in Ht2.
    match goal with |- context [parse_members m d ?u] => by rewrite (IHm m d u) by lia end.
  - cbn [parse_elements]. rewrite (IHv m d bs) by lia. destruct (parse_value m d bs) as [[v t]|] eqn:E; [|done]. apply (proj1 (parse_shorter m)) in E.
    cbn [mbind option_bind]. pose proof (skip_ws_length t) as Ht. repeat case_match; try done; cbn [length] in Ht.
    match goal with |- context [parse_elements m d ?u] => by rewrite (IHe m d u) by lia end.
Qed.

(** A text that is refused is refused with any fuel. *)
Lemma parse_definite bs n d : (fuel_for bs ≤ n)%nat → parse_value n d bs = parse_value (fuel_for bs) d bs.
Proof. unfold fuel_for. intros Hn. apply parse_more_fuel; lia. Qed.

(** ** What is read is valid UTF-8 *)

Lemma RuneError_rune : is_rune RuneError.
Proof. unfold is_rune, RuneError. lia. Qed.

Lemma decode_rune_rune c t : 0 ≤ c → is_rune (decode_rune (c :: t)).1.
Proof.
  intros Hc. cbn [decode_rune]. destruct (Z.ltb_spec c 0x80); [unfold is_rune; cbn; lia|].
  repeat (case_match; cbn [fst]; try exact RuneError_rune);
    repeat match goal with E : _ && _ = true |- _ => apply andb_true_iff in E as [? ?] | E : within _ _ _ = true |- _ => apply within_spec in E end;
    unfold is_rune; repeat case_match; lia.
Qed.

Lemma hex_value_range c v : hex_value c = Some v → 0 ≤ v < 16.
Proof. unfold hex_value. intros E. repeat case_match; simplify_eq; match goal with W : within _ _ _ = true |- _ => apply within_spec in W end; lia. Qed.

Lemma getu4_range bs v t : getu4 bs = Some (v, t) → 0 ≤ v < 65536.
Proof.
  unfold getu4. intros E. repeat (case_match; try done). cbn in E.
  repeat match type of E with context [hex_value ?x] => let H := fresh "Hx" in destruct (hex_value x) eqn:H; cbn in E; [apply hex_value_range in H|done] end.
  simplify_eq. lia.
Qed.

Lemma unicode_escape_rune bs r t : unicode_escape bs = Some (r, t) → is_rune r.
Proof.
  unfold unicode_escape. destruct (getu4 bs) as [[rr u]|] eqn:G; cbn; [|done]. apply getu4_range in G. intros E.
  destruct (is_surrogate rr) eqn:S; [|apply within_not in S; simplify_eq; unfold is_rune; lia].
  repeat (case_match; simplify_eq; try exact RuneError_rune).
  unfold decode_pair in *. destruct (within 0xD800 0xDBFF rr && _) eqn:W; [|done].
  apply andb_true_iff in W as [W1%within_spec W2%within_spec]. unfold is_rune. lia.
Qed.

Lemma simple_escape_ascii c b : simple_escape c = Some b → ascii b.
Proof.
  unfold simple_escape, ascii. intros E. destruct (existsb (Z.eqb c) _) eqn:X.
  - simplify_eq. apply existsb_exists in X as (x & Hx & ->%Z.eqb_eq). cbn in Hx. intuition lia.
  - repeat case_match; simplify_eq; lia.
Qed.

Lemma parse_chars_utf8 n : ∀ bs s t, parse_chars n bs = Some (s, t) → utf8 s.
Proof.
  induction n as [|n IH]; [done|]. intros bs s t. cbn [parse_chars]. destruct bs as [|c u]; [done|].
  destruct (c =? quote); [intros [= <- _]; constructor|]. destruct (c =? backslash).
  - destruct u as [|e u]; [done|]. destruct (e =? 117).
    + destruct (unicode_escape u) as [[r u']|] eqn:X; cbn; [|done]. destruct (parse_chars n u') as [[s' r']|] eqn:Y; cbn; [|done].
      intros [= <- _]. apply utf8_rune; eauto using unicode_escape_rune.
    + destruct (simple_escape e) as [b|] eqn:X; cbn; [|done]. destruct (parse_chars n u) as [[s' r']|] eqn:Y; cbn; [|done].
      intros [= <- _]. apply (utf8_app [b]); [|eauto]. apply utf8_ascii. repeat constructor; by eapply simple_escape_ascii.
  - destruct (Z.ltb_spec c 0x20); [done|]. pose proof (decode_rune_rune c u ltac:(lia)) as Hr.
    destruct (decode_rune (c :: u)) as [r k]. destruct (parse_chars n (drop k (c :: u))) as [[s' r']|] eqn:Y; cbn; [|done].
    intros [= <- _]. apply utf8_rune; eauto.
Qed.

(** A string is valid UTF-8, as a value or as a member of an object. *)
Definition string_ok (v : json) : Prop := match v with JString s => utf8 s | _ => True end.
Definition strings_ok (v : json) : Prop := match v with JString s => utf8 s | JObject ms => Forall (λ m, string_ok m.2) ms | _ => True end.

Lemma strings_string v : strings_ok v → string_ok v.
Proof. by destruct v. Qed.

Lemma literal_value word v bs r : literal word v bs = Some r → r.1 = v.
Proof. unfold literal. case_match; [by intros [= <-]|done]. Qed.

Lemma parse_strings n : (∀ d bs v r, parse_value n d bs = Some (v, r) → strings_ok v) ∧
  (∀ d bs ms r, parse_members n d bs = Some (ms, r) → Forall (λ m, string_ok m.2) ms).
Proof.
  induction n as [|n [IHv IHm]]; [done|]. split.
  - intros d bs v r. cbn [parse_value]. destruct (skip_ws bs) as [|c t]; [done|].
    destruct (c =? 123).
    { destruct (in_object d); [|done]. intros E. repeat (case_match; simplify_eq; try by constructor);
        match type of E with context [parse_members n ?d ?u] => destruct (parse_members n d u) as [[? ?]|] eqn:X; cbn in E; [|done] end; simplify_eq; cbn; eauto. }
    destruct (c =? 91).
    { destruct (in_object d); [|done]. intros E. repeat (case_match; simplify_eq; try done);
        match type of E with context [parse_elements n ?d ?u] => destruct (parse_elements n d u) as [[? ?]|]; cbn in E; [|done] end; by simplify_eq. }
    destruct (c =? quote); [destruct (parse_chars _ t) as [[s q]|] eqn:X; cbn; [|done]; intros [= <- _]; cbn; by eapply parse_chars_utf8|].
    do 3 (destruct (c =? _); [intros E%literal_value; by cbn in E; subst|]).
    destruct (scan_number (c :: t)) as [[m q]|]; cbn; [by intros [= <- _]|done].
  - intros d bs ms r. cbn [parse_members]. intros E. repeat (case_match; try done).
    match type of E with context [parse_chars ?k ?u] => destruct (parse_chars k u) as [[? ?]|]; cbn in E; [|done] end. repeat (case_match; try done).
    match type of E with context [parse_value n d ?u] => destruct (parse_value n d u) as [[? ?]|] eqn:X; cbn in E; [|done] end.
    apply IHv, strings_string in X. repeat (case_match; try done); simplify_eq; try by (repeat constructor).
    match type of E with context [parse_members n d ?u] => destruct (parse_members n d u) as [[? ?]|] eqn:Y; cbn in E; [|done] end.
    simplify_eq. constructor; eauto.
Qed.

(** What holds of a struct and is kept by its fields holds of what is read. *)
Definition keeps {R} (P : R → Prop) (f : field R) : Prop := ∀ v r r', string_ok v → P r → f_set f v r = Some r' → P r'.

Lemma store_keeps {R} (P : R → Prop) strict fields v r r' : Forall (keeps P) fields → strings_ok v → P r → store strict fields v r = Some r' → P r'.
Proof.
  intros Hf Hv Hr. destruct v as [| | | | |ms]; cbn; try done; [by intros [= <-]|].
  enough (∀ b, P (foldl (store_member strict fields) (r, b) ms).1) as Hall.
  { specialize (Hall true). destruct (foldl _ _ ms) as [r2 []]; [by intros [= <-]|done]. }
  cbn in Hv. revert r Hr. induction Hv as [|[k v] ms Hv _ IH]; intros r Hr b; [done|]. cbn [foldl store_member fst snd] in *.
  destruct (find_field fields k) as [f|] eqn:F; [|by apply IH]. destruct (f_set f v r) as [r2|] eqn:S; [|by apply IH].
  apply IH. rewrite Forall_forall in Hf. assert (keeps P f) as Hk; [|by eapply Hk]. apply Hf, list_elem_of_In.
  unfold find_field in F. destruct (find _ fields) eqn:X; simplify_eq; eapply find_some; eauto.
Qed.

Lemma Unmarshal_keeps {R} (P : R → Prop) fields data r r' : Forall (keeps P) fields → P r → Unmarshal fields data r = Some r' → P r'.
Proof.
  intros Hf Hr. unfold Unmarshal, parse, parse_prefix. destruct (parse_value _ 0 data) as [[v t]|] eqn:X; cbn; [|done].
  destruct (skip_ws t); cbn; [|done]. eapply store_keeps; [done| |done]. by eapply (proj1 (parse_strings _)).
Qed.

Lemma Decode_keeps {R} (P : R → Prop) strict fields data r r' : Forall (keeps P) fields → P r → Decode strict fields data r = Some r' → P r'.
Proof.
  intros Hf Hr. unfold Decode, parse_prefix. destruct (parse_value _ 0 data) as [[v t]|] eqn:X; cbn; [|done].
  destruct (delimited v t); [|done]. eapply store_keeps; [done| |done]. by eapply (proj1 (parse_strings _)).
Qed.

End Json.
