(* ===== verification/Messages.v ===== *)
(** * The messages between clients, proxies and the broker
    (src/common/messages, with the packages it uses)

    Bridge fingerprints, patterns for the names of relays, session descriptions,
    and the requests and responses of the broker's protocols with their JSON
    encodings.  The texts of the errors of encoding/json and encoding/hex, which
    only appear inside of other texts, are a parameter ([ErrorTexts]); so is the
    JSON form of a session description of pion/webrtc ([WebRTC]). *)
From stdpp Require Import base tactics numbers list strings.
From Stdlib Require Import ZArith Lia.
From S2P Require Import Prelude Json.
Import Json.
Open Scope Z_scope.

(** The text of the error for an input of Unmarshal and of hex.DecodeString. *)
Class ErrorTexts := {
  json_error : bytes → gostring;
  hex_error : bytes → gostring
}.

(** An error is its text. *)
Inductive error := MkError (text : gostring).

Definition Error (e : error) : gostring := match e with MkError t => t end.

#[global] Instance error_eq_dec : EqDecision error.
Proof. solve_decision. Defined.

Definition errorf (s : string) : error := MkError (gs s).

(** ** Bridge fingerprints (src/common/bridgefingerprint/fingerprint.go) *)

Module Fingerprint.

Abbreviation Fingerprint := (list Z).

Definition ErrBridgeFingerprintInvalid : error := errorf "bridge fingerprint invalid".

Definition FingerprintFromBytes (b : bytes) : res error Fingerprint :=
  let n := len b in
  if negb (n =? 20) && negb (n =? 32) then Err ErrBridgeFingerprintInvalid else Ok b.

(** hex.DecodeString. *)
Fixpoint hex_DecodeString (s : gostring) : option bytes :=
  match s with
  | [] => Some []
  | [_] => None
  | a :: b :: t => a ← hex_value a; b ← hex_value b; t ← hex_DecodeString t; Some (a * 16 + b :: t)
  end.

Definition FingerprintFromHexString `{ErrorTexts} (hexString : gostring) : res error Fingerprint :=
  match hex_DecodeString hexString with
  | None => Err (MkError (hex_error hexString))
  | Some decoded => FingerprintFromBytes decoded
  end.

Definition ToBytes (f : Fingerprint) : bytes := f.

End Fingerprint.

(** ** Names of relays (src/common/namematcher/matcher.go) *)

Module NameMatcher.

Definition HasPrefix (s prefix : gostring) : bool := bool_decide (take (length prefix) s = prefix).
Definition HasSuffix (s suffix : gostring) : bool :=
  (length suffix <=? length s)%nat && bool_decide (drop (length s - length suffix) s = suffix).
Definition TrimPrefix (s prefix : gostring) : gostring := if HasPrefix s prefix then drop (length prefix) s else s.
Definition TrimSuffix (s suffix : gostring) : gostring := if HasSuffix s suffix then take (length s - length suffix) s else s.

Record NameMatcher := MkMatcher { exact : bool; suffix : gostring }.

Definition NewNameMatcher (rule : gostring) : NameMatcher :=
  let rule := TrimSuffix rule (gs "$") in
  MkMatcher (HasPrefix rule (gs "^")) (TrimPrefix rule (gs "^")).

Definition IsValidRule (rule : gostring) : bool := HasSuffix rule (gs "$").

Definition IsSupersetOf (m matcher : NameMatcher) : bool :=
  if exact m then exact matcher && bool_decide (suffix m = suffix matcher)
  else HasSuffix (suffix matcher) (suffix m).

Definition IsMember (m : NameMatcher) (s : gostring) : bool :=
  if exact m then bool_decide (s = suffix m) else HasSuffix s (suffix m).

Lemma HasSuffix_spec s t : HasSuffix s t = true ↔ ∃ u, s = u ++ t.
Proof.
  unfold HasSuffix. rewrite andb_true_iff, Nat.leb_le, bool_decide_eq_true. split.
  - intros [_ E]. exists (take (length s - length t) s). rewrite <- E at 2. by rewrite take_drop.
  - intros [u ->]. rewrite length_app. split; [lia|]. replace (length u + length t - length t)%nat with (length u) by lia. apply drop_app_length.
Qed.

(** C35: a pattern is a superset of another exactly when it has all of the other's
    members, so that the broker's test of a proxy's pattern means that the proxy
    accepts every relay that the broker may send it. *)
Theorem superset_is_inclusion (m m' : NameMatcher) : IsSupersetOf m m' = true ↔ ∀ s, IsMember m' s = true → IsMember m s = true.
Proof.
  destruct m as [[] p], m' as [[] q]; unfold IsSupersetOf, IsMember; cbn [exact suffix andb].
  - rewrite bool_decide_eq_true. setoid_rewrite bool_decide_eq_true. split; [by intros <-|]. intros Hs. by rewrite (Hs q).
  - split; [done|]. intros Hs. exfalso.
    assert (∀ u, u ++ q = p) as Hu. { intros u. apply (bool_decide_eq_true (u ++ q = p)), Hs, HasSuffix_spec. eauto. }
    pose proof (Hu []) as E0. pose proof (Hu [0]) as E1. rewrite <- E0 in E1. apply (f_equal length) in E1. cbn in E1. lia.
  - rewrite HasSuffix_spec. setoid_rewrite HasSuffix_spec. setoid_rewrite bool_decide_eq_true. split; [by intros Hq s ->|]. intros Hs. by apply Hs.
  - setoid_rewrite HasSuffix_spec. split.
    + intros [u ->] s [v ->]. exists (v ++ u). by rewrite (assoc_L (++)).
    + intros Hs. apply Hs. by exists [].
Qed.

End NameMatcher.

(** ** Session descriptions (src/common/util/util.go) *)

Module SessionDescription.

Inductive SDPType := SDPTypeOffer | SDPTypePranswer | SDPTypeAnswer | SDPTypeRollback.

#[global] Instance SDPType_eq_dec : EqDecision SDPType.
Proof. solve_decision. Defined.

Record SessionDescription := MkDescription { sd_Type : SDPType; sd_SDP : gostring }.

Definition type_name (t : SDPType) : gostring :=
  match t with
  | SDPTypeOffer => gs "offer" | SDPTypePranswer => gs "pranswer" | SDPTypeAnswer => gs "answer" | SDPTypeRollback => gs "rollback"
  end.

(** json.Marshal of a description: an object with its type and its SDP. *)
Class WebRTC := { marshal_description : SessionDescription → bytes }.

Class WebRTCLaws `{WebRTC} := {
  marshal_description_object d : utf8 (sd_SDP d) → utf8 (marshal_description d) ∧
    ∃ ms, parse (marshal_description d) = Some (JObject ms) ∧ Forall (λ m, floats_ok m.2 = true) ms ∧
      map_lookup (gs "type") ms = Some (JString (type_name (sd_Type d))) ∧ map_lookup (gs "sdp") ms = Some (JString (sd_SDP d))
}.

Section description.
Context `{ErrorTexts}.

Definition parse_type (t : gostring) : option SDPType :=
  find (λ x, bool_decide (type_name x = t)) [SDPTypeOffer; SDPTypePranswer; SDPTypeAnswer; SDPTypeRollback].

Definition DeserializeSessionDescription (msg : gostring) : res error SessionDescription :=
  match Unmarshal_map msg with
  | None => Err (MkError (json_error msg))
  | Some parsed =>
      match map_lookup (gs "type") parsed with
      | None => Err (errorf "cannot deserialize SessionDescription without type field")
      | Some typ =>
          match map_lookup (gs "sdp") parsed with
          | None => Err (errorf "cannot deserialize SessionDescription without sdp field")
          | Some sdp =>
              match typ with
              | JString parsedType =>
                  match sdp with
                  | JString parsedSDP =>
                      match parse_type parsedType with
                      | None => Err (errorf "unknown SDP type")
                      | Some stype => Ok (MkDescription stype parsedSDP)
                      end
                  | _ => Err (errorf "invalid SDP")
                  end
              | _ => Err (errorf "invalid SDP type")
              end
          end
      end
  end.

Definition SerializeSessionDescription `{WebRTC} (desc : SessionDescription) : gostring := marshal_description desc.

Lemma parse_type_name t : parse_type (type_name t) = Some t.
Proof. by destruct t. Qed.

Lemma deserialize_serialize `{WebRTCLaws} d : utf8 (sd_SDP d) → DeserializeSessionDescription (SerializeSessionDescription d) = Ok d.
Proof.
  intros (_ & ms & Hp & Hf & Ht & Hs)%marshal_description_object. unfold DeserializeSessionDescription, SerializeSessionDescription, Unmarshal_map.
  rewrite Hp. cbn [mbind option_bind]. replace (forallb (λ m : bytes * json, floats_ok m.2) ms) with true.
  - rewrite Ht, Hs, parse_type_name. by destruct d.
  - symmetry. apply Is_true_true, forallb_True. eapply Forall_impl; [done|]. intros m Hm. by rewrite Hm.
Qed.

End description.

(** The form that pion/webrtc documents. *)
#[export] Instance webrtc_model : WebRTC := {|
  marshal_description d := print (JObject [(gs "type", JString (type_name (sd_Type d))); (gs "sdp", JString (sd_SDP d))])
|}.

#[export] Instance webrtc_model_laws : WebRTCLaws.
Proof.
  split. intros d Hd. cbn [marshal_description webrtc_model]. set (ms := [_; _]).
  assert (text_ok 0 (JObject ms)) as Hok.
  { constructor; [unfold maxNestingDepth; lia|]. repeat constructor; cbn [fst snd]; try (apply utf8_ascii; by repeat constructor); [|done].
    destruct (sd_Type d); apply utf8_ascii; by repeat constructor. }
  split; [by eapply print_utf8|]. exists ms. split; [by apply parse_print|]. by repeat constructor.
Qed.

End SessionDescription.

(** ** Requests and responses (src/common/messages) *)

Module Messages.
Import Fingerprint SessionDescription.

(** nat.go *)
Definition NATUnknown : gostring := gs "unknown".
Definition NATRestricted : gostring := gs "restricted".
Definition NATUnrestricted : gostring := gs "unrestricted".

(** The NAT type of a request: the empty one is unknown. *)
Definition check_nat (n : gostring) : res error gostring :=
  if bool_decide (n = []) then Ok NATUnknown else
  if existsb (λ k, bool_decide (n = k)) [NATUnknown; NATRestricted; NATUnrestricted] then Ok n else Err (errorf "invalid NAT type").

(** *** ipc.go *)

Inductive RendezvousMethod := RendezvousNone | RendezvousHttp | RendezvousAmpCache | RendezvousSqs.

Definition ErrBadRequest : error := errorf "bad request".
Definition ErrInternal : error := errorf "internal error".
Definition ErrExtraInfo : error := errorf "client sent extra info".
Definition StrTimedOut : gostring := gs "timed out waiting for answer!".
Definition StrNoProxies : gostring := gs "no snowflake proxies currently available".

(** *** client.go *)

Definition ClientVersion : gostring := gs "1.0".
Definition defaultBridgeFingerprint : gostring := gs "2B280B23E1107BB62ABFC40DDCC8824814F80A72".

Record ClientPollRequest := MkClientPollRequest { cq_Offer : gostring; cq_NAT : gostring; cq_Fingerprint : gostring }.

Definition default_fingerprint (f : gostring) : gostring := if bool_decide (f = []) then defaultBridgeFingerprint else f.

(** The request's fingerprint is set, too. *)
Definition EncodeClientPollRequest (req : ClientPollRequest) : bytes * ClientPollRequest :=
  let req := MkClientPollRequest (cq_Offer req) (cq_NAT req) (default_fingerprint (cq_Fingerprint req)) in
  let body := print (JObject [(gs "offer", JString (cq_Offer req)); (gs "nat", JString (cq_NAT req)); (gs "fingerprint", JString (cq_Fingerprint req))]) in
  (ClientVersion ++ [10] ++ body, req).

Definition ClientPollRequest_fields : list (field ClientPollRequest) :=
  [string_field (gs "offer") (λ v r, MkClientPollRequest v (cq_NAT r) (cq_Fingerprint r));
   string_field (gs "nat") (λ v r, MkClientPollRequest (cq_Offer r) v (cq_Fingerprint r));
   string_field (gs "fingerprint") (λ v r, MkClientPollRequest (cq_Offer r) (cq_NAT r) v)].

(** bytes.SplitN(data, sep, 2) for a separator of one byte. *)
Fixpoint split2 (sep : Z) (data : bytes) : bytes * option bytes :=
  match data with
  | [] => ([], None)
  | c :: t => if c =? sep then ([], Some t) else let '(a, b) := split2 sep t in (c :: a, b)
  end.

Section decoding.
Context `{ErrorTexts}.

(** json.Unmarshal with its error. *)
Definition unmarshal {R} (fields : list (field R)) (data : bytes) (zero : R) : res error R :=
  match Unmarshal fields data zero with Some r => Ok r | None => Err (MkError (json_error data)) end.

Definition malformed_description (e : error) : error := MkError (gs "malformed session description: " ++ Error e).

Definition DecodeClientPollRequest (data : bytes) : res error ClientPollRequest :=
  match split2 10 data with
  | (_, None) => Err (errorf "unsupported message version")
  | (version, Some body) =>
      if negb (bool_decide (version = ClientVersion)) then Err (errorf "unsupported message version") else
      message ← unmarshal ClientPollRequest_fields body (MkClientPollRequest [] [] []);
      if bool_decide (cq_Offer message = []) then Err (errorf "no supplied offer") else
      _ ← map_err malformed_description (DeserializeSessionDescription (cq_Offer message));
      let fingerprint := default_fingerprint (cq_Fingerprint message) in
      _ ← map_err (λ _, errorf "cannot decode fingerprint") (FingerprintFromHexString fingerprint);
      nat ← check_nat (cq_NAT message);
      Ok (MkClientPollRequest (cq_Offer message) nat fingerprint)
  end.

Record ClientPollResponse := MkClientPollResponse { cr_Answer : gostring; cr_Error : gostring }.

(** A string that is left out when it is empty. *)
Definition omitempty (name : gostring) (s : gostring) : list (bytes * json) := if bool_decide (s = []) then [] else [(name, JString s)].

Definition EncodeClientPollResponse (resp : ClientPollResponse) : bytes :=
  print (JObject (omitempty (gs "answer") (cr_Answer resp) ++ omitempty (gs "error") (cr_Error resp))).

Definition ClientPollResponse_fields : list (field ClientPollResponse) :=
  [string_field (gs "answer") (λ v r, MkClientPollResponse v (cr_Error r));
   string_field (gs "error") (λ v r, MkClientPollResponse (cr_Answer r) v)].

Definition DecodeClientPollResponse (data : bytes) : res error ClientPollResponse :=
  message ← unmarshal ClientPollResponse_fields data (MkClientPollResponse [] []);
  if bool_decide (cr_Error message = []) && bool_decide (cr_Answer message = []) then Err (errorf "received empty broker response") else Ok message.

(** *** proxy.go: polls *)

Definition version : gostring := gs "1.3".
Definition ProxyUnknown : gostring := gs "unknown".
Definition KnownProxyTypes : list gostring := [gs "standalone"; gs "webext"; gs "badge"; gs "iptproxy"; gs "bloco"].

Definition known_type (t : gostring) : bool := existsb (λ k, bool_decide (t = k)) KnownProxyTypes.

Record ProxyPollRequest := MkProxyPollRequest {
  pq_Sid : gostring; pq_Version : gostring; pq_Type : gostring; pq_NAT : gostring; pq_Clients : Z; pq_AcceptedRelayPattern : option gostring
}.

Definition pointer (o : option gostring) : json := match o with Some s => JString s | None => JNull end.

Definition marshal_ProxyPollRequest (r : ProxyPollRequest) : bytes :=
  print (JObject [(gs "Sid", JString (pq_Sid r)); (gs "Version", JString (pq_Version r)); (gs "Type", JString (pq_Type r)); (gs "NAT", JString (pq_NAT r));
                  (gs "Clients", JNumber (format_int (pq_Clients r))); (gs "AcceptedRelayPattern", pointer (pq_AcceptedRelayPattern r))]).

Definition EncodeProxyPollRequestWithRelayPrefix (sid proxyType natType : gostring) (clients : Z) (relayPattern : gostring) : bytes :=
  marshal_ProxyPollRequest (MkProxyPollRequest sid version proxyType natType clients (Some relayPattern)).

Definition EncodeProxyPollRequest (sid proxyType natType : gostring) (clients : Z) : bytes :=
  EncodeProxyPollRequestWithRelayPrefix sid proxyType natType clients [].

Definition ProxyPollRequest_Encode (req : ProxyPollRequest) : bytes * ProxyPollRequest :=
  let req := MkProxyPollRequest (pq_Sid req) version (pq_Type req) (pq_NAT req) (pq_Clients req) (pq_AcceptedRelayPattern req) in
  (marshal_ProxyPollRequest req, req).

(** The intermediate struct; its Clients is an int64. *)
Definition auxProxyPollRequest_fields : list (field ProxyPollRequest) :=
  [string_field (gs "Sid") (λ v r, MkProxyPollRequest v (pq_Version r) (pq_Type r) (pq_NAT r) (pq_Clients r) (pq_AcceptedRelayPattern r));
   string_field (gs "Version") (λ v r, MkProxyPollRequest (pq_Sid r) v (pq_Type r) (pq_NAT r) (pq_Clients r) (pq_AcceptedRelayPattern r));
   string_field (gs "Type") (λ v r, MkProxyPollRequest (pq_Sid r) (pq_Version r) v (pq_NAT r) (pq_Clients r) (pq_AcceptedRelayPattern r));
   string_field (gs "NAT") (λ v r, MkProxyPollRequest (pq_Sid r) (pq_Version r) (pq_Type r) v (pq_Clients r) (pq_AcceptedRelayPattern r));
   int64_field (gs "Clients") (λ v r, MkProxyPollRequest (pq_Sid r) (pq_Version r) (pq_Type r) (pq_NAT r) v (pq_AcceptedRelayPattern r));
   pointer_field (gs "AcceptedRelayPattern") (λ v r, MkProxyPollRequest (pq_Sid r) (pq_Version r) (pq_Type r) (pq_NAT r) (pq_Clients r) v)].

(** What is in front of the first dot. *)
Definition major_version (v : gostring) : gostring := (split2 46 v).1.

Definition DecodeProxyPollRequest (data : bytes) : res error ProxyPollRequest :=
  aux ← unmarshal auxProxyPollRequest_fields data (MkProxyPollRequest [] [] [] [] 0 None);
  if negb (bool_decide (major_version (pq_Version aux) = gs "1")) then Err (errorf "using unknown version") else
  if bool_decide (pq_Sid aux = []) then Err (errorf "no supplied session id") else
  nat ← check_nat (pq_NAT aux);
  let typ := if known_type (pq_Type aux) then pq_Type aux else ProxyUnknown in
  Ok (MkProxyPollRequest (pq_Sid aux) (pq_Version aux) typ nat (u64 (Z.max (pq_Clients aux) 0)) (pq_AcceptedRelayPattern aux)).

(** sid, type, NAT type, clients, pattern, and whether there is a pattern. *)
Definition DecodeProxyPollRequestWithRelayPrefix (data : bytes) : res error (gostring * gostring * gostring * Z * gostring * bool) :=
  message ← DecodeProxyPollRequest data;
  Ok (pq_Sid message, pq_Type message, pq_NAT message, pq_Clients message, default [] (pq_AcceptedRelayPattern message),
      bool_decide (is_Some (pq_AcceptedRelayPattern message))).

Definition ProxyClientMatch : gostring := gs "client match".
Definition ProxyClientNoMatch : gostring := gs "no match".

Record ProxyPollResponse := MkProxyPollResponse {
  pr_Status : gostring; pr_Offer : gostring; pr_NAT : gostring; pr_NextPoll : Z; pr_RelayURL : gostring
}.

Definition ProxyPollResponse_Encode (r : ProxyPollResponse) : bytes :=
  print (JObject [(gs "Status", JString (pr_Status r)); (gs "Offer", JString (pr_Offer r)); (gs "NAT", JString (pr_NAT r));
                  (gs "NextPoll", JNumber (format_int (pr_NextPoll r))); (gs "RelayURL", JString (pr_RelayURL r))]).

Definition EncodePollResponseWithRelayURL (offer : gostring) (success : bool) (natType relayURL failReason : gostring) : bytes :=
  if success then ProxyPollResponse_Encode (MkProxyPollResponse (gs "client match") offer natType 0 relayURL)
  else ProxyPollResponse_Encode (MkProxyPollResponse failReason [] [] 0 []).

Definition EncodePollResponse (offer : gostring) (success : bool) (natType : gostring) : bytes :=
  EncodePollResponseWithRelayURL offer success natType [] (gs "no match").

Definition ProxyPollResponse_fields : list (field ProxyPollResponse) :=
  [string_field (gs "Status") (λ v r, MkProxyPollResponse v (pr_Offer r) (pr_NAT r) (pr_NextPoll r) (pr_RelayURL r));
   string_field (gs "Offer") (λ v r, MkProxyPollResponse (pr_Status r) v (pr_NAT r) (pr_NextPoll r) (pr_RelayURL r));
   string_field (gs "NAT") (λ v r, MkProxyPollResponse (pr_Status r) (pr_Offer r) v (pr_NextPoll r) (pr_RelayURL r));
   int64_field (gs "NextPoll") (λ v r, MkProxyPollResponse (pr_Status r) (pr_Offer r) (pr_NAT r) v (pr_RelayURL r));
   string_field (gs "RelayURL") (λ v r, MkProxyPollResponse (pr_Status r) (pr_Offer r) (pr_NAT r) (pr_NextPoll r) v)].

(** The message, if there is one, and the error; a status of another kind gives both. *)
Definition DecodeProxyPollResponse (data : bytes) : option ProxyPollResponse * option error :=
  match unmarshal ProxyPollResponse_fields data (MkProxyPollResponse [] [] [] 0 []) with
  | Err e => (None, Some e)
  | Panic => (None, None)
  | Ok m =>
      if bool_decide (pr_Status m = []) then (None, Some (errorf "received invalid data")) else
      let nat := if bool_decide (pr_NAT m = []) then gs "unknown" else pr_NAT m in
      if bool_decide (pr_Status m = ProxyClientMatch) then
        if bool_decide (pr_Offer m = []) then (None, Some (errorf "no supplied offer"))
        else (Some (MkProxyPollResponse (pr_Status m) (pr_Offer m) nat (pr_NextPoll m) (pr_RelayURL m)), None)
      else (Some (MkProxyPollResponse (pr_Status m) [] nat (pr_NextPoll m) (pr_RelayURL m)),
            if bool_decide (pr_Status m = ProxyClientNoMatch) then None else Some (MkError (pr_Status m)))
  end.

(** offer, NAT type, relay *)
Definition DecodePollResponseWithRelayURL (data : bytes) : res error (gostring * gostring * gostring) :=
  match DecodeProxyPollResponse data with
  | (_, Some e) => Err e
  | (Some m, None) => Ok (pr_Offer m, pr_NAT m, pr_RelayURL m)
  | (None, None) => Panic
  end.

Definition DecodePollResponse (data : bytes) : res error (gostring * gostring) :=
  '(offer, natType, relayURL) ← DecodePollResponseWithRelayURL data;
  if negb (bool_decide (relayURL = [])) then Err ErrExtraInfo else Ok (offer, natType).

(** *** proxy.go: answers *)

Record ProxyAnswerRequest := MkProxyAnswerRequest { aq_Version : gostring; aq_Sid : gostring; aq_Answer : gostring }.

Definition marshal_ProxyAnswerRequest (r : ProxyAnswerRequest) : bytes :=
  print (JObject [(gs "Version", JString (aq_Version r)); (gs "Sid", JString (aq_Sid r)); (gs "Answer", JString (aq_Answer r))]).

Definition EncodeAnswerRequest (answer sid : gostring) : bytes := marshal_ProxyAnswerRequest (MkProxyAnswerRequest version sid answer).

Definition ProxyAnswerRequest_Encode (req : ProxyAnswerRequest) : bytes * ProxyAnswerRequest :=
  let req := MkProxyAnswerRequest version (aq_Sid req) (aq_Answer req) in (marshal_ProxyAnswerRequest req, req).

Definition ProxyAnswerRequest_fields : list (field ProxyAnswerRequest) :=
  [string_field (gs "Version") (λ v r, MkProxyAnswerRequest v (aq_Sid r) (aq_Answer r));
   string_field (gs "Sid") (λ v r, MkProxyAnswerRequest (aq_Version r) v (aq_Answer r));
   string_field (gs "Answer") (λ v r, MkProxyAnswerRequest (aq_Version r) (aq_Sid r) v)].

Definition DecodeProxyAnswerRequest (data : bytes) : res error ProxyAnswerRequest :=
  message ← unmarshal ProxyAnswerRequest_fields data (MkProxyAnswerRequest [] [] []);
  if negb (bool_decide (major_version (aq_Version message) = gs "1")) then Err (errorf "using unknown version") else
  if bool_decide (aq_Sid message = []) || bool_decide (aq_Answer message = []) then Err (errorf "no supplied sid or answer") else
  _ ← map_err malformed_description (DeserializeSessionDescription (aq_Answer message));
  Ok message.

Definition DecodeAnswerRequest (data : bytes) : res error (gostring * gostring) :=
  message ← DecodeProxyAnswerRequest data; Ok (aq_Answer message, aq_Sid message).

Record ProxyAnswerResponse := MkProxyAnswerResponse { ar_Status : gostring }.

Definition ProxyAnswerResponse_Encode (r : ProxyAnswerResponse) : bytes := print (JObject [(gs "Status", JString (ar_Status r))]).

Definition EncodeAnswerResponse (success : bool) : bytes :=
  ProxyAnswerResponse_Encode (MkProxyAnswerResponse (if success then gs "success" else gs "client gone")).

Definition DecodeProxyAnswerResponse (data : bytes) : res error ProxyAnswerResponse :=
  unmarshal [string_field (gs "Status") (λ v r, MkProxyAnswerResponse v)] data (MkProxyAnswerResponse []).

Definition DecodeAnswerResponse (data : bytes) : res error bool :=
  message ← DecodeProxyAnswerResponse data;
  if bool_decide (ar_Status message = []) then Err (errorf "received invalid data") else
  Ok (bool_decide (ar_Status message = gs "success")).

(** *** Lemmas *)

Lemma unmarshal_print {R} (fields : list (field R)) ms zero r : text_ok 0 (JObject ms) → foldl (store_member false fields) (zero, true) ms = (r, true) →
  unmarshal fields (print (JObject ms)) zero = Ok r.
Proof. intros Hok Hf. unfold unmarshal, Unmarshal. rewrite (parse_print _ Hok). cbn [mbind option_bind store]. by rewrite Hf. Qed.

Lemma split2_app sep a b : sep ∉ a → split2 sep (a ++ sep :: b) = (a, Some b).
Proof.
  induction a as [|c a IH]; intros Ha; cbn [app split2]; [by rewrite Z.eqb_refl|]. rewrite not_elem_of_cons in Ha. destruct Ha as [Hc Ha].
  rewrite (proj2 (Z.eqb_neq c sep)) by congruence. by rewrite (IH Ha).
Qed.

Lemma object_ok ms : Forall (λ m, Forall ascii m.1 ∧ text_ok 1 m.2) ms → text_ok 0 (JObject ms).
Proof.
  intros Hm. constructor; [unfold maxNestingDepth; lia|]. eapply Forall_impl; [exact Hm|]. intros m [Ha Ht]. split; [by apply utf8_ascii|done].
Qed.

Lemma ascii_utf8 s : forallb (λ c, (0 <=? c) && (c <? 0x80)) s = true → Forall ascii s.
Proof. rewrite List.forallb_forall, Forall_forall. intros Hs c Hc. unfold ascii. specialize (Hs c). rewrite <- list_elem_of_In, andb_true_iff, Z.leb_le, Z.ltb_lt in Hs. by apply Hs. Qed.

Lemma pointer_ok d o : (∀ s, o = Some s → utf8 s) → text_ok d (pointer o).
Proof. intros Ho. destruct o as [s|]; constructor. by apply Ho. Qed.

End decoding.

(** An object whose members have texts that can be written. *)
Ltac members_ok := apply object_ok; repeat (apply Forall_cons; split; [split; [apply ascii_utf8; reflexivity|]|]); try apply Forall_nil; cbn [fst snd];
  try (constructor; first [done | apply format_int_number | by apply utf8_ascii, ascii_utf8]).

Ltac store_members := cbv -[parse_int64 format_int default_fingerprint]; rewrite ?parse_format_int by lia; reflexivity.

Section roundtrips.
Context `{ErrorTexts}.

Lemma client_request_roundtrip req nat : utf8 (cq_Offer req) → utf8 (cq_NAT req) → utf8 (cq_Fingerprint req) →
  cq_Offer req ≠ [] → (∃ d, DeserializeSessionDescription (cq_Offer req) = Ok d) →
  (∃ f, FingerprintFromHexString (default_fingerprint (cq_Fingerprint req)) = Ok f) → check_nat (cq_NAT req) = Ok nat →
  DecodeClientPollRequest (EncodeClientPollRequest req).1 = Ok (MkClientPollRequest (cq_Offer req) nat (default_fingerprint (cq_Fingerprint req))).
Proof.
  intros Ho Hn Hf Hne [d Hd] [f Hfp] Hnat. unfold DecodeClientPollRequest, EncodeClientPollRequest. cbn [fst cq_Offer cq_NAT cq_Fingerprint].
  change ([10] ++ ?b) with (10 :: b). rewrite split2_app by (by apply (bool_decide_eq_true_1 (10 ∉ ClientVersion))). rewrite bool_decide_eq_true_2 by done. cbn [negb].
  assert (utf8 (default_fingerprint (cq_Fingerprint req))) as Hf'.
  { unfold default_fingerprint. destruct (bool_decide _); [|done]. by apply utf8_ascii, ascii_utf8. }
  assert (default_fingerprint (default_fingerprint (cq_Fingerprint req)) = default_fingerprint (cq_Fingerprint req)) as Hdf.
  { unfold default_fingerprint. by repeat case_bool_decide. }
  rewrite (unmarshal_print _ _ _ (MkClientPollRequest (cq_Offer req) (cq_NAT req) (default_fingerprint (cq_Fingerprint req)))); [|members_ok|store_members].
  cbn [mbind res_bind cq_Offer cq_NAT cq_Fingerprint]. rewrite bool_decide_eq_false_2 by done. rewrite Hd. cbn [mbind res_bind map_err]. rewrite Hdf, Hfp.
  cbn [mbind res_bind map_err]. by rewrite Hnat.
Qed.

Lemma client_response_roundtrip resp : utf8 (cr_Answer resp) → utf8 (cr_Error resp) → cr_Answer resp ≠ [] ∨ cr_Error resp ≠ [] →
  DecodeClientPollResponse (EncodeClientPollResponse resp) = Ok resp.
Proof.
  intros Ha He Hne. unfold DecodeClientPollResponse, EncodeClientPollResponse, omitempty. destruct resp as [a e]. cbn [cr_Answer cr_Error] in *.
  rewrite (unmarshal_print _ _ _ (MkClientPollResponse a e)).
  - cbn [mbind res_bind cr_Answer cr_Error]. destruct (bool_decide_reflect (e = [])), (bool_decide_reflect (a = [])); try done. by destruct Hne.
  - destruct (bool_decide_reflect (a = [])), (bool_decide_reflect (e = [])); cbn [app]; by members_ok.
  - destruct (bool_decide_reflect (a = [])) as [->|], (bool_decide_reflect (e = [])) as [->|]; cbn [app]; store_members.
Qed.

Lemma major_version_version : major_version version = gs "1".
Proof. reflexivity. Qed.

Lemma poll_request_roundtrip sid typ nat nat' clients pattern : utf8 sid → utf8 typ → utf8 nat → utf8 pattern → sid ≠ [] →
  0 ≤ clients < 2 ^ 63 → check_nat nat = Ok nat' →
  DecodeProxyPollRequestWithRelayPrefix (EncodeProxyPollRequestWithRelayPrefix sid typ nat clients pattern) =
  Ok (sid, if known_type typ then typ else ProxyUnknown, nat', clients, pattern, true).
Proof.
  intros Hs Ht Hn Hp Hne Hc Hnat. unfold DecodeProxyPollRequestWithRelayPrefix, DecodeProxyPollRequest, EncodeProxyPollRequestWithRelayPrefix, marshal_ProxyPollRequest.
  cbn [pq_Sid pq_Version pq_Type pq_NAT pq_Clients pq_AcceptedRelayPattern pointer].
  assert (utf8 version) by (by apply utf8_ascii, ascii_utf8).
  rewrite (unmarshal_print _ _ _ (MkProxyPollRequest sid version typ nat clients (Some pattern))); [|by members_ok|store_members].
  cbn [mbind res_bind pq_Sid pq_Version pq_Type pq_NAT pq_Clients pq_AcceptedRelayPattern]. rewrite major_version_version, bool_decide_eq_true_2 by done. cbn [negb].
  rewrite bool_decide_eq_false_2 by done. rewrite Hnat. cbn [mbind res_bind pq_Sid pq_Version pq_Type pq_NAT pq_Clients pq_AcceptedRelayPattern default].
  rewrite Z.max_l by lia. unfold u64. rewrite Z.mod_small by lia. by rewrite bool_decide_eq_true_2.
Qed.

Lemma poll_response_roundtrip r : utf8 (pr_Status r) → utf8 (pr_Offer r) → utf8 (pr_NAT r) → utf8 (pr_RelayURL r) → - 2 ^ 63 ≤ pr_NextPoll r < 2 ^ 63 →
  unmarshal ProxyPollResponse_fields (ProxyPollResponse_Encode r) (MkProxyPollResponse [] [] [] 0 []) = Ok r.
Proof.
  intros Hs Ho Hn Hr Hp. destruct r as [st o n p u]. unfold ProxyPollResponse_Encode. cbn [pr_Status pr_Offer pr_NAT pr_NextPoll pr_RelayURL] in *.
  rewrite (unmarshal_print _ _ _ (MkProxyPollResponse st o n p u)); [done|by members_ok|store_members].
Qed.

Lemma match_response_roundtrip offer nat next url : utf8 offer → utf8 nat → utf8 url → offer ≠ [] → - 2 ^ 63 ≤ next < 2 ^ 63 →
  DecodeProxyPollResponse (ProxyPollResponse_Encode (MkProxyPollResponse ProxyClientMatch offer nat next url)) =
  (Some (MkProxyPollResponse ProxyClientMatch offer (if bool_decide (nat = []) then gs "unknown" else nat) next url), None).
Proof.
  intros Ho Hn Hu Hne Hx. unfold DecodeProxyPollResponse. rewrite poll_response_roundtrip; [|cbn; by apply utf8_ascii, ascii_utf8|done..].
  cbn [pr_Status pr_Offer pr_NAT pr_NextPoll pr_RelayURL]. by rewrite (bool_decide_eq_false_2 (offer = [])).
Qed.

Lemma answer_request_roundtrip answer sid : utf8 answer → utf8 sid → answer ≠ [] → sid ≠ [] → (∃ d, DeserializeSessionDescription answer = Ok d) →
  DecodeAnswerRequest (EncodeAnswerRequest answer sid) = Ok (answer, sid).
Proof.
  intros Ha Hs Hna Hns [d Hd]. unfold DecodeAnswerRequest, DecodeProxyAnswerRequest, EncodeAnswerRequest, marshal_ProxyAnswerRequest.
  cbn [aq_Version aq_Sid aq_Answer]. assert (utf8 version) by (by apply utf8_ascii, ascii_utf8).
  rewrite (unmarshal_print _ _ _ (MkProxyAnswerRequest version sid answer)); [|by members_ok|store_members].
  cbn [mbind res_bind aq_Version aq_Sid aq_Answer]. rewrite major_version_version, bool_decide_eq_true_2 by done. cbn [negb].
  rewrite !bool_decide_eq_false_2 by done. cbn [orb]. by rewrite Hd.
Qed.

Lemma answer_response_roundtrip success : DecodeAnswerResponse (EncodeAnswerResponse success) = Ok success.
Proof. destruct success; vm_compute; reflexivity. Qed.

(** C28: what one party writes the other reads.  A client's poll and the broker's
    response, a proxy's poll and the broker's response with an offer, and a
    proxy's answer and the broker's response are decoded to what was encoded, with
    the defaults for the fingerprint, the NAT type and the type of a proxy, if the
    texts are UTF-8 and pass the decoders' tests. *)
Theorem messages_roundtrip :
  (∀ req nat, utf8 (cq_Offer req) → utf8 (cq_NAT req) → utf8 (cq_Fingerprint req) → cq_Offer req ≠ [] →
     (∃ d, DeserializeSessionDescription (cq_Offer req) = Ok d) →
     (∃ f, FingerprintFromHexString (default_fingerprint (cq_Fingerprint req)) = Ok f) → check_nat (cq_NAT req) = Ok nat →
     DecodeClientPollRequest (EncodeClientPollRequest req).1 = Ok (MkClientPollRequest (cq_Offer req) nat (default_fingerprint (cq_Fingerprint req)))) ∧
  (∀ resp, utf8 (cr_Answer resp) → utf8 (cr_Error resp) → cr_Answer resp ≠ [] ∨ cr_Error resp ≠ [] →
     DecodeClientPollResponse (EncodeClientPollResponse resp) = Ok resp) ∧
  (∀ sid typ nat nat' clients pattern, utf8 sid → utf8 typ → utf8 nat → utf8 pattern → sid ≠ [] → 0 ≤ clients < 2 ^ 63 → check_nat nat = Ok nat' →
     DecodeProxyPollRequestWithRelayPrefix (EncodeProxyPollRequestWithRelayPrefix sid typ nat clients pattern) =
     Ok (sid, if known_type typ then typ else ProxyUnknown, nat', clients, pattern, true)) ∧
  (∀ offer nat next url, utf8 offer → utf8 nat → utf8 url → offer ≠ [] → - 2 ^ 63 ≤ next < 2 ^ 63 →
     DecodeProxyPollResponse (ProxyPollResponse_Encode (MkProxyPollResponse ProxyClientMatch offer nat next url)) =
     (Some (MkProxyPollResponse ProxyClientMatch offer (if bool_decide (nat = []) then gs "unknown" else nat) next url), None)) ∧
  (∀ answer sid, utf8 answer → utf8 sid → answer ≠ [] → sid ≠ [] → (∃ d, DeserializeSessionDescription answer = Ok d) →
     DecodeAnswerRequest (EncodeAnswerRequest answer sid) = Ok (answer, sid)) ∧
  (∀ success, DecodeAnswerResponse (EncodeAnswerResponse success) = Ok success).
Proof.
  exact (conj client_request_roundtrip (conj client_response_roundtrip (conj poll_request_roundtrip (conj match_response_roundtrip
    (conj answer_request_roundtrip answer_response_roundtrip))))).
Qed.

End roundtrips.
End Messages.
