(* ===== verification/Encapsulation.v ===== *)
(** * Package encapsulation (src/common/encapsulation/encapsulation.go)

    Chunks of data and padding in a byte stream, each with a length prefix of
    one to three bytes.  The reader is a finite stream that ends in a given
    error (io.EOF for a closed connection, another error for a broken one); the
    writer is any io.Writer, as the class [Writer].  [ReadData], [WriteData],
    [WritePadding] and [MaxDataForSize] are the functions of the package.  The
    section "Wire format" states the six formats of the package comment as a
    predicate, independent of the code; the theorems relate the code to it. *)
From stdpp Require Import base tactics numbers list.
From Stdlib Require Import ZArith Lia.
From S2P Require Import Prelude.
Open Scope Z_scope.

Module Encapsulation.

(** The error values of package io that the code tests, its own [ErrTooLong],
    and the other errors a connection may return. *)
Inductive io_error :=
| EOF
| ErrUnexpectedEOF
| ErrShortBuffer
| ErrShortWrite
| ErrTooLong
| ErrOther (code : Z).

#[export] Instance io_error_eq_dec : EqDecision io_error.
Proof. solve_decision. Defined.

(** An io.Reader: the bytes still to come, and the error that follows them.
    A call returns at least one byte or an error, never both. *)
Record reader := Reader { r_data : bytes; r_final : io_error }.

(** The result of [ReadData(r, p)]: the number of bytes and the error
    returned, the bytes copied into [p], and the reader afterwards. *)
Record read_result := ReadResult {
  rd_n : Z;
  rd_err : option io_error;
  rd_buf : bytes;
  rd_reader : reader
}.

(** [if err == io.EOF { err = io.ErrUnexpectedEOF }] *)
Definition unexpected (e : io_error) : io_error :=
  match e with
  | EOF => ErrUnexpectedEOF
  | e => e
  end.

(** [io.ReadFull(r, p)] for a buffer of [k] bytes: the bytes read, the error
    and the reader afterwards. *)
Definition ReadFull (r : reader) (k : Z) : bytes * option io_error * reader :=
  if k <=? len (r_data r) then
    (take (Z.to_nat k) (r_data r), None,
     Reader (drop (Z.to_nat k) (r_data r)) (r_final r))
  else
    (r_data r,
     Some (if 0 <? len (r_data r) then unexpected (r_final r) else r_final r),
     Reader [] (r_final r)).

(** [io.CopyN(io.Discard, r, k)] *)
Definition CopyN_discard (r : reader) (k : Z) : option io_error * reader :=
  if k <=? len (r_data r) then
    (None, Reader (drop (Z.to_nat k) (r_data r)) (r_final r))
  else (Some (r_final r), Reader [] (r_final r)).

(** The loop over the continuation bytes of a length prefix (lines 72 to 85):
    [k] iterations are still allowed before [ErrTooLong]. *)
Fixpoint read_more (k : nat) (more : bool) (n : Z) (r : reader)
    : (Z + io_error) * reader :=
  if more then
    match k with
    | O => (inr ErrTooLong, r)
    | S k =>
        match r_data r with
        | [] => (inr (unexpected (r_final r)), r)
        | b :: d =>
            read_more k (negb (Z.land b 0x80 =? 0))
              (Z.lor (Z.shiftl n 7) (Z.land b 0x7f)) (Reader d (r_final r))
        end
    end
  else (inl n, r).

(** The data branch of the loop body (lines 86 to 103), for a chunk of [n]
    bytes and a buffer of [lp] bytes. *)
Definition read_chunk (n lp : Z) (r : reader) : read_result :=
  let '(buf, err, r) := ReadFull r (if n <? lp then n else lp) in
  let numData := len buf in
  let '(err, r) :=
    match err with
    | None =>
        if numData <? n then
          let '(err, r) := CopyN_discard r (n - numData) in
          (match err with None => Some ErrShortBuffer | Some e => Some e end, r)
        else (None, r)
    | Some e => (Some e, r)
    end in
  ReadResult numData (option_map unexpected err) buf r.

(** The loop of [ReadData].  [fuel] bounds the number of chunks; every
    iteration consumes a byte, so the length of the stream plus one is enough
    (theorem [ReadData_total]). *)
Fixpoint read_loop (fuel : nat) (lp : Z) (r : reader) : option read_result :=
  match fuel with
  | O => None
  | S fuel =>
      match r_data r with
      | [] => Some (ReadResult 0 (Some (r_final r)) [] r)
      | b :: d =>
          let isData := negb (Z.land b 0x80 =? 0) in
          let moreLength := negb (Z.land b 0x40 =? 0) in
          match read_more 2 moreLength (Z.land b 0x3f) (Reader d (r_final r)) with
          | (inr e, r) => Some (ReadResult 0 (Some e) [] r)
          | (inl n, r) =>
              if isData then Some (read_chunk n lp r)
              else if 0 <? n then
                match CopyN_discard r n with
                | (None, r) => read_loop fuel lp r
                | (Some e, r) => Some (ReadResult 0 (Some (unexpected e)) [] r)
                end
              else read_loop fuel lp r
          end
      end
  end.

(** [ReadData(r, p)] with [lp = len(p)] *)
Definition ReadData (r : reader) (lp : Z) : option read_result :=
  read_loop (S (length (r_data r))) lp r.

(** [dataPrefixForLength(n)]: the prefix, or the error. *)
Definition dataPrefixForLength (n : Z) : bytes + io_error :=
  if Z.land (Z.shiftr n 0) 0x3f =? Z.shiftr n 0 then
    inl [Z.lor 0x80 (Z.land (Z.shiftr n 0) 0x3f)]
  else if Z.land (Z.shiftr n 7) 0x3f =? Z.shiftr n 7 then
    inl [Z.lor 0xc0 (Z.land (Z.shiftr n 7) 0x3f); Z.land (Z.shiftr n 0) 0x7f]
  else if Z.land (Z.shiftr n 14) 0x3f =? Z.shiftr n 14 then
    inl [Z.lor 0xc0 (Z.land (Z.shiftr n 14) 0x3f);
         Z.lor 0x80 (Z.land (Z.shiftr n 7) 0x7f);
         Z.land (Z.shiftr n 0) 0x7f]
  else inr ErrTooLong.

(** io.Writer: [Write(p)] returns the number of bytes written and an error. *)
Class Writer (W : Type) := w_write : W → bytes → W * Z * option io_error.

(** bytes.Buffer: every write succeeds. *)
#[export] Instance buffer_writer : Writer bytes := λ w p, (w ++ p, len p, None).

Section writers.
Context {W : Type} `{Writer W}.

  (** [WriteData(w, data)]: the writer afterwards, the byte count, the error. *)
Definition WriteData (w : W) (data : bytes) : W * Z * option io_error :=
    match dataPrefixForLength (len data) with
    | inl prefix =>
        match w_write w prefix with
        | (w, n, Some e) => (w, n, Some e)
        | (w, n, None) =>
            let '(w, n', err) := w_write w data in (w, n + n', err)
        end
    | inr e => (w, 0, Some e)
    end.

Definition paddingBufferLen : Z := 1024.

  (** The prefix of a padding chunk that takes [p] bytes in total, and the
      padding bytes that follow it (the switch of lines 169 to 179).  With no
      matching case the prefix stays nil and [p] is unchanged. *)
Definition padding_prefix (p : Z) : bytes * Z :=
    if Z.land (Z.shiftr (p - 1) 0) 0x3f =? Z.shiftr (p - 1) 0 then
      let p := p - 1 in ([Z.land (Z.shiftr p 0) 0x3f], p)
    else if Z.land (Z.shiftr (p - 2) 7) 0x3f =? Z.shiftr (p - 2) 7 then
      let p := p - 2 in
      ([Z.lor 0x40 (Z.land (Z.shiftr p 7) 0x3f); Z.land (Z.shiftr p 0) 0x7f], p)
    else if Z.land (Z.shiftr (p - 3) 14) 0x3f =? Z.shiftr (p - 3) 14 then
      let p := p - 3 in
      ([Z.lor 0x40 (Z.land (Z.shiftr p 14) 0x3f);
        Z.lor 0x80 (Z.land (Z.shiftr p 7) 0x3f);
        Z.land (Z.shiftr p 0) 0x7f], p)
    else ([], p).

  (** The loop of [WritePadding]: [n] bytes remain.  Every iteration lowers
      [n], so [n] iterations are enough (lemma [padding_loop_total]). *)
Fixpoint padding_loop (fuel : nat) (w : W) (n total : Z)
      : option (W * Z * option io_error) :=
    if n <=? 0 then Some (w, total, None) else
    match fuel with
    | O => None
    | S fuel =>
        let p := if n <? paddingBufferLen then n else paddingBufferLen in
        let n := n - p in
        let '(prefix, p) := padding_prefix p in
        match w_write w prefix with
        | (w, nn, Some e) => Some (w, total + nn, Some e)
        | (w, nn, None) =>
            match w_write w (zeros p) with
            | (w, nn', Some e) => Some (w, total + nn + nn', Some e)
            | (w, nn', None) => padding_loop fuel w n (total + nn + nn')
            end
        end
    end.

  (** [WritePadding(w, n)]; a negative length panics. *)
Definition WritePadding (w : W) (n : Z) : res Empty_set (option (W * Z * option io_error)) :=
    if n <? 0 then Panic else Ok (padding_loop (Z.to_nat n) w n 0).
End writers.

(** [MaxDataForSize(n)]; the second panic is for an error that
    [dataPrefixForLength] never returns. *)
Definition MaxDataForSize (n : Z) : res Empty_set Z :=
  if n =? 0 then Panic
  else match dataPrefixForLength n with
       | inl prefix => Ok (n - len prefix)
       | inr ErrTooLong => Ok (Z.shiftl 1 (6 + 7 + 7) - 1 - 3)
       | inr _ => Panic
       end.

(** ** Wire format

    The six formats listed in the package comment: [d] tells data from
    padding, [n] is the encoded length. *)
Inductive prefix_format (d : bool) : Z → bytes → Prop :=
| format1 x : 0 ≤ x < 2 ^ 6 →
    prefix_format d x [(if d then 0x80 else 0) + x]
| format2 x y : 0 ≤ x < 2 ^ 6 → 0 ≤ y < 2 ^ 7 →
    prefix_format d (x * 2 ^ 7 + y) [(if d then 0xc0 else 0x40) + x; y]
| format3 x y z : 0 ≤ x < 2 ^ 6 → 0 ≤ y < 2 ^ 7 → 0 ≤ z < 2 ^ 7 →
    prefix_format d (x * 2 ^ 14 + y * 2 ^ 7 + z)
      [(if d then 0xc0 else 0x40) + x; 0x80 + y; z].

(** A sequence of padding chunks, and a data chunk. *)
Inductive padding_chunks : bytes → Prop :=
| no_padding : padding_chunks []
| more_padding pre pad rest :
    prefix_format false (len pad) pre → padding_chunks rest →
    padding_chunks (pre ++ pad ++ rest).

Definition data_chunk (d c : bytes) : Prop :=
  ∃ pre, prefix_format true (len d) pre ∧ c = pre ++ d.

(** [x] is the result of reading a whole data chunk, after padding, from a
    stream that starts with them. *)
Definition read_exact (data : bytes) (lp : Z) (f : io_error) (x : read_result) : Prop :=
  ∃ pads c d rest, data = pads ++ c ++ rest ∧ padding_chunks pads ∧ data_chunk d c ∧
    len d ≤ lp ∧ x = ReadResult (len d) None d (Reader rest f).

(** A program of writes to a bytes.Buffer, and a client that reads chunks until
    ReadData fails. *)
Inductive item := Data (d : bytes) | Padding (n : Z).

Definition item_ok (lp : Z) (it : item) : Prop :=
  match it with
  | Data d => len d < 2 ^ 20 ∧ len d ≤ lp
  | Padding n => 0 ≤ n
  end.

Definition write_item (w : bytes) (it : item) : option bytes :=
  match it with
  | Data d =>
      match WriteData w d with
      | (w, _, None) => Some w
      | _ => None
      end
  | Padding n =>
      match WritePadding w n with
      | Ok (Some (w, _, None)) => Some w
      | _ => None
      end
  end.

Fixpoint write_items (w : bytes) (items : list item) : option bytes :=
  match items with
  | [] => Some w
  | it :: items => write_item w it ≫= λ w, write_items w items
  end.

Definition datas (items : list item) : list bytes :=
  omap (λ it, match it with Data d => Some d | Padding _ => None end) items.

Fixpoint read_all (fuel : nat) (lp : Z) (r : reader) : list bytes * option io_error :=
  match fuel with
  | O => ([], None)
  | S fuel =>
      match ReadData r lp with
      | Some (ReadResult _ None buf r) =>
          let '(ds, e) := read_all fuel lp r in (buf :: ds, e)
      | Some (ReadResult _ (Some e) _ _) => ([], Some e)
      | None => ([], None)
      end
  end.

(** The length prefix that starts with byte [b]: the loop body up to line 85. *)
Definition first_more (b : Z) (d : bytes) (f : io_error) : (Z + io_error) * reader :=
  read_more 2 (negb (Z.land b 0x40 =? 0)) (Z.land b 0x3f) (Reader d f).

(** ** Length prefixes *)

Lemma bit7_set b : is_byte b → negb (Z.land b 0x80 =? 0) = (128 <=? b).
Proof. intros. byte_exhaust b. Qed.

Lemma bit6_set b : is_byte b → negb (Z.land b 0x40 =? 0) = (64 <=? b mod 128).
Proof. intros. byte_exhaust b. Qed.

Lemma land_3f v : Z.land v 0x3f = v mod 64.
Proof. apply (land_low 6). lia. Qed.

Lemma land_7f v : Z.land v 0x7f = v mod 128.
Proof. apply (land_low 7). lia. Qed.

Lemma lor_80 v : 0 ≤ v < 128 → Z.lor 0x80 v = 128 + v.
Proof. intros. apply (lor_add 7 1 v); lia. Qed.

Lemma lor_c0 v : 0 ≤ v < 64 → Z.lor 0xc0 v = 192 + v.
Proof. intros. apply (lor_add 6 3 v); lia. Qed.

Lemma lor_40 v : 0 ≤ v < 64 → Z.lor 0x40 v = 64 + v.
Proof. intros. apply (lor_add 6 1 v); lia. Qed.

Lemma lor_shift7 n v : 0 ≤ v < 128 → Z.lor (Z.shiftl n 7) v = n * 2 ^ 7 + v.
Proof. intros. rewrite Z.shiftl_mul_pow2 by lia. apply lor_add; lia. Qed.

(** One iteration of the continuation loop, in arithmetic. *)
Lemma read_more_step k n b d f : is_byte b →
  read_more (S k) true n (Reader (b :: d) f) =
  read_more k (128 <=? b) (n * 2 ^ 7 + b mod 128) (Reader d f).
Proof.
  intros Hb. cbn [read_more r_data r_final].
  rewrite bit7_set, land_7f, lor_shift7 by (done || zlia). done.
Qed.

Lemma read_more_done k n r : read_more k false n r = (inl n, r).
Proof. by destruct k. Qed.

Lemma first_more_eq b d f : is_byte b →
  first_more b d f = read_more 2 (64 <=? b mod 128) (b mod 64) (Reader d f).
Proof. intros. unfold first_more. by rewrite bit6_set, land_3f. Qed.

Lemma prefix_parse d n pre rest f :
  prefix_format d n pre →
  ∃ b pre', pre = b :: pre' ∧ is_byte b ∧ (128 <=? b) = d ∧ 0 ≤ n < 2 ^ 20 ∧
    first_more b (pre' ++ rest) f = (inl n, Reader rest f).
Proof.
  intros [x ?|x y ??|x y z ???]; destruct d.
  all: eexists _, _; split; [reflexivity|].
  all: split; [unfold is_byte; lia|].
  all: split; [lia|]; split; [lia|].
  all: rewrite first_more_eq by (unfold is_byte; lia); cbn [app].
  all: match goal with |- read_more _ (64 <=? ?m) _ _ = _ =>
         first [ replace (64 <=? m) with true by zlia
               | replace (64 <=? m) with false by zlia ] end.
  all: rewrite ?read_more_step by (unfold is_byte; lia).
  all: repeat match goal with
       | |- context [read_more ?k (128 <=? ?m)] =>
           first [ replace (128 <=? m) with true by zlia
                 | replace (128 <=? m) with false by zlia ];
           rewrite ?read_more_step by (unfold is_byte; lia)
       end.
  all: rewrite read_more_done; do 2 f_equal; zlia.
Qed.

(** The constructors with their indices as equations. *)
Lemma format1_eq (d : bool) n b :
  0 ≤ n < 2 ^ 6 → b = (if d then 0x80 else 0) + n → prefix_format d n [b].
Proof. intros ? ->. by constructor. Qed.

Lemma format2_eq (d : bool) n x b c :
  0 ≤ x < 2 ^ 6 → 0 ≤ c < 2 ^ 7 → n = x * 2 ^ 7 + c →
  b = (if d then 0xc0 else 0x40) + x → prefix_format d n [b; c].
Proof. intros ?? -> ->. by constructor. Qed.

Lemma format3_eq (d : bool) n x y b c e :
  0 ≤ x < 2 ^ 6 → 0 ≤ y < 2 ^ 7 → 0 ≤ e < 2 ^ 7 → n = x * 2 ^ 14 + y * 2 ^ 7 + e →
  b = (if d then 0xc0 else 0x40) + x → c = 0x80 + y → prefix_format d n [b; c; e].
Proof. intros ??? -> -> ->. by constructor. Qed.

Lemma prefix_parse_inv b d f n r :
  bytes_ok (b :: d) → first_more b d f = (inl n, r) →
  ∃ pre rest, d = pre ++ rest ∧ r = Reader rest f ∧
    prefix_format (128 <=? b) n (b :: pre).
Proof.
  intros [Hb Hd]%bytes_ok_cons. rewrite first_more_eq by done. unfold is_byte in Hb.
  destruct (64 <=? b mod 128) eqn:E6.
  2:{ rewrite read_more_done. intros [= <- <-]. exists [], d.
      do 2 (split; [done|]). apply format1_eq; [|case_match]; zlia. }
  destruct d as [|c d]; [done|]. apply bytes_ok_cons in Hd as [Hc Hd].
  rewrite read_more_step by done. unfold is_byte in Hc.
  destruct (128 <=? c) eqn:Ec.
  2:{ rewrite read_more_done. intros [= <- <-]. exists [c], d.
      do 2 (split; [done|]). apply (format2_eq _ _ (b mod 64)); try case_match; zlia. }
  destruct d as [|e d]; [done|]. apply bytes_ok_cons in Hd as [He _].
  rewrite read_more_step by done. unfold is_byte in He.
  destruct (128 <=? e) eqn:Ee; [done|]. rewrite read_more_done. intros [= <- <-].
  exists [c; e], d. do 2 (split; [done|]).
  apply (format3_eq _ _ (b mod 64) (c mod 128)); try case_match; zlia.
Qed.

Lemma read_more_rest k m n r n' r' :
  read_more k m n r = (n', r') →
  r_final r' = r_final r ∧ (length (r_data r') ≤ length (r_data r))%nat ∧
  ∀ e, n' = inr e → e = ErrTooLong ∨ e = unexpected (r_final r).
Proof.
  revert m n r. induction k as [|k IH]; intros [] n [d f] ?; cbn in *; simplify_eq/=.
  all: repeat split; try (intros; simplify_eq; by auto); try done.
  all: destruct d as [|b d]; simplify_eq/=; try done.
  all: try (intros; simplify_eq; by auto).
  all: edestruct IH as (?&?&?); [eassumption|]; simpl in *; eauto; lia.
Qed.

(** ** The loop of ReadData *)

Lemma read_loop_cons fuel lp b d f :
  read_loop (S fuel) lp (Reader (b :: d) f) =
  match first_more b d f with
  | (inr e, r) => Some (ReadResult 0 (Some e) [] r)
  | (inl n, r) =>
      if negb (Z.land b 0x80 =? 0) then Some (read_chunk n lp r)
      else if 0 <? n then
        match CopyN_discard r n with
        | (None, r) => read_loop fuel lp r
        | (Some e, r) => Some (ReadResult 0 (Some (unexpected e)) [] r)
        end
      else read_loop fuel lp r
  end.
Proof. done. Qed.

Lemma read_loop_data fuel lp n pre rest f :
  prefix_format true n pre →
  read_loop (S fuel) lp (Reader (pre ++ rest) f) = Some (read_chunk n lp (Reader rest f)).
Proof.
  intros Hp. destruct (prefix_parse _ _ _ rest f Hp) as (b & pre' & -> & Hb & Hd & _ & Hm).
  cbn [app]. rewrite read_loop_cons, Hm, bit7_set, Hd by done. done.
Qed.

Lemma CopyN_app pad rest f :
  CopyN_discard (Reader (pad ++ rest) f) (len pad) = (None, Reader rest f).
Proof.
  unfold CopyN_discard; cbn [r_data r_final]. rewrite len_app.
  destruct (Z.leb_spec (len pad) (len pad + len rest)); [|pose proof (len_nonneg rest); lia].
  unfold len. by rewrite Nat2Z.id, drop_app_length.
Qed.

Lemma read_loop_pad fuel lp pre pad rest f :
  prefix_format false (len pad) pre →
  read_loop (S fuel) lp (Reader (pre ++ pad ++ rest) f) = read_loop fuel lp (Reader rest f).
Proof.
  intros Hp.
  destruct (prefix_parse _ _ _ (pad ++ rest) f Hp) as (b & pre' & -> & Hb & Hd & Hn & Hm).
  cbn [app]. rewrite read_loop_cons, Hm, bit7_set, Hd by done.
  destruct (Z.ltb_spec 0 (len pad)); [by rewrite CopyN_app|].
  by rewrite (len_zero_nil pad) by lia.
Qed.

Lemma read_loop_mono fuel fuel' lp r x :
  read_loop fuel lp r = Some x → (fuel ≤ fuel')%nat → read_loop fuel' lp r = Some x.
Proof.
  revert fuel' r. induction fuel as [|fuel IH]; intros fuel' r Hx Hle; [done|].
  destruct fuel' as [|fuel']; [lia|]. destruct r as [[|b d] f]; [done|].
  rewrite read_loop_cons in *. repeat case_match; try done; apply IH; auto with lia.
Qed.

Lemma CopyN_length r n e r' : CopyN_discard r n = (e, r') →
  r_final r' = r_final r ∧ (length (r_data r') ≤ length (r_data r))%nat.
Proof. unfold CopyN_discard. case_match; intros; simplify_eq/=; rewrite ?length_drop; split; (done || lia). Qed.

Lemma read_loop_total fuel lp r :
  (length (r_data r) < fuel)%nat → is_Some (read_loop fuel lp r).
Proof.
  revert r. induction fuel as [|fuel IH]; intros [[|b d] f] Hl; simpl in Hl; try lia.
  { by eexists. }
  rewrite read_loop_cons. destruct (first_more b d f) as [[n|e] r'] eqn:Hm; [|by eexists].
  apply read_more_rest in Hm as (_ & Hl' & _). simpl in Hl'.
  repeat case_match; try (by eexists); apply IH; [|lia].
  match goal with H : CopyN_discard _ _ = _ |- _ => apply CopyN_length in H end. lia.
Qed.

Lemma ReadData_loop fuel lp r x : read_loop fuel lp r = Some x → ReadData r lp = Some x.
Proof.
  intros Hx. unfold ReadData.
  destruct (read_loop_total (S (length (r_data r))) lp r) as [y Hy]; [lia|].
  destruct (Nat.le_ge_cases fuel (S (length (r_data r)))).
  - by eapply read_loop_mono.
  - rewrite Hy. symmetry. rewrite <- Hx. by eapply read_loop_mono.
Qed.

Lemma read_loop_padding pads lp rest f :
  padding_chunks pads → ∃ k, ∀ fuel,
    read_loop (k + fuel) lp (Reader (pads ++ rest) f) = read_loop fuel lp (Reader rest f).
Proof.
  induction 1 as [|pre pad pads Hp _ [k Hk]]; [by exists O|].
  exists (S k). intros fuel. rewrite <- !app_assoc. cbn [Nat.add].
  by rewrite read_loop_pad.
Qed.

(** ReadData skips the padding in front of a chunk or of the end. *)
Lemma ReadData_skip pads lp rest f :
  padding_chunks pads → ReadData (Reader (pads ++ rest) f) lp = ReadData (Reader rest f) lp.
Proof.
  intros Hp. destruct (read_loop_padding pads lp rest f Hp) as [k Hk].
  destruct (read_loop_total (S (length rest)) lp (Reader rest f)) as [x Hx]; [simpl; lia|].
  rewrite (ReadData_loop _ _ _ _ Hx). eapply ReadData_loop. by rewrite Hk.
Qed.

Lemma ReadData_chunk lp n pre rest f :
  prefix_format true n pre →
  ReadData (Reader (pre ++ rest) f) lp = Some (read_chunk n lp (Reader rest f)).
Proof. intros. eapply (ReadData_loop 1). by apply read_loop_data. Qed.

Lemma read_chunk_whole d lp rest f :
  len d ≤ lp →
  read_chunk (len d) lp (Reader (d ++ rest) f) = ReadResult (len d) None d (Reader rest f).
Proof.
  intros Hlp. pose proof (len_nonneg rest). unfold read_chunk, ReadFull.
  replace (if len d <? lp then len d else lp) with (len d) by (case_match; lia).
  cbn [r_data r_final]. rewrite len_app.
  destruct (Z.leb_spec (len d) (len d + len rest)); [|lia].
  unfold len. rewrite Nat2Z.id, take_app_length, drop_app_length.
  by rewrite Z.ltb_irrefl.
Qed.

Lemma read_chunk_short d lp rest f :
  0 ≤ lp < len d →
  read_chunk (len d) lp (Reader (d ++ rest) f) =
  ReadResult lp (Some ErrShortBuffer) (take (Z.to_nat lp) d) (Reader rest f).
Proof.
  intros Hlp. pose proof (len_nonneg rest). unfold read_chunk, ReadFull.
  destruct (Z.ltb_spec (len d) lp); [lia|]. cbn [r_data r_final]. rewrite len_app.
  destruct (Z.leb_spec lp (len d + len rest)); [|lia].
  rewrite take_app_le by (unfold len in *; lia).
  assert (len (take (Z.to_nat lp) d) = lp) as -> by (unfold len in *; rewrite length_take; lia).
  destruct (Z.ltb_spec lp (len d)); [|lia].
  rewrite drop_app_le by (unfold len in *; lia).
  replace (len d - lp) with (len (drop (Z.to_nat lp) d))
    by (unfold len in *; rewrite length_drop; lia).
  by rewrite CopyN_app.
Qed.

Lemma read_chunk_None n lp data f : 0 ≤ n → 0 ≤ lp →
  rd_err (read_chunk n lp (Reader data f)) = None →
  ∃ d rest, data = d ++ rest ∧ len d = n ∧ n ≤ lp.
Proof.
  intros Hn Hlp. unfold read_chunk, ReadFull. cbn [r_data r_final].
  set (k := if n <? lp then n else lp).
  destruct (Z.leb_spec k (len data)); [|by destruct (0 <? len data)].
  destruct (Z.ltb_spec (len (take (Z.to_nat k) data)) n) as [Hlt|Hge].
  - destruct (CopyN_discard _ _) as [[e|] r']; done.
  - intros _. exists (take (Z.to_nat k) data), (drop (Z.to_nat k) data).
    rewrite take_drop. subst k. unfold len in *. rewrite length_take in *.
    split; [done|]. case_match; lia.
Qed.

Lemma unexpected_not_EOF e : unexpected e ≠ EOF.
Proof. by destruct e. Qed.

Lemma read_chunk_not_EOF n lp r : rd_err (read_chunk n lp r) ≠ Some EOF.
Proof.
  unfold read_chunk. destruct (ReadFull r _) as [[buf err] r'].
  destruct (match err with Some _ => _ | None => _ end) as [[e|] r'']; simpl; [|done].
  intros [= He]. by eapply unexpected_not_EOF.
Qed.

(** The padding branch of the loop body. *)
Lemma skip_padding fuel lp n rest f : 0 ≤ n →
  (if 0 <? n then
     match CopyN_discard (Reader rest f) n with
     | (None, r) => read_loop fuel lp r
     | (Some e, r) => Some (ReadResult 0 (Some (unexpected e)) [] r)
     end
   else read_loop fuel lp (Reader rest f)) =
  if n <=? len rest then read_loop fuel lp (Reader (drop (Z.to_nat n) rest) f)
  else Some (ReadResult 0 (Some (unexpected f)) [] (Reader [] f)).
Proof.
  intros Hn. unfold CopyN_discard; cbn [r_data r_final].
  destruct (Z.ltb_spec 0 n); [by destruct (n <=? len rest)|]. assert (n = 0) as -> by lia.
  destruct (Z.leb_spec 0 (len rest)); [done|]. pose proof (len_nonneg rest). lia.
Qed.

(** The three ways a run of the loop ends. *)
Lemma read_loop_cases fuel lp data f x :
  bytes_ok data → read_loop fuel lp (Reader data f) = Some x →
  (∃ pads pre n rest, data = pads ++ pre ++ rest ∧ padding_chunks pads ∧
     prefix_format true n pre ∧ x = read_chunk n lp (Reader rest f)) ∨
  (padding_chunks data ∧ x = ReadResult 0 (Some f) [] (Reader [] f)) ∨
  (∃ e, rd_err x = Some e ∧ e ≠ EOF).
Proof.
  revert data. induction fuel as [|fuel IH]; intros data Hok Hx; [done|].
  destruct data as [|b d].
  { right; left. split; [constructor|]. by simplify_eq/=. }
  rewrite read_loop_cons in Hx.
  pose proof Hok as [Hb Hd]%bytes_ok_cons. rewrite bit7_set in Hx by done.
  destruct (first_more b d f) as [[n|e] r'] eqn:Hm; simplify_eq.
  2:{ right; right. apply read_more_rest in Hm as (_ & _ & He).
      exists e. split; [done|]. destruct (He e eq_refl) as [->| ->]; [done|].
      apply unexpected_not_EOF. }
  apply prefix_parse_inv in Hm as (pre & rest & -> & -> & Hp); [|done].
  apply bytes_ok_app in Hd as [_ Hrest].
  destruct (128 <=? b).
  { left. exists [], (b :: pre), n, rest. simplify_eq. repeat split; auto. constructor. }
  destruct (prefix_parse _ _ _ [] EOF Hp) as (_ & _ & _ & _ & _ & Hn & _).
  rewrite skip_padding in Hx by lia. destruct (Z.leb_spec n (len rest)).
  2:{ right; right. simplify_eq. eexists; split; [done|]. apply unexpected_not_EOF. }
  apply IH in Hx; [|by apply bytes_ok_drop].
  replace n with (len (take (Z.to_nat n) rest)) in Hp
    by (unfold len in *; rewrite length_take; lia).
  rewrite <- (take_drop (Z.to_nat n) rest).
  destruct Hx as [(pads & pre' & n' & rest' & -> & Hpads & Hp' & ->)|[[Hpads ->]|He]].
  - left. exists ((b :: pre) ++ take (Z.to_nat n) rest ++ pads), pre', n', rest'.
    split; [by rewrite <- !app_assoc|]. split; [by constructor|]. done.
  - right; left. split; [|done]. by apply (more_padding (b :: pre)).
  - by right; right.
Qed.

Lemma ReadData_exact pads c d rest lp f :
  padding_chunks pads → data_chunk d c → len d ≤ lp →
  ReadData (Reader (pads ++ c ++ rest) f) lp =
  Some (ReadResult (len d) None d (Reader rest f)).
Proof.
  intros Hp (pre & Hpre & ->) Hlp. rewrite ReadData_skip by done.
  rewrite <- app_assoc, (ReadData_chunk _ (len d)) by done.
  by rewrite read_chunk_whole.
Qed.

Lemma ReadData_end pads lp f :
  padding_chunks pads →
  ReadData (Reader pads f) lp = Some (ReadResult 0 (Some f) [] (Reader [] f)).
Proof.
  intros. rewrite <- (app_nil_r pads). by rewrite ReadData_skip.
Qed.

(** ** Writing *)

Lemma dataPrefix_ok n : 0 ≤ n < 2 ^ 20 →
  ∃ pre, dataPrefixForLength n = inl pre ∧ prefix_format true n pre ∧
    len pre = if n <? 2 ^ 6 then 1 else if n <? 2 ^ 13 then 2 else 3.
Proof.
  intros Hn. unfold dataPrefixForLength.
  rewrite !Z.shiftr_div_pow2, !land_3f, !land_7f by lia. rewrite !Z.pow_0_r, !Z.div_1_r.
  destruct (Z.eqb_spec (n mod 64) n).
  { eexists; split; [done|]. rewrite lor_80 by zlia.
    split; [apply format1_eq; zlia|]. destruct (Z.ltb_spec n (2 ^ 6)); [done|zlia]. }
  destruct (Z.ltb_spec n (2 ^ 6)); [zlia|].
  destruct (Z.eqb_spec (n / 2 ^ 7 mod 64) (n / 2 ^ 7)).
  { eexists; split; [done|]. rewrite lor_c0 by zlia.
    split; [apply (format2_eq _ _ (n / 2 ^ 7)); zlia|].
    destruct (Z.ltb_spec n (2 ^ 13)); [done|zlia]. }
  destruct (Z.ltb_spec n (2 ^ 13)); [zlia|].
  destruct (Z.eqb_spec (n / 2 ^ 14 mod 64) (n / 2 ^ 14)); [|zlia].
  eexists; split; [done|]. rewrite lor_c0, lor_80 by zlia.
  split; [|done]. apply (format3_eq _ _ (n / 2 ^ 14) (n / 2 ^ 7 mod 128)); zlia.
Qed.

Lemma dataPrefix_too_long n : n < 0 ∨ 2 ^ 20 ≤ n → dataPrefixForLength n = inr ErrTooLong.
Proof.
  intros Hn. unfold dataPrefixForLength.
  rewrite !Z.shiftr_div_pow2, !land_3f by lia. rewrite !Z.pow_0_r, !Z.div_1_r.
  destruct (Z.eqb_spec (n mod 64) n); [zlia|].
  destruct (Z.eqb_spec (n / 2 ^ 7 mod 64) (n / 2 ^ 7)); [zlia|].
  destruct (Z.eqb_spec (n / 2 ^ 14 mod 64) (n / 2 ^ 14)); [zlia|]. done.
Qed.

Lemma WriteData_ok (w d : bytes) : len d < 2 ^ 20 →
  ∃ c, WriteData w d = (w ++ c, len c, None) ∧ data_chunk d c ∧
    len c = len d + (if len d <? 2 ^ 6 then 1 else if len d <? 2 ^ 13 then 2 else 3).
Proof.
  intros Hd. pose proof (len_nonneg d).
  destruct (dataPrefix_ok (len d)) as (pre & Hpre & Hf & Hl); [lia|].
  exists (pre ++ d). unfold WriteData. rewrite Hpre. cbn [w_write buffer_writer].
  rewrite <- app_assoc, len_app, Hl. split; [done|]. split; [by exists pre|]. lia.
Qed.

Lemma padding_prefix_ok p : 0 < p ≤ paddingBufferLen →
  ∃ pre, padding_prefix p = (pre, p - len pre) ∧ len pre ≤ p ∧ 0 < len pre ∧
    prefix_format false (p - len pre) pre.
Proof.
  unfold paddingBufferLen. intros Hp. unfold padding_prefix.
  rewrite !Z.shiftr_div_pow2, !land_3f, !land_7f by lia. rewrite !Z.pow_0_r, !Z.div_1_r.
  destruct (Z.eqb_spec ((p - 1) mod 64) (p - 1)) as [E|E].
  { exists [(p - 1) mod 64]. change (len [_]) with 1.
    repeat split; [lia..|]. apply format1_eq; zlia. }
  destruct (Z.eqb_spec ((p - 2) / 2 ^ 7 mod 64) ((p - 2) / 2 ^ 7)); [|zlia].
  eexists [_; _]. change (len [_; _]) with 2.
  repeat split; [zlia..|]. rewrite lor_40 by zlia.
  apply (format2_eq _ _ ((p - 2) / 2 ^ 7)); zlia.
Qed.

Lemma padding_loop_ok fuel (w : bytes) n total : 0 ≤ n ≤ Z.of_nat fuel →
  ∃ c, padding_loop fuel w n total = Some (w ++ c, total + n, None) ∧
    len c = n ∧ padding_chunks c.
Proof.
  revert w n total. induction fuel as [|fuel IH]; intros w n total Hn; cbn [padding_loop].
  all: destruct (Z.leb_spec n 0).
  1,3: exists []; rewrite app_nil_r; replace n with 0 by lia; rewrite Z.add_0_r;
       repeat split; constructor.
  { lia. }
  set (p := if n <? paddingBufferLen then n else paddingBufferLen).
  assert (0 < p ≤ paddingBufferLen ∧ p ≤ n) as [Hp Hpn]
    by (subst p; unfold paddingBufferLen in *; case_match; lia).
  destruct (padding_prefix_ok p Hp) as (pre & -> & Hle & Hpos & Hf). cbn.
  destruct (IH ((w ++ pre) ++ zeros (p - len pre)) (n - p)
              (total + len pre + len (zeros (p - len pre)))) as (c & -> & Hc & Hpc); [lia|].
  rewrite len_zeros by lia. exists (pre ++ zeros (p - len pre) ++ c).
  rewrite !app_assoc, !len_app, len_zeros by lia.
  split; [do 3 f_equal; lia|]. split; [lia|].
  rewrite <- app_assoc. constructor; [|done]. by rewrite len_zeros by lia.
Qed.

(** ** Streams *)

Lemma padding_chunks_app c c' :
  padding_chunks c → padding_chunks c' → padding_chunks (c ++ c').
Proof.
  induction 1 as [|pre pad rest]; intros; [done|].
  rewrite <- !app_assoc. constructor; auto.
Qed.

(** A stream of chunks with its data, possibly after padding. *)
Inductive stream : list bytes → bytes → Prop :=
| stream_end pads : padding_chunks pads → stream [] pads
| stream_data pads d c ds rest :
    padding_chunks pads → data_chunk d c → stream ds rest →
    stream (d :: ds) (pads ++ c ++ rest).

Lemma stream_snoc_padding ds s pads :
  stream ds s → padding_chunks pads → stream ds (s ++ pads).
Proof.
  induction 1; intros; rewrite <- ?app_assoc; constructor; auto using padding_chunks_app.
Qed.

Lemma stream_snoc_data ds s d c :
  stream ds s → data_chunk d c → stream (ds ++ [d]) (s ++ c).
Proof.
  induction 1 as [pads|]; intros Hc; cbn [app].
  - rewrite <- (app_nil_r c). repeat constructor; done.
  - rewrite <- !app_assoc. constructor; auto.
Qed.

Lemma write_items_stream lp items ds w :
  Forall (item_ok lp) items → stream ds w →
  ∃ w', write_items w items = Some w' ∧ stream (ds ++ datas items) w'.
Proof.
  intros Hok. revert ds w. induction Hok as [|it items Hit _ IH]; intros ds w Hs.
  { exists w. by rewrite app_nil_r. }
  destruct it as [d|n]; simpl in Hit; cbn [write_items write_item].
  - destruct Hit as [Hd _]. destruct (WriteData_ok w d Hd) as (c & -> & Hc & _).
    destruct (IH (ds ++ [d]) (w ++ c)) as (w' & ? & ?); [by apply stream_snoc_data|].
    exists w'. split; [done|]. by rewrite <- app_assoc in *.
  - destruct (padding_loop_ok (Z.to_nat n) w n 0) as (c & Hw & _ & Hc); [lia|].
    unfold WritePadding. destruct (Z.ltb_spec n 0); [lia|]. rewrite Hw.
    destruct (IH ds (w ++ c)) as (w' & ? & ?); [by apply stream_snoc_padding|].
    by exists w'.
Qed.

Lemma read_all_S fuel lp r :
  read_all (S fuel) lp r =
  match ReadData r lp with
  | Some (ReadResult _ None buf r) =>
      let '(ds, e) := read_all fuel lp r in (buf :: ds, e)
  | Some (ReadResult _ (Some e) _ _) => ([], Some e)
  | None => ([], None)
  end.
Proof. done. Qed.

Lemma read_all_stream lp ds s f :
  stream ds s → Forall (λ d, len d ≤ lp) ds →
  read_all (S (length ds)) lp (Reader s f) = (ds, Some f).
Proof.
  induction 1 as [pads Hp|pads d c ds rest Hp Hc Hs IH]; intros Hlen.
  - by rewrite read_all_S, ReadData_end.
  - apply Forall_cons in Hlen as [Hd Hlen].
    rewrite read_all_S, (ReadData_exact pads c d rest lp f) by done. cbn [length]. by rewrite (IH Hlen).
Qed.

Lemma datas_ok lp items : Forall (item_ok lp) items → Forall (λ d, len d ≤ lp) (datas items).
Proof.
  induction 1 as [|[d|n] items Hit _ IH]; cbn; [constructor| |done].
  constructor; [apply Hit|done].
Qed.

(** ** Properties *)

(** C27: what is written is read back.  For every sequence of [WriteData] calls
    (each chunk encodable and no longer than the reader's buffer) and
    [WritePadding] calls, all the writes succeed, and reading the resulting
    stream with [ReadData] until it fails returns exactly the data chunks, in
    order, and then io.EOF: padding is invisible and no chunk is split, merged
    or lost. *)
Theorem encapsulation_roundtrip lp items :
  Forall (item_ok lp) items →
  ∃ w, write_items [] items = Some w ∧
    read_all (S (length (datas items))) lp (Reader w EOF) = (datas items, Some EOF).
Proof.
  intros Hok. destruct (write_items_stream lp items [] [] Hok) as (w & Hw & Hs).
  { repeat constructor. }
  exists w. split; [done|]. apply read_all_stream; [done|]. by apply datas_ok.
Qed.

Lemma encapsulation_roundtrip_witness :
  ∃ w, write_items [] [Data [1; 2; 3]; Padding 70; Data []; Padding 1; Data [9]] = Some w ∧
    read_all 4 16 (Reader w EOF) = ([[1; 2; 3]; []; [9]], Some EOF).
Proof.
  apply (encapsulation_roundtrip 16
    [Data [1; 2; 3]; Padding 70; Data []; Padding 1; Data [9]]).
  repeat constructor; vm_compute; congruence.
Defined.

(** the contract in the comment of [ReadData], on every input.  The call
    returns; its error is nil exactly when the stream starts with padding and a
    data chunk that fits in the buffer, and then the chunk is what is copied
    and the reader stands right after it; its error is io.EOF exactly when the
    stream ends (in io.EOF) before the first byte of a length prefix; and a
    chunk longer than the buffer is truncated, with io.ErrShortBuffer, and
    consumed to its end. *)
Theorem ReadData_contract data f lp :
  bytes_ok data → 0 ≤ lp →
  ∃ x, ReadData (Reader data f) lp = Some x ∧
    (rd_err x = None ↔ read_exact data lp f x) ∧
    (rd_err x = Some EOF ↔ f = EOF ∧ padding_chunks data) ∧
    (∀ pads c d rest, data = pads ++ c ++ rest → padding_chunks pads → data_chunk d c →
       lp < len d →
       x = ReadResult lp (Some ErrShortBuffer) (take (Z.to_nat lp) d) (Reader rest f)).
Proof.
  intros Hok Hlp.
  destruct (read_loop_total (S (length data)) lp (Reader data f)) as [x Hx]; [simpl; lia|].
  pose proof (ReadData_loop _ _ _ _ Hx) as HR. exists x. split; [done|].
  pose proof (read_loop_cases _ _ _ _ _ Hok Hx) as Hcases.
  split_and!.
  - split; [|by intros (?&?&?&?&_&_&_&_&->)]. intros HN.
    destruct Hcases as [(pads & pre & n & rest & -> & Hp & Hf & ->)|[[_ ->]|(?&?&?)]];
      [|done|congruence].
    destruct (prefix_parse _ _ _ [] EOF Hf) as (_ & _ & _ & _ & _ & Hn & _).
    apply read_chunk_None in HN as (d & rest' & -> & <- & ?); [|lia|done].
    exists pads, (pre ++ d), d, rest'. rewrite <- app_assoc, read_chunk_whole by done.
    repeat split; auto. by exists pre.
  - split; [|intros [-> Hp]; rewrite ReadData_end in HR by done; by simplify_eq].
    intros HE. destruct Hcases as [(?&?&?&?&?&?&?&->)|[[? ->]|(?&?&?)]].
    + by apply read_chunk_not_EOF in HE.
    + by simplify_eq/=.
    + congruence.
  - intros pads c d rest -> Hp (pre & Hf & ->) Hd. revert HR.
    rewrite ReadData_skip, <- app_assoc, (ReadData_chunk _ (len d)) by done.
    rewrite read_chunk_short by lia. by intros [= <-].
Qed.

Lemma ReadData_contract_witness :
  ∃ x, ReadData (Reader [0x01; 7; 0x82; 5; 6; 0x80] EOF) 1 = Some x ∧
    x = ReadResult 1 (Some ErrShortBuffer) [5] (Reader [0x80] EOF).
Proof.
  destruct (ReadData_contract [0x01; 7; 0x82; 5; 6; 0x80] EOF 1)
    as (x & Hx & _ & _ & Hs); [repeat constructor; lia|lia|].
  exists x. split; [done|].
  apply (Hs [0x01; 7] [0x82; 5; 6] [5; 6] [0x80]); [done|..].
  - apply (more_padding [0x01] [7] []); [by apply format1_eq|constructor].
  - exists [0x82]. split; [by apply format1_eq|done].
  - done.
Defined.

(** [WriteData] writes the chunk, at most three bytes longer than the
    data, when the length fits in 20 bits, and writes nothing and returns
    [ErrTooLong] otherwise. *)
Theorem WriteData_format (w d : bytes) :
  if len d <? 2 ^ 20 then
    ∃ c, WriteData w d = (w ++ c, len c, None) ∧ data_chunk d c ∧ len c ≤ len d + 3
  else WriteData w d = (w, 0, Some ErrTooLong).
Proof.
  destruct (Z.ltb_spec (len d) (2 ^ 20)) as [Hd|Hd].
  - destruct (WriteData_ok w d Hd) as (c & HW & Hc & Hl). exists c.
    split; [done|]. split; [done|]. repeat case_match; lia.
  - unfold WriteData. by rewrite dataPrefix_too_long by lia.
Qed.

(** [WritePadding] panics on a negative length, and otherwise writes
    exactly [n] bytes, prefixes included, all of them padding chunks. *)
Theorem WritePadding_exact (w : bytes) n :
  if n <? 0 then WritePadding w n = Panic
  else ∃ c, WritePadding w n = Ok (Some (w ++ c, n, None)) ∧ len c = n ∧ padding_chunks c.
Proof.
  unfold WritePadding. destruct (Z.ltb_spec n 0); [done|].
  destruct (padding_loop_ok (Z.to_nat n) w n 0) as (c & -> & Hc & Hp); [lia|].
  by exists c.
Qed.

(** for a positive budget [n], [MaxDataForSize] returns a length whose
    chunk [WriteData] can write within [n] bytes. *)
Theorem MaxDataForSize_fits n : 0 < n →
  ∃ m, MaxDataForSize n = Ok m ∧ 0 ≤ m ∧
    ∀ w d : bytes, len d = m →
      ∃ c, WriteData w d = (w ++ c, len c, None) ∧ len c ≤ n.
Proof.
  intros Hn. unfold MaxDataForSize. destruct (Z.eqb_spec n 0); [lia|].
  destruct (Z.ltb_spec n (2 ^ 20)).
  - destruct (dataPrefix_ok n) as (pre & -> & _ & Hl); [lia|].
    eexists; split; [done|]. split; [repeat case_match; lia|].
    intros w d Hd. destruct (WriteData_ok w d) as (c & HW & _ & Hc); [repeat case_match; lia|].
    exists c. split; [done|]. repeat case_match; lia.
  - rewrite dataPrefix_too_long by lia. eexists; split; [done|]. split; [done|].
    intros w d Hd. destruct (WriteData_ok w d) as (c & HW & _ & Hc); [by rewrite Hd|].
    exists c. split; [done|]. rewrite Hd in Hc. change (len c = 2 ^ 20 - 1) in Hc. lia.
Qed.

Lemma MaxDataForSize_fits_witness :
  ∃ m, MaxDataForSize 5 = Ok m ∧ 0 ≤ m ∧
    ∀ w d : bytes, len d = m → ∃ c, WriteData w d = (w ++ c, len c, None) ∧ len c ≤ 5.
Proof. apply (MaxDataForSize_fits 5). lia. Defined.

(** The comment of [MaxDataForSize] promises the longest such length; for a
    budget of 64 bytes the code returns 62, although 63 bytes of data take 64
    bytes in all. *)
Theorem MaxDataForSize_not_longest :
  MaxDataForSize 64 = Ok 62 ∧ ∃ c, WriteData [] (zeros 63) = (c, 64, None).
Proof. split; [done|]. by eexists. Qed.

End Encapsulation.
