(* ===== verification/GoHeap.v ===== *)
(** * container/heap

    The algorithms of Go's container/heap, over any implementation of its
    heap.Interface, given as the class [HeapInterface]; the broker's pools and
    turbotunnel's client map are its instances.  [HeapSpec] states what an
    implementation promises (its elements as a list, ordered by a key); the
    section "Lists" proves the algorithms correct on lists, and the section
    "Implementations" transfers this to every implementation that meets
    [HeapSpec]: no operation panics, the heap order is restored, the elements
    are the expected ones, and [heap.Pop] returns a least one. *)
From stdpp Require Import base tactics numbers list.
From Stdlib Require Import ZArith Lia.
From S2P Require Import Prelude.

(** Go code that returns no error: a value or a panic. *)
Abbreviation go := (res Empty_set).

(** [sh[i], sh[j] = sh[j], sh[i]] on indices in range. *)
Definition exchange {A} (i j : nat) (l : list A) : list A :=
  match l !! i, l !! j with
  | Some x, Some y => <[i:=y]> (<[j:=x]> l)
  | _, _ => l
  end.

(** heap.Interface, state passing. *)
Class HeapInterface (H X : Type) := {
  h_Len : H → go nat;
  h_Less : H → nat → nat → go bool;
  h_Swap : H → nat → nat → go H;
  h_Push : H → X → go H;
  h_Pop : H → go (X * H)
}.

Section algorithms.
Context {H X : Type} `{HeapInterface H X}.

(** The loop of [up]; the index is halved, so [j] iterations are enough. *)
Fixpoint up_loop (fuel : nat) (h : H) (j : nat) : go H :=
  match fuel with
  | O => Ok h
  | S fuel =>
      let i := ((j - 1) / 2)%nat in
      if (i =? j)%nat then Ok h else
      b ← h_Less h j i;
      if negb b then Ok h else
      h ← h_Swap h i j;
      up_loop fuel h i
  end.

Definition up (h : H) (j : nat) : go H := up_loop (S j) h j.

(** The loop of [down]: the state and the last index; the index grows, so [n]
    iterations are enough. *)
Fixpoint down_loop (fuel : nat) (h : H) (i n : nat) : go (H * nat) :=
  match fuel with
  | O => Ok (h, i)
  | S fuel =>
      let j1 := (2 * i + 1)%nat in
      if (n <=? j1)%nat then Ok (h, i) else
      let j2 := (j1 + 1)%nat in
      c ← (if (j2 <? n)%nat then h_Less h j2 j1 else Ok false);
      let j := if (c : bool) then j2 else j1 in
      b ← h_Less h j i;
      if negb b then Ok (h, i) else
      h ← h_Swap h i j;
      down_loop fuel h j n
  end.

Definition down (h : H) (i0 n : nat) : go (H * bool) :=
  '(h, i) ← down_loop (S n) h i0 n;
  Ok (h, (i0 <? i)%nat).

(** [heap.Init(h)]: [down] from index [n/2 - 1] to 0. *)
Fixpoint init_loop (k : nat) (h : H) (n : nat) : go H :=
  match k with
  | O => Ok h
  | S k => '(h, _) ← down h k n; init_loop k h n
  end.

Definition heap_Init (h : H) : go H :=
  n ← h_Len h;
  init_loop (n / 2)%nat h n.

Definition heap_Push (h : H) (x : X) : go H :=
  h ← h_Push h x;
  n ← h_Len h;
  up h (n - 1).

(** [heap.Pop(h)]; on an empty heap [n] is -1 and [h.Swap] panics. *)
Definition heap_Pop (h : H) : go (X * H) :=
  n ← h_Len h;
  if (n =? 0)%nat then Panic else
  let n := (n - 1)%nat in
  h ← h_Swap h 0%nat n;
  '(h, _) ← down h 0%nat n;
  h_Pop h.

(** [heap.Remove(h, i)] *)
Definition heap_Remove (h : H) (i : nat) : go (X * H) :=
  n ← h_Len h;
  if (n =? 0)%nat then Panic else
  let n := (n - 1)%nat in
  h ← (if (n =? i)%nat then Ok h else
         h ← h_Swap h i n;
         '(h, b) ← down h i n;
         if (b : bool) then Ok h else up h i);
  h_Pop h.

(** [heap.Fix(h, i)] *)
Definition heap_Fix (h : H) (i : nat) : go H :=
  n ← h_Len h;
  '(h, b) ← down h i n;
  if (b : bool) then Ok h else up h i.
End algorithms.

(** ** Lists

    The same loops on the list of elements. *)
Section lists.
Context {A : Type} (key : A → Z).
Implicit Types (l : list A).

Definition lt_at l (i j : nat) : bool :=
  match l !! i, l !! j with
  | Some x, Some y => key x <? key y
  | _, _ => false
  end.

Fixpoint l_up (fuel : nat) l (j : nat) : list A :=
  match fuel with
  | O => l
  | S fuel =>
      let i := ((j - 1) / 2)%nat in
      if (i =? j)%nat then l else
      if negb (lt_at l j i) then l else l_up fuel (exchange i j l) i
  end.

Fixpoint l_down (fuel : nat) l (i n : nat) : list A * nat :=
  match fuel with
  | O => (l, i)
  | S fuel =>
      let j1 := (2 * i + 1)%nat in
      if (n <=? j1)%nat then (l, i) else
      let j2 := (j1 + 1)%nat in
      let j := if (j2 <? n)%nat && lt_at l j2 j1 then j2 else j1 in
      if negb (lt_at l j i) then (l, i) else l_down fuel (exchange i j l) j n
  end.

(** The element at [i] is not greater than the one at [j]. *)
Definition le_at l (i j : nat) : Prop :=
  ∀ x y, l !! i = Some x → l !! j = Some y → key x ≤ key y.

Definition parent (c : nat) : nat := ((c - 1) / 2)%nat.

(** Heap order among the first [n] elements. *)
Definition heap_ordered (n : nat) l : Prop :=
  ∀ c, (0 < c < n)%nat → le_at l (parent c) c.

(** Heap order except for the edges below [i], above [i], or around [i]; the
    children of [i] are not less than its parent. *)
Definition ordered_but_below (n i : nat) l : Prop :=
  ∀ c, (0 < c < n)%nat → parent c ≠ i → le_at l (parent c) c.
Definition ordered_but_above (n i : nat) l : Prop :=
  ∀ c, (0 < c < n)%nat → c ≠ i → le_at l (parent c) c.
Definition ordered_but_around (n i : nat) l : Prop :=
  ∀ c, (0 < c < n)%nat → c ≠ i → parent c ≠ i → le_at l (parent c) c.
Definition grand_ordered (n i : nat) l : Prop :=
  ∀ c, (0 < c < n)%nat → (0 < i)%nat → parent c = i → le_at l (parent i) c.
End lists.

(** What an implementation promises: an invariant, its elements, their key.
    [h_rel] relates the states before and after a swap, as far as the client
    needs. *)
Class HeapSpec (H X A : Type) `{HeapInterface H X} := {
  h_key : A → Z;
  h_inv : H → Prop;
  h_elems : H → list A;
  h_rel : relation H;
  h_rel_preorder :: PreOrder h_rel;
  Len_ok h : h_inv h → h_Len h = Ok (length (h_elems h));
  Less_ok h i j : h_inv h → (i < length (h_elems h))%nat → (j < length (h_elems h))%nat →
    h_Less h i j = Ok (lt_at h_key (h_elems h) i j);
  Swap_ok h i j : h_inv h → (i < length (h_elems h))%nat → (j < length (h_elems h))%nat →
    ∃ h', h_Swap h i j = Ok h' ∧ h_inv h' ∧ h_rel h h' ∧
      h_elems h' = exchange i j (h_elems h)
}.

(** ** Exchanges *)

Lemma length_exchange {A} i j (l : list A) : length (exchange i j l) = length l.
Proof. unfold exchange. repeat case_match; by rewrite ?length_insert. Qed.

Lemma lookup_exchange {A} i j k (l : list A) :
  (i < length l)%nat → (j < length l)%nat →
  exchange i j l !! k =
  if decide (k = i) then l !! j else if decide (k = j) then l !! i else l !! k.
Proof.
  intros Hi Hj. unfold exchange.
  destruct (lookup_lt_is_Some_2 l i Hi) as [x Hx].
  destruct (lookup_lt_is_Some_2 l j Hj) as [y Hy]. rewrite Hx, Hy.
  repeat case_decide; subst.
  - by rewrite list_lookup_insert_eq by (by rewrite length_insert).
  - rewrite list_lookup_insert_ne by done. by rewrite list_lookup_insert_eq.
  - by rewrite !list_lookup_insert_ne by done.
Qed.

Lemma exchange_Permutation {A} i j (l : list A) : exchange i j l ≡ₚ l.
Proof.
  unfold exchange.
  destruct (l !! i) as [x|] eqn:Hx; [|done]. destruct (l !! j) as [y|] eqn:Hy; [|done].
  destruct (decide (i = j)) as [->|Hij].
  { simplify_eq. rewrite list_insert_insert_eq. by rewrite list_insert_id. }
  apply Permutation_inj. split; [by rewrite !length_insert|].
  exists (λ k, if decide (k = i) then j else if decide (k = j) then i else k).
  split.
  - intros a b ?. repeat case_decide; congruence.
  - intros k. pose proof (lookup_exchange i j k l (lookup_lt_Some _ _ _ Hx)
      (lookup_lt_Some _ _ _ Hy)) as Hk. unfold exchange in Hk. rewrite Hx, Hy in Hk.
    rewrite Hk. repeat case_decide; congruence.
Qed.

Lemma snoc_of_lookup {A} (l : list A) n a :
  length l = S n → l !! n = Some a → l = take n l ++ [a] ∧ length (take n l) = n.
Proof.
  intros Hl Ha. split; [|rewrite length_take; lia].
  rewrite <- (take_drop n l) at 1. f_equal.
  rewrite (drop_S _ a) by done. by rewrite drop_ge by lia.
Qed.

Lemma exchange_last {A} i n (l : list A) a :
  length l = S n → l !! i = Some a →
  ∃ l0, exchange i n l = l0 ++ [a] ∧ length l0 = n.
Proof.
  intros Hl Ha. exists (take n (exchange i n l)). pose proof (lookup_lt_Some _ _ _ Ha).
  apply snoc_of_lookup; [by rewrite length_exchange|].
  rewrite lookup_exchange by lia. repeat case_decide; by subst.
Qed.

(** ** The loops on lists restore the heap order *)

Section list_proofs.
Context {A : Type} (key : A → Z).
Implicit Types (l : list A).
Local Abbreviation le_at := (le_at key).
Local Abbreviation lt_at := (lt_at key).

Lemma parent_lt c : (0 < c)%nat → (parent c < c)%nat.
Proof. intros. unfold parent. apply Nat.Div0.div_lt_upper_bound. lia. Qed.

Lemma parent_iff c i : (0 < c)%nat → parent c = i ↔ c = (2 * i + 1)%nat ∨ c = (2 * i + 2)%nat.
Proof. intros. unfold parent. pose proof (Nat.div_mod_eq (c - 1) 2).
  pose proof (Nat.mod_upper_bound (c - 1) 2). lia. Qed.

Lemma lt_at_spec l i j : (i < length l)%nat → (j < length l)%nat →
  if lt_at l i j then ∀ x y, l !! i = Some x → l !! j = Some y → key x < key y
  else le_at l j i.
Proof.
  intros Hi Hj. unfold GoHeap.lt_at, GoHeap.le_at.
  destruct (lookup_lt_is_Some_2 l i Hi) as [x ->].
  destruct (lookup_lt_is_Some_2 l j Hj) as [y ->].
  destruct (Z.ltb_spec (key x) (key y)); naive_solver lia.
Qed.

Lemma le_at_trans l i j k : (j < length l)%nat → le_at l i j → le_at l j k → le_at l i k.
Proof.
  intros Hj H1 H2 x z Hx Hz. destruct (lookup_lt_is_Some_2 l j Hj) as [y Hy].
  specialize (H1 x y Hx Hy). specialize (H2 y z Hy Hz). lia.
Qed.

Lemma lt_at_le l i j : (i < length l)%nat → (j < length l)%nat → lt_at l i j = true → le_at l i j.
Proof.
  intros Hi Hj E. pose proof (lt_at_spec l i j Hi Hj) as Hs. rewrite E in Hs.
  intros x y Hx Hy. specialize (Hs x y Hx Hy). lia.
Qed.

Lemma lt_at_ge l i j : (i < length l)%nat → (j < length l)%nat → lt_at l i j = false → le_at l j i.
Proof. intros Hi Hj E. pose proof (lt_at_spec l i j Hi Hj) as Hs. by rewrite E in Hs. Qed.

(** Positions after an exchange of [i] and [j]. *)
Lemma le_at_exchange l i j a b : (i < length l)%nat → (j < length l)%nat →
  le_at (exchange i j l) a b ↔
  le_at l (if decide (a = i) then j else if decide (a = j) then i else a)
          (if decide (b = i) then j else if decide (b = j) then i else b).
Proof.
  intros. unfold GoHeap.le_at. rewrite !lookup_exchange by done. by repeat case_decide.
Qed.

Lemma l_up_length fuel l j : length (l_up key fuel l j) = length l.
Proof.
  revert l j. induction fuel as [|fuel IH]; intros; cbn; [done|].
  repeat case_match; try done. by rewrite IH, length_exchange.
Qed.

Lemma l_up_Permutation fuel l j : l_up key fuel l j ≡ₚ l.
Proof.
  revert l j. induction fuel as [|fuel IH]; intros; cbn; [done|].
  repeat case_match; try done. rewrite IH. apply exchange_Permutation.
Qed.

Lemma l_down_length fuel l i n : length (l_down key fuel l i n).1 = length l.
Proof.
  revert l i. induction fuel as [|fuel IH]; intros; cbn [l_down]; [done|].
  repeat case_match; try done; by rewrite IH, length_exchange.
Qed.

Lemma l_down_Permutation fuel l i n : (l_down key fuel l i n).1 ≡ₚ l.
Proof.
  revert l i. induction fuel as [|fuel IH]; intros; cbn [l_down]; [done|].
  repeat case_match; try done; rewrite IH; apply exchange_Permutation.
Qed.

(** [up] from a position whose only possible violation is towards its parent. *)
Lemma l_up_ordered fuel l j n :
  (j < fuel)%nat → (j < n ≤ length l)%nat →
  ordered_but_above key n j l → grand_ordered key n j l →
  heap_ordered key n (l_up key fuel l j).
Proof.
  revert l j. induction fuel as [|fuel IH]; intros l j Hf Hn Ha Hg; [lia|].
  cbn [l_up]. fold (parent j).
  destruct (Nat.eqb_spec (parent j) j) as [E|E].
  { intros c Hc. apply Ha; [done|]. intros ->. pose proof (parent_lt j). lia. }
  assert (0 < j)%nat as Hj by (destruct j; [done|lia]).
  pose proof (parent_lt j Hj) as Hp.
  destruct (lt_at l j (parent j)) eqn:Hlt; cbn [negb].
  2:{ apply lt_at_ge in Hlt; [|lia..]. intros c Hc.
      destruct (decide (c = j)) as [->|]; [done|]. by apply Ha. }
  apply lt_at_le in Hlt; [|lia..].
  apply IH; [lia|rewrite length_exchange; lia|..].
  - intros c Hc Hcp. apply le_at_exchange; [lia..|].
    destruct (decide (c = j)) as [->|Hcj].
    { rewrite decide_True, decide_False by lia. done. }
    rewrite (decide_False (P := c = parent j)) by done.
    case_decide as Hpp; [|case_decide as Hpp2].
    + (* a sibling of j *) eapply le_at_trans; [|apply Hlt|]; [lia|].
      rewrite <- Hpp. by apply Ha.
    + (* a child of j *) subst j. by apply Hg.
    + by apply Ha.
  - intros c Hc Hpos Hcp. apply le_at_exchange; [lia..|].
    pose proof (parent_lt (parent j) Hpos) as Hpp.
    rewrite (decide_False (P := parent (parent j) = parent j)) by lia.
    rewrite (decide_False (P := parent (parent j) = j)) by lia.
    assert (le_at l (parent (parent j)) (parent j)) as Hgp by (apply Ha; lia).
    destruct (decide (c = parent j)); [subst c; pose proof (parent_lt (parent j)); lia|].
    case_decide; [done|]. eapply le_at_trans; [|apply Hgp|]; [lia|].
    rewrite <- Hcp. by apply Ha.
Qed.

Lemma l_up_tail fuel l j k : (j < length l)%nat → (j < k)%nat →
  l_up key fuel l j !! k = l !! k.
Proof.
  revert l j. induction fuel as [|fuel IH]; intros l j Hj Hk; [done|].
  cbn [l_up]. fold (parent j). destruct (Nat.eqb_spec (parent j) j); [done|].
  destruct (negb _); [done|].
  assert (parent j < j)%nat by (apply parent_lt; destruct j; [done|lia]).
  rewrite IH by (rewrite ?length_exchange; lia).
  rewrite lookup_exchange by lia. by rewrite !decide_False by lia.
Qed.

(** The child chosen by [down]. *)
Definition min_child l (i n : nat) : nat :=
  let j1 := (2 * i + 1)%nat in
  let j2 := (j1 + 1)%nat in
  if (j2 <? n)%nat && lt_at l j2 j1 then j2 else j1.

Lemma min_child_spec l i n : (2 * i + 1 < n ≤ length l)%nat →
  (i < min_child l i n < n)%nat ∧ parent (min_child l i n) = i ∧
  ∀ c, (0 < c < n)%nat → parent c = i → le_at l (min_child l i n) c.
Proof.
  intros Hn. unfold min_child.
  assert (∀ k, le_at l k k) as Hrefl by (intros k x y ??; simplify_eq; lia).
  destruct (Nat.ltb_spec (2 * i + 1 + 1) n); cbn [andb].
  2:{ split; [lia|]. split; [apply parent_iff; lia|].
      intros c Hc [-> | ->]%parent_iff; [done|lia..]. }
  destruct (lt_at l (2 * i + 1 + 1) (2 * i + 1)) eqn:E.
  all: split; [lia|]; split; [apply parent_iff; lia|].
  all: intros c Hc [-> | ->]%parent_iff; [|..|lia]; try done.
  - apply lt_at_le in E; [done|lia..].
  - by replace (2 * i + 2)%nat with (2 * i + 1 + 1)%nat by lia.
  - apply lt_at_ge in E; [|lia..]. by replace (2 * i + 2)%nat with (2 * i + 1 + 1)%nat by lia.
Qed.

Lemma l_down_S fuel l i n :
  l_down key (S fuel) l i n =
  if (n <=? 2 * i + 1)%nat then (l, i) else
  if negb (lt_at l (min_child l i n) i) then (l, i)
  else l_down key fuel (exchange i (min_child l i n) l) (min_child l i n) n.
Proof. done. Qed.

Lemma l_down_tail fuel l i n k : (n ≤ length l)%nat → (n ≤ k)%nat →
  (l_down key fuel l i n).1 !! k = l !! k.
Proof.
  revert l i. induction fuel as [|fuel IH]; intros l i Hn Hk; [done|].
  rewrite l_down_S. destruct (Nat.leb_spec n (2 * i + 1)); [done|].
  destruct (negb _); [done|]. destruct (min_child_spec l i n) as ([? ?] & _); [lia|].
  rewrite IH by (rewrite ?length_exchange; lia).
  rewrite lookup_exchange by lia. by rewrite !decide_False by lia.
Qed.

Lemma l_down_ge fuel l i n : (n ≤ length l)%nat → (i ≤ (l_down key fuel l i n).2)%nat.
Proof.
  revert l i. induction fuel as [|fuel IH]; intros l i Hn; [done|].
  rewrite l_down_S. destruct (Nat.leb_spec n (2 * i + 1)); [done|].
  destruct (negb _); [done|]. destruct (min_child_spec l i n) as ([? ?] & _); [lia|].
  etrans; [|apply IH; by rewrite length_exchange]. lia.
Qed.

(** One exchange moves the possible violations from around [i] to below the
    chosen child. *)
Lemma exchange_down l i n j : (2 * i + 1 < n ≤ length l)%nat → j = min_child l i n →
  le_at l j i → ordered_but_around key n i l → grand_ordered key n i l →
  ordered_but_below key n j (exchange i j l) ∧ grand_ordered key n j (exchange i j l).
Proof.
  intros Hn Ej Hji Ha Hg.
  destruct (min_child_spec l i n Hn) as (Hj & Hpj & Hmin). rewrite <- Ej in *.
  split.
  - intros c Hc Hcj. apply le_at_exchange; [lia..|].
    rewrite (decide_False (P := parent c = j)) by done.
    destruct (decide (c = i)) as [->|Hci].
    { pose proof (parent_lt i). rewrite decide_False by lia.
      apply (Hg j); [lia..|done]. }
    destruct (decide (c = j)) as [->|Hcj']; [by rewrite decide_True by done|].
    case_decide; [by apply Hmin|]. by apply Ha.
  - intros c Hc _ Hcj. apply le_at_exchange; [lia..|].
    pose proof (parent_lt c). rewrite decide_True by done.
    rewrite !decide_False by lia. rewrite <- Hcj. apply Ha; lia.
Qed.

Lemma ordered_below_around n i l :
  ordered_but_below key n i l → ordered_but_around key n i l.
Proof. intros Hb c ???. by apply Hb. Qed.

(** [down] from a position whose only possible violations are towards its
    children. *)
Lemma l_down_ordered fuel l i n :
  (n < fuel + i)%nat → (n ≤ length l)%nat →
  ordered_but_below key n i l → grand_ordered key n i l →
  heap_ordered key n (l_down key fuel l i n).1.
Proof.
  revert l i. induction fuel as [|fuel IH]; intros l i Hf Hn Hb Hg.
  { intros c Hc. apply Hb; [done|]. pose proof (parent_lt c). lia. }
  rewrite l_down_S. destruct (Nat.leb_spec n (2 * i + 1)) as [Hle|Hlt].
  { intros c Hc. apply Hb; [done|]. rewrite parent_iff by lia. lia. }
  destruct (min_child_spec l i n) as (Hj & Hpj & Hmin); [lia|].
  destruct (lt_at l (min_child l i n) i) eqn:E; cbn [negb].
  2:{ apply lt_at_ge in E; [|lia..]. intros c Hc.
      destruct (decide (parent c = i)) as [Hci|]; [|by apply Hb].
      rewrite Hci. eapply le_at_trans; [|apply E|by apply Hmin]. cbn in *. lia. }
  apply lt_at_le in E; [|lia..].
  destruct (exchange_down l i n (min_child l i n)) as [Hb' Hg'];
    [lia|done|done|by apply ordered_below_around|done|].
  apply IH; [lia|by rewrite length_exchange|done..].
Qed.

(** [down] from an arbitrary position: it either moves the element and
    restores the order, or leaves the list alone, and then only the edge to
    the parent may be violated. *)
Lemma l_down_around l i n :
  (i < n ≤ length l)%nat → ordered_but_around key n i l → grand_ordered key n i l →
  let '(l', k) := l_down key (S n) l i n in
  if (i <? k)%nat then heap_ordered key n l'
  else l' = l ∧ ordered_but_above key n i l.
Proof.
  intros Hn Ha Hg. rewrite l_down_S. destruct (Nat.leb_spec n (2 * i + 1)) as [Hle|Hlt].
  { rewrite Nat.ltb_irrefl. split; [done|]. intros c Hc Hci. apply Ha; [done..|].
    rewrite parent_iff by lia. lia. }
  destruct (min_child_spec l i n) as (Hj & Hpj & Hmin); [lia|].
  destruct (lt_at l (min_child l i n) i) eqn:E; cbn [negb].
  2:{ rewrite Nat.ltb_irrefl. split; [done|]. apply lt_at_ge in E; [|lia..].
      intros c Hc Hci. destruct (decide (parent c = i)) as [Hpc|]; [|by apply Ha].
      rewrite Hpc. eapply le_at_trans; [|apply E|by apply Hmin]. cbn in *. lia. }
  apply lt_at_le in E; [|lia..].
  destruct (exchange_down l i n (min_child l i n)) as [Hb' Hg']; [lia|done..|].
  pose proof (l_down_ge n (exchange i (min_child l i n) l) (min_child l i n) n) as Hge.
  pose proof (l_down_ordered n (exchange i (min_child l i n) l) (min_child l i n) n) as Ho.
  rewrite length_exchange in *. destruct (l_down _ _ _ _ _) as [l' k]; cbn [fst snd] in *.
  destruct (Nat.ltb_spec i k); [|lia]. apply Ho; (done || lia).
Qed.

Lemma heap_ordered_min n l x : heap_ordered key n l → l !! O = Some x →
  ∀ i y, (i < n)%nat → l !! i = Some y → key x ≤ key y.
Proof.
  intros Ho Hx i. induction i as [i IH] using lt_wf_ind. intros y Hi Hy.
  destruct (decide (i = 0%nat)) as [->|]; [simplify_eq; lia|].
  pose proof (parent_lt i). assert (parent i < length l)%nat as Hp
    by (apply lookup_lt_Some in Hy; lia).
  destruct (lookup_lt_is_Some_2 l _ Hp) as [z Hz].
  trans (key z); [apply (IH (parent i)); (done || lia)|]. refine (Ho i _ z y Hz Hy). lia.
Qed.

(** A heap with one element replaced. *)
Lemma changed_at n i l l' : (i < length l)%nat → heap_ordered key n l →
  (∀ k, (k < n)%nat → k ≠ i → l' !! k = l !! k) →
  ordered_but_around key n i l' ∧ grand_ordered key n i l'.
Proof.
  intros Hi Ho Hsame. split.
  - intros c Hc Hci Hpi x y. pose proof (parent_lt c).
    rewrite !Hsame by (done || lia). by apply Ho.
  - intros c Hc Hpos Hci. pose proof (parent_lt c). pose proof (parent_lt i).
    assert (le_at l (parent i) c) as Hle.
    { eapply le_at_trans; [|apply (Ho i)|]; [lia..|]. rewrite <- Hci. by apply Ho. }
    intros x y. rewrite !Hsame by lia. apply Hle.
Qed.

Lemma heap_ordered_le m n l : heap_ordered key n l → (m ≤ n)%nat → heap_ordered key m l.
Proof. intros Ho ? c ?. apply Ho. lia. Qed.

Lemma heap_ordered_prefix n l k : (n ≤ length l)%nat →
  heap_ordered key n (l ++ k) ↔ heap_ordered key n l.
Proof.
  intros Hn. unfold heap_ordered, GoHeap.le_at.
  split; intros Ho c Hc x y; specialize (Ho c Hc x y); pose proof (parent_lt c).
  all: rewrite !lookup_app_l in * by lia; done.
Qed.

Lemma heap_ordered_snoc n l a : n = length l → heap_ordered key n l →
  ordered_but_above key (S n) n (l ++ [a]) ∧ grand_ordered key (S n) n (l ++ [a]).
Proof.
  intros -> Ho. split.
  - intros c Hc Hcn. apply (heap_ordered_prefix (length l) l [a]); [done|done|lia].
  - intros c Hc _ Hcp. pose proof (parent_lt c). lia.
Qed.
End list_proofs.

(** ** Implementations *)

Section implementations.
Context {H X A : Type} `{Spec : HeapSpec H X A}.
Implicit Types (h : H).
Local Abbreviation elems := (h_elems (HeapSpec := Spec)).
Local Abbreviation key := (h_key (HeapSpec := Spec)).
Local Abbreviation inv := (h_inv (HeapSpec := Spec)).
Local Abbreviation rel := (h_rel (HeapSpec := Spec)).

(** The elements of [h] form a heap. *)
Definition is_heap h : Prop := heap_ordered key (length (elems h)) (elems h).

Lemma up_loop_refines fuel h j : inv h → (j < length (elems h))%nat →
  ∃ h', up_loop fuel h j = Ok h' ∧ inv h' ∧ rel h h' ∧ elems h' = l_up key fuel (elems h) j.
Proof.
  revert h j. induction fuel as [|fuel IH]; intros h j Hi Hj; cbn [up_loop l_up].
  { by exists h. }
  destruct (Nat.eqb_spec ((j - 1) / 2) j); [by exists h|].
  assert ((j - 1) / 2 < j)%nat by (apply parent_lt; destruct j; [done|lia]).
  rewrite Less_ok by (done || lia). cbn [mbind res_bind].
  destruct (lt_at _ _ _ _); cbn [negb]; [|by exists h].
  destruct (Swap_ok h ((j - 1) / 2) j) as (h1 & -> & Hi1 & Hr1 & He1); [done|lia..|].
  cbn [mbind res_bind].
  destruct (IH h1 ((j - 1) / 2)%nat) as (h' & ? & ? & ? & ?);
    [done|rewrite He1, length_exchange; lia|].
  exists h'. rewrite <- He1. repeat split; auto. by trans h1.
Qed.

Lemma down_loop_refines fuel h i n : inv h → (n ≤ length (elems h))%nat →
  ∃ h', down_loop fuel h i n = Ok (h', (l_down key fuel (elems h) i n).2) ∧
    inv h' ∧ rel h h' ∧ elems h' = (l_down key fuel (elems h) i n).1.
Proof.
  revert h i. induction fuel as [|fuel IH]; intros h i Hi Hn; cbn [down_loop].
  { by exists h. }
  rewrite l_down_S. destruct (Nat.leb_spec n (2 * i + 1)); [by exists h|].
  destruct (min_child_spec key (elems h) i n) as (Hj & _ & _); [lia|].
  unfold min_child in *.
  replace (if (2 * i + 1 + 1 <? n)%nat then h_Less h (2 * i + 1 + 1) (2 * i + 1) else Ok false)
    with (Ok (E:=Empty_set) ((2 * i + 1 + 1 <? n)%nat &&
             lt_at key (elems h) (2 * i + 1 + 1) (2 * i + 1))).
  2:{ destruct (Nat.ltb_spec (2 * i + 1 + 1) n); [|done]. by rewrite Less_ok by (done || lia). }
  cbn [mbind res_bind]. set (j := if _ && _ then _ else _) in *.
  rewrite Less_ok by (done || lia). cbn [mbind res_bind].
  destruct (lt_at _ _ j i); cbn [negb]; [|by exists h].
  destruct (Swap_ok h i j) as (h1 & -> & Hi1 & Hr1 & He1); [done|lia..|].
  cbn [mbind res_bind]. rewrite <- He1.
  destruct (IH h1 j) as (h' & ? & ? & ? & ?); [done|rewrite He1, length_exchange; lia|].
  exists h'. repeat split; auto. by trans h1.
Qed.

(** [h'] is a rearrangement of [h] whose first [n] elements form a heap and
    whose other elements are in place. *)
Definition settled (n : nat) h h' : Prop :=
  inv h' ∧ rel h h' ∧ elems h' ≡ₚ elems h ∧ heap_ordered key n (elems h') ∧
  ∀ k, (n ≤ k)%nat → elems h' !! k = elems h !! k.

(** [up] after a violation towards the parent of [j]. *)
Lemma up_ok h j n : inv h → (j < n ≤ length (elems h))%nat →
  ordered_but_above key n j (elems h) → grand_ordered key n j (elems h) →
  ∃ h', up h j = Ok h' ∧ settled n h h'.
Proof.
  intros Hi Hj Ha Hg. destruct (up_loop_refines (S j) h j Hi) as (h' & ? & ? & ? & He); [lia|].
  exists h'. split; [done|]. unfold settled. rewrite He. repeat split; auto.
  - apply l_up_Permutation.
  - apply l_up_ordered; auto; lia.
  - intros k Hk. apply l_up_tail; lia.
Qed.

(** [down] after violations towards the children of [i]. *)
Lemma down_ok h i n : inv h → (n ≤ length (elems h))%nat →
  ordered_but_below key n i (elems h) → grand_ordered key n i (elems h) →
  ∃ h' b, down h i n = Ok (h', b) ∧ settled n h h'.
Proof.
  intros Hi Hn Hb Hg. destruct (down_loop_refines (S n) h i n Hi Hn) as (h' & HD & ? & ? & He).
  eexists h', _. unfold down. rewrite HD. split; [done|]. unfold settled. rewrite He.
  repeat split; auto.
  - apply l_down_Permutation.
  - apply l_down_ordered; auto; lia.
  - intros k Hk. by apply l_down_tail.
Qed.

(** [down], then [up] if nothing moved: the tail of [heap.Remove] and
    [heap.Fix]. *)
Lemma sift_ok h i n : inv h → (i < n ≤ length (elems h))%nat →
  ordered_but_around key n i (elems h) → grand_ordered key n i (elems h) →
  ∃ h', ('(h, b) ← down h i n; if (b : bool) then Ok h else up h i) = Ok h' ∧ settled n h h'.
Proof.
  intros Hi Hn Ha Hg.
  destruct (down_loop_refines (S n) h i n Hi) as (h1 & HD & Hi1 & Hr1 & He1); [lia|].
  unfold down. rewrite HD. cbn [mbind res_bind].
  pose proof (l_down_around key (elems h) i n Hn Ha Hg) as Hcase.
  pose proof (l_down_Permutation key (S n) (elems h) i n) as Hperm.
  pose proof (λ k, l_down_tail key (S n) (elems h) i n k) as Htail.
  destruct (l_down key (S n) (elems h) i n) as [l' k]. cbn [fst snd] in *. subst l'.
  destruct (i <? k)%nat.
  { exists h1. split; [done|]. repeat split; auto. intros. apply Htail; [apply Hn|done]. }
  destruct Hcase as [He Ha']. rewrite <- He in Ha', Hg.
  destruct (up_ok h1 i n) as (h' & HU & ? & ? & HP & ? & HT);
    [done|by rewrite He|done|done|].
  exists h'. split; [done|]. repeat split; [done|by trans h1|by rewrite HP, He|done|].
  intros. rewrite HT by done. by rewrite He.
Qed.

Lemma heap_Init_empty h : inv h → elems h = [] → heap_Init h = Ok h ∧ is_heap h.
Proof.
  intros Hi He. unfold heap_Init, is_heap. rewrite Len_ok, He by done.
  split; [done|]. intros c Hc. simpl in Hc. lia.
Qed.

(** [heap.Push], given what [h.Push] does. *)
Lemma heap_Push_ok h x h1 a :
  h_Push h x = Ok h1 → inv h1 → elems h1 = elems h ++ [a] → is_heap h →
  ∃ h', heap_Push h x = Ok h' ∧ inv h' ∧ rel h1 h' ∧ elems h' ≡ₚ elems h ++ [a] ∧ is_heap h'.
Proof.
  intros HP Hi He Hh. unfold heap_Push. rewrite HP. cbn [mbind res_bind].
  rewrite Len_ok, He by done. cbn [mbind res_bind].
  rewrite length_app. cbn [length].
  replace (length (elems h) + 1 - 1)%nat with (length (elems h)) by lia.
  destruct (heap_ordered_snoc key _ (elems h) a eq_refl Hh) as [Ha Hg].
  destruct (up_ok h1 (length (elems h)) (S (length (elems h)))) as (h' & HU & ? & ? & Hp & ? & _).
  { done. } { rewrite He, length_app; cbn; lia. } { by rewrite He. } { by rewrite He. }
  exists h'. rewrite <- He. repeat split; auto. unfold is_heap.
  apply Permutation_length in Hp. rewrite Hp, He, length_app. cbn. by rewrite Nat.add_1_r.
Qed.

Lemma settled_last n h h' l a : elems h = l ++ [a] → n = length l → settled n h h' →
  ∃ l', elems h' = l' ++ [a] ∧ l' ≡ₚ l ∧ heap_ordered key (length l') l'.
Proof.
  intros He -> (_ & _ & Hp & Ho & Ht).
  assert (length (elems h') = S (length l)) as Hl
    by (rewrite Hp, He, length_app; cbn; lia).
  assert (elems h' !! length l = Some a) as Ha.
  { rewrite Ht by done. rewrite He. by rewrite lookup_app_r, Nat.sub_diag by done. }
  destruct (snoc_of_lookup (elems h') (length l) a Hl Ha) as [He' _].
  exists (take (length l) (elems h')). split; [done|]. split.
  - rewrite He, He' in Hp. by apply Permutation_app_inv_r in Hp.
  - rewrite length_take, Hl, Nat.min_l by lia. rewrite He' in Ho.
    apply (heap_ordered_prefix key _ _ [a]); [rewrite length_take; lia|done].
Qed.

(** [heap.Pop] moves a least element to the end, where [h.Pop] takes it. *)
Lemma heap_Pop_ok h : inv h → is_heap h → elems h ≠ [] →
  ∃ h1 l a, heap_Pop h = h_Pop h1 ∧ inv h1 ∧ rel h h1 ∧ elems h1 = l ++ [a] ∧
    l ++ [a] ≡ₚ elems h ∧ heap_ordered key (length l) l ∧
    ∀ b, b ∈ elems h → key a ≤ key b.
Proof.
  intros Hi Hh Hne. unfold heap_Pop. rewrite Len_ok by done. cbn [mbind res_bind].
  destruct (elems h) as [|a t] eqn:He; [done|]. rewrite <- He in *.
  assert (length (elems h) = S (length t)) as Hl by (by rewrite He).
  destruct (Nat.eqb_spec (length (elems h)) 0); [lia|]. rewrite Hl. cbn [Nat.sub].
  rewrite Nat.sub_0_r.
  destruct (Swap_ok h 0 (length t)) as (h0 & -> & Hi0 & Hr0 & He0); [done|lia..|].
  cbn [mbind res_bind].
  assert (∀ k, (k < length t)%nat → k ≠ 0%nat → elems h0 !! k = elems h !! k) as Hsame.
  { intros. rewrite He0, lookup_exchange by lia. by rewrite !decide_False by lia. }
  destruct (changed_at key (length t) 0 (elems h) (elems h0)) as [Ha Hg]; [lia| |done|].
  { apply (heap_ordered_le _ _ _ _ Hh). lia. }
  destruct (down_ok h0 0 (length t)) as (h1 & b & -> & Hs); [done| | |done|].
  { rewrite He0, length_exchange. lia. }
  { intros c Hc Hc0. apply Ha; [done|lia|done]. }
  cbn [mbind res_bind].
  destruct (exchange_last 0 (length t) (elems h) a) as (l0 & E0 & L0); [done|by rewrite He|].
  rewrite <- He0 in E0.
  destruct (settled_last (length t) h0 h1 l0 a) as (l & E1 & Hp & Ho); [done..|].
  exists h1, l, a. split; [done|]. destruct Hs as (? & ? & Hperm & _).
  split; [done|]. split; [by trans h0|]. split; [done|].
  split; [by rewrite <- E1, Hperm, He0, exchange_Permutation|]. split; [done|].
  intros y (i & Hy)%list_elem_of_lookup. eapply heap_ordered_min; [apply Hh|by rewrite He| |done].
  by apply lookup_lt_Some in Hy.
Qed.

(** [heap.Remove] moves the element at [i] to the end, where [h.Pop] takes it. *)
Lemma heap_Remove_ok h i a : inv h → is_heap h → elems h !! i = Some a →
  ∃ h1 l, heap_Remove h i = h_Pop h1 ∧ inv h1 ∧ rel h h1 ∧ elems h1 = l ++ [a] ∧
    l ++ [a] ≡ₚ elems h ∧ heap_ordered key (length l) l.
Proof.
  intros Hi Hh Ha. unfold heap_Remove. rewrite Len_ok by done. cbn [mbind res_bind].
  pose proof (lookup_lt_Some _ _ _ Ha) as Hlt.
  destruct (Nat.eqb_spec (length (elems h)) 0) as [|_]; [lia|].
  remember (length (elems h) - 1)%nat as n eqn:En.
  assert (length (elems h) = S n) as Hl by lia.
  destruct (Nat.eqb_spec n i) as [<-|Hni]; cbn [mbind res_bind].
  { destruct (snoc_of_lookup _ _ _ Hl Ha) as [Hs Hln]. exists h, (take n (elems h)).
    split; [done|]. split; [done|]. split; [done|]. rewrite <- Hs. split; [done|].
    split; [done|]. rewrite Hln. apply (heap_ordered_prefix key _ _ [a]); [lia|].
    rewrite <- Hs. apply (heap_ordered_le _ _ _ _ Hh). lia. }
  destruct (Swap_ok h i n) as (h0 & -> & Hi0 & Hr0 & He0); [done|lia..|].
  cbn [mbind res_bind].
  destruct (changed_at key n i (elems h) (elems h0)) as [Har Hg]; [lia| | |].
  { apply (heap_ordered_le _ _ _ _ Hh). lia. }
  { intros. rewrite He0, lookup_exchange by lia. by rewrite !decide_False by lia. }
  destruct (sift_ok h0 i n) as (h1 & HS & Hs); [done| |done..|].
  { rewrite He0, length_exchange. lia. }
  cbn [mbind res_bind] in HS. rewrite HS. cbn [mbind res_bind].
  destruct (exchange_last i n (elems h) a Hl Ha) as (l0 & E0 & L0). rewrite <- He0 in E0.
  destruct (settled_last n h0 h1 l0 a) as (l & E1 & Hp & Ho); [done..|].
  exists h1, l. split; [done|]. destruct Hs as (? & ? & Hperm & _).
  split; [done|]. split; [by trans h0|]. split; [done|].
  split; [by rewrite <- E1, Hperm, He0, exchange_Permutation|done].
Qed.

(** [heap.Fix] after the element at [i] of a heap was replaced. *)
Lemma heap_Fix_ok h i l : inv h → (i < length (elems h))%nat →
  length l = length (elems h) → heap_ordered key (length l) l →
  (∀ k, k ≠ i → elems h !! k = l !! k) →
  ∃ h', heap_Fix h i = Ok h' ∧ inv h' ∧ rel h h' ∧ elems h' ≡ₚ elems h ∧ is_heap h'.
Proof.
  intros Hi Hlt Hl Ho Hsame. unfold heap_Fix. rewrite Len_ok by done. cbn [mbind res_bind].
  destruct (changed_at key (length l) i l (elems h)) as [Har Hg]; [lia|done| |].
  { intros. by apply Hsame. }
  rewrite Hl in Har, Hg.
  destruct (sift_ok h i (length (elems h))) as (h' & -> & ? & ? & Hp & ? & _); [done|lia|done..|].
  exists h'. repeat split; auto. unfold is_heap. by rewrite (Permutation_length Hp).
Qed.
End implementations.
