(* ===== verification/SnowflakeHeap.v ===== *)
(** * Pools of waiting proxies (src/broker/snowflake-heap.go)

    A pool is a heap of pointers to [Snowflake] records, kept in the shared
    store: the broker's goroutines hold the same pointers, and [Swap], [Push]
    and [Pop] write the record's [index] field through them.  [SnowflakeHeap]
    is the heap.Interface implementation, as an instance of [HeapInterface];
    [pool_Push], [pool_Pop] and [pool_Remove] are the methods of
    [SnowflakePool].  The instance of [HeapSpec] shows that the [index] fields
    always name the positions of the heap. *)
From stdpp Require Import base tactics numbers list strings gmap.
From Stdlib Require Import ZArith Lia.
From S2P Require Import Prelude GoHeap.
Open Scope Z_scope.

Module SnowflakeHeap.

(** A pointer to a Snowflake. *)
Abbreviation loc := nat.

(** The Snowflake struct; its two channels are identified by the pointer. *)
Record Snowflake := MkSnowflake {
  sf_id : gostring;
  sf_proxyType : gostring;
  sf_natType : gostring;
  sf_clients : Z;
  sf_index : Z
}.

#[export] Instance Snowflake_inhabited : Inhabited Snowflake :=
  populate (MkSnowflake [] [] [] 0 0).

(** [NewSnowflake]: the fields given, the index zero. *)
Definition NewSnowflake (id proxyType natType : gostring) (clients : Z) : Snowflake :=
  MkSnowflake id proxyType natType clients 0.

Definition set_index (i : Z) (s : Snowflake) : Snowflake :=
  MkSnowflake (sf_id s) (sf_proxyType s) (sf_natType s) (sf_clients s) i.

Abbreviation store := (gmap loc Snowflake).

(** A heap and the store it points into. *)
Record heap_state := HeapState { hs_store : store; hs_heap : list loc }.

(** [*p], a panic on a nil pointer. *)
Definition deref (σ : store) (p : loc) : go Snowflake :=
  match σ !! p with
  | Some s => Ok s
  | None => Panic
  end.

(** [p.index = i] *)
Definition write_index (σ : store) (p : loc) (i : Z) : go store :=
  s ← deref σ p; Ok (<[p:=set_index i s]> σ).

(** [sh[i]] *)
Definition at_index (l : list loc) (i : nat) : go loc :=
  match l !! i with
  | Some p => Ok p
  | None => Panic
  end.

Definition sh_Len (h : heap_state) : go nat := Ok (length (hs_heap h)).

Definition sh_Less (h : heap_state) (i j : nat) : go bool :=
  p ← at_index (hs_heap h) i;
  q ← at_index (hs_heap h) j;
  s ← deref (hs_store h) p;
  t ← deref (hs_store h) q;
  Ok (sf_clients s <? sf_clients t).

Definition sh_Swap (h : heap_state) (i j : nat) : go heap_state :=
  p ← at_index (hs_heap h) i;
  q ← at_index (hs_heap h) j;
  let l := exchange i j (hs_heap h) in
  p ← at_index l i;
  σ ← write_index (hs_store h) p (Z.of_nat i);
  q ← at_index l j;
  σ ← write_index σ q (Z.of_nat j);
  Ok (HeapState σ l).

Definition sh_Push (h : heap_state) (p : loc) : go heap_state :=
  let n := len (hs_heap h) in
  σ ← write_index (hs_store h) p n;
  Ok (HeapState σ (hs_heap h ++ [p])).

Definition sh_Pop (h : heap_state) : go (loc * heap_state) :=
  let n := length (hs_heap h) in
  if (n =? 0)%nat then Panic else
  p ← at_index (hs_heap h) (n - 1)%nat;
  σ ← write_index (hs_store h) p (-1);
  Ok (p, HeapState σ (take (n - 1) (hs_heap h))).

#[export] Instance SnowflakeHeap_interface : HeapInterface heap_state loc := {
  h_Len := sh_Len;
  h_Less := sh_Less;
  h_Swap := sh_Swap;
  h_Push := sh_Push;
  h_Pop := sh_Pop
}.

(** SnowflakePool, with its poll interval in nanoseconds. *)
Record SnowflakePool := Pool { pool_h : list loc; pool_pollInterval : Z }.

(** [NewSnowflakePool]: an initialised empty heap, 20 seconds. *)
Definition NewSnowflakePool (σ : store) : go (store * SnowflakePool) :=
  h ← heap_Init (HeapState σ []);
  Ok (hs_store h, Pool (hs_heap h) (20 * 10 ^ 9)).

Definition pool_Push (σ : store) (sp : SnowflakePool) (p : loc) : go (store * SnowflakePool) :=
  h ← heap_Push (HeapState σ (pool_h sp)) p;
  Ok (hs_store h, Pool (hs_heap h) (pool_pollInterval sp)).

(** [Pop]: nil on an empty pool. *)
Definition pool_Pop (σ : store) (sp : SnowflakePool)
    : go (option loc * store * SnowflakePool) :=
  n ← h_Len (HeapState σ (pool_h sp));
  if (0 <? n)%nat then
    '(p, h) ← heap_Pop (HeapState σ (pool_h sp));
    Ok (Some p, hs_store h, Pool (hs_heap h) (pool_pollInterval sp))
  else Ok (None, σ, sp).

(** [Remove(s)]: nothing for an index of -1; another negative index makes
    [heap.Remove] panic. *)
Definition pool_Remove (σ : store) (sp : SnowflakePool) (p : loc)
    : go (store * SnowflakePool) :=
  s ← deref σ p;
  if sf_index s =? -1 then Ok (σ, sp) else
  if sf_index s <? 0 then Panic else
  '(_, h) ← heap_Remove (HeapState σ (pool_h sp)) (Z.to_nat (sf_index s));
  Ok (hs_store h, Pool (hs_heap h) (pool_pollInterval sp)).

Definition GetPollInterval (sp : SnowflakePool) : Z := pool_pollInterval sp.

Definition SetPollInterval (sp : SnowflakePool) (interval : Z) : SnowflakePool :=
  Pool (pool_h sp) interval.

(** ** Invariant

    Every pointer of the heap is valid and its [index] is its position. *)
Definition heap_wf (h : heap_state) : Prop :=
  ∀ i p, hs_heap h !! i = Some p →
    ∃ s, hs_store h !! p = Some s ∧ sf_index s = Z.of_nat i.

(** Two stores that differ at most in [index] fields, and nowhere outside [l]. *)
Definition same_but_index (l : list loc) (σ σ' : store) : Prop :=
  ∀ p, match σ !! p with
       | Some s => ∃ i, σ' !! p = Some (set_index i s) ∧ (p ∉ l → i = sf_index s)
       | None => σ' !! p = None
       end.

Definition heap_rel (h h' : heap_state) : Prop :=
  hs_heap h' ≡ₚ hs_heap h ∧ same_but_index (hs_heap h) (hs_store h) (hs_store h').

(** The pointers with their number of clients, the order of the heap. *)
Definition clients_of (σ : store) (p : loc) : Z := sf_clients (σ !!! p).
Definition heap_elems (h : heap_state) : list (loc * Z) :=
  map (λ p, (p, clients_of (hs_store h) p)) (hs_heap h).

(** A pool in order: valid, and no element has more clients than its children. *)
Definition pool_ok (σ : store) (sp : SnowflakePool) : Prop :=
  heap_wf (HeapState σ (pool_h sp)) ∧
  heap_ordered snd (length (pool_h sp)) (heap_elems (HeapState σ (pool_h sp))).

(** ** Abstract specification: a priority queue of waiting proxies

    Operations on a pool, run in sequence; the output is what [Pop] returns. *)
Inductive pool_op := PPush (p : loc) | PPop | PRemove (p : loc).

Definition pool_step (σ : store) (sp : SnowflakePool) (op : pool_op)
    : go (option loc * store * SnowflakePool) :=
  match op with
  | PPush p => '(σ', sp') ← pool_Push σ sp p; Ok (None, σ', sp')
  | PPop => pool_Pop σ sp
  | PRemove p => '(σ', sp') ← pool_Remove σ sp p; Ok (None, σ', sp')
  end.

Fixpoint pool_run (σ : store) (sp : SnowflakePool) (ops : list pool_op)
    : go (list (option loc) * store * SnowflakePool) :=
  match ops with
  | [] => Ok ([], σ, sp)
  | op :: ops =>
      '(o, σ', sp') ← pool_step σ sp op;
      '(os, σ'', sp'') ← pool_run σ' sp' ops;
      Ok (o :: os, σ'', sp'')
  end.

(** The set of waiting proxies; [c] is their number of clients. *)
Inductive pq_step (c : loc → Z) : gset loc → pool_op → option loc → gset loc → Prop :=
  | pq_push W p : p ∉ W → pq_step c W (PPush p) None ({[p]} ∪ W)
  | pq_pop_empty : pq_step c ∅ PPop None ∅
  | pq_pop W p : p ∈ W → (∀ q, q ∈ W → c p ≤ c q) →
      pq_step c W PPop (Some p) (W ∖ {[p]})
  | pq_remove W p : pq_step c W (PRemove p) None (W ∖ {[p]}).

Inductive pq_run (c : loc → Z) : gset loc → list pool_op → list (option loc) → gset loc → Prop :=
  | pq_run_nil W : pq_run c W [] [] W
  | pq_run_cons W op o W1 ops os W2 :
      pq_step c W op o W1 → pq_run c W1 ops os W2 →
      pq_run c W (op :: ops) (o :: os) W2.

(** The discipline of the broker: a record is pushed once, and only records
    pushed before are removed (they may have been popped meanwhile). *)
Fixpoint disciplined (σ : store) (seen : gset loc) (ops : list pool_op) : Prop :=
  match ops with
  | [] => True
  | PPush p :: ops => is_Some (σ !! p) ∧ (p ∉ seen) ∧ disciplined σ ({[p]} ∪ seen) ops
  | PPop :: ops => disciplined σ seen ops
  | PRemove p :: ops => p ∈ seen ∧ disciplined σ seen ops
  end.

(** Every record seen is in the pool or marked as outside of it. *)
Definition accounted (σ : store) (seen : gset loc) (sp : SnowflakePool) : Prop :=
  pool_ok σ sp ∧ (∀ p, p ∈ pool_h sp → p ∈ seen) ∧
  (∀ p, p ∈ seen → p ∉ pool_h sp → sf_index <$> σ !! p = Some (-1)).

(** ** The heap.Interface instance meets its specification *)

Lemma set_index_id s : set_index (sf_index s) s = s.
Proof. by destruct s. Qed.

Lemma exchange_map {A B} (f : A → B) i j (l : list A) :
  map f (exchange i j l) = exchange i j (map f l).
Proof.
  unfold exchange. change (map f) with (fmap (M:=list) f).
  rewrite !list_lookup_fmap.
  destruct (l !! i), (l !! j); cbn; [|done..]. by rewrite !list_fmap_insert.
Qed.

Lemma write_index_ok σ p s i : σ !! p = Some s →
  write_index σ p i = Ok (<[p:=set_index i s]> σ).
Proof. unfold write_index, deref. by intros ->. Qed.

Lemma same_but_index_refl l σ : same_but_index l σ σ.
Proof.
  intros p. destruct (σ !! p) as [s|] eqn:E; [|done].
  exists (sf_index s). by rewrite set_index_id.
Qed.

Lemma same_but_index_trans l l' σ1 σ2 σ3 : (∀ p, p ∈ l' → p ∈ l) →
  same_but_index l σ1 σ2 → same_but_index l' σ2 σ3 → same_but_index l σ1 σ3.
Proof.
  intros Hl H12 H23 p. specialize (H12 p). specialize (H23 p).
  destruct (σ1 !! p) as [s|]; [|by rewrite H12 in H23].
  destruct H12 as (i & E & Hi). rewrite E in H23. destruct H23 as (j & -> & Hj).
  exists j. split; [done|]. intros Hp. rewrite <- Hi by done. apply Hj. auto.
Qed.

Lemma same_but_index_insert l σ p s i : σ !! p = Some s → p ∈ l →
  same_but_index l σ (<[p:=set_index i s]> σ).
Proof.
  intros Hs Hp q. destruct (decide (p = q)) as [<-|Hne].
  - rewrite Hs, lookup_insert_eq. exists i. split; [done|]. intros []; done.
  - rewrite lookup_insert_ne by done. apply (same_but_index_refl l).
Qed.

Lemma same_but_index_clients l σ σ' p : same_but_index l σ σ' → clients_of σ' p = clients_of σ p.
Proof.
  intros Hsame. specialize (Hsame p). unfold clients_of, lookup_total, map_lookup_total.
  destruct (σ !! p); [destruct Hsame as (i & -> & _)|rewrite Hsame]; done.
Qed.

Lemma heap_elems_same l σ σ' k : same_but_index l σ σ' →
  heap_elems (HeapState σ' k) = heap_elems (HeapState σ k).
Proof.
  intros Hs. unfold heap_elems. cbn. apply map_ext. intros p.
  by rewrite (same_but_index_clients l σ σ' p).
Qed.

Lemma length_heap_elems h : length (heap_elems h) = length (hs_heap h).
Proof. apply length_map. Qed.

Lemma heap_wf_inj h i j p : heap_wf h →
  hs_heap h !! i = Some p → hs_heap h !! j = Some p → i = j.
Proof.
  intros Hwf (s & Hs & Hi)%Hwf (t & Ht & Hj)%Hwf. simplify_eq. lia.
Qed.

Lemma heap_wf_NoDup h : heap_wf h → NoDup (hs_heap h).
Proof. intros Hwf. apply NoDup_alt. intros i j p. by apply heap_wf_inj. Qed.

Lemma at_index_ok l i : (i < length l)%nat → ∃ p, at_index l i = Ok p ∧ l !! i = Some p.
Proof.
  intros Hi. destruct (lookup_lt_is_Some_2 l i Hi) as [p Hp].
  exists p. unfold at_index. by rewrite Hp.
Qed.

Lemma sh_Less_ok h i j : heap_wf h → (i < length (hs_heap h))%nat → (j < length (hs_heap h))%nat →
  sh_Less h i j = Ok (lt_at snd (heap_elems h) i j).
Proof.
  intros Hwf Hi Hj. unfold sh_Less, lt_at, heap_elems.
  change (map ?f ?l) with (f <$> l). rewrite !list_lookup_fmap.
  destruct (at_index_ok (hs_heap h) i Hi) as (p & -> & Hp).
  destruct (at_index_ok (hs_heap h) j Hj) as (q & -> & Hq). rewrite Hp, Hq. cbn.
  apply Hwf in Hp as (s & Hs & _). apply Hwf in Hq as (t & Ht & _).
  unfold deref. rewrite Hs, Ht. cbn. unfold clients_of, lookup_total, map_lookup_total.
  by rewrite Hs, Ht.
Qed.

(** The stores written by [Swap]. *)
Lemma swap_wf h i j p q sp sq : heap_wf h →
  hs_heap h !! i = Some p → hs_heap h !! j = Some q →
  heap_wf (HeapState
    (<[p:=set_index (Z.of_nat j) sp]> (<[q:=set_index (Z.of_nat i) sq]> (hs_store h)))
    (exchange i j (hs_heap h))).
Proof.
  intros Hwf Hp Hq k r Hk. cbn in Hk |- *.
  pose proof (lookup_lt_Some _ _ _ Hp). pose proof (lookup_lt_Some _ _ _ Hq).
  rewrite lookup_exchange in Hk by done.
  destruct (decide (p = r)) as [<-|Hpr].
  { rewrite lookup_insert_eq. eexists; split; [done|]. cbn.
    repeat case_decide; subst; try done.
    - by rewrite (heap_wf_inj h _ _ p Hwf Hk Hp).
    - by destruct (heap_wf_inj h _ _ p Hwf Hk Hp). }
  rewrite lookup_insert_ne by done. destruct (decide (q = r)) as [<-|Hqr].
  { rewrite lookup_insert_eq. eexists; split; [done|]. cbn.
    repeat case_decide; subst; try done.
    - by rewrite (heap_wf_inj h _ _ q Hwf Hk Hq) in *.
    - by destruct (heap_wf_inj h _ _ q Hwf Hk Hq). }
  rewrite lookup_insert_ne by done. apply Hwf. repeat case_decide; congruence.
Qed.

Lemma sh_Swap_ok h i j : heap_wf h → (i < length (hs_heap h))%nat → (j < length (hs_heap h))%nat →
  ∃ h', sh_Swap h i j = Ok h' ∧ heap_wf h' ∧ heap_rel h h' ∧
    heap_elems h' = exchange i j (heap_elems h).
Proof.
  intros Hwf Hi Hj. unfold sh_Swap.
  destruct (at_index_ok (hs_heap h) i Hi) as (p & -> & Hp).
  destruct (at_index_ok (hs_heap h) j Hj) as (q & -> & Hq). cbn [mbind res_bind].
  destruct (Hwf _ _ Hp) as (sp & Hsp & _). destruct (Hwf _ _ Hq) as (sq & Hsq & _).
  assert (exchange i j (hs_heap h) !! i = Some q ∧ exchange i j (hs_heap h) !! j = Some p) as [Ei Ej].
  { rewrite !lookup_exchange by done. split; repeat case_decide; congruence. }
  unfold at_index. rewrite Ei, Ej. cbn [mbind res_bind]. rewrite (write_index_ok _ _ _ _ Hsq). cbn [mbind res_bind].
  set (σ1 := <[q:=set_index (Z.of_nat i) sq]> (hs_store h)).
  assert (∃ s1, σ1 !! p = Some s1) as [s1 Hs1].
  { unfold σ1. destruct (decide (q = p)) as [<-|];
      [rewrite lookup_insert_eq|rewrite lookup_insert_ne by done]; eauto. }
  rewrite (write_index_ok _ _ _ _ Hs1). cbn [mbind res_bind].
  assert (same_but_index (hs_heap h) (hs_store h) (<[p:=set_index (Z.of_nat j) s1]> σ1)) as Hsame.
  { eapply (same_but_index_trans _ (hs_heap h)); [done|..];
      (apply same_but_index_insert; [done|by eapply list_elem_of_lookup_2]). }
  eexists; split; [done|]. split_and!.
  - by apply swap_wf.
  - split; [apply exchange_Permutation|done].
  - rewrite (heap_elems_same _ _ _ _ Hsame). unfold heap_elems. cbn. apply exchange_map.
Qed.

#[export] Instance heap_rel_preorder : PreOrder heap_rel.
Proof.
  split.
  - intros h. split; [done|]. apply same_but_index_refl.
  - intros h1 h2 h3 [P12 S12] [P23 S23]. split; [by rewrite P23|].
    eapply same_but_index_trans; [|done..]. intros p. by rewrite P12.
Qed.

#[export, refine] Instance SnowflakeHeap_spec : HeapSpec heap_state loc (loc * Z) := {
  h_key := snd;
  h_inv := heap_wf;
  h_elems := heap_elems;
  h_rel := heap_rel
}.
Proof.
  - intros h _. rewrite length_heap_elems. done.
  - intros h i j. rewrite length_heap_elems. apply sh_Less_ok.
  - intros h i j. rewrite length_heap_elems. apply sh_Swap_ok.
Defined.

(** ** The pool operations *)

Lemma heap_elems_fst h : map fst (heap_elems h) = hs_heap h.
Proof. unfold heap_elems. rewrite map_map. cbn. apply map_id. Qed.

Lemma is_heap_pool σ sp : pool_ok σ sp ↔
  heap_wf (HeapState σ (pool_h sp)) ∧ is_heap (HeapState σ (pool_h sp)).
Proof. unfold pool_ok, is_heap. cbn [h_elems SnowflakeHeap_spec]. by rewrite length_heap_elems. Qed.

(** [h.Pop] takes the last element and marks it as outside of the heap. *)
Lemma sh_Pop_ok h l a : heap_wf h → heap_elems h = l ++ [a] →
  ∃ σ', sh_Pop h = Ok (a.1, HeapState σ' (map fst l)) ∧
    heap_wf (HeapState σ' (map fst l)) ∧ heap_elems (HeapState σ' (map fst l)) = l ∧
    same_but_index (hs_heap h) (hs_store h) σ' ∧
    hs_heap h = map fst l ++ [a.1] ∧ sf_index <$> σ' !! a.1 = Some (-1).
Proof.
  intros Hwf He.
  assert (hs_heap h = map fst l ++ [a.1]) as Hh by (by rewrite <- heap_elems_fst, He, map_app).
  assert (hs_heap h !! length l = Some a.1) as Hlast.
  { rewrite Hh, lookup_app_r by (by rewrite length_map). by rewrite length_map, Nat.sub_diag. }
  destruct (Hwf _ _ Hlast) as (s & Hs & _).
  assert (length (hs_heap h) = S (length l)) as Hl
    by (rewrite Hh, length_app, length_map; cbn; lia).
  exists (<[a.1:=set_index (-1) s]> (hs_store h)).
  assert (same_but_index (hs_heap h) (hs_store h) (<[a.1:=set_index (-1) s]> (hs_store h))) as Hsame
    by (apply same_but_index_insert; [done|by eapply list_elem_of_lookup_2]).
  split_and!; [|..|done|done|by rewrite lookup_insert_eq].
  - unfold sh_Pop, at_index. rewrite Hl. cbn [Nat.eqb]. replace (S (length l) - 1)%nat with (length l) by lia.
    rewrite Hlast. cbn [mbind res_bind]. rewrite (write_index_ok _ _ _ _ Hs). cbn [mbind res_bind].
    rewrite Hh. by rewrite take_app_le, take_ge by (rewrite length_map; lia).
  - intros i p Hi. cbn in Hi |- *. assert (hs_heap h !! i = Some p) as Hi'.
    { rewrite Hh. by apply lookup_app_l_Some. }
    destruct (decide (a.1 = p)) as [<-|]; [|rewrite lookup_insert_ne by done; by apply Hwf].
    apply lookup_lt_Some in Hi. rewrite length_map in Hi.
    pose proof (heap_wf_inj h _ _ _ Hwf Hi' Hlast). lia.
  - rewrite (heap_elems_same _ _ _ _ Hsame). unfold heap_elems in *. rewrite Hh, map_app in He.
    by apply app_inj_tail in He as [He _].
Qed.

(** [NewSnowflakePool] returns an empty pool in order. *)
Lemma NewSnowflakePool_ok σ :
  ∃ sp, NewSnowflakePool σ = Ok (σ, sp) ∧ pool_ok σ sp ∧ pool_h sp = [].
Proof.
  unfold NewSnowflakePool.
  destruct (heap_Init_empty (Spec := SnowflakeHeap_spec) (HeapState σ [])) as [-> Hh]; [done..|].
  eexists; split; [done|]. split; [|done]. by apply is_heap_pool.
Qed.

Lemma pool_Push_ok σ sp p s : pool_ok σ sp → σ !! p = Some s → p ∉ pool_h sp →
  ∃ σ' sp', pool_Push σ sp p = Ok (σ', sp') ∧ pool_ok σ' sp' ∧
    pool_h sp' ≡ₚ p :: pool_h sp ∧ same_but_index (p :: pool_h sp) σ σ' ∧
    pool_pollInterval sp' = pool_pollInterval sp.
Proof.
  intros [Hwf Hh]%is_heap_pool Hs Hp. unfold pool_Push.
  set (h1 := HeapState (<[p:=set_index (len (pool_h sp)) s]> σ) (pool_h sp ++ [p])).
  assert (same_but_index [p] σ (hs_store h1)) as Hsame
    by (apply same_but_index_insert; [done|by left]).
  destruct (heap_Push_ok (Spec := SnowflakeHeap_spec) (HeapState σ (pool_h sp)) p h1
              (p, clients_of σ p)) as (h' & HP & Hwf' & [Hperm Hsame'] & He & Hh').
  - cbn. unfold sh_Push. cbn. by rewrite (write_index_ok _ _ _ _ Hs).
  - intros i q Hi. cbn in Hi |- *. apply lookup_app_Some in Hi as [Hi|[Hle Hi]].
    + rewrite lookup_insert_ne by (intros ->; apply Hp; by eapply list_elem_of_lookup_2).
      by apply Hwf.
    + apply list_lookup_singleton_Some in Hi as [Hi <-]. rewrite lookup_insert_eq.
      eexists; split; [done|]. cbn. unfold len. lia.
  - cbn [h_elems SnowflakeHeap_spec]. unfold h1. rewrite (heap_elems_same _ _ _ _ Hsame).
    unfold heap_elems. cbn. by rewrite map_app.
  - done.
  - rewrite HP. cbn. eexists _, _; split; [done|]. destruct h' as [σ' l']. cbn in *.
    split; [by apply is_heap_pool|]. split; [by rewrite Hperm, Permutation_app_comm|].
    split; [|done]. eapply (same_but_index_trans _ (pool_h sp ++ [p])); [|..|done].
    + intros q. rewrite elem_of_app, list_elem_of_singleton, elem_of_cons. tauto.
    + intros q. specialize (Hsame q). destruct (σ !! q); [|done].
      destruct Hsame as (i & ? & Hi). exists i. split; [done|]. intros Hq. apply Hi.
      rewrite elem_of_cons in Hq. rewrite list_elem_of_singleton. tauto.
Qed.

(** The end of [heap.Pop] and [heap.Remove]: the last element leaves the pool. *)
Lemma sh_Pop_pool σ sp h1 l a : heap_wf h1 → heap_rel (HeapState σ (pool_h sp)) h1 →
  heap_elems h1 = l ++ [a] → heap_ordered snd (length l) l →
  ∃ σ', sh_Pop h1 = Ok (a.1, HeapState σ' (map fst l)) ∧
    (∀ iv, pool_ok σ' (Pool (map fst l) iv)) ∧
    pool_h sp ≡ₚ a.1 :: map fst l ∧ same_but_index (pool_h sp) σ σ' ∧
    sf_index <$> σ' !! a.1 = Some (-1).
Proof.
  intros Hwf1 [Hp Hsame] He Hord. cbn [hs_heap hs_store] in *.
  destruct (sh_Pop_ok h1 l a Hwf1 He) as (σ' & HP & Hwf' & He' & Hs' & Hheap & Hidx).
  exists σ'. split_and!; [done|..|done].
  - intros iv. split; [done|]. cbn [pool_h]. by rewrite He', length_map.
  - by rewrite <- Hp, Hheap, Permutation_app_comm.
  - eapply (same_but_index_trans _ (hs_heap h1)); [|done..]. intros q. by rewrite Hp.
Qed.

(** [Pop] returns a proxy with the least number of clients. *)
Lemma pool_Pop_ok σ sp : pool_ok σ sp → pool_h sp ≠ [] →
  ∃ p σ' sp', pool_Pop σ sp = Ok (Some p, σ', sp') ∧ pool_ok σ' sp' ∧
    pool_h sp ≡ₚ p :: pool_h sp' ∧ same_but_index (pool_h sp) σ σ' ∧
    sf_index <$> σ' !! p = Some (-1) ∧
    (∀ q, q ∈ pool_h sp → clients_of σ p ≤ clients_of σ q) ∧
    pool_pollInterval sp' = pool_pollInterval sp.
Proof.
  intros [Hwf Hh]%is_heap_pool Hne. unfold pool_Pop. cbn [h_Len SnowflakeHeap_interface].
  unfold sh_Len. cbn [mbind res_bind hs_heap].
  replace (0 <? _)%nat with true by (by destruct (pool_h sp)).
  destruct (heap_Pop_ok (Spec := SnowflakeHeap_spec) (HeapState σ (pool_h sp)))
    as (h1 & l & a & -> & Hwf1 & Hrel & He & Hperm & Hord & Hmin); [done..|by destruct (pool_h sp)|].
  cbn [h_elems h_inv h_rel h_key SnowflakeHeap_spec h_Pop SnowflakeHeap_interface] in *.
  destruct (sh_Pop_pool σ sp h1 l a Hwf1 Hrel He Hord) as (σ' & -> & Hok & Hpool & Hsame & Hidx).
  do 3 eexists; split; [done|]. split_and!; [apply Hok|done..| |done].
  assert (∀ q, q ∈ pool_h sp → (q, clients_of σ q) ∈ heap_elems (HeapState σ (pool_h sp))) as Hin.
  { intros q Hq. unfold heap_elems. apply list_elem_of_fmap. by exists q. }
  assert (a ∈ heap_elems (HeapState σ (pool_h sp))) as Ha
    by (rewrite <- Hperm; apply elem_of_app; right; by left).
  unfold heap_elems in Ha. apply list_elem_of_fmap in Ha as (p & -> & _).
  intros q Hq. apply (Hmin _ (Hin q Hq)).
Qed.

Lemma pool_Pop_empty σ sp : pool_h sp = [] → pool_Pop σ sp = Ok (None, σ, sp).
Proof. intros E. unfold pool_Pop. cbn. unfold sh_Len. cbn. by rewrite E. Qed.

(** [Remove] takes out the proxy it is given, wherever it is. *)
Lemma pool_Remove_in σ sp p : pool_ok σ sp → p ∈ pool_h sp →
  ∃ σ' sp', pool_Remove σ sp p = Ok (σ', sp') ∧ pool_ok σ' sp' ∧
    pool_h sp ≡ₚ p :: pool_h sp' ∧ same_but_index (pool_h sp) σ σ' ∧
    sf_index <$> σ' !! p = Some (-1) ∧ pool_pollInterval sp' = pool_pollInterval sp.
Proof.
  intros [Hwf Hh]%is_heap_pool [i Hi]%list_elem_of_lookup_1. unfold pool_Remove, deref.
  destruct (Hwf i p Hi) as (s & Hs & Hidx). cbn in Hs. rewrite Hs. cbn [mbind res_bind].
  destruct (Z.eqb_spec (sf_index s) (-1)); [lia|]. destruct (Z.ltb_spec (sf_index s) 0); [lia|].
  replace (Z.to_nat (sf_index s)) with i by lia.
  destruct (heap_Remove_ok (Spec := SnowflakeHeap_spec) (HeapState σ (pool_h sp)) i
              (p, clients_of σ p)) as (h1 & l & -> & Hwf1 & Hrel & He & Hperm & Hord); [done..| |].
  { cbn [h_elems SnowflakeHeap_spec]. unfold heap_elems. cbn [hs_heap hs_store].
    by rewrite list_lookup_fmap, Hi. }
  cbn [h_elems h_inv h_rel h_key SnowflakeHeap_spec h_Pop SnowflakeHeap_interface] in *.
  destruct (sh_Pop_pool σ sp h1 l _ Hwf1 Hrel He Hord) as (σ' & -> & Hok & Hpool & Hsame & Hi').
  do 2 eexists; split; [done|]. by split_and!; [apply Hok|..].
Qed.

(** A proxy popped before, with index -1, is left alone. *)
Lemma pool_Remove_out σ sp p : sf_index <$> σ !! p = Some (-1) →
  pool_Remove σ sp p = Ok (σ, sp).
Proof.
  unfold pool_Remove, deref. destruct (σ !! p); cbn; [|done]. by intros [= ->].
Qed.

(** A pool does not depend on the records outside of it. *)
Lemma pool_ok_frame l σ σ' sp : pool_ok σ sp → same_but_index l σ σ' →
  (∀ p, p ∈ pool_h sp → p ∉ l) → pool_ok σ' sp.
Proof.
  intros [Hwf Hord] Hsame Hd. split.
  - intros i p Hi. destruct (Hwf i p Hi) as (s & Hs & Hidx). cbn in *.
    specialize (Hsame p). rewrite Hs in Hsame. destruct Hsame as (j & -> & Hj).
    eexists; split; [done|]. cbn. rewrite Hj; [done|]. apply Hd. by eapply list_elem_of_lookup_2.
  - by rewrite (heap_elems_same _ _ _ _ Hsame).
Qed.

(** ** The pool refines the priority queue *)

Lemma same_but_index_index l σ σ' p : same_but_index l σ σ' → p ∉ l →
  sf_index <$> σ' !! p = sf_index <$> σ !! p.
Proof.
  intros Hs Hp. specialize (Hs p). destruct (σ !! p); [|by rewrite Hs].
  destruct Hs as (i & -> & Hi). cbn. by rewrite Hi.
Qed.

Lemma disciplined_same l σ σ' seen ops : same_but_index l σ σ' →
  disciplined σ seen ops → disciplined σ' seen ops.
Proof.
  intros Hs. revert seen. induction ops as [|[p| |p] ops IH]; intros seen; cbn; [done|..|intros [? ?]; auto].
  - intros ([s Hp] & Hn & Hd). split; [|auto]. specialize (Hs p). rewrite Hp in Hs.
    destruct Hs as (i & -> & _). eauto.
  - apply IH.
Qed.

Lemma pq_step_ext c c' W op o W' : (∀ p, c' p = c p) → pq_step c W op o W' → pq_step c' W op o W'.
Proof. intros Hc. destruct 1; constructor; auto. intros q Hq. rewrite !Hc. auto. Qed.

Lemma pq_run_ext c c' W ops os W' : (∀ p, c' p = c p) →
  pq_run c W ops os W' → pq_run c' W ops os W'.
Proof. intros Hc. induction 1; econstructor; eauto using pq_step_ext. Qed.

(** An element leaves the pool. *)
Lemma accounted_extract σ σ' seen sp sp' p : accounted σ seen sp → p ∈ seen → pool_ok σ' sp' →
  pool_h sp ≡ₚ p :: pool_h sp' → same_but_index (pool_h sp) σ σ' →
  sf_index <$> σ' !! p = Some (-1) →
  accounted σ' seen sp' ∧
  list_to_set (C := gset loc) (pool_h sp') = list_to_set (pool_h sp) ∖ {[p]}.
Proof.
  intros (Hok & Hin & Hout) Hp Hok' Hperm Hs Hi.
  assert (NoDup (p :: pool_h sp')) as [Hnp _]%NoDup_cons
    by (rewrite <- Hperm; apply (heap_wf_NoDup _ (proj1 Hok))).
  split; [split_and!; [done|..]|].
  - intros q Hq. apply Hin. rewrite Hperm. by right.
  - intros q Hq Hq'. destruct (decide (q = p)) as [->|Hne]; [done|].
    assert (q ∉ pool_h sp) as Hq'' by (rewrite Hperm, elem_of_cons; tauto).
    rewrite (same_but_index_index _ _ _ _ Hs Hq''). auto.
  - apply set_eq. intros q. rewrite elem_of_difference, !elem_of_list_to_set, Hperm,
      elem_of_cons, elem_of_singleton. split; [|tauto]. intros Hq. split; [tauto|]. by intros ->.
Qed.

Lemma pool_step_refines σ seen sp op ops : accounted σ seen sp → disciplined σ seen (op :: ops) →
  ∃ o σ' sp' seen', pool_step σ sp op = Ok (o, σ', sp') ∧ accounted σ' seen' sp' ∧
    disciplined σ' seen' ops ∧ (∀ p, clients_of σ' p = clients_of σ p) ∧
    pq_step (clients_of σ) (list_to_set (pool_h sp)) op o (list_to_set (pool_h sp')).
Proof.
  intros Hacc Hd. pose proof Hacc as (Hok & Hin & Hout). destruct op as [p| |p]; cbn [disciplined pool_step] in Hd |- *.
  - destruct Hd as ([s Hs] & Hn & Hd).
    destruct (pool_Push_ok σ sp p s Hok Hs) as (σ' & sp' & -> & Hok' & Hperm & Hsame & _); [auto|].
    exists None, σ', sp', ({[p]} ∪ seen). split_and!; [done| |by eapply disciplined_same|..].
    + split_and!; [done|..]; intros q; rewrite elem_of_union, elem_of_singleton, Hperm, elem_of_cons;
        [intros [->|?]; auto|].
      intros [->|Hq] Hq'; [by destruct Hq'; left|].
      rewrite (same_but_index_index _ _ _ q Hsame) by (rewrite elem_of_cons; tauto). apply Hout; tauto.
    + intros q. by eapply same_but_index_clients.
    + rewrite (list_to_set_perm_L _ _ Hperm). apply pq_push. rewrite elem_of_list_to_set. auto.
  - destruct (decide (pool_h sp = [])) as [E|Hne].
    { rewrite pool_Pop_empty by done. exists None, σ, sp, seen.
      rewrite E. split_and!; [done..|apply pq_pop_empty]. }
    destruct (pool_Pop_ok σ sp Hok Hne)
      as (p & σ' & sp' & -> & Hok' & Hperm & Hsame & Hi & Hmin & _).
    assert (p ∈ pool_h sp) as Hp by (rewrite Hperm; by left).
    destruct (accounted_extract σ σ' seen sp sp' p) as [Hacc' HW]; [auto..|].
    exists (Some p), σ', sp', seen. split_and!; [done|done|by eapply disciplined_same|..].
    + intros q. by eapply same_but_index_clients.
    + rewrite HW. apply pq_pop; [by rewrite elem_of_list_to_set|]. intros q. rewrite elem_of_list_to_set. auto.
  - destruct Hd as [Hp Hd]. destruct (decide (p ∈ pool_h sp)) as [Hp'|Hp'].
    + destruct (pool_Remove_in σ sp p Hok Hp')
        as (σ' & sp' & -> & Hok' & Hperm & Hsame & Hi & _).
      destruct (accounted_extract σ σ' seen sp sp' p) as [Hacc' HW]; [auto..|].
      exists None, σ', sp', seen. split_and!; [done|done|by eapply disciplined_same| |rewrite HW; apply pq_remove].
      intros q. by eapply same_but_index_clients.
    + rewrite (pool_Remove_out σ sp p) by auto. exists None, σ, sp, seen. split_and!; [done..|].
      replace (list_to_set (pool_h sp)) with (list_to_set (C := gset loc) (pool_h sp) ∖ {[p]}) at 2
        by (apply set_eq; intros q; rewrite elem_of_difference, elem_of_list_to_set, elem_of_singleton;
            split; [tauto|]; intros Hq; split; [done|]; by intros ->).
      apply pq_remove.
Qed.

Lemma pool_run_refines ops : ∀ σ seen sp, accounted σ seen sp → disciplined σ seen ops →
  ∃ os σ' sp', pool_run σ sp ops = Ok (os, σ', sp') ∧ pool_ok σ' sp' ∧
    pq_run (clients_of σ) (list_to_set (pool_h sp)) ops os (list_to_set (pool_h sp')).
Proof.
  induction ops as [|op ops IH]; intros σ seen sp Hacc Hd.
  { exists [], σ, sp. split_and!; [done|apply Hacc|constructor]. }
  destruct (pool_step_refines σ seen sp op ops Hacc Hd)
    as (o & σ' & sp' & seen' & Hs & Hacc' & Hd' & Hc & Hpq).
  destruct (IH σ' seen' sp' Hacc' Hd') as (os & σ'' & sp'' & Hr & Hok & Hpqs).
  exists (o :: os), σ'', sp''. cbn. rewrite Hs. cbn. rewrite Hr. cbn. split_and!; [done..|].
  econstructor; [done|]. by eapply (pq_run_ext (clients_of σ')).
Qed.

(** ** Properties *)

(** C10: a pool of waiting proxies is a priority queue.  From the pool that
    [NewSnowflakePool] makes, any sequence of [Push], [Pop] and [Remove] in
    which a record is pushed at most once and removed only after it was
    pushed, runs without a panic; what it returns is what the abstract queue
    returns, in particular each [Pop] gives a waiting proxy with the least
    number of clients, and [Remove] takes out exactly its argument, or nothing
    when it has been popped before; the final heap is in order and each
    [index] field is the position of its record. *)
Theorem pool_refines_priority_queue (σ : store) (ops : list pool_op) :
  disciplined σ ∅ ops →
  ∃ sp os σ' sp', NewSnowflakePool σ = Ok (σ, sp) ∧
    pool_run σ sp ops = Ok (os, σ', sp') ∧ pool_ok σ' sp' ∧
    pq_run (clients_of σ) ∅ ops os (list_to_set (pool_h sp')).
Proof.
  intros Hd. destruct (NewSnowflakePool_ok σ) as (sp & Hn & Hok & E).
  destruct (pool_run_refines ops σ ∅ sp) as (os & σ' & sp' & Hr & Hok' & Hpq); [|done|].
  - split_and!; [done|..]; intros p; [rewrite E; inversion 1|set_solver].
  - exists sp, os, σ', sp'. rewrite E in Hpq. by split_and!.
Qed.

Definition three_proxies : store :=
  <[0%nat := NewSnowflake (gs "a") (gs "standalone") (gs "restricted") 16]>
  (<[1%nat := NewSnowflake (gs "b") (gs "webext") (gs "unrestricted") 0]>
  (<[2%nat := NewSnowflake (gs "c") (gs "badge") (gs "unknown") 8]> ∅)).

Lemma pool_refines_priority_queue_witness :
  ∃ sp os σ' sp', NewSnowflakePool three_proxies = Ok (three_proxies, sp) ∧
    pool_run three_proxies sp [PPush 0; PPush 1; PPush 2; PPop; PRemove 1; PRemove 0; PPop; PPop]%nat
      = Ok (os, σ', sp') ∧ pool_ok σ' sp' ∧
    pq_run (clients_of three_proxies) ∅
      [PPush 0; PPush 1; PPush 2; PPop; PRemove 1; PRemove 0; PPop; PPop]%nat os
      (list_to_set (pool_h sp')).
Proof.
  apply pool_refines_priority_queue. cbn.
  split_and!; try (by eexists); try done; apply (bool_decide_unpack _); vm_compute; done.
Defined.

End SnowflakeHeap.
