(* ===== verification/Broker.v ===== *)
(** * Matching of clients and proxies (src/broker/broker.go, src/broker/ipc.go)

    The broker runs one goroutine for [Broker], one for every proxy poll
    ([RequestOffer], called by [ProxyPolls]), one for every snowflake that
    waits for an offer (the function literal of [Broker]), and one for every
    request of a client ([ClientOffers]) and every answer of a proxy
    ([ProxyAnswers]).  A [world] holds the shared [BrokerContext] and the
    program counters and local variables of all goroutines; [exec] runs one
    event, which is a critical section, a rendezvous on an unbuffered channel,
    a timeout, or the arrival of a request.  [Err Disabled] means that the
    goroutine cannot take the step now, [Panic] that the program crashes. *)
From stdpp Require Import base tactics numbers list strings gmap.
From Stdlib Require Import ZArith Lia.
From S2P Require Import Prelude GoHeap SnowflakeHeap.
Import SnowflakeHeap.
Open Scope Z_scope.

Module Broker.

Definition NATUnknown : gostring := gs "unknown".
Definition NATRestricted : gostring := gs "restricted".
Definition NATUnrestricted : gostring := gs "unrestricted".

Record ProxyPoll := MkProxyPoll {
  pp_id : gostring;
  pp_proxyType : gostring;
  pp_natType : gostring;
  pp_clients : Z
}.

Record ClientOffer := MkClientOffer {
  co_natType : gostring;
  co_sdp : list Z;
  co_fingerprint : list Z
}.

(** The two pools of the context, by name. *)
Inductive pool_name := Unrestricted | Restricted.

#[export] Instance pool_name_eq_dec : EqDecision pool_name.
Proof. solve_decision. Defined.

(** BrokerContext: the pools, the map of identifiers, and the memory the
    Snowflake pointers refer to. *)
Record BrokerContext := MkContext {
  ctx_store : store;
  ctx_unrestrictedPool : SnowflakePool;
  ctx_restrictedPool : SnowflakePool;
  ctx_idToSnowflake : gmap gostring loc
}.

Definition NewBrokerContext : go BrokerContext :=
  '(σ, u) ← NewSnowflakePool ∅;
  '(σ, r) ← NewSnowflakePool σ;
  Ok (MkContext σ u r ∅).

Definition GetPool (poll : ProxyPoll) : pool_name :=
  if decide (pp_natType poll = NATUnrestricted) then Unrestricted else Restricted.

Definition the_pool (n : pool_name) (ctx : BrokerContext) : SnowflakePool :=
  match n with
  | Unrestricted => ctx_unrestrictedPool ctx
  | Restricted => ctx_restrictedPool ctx
  end.

(** The context after an operation on one of the pools. *)
Definition set_pool (n : pool_name) (σ : store) (sp : SnowflakePool)
    (ctx : BrokerContext) : BrokerContext :=
  match n with
  | Unrestricted => MkContext σ sp (ctx_restrictedPool ctx) (ctx_idToSnowflake ctx)
  | Restricted => MkContext σ (ctx_unrestrictedPool ctx) sp (ctx_idToSnowflake ctx)
  end.

Definition set_ids (m : gmap gostring loc) (ctx : BrokerContext) : BrokerContext :=
  MkContext (ctx_store ctx) (ctx_unrestrictedPool ctx) (ctx_restrictedPool ctx) m.

(** The locked updates of [idToSnowflake]. *)
Definition register (p : loc) (ctx : BrokerContext) : go BrokerContext :=
  s ← deref (ctx_store ctx) p;
  Ok (set_ids (<[sf_id s := p]> (ctx_idToSnowflake ctx)) ctx).

Definition unregister (p : loc) (ctx : BrokerContext) : go BrokerContext :=
  s ← deref (ctx_store ctx) p;
  Ok (set_ids (delete (sf_id s) (ctx_idToSnowflake ctx)) ctx).

(** The snowflake [Broker] makes for a poll. *)
Definition snowflake_of (poll : ProxyPoll) : Snowflake :=
  NewSnowflake (pp_id poll) (pp_proxyType poll) (pp_natType poll) (pp_clients poll).

(** [pool.Push(snowflake)] for the snowflake just made at [p]. *)
Definition push_snowflake (poll : ProxyPoll) (p : loc) (ctx : BrokerContext) : go BrokerContext :=
  let snowflake := snowflake_of poll in
  let pool := GetPool poll in
  '(σ, sp) ← pool_Push (<[p:=snowflake]> (ctx_store ctx)) (the_pool pool ctx) p;
  Ok (set_pool pool σ sp ctx).

Definition pop_snowflake (n : pool_name) (ctx : BrokerContext) : go (option loc * BrokerContext) :=
  '(o, σ, sp) ← pool_Pop (ctx_store ctx) (the_pool n ctx);
  Ok (o, set_pool n σ sp ctx).

Definition remove_snowflake (n : pool_name) (p : loc) (ctx : BrokerContext) : go BrokerContext :=
  '(σ, sp) ← pool_Remove (ctx_store ctx) (the_pool n ctx) p;
  Ok (set_pool n σ sp ctx).

(** [matchSnowflake], as one uninterrupted call. *)
Definition matchSnowflake (natType : gostring) (ctx : BrokerContext)
    : go (option loc * BrokerContext) :=
  if decide (natType = NATUnrestricted) then
    '(o, ctx) ← pop_snowflake Restricted ctx;
    match o with
    | Some p => Ok (Some p, ctx)
    | None => pop_snowflake Unrestricted ctx
    end
  else pop_snowflake Unrestricted ctx.

(** ** Goroutines *)

(** [RequestOffer]: sending the poll, receiving the offer, returned. *)
Inductive proxy_pc :=
  | PSending
  | PReceiving
  | PReturned (offer : option ClientOffer).

Record proxy_thread := MkProxy { pt_poll : ProxyPoll; pt_pc : proxy_pc }.

(** The loop of [Broker] for the request of a proxy goroutine. *)
Inductive broker_pc :=
  | BReceive
  | BPush (request : nat)
  | BRegister (request : nat) (snowflake : loc).

(** The function literal [Broker] starts for every snowflake. *)
Inductive waiter_pc :=
  | WSelect
  | WForward (offer : ClientOffer)
  | WRemove
  | WDelete
  | WClose
  | WDone.

Record waiter := MkWaiter { wt_request : nat; wt_pool : pool_name; wt_pc : waiter_pc }.

(** [ClientOffers], once the request has been decoded and checked. *)
Inductive client_result := Denied | Answered (answer : gostring) | TimedOut.

Inductive client_pc :=
  | CPopRestricted
  | CPopUnrestricted
  | CSend
  | CSelect
  | CDelete (r : client_result)
  | CReturned (r : client_result).

Record client_thread := MkClient {
  ct_offer : ClientOffer;
  ct_snowflake : option loc;
  ct_pc : client_pc
}.

(** [ProxyAnswers], once the request has been decoded. *)
Inductive answer_pc :=
  | ALookup
  | ASend (snowflake : loc)
  | AReturned (success : bool).

Record answer_thread := MkAnswer { at_sid : gostring; at_answer : gostring; at_pc : answer_pc }.

(** All of it; [w_closed] holds the [offerChannel]s of polls that are closed. *)
Record world := World {
  w_ctx : BrokerContext;
  w_broker : broker_pc;
  w_proxies : gmap nat proxy_thread;
  w_waiters : gmap loc waiter;
  w_clients : gmap nat client_thread;
  w_answers : gmap nat answer_thread;
  w_closed : gset nat
}.

(** Updates of one component of the world. *)
Definition upd_ctx ctx w := World ctx (w_broker w) (w_proxies w) (w_waiters w) (w_clients w) (w_answers w) (w_closed w).
Definition upd_broker b w := World (w_ctx w) b (w_proxies w) (w_waiters w) (w_clients w) (w_answers w) (w_closed w).
Definition upd_proxy k t w := World (w_ctx w) (w_broker w) (<[k:=t]> (w_proxies w)) (w_waiters w) (w_clients w) (w_answers w) (w_closed w).
Definition upd_waiter p t w := World (w_ctx w) (w_broker w) (w_proxies w) (<[p:=t]> (w_waiters w)) (w_clients w) (w_answers w) (w_closed w).
Definition upd_client c t w := World (w_ctx w) (w_broker w) (w_proxies w) (w_waiters w) (<[c:=t]> (w_clients w)) (w_answers w) (w_closed w).
Definition upd_answer a t w := World (w_ctx w) (w_broker w) (w_proxies w) (w_waiters w) (w_clients w) (<[a:=t]> (w_answers w)) (w_closed w).
Definition upd_closed k w := World (w_ctx w) (w_broker w) (w_proxies w) (w_waiters w) (w_clients w) (w_answers w) ({[k]} ∪ w_closed w).

(** ** Events *)

Inductive disabled := Disabled.

Inductive event :=
  | EPoll (k : nat) (poll : ProxyPoll)            (* a proxy polls *)
  | ETakePoll (k : nat)                           (* Broker receives the poll *)
  | EPush (p : loc)                               (* Broker pushes a new snowflake *)
  | ERegister                                     (* Broker records its id, starts the waiter *)
  | EClient (c : nat) (offer : ClientOffer)       (* a client sends an offer *)
  | EPop (c : nat)                                (* the client takes a snowflake *)
  | EOffer (c : nat)                              (* ... and hands it the offer *)
  | EForward (p : loc)                            (* the waiter passes the offer on *)
  | EProxyTimeout (p : loc)                       (* the waiter times out *)
  | ERemove (p : loc)
  | EDelete (p : loc)
  | EClose (p : loc)
  | EReceiveClosed (k : nat)                      (* the poll returns nil *)
  | EAnswer (a : nat) (sid answer : gostring)     (* a proxy sends its answer *)
  | ELookup (a : nat)
  | EDeliver (a c : nat)                          (* the client receives the answer *)
  | EClientTimeout (c : nat)
  | EClientDelete (c : nat).

Definition step_res := res disabled world.

(** Guards: a missing or busy goroutine disables the event. *)
Definition get {A} (o : option A) : res disabled A :=
  match o with
  | Some a => Ok a
  | None => Err Disabled
  end.

Definition none {A} (o : option A) : res disabled unit :=
  match o with
  | Some _ => Err Disabled
  | None => Ok tt
  end.

(** A critical section, whose code has no error to return. *)
Definition run {A} (m : go A) : res disabled A := map_err (λ _, Disabled) m.

(** *** RequestOffer and Broker *)

Definition poll_start (k : nat) (poll : ProxyPoll) (w : world) : step_res :=
  _ ← none (w_proxies w !! k);
  Ok (upd_proxy k (MkProxy poll PSending) w).

Definition broker_receive (k : nat) (w : world) : step_res :=
  t ← get (w_proxies w !! k);
  match w_broker w, pt_pc t with
  | BReceive, PSending => Ok (upd_broker (BPush k) (upd_proxy k (MkProxy (pt_poll t) PReceiving) w))
  | _, _ => Err Disabled
  end.

Definition broker_push (p : loc) (w : world) : step_res :=
  match w_broker w with
  | BPush k =>
      t ← get (w_proxies w !! k);
      _ ← none (ctx_store (w_ctx w) !! p);
      ctx ← run (push_snowflake (pt_poll t) p (w_ctx w));
      Ok (upd_broker (BRegister k p) (upd_ctx ctx w))
  | _ => Err Disabled
  end.

Definition broker_register (w : world) : step_res :=
  match w_broker w with
  | BRegister k p =>
      t ← get (w_proxies w !! k);
      ctx ← run (register p (w_ctx w));
      Ok (upd_broker BReceive
           (upd_waiter p (MkWaiter k (GetPool (pt_poll t)) WSelect) (upd_ctx ctx w)))
  | _ => Err Disabled
  end.

Definition set_wpc (t : waiter) (pc : waiter_pc) : waiter := MkWaiter (wt_request t) (wt_pool t) pc.

(** [request.offerChannel <- offer] *)
Definition waiter_forward (p : loc) (w : world) : step_res :=
  t ← get (w_waiters w !! p);
  match wt_pc t with
  | WForward offer =>
      if decide (wt_request t ∈ w_closed w) then Panic else
      q ← get (w_proxies w !! wt_request t);
      match pt_pc q with
      | PReceiving =>
          Ok (upd_waiter p (set_wpc t WDone)
               (upd_proxy (wt_request t) (MkProxy (pt_poll q) (PReturned (Some offer))) w))
      | _ => Err Disabled
      end
  | _ => Err Disabled
  end.

Definition waiter_timeout (p : loc) (w : world) : step_res :=
  t ← get (w_waiters w !! p);
  match wt_pc t with
  | WSelect => Ok (upd_waiter p (set_wpc t WRemove) w)
  | _ => Err Disabled
  end.

Definition waiter_remove (p : loc) (w : world) : step_res :=
  t ← get (w_waiters w !! p);
  match wt_pc t with
  | WRemove =>
      ctx ← run (remove_snowflake (wt_pool t) p (w_ctx w));
      Ok (upd_waiter p (set_wpc t WDelete) (upd_ctx ctx w))
  | _ => Err Disabled
  end.

Definition waiter_delete (p : loc) (w : world) : step_res :=
  t ← get (w_waiters w !! p);
  match wt_pc t with
  | WDelete =>
      ctx ← run (unregister p (w_ctx w));
      Ok (upd_waiter p (set_wpc t WClose) (upd_ctx ctx w))
  | _ => Err Disabled
  end.

(** [close(request.offerChannel)]: a panic when it is closed. *)
Definition waiter_close (p : loc) (w : world) : step_res :=
  t ← get (w_waiters w !! p);
  match wt_pc t with
  | WClose =>
      if decide (wt_request t ∈ w_closed w) then Panic else
      Ok (upd_waiter p (set_wpc t WDone) (upd_closed (wt_request t) w))
  | _ => Err Disabled
  end.

(** A receive on the closed channel gives nil. *)
Definition poll_closed (k : nat) (w : world) : step_res :=
  t ← get (w_proxies w !! k);
  match pt_pc t with
  | PReceiving =>
      if decide (k ∈ w_closed w)
      then Ok (upd_proxy k (MkProxy (pt_poll t) (PReturned None)) w)
      else Err Disabled
  | _ => Err Disabled
  end.

(** *** ClientOffers *)

Definition client_start (c : nat) (offer : ClientOffer) (w : world) : step_res :=
  _ ← none (w_clients w !! c);
  let pc := if decide (co_natType offer = NATUnrestricted)
            then CPopRestricted else CPopUnrestricted in
  Ok (upd_client c (MkClient offer None pc) w).

(** The two critical sections of [matchSnowflake], and the test for nil. *)
Definition client_pop (c : nat) (w : world) : step_res :=
  t ← get (w_clients w !! c);
  match ct_pc t with
  | CPopRestricted =>
      '(o, ctx) ← run (pop_snowflake Restricted (w_ctx w));
      let pc := match o with Some _ => CSend | None => CPopUnrestricted end in
      Ok (upd_client c (MkClient (ct_offer t) o pc) (upd_ctx ctx w))
  | CPopUnrestricted =>
      '(o, ctx) ← run (pop_snowflake Unrestricted (w_ctx w));
      let pc := match o with Some _ => CSend | None => CReturned Denied end in
      Ok (upd_client c (MkClient (ct_offer t) o pc) (upd_ctx ctx w))
  | _ => Err Disabled
  end.

(** [snowflake.offerChannel <- offer], received by the waiter's select. *)
Definition client_offer (c : nat) (w : world) : step_res :=
  t ← get (w_clients w !! c);
  match ct_pc t, ct_snowflake t with
  | CSend, Some p =>
      u ← get (w_waiters w !! p);
      match wt_pc u with
      | WSelect =>
          Ok (upd_client c (MkClient (ct_offer t) (ct_snowflake t) CSelect)
               (upd_waiter p (set_wpc u (WForward (ct_offer t))) w))
      | _ => Err Disabled
      end
  | _, _ => Err Disabled
  end.

Definition client_timeout (c : nat) (w : world) : step_res :=
  t ← get (w_clients w !! c);
  match ct_pc t with
  | CSelect => Ok (upd_client c (MkClient (ct_offer t) (ct_snowflake t) (CDelete TimedOut)) w)
  | _ => Err Disabled
  end.

Definition client_delete (c : nat) (w : world) : step_res :=
  t ← get (w_clients w !! c);
  match ct_pc t, ct_snowflake t with
  | CDelete r, Some p =>
      ctx ← run (unregister p (w_ctx w));
      Ok (upd_client c (MkClient (ct_offer t) (ct_snowflake t) (CReturned r)) (upd_ctx ctx w))
  | _, _ => Err Disabled
  end.

(** *** ProxyAnswers *)

Definition answer_start (a : nat) (sid answer : gostring) (w : world) : step_res :=
  _ ← none (w_answers w !! a);
  Ok (upd_answer a (MkAnswer sid answer ALookup) w).

Definition answer_lookup (a : nat) (w : world) : step_res :=
  t ← get (w_answers w !! a);
  match at_pc t with
  | ALookup =>
      let pc := match ctx_idToSnowflake (w_ctx w) !! at_sid t with
                | Some p => ASend p
                | None => AReturned false
                end in
      Ok (upd_answer a (MkAnswer (at_sid t) (at_answer t) pc) w)
  | _ => Err Disabled
  end.

(** [snowflake.answerChannel <- req.Answer], received by the client's select. *)
Definition answer_deliver (a c : nat) (w : world) : step_res :=
  t ← get (w_answers w !! a);
  u ← get (w_clients w !! c);
  match at_pc t, ct_pc u with
  | ASend p, CSelect =>
      if decide (ct_snowflake u = Some p) then
        Ok (upd_answer a (MkAnswer (at_sid t) (at_answer t) (AReturned true))
             (upd_client c (MkClient (ct_offer u) (ct_snowflake u) (CDelete (Answered (at_answer t)))) w))
      else Err Disabled
  | _, _ => Err Disabled
  end.

Definition exec (e : event) (w : world) : step_res :=
  match e with
  | EPoll k poll => poll_start k poll w
  | ETakePoll k => broker_receive k w
  | EPush p => broker_push p w
  | ERegister => broker_register w
  | EClient c offer => client_start c offer w
  | EPop c => client_pop c w
  | EOffer c => client_offer c w
  | EForward p => waiter_forward p w
  | EProxyTimeout p => waiter_timeout p w
  | ERemove p => waiter_remove p w
  | EDelete p => waiter_delete p w
  | EClose p => waiter_close p w
  | EReceiveClosed k => poll_closed k w
  | EAnswer a sid answer => answer_start a sid answer w
  | ELookup a => answer_lookup a w
  | EDeliver a c => answer_deliver a c w
  | EClientTimeout c => client_timeout c w
  | EClientDelete c => client_delete c w
  end.

Fixpoint execs (es : list event) (w : world) : step_res :=
  match es with
  | [] => Ok w
  | e :: es => w' ← exec e w; execs es w'
  end.

(** The broker after start-up: [go ctx.Broker()] and no request. *)
Definition initial (ctx : BrokerContext) : world :=
  World ctx BReceive ∅ ∅ ∅ ∅ ∅.

Inductive reachable : world → Prop :=
  | reachable_init ctx : NewBrokerContext = Ok ctx → reachable (initial ctx)
  | reachable_step w e w' : reachable w → exec e w = Ok w' → reachable w'.

(** ** The context: invariant and effect of its operations *)

(** The fields of a snowflake that never change. *)
Definition static (ctx : BrokerContext) (p : loc) : option Snowflake :=
  set_index 0 <$> ctx_store ctx !! p.

Definition class (s : Snowflake) : pool_name :=
  if decide (sf_natType s = NATUnrestricted) then Unrestricted else Restricted.

(** [p] waits in one of the pools. *)
Definition waiting (ctx : BrokerContext) (p : loc) : Prop :=
  ∃ n, p ∈ pool_h (the_pool n ctx).

(** Both heaps are in order, a snowflake is in the pool of its NAT type or
    marked as taken, and the map of identifiers is right. *)
Record ctx_ok (ctx : BrokerContext) : Prop := {
  co_pools : ∀ n, pool_ok (ctx_store ctx) (the_pool n ctx);
  co_class : ∀ n p, p ∈ pool_h (the_pool n ctx) → class <$> static ctx p = Some n;
  co_taken : ∀ p, is_Some (static ctx p) → ¬ waiting ctx p →
    sf_index <$> ctx_store ctx !! p = Some (-1);
  co_ids : ∀ sid p, ctx_idToSnowflake ctx !! sid = Some p → sf_id <$> static ctx p = Some sid
}.

(** ** Lemmas on the context *)

Lemma static_same l ctx σ n sp p : same_but_index l (ctx_store ctx) σ →
  static (set_pool n σ sp ctx) p = static ctx p.
Proof.
  intros Hs. unfold static. replace (ctx_store (set_pool n σ sp ctx)) with σ by (by destruct n).
  specialize (Hs p). destruct (ctx_store ctx !! p); [|by rewrite Hs].
  destruct Hs as (i & -> & _). done.
Qed.

Lemma static_Some ctx p s : ctx_store ctx !! p = Some s → static ctx p = Some (set_index 0 s).
Proof. unfold static. by intros ->. Qed.

Lemma static_is_Some ctx p : is_Some (static ctx p) → ∃ s, ctx_store ctx !! p = Some s.
Proof. unfold static. rewrite fmap_is_Some. by intros [s ?]; exists s. Qed.

Lemma the_pool_set n m σ sp ctx :
  the_pool m (set_pool n σ sp ctx) = if decide (m = n) then sp else the_pool m ctx.
Proof. by destruct n, m. Qed.

Lemma waiting_set n σ sp ctx q : waiting (set_pool n σ sp ctx) q ↔
  q ∈ pool_h sp ∨ ∃ m, m ≠ n ∧ q ∈ pool_h (the_pool m ctx).
Proof.
  unfold waiting. split.
  - intros [m Hm]. rewrite the_pool_set in Hm. case_decide; [by left|]. right. eauto.
  - intros [Hq|(m & Hne & Hq)].
    + exists n. by rewrite the_pool_set, decide_True.
    + exists m. by rewrite the_pool_set, decide_False.
Qed.

(** A pool changed, the records of the other pools did not. *)
Lemma ctx_ok_set ctx n σ sp l :
  (∀ m, pool_ok (ctx_store ctx) (the_pool m ctx)) →
  (∀ m p, p ∈ pool_h (the_pool m ctx) → class <$> static ctx p = Some m) →
  (∀ sid p, ctx_idToSnowflake ctx !! sid = Some p → sf_id <$> static ctx p = Some sid) →
  pool_ok σ sp →
  same_but_index l (ctx_store ctx) σ →
  (∀ m p, m ≠ n → p ∈ pool_h (the_pool m ctx) → p ∉ l) →
  (∀ p, p ∈ pool_h sp → class <$> static ctx p = Some n) →
  (∀ p, is_Some (static ctx p) → ¬ waiting (set_pool n σ sp ctx) p →
    sf_index <$> σ !! p = Some (-1)) →
  ctx_ok (set_pool n σ sp ctx).
Proof.
  intros Hp Hc Hi Hok Hs Hd Hcl Htk.
  assert (ctx_store (set_pool n σ sp ctx) = σ) as Eσ by (by destruct n).
  assert (ctx_idToSnowflake (set_pool n σ sp ctx) = ctx_idToSnowflake ctx) as Ei by (by destruct n).
  split.
  - intros m. rewrite Eσ, the_pool_set. case_decide; [done|].
    eapply pool_ok_frame; [apply Hp|done|]. eauto.
  - intros m p. rewrite the_pool_set, (static_same l) by done. case_decide; subst; auto.
  - intros p. rewrite Eσ, (static_same l) by done. auto.
  - intros sid p. rewrite Ei, (static_same l) by done. auto.
Qed.

(** Two pools have no element in common. *)
Lemma pools_disjoint ctx n m p : ctx_ok ctx → n ≠ m →
  p ∈ pool_h (the_pool n ctx) → p ∉ pool_h (the_pool m ctx).
Proof. intros Hok Hne Hn%(co_class _ Hok) Hm%(co_class _ Hok). congruence. Qed.

(** An element leaves a pool. *)
Lemma ctx_ok_extract ctx n σ sp p : ctx_ok ctx → pool_ok σ sp →
  pool_h (the_pool n ctx) ≡ₚ p :: pool_h sp →
  same_but_index (pool_h (the_pool n ctx)) (ctx_store ctx) σ →
  sf_index <$> σ !! p = Some (-1) →
  ctx_ok (set_pool n σ sp ctx) ∧ (∀ q, static (set_pool n σ sp ctx) q = static ctx q) ∧
  (∀ q, waiting (set_pool n σ sp ctx) q ↔ waiting ctx q ∧ q ≠ p).
Proof.
  intros Hctx Hok Hperm Hs Hi.
  assert (p ∈ pool_h (the_pool n ctx)) as Hp by (rewrite Hperm; by left).
  assert (NoDup (p :: pool_h sp)) as [Hnp _]%NoDup_cons
    by (rewrite <- Hperm; apply (heap_wf_NoDup _ (proj1 (co_pools _ Hctx n)))).
  assert (∀ q, waiting (set_pool n σ sp ctx) q ↔ waiting ctx q ∧ q ≠ p) as Hw.
  { intros q. rewrite waiting_set. split.
    - intros [Hq|(m & Hne & Hq)].
      + split; [exists n; rewrite Hperm; by right|]. by intros ->.
      + split; [by exists m|]. intros ->. by apply (pools_disjoint ctx m n p) in Hq.
    - intros [[m Hm] Hne]. destruct (decide (m = n)) as [->|]; [|by right; eauto].
      left. rewrite Hperm, elem_of_cons in Hm. tauto. }
  split_and!; [|intros q; by eapply static_same|done].
  eapply ctx_ok_set; [apply Hctx|apply Hctx|apply Hctx|done|done|..].
  - intros m q Hne Hq. by apply (pools_disjoint ctx m n).
  - intros q Hq. apply (co_class _ Hctx). rewrite Hperm. by right.
  - intros q Hst Hq. rewrite Hw in Hq. destruct (decide (q = p)) as [->|Hne]; [done|].
    assert (¬ waiting ctx q) as Hq' by tauto.
    rewrite (same_but_index_index _ _ _ q Hs); [by apply (co_taken _ Hctx)|].
    intros Hin. apply Hq'. by exists n.
Qed.

Lemma pop_snowflake_ok ctx n : ctx_ok ctx →
  ∃ o ctx', pop_snowflake n ctx = Ok (o, ctx') ∧ ctx_ok ctx' ∧
    (∀ q, static ctx' q = static ctx q) ∧
    (∀ q, waiting ctx' q ↔ waiting ctx q ∧ o ≠ Some q) ∧
    match o with
    | Some p => p ∈ pool_h (the_pool n ctx) ∧
        ∀ q, q ∈ pool_h (the_pool n ctx) →
          clients_of (ctx_store ctx) p ≤ clients_of (ctx_store ctx) q
    | None => pool_h (the_pool n ctx) = [] ∧ ctx' = ctx
    end.
Proof.
  intros Hctx. unfold pop_snowflake. pose proof (co_pools _ Hctx n) as Hok.
  destruct (decide (pool_h (the_pool n ctx) = [])) as [E|Hne].
  - rewrite pool_Pop_empty by done. cbn [mbind res_bind]. eexists None, _; split; [done|].
    replace (set_pool n _ _ ctx) with ctx by (by destruct n, ctx).
    split_and!; [done|done| |done|done]. intros q. split; [done|tauto].
  - destruct (pool_Pop_ok _ _ Hok Hne)
      as (p & σ & sp & -> & Hok' & Hperm & Hs & Hi & Hmin & _). cbn [mbind res_bind].
    destruct (ctx_ok_extract ctx n σ sp p) as (Hctx' & Hst & Hw); [done..|].
    eexists (Some p), _; split; [done|]. split_and!; [done|done| |..].
    + intros q. rewrite Hw. split; intros [? ?]; split; [done|congruence|done|congruence].
    + rewrite Hperm. by left.
    + done.
Qed.

Lemma remove_snowflake_ok ctx n p : ctx_ok ctx → class <$> static ctx p = Some n →
  ∃ ctx', remove_snowflake n p ctx = Ok ctx' ∧ ctx_ok ctx' ∧
    (∀ q, static ctx' q = static ctx q) ∧
    (∀ q, waiting ctx' q ↔ waiting ctx q ∧ q ≠ p).
Proof.
  intros Hctx Hcl. unfold remove_snowflake.
  destruct (decide (p ∈ pool_h (the_pool n ctx))) as [Hin|Hout].
  - destruct (pool_Remove_in _ _ p (co_pools _ Hctx n) Hin)
      as (σ & sp & -> & Hok' & Hperm & Hs & Hi & _). cbn [mbind res_bind].
    destruct (ctx_ok_extract ctx n σ sp p) as (Hctx' & Hst & Hw); [done..|]. eauto.
  - assert (¬ waiting ctx p) as Hw.
    { intros [m Hm]. pose proof (co_class _ Hctx m p Hm). assert (m = n) as -> by congruence. done. }
    rewrite pool_Remove_out.
    + eexists; split; [done|]. replace (set_pool n _ _ ctx) with ctx by (by destruct n, ctx).
      split_and!; [done..|]. intros q. split; [|tauto]. intros Hq. split; [done|]. by intros ->.
    + apply (co_taken _ Hctx); [|done]. destruct (static ctx p); [done|discriminate].
Qed.

(** A new record is at first in no pool. *)
Lemma pool_ok_insert σ sp p s : pool_ok σ sp → σ !! p = None → pool_ok (<[p:=s]> σ) sp.
Proof.
  intros [Hwf Hord] Hp.
  assert (∀ q, q ∈ pool_h sp → q ≠ p) as Hne.
  { intros q [i Hi]%list_elem_of_lookup_1 ->. destruct (Hwf i p Hi) as (t & Ht & _).
    cbn in Ht. congruence. }
  split.
  - intros i q Hi. cbn in *. rewrite lookup_insert_ne; [by apply Hwf|].
    intros ->. by apply (Hne q); [eapply list_elem_of_lookup_2|].
  - replace (heap_elems (HeapState (<[p:=s]> σ) (pool_h sp)))
      with (heap_elems (HeapState σ (pool_h sp))); [done|].
    unfold heap_elems. cbn. apply map_ext_in. intros q Hq%list_elem_of_In. f_equal.
    unfold clients_of, lookup_total, map_lookup_total. rewrite lookup_insert_ne; [done|].
    intros ->. by apply (Hne q).
Qed.

Lemma push_snowflake_ok ctx poll p : ctx_ok ctx → ctx_store ctx !! p = None →
  ∃ ctx', push_snowflake poll p ctx = Ok ctx' ∧ ctx_ok ctx' ∧
    (∀ q, static ctx' q = if decide (q = p) then Some (snowflake_of poll) else static ctx q) ∧
    (∀ q, waiting ctx' q ↔ waiting ctx q ∨ q = p).
Proof.
  intros Hctx Hp. unfold push_snowflake. set (s := snowflake_of poll).
  set (n := GetPool poll). set (ctx0 := set_pool n (<[p:=s]> (ctx_store ctx)) (the_pool n ctx) ctx).
  assert (ctx_store ctx0 = <[p:=s]> (ctx_store ctx)) as E0 by (unfold ctx0; by destruct n).
  assert (∀ m, the_pool m ctx0 = the_pool m ctx) as E1 by (unfold ctx0; by destruct n; intros []).
  assert (∀ m q, q ∈ pool_h (the_pool m ctx) → q ≠ p) as Hne.
  { intros m q Hq ->. apply (co_class _ Hctx) in Hq. unfold static in Hq. by rewrite Hp in Hq. }
  destruct (pool_Push_ok (<[p:=s]> (ctx_store ctx)) (the_pool n ctx) p s)
    as (σ & sp & -> & Hok & Hperm & Hs & _); [by apply pool_ok_insert, Hp; apply co_pools
      |by rewrite lookup_insert_eq|by intros ?%Hne|].
  cbn [mbind res_bind]. rewrite <- E0 in Hs.
  replace (set_pool n σ sp ctx) with (set_pool n σ sp ctx0) by (unfold ctx0; by destruct n).
  assert (∀ q, static ctx0 q = if decide (q = p) then Some s else static ctx q) as Hst.
  { intros q. unfold static. rewrite E0. case_decide; subst;
      [by rewrite lookup_insert_eq|by rewrite lookup_insert_ne]. }
  assert (∀ q, waiting (set_pool n σ sp ctx0) q ↔ waiting ctx q ∨ q = p) as Hw.
  { intros q. rewrite waiting_set, Hperm, elem_of_cons. setoid_rewrite E1. unfold waiting.
    split; [intros [[->|Hq]|(m & _ & Hm)]; eauto|]. intros [[m Hm]|]; [|auto].
    destruct (decide (m = n)) as [->|]; eauto. }
  eexists; split; [done|]. split_and!; [|intros q; by rewrite (static_same (p :: pool_h (the_pool n ctx)))|done].
  eapply ctx_ok_set; [..|done|done| | |].
  - intros m. rewrite E0, E1. by apply pool_ok_insert; [apply co_pools|].
  - intros m q. rewrite E1, Hst. intros Hq. rewrite decide_False by eauto. by apply co_class.
  - intros sid q Hq. rewrite Hst. replace (ctx_idToSnowflake ctx0) with (ctx_idToSnowflake ctx) in Hq
      by (unfold ctx0; by destruct n).
    apply (co_ids _ Hctx) in Hq. rewrite decide_False; [done|]. intros ->.
    unfold static in Hq. by rewrite Hp in Hq.
  - intros m q Hm. rewrite E1, not_elem_of_cons. intros Hq.
    split; [eauto|by apply (pools_disjoint ctx m n)].
  - intros q. rewrite Hperm, elem_of_cons, Hst. intros [->|Hq].
    + by rewrite decide_True.
    + rewrite decide_False by eauto. by apply co_class.
  - intros q. rewrite Hst, Hw. intros Hq Hnw. rewrite decide_False in Hq by tauto.
    rewrite (same_but_index_index _ _ _ q Hs), E0, lookup_insert_ne; [apply co_taken; tauto|intros ->; tauto|].
    rewrite not_elem_of_cons. split; [tauto|]. intros Hq'. apply Hnw. left. by exists n.
Qed.

Lemma register_ok ctx p s : ctx_ok ctx → static ctx p = Some s →
  ∃ ctx', register p ctx = Ok ctx' ∧ ctx_ok ctx' ∧
    (∀ q, static ctx' q = static ctx q) ∧ (∀ q, waiting ctx' q ↔ waiting ctx q).
Proof.
  intros [Hp Hc Ht Hi] Hs. destruct (static_is_Some ctx p) as [t Ht']; [by rewrite Hs|].
  unfold register, deref. rewrite Ht'. eexists; split; [done|].
  split; [|done]. split; [done..|].
  intros sid q. cbn. rewrite lookup_insert_Some. intros [[<- <-]|[_ Hq]]; [|by apply Hi].
  change (sf_id <$> static ctx p = Some (sf_id t)). by rewrite (static_Some _ _ _ Ht').
Qed.

Lemma unregister_ok ctx p : ctx_ok ctx → is_Some (static ctx p) →
  ∃ ctx', unregister p ctx = Ok ctx' ∧ ctx_ok ctx' ∧
    (∀ q, static ctx' q = static ctx q) ∧ (∀ q, waiting ctx' q ↔ waiting ctx q).
Proof.
  intros [Hp Hc Ht Hi] Hs. destruct (static_is_Some ctx p Hs) as [t Ht'].
  unfold unregister, deref. rewrite Ht'. eexists; split; [done|].
  split; [|done]. split; [done..|].
  intros sid q. cbn. rewrite lookup_delete_Some. intros [_ Hq]. by apply Hi.
Qed.

Lemma NewBrokerContext_ok : ∃ ctx, NewBrokerContext = Ok ctx ∧ ctx_ok ctx ∧
  (∀ q, static ctx q = None) ∧ (∀ q, ¬ waiting ctx q).
Proof.
  unfold NewBrokerContext. destruct (NewSnowflakePool_ok ∅) as (sp & -> & Hok & E).
  cbn [mbind res_bind]. destruct (NewSnowflakePool_ok ∅) as (sp' & -> & Hok' & E').
  cbn [mbind res_bind]. eexists; split; [done|].
  assert (∀ q, ¬ waiting (MkContext ∅ sp sp' ∅) q) as Hw
    by (intros q [[] Hq]; cbn in Hq; rewrite ?E, ?E' in Hq; inversion Hq).
  split_and!; [|done|done]. split.
  - by intros [].
  - intros n p Hp. destruct (Hw p). by exists n.
  - intros p [? ?]. done.
  - intros sid p. cbn. by rewrite lookup_empty.
Qed.

(** ** Invariant of the matching *)

(** What a client holds: the snowflake it popped, out of both pools and fit
    for its NAT type. *)
Definition client_ok (ctx : BrokerContext) (t : client_thread) : Prop :=
  match ct_snowflake t with
  | None => ct_pc t = CPopRestricted ∧ co_natType (ct_offer t) = NATUnrestricted ∨
            ct_pc t = CPopUnrestricted ∨ ct_pc t = CReturned Denied
  | Some p =>
      match ct_pc t with
      | CSend | CSelect => True
      | CDelete r | CReturned r => r ≠ Denied
      | _ => False
      end ∧ ¬ waiting ctx p ∧
      ∃ s, static ctx p = Some s ∧
        (co_natType (ct_offer t) ≠ NATUnrestricted → class s = Unrestricted)
  end.

(** The offer [o] comes from the client that holds snowflake [p]. *)
Definition offered (w : world) (p : loc) (o : ClientOffer) : Prop :=
  ∃ c t, w_clients w !! c = Some t ∧ ct_snowflake t = Some p ∧ ct_offer t = o.

(** Snowflake [p] was made for the poll of goroutine [k]. *)
Definition made_for (w : world) (k : nat) (p : loc) : Prop :=
  ∃ t, w_proxies w !! k = Some t ∧ static (w_ctx w) p = Some (snowflake_of (pt_poll t)).

Record match_inv (w : world) : Prop := {
  mi_ctx : ctx_ok (w_ctx w);
  mi_broker : ∀ k p, w_broker w = BRegister k p → w_waiters w !! p = None ∧ made_for w k p;
  mi_waiter : ∀ p t, w_waiters w !! p = Some t →
    made_for w (wt_request t) p ∧ class <$> static (w_ctx w) p = Some (wt_pool t) ∧
    match wt_pc t with
    | WSelect | WRemove => True
    | WForward o => offered w p o
    | _ => ¬ waiting (w_ctx w) p
    end;
  mi_client : ∀ c t, w_clients w !! c = Some t → client_ok (w_ctx w) t;
  mi_exclusive : ∀ c c' t t' p, w_clients w !! c = Some t → w_clients w !! c' = Some t' →
    ct_snowflake t = Some p → ct_snowflake t' = Some p → c = c';
  mi_proxy : ∀ k t o, w_proxies w !! k = Some t → pt_pc t = PReturned (Some o) →
    ∃ p u, w_waiters w !! p = Some u ∧ wt_request u = k ∧ offered w p o;
  mi_answer : ∀ a t p, w_answers w !! a = Some t → at_pc t = ASend p →
    sf_id <$> static (w_ctx w) p = Some (at_sid t)
}.

(** The context evolves: records keep their fields, none returns to a pool. *)
Definition ctx_le (ctx ctx' : BrokerContext) : Prop :=
  ∀ q s, static ctx q = Some s → static ctx' q = Some s ∧ (waiting ctx' q → waiting ctx q).

Lemma client_ok_le ctx ctx' t : ctx_le ctx ctx' → client_ok ctx t → client_ok ctx' t.
Proof.
  intros Hle. unfold client_ok. destruct (ct_snowflake t) as [p|]; [|done].
  intros (Hpc & Hw & s & Hs & Hn). destruct (Hle p s Hs) as [Hs' Hw'].
  split_and!; [done|tauto|eauto].
Qed.

Lemma match_inv_ctx w ctx' : match_inv w → ctx_ok ctx' → ctx_le (w_ctx w) ctx' →
  match_inv (upd_ctx ctx' w).
Proof.
  intros [Hc Hb Hwt Hcl Hex Hpx Han] Hctx' Hle. split; cbn; [done|..|done|done|].
  - intros k p Hk. destruct (Hb k p Hk) as (Hn & t & Ht & Hs).
    split; [done|]. exists t. split; [done|]. by apply (Hle p _ Hs).
  - intros p t Ht. destruct (Hwt p t Ht) as ((q & Hq & Es) & Hs & Hpc). rewrite Es in Hs.
    destruct (Hle p _ Es) as [Es' Hw]. split; [by exists q|]. rewrite Es'. split; [done|].
    destruct (wt_pc t); auto.
  - eauto using client_ok_le.
  - intros a t p Ha Hp. specialize (Han a t p Ha Hp).
    destruct (static (w_ctx w) p) as [s|] eqn:Es; [|done]. by destruct (Hle p s Es) as [-> _].
Qed.

Lemma match_inv_broker w b : match_inv w →
  (∀ k p, b = BRegister k p → w_waiters w !! p = None ∧ made_for w k p) →
  match_inv (upd_broker b w).
Proof. intros [Hc Hb Hwt Hcl Hex Hpx Han] Hb'. by split. Qed.

Lemma match_inv_proxy w k t : match_inv w →
  (∀ t0, w_proxies w !! k = Some t0 → pt_poll t = pt_poll t0) →
  (∀ o, pt_pc t = PReturned (Some o) →
    ∃ p u, w_waiters w !! p = Some u ∧ wt_request u = k ∧ offered w p o) →
  match_inv (upd_proxy k t w).
Proof.
  intros [Hc Hb Hwt Hcl Hex Hpx Han] Hpoll Hret.
  assert (∀ k' p, made_for w k' p → made_for (upd_proxy k t w) k' p) as Hmade.
  { intros k' p (t' & Ht & Hs). destruct (decide (k = k')) as [<-|Hne].
    - exists t. cbn. rewrite lookup_insert_eq, (Hpoll t') by done. done.
    - exists t'. cbn. by rewrite lookup_insert_ne. }
  split; cbn; [done|..|done|done| |done].
  - intros k' p Hk. destruct (Hb k' p Hk). auto.
  - intros p u Hu. destruct (Hwt p u Hu) as (Hm & Hs & Hpc). auto.
  - intros k' t' o. rewrite lookup_insert_Some. intros [[<- <-]|[_ Ht']] Ho; eauto.
Qed.

Lemma match_inv_waiter w p t : match_inv w →
  (∀ k, w_broker w ≠ BRegister k p) →
  (∀ u, w_waiters w !! p = Some u → wt_request u = wt_request t) →
  made_for w (wt_request t) p → class <$> static (w_ctx w) p = Some (wt_pool t) →
  match wt_pc t with
  | WSelect | WRemove => True
  | WForward o => offered w p o
  | _ => ¬ waiting (w_ctx w) p
  end →
  match_inv (upd_waiter p t w).
Proof.
  intros [Hc Hb Hwt Hcl Hex Hpx Han] Hnb Hreq Hm Hs Hpc. split; cbn; [done|..|done|done| |done].
  - intros k q Hk. destruct (Hb k q Hk) as [Hn Ht]. split; [|done].
    rewrite lookup_insert_ne; [done|]. intros ->. by apply (Hnb k).
  - intros q u. rewrite lookup_insert_Some. intros [[<- <-]|[_ Hu]]; [done|by apply Hwt].
  - intros k u o Hu Ho. destruct (Hpx k u o Hu Ho) as (q & v & Hv & Hk & Hoff).
    destruct (decide (p = q)) as [<-|Hne].
    + exists p, t. rewrite lookup_insert_eq, <- (Hreq v) by done. done.
    + exists q, v. by rewrite lookup_insert_ne.
Qed.

(** A client moves on; it keeps its offer, and the snowflake once it has one. *)
Lemma offered_client w c t p o : offered w p o →
  (∀ t0, w_clients w !! c = Some t0 → ct_offer t = ct_offer t0 ∧
    (is_Some (ct_snowflake t0) → ct_snowflake t = ct_snowflake t0)) →
  offered (upd_client c t w) p o.
Proof.
  intros (c' & t' & Ht' & Hp & Ho) Hc. destruct (decide (c = c')) as [<-|Hne].
  - destruct (Hc t' Ht') as [Eo Es]. exists c, t. cbn. rewrite lookup_insert_eq, Eo, Es by (by rewrite Hp).
    done.
  - exists c', t'. cbn. by rewrite lookup_insert_ne.
Qed.

Lemma match_inv_client w c t : match_inv w →
  (∀ t0, w_clients w !! c = Some t0 → ct_offer t = ct_offer t0 ∧
    (is_Some (ct_snowflake t0) → ct_snowflake t = ct_snowflake t0)) →
  client_ok (w_ctx w) t →
  (∀ c' t' p, ct_snowflake t = Some p → w_clients w !! c' = Some t' →
    ct_snowflake t' = Some p → c = c') →
  match_inv (upd_client c t w).
Proof.
  intros [Hc Hb Hwt Hcl Hex Hpx Han] Hkeep Hok Hex'. split; cbn; [done|done|..|done].
  - intros p u Hu. destruct (Hwt p u Hu) as (Hm & Hs & Hpc). split_and!; [done..|].
    destruct (wt_pc u); auto using offered_client.
  - intros c' t'. rewrite lookup_insert_Some. intros [[<- <-]|[_ Ht']]; eauto.
  - intros c1 c2 t1 t2 p. rewrite !lookup_insert_Some.
    intros [[<- <-]|[Hn1 H1]] [[<- <-]|[Hn2 H2]] Hp1 Hp2; eauto. symmetry. eauto.
  - intros k u o Hu Ho. destruct (Hpx k u o Hu Ho) as (q & v & Hv & Hk & Hoff).
    exists q, v. split_and!; [done..|]. by apply offered_client.
Qed.

Lemma match_inv_answer w a t : match_inv w →
  (∀ p, at_pc t = ASend p → sf_id <$> static (w_ctx w) p = Some (at_sid t)) →
  match_inv (upd_answer a t w).
Proof.
  intros [Hc Hb Hwt Hcl Hex Hpx Han] Ha. split; cbn; [done..|].
  intros a' t' p. rewrite lookup_insert_Some. intros [[<- <-]|[_ Ht']]; eauto.
Qed.

Lemma match_inv_closed w k : match_inv w → match_inv (upd_closed k w).
Proof. intros [Hc Hb Hwt Hcl Hex Hpx Han]. by split. Qed.

(** ** Every event preserves it *)

(** The guards of an event that was taken. *)
Ltac step_inv H :=
  repeat match type of H with
  | mbind _ (get ?o) = Ok _ =>
      let E := fresh "E" in destruct o eqn:E; cbn [get mbind res_bind] in H; [|discriminate H]
  | mbind _ (none ?o) = Ok _ =>
      let E := fresh "E" in destruct o eqn:E; cbn [none mbind res_bind] in H; [discriminate H|]
  | match ?x with _ => _ end = Ok _ =>
      let E := fresh "E" in destruct x eqn:E; try discriminate H
  end.

Lemma broker_not_waiter w p t k : match_inv w → w_waiters w !! p = Some t →
  w_broker w ≠ BRegister k p.
Proof. intros Hi Ht Hb. destruct (mi_broker _ Hi _ _ Hb). congruence. Qed.

(** A waiter moves on. *)
Lemma match_inv_wpc w p t pc : match_inv w → w_waiters w !! p = Some t →
  match pc with
  | WSelect | WRemove => True
  | WForward o => offered w p o
  | _ => ¬ waiting (w_ctx w) p
  end → match_inv (upd_waiter p (set_wpc t pc) w).
Proof.
  intros Hi Ht Hpc. apply match_inv_waiter; [done|..|done].
  - intros k. by eapply broker_not_waiter.
  - intros u Hu. by simplify_eq.
  - apply (mi_waiter _ Hi p t Ht).
  - apply (mi_waiter _ Hi p t Ht).
Qed.

(** A client that holds a snowflake moves on. *)
Lemma match_inv_cpc w c t p pc : match_inv w → w_clients w !! c = Some t →
  ct_snowflake t = Some p →
  match pc with CSend | CSelect => True | CDelete r | CReturned r => r ≠ Denied | _ => False end →
  match_inv (upd_client c (MkClient (ct_offer t) (ct_snowflake t) pc) w).
Proof.
  intros Hi Ht Hp Hpc. apply match_inv_client; [done|..].
  - intros t0 Ht0. by simplify_eq.
  - pose proof (mi_client _ Hi c t Ht) as Hok. unfold client_ok in *. cbn. rewrite Hp in *. tauto.
  - intros c' t' q Hq Ht' Hq'. by eapply (mi_exclusive _ Hi).
Qed.

Lemma ctx_le_pop ctx ctx' o : (∀ q, static ctx' q = static ctx q) →
  (∀ q, waiting ctx' q ↔ waiting ctx q ∧ o ≠ Some q) → ctx_le ctx ctx'.
Proof. intros Hs Hw q s Hq. rewrite Hs, Hw. tauto. Qed.

Lemma ctx_le_same ctx ctx' : (∀ q, static ctx' q = static ctx q) →
  (∀ q, waiting ctx' q ↔ waiting ctx q) → ctx_le ctx ctx'.
Proof. intros Hs Hw q s Hq. rewrite Hs, Hw. tauto. Qed.

Lemma broker_push_match p w w' : match_inv w → broker_push p w = Ok w' → match_inv w'.
Proof.
  intros Hi H. unfold broker_push in H. step_inv H.
  destruct (push_snowflake_ok (w_ctx w) (pt_poll p0) p) as (ctx' & Hp & Hok & Hst & Hw);
    [by apply mi_ctx|done|].
  rewrite Hp in H. cbn in H. injection H as <-.
  assert (static (w_ctx w) p = None) as Hnone by (unfold static; by rewrite E1).
  apply match_inv_broker; [apply match_inv_ctx; [done..|]|].
  - intros q s Hq. rewrite Hst, Hw. rewrite decide_False by congruence. split; [done|].
    intros [?| ->]; [done|congruence].
  - intros k q [= <- <-]. split.
    + cbn. destruct (w_waiters w !! p) as [t|] eqn:Et; [|done].
      destruct (mi_waiter _ Hi p t Et) as (_ & Hs & _). by rewrite Hnone in Hs.
    + eexists; split; [done|]. cbn. by rewrite Hst, decide_True.
Qed.

Lemma broker_register_match w w' : match_inv w → broker_register w = Ok w' → match_inv w'.
Proof.
  intros Hi H. unfold broker_register in H. step_inv H. rename p into t0, snowflake into p.
  destruct (mi_broker _ Hi _ _ E) as (Hn & t & Ht & Hs).
  destruct (register_ok (w_ctx w) p (snowflake_of (pt_poll t))) as (ctx' & Hr & Hok & Hst & Hw); [by apply mi_ctx|done|].
  rewrite Hr in H. cbn in H. injection H as <-. simplify_eq.
  set (w1 := upd_ctx ctx' w).
  assert (match_inv w1) as Hi1 by (apply match_inv_ctx; [done..|by apply ctx_le_same]).
  apply (match_inv_waiter (upd_broker BReceive w1)); [by apply match_inv_broker|done|..|done].
  - cbn. intros u Hu. congruence.
  - exists t0. cbn. by rewrite Hst.
  - cbn. by rewrite Hst, Hs.
Qed.

(** A client pops from a pool: it has nothing before. *)
Lemma match_inv_popped w c t n o ctx' pc : match_inv w → w_clients w !! c = Some t →
  ct_snowflake t = None → pop_snowflake n (w_ctx w) = Ok (o, ctx') →
  (n = Restricted → co_natType (ct_offer t) = NATUnrestricted) →
  match o with Some _ => pc = CSend | None => pc = CPopUnrestricted ∨ pc = CReturned Denied end →
  match_inv (upd_client c (MkClient (ct_offer t) o pc) (upd_ctx ctx' w)).
Proof.
  intros Hi Ht Hnone Hp Hn Hpc.
  destruct (pop_snowflake_ok (w_ctx w) n (mi_ctx _ Hi)) as (o' & ctx'' & Hp' & Hok & Hst & Hw & Ho).
  rewrite Hp in Hp'. injection Hp' as <- <-.
  apply match_inv_client; [by apply match_inv_ctx; [done..|eapply ctx_le_pop]|..]; cbn.
  - intros t0 Ht0. simplify_eq. rewrite Hnone. split; [done|]. by intros [].
  - unfold client_ok. cbn. destruct o as [p|]; [|tauto]. subst pc.
    destruct Ho as [Hin _]. pose proof (co_class _ (mi_ctx _ Hi) n p Hin) as Hc.
    destruct (static (w_ctx w) p) as [s|] eqn:Es; [|done]. injection Hc as Hc.
    split_and!; [done|rewrite Hw; tauto|]. exists s. rewrite Hst. split; [done|].
    intros Hnat. rewrite Hc. destruct n; [done|]. by destruct Hnat; apply Hn.
  - intros c' t' p -> Ht' Hp'. exfalso. destruct Ho as [Hin _].
    pose proof (mi_client _ Hi c' t' Ht') as Hcl. unfold client_ok in Hcl. rewrite Hp' in Hcl.
    destruct Hcl as (_ & Hnw & _). apply Hnw. by exists n.
Qed.

Lemma client_pop_match c w w' : match_inv w → client_pop c w = Ok w' → match_inv w'.
Proof.
  intros Hi H. unfold client_pop in H. step_inv H.
  all: rename c0 into t; pose proof (mi_client _ Hi c t E) as Hcl; unfold client_ok in Hcl;
    rewrite E0 in Hcl; destruct (ct_snowflake t) eqn:Hnone; [tauto|].
  all: match type of H with context [pop_snowflake ?n _] =>
    destruct (pop_snowflake n (w_ctx w)) as [[o ctx']| |] eqn:Hp; [|done..] end.
  all: cbn in H; injection H as <-; eapply match_inv_popped; try done.
  - destruct Hcl as [[_ ?]|[?|?]]; [auto|discriminate..].
  - destruct o; auto.
  - destruct o; auto.
Qed.

Lemma client_offer_match c w w' : match_inv w → client_offer c w = Ok w' → match_inv w'.
Proof.
  intros Hi H. unfold client_offer in H. step_inv H. rename c0 into t. injection H as <-.
  rewrite <- E1. eapply match_inv_cpc; [|done..].
  apply match_inv_wpc; [done..|]. by exists c, t.
Qed.

Lemma waiter_forward_match p w w' : match_inv w → waiter_forward p w = Ok w' → match_inv w'.
Proof.
  intros Hi H. unfold waiter_forward in H. step_inv H. injection H as <-.
  destruct (mi_waiter _ Hi p w0 E) as (_ & _ & Hoff). rewrite E0 in Hoff.
  assert (¬ waiting (w_ctx w) p) as Hnw.
  { destruct Hoff as (c & t & Ht & Hp & _). pose proof (mi_client _ Hi c t Ht) as Hcl.
    unfold client_ok in Hcl. rewrite Hp in Hcl. tauto. }
  apply match_inv_wpc; [|done..]. apply match_inv_proxy; [done|..].
  - intros t0 Ht0. by simplify_eq.
  - intros o [= <-]. by exists p, w0.
Qed.

Lemma waiter_remove_match p w w' : match_inv w → waiter_remove p w = Ok w' → match_inv w'.
Proof.
  intros Hi H. unfold waiter_remove in H. step_inv H.
  destruct (remove_snowflake_ok (w_ctx w) (wt_pool w0) p) as (ctx' & Hr & Hok & Hst & Hw);
    [by apply mi_ctx|apply (mi_waiter _ Hi p w0 E)|].
  rewrite Hr in H. cbn in H. injection H as <-. apply match_inv_wpc; [|done|].
  - apply match_inv_ctx; [done..|]. intros q s Hq. rewrite Hst, Hw. tauto.
  - cbn. rewrite Hw. tauto.
Qed.

Lemma waiter_delete_match p w w' : match_inv w → waiter_delete p w = Ok w' → match_inv w'.
Proof.
  intros Hi H. unfold waiter_delete in H. step_inv H.
  destruct (mi_waiter _ Hi p w0 E) as (_ & Hs & Hnw). rewrite E0 in Hnw.
  destruct (unregister_ok (w_ctx w) p) as (ctx' & Hr & Hok & Hst & Hw);
    [by apply mi_ctx|by destruct (static (w_ctx w) p)|].
  rewrite Hr in H. cbn in H. injection H as <-. apply match_inv_wpc; [|done|by cbn; rewrite Hw].
  apply match_inv_ctx; [done..|by apply ctx_le_same].
Qed.

Lemma client_delete_match c w w' : match_inv w → client_delete c w = Ok w' → match_inv w'.
Proof.
  intros Hi H. unfold client_delete in H. step_inv H. rename c0 into t, n into q.
  pose proof (mi_client _ Hi c t E) as Hcl. unfold client_ok in Hcl. rewrite E1, E0 in Hcl.
  destruct Hcl as (Hr & Hnw & s & Hs & _).
  destruct (unregister_ok (w_ctx w) q) as (ctx' & Hu & Hok & Hst & Hw); [by apply mi_ctx|by rewrite Hs|].
  rewrite Hu in H. cbn in H. injection H as <-. rewrite <- E1.
  eapply match_inv_cpc; [|done..]. apply match_inv_ctx; [done..|by apply ctx_le_same].
Qed.

Lemma answer_lookup_match a w w' : match_inv w → answer_lookup a w = Ok w' → match_inv w'.
Proof.
  intros Hi H. unfold answer_lookup in H. step_inv H. injection H as <-.
  apply match_inv_answer; [done|]. cbn. intros p.
  destruct (ctx_idToSnowflake (w_ctx w) !! at_sid a0) as [q|] eqn:Eq; [|done]. intros [= <-].
  by apply (co_ids _ (mi_ctx _ Hi)).
Qed.

Lemma exec_match e w w' : match_inv w → exec e w = Ok w' → match_inv w'.
Proof.
  intros Hi H. destruct e; cbn [exec] in H.
  - unfold poll_start in H. step_inv H. injection H as <-.
    apply match_inv_proxy; [done| |done]. intros; congruence.
  - unfold broker_receive in H. step_inv H. injection H as <-.
    apply match_inv_broker; [|done]. apply match_inv_proxy; [done| |done].
    intros t0 Ht0. by simplify_eq.
  - by eapply broker_push_match.
  - by eapply broker_register_match.
  - unfold client_start in H. step_inv H. injection H as <-.
    apply match_inv_client; [done|intros; congruence| |done].
    unfold client_ok. cbn. case_decide; tauto.
  - by eapply client_pop_match.
  - by eapply client_offer_match.
  - by eapply waiter_forward_match.
  - unfold waiter_timeout in H. step_inv H. injection H as <-. by apply match_inv_wpc.
  - by eapply waiter_remove_match.
  - by eapply waiter_delete_match.
  - unfold waiter_close in H. step_inv H. injection H as <-. apply match_inv_wpc; [|done|].
    + by apply match_inv_closed.
    + destruct (mi_waiter _ Hi p w0 E) as (_ & _ & Hnw). by rewrite E0 in Hnw.
  - unfold poll_closed in H. step_inv H. injection H as <-.
    apply match_inv_proxy; [done| |done]. intros t0 Ht0. by simplify_eq.
  - unfold answer_start in H. step_inv H. injection H as <-. by apply match_inv_answer.
  - by eapply answer_lookup_match.
  - unfold answer_deliver in H. step_inv H. injection H as <-.
    apply match_inv_answer; [|done]. by eapply match_inv_cpc.
  - unfold client_timeout in H. step_inv H. injection H as <-.
    pose proof (mi_client _ Hi c c0 E) as Hcl. unfold client_ok in Hcl. rewrite E0 in Hcl.
    destruct (ct_snowflake c0) as [q|] eqn:Eq; [|by destruct Hcl as [[? ?]|[?|?]]].
    rewrite <- Eq. by eapply match_inv_cpc.
  - by eapply client_delete_match.
Qed.

Lemma initial_match ctx : NewBrokerContext = Ok ctx → match_inv (initial ctx).
Proof.
  intros H. destruct NewBrokerContext_ok as (ctx' & E & Hok & _ & _). rewrite E in H. injection H as <-.
  split; cbn; [done|..]; intros; by simplify_map_eq.
Qed.

Lemma reachable_match w : reachable w → match_inv w.
Proof. induction 1; eauto using initial_match, exec_match. Qed.

(** ** Invariant of the channels of polls *)

Definition broker_request (b : broker_pc) : option nat :=
  match b with
  | BReceive => None
  | BPush k | BRegister k _ => Some k
  end.

(** The poll of goroutine [k] waits on its channel. *)
Definition receiving (w : world) (k : nat) : Prop :=
  ∃ t, w_proxies w !! k = Some t ∧ pt_pc t = PReceiving.

(** Some waiter serves request [k]; it is done, or not. *)
Definition served (w : world) (k : nat) (d : bool) : Prop :=
  ∃ p t, w_waiters w !! p = Some t ∧ wt_request t = k ∧ (wt_pc t = WDone ↔ d = true).

Record chan_inv (w : world) : Prop := {
  ci_broker : ∀ k, broker_request (w_broker w) = Some k →
    receiving w k ∧ ¬ (∃ d, served w k d) ∧ k ∉ w_closed w;
  ci_unique : ∀ p q t u, w_waiters w !! p = Some t → w_waiters w !! q = Some u →
    wt_request t = wt_request u → p = q;
  ci_live : ∀ p t, w_waiters w !! p = Some t → wt_pc t ≠ WDone →
    receiving w (wt_request t) ∧ wt_request t ∉ w_closed w;
  ci_started : ∀ k t, w_proxies w !! k = Some t → pt_pc t = PSending → ¬ (∃ d, served w k d);
  ci_known : ∀ k d, served w k d → is_Some (w_proxies w !! k);
  ci_closed : ∀ k, k ∈ w_closed w → served w k true;
  ci_receiving : ∀ k, receiving w k →
    k ∈ w_closed w ∨ broker_request (w_broker w) = Some k ∨ served w k false
}.

(** Only these components matter. *)
Lemma chan_inv_ext w w' : broker_request (w_broker w') = broker_request (w_broker w) →
  w_proxies w' = w_proxies w → w_waiters w' = w_waiters w → w_closed w' = w_closed w →
  chan_inv w → chan_inv w'.
Proof.
  intros Eb Ep Ew Ec [H1 H2 H3 H4 H5 H6 H7].
  split; unfold receiving, served in *; rewrite ?Eb, ?Ep, ?Ew, ?Ec; done.
Qed.

Lemma served_wpc w p t pc k d : w_waiters w !! p = Some t → (wt_pc t = WDone ↔ pc = WDone) →
  served (upd_waiter p (set_wpc t pc) w) k d ↔ served w k d.
Proof.
  intros Ht Hpc. unfold served. cbn. split; intros (q & u & Hu & Hk & Hd).
  - apply lookup_insert_Some in Hu as [[<- <-]|[Hne Hu]]; [|by exists q, u].
    exists p, t. cbn in *. by rewrite Hpc.
  - destruct (decide (p = q)) as [<-|Hne].
    + exists p, (set_wpc t pc). rewrite lookup_insert_eq. simplify_eq. cbn. by rewrite <- Hpc.
    + exists q, u. by rewrite lookup_insert_ne.
Qed.

(** A waiter that is not done moves to a state that is not the last. *)
Lemma chan_inv_wpc w p t pc : chan_inv w → w_waiters w !! p = Some t → wt_pc t ≠ WDone →
  pc ≠ WDone → chan_inv (upd_waiter p (set_wpc t pc) w).
Proof.
  intros [H1 H2 H3 H4 H5 H6 H7] Ht Hl Hpc.
  assert (∀ k d, served (upd_waiter p (set_wpc t pc) w) k d ↔ served w k d) as Hs
    by (intros; apply served_wpc; tauto).
  split; try (setoid_rewrite Hs; done); cbn.
  - intros q r u v Hu Hv. apply lookup_insert_Some in Hu as [[<- <-]|[? Hu]];
      apply lookup_insert_Some in Hv as [[<- <-]|[? Hv]]; cbn; eauto.
  - intros q u Hu. apply lookup_insert_Some in Hu as [[<- <-]|[? Hu]]; cbn; [|by eapply H3].
    intros _. by eapply H3.
Qed.

Lemma receiving_upd w k t k' : receiving (upd_proxy k t w) k' ↔
  (k' = k ∧ pt_pc t = PReceiving) ∨ (k' ≠ k ∧ receiving w k').
Proof.
  unfold receiving. cbn. destruct (decide (k' = k)) as [->|Hne].
  - rewrite lookup_insert_eq. split; [intros (u & [= <-] & Hu); auto|].
    intros [[_ Hu]|[? _]]; [eauto|done].
  - rewrite lookup_insert_ne by done. split; [auto|]. intros [[? _]|[_ ?]]; [done|done].
Qed.

Lemma chan_poll_start k poll w : chan_inv w → w_proxies w !! k = None →
  chan_inv (upd_proxy k (MkProxy poll PSending) w).
Proof.
  intros [H1 H2 H3 H4 H5 H6 H7] Hn.
  assert (∀ k', receiving (upd_proxy k (MkProxy poll PSending) w) k' ↔ receiving w k') as Hr.
  { intros k'. rewrite receiving_upd. cbn. split; [intros [[_ ?]|[_ ?]]; done|].
    intros Hk. right. split; [|done]. intros ->. destruct Hk as (t & ? & _). congruence. }
  split; try (setoid_rewrite Hr; done); [done|..|done]; cbn.
  - intros k' t. rewrite lookup_insert_Some. intros [[<- <-]|[_ Ht]] Hs; [|by eapply H4].
    intros [d Hd]. apply (H5 _ d) in Hd as [? ?]. congruence.
  - intros k' d Hd%(H5 _ d). destruct (decide (k = k')) as [->|];
      [by rewrite lookup_insert_eq|by rewrite lookup_insert_ne].
Qed.

Lemma chan_broker_receive k t w : chan_inv w → w_broker w = BReceive →
  w_proxies w !! k = Some t → pt_pc t = PSending →
  chan_inv (upd_broker (BPush k) (upd_proxy k (MkProxy (pt_poll t) PReceiving) w)).
Proof.
  intros [H1 H2 H3 H4 H5 H6 H7] Hb Ht Hs. set (w' := upd_broker _ _).
  assert (∀ k', receiving w' k' ↔ k' = k ∨ receiving w k') as Hr.
  { intros k'. change (receiving (upd_proxy k (MkProxy (pt_poll t) PReceiving) w) k' ↔ k' = k ∨ receiving w k').
    rewrite receiving_upd. cbn. destruct (decide (k' = k)); tauto. }
  assert (¬ (∃ d, served w k d)) as Hns by eauto.
  split; cbn; [..|done|].
  - intros k' [= <-]. rewrite Hr. split_and!; [auto|done|]. intros Hk%H6. eauto.
  - done.
  - intros p u Hu Hl. rewrite Hr. destruct (H3 p u Hu Hl). auto.
  - intros k' u. rewrite lookup_insert_Some. intros [[<- <-]|[_ Hu]] Hpc; [done|]. by eapply H4.
  - intros k' d Hd. destruct (decide (k = k')) as [->|]; [by rewrite lookup_insert_eq|].
    rewrite lookup_insert_ne by done. by eapply H5.
  - intros k'. rewrite Hr. intros [->|Hk]; [auto|]. apply H7 in Hk.
    rewrite Hb in Hk. destruct Hk as [Hk|[Hk|Hk]]; [by left|discriminate|by right; right].
Qed.

(** The last step of a waiter. *)
Lemma served_done w p t k d : w_waiters w !! p = Some t → chan_inv w → wt_pc t ≠ WDone →
  served (upd_waiter p (set_wpc t WDone) w) k d ↔
  if decide (k = wt_request t) then d = true else served w k d.
Proof.
  intros Ht Hi Hl. unfold served. cbn. split.
  - intros (q & u & Hu & Hk & Hd). apply lookup_insert_Some in Hu as [[<- <-]|[Hne Hu]].
    + cbn in *. rewrite decide_True by done. tauto.
    + rewrite decide_False; [by exists q, u|]. intros ->. by destruct (Hne (ci_unique _ Hi _ _ _ _ Ht Hu (eq_sym Hk))).
  - case_decide as E.
    + intros ->. exists p, (set_wpc t WDone). rewrite lookup_insert_eq. cbn. by subst.
    + intros (q & u & Hu & Hk & Hd). exists q, u. rewrite lookup_insert_ne; [done|].
      intros ->. congruence.
Qed.

Lemma chan_waiter_done w p t : chan_inv w → w_waiters w !! p = Some t → wt_pc t ≠ WDone →
  ∀ w', w_broker w' = w_broker w → w_waiters w' = <[p:=set_wpc t WDone]> (w_waiters w) →
  (∀ k, k ≠ wt_request t → w_proxies w' !! k = w_proxies w !! k ∧ (k ∈ w_closed w' ↔ k ∈ w_closed w)) →
  is_Some (w_proxies w' !! wt_request t) →
  (∀ q, w_proxies w' !! wt_request t = Some q → pt_pc q ≠ PSending) →
  (receiving w' (wt_request t) → wt_request t ∈ w_closed w') →
  chan_inv w'.
Proof.
  intros Hi Ht Hl w' Eb Ew Ho Hp Hq Hc.
  assert (∀ k d, served w' k d ↔ if decide (k = wt_request t) then d = true else served w k d) as Hs.
  { intros k d. rewrite <- (served_done w p t k d) by done. unfold served. by rewrite Ew. }
  assert (∀ k, k ≠ wt_request t → receiving w' k ↔ receiving w k) as Hr.
  { intros k Hk. unfold receiving. by rewrite (proj1 (Ho k Hk)). }
  destruct Hi as [H1 H2 H3 H4 H5 H6 H7]. split.
  - intros k. rewrite Eb. intros Hk. destruct (H1 k Hk) as (Hrk & Hsk & Hck).
    assert (k ≠ wt_request t) as Hne.
    { intros ->. apply Hsk. exists false. by exists p, t. }
    rewrite Hr, (proj2 (Ho k Hne)) by done. split_and!; [done| |done].
    intros [d Hd]. rewrite Hs, decide_False in Hd by done. eauto.
  - rewrite Ew. intros q r u v Hu Hv. apply lookup_insert_Some in Hu as [[<- <-]|[? Hu]];
      apply lookup_insert_Some in Hv as [[<- <-]|[? Hv]]; cbn; eauto.
  - rewrite Ew. intros q u Hu Hpc. apply lookup_insert_Some in Hu as [[<- <-]|[Hne Hu]]; [done|].
    assert (wt_request u ≠ wt_request t) as Hneq by (intros E; by destruct Hne; eapply H2).
    rewrite Hr, (proj2 (Ho _ Hneq)) by done. by apply H3 with q.
  - intros k u Hu Hpc [d Hd]. rewrite Hs in Hd. case_decide as E.
    + subst k. by apply (Hq u).
    + rewrite (proj1 (Ho k E)) in Hu. by eapply H4; eauto.
  - intros k d. rewrite Hs. case_decide as E; [by subst k|]. rewrite (proj1 (Ho k E)). apply H5.
  - intros k Hk. rewrite Hs. case_decide as E; [done|]. apply H6. by rewrite <- (proj2 (Ho k E)).
  - intros k. rewrite Hs, Eb. case_decide as E; [subst k; auto|].
    rewrite Hr, (proj2 (Ho k E)) by done. apply H7.
Qed.

(** [Broker] starts the waiter of its request. *)
Lemma chan_register w k p n b : chan_inv w → w_broker w = BRegister k p →
  w_waiters w !! p = None → broker_request b = None →
  chan_inv (upd_broker b (upd_waiter p (MkWaiter k n WSelect) w)).
Proof.
  intros [H1 H2 H3 H4 H5 H6 H7] Hb Hn Eb. set (w' := upd_broker _ _).
  destruct (H1 k) as (Hr & Hns & Hc); [by rewrite Hb|].
  assert (∀ k' d, served w' k' d ↔ (k' = k ∧ d = false) ∨ served w k' d) as Hs.
  { intros k' d. unfold served. cbn. split.
    - intros (q & u & Hu & Hk & Hd). apply lookup_insert_Some in Hu as [[<- <-]|[Hne Hu]].
      + left. split; [done|]. destruct d; [|done]. by discriminate (proj2 Hd eq_refl).
      + right. by exists q, u.
    - intros [[-> ->]|(q & u & Hu & Hk & Hd)].
      + exists p, (MkWaiter k n WSelect). by rewrite lookup_insert_eq.
      + exists q, u. rewrite lookup_insert_ne; [done|]. intros ->. congruence. }
  assert (∀ q u, w_waiters w !! q = Some u → wt_request u ≠ k) as Hk.
  { intros q u Hu <-. apply Hns. destruct (wt_pc u) eqn:E;
      [exists false..|exists true]; exists q, u; by rewrite E. }
  split; cbn.
  - rewrite Eb. done.
  - intros q r u v Hu Hv. apply lookup_insert_Some in Hu as [[<- <-]|[? Hu]];
      apply lookup_insert_Some in Hv as [[<- <-]|[? Hv]]; cbn; [done|..|by eauto].
    + intros E. by destruct (Hk r v).
    + intros E. by destruct (Hk q u).
  - intros q u Hu. apply lookup_insert_Some in Hu as [[<- <-]|[? Hu]]; cbn; [done|by eapply H3].
  - intros k' t Ht Hpc [d Hd]. apply Hs in Hd as [[-> _]|Hd]; [|by eapply H4; eauto].
    destruct Hr as (u & Hu & ?). congruence.
  - intros k' d [[-> _]|Hd]%Hs; [|by eapply H5]. by destruct Hr as (u & -> & _).
  - intros k' Hk'%H6. rewrite Hs. auto.
  - intros k' [Hk'|[Hk'|Hk']]%H7; [by left|..]; right; right; rewrite Hs; [|auto].
    rewrite Hb in Hk'. injection Hk' as ->. auto.
Qed.

(** Who receives the poll answer is known. *)
Lemma chan_forward w p t q o : chan_inv w → w_waiters w !! p = Some t → wt_pc t ≠ WDone →
  w_proxies w !! wt_request t = Some q →
  chan_inv (upd_waiter p (set_wpc t WDone) (upd_proxy (wt_request t) (MkProxy (pt_poll q) (PReturned o)) w)).
Proof.
  intros Hi Ht Hl Hq. eapply chan_waiter_done; [done|done|done|done|done|..]; cbn.
  - intros k Hk. by rewrite lookup_insert_ne.
  - by rewrite lookup_insert_eq.
  - rewrite lookup_insert_eq. by intros ? [= <-].
  - intros (u & Hu & Hpc). cbn in Hu. rewrite lookup_insert_eq in Hu. by simplify_eq.
Qed.

Lemma chan_poll_closed w k t : chan_inv w → w_proxies w !! k = Some t → k ∈ w_closed w →
  chan_inv (upd_proxy k (MkProxy (pt_poll t) (PReturned None)) w).
Proof.
  intros [H1 H2 H3 H4 H5 H6 H7] Ht Hk. set (w' := upd_proxy _ _ _).
  assert (∀ k', k' ≠ k → receiving w' k' ↔ receiving w k') as Hr.
  { intros k' Hne. unfold w'. rewrite receiving_upd. tauto. }
  split; cbn; [..|done|].
  - intros k' Hk'. destruct (H1 k' Hk') as (? & ? & ?). rewrite Hr; [done|]. by intros ->.
  - done.
  - intros p u Hu Hl. destruct (H3 p u Hu Hl) as [? Hnc]. rewrite Hr; [done|]. congruence.
  - intros k' u. rewrite lookup_insert_Some. intros [[<- <-]|[_ Hu]] Hpc; [done|]. by eapply H4.
  - intros k' d Hd%(H5 _ d). destruct (decide (k = k')) as [->|];
      [by rewrite lookup_insert_eq|by rewrite lookup_insert_ne].
  - intros k' Hk'. destruct (decide (k' = k)) as [->|Hne]; [auto|]. apply H7. by rewrite <- Hr.
Qed.

Lemma exec_chan e w w' : match_inv w → chan_inv w → exec e w = Ok w' → chan_inv w'.
Proof.
  intros Hm Hi H. destruct e; cbn [exec] in H.
  - unfold poll_start in H. step_inv H. injection H as <-. by apply chan_poll_start.
  - unfold broker_receive in H. step_inv H. injection H as <-. by apply chan_broker_receive.
  - unfold broker_push in H. step_inv H. apply bind_Ok_inv in H as (ctx & _ & [= <-]).
    apply (chan_inv_ext w); [by rewrite E|done..].
  - unfold broker_register in H. step_inv H. apply bind_Ok_inv in H as (ctx & _ & [= <-]).
    apply (chan_inv_ext (upd_broker BReceive (upd_waiter snowflake
      (MkWaiter request (GetPool (pt_poll p)) WSelect) w))); [done..|].
    by apply chan_register; [..|apply (mi_broker _ Hm _ _ E)|].
  - unfold client_start in H. step_inv H. injection H as <-. by apply (chan_inv_ext w).
  - unfold client_pop in H. step_inv H; apply bind_Ok_inv in H as ([o ctx] & _ & [= <-]);
      by apply (chan_inv_ext w).
  - unfold client_offer in H. step_inv H. injection H as <-.
    eapply chan_inv_ext, (chan_inv_wpc w n w0); [done..|congruence|done].
  - unfold waiter_forward in H. step_inv H. injection H as <-.
    apply chan_forward; [done..|congruence|done].
  - unfold waiter_timeout in H. step_inv H. injection H as <-.
    apply chan_inv_wpc; [done|done|congruence|done].
  - unfold waiter_remove in H. step_inv H. apply bind_Ok_inv in H as (ctx & _ & [= <-]).
    eapply chan_inv_ext, (chan_inv_wpc w p w0); [done..|congruence|done].
  - unfold waiter_delete in H. step_inv H. apply bind_Ok_inv in H as (ctx & _ & [= <-]).
    eapply chan_inv_ext, (chan_inv_wpc w p w0); [done..|congruence|done].
  - unfold waiter_close in H. step_inv H. injection H as <-.
    destruct (ci_live _ Hi p w0 E) as [(q & Hq & Hpc) _]; [congruence|].
    eapply chan_waiter_done; [done|done|congruence|done|done|..]; cbn.
    + intros k Hk. split; [done|]. rewrite elem_of_union, elem_of_singleton. tauto.
    + by rewrite Hq.
    + rewrite Hq. intros ? [= <-]. by rewrite Hpc.
    + intros _. rewrite elem_of_union, elem_of_singleton. by left.
  - unfold poll_closed in H. step_inv H. injection H as <-. by apply chan_poll_closed.
  - unfold answer_start in H. step_inv H. injection H as <-. by apply (chan_inv_ext w).
  - unfold answer_lookup in H. step_inv H. injection H as <-. by apply (chan_inv_ext w).
  - unfold answer_deliver in H. step_inv H. injection H as <-. by apply (chan_inv_ext w).
  - unfold client_timeout in H. step_inv H. injection H as <-. by apply (chan_inv_ext w).
  - unfold client_delete in H. step_inv H. apply bind_Ok_inv in H as (ctx & _ & [= <-]).
    by apply (chan_inv_ext w).
Qed.

Lemma initial_chan ctx : chan_inv (initial ctx).
Proof.
  split; cbn.
  - done.
  - intros p q t u Hp. by simplify_map_eq.
  - intros p t Hp. by simplify_map_eq.
  - intros k t Hk. by simplify_map_eq.
  - intros k d (p & t & Hp & _). cbn in Hp. by simplify_map_eq.
  - intros k Hk. by apply not_elem_of_empty in Hk.
  - intros k (t & Hk & _). cbn in Hk. by simplify_map_eq.
Qed.

Lemma reachable_chan w : reachable w → chan_inv w.
Proof. induction 1; eauto using initial_chan, exec_chan, reachable_match. Qed.

(** ** No event panics *)

Lemma run_Ok {A} (m : go A) a : m = Ok a → run m = Ok a.
Proof. by intros ->. Qed.

Lemma exec_no_panic e w : match_inv w → chan_inv w → no_panic (exec e w).
Proof.
  intros Hm Hc.
  assert (∀ p t, w_waiters w !! p = Some t → wt_pc t ≠ WDone → wt_request t ∉ w_closed w) as Hcl
    by (intros p t Ht Hp; by apply (ci_live _ Hc p t)).
  assert (∀ p t, w_waiters w !! p = Some t → is_Some (static (w_ctx w) p)) as Hst.
  { intros p t Ht. destruct (mi_waiter _ Hm p t Ht) as ((q & _ & ->) & _). done. }
  destruct e; cbn [exec];
    unfold poll_start, broker_receive, broker_push, broker_register, client_start, client_pop,
      client_offer, waiter_forward, waiter_timeout, waiter_remove, waiter_delete, waiter_close,
      poll_closed, answer_start, answer_lookup, answer_deliver, client_timeout, client_delete;
    repeat first
      [ progress cbn [get none mbind res_bind]
      | match goal with |- context [get ?o] => destruct o eqn:?
        | |- context [none ?o] => destruct o eqn:? end
      | done
      | case_match ].
  all: try (exfalso; eapply Hcl; [eassumption|congruence|assumption]).
  - destruct (push_snowflake_ok (w_ctx w) (pt_poll p0) p (mi_ctx _ Hm)) as (ctx & -> & _); done.
  - destruct (mi_broker _ Hm request snowflake) as (_ & t & _ & Hs); [done|].
    destruct (register_ok (w_ctx w) snowflake _ (mi_ctx _ Hm) Hs) as (ctx & -> & _). done.
  - by destruct (pop_snowflake_ok (w_ctx w) Restricted (mi_ctx _ Hm)) as (o & ctx & -> & _).
  - by destruct (pop_snowflake_ok (w_ctx w) Unrestricted (mi_ctx _ Hm)) as (o & ctx & -> & _).
  - destruct (remove_snowflake_ok (w_ctx w) (wt_pool w0) p (mi_ctx _ Hm)) as (ctx & -> & _); [|done].
    by apply (mi_waiter _ Hm p w0).
  - destruct (unregister_ok (w_ctx w) p (mi_ctx _ Hm)) as (ctx & -> & _); [by eapply Hst|done].
  - destruct (unregister_ok (w_ctx w) n (mi_ctx _ Hm)) as (ctx & -> & _); [|done].
    pose proof (mi_client _ Hm c c0 ltac:(done)) as Hk. unfold client_ok in Hk.
    match goal with H : ct_snowflake c0 = Some n |- _ => rewrite H in Hk end.
    destruct Hk as (_ & _ & s & -> & _). done.
Qed.

(** ** Every poll can return *)

(** Some execution from [w] reaches [P]. *)
Definition can (w : world) (P : world → Prop) : Prop := ∃ es w', execs es w = Ok w' ∧ P w'.

(** The poll of goroutine [k] has returned. *)
Definition returned (k : nat) (w : world) : Prop :=
  ∃ t o, w_proxies w !! k = Some t ∧ pt_pc t = PReturned o.

Lemma can_step e w w' P : exec e w = Ok w' → can w' P → can w P.
Proof. intros He (es & w'' & Hes & HP). exists (e :: es), w''. cbn. by rewrite He. Qed.

(** An event that is enabled happens, since no event panics. *)
Lemma can_exec e w P : reachable w → exec e w ≠ Err Disabled →
  (∀ w', reachable w' → exec e w = Ok w' → can w' P) → can w P.
Proof.
  intros Hr He HP. pose proof (exec_no_panic e w (reachable_match _ Hr) (reachable_chan _ Hr)) as Hn.
  destruct (exec e w) as [w'|[]|] eqn:E; [|done|done].
  eapply can_step; [done|]. apply HP; [by eapply reachable_step|done].
Qed.

Lemma run_enabled {A B} (m : go A) (f : A → res disabled B) :
  (∀ a, f a ≠ Err Disabled) → run m ≫= f ≠ Err Disabled.
Proof. intros Hf. destruct m as [a|[]|]; cbn; [apply Hf|done]. Qed.

Lemma can_close w p t : reachable w → w_waiters w !! p = Some t → wt_pc t = WClose →
  can w (returned (wt_request t)).
Proof.
  intros Hr Ht Hp. pose proof (reachable_chan _ Hr) as Hc.
  destruct (ci_live _ Hc p t Ht) as [(q & Hq & Hpc) Hncl]; [congruence|].
  apply (can_exec (EClose p)); [done|..].
  - cbn. unfold waiter_close. rewrite Ht. cbn. rewrite Hp. by case_decide.
  - intros w' Hr' He. cbn in He. unfold waiter_close in He. rewrite Ht in He. cbn in He.
    rewrite Hp, decide_False in He by done. injection He as <-.
    eexists [EReceiveClosed (wt_request t)], _. split.
    + cbn. unfold poll_closed. cbn. rewrite Hq. cbn. rewrite Hpc, decide_True; [done|].
      rewrite elem_of_union, elem_of_singleton. by left.
    + eexists _, _. cbn. by rewrite lookup_insert_eq.
Qed.

Lemma can_delete w p t : reachable w → w_waiters w !! p = Some t → wt_pc t = WDelete →
  can w (returned (wt_request t)).
Proof.
  intros Hr Ht Hp. apply (can_exec (EDelete p)); [done|..]; cbn; unfold waiter_delete; rewrite Ht;
    cbn [get mbind res_bind]; rewrite Hp.
  - by apply run_enabled.
  - intros w' Hr' (ctx & _ & [= <-])%bind_Ok_inv.
    apply (can_close _ p (set_wpc t WClose)); [done| |done]. cbn. by rewrite lookup_insert_eq.
Qed.

Lemma can_remove w p t : reachable w → w_waiters w !! p = Some t → wt_pc t = WRemove →
  can w (returned (wt_request t)).
Proof.
  intros Hr Ht Hp. apply (can_exec (ERemove p)); [done|..]; cbn; unfold waiter_remove; rewrite Ht;
    cbn [get mbind res_bind]; rewrite Hp.
  - by apply run_enabled.
  - intros w' Hr' (ctx & _ & [= <-])%bind_Ok_inv.
    apply (can_delete _ p (set_wpc t WDelete)); [done| |done]. cbn. by rewrite lookup_insert_eq.
Qed.

Lemma can_waiter w p t : reachable w → w_waiters w !! p = Some t → wt_pc t ≠ WDone →
  can w (returned (wt_request t)).
Proof.
  intros Hr Ht Hl. pose proof (reachable_chan _ Hr) as Hc.
  destruct (ci_live _ Hc p t Ht Hl) as [(q & Hq & Hpc) Hncl].
  destruct (wt_pc t) eqn:Hp; eauto using can_close, can_delete, can_remove; [..|done].
  - apply (can_exec (EProxyTimeout p)); [done|..]; cbn; unfold waiter_timeout; rewrite Ht;
      cbn; rewrite Hp; [done|].
    intros w' Hr' [= <-]. apply (can_remove _ p (set_wpc t WRemove)); [done| |done].
    cbn. by rewrite lookup_insert_eq.
  - eexists [EForward p], _. split.
    + cbn. unfold waiter_forward. rewrite Ht. cbn. rewrite Hp, decide_False by done.
      rewrite Hq. cbn. by rewrite Hpc.
    + eexists _, _. cbn. by rewrite lookup_insert_eq.
Qed.

(** [Broker] can finish the request it has taken. *)
Lemma can_broker w P : reachable w →
  (w_broker w = BReceive → can w P) →
  (∀ w' k p t, broker_request (w_broker w) = Some k → reachable w' →
    w_proxies w' = w_proxies w → w_broker w' = BReceive →
    w_waiters w' !! p = Some t → wt_request t = k → wt_pc t = WSelect → can w' P) → can w P.
Proof.
  intros Hr Hidle Hreg.
  assert (∀ w1 k p, reachable w1 → w_broker w1 = BRegister k p → w_proxies w1 = w_proxies w →
            broker_request (w_broker w) = Some k → can w1 P) as Hreg'.
  { intros w1 k p Hr1 Hb1 Hp1 Hk. destruct (mi_broker _ (reachable_match _ Hr1) k p Hb1)
      as (_ & t & Ht & _).
    apply (can_exec ERegister); [done|..]; cbn; unfold broker_register; rewrite Hb1, Ht;
      cbn [get mbind res_bind]; [by apply run_enabled|].
    intros w' Hr' (ctx & _ & [= <-])%bind_Ok_inv.
    apply (Hreg _ k p (MkWaiter k (GetPool (pt_poll t)) WSelect));
      [done|done|exact Hp1|done| |done|done]. cbn. by rewrite lookup_insert_eq. }
  destruct (w_broker w) as [|k|k p] eqn:Hb; [by apply Hidle| |by eapply Hreg'].
  destruct (ci_broker _ (reachable_chan _ Hr) k) as ((t & Ht & _) & _); [by rewrite Hb|].
  set (p := fresh (dom (ctx_store (w_ctx w)))).
  assert (ctx_store (w_ctx w) !! p = None) as Hp by (apply not_elem_of_dom, is_fresh).
  apply (can_exec (EPush p)); [done|..]; cbn; unfold broker_push; rewrite Hb, Ht;
    cbn [get mbind res_bind]; rewrite Hp; cbn [none mbind res_bind]; [by apply run_enabled|].
  intros w' Hr' (ctx & _ & [= <-])%bind_Ok_inv. by eapply Hreg'.
Qed.

Lemma can_receiving w k : reachable w → receiving w k → can w (returned k).
Proof.
  intros Hr Hk. destruct (ci_receiving _ (reachable_chan _ Hr) k Hk) as [Hcl|[Hb|Hs]].
  - destruct Hk as (t & Ht & Hpc). eexists [EReceiveClosed k], _. split.
    + cbn. unfold poll_closed. rewrite Ht. cbn. by rewrite Hpc, decide_True.
    + eexists _, _. cbn. by rewrite lookup_insert_eq.
  - apply can_broker; [done|intros E; by rewrite E in Hb|].
    intros w' k' p t Hb' Hr' _ _ Ht <- Hpc. assert (k = wt_request t) as -> by congruence.
    eapply can_waiter; [done..|]. by rewrite Hpc.
  - destruct Hs as (p & t & Ht & <- & Hd). apply (can_waiter w p); [done..|].
    intros E. by apply Hd in E.
Qed.

Lemma can_sending w k t : reachable w → w_broker w = BReceive →
  w_proxies w !! k = Some t → pt_pc t = PSending → can w (returned k).
Proof.
  intros Hr Hb Ht Hpc. apply (can_exec (ETakePoll k)); [done|..]; cbn; unfold broker_receive;
    rewrite Ht; cbn; rewrite Hb, Hpc; [done|].
  intros w' Hr' [= <-]. apply can_receiving; [done|]. eexists. cbn. by rewrite lookup_insert_eq.
Qed.

(** ** Sends that no one receives *)

(** The effect of an event that was taken, as a case analysis. *)
Ltac exec_cases H :=
  cbn [exec] in H;
  unfold poll_start, broker_receive, broker_push, broker_register, client_start, client_pop,
    client_offer, waiter_forward, waiter_timeout, waiter_remove, waiter_delete, waiter_close,
    poll_closed, answer_start, answer_lookup, answer_deliver, client_timeout, client_delete in H;
  step_inv H; try apply bind_Ok_inv in H as (? & _ & H); try case_match; injection H as <-.

(** The waiter of [p] is past its select. *)
Definition past_select (w : world) (p : loc) : Prop :=
  ∃ u, w_waiters w !! p = Some u ∧ wt_pc u ≠ WSelect.

Lemma exec_past_select e w w' p : match_inv w → exec e w = Ok w' → past_select w p → past_select w' p.
Proof.
  intros Hm H (u & Hu & Hpc). unfold past_select.
  assert (∀ q v, (q = p → wt_pc v ≠ WSelect) →
    ∃ u', <[q:=v]> (w_waiters w) !! p = Some u' ∧ wt_pc u' ≠ WSelect) as Hins.
  { intros q v Hv. destruct (decide (q = p)) as [->|];
      [rewrite lookup_insert_eq; eauto|rewrite lookup_insert_ne by done; eauto]. }
  destruct e; exec_cases H; cbn; try (by exists u); try (by apply Hins).
  (* the waiter started by Broker is a new one *)
  apply Hins. intros ->. destruct (mi_broker _ Hm _ _ E). congruence.
Qed.

(** A client that sends to such a waiter does not move. *)
Lemma exec_blocked_client e w w' c t p : match_inv w → exec e w = Ok w' →
  w_clients w !! c = Some t → ct_pc t = CSend → ct_snowflake t = Some p → past_select w p →
  w_clients w' !! c = Some t.
Proof.
  intros Hm H Ht Hpc Hp (u & Hu & Hw).
  destruct e; exec_cases H; cbn; try done;
    match goal with |- <[?c':=_]> _ !! _ = _ =>
      rewrite lookup_insert_ne; [done|intros ->; simplify_eq; congruence] end.
Qed.

Lemma blocked_client_forever es w w' c t p : match_inv w → execs es w = Ok w' →
  w_clients w !! c = Some t → ct_pc t = CSend → ct_snowflake t = Some p → past_select w p →
  w_clients w' !! c = Some t.
Proof.
  revert w. induction es as [|e es IH]; intros w Hm H Ht Hpc Hp Hw.
  - by injection H as <-.
  - apply bind_Ok_inv in H as (w1 & He & Hes). apply (IH w1); try done.
    + by eapply exec_match.
    + by eapply exec_blocked_client.
    + by eapply exec_past_select.
Qed.

(** The client that holds [p] is past its select. *)
Definition past_answer (w : world) (p : loc) : Prop :=
  ∃ c t r, w_clients w !! c = Some t ∧ ct_snowflake t = Some p ∧
    (ct_pc t = CDelete r ∨ ct_pc t = CReturned r).

Lemma exec_past_answer e w w' p : exec e w = Ok w' → past_answer w p → past_answer w' p.
Proof.
  intros H (c & t & r & Ht & Hp & Hpc).
  assert (∀ c' v, (c' = c → ct_snowflake v = Some p ∧ ∃ r, ct_pc v = CDelete r ∨ ct_pc v = CReturned r) →
    ∃ c t r, <[c':=v]> (w_clients w) !! c = Some t ∧ ct_snowflake t = Some p ∧
      (ct_pc t = CDelete r ∨ ct_pc t = CReturned r)) as Hins.
  { intros c' v Hv. exists c. destruct (decide (c' = c)) as [->|].
    - rewrite lookup_insert_eq. destruct Hv as (Hs & r' & Hr); [done|]. by exists v, r'.
    - rewrite lookup_insert_ne by done. by exists t, r. }
  unfold past_answer. destruct e; exec_cases H; cbn; try (by exists c, t, r);
    apply Hins; intros ->; simplify_eq; try (destruct Hpc; congruence).
  cbn. split; [done|]. eauto.
Qed.

Lemma exec_blocked_answer e w w' a t p : match_inv w → exec e w = Ok w' →
  w_answers w !! a = Some t → at_pc t = ASend p → past_answer w p → w_answers w' !! a = Some t.
Proof.
  intros Hm H Ht Hpc (c & u & r & Hu & Hp & Hr).
  destruct e; exec_cases H; cbn; try done; (rewrite lookup_insert_ne; [done|]); intros ->;
    simplify_eq; try congruence.
  assert (snowflake = p) as -> by congruence.
  assert (c = c0) as -> by (by eapply (mi_exclusive _ Hm)). simplify_eq. destruct Hr; congruence.
Qed.

Lemma blocked_answer_forever es w w' a t p : match_inv w → execs es w = Ok w' →
  w_answers w !! a = Some t → at_pc t = ASend p → past_answer w p → w_answers w' !! a = Some t.
Proof.
  revert w. induction es as [|e es IH]; intros w Hm H Ht Hpc Hp.
  - by injection H as <-.
  - apply bind_Ok_inv in H as (w1 & He & Hes). apply (IH w1); try done.
    + by eapply exec_match.
    + by eapply exec_blocked_answer.
    + by eapply exec_past_answer.
Qed.

Lemma reachable_execs es : ∀ w w', reachable w → execs es w = Ok w' → reachable w'.
Proof.
  induction es as [|e es IH]; intros w w' Hr H.
  - by injection H as <-.
  - apply bind_Ok_inv in H as (w1 & He & Hes). eapply IH; [|done]. by eapply reachable_step.
Qed.

(** ** Properties *)

(** The start of the broker, for the examples. *)
Definition start : world :=
  initial (MkContext ∅ (Pool [] (20 * 10 ^ 9)) (Pool [] (20 * 10 ^ 9)) ∅).

Lemma start_reachable : reachable start.
Proof. by apply reachable_init. Qed.

Definition after (es : list event) : world :=
  match execs es start with
  | Ok w => w
  | _ => start
  end.

Lemma after_reachable es : reachable (after es).
Proof.
  unfold after. destruct (execs es start) eqn:E; try apply start_reachable.
  eapply reachable_execs; [apply start_reachable|done].
Qed.

Definition poll1 : ProxyPoll := MkProxyPoll (gs "ymbcCMto7KHNGYlp") (gs "webext") (gs "unrestricted") 8.
Definition poll2 : ProxyPoll := MkProxyPoll (gs "2bJ7tnHGLWWoKxJk") (gs "badge") (gs "unrestricted") 0.
Definition offer1 : ClientOffer := MkClientOffer (gs "unknown") (gs "offer") (zeros 20).

(** Two polls are registered and a client takes one of the proxies. *)
Definition matched_prefix : list event :=
  [EPoll 0 poll1; ETakePoll 0; EPush 7; ERegister;
   EPoll 1 poll2; ETakePoll 1; EPush 3; ERegister; EClient 0 offer1; EPop 0]%nat.

(** C5: the broker does not crash.  In every state that any interleaving of
    polls, offers, answers and timeouts reaches, no step of a goroutine
    panics: the heap operations stay in bounds and meet no nil pointer
    ([SnowflakePool.Remove] in particular is safe after a concurrent [Pop]),
    and no [offerChannel] of a poll is closed twice or sent to after it has
    been closed. *)
Theorem broker_never_panics (w : world) (e : event) : reachable w → exec e w ≠ Panic.
Proof.
  intros Hr. apply no_panic_iff. apply exec_no_panic; auto using reachable_match, reachable_chan.
Qed.

Lemma broker_never_panics_witness :
  exec (ERemove 3%nat) (after (matched_prefix ++ [EProxyTimeout 3%nat])) ≠ Panic.
Proof. apply broker_never_panics. apply after_reachable. Defined.

(** C4: the offer a proxy gets.  When a proxy poll returns an offer, the offer
    is that of exactly one client, which popped the snowflake made for this
    very poll and is the only client ever to hold it; the snowflake has left
    both pools; and a client whose NAT is not unrestricted has been given a
    proxy that polled as unrestricted. *)
Theorem poll_offer_from_one_client (w : world) (k : nat) (q : proxy_thread) (o : ClientOffer) :
  reachable w → w_proxies w !! k = Some q → pt_pc q = PReturned (Some o) →
  ∃ c t p, w_clients w !! c = Some t ∧ ct_offer t = o ∧ ct_snowflake t = Some p ∧
    static (w_ctx w) p = Some (snowflake_of (pt_poll q)) ∧ ¬ waiting (w_ctx w) p ∧
    (co_natType o ≠ NATUnrestricted → pp_natType (pt_poll q) = NATUnrestricted) ∧
    (∀ c' t', w_clients w !! c' = Some t' → ct_snowflake t' = Some p → c' = c).
Proof.
  intros Hr%reachable_match Hq Hpc.
  destruct (mi_proxy _ Hr k q o Hq Hpc) as (p & u & Hu & Hk & c & t & Ht & Hp & Ho).
  destruct (mi_waiter _ Hr p u Hu) as ((q' & Hq' & Hs) & _). rewrite Hk in Hq'. simplify_eq.
  pose proof (mi_client _ Hr c t Ht) as Hcl. unfold client_ok in Hcl. rewrite Hp in Hcl.
  destruct Hcl as (_ & Hnw & s & Hs' & Hnat). rewrite Hs in Hs'. injection Hs' as <-.
  exists c, t, p. split_and!; try done.
  - intros Hn. specialize (Hnat Hn). unfold class in Hnat. cbn in Hnat. by case_decide.
  - intros c' t' Ht' Hp'. by eapply (mi_exclusive _ Hr).
Qed.

Lemma poll_offer_from_one_client_witness :
  ∃ q, w_proxies (after (matched_prefix ++ [EOffer 0; EForward 3]%nat)) !! 1%nat = Some q ∧
  ∃ c t p, w_clients (after (matched_prefix ++ [EOffer 0; EForward 3]%nat)) !! c = Some t ∧
    ct_offer t = offer1 ∧ ct_snowflake t = Some p ∧
    static (w_ctx (after (matched_prefix ++ [EOffer 0; EForward 3]%nat))) p
      = Some (snowflake_of (pt_poll q)) ∧
    ¬ waiting (w_ctx (after (matched_prefix ++ [EOffer 0; EForward 3]%nat))) p ∧
    (co_natType offer1 ≠ NATUnrestricted → pp_natType (pt_poll q) = NATUnrestricted) ∧
    (∀ c' t', w_clients (after (matched_prefix ++ [EOffer 0; EForward 3]%nat)) !! c' = Some t' →
      ct_snowflake t' = Some p → c' = c).
Proof.
  exists (MkProxy poll2 (PReturned (Some offer1))). split; [vm_compute; reflexivity|].
  apply (poll_offer_from_one_client _ 1%nat); [apply after_reachable|vm_compute; reflexivity|done].
Defined.

(** C1: answers reach the right client.  When a client receives an answer,
    the [Sid] of the [ProxyAnswers] request it comes from is the identifier of
    the snowflake that the client holds, whatever polls, matches and timeouts
    happened between the match and the answer. *)
Theorem answer_reaches_its_client (w w' : world) (a c : nat) :
  reachable w → exec (EDeliver a c) w = Ok w' →
  ∃ t u p s, w_answers w !! a = Some t ∧ w_clients w !! c = Some u ∧
    ct_snowflake u = Some p ∧ static (w_ctx w) p = Some s ∧ sf_id s = at_sid t ∧
    w_clients w' !! c = Some (MkClient (ct_offer u) (Some p) (CDelete (Answered (at_answer t)))).
Proof.
  intros Hr%reachable_match H. cbn [exec] in H. unfold answer_deliver in H. step_inv H.
  injection H as <-. pose proof (mi_answer _ Hr a _ _ E E1) as Hs.
  destruct (static (w_ctx w) snowflake) as [s|] eqn:Es; [|done]. injection Hs as Hs.
  do 4 eexists. split_and!; [done..|]. cbn. rewrite lookup_insert_eq. by rewrite e.
Qed.

Definition answered_prefix : list event :=
  (matched_prefix ++ [EOffer 0; EForward 3; EAnswer 0 (pp_id poll2) (gs "answer"); ELookup 0])%nat.

Lemma answer_reaches_its_client_witness :
  ∃ t u p s, w_answers (after answered_prefix) !! 0%nat = Some t ∧
    w_clients (after answered_prefix) !! 0%nat = Some u ∧
    ct_snowflake u = Some p ∧ static (w_ctx (after answered_prefix)) p = Some s ∧ sf_id s = at_sid t ∧
    w_clients (after (answered_prefix ++ [EDeliver 0 0]%nat)) !! 0%nat
      = Some (MkClient (ct_offer u) (Some p) (CDelete (Answered (at_answer t)))).
Proof.
  apply answer_reaches_its_client; [apply after_reachable|]. vm_compute. reflexivity.
Defined.

(** C6: every poll can be answered.  From every reachable state, every proxy
    poll has an execution in which [RequestOffer] returns: no interleaving
    leaves a polling proxy waiting for ever on [Broker], on its channel or on
    the goroutine that serves it. *)
Theorem poll_can_return (w : world) (k : nat) (t : proxy_thread) :
  reachable w → w_proxies w !! k = Some t → can w (returned k).
Proof.
  intros Hr Ht. destruct (pt_pc t) as [| |o] eqn:Hpc.
  - apply can_broker; [done|by intros Hb; eapply can_sending|].
    intros w' k' p u _ Hr' Hp Hb _ _ _. eapply can_sending; [done..| |done]. by rewrite Hp.
  - apply can_receiving; [done|]. by exists t.
  - exists [], w. split; [done|]. by exists t, o.
Qed.

Lemma poll_can_return_witness :
  w_proxies (after matched_prefix) !! 0%nat = Some (MkProxy poll1 PReceiving) ∧
  can (after matched_prefix) (returned 0%nat).
Proof.
  split; [vm_compute; reflexivity|].
  apply (poll_can_return _ _ (MkProxy poll1 PReceiving)); [apply after_reachable|vm_compute; reflexivity].
Defined.

(** C7: [matchSnowflake] chooses as documented.  An unrestricted client gets a
    restricted proxy when one waits, and otherwise, like every other client,
    an unrestricted one; within the pool it is a proxy with the least number
    of clients; nil is returned only when no eligible proxy waits.  The chosen
    proxy leaves its pool, the others stay, and the pools remain in order. *)
Theorem matchSnowflake_chooses (w : world) (natType : gostring) : reachable w →
  ∃ o ctx', matchSnowflake natType (w_ctx w) = Ok (o, ctx') ∧ ctx_ok ctx' ∧
    (∀ q, waiting ctx' q ↔ waiting (w_ctx w) q ∧ o ≠ Some q) ∧
    match o with
    | None => pool_h (the_pool Unrestricted (w_ctx w)) = [] ∧
        (natType = NATUnrestricted → pool_h (the_pool Restricted (w_ctx w)) = [])
    | Some p => ∃ n, p ∈ pool_h (the_pool n (w_ctx w)) ∧
        (∀ q, q ∈ pool_h (the_pool n (w_ctx w)) →
           clients_of (ctx_store (w_ctx w)) p ≤ clients_of (ctx_store (w_ctx w)) q) ∧
        (n = Restricted ↔ natType = NATUnrestricted ∧ pool_h (the_pool Restricted (w_ctx w)) ≠ [])
    end.
Proof.
  intros Hr%reachable_match%mi_ctx. unfold matchSnowflake.
  destruct (pop_snowflake_ok (w_ctx w) Restricted Hr) as (o & ctx' & -> & Hok & Hst & Hw & Ho).
  destruct (pop_snowflake_ok (w_ctx w) Unrestricted Hr) as (o2 & ctx2 & Hp2 & Hok2 & Hst2 & Hw2 & Ho2).
  case_decide as Hn; cbn [mbind res_bind]; [destruct o as [p|]|].
  - exists (Some p), ctx'. split_and!; [done..|]. exists Restricted. destruct Ho as [Hin Hmin].
    split_and!; [done..|]. split; [|done]. intros _. split; [done|].
    intros E. rewrite E in Hin. inversion Hin.
  - destruct Ho as [E ->]. rewrite Hp2. exists o2, ctx2. split_and!; [done..|].
    destruct o2 as [p|]; [|by destruct Ho2]. destruct Ho2. exists Unrestricted.
    split_and!; [done..|]. split; [done|tauto].
  - rewrite Hp2. exists o2, ctx2. split_and!; [done..|].
    destruct o2 as [p|]; [|by destruct Ho2]. destruct Ho2. exists Unrestricted.
    split_and!; [done..|]. split; [done|tauto].
Qed.

Lemma matchSnowflake_chooses_witness :
  ∃ o ctx', matchSnowflake (gs "unrestricted") (w_ctx (after matched_prefix)) = Ok (o, ctx') ∧
    ctx_ok ctx' ∧
    (∀ q, waiting ctx' q ↔ waiting (w_ctx (after matched_prefix)) q ∧ o ≠ Some q) ∧
    match o with
    | None => pool_h (the_pool Unrestricted (w_ctx (after matched_prefix))) = [] ∧
        (gs "unrestricted" = NATUnrestricted →
         pool_h (the_pool Restricted (w_ctx (after matched_prefix))) = [])
    | Some p => ∃ n, p ∈ pool_h (the_pool n (w_ctx (after matched_prefix))) ∧
        (∀ q, q ∈ pool_h (the_pool n (w_ctx (after matched_prefix))) →
           clients_of (ctx_store (w_ctx (after matched_prefix))) p
           ≤ clients_of (ctx_store (w_ctx (after matched_prefix))) q) ∧
        (n = Restricted ↔ gs "unrestricted" = NATUnrestricted ∧
           pool_h (the_pool Restricted (w_ctx (after matched_prefix))) ≠ [])
    end.
Proof. apply matchSnowflake_chooses. apply after_reachable. Defined.

(** The client pops snowflake 3, whose waiter times out before it is offered. *)
Definition lost_offer : list event := matched_prefix ++ [EProxyTimeout 3%nat].

(** The proxy's answer is looked up while its client times out. *)
Definition lost_answer : list event := answered_prefix ++ [EClientTimeout 0%nat].

(** two requests that are never answered.  When the goroutine of a
    snowflake times out after a client has popped the snowflake and before the
    client sends its offer, no one receives from [offerChannel] any more: in
    every continuation [ClientOffers] stays at its send, which its request
    context does not interrupt.  In the same way, when a client times out
    after [ProxyAnswers] found its snowflake, [ProxyAnswers] stays at its send
    on [answerChannel] in every continuation. *)
Theorem unreceived_sends_block_forever :
  (∃ w t, execs lost_offer start = Ok w ∧ w_clients w !! 0%nat = Some t ∧ ct_pc t = CSend ∧
    ∀ es w', execs es w = Ok w' → w_clients w' !! 0%nat = Some t) ∧
  (∃ w t p, execs lost_answer start = Ok w ∧ w_answers w !! 0%nat = Some t ∧ at_pc t = ASend p ∧
    ∀ es w', execs es w = Ok w' → w_answers w' !! 0%nat = Some t).
Proof.
  split.
  - exists (after lost_offer), (MkClient offer1 (Some 3%nat) CSend). split_and!.
    + vm_compute. reflexivity.
    + vm_compute. reflexivity.
    + done.
    + intros es w' Hes. eapply (blocked_client_forever es _ _ _ _ 3%nat); [|done|vm_compute; reflexivity|done|done|].
      * apply reachable_match, after_reachable.
      * exists (MkWaiter 1 Unrestricted WRemove). split; [vm_compute; reflexivity|done].
  - exists (after lost_answer), (MkAnswer (pp_id poll2) (gs "answer") (ASend 3%nat)), 3%nat. split_and!.
    + vm_compute. reflexivity.
    + vm_compute. reflexivity.
    + done.
    + intros es w' Hes. eapply (blocked_answer_forever es _ _ _ _ 3%nat); [|done|vm_compute; reflexivity|done|].
      * apply reachable_match, after_reachable.
      * exists 0%nat, (MkClient offer1 (Some 3%nat) (CDelete TimedOut)), TimedOut.
        split_and!; [vm_compute; reflexivity|done|by left].
Qed.

End Broker.
