(* ===== verification/Metrics.v ===== *)
(** * The broker's statistics (src/broker/metrics.go)

    Counters in maps from names to unsigned 64-bit integers, the addresses of
    proxies that were seen, counts by country, and the report that is written to
    the log and starts a new interval.  The geoip database is a function from the
    text of an address to a country; the Prometheus counters are not modelled. *)
From stdpp Require Import base tactics numbers list strings gmap sorting.
From Stdlib Require Import ZArith Lia.
From S2P Require Import Prelude Json Messages.
Import Json Messages.
Open Scope Z_scope.

Module Metrics.

(** ** State *)

Abbreviation counters := (gmap gostring Z).

Record Metrics := MkMetrics {
  m_geoipdb : option (gostring → option gostring);
  m_ips : gset gostring;
  m_counters : counters;
  m_proxies : counters;
  m_clientHTTPPolls : counters;
  m_clientAMPPolls : counters;
  m_clientSQSPolls : counters
}.

Definition NewMetrics : Metrics := MkMetrics None ∅ ∅ ∅ ∅ ∅ ∅.

(** ** Counting *)

Definition incrementMapCounter (key : gostring) (c : counters) : counters :=
  match c !! key with
  | None => <[key := 1]> c
  | Some v => <[key := u64 (v + 1)]> c
  end.

Definition set_ips v m := MkMetrics (m_geoipdb m) v (m_counters m) (m_proxies m) (m_clientHTTPPolls m) (m_clientAMPPolls m) (m_clientSQSPolls m).
Definition set_counters v m := MkMetrics (m_geoipdb m) (m_ips m) v (m_proxies m) (m_clientHTTPPolls m) (m_clientAMPPolls m) (m_clientSQSPolls m).
Definition set_proxies v m := MkMetrics (m_geoipdb m) (m_ips m) (m_counters m) v (m_clientHTTPPolls m) (m_clientAMPPolls m) (m_clientSQSPolls m).
Definition set_http v m := MkMetrics (m_geoipdb m) (m_ips m) (m_counters m) (m_proxies m) v (m_clientAMPPolls m) (m_clientSQSPolls m).
Definition set_amp v m := MkMetrics (m_geoipdb m) (m_ips m) (m_counters m) (m_proxies m) (m_clientHTTPPolls m) v (m_clientSQSPolls m).
Definition set_sqs v m := MkMetrics (m_geoipdb m) (m_ips m) (m_counters m) (m_proxies m) (m_clientHTTPPolls m) (m_clientAMPPolls m) v.

Definition IncrementCounter (key : gostring) (m : Metrics) : Metrics := set_counters (incrementMapCounter key (m_counters m)) m.

(** LoadOrStore on the addresses: the body is run for a key that is new. *)
Definition once (key : gostring) (body : Metrics → Metrics) (m : Metrics) : Metrics :=
  if decide (key ∈ m_ips m) then m else body (set_ips ({[key]} ∪ m_ips m) m).

Definition nat_counter (natType : gostring) : gostring :=
  if bool_decide (natType = NATRestricted) then gs "proxy-nat-restricted" else
  if bool_decide (natType = NATUnrestricted) then gs "proxy-nat-unrestricted" else gs "proxy-nat-unknown".

Definition proxy_counter (proxyType : gostring) : gostring := gs "proxy-" ++ proxyType.

Definition UpdateProxyStats (addr proxyType natType : gostring) (m : Metrics) : Metrics :=
  match m_geoipdb m with
  | None => m
  | Some db =>
      let country := default (gs "??") (db addr) in
      let m := once addr (λ m, let m := IncrementCounter (gs "proxy-total") m in set_proxies (incrementMapCounter country (m_proxies m)) m) m in
      let m := once (addr ++ gs "-" ++ natType) (IncrementCounter (nat_counter natType)) m in
      once (addr ++ gs "-" ++ proxyType)
        (λ m, if bool_decide (proxyType ≠ ProxyUnknown) then IncrementCounter (proxy_counter proxyType) m else m) m
  end.

Inductive status := Denied | Matched | Timeout.

Definition count_status (natType : gostring) (s : status) (m : Metrics) : Metrics :=
  match s with
  | Denied =>
      let m := IncrementCounter (gs "client-denied") m in
      if bool_decide (natType = NATUnrestricted) then IncrementCounter (gs "client-unrestricted-denied") m
      else IncrementCounter (gs "client-restricted-denied") m
  | Matched => IncrementCounter (gs "client-match") m
  | Timeout => IncrementCounter (gs "client-timeout") m
  end.

Definition UpdateClientStats (addr : gostring) (rendezvousMethod : RendezvousMethod) (natType : gostring) (s : status) (m : Metrics) : Metrics :=
  let country := default (gs "??") (db ← m_geoipdb m; db addr) in
  let m := count_status natType s m in
  match rendezvousMethod with
  | RendezvousHttp => let m := IncrementCounter (gs "client-http") m in set_http (incrementMapCounter country (m_clientHTTPPolls m)) m
  | RendezvousAmpCache => let m := IncrementCounter (gs "client-amp") m in set_amp (incrementMapCounter country (m_clientAMPPolls m)) m
  | RendezvousSqs => let m := IncrementCounter (gs "client-sqs") m in set_sqs (incrementMapCounter country (m_clientSQSPolls m)) m
  | RendezvousNone => m
  end.

(** The sets that an address is added to, when there is a writer for them. *)
Definition RecordIPAddress (restricted : bool) (proxyType : gostring) : list gostring :=
  [if restricted then gs "restricted" else gs "unrestricted";
   if bool_decide (proxyType = gs "standalone") then gs "standalone" else
   if bool_decide (proxyType = gs "badge") || bool_decide (proxyType = gs "webext") then gs "browser" else
   if bool_decide (proxyType = gs "iptproxy") then gs "mobile" else gs "unknown"].

(** ** Reporting *)

Definition binCount (count : Z) : Z := u64 (u64 (count + 7) / 8 * 8).

Record country_record := MkRecord { r_cc : gostring; r_count : Z }.

#[export] Instance country_record_eq_dec : EqDecision country_record.
Proof. solve_decision. Defined.

(** Strings are compared byte by byte. *)
Fixpoint string_ltb (s t : gostring) : bool :=
  match s, t with
  | _, [] => false
  | [], _ :: _ => true
  | a :: s, b :: t => (a <? b) || ((a =? b) && string_ltb s t)
  end.

Definition Less (r s : country_record) : bool :=
  (r_count s <? r_count r) || ((r_count r =? r_count s) && string_ltb (r_cc r) (r_cc s)).

(** The order of a slice that is sorted: no element is less than one before it. *)
Definition sorted_before (r s : country_record) : Prop := Less s r = false.

#[export] Instance sorted_before_dec : RelDecision sorted_before.
Proof. intros r s. unfold sorted_before. apply _. Defined.

Definition country_records (binned : bool) (entries : list (gostring * Z)) : list country_record :=
  (λ e, MkRecord e.1 (if binned then binCount e.2 else e.2)) <$> entries.

Definition format_records (rs : list country_record) : gostring :=
  commas ((λ r, r_cc r ++ gs "=" ++ format_int (r_count r)) <$> rs).

(** The text; the map is cleared. *)
Definition formatAndClearCountryStats (m : counters) (binned : bool) : gostring * counters :=
  (format_records (merge_sort sorted_before (country_records binned (map_to_list m))), ∅).

Definition loadAndZero (key : gostring) (m : Metrics) : Z * Metrics :=
  (default 0 (m_counters m !! key), set_counters (delete key (m_counters m)) m).

(** A line with a counter; [binned] rounds it. *)
Definition counter_line (name key : gostring) (binned : bool) (st : list gostring * Metrics) : list gostring * Metrics :=
  let '(lines, m) := st in
  let '(v, m) := loadAndZero key m in
  (lines ++ [name ++ gs " " ++ format_int (if binned then binCount v else v)], m).

Definition country_line (name : gostring) (get : Metrics → counters) (set : counters → Metrics → Metrics) (binned : bool) (st : list gostring * Metrics)
    : list gostring * Metrics :=
  let '(lines, m) := st in
  let '(s, c) := formatAndClearCountryStats (get m) binned in
  (lines ++ [name ++ gs " " ++ s], set c m).

(** The lines of a report: [now] is the time, [types] the order in which the map
    of the known types is walked. *)
Definition printMetrics (now : gostring) (types : list gostring) (m : Metrics) : list gostring * Metrics :=
  let st := ([gs "snowflake-stats-end " ++ now ++ gs " (86400 s)"], m) in
  let st := country_line (gs "snowflake-ips") m_proxies set_proxies false st in
  let st := foldl (λ st t, counter_line (gs "snowflake-ips-" ++ t) (proxy_counter t) false st) st types in
  let st := counter_line (gs "snowflake-ips-total") (gs "proxy-total") false st in
  let st := counter_line (gs "snowflake-idle-count") (gs "proxy-idle") true st in
  let st := counter_line (gs "snowflake-proxy-poll-with-relay-url-count") (gs "proxy-poll-with-relay-url") true st in
  let st := counter_line (gs "snowflake-proxy-poll-without-relay-url-count") (gs "proxy-poll-without-relay-url") true st in
  let st := counter_line (gs "snowflake-proxy-rejected-for-relay-url-count") (gs "proxy-poll-rejected-relay-url") true st in
  let st := counter_line (gs "client-denied-count") (gs "client-denied") true st in
  let st := counter_line (gs "client-restricted-denied-count") (gs "client-restricted-denied") true st in
  let st := counter_line (gs "client-unrestricted-denied-count") (gs "client-unrestricted-denied") true st in
  let st := counter_line (gs "client-snowflake-match-count") (gs "client-match") true st in
  let st := counter_line (gs "client-snowflake-timeout-count") (gs "client-timeout") true st in
  let st := counter_line (gs "client-http-count") (gs "client-http") true st in
  let st := country_line (gs "client-http-ips") m_clientHTTPPolls set_http true st in
  let st := counter_line (gs "client-ampcache-count") (gs "client-amp") true st in
  let st := country_line (gs "client-ampcache-ips") m_clientAMPPolls set_amp true st in
  let st := counter_line (gs "client-sqs-count") (gs "client-sqs") true st in
  let st := country_line (gs "client-sqs-ips") m_clientSQSPolls set_sqs true st in
  let st := counter_line (gs "snowflake-ips-nat-restricted") (gs "proxy-nat-restricted") false st in
  let st := counter_line (gs "snowflake-ips-nat-unrestricted") (gs "proxy-nat-unrestricted") false st in
  let st := counter_line (gs "snowflake-ips-nat-unknown") (gs "proxy-nat-unknown") false st in
  let '(lines, m) := st in (lines, set_ips ∅ m).

(** ** The order of countries *)

Lemma string_ltb_irrefl s : string_ltb s s = false.
Proof. induction s as [|c s IH]; [done|]. cbn [string_ltb]. by rewrite Z.ltb_irrefl, Z.eqb_refl, IH. Qed.

Lemma string_ltb_trans s t u : string_ltb s t = true → string_ltb t u = true → string_ltb s u = true.
Proof.
  revert t u. induction s as [|a s IH]; intros [|b t] [|c u]; cbn [string_ltb]; try done.
  rewrite !orb_true_iff, !andb_true_iff, !Z.ltb_lt, !Z.eqb_eq. intros [?|[-> ?]] [?|[-> ?]]; [left; lia|left; lia|left; lia|right; eauto].
Qed.

Lemma string_ltb_total s t : string_ltb s t = true ∨ s = t ∨ string_ltb t s = true.
Proof.
  revert t. induction s as [|a s IH]; intros [|b t]; cbn [string_ltb]; auto. rewrite !orb_true_iff, !andb_true_iff, !Z.ltb_lt, !Z.eqb_eq.
  destruct (Z.lt_trichotomy a b) as [?|[->|?]]; [auto| |auto]. destruct (IH t) as [?|[->|?]]; auto.
Qed.

Lemma sorted_before_spec r s : sorted_before r s ↔ r_count s < r_count r ∨ r_count r = r_count s ∧ (r_cc r = r_cc s ∨ string_ltb (r_cc r) (r_cc s) = true).
Proof.
  assert (string_ltb (r_cc s) (r_cc r) = false ↔ r_cc r = r_cc s ∨ string_ltb (r_cc r) (r_cc s) = true) as Hs.
  { split.
    - intros E. destruct (string_ltb_total (r_cc r) (r_cc s)) as [?|[?|?]]; [by right|by left|congruence].
    - intros [->|L]; [apply string_ltb_irrefl|]. destruct (string_ltb (r_cc s) (r_cc r)) eqn:E; [|done].
      pose proof (string_ltb_trans _ _ _ L E) as Hc. by rewrite string_ltb_irrefl in Hc. }
  unfold sorted_before, Less. rewrite orb_false_iff, andb_false_iff, Z.ltb_ge, Z.eqb_neq, Hs.
  destruct (Z.lt_trichotomy (r_count s) (r_count r)) as [?|[?|?]]; split; intros; intuition lia.
Qed.

#[export] Instance sorted_before_trans : Transitive sorted_before.
Proof.
  intros r s t. rewrite !sorted_before_spec. intros [?|[E [E1|L1]]] [?|[E' [E2|L2]]]; try (left; lia).
  - right. split; [lia|]. left. congruence.
  - right. split; [lia|]. right. by rewrite E1.
  - right. split; [lia|]. right. by rewrite <- E2.
  - right. split; [lia|]. right. by eapply string_ltb_trans.
Qed.

#[export] Instance sorted_before_total : Total sorted_before.
Proof.
  intros r s. rewrite !sorted_before_spec. destruct (Z.lt_trichotomy (r_count r) (r_count s)) as [?|[?|?]]; [right; left; lia| |left; left; lia].
  destruct (string_ltb_total (r_cc r) (r_cc s)) as [?|[?|?]]; [left; right; auto|left; right; auto|right; right; auto].
Qed.

#[export] Instance sorted_before_antisymm : AntiSymm (=) sorted_before.
Proof.
  intros [c n] [c' n']. rewrite !sorted_before_spec. cbn [r_cc r_count]. intros [?|[-> H1]] [?|[E H2]]; try lia. f_equal.
  destruct H1 as [?|H1]; [done|]. destruct H2 as [?|H2]; [done|]. pose proof (string_ltb_trans _ _ _ H1 H2) as Hc. by rewrite string_ltb_irrefl in Hc.
Qed.

(** ** What a report leaves *)

(** The counters that a report reads, in its order. *)
Definition reported (types : list gostring) : list gostring :=
  (proxy_counter <$> types) ++ (gs <$> ["proxy-total"; "proxy-idle"; "proxy-poll-with-relay-url"; "proxy-poll-without-relay-url";
    "proxy-poll-rejected-relay-url"; "client-denied"; "client-restricted-denied"; "client-unrestricted-denied"; "client-match"; "client-timeout";
    "client-http"; "client-amp"; "client-sqs"; "proxy-nat-restricted"; "proxy-nat-unrestricted"; "proxy-nat-unknown"]%string).

Definition cleared (keys : list gostring) (c : counters) : counters := foldl (λ c k, delete k c) c keys.

Lemma cleared_app ks ks' c : cleared (ks ++ ks') c = cleared ks' (cleared ks c).
Proof. apply foldl_app. Qed.

Lemma type_lines types lines m : ∃ lines',
  foldl (λ st t, counter_line (gs "snowflake-ips-" ++ t) (proxy_counter t) false st) (lines, m) types =
  (lines', set_counters (cleared (proxy_counter <$> types) (m_counters m)) m).
Proof.
  revert lines m. induction types as [|t types IH]; intros lines m; [exists lines; by destruct m|].
  cbn [foldl counter_line loadAndZero]. destruct (IH (lines ++ [(gs "snowflake-ips-" ++ t) ++ gs " " ++ format_int (default 0 (m_counters m !! proxy_counter t))])
    (set_counters (delete (proxy_counter t) (m_counters m)) m)) as [lines' E]. exists lines'. exact E.
Qed.

Lemma printMetrics_state now types m :
  (printMetrics now types m).2 = MkMetrics (m_geoipdb m) ∅ (cleared (reported types) (m_counters m)) ∅ ∅ ∅ ∅.
Proof.
  unfold printMetrics. set (st := country_line (gs "snowflake-ips") _ _ _ _).
  assert (∃ lines, st = (lines, set_proxies ∅ m)) as [lines ->] by (by eexists). cbv zeta.
  destruct (type_lines types lines (set_proxies ∅ m)) as [lines' E]. rewrite E. clear E. unfold reported. rewrite cleared_app. reflexivity.
Qed.

Lemma lookup_cleared k keys c : cleared keys c !! k = if decide (k ∈ keys) then None else c !! k.
Proof.
  revert c. induction keys as [|k' keys IH]; intros c; [by rewrite decide_False by apply not_elem_of_nil|]. cbn [cleared foldl].
  change (foldl _ ?d keys) with (cleared keys d). rewrite IH. destruct (decide (k ∈ keys)) as [Hin|Hin].
  - by rewrite decide_True by (apply elem_of_cons; auto).
  - destruct (decide (k = k')) as [->|Hne]; [rewrite lookup_delete_eq, decide_True by (apply elem_of_cons; auto); done|].
    rewrite lookup_delete_ne by congruence. by rewrite decide_False by (rewrite elem_of_cons; intros [?|?]; done).
Qed.

(** What happens between two reports. *)
Inductive stat_event :=
  | ProxyPolled (addr proxyType natType : gostring)
  | ClientPolled (addr : gostring) (rendezvousMethod : RendezvousMethod) (natType : gostring) (s : status)
  | Idle | WithRelay | WithoutRelay | RejectedRelay.

Definition count_event (m : Metrics) (e : stat_event) : Metrics :=
  match e with
  | ProxyPolled addr t n => UpdateProxyStats addr t n m
  | ClientPolled addr r n s => UpdateClientStats addr r n s m
  | Idle => IncrementCounter (gs "proxy-idle") m
  | WithRelay => IncrementCounter (gs "proxy-poll-with-relay-url") m
  | WithoutRelay => IncrementCounter (gs "proxy-poll-without-relay-url") m
  | RejectedRelay => IncrementCounter (gs "proxy-poll-rejected-relay-url") m
  end.

(** The types of proxies that the decoder of polls lets through. *)
Definition event_ok (e : stat_event) : Prop := match e with ProxyPolled _ t _ => known_type t = true ∨ t = ProxyUnknown | _ => True end.

Definition only_reported (m : Metrics) : Prop := ∀ k, is_Some (m_counters m !! k) → k ∈ reported KnownProxyTypes.

Lemma incremented k m : k ∈ reported KnownProxyTypes → only_reported m → only_reported (IncrementCounter k m).
Proof.
  intros Hk Hm k'. unfold IncrementCounter, incrementMapCounter. cbn [m_counters set_counters]. destruct (m_counters m !! k);
    (destruct (decide (k' = k)) as [->|Hne]; [done|rewrite lookup_insert_ne by congruence; apply Hm]).
Qed.

Lemma once_reported k body m : only_reported m → (∀ m', only_reported m' → only_reported (body m')) → only_reported (once k body m).
Proof. intros Hm Hb. unfold once. destruct (decide _); [done|]. by apply Hb. Qed.

Lemma once_geoipdb k body m : (∀ m', m_geoipdb (body m') = m_geoipdb m') → m_geoipdb (once k body m) = m_geoipdb m.
Proof. intros Hb. unfold once. destruct (decide _); [done|]. by rewrite Hb. Qed.

Ltac listed := apply (bool_decide_eq_true_1 (_ ∈ _)); vm_compute; reflexivity.

Lemma count_event_geoipdb m e : m_geoipdb (count_event m e) = m_geoipdb m.
Proof.
  destruct e as [a t n|a r n s| | | |]; cbn [count_event]; [|by unfold UpdateClientStats, count_status; destruct s, r; cbn; repeat case_match|done..].
  unfold UpdateProxyStats. destruct (m_geoipdb m) as [db|] eqn:E; [|done]. rewrite !once_geoipdb; [done|done|done|]. intros m'. by destruct (bool_decide _).
Qed.

Lemma count_event_reported m e : event_ok e → only_reported m → only_reported (count_event m e).
Proof.
  intros He Hm. destruct e as [a t n|a r n s| | | |]; cbn [count_event]; [| |apply incremented; [listed|done]..].
  - unfold UpdateProxyStats. destruct (m_geoipdb m) as [db|]; [|done]. cbn [event_ok] in He. repeat apply once_reported; [done| | |].
    + intros m' Hm'. apply (incremented (gs "proxy-total") m'); [listed|done].
    + intros m' Hm'. apply incremented; [|done]. unfold nat_counter. repeat case_match; listed.
    + intros m' Hm'. destruct (bool_decide_reflect (t ≠ ProxyUnknown)) as [Hne|]; [|done]. apply incremented; [|done]. unfold reported. apply elem_of_app. left.
      apply list_elem_of_fmap_2. destruct He as [Hk|]; [|done]. unfold known_type in Hk. apply existsb_exists in Hk as (k & Hin & ->%bool_decide_eq_true). by apply list_elem_of_In.
  - assert (only_reported (count_status n s m)) as Hs.
    { unfold count_status. destruct s; [destruct (bool_decide _)| |]; repeat (apply incremented; [listed|]); done. }
    unfold UpdateClientStats. cbv zeta. destruct r; [done|..]; intros k Hk.
    + apply (incremented (gs "client-http") _ ltac:(listed) Hs k Hk).
    + apply (incremented (gs "client-amp") _ ltac:(listed) Hs k Hk).
    + apply (incremented (gs "client-sqs") _ ltac:(listed) Hs k Hk).
Qed.

Lemma events_reported evs m : Forall event_ok evs → only_reported m → only_reported (foldl count_event m evs) ∧ m_geoipdb (foldl count_event m evs) = m_geoipdb m.
Proof.
  intros Hev. revert m. induction Hev as [|e evs He _ IH]; intros m Hm; [done|]. cbn [foldl].
  destruct (IH (count_event m e) (count_event_reported m e He Hm)) as [H1 H2]. split; [done|]. by rewrite H2, count_event_geoipdb.
Qed.

(** ** Properties *)

(** a count that is published is rounded up to a multiple of eight, and is
    0 exactly when it was, or when the rounding leaves the 64 bits. *)
Theorem binCount_bounds (count : Z) : is_u64 count →
  binCount count mod 8 = 0 ∧ is_u64 (binCount count) ∧
  (count ≤ 2 ^ 64 - 8 → count ≤ binCount count < count + 8) ∧ (2 ^ 64 - 8 < count → binCount count = 0).
Proof.
  unfold is_u64, binCount, u64. intros Hc. destruct (Z_le_gt_dec count (2 ^ 64 - 8)) as [Hs|Hb].
  - rewrite (Z.mod_small (count + 7)) by lia. pose proof (Z.div_mod (count + 7) 8 ltac:(lia)). pose proof (Z.mod_pos_bound (count + 7) 8 ltac:(lia)).
    rewrite (Z.mod_small (_ / 8 * 8)) by lia. rewrite Z.mod_mul by lia. split_and!; lia.
  - assert ((count + 7) mod 2 ^ 64 = count + 7 - 2 ^ 64) as ->. { symmetry. apply Z.mod_unique with 1; lia. }
    replace ((count + 7 - 2 ^ 64) / 8) with 0 by (symmetry; apply Z.div_small; lia). split_and!; done || lia.
Qed.

Lemma binCount_bounds_witness : binCount 17 mod 8 = 0 ∧ is_u64 (binCount 17) ∧ (17 ≤ 2 ^ 64 - 8 → 17 ≤ binCount 17 < 17 + 8) ∧ (2 ^ 64 - 8 < 17 → binCount 17 = 0).
Proof. apply binCount_bounds. unfold is_u64. lia. Defined.

(** the text of the counts by country does not depend on the order in which
    the map is walked, nor on how the records are sorted: any permutation of the
    records that is sorted by [Less] gives the text of the reference definition. *)
Theorem country_stats_determined (m : counters) (binned : bool) (entries : list (gostring * Z)) (rs : list country_record) :
  entries ≡ₚ map_to_list m → rs ≡ₚ country_records binned entries → Sorted sorted_before rs →
  format_records rs = (formatAndClearCountryStats m binned).1.
Proof.
  intros He Hr Hs. cbn [formatAndClearCountryStats fst]. f_equal. apply (Sorted_unique sorted_before); [done|apply (Sorted_merge_sort sorted_before)|].
  rewrite merge_sort_Permutation, Hr. unfold country_records. by rewrite He.
Qed.

Definition demo_counts : counters := <[gs "DE" := 3]> (<[gs "US" := 9]> (<[gs "AT" := 3]> ∅)).

Lemma country_stats_determined_witness :
  format_records [MkRecord (gs "US") 9; MkRecord (gs "AT") 3; MkRecord (gs "DE") 3] = (formatAndClearCountryStats demo_counts false).1.
Proof.
  apply (country_stats_determined demo_counts false (map_to_list demo_counts)); [reflexivity| |repeat constructor; vm_compute; reflexivity].
  rewrite <- (merge_sort_Permutation sorted_before (country_records false (map_to_list demo_counts))). vm_compute. reflexivity.
Defined.

(** every report covers its own interval.  Whatever polls of proxies and
    clients were counted since the start, a report reads all of the counters that
    can have been incremented, and leaves the statistics as they are in the
    beginning, with the same geoip database. *)
Theorem report_starts_afresh (db : option (gostring → option gostring)) (evs : list stat_event) (now : gostring) (types : list gostring) :
  Forall event_ok evs → types ≡ₚ KnownProxyTypes →
  (printMetrics now types (foldl count_event (MkMetrics db ∅ ∅ ∅ ∅ ∅ ∅) evs)).2 = MkMetrics db ∅ ∅ ∅ ∅ ∅ ∅.
Proof.
  intros Hev Ht. rewrite printMetrics_state. destruct (events_reported evs (MkMetrics db ∅ ∅ ∅ ∅ ∅ ∅) Hev) as [Hr Hg].
  { intros k. cbn. rewrite lookup_empty. by intros []. }
  rewrite Hg. f_equal. apply map_eq. intros k. rewrite lookup_cleared, lookup_empty. destruct (decide _) as [|Hn]; [done|].
  destruct (m_counters _ !! k) eqn:E; [|done]. exfalso. apply Hn. assert (reported types ≡ₚ reported KnownProxyTypes) as -> by (unfold reported; by rewrite Ht). by apply Hr.
Qed.

Lemma report_starts_afresh_witness :
  (printMetrics (gs "now") KnownProxyTypes (foldl count_event NewMetrics [ProxyPolled (gs "192.0.2.1") (gs "webext") NATUnknown; Idle])).2 = NewMetrics.
Proof. apply (report_starts_afresh None); [repeat constructor; left; reflexivity|reflexivity]. Defined.

(** The fields after updates. *)
Ltac projections := cbv beta iota delta [set_ips set_counters set_proxies IncrementCounter m_geoipdb m_ips m_counters m_proxies
  m_clientHTTPPolls m_clientAMPPolls m_clientSQSPolls].

(** unique addresses are undercounted: the keys for a NAT type and for a type
    of proxy are not distinct.  A proxy of unknown type that has polled once with
    a restricted NAT is not counted as a proxy with an unknown NAT when it polls
    as such. *)
Theorem unknown_nat_undercounted (db : gostring → option gostring) (addr : gostring) :
  let m := MkMetrics (Some db) ∅ ∅ ∅ ∅ ∅ ∅ in
  m_counters (UpdateProxyStats addr ProxyUnknown NATUnknown (UpdateProxyStats addr ProxyUnknown NATRestricted m)) !! gs "proxy-nat-unknown" = None ∧
  m_counters (UpdateProxyStats addr ProxyUnknown NATUnknown m) !! gs "proxy-nat-unknown" = Some 1.
Proof.
  assert (∀ k body m, k ∉ m_ips m → once k body m = body (set_ips ({[k]} ∪ m_ips m) m)) as Hnew by (intros k body m Hk; unfold once; by rewrite decide_False).
  assert (∀ k body m, k ∈ m_ips m → once k body m = m) as Hold by (intros k body m Hk; unfold once; by rewrite decide_True).
  assert (∀ t u : gostring, addr ++ t = addr ++ u → t = u) as Hinj by (intros t u; apply (inj (app addr))).
  assert (∀ t, addr ≠ addr ++ gs "-" ++ t) as Hne by (intros t E; apply (f_equal length) in E; rewrite !length_app in E; cbn in E; lia).
  assert (addr ++ gs "-" ++ NATUnknown ≠ addr ++ gs "-" ++ NATRestricted) as Hnn by (by intros E%Hinj).
  change ProxyUnknown with NATUnknown. cbv zeta. unfold UpdateProxyStats. cbn [m_geoipdb].
  rewrite !(Hnew addr) by (cbn; rewrite elem_of_empty; tauto). projections.
  rewrite (Hnew (addr ++ gs "-" ++ NATRestricted)) by (projections; rewrite elem_of_union, elem_of_singleton, elem_of_empty; intros [E|[]]; by eapply Hne).
  split; projections.
  - rewrite (Hnew (addr ++ gs "-" ++ NATUnknown)) by (projections; rewrite !elem_of_union, !elem_of_singleton, elem_of_empty; intros [E|[E|[]]]; [done|by eapply Hne]).
    rewrite (bool_decide_eq_false_2 (NATUnknown ≠ NATUnknown)) by (intros Hx; by apply Hx). projections.
    rewrite (Hold addr) by (projections; rewrite !elem_of_union, !elem_of_singleton; tauto).
    rewrite (Hold (addr ++ gs "-" ++ NATUnknown) (IncrementCounter (nat_counter NATUnknown))) by (projections; rewrite !elem_of_union, !elem_of_singleton; tauto).
    rewrite (Hold (addr ++ gs "-" ++ NATUnknown)) by (projections; rewrite !elem_of_union, !elem_of_singleton; tauto). vm_compute. reflexivity.
  - rewrite (Hnew (addr ++ gs "-" ++ NATUnknown) (IncrementCounter (nat_counter NATUnknown)))
      by (projections; rewrite !elem_of_union, !elem_of_singleton, elem_of_empty; intros [E|[]]; by eapply Hne).
    rewrite (Hold (addr ++ gs "-" ++ NATUnknown)) by (projections; rewrite !elem_of_union, !elem_of_singleton; tauto). vm_compute. reflexivity.
Qed.

End Metrics.
