(* ===== verification/BrokerIpc.v ===== *)
(** * The broker's requests (src/broker/bridge-list.go, ipc.go, http.go, broker.go)

    The list of bridges, the handlers of the three kinds of requests, and their
    HTTP endpoints.  A handler that waits for another party is split where it
    waits: what is behind a [_start] function runs before the goroutine enters
    the matching of [Broker], what is behind [_finish] after it has left. *)
From stdpp Require Import base tactics numbers list strings gmap.
From Stdlib Require Import ZArith Lia.
From S2P Require Import Prelude Json Messages GoHeap SnowflakeHeap Broker Metrics.
Import Json Fingerprint NameMatcher SessionDescription Messages.
Import Broker (ProxyPoll, MkProxyPoll, pp_id, pp_natType, ClientOffer, MkClientOffer, co_natType, co_sdp, co_fingerprint, client_result, Answered, TimedOut).
Import SnowflakeHeap (Snowflake, sf_proxyType, sf_natType, SnowflakePool, SetPollInterval).
Import Metrics (Metrics, IncrementCounter, UpdateProxyStats, UpdateClientStats, RecordIPAddress).
Open Scope Z_scope.

(** ** The list of bridges *)

Module BridgeList.

Record BridgeInfo := MkBridgeInfo { DisplayName : gostring; WebSocketAddress : gostring; bi_Fingerprint : gostring }.

Definition BridgeInfo_fields : list (field BridgeInfo) :=
  [string_field (gs "displayName") (λ v r, MkBridgeInfo v (WebSocketAddress r) (bi_Fingerprint r));
   string_field (gs "webSocketAddress") (λ v r, MkBridgeInfo (DisplayName r) v (bi_Fingerprint r));
   string_field (gs "fingerprint") (λ v r, MkBridgeInfo (DisplayName r) (WebSocketAddress r) v)].

Abbreviation bridgeListHolder := (gmap (list Z) BridgeInfo).

Definition NewBridgeListHolder : bridgeListHolder := ∅.

Definition ErrBridgeNotFound : error := errorf "bridge with requested fingerprint is unknown to the broker".

Definition GetBridgeInfo (h : bridgeListHolder) (fingerprint : list Z) : res error BridgeInfo :=
  match h !! fingerprint with Some i => Ok i | None => Err ErrBridgeNotFound end.

(** bufio.Scanner with its buffer of at most 65536 bytes: the lines, and whether
    it stopped at a line that is too long. *)
Definition MaxScanTokenSize : Z := 64 * 1024.

Definition drop_cr (line : bytes) : bytes := TrimSuffix line [13].

Fixpoint scan_lines (fuel : nat) (data : bytes) : list bytes * bool :=
  match fuel, data with
  | S fuel, _ :: _ =>
      match split2 10 data with
      | (line, Some rest) =>
          if MaxScanTokenSize <? len line + 1 then ([], true)
          else let '(ls, e) := scan_lines fuel rest in (drop_cr line :: ls, e)
      | (line, None) => if MaxScanTokenSize <=? len line then ([], true) else ([drop_cr line], false)
      end
  | _, _ => ([], false)
  end.

Definition ErrTooLong : error := errorf "bufio.Scanner: token too long".

Section load.
Context `{ErrorTexts}.

Definition decode_bridge (line : bytes) : res error (list Z * BridgeInfo) :=
  match Decode true BridgeInfo_fields line (MkBridgeInfo [] [] []) with
  | None => Err (MkError (json_error line))
  | Some info => f ← FingerprintFromHexString (bi_Fingerprint info); Ok (f, info)
  end.

Fixpoint load_lines (lines : list bytes) (h : bridgeListHolder) : res error bridgeListHolder :=
  match lines with
  | [] => Ok h
  | line :: lines => '(f, info) ← decode_bridge line; load_lines lines (<[f := info]> h)
  end.

(** The list that replaces the holder's. *)
Definition read_bridges (data : bytes) : res error bridgeListHolder :=
  let '(lines, tooLong) := scan_lines (length data) data in
  h ← load_lines lines ∅;
  if tooLong then Err ErrTooLong else Ok h.

(** The holder is assigned to at the end, when there was no error. *)
Definition LoadBridgeInfo (data : bytes) (h : bridgeListHolder) : bridgeListHolder * res error () :=
  match read_bridges data with
  | Ok h' => (h', Ok ())
  | Err e => (h, Err e)
  | Panic => (h, Panic)
  end.

(** The list NewBrokerContext starts with; its error is ignored. *)
Definition quote : list Z := [34].
Definition member (name value : list Z) : list Z := quote ++ name ++ quote ++ [58] ++ quote ++ value ++ quote.
Definition DefaultBridges : bytes :=
  gs "{" ++ member (gs "displayName") (gs "default") ++ gs ", " ++ member (gs "webSocketAddress") (gs "wss://snowflake.torproject.net/") ++ gs ", " ++
  member (gs "fingerprint") (gs "2B280B23E1107BB62ABFC40DDCC8824814F80A72") ++ gs "}" ++ [10].

Definition default_bridges : bridgeListHolder := (LoadBridgeInfo DefaultBridges NewBridgeListHolder).1.

End load.
End BridgeList.

(** ** The handlers (ipc.go) *)

Module IPC.
Import BridgeList.

Definition MaxPollInterval : Z := 3600 * 1000000000.
Definition Milliseconds (d : Z) : Z := Z.quot d 1000000.

(** A request that is answered at once, or that waits for another party. *)
Inductive started (A : Type) := Panics | Failed (e : error) | Replied (response : bytes) | Waits (a : A).
Arguments Panics {A}.
Arguments Failed {A}.
Arguments Replied {A}.
Arguments Waits {A}.

Section ipc.
Context `{ErrorTexts}.

(** broker.go *)
Definition CheckProxyRelayPattern (allowedRelayPattern : gostring) (pattern : option gostring) : bool :=
  match pattern with
  | None => false
  | Some pattern => IsSupersetOf (NewNameMatcher pattern) (NewNameMatcher allowedRelayPattern)
  end.

(** The poll, and the sets that the address of the proxy is added to. *)
Definition ProxyPolls_start (allowedRelayPattern body remoteAddr : gostring) (m : Metrics) : started (ProxyPoll * list gostring) * Metrics :=
  match DecodeProxyPollRequest body with
  | Panic => (Panics, m)
  | Err _ => (Failed ErrBadRequest, m)
  | Ok req =>
      let m := match pq_AcceptedRelayPattern req with
               | None => IncrementCounter (gs "proxy-poll-without-relay-url") m
               | Some _ => IncrementCounter (gs "proxy-poll-with-relay-url") m
               end in
      if negb (CheckProxyRelayPattern allowedRelayPattern (pq_AcceptedRelayPattern req)) then
        (Replied (ProxyPollResponse_Encode (MkProxyPollResponse (gs "incorrect relay pattern") [] [] (Milliseconds MaxPollInterval) [])),
         IncrementCounter (gs "proxy-poll-rejected-relay-url") m)
      else
        (Waits (MkProxyPoll (pq_Sid req) (pq_Type req) (pq_NAT req) (pq_Clients req),
                RecordIPAddress (bool_decide (pq_NAT req = NATUnrestricted)) (pq_Type req)),
         UpdateProxyStats remoteAddr (pq_Type req) (pq_NAT req) m)
  end.

(** [pollInterval] is that of the pool of the poll. *)
Definition ProxyPolls_finish (bridges : bridgeListHolder) (pollInterval : Z) (offer : option ClientOffer) (m : Metrics) : res error bytes * Metrics :=
  let next := Milliseconds pollInterval in
  match offer with
  | None => (Ok (ProxyPollResponse_Encode (MkProxyPollResponse ProxyClientNoMatch [] [] next [])), IncrementCounter (gs "proxy-idle") m)
  | Some o =>
      (match FingerprintFromBytes (co_fingerprint o) with
       | Ok f => info ← GetBridgeInfo bridges f;
                 Ok (ProxyPollResponse_Encode (MkProxyPollResponse ProxyClientMatch (co_sdp o) (co_natType o) next (WebSocketAddress info)))
       | Err _ => Err ErrBadRequest
       | Panic => Panic
       end, m)
  end.

Definition client_error (e : error) : bytes := EncodeClientPollResponse (MkClientPollResponse [] (Error e)).

Definition ClientOffers_start (bridges : bridgeListHolder) (body : bytes) : started ClientOffer :=
  match DecodeClientPollRequest body with
  | Err e => Replied (client_error e)
  | Panic => Panics
  | Ok req =>
      match hex_DecodeString (cq_Fingerprint req) with
      | None => Replied (client_error (MkError (hex_error (cq_Fingerprint req))))
      | Some fingerprint =>
          match FingerprintFromBytes fingerprint with
          | Ok f =>
              match GetBridgeInfo bridges f with
              | Ok _ => Waits (MkClientOffer (cq_NAT req) (cq_Offer req) (ToBytes f))
              | Err e => Replied (client_error e)
              | Panic => Panics
              end
          | Err e => Replied (client_error e)
          | Panic => Panics
          end
      end
  end.

Definition ClientOffers_finish (remoteAddr : gostring) (r : RendezvousMethod) (natType : gostring) (result : client_result) (m : Metrics) : bytes * Metrics :=
  match result with
  | Broker.Denied => (EncodeClientPollResponse (MkClientPollResponse [] StrNoProxies), UpdateClientStats remoteAddr r natType Metrics.Denied m)
  | Answered answer => (EncodeClientPollResponse (MkClientPollResponse answer []), UpdateClientStats remoteAddr r natType Metrics.Matched m)
  | TimedOut => (EncodeClientPollResponse (MkClientPollResponse [] StrTimedOut), UpdateClientStats remoteAddr r natType Metrics.Timeout m)
  end.

(** The identifier and the answer. *)
Definition ProxyAnswers_start (body : bytes) : started (gostring * gostring) :=
  match DecodeProxyAnswerRequest body with
  | Ok req => if bool_decide (aq_Answer req = []) then Failed ErrBadRequest else Waits (aq_Sid req, aq_Answer req)
  | Err _ => Failed ErrBadRequest
  | Panic => Panics
  end.

Definition ProxyAnswers_finish (success : bool) : bytes := EncodeAnswerResponse success.

(** The entries of idToSnowflake that [f] holds of. *)
Definition count_snowflakes (f : Snowflake → bool) (snowflakes : list Snowflake) : Z := len (filter (λ s, Is_true (f s)) snowflakes).

(** The page for the snowflakes of idToSnowflake; [order] is the order in which
    the keys of the map of types come. *)
Definition Debug (snowflakes : list Snowflake) (order : list gostring) : gostring :=
  let line (name : gostring) (f : Snowflake → bool) := name ++ format_int (count_snowflakes f snowflakes) in
  let isNat (t : gostring) (s : Snowflake) := bool_decide (sf_natType s = t) in
  gs "current snowflakes available: " ++ format_int (len snowflakes) ++ [10] ++
  concat (map (λ t, [9] ++ line (t ++ gs " proxies: ") (λ s, bool_decide (sf_proxyType s = t)) ++ [10]) order) ++
  [9] ++ line (gs "unknown proxies: ") (λ s, negb (known_type (sf_proxyType s))) ++
  [10] ++ gs "NAT Types available:" ++
  [10; 9] ++ line (gs "restricted: ") (isNat NATRestricted) ++
  [10; 9] ++ line (gs "unrestricted: ") (isNat NATUnrestricted) ++
  [10; 9] ++ line (gs "unknown: ") (λ s, negb (isNat NATRestricted s || isNat NATUnrestricted s)).

Record pollIntervalConfig := MkPollIntervalConfig { UnrestrictedPollInterval : Z; RestrictedPollInterval : Z }.

Definition pollIntervalConfig_fields : list (field pollIntervalConfig) :=
  [int64_field (gs "unrestricted_poll_interval") (λ v r, MkPollIntervalConfig v (RestrictedPollInterval r));
   int64_field (gs "restricted_poll_interval") (λ v r, MkPollIntervalConfig (UnrestrictedPollInterval r) v)].

(** The two pools with the intervals of the file, if it can be read. *)
Definition LoadPollIntervalFromFile (file : res error bytes) (unrestrictedPool restrictedPool : SnowflakePool) : res error (SnowflakePool * SnowflakePool) :=
  str ← file;
  config ← unmarshal pollIntervalConfig_fields str (MkPollIntervalConfig 0 0);
  Ok (SetPollInterval unrestrictedPool (i64 (UnrestrictedPollInterval config * 1000000)),
      SetPollInterval restrictedPool (i64 (RestrictedPollInterval config * 1000000))).

End ipc.
End IPC.

(** ** The endpoints (http.go) *)

Module HTTP.
Import BridgeList IPC.

Record response := MkResponse { status : Z; body : bytes }.

Definition StatusOK : Z := 200.
Definition StatusBadRequest : Z := 400.
Definition StatusInternalServerError : Z := 500.
Definition StatusServiceUnavailable : Z := 503.
Definition StatusGatewayTimeout : Z := 504.

Definition readLimit : Z := 100000.

(** io.ReadAll of a http.MaxBytesReader; a body that cannot be read is [None]. *)
Definition read_body (b : option bytes) : option bytes := b ← b; if len b <=? readLimit then Some b else None.

(** SnowflakeHandler.ServeHTTP: what is not a CORS preflight goes to the handler,
    the preflight gets the empty response of net/http. *)
Definition ServeHTTP {A} (method : gostring) (handle : res error response + A) : res error response + A :=
  if bool_decide (method = gs "OPTIONS") then inl (Ok (MkResponse StatusOK [])) else handle.

(** The response for the result of a handler. *)
Definition of_result (r : res error bytes) : res error response :=
  match r with
  | Ok b => Ok (MkResponse StatusOK b)
  | Err e => if decide (e = ErrBadRequest) then Ok (MkResponse StatusBadRequest []) else Ok (MkResponse StatusInternalServerError [])
  | Panic => Panic
  end.

Definition of_started {A} (s : started A) : res error response + A :=
  match s with
  | Panics => inl Panic
  | Failed e => inl (of_result (Err e))
  | Replied b => inl (of_result (Ok b))
  | Waits a => inr a
  end.

Section http.
Context `{ErrorTexts}.

Definition proxyPolls_start (allowedRelayPattern : gostring) (reqBody : option bytes) (remoteAddr : gostring) (m : Metrics) : (res error response + ProxyPoll * list gostring) * Metrics :=
  match read_body reqBody with
  | None => (inl (Ok (MkResponse StatusBadRequest [])), m)
  | Some b => let '(s, m) := ProxyPolls_start allowedRelayPattern b remoteAddr m in (of_started s, m)
  end.

Definition proxyPolls_finish (bridges : bridgeListHolder) (pollInterval : Z) (offer : option ClientOffer) (m : Metrics) : res error response * Metrics :=
  let '(r, m) := ProxyPolls_finish bridges pollInterval offer m in (of_result r, m).

(** The end of clientOffers: legacy clients get status codes. *)
Definition legacy_response (isLegacy : bool) (response : bytes) : res error HTTP.response :=
  if negb isLegacy then Ok (MkResponse StatusOK response) else
  match DecodeClientPollResponse response with
  | Ok resp =>
      if bool_decide (cr_Error resp = []) then Ok (MkResponse StatusOK (cr_Answer resp)) else
      if bool_decide (cr_Error resp = StrNoProxies) then Ok (MkResponse StatusServiceUnavailable []) else
      if bool_decide (cr_Error resp = StrTimedOut) then Ok (MkResponse StatusGatewayTimeout []) else Panic
  | Err _ => Ok (MkResponse StatusInternalServerError [])
  | Panic => Panic
  end.

Definition isLegacy (b : bytes) : bool := match b with 123 :: _ => true | _ => false end.

(** What is given to [IPC.ClientOffers]. *)
Definition client_body (b natHeader : bytes) : bytes :=
  if isLegacy b then (EncodeClientPollRequest (MkClientPollRequest b natHeader [])).1 else b.

(** The offer, with the format of the client. *)
Definition clientOffers_start (bridges : bridgeListHolder) (reqBody : option bytes) (natHeader : gostring) : res error response + bool * ClientOffer :=
  match read_body reqBody with
  | None => inl (Ok (MkResponse StatusBadRequest []))
  | Some b =>
      match ClientOffers_start bridges (client_body b natHeader) with
      | Panics => inl Panic
      | Failed _ => inl (Ok (MkResponse StatusInternalServerError []))
      | Replied r => inl (legacy_response (isLegacy b) r)
      | Waits o => inr (isLegacy b, o)
      end
  end.

Definition clientOffers_finish (legacy : bool) (remoteAddr : gostring) (natType : gostring) (result : client_result) (m : Metrics) : res error response * Metrics :=
  let '(b, m) := ClientOffers_finish remoteAddr RendezvousHttp natType result m in (legacy_response legacy b, m).

(** bytes.Contains *)
Fixpoint contains (sub s : bytes) : bool :=
  HasPrefix s sub || match s with [] => false | _ :: t => contains sub t end.

Definition validateSDP (SDP : bytes) : bool := contains (gs "a=candidate") SDP.

Definition proxyAnswers_start (reqBody : option bytes) : res error response + gostring * gostring :=
  match read_body reqBody with
  | None => inl (Ok (MkResponse StatusBadRequest []))
  | Some b => if negb (validateSDP b) then inl (Ok (MkResponse StatusBadRequest [])) else of_started (ProxyAnswers_start b)
  end.

Definition proxyAnswers_finish (success : bool) : res error response := of_result (Ok (ProxyAnswers_finish success)).

Definition robotsTxtHandler : response := MkResponse StatusOK (gs "User-agent: *" ++ [10] ++ gs "Disallow: /" ++ [10]).

End http.
End HTTP.

(** ** Lemmas *)

Module Rendezvous.
Import BridgeList IPC HTTP.

Lemma string_keeps {R} (P : R → Prop) name set : (∀ s r, utf8 s → P r → P (set s r)) → keeps P (string_field name set).
Proof. intros Hs v r r' Hv Hr. destruct v; cbn in *; try done; intros [= <-]; auto. Qed.

Section lemmas.
Context `{ErrorTexts}.

Lemma unmarshal_keeps {R} (P : R → Prop) fields data zero r : Forall (keeps P) fields → P zero → unmarshal fields data zero = Ok r → P r.
Proof. intros Hf Hz. unfold unmarshal. destruct (Unmarshal fields data zero) eqn:E; [|done]. intros [= <-]. by eapply Unmarshal_keeps. Qed.

Lemma nat_utf8 n n' : check_nat n = Ok n' → utf8 n' ∧ n' ≠ [].
Proof.
  unfold check_nat. case_bool_decide; [intros [= <-]; split; [by apply utf8_ascii, ascii_utf8|done]|]. case_match eqn:X; [|done]. intros [= <-]. split; [|done].
  apply existsb_exists in X as (k & Hk & ->%bool_decide_eq_true). cbn [In] in Hk. by destruct Hk as [<-|[<-|[<-|[]]]]; apply utf8_ascii, ascii_utf8.
Qed.

Lemma client_request_ok body req : DecodeClientPollRequest body = Ok req →
  utf8 (cq_Offer req) ∧ cq_Offer req ≠ [] ∧ utf8 (cq_NAT req) ∧ cq_NAT req ≠ [].
Proof.
  unfold DecodeClientPollRequest. destruct (split2 10 body) as [v [b|]]; [|done]. case_match; [done|].
  intros (m & Hm & E)%bind_Ok_inv. case_bool_decide as Ho; [done|].
  apply bind_Ok_inv in E as (_ & _ & E). apply bind_Ok_inv in E as (_ & _ & E). apply bind_Ok_inv in E as (nat & Hn & [= <-]).
  cbn [cq_Offer cq_NAT]. apply nat_utf8 in Hn. split_and!; [|done|apply Hn..].
  refine (unmarshal_keeps (λ r, utf8 (cq_Offer r)) _ _ _ _ _ _ Hm); [|apply utf8_nil]. repeat constructor; by apply string_keeps.
Qed.

Lemma answer_request_ok body req : DecodeProxyAnswerRequest body = Ok req → utf8 (aq_Answer req) ∧ aq_Answer req ≠ [].
Proof.
  unfold DecodeProxyAnswerRequest. intros (m & Hm & E)%bind_Ok_inv. case_match; [done|]. case_match eqn:X; [done|].
  apply bind_Ok_inv in E as (_ & _ & [= <-]). apply orb_false_iff in X as [_ X%bool_decide_eq_false]. split; [|done].
  refine (unmarshal_keeps (λ r, utf8 (aq_Answer r)) _ _ _ _ _ _ Hm); [|apply utf8_nil]. repeat constructor; by apply string_keeps.
Qed.

(** The records of the lines, in the end the last one with a fingerprint. *)
Definition urls_ok (h : bridgeListHolder) : Prop := map_Forall (λ _ i, utf8 (WebSocketAddress i)) h.

Lemma decode_bridge_utf8 line f i : decode_bridge line = Ok (f, i) → utf8 (WebSocketAddress i).
Proof.
  unfold decode_bridge. destruct (Decode _ _ line _) as [info|] eqn:D; [|done]. intros (f' & _ & [= _ <-])%bind_Ok_inv.
  refine (Decode_keeps (λ r, utf8 (WebSocketAddress r)) _ _ _ _ _ _ _ D); [|apply utf8_nil]. repeat constructor; by apply string_keeps.
Qed.

Lemma load_lines_utf8 lines : ∀ h h', urls_ok h → load_lines lines h = Ok h' → urls_ok h'.
Proof.
  induction lines as [|l lines IH]; intros h h' Hh; cbn [load_lines]; [by intros [= <-]|].
  intros ([f i] & D & E)%bind_Ok_inv. eapply IH; [|exact E]. apply map_Forall_insert_2; [by eapply decode_bridge_utf8|done].
Qed.

Lemma read_bridges_utf8 data h : read_bridges data = Ok h → urls_ok h.
Proof.
  unfold read_bridges. destruct (scan_lines _ data) as [lines tl]. intros (h' & L & E)%bind_Ok_inv. destruct tl; simplify_eq.
  eapply load_lines_utf8; [|exact L]. apply map_Forall_empty.
Qed.

(** The offer that a request gives. *)
Lemma ClientOffers_start_inv bridges body o : ClientOffers_start bridges body = Waits o →
  ∃ req f info, DecodeClientPollRequest body = Ok req ∧ hex_DecodeString (cq_Fingerprint req) = Some f ∧ FingerprintFromBytes f = Ok f ∧
    GetBridgeInfo bridges f = Ok info ∧ o = MkClientOffer (cq_NAT req) (cq_Offer req) f.
Proof.
  unfold ClientOffers_start. intros E. destruct (DecodeClientPollRequest body) as [req| |]; try done.
  destruct (hex_DecodeString _) as [g|] eqn:X; [|done]. destruct (FingerprintFromBytes g) as [f| |] eqn:F; try done.
  assert (g = f) as ->. { revert F. unfold FingerprintFromBytes. destruct (_ && _); [done|]. by intros [= <-]. }
  destruct (GetBridgeInfo bridges f) as [i| |] eqn:G; try done. injection E as <-. eauto 10.
Qed.

Lemma ProxyAnswers_start_inv body sid answer : ProxyAnswers_start body = Waits (sid, answer) →
  ∃ req, DecodeProxyAnswerRequest body = Ok req ∧ aq_Sid req = sid ∧ aq_Answer req = answer ∧ answer ≠ [].
Proof.
  unfold ProxyAnswers_start. destruct (DecodeProxyAnswerRequest body) as [req| |]; try done. case_bool_decide; [done|]. intros [= <- <-]. eauto.
Qed.

End lemmas.

(** ** Rendezvous: the handlers around the matching *)

(** The broker's runs in which what the goroutines work on comes from requests. *)
Section runs.
Context `{ErrorTexts}.
Variables (bridges : bridgeListHolder) (allowedRelayPattern : gostring).

Definition requested (e : Broker.event) : Prop :=
  match e with
  | Broker.EPoll _ poll => ∃ body addr m sets m', ProxyPolls_start allowedRelayPattern body addr m = (Waits (poll, sets), m')
  | Broker.EClient _ offer => ∃ body, ClientOffers_start bridges body = Waits offer
  | Broker.EAnswer _ sid answer => ∃ body, ProxyAnswers_start body = Waits (sid, answer)
  | _ => True
  end.

Inductive served : Broker.world → Prop :=
  | served_init ctx : Broker.NewBrokerContext = Ok ctx → served (Broker.initial ctx)
  | served_step w e w' : served w → requested e → Broker.exec e w = Ok w' → served w'.

Lemma served_reachable w : served w → Broker.reachable w.
Proof. induction 1; [by apply Broker.reachable_init|by eapply Broker.reachable_step]. Qed.

(** Where the offers of the clients and the answers of the proxies come from. *)
Record origins (w : Broker.world) : Prop := {
  or_clients : map_Forall (λ _ t, ∃ body, ClientOffers_start bridges body = Waits (Broker.ct_offer t)) (Broker.w_clients w);
  or_answers : map_Forall (λ _ t, ∃ body, ProxyAnswers_start body = Waits (Broker.at_sid t, Broker.at_answer t)) (Broker.w_answers w)
}.

Lemma exec_origins e w w' : requested e → origins w → Broker.exec e w = Ok w' → origins w'.
Proof.
  intros Hq [Hc Ha] Hx. destruct e; cbn [Broker.exec] in Hx;
    unfold Broker.poll_start, Broker.broker_receive, Broker.broker_push, Broker.broker_register, Broker.client_start, Broker.client_pop, Broker.client_offer,
      Broker.waiter_forward, Broker.waiter_timeout, Broker.waiter_remove, Broker.waiter_delete, Broker.waiter_close, Broker.poll_closed, Broker.answer_start,
      Broker.answer_lookup, Broker.answer_deliver, Broker.client_timeout, Broker.client_delete in Hx; Broker.step_inv Hx;
    try (apply bind_Ok_inv in Hx as ([? ?] & _ & Hx)); try (apply bind_Ok_inv in Hx as (? & _ & Hx));
    injection Hx as <-; split; cbn in *; try done; repeat (apply map_Forall_insert_2; [cbn; eauto|]); try done.
  all: try (by eapply (Hc _ _); eauto); try (by eapply (Ha _ _); eauto).
Qed.

Lemma served_execs es : ∀ w w', Forall requested es → served w → Broker.execs es w = Ok w' → served w'.
Proof.
  induction es as [|e es IH]; intros w w' Hes Hw Hx; [by injection Hx as <-|]. apply Forall_cons in Hes as [He Hes].
  apply bind_Ok_inv in Hx as (w1 & Hx & Hx'). eapply IH; [done| |done]. by eapply served_step.
Qed.

Lemma served_origins w : served w → origins w.
Proof. induction 1; [by split; apply map_Forall_empty|by eapply exec_origins]. Qed.

End runs.

(** A client, a proxy and the broker's default bridge, for the examples. *)
Module Demo.

#[local] Instance texts : ErrorTexts := {| json_error := λ _, gs "invalid character"; hex_error := λ _, gs "invalid byte" |}.

Definition description (kind : list Z) : bytes := gs "{" ++ member (gs "type") kind ++ gs "," ++ member (gs "sdp") (gs "v=0") ++ gs "}".

Definition bridges : bridgeListHolder := Eval vm_compute in default_bridges.

Definition poll_body : bytes := Eval vm_compute in EncodeProxyPollRequestWithRelayPrefix (gs "ymbcCMto7KHNGYlp") (gs "webext") (gs "unrestricted") 8 [].
Definition offer_body : bytes := Eval vm_compute in (EncodeClientPollRequest (MkClientPollRequest (description (gs "offer")) (gs "restricted") [])).1.
Definition answer_body : bytes := Eval vm_compute in EncodeAnswerRequest (description (gs "answer")) (gs "ymbcCMto7KHNGYlp").

Definition poll : ProxyPoll := MkProxyPoll (gs "ymbcCMto7KHNGYlp") (gs "webext") (gs "unrestricted") 8.
Definition offer : ClientOffer := Eval vm_compute in
  match ClientOffers_start bridges offer_body with Waits o => o | _ => MkClientOffer [] [] [] end.

Definition matched : list Broker.event :=
  [Broker.EPoll 0 poll; Broker.ETakePoll 0; Broker.EPush 3; Broker.ERegister; Broker.EClient 0 offer; Broker.EPop 0; Broker.EOffer 0; Broker.EForward 3]%nat.
Definition answered : list Broker.event :=
  (matched ++ [Broker.EAnswer 0 (pp_id poll) (description (gs "answer")); Broker.ELookup 0])%nat.

Lemma matched_requested : Forall (requested bridges []) matched.
Proof.
  repeat (apply Forall_cons; split; [try exact I|]); [..|by constructor].
  - exists poll_body, (gs "10.0.0.1"), Metrics.NewMetrics. eexists _, _. vm_compute. reflexivity.
  - exists offer_body. vm_compute. reflexivity.
Qed.

Lemma answered_requested : Forall (requested bridges []) answered.
Proof.
  apply Forall_app. split; [exact matched_requested|]. repeat (apply Forall_cons; split; [try exact I|]); [|by constructor].
  exists answer_body. vm_compute. reflexivity.
Qed.

Lemma after_served es : Forall (requested bridges []) es → (∃ w, Broker.execs es Broker.start = Ok w) → served bridges [] (Broker.after es).
Proof.
  intros Hes [w Hw]. unfold Broker.after. rewrite Hw. eapply served_execs; [done| |done]. by apply served_init.
Qed.

End Demo.

(** ** Properties *)

Lemma Milliseconds_range d : - 2 ^ 63 ≤ d < 2 ^ 63 → - 2 ^ 63 ≤ Milliseconds d < 2 ^ 63.
Proof. intros Hd. unfold Milliseconds. pose proof (Z.quot_rem' d 1000000). pose proof (Z.rem_bound_abs d 1000000). lia. Qed.

(** a client's offer reaches the proxy it was matched with.  In a run of the
    broker whose polls, offers and answers come from requests, with bridges that
    were read from a file, the poll of a proxy that gets an offer is answered with
    status 200.  The proxy decodes the response to the session description and
    the NAT type of a client's request, with the address of the bridge whose
    fingerprint the request has. *)
Theorem offer_reaches_proxy `{ErrorTexts} (data : bytes) (bridges : bridgeListHolder) (pattern : gostring) (w : Broker.world) (k : nat)
    (q : Broker.proxy_thread) (o : ClientOffer) (interval : Z) (m : Metrics) :
  read_bridges data = Ok bridges → served bridges pattern w →
  Broker.w_proxies w !! k = Some q → Broker.pt_pc q = Broker.PReturned (Some o) → - 2 ^ 63 ≤ interval < 2 ^ 63 →
  ∃ c t body req f info resp,
    Broker.w_clients w !! c = Some t ∧ Broker.ct_offer t = o ∧ ClientOffers_start bridges body = Waits o ∧
    DecodeClientPollRequest body = Ok req ∧ FingerprintFromHexString (cq_Fingerprint req) = Ok f ∧ GetBridgeInfo bridges f = Ok info ∧
    proxyPolls_finish bridges interval (Some o) m = (Ok (MkResponse StatusOK resp), m) ∧
    DecodeProxyPollResponse resp =
      (Some (MkProxyPollResponse ProxyClientMatch (cq_Offer req) (cq_NAT req) (Milliseconds interval) (WebSocketAddress info)), None).
Proof.
  intros Hb Hs Hq Hpc Hi. destruct (Broker.mi_proxy _ (Broker.reachable_match _ (served_reachable _ _ _ Hs)) k q o Hq Hpc)
    as (p & u & Hu & Hk & c & t & Ht & Hp & Ho).
  destruct (or_clients _ _ (served_origins _ _ _ Hs) c t Ht) as [body Hbody]. rewrite Ho in Hbody.
  destruct (ClientOffers_start_inv _ _ _ Hbody) as (req & f & info & Hreq & Hhex & Hf & Hg & Ho').
  destruct (client_request_ok _ _ Hreq) as (Hu1 & Hne & Hu2 & Hne2).
  exists c, t, body, req, f, info. eexists. split_and!; [done..| |done| |].
  - unfold FingerprintFromHexString. by rewrite Hhex.
  - unfold proxyPolls_finish, ProxyPolls_finish. rewrite Ho'. cbn [co_fingerprint co_sdp co_natType]. rewrite Hf, Hg. reflexivity.
  - rewrite match_response_roundtrip; [|done|done| |done|by apply Milliseconds_range].
    + by rewrite bool_decide_eq_false_2.
    + pose proof (read_bridges_utf8 _ _ Hb) as Hall. revert Hg. unfold GetBridgeInfo. destruct (bridges !! f) eqn:L; [|done]. intros [= <-]. by apply (Hall f).
Qed.

Lemma offer_reaches_proxy_witness :
  ∃ q, Broker.w_proxies (Broker.after Demo.matched) !! 0%nat = Some q ∧
  ∃ c t body req f info resp,
    Broker.w_clients (Broker.after Demo.matched) !! c = Some t ∧ Broker.ct_offer t = Demo.offer ∧
    @ClientOffers_start Demo.texts Demo.bridges body = Waits Demo.offer ∧
    @DecodeClientPollRequest Demo.texts body = Ok req ∧ @FingerprintFromHexString Demo.texts (cq_Fingerprint req) = Ok f ∧ GetBridgeInfo Demo.bridges f = Ok info ∧
    proxyPolls_finish Demo.bridges (20 * 10 ^ 9) (Some Demo.offer) Metrics.NewMetrics = (Ok (MkResponse StatusOK resp), Metrics.NewMetrics) ∧
    @DecodeProxyPollResponse Demo.texts resp =
      (Some (MkProxyPollResponse ProxyClientMatch (cq_Offer req) (cq_NAT req) (Milliseconds (20 * 10 ^ 9)) (WebSocketAddress info)), None).
Proof.
  exists (Broker.MkProxy Demo.poll (Broker.PReturned (Some Demo.offer))). split; [vm_compute; reflexivity|].
  apply (@offer_reaches_proxy Demo.texts DefaultBridges Demo.bridges [] (Broker.after Demo.matched) 0%nat (Broker.MkProxy Demo.poll (Broker.PReturned (Some Demo.offer))) Demo.offer).
  - vm_compute. reflexivity.
  - apply Demo.after_served; [exact Demo.matched_requested|eexists; vm_compute; reflexivity].
  - vm_compute. reflexivity.
  - reflexivity.
  - lia.
Defined.

(** a proxy's answer reaches the client of its snowflake.  When a client
    receives an answer, the answer comes from a request with the identifier of
    the snowflake the client holds, and the client decodes the broker's response
    to that answer, without an error. *)
Theorem answer_reaches_client `{ErrorTexts} (bridges : bridgeListHolder) (pattern : gostring) (w w' : Broker.world) (a c : nat)
    (addr : gostring) (method : RendezvousMethod) (m : Metrics) :
  served bridges pattern w → Broker.exec (Broker.EDeliver a c) w = Ok w' →
  ∃ body req u p s,
    DecodeProxyAnswerRequest body = Ok req ∧ Broker.w_clients w !! c = Some u ∧ Broker.ct_snowflake u = Some p ∧
    Broker.static (Broker.w_ctx w) p = Some s ∧ SnowflakeHeap.sf_id s = aq_Sid req ∧
    Broker.w_clients w' !! c = Some (Broker.MkClient (Broker.ct_offer u) (Some p) (Broker.CDelete (Answered (aq_Answer req)))) ∧
    DecodeClientPollResponse (ClientOffers_finish addr method (co_natType (Broker.ct_offer u)) (Answered (aq_Answer req)) m).1 =
      Ok (MkClientPollResponse (aq_Answer req) []).
Proof.
  intros Hs Hx. pose proof (Broker.reachable_match _ (served_reachable _ _ _ Hs)) as Hm. cbn [Broker.exec] in Hx. unfold Broker.answer_deliver in Hx.
  Broker.step_inv Hx. injection Hx as <-. destruct (or_answers _ _ (served_origins _ _ _ Hs) a _ E) as [body Hbody].
  destruct (ProxyAnswers_start_inv _ _ _ Hbody) as (req & Hreq & Hsid & Hans & Hne). pose proof (Broker.mi_answer _ Hm a _ _ E E1) as Hst.
  destruct (Broker.static (Broker.w_ctx w) snowflake) as [s|] eqn:Es; [|done]. injection Hst as Hst.
  exists body, req. do 3 eexists. rewrite Hans. split_and!; [done..|congruence| |].
  - cbn. by rewrite lookup_insert_eq, e.
  - cbn [ClientOffers_finish fst]. destruct (answer_request_ok _ _ Hreq) as [Hu _]. rewrite Hans in Hu.
    apply client_response_roundtrip; [done|apply utf8_nil|by left].
Qed.

Lemma answer_reaches_client_witness :
  ∃ body req u p s,
    @DecodeProxyAnswerRequest Demo.texts body = Ok req ∧ Broker.w_clients (Broker.after Demo.answered) !! 0%nat = Some u ∧ Broker.ct_snowflake u = Some p ∧
    Broker.static (Broker.w_ctx (Broker.after Demo.answered)) p = Some s ∧ SnowflakeHeap.sf_id s = aq_Sid req ∧
    Broker.w_clients (Broker.after (Demo.answered ++ [Broker.EDeliver 0 0]%nat)) !! 0%nat
      = Some (Broker.MkClient (Broker.ct_offer u) (Some p) (Broker.CDelete (Answered (aq_Answer req)))) ∧
    @DecodeClientPollResponse Demo.texts (ClientOffers_finish (gs "10.0.0.2") RendezvousHttp (co_natType (Broker.ct_offer u)) (Answered (aq_Answer req)) Metrics.NewMetrics).1 =
      Ok (MkClientPollResponse (aq_Answer req) []).
Proof.
  apply (@answer_reaches_client Demo.texts Demo.bridges [] (Broker.after Demo.answered)
           (Broker.after (Demo.answered ++ [Broker.EDeliver 0 0]%nat)) 0%nat 0%nat).
  - apply Demo.after_served; [exact Demo.answered_requested|eexists; vm_compute; reflexivity].
  - vm_compute. reflexivity.
Defined.

(** The texts of the errors of encoding/json are valid UTF-8. *)
Class ErrorTextsLaws (T : ErrorTexts) : Prop := json_error_utf8 : ∀ data, utf8 (@json_error T data).

Lemma description_error `{ErrorTextsLaws} msg e : DeserializeSessionDescription msg = Err e → utf8 (Error e).
Proof.
  unfold DeserializeSessionDescription. destruct (Unmarshal_map msg); [|intros [= <-]; apply json_error_utf8].
  intros E. repeat (case_match; try done); injection E as <-; by apply utf8_ascii, ascii_utf8.
Qed.

(** A legacy request whose description is malformed, as it is decoded. *)
Lemma shimmed_request `{T : ErrorTexts} b nat e : utf8 b → utf8 nat → b ≠ [] → DeserializeSessionDescription b = Err e →
  DecodeClientPollRequest (EncodeClientPollRequest (MkClientPollRequest b nat [])).1 = Err (malformed_description e).
Proof.
  intros Hb Hn Hne He. unfold DecodeClientPollRequest, EncodeClientPollRequest. cbn [fst cq_Offer cq_NAT cq_Fingerprint].
  change ([10] ++ ?x) with (10 :: x). rewrite split2_app by (by rewrite <- (bool_decide_spec (10 ∉ ClientVersion))). rewrite bool_decide_eq_true_2 by done. cbn [negb].
  assert (utf8 (default_fingerprint [])) by (by apply utf8_ascii, ascii_utf8).
  rewrite (unmarshal_print _ _ _ (MkClientPollRequest b nat (default_fingerprint []))); [|by members_ok|store_members].
  cbn [mbind res_bind cq_Offer]. by rewrite (bool_decide_eq_false_2 (b = [])), He.
Qed.

(** what a legacy client gets for a malformed offer.  A request in the legacy
    format, a JSON text, whose session description cannot be read makes the
    handler panic, instead of giving a status code. *)
Theorem legacy_offer_panics `{ErrorTextsLaws} (bridges : bridgeListHolder) (b natHeader : bytes) (e : error) :
  isLegacy b = true → len b ≤ readLimit → utf8 b → utf8 natHeader → DeserializeSessionDescription b = Err e →
  clientOffers_start bridges (Some b) natHeader = inl Panic.
Proof.
  intros Hl Hlen Hb Hn He. unfold clientOffers_start, read_body. cbn [mbind option_bind]. rewrite (proj2 (Z.leb_le _ _) Hlen).
  unfold client_body, ClientOffers_start. rewrite Hl, (shimmed_request b natHeader e) by (done || by destruct b).
  unfold legacy_response, client_error. cbn [negb]. rewrite client_response_roundtrip; [|apply utf8_nil| |by right].
  - reflexivity.
  - apply utf8_app; [by apply utf8_ascii, ascii_utf8|by eapply description_error].
Qed.

Lemma legacy_offer_panics_witness : @clientOffers_start Demo.texts Demo.bridges (Some (gs "{}")) (gs "unknown") = inl Panic.
Proof.
  apply (@legacy_offer_panics Demo.texts (λ _, utf8_ascii _ (ascii_utf8 (gs "invalid character") eq_refl)) Demo.bridges (gs "{}") (gs "unknown")
    (errorf "cannot deserialize SessionDescription without type field")); [reflexivity|vm_compute; discriminate|by apply utf8_ascii, ascii_utf8..|vm_compute; reflexivity].
Defined.

(** The last record with a fingerprint. *)
Definition last_record (records : list (list Z * BridgeInfo)) (f : list Z) : option BridgeInfo :=
  snd <$> find (λ r, bool_decide (r.1 = f)) (reverse records).

Lemma find_app {A} (f : A → bool) (l k : list A) : find f (l ++ k) = match find f l with Some x => Some x | None => find f k end.
Proof. induction l as [|x l IH]; [done|]. cbn. by destruct (f x). Qed.

Lemma load_lines_records `{ErrorTexts} lines : ∀ h,
  match load_lines lines h with
  | Ok h' => ∃ records, Forall2 (λ l r, decode_bridge l = Ok r) lines records ∧
      ∀ f, h' !! f = match last_record records f with Some i => Some i | None => h !! f end
  | Err e => ∃ line, line ∈ lines ∧ decode_bridge line = Err e
  | Panic => False
  end.
Proof.
  induction lines as [|l lines IH]; intros h; cbn [load_lines].
  - exists []. split; [constructor|done].
  - destruct (decode_bridge l) as [[g i]|e|] eqn:D; cbn [mbind res_bind].
    + specialize (IH (<[g:=i]> h)). destruct (load_lines lines _) as [h'|e|]; [|destruct IH as (l' & Hl' & He); exists l'; split; [by constructor|done]|done].
      destruct IH as (records & Hr & Hh). exists ((g, i) :: records). split; [by constructor|]. intros f. rewrite Hh. unfold last_record.
      rewrite reverse_cons, find_app. destruct (find _ (reverse records)); [done|]. cbn.
      case_bool_decide; [subst; by rewrite lookup_insert_eq|by rewrite lookup_insert_ne].
    + exists l. split; [by constructor|done].
    + unfold decode_bridge, FingerprintFromHexString, FingerprintFromBytes in D. repeat case_match; done.
Qed.

(** the list of bridges.  A file is loaded as a whole or not at all: when
    every line is a record and no line is too long, the list holds for every
    fingerprint the last record of the file that has it, and no other; when not,
    there is an error and the list stays as it was. *)
Theorem bridge_list_all_or_nothing `{ErrorTexts} (data : bytes) (h : bridgeListHolder) :
  let '(lines, tooLong) := scan_lines (length data) data in
  match LoadBridgeInfo data h with
  | (h', Ok _) => tooLong = false ∧ ∃ records, Forall2 (λ l r, decode_bridge l = Ok r) lines records ∧
      ∀ f, GetBridgeInfo h' f = match last_record records f with Some i => Ok i | None => Err ErrBridgeNotFound end
  | (h', Err e) => h' = h ∧ (tooLong = true ∧ e = ErrTooLong ∨ ∃ line, line ∈ lines ∧ decode_bridge line = Err e)
  | (_, Panic) => False
  end.
Proof.
  unfold LoadBridgeInfo, read_bridges. destruct (scan_lines (length data) data) as [lines tooLong]. pose proof (load_lines_records lines ∅) as Hl.
  destruct (load_lines lines ∅) as [h'|e|]; cbn [mbind res_bind]; [|by auto|done]. destruct tooLong; [by auto|]. split; [done|].
  destruct Hl as (records & Hr & Hf). exists records. split; [done|]. intros f. unfold GetBridgeInfo. rewrite Hf. by destruct (last_record records f).
Qed.

End Rendezvous.
