(* ===== verification/Amp.v ===== *)
(** * Rendezvous through an AMP cache (src/common/amp, src/broker/amp.go,
    src/client/lib/rendezvous.go, rendezvous_http.go, rendezvous_ampcache.go)

    A client that cannot reach the broker sends its request in the path of a URL
    ([Path]) and gets the response as the text of an HTML page ([Armor]), since a
    cache only passes on pages that are fetched with GET.  [Client] has the
    client's exchanges with the broker and the negotiation on top of them.
    [Base64] is the package of the Go library.  The tokenizer of
    golang.org/x/net/html is the class [Html] with the laws that the pages of the
    encoder need. *)
From stdpp Require Import base tactics numbers list strings gmap.
From Stdlib Require Import ZArith Lia.
From S2P Require Import Prelude Json Messages GoHeap SnowflakeHeap Broker Metrics BrokerIpc.
Import Json Fingerprint NameMatcher SessionDescription Messages.
Import Broker (ClientOffer, co_natType, client_result, Answered).
Import Metrics (Metrics).
Import BridgeList IPC HTTP.
Open Scope Z_scope.

(** ** encoding/base64 *)

Module Base64.

(** The alphabets of StdEncoding and URLEncoding differ in the last two digits. *)
Record encoding := MkEncoding { d62 : Z; d63 : Z; padded : bool }.
Definition StdEncoding : encoding := MkEncoding 43 47 true.
Definition RawURLEncoding : encoding := MkEncoding 45 95 false.
Definition padChar : Z := 61.

Definition digit (e : encoding) (v : Z) : Z :=
  if v <? 26 then 65 + v else if v <? 52 then 71 + v else if v <? 62 then v - 4 else if v =? 62 then d62 e else d63 e.

Definition value (e : encoding) (c : Z) : option Z :=
  if (65 <=? c) && (c <=? 90) then Some (c - 65) else if (97 <=? c) && (c <=? 122) then Some (c - 71)
  else if (48 <=? c) && (c <=? 57) then Some (c + 4) else if c =? d62 e then Some 62 else if c =? d63 e then Some 63 else None.

Definition pad (e : encoding) (n : nat) : bytes := if padded e then replicate n padChar else [].

Fixpoint encode (e : encoding) (l : bytes) : bytes :=
  match l with
  | a :: b :: c :: l => [digit e (a / 4); digit e (a mod 4 * 16 + b / 16); digit e (b mod 16 * 4 + c / 64); digit e (c mod 64)] ++ encode e l
  | [a; b] => [digit e (a / 4); digit e (a mod 4 * 16 + b / 16); digit e (b mod 16 * 4)] ++ pad e 1
  | [a] => [digit e (a / 4); digit e (a mod 4 * 16)] ++ pad e 2
  | [] => []
  end.

Definition byte0 (v0 v1 : Z) : Z := v0 * 4 + v1 / 16.
Definition byte1 (v1 v2 : Z) : Z := v1 mod 16 * 16 + v2 / 4.
Definition byte2 (v2 v3 : Z) : Z := v2 mod 4 * 64 + v3.

(** The decoding of a text without line breaks; [None] is a CorruptInputError. *)
Fixpoint decode_digits (e : encoding) (l : bytes) : option bytes :=
  match l with
  | [] => Some []
  | [_] => None
  | [c0; c1] => if padded e then None else v0 ← value e c0; v1 ← value e c1; Some [byte0 v0 v1]
  | [c0; c1; c2] => if padded e then None else v0 ← value e c0; v1 ← value e c1; v2 ← value e c2; Some [byte0 v0 v1; byte1 v1 v2]
  | c0 :: c1 :: c2 :: c3 :: l =>
      v0 ← value e c0;
      v1 ← value e c1;
      match value e c2 with
      | None => if padded e && (c2 =? padChar) && (c3 =? padChar) && bool_decide (l = []) then Some [byte0 v0 v1] else None
      | Some v2 =>
          match value e c3 with
          | None => if padded e && (c3 =? padChar) && bool_decide (l = []) then Some [byte0 v0 v1; byte1 v1 v2] else None
          | Some v3 => r ← decode_digits e l; Some ([byte0 v0 v1; byte1 v1 v2; byte2 v2 v3] ++ r)
          end
      end
  end.

Definition not_newline (c : Z) : bool := negb ((c =? 10) || (c =? 13)).

(** Line breaks are skipped wherever they are. *)
Definition decode (e : encoding) (l : bytes) : option bytes := decode_digits e (base.filter (λ c, Is_true (not_newline c)) l).

(** *** Lemmas *)

#[local] Arguments value : simpl never.
#[local] Arguments digit : simpl never.

Record alphabet_ok (e : encoding) : Prop := {
  al_value v : 0 ≤ v < 64 → value e (digit e v) = Some v;
  al_text v : 0 ≤ v < 64 → 43 ≤ digit e v ≤ 122 ∧ digit e v ≠ 60;
  al_pad : value e padChar = None
}.

Lemma encoding_ok e : e = StdEncoding ∨ e = RawURLEncoding → alphabet_ok e.
Proof.
  intros He. split; [intros v Hv|intros v Hv|by destruct He as [-> | ->]].
  - unfold digit. destruct (Z.ltb_spec v 26); [|destruct (Z.ltb_spec v 52); [|destruct (Z.ltb_spec v 62)]]; cycle 3.
    { destruct (Z.eqb_spec v 62) as [->|]; [by destruct He as [-> | ->]|]. replace v with 63 by lia. by destruct He as [-> | ->]. }
    all: unfold value; repeat match goal with |- context [?a <=? ?b] => destruct (Z.leb_spec a b); try lia; cbn [andb] end; f_equal; lia.
  - unfold digit. destruct (Z.ltb_spec v 26); [lia|]. destruct (Z.ltb_spec v 52); [lia|]. destruct (Z.ltb_spec v 62); [lia|].
    destruct (v =? 62); destruct He as [-> | ->]; cbn; lia.
Qed.

(** Induction by groups of three bytes. *)
Lemma groups_ind (P : bytes → Prop) : P [] → (∀ a, P [a]) → (∀ a b, P [a; b]) → (∀ a b c l, P l → P (a :: b :: c :: l)) → ∀ l, P l.
Proof.
  intros H0 H1 H2 H3 l. cut (P l ∧ (∀ a, P (a :: l)) ∧ ∀ a b, P (a :: b :: l)); [intuition|].
  induction l as [|c l (? & ? & ?)]; [intuition|]. split_and!; auto.
Qed.

Lemma decode_digits_encode e l : alphabet_ok e → bytes_ok l → decode_digits e (encode e l) = Some l.
Proof.
  intros He. induction l as [|a|a b|a b c l IH] using groups_ind; intros Hl; [done|..]; rewrite ?bytes_ok_cons in Hl; unfold is_byte in Hl;
    cbn [encode decode_digits app pad]; destruct Hl as (Ha & Hl).
  - unfold pad. destruct (padded e) eqn:P; cbn; rewrite ?P, !(al_value e He) by zlia; cbn; rewrite ?(al_pad e He), ?P; cbn; unfold byte0; f_equal; f_equal; zlia.
  - destruct Hl as [Hb _]. unfold pad. destruct (padded e) eqn:P; cbn; rewrite ?P, !(al_value e He) by zlia; cbn; rewrite ?(al_pad e He), ?P; cbn; unfold byte0, byte1;
      apply f_equal; repeat (apply (f_equal2 cons); [zlia|]); done.
  - destruct Hl as (Hb & Hc & Hl). rewrite !(al_value e He) by zlia. cbn. rewrite IH by done. cbn. unfold byte0, byte1, byte2. apply f_equal. repeat (apply (f_equal2 cons); [zlia|]). done.
Qed.

(** A text of digits and padding. *)
Definition text_ok (l : bytes) : Prop := Forall (λ c, 43 ≤ c ≤ 122 ∧ c ≠ 60) l.

Lemma encode_text e l : alphabet_ok e → bytes_ok l → text_ok (encode e l).
Proof.
  intros He. assert (∀ n, text_ok (pad e n)) as Hp. { intros n. unfold pad. destruct (padded e); [|constructor]. apply Forall_replicate. unfold padChar. lia. }
  induction l as [|a|a b|a b c l IH] using groups_ind; intros Hl; rewrite ?bytes_ok_cons in Hl; unfold is_byte in Hl; cbn [encode app]; [constructor|..];
    repeat (constructor; [apply (al_text e He); zlia|]); auto; [apply Hp..|apply IH, Hl].
Qed.

Lemma text_newlines l : text_ok l → base.filter (λ c, Is_true (not_newline c)) l = l.
Proof.
  induction 1 as [|c l Hc Hl IH]; [done|]. rewrite filter_cons_True; [by rewrite IH|]. unfold not_newline.
  rewrite (proj2 (Z.eqb_neq _ _)), (proj2 (Z.eqb_neq _ _)) by lia. exact I.
Qed.

Lemma base64_roundtrip e l : alphabet_ok e → bytes_ok l → decode e (encode e l) = Some l.
Proof. intros He Hl. unfold decode. rewrite text_newlines by (by apply encode_text). by apply decode_digits_encode. Qed.

End Base64.

(** ** Requests in paths (path.go) *)

Module Path.
Import Base64.

Inductive path_error := MissingIndicator | MissingData | CorruptInput | UnknownIndicator (version : Z).

(** The nine bytes of [cacheBreaker] are random. *)
Definition EncodePath (cacheBreaker data : bytes) : bytes :=
  gs "0" ++ encode RawURLEncoding cacheBreaker ++ gs "/" ++ encode RawURLEncoding data.

(** What follows the last [c], as strings.LastIndexByte finds it. *)
Fixpoint after_last (c : Z) (s : bytes) : option bytes :=
  match s with
  | [] => None
  | b :: s => match after_last c s with Some r => Some r | None => if b =? c then Some s else None end
  end.

Definition DecodePath (path : bytes) : res path_error bytes :=
  match path with
  | [] => Err MissingIndicator
  | version :: rest =>
      if version =? 48 then
        match after_last 47 rest with
        | None => Err MissingData
        | Some r => match decode RawURLEncoding r with Some data => Ok data | None => Err CorruptInput end
        end
      else Err (UnknownIndicator version)
  end.

Lemma after_last_none c s : c ∉ s → after_last c s = None.
Proof.
  induction s as [|b s IH]; [done|]. rewrite not_elem_of_cons. intros [Hb Hs]. cbn. rewrite (IH Hs). destruct (Z.eqb_spec b c); [congruence|done].
Qed.

Lemma after_last_app c s r : c ∉ r → after_last c (s ++ [c] ++ r) = Some r.
Proof. intros Hr. induction s as [|b s IH]; cbn; [by rewrite after_last_none, Z.eqb_refl|]. cbn in IH. by rewrite IH. Qed.

(** The digits of RawURLEncoding have no slash. *)
Lemma url_no_slash l : bytes_ok l → 47 ∉ encode RawURLEncoding l.
Proof.
  assert (∀ v, 0 ≤ v < 64 → 47 ≠ digit RawURLEncoding v) as Hd.
  { intros v Hv. unfold digit. repeat case_match; cbn; lia. }
  induction l as [|a|a b|a b c l IH] using groups_ind; intros Hl; rewrite ?bytes_ok_cons in Hl; unfold is_byte in Hl; cbn [encode app pad padded RawURLEncoding];
    rewrite ?not_elem_of_cons; split_and?; try (apply Hd; zlia); try apply not_elem_of_nil. apply IH, Hl.
Qed.

Lemma path_roundtrip cacheBreaker data : bytes_ok data → DecodePath (EncodePath cacheBreaker data) = Ok data.
Proof.
  intros Hd. unfold EncodePath, DecodePath. cbn [app gs]. change (gs "0") with [48]. cbn [app]. rewrite Z.eqb_refl. change (gs "/") with [47].
  rewrite after_last_app by (by apply url_no_slash). rewrite base64_roundtrip; [done| |done]. apply encoding_ok. by right.
Qed.

End Path.

(** ** Responses in pages (armor_encoder.go, armor_decoder.go) *)

Module Armor.
Import Base64.

Definition attribute (name value : bytes) : bytes := gs " " ++ name ++ gs "=" ++ quote ++ value ++ quote.
Definition animation (prefix : bytes) : bytes := prefix ++ gs "animation:-amp-start 8s steps(1,end) 0s 1 normal both".
Definition keyframes (prefix : bytes) : bytes := gs "@" ++ prefix ++ gs "keyframes -amp-start{from{visibility:hidden}to{visibility:visible}}".

(** The page up to the first element, without the line break at its end. *)
Definition boilerplateHead : bytes :=
  gs "<!doctype html>" ++ [10] ++ gs "<html amp>" ++ [10] ++ gs "<head>" ++ [10] ++
  gs "<meta" ++ attribute (gs "charset") (gs "utf-8") ++ gs ">" ++ [10] ++
  gs "<script async" ++ attribute (gs "src") (gs "https://cdn.ampproject.org/v0.js") ++ gs "></script>" ++ [10] ++
  gs "<link" ++ attribute (gs "rel") (gs "canonical") ++ attribute (gs "href") (gs "#") ++ gs ">" ++ [10] ++
  gs "<meta" ++ attribute (gs "name") (gs "viewport") ++ attribute (gs "content") (gs "width=device-width") ++ gs ">" ++ [10] ++
  gs "<style amp-boilerplate>body{" ++ animation (gs "-webkit-") ++ gs ";" ++ animation (gs "-moz-") ++ gs ";" ++ animation (gs "-ms-") ++ gs ";" ++ animation [] ++ gs "}" ++
  keyframes (gs "-webkit-") ++ keyframes (gs "-moz-") ++ keyframes (gs "-ms-") ++ keyframes (gs "-o-") ++ keyframes [] ++
  gs "</style><noscript><style amp-boilerplate>body{-webkit-animation:none;-moz-animation:none;-ms-animation:none;animation:none}</style></noscript>" ++ [10] ++
  gs "</head>" ++ [10] ++ gs "<body>".

Definition boilerplateStart : bytes := boilerplateHead ++ [10].
Definition boilerplateEnd : bytes := gs "</body>" ++ [10] ++ gs "</html>".

Definition elementSizeLimit : Z := 32 * 1024.
Definition bytesPerChunk : Z := 32.
Definition chunksPerElement : Z := (elementSizeLimit - 1) / (bytesPerChunk + 1).

Definition open_pre : bytes := gs "<pre>" ++ [10].
Definition close_pre : bytes := gs "</pre>" ++ [10].

(** *** The encoder

    [w] is what was written to the underlying writer, a http.ResponseWriter,
    whose errors are not modelled. *)
Record elementEncoder := MkElementEncoder { ee_w : bytes; chunkCounter : Z; elementCounter : Z }.

Definition put (b : bytes) (enc : elementEncoder) : elementEncoder := MkElementEncoder (ee_w enc ++ b) (chunkCounter enc) (elementCounter enc).
Definition set_counters (chunk element : Z) (enc : elementEncoder) : elementEncoder := MkElementEncoder (ee_w enc) chunk element.

(** One turn of the loop of Write: the rest of [p]. *)
Definition write_chunk (p : bytes) (enc : elementEncoder) : bytes * elementEncoder :=
  let enc := if (elementCounter enc =? 0) && (chunkCounter enc =? 0) then put open_pre enc else enc in
  let n := Z.min (bytesPerChunk - chunkCounter enc) (len p) in
  let enc := put (take (Z.to_nat n) p) enc in
  let enc := set_counters (chunkCounter enc + n) (elementCounter enc) enc in
  let enc := if bytesPerChunk <=? chunkCounter enc then put [10] (set_counters 0 (elementCounter enc + 1) enc) else enc in
  let enc := if chunksPerElement <=? elementCounter enc then put close_pre (set_counters (chunkCounter enc) 0 enc) else enc in
  (drop (Z.to_nat n) p, enc).

(** A turn takes one byte at least, so that the length of [p] is enough fuel. *)
Fixpoint write_loop (fuel : nat) (p : bytes) (enc : elementEncoder) : elementEncoder :=
  match fuel, p with
  | S fuel, _ :: _ => let '(p, enc) := write_chunk p enc in write_loop fuel p enc
  | _, _ => enc
  end.

Definition element_Write (p : bytes) (enc : elementEncoder) : elementEncoder := write_loop (length p) p enc.

Definition element_Close (enc : elementEncoder) : elementEncoder :=
  if negb (elementCounter enc =? 0) || negb (chunkCounter enc =? 0)
  then put (if chunkCounter enc =? 0 then close_pre else [10] ++ close_pre) enc else enc.

Definition NewArmorEncoder : elementEncoder := element_Write (gs "0") (MkElementEncoder boilerplateStart 0 0).

(** The base64 encoder writes the text of all that is written to it until it is
    closed; [pieces] are its writes. *)
Definition armor_Write (pieces : list bytes) (enc : elementEncoder) : elementEncoder := foldl (λ enc p, element_Write p enc) enc pieces.

Definition armor_Close (enc : elementEncoder) : bytes := ee_w (put boilerplateEnd (element_Close enc)).

Definition armored (pieces : list bytes) : bytes := armor_Close (armor_Write pieces NewArmorEncoder).

(** *** The decoder *)

Inductive token := TextToken (text : bytes) | StartTagToken (name : bytes) | EndTagToken (name : bytes) | OtherToken.

(** html.NewTokenizer with SetMaxBuf: the tokens, and the error at their end, which
    is [None] for io.EOF. *)
Class Html := { html_error : Type; tokenize : Z → bytes → list token * option html_error }.

Definition isASCIIWhitespace (b : Z) : bool := bool_decide (b ∈ [9; 10; 12; 13; 32]).

Fixpoint skip_whitespace (data : bytes) : nat := match data with b :: t => if isASCIIWhitespace b then S (skip_whitespace t) else 0%nat | [] => 0%nat end.
Fixpoint find_whitespace (data : bytes) : option nat :=
  match data with b :: t => if isASCIIWhitespace b then Some 0%nat else n ← find_whitespace t; Some (S n) | [] => None end.

Definition splitASCIIWhitespace (data : bytes) (atEOF : bool) : nat * option bytes :=
  let i := skip_whitespace data in
  match find_whitespace (drop i data) with
  | Some n => ((i + n + 1)%nat, Some (take n (drop i data)))
  | None => if atEOF && (i <? length data)%nat then (length data, Some (drop i data)) else (i, None)
  end.

(** bufio.Scanner over a text that is shorter than its buffer, with all of it at
    hand. *)
Fixpoint scan_words (fuel : nat) (data : bytes) : list bytes :=
  match fuel with
  | O => []
  | S fuel => match splitASCIIWhitespace data true with (n, Some word) => word :: scan_words fuel (drop n data) | (_, None) => [] end
  end.

Section decoder.
Context `{Html}.

Inductive armor_error := HtmlError (e : html_error) | MissingEndTag | UnexpectedTag | NoVersion | ErrUnknownVersion (version : Z) | CorruptText | UnexpectedEOF.

Definition pre : bytes := gs "pre".

(** decodeToWriter: what is written, and the error it returns. *)
Fixpoint decode_tokens (active : bool) (tokens : list token) (err : option html_error) : list bytes * option armor_error :=
  match tokens with
  | [] => ([], match err with Some e => Some (HtmlError e) | None => if active then Some MissingEndTag else None end)
  | TextToken text :: tokens =>
      let '(ws, e) := decode_tokens active tokens err in
      ((if active then scan_words (S (length text)) text else []) ++ ws, e)
  | StartTagToken name :: tokens =>
      if bool_decide (name = pre) then if active then ([], Some UnexpectedTag) else decode_tokens true tokens err
      else decode_tokens active tokens err
  | EndTagToken name :: tokens =>
      if bool_decide (name = pre) then if active then decode_tokens false tokens err else ([], Some UnexpectedTag)
      else decode_tokens active tokens err
  | OtherToken :: tokens => decode_tokens active tokens err
  end.

Definition decodeToWriter (page : bytes) : list bytes * option armor_error :=
  let '(tokens, err) := tokenize elementSizeLimit page in decode_tokens false tokens err.

(** NewArmorDecoder: what is behind the version in the pipe, and the error that
    the pipe is closed with. *)
Definition NewArmorDecoder (page : bytes) : res armor_error (bytes * option armor_error) :=
  let '(writes, err) := decodeToWriter page in
  match concat writes with
  | [] => Err (default NoVersion err)
  | version :: rest => if version =? 48 then Ok (rest, err) else Err (ErrUnknownVersion version)
  end.

(** io.ReadAll of a base64 decoder, which decodes what it has as soon as it has
    four digits; [pieces] are what its reads of the pipe return. *)
Fixpoint read_base64 (buf : bytes) (pieces : list bytes) (err : option armor_error) : res armor_error bytes :=
  match pieces with
  | [] => match err with Some e => Err e | None => if bool_decide (buf = []) then Ok [] else Err UnexpectedEOF end
  | piece :: pieces =>
      let buf := buf ++ base.filter (λ c, Is_true (not_newline c)) piece in
      let n := (length buf / 4 * 4)%nat in
      if (length buf <? 4)%nat then read_base64 buf pieces err else
      match decode StdEncoding (take n buf) with
      | Some d => r ← read_base64 (drop n buf) pieces err; Ok (d ++ r)
      | None => Err CorruptText
      end
  end.

End decoder.

(** *** What the tokenizer does with the pages of the encoder *)

Definition is_letter (c : Z) : bool := ((65 <=? c) && (c <=? 90)) || ((97 <=? c) && (c <=? 122)).

(** The begin of a tag. *)
Definition tag_start (r : bytes) : bool :=
  match r with
  | 60 :: 47 :: c :: _ => is_letter c
  | 60 :: c :: _ => is_letter c
  | _ => false
  end.

(** Text that HTML reads as it is. *)
Definition plain (t : bytes) : Prop := (60 ∉ t) ∧ (38 ∉ t) ∧ (13 ∉ t) ∧ (0 ∉ t).

Definition not_pre (t : token) : bool := match t with StartTagToken n | EndTagToken n => negb (bool_decide (n = pre)) | _ => true end.

Definition tokens_then `{Html} (ts : list token) (r : list token * option html_error) : list token * option html_error := (ts ++ r.1, r.2).

(** Plain text between tags is one token when it is shorter than the buffer, and
    the tags of the pages are tokens; the page's head has no element pre. *)
Class HtmlLaws `{Html} : Prop := {
  html_text n t r : t ≠ [] → len t < n → plain t → tag_start r = true → tokenize n (t ++ r) = tokens_then [TextToken t] (tokenize n r);
  html_start_pre n r : 6 < n → tokenize n (gs "<pre>" ++ r) = tokens_then [StartTagToken pre] (tokenize n r);
  html_end_pre n r : 6 < n → tokenize n (gs "</pre>" ++ r) = tokens_then [EndTagToken pre] (tokenize n r);
  html_head : ∃ ts, forallb not_pre ts = true ∧ ∀ r, tokenize elementSizeLimit (boilerplateHead ++ r) = tokens_then ts (tokenize elementSizeLimit r);
  html_end : ∃ ts, forallb not_pre ts = true ∧ tokenize elementSizeLimit boilerplateEnd = (ts, None)
}.

(** *** The shape of a page *)

Definition strip (t : bytes) : bytes := base.filter (λ c, Is_true (negb (isASCIIWhitespace c))) t.

Definition element (body : bytes) : bytes := open_pre ++ body ++ close_pre.
Definition body_ok (b : bytes) : Prop := Forall (λ c, c = 10 ∨ 43 ≤ c ≤ 122 ∧ c ≠ 60) b.
Definition is_open (enc : elementEncoder) : bool := negb (elementCounter enc =? 0) || negb (chunkCounter enc =? 0).
Definition maxBody : Z := 992 * 33.

(** The page so far has the elements [els] and the open element [body], whose text
    is [t]. *)
Record shape (enc : elementEncoder) (t : bytes) (els : list bytes) (body : bytes) : Prop := {
  sh_page : ee_w enc = boilerplateStart ++ concat (map element els) ++ (if is_open enc then open_pre ++ body else []);
  sh_text : strip (concat els ++ body) = t;
  sh_chunk : 0 ≤ chunkCounter enc < 32;
  sh_element : 0 ≤ elementCounter enc < 992;
  sh_len : len body = elementCounter enc * 33 + chunkCounter enc;
  sh_els : Forall (λ b, len b ≤ maxBody ∧ body_ok b) els;
  sh_body : body_ok body
}.

Lemma strip_app a b : strip (a ++ b) = strip a ++ strip b.
Proof. apply filter_app. Qed.

Lemma strip_text p : text_ok p → strip p = p.
Proof.
  induction 1 as [|c p Hc Hp IH]; [done|]. unfold strip. rewrite filter_cons_True; [by f_equal|].
  unfold isASCIIWhitespace. rewrite bool_decide_eq_false_2; [done|]. rewrite !elem_of_cons, elem_of_nil. lia.
Qed.

Lemma text_body p : text_ok p → body_ok p.
Proof. intros Hp. eapply Forall_impl; [exact Hp|]. auto. Qed.

(** The first step of a turn: the element is open. *)
Lemma opened enc t els body : shape enc t els body →
  ee_w (if (elementCounter enc =? 0) && (chunkCounter enc =? 0) then put open_pre enc else enc) = boilerplateStart ++ concat (map element els) ++ open_pre ++ body.
Proof.
  intros [Hw _ _ _ Hl _ _]. unfold is_open in Hw. destruct (Z.eqb_spec (elementCounter enc) 0) as [He|]; destruct (Z.eqb_spec (chunkCounter enc) 0) as [Hc|]; cbn [andb orb negb ee_w put] in *; try done.
  assert (body = []) as ->; [apply length_zero_iff_nil; unfold len in Hl; lia|]. rewrite Hw, !app_nil_r. by rewrite <- app_assoc.
Qed.

Lemma shape_more enc t els body q w c : shape enc t els body → text_ok q → 0 < c < 32 → c = chunkCounter enc + len q →
  w = boilerplateStart ++ concat (map element els) ++ open_pre ++ body ++ q → shape (MkElementEncoder w c (elementCounter enc)) (t ++ q) els (body ++ q).
Proof.
  intros [Hw Ht Hc He Hl Hels Hb] Hq Hr -> ->. split; cbn [ee_w chunkCounter elementCounter]; try done; try lia.
  - unfold is_open. cbn [chunkCounter elementCounter]. rewrite (proj2 (Z.eqb_neq (chunkCounter enc + len q) 0)), orb_true_r by lia. by rewrite <- ?app_assoc.
  - by rewrite app_assoc, strip_app, Ht, strip_text.
  - rewrite len_app. lia.
  - apply Forall_app. split; [done|by apply text_body].
Qed.

Lemma shape_line enc t els body q w : shape enc t els body → text_ok q → chunkCounter enc + len q = 32 → elementCounter enc + 1 < 992 →
  w = boilerplateStart ++ concat (map element els) ++ open_pre ++ body ++ q ++ [10] → shape (MkElementEncoder w 0 (elementCounter enc + 1)) (t ++ q) els (body ++ q ++ [10]).
Proof.
  intros [Hw Ht Hc He Hl Hels Hb] Hq Hr Hm ->. split; cbn [ee_w chunkCounter elementCounter]; try done; try lia.
  - unfold is_open. cbn [chunkCounter elementCounter]. by rewrite (proj2 (Z.eqb_neq (elementCounter enc + 1) 0)) by lia.
  - by rewrite app_assoc, !strip_app, <- strip_app, Ht, strip_text, app_nil_r.
  - rewrite !len_app. change (len [10]) with 1. lia.
  - apply Forall_app. split; [done|]. apply Forall_app. split; [by apply text_body|]. by repeat constructor.
Qed.

Lemma shape_close enc t els body q w : shape enc t els body → text_ok q → chunkCounter enc + len q = 32 → elementCounter enc + 1 = 992 →
  w = boilerplateStart ++ concat (map element els) ++ open_pre ++ body ++ q ++ [10] ++ close_pre → shape (MkElementEncoder w 0 0) (t ++ q) (els ++ [body ++ q ++ [10]]) [].
Proof.
  intros [Hw Ht Hc He Hl Hels Hb] Hq Hr Hm ->. split; cbn [ee_w chunkCounter elementCounter]; try done; try lia.
  - unfold is_open. cbn [chunkCounter elementCounter Z.eqb negb orb]. rewrite map_app, concat_app. unfold element at 3. cbn [map concat]. by rewrite !app_nil_r, <- !app_assoc.
  - rewrite app_nil_r, concat_app. cbn [concat]. by rewrite app_nil_r, app_assoc, !strip_app, <- strip_app, Ht, strip_text, app_nil_r.
  - apply Forall_app. split; [done|]. repeat constructor.
    + rewrite !len_app. change (len [10]) with 1. unfold maxBody. lia.
    + apply Forall_app. split; [done|]. apply Forall_app. split; [by apply text_body|]. by repeat constructor.
  - constructor.
Qed.

Lemma write_chunk_shape p enc t els body : shape enc t els body → text_ok p → p ≠ [] →
  ∃ n els' body', (0 < n)%nat ∧ (write_chunk p enc).1 = drop n p ∧ shape (write_chunk p enc).2 (t ++ take n p) els' body'.
Proof.
  intros Hs Hp Hne. assert (0 < len p) as Hpos. { destruct p; [done|]. rewrite len_cons. pose proof (len_nonneg p). lia. }
  pose proof (sh_chunk _ _ _ _ Hs) as Hc. pose proof (sh_element _ _ _ _ Hs) as He.
  unfold write_chunk. set (enc1 := if _ && _ then _ else enc). assert (chunkCounter enc1 = chunkCounter enc ∧ elementCounter enc1 = elementCounter enc) as [Ec Ee] by (subst enc1; by destruct (_ && _)).
  pose proof (opened _ _ _ _ Hs) as Ho. fold enc1 in Ho. rewrite ?Ec, ?Ee. set (n := Z.min (bytesPerChunk - chunkCounter enc) (len p)).
  assert (0 < n ≤ 32 - chunkCounter enc ∧ n ≤ len p) as (Hn & Hn2) by (subst n; unfold bytesPerChunk; lia).
  assert (len (take (Z.to_nat n) p) = n) as Hlen. { unfold len in *. rewrite length_take. lia. }
  assert (text_ok (take (Z.to_nat n) p)) as Hq by (by apply Forall_take).
  exists (Z.to_nat n). cbn [fst snd ee_w chunkCounter elementCounter put set_counters]. rewrite ?Ec, ?Ee. change chunksPerElement with 992. unfold bytesPerChunk.
  destruct (Z.leb_spec 32 (chunkCounter enc + n)) as [H32|H32]; cbn [fst snd ee_w chunkCounter elementCounter put set_counters]; rewrite ?Ec, ?Ee.
  - destruct (Z.leb_spec 992 (elementCounter enc + 1)).
    + do 2 eexists. split_and!; [lia|done|]. eapply (shape_close enc _ _ body); [done|done|lia|lia|]. cbn [ee_w put set_counters]. by rewrite Ho, <- ?app_assoc.
    + do 2 eexists. split_and!; [lia|done|]. eapply (shape_line enc _ _ body); [done|done|lia|lia|]. cbn [ee_w put set_counters]. by rewrite Ho, <- ?app_assoc.
  - rewrite (proj2 (Z.leb_gt 992 _)) by lia. do 2 eexists. split_and!; [lia|done|]. eapply (shape_more enc _ _ body); [done|done|lia|lia|]. cbn [ee_w put set_counters]. by rewrite Ho, <- ?app_assoc.
Qed.

Lemma element_Write_shape p enc t els body : shape enc t els body → text_ok p → ∃ els' body', shape (element_Write p enc) (t ++ p) els' body'.
Proof.
  unfold element_Write. assert (∃ k, length p ≤ k ∧ k = length p)%nat as (k & Hk & Ek) by eauto. rewrite <- Ek. clear Ek. revert p enc t els body Hk.
  induction k as [|k IH]; intros p enc t els body Hk Hs Hp.
  - destruct p; [|cbn in Hk; lia]. rewrite app_nil_r. cbn. eauto.
  - destruct p as [|b p]; [rewrite app_nil_r; cbn; eauto|]. destruct (write_chunk_shape (b :: p) enc t els body Hs Hp) as (n & els' & body' & Hn & Hd & Hs'); [done|].
    cbn [write_loop]. destruct (write_chunk (b :: p) enc) as [r enc']. cbn [fst snd] in *. subst r.
    destruct (IH (drop n (b :: p)) enc' (t ++ take n (b :: p)) els' body') as (e2 & b2 & H2); [rewrite length_drop; cbn in *; lia|done|by apply Forall_drop|].
    exists e2, b2. by rewrite <- app_assoc, take_drop in H2.
Qed.

Lemma armor_Write_shape pieces : ∀ enc t els body, shape enc t els body → Forall text_ok pieces → ∃ els' body', shape (armor_Write pieces enc) (t ++ concat pieces) els' body'.
Proof.
  induction pieces as [|p pieces IH]; intros enc t els body Hs Hp; cbn; [rewrite app_nil_r; eauto|]. apply Forall_cons in Hp as [Hp Hps].
  destruct (element_Write_shape p enc t els body Hs Hp) as (e1 & b1 & H1). rewrite app_assoc. by eapply IH.
Qed.

(** The whole page. *)
Lemma armored_shape pieces : Forall text_ok pieces → ∃ els, Forall (λ b, len b ≤ maxBody + 1 ∧ body_ok b) els ∧ strip (concat els) = [48] ++ concat pieces ∧
  armored pieces = boilerplateStart ++ concat (map element els) ++ boilerplateEnd.
Proof.
  intros Hp. assert (shape (MkElementEncoder boilerplateStart 0 0) [] [] []) as H0. { split; cbn; try done; try lia; by constructor. }
  destruct (element_Write_shape (gs "0") _ _ _ _ H0) as (e0 & b0 & H1); [by repeat constructor|].
  destruct (armor_Write_shape pieces _ _ _ _ H1 Hp) as (els & body & [Hw Ht Hc He Hl Hels Hb]). fold NewArmorEncoder in *. unfold armored, armor_Close.
  set (enc := armor_Write pieces NewArmorEncoder) in *. unfold element_Close. fold (is_open enc). destruct (is_open enc) eqn:Op; cbn [ee_w put].
  - exists (els ++ [body ++ (if chunkCounter enc =? 0 then [] else [10])]). split_and!.
    + apply Forall_app. split; [eapply Forall_impl; [exact Hels|]; cbn; intros b [? ?]; split; [lia|done]|]. repeat constructor.
      * rewrite len_app. unfold maxBody. destruct (_ =? 0); [change (len []) with 0|change (len [10]) with 1]; lia.
      * apply Forall_app. split; [done|]. destruct (_ =? 0); by repeat constructor.
    + rewrite concat_app. cbn [concat]. rewrite app_nil_r, app_assoc, strip_app, Ht. destruct (_ =? 0); by rewrite app_nil_r.
    + rewrite Hw, map_app, concat_app. cbn [map concat]. unfold element at 3. rewrite app_nil_r. destruct (_ =? 0); by rewrite ?app_nil_r, <- !app_assoc.
  - exists els. split_and!.
    + eapply Forall_impl; [exact Hels|]. cbn. intros b [? ?]. split; [lia|done].
    + unfold is_open in Op. apply orb_false_iff in Op as [E1%negb_false_iff E2%negb_false_iff]. apply Z.eqb_eq in E1, E2.
      assert (body = []) as ->; [apply length_zero_iff_nil; unfold len in Hl; lia|]. by rewrite app_nil_r in Ht.
    + rewrite Hw, app_nil_r. by rewrite <- ?app_assoc.
Qed.

(** *** Reading a page *)

Lemma skip_strip data : strip data = strip (drop (skip_whitespace data) data).
Proof.
  induction data as [|b t IH]; [done|]. cbn [skip_whitespace]. destruct (isASCIIWhitespace b) eqn:E; [|done]. cbn [drop].
  unfold strip at 1. rewrite filter_cons_False; [done|]. rewrite E. exact id.
Qed.

Lemma skip_head data c t : drop (skip_whitespace data) data = c :: t → isASCIIWhitespace c = false.
Proof. induction data as [|b s IH]; [done|]. cbn [skip_whitespace]. destruct (isASCIIWhitespace b) eqn:E; cbn [drop]; [apply IH|]. intros [= <- <-]. done. Qed.

Lemma find_strip data : match find_whitespace data with
  | Some n => (n < length data)%nat ∧ strip data = take n data ++ strip (drop (S n) data)
  | None => strip data = data
  end.
Proof.
  induction data as [|b t IH]; [done|]. cbn [find_whitespace]. destruct (isASCIIWhitespace b) eqn:E.
  - split; [cbn; lia|]. unfold strip. rewrite filter_cons_False by (rewrite E; exact id). done.
  - assert (strip (b :: t) = b :: strip t) as -> by (unfold strip; by rewrite filter_cons_True by (by rewrite E)).
    destruct (find_whitespace t) as [n|]; cbn [mbind option_bind]; [|by rewrite IH]. destruct IH as [? ->]. split; [cbn; lia|done].
Qed.

Lemma scan_words_strip fuel : ∀ data, (length data < fuel)%nat → concat (scan_words fuel data) = strip data.
Proof.
  induction fuel as [|fuel IH]; intros data Hl; [lia|]. cbn [scan_words]. unfold splitASCIIWhitespace. rewrite (skip_strip data).
  set (i := skip_whitespace data). pose proof (find_strip (drop i data)) as Hf. destruct (find_whitespace (drop i data)) as [n|].
  - destruct Hf as [Hn ->]. cbn [concat]. rewrite length_drop in Hn. rewrite IH by (rewrite length_drop; lia). rewrite drop_drop. do 3 f_equal. lia.
  - cbn [andb]. destruct (Nat.ltb_spec i (length data)); cbn [concat].
    + rewrite IH by (rewrite length_drop; lia). by rewrite drop_all, app_nil_r, Hf.
    + by rewrite drop_ge.
Qed.

Lemma body_plain b : body_ok b → plain ([10] ++ b).
Proof.
  intros Hb. unfold plain, body_ok in *. rewrite Forall_forall in Hb.
  split_and!; (rewrite elem_of_app, list_elem_of_singleton; intros [?|[?|?]%Hb]; lia).
Qed.

Section decoding.
Context `{HtmlLaws}.
Let n : Z := elementSizeLimit.

Lemma decode_not_pre ts ts' err : forallb not_pre ts = true → decode_tokens false (ts ++ ts') err = decode_tokens false ts' err.
Proof.
  induction ts as [|t ts IH]; [done|]. cbn [forallb]. intros [Ht Hts]%andb_true_iff. specialize (IH Hts).
  destruct t as [text|name|name|]; cbn [app decode_tokens not_pre] in *.
  - rewrite IH. by destruct (decode_tokens false ts' err).
  - apply negb_true_iff in Ht. by rewrite Ht.
  - apply negb_true_iff in Ht. by rewrite Ht.
  - done.
Qed.

(** What the decoder does with the rest of a page. *)
Definition reads (active : bool) (page : bytes) (ws : list bytes) : Prop := decode_tokens active (tokenize n page).1 (tokenize n page).2 = (ws, None).

Lemma reads_newline page ws : tag_start page = true → reads false page ws → reads false ([10] ++ page) ws.
Proof.
  intros Ht Hr. unfold reads. rewrite (html_text n [10] page); [|done|done| |done].
  - unfold tokens_then. cbn [fst snd app decode_tokens]. unfold reads in Hr. by rewrite Hr.
  - apply (body_plain []). constructor.
Qed.

Lemma reads_body b page ws : len b ≤ maxBody + 1 → body_ok b → tag_start page = true → reads true page ws →
  reads true ([10] ++ b ++ page) (scan_words (S (length ([10] ++ b))) ([10] ++ b) ++ ws).
Proof.
  intros Hl Hb Ht Hr. unfold reads. rewrite app_assoc, (html_text n ([10] ++ b) page); [|done| |by apply body_plain|done].
  - unfold tokens_then. cbn [fst snd]. change ([TextToken ([10] ++ b)] ++ (tokenize n page).1) with (TextToken ([10] ++ b) :: (tokenize n page).1). cbn [decode_tokens].
    unfold reads in Hr. by rewrite Hr.
  - rewrite len_app. change (len [10]) with 1. unfold maxBody, n, elementSizeLimit in *. lia.
Qed.

Lemma reads_end_pre page ws : reads false page ws → reads true (gs "</pre>" ++ page) ws.
Proof. intros Hr. unfold reads. rewrite html_end_pre by done. unfold tokens_then. cbn [fst snd app decode_tokens]. by rewrite bool_decide_eq_true_2. Qed.

Lemma reads_start_pre page ws : reads true page ws → reads false (gs "<pre>" ++ page) ws.
Proof. intros Hr. unfold reads. rewrite html_start_pre by done. unfold tokens_then. cbn [fst snd app decode_tokens]. by rewrite bool_decide_eq_true_2. Qed.

Lemma reads_elements els : Forall (λ b, len b ≤ maxBody + 1 ∧ body_ok b) els →
  ∃ ws, reads false ([10] ++ concat (map element els) ++ boilerplateEnd) ws ∧ concat ws = strip (concat els).
Proof.
  induction els as [|b els IH]; intros Hels; cbn [map concat].
  - exists []. split; [|done]. apply reads_newline; [done|]. destruct html_end as (ts & Hts & E). unfold reads, n. cbn [app]. rewrite E. cbn [fst snd].
    by rewrite <- (app_nil_r ts), decode_not_pre.
  - apply Forall_cons in Hels as [[Hl Hb] Hels]. destruct (IH Hels) as (ws & Hr & Hws). eexists. split.
    + unfold element, open_pre, close_pre. rewrite <- !app_assoc. apply reads_newline; [done|]. apply reads_start_pre, reads_body; [done|done|done|]. by apply reads_end_pre.
    + rewrite concat_app, Hws, scan_words_strip by lia. rewrite !strip_app. done.
Qed.

Lemma armored_decodes pieces : Forall text_ok pieces → NewArmorDecoder (armored pieces) = Ok (concat pieces, None).
Proof.
  intros Hp. destruct (armored_shape pieces Hp) as (els & Hels & Hs & ->). destruct (reads_elements els Hels) as (ws & Hr & Hws).
  unfold NewArmorDecoder, decodeToWriter, boilerplateStart. rewrite <- app_assoc. destruct html_head as (ts & Hts & E). rewrite E. unfold tokens_then.
  rewrite decode_not_pre by done. unfold reads in Hr. fold n. rewrite Hr, Hws, Hs. done.
Qed.

End decoding.

(** *** The base64 text *)

Lemma encode_length e l : padded e = true → ∃ k, length (encode e l) = (4 * k)%nat.
Proof.
  intros P. induction l as [|a|a b|a b c l [k IH]] using groups_ind; [by exists 0%nat|exists 1%nat..|exists (S k)]; cbn [encode]; unfold pad; rewrite ?P; cbn [app length replicate]; lia.
Qed.

Lemma encode_prefix e k : padded e = true → ∀ l, (4 * k ≤ length (encode e l))%nat →
  take (4 * k) (encode e l) = encode e (take (3 * k) l) ∧ drop (4 * k) (encode e l) = encode e (drop (3 * k) l).
Proof.
  intros P. induction k as [|k IH]; intros l Hl; [done|]. replace (4 * S k)%nat with (4 + 4 * k)%nat in * by lia. replace (3 * S k)%nat with (3 + 3 * k)%nat by lia.
  destruct l as [|a [|b [|c l]]]; cbn [encode] in *; unfold pad in *; rewrite ?P in *; cbn [app length replicate] in Hl; try lia.
  - replace k with 0%nat by lia. cbn -[digit pad]. unfold pad. by rewrite P.
  - replace k with 0%nat by lia. cbn -[digit pad]. unfold pad. by rewrite P.
  - cbn [app take drop Nat.add]. destruct (IH l) as [-> ->]; [lia|]. done.
Qed.

Lemma read_base64_encode `{Html} pieces : ∀ buf data, (length buf < 4)%nat → bytes_ok data → buf ++ concat pieces = encode StdEncoding data →
  read_base64 buf pieces None = Ok data.
Proof.
  assert (alphabet_ok StdEncoding) as Ha by (apply encoding_ok; by left).
  induction pieces as [|p pieces IH]; intros buf data Hb Hd E; cbn [read_base64 concat] in *.
  - rewrite app_nil_r in E. subst buf. destruct (encode_length StdEncoding data eq_refl) as [k Hk]. assert (encode StdEncoding data = []) as E by (apply length_zero_iff_nil; lia).
    rewrite bool_decide_eq_true_2 by done. pose proof (decode_digits_encode StdEncoding data Ha Hd) as D. rewrite E in D. by injection D as <-.
  - pose proof (encode_text StdEncoding data Ha Hd) as Ht. rewrite <- E in Ht. apply Forall_app in Ht as [_ Ht]. apply Forall_app in Ht as [Ht _].
    rewrite (text_newlines p Ht). rewrite app_assoc in E. set (b := buf ++ p) in *. destruct (Nat.ltb_spec (length b) 4) as [H4|H4]; [by apply IH|].
    set (k := (length b / 4)%nat). assert (4 * k ≤ length b < 4 * k + 4)%nat as Hk. { subst k. pose proof (Nat.div_mod_eq (length b) 4). pose proof (Nat.mod_upper_bound (length b) 4). lia. }
    replace (k * 4)%nat with (4 * k)%nat by lia. destruct (encode_prefix StdEncoding k eq_refl data) as [E1 E2]; [rewrite <- E, length_app; lia|].
    rewrite <- E in E1, E2. rewrite take_app_le in E1 by lia. rewrite drop_app_le in E2 by lia. rewrite E1, base64_roundtrip; [|done|by apply Forall_take].
    rewrite (IH (drop (4 * k) b) (drop (3 * k) data)); [cbn; by rewrite take_drop|rewrite length_drop; lia|by apply Forall_drop|done].
Qed.

End Armor.

(** ** The broker's endpoint (src/broker/amp.go) *)

Module AmpBroker.
Import Base64 Path Armor.

(** The writes of base64.NewEncoder for one Write and Close: up to 768 bytes at a
    time, and the one or two bytes that are left. *)
Fixpoint base64_writes (fuel : nat) (p : bytes) : list bytes :=
  match fuel with
  | O => []
  | S fuel =>
      if (3 <=? length p)%nat then
        let nn := (if 768 <=? length p then 768 else length p - length p mod 3)%nat in
        encode StdEncoding (take nn p) :: base64_writes fuel (drop nn p)
      else match p with [] => [] | _ => [encode StdEncoding p] end
  end.

Definition page (response : bytes) : bytes := armored (base64_writes (S (length response)) response).

Definition amp_response (response : bytes) : res error HTTP.response := Ok (MkResponse StatusOK (page response)).

Definition prefix : bytes := gs "/amp/client/".

Section endpoint.
Context `{ErrorTexts}.

Definition ampClientOffers_start (bridges : bridgeListHolder) (urlPath : bytes) : res error response + ClientOffer :=
  let path := TrimPrefix urlPath prefix in
  if bool_decide (path = urlPath) then inl (Ok (MkResponse StatusInternalServerError [])) else
  match DecodePath path with
  | Ok encPollReq =>
      match ClientOffers_start bridges encPollReq with
      | Panics => inl Panic
      | Failed _ => inl (Ok (MkResponse StatusInternalServerError []))
      | Replied r => inl (amp_response r)
      | Waits o => inr o
      end
  | _ => inl (amp_response (EncodeClientPollResponse (MkClientPollResponse [] (gs "cannot decode URL path"))))
  end.

Definition ampClientOffers_finish (remoteAddr natType : gostring) (result : client_result) (m : Metrics) : res error response * Metrics :=
  let '(b, m) := ClientOffers_finish remoteAddr RendezvousAmpCache natType result m in (amp_response b, m).

End endpoint.

(** *** Lemmas *)

Lemma encode_app e p q : (length p mod 3 = 0)%nat → encode e (p ++ q) = encode e p ++ encode e q.
Proof.
  induction p as [|a|a b|a b c p IH] using groups_ind; intros Hp; [done|done|done|]. cbn [app encode]. rewrite IH; [done|].
  cbn [length] in Hp. replace (S (S (S (length p)))) with (length p + 1 * 3)%nat in Hp by lia. by rewrite Nat.Div0.mod_add in Hp.
Qed.

Lemma base64_writes_encode fuel : ∀ p, (length p < fuel)%nat → concat (base64_writes fuel p) = encode StdEncoding p.
Proof.
  induction fuel as [|fuel IH]; intros p Hp; [lia|]. cbn [base64_writes]. destruct (Nat.leb_spec 3 (length p)) as [H3|H3].
  - set (nn := (if 768 <=? length p then 768 else length p - length p mod 3)%nat).
    pose proof (Nat.div_mod_eq (length p) 3) as Hd. pose proof (Nat.mod_upper_bound (length p) 3 ltac:(lia)) as Hm.
    assert (nn mod 3 = 0 ∧ 0 < nn ≤ length p)%nat as (Hn & Hr).
    { subst nn. destruct (Nat.leb_spec 768 (length p)); [split; [done|lia]|]. replace (length p - length p mod 3)%nat with (length p / 3 * 3)%nat by lia.
      split; [apply Nat.Div0.mod_mul|lia]. }
    cbn [concat]. rewrite IH by (rewrite length_drop; lia). rewrite <- encode_app; [by rewrite take_drop|]. by rewrite length_take, Nat.min_l by lia.
  - destruct p; [done|]. cbn [concat]. by rewrite app_nil_r.
Qed.

Lemma base64_writes_text fuel p : bytes_ok p → (length p < fuel)%nat → Forall text_ok (base64_writes fuel p).
Proof.
  intros Hp Hf. pose proof (encode_text StdEncoding p (encoding_ok _ (or_introl eq_refl)) Hp) as Ht. rewrite <- (base64_writes_encode fuel p Hf) in Ht.
  induction (base64_writes fuel p) as [|b l IH]; [constructor|]. cbn [concat] in Ht. apply Forall_app in Ht as [Hb Hl]. constructor; auto.
Qed.

Lemma path_request `{ErrorTexts} bridges cacheBreaker req o : bytes_ok req → ClientOffers_start bridges req = Waits o →
  ampClientOffers_start bridges (prefix ++ EncodePath cacheBreaker req) = inr o.
Proof.
  intros Hr Ho. unfold ampClientOffers_start, TrimPrefix, HasPrefix. rewrite take_app_length, (bool_decide_eq_true_2 (prefix = prefix)), drop_app_length by done.
  rewrite bool_decide_eq_false_2 by (intros E%(f_equal length); rewrite length_app in E; cbn in E; lia). by rewrite path_roundtrip, Ho.
Qed.

End AmpBroker.

(** ** The client's exchanges (src/client/lib) *)

Module Client.
Import Base64 Path Armor AmpBroker.

Definition brokerErrorUnexpected : gostring := gs "unexpected error, no answer".
Definition readLimit : Z := 100000.

Section exchange.
Context `{ErrorTexts} `{Html}.

Inductive exchange_error := Unexpected | ErrUnexpectedEOF | TransportError (e : error) | ArmorError (e : armor_error) | MessageError (e : error).

Definition limitedRead (body : bytes) (limit : Z) : res exchange_error bytes :=
  if limit + 1 <=? len body then Err ErrUnexpectedEOF else Ok body.

(** The transport, with or without a front domain, gives a response to a POST of
    a body. *)
Definition http_Exchange (transport : bytes → res error response) (encPollReq : bytes) : res exchange_error bytes :=
  resp ← map_err TransportError (transport encPollReq);
  if negb (status resp =? StatusOK) then Err Unexpected else limitedRead (body resp) readLimit.

(** Here it gives a response to a GET of a URL whose path, resolved against that
    of the broker or the cache, is the argument, and tells whether there is a
    Location.  [reads] are the reads of the pipe of the decoder. *)
Definition amp_Exchange (transport : bytes → res error (response * bool)) (reads : bytes → list bytes) (cacheBreaker encPollReq : bytes) : res exchange_error bytes :=
  '(resp, location) ← map_err TransportError (transport (gs "amp/client/" ++ EncodePath cacheBreaker encPollReq));
  if negb (status resp =? StatusOK) then Err Unexpected else
  if (location : bool) then Err Unexpected else
  '(text, err) ← map_err ArmorError (NewArmorDecoder (take (Z.to_nat (readLimit + 1)) (body resp)));
  encPollResp ← map_err ArmorError (read_base64 [] (reads text) err);
  if readLimit + 1 <=? len (body resp) then Err ErrUnexpectedEOF else Ok encPollResp.

Definition preparePollRequest `{WebRTC} (offer : SessionDescription) (natType bridgeFingerprint : gostring) : bytes :=
  (EncodeClientPollRequest (MkClientPollRequest (SerializeSessionDescription offer) natType bridgeFingerprint)).1.

Definition Negotiate `{WebRTC} (Exchange : bytes → res exchange_error bytes) (BridgeFingerprint : gostring) (offer : SessionDescription) (natTypeToSend : gostring) :
    res exchange_error SessionDescription :=
  encResp ← Exchange (preparePollRequest offer natTypeToSend BridgeFingerprint);
  resp ← map_err MessageError (DecodeClientPollResponse encResp);
  if negb (bool_decide (cr_Error resp = [])) then Err (MessageError (MkError (cr_Error resp))) else
  map_err MessageError (DeserializeSessionDescription (cr_Answer resp)).

End exchange.

(** *** The NAT type that is sent *)

(** NATPolicy: whether the client pretended to have an unrestricted NAT and failed. *)
Definition NATTypeToSend (failed : bool) (actualNatType : gostring) : gostring :=
  if negb failed && bool_decide (actualNatType = NATUnknown) then NATUnrestricted else actualNatType.

Definition Failure (actualNATType sentNATType : gostring) (failed : bool) : bool :=
  if bool_decide (actualNATType = NATUnknown) && bool_decide (sentNATType = NATUnrestricted) then true else failed.

(** *** Lemmas *)

Lemma utf8_bytes s : utf8 s → bytes_ok s.
Proof.
  induction 1 as [|r s Hr Hs IH]; [constructor|]. apply bytes_ok_app. split; [|done].
  destruct (encode_rune_cases r Hr) as [[? ->]|[[? ->]|[(? & _ & ->)|[? ->]]]]; repeat constructor; unfold is_byte; zlia.
Qed.

Lemma strings_utf8 ms : Forall (λ m, utf8 m.1 ∧ utf8 m.2) ms → utf8 (print (JObject (map (λ m, (m.1, JString m.2)) ms))).
Proof.
  intros Hms. apply (print_utf8 _ 0). constructor; [unfold maxNestingDepth; lia|]. apply Forall_map. eapply Forall_impl; [exact Hms|]. intros m [? ?]. split; [done|by constructor].
Qed.

Lemma request_utf8 `{WebRTCLaws} offer natType fp : utf8 (sd_SDP offer) → utf8 natType → utf8 fp → utf8 (preparePollRequest offer natType fp).
Proof.
  intros Ho Hn Hf. unfold preparePollRequest, EncodeClientPollRequest. cbn [fst cq_Offer cq_NAT cq_Fingerprint].
  apply utf8_app; [by apply utf8_ascii, ascii_utf8|]. apply utf8_app; [apply utf8_ascii; by repeat constructor|].
  apply (strings_utf8 [(gs "offer", _); (gs "nat", _); (gs "fingerprint", _)]). repeat constructor; cbn [fst snd]; try (by apply utf8_ascii, ascii_utf8); [|done|].
  - by apply marshal_description_object.
  - unfold default_fingerprint. case_match; [by apply utf8_ascii, ascii_utf8|done].
Qed.

Lemma response_utf8 answer : utf8 answer → answer ≠ [] → utf8 (EncodeClientPollResponse (MkClientPollResponse answer [])).
Proof.
  intros Ha Hne. unfold EncodeClientPollResponse, omitempty. cbn [cr_Answer cr_Error]. rewrite bool_decide_eq_false_2, bool_decide_eq_true_2 by done.
  apply (strings_utf8 [(gs "answer", answer)]). repeat constructor; [by apply utf8_ascii, ascii_utf8|done].
Qed.

Lemma answer_deserializes `{ErrorTexts} body req : DecodeProxyAnswerRequest body = Ok req → ∃ d, DeserializeSessionDescription (aq_Answer req) = Ok d.
Proof.
  unfold DecodeProxyAnswerRequest. intros (m & _ & E)%bind_Ok_inv. case_match; [done|]. case_match; [done|]. apply bind_Ok_inv in E as (d & E & [= <-]).
  destruct (DeserializeSessionDescription (aq_Answer m)) as [d'| |]; [by exists d'|done|done].
Qed.

(** *** Properties *)

Section properties.
Context `{ErrorTexts} `{HtmlLaws}.

Lemma amp_Exchange_page transport reads cacheBreaker req response : bytes_ok response → len (page response) ≤ readLimit → (∀ t, concat (reads t) = t) →
  transport (gs "amp/client/" ++ EncodePath cacheBreaker req) = Ok (MkResponse StatusOK (page response), false) →
  amp_Exchange transport reads cacheBreaker req = Ok response.
Proof.
  intros Hb Hl Hr Ht. unfold amp_Exchange. rewrite Ht. cbn [map_err mbind res_bind status body]. rewrite Z.eqb_refl. cbn [negb].
  rewrite take_ge by (unfold len in Hl; lia). pose proof (armored_decodes _ (base64_writes_text (S (length response)) response Hb ltac:(lia))) as D. fold (page response) in D. rewrite D.
  cbn [map_err mbind res_bind]. rewrite base64_writes_encode by lia. rewrite (read_base64_encode _ [] response); [|cbn; lia|done|by rewrite Hr].
  cbn [map_err mbind res_bind]. by rewrite (proj2 (Z.leb_gt _ _)) by lia.
Qed.

Lemma Negotiate_answer `{WebRTC} (Exchange : bytes → res exchange_error bytes) fp offer natType response answer d :
  Exchange (preparePollRequest offer natType fp) = Ok response → DecodeClientPollResponse response = Ok (MkClientPollResponse answer []) →
  DeserializeSessionDescription answer = Ok d → Negotiate Exchange fp offer natType = Ok d.
Proof. intros He Hr Hd. unfold Negotiate. rewrite He. cbn [mbind res_bind]. rewrite Hr. cbn. by rewrite Hd. Qed.

(** C3: a client gets the answer of the proxy it was matched with, over either
    rendezvous method.  When the broker delivers an answer to a client, the answer
    comes from a request with the identifier of the client's snowflake.  When the
    broker's response gets to the client, which has at most 100000 bytes, as it is
    or as an AMP page, then Negotiate returns the session description in that
    request; and the broker takes the same offer out of the path of the AMP
    request as out of the body. *)
Theorem negotiation_gets_answer `{WebRTCLaws} (bridges : bridgeListHolder) (pattern : gostring) (w w' : Broker.world) (a c : nat)
    (addr : gostring) (method : RendezvousMethod) (m : Metrics) (offer : SessionDescription) (natType fp : gostring) :
  Rendezvous.served bridges pattern w → Broker.exec (Broker.EDeliver a c) w = Ok w' → utf8 (sd_SDP offer) → utf8 natType → utf8 fp →
  let encReq := preparePollRequest offer natType fp in
  (∀ cacheBreaker o, ClientOffers_start bridges encReq = Waits o → ampClientOffers_start bridges (prefix ++ EncodePath cacheBreaker encReq) = inr o) ∧
  ∃ body req u p s answer,
    DecodeProxyAnswerRequest body = Ok req ∧ DeserializeSessionDescription (aq_Answer req) = Ok answer ∧
    Broker.w_clients w !! c = Some u ∧ Broker.ct_snowflake u = Some p ∧
    Broker.static (Broker.w_ctx w) p = Some s ∧ SnowflakeHeap.sf_id s = aq_Sid req ∧
    Broker.w_clients w' !! c = Some (Broker.MkClient (Broker.ct_offer u) (Some p) (Broker.CDelete (Answered (aq_Answer req)))) ∧
    let response := (ClientOffers_finish addr method (co_natType (Broker.ct_offer u)) (Answered (aq_Answer req)) m).1 in
    (∀ transport, transport encReq = Ok (MkResponse StatusOK response) → len response ≤ readLimit →
       Negotiate (http_Exchange transport) fp offer natType = Ok answer) ∧
    (∀ transport reads cacheBreaker, transport (gs "amp/client/" ++ EncodePath cacheBreaker encReq) = Ok (MkResponse StatusOK (page response), false) →
       (∀ t, concat (reads t) = t) → len (page response) ≤ readLimit → Negotiate (amp_Exchange transport reads cacheBreaker) fp offer natType = Ok answer).
Proof.
  intros Hs Hx Ho Hn Hf encReq. split; [intros; apply path_request; [by apply utf8_bytes, request_utf8|done]|].
  destruct (Rendezvous.answer_reaches_client bridges pattern w w' a c addr method m Hs Hx) as (body & req & u & p & s & Hreq & Hu & Hp & Hst & Hid & Hc & Hdec).
  destruct (answer_deserializes _ _ Hreq) as [d Hd]. destruct (Rendezvous.answer_request_ok _ _ Hreq) as [Hau Hane].
  exists body, req, u, p, s, d. split_and!; [done..|]. intros response. split.
  - intros transport Ht Hl. eapply Negotiate_answer; [|exact Hdec|exact Hd]. unfold http_Exchange. fold encReq. rewrite Ht. cbn [map_err mbind res_bind status HTTP.body].
    rewrite Z.eqb_refl. unfold limitedRead. cbn [negb]. by rewrite (proj2 (Z.leb_gt _ _)) by (fold response; lia).
  - intros transport reads cb Ht Hr Hl. eapply Negotiate_answer; [|exact Hdec|exact Hd]. apply amp_Exchange_page; [|done|done|exact Ht].
    by apply utf8_bytes, response_utf8.
Qed.

(** C40: what is put into an AMP page is read from it.  For every response there is
    no element of the page with more text than the decoder accepts, and the
    decoder returns the response, however its reads divide the text. *)
Theorem amp_page_roundtrip (response : bytes) (reads : bytes → list bytes) : bytes_ok response → (∀ t, concat (reads t) = t) →
  (∃ els, page response = boilerplateStart ++ concat (map element els) ++ boilerplateEnd ∧ Forall (λ b, len ([10] ++ b) < elementSizeLimit) els) ∧
  ∃ text, NewArmorDecoder (page response) = Ok (text, None) ∧ read_base64 [] (reads text) None = Ok response.
Proof.
  intros Hb Hr. pose proof (base64_writes_text (S (length response)) response Hb ltac:(lia)) as Hw. split.
  - destruct (armored_shape _ Hw) as (els & Hels & _ & E). exists els. split; [exact E|]. eapply Forall_impl; [exact Hels|]. cbn beta. intros b [Hl _].
    rewrite len_app. change (len [10]) with 1. unfold maxBody, elementSizeLimit in *. lia.
  - eexists. split; [exact (armored_decodes _ Hw)|]. rewrite base64_writes_encode by lia. apply read_base64_encode; [cbn; lia|done|by rewrite Hr].
Qed.

End properties.

(** After an attempt with a pretended NAT type that failed the client sends its
    own. *)
Theorem nat_policy_gives_up (failed : bool) (actual : gostring) : actual ≠ NATUnrestricted → NATTypeToSend failed actual ≠ actual →
  NATTypeToSend (Failure actual (NATTypeToSend failed actual) failed) actual = actual.
Proof. intros Hu Hs. unfold NATTypeToSend, Failure in *. destruct failed; [done|]. cbn in *. case_bool_decide; [|done]. by cbn. Qed.

(** *** An example *)

Module Demo.

(** A tokenizer for pages without comments, scripts and entities. *)
Definition tag_token (t : bytes) : token :=
  match t with
  | 33 :: _ => OtherToken
  | 47 :: t => EndTagToken (split2 32 t).1
  | _ => StartTagToken (split2 32 t).1
  end.

Definition text_token (text : bytes) : list token := match text with [] => [] | _ => [TextToken text] end.

(** [acc] is the text, or the tag, that was read so far. *)
Fixpoint lex (tag : bool) (acc page : bytes) : list token :=
  match page with
  | [] => if tag then [] else text_token acc
  | c :: page =>
      if (tag : bool) then (if c =? 62 then tag_token acc :: lex false [] page else lex true (acc ++ [c]) page)
      else if c =? 60 then text_token acc ++ lex true [] page else lex false (acc ++ [c]) page
  end.

#[local] Instance html : Html := {| html_error := unit; tokenize := λ _ page, (lex false [] page, None) |}.

Lemma lex_text t : ∀ acc r, 60 ∉ t → lex false acc (t ++ 60 :: r) = text_token (acc ++ t) ++ lex true [] r.
Proof.
  induction t as [|c t IH]; intros acc r Ht; cbn [app lex]; [by rewrite Z.eqb_refl, app_nil_r|]. apply not_elem_of_cons in Ht as [Hc Ht].
  rewrite (proj2 (Z.eqb_neq c 60)) by congruence. rewrite IH by done. by rewrite <- app_assoc.
Qed.

#[local] Instance html_laws : HtmlLaws.
Proof.
  split.
  - intros n t r Hne _ (H60 & _) Hr. cbn [tokenize html]. unfold tokens_then. cbn [fst snd]. f_equal. destruct r as [|c r]; [done|].
    assert (c = 60) as ->. { destruct c as [|q|q]; try done. do 6 (destruct q as [q|q|]; try done). }
    rewrite lex_text by done. cbn [app]. destruct t; [done|]. cbn [text_token lex]. done.
  - done.
  - done.
  - exists (lex false [] boilerplateHead). split; [vm_compute; reflexivity|]. intros r. cbv. reflexivity.
  - exists (lex false [] boilerplateEnd). split; vm_compute; reflexivity.
Qed.

#[local] Instance webrtc : WebRTC :=
  {| marshal_description d := print (JObject [(gs "type", JString (type_name (sd_Type d))); (gs "sdp", JString (sd_SDP d))]) |}.

Lemma type_utf8 t : utf8 (type_name t).
Proof. destruct t; by apply utf8_ascii, ascii_utf8. Qed.

#[local] Instance webrtc_laws : WebRTCLaws.
Proof.
  constructor. intros d Hd. cbn [marshal_description webrtc]. split.
  - apply (strings_utf8 [(gs "type", _); (gs "sdp", _)]). repeat constructor; [by apply utf8_ascii, ascii_utf8|apply type_utf8|by apply utf8_ascii, ascii_utf8|done].
  - eexists. split; [apply parse_print; constructor; [unfold maxNestingDepth; lia|]|split_and!; [by repeat constructor|done|done]].
    repeat constructor; cbn [fst]; try (by apply utf8_ascii, ascii_utf8); [apply type_utf8|done].
Qed.

#[local] Existing Instance Rendezvous.Demo.texts.

Definition offer : SessionDescription := MkDescription SDPTypeOffer (gs "v=0").
Definition answer : SessionDescription := MkDescription SDPTypeAnswer (gs "v=0").
Definition response : bytes :=
  (ClientOffers_finish (gs "10.0.0.2") RendezvousAmpCache (co_natType Rendezvous.Demo.offer) (Answered (Rendezvous.Demo.description (gs "answer"))) Metrics.NewMetrics).1.

Lemma amp_page_roundtrip_witness : ∃ text, NewArmorDecoder (page response) = Ok (text, None) ∧ read_base64 [] [take 7 text; drop 7 text] None = Ok response.
Proof.
  refine (proj2 (amp_page_roundtrip response (λ t, [take 7 t; drop 7 t]) _ _)).
  - apply Forall_forall. intros b Hb. assert (forallb (λ b, (0 <=? b) && (b <? 2 ^ 8)) response = true) as Ht by (vm_compute; reflexivity).
    rewrite List.forallb_forall in Ht. apply list_elem_of_In, Ht, andb_true_iff in Hb as [?%Z.leb_le ?%Z.ltb_lt]. done.
  - intros t. cbn [concat]. by rewrite app_nil_r, take_drop.
Defined.

Lemma negotiation_gets_answer_witness :
  Negotiate (http_Exchange (λ _, Ok (MkResponse StatusOK response))) [] offer (gs "restricted") = Ok answer ∧
  Negotiate (amp_Exchange (λ _, Ok (MkResponse StatusOK (page response), false)) (λ t, [t]) (zeros 9)) [] offer (gs "restricted") = Ok answer.
Proof.
  destruct (negotiation_gets_answer Rendezvous.Demo.bridges [] (Broker.after Rendezvous.Demo.answered)
    (Broker.after (Rendezvous.Demo.answered ++ [Broker.EDeliver 0 0]%nat)) 0%nat 0%nat (gs "10.0.0.2") RendezvousAmpCache Metrics.NewMetrics offer (gs "restricted") [])
    as (_ & body & req & u & p & s & d & _ & Hd & Hu & _ & _ & _ & Hc & Hhttp & Hamp).
  - apply Rendezvous.Demo.after_served; [exact Rendezvous.Demo.answered_requested|eexists; vm_compute; reflexivity].
  - vm_compute. reflexivity.
  - by apply utf8_ascii, ascii_utf8.
  - by apply utf8_ascii, ascii_utf8.
  - apply utf8_nil.
  - assert (aq_Answer req = Rendezvous.Demo.description (gs "answer") ∧ Broker.ct_offer u = Rendezvous.Demo.offer) as [Ea Eo].
    { vm_compute in Hu. injection Hu as <-. vm_compute in Hc. injection Hc as _ Hc. split; [exact (eq_sym Hc)|reflexivity]. }
    rewrite Ea in *. rewrite Eo in *. assert (d = answer) as ->. { vm_compute in Hd. by injection Hd as <-. }
    fold response in Hhttp, Hamp. split; [refine (Hhttp _ eq_refl _)|refine (Hamp _ (λ t, [t]) _ eq_refl _ _)].
    + apply Z.leb_le. vm_compute. reflexivity.
    + intros t. cbn [concat]. by rewrite app_nil_r.
    + apply Z.leb_le. vm_compute. reflexivity.
Defined.

End Demo.

End Client.
