(* ===== verification/ClientPeer.v ===== *)
(** * The client's connection to a proxy (src/client/lib/webrtc.go)

    [WebRTCPeer] holds a peer connection of pion/webrtc with its one data channel.
    What the calls of the library return is given ([library]); the rendezvous is
    [Amp.Client.Negotiate].  The callbacks of the data channel, the goroutine
    checkForStaleness, the reader of the pipe and Close run in any order, as the
    events of [exec], already while connect waits for the data channel. *)
From stdpp Require Import base tactics numbers list strings relations.
From Stdlib Require Import ZArith Lia.
From S2P Require Import Prelude Json Messages BrokerIpc Amp.
Import Json SessionDescription Messages HTTP Armor Client.
Open Scope Z_scope.

Module ClientPeer.

(** Times are in nanoseconds. *)
Definition second : Z := 1000000000.
Definition SnowflakeTimeout : Z := 20 * second.

(** checkForStaleness: not started; in front of its first statement, or of the
    first turn of its loop, since a time; with the time it loaded from lastReceive
    and in front of the comparison, since a time; waiting until a time; returned. *)
Inductive watcher := NotStarted | Starting (since : Z) | Started (since : Z) | Loaded (last since : Z) | Sleeping (wake : Z) | Ended.

(** The callback OnMessage: no call, a call that has the rest of a message to
    write to the pipe, or a call whose write has returned. *)
Inductive receiving := Idle | Writing (rest : bytes) | Written.

(** [wp_pc], [wp_transport]: nil, or whether it is open; [wp_open], [wp_closed]:
    the channel is closed; [wp_pipe]: the pipe is open. *)
Record WebRTCPeer := MkPeer {
  wp_pc : option bool; wp_transport : option bool; wp_open : bool; wp_closed : bool; wp_pipe : bool;
  wp_lastReceive : Z; wp_watcher : watcher; wp_receiving : receiving
}.

Definition set_pc v c := MkPeer (Some v) (wp_transport c) (wp_open c) (wp_closed c) (wp_pipe c) (wp_lastReceive c) (wp_watcher c) (wp_receiving c).
Definition set_transport v c := MkPeer (wp_pc c) (Some v) (wp_open c) (wp_closed c) (wp_pipe c) (wp_lastReceive c) (wp_watcher c) (wp_receiving c).
Definition set_open c := MkPeer (wp_pc c) (wp_transport c) true (wp_closed c) (wp_pipe c) (wp_lastReceive c) (wp_watcher c) (wp_receiving c).
Definition set_closed c := MkPeer (wp_pc c) (wp_transport c) (wp_open c) true (wp_pipe c) (wp_lastReceive c) (wp_watcher c) (wp_receiving c).
Definition set_lastReceive v c := MkPeer (wp_pc c) (wp_transport c) (wp_open c) (wp_closed c) (wp_pipe c) v (wp_watcher c) (wp_receiving c).
Definition set_watcher v c := MkPeer (wp_pc c) (wp_transport c) (wp_open c) (wp_closed c) (wp_pipe c) (wp_lastReceive c) v (wp_receiving c).
Definition set_receiving v c := MkPeer (wp_pc c) (wp_transport c) (wp_open c) (wp_closed c) (wp_pipe c) (wp_lastReceive c) (wp_watcher c) v.

Definition new_peer : WebRTCPeer := MkPeer None None false false true 0 NotStarted Idle.

Definition Closed (c : WebRTCPeer) : bool := wp_closed c.

(** What exists is closed. *)
Definition cleanup (c : WebRTCPeer) : WebRTCPeer :=
  MkPeer ((λ _, false) <$> wp_pc c) ((λ _, false) <$> wp_transport c) (wp_open c) (wp_closed c) false (wp_lastReceive c) (wp_watcher c) (wp_receiving c).

(** Because of [once] only the first call has an effect. *)
Definition Close (c : WebRTCPeer) : WebRTCPeer := if wp_closed c then c else cleanup (set_closed c).

(** A read of at most [n] bytes from the pipe: [None] while it blocks, and no
    bytes for the end of the file, when the other side of the pipe was closed. *)
Definition Read (n : nat) (c : WebRTCPeer) : option (option bytes * WebRTCPeer) :=
  if negb (wp_pipe c) then Some (None, c) else
  match wp_receiving c with
  | Writing rest => Some (Some (take n rest), set_receiving (match drop n rest with [] => Written | rest' => Writing rest' end) c)
  | _ => None
  end.

(** Send of the data channel fails, or takes the bytes. *)
Definition Write (send : bytes → option error) (b : bytes) : Z * option error :=
  match send b with
  | Some err => (0, Some err)
  | None => (len b, None)
  end.

(** ** The callbacks and goroutines of a peer *)

(** [wd_received]: the bytes of the messages given to OnMessage; [wd_read]: the
    bytes that were read; [wd_stale]: checkForStaleness closed the peer;
    [wd_handled]: the times at which calls of OnMessage were done. *)
Record world := MkWorld { wd_peer : WebRTCPeer; wd_clock : Z; wd_received : bytes; wd_read : bytes; wd_stale : bool; wd_handled : list Z }.

Definition upd (f : WebRTCPeer → WebRTCPeer) (w : world) : world := MkWorld (f (wd_peer w)) (wd_clock w) (wd_received w) (wd_read w) (wd_stale w) (wd_handled w).

Inductive event :=
  | ETick (now : Z)          (* time passes *)
  | EOnOpen                  (* OnOpen, which the library calls once *)
  | EClose                   (* OnClose, or a call of Close *)
  | EOnMessage (data : bytes) (* OnMessage, up to the write to the pipe; its calls do not overlap *)
  | EReceived                (* the rest of OnMessage, when the write has returned or the pipe is closed *)
  | ERead (n : nat)          (* Read *)
  | EWrite (b : bytes)       (* Write, which changes no field of the peer *)
  | EStart                   (* checkForStaleness: its first statement *)
  | ELoad                    (* a turn of the loop: it reads lastReceive *)
  | ECompare                 (* it compares the time, and closes the peer or waits *)
  | EDone.                   (* it waits, and the peer is closed *)

Definition onMessage (data : bytes) (w : world) : option world :=
  match wp_receiving (wd_peer w) with
  | Idle => Some (MkWorld (set_receiving (Writing data) (wd_peer w)) (wd_clock w) (wd_received w ++ data) (wd_read w) (wd_stale w) (wd_handled w))
  | _ => None
  end.

Definition received (w : world) : option world :=
  let c := wd_peer w in
  if match wp_receiving c with Idle => false | Writing _ => negb (wp_pipe c) | Written => true end
  then Some (MkWorld (set_receiving Idle (set_lastReceive (wd_clock w) c)) (wd_clock w) (wd_received w) (wd_read w) (wd_stale w) (wd_handled w ++ [wd_clock w])) else None.

Definition read (n : nat) (w : world) : option world :=
  match Read n (wd_peer w) with
  | Some (b, c) => Some (MkWorld c (wd_clock w) (wd_received w) (wd_read w ++ default [] b) (wd_stale w) (wd_handled w))
  | None => None
  end.

Definition checkForStaleness_start (w : world) : option world :=
  match wp_watcher (wd_peer w) with
  | Starting _ => Some (upd (λ c, set_watcher (Started (wd_clock w)) (set_lastReceive (wd_clock w) c)) w)
  | _ => None
  end.

Definition checkForStaleness_load (w : world) : option world :=
  let load := upd (λ c, set_watcher (Loaded (wp_lastReceive c) (wd_clock w)) c) w in
  match wp_watcher (wd_peer w) with
  | Started _ => Some load
  | Sleeping wake => if wake <=? wd_clock w then Some load else None
  | _ => None
  end.

Definition checkForStaleness_compare (timeout : Z) (w : world) : option world :=
  match wp_watcher (wd_peer w) with
  | Loaded last _ =>
      if timeout <? wd_clock w - last
      then Some (MkWorld (set_watcher Ended (Close (wd_peer w))) (wd_clock w) (wd_received w) (wd_read w) true (wd_handled w))
      else Some (upd (set_watcher (Sleeping (wd_clock w + second))) w)
  | _ => None
  end.

Definition checkForStaleness_done (w : world) : option world :=
  match wp_watcher (wd_peer w) with
  | Sleeping _ => if wp_closed (wd_peer w) then Some (upd (set_watcher Ended) w) else None
  | _ => None
  end.

Definition exec (e : event) (w : world) : option world :=
  match e with
  | ETick now => if wd_clock w <=? now then Some (MkWorld (wd_peer w) now (wd_received w) (wd_read w) (wd_stale w) (wd_handled w)) else None
  | EOnOpen => if wp_open (wd_peer w) then None else Some (upd set_open w)
  | EClose => Some (upd Close w)
  | EOnMessage data => onMessage data w
  | EReceived => received w
  | ERead n => read n w
  | EWrite _ => Some w
  | EStart => checkForStaleness_start w
  | ELoad => checkForStaleness_load w
  | ECompare => checkForStaleness_compare SnowflakeTimeout w
  | EDone => checkForStaleness_done w
  end.

(** The events one after the other; one that cannot happen is left out. *)
Definition happen (es : list event) (w : world) : world := fold_left (λ w e, default w (exec e w)) es w.

(** ** Making a peer *)

(** The results of the library.  [l_proxy] is that of CheckProxyProtocolSupport,
    when there is a proxy; [l_events] happens while connect waits for the data
    channel, and [l_timeout]: it takes the timeout although the channel is open. *)
Record library := MkLibrary {
  l_proxy : option bool; l_NewPeerConnection : bool; l_CreateDataChannel : bool; l_CreateOffer : bool; l_SetLocalDescription : bool;
  l_LocalDescription : SessionDescription; l_SetRemoteDescription : bool; l_events : list event; l_timeout : bool
}.

Inductive peer_error := LibraryError | NegotiationError | TimeoutError.

Definition preparePeerConnection (l : library) (c : WebRTCPeer) : WebRTCPeer * option peer_error :=
  if match l_proxy l with Some supported => negb supported | None => false end then (c, Some LibraryError) else
  if negb (l_NewPeerConnection l) then (c, Some LibraryError) else
  let c := set_pc true c in
  if negb (l_CreateDataChannel l) then (c, Some LibraryError) else
  let c := set_transport true c in
  if negb (l_CreateOffer l) then (set_pc false c, Some LibraryError) else
  if negb (l_SetLocalDescription l) then (set_pc false c, Some LibraryError) else (c, None).

Record BrokerChannel := MkBrokerChannel { bc_natType : gostring; bc_BridgeFingerprint : gostring }.

Definition SetNATType (t : gostring) (bc : BrokerChannel) : BrokerChannel := MkBrokerChannel t (bc_BridgeFingerprint bc).
Definition GetNATType (bc : BrokerChannel) : gostring := bc_natType bc.

(** The policy, if there is one: whether an attempt with a pretended NAT type failed. *)
Definition natTypeToSend (policy : option bool) (actual : gostring) : gostring :=
  match policy with Some failed => NATTypeToSend failed actual | None => actual end.
Definition natFailure (policy : option bool) (actual sent : gostring) : option bool := Failure actual sent <$> policy.

(** The new peer in its world. *)
Definition born (c : WebRTCPeer) (clock : Z) : world := MkWorld c clock [] [] false [].

Section connect.
Context `{ErrorTexts} `{Html} `{WebRTC}.
Variable Exchange : bytes → res exchange_error bytes.

(** The method LocalDescription of a nil peer connection panics. *)
Definition connect (l : library) (bc : BrokerChannel) (policy : option bool) (clock : Z) (c : WebRTCPeer) : res unit (world * option bool * option peer_error) :=
  let '(c, err) := preparePeerConnection l c in
  match wp_pc c, err with
  | None, _ => Panic
  | Some _, Some e => Ok (born c clock, policy, Some e)
  | Some _, None =>
      let actualNatType := GetNATType bc in
      let sent := natTypeToSend policy actualNatType in
      match Negotiate Exchange (bc_BridgeFingerprint bc) (l_LocalDescription l) sent with
      | Panic => Panic
      | Err _ => Ok (born c clock, policy, Some NegotiationError)
      | Ok answer =>
          if negb (l_SetRemoteDescription l) then Ok (born c clock, policy, Some LibraryError) else
          let w := happen (l_events l) (born c clock) in
          if wp_open (wd_peer w) && negb (l_timeout l)
          then Ok (upd (set_watcher (Starting (wd_clock w))) w, policy, None)
          else Ok (upd (set_transport false) w, natFailure policy actualNatType sent, Some TimeoutError)
      end
  end.

(** The world of the new peer, or an error with the world of the peer, which was
    closed; and the policy afterwards. *)
Definition NewWebRTCPeer (l : library) (bc : BrokerChannel) (policy : option bool) (clock : Z) : res unit ((world + peer_error * world) * option bool) :=
  '(w, policy, err) ← connect l bc policy clock new_peer;
  match err with
  | Some e => Ok (inr (e, upd Close w), policy)
  | None => Ok (inl w, policy)
  end.

End connect.

(** ** Lemmas *)

(** Everything that was made is closed. *)
Definition released (c : WebRTCPeer) : Prop := wp_closed c = true ∧ wp_pipe c = false ∧ wp_pc c ≠ Some true ∧ wp_transport c ≠ Some true.

(** A peer is closed with all that it has, or not at all. *)
Definition whole (c : WebRTCPeer) : Prop :=
  if wp_closed c then released c else wp_pc c = Some true ∧ wp_transport c = Some true ∧ wp_pipe c = true.

Lemma Close_released c : wp_closed c = false ∨ whole c → released (Close c).
Proof.
  unfold Close, whole. destruct (wp_closed c) eqn:Hc; [by intros [?|?]|]. intros _. unfold released, cleanup. cbn.
  by destruct (wp_pc c), (wp_transport c).
Qed.

Lemma Close_whole c : whole c → whole (Close c).
Proof. intros Hc. pose proof (Close_released c (or_intror Hc)) as Hr. unfold whole. by rewrite (proj1 Hr). Qed.

Lemma Close_watcher c : wp_watcher (Close c) = wp_watcher c.
Proof. unfold Close. by case_match. Qed.
Lemma Close_lastReceive c : wp_lastReceive (Close c) = wp_lastReceive c.
Proof. unfold Close. by case_match. Qed.
Lemma Close_receiving c : wp_receiving (Close c) = wp_receiving c.
Proof. unfold Close. by case_match. Qed.
Lemma Close_closed c : wp_closed (Close c) = true.
Proof. unfold Close. by destruct (wp_closed c) eqn:?. Qed.

Create Rewrite HintDb peer.
#[export] Hint Rewrite Close_watcher Close_lastReceive Close_receiving Close_closed : peer.

(** The cases of an event that happened. *)
Ltac event_cases e E :=
  destruct e; cbn [exec] in E;
  unfold onMessage, received, read, Read, checkForStaleness_start, checkForStaleness_load, checkForStaleness_compare, checkForStaleness_done in E;
  repeat case_match; simplify_eq.

Lemma exec_whole e w w' : exec e w = Some w' → whole (wd_peer w) → whole (wd_peer w').
Proof. intros E Hw. event_cases e E; try exact Hw; exact (Close_whole _ Hw). Qed.

(** A peer is closed by a call of Close, or because it is stale. *)
Lemma exec_closed e w w' : exec e w = Some w' → e ≠ EClose → wd_stale w' = false → wp_closed (wd_peer w') = wp_closed (wd_peer w).
Proof. intros E He Hs. event_cases e E; done. Qed.

Lemma exec_unwatched e w w' : exec e w = Some w' → wp_watcher (wd_peer w) = NotStarted → wp_watcher (wd_peer w') = NotStarted ∧ wd_stale w' = wd_stale w.
Proof. intros E Hn. event_cases e E; split; cbn; autorewrite with peer; done. Qed.

Lemma is_close_dec e : e = EClose ∨ e ≠ EClose.
Proof. destruct e; naive_solver. Qed.

Lemma happen_ind (P : world → Prop) es w : (∀ e w w', e ∈ es → exec e w = Some w' → P w → P w') → P w → P (happen es w).
Proof.
  unfold happen. revert w. induction es as [|e es IH]; intros w Hs Hw; [done|]. cbn [fold_left]. apply IH.
  - intros e' w1 w2 He'. apply Hs. by right.
  - destruct (exec e w) eqn:E; [|done]. cbn. eapply Hs; [left|exact E|done].
Qed.

(** *** The bytes of the pipe *)

Definition pending (r : receiving) : bytes := match r with Writing rest => rest | _ => [] end.

(** While the pipe is open, what was received is what was read and what waits. *)
Definition in_order (w : world) : Prop :=
  if wp_pipe (wd_peer w) then wd_received w = wd_read w ++ pending (wp_receiving (wd_peer w)) else wd_read w `prefix_of` wd_received w.

Lemma in_order_prefix w : in_order w → wd_read w `prefix_of` wd_received w.
Proof. unfold in_order. case_match; [|done]. intros ->. by apply prefix_app_r. Qed.

Lemma in_order_closed w : in_order w → in_order (upd Close w).
Proof.
  intros Hw. unfold in_order. cbn [upd wd_peer wd_read wd_received]. unfold Close. destruct (wp_closed _); [exact Hw|]. cbn. by apply in_order_prefix.
Qed.

Lemma received_in_order w w' : received w = Some w' → in_order w → in_order w'.
Proof.
  unfold received, in_order. case_match eqn:C; [|done]. intros [= <-]. cbn. destruct (wp_receiving (wd_peer w)), (wp_pipe (wd_peer w)); done.
Qed.

Lemma read_in_order n w w' : read n w = Some w' → in_order w → in_order w'.
Proof.
  unfold read, Read, in_order. destruct (wp_pipe (wd_peer w)) eqn:P; cbn [negb].
  - destruct (wp_receiving (wd_peer w)) as [|rest|] eqn:R; try done. intros [= <-]. cbn. rewrite P. intros ->.
    rewrite <- app_assoc. f_equal. rewrite <- (take_drop n rest) at 1. f_equal. by destruct (drop n rest).
  - intros [= <-]. cbn. by rewrite P, app_nil_r.
Qed.

Lemma exec_in_order e w w' : exec e w = Some w' → in_order w → in_order w'.
Proof.
  intros E Hw. assert (e = EReceived ∨ (∃ n, e = ERead n) ∨ e = EClose ∨ (e ≠ EReceived ∧ (∀ n, e ≠ ERead n) ∧ e ≠ EClose)) as [->|[[n ->]|[->|(H1 & H2 & H3)]]] by (destruct e; naive_solver).
  - by eapply received_in_order.
  - by eapply read_in_order.
  - injection E as <-. by apply in_order_closed.
  - event_cases e E; try done; try exact Hw; try (by destruct (H2 n)); [|by apply (in_order_closed w)]. revert Hw. unfold in_order. cbn. rewrite H. case_match; [intros ->; by rewrite app_nil_r|]. intros. by apply prefix_app_r.
Qed.

(** *** The clock *)

(** The time by which the goroutine takes its next step, when it is at most
    [delay] late. *)
Definition deadline (delay : Z) (c : WebRTCPeer) : option Z :=
  match wp_watcher c with
  | Starting t | Started t | Loaded _ t | Sleeping t => Some (t + delay)
  | NotStarted | Ended => None
  end.

Definition timely (delay : Z) (e : event) (w : world) : Prop :=
  match e, deadline delay (wd_peer w) with
  | ETick now, Some t => now ≤ t
  | _, _ => True
  end.

Definition step (delay : Z) (w w' : world) : Prop := ∃ e, exec e w = Some w' ∧ timely delay e w.

(** The steps of the goroutine itself. *)
Definition of_watcher (e : event) : Prop := match e with EStart | ELoad | ECompare | EDone => True | _ => False end.

(** What the program counter of the goroutine says about the times; [t0] is the time
    when the peer was made. *)
Definition watcher_ok (delay t0 : Z) (w : world) : Prop :=
  match wp_watcher (wd_peer w) with
  | NotStarted => False
  | Starting t => t = t0 ∧ wd_clock w ≤ t + delay
  | Started t => t0 ≤ wp_lastReceive (wd_peer w) ∧ t ≤ wp_lastReceive (wd_peer w) ∧ wd_clock w ≤ t + delay
  | Loaded last t => t0 ≤ last ∧ (last = wp_lastReceive (wd_peer w) ∨ t ≤ wp_lastReceive (wd_peer w)) ∧ last ≤ t ≤ wd_clock w ∧ t ≤ last + SnowflakeTimeout + second + delay ∧ wd_clock w ≤ t + delay
  | Sleeping t => t0 ≤ wp_lastReceive (wd_peer w) ∧ t ≤ wp_lastReceive (wd_peer w) + SnowflakeTimeout + second ∧ wd_clock w ≤ t + delay
  | Ended => True
  end.

Record watched (delay t0 : Z) (w : world) : Prop := {
  watched_clock : t0 ≤ wd_clock w;
  watched_receive : wp_lastReceive (wd_peer w) ≤ wd_clock w;
  watched_ended : wp_watcher (wd_peer w) = Ended → wp_closed (wd_peer w) = true;
  watched_stale : wd_stale w = true → wp_closed (wd_peer w) = true;
  watched_handled : Forall (λ t, t ≤ wp_lastReceive (wd_peer w)) (wd_handled w);
  watched_loaded last t : wp_watcher (wd_peer w) = Loaded last t → Forall (λ x, x ≤ last ∨ t ≤ x) (wd_handled w);
  watched_pc : watcher_ok delay t0 w
}.

Lemma Forall_before (l : list Z) a b : a ≤ b → Forall (λ t, t ≤ a) l → Forall (λ t, t ≤ b) l.
Proof. intros Hab Hl. eapply Forall_impl; [exact Hl|]. intros t Ht. cbn in *. lia. Qed.

(** The history of messages. *)
Lemma step_handled e w w' : exec e w = Some w' → wp_lastReceive (wd_peer w) ≤ wd_clock w → Forall (λ t, t ≤ wp_lastReceive (wd_peer w)) (wd_handled w) →
  Forall (λ t, t ≤ wp_lastReceive (wd_peer w')) (wd_handled w') ∧ wp_lastReceive (wd_peer w) ≤ wp_lastReceive (wd_peer w').
Proof.
  intros E Hr Hh. event_cases e E; cbn; autorewrite with peer; (split; [|lia]); try done; try (by eapply Forall_before).
  all: apply Forall_app; split; [by eapply Forall_before|constructor; [lia|constructor]].
Qed.

Lemma step_loaded e w w' : exec e w = Some w' → wp_lastReceive (wd_peer w) ≤ wd_clock w → Forall (λ t, t ≤ wp_lastReceive (wd_peer w)) (wd_handled w) →
  (∀ last t, wp_watcher (wd_peer w) = Loaded last t → t ≤ wd_clock w ∧ Forall (λ x, x ≤ last ∨ t ≤ x) (wd_handled w)) →
  ∀ last t, wp_watcher (wd_peer w') = Loaded last t → Forall (λ x, x ≤ last ∨ t ≤ x) (wd_handled w').
Proof.
  intros E Hr Hh Hl last0 t0. event_cases e E; cbn; autorewrite with peer; intros Hw; simplify_eq; try (by destruct (Hl _ _ Hw)).
  1, 2: destruct (Hl _ _ Hw) as [? Hf]; apply Forall_app; split; [done|]; constructor; [by right|constructor].
  all: eapply Forall_impl; [exact Hh|]; cbn; lia.
Qed.

Lemma step_watched delay t0 w w' : 0 ≤ delay → step delay w w' → watched delay t0 w → watched delay t0 w'.
Proof.
  intros Hd (e & E & Ht) [Hc Hr He Hs Hh Hl Hp]. pose proof Close_closed. destruct (step_handled e w w' E Hr Hh) as [Hh' _].
  assert (∀ last t, wp_watcher (wd_peer w') = Loaded last t → Forall (λ x, x ≤ last ∨ t ≤ x) (wd_handled w')) as Hl'.
  { eapply step_loaded; [done..|]. intros last t Hw. split; [unfold watcher_ok in Hp; rewrite Hw in Hp; lia|eauto]. }
  cut (t0 ≤ wd_clock w' ∧ wp_lastReceive (wd_peer w') ≤ wd_clock w' ∧ (wp_watcher (wd_peer w') = Ended → wp_closed (wd_peer w') = true) ∧
    (wd_stale w' = true → wp_closed (wd_peer w') = true) ∧ watcher_ok delay t0 w'); [intros (? & ? & ? & ? & ?); by split|].
  clear Hh Hh' Hl Hl'. unfold SnowflakeTimeout, second, timely, deadline in *.
  event_cases e E; unfold watcher_ok in *; cbn in *; autorewrite with peer; repeat case_match; simplify_eq/=; split_and!; try done; try lia.
  all: try congruence; try (intros; by apply He); unfold SnowflakeTimeout, second in *; lia.
Qed.

(** Whenever the peer is not closed, the goroutine has a step, or time can pass. *)
Lemma watcher_progress delay t0 w : 0 ≤ delay → watched delay t0 w → wp_closed (wd_peer w) = false →
  (∃ e w', of_watcher e ∧ exec e w = Some w') ∨ (timely delay (ETick (wd_clock w + 1)) w ∧ is_Some (exec (ETick (wd_clock w + 1)) w)).
Proof.
  intros Hd [_ _ He _ _ _ Hp] Hc. unfold watcher_ok in Hp. unfold timely, deadline. destruct (wp_watcher (wd_peer w)) as [|t|t|last t|t|] eqn:W; [done|left|left|left| |].
  - exists EStart. cbn. unfold checkForStaleness_start. rewrite W. eauto.
  - exists ELoad. cbn. unfold checkForStaleness_load. rewrite W. eauto.
  - exists ECompare. cbn. unfold checkForStaleness_compare. rewrite W. case_match; eauto.
  - destruct (Z.le_gt_cases t (wd_clock w)).
    + left. exists ELoad. cbn. unfold checkForStaleness_load. rewrite W, (proj2 (Z.leb_le t _)) by done. eauto.
    + right. cbn. rewrite (proj2 (Z.leb_le _ _)) by lia. split; [lia|eauto].
  - by rewrite He in Hc.
Qed.

(** When the peer gets stale, the time that was loaded is too long ago, and no
    message was handled from then to the time when it was loaded. *)
Lemma stale_step delay t0 e w w' : watched delay t0 w → exec e w = Some w' → wd_stale w = false → wd_stale w' = true →
  t0 + SnowflakeTimeout < wd_clock w ∧ Forall (λ x, x < wd_clock w - SnowflakeTimeout ∨ wd_clock w - delay ≤ x) (wd_handled w).
Proof.
  intros [_ _ _ _ _ Hl Hp] E Hs Hs'. unfold watcher_ok in Hp. event_cases e E; cbn in *; try congruence. split; [lia|]. eapply Forall_impl; [by eapply Hl|]. cbn. lia.
Qed.

(** *** Making a peer *)

Lemma prepare_open l c c' err : preparePeerConnection l c = (c', err) → wp_closed c' = wp_closed c ∧
  (wp_pc c = None → wp_pc c' = None ↔ l_proxy l = Some false ∨ l_NewPeerConnection l = false) ∧
  (err = None → c' = set_transport true (set_pc true c)).
Proof.
  unfold preparePeerConnection. destruct l as [p b1 b2 b3 b4 d b5 es b]. cbn [l_proxy l_NewPeerConnection l_CreateDataChannel l_CreateOffer l_SetLocalDescription].
  destruct p as [[]|], b1, b2, b3, b4; cbn; intros [= <- <-]; cbn; split_and!; try done; intros; split; try tauto; try (intros [?|?]; done); done.
Qed.

(** The peer while connect waits. *)
Definition waiting (clock : Z) (closes : Prop) (w : world) : Prop :=
  clock ≤ wd_clock w ∧ whole (wd_peer w) ∧ in_order w ∧ wp_watcher (wd_peer w) = NotStarted ∧ wd_stale w = false ∧
  wp_lastReceive (wd_peer w) ≤ wd_clock w ∧ (wp_closed (wd_peer w) = true → closes) ∧ Forall (λ t, t ≤ wp_lastReceive (wd_peer w)) (wd_handled w).

Lemma exec_receive e w w' : exec e w = Some w' → wp_lastReceive (wd_peer w) ≤ wd_clock w → wd_clock w ≤ wd_clock w' ∧ wp_lastReceive (wd_peer w') ≤ wd_clock w'.
Proof. intros E Hr. event_cases e E; cbn; autorewrite with peer; lia. Qed.

Lemma happen_waiting es clock : 0 ≤ clock → waiting clock (EClose ∈ es) (happen es (born (set_transport true (set_pc true new_peer)) clock)).
Proof.
  intros Hc. apply happen_ind; [|split_and!; try done; constructor].
  intros e w w' He E (H1 & H2 & H3 & H4 & H5 & H6 & H7 & H8). destruct (step_handled _ _ _ E H6 H8) as [H9 _]. destruct (exec_receive _ _ _ E H6) as [? ?]. destruct (exec_unwatched _ _ _ E H4) as [? Hs].
  split_and!; [lia|by eapply exec_whole|by eapply exec_in_order|done|congruence|done| |done]. intros Hcl. destruct (is_close_dec e) as [->|Hne]; [done|].
  apply H7. rewrite <- Hcl. symmetry. eapply exec_closed; [exact E|done|congruence].
Qed.

Lemma whole_transport_released c : whole c → released (Close (set_transport false c)).
Proof.
  unfold whole, Close. cbn [wp_closed set_transport]. destruct (wp_closed c) eqn:C.
  - intros (H1 & H2 & H3 & H4). by repeat split.
  - intros _. unfold released, cleanup. cbn. by destruct (wp_pc c).
Qed.

Lemma natFailure_changes policy actual :
  natFailure policy actual (natTypeToSend policy actual) ≠ policy ↔ TimeoutError = TimeoutError ∧ policy = Some false ∧ natTypeToSend policy actual ≠ actual.
Proof.
  destruct policy as [[]|]; cbn; unfold Failure, NATTypeToSend; cbn [negb andb]; [case_match; naive_solver| |naive_solver].
  destruct (bool_decide_reflect (actual = NATUnknown)) as [->|]; cbn [andb]; [|naive_solver]. rewrite bool_decide_eq_true_2 by done. naive_solver.
Qed.

(** The decoders have no case that panics. *)
Lemma Deserialize_no_panic `{ErrorTexts} b : DeserializeSessionDescription b ≠ Panic.
Proof. unfold DeserializeSessionDescription. repeat case_match; done. Qed.

Lemma ClientPollResponse_no_panic `{ErrorTexts} b : DecodeClientPollResponse b ≠ Panic.
Proof. unfold DecodeClientPollResponse, unmarshal. case_match; cbn; [case_match|]; done. Qed.

Lemma Negotiate_no_panic `{ErrorTexts} `{Html} `{WebRTC} (Exchange : bytes → res exchange_error bytes) fp offer natType : (∀ b, Exchange b ≠ Panic) →
  Negotiate Exchange fp offer natType ≠ Panic.
Proof.
  intros He. unfold Negotiate. pose proof (He (preparePollRequest offer natType fp)). destruct (Exchange _) as [x| |]; [|done..]. cbn [mbind res_bind].
  pose proof (ClientPollResponse_no_panic x). destruct (DecodeClientPollResponse x) as [y| |]; [|done..]. cbn [map_err mbind res_bind]. case_match; [done|].
  pose proof (Deserialize_no_panic (cr_Answer y)). by destruct (DeserializeSessionDescription _).
Qed.

(** ** Properties *)

Section properties.
Context `{ErrorTexts} `{Html} `{WebRTC}.
Variable Exchange : bytes → res exchange_error bytes.

(** C8: how a connection to a proxy is made.  The client panics exactly when it
    should use a proxy that is not supported, or the library makes no peer
    connection.  Otherwise it gets a peer after the broker's answer, whose data
    channel was opened and which is open unless Close was called meanwhile; or it
    gets an error, and everything that was made is closed.  It gives up pretending
    a NAT type exactly when the data channel was not opened in time after an offer
    with a pretended type. *)
Theorem peer_connects (l : library) (bc : BrokerChannel) (policy : option bool) (clock : Z) : 0 ≤ clock → (∀ b, Exchange b ≠ Panic) →
  let sent := natTypeToSend policy (bc_natType bc) in
  match NewWebRTCPeer Exchange l bc policy clock with
  | Panic => l_proxy l = Some false ∨ l_NewPeerConnection l = false
  | Err _ => False
  | Ok (inl w, policy') =>
      ¬ (l_proxy l = Some false ∨ l_NewPeerConnection l = false) ∧ policy' = policy ∧
      (∃ answer, Negotiate Exchange (bc_BridgeFingerprint bc) (l_LocalDescription l) sent = Ok answer) ∧
      whole (wd_peer w) ∧ wp_open (wd_peer w) = true ∧ (wp_closed (wd_peer w) = true → EClose ∈ l_events l) ∧ wp_watcher (wd_peer w) = Starting (wd_clock w)
  | Ok (inr (e, w), policy') =>
      ¬ (l_proxy l = Some false ∨ l_NewPeerConnection l = false) ∧ released (wd_peer w) ∧
      (policy' ≠ policy ↔ e = TimeoutError ∧ policy = Some false ∧ sent ≠ bc_natType bc)
  end.
Proof.
  intros Hclock He sent. unfold NewWebRTCPeer, connect. destruct (preparePeerConnection l new_peer) as [c err] eqn:P.
  destruct (prepare_open _ _ _ _ P) as (Hc & Hn & Ho). specialize (Hn eq_refl). cbn in Hc. destruct (wp_pc c) as [b|] eqn:Pc; [|by apply Hn].
  assert (¬ (l_proxy l = Some false ∨ l_NewPeerConnection l = false)) as Hnot by (intros X%Hn; done). clear Hn.
  assert (∀ e, err = Some e → e = LibraryError) as Hlib by (unfold preparePeerConnection in P; repeat case_match; naive_solver).
  destruct err as [e|]; cbn [mbind res_bind]; [specialize (Hlib e eq_refl) as ->; split; [done|]; split; [apply Close_released; by left|naive_solver]|].
  specialize (Ho eq_refl) as ->. pose proof (happen_waiting (l_events l) clock Hclock) as Hw. fold (natTypeToSend policy (GetNATType bc)). change (GetNATType bc) with (bc_natType bc). fold sent.
  destruct (Negotiate _ _ _ _) as [answer|e|] eqn:N; cbn [mbind res_bind]; [|split; [done|]; split; [apply Close_released; by left|naive_solver]|by apply Negotiate_no_panic in N].
  destruct (l_SetRemoteDescription l); cbn [negb mbind res_bind]; [|split; [done|]; split; [apply Close_released; by left|naive_solver]].
  revert Hw. generalize (happen (l_events l) (born (set_transport true (set_pc true new_peer)) clock)). intros w (H1' & H2' & H3' & H4' & H5' & H6' & H7' & H8').
  destruct (wp_open (wd_peer w) && negb (l_timeout l)) eqn:O; cbn [mbind res_bind].
  - apply andb_true_iff in O as [O _]. split_and!; try done. by exists answer.
  - split; [done|]. split; [by apply whole_transport_released|]. apply natFailure_changes.
Qed.

Lemma made_peer l bc policy clock w policy' : 0 ≤ clock → NewWebRTCPeer Exchange l bc policy clock = Ok (inl w, policy') →
  waiting clock True (upd (set_watcher NotStarted) w) ∧ wp_watcher (wd_peer w) = Starting (wd_clock w).
Proof.
  intros Hclock. unfold NewWebRTCPeer, connect. destruct (preparePeerConnection l new_peer) as [c err] eqn:P.
  destruct (prepare_open _ _ _ _ P) as (_ & _ & Ho). destruct (wp_pc c), err as [e|]; cbn [mbind res_bind]; try done. specialize (Ho eq_refl) as ->.
  destruct (Negotiate _ _ _ _); cbn [mbind res_bind]; try done. destruct (l_SetRemoteDescription l); cbn [negb mbind res_bind]; [|done].
  pose proof (happen_waiting (l_events l) clock Hclock) as Hw. revert Hw. generalize (happen (l_events l) (born (set_transport true (set_pc true new_peer)) clock)).
  intros w1 (H1' & H2' & H3' & H4' & H5' & H6' & H7' & H8'). case_match; cbn [mbind res_bind]; [|done]. intros [= <- <-]. split; [|done]. by split_and!.
Qed.

Lemma made_watched l bc policy clock w policy' delay : 0 ≤ clock → 0 ≤ delay → NewWebRTCPeer Exchange l bc policy clock = Ok (inl w, policy') →
  watched delay (wd_clock w) w ∧ in_order w ∧ whole (wd_peer w).
Proof.
  intros Hc Hd Hn. destruct (made_peer _ _ _ _ _ _ Hc Hn) as [(H1' & H2' & H3' & _ & H5' & H6' & _ & H8') W]. cbn in *. split; [|done].
  split; unfold watcher_ok; rewrite ?W; try done; [intros; congruence|]. split; [done|lia].
Qed.

Lemma steps_watched delay t0 w w' : 0 ≤ delay → rtc (step delay) w w' → watched delay t0 w ∧ in_order w ∧ whole (wd_peer w) → watched delay t0 w' ∧ in_order w' ∧ whole (wd_peer w').
Proof.
  intros Hd. induction 1 as [|w w1 w2 Hs _ IH]; [done|]. intros (Hw & Ho & Hh). apply IH. split; [by eapply step_watched|].
  destruct Hs as (e & E & _). split; [by eapply exec_in_order|by eapply exec_whole].
Qed.


End properties.

(** *** Witnesses *)

Module Demo.
#[local] Existing Instance Rendezvous.Demo.texts.
#[local] Existing Instance Client.Demo.html.
#[local] Existing Instance webrtc_model.

Definition Exchange : bytes → res exchange_error bytes := http_Exchange (λ _, Ok (MkResponse StatusOK Client.Demo.response)).
Definition lib : library := MkLibrary None true true true true Client.Demo.offer true [ETick 5; EOnOpen; EOnMessage [7; 8]] false.
Definition bc : BrokerChannel := MkBrokerChannel NATUnknown [].

(** The peer that is made, and after some more events. *)
Definition made : world := upd (set_watcher (Starting 5)) (happen (l_events lib) (born (set_transport true (set_pc true new_peer)) 0)).

Lemma made_new : NewWebRTCPeer Exchange lib bc (Some false) 0 = Ok (inl made, Some false).
Proof. vm_compute. reflexivity. Qed.

Lemma peer_connects_witness : whole (wd_peer made) ∧ ∃ answer, Negotiate Exchange [] Client.Demo.offer NATUnrestricted = Ok answer.
Proof.
  pose proof (peer_connects Exchange lib bc (Some false) 0 ltac:(lia) ltac:(intros b; vm_compute; discriminate)) as Hp. cbv zeta in Hp. rewrite made_new in Hp.
  destruct Hp as (_ & _ & Ha & Hw & _). split; [exact Hw|exact Ha].
Defined.

(** A run of events that are all timely. *)
Fixpoint run (delay : Z) (es : list event) (w : world) : option world :=
  match es with
  | [] => Some w
  | e :: es =>
      if match e, deadline delay (wd_peer w) with ETick now, Some t => now <=? t | _, _ => true end
      then match exec e w with Some w' => run delay es w' | None => None end else None
  end.

Lemma run_steps delay es w w' : run delay es w = Some w' → rtc (step delay) w w'.
Proof.
  revert w. induction es as [|e es IH]; intros w; cbn [run]; [intros [= ->]; constructor|]. destruct (match e with ETick _ => _ | _ => _ end) eqn:T; [|done].
  destruct (exec e w) as [w1|] eqn:E; [|done]. intros R. eapply rtc_l; [exists e; split; [exact E|]|by apply IH]. unfold timely. repeat case_match; try done; lia.
Qed.

(** A turn of the loop a second later. *)
Definition turn (now : Z) : list event := [ETick now; ELoad; ECompare].
Definition turns (k n : nat) : list event := concat (map (λ i, turn (5 + Z.of_nat i * second)) (seq k n)).

(** The message that was received while connect waited is read after 3 seconds,
    and then nothing is received. *)
Definition silent : list event := [EStart; ELoad; ECompare] ++ turns 1 3 ++ [ERead 1; ERead 5; EReceived] ++ turns 4 21.

Definition state (es : list event) : world := default made (run 0 es made).


(** Sending does not keep a peer, and neither does a message that waits in the
    pipe: the message came 3 seconds, and the last bytes were sent right before
    the peer is closed. *)
Definition busy : list event := [ERead 5; EReceived; EStart; ELoad; ECompare] ++ turns 1 18 ++ [EOnMessage [9]] ++ turns 19 2 ++ [EWrite [1]] ++ turns 21 1.

Example busy_peer_closed : let w := state busy in run 0 busy made = Some w ∧ wd_stale w = true ∧ wd_clock w = 5 + 21 * second ∧ wd_received w = [7; 8; 9] ∧ wd_read w = [7; 8].
Proof. vm_compute. repeat split. Qed.

(** The library makes no peer connection. *)
Example no_peer_connection_panics : NewWebRTCPeer Exchange (MkLibrary None false true true true Client.Demo.offer true [] false) bc None 0 = Panic.
Proof. reflexivity. Qed.

End Demo.

End ClientPeer.
