(* ===== verification/Proxy.v ===== *)
(** * The proxy (src/proxy/lib/snowflake.go, src/proxy/lib/util.go)

    [Relay]: which relays a proxy connects a client to.  [Signaling]: the requests
    of a proxy to the broker.  [Sessions]: Start, the loop that polls the broker, the
    goroutines that answer the offers, the callbacks and the handlers of the data
    channels, as interleaved steps on the proxy's shared variables.  [Traffic]: the counter of
    the bytes that are relayed.

    What pion/webrtc and the WebSocket library do is seen as events: a peer
    connection is made or not, a data channel is opened, a handler ends. *)
From stdpp Require Import base tactics numbers list strings gmap.
From Stdlib Require Import ZArith Lia.
From S2P Require Import Prelude Json Messages GoHeap SnowflakeHeap Broker Metrics BrokerIpc.
Import Json NameMatcher SessionDescription Messages.
Import BridgeList IPC HTTP.
Open Scope Z_scope.

(** ** Relays *)

Module Relay.

(** net.IP: four bytes, or sixteen. *)
Definition To4 (ip : bytes) : option bytes :=
  if (length ip =? 4)%nat then Some ip
  else if (length ip =? 16)%nat && bool_decide (take 12 ip = zeros 10 ++ [255; 255]) then Some (drop 12 ip) else None.

Definition at_ (ip : bytes) (i : nat) : Z := default 0 (ip !! i).

Definition IsPrivate (ip : bytes) : bool :=
  match To4 ip with
  | Some ip4 => (at_ ip4 0 =? 10) || ((at_ ip4 0 =? 172) && (Z.land (at_ ip4 1) 0xf0 =? 16)) || ((at_ ip4 0 =? 192) && (at_ ip4 1 =? 168))
  | None => (length ip =? 16)%nat && (Z.land (at_ ip 0) 0xfe =? 0xfc)
  end.

Definition IsLinkLocalUnicast (ip : bytes) : bool :=
  match To4 ip with
  | Some ip4 => (at_ ip4 0 =? 169) && (at_ ip4 1 =? 254)
  | None => (length ip =? 16)%nat && (at_ ip 0 =? 0xfe) && (Z.land (at_ ip 1) 0xc0 =? 0x80)
  end.

Definition IsLoopback (ip : bytes) : bool :=
  match To4 ip with
  | Some ip4 => at_ ip4 0 =? 127
  | None => bool_decide (ip = zeros 15 ++ [1])
  end.

Definition IsUnspecified (ip : bytes) : bool :=
  match To4 ip with
  | Some ip4 => bool_decide (ip4 = zeros 4)
  | None => bool_decide (ip = zeros 16)
  end.

(** src/common/util/util.go *)
Definition IsLocal (ip : bytes) : bool :=
  IsPrivate ip || IsLinkLocalUnicast ip ||
  match To4 ip with Some ip4 => (at_ ip4 0 =? 100) && (Z.land (at_ ip4 1) 0xc0 =? 64) | None => false end.

Definition isRemoteAddress (ip : bytes) : bool := negb (IsLocal ip) && negb (IsUnspecified ip) && negb (IsLoopback ip).

Record URL := MkURL { Scheme : gostring; Hostname : gostring }.

(** net/url.Parse and net.ParseIP, as far as the code looks at their results. *)
Class NetParsers := { url_Parse : gostring → res error URL; ParseIP : gostring → option bytes }.

Section relay.
Context `{NetParsers}.

Definition checkIsRelayURLAcceptable (allowedHostNamePattern : gostring) (allowPrivateIPs allowNonTLSRelay : bool) (relayURL : gostring) : res error () :=
  if bool_decide (relayURL = []) then Ok () else
  parsedRelayURL ← map_err (λ e, MkError (gs "bad Relay URL " ++ Error e)) (url_Parse relayURL);
  if negb allowPrivateIPs && match ParseIP (Hostname parsedRelayURL) with Some ip => negb (isRemoteAddress ip) | None => false end
  then Err (errorf "rejected Relay URL: private IPs are not allowed") else
  if negb allowNonTLSRelay && negb (bool_decide (Scheme parsedRelayURL = gs "wss")) then Err (errorf "rejected Relay URL protocol: non-TLS not allowed") else
  if negb (bool_decide (Scheme parsedRelayURL = gs "wss")) && negb (bool_decide (Scheme parsedRelayURL = gs "ws"))
  then Err (errorf "rejected Relay URL protocol: only WebSocket is allowed") else
  if negb (IsMember (NewNameMatcher allowedHostNamePattern) (Hostname parsedRelayURL))
  then Err (MkError (gs "rejected Relay URL: hostname does not match allowed pattern " ++ quote ++ allowedHostNamePattern ++ quote)) else Ok ().

Lemma superset_members brokerPattern pattern s : CheckProxyRelayPattern brokerPattern (Some pattern) = true →
  IsMember (NewNameMatcher brokerPattern) s = true → IsMember (NewNameMatcher pattern) s = true.
Proof.
  unfold CheckProxyRelayPattern. destruct (NewNameMatcher pattern) as [[] p], (NewNameMatcher brokerPattern) as [[] q]; unfold IsSupersetOf, IsMember; cbn [exact suffix andb].
  - rewrite !bool_decide_eq_true. congruence.
  - done.
  - rewrite bool_decide_eq_true. by intros ? ->.
  - rewrite !HasSuffix_spec. intros [u ->] [v ->]. exists (v ++ u). by rewrite (assoc_L (++)).
Qed.

(** C24: a proxy connects its clients to the relays that the broker sends it, and to
    no others.  When the broker accepts the pattern of a proxy, every relay within
    the broker's own pattern that is reached over TLS and is not given by a local
    address is acceptable to the proxy.  An acceptable relay has a name within the
    proxy's pattern, and without special permission TLS and no local address. *)
Theorem broker_relay_acceptable (brokerPattern pattern relayURL : gostring) (url : URL) (allowPrivateIPs allowNonTLSRelay : bool) :
  relayURL ≠ [] → url_Parse relayURL = Ok url →
  (CheckProxyRelayPattern brokerPattern (Some pattern) = true → IsMember (NewNameMatcher brokerPattern) (Hostname url) = true → Scheme url = gs "wss" →
     (∀ ip, ParseIP (Hostname url) = Some ip → isRemoteAddress ip = true) → checkIsRelayURLAcceptable pattern allowPrivateIPs allowNonTLSRelay relayURL = Ok ()) ∧
  (checkIsRelayURLAcceptable pattern allowPrivateIPs allowNonTLSRelay relayURL = Ok () →
     IsMember (NewNameMatcher pattern) (Hostname url) = true ∧ (Scheme url = gs "wss" ∨ Scheme url = gs "ws" ∧ allowNonTLSRelay = true) ∧
     (∀ ip, ParseIP (Hostname url) = Some ip → isRemoteAddress ip = true ∨ allowPrivateIPs = true)).
Proof.
  intros Hne Hp. unfold checkIsRelayURLAcceptable. rewrite (bool_decide_eq_false_2 _ Hne), Hp. cbn [map_err mbind res_bind]. split.
  - intros Hc Hm Hs Hip. assert (IsMember (NewNameMatcher pattern) (Hostname url) = true) as -> by (by eapply superset_members).
    assert (match ParseIP (Hostname url) with Some ip => negb (isRemoteAddress ip) | None => false end = false) as ->.
    { destruct (ParseIP (Hostname url)) as [ip|]; [|done]. by rewrite (Hip ip eq_refl). }
    rewrite andb_false_r, !bool_decide_eq_true_2 by done. cbn [negb andb]. by rewrite andb_false_r.
  - intros E. case_match eqn:Eip; [done|]. case_match eqn:Et; [done|]. case_match eqn:Ew; [done|]. case_match eqn:Em; [done|]. split_and!.
    + by apply negb_false_iff in Em.
    + destruct (bool_decide_reflect (Scheme url = gs "wss")); [by left|]. destruct (bool_decide_reflect (Scheme url = gs "ws")); [|done].
      right. split; [done|]. by destruct allowNonTLSRelay.
    + intros ip Hip. rewrite Hip in Eip. destruct allowPrivateIPs; [by right|left]. by apply negb_false_iff in Eip.
Qed.

End relay.

(** The addresses that the examples have. *)
Definition demo_parsers : NetParsers :=
  {| url_Parse s :=
       if bool_decide (s = gs "wss://snowflake.torproject.net/") then Ok (MkURL (gs "wss") (gs "snowflake.torproject.net")) else
       if bool_decide (s = gs "https://snowflake-broker.torproject.net/") then Ok (MkURL (gs "https") (gs "snowflake-broker.torproject.net")) else
       if bool_decide (s = gs "stun:stun.tgragnato.it:3478,stun:stun.l.google.com:19302") then Ok (MkURL (gs "stun") []) else Err (errorf "parse");
     ParseIP _ := None |}.

Lemma broker_relay_acceptable_witness :
  CheckProxyRelayPattern (gs "^snowflake.torproject.net$") (Some (gs "torproject.net$")) = true ∧
  @checkIsRelayURLAcceptable demo_parsers (gs "torproject.net$") false false (gs "wss://snowflake.torproject.net/") = Ok ().
Proof.
  split; [vm_compute; reflexivity|].
  apply (@broker_relay_acceptable demo_parsers (gs "^snowflake.torproject.net$") (gs "torproject.net$") (gs "wss://snowflake.torproject.net/")
    (MkURL (gs "wss") (gs "snowflake.torproject.net")) false false); try done; vm_compute; reflexivity.
Defined.

End Relay.

(** ** Requests to the broker *)

Module Signaling.

Definition readLimit : Z := 100000.
Definition ErrUnexpectedEOF : error := errorf "unexpected EOF".

(** [body] is what can be read from the reader. *)
Definition limitedRead (body : bytes) (limit : Z) : res error bytes := if limit + 1 <=? len body then Err ErrUnexpectedEOF else Ok body.

(** The transport gives a response to the POST of a payload. *)
Definition Post (transport : bytes → res error response) (payload : bytes) : res error bytes :=
  resp ← transport payload;
  if negb (status resp =? StatusOK) then Err (MkError (gs "remote returned status code " ++ format_int (status resp))) else limitedRead (body resp) readLimit.

Section signaling.
Context `{ErrorTexts}.

Definition poll_request (tokens : Z) (natType sid proxyType acceptedRelayPattern : gostring) : bytes :=
  let numClients := tokens / 8 * 8 in
  (ProxyPollRequest_Encode (MkProxyPollRequest sid [] proxyType natType numClients (Some acceptedRelayPattern))).1.

Definition pollOffer (transport : bytes → res error response) (tokens : Z) (natType sid proxyType acceptedRelayPattern : gostring) : res error ProxyPollResponse :=
  resp ← Post transport (poll_request tokens natType sid proxyType acceptedRelayPattern);
  match DecodeProxyPollResponse resp with
  | (_, Some e) => Err e
  | (Some m, None) => Ok m
  | (None, None) => Panic
  end.

Definition answer_request `{WebRTC} (sid : gostring) (ld : SessionDescription) : bytes :=
  (ProxyAnswerRequest_Encode (MkProxyAnswerRequest [] sid (SerializeSessionDescription ld))).1.

Definition sendAnswer `{WebRTC} (transport : bytes → res error response) (sid : gostring) (ld : SessionDescription) : res error () :=
  resp ← map_err (λ e, MkError (gs "error sending answer to broker: " ++ Error e)) (Post transport (answer_request sid ld));
  success ← DecodeAnswerResponse resp;
  if negb success then Err (errorf "broker returned client timeout") else Ok ().

(** *** Lemmas *)

Lemma client_offer_description body req : DecodeClientPollRequest body = Ok req → ∃ d, DeserializeSessionDescription (cq_Offer req) = Ok d.
Proof.
  unfold DecodeClientPollRequest. destruct (split2 10 body) as [v [b|]]; [|done]. case_match; [done|].
  intros (m & Hm & E)%bind_Ok_inv. case_bool_decide; [done|]. apply bind_Ok_inv in E as (d & Hd & E). apply bind_Ok_inv in E as (_ & _ & E). apply bind_Ok_inv in E as (nat & Hn & [= <-]).
  cbn [cq_Offer]. destruct (DeserializeSessionDescription (cq_Offer m)) as [d'| |]; [by exists d'|done|done].
Qed.

Lemma decode_with_prefix data sid typ nat clients pattern : DecodeProxyPollRequestWithRelayPrefix data = Ok (sid, typ, nat, clients, pattern, true) →
  ∃ v, DecodeProxyPollRequest data = Ok (MkProxyPollRequest sid v typ nat clients (Some pattern)).
Proof.
  unfold DecodeProxyPollRequestWithRelayPrefix. intros ([s v t n c p] & -> & E)%bind_Ok_inv. cbn [pq_Sid pq_Type pq_NAT pq_Clients pq_AcceptedRelayPattern] in E.
  injection E as -> -> -> -> E5 [x ->]%bool_decide_eq_true. cbn in E5. subst x. by exists v.
Qed.

Lemma numClients_range tokens : 0 ≤ tokens < 2 ^ 63 → 0 ≤ tokens / 8 * 8 < 2 ^ 63.
Proof. intros. pose proof (Z.div_mod tokens 8). pose proof (Z.mod_pos_bound tokens 8). pose proof (Z.div_pos tokens 8). lia. Qed.

Lemma poll_request_prefix tokens natType sid proxyType pattern :
  poll_request tokens natType sid proxyType pattern = EncodeProxyPollRequestWithRelayPrefix sid proxyType natType (tokens / 8 * 8) pattern.
Proof. reflexivity. Qed.

(** The broker reads a proxy's poll as it was meant. *)
Lemma poll_request_waits brokerPattern tokens natType sid proxyType pattern addr m : utf8 sid → sid ≠ [] → utf8 pattern →
  natType ∈ [NATUnknown; NATRestricted; NATUnrestricted] → known_type proxyType = true → 0 ≤ tokens < 2 ^ 63 → CheckProxyRelayPattern brokerPattern (Some pattern) = true →
  ∃ sets m', ProxyPolls_start brokerPattern (poll_request tokens natType sid proxyType pattern) addr m =
    (Waits (Broker.MkProxyPoll sid proxyType natType (tokens / 8 * 8), sets), m').
Proof.
  intros Hsid Hne Hpat Hnat Htype Ht Hc. unfold ProxyPolls_start. rewrite poll_request_prefix.
  assert (utf8 natType ∧ check_nat natType = Ok natType) as [Hu Hn].
  { rewrite !elem_of_cons, elem_of_nil in Hnat. destruct Hnat as [->|[->|[->|[]]]]; (split; [by apply utf8_ascii, ascii_utf8|done]). }
  assert (utf8 proxyType) as Hut.
  { unfold known_type in Htype. apply existsb_exists in Htype as (k & Hk & ->%bool_decide_eq_true). cbn [KnownProxyTypes In] in Hk.
    by repeat (destruct Hk as [<-|Hk]; [by apply utf8_ascii, ascii_utf8|]). }
  pose proof (poll_request_roundtrip sid proxyType natType natType (tokens / 8 * 8) pattern Hsid Hut Hu Hpat Hne (numClients_range _ Ht) Hn) as Hd. rewrite Htype in Hd.
  apply decode_with_prefix in Hd as [v Hd]. rewrite Hd. cbn [pq_Sid pq_Type pq_NAT pq_Clients pq_AcceptedRelayPattern]. rewrite Hc. cbn [negb]. eauto.
Qed.

(** C2: a proxy gets the offer of the client it was matched with.  The broker
    reads the request of a proxy of a known type as a poll with the proxy's
    identifier, NAT type and number of clients.  In a run of the broker, when the
    poll of a proxy ends with an offer, pollOffer returns the session description
    and the NAT type of a client's request, which can be deserialised, and the
    address of the bridge whose fingerprint the request has. *)
Theorem proxy_gets_offer (data : bytes) (bridges : bridgeListHolder) (brokerPattern pattern : gostring) (w : Broker.world) (k : nat)
    (q : Broker.proxy_thread) (o : Broker.ClientOffer) (interval : Z) (m : Metrics.Metrics) (tokens : Z) (natType sid proxyType : gostring) :
  read_bridges data = Ok bridges → Rendezvous.served bridges brokerPattern w → Broker.w_proxies w !! k = Some q → Broker.pt_pc q = Broker.PReturned (Some o) →
  - 2 ^ 63 ≤ interval < 2 ^ 63 → utf8 sid → sid ≠ [] → utf8 pattern → natType ∈ [NATUnknown; NATRestricted; NATUnrestricted] → known_type proxyType = true →
  0 ≤ tokens < 2 ^ 63 → CheckProxyRelayPattern brokerPattern (Some pattern) = true →
  let payload := poll_request tokens natType sid proxyType pattern in
  (∀ addr m, ∃ sets m', ProxyPolls_start brokerPattern payload addr m = (Waits (Broker.MkProxyPoll sid proxyType natType (tokens / 8 * 8), sets), m')) ∧
  ∃ c t body req f info d resp,
    Broker.w_clients w !! c = Some t ∧ Broker.ct_offer t = o ∧ ClientOffers_start bridges body = Waits o ∧ DecodeClientPollRequest body = Ok req ∧
    DeserializeSessionDescription (cq_Offer req) = Ok d ∧ Fingerprint.FingerprintFromHexString (cq_Fingerprint req) = Ok f ∧ GetBridgeInfo bridges f = Ok info ∧
    proxyPolls_finish bridges interval (Some o) m = (Ok (MkResponse StatusOK resp), m) ∧
    ∀ transport, transport payload = Ok (MkResponse StatusOK resp) → len resp ≤ readLimit →
      pollOffer transport tokens natType sid proxyType pattern =
        Ok (MkProxyPollResponse ProxyClientMatch (cq_Offer req) (cq_NAT req) (Milliseconds interval) (WebSocketAddress info)).
Proof.
  intros Hb Hs Hq Hpc Hi Hsid Hne Hpat Hnat Htype Ht Hc payload. split; [intros; by apply poll_request_waits|].
  destruct (Rendezvous.offer_reaches_proxy data bridges brokerPattern w k q o interval m Hb Hs Hq Hpc Hi) as (c & t & body & req & f & info & resp & Hw & Ho & Hst & Hr & Hf & Hg & Hp & Hd).
  destruct (client_offer_description _ _ Hr) as [d Hdesc]. exists c, t, body, req, f, info, d, resp. split_and!; [done..|]. intros transport Htr Hl.
  unfold pollOffer, Post. fold payload. rewrite Htr. cbn [mbind res_bind status HTTP.body]. rewrite Z.eqb_refl. cbn [negb]. unfold limitedRead.
  rewrite (proj2 (Z.leb_gt _ _)) by lia. cbn [mbind res_bind]. by rewrite Hd.
Qed.

End signaling.

Lemma proxy_gets_offer_witness :
  ∃ c t body req f info d resp,
    Broker.w_clients (Broker.after Rendezvous.Demo.matched) !! c = Some t ∧ Broker.ct_offer t = Rendezvous.Demo.offer ∧
    @ClientOffers_start Rendezvous.Demo.texts Rendezvous.Demo.bridges body = Waits Rendezvous.Demo.offer ∧ @DecodeClientPollRequest Rendezvous.Demo.texts body = Ok req ∧
    @DeserializeSessionDescription Rendezvous.Demo.texts (cq_Offer req) = Ok d ∧ @Fingerprint.FingerprintFromHexString Rendezvous.Demo.texts (cq_Fingerprint req) = Ok f ∧
    GetBridgeInfo Rendezvous.Demo.bridges f = Ok info ∧
    proxyPolls_finish Rendezvous.Demo.bridges (20 * 10 ^ 9) (Some Rendezvous.Demo.offer) Metrics.NewMetrics = (Ok (MkResponse StatusOK resp), Metrics.NewMetrics) ∧
    ∀ transport, transport (poll_request 17 NATUnrestricted (gs "ymbcCMto7KHNGYlp") (gs "webext") []) = Ok (MkResponse StatusOK resp) → len resp ≤ readLimit →
      @pollOffer Rendezvous.Demo.texts transport 17 NATUnrestricted (gs "ymbcCMto7KHNGYlp") (gs "webext") [] =
        Ok (MkProxyPollResponse ProxyClientMatch (cq_Offer req) (cq_NAT req) (Milliseconds (20 * 10 ^ 9)) (WebSocketAddress info)).
Proof.
  refine (proj2 (@proxy_gets_offer Rendezvous.Demo.texts DefaultBridges Rendezvous.Demo.bridges [] [] (Broker.after Rendezvous.Demo.matched) 0%nat
    (Broker.MkProxy Rendezvous.Demo.poll (Broker.PReturned (Some Rendezvous.Demo.offer))) Rendezvous.Demo.offer (20 * 10 ^ 9) Metrics.NewMetrics
    17 NATUnrestricted (gs "ymbcCMto7KHNGYlp") (gs "webext") _ _ _ _ _ _ _ _ _ _ _ _)).
  - vm_compute. reflexivity.
  - apply Rendezvous.Demo.after_served; [exact Rendezvous.Demo.matched_requested|eexists; vm_compute; reflexivity].
  - vm_compute. reflexivity.
  - reflexivity.
  - lia.
  - by apply utf8_ascii, ascii_utf8.
  - done.
  - apply utf8_nil.
  - by apply (bool_decide_unpack _); vm_compute.
  - vm_compute. reflexivity.
  - lia.
  - vm_compute. reflexivity.
Defined.

End Signaling.

(** ** Sessions *)

Module Sessions.
Import Relay.

(** The interface value GeoIP: nil, or one of a kind that can be nil (a pointer,
    say), or one of another kind (a struct, say). *)
Inductive geoip := GeoNil | GeoNillable (is_nil : bool) | GeoValue.

(** [EventDispatcher] says whether there is one. *)
Record SnowflakeProxy := MkSnowflakeProxy {
  PollInterval : Z; MinPollInterval : Z; Capacity : Z; RelayDomainNamePattern : gostring;
  AllowProxyingToPrivateAddresses : bool; AllowNonTLSRelay : bool;
  BrokerURL : gostring; STUNURL : gostring; RelayURL : gostring; OutboundAddress : gostring; EventDispatcher : bool; GeoIP : geoip
}.

(** runSession: it polls, or has the deferred function left to run, or is done. *)
Inductive run_pc := RPolling | RReturning | RReturned.

(** The goroutine of runSession: not started, in front of the offer, in front of
    the result of sendAnswer, waiting for the data channel, or done. *)
Inductive go_pc := GNone | GOffer (r : ProxyPollResponse) | GAnswer | GWait | GEnded.

(** [s_pc]: the peer connection is open; [s_dataChan]: the channel is closed;
    [s_kept]: runSession returned without returning its token. *)
Record session := MkSession { s_run : run_pc; s_go : go_pc; s_connected : bool; s_pc : bool; s_dataChan : bool; s_kept : bool }.

(** datachannelHandler, of a session. *)
Inductive handler_pc := HStart | HRunning | HDone.

(** A data channel, with its handler and its webRTCConn: [h_lowSet]: the callback of
    OnBufferedAmountLow is set; [h_low]: how many calls of it are under way;
    [h_closing]: how many calls of the callback of OnClose are before the close of
    sendMoreCh; [h_sendMore]: that channel is closed; [h_dc]: conn.dc is not nil. *)
Record handler := MkHandler {
  h_session : nat; h_pc : handler_pc; h_lowSet : bool; h_low : nat; h_closing : nat; h_sendMore : bool; h_dc : bool
}.

Definition new_handler (s : nat) : handler := MkHandler s HStart true 0 0 false true.
Definition set_hpc v y := MkHandler (h_session y) v (h_lowSet y) (h_low y) (h_closing y) (h_sendMore y) (h_dc y).
Definition set_low v y := MkHandler (h_session y) (h_pc y) (h_lowSet y) v (h_closing y) (h_sendMore y) (h_dc y).

(** Where Start is, which is called once: not called; between the check of the configuration and the
    loop; in the loop; or it has returned an error. *)
Inductive loop_pc := LNew | LStarting | LPolling | LFailed.

#[export] Instance loop_pc_eq_dec : EqDecision loop_pc.
Proof. solve_decision. Defined.

(** The variables of the package and the fields of the proxy.  [w_shutdown]: the
    channel, nil before Start, and whether it is closed; [w_busy]: the session that
    the polling loop is in. *)
Record world := MkWorld {
  w_tokens : Z; w_shutdown : option bool; w_loop : loop_pc; w_relayReachable : bool; w_ticker : Z; w_busy : option nat; w_sessions : gmap nat session; w_handlers : gmap nat handler
}.

Definition set_tokens v w := MkWorld v (w_shutdown w) (w_loop w) (w_relayReachable w) (w_ticker w) (w_busy w) (w_sessions w) (w_handlers w).
Definition set_shutdown v w := MkWorld (w_tokens w) (Some v) (w_loop w) (w_relayReachable w) (w_ticker w) (w_busy w) (w_sessions w) (w_handlers w).
Definition set_loop v w := MkWorld (w_tokens w) (w_shutdown w) v (w_relayReachable w) (w_ticker w) (w_busy w) (w_sessions w) (w_handlers w).
Definition set_reachable v w := MkWorld (w_tokens w) (w_shutdown w) (w_loop w) v (w_ticker w) (w_busy w) (w_sessions w) (w_handlers w).
Definition set_ticker v w := MkWorld (w_tokens w) (w_shutdown w) (w_loop w) (w_relayReachable w) v (w_busy w) (w_sessions w) (w_handlers w).
Definition set_busy v w := MkWorld (w_tokens w) (w_shutdown w) (w_loop w) (w_relayReachable w) (w_ticker w) v (w_sessions w) (w_handlers w).
Definition set_session s v w := MkWorld (w_tokens w) (w_shutdown w) (w_loop w) (w_relayReachable w) (w_ticker w) (w_busy w) (<[s:=v]> (w_sessions w)) (w_handlers w).
Definition set_handler h v w := MkWorld (w_tokens w) (w_shutdown w) (w_loop w) (w_relayReachable w) (w_ticker w) (w_busy w) (w_sessions w) (<[h:=v]> (w_handlers w)).

Definition set_run v x := MkSession v (s_go x) (s_connected x) (s_pc x) (s_dataChan x) (s_kept x).
Definition set_go v x := MkSession (s_run x) v (s_connected x) (s_pc x) (s_dataChan x) (s_kept x).
Definition set_connected x := MkSession (s_run x) (s_go x) true (s_pc x) (s_dataChan x) (s_kept x).
Definition set_pc v x := MkSession (s_run x) (s_go x) (s_connected x) v (s_dataChan x) (s_kept x).
Definition set_dataChan x := MkSession (s_run x) (s_go x) (s_connected x) (s_pc x) true (s_kept x).
Definition set_kept v x := MkSession (s_run x) (s_go x) (s_connected x) (s_pc x) (s_dataChan x) v.

Inductive disabled := Disabled.
Definition get {A} (o : option A) : res disabled A := match o with Some a => Ok a | None => Err Disabled end.
Definition guard (b : bool) : res disabled () := if b then Ok () else Err Disabled.

Section proxy.
Context `{ErrorTexts} `{NetParsers}.
Variable sf : SnowflakeProxy.

Definition DefaultPollInterval : Z := 5 * 10 ^ 9.
Definition DefaultMinPollInterval : Z := 10 ^ 9.
Definition DefaultBrokerURL : gostring := gs "https://snowflake-broker.torproject.net/".
Definition DefaultRelayURL : gostring := gs "wss://snowflake.torproject.net/".
Definition DefaultSTUNURL : gostring := gs "stun:stun.tgragnato.it:3478,stun:stun.l.google.com:19302".

(** Blank configurations revert to default. *)
Definition pollInterval : Z := if PollInterval sf =? 0 then DefaultPollInterval else PollInterval sf.
Definition minPollInterval : Z := if MinPollInterval sf =? 0 then DefaultMinPollInterval else MinPollInterval sf.
Definition or_default (s d : gostring) : gostring := if bool_decide (s = []) then d else s.

(** Start does not return an error. *)
Definition config_ok : bool :=
  let parses s := match url_Parse s with Ok _ => true | _ => false end in
  parses (or_default (BrokerURL sf) DefaultBrokerURL) && parses (or_default (STUNURL sf) DefaultSTUNURL) && parses (or_default (RelayURL sf) DefaultRelayURL) &&
  IsValidRule (RelayDomainNamePattern sf).

(** The time to the next poll. *)
Definition poll_interval (r : ProxyPollResponse) : Z :=
  let interval := i64 (pr_NextPoll r * 1000000) in
  let interval := if interval <=? 0 then pollInterval else interval in
  Z.max minPollInterval interval.

(** time.NewTicker and time.Ticker.Reset panic when the interval is not positive. *)
Definition Reset (d : Z) (w : world) : res disabled world := if d <=? 0 then Panic else Ok (set_ticker d w).

Definition start : world := MkWorld 0 None LNew false 0 None ∅ ∅.

(** Which calls of the library succeed when a peer connection is made. *)
Record made := MkMade { m_New : bool; m_SetRemote : bool; m_CreateAnswer : bool; m_SetLocal : bool; m_Close : bool }.

(** makePeerConnectionFromOffer: whether the peer connection is not nil, and whether
    there is an error.  When SetLocalDescription fails, its error is replaced by
    the one of Close. *)
Definition makePeerConnectionFromOffer (m : made) : bool * bool :=
  if negb (m_New m) then (false, true) else
  if negb (m_SetRemote m) then (false, true) else
  if negb (m_CreateAnswer m) then (false, true) else
  if negb (m_SetLocal m) then (false, negb (m_Close m)) else
  (true, false).

(** Write of io.Pipe with [b] bytes left and [n] written, when the reads to come
    have buffers of these sizes, and then the pipe is closed: how many bytes were
    written, and whether there is an error. *)
Fixpoint pipe_Write (b n : nat) (reads : list nat) : nat * bool :=
  match reads with
  | [] => (n, true)
  | r :: reads =>
      let nw := Nat.min r b in
      if (0 <? b - nw)%nat then pipe_Write (b - nw) (n + nw) reads else ((n + nw)%nat, false)
  end.

Inductive event :=
  | EStart                                      (* Start, up to the NAT check *)
  | ELoop                                       (* Start, up to the loop *)
  | ETick (s : nat) (rand : bool)               (* a turn of the loop of Start; whether there is randomness *)
  | EPollFailed (s : nat)                       (* pollOffer returns an error *)
  | EPolled (s : nat) (r : ProxyPollResponse)   (* pollOffer returns a response *)
  | EReturn (s : nat)                           (* runSession returns *)
  | EOffer (s : nat) (m : made)                 (* the goroutine, up to sendAnswer *)
  | EAnswered (s : nat) (ok : bool)             (* sendAnswer returns *)
  | EConnected (s : nat)                        (* the goroutine sees dataChan closed *)
  | ETimeout (s : nat)                          (* or its timeout *)
  | EDataChannel (s h : nat)                    (* OnDataChannel *)
  | EOpen (h : nat) (selected : bool)           (* OnOpen; whether there is a selected candidate pair *)
  | ELow (h : nat)                              (* OnBufferedAmountLow is called *)
  | ESendMore (h : nat)                         (* ... and sends *)
  | EMessage (h : nat) (size : nat) (reads : list nat)   (* OnMessage *)
  | EOnClose (h : nat)                          (* OnClose, up to the close of sendMoreCh *)
  | EClosed (h : nat)                           (* ... and its end *)
  | EHandler (h : nat)                          (* datachannelHandler starts *)
  | EHandlerEnd (h : nat)                       (* and ends *)
  | EInactive (h : nat)                         (* timeoutLoop closes the connection *)
  | EReachable (b : bool)                       (* the result of checkBridgeReachability *)
  | EStop.                                      (* Stop *)

(** Start sends an event before it sets the dispatcher to a default. *)
Definition start_config (w : world) : res disabled world :=
  _ ← guard (bool_decide (w_loop w = LNew));
  if negb (EventDispatcher sf) then Panic else Ok (set_loop (if config_ok then LStarting else LFailed) (set_shutdown false w)).

Definition start_loop (w : world) : res disabled world :=
  _ ← guard (bool_decide (w_loop w = LStarting));
  w ← Reset pollInterval w;
  Ok (set_loop LPolling w).

(** genSessionID panics without randomness. *)
Definition tick (s : nat) (rand : bool) (w : world) : res disabled world :=
  _ ← guard (bool_decide (w_loop w = LPolling) && bool_decide (w_shutdown w = Some false) && bool_decide (w_busy w = None) && bool_decide (w_sessions w !! s = None));
  if w_relayReachable w then
    if negb rand then Panic else
    Ok (set_busy (Some s) (set_session s (MkSession RPolling GNone false false false false) (set_tokens (u64 (w_tokens w + 1)) w)))
  else Ok w.

Definition poll_failed (s : nat) (w : world) : res disabled world :=
  x ← get (w_sessions w !! s);
  match s_run x with RPolling => Ok (set_session s (set_run RReturning x) w) | _ => Err Disabled end.

Definition polled (s : nat) (r : ProxyPollResponse) (w : world) : res disabled world :=
  x ← get (w_sessions w !! s);
  match s_run x with
  | RPolling => w ← Reset (poll_interval r) w; Ok (set_session s (set_run RReturning (set_go (GOffer r) x)) w)
  | _ => Err Disabled
  end.

(** The deferred function. *)
Definition return_ (s : nat) (w : world) : res disabled world :=
  x ← get (w_sessions w !! s);
  match s_run x with
  | RReturning =>
      let w := if s_connected x then w else set_tokens (u64 (w_tokens w - 1)) w in
      Ok (set_busy None (set_session s (set_run RReturned (set_kept (s_connected x) x)) w))
  | _ => Err Disabled
  end.

Definition acceptable (r : ProxyPollResponse) : bool :=
  negb (bool_decide (pr_Offer r = [])) &&
  match DeserializeSessionDescription (pr_Offer r) with Ok _ => true | _ => false end &&
  (bool_decide (pr_RelayURL r = []) ||
   match checkIsRelayURLAcceptable (RelayDomainNamePattern sf) (AllowProxyingToPrivateAddresses sf) (AllowNonTLSRelay sf) (pr_RelayURL r) with Ok _ => true | _ => false end).

(** sendAnswer dereferences the peer connection. *)
Definition offer (s : nat) (m : made) (w : world) : res disabled world :=
  x ← get (w_sessions w !! s);
  match s_go x with
  | GOffer r =>
      if negb (acceptable r) then Ok (set_session s (set_go GEnded x) w) else
      match makePeerConnectionFromOffer m with
      | (_, true) => Ok (set_session s (set_go GEnded x) w)
      | (false, false) => Panic
      | (true, false) => Ok (set_session s (set_pc true (set_go GAnswer x)) w)
      end
  | _ => Err Disabled
  end.

Definition answered (s : nat) (ok : bool) (w : world) : res disabled world :=
  x ← get (w_sessions w !! s);
  match s_go x with
  | GAnswer => Ok (set_session s (if ok then set_go GWait x else set_pc false (set_go GEnded x)) w)
  | _ => Err Disabled
  end.

Definition connected (s : nat) (w : world) : res disabled world :=
  x ← get (w_sessions w !! s);
  match s_go x with
  | GWait => _ ← guard (s_dataChan x); Ok (set_session s (set_connected (set_go GEnded x)) w)
  | _ => Err Disabled
  end.

Definition timeout (s : nat) (w : world) : res disabled world :=
  x ← get (w_sessions w !! s);
  match s_go x with
  | GWait => Ok (set_session s (set_pc false (set_go GEnded x)) w)
  | _ => Err Disabled
  end.

(** The callback closes the channel, which panics when it is closed already, and
    starts the handler. *)
Definition data_channel (s h : nat) (w : world) : res disabled world :=
  x ← get (w_sessions w !! s);
  _ ← guard (s_pc x && bool_decide (w_handlers w !! h = None));
  if s_dataChan x then Panic else Ok (set_handler h (new_handler s) (set_session s (set_dataChan x) w)).

Definition handler_start (h : nat) (w : world) : res disabled world :=
  y ← get (w_handlers w !! h);
  match h_pc y with
  | HStart => Ok (set_handler h (set_hpc HRunning y) (set_tokens (u64 (w_tokens w + 1)) w))
  | _ => Err Disabled
  end.

(** The peer connection is closed and the token returned. *)
Definition handler_end (h : nat) (w : world) : res disabled world :=
  y ← get (w_handlers w !! h);
  x ← get (w_sessions w !! h_session y);
  match h_pc y with
  | HRunning => Ok (set_handler h (set_hpc HDone y) (set_session (h_session y) (set_pc false x) (set_tokens (u64 (w_tokens w - 1)) w)))
  | _ => Err Disabled
  end.

Definition inactive (h : nat) (w : world) : res disabled world :=
  y ← get (w_handlers w !! h);
  x ← get (w_sessions w !! h_session y);
  Ok (set_session (h_session y) (set_pc false x) w).

(** The callback of OnOpen, with an OutboundAddress, dereferences the selected
    candidate pair. *)
Definition on_open (h : nat) (selected : bool) (w : world) : res disabled world :=
  _ ← get (w_handlers w !! h);
  if negb (bool_decide (OutboundAddress sf = [])) && negb selected then Panic else Ok w.

Definition buffered_low (h : nat) (w : world) : res disabled world :=
  y ← get (w_handlers w !! h);
  _ ← guard (h_lowSet y);
  Ok (set_handler h (set_low (S (h_low y)) y) w).

(** The send does not wait, but panics when the channel is closed. *)
Definition send_more (h : nat) (w : world) : res disabled world :=
  y ← get (w_handlers w !! h);
  match h_low y with
  | O => Err Disabled
  | S n => if h_sendMore y then Panic else Ok (set_handler h (set_low n y) w)
  end.

Definition on_message (h : nat) (size : nat) (reads : list nat) (w : world) : res disabled world :=
  _ ← get (w_handlers w !! h);
  let '(n, err) := pipe_Write size 0 reads in
  if err then Ok w else
  if negb (n =? size)%nat then Panic else Ok w.

Definition on_close (h : nat) (w : world) : res disabled world :=
  y ← get (w_handlers w !! h);
  Ok (set_handler h (MkHandler (h_session y) (h_pc y) false (h_low y) (S (h_closing y)) (h_sendMore y) (h_dc y)) w).

(** reflect.Value.IsNil panics for a value of a kind that cannot be nil. *)
Definition closed (h : nat) (w : world) : res disabled world :=
  y ← get (w_handlers w !! h);
  match h_closing y with
  | O => Err Disabled
  | S n =>
      if h_sendMore y then Panic else
      match GeoIP sf with
      | GeoValue => Panic
      | _ => Ok (set_handler h (MkHandler (h_session y) (h_pc y) (h_lowSet y) (h_low y) n true false) w)
      end
  end.

(** The close of a nil channel, or of a closed one, panics. *)
Definition Stop (w : world) : res disabled world := if bool_decide (w_shutdown w = Some false) then Ok (set_shutdown true w) else Panic.

Definition exec (e : event) (w : world) : res disabled world :=
  match e with
  | EStart => start_config w
  | ELoop => start_loop w
  | ETick s rand => tick s rand w
  | EPollFailed s => poll_failed s w
  | EPolled s r => polled s r w
  | EReturn s => return_ s w
  | EOffer s m => offer s m w
  | EAnswered s ok => answered s ok w
  | EConnected s => connected s w
  | ETimeout s => timeout s w
  | EDataChannel s h => data_channel s h w
  | EOpen h selected => on_open h selected w
  | ELow h => buffered_low h w
  | ESendMore h => send_more h w
  | EMessage h size reads => on_message h size reads w
  | EOnClose h => on_close h w
  | EClosed h => closed h w
  | EHandler h => handler_start h w
  | EHandlerEnd h => handler_end h w
  | EInactive h => inactive h w
  | EReachable b => Ok (set_reachable b w)
  | EStop => Stop w
  end.

Fixpoint execs (es : list event) (w : world) : res disabled world :=
  match es with
  | [] => Ok w
  | e :: es => w ← exec e w; execs es w
  end.

Inductive reachable : world → Prop :=
  | reachable_start : reachable start
  | reachable_exec e w w' : reachable w → exec e w = Ok w' → reachable w'.

(** *** Lemmas *)

Lemma get_Ok {A} (o : option A) a : get o = Ok a → o = Some a.
Proof. destruct o; [by intros [= ->]|done]. Qed.

Lemma guard_Ok b u : guard b = Ok u → b = true.
Proof. by destruct b. Qed.

(** The sum of a number over the entries of a map. *)
Definition weigh {A} (f : A → Z) (m : gmap nat A) : Z := map_fold (λ _ x n, f x + n) 0 m.

Lemma weigh_fresh {A} (f : A → Z) m i x : m !! i = None → weigh f (<[i:=x]> m) = f x + weigh f m.
Proof. intros Hi. unfold weigh. rewrite map_fold_insert_L; [done|lia|done]. Qed.

Lemma weigh_insert {A} (f : A → Z) m i x : weigh f (<[i:=x]> m) = weigh f m - from_option f 0 (m !! i) + f x.
Proof.
  destruct (m !! i) as [y|] eqn:E; [|rewrite weigh_fresh by done; cbn; lia].
  rewrite <- (insert_delete_id m i y E), insert_insert_eq, !weigh_fresh by apply lookup_delete_eq. cbn. lia.
Qed.

Definition keeps_token (x : session) : Z := if s_kept x then 1 else 0.
Definition holds_token (y : handler) : Z := match h_pc y with HRunning => 1 | _ => 0 end.

Definition polling (w : world) : Z := match w_busy w with Some _ => 1 | None => 0 end.
Definition kept (w : world) : Z := weigh keeps_token (w_sessions w).
Definition running (w : world) : Z := weigh holds_token (w_handlers w).

(** The sessions that have not returned. *)
Definition unreturned (x : session) : bool := match s_run x with RReturned => false | _ => true end.

Record inv (w : world) : Prop := {
  inv_tokens : w_tokens w = u64 (polling w + kept w + running w);
  inv_busy : map_Forall (λ s x, unreturned x = true → w_busy w = Some s) (w_sessions w);
  inv_kept : map_Forall (λ s x, unreturned x = true → s_kept x = false) (w_sessions w)
}.

(** A step that leaves the tokens alone. *)
Lemma inv_session w s x x' : inv w → w_sessions w !! s = Some x → unreturned x' = unreturned x → s_kept x' = s_kept x → inv (set_session s x' w).
Proof.
  intros [Ht Hb Hk] Hx Hu Hs. split; unfold polling, kept, running in *; cbn.
  - rewrite Ht, weigh_insert, Hx. cbn. unfold keeps_token at 3 4. rewrite Hs. f_equal. lia.
  - apply map_Forall_insert_2; [|done]. rewrite Hu. by apply (Hb s x).
  - apply map_Forall_insert_2; [|done]. rewrite Hu, Hs. by apply (Hk s x).
Qed.

Lemma u64_plus a b : u64 (u64 a + b) = u64 (a + b).
Proof. unfold u64. by rewrite Zplus_mod_idemp_l. Qed.

Lemma tick_enabled s w u : guard (bool_decide (w_loop w = LPolling) && bool_decide (w_shutdown w = Some false) && bool_decide (w_busy w = None) && bool_decide (w_sessions w !! s = None)) = Ok u →
  w_loop w = LPolling ∧ w_shutdown w = Some false ∧ w_busy w = None ∧ w_sessions w !! s = None.
Proof. intros G%guard_Ok. rewrite !andb_true_iff, !bool_decide_eq_true in G. tauto. Qed.

Lemma tick_inv s rand w w' : inv w → tick s rand w = Ok w' → inv w'.
Proof.
  intros [Ht Hb Hk]. unfold tick. intros (u & (_ & _ & G1 & G3)%tick_enabled & E)%bind_Ok_inv.
  destruct (w_relayReachable w); [|injection E as <-; by split]. destruct rand; [|done]. injection E as <-.
  unfold polling, kept, running in *. rewrite G1 in Ht. split; unfold polling, kept, running; cbn.
  - rewrite Ht, u64_plus, weigh_fresh by done. f_equal. cbn. lia.
  - apply map_Forall_insert_2; [done|]. intros t x Hx Hu. rewrite (Hb t x Hx Hu) in G1. done.
  - by apply map_Forall_insert_2.
Qed.

Lemma return_inv s w w' : inv w → return_ s w = Ok w' → inv w'.
Proof.
  intros [Ht Hb Hk]. unfold return_. intros (x & L%get_Ok & E)%bind_Ok_inv.
  destruct (s_run x) eqn:R; try done. injection E as <-. assert (unreturned x = true) as Hu by (unfold unreturned; by rewrite R).
  pose proof (Hb s x L Hu) as Hbusy. pose proof (Hk s x L Hu) as Hkept. unfold polling, kept, running in *. rewrite Hbusy in Ht.
  split; unfold polling, kept, running.
  - cbn. rewrite weigh_insert. replace (w_sessions (if s_connected x then w else set_tokens (u64 (w_tokens w - 1)) w)) with (w_sessions w) by (by destruct (s_connected x)).
    rewrite L. cbn. unfold keeps_token at 2 3. cbn. rewrite Hkept. destruct (s_connected x); cbn; rewrite Ht; [|rewrite <- Z.add_opp_r, u64_plus]; f_equal; lia.
  - cbn. replace (w_sessions (if s_connected x then w else set_tokens (u64 (w_tokens w - 1)) w)) with (w_sessions w) by (by destruct (s_connected x)).
    intros t y Hy. destruct (decide (t = s)) as [->|Hne]; [rewrite lookup_insert_eq in Hy; by injection Hy as <-|rewrite lookup_insert_ne in Hy by done].
    intros Hun. pose proof (Hb t y Hy Hun). congruence.
  - cbn. replace (w_sessions (if s_connected x then w else set_tokens (u64 (w_tokens w - 1)) w)) with (w_sessions w) by (by destruct (s_connected x)).
    by apply map_Forall_insert_2.
Qed.

Lemma inv_handler w h y y' n : inv w → w_handlers w !! h = y → n = holds_token y' - from_option holds_token 0 y →
  inv (set_handler h y' (set_tokens (u64 (w_tokens w + n)) w)).
Proof.
  intros [Ht Hb Hk] Hy ->. split; [|done|done]. unfold polling, kept, running in *. cbn. rewrite Ht, u64_plus, weigh_insert, Hy. f_equal. lia.
Qed.

Lemma inv_same w w' : inv w → w_tokens w' = w_tokens w → w_busy w' = w_busy w → w_sessions w' = w_sessions w → w_handlers w' = w_handlers w → inv w'.
Proof. intros [Ht Hb Hk] E1 E2 E3 E4. split; unfold polling, kept, running in *; by rewrite ?E1, ?E2, ?E3, ?E4. Qed.

Lemma handler_end_inv h w w' : inv w → handler_end h w = Ok w' → inv w'.
Proof.
  intros Hi. unfold handler_end. intros (y & Ly%get_Ok & E)%bind_Ok_inv. apply bind_Ok_inv in E as (x & Lx%get_Ok & E). destruct (h_pc y) eqn:P; try done. injection E as <-.
  pose proof (inv_session w (h_session y) x (set_pc false x) Hi Lx eq_refl eq_refl) as Hi'.
  apply (inv_handler (set_session (h_session y) (set_pc false x) w) h (Some y) (set_hpc HDone y) (- (1)) Hi' Ly). cbn. unfold holds_token. by rewrite P.
Qed.

(** A handler changes that goes on as before. *)
Lemma inv_callback w h y y' : inv w → w_handlers w !! h = Some y → h_pc y' = h_pc y → inv (set_handler h y' w).
Proof.
  intros [Ht Hb Hk] Hy Hp. split; [|done|done]. unfold polling, kept, running in *. cbn. rewrite Ht, (weigh_insert holds_token), Hy. cbn. unfold holds_token at 3 4. rewrite Hp. f_equal. lia.
Qed.

Lemma exec_inv e w w' : inv w → exec e w = Ok w' → inv w'.
Proof.
  intros Hi. destruct e; cbn [exec].
  - unfold start_config. intros (u & _ & E)%bind_Ok_inv. destruct (negb _); [done|]. injection E as <-. by eapply inv_same.
  - unfold start_loop, Reset. intros (u & _ & (w1 & E & [= <-])%bind_Ok_inv)%bind_Ok_inv. case_match; [done|]. injection E as <-. by eapply inv_same.
  - by apply tick_inv.
  - unfold poll_failed. intros (x & L%get_Ok & E)%bind_Ok_inv. destruct (s_run x) eqn:R; try done. injection E as <-. eapply inv_session; [done|done| |done]. unfold unreturned. by rewrite R.
  - unfold polled. intros (x & L%get_Ok & E)%bind_Ok_inv. destruct (s_run x) eqn:R; try done. apply bind_Ok_inv in E as (w1 & Hr & [= <-]).
    unfold Reset in Hr. case_match; [done|]. injection Hr as <-. eapply inv_session; [by eapply inv_same|done| |done]. unfold unreturned. by rewrite R.
  - by apply return_inv.
  - unfold offer. intros (x & L%get_Ok & E)%bind_Ok_inv. destruct (s_go x); try done. destruct (negb _); [injection E as <-; by eapply inv_session|].
    destruct (makePeerConnectionFromOffer m) as [[] []]; try done; injection E as <-; by eapply inv_session.
  - unfold answered. intros (x & L%get_Ok & E)%bind_Ok_inv. destruct (s_go x); try done. injection E as <-. eapply inv_session; [done|done|by destruct ok..].
  - unfold connected. intros (x & L%get_Ok & E)%bind_Ok_inv. destruct (s_go x); try done. apply bind_Ok_inv in E as (u & _ & [= <-]). by eapply inv_session.
  - unfold timeout. intros (x & L%get_Ok & E)%bind_Ok_inv. destruct (s_go x); try done. injection E as <-. by eapply inv_session.
  - unfold data_channel. intros (x & L%get_Ok & E)%bind_Ok_inv. apply bind_Ok_inv in E as (u & G%guard_Ok & E). destruct (s_dataChan x); [done|]. injection E as <-.
    apply andb_true_iff in G as [_ G%bool_decide_eq_true]. pose proof (inv_session _ _ _ (set_dataChan x) Hi L eq_refl eq_refl) as [Ht Hb Hk].
    split; [|done|done]. unfold polling, kept, running in *. cbn in Ht |- *. by rewrite Ht, (weigh_fresh holds_token) by done.
  - unfold on_open. intros (y & _ & E)%bind_Ok_inv. destruct (_ && _); [done|]. by injection E as <-.
  - unfold buffered_low. intros (y & L%get_Ok & (u & _ & [= <-])%bind_Ok_inv)%bind_Ok_inv. by eapply inv_callback.
  - unfold send_more. intros (y & L%get_Ok & E)%bind_Ok_inv. destruct (h_low y); [done|]. destruct (h_sendMore y); [done|]. injection E as <-. by eapply inv_callback.
  - unfold on_message. intros (y & _ & E)%bind_Ok_inv. destruct (pipe_Write size 0 _) as [n []]; [by injection E as <-|]. destruct (negb _); [done|]. by injection E as <-.
  - unfold on_close. intros (y & L%get_Ok & [= <-])%bind_Ok_inv. by eapply inv_callback.
  - unfold closed. intros (y & L%get_Ok & E)%bind_Ok_inv. destruct (h_closing y); [done|]. destruct (h_sendMore y); [done|]. destruct (GeoIP sf); try done; injection E as <-; by eapply inv_callback.
  - unfold handler_start. intros (y & L%get_Ok & E)%bind_Ok_inv. destruct (h_pc y) eqn:P; try done. injection E as <-. eapply inv_handler; [done|done|]. cbn. unfold holds_token. by rewrite P.
  - by apply handler_end_inv.
  - unfold inactive. intros (y & _ & E)%bind_Ok_inv. apply bind_Ok_inv in E as (x & Lx%get_Ok & [= <-]). by eapply inv_session.
  - intros [= <-]. by eapply inv_same.
  - unfold Stop. case_match; [|done]. intros [= <-]. by eapply inv_same.
Qed.

Lemma proxy_inv w : reachable w → inv w.
Proof. induction 1; [|by eapply exec_inv]. split; [done|apply map_Forall_empty..]. Qed.

(** *** Properties *)

(** C25: the tokens of a proxy are its clients.  In every reachable state the
    number of tokens is that of the handlers that relay data, and one more while
    a poll is under way, modulo 2^64, as long as no session saw its client connect
    before runSession returned; every session that did keeps a token for ever. *)
Theorem tokens_count_clients (w : world) : reachable w → w_tokens w = u64 (polling w + kept w + running w) ∧ 0 ≤ kept w ∧ 0 ≤ running w.
Proof.
  intros Hr. split; [by apply proxy_inv|]. assert (∀ A (f : A → Z) m, (∀ x, 0 ≤ f x) → 0 ≤ weigh f m) as Hw.
  { intros A f m Hf. induction m as [|i x m Hi IH] using map_ind; [done|]. rewrite weigh_fresh by done. specialize (Hf x). lia. }
  split; apply Hw; [intros x|intros y]; [unfold keeps_token; by destruct (s_kept x)|unfold holds_token; by destruct (h_pc y)].
Qed.

(** Sessions are started by the loop, whose interval is positive. *)
Lemma loop_interval w : reachable w → (w_loop w = LPolling → 0 < pollInterval) ∧ (∀ s x, w_sessions w !! s = Some x → w_loop w = LPolling).
Proof.
  assert (∀ w w', w_loop w' = w_loop w → (∀ s x, w_sessions w' !! s = Some x → is_Some (w_sessions w !! s) ∨ w_loop w = LPolling) →
    (w_loop w = LPolling → 0 < pollInterval) ∧ (∀ s x, w_sessions w !! s = Some x → w_loop w = LPolling) →
    (w_loop w' = LPolling → 0 < pollInterval) ∧ (∀ s x, w_sessions w' !! s = Some x → w_loop w' = LPolling)) as Hstep.
  { intros w1 w' E Hs [H1 H2]. rewrite E. split; [done|]. intros s x [[y Hy]|?]%Hs; [by eapply H2|done]. }
  induction 1 as [|e w w' _ IH E]; [by split|]. destruct IH as [H1 H2]. destruct e; cbn [exec] in E.
  1: unfold start_config in E; apply bind_Ok_inv in E as (u & G%guard_Ok%bool_decide_eq_true & E); destruct (negb _); [done|]; injection E as <-; cbn; split; [by destruct config_ok|];
     intros s x Hx; apply H2 in Hx; congruence.
  1: unfold start_loop, Reset in E; apply bind_Ok_inv in E as (u & G%guard_Ok%bool_decide_eq_true & E); destruct (Z.leb_spec pollInterval 0); [done|]; injection E as <-; by split.
  1: unfold tick in E; apply bind_Ok_inv in E as (u & (G & _)%tick_enabled & E); destruct (w_relayReachable w); [|by injection E as <-]; destruct rand; [|done]; injection E as <-; by split.
  all: apply (Hstep w); [..|by split]; clear Hstep H1;
    unfold poll_failed, polled, Reset, return_, offer, answered, connected, timeout, data_channel, on_open, buffered_low, send_more, on_message, on_close, closed, handler_start, handler_end, inactive, Stop, get, guard in E;
    repeat (case_match; cbn in E; try done); injection E as <-; try done; cbn; try (intros t y Ht; apply lookup_insert_Some in Ht as [[<- <-]|[_ Ht]]; left; eauto; fail); try (intros; left; eauto).
Qed.

(** A whole message is written to the pipe, or there is an error. *)
Lemma pipe_Write_whole reads : ∀ b n k, pipe_Write b n reads = (k, false) → (k = n + b)%nat.
Proof.
  induction reads as [|r reads IH]; intros b n k; cbn [pipe_Write]; [done|]. destruct (Nat.ltb_spec 0 (b - Nat.min r b)); [intros E%IH; lia|]. intros [= <-]. lia.
Qed.

(** The panics of a proxy. *)
Inductive crash (w : world) : event → Prop :=
  | crash_no_dispatcher : w_loop w = LNew → EventDispatcher sf = false → crash w EStart
  | crash_interval : w_loop w = LStarting → PollInterval sf < 0 → crash w ELoop
  | crash_no_randomness s : w_loop w = LPolling → w_shutdown w = Some false → w_busy w = None → w_sessions w !! s = None → w_relayReachable w = true → crash w (ETick s false)
  | crash_nil_connection s x r m : w_sessions w !! s = Some x → s_go x = GOffer r → acceptable r = true →
      m_New m = true → m_SetRemote m = true → m_CreateAnswer m = true → m_SetLocal m = false → m_Close m = true → crash w (EOffer s m)
  | crash_second_channel s h x : w_sessions w !! s = Some x → s_pc x = true → w_handlers w !! h = None → s_dataChan x = true → crash w (EDataChannel s h)
  | crash_no_pair h y : w_handlers w !! h = Some y → OutboundAddress sf ≠ [] → crash w (EOpen h false)
  | crash_late_callback h y : w_handlers w !! h = Some y → (0 < h_low y)%nat → h_sendMore y = true → crash w (ESendMore h)
  | crash_closed_twice h y : w_handlers w !! h = Some y → (0 < h_closing y)%nat → h_sendMore y = true → crash w (EClosed h)
  | crash_geoip_value h y : w_handlers w !! h = Some y → (0 < h_closing y)%nat → GeoIP sf = GeoValue → crash w (EClosed h)
  | crash_stop : w_shutdown w ≠ Some false → crash w EStop.

Lemma crash_panics w e : crash w e → exec e w = Panic.
Proof.
  destruct 1; cbn [exec].
  - unfold start_config. rewrite bool_decide_true by done. cbn. by rewrite H2.
  - unfold start_loop, Reset. rewrite bool_decide_true by done. cbn. unfold pollInterval. destruct (Z.eqb_spec (PollInterval sf) 0); [lia|]. by rewrite (proj2 (Z.leb_le _ _)) by lia.
  - unfold tick. rewrite !bool_decide_true by done. cbn. by rewrite H5.
  - unfold offer. rewrite H1. cbn [get mbind res_bind]. rewrite H2, H3. cbn [negb]. unfold makePeerConnectionFromOffer. by rewrite H4, H5, H6, H7, H8.
  - unfold data_channel. rewrite H1. cbn [get mbind res_bind]. rewrite H2, (bool_decide_true (w_handlers w !! h = None)) by done. cbn. by rewrite H4.
  - unfold on_open. rewrite H1. cbn [get mbind res_bind]. by rewrite bool_decide_false.
  - unfold send_more. rewrite H1. cbn [get mbind res_bind]. destruct (h_low y); [lia|]. by rewrite H3.
  - unfold closed. rewrite H1. cbn [get mbind res_bind]. destruct (h_closing y); [lia|]. by rewrite H3.
  - unfold closed. rewrite H1. cbn [get mbind res_bind]. destruct (h_closing y); [lia|]. rewrite H3. by destruct (h_sendMore y).
  - unfold Stop. by rewrite bool_decide_false.
Qed.

Lemma panic_crashes w e : reachable w → exec e w = Panic → crash w e.
Proof.
  intros Hw%loop_interval. destruct Hw as [Hpi Hps]. destruct e; cbn [exec]; intros E; try done.
  - unfold start_config, guard in E. case_bool_decide; cbn in E; [|done]. destruct (EventDispatcher sf) eqn:D; [done|]. by constructor.
  - unfold start_loop, guard, Reset in E. case_bool_decide; cbn in E; [|done]. destruct (Z.leb_spec pollInterval 0) as [Hp|]; [|done]. constructor; [done|].
    unfold pollInterval, DefaultPollInterval in Hp. destruct (Z.eqb_spec (PollInterval sf) 0); lia.
  - unfold tick in E. destruct (guard _) as [u| |] eqn:G; cbn in E; [|done|by unfold guard in G; case_match]. apply tick_enabled in G as (? & ? & ? & ?).
    destruct (w_relayReachable w) eqn:R; [|done]. destruct rand; [done|]. by constructor.
  - unfold poll_failed, get in E. repeat (case_match; cbn in E; try done).
  - unfold polled in E. destruct (w_sessions w !! s) as [x|] eqn:L; [|done]. cbn in E. destruct (s_run x); try done. specialize (Hpi (Hps _ _ L)). exfalso. unfold Reset in E.
    assert (0 < poll_interval r) as Hpos by (unfold poll_interval; destruct (Z.leb_spec (i64 (pr_NextPoll r * 1000000)) 0); lia). rewrite (proj2 (Z.leb_gt _ _)) in E by lia. done.
  - unfold return_, get in E. repeat (case_match; cbn in E; try done).
  - unfold offer in E. destruct (w_sessions w !! s) as [x|] eqn:L; [|done]. cbn in E. destruct (s_go x) eqn:Go; try done. destruct (acceptable r) eqn:A; [|done]. cbn in E.
    destruct (m_New m) eqn:?, (m_SetRemote m) eqn:?, (m_CreateAnswer m) eqn:?, (m_SetLocal m) eqn:?, (m_Close m) eqn:?; unfold makePeerConnectionFromOffer in E;
      repeat match goal with H : _ m = _ |- _ => rewrite H in E end; try done. by econstructor.
  - unfold answered, get in E. repeat (case_match; cbn in E; try done).
  - unfold connected, get, guard in E. repeat (case_match; cbn in E; try done).
  - unfold timeout, get in E. repeat (case_match; cbn in E; try done).
  - unfold data_channel, guard in E. destruct (w_sessions w !! s) as [x|] eqn:L; [|done]. cbn in E. destruct (s_pc x) eqn:?; [|done]. cbn in E. case_bool_decide; [|done]. cbn in E. destruct (s_dataChan x) eqn:?; [|done]. by econstructor.
  - unfold on_open in E. destruct (w_handlers w !! h) as [y|] eqn:L; [|done]. cbn in E. case_bool_decide; [done|]. destruct selected; [done|]. by econstructor.
  - unfold buffered_low, get, guard in E. repeat (case_match; cbn in E; try done).
  - unfold send_more in E. destruct (w_handlers w !! h) as [y|] eqn:L; [|done]. cbn in E. destruct (h_low y) eqn:?; [done|]. destruct (h_sendMore y) eqn:?; [|done]. econstructor; [done|lia|done].
  - unfold on_message in E. destruct (w_handlers w !! h) as [y|] eqn:L; [|done]. cbn in E. destruct (pipe_Write size 0 _) as [n []] eqn:W; [done|]. apply pipe_Write_whole in W. cbn in W. subst n.
    by rewrite Nat.eqb_refl in E.
  - unfold on_close, get in E. repeat (case_match; cbn in E; try done).
  - unfold closed in E. destruct (w_handlers w !! h) as [y|] eqn:L; [|done]. cbn in E. destruct (h_closing y) eqn:?; [done|]. destruct (h_sendMore y) eqn:?; [eapply crash_closed_twice; [done|lia|done]|].
    destruct (GeoIP sf) eqn:?; try done. eapply crash_geoip_value; [done|lia|done].
  - unfold handler_start, get in E. repeat (case_match; cbn in E; try done).
  - unfold handler_end, get in E. repeat (case_match; cbn in E; try done).
  - unfold inactive, get in E. repeat (case_match; cbn in E; try done).
  - unfold Stop in E. case_bool_decide; [done|]. by constructor.
Qed.

(** C26: when a proxy crashes.  In every state that a proxy reaches a step panics
    exactly in these cases: Start without an event dispatcher or with a negative
    interval between polls; the start of a session without randomness; an offer for
    which SetLocalDescription fails (and the connection can be closed); a client
    that opens another data channel on its peer connection; a data channel that is
    opened, with an OutboundAddress, without a selected candidate pair; a call of
    the callback for a low buffer that overlaps the close of the data channel; a
    second call of the callback for the close; that callback with a GeoIP that is
    neither nil nor of a kind that can be; Stop before Start, or twice.  So neither
    an interval that the broker asks for nor a message of a client, however it is
    read, makes the proxy panic. *)
Theorem proxy_panics (e : event) (w : world) : reachable w → exec e w = Panic ↔ crash w e.
Proof. intros Hw. split; [by apply panic_crashes|apply crash_panics]. Qed.

(** A session in which a client is served. *)
Definition all_made : made := MkMade true true true true true.

Definition serve (r : ProxyPollResponse) (k : nat) : list event :=
  [ETick k true; EPolled k r; EReturn k; EOffer k all_made; EAnswered k true; EDataChannel k k; EHandler k].

Record idle (k : nat) (w : world) : Prop := {
  id_loop : w_loop w = LPolling; id_busy : w_busy w = None; id_shutdown : w_shutdown w = Some false; id_reachable : w_relayReachable w = true;
  id_sessions i : (k ≤ i)%nat → w_sessions w !! i = None; id_handlers i : (k ≤ i)%nat → w_handlers w !! i = None
}.

Lemma polled_Ok k r w x : w_sessions w !! k = Some x → s_run x = RPolling → 0 < poll_interval r →
  polled k r w = Ok (set_session k (set_run RReturning (set_go (GOffer r) x)) (set_ticker (poll_interval r) w)).
Proof. intros L R Hp. unfold polled, Reset. rewrite L. cbn [get mbind res_bind]. rewrite R, (proj2 (Z.leb_gt _ _)) by lia. reflexivity. Qed.

Lemma return_Ok k w x : w_sessions w !! k = Some x → s_run x = RReturning → s_connected x = false →
  return_ k w = Ok (set_busy None (set_session k (set_run RReturned (set_kept false x)) (set_tokens (u64 (w_tokens w - 1)) w))).
Proof. intros L R Hc. unfold return_. rewrite L. cbn [get mbind res_bind]. by rewrite R, Hc. Qed.

Lemma offer_Ok k r w x : w_sessions w !! k = Some x → s_go x = GOffer r → acceptable r = true → offer k all_made w = Ok (set_session k (set_pc true (set_go GAnswer x)) w).
Proof. intros L R Ha. unfold offer. rewrite L. cbn [get mbind res_bind]. by rewrite R, Ha. Qed.

Lemma answered_Ok k w x : w_sessions w !! k = Some x → s_go x = GAnswer → answered k true w = Ok (set_session k (set_go GWait x) w).
Proof. intros L R. unfold answered. rewrite L. cbn [get mbind res_bind]. by rewrite R. Qed.

Lemma data_channel_Ok k h w x : w_sessions w !! k = Some x → s_pc x = true → s_dataChan x = false → w_handlers w !! h = None →
  data_channel k h w = Ok (set_handler h (new_handler k) (set_session k (set_dataChan x) w)).
Proof. intros L R Hd Hh. unfold data_channel. rewrite L, Hh. cbn [get mbind res_bind]. by rewrite R, Hd. Qed.

Lemma tick_Ok k w : idle k w →
  tick k true w = Ok (set_busy (Some k) (set_session k (MkSession RPolling GNone false false false false) (set_tokens (u64 (w_tokens w + 1)) w))).
Proof. intros [Hl Hb Hs Hr Hx _]. unfold tick. rewrite Hl, Hb, Hs, Hx by lia. rewrite !bool_decide_true by done. cbn [guard andb mbind res_bind negb]. by rewrite Hr. Qed.

Lemma handler_start_Ok h w y : w_handlers w !! h = Some y → h_pc y = HStart →
  handler_start h w = Ok (set_handler h (set_hpc HRunning y) (set_tokens (u64 (w_tokens w + 1)) w)).
Proof. intros L R. unfold handler_start. rewrite L. cbn [get mbind res_bind]. by rewrite R. Qed.

Lemma execs_step e es w w' : exec e w = Ok w' → execs (e :: es) w = execs es w'.
Proof. intros E. cbn [execs]. by rewrite E. Qed.

(** The lookup of the entry that was written last. *)
Ltac last_entry := first [reflexivity | eassumption | apply lookup_insert_eq].

Lemma serve_idle r k w : 0 < pollInterval → acceptable r = true → idle k w → ∃ w', execs (serve r k) w = Ok w' ∧ idle (S k) w' ∧ running w' = running w + 1.
Proof.
  intros Hp Ha Hi. assert (0 < poll_interval r) as Hpos by (unfold poll_interval; destruct (Z.leb_spec (i64 (pr_NextPoll r * 1000000)) 0); lia).
  pose proof Hi as [Hl Hb Hs Hr Hx Hy]. eexists. split.
  - unfold serve. erewrite execs_step by (by apply tick_Ok). erewrite execs_step by (eapply polled_Ok; last_entry).
    erewrite execs_step by (eapply return_Ok; last_entry). erewrite execs_step by (eapply offer_Ok; last_entry).
    erewrite execs_step by (eapply answered_Ok; last_entry). erewrite execs_step by (eapply data_channel_Ok; [last_entry..|by apply Hy]).
    erewrite execs_step by (eapply handler_start_Ok; last_entry). reflexivity.
  - split; [split|].
    + exact Hl.
    + done.
    + exact Hs.
    + exact Hr.
    + intros i Hi'. cbn [w_sessions set_handler set_session set_tokens set_busy set_ticker]. rewrite !lookup_insert_ne by lia. apply Hx. lia.
    + intros i Hi'. cbn [w_handlers set_handler set_session set_tokens set_busy set_ticker]. rewrite !lookup_insert_ne by lia. apply Hy. lia.
    + unfold running. cbn [w_handlers set_handler set_session set_tokens set_busy set_ticker]. rewrite insert_insert_eq, weigh_fresh by (apply Hy; lia). cbn [holds_token h_pc set_hpc]. lia.
Qed.

Lemma execs_app es es' w w' : execs es w = Ok w' → execs (es ++ es') w = execs es' w'.
Proof.
  revert w. induction es as [|e es IH]; intros w; cbn [app execs]; [by intros [= ->]|]. intros (w1 & -> & E)%bind_Ok_inv. cbn. by apply IH.
Qed.

(** the capacity of a proxy is not enforced.  A proxy that gets offers serves
    any number of clients at a time, whatever its Capacity is. *)
Theorem capacity_not_enforced (r : ProxyPollResponse) (n : nat) : 0 ≤ PollInterval sf → EventDispatcher sf = true → config_ok = true → acceptable r = true →
  ∃ es w, execs es start = Ok w ∧ running w = Z.of_nat n.
Proof.
  intros Hpi He Hok Ha. assert (0 < pollInterval) as Hp by (unfold pollInterval, DefaultPollInterval; destruct (Z.eqb_spec (PollInterval sf) 0); lia). cut (∃ es w, execs es start = Ok w ∧ idle n w ∧ running w = Z.of_nat n); [intros (es & w & ? & _ & ?); eauto|].
  induction n as [|n (es & w & Hx & Hi & Hn)].
  - exists [EStart; ELoop; EReachable true]. eexists. split.
    + assert (exec EStart start = Ok (set_loop LStarting (set_shutdown false start))) as E1 by (cbn [exec]; unfold start_config; by rewrite He, Hok).
      assert (∀ w, w_loop w = LStarting → exec ELoop w = Ok (set_loop LPolling (set_ticker pollInterval w))) as E2.
      { intros w Hw. cbn [exec]. unfold start_loop, Reset. rewrite Hw, (proj2 (Z.leb_gt _ _)) by lia. reflexivity. }
      erewrite execs_step by exact E1. erewrite execs_step by (by apply E2). reflexivity.
    + split; [|done]. by split.
  - destruct (serve_idle r n w Hp Ha Hi) as (w' & Hx' & Hi' & Hn'). exists (es ++ serve r n), w'. split; [by rewrite (execs_app _ _ _ _ Hx)|]. split; [done|lia].
Qed.

End proxy.

(** *** An example *)

#[local] Existing Instance Rendezvous.Demo.texts.

#[local] Existing Instance demo_parsers.

Definition demo_proxy : SnowflakeProxy := MkSnowflakeProxy 0 0 1 (gs "snowflake.torproject.net$") false false [] [] [] [] true GeoNil.
Definition demo_response : ProxyPollResponse :=
  MkProxyPollResponse ProxyClientMatch (Rendezvous.Demo.description (gs "offer")) NATUnknown 20000 (gs "wss://snowflake.torproject.net/").

Lemma capacity_not_enforced_witness : Capacity demo_proxy = 1 ∧ ∃ es w, execs demo_proxy es start = Ok w ∧ running w = 2.
Proof. split; [done|]. apply (capacity_not_enforced demo_proxy demo_response 2); [done|done|vm_compute; reflexivity..]. Defined.

Definition demo_events : list event := [EStart; ELoop; EReachable true] ++ serve demo_response 0.
Definition demo_world : world := match execs demo_proxy demo_events start with Ok w => w | _ => start end.

Lemma reachable_events es : ∀ w w', reachable demo_proxy w → execs demo_proxy es w = Ok w' → reachable demo_proxy w'.
Proof.
  induction es as [|e es IH]; intros w w' Hw; cbn [execs]; [by intros [= <-]|]. intros (w1 & Hx & E)%bind_Ok_inv. eapply IH; [by eapply reachable_exec|exact E].
Qed.

Lemma tokens_count_clients_witness : w_tokens demo_world = 1 ∧ w_tokens demo_world = u64 (polling demo_world + kept demo_world + running demo_world).
Proof.
  split; [vm_compute; reflexivity|]. apply (tokens_count_clients demo_proxy). apply (reachable_events demo_events start); [constructor|]. vm_compute. reflexivity.
Defined.

(** A client with two data channels; and a buffer that gets low while the data
    channel is closed. *)
Lemma proxy_panics_witness : reachable demo_proxy demo_world ∧ exec demo_proxy (EDataChannel 0 1) demo_world = Panic ∧
  ∃ w, execs demo_proxy [ELow 0; EOnClose 0; EClosed 0] demo_world = Ok w ∧ exec demo_proxy (ESendMore 0) w = Panic.
Proof.
  assert (reachable demo_proxy demo_world) as Hw by (apply (reachable_events demo_events start); [constructor|vm_compute; reflexivity]). split; [exact Hw|]. split.
  - apply (proxy_panics demo_proxy (EDataChannel 0 1) demo_world Hw). eapply crash_second_channel; vm_compute; reflexivity.
  - eexists. split; [vm_compute; reflexivity|]. apply (proxy_panics demo_proxy).
    + eapply (reachable_events [ELow 0; EOnClose 0; EClosed 0]); [exact Hw|vm_compute; reflexivity].
    + eapply crash_late_callback; [vm_compute; reflexivity|vm_compute; lia|vm_compute; reflexivity].
Defined.

(** A session whose goroutine sees the data channel before runSession returns
    keeps its token after the client has gone. *)
Example token_kept : ∃ w, execs demo_proxy [EStart; ELoop; EReachable true; ETick 0 true; EPolled 0 demo_response; EOffer 0 all_made; EAnswered 0 true; EDataChannel 0 0;
    EConnected 0; EReturn 0; EHandler 0; EHandlerEnd 0] start = Ok w ∧ running w = 0 ∧ w_busy w = None ∧ w_tokens w = 1.
Proof. eexists. split; [vm_compute; reflexivity|]. split_and!; vm_compute; reflexivity. Qed.

End Sessions.

(** ** Traffic (util.go) *)

Module Traffic.

(** bytesSyncLogger: the amounts in the two channels, which hold five each, the
    totals of the goroutine [log], and what GetStat returned so far. *)
Record logger := MkLogger { outboundChan : list Z; inboundChan : list Z; outbound : Z; inbound : Z; reported_out : list Z; reported_in : list Z }.

Definition newBytesSyncLogger : logger := MkLogger [] [] 0 0 [] [].

Inductive event := AddOutbound (amount : Z) | AddInbound (amount : Z) | TakeOutbound | TakeInbound | GetStat.

(** A send on a channel that is full waits. *)
Definition exec (e : event) (l : logger) : option logger :=
  match e with
  | AddOutbound n =>
      if (length (outboundChan l) <? 5)%nat then Some (MkLogger (outboundChan l ++ [n]) (inboundChan l) (outbound l) (inbound l) (reported_out l) (reported_in l)) else None
  | AddInbound n =>
      if (length (inboundChan l) <? 5)%nat then Some (MkLogger (outboundChan l) (inboundChan l ++ [n]) (outbound l) (inbound l) (reported_out l) (reported_in l)) else None
  | TakeOutbound =>
      match outboundChan l with
      | n :: ns => Some (MkLogger ns (inboundChan l) (i64 (outbound l + n)) (inbound l) (reported_out l) (reported_in l))
      | [] => None
      end
  | TakeInbound =>
      match inboundChan l with
      | n :: ns => Some (MkLogger (outboundChan l) ns (outbound l) (i64 (inbound l + n)) (reported_out l) (reported_in l))
      | [] => None
      end
  | GetStat => Some (MkLogger (outboundChan l) (inboundChan l) 0 0 (reported_out l ++ [outbound l]) (reported_in l ++ [inbound l]))
  end.

Fixpoint execs (es : list event) (l : logger) : option logger :=
  match es with
  | [] => Some l
  | e :: es => l ← exec e l; execs es l
  end.

Definition sum (l : list Z) : Z := foldr Z.add 0 l.
Definition added_out (es : list event) : Z := sum (map (λ e, match e with AddOutbound n => n | _ => 0 end) es).
Definition added_in (es : list event) : Z := sum (map (λ e, match e with AddInbound n => n | _ => 0 end) es).

(** What was reported, counted and not counted yet. *)
Definition total_out (l : logger) : Z := sum (reported_out l) + outbound l + sum (outboundChan l).
Definition total_in (l : logger) : Z := sum (reported_in l) + inbound l + sum (inboundChan l).

Lemma sum_app a b : sum (a ++ b) = sum a + sum b.
Proof. unfold sum. induction a as [|x a IH]; cbn [app foldr]; [lia|]. rewrite IH. lia. Qed.

Lemma i64_mod z : i64 z mod 2 ^ 64 = z mod 2 ^ 64.
Proof. unfold i64. rewrite Zminus_mod_idemp_l. f_equal. lia. Qed.

Lemma exec_totals e l l' : exec e l = Some l' →
  total_out l' mod 2 ^ 64 = (total_out l + added_out [e]) mod 2 ^ 64 ∧ total_in l' mod 2 ^ 64 = (total_in l + added_in [e]) mod 2 ^ 64.
Proof.
  assert (∀ a b c, (a + i64 b + c) mod 2 ^ 64 = (a + b + c) mod 2 ^ 64) as Hi.
  { intros a b c. rewrite (Z.add_comm a), <- Z.add_assoc, Zplus_mod, i64_mod, <- Zplus_mod. f_equal. lia. }
  unfold total_out, total_in, added_out, added_in.
  destruct e; cbn [exec map]; try case_match; intros E; simplify_eq; cbn [outboundChan inboundChan outbound inbound reported_out reported_in]; rewrite ?sum_app, ?Hi;
    change (sum [0]) with 0; try (match goal with H : _ = ?n :: ?ns |- _ => change (sum (n :: ns)) with (n + sum ns) end); cbn [sum foldr]; split; f_equal; lia.
Qed.

(** no traffic is lost.  After any calls of AddOutbound and AddInbound, what
    GetStat reported, what is counted and what waits in the channels are together
    what was added, modulo 2^64. *)
Theorem traffic_conserved (es : list event) (l : logger) : execs es newBytesSyncLogger = Some l →
  total_out l mod 2 ^ 64 = added_out es mod 2 ^ 64 ∧ total_in l mod 2 ^ 64 = added_in es mod 2 ^ 64.
Proof.
  cut (∀ es l l', execs es l = Some l' → total_out l' mod 2 ^ 64 = (total_out l + added_out es) mod 2 ^ 64 ∧ total_in l' mod 2 ^ 64 = (total_in l + added_in es) mod 2 ^ 64).
  { intros Hg Hx. apply (Hg _ _ _ Hx). }
  clear. induction es as [|e es IH]; intros l l'; cbn [execs].
  - intros [= <-]. cbn. by rewrite !Z.add_0_r.
  - intros (l1 & Hx & Hxs)%bind_Some. destruct (exec_totals _ _ _ Hx) as [Ho Hi]. destruct (IH _ _ Hxs) as [-> ->].
    change (added_out (e :: es)) with (added_out ([e] ++ es)). change (added_in (e :: es)) with (added_in ([e] ++ es)). unfold added_out, added_in in *. rewrite !map_app, !sum_app.
    rewrite Zplus_mod, Ho, (Zplus_mod (total_in l1)), Hi, <- !Zplus_mod. split; f_equal; lia.
Qed.

Lemma traffic_conserved_witness : ∃ l, execs [AddOutbound 7; AddInbound 5; TakeOutbound; GetStat; AddOutbound 3] newBytesSyncLogger = Some l ∧
  total_out l mod 2 ^ 64 = 10.
Proof. eexists. split; [vm_compute; reflexivity|]. refine (proj1 (traffic_conserved [AddOutbound 7; AddInbound 5; TakeOutbound; GetStat; AddOutbound 3] _ _)). vm_compute. reflexivity. Defined.

End Traffic.
