(* ===== verification/Task.v ===== *)
(** * Tasks that run again and again (src/common/task)

    [Periodic] runs a function at fixed intervals, [ExpBackoff] at intervals that
    depend on its failures.  Both are shared by the goroutine that starts and
    closes the task and by the goroutines of the timers; a [world] holds the
    fields of the task, the runs of [checkedExecute] that are under way and the
    timers that have not fired.  An event is a critical section, or the return of
    the function that the task executes. *)
From stdpp Require Import base tactics numbers list gmap.
From Stdlib Require Import ZArith Lia.
From S2P Require Import Prelude.
Open Scope Z_scope.

Module Task.

(** The fields of an [ExpBackoff]; [t_timer] names the timer in the field. *)
Record ExpBackoff := MkExpBackoff {
  MinInterval : Z; MaxInterval : Z; hasOnError : bool;
  t_failed : bool; t_interval : Z; t_running : bool; t_timer : option nat
}.

(** A run of [checkedExecute]: before [hasClosed], in [Execute], before the last
    critical section, and returned, with an error or without. *)
Inductive run_pc := RCheck | RExecute | RSchedule | RReturned (err : bool).

Record world := MkWorld { w_task : ExpBackoff; w_runs : gmap nat run_pc; w_timers : gmap nat Z; w_executions : nat }.

Definition set_running (v : bool) (t : ExpBackoff) : ExpBackoff :=
  MkExpBackoff (MinInterval t) (MaxInterval t) (hasOnError t) (t_failed t) (t_interval t) v (t_timer t).
Definition set_interval (failed : bool) (i : Z) (t : ExpBackoff) : ExpBackoff :=
  MkExpBackoff (MinInterval t) (MaxInterval t) (hasOnError t) failed i (t_running t) (t_timer t).
Definition set_timer (v : option nat) (t : ExpBackoff) : ExpBackoff :=
  MkExpBackoff (MinInterval t) (MaxInterval t) (hasOnError t) (t_failed t) (t_interval t) (t_running t) v.

Definition set_task t w := MkWorld t (w_runs w) (w_timers w) (w_executions w).
Definition set_run r pc w := MkWorld (w_task w) (<[r:=pc]> (w_runs w)) (w_timers w) (w_executions w).
Definition set_timers ts w := MkWorld (w_task w) (w_runs w) ts (w_executions w).
Definition count_execution w := MkWorld (w_task w) (w_runs w) (w_timers w) (S (w_executions w)).

(** [hasClosed], and what checkedExecute does with it. *)
Definition hasClosed (t : ExpBackoff) : bool := negb (t_running t).

Definition check (r : nat) (w : world) : option world :=
  match w_runs w !! r with
  | Some RCheck => Some (if hasClosed (w_task w) then set_run r (RReturned false) w else count_execution (set_run r RExecute w))
  | _ => None
  end.

(** The interval after a run of the function. *)
Definition next_interval (err : bool) (t : ExpBackoff) : ExpBackoff :=
  if err then
    if t_failed t then set_interval true (Z.min (i64 (t_interval t * 2)) (MaxInterval t)) t
    else set_interval true (MinInterval t) t
  else set_interval false (t_interval t) t.

(** [Execute] returns. *)
Definition executed (r : nat) (err : bool) (w : world) : option world :=
  match w_runs w !! r with
  | Some RExecute =>
      Some (if err && negb (hasOnError (w_task w))
            then set_run r (RReturned true) (set_task (set_running false (w_task w)) w)
            else set_run r RSchedule (set_task (next_interval err (w_task w)) w))
  | _ => None
  end.

(** The last critical section: a timer [i] for the next run. *)
Definition schedule (r i : nat) (w : world) : option world :=
  match w_runs w !! r, w_timers w !! i with
  | Some RSchedule, None =>
      Some (set_run r (RReturned false)
        (if t_running (w_task w) then set_task (set_timer (Some i) (w_task w)) (set_timers (<[i := t_interval (w_task w)]> (w_timers w)) w) else w))
  | _, _ => None
  end.

(** A timer fires: it calls checkedExecute in a goroutine of its own. *)
Definition fire (i r : nat) (w : world) : option world :=
  match w_timers w !! i, w_runs w !! r with
  | Some _, None => Some (set_run r RCheck (set_timers (delete i (w_timers w)) w))
  | _, _ => None
  end.

(** Start, up to its call of checkedExecute. *)
Definition Start (r : nat) (w : world) : option world :=
  let t := set_interval (t_failed (w_task w)) (MaxInterval (w_task w)) (w_task w) in
  if t_running t then Some (set_task t w) else
  match w_runs w !! r with
  | None => Some (set_run r RCheck (set_task (set_running true t) w))
  | Some _ => None
  end.

Definition Close (w : world) : option world :=
  let t := set_running false (w_task w) in
  Some (match t_timer t with
        | Some i => set_task (set_timer None t) (set_timers (delete i (w_timers w)) w)
        | None => set_task t w
        end).

Inductive event := EStart (r : nat) | ECheck (r : nat) | EExecuted (r : nat) (err : bool) | ESchedule (r i : nat) | EFire (i r : nat) | EClose.

Definition exec (e : event) (w : world) : option world :=
  match e with
  | EStart r => Start r w
  | ECheck r => check r w
  | EExecuted r err => executed r err w
  | ESchedule r i => schedule r i w
  | EFire i r => fire i r w
  | EClose => Close w
  end.

Fixpoint execs (es : list event) (w : world) : option world :=
  match es with
  | [] => Some w
  | e :: es => w ← exec e w; execs es w
  end.

(** A new task: the fields that are set are the intervals and OnError. *)
Definition new (min max : Z) (onError : bool) : world := MkWorld (MkExpBackoff min max onError false 0 false None) ∅ ∅ 0.

(** ** [Periodic]

    It has no backoff: [checkedExecute] is the one above with the interval
    unchanged, and Start checks the interval and handles the error of the first
    run.  The error of a run that a timer started goes to OnError a second time,
    if there were one: a run that returns an error has none. *)
Module Periodic.

Definition Start (interval : Z) (r : nat) (w : world) : res () (option world) :=
  if interval <=? 0 then Err () else
  Ok (if t_running (w_task w) then Some w else
      match w_runs w !! r with
      | None => Some (set_run r RCheck (set_task (set_running true (w_task w)) w))
      | Some _ => None
      end).

Definition executed (r : nat) (err : bool) (w : world) : option world :=
  match w_runs w !! r with
  | Some RExecute =>
      Some (if err && negb (hasOnError (w_task w))
            then set_run r (RReturned true) (set_task (set_running false (w_task w)) w)
            else set_run r RSchedule w)
  | _ => None
  end.

End Periodic.

(** ** Lemmas *)

Lemma i64_small z : - 2 ^ 63 ≤ z < 2 ^ 63 → i64 z = z.
Proof. intros Hz. unfold i64. rewrite Z.mod_small; lia. Qed.

(** The interval of a task that has been started is in its bounds, and so are
    those of its timers. *)
Record in_bounds (lo hi : Z) (w : world) : Prop := {
  ib_min : MinInterval (w_task w) = lo;
  ib_max : MaxInterval (w_task w) = hi;
  ib_interval : lo ≤ t_interval (w_task w) ≤ hi ∨ t_running (w_task w) = false ∧ w_runs w = ∅ ∧ w_timers w = ∅;
  ib_timers : map_Forall (λ _ i, lo ≤ i ≤ hi) (w_timers w)
}.

Lemma next_interval_bounds lo hi err t : 0 < lo → lo ≤ hi < 2 ^ 62 → MinInterval t = lo → MaxInterval t = hi → lo ≤ t_interval t ≤ hi →
  lo ≤ t_interval (next_interval err t) ≤ hi.
Proof.
  intros Hlo Hhi <- <- Ht. unfold next_interval. destruct err, (t_failed t); cbn; try lia. rewrite i64_small by lia. lia.
Qed.

Lemma next_interval_config err t : MinInterval (next_interval err t) = MinInterval t ∧ MaxInterval (next_interval err t) = MaxInterval t.
Proof. unfold next_interval. by repeat case_match. Qed.

(** Where a run or a timer is, the task has been started. *)
Lemma run_bounds lo hi w r pc : in_bounds lo hi w → w_runs w !! r = Some pc → lo ≤ t_interval (w_task w) ≤ hi.
Proof. intros [_ _ [?|(_ & E & _)] _] Hr; [done|]. by rewrite E, lookup_empty in Hr. Qed.

Lemma timer_bounds lo hi w i d : in_bounds lo hi w → w_timers w !! i = Some d → lo ≤ t_interval (w_task w) ≤ hi.
Proof. intros [_ _ [?|(_ & _ & E)] _] Hi; [done|]. by rewrite E, lookup_empty in Hi. Qed.

Lemma exec_bounds lo hi e w w' : 0 < lo → lo ≤ hi < 2 ^ 62 → in_bounds lo hi w → exec e w = Some w' → in_bounds lo hi w'.
Proof.
  intros Hlo Hhi Hb Hx. pose proof Hb as [Hmin Hmax Hi Ht]. destruct e; cbn [exec] in Hx.
  - unfold Start in Hx. cbn in Hx. repeat case_match; simplify_eq; split; cbn; try done; left; lia.
  - unfold check in Hx. destruct (w_runs w !! r) as [[]|] eqn:E; simplify_eq. apply (run_bounds _ _ _ _ _ Hb) in E. destruct (hasClosed _); split; cbn; auto.
  - unfold executed in Hx. destruct (w_runs w !! r) as [[]|] eqn:E; simplify_eq. apply (run_bounds _ _ _ _ _ Hb) in E.
    destruct (err && _); [by split; cbn; auto|]. destruct (next_interval_config err (w_task w)).
    split; cbn; [congruence..|left; by apply next_interval_bounds|done].
  - unfold schedule in Hx. destruct (w_runs w !! r) as [[]|] eqn:E; simplify_eq. apply (run_bounds _ _ _ _ _ Hb) in E.
    destruct (w_timers w !! i); simplify_eq. destruct (t_running (w_task w)); split; cbn; auto. by apply map_Forall_insert_2.
  - unfold fire in Hx. destruct (w_timers w !! i) eqn:E; [|done]. destruct (w_runs w !! r); simplify_eq. apply (timer_bounds _ _ _ _ _ Hb) in E.
    split; cbn; auto. by apply map_Forall_delete.
  - unfold Close in Hx. cbn in Hx. case_match; simplify_eq; split; cbn; auto; [|by apply map_Forall_delete|];
      destruct Hi as [?|(_ & Hr & Hts)]; auto. right. split_and!; [done..|]. by rewrite Hts, delete_empty.
Qed.

Lemma execs_bounds lo hi es : ∀ w w', 0 < lo → lo ≤ hi < 2 ^ 62 → in_bounds lo hi w → execs es w = Some w' → in_bounds lo hi w'.
Proof.
  induction es as [|e es IH]; intros w w' Hlo Hhi Hb Hx; [by injection Hx as <-|]. cbn in Hx.
  destruct (exec e w) as [w1|] eqn:E; [|done]. eapply IH; [done..| |exact Hx]. by eapply exec_bounds.
Qed.

Lemma failures_interval n t : 0 < MinInterval t → MinInterval t ≤ MaxInterval t < 2 ^ 62 → t_failed t = false →
  let t' := Nat.iter (S n) (next_interval true) t in
  t_failed t' = true ∧ MinInterval t' = MinInterval t ∧ MaxInterval t' = MaxInterval t ∧ t_interval t' = Z.min (MinInterval t * 2 ^ Z.of_nat n) (MaxInterval t).
Proof.
  intros Hlo Hhi Hf. induction n as [|n IH]; cbn [Nat.iter nat_rect].
  - unfold next_interval. rewrite Hf. cbn. split_and!; lia || done.
  - destruct IH as (Hf' & Hmin & Hmax & Hi). cbn [Nat.iter nat_rect] in *.
    generalize dependent (next_interval true (nat_rect (λ _, ExpBackoff) t (λ _, next_interval true) n)). intros t' Hf' Hmin Hmax Hi.
    unfold next_interval. rewrite Hf'. cbn. split_and!; [done..|].
    rewrite Hi, Hmax, Nat2Z.inj_succ, Z.pow_succ_r by lia. pose proof (Z.pow_pos_nonneg 2 (Z.of_nat n)). rewrite i64_small by nia. nia.
Qed.

(** ** Properties *)

(** C39: the time between two runs.  For a task with intervals in order, below
    2^62 ns, every timer that is set, after any sequence of starts, closes, runs
    and failures, is set to a time between MinInterval and MaxInterval. *)
Theorem backoff_interval_bounds (lo hi : Z) (onError : bool) (es : list event) (w : world) : 0 < lo → lo ≤ hi < 2 ^ 62 →
  execs es (new lo hi onError) = Some w → map_Forall (λ _ i, lo ≤ i ≤ hi) (w_timers w).
Proof.
  intros Hlo Hhi Hx. apply (ib_timers lo hi). apply (execs_bounds lo hi es (new lo hi onError)); [done..| |done].
  split; cbn; [done..|by right|apply map_Forall_empty].
Qed.

Definition demo : list event := [EStart 0; ECheck 0; EExecuted 0 true; ESchedule 0 0; EFire 0 1; ECheck 1; EExecuted 1 false; ESchedule 1 1]%nat.

Lemma backoff_interval_bounds_witness : ∃ w, execs demo (new 5 24 true) = Some w ∧ map_Forall (λ _ i, 5 ≤ i ≤ 24) (w_timers w).
Proof. eexists. split; [vm_compute; reflexivity|]. apply (backoff_interval_bounds 5 24 true demo); [lia|lia|vm_compute; reflexivity]. Defined.

(** the interval doubles.  After [n + 1] failures in a row the interval is the
    MinInterval doubled [n] times, or the MaxInterval if that is less. *)
Theorem backoff_doubles (n : nat) (t : ExpBackoff) : 0 < MinInterval t → MinInterval t ≤ MaxInterval t < 2 ^ 62 → t_failed t = false →
  t_interval (Nat.iter (S n) (next_interval true) t) = Z.min (MinInterval t * 2 ^ Z.of_nat n) (MaxInterval t).
Proof. intros Hlo Hhi Hf. by apply failures_interval. Qed.

Lemma backoff_doubles_witness : t_interval (Nat.iter 3 (next_interval true) (w_task (new 5 24 true))) = 20.
Proof. rewrite (backoff_doubles 2); [reflexivity|cbn; lia|cbn; lia|reflexivity]. Defined.

(** a closed task does not run.  When the task is closed and not started
    again, its function is not executed any more, whatever runs and timers there
    still are. *)
Theorem closed_task_stops (es : list event) (w w' : world) : t_running (w_task w) = false → (∀ r, EStart r ∉ es) → execs es w = Some w' →
  w_executions w' = w_executions w ∧ t_running (w_task w') = false.
Proof.
  revert w. induction es as [|e es IH]; intros w Hr Hes Hx; [by injection Hx as <-|]. cbn in Hx. destruct (exec e w) as [w1|] eqn:E; [|done].
  assert (w_executions w1 = w_executions w ∧ t_running (w_task w1) = false) as [He Hr1].
  { destruct e; cbn [exec] in E; [by destruct (Hes r); left|..]; unfold check, executed, schedule, fire, Close, hasClosed, next_interval in E;
      rewrite ?Hr in E; cbn in E; repeat (case_match; simplify_eq; try done); cbn; auto. }
  rewrite <- He. apply IH; [done| |done]. intros r Hin. by apply (Hes r); right.
Qed.

Lemma closed_task_stops_witness : ∃ w, execs [EClose; EFire 1 2; ECheck 2]%nat (new 5 24 true) = None ∧
  execs [EStart 0; ECheck 0; EClose; EExecuted 0 true; ESchedule 0 0]%nat (new 5 24 true) = Some w ∧ w_executions w = 1%nat.
Proof.
  destruct (execs [EStart 0; ECheck 0; EClose]%nat (new 5 24 true)) as [w0|] eqn:E; [|discriminate E].
  destruct (execs [EExecuted 0 true; ESchedule 0 0]%nat w0) as [w|] eqn:E'; [|vm_compute in E; injection E as <-; discriminate E'].
  exists w. split; [vm_compute; reflexivity|]. split.
  - vm_compute in E. injection E as <-. exact E'.
  - destruct (closed_task_stops [EExecuted 0 true; ESchedule 0 0]%nat w0 w) as [-> _]; [..|exact E'|]; vm_compute in E; injection E as <-; [reflexivity| |reflexivity].
    intros r Hr. apply list_elem_of_In in Hr. cbn in Hr. intuition discriminate.
Defined.

(** a success does not end the backoff.  When a run fails and the next one
    succeeds, the run after that is scheduled after MinInterval, as after the
    failure, and not after MaxInterval. *)
Theorem success_keeps_backoff (lo hi : Z) : ∃ w, execs demo (new lo hi true) = Some w ∧ w_timers w = {[1%nat := lo]} ∧ t_failed (w_task w) = false.
Proof. eexists. split; [reflexivity|]. split; reflexivity. Qed.

End Task.
