(* ===== verification/ClientMap.v ===== *)
(** * The map of live clients (src/common/turbotunnel/clientmap.go)

    [clientMapInner] keeps the client records in a heap by the time they were
    last seen, and a map from addresses to heap positions.  It implements
    heap.Interface, here as an instance of [HeapInterface]; the instance of
    [HeapSpec] shows that the map and the heap always agree, so that the two
    panics of the code are never reached.  [SendQueue] and [removeExpired] are
    shown to refine a finite map from addresses to a time and a queue. *)
From stdpp Require Import base tactics numbers list gmap fin_sets.
From Stdlib Require Import ZArith Lia.
From S2P Require Import Prelude GoHeap.
Open Scope Z_scope.

Module ClientMap.

(** A net.Addr used as a map key, for instance a ClientID. *)
Abbreviation addr := (list Z).

(** A buffered channel of packets: what it holds, and whether it is closed. *)
Record chan := Chan { ch_buf : list (list Z); ch_closed : bool }.

(** Channels are references into the store [chans]. *)
Abbreviation chan_id := nat.

(** Times are nanoseconds; [now.Sub(t)] saturates at the range of int64. *)
Definition Sub (now t : Z) : Z := Z.max (- 2 ^ 63) (Z.min (2 ^ 63 - 1) (now - t)).

Record clientRecord := Rec {
  cr_Addr : addr;
  cr_LastSeen : Z;
  cr_SendQueue : chan_id
}.

Record clientMapInner := Inner {
  byAge : list clientRecord;
  byAddr : gmap addr nat;
  chans : gmap chan_id chan
}.

(** [NewClientMap], without the goroutine that calls [removeExpired]. *)
Definition NewClientMap : clientMapInner := Inner [] ∅ ∅.

(** [inner.byAge[i]] *)
Definition record_at (l : list clientRecord) (i : nat) : go clientRecord :=
  match l !! i with
  | Some r => Ok r
  | None => Panic
  end.

Definition cm_Len (h : clientMapInner) : go nat :=
  if decide (length (byAge h) = size (byAddr h)) then Ok (length (byAge h)) else Panic.

Definition cm_Less (h : clientMapInner) (i j : nat) : go bool :=
  a ← record_at (byAge h) i;
  b ← record_at (byAge h) j;
  Ok (cr_LastSeen a <? cr_LastSeen b).

Definition cm_Swap (h : clientMapInner) (i j : nat) : go clientMapInner :=
  _ ← record_at (byAge h) i;
  _ ← record_at (byAge h) j;
  let l := exchange i j (byAge h) in
  a ← record_at l i;
  b ← record_at l j;
  Ok (Inner l (<[cr_Addr b := j]> (<[cr_Addr a := i]> (byAddr h))) (chans h)).

Definition cm_Push (h : clientMapInner) (r : clientRecord) : go clientMapInner :=
  match byAddr h !! cr_Addr r with
  | Some _ => Panic
  | None => Ok (Inner (byAge h ++ [r]) (<[cr_Addr r := length (byAge h)]> (byAddr h)) (chans h))
  end.

(** [close(c)]: a panic on a channel that is closed. *)
Definition close_chan (cs : gmap chan_id chan) (q : chan_id) : go (gmap chan_id chan) :=
  match cs !! q with
  | Some (Chan b false) => Ok (<[q := Chan b true]> cs)
  | _ => Panic
  end.

Definition cm_Pop (h : clientMapInner) : go (clientRecord * clientMapInner) :=
  let n := size (byAddr h) in
  if decide (n = 0%nat) then Panic else
  r ← record_at (byAge h) (n - 1);
  cs ← close_chan (chans h) (cr_SendQueue r);
  Ok (r, Inner (take (n - 1) (byAge h)) (delete (cr_Addr r) (byAddr h)) cs).

#[export] Instance clientMapInner_interface : HeapInterface clientMapInner clientRecord := {
  h_Len := cm_Len;
  h_Less := cm_Less;
  h_Swap := cm_Swap;
  h_Push := cm_Push;
  h_Pop := cm_Pop
}.

(** [record.LastSeen = now] for the record at position [i]. *)
Definition touch (h : clientMapInner) (i : nat) (now : Z) : go (clientRecord * clientMapInner) :=
  r ← record_at (byAge h) i;
  let r' := Rec (cr_Addr r) now (cr_SendQueue r) in
  Ok (r', Inner (<[i := r']> (byAge h)) (byAddr h) (chans h)).

(** [make(chan []byte, queueSize)] *)
Definition make_chan (h : clientMapInner) : chan_id * clientMapInner :=
  let q := fresh (dom (chans h)) in
  (q, Inner (byAge h) (byAddr h) (<[q := Chan [] false]> (chans h))).

Definition SendQueue (h : clientMapInner) (a : addr) (now : Z) : go (chan_id * clientMapInner) :=
  match byAddr h !! a with
  | Some i =>
      '(r, h) ← touch h i now;
      h ← heap_Fix h i;
      Ok (cr_SendQueue r, h)
  | None =>
      let '(q, h) := make_chan h in
      h ← heap_Push h (Rec a now q);
      Ok (q, h)
  end.

(** The loop of [removeExpired]; each round pops a record, so that the number
    of records is enough fuel. *)
Fixpoint removeExpired_loop (fuel : nat) (h : clientMapInner) (now timeout : Z) : go clientMapInner :=
  match fuel with
  | O => Ok h
  | S fuel =>
      match byAge h with
      | [] => Ok h
      | r :: _ =>
          if timeout <=? Sub now (cr_LastSeen r) then
            '(_, h) ← heap_Pop h;
            removeExpired_loop fuel h now timeout
          else Ok h
      end
  end.

Definition removeExpired (h : clientMapInner) (now timeout : Z) : go clientMapInner :=
  removeExpired_loop (length (byAge h)) h now timeout.

(** ** Invariant *)

Record cm_wf (h : clientMapInner) : Prop := {
  wf_pos : ∀ i r, byAge h !! i = Some r → byAddr h !! cr_Addr r = Some i;
  wf_addr : ∀ a i, byAddr h !! a = Some i → ∃ r, byAge h !! i = Some r ∧ cr_Addr r = a;
  wf_size : size (byAddr h) = length (byAge h);
  wf_queues : NoDup (cr_SendQueue <$> byAge h);
  wf_open : ∀ r, r ∈ byAge h → ∃ b, chans h !! cr_SendQueue r = Some (Chan b false)
}.

Definition cm_rel (h h' : clientMapInner) : Prop :=
  byAge h' ≡ₚ byAge h ∧ chans h' = chans h.

(** ** Abstract specification: a finite map with the time last seen *)

Definition entry (r : clientRecord) : addr * (Z * chan_id) :=
  (cr_Addr r, (cr_LastSeen r, cr_SendQueue r)).

Definition live (h : clientMapInner) : gmap addr (Z * chan_id) :=
  list_to_map (entry <$> byAge h).

Definition expired (now timeout : Z) (e : addr * (Z * chan_id)) : Prop := timeout ≤ Sub now (e.2.1).

#[export] Instance expired_dec now timeout e : Decision (expired now timeout e).
Proof. unfold expired. apply _. Defined.

(** The channels after the queues of the expired clients have been closed; the
    packets they hold stay readable. *)
Definition closes (m : gmap addr (Z * chan_id)) (now timeout : Z) (cs cs' : gmap chan_id chan) : Prop :=
  ∀ q,
    ((∃ a t, m !! a = Some (t, q) ∧ expired now timeout (a, (t, q))) →
       cs' !! q = (λ c, Chan (ch_buf c) true) <$> cs !! q) ∧
    ((∀ a t, m !! a = Some (t, q) → ¬ expired now timeout (a, (t, q))) → cs' !! q = cs !! q) ∧
    ch_buf <$> cs' !! q = ch_buf <$> cs !! q.

Inductive cm_op := OSend (a : addr) (now : Z) | OExpire (now timeout : Z).

Inductive spec_step : gmap addr (Z * chan_id) * gmap chan_id chan → cm_op → option chan_id →
    gmap addr (Z * chan_id) * gmap chan_id chan → Prop :=
  | spec_found m cs a now t q : m !! a = Some (t, q) →
      spec_step (m, cs) (OSend a now) (Some q) (<[a := (now, q)]> m, cs)
  | spec_new m cs a now q : m !! a = None → cs !! q = None →
      spec_step (m, cs) (OSend a now) (Some q)
        (<[a := (now, q)]> m, <[q := Chan [] false]> cs)
  | spec_expire m cs cs' now timeout : closes m now timeout cs cs' →
      spec_step (m, cs) (OExpire now timeout) None
        (filter (λ e, ¬ expired now timeout e) m, cs').

Definition cm_step (h : clientMapInner) (op : cm_op) : go (option chan_id * clientMapInner) :=
  match op with
  | OSend a now => '(q, h) ← SendQueue h a now; Ok (Some q, h)
  | OExpire now timeout => h ← removeExpired h now timeout; Ok (None, h)
  end.

Fixpoint cm_run (h : clientMapInner) (ops : list cm_op) : go (list (option chan_id) * clientMapInner) :=
  match ops with
  | [] => Ok ([], h)
  | op :: ops =>
      '(o, h) ← cm_step h op;
      '(os, h) ← cm_run h ops;
      Ok (o :: os, h)
  end.

Inductive spec_run : gmap addr (Z * chan_id) * gmap chan_id chan → list cm_op → list (option chan_id) →
    gmap addr (Z * chan_id) * gmap chan_id chan → Prop :=
  | spec_run_nil s : spec_run s [] [] s
  | spec_run_cons s op o s1 ops os s2 :
      spec_step s op o s1 → spec_run s1 ops os s2 → spec_run s (op :: ops) (o :: os) s2.

(** ** The heap.Interface instance meets its specification *)

Lemma record_at_ok l i : (i < length l)%nat → ∃ r, record_at l i = Ok r ∧ l !! i = Some r.
Proof.
  intros Hi. destruct (lookup_lt_is_Some_2 l i Hi) as [r Hr].
  exists r. unfold record_at. by rewrite Hr.
Qed.

Lemma cm_Len_ok h : cm_wf h → cm_Len h = Ok (length (byAge h)).
Proof. intros Hwf. unfold cm_Len. by rewrite (wf_size _ Hwf), decide_True. Qed.

Lemma cm_Less_ok h i j : (i < length (byAge h))%nat → (j < length (byAge h))%nat →
  cm_Less h i j = Ok (lt_at cr_LastSeen (byAge h) i j).
Proof.
  intros Hi Hj. unfold cm_Less, lt_at.
  destruct (record_at_ok _ i Hi) as (a & -> & ->). destruct (record_at_ok _ j Hj) as (b & -> & ->).
  done.
Qed.

Lemma addr_inj h i j a b : cm_wf h → byAge h !! i = Some a → byAge h !! j = Some b →
  cr_Addr a = cr_Addr b → i = j.
Proof. intros Hwf Ha%(wf_pos _ Hwf) Hb%(wf_pos _ Hwf) E. rewrite E in Ha. congruence. Qed.

Lemma cm_Swap_ok h i j : cm_wf h → (i < length (byAge h))%nat → (j < length (byAge h))%nat →
  ∃ h', cm_Swap h i j = Ok h' ∧ cm_wf h' ∧ cm_rel h h' ∧ byAge h' = exchange i j (byAge h).
Proof.
  intros Hwf Hi Hj. unfold cm_Swap.
  destruct (record_at_ok _ i Hi) as (a & -> & Ha). destruct (record_at_ok _ j Hj) as (b & -> & Hb).
  assert (exchange i j (byAge h) !! i = Some b ∧ exchange i j (byAge h) !! j = Some a) as [Ei Ej].
  { rewrite !lookup_exchange by done. split; repeat case_decide; congruence. }
  unfold record_at. rewrite Ei, Ej. cbn [mbind res_bind]. eexists; split; [done|].
  assert (∀ k r, byAge h !! k = Some r → k ≠ i → cr_Addr a ≠ cr_Addr r) as Na
    by (intros k r Hr Hk E; apply Hk; by eapply addr_inj).
  assert (∀ k r, byAge h !! k = Some r → k ≠ j → cr_Addr b ≠ cr_Addr r) as Nb
    by (intros k r Hr Hk E; apply Hk; by eapply addr_inj).
  assert (cr_Addr a = cr_Addr b → i = j) as Hab by (intros; by eapply addr_inj).
  pose proof (exchange_Permutation i j (byAge h)) as Hperm.
  split; [split; cbn|split; [by split|done]].
  - intros k r. rewrite lookup_exchange by done. case_decide; [|case_decide]; intros Hr; subst;
      [assert (r = b) as -> by congruence|assert (r = a) as -> by congruence|].
    + destruct (decide (cr_Addr a = cr_Addr b)) as [E|].
      * rewrite E, lookup_insert_eq. by rewrite Hab.
      * by rewrite lookup_insert_ne, lookup_insert_eq.
    + by rewrite lookup_insert_eq.
    + rewrite !lookup_insert_ne by eauto. by apply (wf_pos _ Hwf).
  - intros x k. rewrite lookup_insert_Some. intros [[<- <-]|[Hxa Hk]]; [eauto|].
    rewrite lookup_insert_Some in Hk. destruct Hk as [[<- <-]|[Hxb Hk]]; [eauto|].
    apply (wf_addr _ Hwf) in Hk as (r & Hr & <-). exists r.
    rewrite lookup_exchange, !decide_False by (try done; intros ->; congruence). done.
  - rewrite !map_size_insert_Some, length_exchange; [apply (wf_size _ Hwf)|..].
    + by rewrite (wf_pos _ Hwf _ _ Hb).
    + destruct (decide (cr_Addr b = cr_Addr a)) as [->|]; [by rewrite lookup_insert_eq|].
      by rewrite lookup_insert_ne, (wf_pos _ Hwf _ _ Ha).
  - rewrite Hperm. apply (wf_queues _ Hwf).
  - intros r. rewrite Hperm. apply (wf_open _ Hwf).
Qed.

#[export] Instance cm_rel_preorder : PreOrder cm_rel.
Proof.
  split; [done|]. intros h1 h2 h3 [P1 E1] [P2 E2]. split; [by rewrite P2|by rewrite E2].
Qed.

#[export, refine] Instance clientMapInner_spec : HeapSpec clientMapInner clientRecord clientRecord := {
  h_key := cr_LastSeen;
  h_inv := cm_wf;
  h_elems := byAge;
  h_rel := cm_rel
}.
Proof.
  - apply cm_Len_ok.
  - intros h i j _. apply cm_Less_ok.
  - apply cm_Swap_ok.
Defined.

(** ** The operations *)

Definition cm_ok (h : clientMapInner) : Prop := cm_wf h ∧ is_heap h.

Lemma NoDup_addrs h : cm_wf h → NoDup ((entry <$> byAge h).*1).
Proof.
  intros Hwf. rewrite <- list_fmap_compose. apply NoDup_alt. intros i j a.
  rewrite !list_lookup_fmap, !fmap_Some. intros (r & Hr & ->) (r' & Hr' & E).
  by eapply addr_inj.
Qed.

Lemma live_lookup h a t q : cm_wf h → live h !! a = Some (t, q) ↔ Rec a t q ∈ byAge h.
Proof.
  intros Hwf. unfold live. rewrite <- elem_of_list_to_map by (by apply NoDup_addrs).
  rewrite list_elem_of_fmap. split.
  - intros ([a' t' q'] & [= -> -> ->] & Hr). done.
  - intros Hr. by exists (Rec a t q).
Qed.

Lemma live_ext h m : cm_wf h → (∀ a t q, m !! a = Some (t, q) ↔ Rec a t q ∈ byAge h) → live h = m.
Proof.
  intros Hwf Hm. apply map_eq. intros a. apply option_eq. intros [t q].
  by rewrite live_lookup, Hm.
Qed.

Lemma live_perm h h' : cm_wf h → byAge h' ≡ₚ byAge h → live h' = live h.
Proof.
  intros Hwf Hp. unfold live. symmetry. apply list_to_map_proper; [by apply NoDup_addrs|by rewrite Hp].
Qed.

Lemma live_None h a : cm_wf h → live h !! a = None ↔ byAddr h !! a = None.
Proof.
  intros Hwf. split; intros Hn.
  - destruct (byAddr h !! a) as [i|] eqn:E; [|done].
    apply (wf_addr _ Hwf) in E as ([a' t q] & Hr & Ha). cbn in Ha. subst a'.
    apply list_elem_of_lookup_2 in Hr. apply (live_lookup h a t q Hwf) in Hr. congruence.
  - destruct (live h !! a) as [[t q]|] eqn:E; [|done].
    apply (live_lookup h a t q Hwf) in E as [i Hi]%list_elem_of_lookup_1.
    apply (wf_pos _ Hwf) in Hi. cbn in Hi. congruence.
Qed.

Lemma NewClientMap_ok : cm_ok NewClientMap.
Proof.
  split; [split; cbn|].
  - done.
  - intros a i. by rewrite lookup_empty.
  - by rewrite map_size_empty.
  - constructor.
  - intros r Hr. inversion Hr.
  - intros c. cbn. lia.
Qed.

(** A record last seen now takes the place of an older one. *)
Lemma touch_ok h i r now : cm_ok h → byAge h !! i = Some r →
  ∃ h1, touch h i now = Ok (Rec (cr_Addr r) now (cr_SendQueue r), h1) ∧ cm_wf h1 ∧
    chans h1 = chans h ∧ byAge h1 = <[i:=Rec (cr_Addr r) now (cr_SendQueue r)]> (byAge h).
Proof.
  intros [Hwf Hh] Hr. unfold touch, record_at. rewrite Hr. cbn [mbind res_bind].
  eexists; split; [done|]. set (r' := Rec _ _ _).
  pose proof (lookup_lt_Some _ _ _ Hr) as Hi.
  split; [|done]. split; cbn.
  - intros k s. rewrite list_lookup_insert_Some. intros [(<- & <- & _)|[_ Hs]];
      [exact (wf_pos _ Hwf i r Hr)|by apply (wf_pos _ Hwf)].
  - intros a k Hk. destruct (wf_addr _ Hwf a k Hk) as (s & Hs & Ha).
    destruct (decide (i = k)) as [<-|Hne].
    + exists r'. rewrite list_lookup_insert_eq by done. simplify_eq. done.
    + exists s. by rewrite list_lookup_insert_ne.
  - rewrite length_insert. apply (wf_size _ Hwf).
  - rewrite list_fmap_insert. cbn. rewrite list_insert_id; [apply (wf_queues _ Hwf)|].
    by rewrite list_lookup_fmap, Hr.
  - intros s Hs. apply list_elem_of_lookup_1 in Hs as [k Hk].
    apply list_lookup_insert_Some in Hk as [(<- & <- & _)|[_ Hk]].
    + cbn. apply (wf_open _ Hwf). by eapply list_elem_of_lookup_2.
    + apply (wf_open _ Hwf). by eapply list_elem_of_lookup_2.
Qed.

Lemma SendQueue_found h a now t q : cm_ok h → live h !! a = Some (t, q) →
  ∃ h', SendQueue h a now = Ok (q, h') ∧ cm_ok h' ∧ chans h' = chans h ∧
    live h' = <[a := (now, q)]> (live h).
Proof.
  intros Hok Hl. pose proof Hok as [Hwf Hh]. pose proof Hl as Hin.
  apply (live_lookup h a t q Hwf) in Hin. apply list_elem_of_lookup_1 in Hin as [i Hi].
  unfold SendQueue. pose proof (wf_pos _ Hwf _ _ Hi) as Ha. cbn [cr_Addr] in Ha. rewrite Ha.
  destruct (touch_ok h i _ now Hok Hi) as (h1 & -> & Hwf1 & Hc1 & Hb1). cbn [mbind res_bind cr_Addr cr_SendQueue] in *.
  pose proof (lookup_lt_Some _ _ _ Hi) as Hlt.
  destruct (heap_Fix_ok (Spec := clientMapInner_spec) h1 i (byAge h))
    as (h' & -> & Hwf' & [Hp Hc] & _ & Hh'); cbn [h_elems clientMapInner_spec].
  - done.
  - by rewrite Hb1, length_insert.
  - by rewrite Hb1, length_insert.
  - done.
  - intros k Hk. by rewrite Hb1, list_lookup_insert_ne.
  - cbn. exists h'. split_and!; [done|done|congruence|]. rewrite (live_perm h1 h') by done.
    apply live_ext; [done|]. intros b t' q'. rewrite Hb1, lookup_insert_Some. split.
    + intros [[<- [= <- <-]]|[Hne Hb]].
      * eapply list_elem_of_lookup_2. by apply list_lookup_insert_eq.
      * apply (live_lookup h b t' q' Hwf) in Hb as [k Hk]%list_elem_of_lookup_1.
        apply (list_elem_of_lookup_2 _ k). rewrite list_lookup_insert_ne; [done|].
        intros ->. rewrite Hi in Hk. by injection Hk.
    + intros [k Hk]%list_elem_of_lookup_1.
      apply list_lookup_insert_Some in Hk as [(<- & [= <- <- <-] & _)|[Hne Hk]]; [auto|].
      right. split; [intros ->; apply Hne; by apply (addr_inj h i k _ _ Hwf Hi Hk)|].
      apply live_lookup; [done|]. by eapply list_elem_of_lookup_2.
Qed.

Lemma SendQueue_new h a now : cm_ok h → live h !! a = None →
  ∃ q h', SendQueue h a now = Ok (q, h') ∧ cm_ok h' ∧ chans h !! q = None ∧
    chans h' = <[q := Chan [] false]> (chans h) ∧ live h' = <[a := (now, q)]> (live h).
Proof.
  intros [Hwf Hh] Hl. unfold SendQueue. pose proof Hl as Hn. apply (live_None _ _ Hwf) in Hn. rewrite Hn.
  unfold make_chan. set (q := fresh (dom (chans h))).
  assert (chans h !! q = None) as Hq by (apply not_elem_of_dom, is_fresh).
  assert (∀ r, r ∈ byAge h → cr_SendQueue r ≠ q) as Hne.
  { intros r Hr E. destruct (wf_open _ Hwf r Hr) as [b Hb]. congruence. }
  set (h0 := Inner (byAge h) (byAddr h) (<[q := Chan [] false]> (chans h))).
  set (h1 := Inner (byAge h ++ [Rec a now q]) (<[a := length (byAge h)]> (byAddr h)) (chans h0)).
  assert (cm_wf h1) as Hwf1.
  { split; cbn.
    - intros i r [Hi|[Hle Hi]]%lookup_app_Some.
      + rewrite lookup_insert_ne; [by apply (wf_pos _ Hwf)|]. intros ->.
        apply (wf_pos _ Hwf) in Hi. congruence.
      + apply list_lookup_singleton_Some in Hi as [Hi <-]. cbn. rewrite lookup_insert_eq. f_equal. lia.
    - intros b i. rewrite lookup_insert_Some. intros [[<- <-]|[_ Hb]].
      + exists (Rec a now q). split; [|done]. rewrite lookup_app_r, Nat.sub_diag by done. done.
      + apply (wf_addr _ Hwf) in Hb as (r & Hr & Ha). exists r. split; [|done]. by apply lookup_app_l_Some.
    - rewrite map_size_insert_None, (wf_size _ Hwf), length_app by done. cbn. lia.
    - rewrite fmap_app. apply NoDup_app. split_and!; [apply (wf_queues _ Hwf)| |apply NoDup_singleton].
      intros x (r & -> & Hr)%list_elem_of_fmap Hx%list_elem_of_singleton. by apply (Hne r).
    - intros r [Hr| ->%list_elem_of_singleton]%elem_of_app.
      + rewrite lookup_insert_ne by (intros E; by apply (Hne r)). by apply (wf_open _ Hwf).
      + cbn. rewrite lookup_insert_eq. by exists []. }
  destruct (heap_Push_ok (Spec := clientMapInner_spec) h0 (Rec a now q) h1 (Rec a now q))
    as (h' & -> & Hwf' & [Hp Hc] & _ & Hh'); [by cbn; unfold cm_Push; cbn; rewrite Hn|done..|].
  cbn [mbind res_bind]. exists q, h'. split_and!; [done|by split|done|by rewrite Hc|].
  rewrite (live_perm h1 h') by done. apply live_ext; [done|].
  intros b t' q'. unfold h1. cbn [byAge].
  rewrite lookup_insert_Some, elem_of_app, list_elem_of_singleton, <- live_lookup by done.
  split; [intros [[<- [= <- <-]]|[_ ?]]; auto|].
  intros [Hb|[= -> -> ->]]; [|auto]. right. split; [|done]. intros ->. congruence.
Qed.

(** [Pop] drops the last record and closes its queue. *)
Lemma pop_wf h l r b : cm_wf h → byAge h = l ++ [r] →
  cm_wf (Inner l (delete (cr_Addr r) (byAddr h)) (<[cr_SendQueue r := Chan b true]> (chans h))) ∧
  (∀ s, s ∈ l → cr_Addr r ≠ cr_Addr s).
Proof.
  intros Hwf Hl.
  assert (byAge h !! length l = Some r) as Hlast by (rewrite Hl, lookup_app_r, Nat.sub_diag by done; done).
  assert (∀ i s, l !! i = Some s → byAge h !! i = Some s ∧ cr_Addr r ≠ cr_Addr s) as Hlk.
  { intros i s Hi. pose proof (lookup_lt_Some _ _ _ Hi) as Hlt.
    assert (byAge h !! i = Some s) as Hi' by (by rewrite Hl, lookup_app_l).
    split; [done|]. intros E. pose proof (addr_inj h _ _ _ _ Hwf Hlast Hi' E). lia. }
  pose proof (wf_queues _ Hwf) as Hq. rewrite Hl, fmap_app in Hq.
  apply NoDup_app in Hq as (Hnd & Hd & _).
  split; [split; cbn; [..|done|]|].
  - intros i s Hi. destruct (Hlk i s Hi) as [Hi' Hne]. rewrite lookup_delete_ne by done.
    by apply (wf_pos _ Hwf).
  - intros a i. rewrite lookup_delete_Some. intros [Hne (s & Hs & Ha)%(wf_addr _ Hwf)].
    exists s. split; [|done]. rewrite Hl in Hs. apply lookup_app_Some in Hs as [Hs|[_ Hs]]; [done|].
    apply list_lookup_singleton_Some in Hs as [_ <-]. congruence.
  - rewrite map_size_delete_Some, (wf_size _ Hwf), Hl, length_app
      by (by rewrite (wf_pos _ Hwf _ _ Hlast)). cbn. lia.
  - intros s Hs. rewrite lookup_insert_ne.
    + apply (wf_open _ Hwf). rewrite Hl. apply elem_of_app. by left.
    + intros E. apply (Hd (cr_SendQueue s)); [by apply list_elem_of_fmap_2|rewrite <- E; by left].
  - intros s [i Hi]%list_elem_of_lookup_1. by apply (Hlk i s).
Qed.

Lemma cm_Pop_ok h l r : cm_wf h → byAge h = l ++ [r] →
  ∃ h', cm_Pop h = Ok (r, h') ∧ cm_wf h' ∧ byAge h' = l ∧ live h' = delete (cr_Addr r) (live h) ∧
    ∃ b, chans h !! cr_SendQueue r = Some (Chan b false) ∧
      chans h' = <[cr_SendQueue r := Chan b true]> (chans h).
Proof.
  intros Hwf Hl. assert (r ∈ byAge h) as Hr by (rewrite Hl; apply elem_of_app; right; by left).
  destruct (wf_open _ Hwf r Hr) as [b Hb]. destruct (pop_wf h l r b Hwf Hl) as [Hwf' Hne].
  eexists; split; [|split_and!; [done|done| |by exists b]].
  - unfold cm_Pop, record_at, close_chan. rewrite (wf_size _ Hwf), Hl, length_app, decide_False by (cbn; lia).
    replace (length l + length [r] - 1)%nat with (length l) by (cbn; lia).
    rewrite lookup_app_r, Nat.sub_diag by done. cbn [mbind res_bind list_lookup lookup].
    rewrite Hb. cbn [mbind res_bind]. by rewrite take_app_length.
  - apply live_ext; [done|]. intros a t q. cbn [byAge].
    rewrite lookup_delete_Some, live_lookup, Hl, elem_of_app, list_elem_of_singleton by done. split.
    + intros [Ha [?|<-]]; [done|]. by cbn in Ha.
    + intros Hin. split; [by apply (Hne (Rec a t q))|by left].
Qed.

(** ** Expiry *)

Lemma Sub_mono now t t' : t ≤ t' → Sub now t' ≤ Sub now t.
Proof. unfold Sub. lia. Qed.

(** [heap.Pop] removes a record that is as old as any. *)
Lemma heap_Pop_oldest h : cm_ok h → byAge h ≠ [] →
  ∃ r h', heap_Pop h = Ok (r, h') ∧ cm_ok h' ∧ r ∈ byAge h ∧
    (∀ s, s ∈ byAge h → cr_LastSeen r ≤ cr_LastSeen s) ∧
    length (byAge h) = S (length (byAge h')) ∧
    live h' = delete (cr_Addr r) (live h) ∧
    ∃ b, chans h !! cr_SendQueue r = Some (Chan b false) ∧
      chans h' = <[cr_SendQueue r := Chan b true]> (chans h).
Proof.
  intros [Hwf Hh] Hne.
  destruct (heap_Pop_ok (Spec := clientMapInner_spec) h Hwf Hh Hne)
    as (h1 & l & r & -> & Hwf1 & [Hp Hc] & He & Hperm & Hord & Hmin).
  cbn [h_elems h_inv h_key clientMapInner_spec h_Pop clientMapInner_interface] in *.
  destruct (cm_Pop_ok h1 l r Hwf1 He) as (h' & -> & Hwf' & Hl & Hlive & b & Hb & Hcs).
  exists r, h'. split; [done|]. split; [split; [done|unfold is_heap; cbn [h_elems clientMapInner_spec]; by rewrite Hl]|].
  split; [rewrite <- Hperm; apply elem_of_app; right; by left|]. split; [done|].
  split; [rewrite <- (Permutation_length Hperm), length_app, Hl; cbn; lia|].
  split; [by rewrite Hlive, (live_perm h h1)|]. exists b. by rewrite <- Hc.
Qed.

(** A step of the loop, seen from the specification. *)
Lemma closes_delete m now timeout cs cs' a t q b : (∀ a' t', m !! a' = Some (t', q) → a' = a) →
  m !! a = Some (t, q) → expired now timeout (a, (t, q)) →
  cs !! q = Some (Chan b false) →
  closes (delete a m) now timeout (<[q := Chan b true]> cs) cs' → closes m now timeout cs cs'.
Proof.
  intros Hq Ha He Hb Hc q'. destruct (Hc q') as (Hyes & Hno & Hbuf). destruct (decide (q = q')) as [<-|Hne].
  - assert (cs' !! q = Some (Chan b true)) as Hcl.
    { rewrite Hno, lookup_insert_eq; [done|]. intros a' t'. rewrite lookup_delete_Some.
      intros [Hne Ha']. by destruct Hne; apply Hq in Ha'. }
    split_and!; [by rewrite Hcl, Hb| |by rewrite Hcl, Hb]. intros Hn. by destruct (Hn a t Ha).
  - rewrite lookup_insert_ne in Hyes, Hno, Hbuf by done. split_and!; [..|done].
    + intros (a' & t' & Ha' & He'). apply Hyes. exists a', t'. rewrite lookup_delete_ne; [done|].
      intros <-. congruence.
    + intros Hn. apply Hno. intros a' t'. rewrite lookup_delete_Some. intros [_ Ha']. by apply Hn.
Qed.

Lemma live_queue_inj h a a' t t' q : cm_wf h →
  live h !! a = Some (t, q) → live h !! a' = Some (t', q) → a' = a.
Proof.
  intros Hwf. rewrite !live_lookup by done. intros [i Hi]%list_elem_of_lookup_1 [k Hk]%list_elem_of_lookup_1.
  assert (i = k) as <-; [|congruence].
  eapply (NoDup_lookup _ _ _ q (wf_queues _ Hwf)); rewrite list_lookup_fmap; [by rewrite Hi|by rewrite Hk].
Qed.

Lemma closes_none m now timeout cs : (∀ a v, m !! a = Some v → ¬ expired now timeout (a, v)) →
  closes m now timeout cs cs.
Proof. intros Hn q. split; [|done]. intros (a & t & Ha & He). by destruct (Hn _ _ Ha). Qed.

Lemma removeExpired_loop_ok fuel now timeout : ∀ h, cm_ok h → fuel = length (byAge h) →
  ∃ h', removeExpired_loop fuel h now timeout = Ok h' ∧ cm_ok h' ∧
    live h' = filter (λ e, ¬ expired now timeout e) (live h) ∧
    closes (live h) now timeout (chans h) (chans h').
Proof.
  induction fuel as [|fuel IH]; intros h Hok Hf; cbn [removeExpired_loop].
  - exists h. pose proof Hok as [Hwf _]. assert (live h = ∅) as ->.
    { unfold live. by destruct (byAge h). }
    split_and!; [done..|by rewrite map_filter_empty|]. apply closes_none. intros a v. by rewrite lookup_empty.
  - pose proof Hok as [Hwf Hh]. destruct (byAge h) as [|r0 l0] eqn:El; [discriminate|].
    assert (∀ s, s ∈ byAge h → cr_LastSeen r0 ≤ cr_LastSeen s) as Htop.
    { intros s [i Hi]%list_elem_of_lookup_1.
      eapply (heap_ordered_min cr_LastSeen _ (byAge h) r0 Hh); [by rewrite El| |done].
      by apply lookup_lt_Some in Hi. }
    destruct (Z.leb_spec timeout (Sub now (cr_LastSeen r0))) as [Hle|Hgt].
    + destruct (heap_Pop_oldest h Hok) as (r & h1 & -> & Hok1 & Hr & Hmin & Hlen & Hlive & b & Hb & Hcs);
        [by rewrite El|]. cbn [mbind res_bind].
      assert (live h !! cr_Addr r = Some (cr_LastSeen r, cr_SendQueue r)) as Hl
        by (apply live_lookup; [done|by destruct r]).
      assert (expired now timeout (entry r)) as He.
      { assert (cr_LastSeen r ≤ cr_LastSeen r0) as Hx by (apply Hmin; rewrite El; by left).
        pose proof (Sub_mono now _ _ Hx). unfold expired. cbn. lia. }
      destruct (IH h1 Hok1) as (h' & -> & Hok' & Hlive' & Hcl'); [rewrite El in Hlen; cbn in *; lia|].
      exists h'. split_and!; [done..| |].
      * rewrite Hlive', Hlive. apply map_filter_delete_not. intros v Hv.
        rewrite Hl in Hv. injection Hv as <-. by intros [].
      * eapply closes_delete; [|done|done|done|by rewrite <- Hlive, <- Hcs].
        intros a' t' Ha'. by eapply live_queue_inj.
    + assert (∀ a v, live h !! a = Some v → ¬ expired now timeout (a, v)) as Hnone.
      { intros a [t q] Ha. apply live_lookup in Ha; [|done]. apply Htop in Ha. cbn in Ha.
        pose proof (Sub_mono now _ _ Ha). unfold expired. cbn. lia. }
      exists h. split_and!; [done..| |by apply closes_none].
      symmetry. by apply map_filter_id.
Qed.

(** ** Refinement *)

Lemma cm_step_refines h op : cm_ok h → ∃ o h', cm_step h op = Ok (o, h') ∧ cm_ok h' ∧
  spec_step (live h, chans h) op o (live h', chans h').
Proof.
  intros Hok. destruct op as [a now|now timeout]; cbn [cm_step].
  - destruct (live h !! a) as [[t q]|] eqn:E.
    + destruct (SendQueue_found h a now t q Hok E) as (h' & -> & Hok' & Hc & Hl).
      exists (Some q), h'. split_and!; [done..|]. rewrite Hc, Hl. by eapply spec_found.
    + destruct (SendQueue_new h a now Hok E) as (q & h' & -> & Hok' & Hq & Hc & Hl).
      exists (Some q), h'. split_and!; [done..|]. rewrite Hc, Hl. by apply spec_new.
  - destruct (removeExpired_loop_ok (length (byAge h)) now timeout h) as (h' & Hr & Hok' & Hl & Hcl); [done..|].
    unfold removeExpired. rewrite Hr. exists None, h'. split_and!; [done..|].
    rewrite Hl. by apply spec_expire.
Qed.

Lemma cm_run_refines ops : ∀ h, cm_ok h → ∃ os h', cm_run h ops = Ok (os, h') ∧ cm_ok h' ∧
  spec_run (live h, chans h) ops os (live h', chans h').
Proof.
  induction ops as [|op ops IH]; intros h Hok.
  - exists [], h. split_and!; [done..|constructor].
  - destruct (cm_step_refines h op Hok) as (o & h1 & Hs & Hok1 & Hsp).
    destruct (IH h1 Hok1) as (os & h2 & Hr & Hok2 & Hsps). exists (o :: os), h2.
    cbn [cm_run]. rewrite Hs. cbn [mbind res_bind]. rewrite Hr. cbn [mbind res_bind].
    split_and!; [done..|]. by econstructor.
Qed.

(** ** Properties *)

(** C21: the client map is a finite map with expiry.  Every sequence of
    [SendQueue] and [removeExpired] calls on a new ClientMap, at any times and
    with any timeouts, runs without reaching one of the panics of the code
    (inconsistent map, duplicate address, closing a closed queue), and behaves
    as a map from addresses to the time last seen and a queue: [SendQueue]
    returns the queue of the address, a new open one when the address is
    unknown, and records the time; [removeExpired] drops exactly the clients
    that have not been seen for the timeout and closes exactly their queues. *)
Theorem ClientMap_refines_map (ops : list cm_op) :
  ∃ os h, cm_run NewClientMap ops = Ok (os, h) ∧ cm_wf h ∧
    spec_run (∅, ∅) ops os (live h, chans h).
Proof.
  destruct (cm_run_refines ops NewClientMap NewClientMap_ok) as (os & h & Hr & [Hwf _] & Hsp).
  by exists os, h.
Qed.

End ClientMap.
