(* ===== verification/TurboTunnel.v ===== *)
(** * Packet connections over queues (src/common/turbotunnel)

    [QueuePacketConn] (queuepacketconn.go) is a net.PacketConn whose packets
    live in bounded queues: one for reading, and one per client address, kept
    in the [ClientMap].  [Redial] is the protocol of the three goroutines of
    [RedialPacketConn.exchange] (redialpacketconn.go), as a transition system. *)
From stdpp Require Import base tactics numbers list gmap.
From Stdlib Require Import ZArith Lia.
From S2P Require Import Prelude GoHeap ClientMap.
Import ClientMap.
Open Scope Z_scope.

Module QueuePacketConn.

Definition queueSize : nat := 512.

(** Errors: the one stored by closeWithError, or a receive that has to wait. *)
Inductive conn_error :=
  | errClosedPacketConn
  | OtherError (e : nat)
  | WouldBlock.

(** taggedPacket; [tp_cap] is the capacity of the buffer that holds it. *)
Record taggedPacket := Tagged { tp_P : list Z; tp_cap : nat; tp_Addr : addr }.

(** The connection; [bufPool] holds the capacities of the pooled buffers. *)
Record conn := Conn {
  clients : clientMapInner;
  recvQueue : list taggedPacket;
  closed : option conn_error;
  mtu : nat;
  bufPool : list nat
}.

Definition NewQueuePacketConn (mtu : nat) : conn := Conn NewClientMap [] None mtu [].

Definition set_pool (b : list nat) (c : conn) : conn :=
  Conn (clients c) (recvQueue c) (closed c) (mtu c) b.

(** [Restore]: buffers that are too small are not kept. *)
Definition Restore (cap : nat) (c : conn) : conn :=
  if (mtu c <=? cap)%nat then set_pool (cap :: bufPool c) c else c.

(** [bufPool.Get()]: any pooled buffer, or a new one ([choice] decides). *)
Definition Get (choice : option nat) (c : conn) : nat * conn :=
  match choice with
  | Some i =>
      match bufPool c !! i with
      | Some cap => (cap, set_pool (delete i (bufPool c)) c)
      | None => (mtu c, c)
      end
  | None => (mtu c, c)
  end.

(** The packet is copied into the buffer. *)
Definition fill (cap : nat) (p : list Z) : list Z :=
  if (length p <? cap)%nat then p else take cap p.

Definition QueueIncoming (choice : option nat) (p : list Z) (a : addr) (c : conn) : conn :=
  match closed c with
  | Some _ => c
  | None =>
      let '(cap, c) := Get choice c in
      let buf := fill cap p in
      if (length (recvQueue c) <? queueSize)%nat
      then Conn (clients c) (recvQueue c ++ [Tagged buf cap a]) (closed c) (mtu c) (bufPool c)
      else Restore cap c
  end.

(** [ReadFrom(p)] with [n = len(p)]. *)
Definition ReadFrom (n : nat) (c : conn) : res conn_error (list Z * addr * conn) :=
  match closed c with
  | Some e => Err e
  | None =>
      match recvQueue c with
      | [] => Err WouldBlock
      | t :: q =>
          Ok (take n (tp_P t), tp_Addr t,
              Restore (tp_cap t) (Conn (clients c) q (closed c) (mtu c) (bufPool c)))
      end
  end.

(** A send on a queue of the client map that does not wait: [None] when the
    queue is full, a panic when it is closed. *)
Definition try_send (m : clientMapInner) (q : chan_id) (p : list Z) : go (option clientMapInner) :=
  match chans m !! q with
  | Some (Chan b false) =>
      Ok (if (length b <? queueSize)%nat
          then Some (Inner (byAge m) (byAddr m) (<[q := Chan (b ++ [p]) false]> (chans m)))
          else None)
  | _ => Panic
  end.

Definition set_clients (m : clientMapInner) (c : conn) : conn :=
  Conn m (recvQueue c) (closed c) (mtu c) (bufPool c).

(** [WriteTo] up to the lookup of the queue, which the map's lock protects ... *)
Definition WriteTo_queue (choice : option nat) (p : list Z) (a : addr) (now : Z) (c : conn)
    : res conn_error (nat * list Z * chan_id * conn) :=
  match closed c with
  | Some e => Err e
  | None =>
      let '(cap, c) := Get choice c in
      '(q, m) ← map_err (λ _, WouldBlock) (SendQueue (clients c) a now);
      Ok (cap, fill cap p, q, set_clients m c)
  end.

(** ... and the send, which it does not. *)
Definition WriteTo_send (cap : nat) (buf p : list Z) (q : chan_id) (c : conn)
    : res conn_error (Z * conn) :=
  o ← map_err (λ _, WouldBlock) (try_send (clients c) q buf);
  match o with
  | Some m => Ok (len buf, set_clients m c)
  | None => Ok (len p, Restore cap c)
  end.

Definition WriteTo (choice : option nat) (p : list Z) (a : addr) (now : Z) (c : conn)
    : res conn_error (Z * conn) :=
  '(cap, buf, q, c) ← WriteTo_queue choice p a now c;
  WriteTo_send cap buf p q c.

(** [closeWithError]: the first error is kept. *)
Definition closeWithError (err : option conn_error) (c : conn) : res conn_error conn :=
  match closed c with
  | Some e => Err e
  | None => Ok (Conn (clients c) (recvQueue c) (Some (default errClosedPacketConn err)) (mtu c) (bufPool c))
  end.

Definition Close (c : conn) : res conn_error conn := closeWithError None c.

(** The goroutine of NewClientMap. *)
Definition expire (now timeout : Z) (c : conn) : res conn_error conn :=
  m ← map_err (λ _, WouldBlock) (removeExpired (clients c) now timeout);
  Ok (set_clients m c).

(** ** Invariant *)

Record conn_ok (c : conn) : Prop := {
  ok_clients : cm_ok (clients c);
  ok_recv : (length (recvQueue c) ≤ queueSize)%nat;
  ok_caps : Forall (λ n, (mtu c ≤ n)%nat) (bufPool c);
  ok_chans : map_Forall (λ _ ch, (length (ch_buf ch) ≤ queueSize)%nat) (chans (clients c))
}.

(** The packets queued for an address. *)
Definition outgoing (c : conn) (a : addr) : list (list Z) :=
  match live (clients c) !! a with
  | Some (_, q) => match chans (clients c) !! q with Some ch => ch_buf ch | None => [] end
  | None => []
  end.

(** ** Sequences of operations *)

Inductive qop :=
  | QIncoming (choice : option nat) (p : list Z) (a : addr)
  | QRead (n : nat)
  | QWrite (choice : option nat) (p : list Z) (a : addr) (now : Z)
  | QExpire (now timeout : Z)
  | QClose.

(** What a sequence did: the reads that returned a packet, with the size of
    their buffer, and the incoming packets that were not dropped. *)
Record log := Log { reads : list (nat * list Z * addr); accepted : list (list Z * addr) }.

(** An operation that returns an error leaves the connection as it is. *)
Definition or_same {A} (m : res conn_error A) (c : conn) (f : A → conn) : go conn :=
  match m with
  | Ok a => Ok (f a)
  | Err _ => Ok c
  | Panic => Panic
  end.

Definition qstep (op : qop) (c : conn) : go (log * conn) :=
  match op with
  | QIncoming choice p a =>
      let acc := match closed c with
                 | Some _ => []
                 | None => if (length (recvQueue c) <? queueSize)%nat then [(p, a)] else []
                 end in
      Ok (Log [] acc, QueueIncoming choice p a c)
  | QRead n =>
      match ReadFrom n c with
      | Ok (b, a, c') => Ok (Log [(n, b, a)] [], c')
      | Err _ => Ok (Log [] [], c)
      | Panic => Panic
      end
  | QWrite choice p a now => c' ← or_same (WriteTo choice p a now c) c snd; Ok (Log [] [], c')
  | QExpire now timeout => c' ← or_same (expire now timeout c) c id; Ok (Log [] [], c')
  | QClose => c' ← or_same (Close c) c id; Ok (Log [] [], c')
  end.

Fixpoint qrun (ops : list qop) (c : conn) : go (log * conn) :=
  match ops with
  | [] => Ok (Log [] [], c)
  | op :: ops =>
      '(l1, c) ← qstep op c;
      '(l2, c) ← qrun ops c;
      Ok (Log (reads l1 ++ reads l2) (accepted l1 ++ accepted l2), c)
  end.

(** Incoming packets are within the MTU. *)
Definition fits (mtu : nat) (op : qop) : Prop :=
  match op with
  | QIncoming _ p _ => (length p ≤ mtu)%nat
  | _ => True
  end.

(** A read returned this packet. *)
Definition returns (r : nat * list Z * addr) (t : list Z * addr) : Prop :=
  r.1.2 = take r.1.1 t.1 ∧ r.2 = t.2.

(** ** Lemmas *)

Lemma fill_fits cap p : (length p ≤ cap)%nat → fill cap p = p.
Proof. intros H. unfold fill. destruct (Nat.ltb_spec (length p) cap); [done|]. by apply take_ge. Qed.

Lemma Get_ok choice c cap c' : conn_ok c → Get choice c = (cap, c') →
  (mtu c ≤ cap)%nat ∧ conn_ok c' ∧ clients c' = clients c ∧ recvQueue c' = recvQueue c ∧
  closed c' = closed c ∧ mtu c' = mtu c.
Proof.
  intros [H1 H2 H3 H4] HG. unfold Get in HG. destruct choice as [i|]; [|by simplify_eq].
  destruct (bufPool c !! i) as [cap'|] eqn:Ei; [|by simplify_eq].
  injection HG as <- <-. split; [by eapply (Forall_lookup_1 _ _ _ _ H3 Ei)|].
  split; [|done]. split; [done..| |done]. by apply Forall_delete.
Qed.

Lemma Restore_ok cap c : conn_ok c →
  conn_ok (Restore cap c) ∧ clients (Restore cap c) = clients c ∧
  recvQueue (Restore cap c) = recvQueue c ∧ mtu (Restore cap c) = mtu c ∧
  closed (Restore cap c) = closed c.
Proof.
  intros [H1 H2 H3 H4]. unfold Restore. destruct (Nat.leb_spec (mtu c) cap); [|done].
  split; [|done]. split; [done..| |done]. by constructor.
Qed.

Lemma QueueIncoming_ok choice p a c : conn_ok c → (length p ≤ mtu c)%nat → closed c = None →
  conn_ok (QueueIncoming choice p a c) ∧ mtu (QueueIncoming choice p a c) = mtu c ∧
  ∃ cap, recvQueue (QueueIncoming choice p a c) =
    if (length (recvQueue c) <? queueSize)%nat then recvQueue c ++ [Tagged p cap a] else recvQueue c.
Proof.
  intros Hok Hp Hc. unfold QueueIncoming. rewrite Hc. destruct (Get choice c) as [cap c'] eqn:HG.
  destruct (Get_ok _ _ _ _ Hok HG) as (Hcap & Hok' & Ecl & Er & Ec & Em). rewrite Er.
  destruct (Nat.ltb_spec (length (recvQueue c)) queueSize) as [Hlt|Hge].
  - rewrite fill_fits by lia. split_and!; [|done|by exists cap].
    destruct Hok' as [H1 H2 H3 H4]. split; cbn; [done| |done|done]. rewrite length_app. cbn. lia.
  - destruct (Restore_ok cap c' Hok') as (? & _ & Er' & Em' & _). rewrite Er', Em'.
    split_and!; [done..|by exists cap].
Qed.

Lemma ReadFrom_ok n c : conn_ok c →
  match ReadFrom n c with
  | Ok (b, a, c') => conn_ok c' ∧ mtu c' = mtu c ∧
      ∃ t, recvQueue c = t :: recvQueue c' ∧ b = take n (tp_P t) ∧ a = tp_Addr t
  | Err _ => True
  | Panic => False
  end.
Proof.
  intros [H1 H2 H3 H4]. unfold ReadFrom. destruct (closed c); [done|].
  destruct (recvQueue c) as [|t q] eqn:Eq; [done|].
  destruct (Restore_ok (tp_cap t) (Conn (clients c) q None (mtu c) (bufPool c)))
    as (Hok & _ & Er & Em & _).
  - split; cbn; [done| |done|done]. cbn in H2. lia.
  - split_and!; [done|done|]. exists t. by rewrite Er.
Qed.

(** A packet put into the queue of a client leaves the map as it is. *)
Lemma cm_ok_send m q b b' : cm_ok m → chans m !! q = Some (Chan b false) →
  cm_ok (Inner (byAge m) (byAddr m) (<[q := Chan b' false]> (chans m))).
Proof.
  intros [[H1 H2 H3 H4 H5] Hh] Hq. split; [split; cbn; try done|done].
  intros r Hr. destruct (decide (q = cr_SendQueue r)) as [->|]; [rewrite lookup_insert_eq; eauto|].
  rewrite lookup_insert_ne by done. by apply H5.
Qed.

Lemma live_open m a t q : cm_ok m → live m !! a = Some (t, q) →
  ∃ b, chans m !! q = Some (Chan b false).
Proof. intros [Hwf _] Ha%(live_lookup _ _ _ _ Hwf). by apply (wf_open _ Hwf) in Ha. Qed.

(** [SendQueue] returns the open queue of the address, new ones empty. *)
Lemma SendQueue_ok m a now : cm_ok m →
  ∃ q m', SendQueue m a now = Ok (q, m') ∧ cm_ok m' ∧ live m' = <[a := (now, q)]> (live m) ∧
    ((∃ t, live m !! a = Some (t, q)) ∧ chans m' = chans m ∨
     live m !! a = None ∧ chans m !! q = None ∧ chans m' = <[q := Chan [] false]> (chans m)).
Proof.
  intros Hok. destruct (live m !! a) as [[t q]|] eqn:E.
  - destruct (SendQueue_found m a now t q Hok E) as (m' & ? & ? & ? & ?). exists q, m'.
    split_and!; [done..|]. left. eauto.
  - destruct (SendQueue_new m a now Hok E) as (q & m' & ? & ? & ? & ? & ?). exists q, m'.
    split_and!; [done..|]. by right.
Qed.

(** The queues after a lookup: the address has one, the others keep theirs. *)
Lemma outgoing_lookup m a now : cm_ok m → ∃ q m' b, SendQueue m a now = Ok (q, m') ∧ cm_ok m' ∧
  live m' = <[a := (now, q)]> (live m) ∧ chans m' !! q = Some (Chan b false) ∧
  (∀ c, clients c = m → outgoing c a = b) ∧
  (∀ q', q' ≠ q → chans m' !! q' = chans m !! q') ∧
  (∀ a' t', a' ≠ a → live m !! a' ≠ Some (t', q)).
Proof.
  intros Hok. destruct (SendQueue_ok m a now Hok) as (q & m' & Hs & Hok' & Hl & Hcase).
  destruct (live_open m' a now q Hok') as [b Hb]; [by rewrite Hl, lookup_insert_eq|].
  exists q, m', b. split_and!; [done..| | |].
  - intros c <-. unfold outgoing. destruct Hcase as [[[t Ht] E]|(E1 & E2 & E)].
    + by rewrite Ht, <- E, Hb.
    + rewrite E1. rewrite E, lookup_insert_eq in Hb. by injection Hb.
  - intros q' Hne. destruct Hcase as [[_ ->]|(_ & _ & ->)]; [done|]. by rewrite lookup_insert_ne.
  - intros a' t' Hne Ha'. destruct Hcase as [[[t Ht] E]|(E1 & E2 & E)].
    + apply Hne. eapply (live_queue_inj m); [apply Hok|done|done].
    + destruct (live_open m a' t' q Hok Ha') as [? ?]. congruence.
Qed.

Lemma outgoing_bound c a : conn_ok c → (length (outgoing c a) ≤ queueSize)%nat.
Proof.
  intros Hok. unfold outgoing. destruct (live (clients c) !! a) as [[t q]|]; [|cbn; lia].
  destruct (chans (clients c) !! q) as [ch|] eqn:E; [|cbn; lia]. by apply (ok_chans _ Hok) in E.
Qed.

(** The connection once the packets [b] wait in the queue of [a]. *)
Lemma outgoing_set c a now q m b : conn_ok c → cm_ok m →
  live m = <[a := (now, q)]> (live (clients c)) → chans m !! q = Some (Chan b false) →
  (length b ≤ queueSize)%nat →
  (∀ q', q' ≠ q → chans m !! q' = chans (clients c) !! q') →
  (∀ a' t', a' ≠ a → live (clients c) !! a' ≠ Some (t', q)) →
  conn_ok (set_clients m c) ∧ outgoing (set_clients m c) a = b ∧
  (∀ a', a' ≠ a → outgoing (set_clients m c) a' = outgoing c a').
Proof.
  intros [H1 H2 H3 H4] Hm Hl Hb Hlen Hq Hinj. split; [|split].
  - split; cbn; [done..|]. intros q' ch Hch. destruct (decide (q' = q)) as [->|Hne].
    + rewrite Hb in Hch. injection Hch as <-. done.
    + rewrite Hq in Hch by done. by apply H4 in Hch.
  - unfold outgoing. cbn. by rewrite Hl, lookup_insert_eq, Hb.
  - intros a' Hne. unfold outgoing. cbn. rewrite Hl, lookup_insert_ne by done.
    destruct (live (clients c) !! a') as [[t' q']|] eqn:E; [|done]. rewrite Hq; [done|].
    intros ->. by eapply Hinj.
Qed.

Lemma WriteTo_ok choice p a now c : conn_ok c → closed c = None →
  ∃ n c' cap, WriteTo choice p a now c = Ok (n, c') ∧ conn_ok c' ∧ closed c' = None ∧
    mtu c' = mtu c ∧ recvQueue c' = recvQueue c ∧ (mtu c ≤ cap)%nat ∧
    outgoing c' a = (if (length (outgoing c a) <? queueSize)%nat
                     then outgoing c a ++ [fill cap p] else outgoing c a) ∧
    n = (if (length (outgoing c a) <? queueSize)%nat then len (fill cap p) else len p) ∧
    (∀ a', a' ≠ a → outgoing c' a' = outgoing c a').
Proof.
  intros Hok Hc. unfold WriteTo, WriteTo_queue. rewrite Hc.
  destruct (Get choice c) as [cap c1] eqn:HG.
  destruct (Get_ok _ _ _ _ Hok HG) as (Hcap & Hok1 & Ecl & Er & Ec & Em).
  destruct (outgoing_lookup (clients c1) a now) as (q & m & b & Hs & Hokm & Hl & Hb & Hout & Hq & Hinj);
    [apply Hok1|].
  rewrite Hs. cbn [map_err mbind res_bind]. unfold WriteTo_send, try_send. cbn [clients set_clients].
  rewrite Hb. cbn [map_err mbind res_bind]. rewrite (Hout c) by done.
  assert (∀ a', outgoing c1 a' = outgoing c a') as Ho by (intros; unfold outgoing; by rewrite Ecl).
  pose proof (outgoing_bound c a Hok) as Hbd. rewrite (Hout c) in Hbd by done.
  destruct (Nat.ltb_spec (length b) queueSize) as [Hlt|Hge].
  - set (m' := Inner (byAge m) (byAddr m) (<[q := Chan (b ++ [fill cap p]) false]> (chans m))).
    destruct (outgoing_set c1 a now q m' (b ++ [fill cap p])) as (Hok' & Ha & Hothers); [done|..].
    + by eapply cm_ok_send.
    + done.
    + apply lookup_insert_eq.
    + rewrite length_app. cbn. lia.
    + intros q' Hne. cbn. rewrite lookup_insert_ne by done. by apply Hq.
    + done.
    + exists (len (fill cap p)), (set_clients m' c1), cap. split_and!; try done; [by cbn; rewrite Ec|].
      intros a' Hne. by rewrite Hothers, Ho.
  - destruct (outgoing_set c1 a now q m b) as (Hok' & Ha & Hothers); [done..|].
    destruct (Restore_ok cap (set_clients m c1) Hok') as (Hok'' & Ecl' & Er' & Em' & Ec').
    assert (∀ a', outgoing (Restore cap (set_clients m c1)) a' = outgoing (set_clients m c1) a') as Ho'
      by (intros; unfold outgoing; by rewrite Ecl').
    exists (len p), (Restore cap (set_clients m c1)), cap. rewrite Ec', Em', Er', Ho'.
    split_and!; try done; [by cbn; rewrite Ec|]. intros a' Hne. by rewrite Ho', Hothers, Ho.
Qed.

Lemma expire_ok now timeout c : conn_ok c →
  ∃ c', expire now timeout c = Ok c' ∧ conn_ok c' ∧ recvQueue c' = recvQueue c ∧ mtu c' = mtu c.
Proof.
  intros [H1 H2 H3 H4]. unfold expire, removeExpired.
  destruct (removeExpired_loop_ok (length (byAge (clients c))) now timeout (clients c))
    as (m & -> & Hok & Hl & Hcl); [done..|].
  eexists; split; [done|]. split; [|done]. split; cbn; [done..|].
  intros q ch Hq. destruct (Hcl q) as (_ & _ & Hbuf). rewrite Hq in Hbuf. cbn in Hbuf.
  destruct (chans (clients c) !! q) as [ch'|] eqn:E; [|done]. injection Hbuf as ->.
  by apply H4 in E.
Qed.

(** What is queued, as accepted packets. *)
Definition queued (c : conn) : list (list Z * addr) :=
  (λ t, (tp_P t, tp_Addr t)) <$> recvQueue c.

Lemma qstep_ok op c : conn_ok c → fits (mtu c) op →
  ∃ l c' got, qstep op c = Ok (l, c') ∧ conn_ok c' ∧ mtu c' = mtu c ∧
    queued c ++ accepted l = got ++ queued c' ∧ Forall2 returns (reads l) got.
Proof.
  intros Hok Hfit. unfold queued. destruct op as [choice p a|n|choice p a now|now timeout|]; cbn [qstep].
  - destruct (closed c) as [e|] eqn:Ec.
    + exists (Log [] []), c, []. unfold QueueIncoming. rewrite Ec. by rewrite app_nil_r.
    + destruct (QueueIncoming_ok choice p a c Hok Hfit Ec) as (Hok' & Em & cap & Er).
      eexists _, _, []. split; [done|]. rewrite Er. split_and!; [done..| |constructor].
      destruct (_ <? _)%nat; cbn; [by rewrite fmap_app|by rewrite app_nil_r].
  - pose proof (ReadFrom_ok n c Hok) as HR. destruct (ReadFrom n c) as [[[b a] c']|e|]; [|..|done].
    + destruct HR as (Hok' & Em & t & Er & -> & ->). eexists _, c', [(tp_P t, tp_Addr t)].
      split; [done|]. rewrite Er. split_and!; [done..| |by repeat constructor]. cbn. by rewrite app_nil_r.
    + exists (Log [] []), c, []. by rewrite app_nil_r.
  - destruct (closed c) as [e|] eqn:Ec.
    + exists (Log [] []), c, []. unfold WriteTo, WriteTo_queue. rewrite Ec. by rewrite app_nil_r.
    + destruct (WriteTo_ok choice p a now c Hok Ec) as (n & c' & cap & -> & Hok' & _ & Em & Er & _).
      eexists _, c', []. split; [done|]. rewrite Er. by rewrite app_nil_r.
  - destruct (expire_ok now timeout c Hok) as (c' & -> & Hok' & Er & Em).
    eexists _, c', []. split; [done|]. rewrite Er. by rewrite app_nil_r.
  - unfold Close, closeWithError. destruct (closed c) as [e|]; (eexists _, _, []; split; [done|]);
      rewrite app_nil_r; [done|]. split_and!; try done. by destruct Hok; split.
Qed.

Lemma qrun_ok ops : ∀ c, conn_ok c → Forall (fits (mtu c)) ops →
  ∃ l c' got, qrun ops c = Ok (l, c') ∧ conn_ok c' ∧
    queued c ++ accepted l = got ++ queued c' ∧ Forall2 returns (reads l) got.
Proof.
  induction ops as [|op ops IH]; intros c Hok Hfit.
  - exists (Log [] []), c, []. by rewrite app_nil_r.
  - apply Forall_cons in Hfit as [Hf Hfit].
    destruct (qstep_ok op c Hok Hf) as (l1 & c1 & got1 & Hs & Hok1 & Em & E1 & R1).
    rewrite <- Em in Hfit. destruct (IH c1 Hok1 Hfit) as (l2 & c2 & got2 & Hr & Hok2 & E2 & R2).
    eexists _, c2, (got1 ++ got2). cbn [qrun]. rewrite Hs. cbn [mbind res_bind]. rewrite Hr.
    cbn [mbind res_bind]. split; [done|]. split; [done|]. cbn. split; [|by apply Forall2_app].
    by rewrite (assoc_L (++)), E1, <- (assoc_L (++)), E2, (assoc_L (++)).
Qed.

(** ** Properties *)

(** C22: a QueuePacketConn is a bounded packet queue.  Any sequence of
    incoming packets within the MTU, reads, writes, expiries of clients and
    closes runs without a panic on a new connection; the packets that
    [ReadFrom] returned, each cut to the size of its buffer, followed by those
    still queued, are exactly the packets [QueueIncoming] accepted, in order
    and with their addresses; at most 512 packets wait, in the receive queue
    as in every send queue, and no pooled buffer is smaller than the MTU, so
    that reused buffers never cut a packet. *)
Theorem QueuePacketConn_fifo (mtu : nat) (ops : list qop) : Forall (fits mtu) ops →
  ∃ l c got, qrun ops (NewQueuePacketConn mtu) = Ok (l, c) ∧ conn_ok c ∧
    accepted l = got ++ queued c ∧ Forall2 returns (reads l) got.
Proof.
  intros Hfit. apply (qrun_ok ops (NewQueuePacketConn mtu)); [|done].
  split; cbn; [apply NewClientMap_ok|lia|constructor|]. intros q ch. by rewrite lookup_empty.
Qed.

Definition client_A : addr := [1;2;3;4;5;6;7;8].

Lemma QueuePacketConn_fifo_witness :
  ∃ l c got,
    qrun [QIncoming None [1;2;3] client_A; QIncoming None [4] client_A; QRead 2; QWrite (Some 0%nat) [9] client_A 5;
          QExpire 100 50; QRead 10; QClose] (NewQueuePacketConn 1400) = Ok (l, c) ∧ conn_ok c ∧
    accepted l = got ++ queued c ∧ Forall2 returns (reads l) got.
Proof. apply QueuePacketConn_fifo. repeat constructor; cbn; lia. Defined.

(** [WriteTo] queues the packet for its address.  On an open connection
    it returns; the packet, cut at a capacity of at least the MTU, is appended
    to the queue of the address unless 512 packets wait there, in which case
    it is dropped and reported as written; no other client's queue changes. *)
Theorem WriteTo_queues (choice : option nat) (p : list Z) (a : addr) (now : Z) (c : conn) :
  conn_ok c → closed c = None →
  ∃ n c' cap, WriteTo choice p a now c = Ok (n, c') ∧ conn_ok c' ∧ (mtu c ≤ cap)%nat ∧
    outgoing c' a = (if (length (outgoing c a) <? queueSize)%nat
                     then outgoing c a ++ [fill cap p] else outgoing c a) ∧
    n = (if (length (outgoing c a) <? queueSize)%nat then len (fill cap p) else len p) ∧
    (∀ a', a' ≠ a → outgoing c' a' = outgoing c a').
Proof.
  intros Hok Hc. destruct (WriteTo_ok choice p a now c Hok Hc)
    as (n & c' & cap & ? & ? & _ & _ & _ & ? & ? & ? & ?). by exists n, c', cap.
Qed.

Lemma WriteTo_queues_witness :
  ∃ n c' cap, WriteTo None [7;7] client_A 3 (NewQueuePacketConn 1400) = Ok (n, c') ∧ conn_ok c' ∧
    (1400 ≤ cap)%nat ∧
    outgoing c' client_A = (if (length (outgoing (NewQueuePacketConn 1400) client_A) <? queueSize)%nat
                     then outgoing (NewQueuePacketConn 1400) client_A ++ [fill cap [7;7]]
                     else outgoing (NewQueuePacketConn 1400) client_A) ∧
    n = (if (length (outgoing (NewQueuePacketConn 1400) client_A) <? queueSize)%nat
         then len (fill cap [7;7]) else len [7;7]) ∧
    (∀ a', a' ≠ client_A → outgoing c' a' = outgoing (NewQueuePacketConn 1400) a').
Proof.
  apply WriteTo_queues; [|reflexivity].
  split; cbn; [apply NewClientMap_ok|lia|constructor|]. intros q ch. by rewrite lookup_empty.
Defined.

(** The lock of the map does not cover the send: when the client expires in
    between, [WriteTo] sends on a closed channel. *)
Example WriteTo_after_expiry_panics :
  ('(cap, buf, q, c) ← WriteTo_queue None [1] client_A 0 (NewQueuePacketConn 1400);
   c ← expire 60 60 c;
   WriteTo_send cap buf [1] q c) = Panic.
Proof. vm_compute. reflexivity. Qed.

End QueuePacketConn.

Module Redial.

Inductive conn_error := ClosedError | DialError (e : nat) | WouldBlock.

(** The queues of a RedialPacketConn; [closed] is the error once it is. *)
Record conn := Conn {
  recvQueue : list (list Z);
  sendQueue : list (list Z);
  closed : option conn_error
}.

Definition NewRedialPacketConn : conn := Conn [] [] None.

Definition ReadFrom (n : nat) (c : conn) : res conn_error (list Z * conn) :=
  match closed c, recvQueue c with
  | Some e, _ => Err e
  | None, [] => Err WouldBlock
  | None, buf :: q => Ok (take n buf, Conn q (sendQueue c) (closed c))
  end.

(** A full queue drops the packet. *)
Definition enqueue (q : list (list Z)) (p : list Z) : list (list Z) :=
  if (length q <? QueuePacketConn.queueSize)%nat then q ++ [p] else q.

Definition WriteTo (p : list Z) (c : conn) : res conn_error (Z * conn) :=
  match closed c with
  | Some e => Err e
  | None => Ok (len p, Conn (recvQueue c) (enqueue (sendQueue c) p) (closed c))
  end.

Definition closeWithError (err : option conn_error) (c : conn) : res conn_error conn :=
  match closed c with
  | Some e => Err e
  | None => Ok (Conn (recvQueue c) (sendQueue c) (Some (default ClosedError err)))
  end.

(** ** exchange: the caller, the reading and the writing goroutine *)

Inductive reader_pc :=
  | RTop                   (* at the select of its loop *)
  | RRead                  (* in conn.ReadFrom *)
  | RSendErr               (* at readErrCh <- err *)
  | RDone.                 (* returned, readErrCh closed *)

Inductive writer_pc :=
  | WSelect
  | WWrite (p : list Z)    (* in conn.WriteTo *)
  | WSendErr               (* at writeErrCh <- err *)
  | WDone.                 (* returned, writeErrCh closed *)

Inductive main_pc :=
  | MSelect
  | MReturned              (* exchange has returned *)
  | MClosed.               (* and dialLoop has closed conn *)

Record state := State {
  st_conn : conn;
  st_main : main_pc;
  st_reader : reader_pc;
  st_writer : writer_pc
}.

Definition start (c : conn) : state := State c MSelect RTop WSelect.

#[export] Instance reader_pc_eq_dec : EqDecision reader_pc.
Proof. solve_decision. Defined.
#[export] Instance writer_pc_eq_dec : EqDecision writer_pc.
Proof. solve_decision. Defined.
#[export] Instance main_pc_eq_dec : EqDecision main_pc.
Proof. solve_decision. Defined.

(** [exchange] and the goroutines take turns. *)
Inductive step : state → state → Prop :=
  (* the reader's select: c.closed, writeErrCh closed, or the writer's send *)
  | reader_closed c m w e : closed c = Some e →
      step (State c m RTop w) (State c m RDone w)
  | reader_writer_done c m :
      step (State c m RTop WDone) (State c m RDone WDone)
  | reader_takes_werr c m :
      step (State c m RTop WSendErr) (State c m RDone WDone)
  | reader_default c m w : closed c = None → w ≠ WDone → w ≠ WSendErr →
      step (State c m RTop w) (State c m RRead w)
  (* conn.ReadFrom: a packet, only while conn is open, or an error *)
  | reader_packet c m w p : m ≠ MClosed →
      step (State c m RRead w) (State (Conn (enqueue (recvQueue c) p) (sendQueue c) (closed c)) m RTop w)
  | reader_fails c m w :
      step (State c m RRead w) (State c m RSendErr w)
  (* the writer's select *)
  | writer_closed c m r e : closed c = Some e →
      step (State c m r WSelect) (State c m r WDone)
  | writer_reader_done c m :
      step (State c m RDone WSelect) (State c m RDone WDone)
  | writer_takes_rerr c m :
      step (State c m RSendErr WSelect) (State c m RDone WDone)
  | writer_packet c m r p q : sendQueue c = p :: q →
      step (State c m r WSelect) (State (Conn (recvQueue c) q (closed c)) m r (WWrite p))
  | writer_wrote c m r p :
      step (State c m r (WWrite p)) (State c m r WSelect)
  | writer_fails c m r p :
      step (State c m r (WWrite p)) (State c m r WSendErr)
  (* the select of exchange, and conn.Close() in dialLoop *)
  | main_reader_done c w : step (State c MSelect RDone w) (State c MReturned RDone w)
  | main_writer_done c r : step (State c MSelect r WDone) (State c MReturned r WDone)
  | main_takes_rerr c w : step (State c MSelect RSendErr w) (State c MReturned RDone w)
  | main_takes_werr c r : step (State c MSelect r WSendErr) (State c MReturned r WDone)
  | main_close c r w : step (State c MReturned r w) (State c MClosed r w)
  (* the user of the connection *)
  | user_write c m r w p n c' : WriteTo p c = Ok (n, c') → step (State c m r w) (State c' m r w)
  | user_read c m r w n b c' : ReadFrom n c = Ok (b, c') → step (State c m r w) (State c' m r w)
  | user_close c m r w e c' : closeWithError e c = Ok c' → step (State c m r w) (State c' m r w).

(** One of the goroutines has met an error or has returned. *)
Definition failed (s : state) : Prop :=
  st_reader s = RSendErr ∨ st_reader s = RDone ∨ st_writer s = WSendErr ∨ st_writer s = WDone.

(** An error is never forgotten. *)
Lemma step_failed s s' : step s s' → failed s → failed s'.
Proof.
  unfold failed. destruct 1; cbn; intros Hf; auto; destruct Hf as [?|[?|[?|?]]]; try discriminate; auto.
Qed.

(** [exchange] notices every error.  Whatever the goroutines do, once the
    connection failed in [ReadFrom] or [WriteTo], or one of the two goroutines
    has returned, this remains visible in every later state, and there the
    select of [exchange] either has a case that can proceed or has been left:
    [dialLoop] is never stuck on a dead connection. *)
Theorem exchange_notices_errors (s s' : state) : rtc step s s' → failed s →
  failed s' ∧
  (st_main s' = MSelect → ∃ s'', step s' s'' ∧ st_main s'' = MReturned).
Proof.
  intros Hs Hf. assert (failed s') as Hf' by (induction Hs; eauto using step_failed).
  split; [done|]. intros Hm. destruct s' as [c m r w]. cbn in Hm. subst m.
  destruct Hf' as [E|[E|[E|E]]]; cbn in E; subst; eexists; (split; [constructor|done]).
Qed.

Lemma exchange_notices_errors_witness :
  ∃ s', rtc step (State NewRedialPacketConn MSelect RRead WSelect) s' ∧ failed s' ∧
  (st_main s' = MSelect → ∃ s'', step s' s'' ∧ st_main s'' = MReturned).
Proof.
  exists (State NewRedialPacketConn MSelect RSendErr WSelect). split.
  - eapply rtc_l; [apply reader_fails|apply rtc_refl].
  - apply (exchange_notices_errors (State NewRedialPacketConn MSelect RSendErr WSelect));
      [apply rtc_refl|by left].
Defined.

(** No one is left to receive from readErrCh. *)
Definition orphaned (s : state) : Prop :=
  st_main s ≠ MSelect ∧ st_reader s = RSendErr ∧ st_writer s = WDone.

Lemma step_orphaned s s' : step s s' → orphaned s → orphaned s'.
Proof. unfold orphaned. destruct 1; cbn; intros (? & ? & ?); split_and!; congruence. Qed.

(** closing a RedialPacketConn leaks its reading goroutine.  From the
    start of [exchange], with the reader waiting in [conn.ReadFrom], there is
    an execution in which the user closes the connection, the writer returns,
    [exchange] returns and [dialLoop] closes [conn]; the error this causes in
    [ReadFrom] is then sent on [readErrCh], from which no one receives in any
    continuation. *)
Theorem close_leaks_reader : ∃ s c, closeWithError None NewRedialPacketConn = Ok c ∧
  rtc step (start NewRedialPacketConn) s ∧ st_conn s = c ∧ st_main s = MClosed ∧
  ∀ s', rtc step s s' → st_reader s' = RSendErr.
Proof.
  set (c := NewRedialPacketConn). set (d := Conn [] [] (Some ClosedError)).
  exists (State d MClosed RSendErr WDone), d. split; [done|]. split_and!; [|done|done|].
  - apply (rtc_l _ _ (State c MSelect RRead WSelect)); [by apply reader_default|].
    apply (rtc_l _ _ (State d MSelect RRead WSelect)); [by apply user_close with None|].
    apply (rtc_l _ _ (State d MSelect RRead WDone)); [by apply writer_closed with ClosedError|].
    apply (rtc_l _ _ (State d MReturned RRead WDone)); [apply main_writer_done|].
    apply (rtc_l _ _ (State d MClosed RRead WDone)); [apply main_close|].
    apply rtc_once, reader_fails.
  - intros s' Hs. assert (orphaned s') as (_ & ? & _); [|done].
    eapply (rtc_ind_l (λ s, orphaned s → orphaned s')); [done| |exact Hs|].
    + intros x y Hxy _ IH Hx. apply IH. by eapply step_orphaned.
    + by split_and!.
Qed.

End Redial.
