(* ===== verification/Tunnel.v ===== *)
(** * The tunnel between client and server

    The two ends of the packet tunnel through a proxy.  The client
    (src/client/lib: the dial function of newSession, and turbotunnel.go) opens
    a connection with a token, its ClientID and padding, and then writes
    encapsulated packets.  The server (src/server/lib/http.go) reads these from
    the WebSocket connection and queues the packets on the QueuePacketConn that
    belongs to the ClientID.  [ClientIDMap] is the server's memory of client
    addresses (src/server/lib/turbotunnel.go), [Bufio] the buffered writer of
    the Go library that both ends use. *)
From stdpp Require Import base tactics numbers list gmap.
From Stdlib Require Import ZArith Lia.
From S2P Require Import Prelude Encapsulation ClientMap TurboTunnel.
Import Encapsulation.
Open Scope Z_scope.

(** ** bufio.Writer *)

Module Bufio.
Section bufio.
Context {W : Type} `{Writer W}.

(** The bytes in the buffer, the error that stops all later writes, and the
    writer underneath. *)
Record bufio := Bufio { bw_buf : bytes; bw_err : option io_error; bw_wr : W }.

Definition defaultBufSize : Z := 4096.

Definition NewWriter (w : W) : bufio := Bufio [] None w.

Definition Flush (b : bufio) : bufio * option io_error :=
  match bw_err b with
  | Some e => (b, Some e)
  | None =>
      if len (bw_buf b) =? 0 then (b, None) else
      let '(w, n, err) := w_write (bw_wr b) (bw_buf b) in
      let err := match err with
                 | None => if n <? len (bw_buf b) then Some ErrShortWrite else None
                 | Some e => Some e
                 end in
      match err with
      | Some e => (Bufio (drop (Z.to_nat n) (bw_buf b)) (Some e) w, Some e)
      | None => (Bufio [] None w, None)
      end
  end.

(** The loop of [Write]: the buffer, the bytes not yet taken and how many were
    taken.  A writer that keeps the contract of io.Writer needs two rounds. *)
Fixpoint write_loop (fuel : nat) (b : bufio) (p : bytes) (nn : Z) : option (bufio * bytes * Z) :=
  if (defaultBufSize - len (bw_buf b) <? len p) && bool_decide (bw_err b = None) then
    match fuel with
    | O => None
    | S fuel =>
        if len (bw_buf b) =? 0 then
          let '(w, n, err) := w_write (bw_wr b) p in
          write_loop fuel (Bufio (bw_buf b) err w) (drop (Z.to_nat n) p) (nn + n)
        else
          let n := defaultBufSize - len (bw_buf b) in
          let '(b, _) := Flush (Bufio (bw_buf b ++ take (Z.to_nat n) p) (bw_err b) (bw_wr b)) in
          write_loop fuel b (drop (Z.to_nat n) p) (nn + n)
    end
  else Some (b, p, nn).

(** A writer that takes no bytes and returns no error, against the contract of
    io.Writer, would keep Go in the loop for ever; here the rounds run out. *)
Definition Write (b : bufio) (p : bytes) : bufio * Z * option io_error :=
  match write_loop (2 + length p) b p 0 with
  | Some (b, p, nn) =>
      match bw_err b with
      | Some e => (b, nn, Some e)
      | None => (Bufio (bw_buf b ++ p) None (bw_wr b), nn + len p, None)
      end
  | None => (b, 0, Some ErrShortWrite)
  end.

#[export] Instance bufio_writer : Writer bufio := Write.

End bufio.
Arguments bufio : clear implicits.

(** *** Lemmas: a writer that never fails *)

Definition buffered (b : bufio bytes) (content : bytes) : Prop :=
  bw_err b = None ∧ len (bw_buf b) ≤ defaultBufSize ∧ bw_wr b ++ bw_buf b = content.

Lemma Flush_ok (b : bufio bytes) content : buffered b content → Flush b = (Bufio [] None content, None).
Proof.
  destruct b as [buf err w]. intros (He & Hl & Hc). cbn in *. subst err content. unfold Flush. cbn [bw_err bw_buf bw_wr].
  destruct (Z.eqb_spec (len buf) 0) as [E|E]; [by rewrite (len_zero_nil buf E), app_nil_r|].
  cbn. by rewrite Z.ltb_irrefl.
Qed.

(** What the loop leaves over fits the buffer. *)
Lemma write_loop_ok (b : bufio bytes) p content : buffered b content →
  ∃ b' p' nn, write_loop (2 + length p) b p 0 = Some (b', p', nn) ∧ buffered (Bufio (bw_buf b' ++ p') None (bw_wr b')) (content ++ p) ∧
    bw_err b' = None ∧ nn + len p' = len p.
Proof.
  destruct b as [buf err w]. intros (He & Hl & Hc). cbn in He, Hl, Hc. subst err content. unfold defaultBufSize in *.
  cbn [Nat.add write_loop bw_buf bw_err bw_wr]. pose proof (len_nonneg p). rewrite bool_decide_true, andb_true_r by done.
  unfold defaultBufSize. destruct (Z.ltb_spec (4096 - len buf) (len p)) as [Hbig|Hfit].
  2: { eexists _, p, 0. split_and!; [done| |done|lia]. split_and!; cbn; [done|rewrite len_app; unfold defaultBufSize; lia|by rewrite (assoc_L (++))]. }
  assert (∀ w q nn k, len q ≤ len p → ∃ b' p' nn', write_loop (S k) (Bufio [] None w : bufio bytes) q nn = Some (b', p', nn') ∧
    buffered (Bufio (bw_buf b' ++ p') None (bw_wr b')) (w ++ q) ∧ bw_err b' = None ∧ nn' + len p' = nn + len q) as Hdirect.
  { clear. intros w q nn k _. cbn [write_loop bw_buf bw_err bw_wr]. rewrite bool_decide_true, andb_true_r by done. rewrite len_nil.
    unfold defaultBufSize. destruct (Z.ltb_spec (4096 - 0) (len q)).
    - change (w_write w q) with (w ++ q, len q, None : option io_error). change (0 =? 0) with true. cbv iota beta zeta.
      assert (drop (Z.to_nat (len q)) q = []) as -> by (unfold len; by rewrite Nat2Z.id, drop_all).
      exists (Bufio [] None (w ++ q)), [], (nn + len q).
      split_and!; [by destruct k|split_and!; cbn; [done|done|by rewrite app_nil_r]|done|rewrite len_nil; lia].
    - exists (Bufio [] None w), q, nn. split_and!; [done|split_and!; cbn; [done|unfold defaultBufSize; lia|done]|done|done]. }
  destruct (Z.eqb_spec (len buf) 0) as [E|E].
  - rewrite (len_zero_nil buf E), app_nil_r. destruct (Hdirect w p 0 (S (length p)) ltac:(lia)) as (b' & p' & nn & Hw & ? & ? & ?).
    exists b', p', nn. split_and!; [|done..|lia]. cbn [write_loop bw_buf bw_err bw_wr] in Hw.
    rewrite bool_decide_true, andb_true_r, len_nil in Hw by done. unfold defaultBufSize in Hw. rewrite E in Hbig.
    by destruct (Z.ltb_spec (4096 - 0) (len p)); [|lia].
  - set (n := 4096 - len buf) in *. assert (n ≤ len p) as Hn by lia.
    assert (len (take (Z.to_nat n) p) = n) as Etake by (unfold len in *; rewrite length_take; lia).
    assert (len (drop (Z.to_nat n) p) = len p - n) as Edrop by (unfold len in *; rewrite length_drop; lia).
    rewrite (Flush_ok _ (w ++ buf ++ take (Z.to_nat n) p))
      by (split_and!; cbn; [done|rewrite len_app, Etake; unfold defaultBufSize; lia|done]).
    destruct (Hdirect (w ++ buf ++ take (Z.to_nat n) p) (drop (Z.to_nat n) p) (0 + n) (length p) ltac:(lia)) as (b' & p' & nn & Hw & Hb & ? & ?).
    exists b', p', nn. split_and!; [done| |done|lia].
    by rewrite <- !(assoc_L (++)), take_drop, (assoc_L (++)) in Hb.
Qed.

Lemma Write_ok (b : bufio bytes) p content : buffered b content →
  ∃ b', Write b p = (b', len p, None) ∧ buffered b' (content ++ p).
Proof.
  intros Hb. destruct (write_loop_ok b p content Hb) as (b' & p' & nn & Hw & Hb' & He & Hn). unfold Write. rewrite Hw, He.
  eexists. split; [by rewrite Hn|done].
Qed.

End Bufio.

(** ** The server's memory of client addresses *)

Module ClientIDMap.
Section clientIDMap.
Context {Addr : Type}.

Abbreviation ClientID := (list Z).

(** [entries] holds the zero ClientID and a nil address where nothing was set. *)
Record clientIDMap := MkClientIDMap {
  entries : list (ClientID * option Addr);
  oldest : nat;
  current : gmap ClientID nat
}.

Definition newClientIDMap (capacity : nat) : clientIDMap :=
  MkClientIDMap (replicate capacity (zeros 8, None)) 0 ∅.

Definition Set_ (m : clientIDMap) (clientID : ClientID) (addr : Addr) : res Empty_set clientIDMap :=
  if (length (entries m) =? 0)%nat then Ok m else
  match entries m !! oldest m with
  | None => Panic
  | Some (id, _) =>
      let current' := if bool_decide (current m !! id = Some (oldest m)) then delete id (current m) else current m in
      Ok (MkClientIDMap (<[oldest m := (clientID, Some addr)]> (entries m))
            ((oldest m + 1) mod length (entries m)) (<[clientID := oldest m]> current'))
  end.

(** The address and whether there is one. *)
Definition Get (m : clientIDMap) (clientID : ClientID) : res Empty_set (option Addr * bool) :=
  match current m !! clientID with
  | Some i =>
      match entries m !! i with
      | Some (_, addr) => Ok (addr, true)
      | None => Panic
      end
  | None => Ok (None, false)
  end.

(** A sequence of calls of [Set_], the first call first. *)
Fixpoint set_all (m : clientIDMap) (sets : list (ClientID * Addr)) : res Empty_set clientIDMap :=
  match sets with
  | [] => Ok m
  | (c, a) :: sets => m ← Set_ m c a; set_all m sets
  end.

(** *** Specification: the last [capacity] calls are remembered, newest first. *)

Definition find_id (c : ClientID) (h : list (ClientID * Addr)) : option (nat * (ClientID * Addr)) :=
  list_find (λ e, e.1 = c) h.

Definition remembered (capacity : nat) (sets : list (ClientID * Addr)) (c : ClientID) : option Addr :=
  (λ e, e.2.2) <$> find_id c (take capacity (reverse sets)).

(** [m] after the calls [h], newest first: the i-th newest is at position
    [N - 1 - i] of the ring. *)
Definition slot (cap n i : nat) : nat := ((n - 1 - i) mod cap)%nat.

Record map_ok (cap : nat) (h : list (ClientID * Addr)) (m : clientIDMap) : Prop := {
  mo_len : length (entries m) = cap;
  mo_oldest : oldest m = (length h mod cap)%nat;
  mo_entries : ∀ i e, (i < cap)%nat → h !! i = Some e →
    entries m !! slot cap (length h) i = Some (e.1, Some e.2);
  mo_current : ∀ c, current m !! c = (λ e, slot cap (length h) e.1) <$> find_id c (take cap h)
}.

(** *** Lemmas *)

Lemma window_inj (cap a b : nat) : (a mod cap = b mod cap)%nat → (a < b + cap)%nat → (b < a + cap)%nat → a = b.
Proof.
  intros E Ha Hb. destruct cap as [|cap]; [lia|].
  pose proof (Nat.div_mod_eq a (S cap)) as Da. pose proof (Nat.div_mod_eq b (S cap)) as Db.
  rewrite E in Da. assert (a / S cap = b / S cap)%nat as Ed; [|lia].
  destruct (Nat.lt_trichotomy (a / S cap) (b / S cap)) as [Hlt|[?|Hlt]]; [|done|]; nia.
Qed.

Lemma find_id_cons c c' a h : find_id c ((c', a) :: h) =
  if bool_decide (c' = c) then Some (0%nat, (c', a)) else (λ e, (S e.1, e.2)) <$> find_id c h.
Proof.
  unfold find_id. cbn. destruct (decide (c' = c)); [by rewrite bool_decide_true|rewrite bool_decide_false by done].
  by destruct (list_find _ h) as [[]|].
Qed.

Lemma find_id_lookup c h i e : find_id c h = Some (i, e) → h !! i = Some e ∧ e.1 = c.
Proof. intros (? & ? & _)%list_find_Some. done. Qed.

Lemma slot_S cap n i : slot cap (S n) (S i) = slot cap n i.
Proof. unfold slot. f_equal. lia. Qed.

(** The oldest remembered call is forgotten when the ring is full. *)
Lemma find_id_drop_last c h e : find_id c (h ++ [e]) =
  match find_id c h with
  | Some r => Some r
  | None => if bool_decide (e.1 = c) then Some (length h, e) else None
  end.
Proof.
  unfold find_id. destruct (list_find (λ e, e.1 = c) h) as [[i x]|] eqn:E; [by apply list_find_app_l|].
  rewrite list_find_app_r by done. cbn.
  by destruct (decide (e.1 = c)); [rewrite bool_decide_true by done|rewrite bool_decide_false].
Qed.

Lemma newClientIDMap_ok cap : map_ok cap [] (newClientIDMap cap).
Proof. split; cbn; [by rewrite length_replicate|by rewrite Nat.Div0.mod_0_l|done|]. intros c. by rewrite lookup_empty, take_nil. Qed.

(** What [current] says of a ClientID that is not the one being set. *)
Lemma evict cap h m id c : map_ok cap h m → (0 < cap)%nat → fst <$> entries m !! oldest m = Some id →
  (if bool_decide (current m !! id = Some (oldest m)) then delete id (current m) else current m) !! c =
  (λ e, slot cap (length h) e.1) <$> find_id c (take (cap - 1) h).
Proof.
  intros [Hl Ho He Hc] Hcap Hid. destruct (decide (length h < cap)%nat) as [Hlt|Hge].
  - rewrite bool_decide_false.
    + rewrite Hc, !take_ge by lia. done.
    + rewrite Hc, Ho. intros (e & Hf & Ee)%fmap_Some. destruct e as [i e].
      apply find_id_lookup in Hf as [Hi _]. apply lookup_lt_Some in Hi. rewrite length_take in Hi.
      unfold slot in Ee. cbn in Ee. apply window_inj in Ee; lia.
  - destruct (lookup_lt_is_Some_2 h (cap - 1)) as [[c0 a0] Hlast]; [lia|].
    assert (take cap h = take (cap - 1) h ++ [(c0, a0)]) as Et.
    { replace cap with (S (cap - 1)) at 1 by lia. by apply take_S_r. }
    assert (slot cap (length h) (cap - 1) = oldest m) as Eo.
    { rewrite Ho. unfold slot. rewrite <- (Nat.Div0.mod_add (length h - 1 - (cap - 1)) 1 cap). f_equal. lia. }
    assert (id = c0) as ->. { pose proof (He (cap - 1)%nat _ ltac:(lia) Hlast) as E. rewrite Eo in E. rewrite E in Hid. by injection Hid. }
    assert (length (take (cap - 1) h) = (cap - 1)%nat) as Elen by (rewrite length_take; lia).
    destruct (find_id c0 (take (cap - 1) h)) as [[i e]|] eqn:Ef.
    + rewrite bool_decide_false.
      * rewrite Hc, Et, find_id_drop_last. destruct (find_id c (take (cap - 1) h)) eqn:Ec; [done|]. cbn.
        rewrite bool_decide_false; [done|]. intros <-. congruence.
      * rewrite Hc, Et, find_id_drop_last, Ef. cbn. apply find_id_lookup in Ef as [Hi _]. apply lookup_lt_Some in Hi.
        rewrite Elen in Hi. unfold slot. intros [= E]. rewrite Ho in E. apply window_inj in E; lia.
    + rewrite bool_decide_true.
      * destruct (decide (c = c0)) as [->|Hne]; [by rewrite lookup_delete_eq, Ef|]. rewrite lookup_delete_ne by done.
        rewrite Hc, Et, find_id_drop_last. destruct (find_id c (take (cap - 1) h)); [done|]. cbn.
        by rewrite bool_decide_false.
      * rewrite Hc, Et, find_id_drop_last, Ef. cbn. rewrite bool_decide_true by done. cbn. by rewrite Elen, Eo.
Qed.

Lemma Set_ok cap h m c a : (0 < cap)%nat → map_ok cap h m → ∃ m', Set_ m c a = Ok m' ∧ map_ok cap ((c, a) :: h) m'.
Proof.
  intros Hcap Hm. pose proof Hm as [Hl Ho He Hc]. unfold Set_. rewrite Hl.
  destruct (Nat.eqb_spec cap 0); [lia|].
  assert (oldest m < cap)%nat as Hlt by (rewrite Ho; apply Nat.mod_upper_bound; lia).
  destruct (lookup_lt_is_Some_2 (entries m) (oldest m)) as [[id o] Hold]; [lia|]. rewrite Hold.
  eexists. split; [done|]. split; cbn [entries oldest current length].
  - by rewrite length_insert.
  - rewrite Ho, Nat.Div0.add_mod_idemp_l. f_equal. lia.
  - intros [|i] e Hi; cbn; intros Ei.
    + injection Ei as <-. unfold slot. replace (S (length h) - 1 - 0)%nat with (length h) by lia. rewrite <- Ho.
      by rewrite list_lookup_insert_eq by lia.
    + rewrite slot_S, list_lookup_insert_ne; [by apply He; [lia|]|].
      pose proof (lookup_lt_Some _ _ _ Ei). rewrite Ho. unfold slot. intros E. apply window_inj in E; lia.
  - intros c'. destruct (decide (c = c')) as [<-|Hne].
    + rewrite lookup_insert_eq. destruct cap as [|cap]; [lia|]. cbn [take]. rewrite find_id_cons, bool_decide_true by done.
      cbn [fmap option_fmap option_map fst]. unfold slot. rewrite Ho. by replace (S (length h) - 1 - 0)%nat with (length h) by lia.
    + rewrite lookup_insert_ne by done. erewrite (evict cap h m) by (first [done|by rewrite Hold]).
      assert (take cap ((c, a) :: h) = (c, a) :: take (cap - 1) h) as -> by (destruct cap; [lia|]; cbn; by rewrite Nat.sub_0_r).
      rewrite find_id_cons, bool_decide_false by done.
      destruct (find_id c' (take (cap - 1) h)) as [[i e]|]; cbn; [|done]. by rewrite slot_S.
Qed.

Lemma set_all_ok cap h m sets : (0 < cap)%nat → map_ok cap h m →
  ∃ m', set_all m sets = Ok m' ∧ map_ok cap (reverse sets ++ h) m'.
Proof.
  intros Hcap. revert h m. induction sets as [|[c a] sets IH]; intros h m Hm; cbn [set_all]; [by exists m|].
  destruct (Set_ok cap h m c a Hcap Hm) as (m' & -> & Hm'). cbn [mbind res_bind].
  destruct (IH _ _ Hm') as (m'' & -> & Hm''). exists m''. split; [done|].
  by rewrite reverse_cons, <- (assoc_L (++)).
Qed.

Lemma Get_remembered cap h m c : map_ok cap h m →
  Get m c = Ok (match (λ e, e.2.2) <$> find_id c (take cap h) with Some a => (Some a, true) | None => (None, false) end).
Proof.
  intros [Hl Ho He Hc]. unfold Get. rewrite Hc. destruct (find_id c (take cap h)) as [[i e]|] eqn:Ef; cbn; [|done].
  apply find_id_lookup in Ef as [Hi Hec]. pose proof (lookup_lt_Some _ _ _ Hi) as Hlt. rewrite length_take in Hlt.
  rewrite lookup_take_lt in Hi by lia. by rewrite (He i e) by (done || lia).
Qed.

Lemma set_all_empty sets : set_all (newClientIDMap 0) sets = Ok (newClientIDMap 0).
Proof. induction sets as [|[c a] sets IH]; [done|]. cbn. by rewrite IH. Qed.

(** *** Property *)

(** the map remembers, of any sequence of [Set] calls, exactly the last
    [capacity] ones: [Get] gives the address of the last of them for the client,
    and says that there is none when the client is not among them. *)
Theorem clientIDMap_remembers_last (capacity : nat) (sets : list (ClientID * Addr)) :
  ∃ m, set_all (newClientIDMap capacity) sets = Ok m ∧
    ∀ c, Get m c = Ok (match remembered capacity sets c with Some a => (Some a, true) | None => (None, false) end).
Proof.
  destruct capacity as [|cap]; [exists (newClientIDMap 0); by split; [apply set_all_empty|]|].
  destruct (set_all_ok (S cap) [] (newClientIDMap (S cap)) sets) as (m & Hs & Hm); [lia|apply newClientIDMap_ok|].
  rewrite app_nil_r in Hm. exists m. split; [done|]. intros c. by apply (Get_remembered (S cap)).
Qed.

End clientIDMap.
End ClientIDMap.

(** ** The two ends of the tunnel *)

Module Tunnel.
Import Bufio ClientIDMap QueuePacketConn.

Definition Token : bytes := [0x12; 0x93; 0x60; 0x5d; 0x27; 0x81; 0x75; 0xf5].

Inductive tunnel_error :=
  | ErrIO (e : io_error)
  | ErrInvalidSnowflake.

(** *** Client *)

Section client.
Context {W : Type} `{Writer W}.

Record encapsulationPacketConn := MkPacketConn { pc_reader : reader; pc_bw : bufio W }.

Definition newEncapsulationPacketConn (r : reader) (w : W) : encapsulationPacketConn := MkPacketConn r (NewWriter w).

(** What the dial function of newSession sends first. *)
Definition dial_prefix (clientID : bytes) (randomByte : Z) : res tunnel_error bytes :=
  match WritePadding (Token ++ clientID) (1900 + randomByte mod 200) with
  | Ok (Some (buf, _, None)) => Ok buf
  | Ok (Some (_, _, Some e)) => Err (ErrIO e)
  | _ => Panic
  end.

(** The dial function, with the snowflake that [Pop] returned. *)
Definition dialContext (clientID : bytes) (randomByte : Z) (conn : option (reader * W)) : res tunnel_error encapsulationPacketConn :=
  match conn with
  | None => Err ErrInvalidSnowflake
  | Some (r, w) =>
      buf ← dial_prefix clientID randomByte;
      match w_write w buf with
      | (_, _, Some e) => Err (ErrIO e)
      | (w, _, None) => Ok (newEncapsulationPacketConn r w)
      end
  end.

Definition EPC_WriteTo (c : encapsulationPacketConn) (p : bytes) : encapsulationPacketConn * Z * option io_error :=
  let '(bw, _, err) := WriteData (pc_bw c) p in
  let '(bw, err) := match err with None => Flush bw | Some e => (bw, Some e) end in
  match err with
  | Some e => (MkPacketConn (pc_reader c) bw, 0, Some e)
  | None => (MkPacketConn (pc_reader c) bw, len p, None)
  end.

(** [ReadFrom(p)] with [n = len(p)]: the bytes read, the error and the connection. *)
Definition EPC_ReadFrom (c : encapsulationPacketConn) (n : Z) : option (bytes * option io_error * encapsulationPacketConn) :=
  match ReadData (pc_reader c) n with
  | Some x =>
      let err := match rd_err x with Some ErrShortBuffer => None | e => e end in
      Some (rd_buf x, err, MkPacketConn (rd_reader x) (pc_bw c))
  | None => None
  end.

End client.
Arguments encapsulationPacketConn : clear implicits.

(** *** Server *)

(** The write loop of turbotunnelMode, over packets received from the outgoing
    queue: an error ends it. *)
Fixpoint write_outgoing {W} `{Writer W} (bw : bufio W) (ps : list bytes) : bufio W * option io_error :=
  match ps with
  | [] => (bw, None)
  | p :: ps =>
      let '(bw, _, err) := WriteData bw p in
      match err with
      | Some e => (bw, Some e)
      | None =>
          match Flush bw with
          | (bw, Some e) => (bw, Some e)
          | (bw, None) => write_outgoing bw ps
          end
      end
  end.

(** The read loop of turbotunnelMode: the packets passed to QueueIncoming, and
    the error that ends it.  Each round consumes at least a byte. *)
Fixpoint read_packets (fuel : nat) (r : reader) : option (list bytes * io_error) :=
  match fuel with
  | O => None
  | S fuel =>
      match ReadData r 2048 with
      | None => None
      | Some x =>
          match rd_err x with
          | None | Some ErrShortBuffer =>
              match read_packets fuel (rd_reader x) with
              | Some (ps, e) => Some (rd_buf x :: ps, e)
              | None => None
              end
          | Some e => Some ([], e)
          end
      end
  end.

Section server.
Context {Addr : Type} (mac : bytes → bytes → bytes).

(** The handler and the map of addresses; [mac key data] is HMAC-SHA256. *)
Record server := MkServer {
  clientIDAddrMap : clientIDMap (Addr := Addr);
  pconns : list conn;
  clientIDLookupKey : bytes
}.

Definition le_get (l : bytes) : Z := be_get (reverse l).

(** [hmac.New(sha256.New, key).Sum(clientID)]: Sum appends the code of what was
    written, which is nothing, to its argument. *)
Definition hmac_sum (key b : bytes) : bytes := b ++ mac key [].

(** The index of the connection. *)
Definition lookupPacketConn (key : bytes) (n : Z) (clientID : bytes) : res tunnel_error Z :=
  let s := hmac_sum key clientID in
  if len s <? 8 then Panic else
  if n =? 0 then Panic else
  Ok (le_get (take 8 s) mod n).

(** The calls of QueueIncoming; [pick] is what the buffer pool decides. *)
Fixpoint queue_all (pick : nat → option nat) (ps : list bytes) (clientID : bytes) (c : conn) : conn :=
  match ps with
  | [] => c
  | p :: ps => queue_all pick ps clientID (QueueIncoming (pick (length ps)) p clientID c)
  end.

Definition turbotunnelMode (pick : nat → option nat) (sv : server) (r : reader) (addr : Addr) : res tunnel_error server :=
  let '(clientID, err, r) := ReadFull r 8 in
  match err with
  | Some e => Err (ErrIO e)
  | None =>
      m ← map_err (λ _, ErrInvalidSnowflake) (Set_ (clientIDAddrMap sv) clientID addr);
      i ← lookupPacketConn (clientIDLookupKey sv) (len (pconns sv)) clientID;
      match pconns sv !! Z.to_nat i, read_packets (S (length (r_data r))) r with
      | Some pconn, Some (ps, _) =>
          Ok (MkServer m (<[Z.to_nat i := queue_all pick ps clientID pconn]> (pconns sv)) (clientIDLookupKey sv))
      | _, _ => Panic
      end
  end.

(** [ServeHTTP] on an accepted connection from the client at [addr]: the server
    is unchanged when the token is missing or wrong. *)
Definition ServeHTTP (pick : nat → option nat) (sv : server) (r : reader) (addr : Addr) : res tunnel_error server :=
  let '(token, err, r) := ReadFull r (len Token) in
  match err with
  | Some e => Err (ErrIO e)
  | None => if bool_decide (token = Token) then turbotunnelMode pick sv r addr else Ok sv
  end.

End server.
Arguments server : clear implicits.

(** *** Lemmas *)

Lemma WriteData_bufio (bw : bufio bytes) d content : buffered bw content → len d < 2 ^ 20 →
  ∃ bw' n c, WriteData bw d = (bw', n, None) ∧ buffered bw' (content ++ c) ∧ data_chunk d c.
Proof.
  intros Hb Hd. pose proof (len_nonneg d). destruct (dataPrefix_ok (len d)) as (pre & Hpre & Hf & _); [lia|].
  unfold WriteData. rewrite Hpre. destruct (Write_ok bw pre content Hb) as (bw1 & Hw & Hb1).
  unfold w_write, bufio_writer. rewrite Hw. destruct (Write_ok bw1 d _ Hb1) as (bw2 & Hw2 & Hb2). rewrite Hw2.
  exists bw2, (len pre + len d), (pre ++ d). split; [done|]. split; [by rewrite (assoc_L (++))|by exists pre].
Qed.

Lemma buffered_flushed w : buffered (Bufio [] None w : bufio bytes) w.
Proof. split_and!; cbn; [done|done|by rewrite app_nil_r]. Qed.

Lemma EPC_WriteTo_ok r w p : len p < 2 ^ 20 →
  ∃ c, EPC_WriteTo (MkPacketConn r (Bufio [] None w : bufio bytes)) p = (MkPacketConn r (Bufio [] None (w ++ c)), len p, None) ∧ data_chunk p c.
Proof.
  intros Hp. destruct (WriteData_bufio _ p w (buffered_flushed w) Hp) as (bw & n & c & Hw & Hb & Hc).
  exists c. split; [|done]. unfold EPC_WriteTo. cbn [pc_bw pc_reader]. rewrite Hw. by rewrite (Flush_ok bw _ Hb).
Qed.

(** Packets sent one after the other by the client. *)
Fixpoint write_all (c : encapsulationPacketConn bytes) (ps : list bytes) : encapsulationPacketConn bytes * option io_error :=
  match ps with
  | [] => (c, None)
  | p :: ps =>
      match EPC_WriteTo c p with
      | (c, _, None) => write_all c ps
      | (c, _, Some e) => (c, Some e)
      end
  end.

Lemma write_all_ok r ds s pre ps : stream ds s → Forall (λ p, len p < 2 ^ 20) ps →
  ∃ s', write_all (MkPacketConn r (Bufio [] None (pre ++ s))) ps = (MkPacketConn r (Bufio [] None (pre ++ s')), None) ∧
    stream (ds ++ ps) s'.
Proof.
  intros Hs Hps. revert ds s Hs. induction Hps as [|p ps Hp _ IH]; intros ds s Hs; cbn [write_all].
  { exists s. by rewrite app_nil_r. }
  destruct (EPC_WriteTo_ok r (pre ++ s) p Hp) as (c & -> & Hc). rewrite <- (assoc_L (++)).
  destruct (IH (ds ++ [p]) (s ++ c)) as (s' & ? & ?); [by apply stream_snoc_data|].
  exists s'. split; [done|]. by rewrite <- (assoc_L (++)) in *.
Qed.

Lemma write_outgoing_ok ds s ps : stream ds s → Forall (λ p, len p < 2 ^ 20) ps →
  ∃ s', write_outgoing (Bufio [] None s : bufio bytes) ps = (Bufio [] None s', None) ∧ stream (ds ++ ps) s'.
Proof.
  intros Hs Hps. revert ds s Hs. induction Hps as [|p ps Hp _ IH]; intros ds s Hs; cbn [write_outgoing].
  { exists s. by rewrite app_nil_r. }
  destruct (WriteData_bufio _ p s (buffered_flushed s) Hp) as (bw & n & c & -> & Hb & Hc).
  rewrite (Flush_ok bw _ Hb). destruct (IH (ds ++ [p]) (s ++ c)) as (s' & ? & ?); [by apply stream_snoc_data|].
  exists s'. split; [done|]. by rewrite <- (assoc_L (++)) in *.
Qed.

(** Reading a chunk into a buffer of any size. *)
Lemma ReadData_any pads c d rest lp f : padding_chunks pads → data_chunk d c → 0 ≤ lp →
  ReadData (Reader (pads ++ c ++ rest) f) lp =
  Some (ReadResult (Z.min lp (len d)) (if len d <=? lp then None else Some ErrShortBuffer) (take (Z.to_nat lp) d) (Reader rest f)).
Proof.
  intros Hp Hc Hlp. destruct (Z.leb_spec (len d) lp) as [Hle|Hgt].
  - rewrite (ReadData_exact _ _ d) by done. rewrite Z.min_r, take_ge by (unfold len in *; lia). done.
  - destruct Hc as (pre & Hpre & ->). rewrite ReadData_skip by done. rewrite <- app_assoc, (ReadData_chunk _ (len d)) by done.
    rewrite read_chunk_short, Z.min_l by lia. done.
Qed.

Lemma stream_length ds s : stream ds s → (length ds ≤ length s)%nat.
Proof.
  induction 1 as [|pads d c ds rest Hp (pre & Hpre & ->) Hs IH]; cbn; [lia|]. rewrite !length_app.
  assert (1 ≤ length pre)%nat by (by inversion Hpre; cbn; lia). lia.
Qed.

Lemma read_packets_stream ds s f fuel : stream ds s → f ≠ ErrShortBuffer → (length ds < fuel)%nat →
  read_packets fuel (Reader s f) = Some (take 2048 <$> ds, f).
Proof.
  intros Hs Hf. revert fuel. induction Hs as [pads Hp|pads d c ds rest Hp Hc Hs IH]; intros fuel Hfuel.
  - destruct fuel; [cbn in Hfuel; lia|]. cbn [read_packets]. rewrite ReadData_end by done. cbn. by destruct f.
  - destruct fuel as [|fuel]; [lia|]. cbn [read_packets]. rewrite (ReadData_any pads c d rest) by (done || lia).
    cbn [rd_err rd_reader rd_buf]. cbn in Hfuel. rewrite IH by lia. by destruct (len d <=? 2048).
Qed.

(** The packets that [k] calls of the client's [ReadFrom] return, up to the first error. *)
Fixpoint read_all_from {W} (k : nat) (c : encapsulationPacketConn W) (n : Z) : list bytes * option io_error :=
  match k with
  | O => ([], None)
  | S k =>
      match EPC_ReadFrom c n with
      | Some (p, None, c) => let '(ps, e) := read_all_from k c n in (p :: ps, e)
      | Some (_, Some e, _) => ([], Some e)
      | None => ([], None)
      end
  end.

Lemma read_all_from_stream ds s (w : bufio bytes) n : stream ds s → 0 ≤ n →
  read_all_from (S (length ds)) (MkPacketConn (Reader s EOF) w) n = (take (Z.to_nat n) <$> ds, Some EOF).
Proof.
  intros Hs Hn. induction Hs as [pads Hp|pads d c ds rest Hp Hc Hs IH].
  - cbn [length read_all_from]. unfold EPC_ReadFrom. cbn [pc_reader]. by rewrite ReadData_end.
  - cbn [length]. remember (S (length ds)) as k eqn:Ek. cbn [read_all_from]. unfold EPC_ReadFrom. cbn [pc_reader pc_bw].
    rewrite (ReadData_any pads c d rest) by done. cbn [rd_err rd_buf rd_reader].
    assert (match (if len d <=? n then None else Some ErrShortBuffer) with Some ErrShortBuffer => None | e => e end = None) as ->
      by (by destruct (len d <=? n)).
    by rewrite IH.
Qed.

Lemma QueueIncoming_frame choice p a c : clients (QueueIncoming choice p a c) = clients c ∧ closed (QueueIncoming choice p a c) = closed c.
Proof.
  unfold QueueIncoming. destruct (closed c) as [e|] eqn:E; [by rewrite E|].
  assert (clients (Get choice c).2 = clients c ∧ closed (Get choice c).2 = None) as [E1 E2].
  { unfold Get. destruct choice as [i|]; [destruct (bufPool c !! i)|]; done. }
  destruct (Get choice c) as [cap c']. cbn in E1, E2. destruct (_ <? _)%nat; [done|].
  unfold Restore. by destruct (_ <=? _)%nat.
Qed.

Lemma queue_all_ok pick ps a c : conn_ok c → closed c = None → Forall (λ p, (length p ≤ mtu c)%nat) ps →
  (length (recvQueue c) + length ps ≤ queueSize)%nat →
  let c' := queue_all pick ps a c in
  conn_ok c' ∧ clients c' = clients c ∧ closed c' = None ∧ mtu c' = mtu c ∧
  (λ t, (tp_P t, tp_Addr t)) <$> recvQueue c' = ((λ t, (tp_P t, tp_Addr t)) <$> recvQueue c) ++ ((λ p, (p, a)) <$> ps).
Proof.
  revert c. induction ps as [|p ps IH]; intros c Hok Hcl Hps Hlen; cbn [queue_all].
  { split_and!; try done. by rewrite app_nil_r. }
  apply Forall_cons in Hps as [Hp Hps]. cbn in Hlen.
  destruct (QueueIncoming_ok (pick (length ps)) p a c Hok Hp Hcl) as (Hok' & Em & cap & Er).
  destruct (QueueIncoming_frame (pick (length ps)) p a c) as [Ecl Ec].
  destruct (Nat.ltb_spec (length (recvQueue c)) queueSize) as [Hlt|]; [|lia].
  destruct (IH (QueueIncoming (pick (length ps)) p a c)) as (H1 & H2 & H3 & H4 & H5); [done|by rewrite Ec|by rewrite Em| |].
  { rewrite Er, length_app. cbn. lia. }
  split_and!; [done|by rewrite H2|done|by rewrite H4|]. rewrite H5, Er, fmap_app, <- (assoc_L (++)). done.
Qed.

Lemma ReadFull_app l rest f k : k = len l → ReadFull (Reader (l ++ rest) f) k = (l, None, Reader rest f).
Proof.
  intros ->. unfold ReadFull. cbn [r_data r_final]. rewrite len_app. pose proof (len_nonneg rest).
  destruct (Z.leb_spec (len l) (len l + len rest)); [|lia].
  unfold len. by rewrite Nat2Z.id, take_app_length, drop_app_length.
Qed.

Lemma dial_prefix_ok id rb :
  ∃ pads, dial_prefix id rb = Ok (Token ++ id ++ pads) ∧ padding_chunks pads ∧ len pads = 1900 + rb mod 200.
Proof.
  assert (0 ≤ rb mod 200 < 200) as Hr by (by apply Z.mod_pos_bound). set (n := 1900 + rb mod 200) in *.
  unfold dial_prefix. fold n. unfold WritePadding. destruct (Z.ltb_spec n 0); [lia|].
  destruct (padding_loop_ok (Z.to_nat n) (Token ++ id) n 0) as (pads & -> & Hl & Hp); [lia|].
  exists pads. by rewrite <- (assoc_L (++)).
Qed.

Lemma lookupPacketConn_id mac key n id : len id = 8 → 0 < n → lookupPacketConn mac key n id = Ok (le_get id mod n).
Proof.
  intros Hid Hn. unfold lookupPacketConn, hmac_sum. rewrite len_app, Hid. pose proof (len_nonneg (mac key [])).
  destruct (Z.ltb_spec (8 + len (mac key [])) 8); [lia|]. destruct (Z.eqb_spec n 0); [lia|].
  assert (take 8 (id ++ mac key []) = id) as ->; [|done]. unfold len in Hid. by rewrite take_app_length' by lia.
Qed.

(** What [ServeHTTP] does with a client's stream. *)
Lemma ServeHTTP_stream {Addr} mac pick (sv : server Addr) id ps s addr cap h c :
  len id = 8 → stream ps s → map_ok cap h (clientIDAddrMap sv) → (0 < cap)%nat →
  pconns sv !! Z.to_nat (le_get id mod len (pconns sv)) = Some c → conn_ok c → closed c = None →
  Forall (λ p, len p ≤ 2048 ∧ (length p ≤ mtu c)%nat) ps → (length (recvQueue c) + length ps ≤ queueSize)%nat →
  ∃ m' c', ServeHTTP mac pick sv (Reader (Token ++ id ++ s) EOF) addr =
      Ok (MkServer m' (<[Z.to_nat (le_get id mod len (pconns sv)) := c']> (pconns sv)) (clientIDLookupKey sv)) ∧
    ClientIDMap.Get m' id = Ok (Some addr, true) ∧ conn_ok c' ∧ closed c' = None ∧ clients c' = clients c ∧
    (λ t, (tp_P t, tp_Addr t)) <$> recvQueue c' = ((λ t, (tp_P t, tp_Addr t)) <$> recvQueue c) ++ ((λ p, (p, id)) <$> ps).
Proof.
  intros Hid Hs Hm Hcap Hc Hok Hcl Hps Hlen. unfold ServeHTTP. rewrite ReadFull_app by done. cbv iota.
  rewrite bool_decide_true by done. unfold turbotunnelMode. rewrite ReadFull_app by done. cbv iota.
  destruct (Set_ok cap h _ id addr Hcap Hm) as (m' & -> & Hm'). cbn [map_err mbind res_bind].
  assert (0 < len (pconns sv)) as Hn by (apply lookup_lt_Some in Hc; unfold len; lia).
  rewrite lookupPacketConn_id by done. cbn [mbind res_bind r_data]. rewrite Hc.
  rewrite (read_packets_stream ps s EOF) by (first [done|apply stream_length in Hs; lia]).
  assert (take 2048 <$> ps = ps) as ->.
  { clear -Hps. induction Hps as [|p ps [Hp _] _ IH]; [done|]. rewrite fmap_cons, IH. f_equal. apply take_ge. unfold len in Hp. lia. }
  destruct (queue_all_ok pick ps id c Hok Hcl) as (H1 & H2 & H3 & _ & H5); [by eapply Forall_impl; [exact Hps|by intros ? []]|done|].
  exists m', (queue_all pick ps id c). split_and!; try done.
  rewrite (Get_remembered cap _ m' id Hm'). destruct cap as [|cap]; [lia|]. cbn [take]. rewrite find_id_cons.
  by rewrite bool_decide_true.
Qed.

(** *** Properties *)

(** C13: packets that the client sends through a new connection arrive at the
    server.  Whatever bytes the dial function picks, everything the client wrote
    is understood by [ServeHTTP], which queues exactly the client's packets, in
    order and under the client's identifier, on the packet connection that the
    identifier selects, changes no other connection, and remembers the address. *)
Theorem client_packets_reach_server {Addr} mac pick (sv : server Addr) id rb r ps addr cap h c :
  len id = 8 → map_ok cap h (clientIDAddrMap sv) → (0 < cap)%nat →
  pconns sv !! Z.to_nat (le_get id mod len (pconns sv)) = Some c → conn_ok c → closed c = None →
  Forall (λ p, len p ≤ 2048 ∧ (length p ≤ mtu c)%nat) ps → (length (recvQueue c) + length ps ≤ queueSize)%nat →
  ∃ pc s m' c', dialContext id rb (Some (r, [])) = Ok pc ∧
    write_all pc ps = (MkPacketConn r (Bufio [] None s), None) ∧
    ServeHTTP mac pick sv (Reader s EOF) addr =
      Ok (MkServer m' (<[Z.to_nat (le_get id mod len (pconns sv)) := c']> (pconns sv)) (clientIDLookupKey sv)) ∧
    ClientIDMap.Get m' id = Ok (Some addr, true) ∧
    (λ t, (tp_P t, tp_Addr t)) <$> recvQueue c' = ((λ t, (tp_P t, tp_Addr t)) <$> recvQueue c) ++ ((λ p, (p, id)) <$> ps).
Proof.
  intros Hid Hm Hcap Hc Hok Hcl Hps Hlen. unfold dialContext. destruct (dial_prefix_ok id rb) as (pads & -> & Hpads & _).
  cbn [mbind res_bind w_write buffer_writer app].
  destruct (write_all_ok r [] pads (Token ++ id) ps) as (s & Hw & Hs); [by constructor|eapply Forall_impl; [exact Hps|]; cbn; intros ? []; lia|].
  rewrite <- !(assoc_L (++)) in Hw. destruct (ServeHTTP_stream mac pick sv id ps s addr cap h c) as (m' & c' & Hsv & Hg & _ & _ & _ & Hq); try done.
  exists (newEncapsulationPacketConn r (Token ++ id ++ pads)), (Token ++ id ++ s), m', c'. by split_and!.
Qed.

(** C14: packets that the server takes from the queue of a client and writes to its
    connection are returned by the client's [ReadFrom], in order, a packet longer
    than the buffer cut to it; then [ReadFrom] returns the end of the stream. *)
Theorem server_packets_reach_client ps n w : 0 ≤ n → Forall (λ p, len p < 2 ^ 20) ps →
  ∃ s, write_outgoing (NewWriter [] : bufio bytes) ps = (Bufio [] None s, None) ∧
    read_all_from (S (length ps)) (MkPacketConn (W := bytes) (Reader s EOF) w) n = (take (Z.to_nat n) <$> ps, Some EOF).
Proof.
  intros Hn Hps. destruct (write_outgoing_ok [] [] ps) as (s & Hw & Hs); [by repeat constructor|done|].
  exists s. split; [done|]. by apply read_all_from_stream.
Qed.

(** the connection that serves a client depends on the client's identifier
    alone, which the client chooses; the secret key that is meant to prevent
    clients from choosing it has no influence, whatever the authentication code. *)
Theorem lookup_ignores_key mac mac' key key' n id : len id = 8 → 0 < n →
  lookupPacketConn mac key n id = lookupPacketConn mac' key' n id ∧ lookupPacketConn mac key n id = Ok (le_get id mod n).
Proof. intros Hid Hn. by rewrite !lookupPacketConn_id. Qed.

(** *** Witnesses *)

Definition example_server : server bytes :=
  MkServer (newClientIDMap 4) [NewQueuePacketConn 1400; NewQueuePacketConn 1400; NewQueuePacketConn 1400] (zeros 16).

Lemma client_packets_reach_server_witness :
  ∃ pc s m' c', dialContext [1; 2; 3; 4; 5; 6; 7; 8] 77 (Some (Reader [] EOF, [])) = Ok pc ∧
    write_all pc [[1; 2; 3]; []] = (MkPacketConn (Reader [] EOF) (Bufio [] None s), None) ∧
    ServeHTTP (λ _ _, []) (λ _, None) example_server (Reader s EOF) [9] =
      Ok (MkServer m' (<[Z.to_nat (le_get [1; 2; 3; 4; 5; 6; 7; 8] mod 3) := c']> (pconns example_server)) (zeros 16)) ∧
    ClientIDMap.Get m' [1; 2; 3; 4; 5; 6; 7; 8] = Ok (Some [9], true) ∧
    (λ t, (tp_P t, tp_Addr t)) <$> recvQueue c' = [([1; 2; 3], [1; 2; 3; 4; 5; 6; 7; 8]); ([], [1; 2; 3; 4; 5; 6; 7; 8])].
Proof.
  apply (client_packets_reach_server (λ _ _, []) (λ _, None) example_server [1; 2; 3; 4; 5; 6; 7; 8] 77 (Reader [] EOF) [[1; 2; 3]; []] [9] 4 []
    (NewQueuePacketConn 1400)).
  - done.
  - apply newClientIDMap_ok.
  - lia.
  - done.
  - split; cbn; [apply ClientMap.NewClientMap_ok|lia|constructor|apply map_Forall_empty].
  - done.
  - repeat (apply Forall_cons; split; [split; [done|by apply Nat.leb_le]|]). by apply Forall_nil.
  - cbn. unfold queueSize. lia.
Defined.

Lemma server_packets_reach_client_witness :
  ∃ s, write_outgoing (NewWriter [] : bufio bytes) [[1; 2; 3]; [4]] = (Bufio [] None s, None) ∧
    read_all_from 3 (MkPacketConn (W := bytes) (Reader s EOF) (NewWriter [])) 2 = ([[1; 2]; [4]], Some EOF).
Proof. apply (server_packets_reach_client [[1; 2; 3]; [4]] 2 (NewWriter [])); [done|by repeat constructor]. Defined.

Lemma lookup_ignores_key_witness :
  lookupPacketConn (λ _ _, [7]) [1] 5 [1; 0; 0; 0; 0; 0; 0; 0] = lookupPacketConn (λ k _, k) [2] 5 [1; 0; 0; 0; 0; 0; 0; 0] ∧
  lookupPacketConn (λ _ _, [7]) [1] 5 [1; 0; 0; 0; 0; 0; 0; 0] = Ok (le_get [1; 0; 0; 0; 0; 0; 0; 0] mod 5).
Proof. by apply (lookup_ignores_key (λ _ _, [7]) (λ k _, k) [1] [2] 5 [1; 0; 0; 0; 0; 0; 0; 0]). Defined.

End Tunnel.
