(* ===== verification/Peers.v ===== *)
(** * The client's collection of snowflakes (src/client/lib/peers.go)

    [Peers] keeps the connected proxies: a list of the active ones and a channel
    of those not yet used.  [Collect] is called by connectLoop, [Pop] by the
    dial function of the session, and [End] when the connection is closed, in
    three goroutines; a proxy may close at any time.  The operations are
    functions on the state, and [step] is their interleaving: the sections under
    [collectLock] of [Collect] and [End] exclude each other. *)
From stdpp Require Import base tactics numbers list gmap relations.
From Stdlib Require Import Lia Sorted.
From S2P Require Import Prelude.
Open Scope nat_scope.

Module Peers.

Inductive peers_error := ErrMissingTongue | ErrMelted | ErrAtCapacity.

(** A [WebRTCPeer] is the number of the [Catch] that made it; [isClosed] holds
    those whose [Close] was called. *)
Record peers := MkPeers {
  capacity : nat;
  snowflakeChan : list nat;
  chanClosed : bool;
  activePeers : list nat;
  melted : bool;
  isClosed : gset nat
}.

(** [tongue] is its maximum, when there is one. *)
Definition NewPeers (tongue : option nat) : res peers_error peers :=
  match tongue with
  | None => Err ErrMissingTongue
  | Some max => Ok (MkPeers max [] false [] false ∅)
  end.

Definition purgeClosedPeers (p : peers) : peers :=
  MkPeers (capacity p) (snowflakeChan p) (chanClosed p) (filter (λ s, s ∉ isClosed p) (activePeers p)) (melted p) (isClosed p).

Definition Count (p : peers) : nat * peers := let p := purgeClosedPeers p in (length (activePeers p), p).

(** [Collect] up to the call of [Catch]. *)
Definition Collect_check (p : peers) : option peers_error * peers :=
  if melted p then (Some ErrMelted, p) else
  let '(cnt, p) := Count p in
  if capacity p <=? cnt then (Some ErrAtCapacity, p) else (None, p).

(** [activePeers.PushBack(connection)] *)
Definition Collect_track (s : nat) (p : peers) : peers :=
  MkPeers (capacity p) (snowflakeChan p) (chanClosed p) (activePeers p ++ [s]) (melted p) (isClosed p).

(** [snowflakeChan <- connection]: [None] when the send has to wait. *)
Definition Collect_send (s : nat) (p : peers) : res peers_error (option peers) :=
  if chanClosed p then Panic else
  if length (snowflakeChan p) <? capacity p
  then Ok (Some (MkPeers (capacity p) (snowflakeChan p ++ [s]) (chanClosed p) (activePeers p) (melted p) (isClosed p)))
  else Ok None.

Inductive pop_result := PopSnowflake (s : nat) | PopContinue | PopNil | PopWait.

(** One round of the loop of [Pop]. *)
Definition Pop (p : peers) : pop_result * peers :=
  match snowflakeChan p with
  | s :: q =>
      let p := MkPeers (capacity p) q (chanClosed p) (activePeers p) (melted p) (isClosed p) in
      if bool_decide (s ∈ isClosed p) then (PopContinue, p) else (PopSnowflake s, p)
  | [] => if chanClosed p then (PopNil, p) else (PopWait, p)
  end.

Definition Close (s : nat) (p : peers) : peers :=
  MkPeers (capacity p) (snowflakeChan p) (chanClosed p) (activePeers p) (melted p) ({[s]} ∪ isClosed p).

(** [End]: close(melt), then, with the lock, close(snowflakeChan) and [Count],
    then one round of the loop for each active peer. *)
Definition End_melt (p : peers) : peers :=
  MkPeers (capacity p) (snowflakeChan p) (chanClosed p) (activePeers p) true (isClosed p).

Definition End_close (p : peers) : peers :=
  purgeClosedPeers (MkPeers (capacity p) (snowflakeChan p) true (activePeers p) (melted p) (isClosed p)).

Definition End_peer (p : peers) : option peers :=
  match activePeers p with
  | [] => None
  | s :: l =>
      Some (Close s (MkPeers (capacity p) (snowflakeChan p) (chanClosed p) l (melted p) (isClosed p)))
  end.

(** ** Interleaving *)

(** Where the goroutines of connectLoop and of [End] are; [CCatch], [CSend] and
    [EClosing] hold the lock. *)
Inductive collector := CIdle | CCatch | CSend (s : nat).
Inductive ender := EIdle | EMelted | EClosing | EDone.

(** [caught] counts the peers caught so far, [popped] lists the results of [Pop]. *)
Record state := State { st : peers; col : collector; en : ender; caught : nat; popped : list nat }.

Inductive step : state → state → Prop :=
  | collect_refused p e n l er p' : e ≠ EClosing → Collect_check p = (Some er, p') →
      step (State p CIdle e n l) (State p' CIdle e n l)
  | collect_starts p e n l p' : e ≠ EClosing → Collect_check p = (None, p') →
      step (State p CIdle e n l) (State p' CCatch e n l)
  | catch_fails p e n l : step (State p CCatch e n l) (State p CIdle e n l)
  | catch_succeeds p e n l : step (State p CCatch e n l) (State (Collect_track n p) (CSend n) e (S n) l)
  | collect_sends p s e n l p' : Collect_send s p = Ok (Some p') →
      step (State p (CSend s) e n l) (State p' CIdle e n l)
  | peer_closes p c e n l s : s < n → step (State p c e n l) (State (Close s p) c e n l)
  | end_melts p c n l : step (State p c EIdle n l) (State (End_melt p) c EMelted n l)
  | end_locks p n l : step (State p CIdle EMelted n l) (State (End_close p) CIdle EClosing n l)
  | end_closes_peer p c n l p' : End_peer p = Some p' → step (State p c EClosing n l) (State p' c EClosing n l)
  | end_returns p c n l : End_peer p = None → step (State p c EClosing n l) (State p c EDone n l).

Inductive pop_step : state → state → Prop :=
  | pop_snowflake p c e n l s p' : Pop p = (PopSnowflake s, p') →
      pop_step (State p c e n l) (State p' c e n (l ++ [s]))
  | pop_skips p c e n l p' : Pop p = (PopContinue, p') → pop_step (State p c e n l) (State p' c e n l).

Definition any_step (s s' : state) : Prop := step s s' ∨ pop_step s s'.

Definition init (max : nat) : state := State (MkPeers max [] false [] false ∅) CIdle EIdle 0 [].

(** ** Invariant *)

Definition sending (c : collector) : list nat := match c with CSend s => [s] | _ => [] end.

Record inv (s : state) : Prop := {
  inv_active : length (activePeers (st s)) + (match col s with CCatch => 1 | _ => 0 end) ≤ capacity (st s);
  inv_nodup : NoDup (activePeers (st s));
  inv_open : ∀ k, k < caught s → k ∉ isClosed (st s) → k ∈ activePeers (st s);
  inv_caught : Forall (λ k, k < caught s) (activePeers (st s));
  inv_closed : chanClosed (st s) = true ↔ en s = EClosing ∨ en s = EDone;
  inv_idle : chanClosed (st s) = true → col s = CIdle;
  inv_melted : en s ≠ EIdle → melted (st s) = true;
  inv_done : en s = EDone → activePeers (st s) = [];
  inv_order : StronglySorted lt (popped s ++ snowflakeChan (st s) ++ sending (col s));
  inv_below : Forall (λ k, k < caught s) (popped s ++ snowflakeChan (st s) ++ sending (col s))
}.

(** ** Lemmas *)

Lemma purge_inv p c e n l : inv (State p c e n l) → inv (State (purgeClosedPeers p) c e n l).
Proof.
  intros [H1 H2 H3 H4 H5 H6 H7 H8 H9 H10]. split; cbn in *; try done.
  - pose proof (length_filter (λ s, s ∉ isClosed p) (activePeers p)). lia.
  - by apply NoDup_filter.
  - intros k Hk Ho. apply list_elem_of_filter. auto.
  - rewrite Forall_forall in *. intros k [_ Hk]%list_elem_of_filter. auto.
  - intros He. by rewrite (H8 He).
Qed.

Lemma Collect_check_purges p er p' : Collect_check p = (er, p') → (p' = p ∧ er = Some ErrMelted) ∨
  (melted p = false ∧ p' = purgeClosedPeers p ∧ (er = None → length (activePeers p') < capacity p')).
Proof.
  unfold Collect_check. destruct (melted p); [by intros [= <- <-]; left|].
  unfold Count. destruct (Nat.leb_spec (capacity (purgeClosedPeers p)) (length (activePeers (purgeClosedPeers p))));
    intros [= <- <-]; right; done.
Qed.

Lemma StronglySorted_app_inv (l1 l2 : list nat) : StronglySorted lt (l1 ++ l2) → StronglySorted lt l2.
Proof. induction l1 as [|x l1 IH]; [done|]. cbn. intros [? _]%StronglySorted_inv. auto. Qed.

Lemma StronglySorted_snoc (l : list nat) n : StronglySorted lt l → Forall (λ k, k < n) l → StronglySorted lt (l ++ [n]).
Proof.
  induction 1 as [|x l Hs IH Hx]; intros Hf; cbn; [by repeat constructor|]. apply Forall_cons in Hf as [Hxn Hf].
  constructor; [auto|]. apply Forall_app. split; [done|by constructor].
Qed.

Lemma StronglySorted_remove (l1 l2 : list nat) x : StronglySorted lt (l1 ++ x :: l2) → StronglySorted lt (l1 ++ l2).
Proof.
  induction l1 as [|y l1 IH]; cbn; [by intros [? _]%StronglySorted_inv|]. intros [Hs Hy]%StronglySorted_inv. constructor; [auto|].
  rewrite Forall_app, Forall_cons in Hy. apply Forall_app. by destruct Hy as (? & _ & ?).
Qed.

Lemma step_inv s s' : inv s → step s s' → inv s'.
Proof.
  intros Hi Hs. destruct Hs as [p e n l er p' He Hc|p e n l p' He Hc|p e n l|p e n l|p s e n l p' Hc|p c e n l s Hlt|p c n l|p n l|p c n l p' Hp|p c n l Hp].
  - destruct (Collect_check_purges _ _ _ Hc) as [[-> _]|(_ & -> & _)]; [done|by apply purge_inv].
  - destruct (Collect_check_purges _ _ _ Hc) as [[_ ?]|(Hm & -> & Hlen)]; [done|]. specialize (Hlen eq_refl).
    apply purge_inv in Hi. destruct Hi as [H1 H2 H3 H4 H5 H6 H7 H8 H9 H10]. split; try done; cbn [col st en] in *; [lia|].
    intros Hcl%H5. cbn in Hcl. destruct Hcl as [->| ->]; [done|]. specialize (H7 ltac:(done)). cbn in H7. congruence.
  - destruct Hi as [H1 H2 H3 H4 H5 H6 H7 H8 H9 H10]. split; try done; cbn in *. lia.
  - destruct Hi as [H1 H2 H3 H4 H5 H6 H7 H8 H9 H10]. cbn in *. rewrite !app_nil_r in *. split; cbn; try done.
    + rewrite length_app. cbn. lia.
    + apply NoDup_app. split_and!; [done| |apply NoDup_singleton]. intros x Hx ->%list_elem_of_singleton.
      rewrite Forall_forall in H4. specialize (H4 _ Hx). lia.
    + intros k Hk Ho. apply elem_of_app. destruct (decide (k = n)) as [->|]; [right; by left|left; apply H3; [lia|done]].
    + apply Forall_app. split; [|by repeat constructor]. eapply Forall_impl; [exact H4|]. cbn. lia.
    + intros Hcl. by specialize (H6 Hcl).
    + intros ->. rewrite (H8 eq_refl) in *. destruct H5 as [_ H5]. specialize (H6 (H5 ltac:(auto))). done.
    + rewrite (assoc_L (++)). by apply StronglySorted_snoc.
    + rewrite (assoc_L (++)). apply Forall_app. split; [|by repeat constructor]. eapply Forall_impl; [exact H10|]. cbn. lia.
  - unfold Collect_send in Hc. destruct (chanClosed p) eqn:Ecl; [done|]. destruct (_ <? _); [|done]. injection Hc as <-.
    destruct Hi as [H1 H2 H3 H4 H5 H6 H7 H8 H9 H10]. cbn in *. split; cbn; try done; [by rewrite Ecl in H5|by rewrite app_nil_r|by rewrite app_nil_r].
  - destruct Hi as [H1 H2 H3 H4 H5 H6 H7 H8 H9 H10]. split; cbn in *; try done. intros k Hk Ho. apply H3; [done|]. intros ?. apply Ho, elem_of_union. by right.
  - destruct Hi as [H1 H2 H3 H4 H5 H6 H7 H8 H9 H10]. split; cbn in *; try done.
    rewrite H5. split; intros [?|?]; done.
  - destruct Hi as [H1 H2 H3 H4 H5 H6 H7 H8 H9 H10]. apply (purge_inv (MkPeers _ _ true _ _ _)). split; cbn in *; try done.
    + by split; [left|].
    + intros _. by apply H7.
  - destruct Hi as [H1 H2 H3 H4 H5 H6 H7 H8 H9 H10]. unfold End_peer in Hp. cbn in *. destruct (activePeers p) as [|x a] eqn:Ea; [done|].
    injection Hp as <-. apply NoDup_cons in H2 as [Hx H2]. apply Forall_cons in H4 as [_ H4]. cbn in H1.
    split; cbn; try done; [lia|]. intros k Hk Ho. rewrite not_elem_of_union, not_elem_of_singleton in Ho. destruct Ho as [Hkx Ho].
    specialize (H3 k Hk ltac:(done)). by apply elem_of_cons in H3 as [->|?].
  - destruct Hi as [H1 H2 H3 H4 H5 H6 H7 H8 H9 H10]. unfold End_peer in Hp. cbn in *. destruct (activePeers p) eqn:Ea; [|done].
    split; cbn; rewrite ?Ea; try done.
    + rewrite H5. split; intros _; [by right|by left].
    + intros _. by apply H7.
Qed.

Lemma pop_step_inv s s' : inv s → pop_step s s' → inv s'.
Proof.
  intros Hi Hs. revert Hi. destruct Hs as [p c e n l x p' Hp|p c e n l p' Hp]; intros Hi; unfold Pop in Hp; destruct (snowflakeChan p) as [|y q] eqn:Eq;
    try (by destruct (chanClosed p)); case_bool_decide; try done; injection Hp as <-; subst;
    destruct Hi as [H1 H2 H3 H4 H5 H6 H7 H8 H9 H10]; split; cbn in *; rewrite ?Eq in *; try done.
  - by rewrite <- (assoc_L (++)).
  - by rewrite <- (assoc_L (++)).
  - by apply (StronglySorted_remove l) in H9.
  - apply Forall_app in H10 as [Hl Hq]. apply Forall_cons in Hq as [_ Hq]. by apply Forall_app.
Qed.

Lemma reachable_inv max s : rtc any_step (init max) s → inv s.
Proof.
  intros Hr. assert (inv (init max)) as Hi.
  { split; cbn; try done; [lia|constructor|lia|split; [done|by intros [?|?]]|repeat constructor]. }
  revert Hi. induction Hr as [|x y z [Hs|Hs] _ IH]; eauto using step_inv, pop_step_inv.
Qed.

(** A full channel blocks the collector, which holds the lock that [End] needs. *)
Definition stuck (s : state) : Prop :=
  (∃ x, col s = CSend x) ∧ en s = EMelted ∧ chanClosed (st s) = false ∧ capacity (st s) ≤ length (snowflakeChan (st s)).

Lemma step_stuck s s' : stuck s → step s s' → stuck s'.
Proof.
  intros ((x & Hc) & He & Hcl & Hlen) Hs. destruct Hs as [| | | |p y e n l p' Hp|p c e n l y Hlt| | | |]; cbn in *; try done.
  - unfold Collect_send in Hp. rewrite Hcl in Hp. destruct (Nat.ltb_spec (length (snowflakeChan p)) (capacity p)); [lia|done].
  - split_and!; [by exists x|done..].
Qed.

(** ** Properties *)

(** C34: however collecting, popping, closing of proxies and [End] interleave: the
    proxies that are connected are all tracked, and there are at most [max] of
    them; [Pop] returns proxies in the order they were collected and none twice;
    the channel is never used after it was closed; and once [End] has returned
    every proxy ever caught is closed, so that [Pop] returns no proxy any more. *)
Theorem peers_safe max s : rtc any_step (init max) s →
  (∀ k, k < caught s → k ∉ isClosed (st s) → k ∈ activePeers (st s)) ∧ length (activePeers (st s)) ≤ capacity (st s) ∧
  StronglySorted lt (popped s) ∧
  (∀ x, col s = CSend x → chanClosed (st s) = false) ∧
  (en s = EDone → ∀ k, k < caught s → k ∈ isClosed (st s)).
Proof.
  intros Hr. destruct (reachable_inv _ _ Hr) as [H1 H2 H3 H4 H5 H6 H7 H8 H9 H10]. split_and!.
  - done.
  - lia.
  - clear -H9. induction (popped s) as [|x l IH]; [constructor|]. cbn in H9. apply StronglySorted_inv in H9 as [H9 Hx].
    constructor; [auto|]. by apply Forall_app in Hx as [? _].
  - intros x Hx. destruct (chanClosed (st s)); [|done]. rewrite (H6 eq_refl) in Hx. done.
  - intros He k Hk. destruct (decide (k ∈ isClosed (st s))) as [|Ho]; [done|]. specialize (H3 k Hk Ho).
    rewrite (H8 He) in H3. by apply elem_of_nil in H3.
Qed.

(** [End] can hang.  With two proxies allowed there is a reachable state in
    which [End] was called and, as long as [Pop] is not called, does not return
    whatever else happens: proxies that closed unused fill the channel, so that
    [Collect] blocks in its send with the lock that [End] waits for. *)
Theorem end_can_hang : ∃ s, rtc any_step (init 2) s ∧ en s = EMelted ∧ ∀ s', rtc step s s' → en s' ≠ EDone.
Proof.
  assert (∀ s s', rtc step s s' → stuck s → en s' ≠ EDone) as Hstuck.
  { intros s s' Hr. induction Hr as [s|s s1 s2 Hs _ IH]; [by intros (_ & -> & _)|]. eauto using step_stuck. }
  eexists. split; [|split; [|intros s' Hr; apply (Hstuck _ _ Hr)]].
  - do 2 (eapply rtc_l; [left; by eapply collect_starts|]; eapply rtc_l; [left; apply catch_succeeds|];
          eapply rtc_l; [left; by eapply collect_sends|]; eapply rtc_l; [left; by eapply peer_closes, Nat.lt_succ_diag_r|]).
    eapply rtc_l; [left; by eapply collect_starts|]. eapply rtc_l; [left; apply catch_succeeds|].
    eapply rtc_l; [left; apply end_melts|]. apply rtc_refl.
  - done.
  - split_and!; [by eexists|done..].
Qed.

(** One proxy caught, sent and returned by [Pop]. *)
Lemma peers_safe_witness : let s := State (MkPeers 1 [] false [0] false ∅) CIdle EIdle 1 [0] in
  (∀ k, k < caught s → k ∉ isClosed (st s) → k ∈ activePeers (st s)) ∧ length (activePeers (st s)) ≤ capacity (st s) ∧
  StronglySorted lt (popped s) ∧
  (∀ x, col s = CSend x → chanClosed (st s) = false) ∧
  (en s = EDone → ∀ k, k < caught s → k ∈ isClosed (st s)).
Proof.
  apply (peers_safe 1). eapply rtc_l; [left; by eapply collect_starts|]. eapply rtc_l; [left; apply catch_succeeds|].
  eapply rtc_l; [left; by eapply collect_sends|]. eapply rtc_l; [right; by eapply pop_snowflake|]. apply rtc_refl.
Defined.

End Peers.
