(* ===== verification/Sha2.v ===== *)
(** * SHA-2 (crypto/sha256, crypto/sha512)

    The hash functions of Go's standard library that the cipher suites use, as
    FIPS 180-4 defines them and executable, and the interface [Hash] through
    which the rest of the development uses a hash function.  [sha_word] is the
    part the two word sizes share. *)
From stdpp Require Import base tactics numbers list.
From Stdlib Require Import ZArith Lia.
From S2P Require Import Prelude.
Open Scope Z_scope.

(** A hash function: [h.Write(m); h.Sum(nil)], [h.Size()] and [h.BlockSize()]. *)
Record Hash := MkHash { h_sum : bytes → bytes; h_size : Z; h_block : Z }.

(** What the code relies on. *)
Record hash_ok (h : Hash) : Prop := {
  hk_size : 0 < h_size h;
  hk_block : h_size h ≤ h_block h;
  hk_len m : len (h_sum h m) = h_size h;
  hk_bytes m : bytes_ok (h_sum h m)
}.

Module Sha2.

(** The parameters of a word size: bits of a word, the rotations of the four
    functions (the third of the last two is a shift), and the constants. *)
Record params := MkParams {
  bits : Z;
  S0 : Z * Z * Z;
  S1 : Z * Z * Z;
  s0 : Z * Z * Z;
  s1 : Z * Z * Z;
  K : list Z
}.

Section sha2.
Context (p : params).

Definition wrap (x : Z) : Z := x mod 2 ^ bits p.
Definition rotr (n x : Z) : Z := Z.lor (Z.shiftr x n) (wrap (Z.shiftl x (bits p - n))).
Definition rot3 (r : Z * Z * Z) (x : Z) : Z :=
  let '(a, b, c) := r in Z.lxor (Z.lxor (rotr a x) (rotr b x)) (rotr c x).
Definition rot2 (r : Z * Z * Z) (x : Z) : Z :=
  let '(a, b, c) := r in Z.lxor (Z.lxor (rotr a x) (rotr b x)) (Z.shiftr x c).
Definition Ch (x y z : Z) : Z := Z.lxor (Z.land x y) (Z.land (Z.lxor (2 ^ bits p - 1) x) z).
Definition Maj (x y z : Z) : Z := Z.lxor (Z.lxor (Z.land x y) (Z.land x z)) (Z.land y z).

(** The message schedule, the latest word first. *)
Fixpoint schedule (n : nat) (ws : list Z) : list Z :=
  match n with
  | O => ws
  | S n =>
      let at_ i := nth i ws 0 in
      schedule n (wrap (rot2 (s1 p) (at_ 1%nat) + at_ 6%nat + rot2 (s0 p) (at_ 14%nat) + at_ 15%nat) :: ws)
  end.

Definition round (st : list Z) (kw : Z * Z) : list Z :=
  match st with
  | [a; b; c; d; e; f; g; h] =>
      let t1 := h + rot3 (S1 p) e + Ch e f g + kw.1 + kw.2 in
      let t2 := rot3 (S0 p) a + Maj a b c in
      [wrap (t1 + t2); a; b; c; wrap (d + t1); e; f; g]
  | _ => st
  end.

Definition compress (st : list Z) (block : list Z) : list Z :=
  let ws := rev (schedule (length (K p) - 16) (rev block)) in
  zip_with (λ x y, wrap (x + y)) st (foldl round st (zip (K p) ws)).

(** Cuts a list into pieces of [n]. *)
Fixpoint pieces {A} (fuel n : nat) (l : list A) : list (list A) :=
  match l, fuel with
  | [], _ | _, O => []
  | _, S fuel => take n l :: pieces fuel n (drop n l)
  end.

(** The padding: 0x80, zeros, and the length in bits as two words. *)
Definition pad (m : bytes) : bytes :=
  let word := bits p / 8 in
  m ++ [0x80] ++ zeros ((- (len m + 1 + 2 * word)) mod (16 * word)) ++ be_put (Z.to_nat (2 * word)) (8 * len m).

Definition sum (iv : list Z) (m : bytes) : bytes :=
  let word := Z.to_nat (bits p / 8) in
  let padded := pad m in
  let words := map be_get (pieces (length padded) word padded) in
  concat (map (be_put word) (foldl compress iv (pieces (length words) 16 words))).

End sha2.

(** The constants are the first bits of the fractional parts of roots of primes:
    of cube roots for the rounds, of square roots for the initial values. *)
Definition is_prime (n : Z) : bool :=
  forallb (λ d, negb (n mod d =? 0)) (map Z.of_nat (seq 2 (Z.to_nat (Z.sqrt n) - 1))).

Definition primes : list Z := filter (λ n, is_prime n = true) (map Z.of_nat (seq 2 408)).

(** The greatest [r] below [2 ^ bit] with [r ^ 3 <= n], added bit by bit. *)
Fixpoint cube_root (bit : nat) (r n : Z) : Z :=
  match bit with
  | O => r
  | S bit => let r' := r + 2 ^ Z.of_nat bit in cube_root bit (if r' ^ 3 <=? n then r' else r) n
  end.

Definition cbrt_bits (bits p : Z) : Z := cube_root (Z.to_nat (bits + 4)) 0 (p * 2 ^ (3 * bits)) mod 2 ^ bits.
Definition sqrt_bits (bits p : Z) : Z := Z.sqrt (p * 2 ^ (2 * bits)) mod 2 ^ bits.

Definition K256 : list Z := Eval vm_compute in map (cbrt_bits 32) (take 64 primes).
Definition K512 : list Z := Eval vm_compute in map (cbrt_bits 64) primes.

Definition params256 : params := MkParams 32 (2, 13, 22) (6, 11, 25) (7, 18, 3) (17, 19, 10) K256.
Definition params512 : params := MkParams 64 (28, 34, 39) (14, 18, 41) (1, 8, 7) (19, 61, 6) K512.

Definition iv256 : list Z := Eval vm_compute in map (sqrt_bits 32) (take 8 primes).

Definition iv384 : list Z := Eval vm_compute in map (sqrt_bits 64) (take 8 (drop 8 primes)).

Definition sha256 : Hash := MkHash (sum params256 iv256) 32 64.
Definition sha384 : Hash := MkHash (λ m, take 48 (sum params512 iv384 m)) 48 128.

(** ** Lemmas *)

Lemma compress_length p st b : length st = 8%nat → length (compress p st b) = 8%nat.
Proof.
  intros Hst. unfold compress. rewrite length_zip_with.
  enough (∀ l st, length st = 8%nat → length (foldl (round p) st l) = 8%nat) as H by (rewrite H by done; lia).
  clear. induction l as [|kw l IH]; intros st Hst; [done|]. cbn [foldl]. apply IH.
  do 9 (destruct st as [|? st]; try done).
Qed.

Lemma compress_all_length p iv bs : length iv = 8%nat → length (foldl (compress p) iv bs) = 8%nat.
Proof. revert iv. induction bs; intros; [done|]. cbn [foldl]. by apply IHbs, compress_length. Qed.

Lemma concat_words n ws : length (concat (map (be_put n) ws)) = (n * length ws)%nat.
Proof. induction ws; cbn; [lia|]. rewrite length_app, length_be_put, IHws. lia. Qed.

Lemma concat_words_ok n ws : bytes_ok (concat (map (be_put n) ws)).
Proof. induction ws; cbn; [constructor|]. apply bytes_ok_app. split; [apply be_put_ok|done]. Qed.

Lemma sum_length p iv m : length iv = 8%nat → len (sum p iv m) = 8 * Z.of_nat (Z.to_nat (bits p / 8)).
Proof. intros. unfold len, sum. rewrite concat_words, compress_all_length by done. lia. Qed.

Lemma sha256_ok : hash_ok sha256.
Proof.
  split; [done|done| |]; intros m; cbn [h_sum h_size sha256]; [by rewrite sum_length|apply concat_words_ok].
Qed.

Lemma sha384_ok : hash_ok sha384.
Proof.
  split; [done|done| |]; intros m; cbn [h_sum h_size sha384].
  - pose proof (sum_length params512 iv384 m eq_refl) as Hl. unfold len in *. rewrite length_take.
    cbn [bits params512] in Hl. change (Z.of_nat (Z.to_nat (64 / 8))) with 8 in Hl. lia.
  - apply bytes_ok_take, concat_words_ok.
Qed.

(** The examples of FIPS 180-4 for the message "abc". *)
Example sha256_abc : be_get (h_sum sha256 [97; 98; 99]) =
  0xba7816bf8f01cfea414140de5dae2223b00361a396177a9cb410ff61f20015ad.
Proof. vm_compute. reflexivity. Qed.

Example sha384_abc : be_get (h_sum sha384 [97; 98; 99]) =
  0xcb00753f45a35e8bb5a03d699ac65007272c32ab0eded1631a8b605a43ff5bed8086072ba1e7cc2358baeca134c825a7.
Proof. vm_compute. reflexivity. Qed.

End Sha2.
