(* ===== verification/PacketBuffer.v ===== *)
(** * Circular buffer of packets (src/dtls/internal/net/buffer.go)

    [PacketBuffer] keeps packets with their address in a ring of slots that
    grows when it is full.  The ring keeps all packets in order, and refines a
    FIFO queue as long as no empty packet is written; an empty packet at the head
    is reported as io.EOF and never removed. *)
From stdpp Require Import base tactics numbers list.
From Stdlib Require Import ZArith Lia.
From S2P Require Import Prelude.
Open Scope Z_scope.

Module PacketBuffer.

Abbreviation addr := (list Z).

Inductive error := ErrTimeout | ErrShortBuffer | EOF | ErrClosedPipe.

(** AddrPacket; the unread bytes of its bytes.Buffer. *)
Record AddrPacket := Packet { pk_addr : addr; pk_data : list Z }.

Record buffer := Buffer {
  packets : list AddrPacket;
  b_write : nat;
  b_read : nat;
  full : bool;
  notify : bool;          (* a reader waits on the notify channel *)
  closed : bool
}.

Definition zero_packet : AddrPacket := Packet [] [].

Definition NewPacketBuffer : buffer := Buffer [zero_packet] 0 0 false false false.

(** [copy(dst, src)] on slices of slots. *)
Definition copy {A} (dst src : list A) : list A := take (length dst) src ++ drop (length src) dst.

(** The growth step of [WriteTo]. *)
Definition grow (b : buffer) : buffer :=
  let size := length (packets b) in
  let newSize := (if (size <? 128)%nat then size * 2 else 5 * size / 4)%nat in
  let newBuf := replicate newSize zero_packet in
  if (b_read b <? b_write b)%nat then
    let src := take (b_write b - b_read b) (drop (b_read b) (packets b)) in
    let n := Nat.min newSize (length src) in
    Buffer (copy newBuf src) n 0 false (notify b) (closed b)
  else
    let src1 := drop (b_read b) (packets b) in
    let n1 := Nat.min newSize (length src1) in
    let src2 := take (b_write b) (packets b) in
    let n2 := Nat.min (newSize - n1) (length src2) in
    let buf1 := copy newBuf src1 in
    Buffer (take n1 buf1 ++ copy (drop n1 buf1) src2) (n1 + n2) 0 false (notify b) (closed b).

(** [WriteTo]: the number of bytes written and the buffer; the flag tells
    whether a waiting reader is woken. *)
Definition WriteTo (pkt : list Z) (a : addr) (b : buffer) : res error (Z * bool * buffer) :=
  if closed b then Err ErrClosedPipe else
  let wake := notify b in
  let b := Buffer (packets b) (b_write b) (b_read b) (full b) false (closed b) in
  let b := if full b then grow b else b in
  if (b_write b <? length (packets b))%nat then
    let ps := <[b_write b := Packet a pkt]> (packets b) in
    let w := S (b_write b) in
    let w := if (length ps =? w)%nat then 0%nat else w in
    let f := if (w =? b_read b)%nat then true else full b in
    Ok (len pkt, wake, Buffer ps w (b_read b) f (notify b) (closed b))
  else Panic.

(** [Read] of a bytes.Buffer that holds [data] into a slice of [n] bytes: an
    empty buffer gives io.EOF unless the slice is empty, too. *)
Definition Buffer_Read (data : list Z) (n : nat) : res error (list Z) :=
  match data with
  | [] => if (n =? 0)%nat then Ok [] else Err EOF
  | _ => Ok (take n data)
  end.

(** One round of the loop of [ReadFrom]: a result, or a wait for a write. *)
Inductive round := Done (data : list Z) (a : addr) | Wait.

Definition ReadFrom (deadline : bool) (n : nat) (b : buffer) : res error (round * buffer) :=
  if deadline then Err ErrTimeout else
  if negb (b_read b =? b_write b)%nat || full b then
    match packets b !! b_read b with
    | None => Panic
    | Some ap =>
        if (n <? length (pk_data ap))%nat then Err ErrShortBuffer else
        data ← Buffer_Read (pk_data ap) n;
        let r := S (b_read b) in
        let r := if (length (packets b) =? r)%nat then 0%nat else r in
        Ok (Done data (pk_addr ap), Buffer (packets b) (b_write b) r false (notify b) (closed b))
    end
  else if closed b then Err EOF
  else Ok (Wait, Buffer (packets b) (b_write b) (b_read b) (full b) true (closed b)).

(** [Close], with the flag of a woken reader. *)
Definition Close (b : buffer) : bool * buffer :=
  if closed b then (false, b) else
  (notify b, Buffer (packets b) (b_write b) (b_read b) (full b) false true).

(** ** Abstract specification: a FIFO queue *)

Record queue := Queue { q_packets : list AddrPacket; q_closed : bool }.

Definition spec_WriteTo (pkt : list Z) (a : addr) (q : queue) : res error (Z * queue) :=
  if q_closed q then Err ErrClosedPipe
  else Ok (len pkt, Queue (q_packets q ++ [Packet a pkt]) false).

Definition spec_ReadFrom (deadline : bool) (n : nat) (q : queue) : res error (round * queue) :=
  if deadline then Err ErrTimeout else
  match q_packets q with
  | [] => if q_closed q then Err EOF else Ok (Wait, q)
  | p :: ps =>
      if (n <? length (pk_data p))%nat then Err ErrShortBuffer
      else Ok (Done (pk_data p) (pk_addr p), Queue ps (q_closed q))
  end.

(** The packets of the ring from the read to the write pointer. *)
Definition contents (b : buffer) : list AddrPacket :=
  if full b then drop (b_read b) (packets b) ++ take (b_read b) (packets b)
  else if (b_read b <=? b_write b)%nat then take (b_write b - b_read b) (drop (b_read b) (packets b))
  else drop (b_read b) (packets b) ++ take (b_write b) (packets b).

Definition abs (b : buffer) : queue := Queue (contents b) (closed b).

Record ring_ok (b : buffer) : Prop := {
  ro_write : (b_write b < length (packets b))%nat;
  ro_read : (b_read b < length (packets b))%nat;
  ro_full : full b = true → b_read b = b_write b
}.

(** ** Operations in sequence *)

Inductive op :=
  | OWrite (pkt : list Z) (a : addr)
  | ORead (deadline : bool) (n : nat)
  | OClose.

Inductive outcome :=
  | Wrote (n : Z)
  | Returned (r : round)
  | Failed (e : error)
  | Closed.

Definition exec (o : op) (b : buffer) : res Empty_set (outcome * buffer) :=
  match o with
  | OWrite pkt a =>
      match WriteTo pkt a b with
      | Ok (n, _, b') => Ok (Wrote n, b')
      | Err e => Ok (Failed e, b)
      | Panic => Panic
      end
  | ORead d n =>
      match ReadFrom d n b with
      | Ok (r, b') => Ok (Returned r, b')
      | Err e => Ok (Failed e, b)
      | Panic => Panic
      end
  | OClose => Ok (Closed, (Close b).2)
  end.

Definition spec_exec (o : op) (q : queue) : outcome * queue :=
  match o with
  | OWrite pkt a =>
      match spec_WriteTo pkt a q with
      | Ok (n, q') => (Wrote n, q')
      | Err e => (Failed e, q)
      | Panic => (Closed, q)
      end
  | ORead d n =>
      match spec_ReadFrom d n q with
      | Ok (r, q') => (Returned r, q')
      | Err e => (Failed e, q)
      | Panic => (Closed, q)
      end
  | OClose => (Closed, Queue (q_packets q) true)
  end.

Fixpoint execs (os : list op) (b : buffer) : res Empty_set (list outcome * buffer) :=
  match os with
  | [] => Ok ([], b)
  | o :: os =>
      '(r, b) ← exec o b;
      '(rs, b) ← execs os b;
      Ok (r :: rs, b)
  end.

Fixpoint spec_execs (os : list op) (q : queue) : list outcome * queue :=
  match os with
  | [] => ([], q)
  | o :: os =>
      let '(r, q) := spec_exec o q in
      let '(rs, q) := spec_execs os q in
      (r :: rs, q)
  end.

(** ** Lemmas on the ring *)

Lemma copy_fits {A} (dst src : list A) : (length src ≤ length dst)%nat →
  copy dst src = src ++ drop (length src) dst.
Proof. intros H. unfold copy. by rewrite take_ge. Qed.

Lemma grow_ok b : ring_ok b → full b = true →
  ring_ok (grow b) ∧ contents (grow b) = contents b ∧ full (grow b) = false ∧
  b_read (grow b) = 0%nat ∧ b_write (grow b) = length (packets b) ∧
  (length (packets b) < length (packets (grow b)))%nat ∧
  notify (grow b) = notify b ∧ closed (grow b) = closed b.
Proof.
  intros [Hw Hr Hf] E. specialize (Hf E).
  set (size := length (packets b)) in *.
  set (newSize := (if (size <? 128)%nat then size * 2 else 5 * size / 4)%nat).
  assert (size < newSize)%nat as Hns.
  { unfold newSize. destruct (Nat.ltb_spec size 128); [lia|].
    assert (size + 1 ≤ 5 * size / 4)%nat; [|lia]. apply Nat.div_le_lower_bound; lia. }
  assert (grow b = Buffer (contents b ++ drop size (replicate newSize zero_packet)) size 0 false
    (notify b) (closed b)) as ->.
  { unfold grow, contents. fold size. fold newSize. rewrite E, Hf.
    destruct (Nat.ltb_spec (b_write b) (b_write b)); [lia|].
    set (src1 := drop (b_write b) (packets b)). set (src2 := take (b_write b) (packets b)).
    assert (length src1 = size - b_write b)%nat as L1 by (unfold src1; by rewrite length_drop).
    assert (length src2 = b_write b) as L2 by (unfold src2; rewrite length_take; fold size; lia).
    rewrite (Nat.min_r newSize) by lia. rewrite (Nat.min_r (newSize - _)) by lia.
    rewrite (copy_fits _ src1) by (rewrite length_replicate; lia).
    rewrite take_app_length, drop_app_length.
    rewrite copy_fits by (rewrite length_drop, length_replicate; lia).
    rewrite drop_drop, L1, L2, (assoc_L (++)).
    replace (size - b_write b + b_write b)%nat with size by lia. done. }
  assert (length (contents b) = size) as Hlc.
  { unfold contents. rewrite E, length_app, length_drop, length_take. fold size. lia. }
  cbn. split_and!; try done.
  - split; cbn; [..|done]; rewrite length_app, Hlc, length_drop, length_replicate; lia.
  - change (take (size - 0) (drop 0 (contents b ++ drop size (replicate newSize zero_packet))) = contents b).
    by rewrite Nat.sub_0_r, drop_0, take_app_le, take_ge by lia.
  - rewrite length_app, Hlc, length_drop, length_replicate. lia.
Qed.

(** A write into a ring that is not full, between the pointers. *)
Lemma write_slot b p : ring_ok b → full b = false →
  let ps := <[b_write b := p]> (packets b) in
  let w := if (length ps =? S (b_write b))%nat then 0%nat else S (b_write b) in
  let b' := Buffer ps w (b_read b) (if (w =? b_read b)%nat then true else full b) (notify b) (closed b) in
  ring_ok b' ∧ contents b' = contents b ++ [p].
Proof.
  intros [Hw Hr Hf] E. cbv zeta. rewrite length_insert, E.
  set (size := length (packets b)) in *.
  assert (∀ k, (k ≤ b_write b)%nat → take k (<[b_write b:=p]> (packets b)) = take k (packets b)) as Ht.
  { intros k Hk. by apply take_insert_ge. }
  assert (take (S (b_write b)) (<[b_write b:=p]> (packets b)) = take (b_write b) (packets b) ++ [p]) as HtS.
  { rewrite (take_S_r _ _ p) by (by apply list_lookup_insert_eq). by rewrite Ht. }
  assert (b_read b ≤ b_write b → (b_write b < size)%nat →
    take (S (b_write b) - b_read b) (drop (b_read b) (<[b_write b:=p]> (packets b)))
    = take (b_write b - b_read b) (drop (b_read b) (packets b)) ++ [p])%nat as Hmid.
  { intros Hle _. rewrite !take_drop_commute. replace (b_read b + (S (b_write b) - b_read b))%nat
      with (S (b_write b)) by lia. rewrite HtS, drop_app_le by (rewrite length_take; fold size; lia).
    do 3 f_equal. lia. }
  unfold contents at 2. rewrite E.
  destruct (Nat.eqb_spec size (S (b_write b))) as [Hwrap|Hnw].
  - destruct (Nat.eqb_spec 0 (b_read b)) as [Hr0|Hr0].
    + split; [split; cbn; rewrite ?length_insert; fold size; lia|]. unfold contents. cbn.
      rewrite <- Hr0, drop_0, take_0, app_nil_r. cbn [Nat.leb]. rewrite Nat.sub_0_r, drop_0, <- HtS.
      symmetry. apply take_ge. rewrite length_insert. fold size. lia.
    + split; [split; cbn; rewrite ?length_insert; fold size; try lia; done|]. unfold contents. cbn.
      destruct (Nat.leb_spec (b_read b) 0); [lia|]. rewrite take_0, app_nil_r.
      destruct (Nat.leb_spec (b_read b) (b_write b)); [|lia]. rewrite <- Hmid by lia.
      symmetry. apply take_ge. rewrite length_drop, length_insert. fold size. lia.
  - destruct (Nat.eqb_spec (S (b_write b)) (b_read b)) as [Hfull|Hnf].
    + split; [split; cbn; rewrite ?length_insert; fold size; lia|]. unfold contents. cbn.
      destruct (Nat.leb_spec (b_read b) (b_write b)); [lia|]. rewrite <- Hfull, HtS, (assoc_L (++)).
      f_equal. f_equal. rewrite drop_insert_lt by lia. done.
    + split; [split; cbn; rewrite ?length_insert; fold size; try lia; done|]. unfold contents. cbn [full b_read b_write packets].
      destruct (Nat.leb_spec (b_read b) (S (b_write b))), (Nat.leb_spec (b_read b) (b_write b)); try lia.
      * apply Hmid; lia.
      * rewrite drop_insert_lt, HtS by lia. by rewrite (assoc_L (++)).
Qed.

Lemma contents_nil b : ring_ok b →
  (negb (b_read b =? b_write b)%nat || full b) = false ↔ contents b = [].
Proof.
  intros [Hw Hr Hf]. unfold contents. destruct (full b) eqn:E.
  - rewrite orb_true_r. split; [done|]. intros H%(f_equal length).
    rewrite length_app, length_drop, length_take in H. cbn in H. lia.
  - rewrite orb_false_r, negb_false_iff, Nat.eqb_eq.
    destruct (Nat.leb_spec (b_read b) (b_write b)).
    + split; [intros ->; by rewrite Nat.sub_diag, take_0|]. intros H'%(f_equal length).
      rewrite length_take, length_drop in H'. cbn in H'. lia.
    + split; [lia|]. intros H'%(f_equal length). rewrite length_app, length_drop in H'. cbn in H'. lia.
Qed.

(** A read advances past the head of the queue. *)
Lemma read_slot b p ps : ring_ok b → contents b = p :: ps →
  packets b !! b_read b = Some p ∧
  let r := if (length (packets b) =? S (b_read b))%nat then 0%nat else S (b_read b) in
  let b' := Buffer (packets b) (b_write b) r false (notify b) (closed b) in
  ring_ok b' ∧ contents b' = ps.
Proof.
  intros [Hw Hr Hf] Hc. set (size := length (packets b)) in *. cbv zeta.
  destruct (lookup_lt_is_Some_2 (packets b) (b_read b) Hr) as [p' Hp].
  pose proof (drop_S _ _ _ Hp) as Hd. unfold contents in Hc. rewrite Hd in Hc.
  assert (size = S (b_read b) → drop (S (b_read b)) (packets b) = []) as Hend
    by (intros; apply drop_ge; fold size; lia).
  destruct (full b) eqn:E; [|destruct (Nat.leb_spec (b_read b) (b_write b)) as [Hle|Hgt]].
  - injection Hc as -> <-. specialize (Hf eq_refl). split; [done|].
    destruct (Nat.eqb_spec size (S (b_read b))) as [Hs|Hs]; (split; [split; cbn; fold size; done || lia|]);
      unfold contents; cbn [full b_read b_write packets]; rewrite <- Hf.
    + cbn [Nat.leb]. rewrite drop_0, Nat.sub_0_r, Hend by done. done.
    + by destruct (Nat.leb_spec (S (b_read b)) (b_read b)); [lia|].
  - destruct (b_write b - b_read b)%nat as [|k] eqn:Ek; [discriminate|]. injection Hc as -> <-.
    split; [done|]. destruct (Nat.eqb_spec size (S (b_read b))) as [Hs|Hs]; [lia|].
    split; [split; cbn; fold size; done || lia|]. unfold contents.
    cbn [full b_read b_write packets]. destruct (Nat.leb_spec (S (b_read b)) (b_write b)); [|lia].
    f_equal. lia.
  - injection Hc as -> <-. split; [done|].
    destruct (Nat.eqb_spec size (S (b_read b))) as [Hs|Hs]; (split; [split; cbn; fold size; done || lia|]);
      unfold contents; cbn [full b_read b_write packets].
    + cbn [Nat.leb]. rewrite Hend, drop_0, Nat.sub_0_r by done. done.
    + by destruct (Nat.leb_spec (S (b_read b)) (b_write b)); [lia|].
Qed.

Lemma WriteTo_refines pkt a b : ring_ok b →
  match WriteTo pkt a b with
  | Ok (n, _, b') => ring_ok b' ∧ spec_WriteTo pkt a (abs b) = Ok (n, abs b')
  | Err e => spec_WriteTo pkt a (abs b) = Err e
  | Panic => False
  end.
Proof.
  intros Hok. unfold WriteTo, spec_WriteTo. cbn [q_closed abs].
  destruct (closed b) eqn:Ec; [done|]. cbn [full].
  set (b0 := Buffer (packets b) (b_write b) (b_read b) (full b) false false).
  assert (ring_ok b0) as Hok0 by (by destruct Hok; split).
  set (b1 := if full b then grow b0 else b0).
  assert (ring_ok b1 ∧ full b1 = false ∧ contents b1 = contents b ∧ closed b1 = false)
    as (Hok1 & Hf1 & Hc1 & Hcl1).
  { unfold b1. destruct (full b) eqn:Ef; [|by unfold contents, b0; cbn; rewrite ?Ef].
    destruct (grow_ok b0 Hok0) as (? & -> & ? & _ & _ & _ & _ & ->); [done|].
    split_and!; try done. by unfold contents, b0; cbn; rewrite ?Ef. }
  pose proof (ro_write _ Hok1) as Hw. destruct (Nat.ltb_spec (b_write b1) (length (packets b1))); [|lia].
  destruct (write_slot b1 (Packet a pkt) Hok1 Hf1) as [Hok' Hc'].
  split; [done|]. unfold abs. cbn [closed q_packets]. rewrite Hc', Hc1, Hcl1. done.
Qed.

(** A read that is blocked by an empty packet. *)
Definition blocked (n : nat) (q : queue) : Prop := n ≠ 0%nat ∧ ∃ a ps, q_packets q = Packet a [] :: ps.

Lemma ReadFrom_refines d n b : ring_ok b →
  match ReadFrom d n b with
  | Ok (r, b') => ring_ok b' ∧ spec_ReadFrom d n (abs b) = Ok (r, abs b') ∧ ¬ blocked n (abs b)
  | Err e => spec_ReadFrom d n (abs b) = Err e ∨ (e = EOF ∧ blocked n (abs b))
  | Panic => False
  end.
Proof.
  intros Hok. unfold ReadFrom, spec_ReadFrom, blocked. destruct d; [by left|]. cbn [q_packets q_closed abs].
  destruct (negb _ || full b) eqn:Et.
  - destruct (contents b) as [|[a data] ps] eqn:Ec.
    { apply contents_nil in Ec; [|done]. congruence. }
    destruct (read_slot b _ ps Hok Ec) as (-> & Hok' & Hc'). cbn [pk_data pk_addr].
    destruct (Nat.ltb_spec n (length data)); [by left|]. unfold Buffer_Read. destruct data as [|x data].
    + destruct (Nat.eqb_spec n 0) as [->|Hn]; cbn [mbind res_bind]; [|right; split; [done|]; eauto].
      split_and!; [done| |by intros [? _]]. unfold abs. by rewrite Hc'.
    + cbn [mbind res_bind]. split_and!; [done| |by intros (_ & a' & ps' & [=])]. unfold abs. rewrite Hc'. by rewrite take_ge by (cbn in *; lia).
  - apply contents_nil in Et; [|done]. rewrite Et. destruct (closed b) eqn:Ecl; [by left|].
    split_and!; [by destruct Hok; split| |by intros (_ & a & ps & [=])]. do 2 f_equal. unfold abs. by rewrite Ecl.
Qed.

(** What an operation writes, and what it delivers. *)
Definition accepted (o : op) (r : outcome) : list AddrPacket :=
  match o, r with OWrite pkt a, Wrote _ => [Packet a pkt] | _, _ => [] end.
Definition delivered (r : outcome) : list AddrPacket :=
  match r with Returned (Done data a) => [Packet a data] | _ => [] end.

Definition nonempty_write (o : op) : Prop := match o with OWrite pkt _ => pkt ≠ [] | _ => True end.
Definition nonempty (p : AddrPacket) : Prop := pk_data p ≠ [].

(** An operation is that of the queue, unless an empty packet is at the head. *)
Definition as_queue (o : op) (q : queue) (r : outcome) (q' : queue) : Prop :=
  spec_exec o q = (r, q') ∨ ∃ n, o = ORead false n ∧ blocked n q ∧ r = Failed EOF ∧ q' = q.

Lemma exec_refines o b : ring_ok b →
  ∃ r b', exec o b = Ok (r, b') ∧ ring_ok b' ∧ as_queue o (abs b) r (abs b').
Proof.
  intros Hok. unfold as_queue. destruct o as [pkt a|d n|]; cbn [exec spec_exec].
  - pose proof (WriteTo_refines pkt a b Hok) as H. destruct (WriteTo pkt a b) as [[[n w] b']|e|]; [..|done].
    + destruct H as [? ->]. eauto 6.
    + rewrite H. eauto 6.
  - pose proof (ReadFrom_refines d n b Hok) as H. destruct (ReadFrom d n b) as [[r b']|e|] eqn:E; [..|done].
    + destruct H as (? & -> & _). eauto 6.
    + destruct H as [-> |[-> Hb]]; [eauto 6|]. destruct d; [unfold ReadFrom in E; by injection E as [=]|]. eexists _, _. split; [done|]. split; [done|]. right. eauto.
  - eexists _, _; split; [done|]. unfold Close. destruct (closed b) eqn:Ec.
    + split; [done|]. left. cbn. unfold abs. cbn. by rewrite Ec.
    + split; [by destruct Hok; split|by left].
Qed.

Lemma as_queue_order o q r q' : as_queue o q r q' → q_packets q ++ accepted o r = delivered r ++ q_packets q'.
Proof.
  intros [E|(n & -> & _ & -> & ->)]; [|by rewrite app_nil_r]. destruct o as [pkt a|d n|]; cbn [spec_exec] in E.
  - unfold spec_WriteTo in E. destruct (q_closed q); injection E as <- <-; cbn; by rewrite ?app_nil_r.
  - unfold spec_ReadFrom in E. destruct d; [injection E as <- <-; cbn; by rewrite app_nil_r|]. destruct (q_packets q) as [|[a data] ps] eqn:Eq.
    + destruct (q_closed q); injection E as <- <-; cbn; by rewrite ?Eq.
    + cbn [pk_data pk_addr] in E. destruct (n <? length data)%nat; injection E as <- <-; cbn; by rewrite ?Eq, app_nil_r.
  - injection E as <- <-. cbn. by rewrite app_nil_r.
Qed.

Lemma as_queue_nonempty o q r q' : as_queue o q r q' → nonempty_write o → Forall nonempty (q_packets q) →
  spec_exec o q = (r, q') ∧ Forall nonempty (q_packets q').
Proof.
  intros Hq Ho Hf. assert (spec_exec o q = (r, q')) as E.
  { destruct Hq as [E|(n & -> & (_ & a & ps & Hb) & _)]; [done|]. rewrite Hb in Hf. by apply Forall_cons in Hf as [[] _]. }
  split; [done|]. pose proof (as_queue_order o q r q' Hq) as Ho'. assert (Forall nonempty (delivered r ++ q_packets q')) as H'.
  { rewrite <- Ho'. apply Forall_app. split; [done|]. destruct o, r; cbn; repeat constructor. exact Ho. }
  by apply Forall_app in H' as [_ ?].
Qed.

Lemma NewPacketBuffer_ok : ring_ok NewPacketBuffer ∧ abs NewPacketBuffer = Queue [] false.
Proof. split; [|done]. split; cbn; [lia|lia|done]. Qed.

(** The packets that were accepted and delivered in a sequence of operations. *)
Definition all_accepted (os : list op) (rs : list outcome) : list AddrPacket := concat (zip_with accepted os rs).
Definition all_delivered (rs : list outcome) : list AddrPacket := concat (map delivered rs).

Lemma execs_refine os : ∀ b, ring_ok b →
  ∃ rs b', execs os b = Ok (rs, b') ∧ ring_ok b' ∧ contents b ++ all_accepted os rs = all_delivered rs ++ contents b' ∧
    (Forall nonempty_write os → Forall nonempty (contents b) → spec_execs os (abs b) = (rs, abs b')).
Proof.
  induction os as [|o os IH]; intros b Hok; [exists [], b; split_and!; try done; cbn; by rewrite app_nil_r|].
  destruct (exec_refines o b Hok) as (r & b1 & He & Hok1 & Hs). pose proof (as_queue_order _ _ _ _ Hs) as Hord.
  destruct (IH b1 Hok1) as (rs & b2 & Hes & Hok2 & Hc & Hss). exists (r :: rs), b2. split_and!; [|done|..].
  - cbn [execs]. rewrite He. cbn [mbind res_bind]. by rewrite Hes.
  - unfold all_accepted, all_delivered in *. cbn [zip_with concat map] in *. cbn [q_packets abs] in Hord. by rewrite (assoc_L (++)), Hord, <- (assoc_L (++)), Hc, (assoc_L (++)).
  - intros [Ho Hos]%Forall_cons Hb. destruct (as_queue_nonempty _ _ _ _ Hs Ho Hb) as [E Hb1]. cbn [spec_execs]. rewrite E. cbn [abs q_packets] in Hb1. by rewrite (Hss Hos Hb1).
Qed.

(** ** Properties *)

(** C33: the ring buffer is a FIFO queue.  Every sequence of [WriteTo],
    [ReadFrom] and [Close] on a new PacketBuffer runs without an index out of
    range, also across wrap-around of the pointers and growth of the ring; the
    packets that were read, followed by those in the buffer, are the packets that
    were written, in order, complete and with their addresses.  If no packet that
    is written is empty, every operation returns what a queue returns: the packet
    at the head, io.ErrShortBuffer without losing the packet, io.EOF once it is
    closed and drained, io.ErrClosedPipe for a write after [Close]. *)
Theorem PacketBuffer_refines_queue (os : list op) :
  ∃ rs b, execs os NewPacketBuffer = Ok (rs, b) ∧ ring_ok b ∧
    all_delivered rs ++ contents b = all_accepted os rs ∧
    (Forall nonempty_write os → spec_execs os (Queue [] false) = (rs, abs b)).
Proof.
  destruct NewPacketBuffer_ok as [Hok E]. destruct (execs_refine os NewPacketBuffer Hok) as (rs & b & He & Hok' & Hc & Hs).
  exists rs, b. rewrite E in Hs. split_and!; [done..|]. intros Hw. by apply Hs.
Qed.

(** An empty packet at the head of the queue is never removed. *)
Lemma wedged os : ∀ b a ps, ring_ok b → contents b = Packet a [] :: ps → (∀ d n, ORead d n ∈ os → n ≠ 0%nat) →
  ∃ rs b', execs os b = Ok (rs, b') ∧ Forall (λ r, ∀ x, r ≠ Returned x) rs.
Proof.
  induction os as [|o os IH]; intros b a ps Hok Hb Hn; [by exists [], b|]. destruct (exec_refines o b Hok) as (r & b1 & He & Hok1 & Hs).
  assert ((∀ x, r ≠ Returned x) ∧ ∃ ps', contents b1 = Packet a [] :: ps') as [Hr [ps' Hb1]].
  { pose proof (as_queue_order _ _ _ _ Hs) as Hord. cbn [abs q_packets] in Hord. rewrite Hb in Hord.
    assert (∀ x, r ≠ Returned x) as Hr.
    { intros x ->. destruct o as [pkt a'|d n|]; cbn [exec] in He; [repeat case_match; by simplify_eq| |done]. pose proof (ReadFrom_refines d n b Hok) as Hx.
      destruct (ReadFrom d n b) as [[r' b']|e|]; simplify_eq. destruct Hx as (_ & _ & []). split; [apply (Hn d); by left|]. cbn. eauto. }
    split; [done|]. destruct r as [| [] | |]; cbn in Hord; try (by rewrite <- Hord; eauto); by destruct (Hr (Done data a0)) || by destruct (Hr Wait). }
  destruct (IH b1 a ps' Hok1 Hb1) as (rs & b2 & Hes & Hf); [intros d n Hin; apply (Hn d); by right|].
  exists (r :: rs), b2. split; [cbn [execs]; rewrite He; cbn [mbind res_bind]; by rewrite Hes|by constructor].
Qed.

(** an empty packet blocks the buffer for ever.  Once a packet of length
    zero has been written to a new buffer (as happens for an empty UDP
    datagram), no later [ReadFrom] with a non-empty slice ever returns a
    packet, whatever is written afterwards: it fails with io.EOF, as if the
    buffer had been closed, or with a timeout. *)
Theorem empty_packet_wedges_buffer (a : addr) (os : list op) :
  (∀ d n, ORead d n ∈ os → n ≠ 0%nat) →
  ∃ r rs b, execs (OWrite [] a :: os) NewPacketBuffer = Ok (r :: rs, b) ∧
    Forall (λ r, ∀ x, r ≠ Returned x) rs.
Proof.
  intros Hn. destruct NewPacketBuffer_ok as [Hok E]. destruct (exec_refines (OWrite [] a) NewPacketBuffer Hok) as (r & b1 & He & Hok1 & _).
  assert (contents b1 = [Packet a []]) as Hb. { cbn in He. by injection He as <- <-. }
  destruct (wedged os b1 a [] Hok1 Hb Hn) as (rs & b & Hes & Hf). exists r, rs, b. split; [|done]. cbn [execs]. rewrite He. cbn [mbind res_bind]. by rewrite Hes.
Qed.

Lemma empty_packet_wedges_buffer_witness :
  ∃ r rs b, execs (OWrite [] [1] :: [OWrite [22;254;253] [1]; ORead false 1500; ORead false 1500])
      NewPacketBuffer = Ok (r :: rs, b) ∧
    Forall (λ r, ∀ x, r ≠ Returned x) rs.
Proof.
  apply empty_packet_wedges_buffer. intros d n Hin.
  repeat (apply elem_of_cons in Hin as [Hin|Hin]; [by simplify_eq|]). inversion Hin.
Defined.

End PacketBuffer.
