(* ===== verification/Wire.v ===== *)
(** * Wire formats of DTLS: errors, integers, cryptobyte

    The errors of src/dtls/internal/errors that the modelled code returns, the
    integer helpers of src/dtls/internal/util, and the interface to
    golang.org/x/crypto/cryptobyte, which is not part of the repository: a
    class with the operations the code calls, and a class with their
    documented behaviour.  All wire formats below are stated for an arbitrary
    implementation that satisfies it; [cryptobyte_model] is one. *)
From stdpp Require Import base tactics numbers list.
From Stdlib Require Import ZArith Lia.
From S2P Require Import Prelude.
Open Scope Z_scope.

(** The error values of src/dtls/internal/errors/errors.go (the aliases
    ErrInvalidNamedCurve, ErrSignatureHashNoAvailableSignatureSchemes, ErrSignatureHashInvalidSignatureAlgorithm, ErrSignatureHashInvalidPrivateKey
    are the values they name), the other errors by their text, and the errors
    of cryptobyte. *)
Inductive dtls_error :=
  | ErrConnClosed
  | ErrDeadlineExceeded
  | ErrInvalidContentType
  | ErrBufferTooSmall
  | ErrContextUnsupported
  | ErrHandshakeInProgress
  | ErrReservedExportKeyingMaterial
  | ErrApplicationDataEpochZero
  | ErrUnhandledContextType
  | ErrCertificateVerifyNoCertificate
  | ErrCipherSuiteNoIntersection
  | ErrClientCertificateNotVerified
  | ErrClientCertificateRequired
  | ErrClientNoMatchingSRTPProfile
  | ErrClientRequiredButNoServerEMS
  | ErrCookieMismatch
  | ErrIdentityNoPSK
  | ErrInvalidCertificate
  | ErrInvalidCipherSuite
  | ErrInvalidClientAuthType
  | ErrInvalidClientHello
  | ErrMissingClientHelloExtension
  | ErrInvalidHelloRetryRequest
  | ErrInvalidECDSASignature
  | ErrInvalidPrivateKey
  | ErrInvalidSignatureAlgorithm
  | ErrInvalidExtendedMasterSecretType
  | ErrInvalidCertificateSignatureAlgorithm
  | ErrKeySignatureMismatch
  | ErrInvalidCertificateOID
  | ErrNilNextConn
  | ErrNoAvailableCipherSuites
  | ErrNoAvailablePSKCipherSuite
  | ErrNoAvailableCertificateCipherSuite
  | ErrNoAvailableSignatureSchemes
  | ErrNoCertificates
  | ErrNoConfigProvided
  | ErrNoSupportedEllipticCurves
  | ErrUnsupportedProtocolVersion
  | ErrNoCommonProtocolVersion
  | ErrInvalidProtocolVersionState
  | ErrInvalidServerHello
  | ErrUnexpectedSecondHelloRetryRequest
  | ErrServerKeyShareMissing
  | ErrServerKeyShareUnknownGroup
  | ErrPSKAndIdentityMustBeSetForClient
  | ErrRequestedButNoSRTPExtension
  | ErrServerNoMatchingSRTPProfile
  | ErrServerRequiredButNoClientEMS
  | ErrVerifyDataMismatch
  | ErrNotAcceptableCertificateChain
  | ErrInvalidFlight
  | ErrFlightUnimplemented13
  | ErrStateUnimplemented13
  | ErrHandshakeTranscriptMissingClientHello
  | ErrKeySignatureGenerateUnimplemented
  | ErrKeySignatureVerifyUnimplemented
  | ErrLengthMismatch
  | ErrSequenceNumberOverflow
  | ErrInvalidFSMTransition
  | ErrFailedToAccessPoolReadBuffer
  | ErrFragmentBufferOverflow
  | ErrCipherSuiteNotSet
  | ErrEmptyCertificates
  | ErrEmptyCipherSuites
  | ErrNilCustomCipherSuites
  | ErrEmptySignatureSchemes
  | ErrEmptyCertificateSignatureSchemes
  | ErrEmptySRTPProtectionProfiles
  | ErrInvalidFlightInterval
  | ErrNilPSKCallback
  | ErrNilVerifyPeerCertificate
  | ErrNilVerifyConnection
  | ErrInvalidMTU
  | ErrInvalidReplayProtectionWindow
  | ErrEmptySupportedProtocols
  | ErrEmptyEllipticCurves
  | ErrUnsupportedEllipticCurveVersion
  | ErrNilGetClientCertificate
  | ErrNilConnectionIDGenerator
  | ErrNilPaddingLengthGenerator
  | ErrNilHelloRandomBytesGenerator
  | ErrNilClientHelloMessageHook
  | ErrNilGetCertificate
  | ErrNilServerHelloMessageHook
  | ErrNilCertificateRequestMessageHook
  | ErrNilOnConnectionAttempt
  | ErrInvalidHandshakeTranscriptMessage
  | ErrHandshakeTranscriptHashNotSelected
  | ErrHandshakeTranscriptHashAlreadySelected
  | ErrHandshakeTranscriptMessageChanged
  | ErrHandshakeTranscriptHelloRetryRequestInvalid
  | ErrInvalidCipherSpec
  | ErrInvalidACK
  | ErrALPNInvalidFormat
  | ErrALPNNoAppProto
  | ErrInvalidExtensionType
  | ErrInvalidSNIFormat
  | ErrInvalidCIDFormat
  | ErrMasterKeyIdentifierTooLarge
  | ErrUseSRTPDataTooLarge
  | ErrPointFormatsTooLarge
  | ErrPreSharedKeyFormat
  | ErrPskKeyExchangeModesFormat
  | ErrNoPskKeyExchangeMode
  | ErrCookieExtFormat
  | ErrInvalidKeyShareFormat
  | ErrDuplicateKeyShare
  | ErrInvalidSupportedVersionsFormat
  | ErrInvalidDTLSVersion
  | ErrEarlyDataIndicationFormat
  | ErrInvalidCertificateAuthFormat
  | ErrEmptyOIDFilter
  | ErrOIDFiltersFormat
  | ErrDuplicateOID
  | ErrUnableToMarshalFragmented
  | ErrHandshakeMessageUnset
  | ErrInvalidClientKeyExchange
  | ErrInvalidSignHashAlgorithm
  | ErrCookieTooLong
  | ErrSessionIDTooLong
  | ErrCertificateTypesTooLong
  | ErrCompressionMethodsTooLong
  | ErrPublicKeyTooLong
  | ErrInvalidEllipticCurveType
  | ErrInvalidNamedCurveFatal
  | ErrCipherSuiteUnset
  | ErrCompressionMethodUnset
  | ErrInvalidCompressionMethod
  | ErrNotImplemented
  | ErrInvalidCertificateRequestContext
  | ErrInvalidCertificateEntry
  | ErrCertificateRequestContextTooLong
  | ErrCertificateListTooLong
  | ErrInvalidExtensionsLength
  | ErrMissingSignatureAlgorithmsExtension
  | ErrInvalidPacketLength
  | ErrInvalidCiphertextHeader
  | ErrInvalidEpoch
  | ErrCIDTooBig
  | ErrInvalidUnifiedHeaderFormat
  | ErrCipherSuiteNotInit
  | ErrCipherSuiteRecordProtectionNotImplemented
  | ErrNotEnoughRoomForNonce
  | ErrDecryptPacket
  | ErrInvalidMAC
  | ErrFailedToCast
  | ErrCCMInvalidBlockSize
  | ErrCCMInvalidTagSize
  | ErrCCMInvalidNonceSize
  | ErrCCMPlaintextTooLong
  | ErrCCMOpen
  | ErrCCMCiphertextTooShort
  | ErrCCMCiphertextTooLong
  | ErrFingerprintHashUnavailable
  | ErrFingerprintInvalidLength
  | ErrFingerprintInvalidHashAlgorithm
  | ErrKeyScheduleMissingHashFunction
  | ErrKeyScheduleLabelTooSmall
  | ErrKeyScheduleLabelTooBig
  | ErrKeyScheduleContextTooBig
  | ErrKeyScheduleLengthTooBig
  | ErrSelfSignInvalidPrivateKey
  | ErrSignatureHashInvalidHashAlgorithm
  | ErrNetBufferTimeout
  | ErrUDPClosedListener
  | ErrUDPListenQueueExceeded
  | ErrUDPListenPacketNotUDPConn
  | ErrOther (s : gostring)
  | ErrAlert (level description : Z)
  | ErrCryptobyte.

(** A failed check returns an error. *)
Definition guard (b : bool) (e : dtls_error) : res dtls_error unit :=
  if b then Ok tt else Err e.

(** A boolean result with an out parameter: [if !s.Read(...) { return e }]. *)
Definition or_err {A} (o : option A) (e : dtls_error) : res dtls_error A :=
  match o with
  | Some a => Ok a
  | None => Err e
  end.

(** [util.BigEndianUint24]: zero when there are not enough bytes. *)
Definition BigEndianUint24 (raw : list Z) : Z :=
  if len raw <? 3 then 0 else be_get (take 3 raw).

(** [for !s.Empty() { body }]: the body works on a value [acc] and takes bytes
    off [s]; running out of fuel is a panic, so that showing the absence of
    panics shows that the loop ends. *)
Fixpoint for_loop {A} (fuel : nat) (body : A → list Z → res dtls_error (A * list Z)) (acc : A) (s : list Z)
    : res dtls_error A :=
  match s, fuel with
  | [], _ => Ok acc
  | _, O => Panic
  | _, S fuel => '(acc, s) ← body acc s; for_loop fuel body acc s
  end.

Definition for_nonempty {A} (body : A → list Z → res dtls_error (A * list Z)) (acc : A) (s : list Z) : res dtls_error A :=
  for_loop (length s) body acc s.

Definition nonempty (s : list Z) : bool := negb (len s =? 0).

(** ** cryptobyte *)

(** The operations the code uses.  [ReadUint n] stands for ReadUint8 to
    ReadUint64 with [n] bytes, [ReadPrefixed n] for ReadUint8LengthPrefixed
    and so on; [None] is the result false, the string is then not used any
    more.  In the same way [AddUint n] and [AddPrefixed n] of the builder. *)
Class Cryptobyte := {
  ReadUint : nat → list Z → option (Z * list Z);
  ReadBytes : list Z → Z → option (list Z * list Z);
  ReadPrefixed : nat → list Z → option (list Z * list Z);
  Builder : Type;
  NewBuilder : Builder;
  AddUint : nat → Builder → Z → Builder;
  AddBytes : Builder → list Z → Builder;
  AddPrefixed : nat → Builder → (Builder → Builder) → Builder;
  SetError : Builder → dtls_error → Builder;
  Bytes : Builder → res dtls_error (list Z)
}.

(** Their documented behaviour. *)
Class CryptobyteLaws `{Cryptobyte} := {
  ReadUint_spec n s : ReadUint n s =
    if (n <=? length s)%nat then Some (be_get (take n s), drop n s) else None;
  ReadBytes_spec s n : ReadBytes s n =
    if (0 <=? n) && (n <=? len s) then Some (sub 0 n s, sub n (len s) s) else None;
  ReadPrefixed_spec n s : ReadPrefixed n s =
    if (n <=? length s)%nat then
      let k := be_get (take n s) in
      let r := drop n s in
      if k <=? len r then Some (sub 0 k r, sub k (len r) r) else None
    else None;
  Bytes_New : Bytes NewBuilder = Ok [];
  Bytes_AddUint n b v : Bytes (AddUint n b v) = (r ← Bytes b; Ok (r ++ be_put n v));
  Bytes_AddBytes b l : Bytes (AddBytes b l) = (r ← Bytes b; Ok (r ++ l));
  Bytes_AddPrefixed n b f : Bytes (AddPrefixed n b f) =
    (r ← Bytes b; c ← Bytes (f NewBuilder);
     if len c <? 2 ^ (8 * Z.of_nat n) then Ok (r ++ be_put n (len c) ++ c) else Err ErrCryptobyte);
  Bytes_SetError b e : Bytes (SetError b e) = Err e
}.

(** An implementation: strings as above, a builder is its result. *)
#[export] Instance cryptobyte_model : Cryptobyte := {
  ReadUint n s := if (n <=? length s)%nat then Some (be_get (take n s), drop n s) else None;
  ReadBytes s n := if (0 <=? n) && (n <=? len s) then Some (sub 0 n s, sub n (len s) s) else None;
  ReadPrefixed n s :=
    if (n <=? length s)%nat then
      let k := be_get (take n s) in
      let r := drop n s in
      if k <=? len r then Some (sub 0 k r, sub k (len r) r) else None
    else None;
  Builder := res dtls_error (list Z);
  NewBuilder := Ok [];
  AddUint n b v := r ← b; Ok (r ++ be_put n v);
  AddBytes b l := r ← b; Ok (r ++ l);
  AddPrefixed n b f :=
    r ← b; c ← f (Ok []);
    if len c <? 2 ^ (8 * Z.of_nat n) then Ok (r ++ be_put n (len c) ++ c) else Err ErrCryptobyte;
  SetError b e := Err e;
  Bytes b := b
}.

#[export] Instance cryptobyte_model_laws : CryptobyteLaws.
Proof. by split. Qed.

(** ** Loops *)

Lemma for_loop_step {A} fuel (body : A → list Z → res dtls_error (A * list Z)) acc s : s ≠ [] →
  for_loop (S fuel) body acc s = ('(acc, s) ← body acc s; for_loop fuel body acc s).
Proof. by destruct s. Qed.

Lemma for_loop_safe {A} fuel (body : A → list Z → res dtls_error (A * list Z)) (P : A → Prop) acc s :
  (length s ≤ fuel)%nat → P acc → bytes_ok s →
  (∀ acc s, P acc → bytes_ok s → s ≠ [] → safe (body acc s) (λ '(a, r), P a ∧ bytes_ok r ∧ (length r < length s)%nat)) →
  safe (for_loop fuel body acc s) P.
Proof.
  intros Hf HP Hs Hbody. revert acc s Hf HP Hs.
  induction fuel as [|fuel IH]; intros acc s Hf HP Hs; [destruct s; [done|cbn in Hf; lia]|].
  destruct s as [|x s]; [done|]. rewrite for_loop_step by done.
  eapply safe_bind, safe_mono; [by apply Hbody|]. intros [a r] (Ha & Hr & Hl). apply IH; [cbn in *; lia|done|done].
Qed.

Lemma for_nonempty_safe {A} (body : A → list Z → res dtls_error (A * list Z)) (P : A → Prop) acc s :
  P acc → bytes_ok s →
  (∀ acc s, P acc → bytes_ok s → s ≠ [] → safe (body acc s) (λ '(a, r), P a ∧ bytes_ok r ∧ (length r < length s)%nat)) →
  safe (for_nonempty body acc s) P.
Proof. by apply for_loop_safe. Qed.

(** A loop that reads back the elements of a list. *)
Lemma for_loop_list {A B} fuel (body : A → list Z → res dtls_error (A * list Z)) (enc : B → list Z)
    (add : A → B → A) (l : list B) acc :
  (length (concat (enc <$> l)) ≤ fuel)%nat →
  (∀ pre b post, l = pre ++ b :: post → enc b ≠ [] ∧
    ∀ rest, body (foldl add acc pre) (enc b ++ rest) = Ok (add (foldl add acc pre) b, rest)) →
  for_loop fuel body acc (concat (enc <$> l)) = Ok (foldl add acc l).
Proof.
  revert acc fuel. induction l as [|b l IH]; intros acc fuel Hf Hbody; [by destruct fuel|].
  destruct (Hbody [] b l eq_refl) as [Hne Hb]. rewrite fmap_cons in *. cbn [concat foldl] in *.
  rewrite length_app in Hf. assert (1 ≤ length (enc b))%nat by (destruct (enc b); [done|cbn; lia]).
  destruct fuel as [|fuel]; [lia|].
  rewrite for_loop_step by (destruct (enc b); done). rewrite Hb. cbn [mbind res_bind]. apply IH; [lia|].
  intros pre c post ->. apply (Hbody (b :: pre) c post eq_refl).
Qed.

Lemma for_nonempty_list {A B} (body : A → list Z → res dtls_error (A * list Z)) (enc : B → list Z)
    (add : A → B → A) (l : list B) acc :
  (∀ pre b post, l = pre ++ b :: post → enc b ≠ [] ∧
    ∀ rest, body (foldl add acc pre) (enc b ++ rest) = Ok (add (foldl add acc pre) b, rest)) →
  for_nonempty body acc (concat (enc <$> l)) = Ok (foldl add acc l).
Proof. by apply for_loop_list. Qed.

(** ** Lemmas: reading what was written *)

Lemma pow2_bytes n : 0 < 2 ^ (8 * Z.of_nat n).
Proof. apply Z.pow_pos_nonneg; lia. Qed.

Section reading.
Context `{CryptobyteLaws}.

Lemma ReadUint_put n v s : 0 ≤ v < 2 ^ (8 * Z.of_nat n) →
  ReadUint n (be_put n v ++ s) = Some (v, s).
Proof.
  intros Hv. rewrite ReadUint_spec, length_app, length_be_put.
  destruct (Nat.leb_spec n (n + length s)); [|lia].
  rewrite take_app_length', drop_app_length' by (by rewrite length_be_put).
  by rewrite be_get_put, Z.mod_small.
Qed.

Lemma ReadUint_1 v s : ReadUint 1 (v :: s) = Some (v, s).
Proof. rewrite ReadUint_spec. cbn. by rewrite drop_0. Qed.

Lemma ReadUint_short n s : (length s < n)%nat → ReadUint n s = None.
Proof. intros Hl. rewrite ReadUint_spec. by destruct (Nat.leb_spec n (length s)); [lia|]. Qed.

Lemma ReadUint_Some n s v r : bytes_ok s → ReadUint n s = Some (v, r) →
  0 ≤ v < 2 ^ (8 * Z.of_nat n) ∧ s = be_put n v ++ r ∧ bytes_ok r.
Proof.
  intros Hs. rewrite ReadUint_spec. destruct (Nat.leb_spec n (length s)); [|done].
  intros [= <- <-]. pose proof (bytes_ok_take n s Hs) as Ht.
  assert (len (take n s) = Z.of_nat n) as Hl by (unfold len; rewrite length_take; lia).
  split; [rewrite <- Hl; by apply be_get_range|]. split; [|by apply bytes_ok_drop].
  pose proof (be_put_get _ Ht) as Hb. rewrite length_take, Nat.min_l in Hb by lia.
  by rewrite Hb, take_drop.
Qed.

Lemma ReadBytes_app l s n : n = len l → ReadBytes (l ++ s) n = Some (l, s).
Proof.
  intros ->. rewrite ReadBytes_spec, len_app.
  pose proof (len_nonneg l). pose proof (len_nonneg s).
  destruct (Z.leb_spec 0 (len l)), (Z.leb_spec (len l) (len l + len s)); try lia. cbn.
  rewrite sub_app_l by done. rewrite sub_app_r by lia.
  rewrite Z.sub_diag. replace (len l + len s - len l) with (len s) by lia. by rewrite sub_full.
Qed.

Lemma ReadPrefixed_put n l s : len l < 2 ^ (8 * Z.of_nat n) →
  ReadPrefixed n (be_put n (len l) ++ l ++ s) = Some (l, s).
Proof.
  intros Hl. rewrite ReadPrefixed_spec, length_app, length_be_put.
  pose proof (len_nonneg l). pose proof (len_nonneg s).
  destruct (Nat.leb_spec n (n + length (l ++ s))); [|lia].
  rewrite take_app_length', drop_app_length' by (by rewrite length_be_put).
  rewrite be_get_put, Z.mod_small by lia. cbv zeta. rewrite len_app.
  destruct (Z.leb_spec (len l) (len l + len s)); [|lia].
  rewrite sub_app_l by done. rewrite sub_app_r by lia.
  rewrite Z.sub_diag. replace (len l + len s - len l) with (len s) by lia. by rewrite sub_full.
Qed.

Lemma ReadPrefixed_put_nil n l : len l < 2 ^ (8 * Z.of_nat n) →
  ReadPrefixed n (be_put n (len l) ++ l) = Some (l, []).
Proof. intros Hl. rewrite <- (app_nil_r l) at 2. by apply ReadPrefixed_put. Qed.

Lemma ReadPrefixed_Some n s l r : bytes_ok s → ReadPrefixed n s = Some (l, r) →
  len l < 2 ^ (8 * Z.of_nat n) ∧ s = be_put n (len l) ++ l ++ r ∧ bytes_ok l ∧ bytes_ok r.
Proof.
  intros Hs. rewrite ReadPrefixed_spec. destruct (Nat.leb_spec n (length s)); [|done]. cbv zeta.
  pose proof (bytes_ok_take n s Hs) as Ht. pose proof (bytes_ok_drop n s Hs) as Hd.
  assert (len (take n s) = Z.of_nat n) as Hl by (unfold len; rewrite length_take; lia).
  pose proof (be_get_range _ Ht) as Hr. rewrite Hl in Hr.
  destruct (Z.leb_spec (be_get (take n s)) (len (drop n s))) as [Hle|]; [|done]. intros [= <- <-].
  assert (len (sub 0 (be_get (take n s)) (drop n s)) = be_get (take n s)) as Hk
    by (rewrite len_sub by lia; lia).
  rewrite Hk. split_and!; [lia| |by apply bytes_ok_sub..].
  rewrite <- (take_drop n s) at 1. f_equal.
  - pose proof (be_put_get _ Ht) as Hb. by rewrite length_take, Nat.min_l in Hb by lia.
  - unfold sub. rewrite Z.sub_0_r, drop_0. rewrite <- (take_drop (Z.to_nat (be_get (take n s))) (drop n s)) at 1.
    f_equal. symmetry. apply take_ge. rewrite length_drop. unfold len in *. lia.
Qed.
End reading.

(** ** Parsers do not panic *)

Lemma safe_or_err {A B} (o : option A) e (k : A → res dtls_error B) (Q : B → Prop) :
  (∀ a, o = Some a → safe (k a) Q) → safe (a ← or_err o e; k a) Q.
Proof. intros Hk. destruct o as [a|]; cbn; [by apply Hk|done]. Qed.

Lemma safe_guard {B} b e (k : unit → res dtls_error B) (Q : B → Prop) :
  (b = true → safe (k tt) Q) → safe (u ← guard b e; k u) Q.
Proof. intros Hk. destruct b; cbn; [by apply Hk|done]. Qed.

Section lengths.
Context `{CryptobyteLaws}.

Lemma ReadUint_length n s v r : bytes_ok s → ReadUint n s = Some (v, r) → bytes_ok r ∧ length s = (n + length r)%nat.
Proof.
  intros Hs Hr. destruct (ReadUint_Some n s v r Hs Hr) as (_ & -> & Hok). by rewrite length_app, length_be_put.
Qed.

Lemma ReadPrefixed_length n s l r : bytes_ok s → ReadPrefixed n s = Some (l, r) →
  bytes_ok l ∧ bytes_ok r ∧ length s = (n + length l + length r)%nat.
Proof.
  intros Hs Hr. destruct (ReadPrefixed_Some n s l r Hs Hr) as (_ & -> & Hl & Hok).
  rewrite !length_app, length_be_put. split; [done|]. split; [done|]. lia.
Qed.
End lengths.

(** Byte strings built in steps. *)
Section building.
Context `{CryptobyteLaws}.

Lemma Bytes_AddUint_Ok n b v r : Bytes b = Ok r → Bytes (AddUint n b v) = Ok (r ++ be_put n v).
Proof. intros Hb. by rewrite Bytes_AddUint, Hb. Qed.

Lemma Bytes_AddBytes_Ok b l r : Bytes b = Ok r → Bytes (AddBytes b l) = Ok (r ++ l).
Proof. intros Hb. by rewrite Bytes_AddBytes, Hb. Qed.

Lemma Bytes_AddPrefixed_Ok n b f r c : Bytes b = Ok r → Bytes (f NewBuilder) = Ok c →
  len c < 2 ^ (8 * Z.of_nat n) → Bytes (AddPrefixed n b f) = Ok (r ++ be_put n (len c) ++ c).
Proof.
  intros Hb Hc Hl. rewrite Bytes_AddPrefixed, Hb, Hc. cbn [mbind res_bind].
  by destruct (Z.ltb_spec (len c) (2 ^ (8 * Z.of_nat n))); [|lia].
Qed.

(** A loop that adds the elements of a list. *)
Lemma Bytes_fold {A} (add : Builder → A → Builder) (enc : A → list Z) (l : list A) b r :
  (∀ b r a, Bytes b = Ok r → a ∈ l → Bytes (add b a) = Ok (r ++ enc a)) →
  Bytes b = Ok r → Bytes (foldl add b l) = Ok (r ++ concat (enc <$> l)).
Proof.
  revert b r. induction l as [|a l IH]; intros b r Hadd Hb; cbn; [by rewrite app_nil_r|].
  rewrite (IH _ (r ++ enc a)); [by rewrite (assoc_L (++))| |by apply Hadd; [|left]].
  intros b' r' a' Hb' Ha'. apply Hadd; [done|by right].
Qed.

Lemma Bytes_no_panic_AddUint n b v : no_panic (Bytes b) → no_panic (Bytes (AddUint n b v)).
Proof. rewrite Bytes_AddUint. by destruct (Bytes b). Qed.
End building.
