(* ===== verification/SignatureHash.v ===== *)
(** * Signature schemes

    src/dtls/pkg/crypto/hash, signature and signaturehash: the pairs of a hash
    and a signature algorithm, their 16-bit schemes on the wire, the choice of a
    scheme for a private key, and the check of the signature algorithms of a
    certificate chain (ValidateCertificateSignatureAlgorithms of
    src/dtls/internal/handshakecrypto/crypto.go).  Also the registered curves
    (src/dtls/pkg/crypto/elliptic), the client certificate types and the key
    exchange algorithms that the handshake messages use. *)

From stdpp Require Import base tactics numbers list.
From Stdlib Require Import ZArith Lia.
From S2P Require Import Prelude Wire.
Open Scope Z_scope.

(** ** hash *)
Module Hash.

Definition None_ : Z := 0.
Definition MD5 : Z := 1.
Definition SHA1 : Z := 2.
Definition SHA224 : Z := 3.
Definition SHA256 : Z := 4.
Definition SHA384 : Z := 5.
Definition SHA512 : Z := 6.
Definition Ed25519 : Z := 8.

Definition Insecure (a : Z) : bool := (a =? None_) || (a =? MD5) || (a =? SHA1).

Definition Algorithms : list Z := [None_; MD5; SHA1; SHA224; SHA256; SHA384; SHA512; Ed25519].

Definition ExtractHashFromPSS (pssScheme : Z) : Z :=
  if (pssScheme =? 0x0804) || (pssScheme =? 0x0809) then SHA256
  else if (pssScheme =? 0x0805) || (pssScheme =? 0x080a) then SHA384
  else if (pssScheme =? 0x0806) || (pssScheme =? 0x080b) then SHA512
  else None_.

End Hash.

(** ** signature *)
Module Signature.

Definition Anonymous : Z := 0.
Definition ECDSA : Z := 3.
Definition Ed25519 : Z := 7.
Definition RSA_PSS_RSAE_SHA256 : Z := 0x0804.
Definition RSA_PSS_RSAE_SHA384 : Z := 0x0805.
Definition RSA_PSS_RSAE_SHA512 : Z := 0x0806.
Definition RSA_PSS_PSS_SHA256 : Z := 0x0809.
Definition RSA_PSS_PSS_SHA384 : Z := 0x080a.
Definition RSA_PSS_PSS_SHA512 : Z := 0x080b.

Definition Algorithms : list Z :=
  [Anonymous; ECDSA; Ed25519; RSA_PSS_RSAE_SHA256; RSA_PSS_RSAE_SHA384; RSA_PSS_RSAE_SHA512;
   RSA_PSS_PSS_SHA256; RSA_PSS_PSS_SHA384; RSA_PSS_PSS_SHA512].

Definition IsPSS (a : Z) : bool :=
  (a =? RSA_PSS_RSAE_SHA256) || (a =? RSA_PSS_RSAE_SHA384) || (a =? RSA_PSS_RSAE_SHA512) ||
  (a =? RSA_PSS_PSS_SHA256) || (a =? RSA_PSS_PSS_SHA384) || (a =? RSA_PSS_PSS_SHA512).

Definition IsUnsupported (a : Z) : bool :=
  (a =? RSA_PSS_PSS_SHA256) || (a =? RSA_PSS_PSS_SHA384) || (a =? RSA_PSS_PSS_SHA512).

Definition GetPSSHash (a : Z) : Z :=
  if (a =? RSA_PSS_RSAE_SHA256) || (a =? RSA_PSS_PSS_SHA256) then Hash.SHA256
  else if (a =? RSA_PSS_RSAE_SHA384) || (a =? RSA_PSS_PSS_SHA384) then Hash.SHA384
  else if (a =? RSA_PSS_RSAE_SHA512) || (a =? RSA_PSS_PSS_SHA512) then Hash.SHA512
  else Hash.None_.

End Signature.

(** ** elliptic, clientcertificate and the key exchange algorithms *)

Definition P256 : Z := 0x0017.
Definition P384 : Z := 0x0018.
Definition X25519 : Z := 0x001d.
Definition X25519MLKEM768 : Z := 0x11ec.
Definition Curves (c : Z) : bool := (c =? X25519) || (c =? P256) || (c =? P384) || (c =? X25519MLKEM768).
Definition CurveTypeNamedCurve : Z := 0x03.
Definition CurveTypes (t : Z) : bool := t =? CurveTypeNamedCurve.
Definition CurvePointFormatUncompressed : Z := 0.

Definition ECDSASign : Z := 64.
Definition ClientCertificateTypes (t : Z) : bool := t =? ECDSASign.

Definition KeyExchangeAlgorithmNone : Z := 0.
Definition KeyExchangeAlgorithmPsk : Z := 2.
Definition KeyExchangeAlgorithmEcdhe : Z := 4.
Definition Has (a v : Z) : bool := Z.land a v =? v.

(** ** signaturehash *)
Module SignatureHash.

Record Algorithm := MkAlgorithm { alg_Hash : Z; alg_Signature : Z }.

#[global] Instance Algorithm_eq_dec : EqDecision Algorithm.
Proof. solve_decision. Defined.

Definition elem (x : Z) (l : list Z) : bool := existsb (Z.eqb x) l.

Definition Algorithms : list Algorithm :=
  [MkAlgorithm Hash.SHA256 Signature.ECDSA; MkAlgorithm Hash.SHA384 Signature.ECDSA;
   MkAlgorithm Hash.SHA512 Signature.ECDSA; MkAlgorithm Hash.Ed25519 Signature.Ed25519;
   MkAlgorithm Hash.SHA256 Signature.RSA_PSS_RSAE_SHA256; MkAlgorithm Hash.SHA384 Signature.RSA_PSS_RSAE_SHA384;
   MkAlgorithm Hash.SHA512 Signature.RSA_PSS_RSAE_SHA512].

Definition Algorithms13 : list Algorithm :=
  [MkAlgorithm Hash.SHA256 Signature.ECDSA; MkAlgorithm Hash.SHA384 Signature.ECDSA;
   MkAlgorithm Hash.SHA512 Signature.ECDSA; MkAlgorithm Hash.Ed25519 Signature.Ed25519;
   MkAlgorithm Hash.SHA256 Signature.RSA_PSS_RSAE_SHA256; MkAlgorithm Hash.SHA384 Signature.RSA_PSS_RSAE_SHA384;
   MkAlgorithm Hash.SHA512 Signature.RSA_PSS_RSAE_SHA512].

(** [Unmarshal] of a 16-bit signature scheme. *)
Definition Algorithm_Unmarshal (sigScheme : Z) : res dtls_error Algorithm :=
  a ← (if Signature.IsPSS sigScheme then
         let h := Hash.ExtractHashFromPSS sigScheme in
         if h =? Hash.None_ then Err ErrSignatureHashInvalidHashAlgorithm
         else Ok (MkAlgorithm h sigScheme)
       else Ok (MkAlgorithm (Z.shiftr sigScheme 8) (Z.land sigScheme 0xFF)));
  if negb (elem (alg_Signature a) Signature.Algorithms) then Err ErrInvalidSignatureAlgorithm else
  if negb (elem (alg_Hash a) Hash.Algorithms) || (alg_Hash a =? Hash.None_)
  then Err ErrSignatureHashInvalidHashAlgorithm
  else Ok a.

Definition Algorithm_Marshal (a : Algorithm) : list Z :=
  if Signature.IsPSS (alg_Signature a)
  then [u8 (Z.shiftr (alg_Signature a) 8); u8 (Z.land (alg_Signature a) 0xFF)]
  else [u8 (alg_Hash a); u8 (alg_Signature a)].

(** The public key of a signer, as [isCompatible] tells them apart. *)
Inductive PrivateKey := Ed25519Key | EcdsaKey | OtherSigner | NoSigner.

Definition isCompatible (a : Algorithm) (key : PrivateKey) : bool :=
  match key with
  | Ed25519Key => alg_Signature a =? Signature.Ed25519
  | EcdsaKey => alg_Signature a =? Signature.ECDSA
  | _ => false
  end.

Fixpoint select_loop (sigs : list Algorithm) (key : PrivateKey) (is13 : bool) : res dtls_error Algorithm :=
  match sigs with
  | [] => Err ErrNoAvailableSignatureSchemes
  | ss :: sigs =>
      if negb is13 && Signature.IsPSS (alg_Signature ss) then select_loop sigs key is13
      else if Signature.IsUnsupported (alg_Signature ss) then select_loop sigs key is13
      else if isCompatible ss key then Ok ss
      else select_loop sigs key is13
  end.

Definition selectSignatureScheme13 (sigs : list Algorithm) (key : PrivateKey) (is13 : bool) : res dtls_error Algorithm :=
  match key with
  | NoSigner => Err ErrInvalidPrivateKey
  | _ => select_loop sigs key is13
  end.

Definition SelectSignatureScheme (sigs : list Algorithm) (key : PrivateKey) : res dtls_error Algorithm :=
  selectSignatureScheme13 sigs key false.

Definition SelectSignatureScheme13 (sigs : list Algorithm) (key : PrivateKey) : res dtls_error Algorithm :=
  selectSignatureScheme13 sigs key true.

Fixpoint parse_loop (sigs : list Z) (insecureHashes : bool) (out : list Algorithm) : res dtls_error (list Algorithm) :=
  match sigs with
  | [] => Ok out
  | ss :: sigs =>
      alg ← Algorithm_Unmarshal ss;
      if Hash.Insecure (alg_Hash alg) && negb insecureHashes then parse_loop sigs insecureHashes out
      else parse_loop sigs insecureHashes (out ++ [alg])
  end.

Definition ParseSignatureSchemes (sigs : list Z) (insecureHashes : bool) : res dtls_error (list Algorithm) :=
  match sigs with
  | [] => Ok Algorithms
  | _ =>
      out ← parse_loop sigs insecureHashes [];
      match out with [] => Err ErrNoAvailableSignatureSchemes | _ => Ok out end
  end.

(** The signature algorithm of an x509 certificate, with the names of crypto/x509. *)
Inductive x509_SignatureAlgorithm :=
  | SHA256WithRSAPSS | SHA384WithRSAPSS | SHA512WithRSAPSS | ECDSAWithSHA256 | ECDSAWithSHA384
  | ECDSAWithSHA512 | PureEd25519 | ECDSAWithSHA1 | OtherSignatureAlgorithm.

Definition FromCertificate (a : x509_SignatureAlgorithm) : res dtls_error Algorithm :=
  match a with
  | SHA256WithRSAPSS => Ok (MkAlgorithm Hash.SHA256 Signature.RSA_PSS_PSS_SHA256)
  | SHA384WithRSAPSS => Ok (MkAlgorithm Hash.SHA384 Signature.RSA_PSS_PSS_SHA384)
  | SHA512WithRSAPSS => Ok (MkAlgorithm Hash.SHA512 Signature.RSA_PSS_PSS_SHA512)
  | ECDSAWithSHA256 => Ok (MkAlgorithm Hash.SHA256 Signature.ECDSA)
  | ECDSAWithSHA384 => Ok (MkAlgorithm Hash.SHA384 Signature.ECDSA)
  | ECDSAWithSHA512 => Ok (MkAlgorithm Hash.SHA512 Signature.ECDSA)
  | PureEd25519 => Ok (MkAlgorithm Hash.None_ Signature.Ed25519)
  | ECDSAWithSHA1 => Ok (MkAlgorithm Hash.SHA1 Signature.ECDSA)
  | OtherSignatureAlgorithm => Err ErrInvalidSignatureAlgorithm
  end.

Definition allowed_by (allowedAlgorithms : list Algorithm) (a : Algorithm) : bool :=
  existsb (λ x, (alg_Hash a =? alg_Hash x) && (alg_Signature a =? alg_Signature x)) allowedAlgorithms.

(** The loop over the certificates but the last one. *)
Fixpoint validate_loop (certs : list x509_SignatureAlgorithm) (allowedAlgorithms : list Algorithm) : res dtls_error unit :=
  match certs with
  | [] | [_] => Ok tt
  | cert :: certs =>
      certAlg ← FromCertificate cert;
      if negb (allowed_by allowedAlgorithms certAlg) then Err ErrInvalidCertificateSignatureAlgorithm
      else validate_loop certs allowedAlgorithms
  end.

Definition ValidateCertificateSignatureAlgorithms (certs : list x509_SignatureAlgorithm)
    (allowedAlgorithms : list Algorithm) : res dtls_error unit :=
  match allowedAlgorithms with
  | [] => Ok tt
  | _ => validate_loop certs allowedAlgorithms
  end.

(** ** Lemmas *)

(** The algorithms that can be sent: they are read back from their scheme. *)
Definition valid_algorithm (a : Algorithm) : Prop := Algorithm_Unmarshal (be_get (Algorithm_Marshal a)) = Ok a.

Lemma elem_spec x l : elem x l = true ↔ x ∈ l.
Proof.
  unfold elem. rewrite existsb_exists. setoid_rewrite list_elem_of_In.
  split; [intros (y & Hy & ->%Z.eqb_eq); done|]. intros Hx. exists x. by rewrite Z.eqb_refl.
Qed.

Lemma IsPSS_spec a : Signature.IsPSS a = true ↔ a ∈ [0x0804; 0x0805; 0x0806; 0x0809; 0x080a; 0x080b].
Proof.
  unfold Signature.IsPSS. rewrite !orb_true_iff, !Z.eqb_eq, !elem_of_cons, elem_of_nil.
  unfold Signature.RSA_PSS_RSAE_SHA256, Signature.RSA_PSS_RSAE_SHA384, Signature.RSA_PSS_RSAE_SHA512,
    Signature.RSA_PSS_PSS_SHA256, Signature.RSA_PSS_PSS_SHA384, Signature.RSA_PSS_PSS_SHA512. tauto.
Qed.

(** What [Algorithm_Unmarshal] accepts. *)
Lemma Algorithm_Unmarshal_Ok s a : is_u16 s → Algorithm_Unmarshal s = Ok a →
  Algorithm_Marshal a = be_put 2 s ∧ alg_Hash a ≠ Hash.None_.
Proof.
  intros Hs. unfold Algorithm_Unmarshal. destruct (Signature.IsPSS s) eqn:Ep.
  - pose proof Ep as Hp. apply IsPSS_spec in Hp. rewrite !elem_of_cons, elem_of_nil in Hp.
    destruct_or! Hp; subst s; try done; intros [= <-]; by split.
  - cbn [mbind res_bind alg_Hash alg_Signature].
    destruct (elem (Z.land s 0xFF) Signature.Algorithms) eqn:Es; [|done]. cbn [negb].
    destruct (Z.eqb_spec (Z.shiftr s 8) Hash.None_) as [|Hn]; [by rewrite orb_true_r|].
    destruct (negb _ || false); [done|]. intros [= <-]. split; [|done].
    unfold Algorithm_Marshal. cbn [alg_Hash alg_Signature].
    assert (Z.land s 255 = s mod 2 ^ 8) as Hland by (by apply (Z.land_ones s 8)). rewrite Hland.
    assert (0 ≤ s mod 2 ^ 8 < 256) as Hl by (by apply Z.mod_pos_bound).
    assert (Signature.IsPSS (s mod 2 ^ 8) = false) as ->.
    { destruct (Signature.IsPSS (s mod 2 ^ 8)) eqn:E; [|done]. apply IsPSS_spec in E.
      rewrite !elem_of_cons, elem_of_nil in E. lia. }
    rewrite Z.shiftr_div_pow2 by lia. unfold u8. cbn [be_put app]. by rewrite Z.mod_mod.
Qed.

Lemma Algorithm_Unmarshal_no_panic s : Algorithm_Unmarshal s ≠ Panic.
Proof.
  unfold Algorithm_Unmarshal. destruct (Signature.IsPSS s); [destruct (Hash.ExtractHashFromPSS s =? Hash.None_); [done|]|];
    cbn [mbind res_bind]; destruct (negb _); try done; by destruct (_ || _).
Qed.

Lemma Algorithm_Unmarshal_valid s a : is_u16 s → Algorithm_Unmarshal s = Ok a → valid_algorithm a.
Proof.
  intros Hs Ha. unfold valid_algorithm. destruct (Algorithm_Unmarshal_Ok s a Hs Ha) as [-> _].
  by rewrite be_get_put, Z.mod_small.
Qed.

Lemma parse_loop_hash sigs ins out r : Forall is_u16 sigs → Forall (λ a, alg_Hash a ≠ Hash.None_) out →
  parse_loop sigs ins out = Ok r → Forall (λ a, alg_Hash a ≠ Hash.None_) r.
Proof.
  intros Hs. revert out. induction Hs as [|ss sigs Hss Hs IH]; intros out Hout; cbn [parse_loop].
  { by intros [= <-]. }
  destruct (Algorithm_Unmarshal ss) as [a|e|] eqn:Ea; cbn [mbind res_bind]; [|done|done].
  destruct (Algorithm_Unmarshal_Ok ss a Hss Ea) as [_ Hn].
  destruct (Hash.Insecure (alg_Hash a) && negb ins); apply IH; [done|]. apply Forall_app. by split; [|constructor].
Qed.

Lemma ParseSignatureSchemes_hash sigs ins r : Forall is_u16 sigs → ParseSignatureSchemes sigs ins = Ok r →
  r ≠ [] ∧ Forall (λ a, alg_Hash a ≠ Hash.None_) r.
Proof.
  intros Hs. unfold ParseSignatureSchemes. destruct sigs as [|ss sigs].
  { intros [= <-]. split; [done|]. by repeat constructor. }
  destruct (parse_loop (ss :: sigs) ins []) as [out|e|] eqn:E; cbn [mbind res_bind]; [|done|done].
  destruct out as [|a out]; [done|]. intros [= <-]. split; [done|]. by eapply parse_loop_hash.
Qed.

(** A signature algorithm and a hash function of the tables. *)
Definition known_scheme (a : Algorithm) : Prop :=
  elem (alg_Signature a) Signature.Algorithms = true ∧ elem (alg_Hash a) Hash.Algorithms = true ∧ alg_Hash a ≠ Hash.None_.

Lemma Algorithm_Unmarshal_known s : safe (Algorithm_Unmarshal s) known_scheme.
Proof.
  unfold Algorithm_Unmarshal, known_scheme. apply safe_bind. assert (∀ a, safe (if negb (elem (alg_Signature a) Signature.Algorithms) then Err ErrInvalidSignatureAlgorithm else
    if negb (elem (alg_Hash a) Hash.Algorithms) || (alg_Hash a =? Hash.None_) then Err ErrSignatureHashInvalidHashAlgorithm else Ok a)
    (λ a, elem (alg_Signature a) Signature.Algorithms = true ∧ elem (alg_Hash a) Hash.Algorithms = true ∧ alg_Hash a ≠ Hash.None_)) as Ha.
  { intros a. destruct (elem (alg_Signature a) Signature.Algorithms) eqn:Es; cbn [negb]; [|done]. destruct (elem (alg_Hash a) Hash.Algorithms) eqn:Eh; cbn [negb orb]; [|done].
    destruct (Z.eqb_spec (alg_Hash a) Hash.None_); done. }
  destruct (Signature.IsPSS s); [destruct (Hash.ExtractHashFromPSS s =? Hash.None_); [done|]|]; apply Ha.
Qed.

Lemma parse_loop_known sigs ins : ∀ out, Forall known_scheme out → safe (parse_loop sigs ins out) (Forall known_scheme).
Proof.
  induction sigs as [|ss sigs IH]; intros out Hout; cbn [parse_loop]; [done|]. apply safe_bind. eapply safe_mono; [apply Algorithm_Unmarshal_known|].
  intros a Ha. destruct (_ && _); apply IH; [done|]. apply Forall_app. by split; [|constructor].
Qed.

Lemma ParseSignatureSchemes_known sigs ins : safe (ParseSignatureSchemes sigs ins) (λ r, r ≠ [] ∧ Forall known_scheme r).
Proof.
  unfold ParseSignatureSchemes. destruct sigs as [|ss sigs]; [split; [done|]; by repeat constructor|]. apply safe_bind.
  eapply safe_mono; [by apply parse_loop_known|]. intros [|a out] Hout; by cbn.
Qed.

(** The schemes that may be chosen for a key. *)
Definition usable (is13 : bool) (key : PrivateKey) (a : Algorithm) : bool :=
  (is13 || negb (Signature.IsPSS (alg_Signature a))) && negb (Signature.IsUnsupported (alg_Signature a)) && isCompatible a key.

Lemma select_loop_spec sigs key is13 : select_loop sigs key is13 =
  match List.find (usable is13 key) sigs with Some a => Ok a | None => Err ErrNoAvailableSignatureSchemes end.
Proof.
  induction sigs as [|a sigs IH]; [done|]. cbn [select_loop List.find]. unfold usable at 1. rewrite IH.
  by destruct is13, (Signature.IsPSS (alg_Signature a)), (Signature.IsUnsupported (alg_Signature a)), (isCompatible a key).
Qed.

(** ** Properties *)

(** the 16-bit signature schemes and the pairs of hash and signature algorithm
    correspond one to one: whatever scheme [Unmarshal] accepts is the one [Marshal]
    writes for its result, for RSA-PSS (full scheme) and for the byte pairs of TLS
    1.2, and reading it again gives the same pair. *)
Theorem signature_scheme_roundtrip s a : is_u16 s → Algorithm_Unmarshal s = Ok a →
  Algorithm_Marshal a = be_put 2 s ∧ Algorithm_Unmarshal (be_get (Algorithm_Marshal a)) = Ok a.
Proof.
  intros Hs Ha. split; [by apply Algorithm_Unmarshal_Ok|by apply (Algorithm_Unmarshal_valid s)].
Qed.

Lemma signature_scheme_roundtrip_witness :
  Algorithm_Marshal (MkAlgorithm 5 0x0805) = be_put 2 0x0805 ∧
  Algorithm_Unmarshal (be_get (Algorithm_Marshal (MkAlgorithm 5 0x0805))) = Ok (MkAlgorithm 5 0x0805).
Proof. apply (signature_scheme_roundtrip 0x0805); done. Defined.

(** a certificate chain in which a certificate other than the root is signed with
    Ed25519 is rejected whatever signature schemes were configured, Ed25519 (0x0807)
    included: the configured scheme has the hash identifier 8 and the certificate's the
    identifier 0, which no configured scheme can have. *)
Theorem ed25519_chain_rejected sigs ins allowed pre root post : Forall is_u16 sigs →
  ParseSignatureSchemes sigs ins = Ok allowed →
  ∃ e, ValidateCertificateSignatureAlgorithms (pre ++ PureEd25519 :: root :: post) allowed = Err e.
Proof.
  intros Hs Hp. destruct (ParseSignatureSchemes_hash _ _ _ Hs Hp) as [Hne Hall].
  unfold ValidateCertificateSignatureAlgorithms. destruct allowed as [|x allowed]; [done|]. clear Hp Hne.
  set (al := x :: allowed) in *. clearbody al.
  assert (allowed_by al (MkAlgorithm Hash.None_ Signature.Ed25519) = false) as Hn.
  { unfold allowed_by. induction Hall as [|y al Hy Hall IH]; [done|]. cbn [existsb]. rewrite IH.
    cbn [alg_Hash]. destruct (Z.eqb_spec Hash.None_ (alg_Hash y)); [congruence|done]. }
  induction pre as [|c pre IH].
  - eexists. cbn [app validate_loop FromCertificate mbind res_bind]. by rewrite Hn.
  - destruct IH as [e IH]. cbn [app].
    destruct (pre ++ PureEd25519 :: root :: post) as [|d l] eqn:E; [by destruct pre|].
    cbn [validate_loop]. destruct (FromCertificate c) as [ca|e'|] eqn:Ec; cbn [mbind res_bind]; [|by exists e'|by destruct c].
    destruct (allowed_by al ca); cbn [negb]; [|by eexists]. by exists e.
Qed.

Lemma ed25519_chain_rejected_witness :
  ∃ e, ValidateCertificateSignatureAlgorithms [PureEd25519; PureEd25519] [MkAlgorithm Hash.Ed25519 Signature.Ed25519] = Err e.
Proof. apply (ed25519_chain_rejected [0x0807] false _ [] PureEd25519 []); [by constructor|done]. Defined.

(** for a key that can sign, the choice of a signature scheme is the first of the
    offered schemes, in the order of preference, that fits the key and the version:
    RSA-PSS only in DTLS 1.3 and never the PSS schemes that are only parsed; it is an
    error exactly when there is none. *)
Theorem select_scheme_prefers_first sigs key : key ≠ NoSigner →
  SelectSignatureScheme sigs key =
    match List.find (usable false key) sigs with Some a => Ok a | None => Err ErrNoAvailableSignatureSchemes end ∧
  SelectSignatureScheme13 sigs key =
    match List.find (usable true key) sigs with Some a => Ok a | None => Err ErrNoAvailableSignatureSchemes end.
Proof.
  intros Hk. unfold SelectSignatureScheme, SelectSignatureScheme13, selectSignatureScheme13.
  by destruct key; rewrite <- ?select_loop_spec.
Qed.

Lemma select_scheme_prefers_first_witness :
  SelectSignatureScheme Algorithms Ed25519Key = Ok (MkAlgorithm Hash.Ed25519 Signature.Ed25519) ∧
  SelectSignatureScheme13 Algorithms EcdsaKey = Ok (MkAlgorithm Hash.SHA256 Signature.ECDSA).
Proof.
  split; [by destruct (select_scheme_prefers_first Algorithms Ed25519Key) as [-> _]
         |by destruct (select_scheme_prefers_first Algorithms EcdsaKey) as [_ ->]].
Defined.

End SignatureHash.
