(* ===== verification/HandshakeCrypto.v ===== *)
(** * Signatures and certificates in the handshake

    src/dtls/internal/handshakecrypto/crypto.go: the signature over the server's
    key exchange, the signature of CertificateVerify, and the verification of
    certificate chains.  The algorithms of Go's library (x509, ecdsa, ed25519,
    rsa, asn1) are the class [PKI]; [SignatureLaws] says that they verify what
    they signed. *)
From stdpp Require Import base tactics numbers list strings.
From Stdlib Require Import ZArith Lia.
From S2P Require Import Prelude Sha2 Wire SignatureHash.
Import SignatureHash.
Open Scope Z_scope.

Module HandshakeCrypto.

(** The kinds of public keys that the code tells apart. *)
Inductive PublicKey := Ed25519Pub (k : bytes) | EcdsaPub (k : bytes) | RsaPub (k : bytes) | OtherPub.

(** A parsed certificate: its key, the algorithm it is signed with, its names
    and its issuer. *)
Record Certificate := MkCertificate {
  x_Raw : bytes;
  x_PublicKey : PublicKey;
  x_SignatureAlgorithm : x509_SignatureAlgorithm;
  x_CommonName : gostring;
  x_DNSNames : list gostring;
  x_RawIssuer : bytes
}.

(** The options of a signature: a hash, or PSS with a hash. *)
Inductive SignerOpts := OptHash (h : Z) | OptPSS (h : Z).

(** The extended key usage that a chain is verified for. *)
Inductive KeyUsage := UsageServerAuth | UsageClientAuth.

Class PKI := {
  CertPool : Type;
  Subjects : CertPool → list bytes;
  ParseCertificate : bytes → res dtls_error Certificate;
  spki_oid : Certificate → res dtls_error (list Z);
  ed25519_Verify : bytes → bytes → bytes → bool;
  asn1_ecdsaSignature : bytes → res dtls_error (Z * Z);
  ecdsa_Verify : bytes → bytes → Z → Z → bool;
  rsa_VerifyPSS : bytes → Z → bytes → bytes → bool;
  rsa_VerifyPKCS1v15 : bytes → Z → bytes → bytes → bool;
  md5_Sum : bytes → bytes;
  sha1_Sum : bytes → bytes;
  sha224_Sum : bytes → bytes;
  sha512_Sum : bytes → bytes;
  x509_Verify : Certificate → option CertPool → gostring → list Certificate → KeyUsage → res dtls_error (list (list Certificate))
}.

(** A crypto.Signer: its public key, and [Sign] with the randomness it draws. *)
Record Signer := MkSigner { Public : PublicKey; Sign : Z → bytes → SignerOpts → res dtls_error bytes }.

(** How the signature schemes see the key of a signer. *)
Definition signer_key (s : Signer) : PrivateKey :=
  match Public s with Ed25519Pub _ => Ed25519Key | EcdsaPub _ => EcdsaKey | _ => OtherSigner end.

Section crypto.
Context `{PKI}.

(** hash.Algorithm.Digest *)
Definition Digest (a : Z) (b : bytes) : bytes :=
  if a =? Hash.MD5 then md5_Sum b else
  if a =? Hash.SHA1 then sha1_Sum b else
  if a =? Hash.SHA224 then sha224_Sum b else
  if a =? Hash.SHA256 then h_sum Sha2.sha256 b else
  if a =? Hash.SHA384 then h_sum Sha2.sha384 b else
  if a =? Hash.SHA512 then sha512_Sum b else [].

(** hash.Algorithm.CryptoHash, with 0 for crypto.Hash(0). *)
Definition CryptoHash (a : Z) : Z :=
  if (Hash.MD5 <=? a) && (a <=? Hash.SHA512) then a else 0.

Definition ValueKeyMessage (clientRandom serverRandom publicKey : bytes) (namedCurve : Z) : bytes :=
  clientRandom ++ serverRandom ++ [3] ++ be_put 2 namedCurve ++ [u8 (len publicKey)] ++ publicKey.

Definition oidPublicKeyRSA : list Z := [1; 2; 840; 113549; 1; 1; 1].
Definition oidPublicKeyRSAPSS : list Z := [1; 2; 840; 113549; 1; 1; 10].

Definition validateSignatureAlgOID (cert : Certificate) (sigAlg : Z) : res dtls_error unit :=
  if negb (Signature.IsPSS sigAlg) then Ok tt else
  certOID ← spki_oid cert;
  if (sigAlg =? Signature.RSA_PSS_RSAE_SHA256) || (sigAlg =? Signature.RSA_PSS_RSAE_SHA384) || (sigAlg =? Signature.RSA_PSS_RSAE_SHA512)
  then guard (bool_decide (certOID = oidPublicKeyRSA)) ErrInvalidCertificateOID
  else guard (bool_decide (certOID = oidPublicKeyRSAPSS)) ErrInvalidCertificateOID.

(** [r] is the randomness of rand.Reader. *)
Definition GenerateKeySignature (r : Z) (clientRandom serverRandom publicKey : bytes) (namedCurve : Z) (signer : Signer)
    (hashAlgorithm signatureAlgorithm : Z) : res dtls_error bytes :=
  let msg := ValueKeyMessage clientRandom serverRandom publicKey namedCurve in
  match Public signer with
  | Ed25519Pub _ => Sign signer r msg (OptHash 0)
  | EcdsaPub _ => Sign signer r (Digest hashAlgorithm msg) (OptHash (CryptoHash hashAlgorithm))
  | RsaPub _ =>
      let hashed := Digest hashAlgorithm msg in
      if Signature.IsPSS signatureAlgorithm then Sign signer r hashed (OptPSS (CryptoHash hashAlgorithm))
      else Sign signer r hashed (OptHash (CryptoHash hashAlgorithm))
  | OtherPub => Err ErrKeySignatureGenerateUnimplemented
  end.

(** The check that VerifyKeySignature and VerifyCertificateVerify share. *)
Definition verify_signature (message remoteKeySignature : bytes) (hashAlgorithm signatureAlgorithm : Z) (rawCertificates : list bytes)
    : res dtls_error unit :=
  match rawCertificates with
  | [] => Err ErrLengthMismatch
  | raw :: _ =>
      certificate ← ParseCertificate raw;
      _ ← validateSignatureAlgOID certificate signatureAlgorithm;
      match x_PublicKey certificate with
      | Ed25519Pub pubKey => guard (ed25519_Verify pubKey message remoteKeySignature) ErrKeySignatureMismatch
      | EcdsaPub pubKey =>
          '(r, s) ← asn1_ecdsaSignature remoteKeySignature;
          if (r <=? 0) || (s <=? 0) then Err ErrInvalidECDSASignature else
          guard (ecdsa_Verify pubKey (Digest hashAlgorithm message) r s) ErrKeySignatureMismatch
      | RsaPub pubKey =>
          let hashed := Digest hashAlgorithm message in
          if Signature.IsPSS signatureAlgorithm
          then guard (rsa_VerifyPSS pubKey (CryptoHash hashAlgorithm) hashed remoteKeySignature) ErrKeySignatureMismatch
          else guard (rsa_VerifyPKCS1v15 pubKey (CryptoHash hashAlgorithm) hashed remoteKeySignature) ErrKeySignatureMismatch
      | OtherPub => Err ErrKeySignatureVerifyUnimplemented
      end
  end.

Definition VerifyKeySignature (message remoteKeySignature : bytes) (hashAlgorithm signatureAlgorithm : Z) (rawCertificates : list bytes)
    : res dtls_error unit := verify_signature message remoteKeySignature hashAlgorithm signatureAlgorithm rawCertificates.

Definition GenerateCertificateVerify (r : Z) (handshakeBodies : bytes) (signer : Signer) (hashAlgorithm signatureAlgorithm : Z)
    : res dtls_error bytes :=
  match Public signer with
  | Ed25519Pub _ => Sign signer r handshakeBodies (OptHash 0)
  | EcdsaPub _ => Sign signer r (Digest hashAlgorithm handshakeBodies) (OptHash (CryptoHash hashAlgorithm))
  | RsaPub _ =>
      let hashed := Digest hashAlgorithm handshakeBodies in
      if Signature.IsPSS signatureAlgorithm then Sign signer r hashed (OptPSS (CryptoHash hashAlgorithm))
      else Sign signer r hashed (OptHash (CryptoHash hashAlgorithm))
  | OtherPub => Err ErrInvalidSignatureAlgorithm
  end.

Definition VerifyCertificateVerify (handshakeBodies : bytes) (hashAlgorithm signatureAlgorithm : Z) (remoteKeySignature : bytes)
    (rawCertificates : list bytes) : res dtls_error unit :=
  verify_signature handshakeBodies remoteKeySignature hashAlgorithm signatureAlgorithm rawCertificates.

Fixpoint load_loop (rawCertificates : list bytes) : res dtls_error (list Certificate) :=
  match rawCertificates with
  | [] => Ok []
  | raw :: raws => cert ← ParseCertificate raw; certs ← load_loop raws; Ok (cert :: certs)
  end.

Definition loadCerts (rawCertificates : list bytes) : res dtls_error (list Certificate) :=
  match rawCertificates with
  | [] => Err ErrLengthMismatch
  | _ => load_loop rawCertificates
  end.

(** At least one chain uses only allowed signature algorithms. *)
Definition valid_chain (certSignatureSchemes : list Algorithm) (chain : list Certificate) : bool :=
  match ValidateCertificateSignatureAlgorithms (map x_SignatureAlgorithm chain) certSignatureSchemes with Ok _ => true | _ => false end.

Definition check_chains (certSignatureSchemes : list Algorithm) (chains : list (list Certificate)) : res dtls_error (list (list Certificate)) :=
  if (0 <? len certSignatureSchemes) && (0 <? len chains) && negb (existsb (valid_chain certSignatureSchemes) chains)
  then Err ErrInvalidCertificateSignatureAlgorithm else Ok chains.

Definition VerifyClientCert (rawCertificates : list bytes) (roots : option CertPool) (certSignatureSchemes : list Algorithm)
    : res dtls_error (list (list Certificate)) :=
  certificate ← loadCerts rawCertificates;
  leaf ← idx certificate 0;
  rest ← slice_from certificate 1;
  chains ← x509_Verify leaf roots [] rest UsageClientAuth;
  check_chains certSignatureSchemes chains.

Definition VerifyServerCert (rawCertificates : list bytes) (roots : option CertPool) (serverName : gostring) (certSignatureSchemes : list Algorithm)
    : res dtls_error (list (list Certificate)) :=
  certificate ← loadCerts rawCertificates;
  leaf ← idx certificate 0;
  rest ← slice_from certificate 1;
  chains ← x509_Verify leaf roots serverName rest UsageServerAuth;
  check_chains certSignatureSchemes chains.

End crypto.

(** What a correct signer of a certificate does: the certificate carries its
    public key, and its signatures are accepted. *)
Record signs_for `{PKI} (s : Signer) (raw : bytes) : Prop := {
  sf_cert : ∃ cert, ParseCertificate raw = Ok cert ∧ x_PublicKey cert = Public s;
  sf_ed25519 k r msg sig : Public s = Ed25519Pub k → Sign s r msg (OptHash 0) = Ok sig → ed25519_Verify k msg sig = true;
  sf_ecdsa k r digest h sig : Public s = EcdsaPub k → Sign s r digest (OptHash h) = Ok sig →
    ∃ a b, asn1_ecdsaSignature sig = Ok (a, b) ∧ 0 < a ∧ 0 < b ∧ ecdsa_Verify k digest a b = true
}.

(** ** Lemmas *)

Section lemmas.
Context `{PKI}.

(** The scheme chosen for a key has the key's signature algorithm. *)
Lemma selected_scheme sigs s a : SelectSignatureScheme sigs (signer_key s) = Ok a →
  a ∈ sigs ∧ Signature.IsPSS (alg_Signature a) = false ∧
  ((∃ k, Public s = Ed25519Pub k) ∨ (∃ k, Public s = EcdsaPub k)).
Proof.
  unfold SelectSignatureScheme, selectSignatureScheme13.
  assert (signer_key s ≠ NoSigner) as Hn by (unfold signer_key; by destruct (Public s)).
  destruct (signer_key s) eqn:Ek; try done; rewrite select_loop_spec;
    (destruct (find _ sigs) as [x|] eqn:Ef; intros [= ->]); apply find_some in Ef as [Hin Hu]; apply list_elem_of_In in Hin;
    unfold usable in Hu; cbn [orb isCompatible] in Hu; rewrite !andb_true_iff, !negb_true_iff in Hu; destruct Hu as [[Hp _] Hc];
    (split; [done|]); (split; [done|]); unfold signer_key in Ek; destruct (Public s); try done; eauto.
Qed.

Lemma verify_own_signature sigs s a r msg raw rest : signs_for s raw → SelectSignatureScheme sigs (signer_key s) = Ok a →
  ∀ sig, (match Public s with
          | Ed25519Pub _ => Sign s r msg (OptHash 0)
          | _ => Sign s r (Digest (alg_Hash a) msg) (OptHash (CryptoHash (alg_Hash a)))
          end) = Ok sig →
  verify_signature msg sig (alg_Hash a) (alg_Signature a) (raw :: rest) = Ok tt.
Proof.
  intros [(cert & Hcert & Hpub) Hed Hec] Ha sig Hsig. destruct (selected_scheme _ _ _ Ha) as (_ & Hpss & Hk).
  unfold verify_signature. rewrite Hcert. cbn [mbind res_bind]. unfold validateSignatureAlgOID. rewrite Hpss. cbn [negb mbind res_bind].
  rewrite Hpub. destruct Hk as [[k Ek]|[k Ek]]; rewrite Ek in Hsig |- *.
  - by rewrite (Hed k r msg sig Ek Hsig).
  - destruct (Hec k r _ _ _ Ek Hsig) as (x & y & -> & Hx & Hy & Hv). cbn [mbind res_bind].
    destruct (Z.leb_spec x 0), (Z.leb_spec y 0); [lia..|]. cbn [orb]. by rewrite Hv.
Qed.

(** ** Properties *)

(** the signatures a side makes are accepted by the other: when the scheme
    was selected for the signer's key, the signature over the key exchange and
    the one over the handshake messages verify against the signer's certificate. *)
Theorem signatures_verify sigs s a r raw rest : signs_for s raw → SelectSignatureScheme sigs (signer_key s) = Ok a →
  (∀ cr sr pk curve sig, GenerateKeySignature r cr sr pk curve s (alg_Hash a) (alg_Signature a) = Ok sig →
     VerifyKeySignature (ValueKeyMessage cr sr pk curve) sig (alg_Hash a) (alg_Signature a) (raw :: rest) = Ok tt) ∧
  (∀ bodies sig, GenerateCertificateVerify r bodies s (alg_Hash a) (alg_Signature a) = Ok sig →
     VerifyCertificateVerify bodies (alg_Hash a) (alg_Signature a) sig (raw :: rest) = Ok tt).
Proof.
  intros Hs Ha. pose proof (selected_scheme _ _ _ Ha) as (_ & _ & Hk). split.
  - intros cr sr pk curve sig Hsig. apply (verify_own_signature sigs s a r); [done..|].
    unfold GenerateKeySignature in Hsig. by destruct Hk as [[k E]|[k E]]; rewrite E in Hsig |- *.
  - intros bodies sig Hsig. apply (verify_own_signature sigs s a r); [done..|].
    unfold GenerateCertificateVerify in Hsig. by destruct Hk as [[k E]|[k E]]; rewrite E in Hsig |- *.
Qed.

(** a signature with the scheme Ed25519 (0x0807), which is in the default
    list, does not bind anything when the peer's certificate has an ECDSA key:
    the digest is then empty, so that the check accepts a signature for one
    message exactly when it accepts it for every other, and for the empty one. *)
Theorem ed25519_scheme_unbound raw rest cert k message message' sig :
  ParseCertificate raw = Ok cert → x_PublicKey cert = EcdsaPub k →
  MkAlgorithm Hash.Ed25519 Signature.Ed25519 ∈ Algorithms ∧
  VerifyKeySignature message sig Hash.Ed25519 Signature.Ed25519 (raw :: rest) =
  VerifyKeySignature message' sig Hash.Ed25519 Signature.Ed25519 (raw :: rest) ∧
  (∀ r s, asn1_ecdsaSignature sig = Ok (r, s) → 0 < r → 0 < s → ecdsa_Verify k [] r s = true →
     VerifyKeySignature message sig Hash.Ed25519 Signature.Ed25519 (raw :: rest) = Ok tt).
Proof.
  intros Hcert Hk. split; [by do 3 (apply elem_of_cons; right); apply elem_of_cons; left|].
  unfold VerifyKeySignature, verify_signature. rewrite Hcert. cbn [mbind res_bind]. rewrite Hk.
  change (validateSignatureAlgOID cert Signature.Ed25519) with (Ok tt : res dtls_error unit). cbn [mbind res_bind].
  split; [done|]. intros r s -> Hr Hs Hv. cbn [mbind res_bind]. destruct (Z.leb_spec r 0), (Z.leb_spec s 0); [lia..|].
  cbn [orb]. change (Digest Hash.Ed25519 message) with (@nil Z). by rewrite Hv.
Qed.

End lemmas.

(** *** An instance *)

(** A certificate is a byte for the kind of its key and the key; a signature is
    the key and what was signed. *)
#[local] Instance toy_pki : PKI := {|
  CertPool := unit;
  Subjects _ := [];
  ParseCertificate raw :=
    match raw with
    | 1 :: k => Ok (MkCertificate raw (Ed25519Pub k) PureEd25519 [] [] [])
    | 2 :: k => Ok (MkCertificate raw (EcdsaPub k) ECDSAWithSHA256 [] [] [])
    | _ => Err (ErrOther (gs "x509: malformed certificate"))
    end;
  spki_oid _ := Ok [];
  ed25519_Verify k m sig := bool_decide (sig = k ++ m);
  asn1_ecdsaSignature sig := Ok (1 + be_get sig, 1);
  ecdsa_Verify k d r s := r =? 1 + be_get (k ++ d);
  rsa_VerifyPSS _ _ _ _ := false;
  rsa_VerifyPKCS1v15 _ _ _ _ := false;
  md5_Sum b := b; sha1_Sum b := b; sha224_Sum b := b; sha512_Sum b := b;
  x509_Verify leaf _ _ rest _ := Ok [leaf :: rest]
|}.

Definition toy_signer (kind : Z) (k : bytes) : Signer :=
  if kind =? 1 then MkSigner (Ed25519Pub k) (λ _ m _, Ok (k ++ m))
  else MkSigner (EcdsaPub k) (λ _ m _, if 0 <=? be_get (k ++ m) then Ok (k ++ m) else Err (ErrOther (gs "sign"))).

Lemma signatures_verify_witness :
  VerifyKeySignature (ValueKeyMessage [1] [2] [3] X25519) ([7] ++ ValueKeyMessage [1] [2] [3] X25519)
    Hash.Ed25519 Signature.Ed25519 [[1; 7]] = Ok tt.
Proof.
  refine (proj1 (signatures_verify Algorithms (toy_signer 1 [7]) (MkAlgorithm Hash.Ed25519 Signature.Ed25519) 0 [1; 7] [] _ _) [1] [2] [3] X25519 _ _).
  - split; [by eexists|..].
    + intros k r msg sig [= <-] [= <-]. by apply bool_decide_true.
    + done.
  - reflexivity.
  - reflexivity.
Defined.

Lemma ed25519_scheme_unbound_witness :
  VerifyKeySignature [1; 2; 3] [7] Hash.Ed25519 Signature.Ed25519 [[2; 7]] = Ok tt.
Proof.
  refine (proj2 (proj2 (ed25519_scheme_unbound [2; 7] [] (MkCertificate [2; 7] (EcdsaPub [7]) ECDSAWithSHA256 [] [] []) [7] [1; 2; 3] [] [7] _ _)) 8 1 _ _ _ _);
    reflexivity.
Defined.

End HandshakeCrypto.
