(* ===== verification/Prf.v ===== *)
(** * Key exchange and key derivation

    The pseudorandom function of DTLS 1.2 with all that is derived by it
    (src/dtls/pkg/crypto/prf), the key exchange groups with the hybrid group
    X25519MLKEM768 (src/dtls/pkg/crypto/elliptic, and PreMasterSecret of prf),
    and the key derivation of DTLS 1.3 (src/dtls/pkg/crypto/keyschedule).
    The curves and ML-KEM of Go's library are the class [KeyAgreement] with its
    laws; the hash function is any [Hash]. *)
From stdpp Require Import base tactics numbers list strings.
From Stdlib Require Import ZArith Lia.
From S2P Require Import Prelude Sha2 Wire SignatureHash.
Import SignatureHash.
Open Scope Z_scope.

(** ** crypto/hmac *)

Definition hmac (h : Hash) (key data : bytes) : bytes :=
  let key := if h_block h <? len key then h_sum h key else key in
  let key := key ++ zeros (h_block h - len key) in
  h_sum h (map (Z.lxor 0x5c) key ++ h_sum h (map (Z.lxor 0x36) key ++ data)).

(** ** The pseudorandom function of DTLS 1.2 *)

Module Prf.

Definition masterSecretLabel : gostring := gs "master secret".
Definition extendedMasterSecretLabel : gostring := gs "extended master secret".
Definition keyExpansionLabel : gostring := gs "key expansion".
Definition verifyDataClientLabel : gostring := gs "client finished".
Definition verifyDataServerLabel : gostring := gs "server finished".

(** The rounds of PHash. *)
Fixpoint phash_loop (h : Hash) (secret seed : bytes) (iterations : nat) (lastRound out : bytes) : bytes :=
  match iterations with
  | O => out
  | S n =>
      let lastRound := hmac h secret lastRound in
      let withSecret := hmac h secret (lastRound ++ seed) in
      phash_loop h secret seed n lastRound (out ++ withSecret)
  end.

(** Writing to a hash does not fail; the quotient rounded up is exact for the
    lengths a float64 holds exactly. *)
Definition PHash (secret seed : bytes) (requestedLength : Z) (h : Hash) : res dtls_error bytes :=
  let iterations := (requestedLength + h_size h - 1) / h_size h in
  slice (phash_loop h secret seed (Z.to_nat iterations) seed []) 0 requestedLength.

Definition ExtendedMasterSecret (preMasterSecret sessionHash : bytes) (h : Hash) : res dtls_error bytes :=
  PHash preMasterSecret (extendedMasterSecretLabel ++ sessionHash) 48 h.

Definition MasterSecret (preMasterSecret clientRandom serverRandom : bytes) (h : Hash) : res dtls_error bytes :=
  PHash preMasterSecret (masterSecretLabel ++ clientRandom ++ serverRandom) 48 h.

Record EncryptionKeys := MkKeys {
  ek_MasterSecret : bytes;
  ClientMACKey : bytes;
  ServerMACKey : bytes;
  ClientWriteKey : bytes;
  ServerWriteKey : bytes;
  ClientWriteIV : bytes;
  ServerWriteIV : bytes
}.

Definition GenerateEncryptionKeys (masterSecret clientRandom serverRandom : bytes) (macLen keyLen ivLen : Z) (h : Hash)
    : res dtls_error EncryptionKeys :=
  let seed := keyExpansionLabel ++ serverRandom ++ clientRandom in
  keyMaterial ← PHash masterSecret seed (2 * macLen + 2 * keyLen + 2 * ivLen) h;
  clientMACKey ← slice keyMaterial 0 macLen;
  keyMaterial ← slice_from keyMaterial macLen;
  serverMACKey ← slice keyMaterial 0 macLen;
  keyMaterial ← slice_from keyMaterial macLen;
  clientWriteKey ← slice keyMaterial 0 keyLen;
  keyMaterial ← slice_from keyMaterial keyLen;
  serverWriteKey ← slice keyMaterial 0 keyLen;
  keyMaterial ← slice_from keyMaterial keyLen;
  clientWriteIV ← slice keyMaterial 0 ivLen;
  keyMaterial ← slice_from keyMaterial ivLen;
  serverWriteIV ← slice keyMaterial 0 ivLen;
  Ok (MkKeys masterSecret clientMACKey serverMACKey clientWriteKey serverWriteKey clientWriteIV serverWriteIV).

Definition prfVerifyData (masterSecret handshakeBodies : bytes) (label : gostring) (h : Hash) : res dtls_error bytes :=
  PHash masterSecret (label ++ h_sum h handshakeBodies) 12 h.

Definition VerifyDataClient (masterSecret handshakeBodies : bytes) (h : Hash) : res dtls_error bytes :=
  prfVerifyData masterSecret handshakeBodies verifyDataClientLabel h.

Definition VerifyDataServer (masterSecret handshakeBodies : bytes) (h : Hash) : res dtls_error bytes :=
  prfVerifyData masterSecret handshakeBodies verifyDataServerLabel h.

(** [binary.BigEndian.PutUint16(l[off:], v)] *)
Definition put_u16 (l : bytes) (off v : Z) : res dtls_error bytes :=
  if (0 <=? off) && (off + 2 <=? len l)
  then Ok (take (Z.to_nat off) l ++ be_put 2 v ++ drop (Z.to_nat (off + 2)) l)
  else Panic.

(** [pskLen] and the offsets are uint16. *)
Definition PSKPreMasterSecret (psk : bytes) : res dtls_error bytes :=
  let pskLen := u16 (len psk) in
  let out := zeros (u16 (2 + pskLen + 2)) ++ psk in
  out ← put_u16 out 0 pskLen;
  put_u16 out (u16 (2 + pskLen)) pskLen.

(** ** Specification: P_hash of RFC 5246, section 5 *)

(** A(i) *)
Fixpoint A (h : Hash) (secret seed : bytes) (i : nat) : bytes :=
  match i with
  | O => seed
  | S i => hmac h secret (A h secret seed i)
  end.

(** The first [k] blocks: HMAC_hash(secret, A(i) + seed) for i from 1. *)
Definition P_hash (h : Hash) (secret seed : bytes) (k : nat) : bytes :=
  concat (map (λ i, hmac h secret (A h secret seed i ++ seed)) (seq 1 k)).

(** ** Lemmas *)

Lemma hmac_len h key data : hash_ok h → len (hmac h key data) = h_size h.
Proof. intros Hh. apply Hh. Qed.

Lemma P_hash_S h secret seed k : P_hash h secret seed (S k) =
  P_hash h secret seed k ++ hmac h secret (A h secret seed (S k) ++ seed).
Proof. unfold P_hash. rewrite seq_S, map_app, concat_app. cbn [map concat]. by rewrite app_nil_r. Qed.

Lemma P_hash_len h secret seed k : hash_ok h → len (P_hash h secret seed k) = Z.of_nat k * h_size h.
Proof.
  intros Hh. induction k as [|k IH]; [done|]. rewrite P_hash_S, len_app, IH, hmac_len by done. lia.
Qed.

Lemma P_hash_prefix h secret seed k d : ∃ r, P_hash h secret seed (k + d) = P_hash h secret seed k ++ r.
Proof.
  induction d as [|d [r IH]]; [exists []; by rewrite app_nil_r, Nat.add_0_r|].
  exists (r ++ hmac h secret (A h secret seed (S (k + d)) ++ seed)).
  by rewrite Nat.add_succ_r, P_hash_S, IH, <- (assoc_L (++)).
Qed.

Lemma phash_loop_spec h secret seed n i :
  phash_loop h secret seed n (A h secret seed i) (P_hash h secret seed i) = P_hash h secret seed (i + n).
Proof.
  revert i. induction n as [|n IH]; intros i; cbn [phash_loop]; [by rewrite Nat.add_0_r|].
  change (hmac h secret (A h secret seed i)) with (A h secret seed (S i)).
  rewrite <- P_hash_S, IH. f_equal. lia.
Qed.

(** [PHash] is a prefix of the stream of blocks, of any number that suffices. *)
Lemma PHash_stream h secret seed n k : hash_ok h → 0 ≤ n ≤ Z.of_nat k * h_size h →
  PHash secret seed n h = Ok (take (Z.to_nat n) (P_hash h secret seed k)).
Proof.
  intros Hh Hn. pose proof (hk_size _ Hh) as Hs. unfold PHash.
  set (m := Z.to_nat ((n + h_size h - 1) / h_size h)).
  assert (Z.of_nat m = (n + h_size h - 1) / h_size h) as Em
    by (unfold m; rewrite Z2Nat.id; [done|apply Z.div_pos; lia]).
  assert (n ≤ Z.of_nat m * h_size h) as Hm.
  { rewrite Em. pose proof (Z.div_mod (n + h_size h - 1) (h_size h)). pose proof (Z.mod_pos_bound (n + h_size h - 1) (h_size h)). nia. }
  pose proof (phash_loop_spec h secret seed m 0) as E. cbn [A] in E.
  change (P_hash h secret seed 0) with (@nil Z) in E. cbn [Nat.add] in E.
  rewrite E, slice_ok by (rewrite ?P_hash_len by done; lia). unfold sub. rewrite Z.sub_0_r, drop_0. f_equal.
  assert (m ≤ k)%nat as Hmk.
  { assert (Z.of_nat m ≤ Z.of_nat k); [|lia]. rewrite Em. apply Z.lt_succ_r, Z.div_lt_upper_bound; nia. }
  destruct (P_hash_prefix h secret seed m (k - m)) as [r Er]. replace (m + (k - m))%nat with k in Er by lia.
  rewrite Er. pose proof (P_hash_len h secret seed m Hh) as Hl. unfold len in Hl. by rewrite take_app_le by lia.
Qed.

Lemma PHash_Ok h secret seed n : hash_ok h → 0 ≤ n → ∃ out, PHash secret seed n h = Ok out ∧ len out = n.
Proof.
  intros Hh Hn. pose proof (hk_size _ Hh).
  rewrite (PHash_stream h secret seed n (Z.to_nat n)) by (done || nia). eexists. split; [done|].
  pose proof (P_hash_len h secret seed (Z.to_nat n) Hh) as Hl. unfold len in *. rewrite length_take. nia.
Qed.

Lemma put_u16_mid l old v k off : off = len l → length old = 2%nat →
  put_u16 (l ++ old ++ k) off v = Ok (l ++ be_put 2 v ++ k).
Proof.
  intros -> Ho. unfold put_u16, len. rewrite !length_app, Ho.
  rewrite (proj2 (Z.leb_le 0 _)), (proj2 (Z.leb_le (_ + 2) _)) by lia. cbn [andb].
  rewrite Nat2Z.id, take_app_length. repeat f_equal. rewrite (assoc_L (++)).
  by rewrite drop_app_length' by (rewrite length_app; lia).
Qed.

Lemma put_u16_len l off v : put_u16 l off v = Panic ∨ ∃ l', put_u16 l off v = Ok l' ∧ len l' = len l.
Proof.
  unfold put_u16. destruct (Z.leb_spec 0 off), (Z.leb_spec (off + 2) (len l)); cbn [andb]; [|by left..].
  right. eexists. split; [done|]. rewrite !len_app, len_be_put. unfold len in *. rewrite length_take, length_drop. lia.
Qed.

Lemma put_u16_short l off v : len l < off + 2 → put_u16 l off v = Panic.
Proof. intros. unfold put_u16. destruct (Z.leb_spec (off + 2) (len l)); [lia|]. by rewrite andb_false_r. Qed.

Lemma zeros_app n m : 0 ≤ n → 0 ≤ m → zeros (n + m) = zeros n ++ zeros m.
Proof. intros. unfold zeros. by rewrite Z2Nat.inj_add, replicate_add. Qed.

(** The six keys, one after the other, are the key block. *)
Lemma keys_partition h ms cr sr macLen keyLen ivLen k :
  hash_ok h → 0 ≤ macLen → 0 ≤ keyLen → 0 ≤ ivLen → 2 * macLen + 2 * keyLen + 2 * ivLen ≤ Z.of_nat k * h_size h →
  ∃ keys, GenerateEncryptionKeys ms cr sr macLen keyLen ivLen h = Ok keys ∧ ek_MasterSecret keys = ms ∧
    len (ClientMACKey keys) = macLen ∧ len (ServerMACKey keys) = macLen ∧
    len (ClientWriteKey keys) = keyLen ∧ len (ServerWriteKey keys) = keyLen ∧
    len (ClientWriteIV keys) = ivLen ∧ len (ServerWriteIV keys) = ivLen ∧
    ClientMACKey keys ++ ServerMACKey keys ++ ClientWriteKey keys ++ ServerWriteKey keys ++
      ClientWriteIV keys ++ ServerWriteIV keys =
    take (Z.to_nat (2 * macLen + 2 * keyLen + 2 * ivLen)) (P_hash h ms (keyExpansionLabel ++ sr ++ cr) k).
Proof.
  intros Hh Hm Hk Hi Hle. unfold GenerateEncryptionKeys.
  rewrite (PHash_stream h ms _ _ k) by (done || lia). cbn [mbind res_bind].
  set (km := take _ _). assert (len km = 2 * macLen + 2 * keyLen + 2 * ivLen) as Hlen.
  { unfold km, len. rewrite length_take. pose proof (P_hash_len h ms (keyExpansionLabel ++ sr ++ cr) k Hh) as Hl. unfold len in Hl. lia. }
  clearbody km. destruct (split_len km macLen) as (k1 & m1 & -> & H1); [lia|]. rewrite len_app in Hlen.
  destruct (split_len m1 macLen) as (k2 & m2 & -> & H2); [lia|]. rewrite len_app in Hlen.
  destruct (split_len m2 keyLen) as (k3 & m3 & -> & H3); [lia|]. rewrite len_app in Hlen.
  destruct (split_len m3 keyLen) as (k4 & m4 & -> & H4); [lia|]. rewrite len_app in Hlen.
  destruct (split_len m4 ivLen) as (k5 & k6 & -> & H5); [lia|]. rewrite len_app in Hlen.
  do 5 (rewrite slice_app_l by lia; cbn [mbind res_bind]; rewrite slice_from_app by lia; cbn [mbind res_bind]).
  rewrite slice_ok, <- (app_nil_r k6), sub_app_l by (rewrite ?app_nil_r; lia). cbn [mbind res_bind].
  eexists. split; [done|]. cbn. rewrite app_nil_r. split_and!; (done || lia).
Qed.

Lemma keys_lengths h ms cr sr macLen keyLen ivLen : hash_ok h → 0 ≤ macLen → 0 ≤ keyLen → 0 ≤ ivLen →
  ∃ keys, GenerateEncryptionKeys ms cr sr macLen keyLen ivLen h = Ok keys ∧
    len (ClientMACKey keys) = macLen ∧ len (ServerMACKey keys) = macLen ∧
    len (ClientWriteKey keys) = keyLen ∧ len (ServerWriteKey keys) = keyLen ∧
    len (ClientWriteIV keys) = ivLen ∧ len (ServerWriteIV keys) = ivLen.
Proof.
  intros Hh Hm Hk Hi. pose proof (hk_size _ Hh).
  destruct (keys_partition h ms cr sr macLen keyLen ivLen (Z.to_nat (2 * macLen + 2 * keyLen + 2 * ivLen)))
    as (keys & ? & ? & ? & ? & ? & ? & ? & ? & _); [done..|nia|]. by exists keys.
Qed.

(** ** Properties *)

(** [PHash] equals P_hash of RFC 5246: for every secret, seed and length it
    returns the first [n] bytes of the concatenated blocks
    HMAC(secret, A(i) + seed), however many blocks are written down. *)
Theorem PHash_is_P_hash h secret seed n k : hash_ok h → 0 ≤ n ≤ Z.of_nat k * h_size h →
  PHash secret seed n h = Ok (take (Z.to_nat n) (P_hash h secret seed k)).
Proof. apply PHash_stream. Qed.

Lemma PHash_is_P_hash_witness :
  PHash [1; 2; 3] [4; 5] 40 Sha2.sha256 = Ok (take 40 (P_hash Sha2.sha256 [1; 2; 3] [4; 5] 3)).
Proof. apply (PHash_is_P_hash Sha2.sha256 [1; 2; 3] [4; 5] 40 3); [exact Sha2.sha256_ok|cbn; lia]. Defined.

(** the key block is cut as RFC 5246 section 6.3 says: for every master
    secret and pair of randoms the six keys have their lengths and are, one after
    the other, the first bytes of P_hash over "key expansion" and the randoms. *)
Theorem encryption_keys_partition h ms cr sr macLen keyLen ivLen k :
  hash_ok h → 0 ≤ macLen → 0 ≤ keyLen → 0 ≤ ivLen → 2 * macLen + 2 * keyLen + 2 * ivLen ≤ Z.of_nat k * h_size h →
  ∃ keys, GenerateEncryptionKeys ms cr sr macLen keyLen ivLen h = Ok keys ∧ ek_MasterSecret keys = ms ∧
    len (ClientMACKey keys) = macLen ∧ len (ServerMACKey keys) = macLen ∧
    len (ClientWriteKey keys) = keyLen ∧ len (ServerWriteKey keys) = keyLen ∧
    len (ClientWriteIV keys) = ivLen ∧ len (ServerWriteIV keys) = ivLen ∧
    ClientMACKey keys ++ ServerMACKey keys ++ ClientWriteKey keys ++ ServerWriteKey keys ++
      ClientWriteIV keys ++ ServerWriteIV keys =
    take (Z.to_nat (2 * macLen + 2 * keyLen + 2 * ivLen)) (P_hash h ms (keyExpansionLabel ++ sr ++ cr) k).
Proof. apply keys_partition. Qed.

Lemma encryption_keys_partition_witness :
  ∃ keys, GenerateEncryptionKeys [7] [1] [2] 0 16 4 Sha2.sha256 = Ok keys ∧ len (ServerWriteIV keys) = 4.
Proof.
  destruct (encryption_keys_partition Sha2.sha256 [7] [1] [2] 0 16 4 2) as (keys & E & _ & _ & _ & _ & _ & _ & Hiv & _);
    [exact Sha2.sha256_ok|lia..|cbn; lia|]. exact (ex_intro _ keys (conj E Hiv)).
Defined.

(** the premaster secret of a pre-shared key is the structure of RFC 4279
    for every key shorter than 65532 bytes, and computing it panics for keys of
    65532 and 65533 bytes, where the uint16 arithmetic wraps. *)
Theorem psk_premaster_format psk :
  (len psk < 65532 → PSKPreMasterSecret psk = Ok (be_put 2 (len psk) ++ zeros (len psk) ++ be_put 2 (len psk) ++ psk)) ∧
  (len psk = 65532 ∨ len psk = 65533 → PSKPreMasterSecret psk = Panic).
Proof.
  pose proof (len_nonneg psk). unfold PSKPreMasterSecret. split; intros Hl.
  - rewrite !(u16_small (len psk)), (u16_small (2 + len psk + 2)), (u16_small (2 + len psk)) by (unfold is_u16; lia).
    rewrite !zeros_app by lia. rewrite <- !(assoc_L (++)).
    pose proof (put_u16_mid [] (zeros 2) (len psk) (zeros (len psk) ++ zeros 2 ++ psk) 0 eq_refl eq_refl) as E.
    rewrite !app_nil_l in E. rewrite E. cbn [mbind res_bind]. rewrite (assoc_L (++)).
    rewrite (put_u16_mid _ (zeros 2)); [by rewrite <- (assoc_L (++))| |done].
    rewrite len_app, len_be_put, len_zeros by lia. done.
  - rewrite !(u16_small (len psk)) by (unfold is_u16; lia). set (out := zeros _ ++ psk).
    destruct (put_u16_len out 0 (len psk)) as [->|(out' & -> & Hout)]; [done|]. cbn [mbind res_bind].
    apply put_u16_short. rewrite Hout. unfold out. rewrite len_app, len_zeros by (apply u16_range).
    by destruct Hl as [-> | ->].
Qed.

Lemma psk_premaster_format_witness : PSKPreMasterSecret [9; 8] = Ok [0; 2; 0; 0; 0; 2; 9; 8].
Proof. apply (psk_premaster_format [9; 8]). done. Defined.

End Prf.

(** ** Key exchange *)

Module KeyExchange.

(** crypto/ecdh and crypto/mlkem: a key is its bytes, the randomness an
    argument.  [ecdh] functions are called for X25519 and P-384. *)
Class KeyAgreement := {
  ecdh_GenerateKey : Z → Z → res dtls_error bytes;
  ecdh_PublicKey : Z → bytes → bytes;
  ecdh_NewPrivateKey : Z → bytes → res dtls_error bytes;
  ecdh_NewPublicKey : Z → bytes → res dtls_error bytes;
  ecdh_ECDH : Z → bytes → bytes → res dtls_error bytes;
  mlkem_GenerateKey768 : Z → res dtls_error bytes;
  mlkem_EncapsulationKey : bytes → bytes;
  mlkem_NewDecapsulationKey768 : bytes → res dtls_error bytes;
  mlkem_Decapsulate : bytes → bytes → res dtls_error bytes;
  mlkem_NewEncapsulationKey768 : bytes → res dtls_error bytes;
  mlkem_Encapsulate : bytes → Z → bytes * bytes
}.

Definition SeedSize : Z := 64.
Definition SharedKeySize : Z := 32.
Definition CiphertextSize768 : Z := 1088.
Definition EncapsulationKeySize768 : Z := 1184.

Definition X25519KeySize : Z := 32.
Definition X25519MLKEM768ClientPublicKeySize : Z := EncapsulationKeySize768 + X25519KeySize.
Definition X25519MLKEM768ServerPublicKeySize : Z := CiphertextSize768 + X25519KeySize.
Definition X25519MLKEM768ClientPrivateKeySize : Z := SeedSize + X25519KeySize.
Definition X25519MLKEM768ServerPrivateKeySize : Z := SharedKeySize + X25519KeySize.

Record Keypair := MkKeypair { kp_Curve : Z; kp_PublicKey : bytes; kp_PrivateKey : bytes }.

Section exchange.
Context `{KeyAgreement}.

Definition toECDH (c : Z) : res dtls_error Z :=
  if c =? X25519 then Ok X25519 else
  if c =? P384 then Ok P384 else Err ErrInvalidNamedCurveFatal.

Definition generateECDHKeypair (curve r : Z) : res dtls_error Keypair :=
  ec ← toECDH curve;
  sk ← ecdh_GenerateKey ec r;
  Ok (MkKeypair curve (ecdh_PublicKey ec sk) sk).

Definition generateX25519MLKEM768ClientKeypair (r : Z * Z) : res dtls_error Keypair :=
  mlkemSecretKey ← mlkem_GenerateKey768 r.1;
  x25519Keypair ← generateECDHKeypair X25519 r.2;
  Ok (MkKeypair X25519MLKEM768 (mlkem_EncapsulationKey mlkemSecretKey ++ kp_PublicKey x25519Keypair)
        (mlkemSecretKey ++ kp_PrivateKey x25519Keypair)).

Definition generateX25519MLKEM768ServerKeypair (peerPublicKey : bytes) (r : Z * Z) : res dtls_error Keypair :=
  if negb (len peerPublicKey =? X25519MLKEM768ClientPublicKeySize) then Err ErrLengthMismatch else
  k ← slice peerPublicKey 0 EncapsulationKeySize768;
  mlkemEncapsulationKey ← mlkem_NewEncapsulationKey768 k;
  let '(mlkemSharedKey, mlkemCiphertext) := mlkem_Encapsulate mlkemEncapsulationKey r.1 in
  x25519Keypair ← generateECDHKeypair X25519 r.2;
  Ok (MkKeypair X25519MLKEM768 (mlkemCiphertext ++ kp_PublicKey x25519Keypair)
        (mlkemSharedKey ++ kp_PrivateKey x25519Keypair)).

Definition GenerateKeypair (curve : Z) (r : Z * Z) : res dtls_error Keypair :=
  if curve =? X25519MLKEM768 then generateX25519MLKEM768ClientKeypair r else generateECDHKeypair curve r.1.

Definition GenerateKeypairForPeer (curve : Z) (peerPublicKey : bytes) (r : Z * Z) : res dtls_error Keypair :=
  if curve =? X25519MLKEM768 then generateX25519MLKEM768ServerKeypair peerPublicKey r else generateECDHKeypair curve r.1.

Definition ecdhPreMasterSecret (publicKey privateKey : bytes) (curve : Z) : res dtls_error bytes :=
  ec ← (if curve =? X25519 then Ok X25519 else if curve =? P384 then Ok P384 else Err ErrInvalidNamedCurveFatal);
  sk ← ecdh_NewPrivateKey ec privateKey;
  pk ← ecdh_NewPublicKey ec publicKey;
  ecdh_ECDH ec sk pk.

Definition x25519MLKEM768ClientPreMasterSecret (serverPublicKey clientPrivateKey : bytes) : res dtls_error bytes :=
  if negb (len serverPublicKey =? X25519MLKEM768ServerPublicKeySize) then Err ErrLengthMismatch else
  seed ← slice clientPrivateKey 0 SeedSize;
  mlkemSecretKey ← mlkem_NewDecapsulationKey768 seed;
  ct ← slice serverPublicKey 0 CiphertextSize768;
  mlkemSharedKey ← mlkem_Decapsulate mlkemSecretKey ct;
  pk ← slice_from serverPublicKey CiphertextSize768;
  sk ← slice_from clientPrivateKey SeedSize;
  x25519SharedKey ← ecdhPreMasterSecret pk sk X25519;
  Ok (mlkemSharedKey ++ x25519SharedKey).

Definition x25519MLKEM768ServerPreMasterSecret (clientPublicKey serverPrivateKey : bytes) : res dtls_error bytes :=
  if negb (len clientPublicKey =? X25519MLKEM768ClientPublicKeySize) then Err ErrLengthMismatch else
  pk ← slice_from clientPublicKey EncapsulationKeySize768;
  sk ← slice_from serverPrivateKey SharedKeySize;
  x25519SharedKey ← ecdhPreMasterSecret pk sk X25519;
  shared ← slice serverPrivateKey 0 SharedKeySize;
  Ok (shared ++ x25519SharedKey).

Definition x25519MLKEM768PreMasterSecret (publicKey privateKey : bytes) : res dtls_error bytes :=
  if len privateKey =? X25519MLKEM768ClientPrivateKeySize then x25519MLKEM768ClientPreMasterSecret publicKey privateKey else
  if len privateKey =? X25519MLKEM768ServerPrivateKeySize then x25519MLKEM768ServerPreMasterSecret publicKey privateKey else
  Err ErrLengthMismatch.

Definition PreMasterSecret (publicKey privateKey : bytes) (curve : Z) : res dtls_error bytes :=
  if curve =? X25519MLKEM768 then x25519MLKEM768PreMasterSecret publicKey privateKey
  else ecdhPreMasterSecret publicKey privateKey curve.

Definition EcdhePSKPreMasterSecret (psk publicKey privateKey : bytes) (curve : Z) : res dtls_error bytes :=
  preMasterSecret ← PreMasterSecret publicKey privateKey curve;
  Ok (be_put 2 (len preMasterSecret) ++ preMasterSecret ++ be_put 2 (len psk) ++ psk).

End exchange.

(** What the code relies on: keys that were generated are accepted, have the
    documented sizes, and both sides compute the same secret. *)
Class KeyAgreementLaws `{KeyAgreement} := {
  ecdh_private c r sk : ecdh_GenerateKey c r = Ok sk → ecdh_NewPrivateKey c sk = Ok sk;
  ecdh_public c r sk : ecdh_GenerateKey c r = Ok sk → ecdh_NewPublicKey c (ecdh_PublicKey c sk) = Ok (ecdh_PublicKey c sk);
  ecdh_private_len r sk : ecdh_GenerateKey X25519 r = Ok sk → len sk = X25519KeySize;
  ecdh_public_len r sk : ecdh_GenerateKey X25519 r = Ok sk → len (ecdh_PublicKey X25519 sk) = X25519KeySize;
  ecdh_agree c r r' sk sk' : ecdh_GenerateKey c r = Ok sk → ecdh_GenerateKey c r' = Ok sk' →
    ∃ z, ecdh_ECDH c sk (ecdh_PublicKey c sk') = Ok z ∧ ecdh_ECDH c sk' (ecdh_PublicKey c sk) = Ok z;
  mlkem_seed_len r dk : mlkem_GenerateKey768 r = Ok dk → len dk = SeedSize;
  mlkem_ek_len r dk : mlkem_GenerateKey768 r = Ok dk → len (mlkem_EncapsulationKey dk) = EncapsulationKeySize768;
  mlkem_private r dk : mlkem_GenerateKey768 r = Ok dk → mlkem_NewDecapsulationKey768 dk = Ok dk;
  mlkem_public r dk : mlkem_GenerateKey768 r = Ok dk →
    mlkem_NewEncapsulationKey768 (mlkem_EncapsulationKey dk) = Ok (mlkem_EncapsulationKey dk);
  mlkem_shared_len ek r : len (mlkem_Encapsulate ek r).1 = SharedKeySize;
  mlkem_ciphertext_len ek r : len (mlkem_Encapsulate ek r).2 = CiphertextSize768;
  mlkem_agree r dk r' : mlkem_GenerateKey768 r = Ok dk →
    mlkem_Decapsulate dk (mlkem_Encapsulate (mlkem_EncapsulationKey dk) r').2 =
    Ok (mlkem_Encapsulate (mlkem_EncapsulationKey dk) r').1
}.

(** An implementation that satisfies them. *)
#[local] Instance toy_agreement : KeyAgreement := {|
  ecdh_GenerateKey _ r := Ok (be_put 32 r);
  ecdh_PublicKey _ sk := sk;
  ecdh_NewPrivateKey _ k := Ok k;
  ecdh_NewPublicKey _ k := Ok k;
  ecdh_ECDH _ a b := Ok (zip_with Z.lxor a b);
  mlkem_GenerateKey768 r := Ok (be_put 64 r);
  mlkem_EncapsulationKey dk := take 64 (dk ++ zeros 64) ++ zeros 1120;
  mlkem_NewDecapsulationKey768 k := Ok k;
  mlkem_Decapsulate _ ct := Ok (take 32 ct);
  mlkem_NewEncapsulationKey768 k := Ok k;
  mlkem_Encapsulate _ r := (be_put 32 r, be_put 32 r ++ zeros 1056)
|}.

#[local] Instance toy_agreement_laws : KeyAgreementLaws.
Proof.
  split; try (intros; done).
  - by intros r sk [= <-].
  - by intros r sk [= <-].
  - intros c r r' sk sk' [= <-] [= <-]. cbn [ecdh_ECDH ecdh_PublicKey toy_agreement]. eexists. split; [done|]. f_equal. apply list_eq. intros i. rewrite !lookup_zip_with.
    destruct (_ !! i), (_ !! i); cbn; [|done..]. by rewrite Z.lxor_comm.
  - by intros r dk [= <-].
  - intros r dk _. cbn [mlkem_EncapsulationKey toy_agreement]. unfold len, zeros.
    rewrite length_app, length_take, length_app, !length_replicate.
    change (Z.to_nat 64) with 64%nat. change (Z.to_nat 1120) with 1120%nat. unfold EncapsulationKeySize768. lia.
Qed.

(** *** Lemmas *)

Section laws.
Context `{KeyAgreementLaws}.

Lemma toECDH_inv c ec : toECDH c = Ok ec → ec = c ∧ (c = X25519 ∨ c = P384).
Proof.
  unfold toECDH. destruct (Z.eqb_spec c X25519) as [->|]; [intros [= <-]; auto|].
  destruct (Z.eqb_spec c P384) as [->|]; intros [= <-]. auto.
Qed.

Lemma generateECDH_inv c r kp : generateECDHKeypair c r = Ok kp →
  (c = X25519 ∨ c = P384) ∧ ∃ sk, ecdh_GenerateKey c r = Ok sk ∧ kp = MkKeypair c (ecdh_PublicKey c sk) sk.
Proof.
  unfold generateECDHKeypair. intros (ec & [-> Hc]%toECDH_inv & (sk & Hg & [= <-])%bind_Ok_inv)%bind_Ok_inv. eauto.
Qed.

Lemma ecdh_pre_agree c r r' kp kp' : generateECDHKeypair c r = Ok kp → generateECDHKeypair c r' = Ok kp' →
  ∃ z, ecdhPreMasterSecret (kp_PublicKey kp') (kp_PrivateKey kp) c = Ok z ∧ ecdhPreMasterSecret (kp_PublicKey kp) (kp_PrivateKey kp') c = Ok z.
Proof.
  intros (Hc & sk & Hg & ->)%generateECDH_inv (_ & sk' & Hg' & ->)%generateECDH_inv.
  assert (∀ a b, ecdhPreMasterSecret a b c = (sk ← ecdh_NewPrivateKey c b; pk ← ecdh_NewPublicKey c a; ecdh_ECDH c sk pk)) as E.
  { intros a b. unfold ecdhPreMasterSecret. by destruct Hc as [-> | ->]. }
  rewrite !E. cbn [kp_PublicKey kp_PrivateKey].
  rewrite (ecdh_private c r sk Hg), (ecdh_private c r' sk' Hg'). cbn [mbind res_bind].
  rewrite (ecdh_public c r sk Hg), (ecdh_public c r' sk' Hg'). cbn [mbind res_bind]. by eapply ecdh_agree.
Qed.

(** The hybrid group: the shares are concatenations of known sizes. *)
Lemma hybrid_agrees r r' kp kp' : generateX25519MLKEM768ClientKeypair r = Ok kp →
  generateX25519MLKEM768ServerKeypair (kp_PublicKey kp) r' = Ok kp' →
  ∃ z, let secret := take 32 (kp_PrivateKey kp') ++ z in
    x25519MLKEM768PreMasterSecret (kp_PublicKey kp') (kp_PrivateKey kp) = Ok secret ∧
    x25519MLKEM768PreMasterSecret (kp_PublicKey kp) (kp_PrivateKey kp') = Ok secret.
Proof.
  unfold generateX25519MLKEM768ClientKeypair. intros (dk & Hdk & (x & Hx & [= <-])%bind_Ok_inv)%bind_Ok_inv.
  destruct (generateECDH_inv _ _ _ Hx) as (_ & sk & Hsk & ->). cbn [kp_PublicKey kp_PrivateKey].
  pose proof (mlkem_seed_len _ _ Hdk) as Hseed. pose proof (mlkem_ek_len _ _ Hdk) as Hek.
  pose proof (ecdh_private_len _ _ Hsk) as Hskl. pose proof (ecdh_public_len _ _ Hsk) as Hpkl.
  unfold generateX25519MLKEM768ServerKeypair. unfold X25519MLKEM768ClientPublicKeySize. rewrite len_app, Hek, Hpkl, Z.eqb_refl. cbn [negb].
  rewrite slice_app_l by done. cbn [mbind res_bind]. rewrite (mlkem_public _ _ Hdk). cbn [mbind res_bind].
  destruct (mlkem_Encapsulate (mlkem_EncapsulationKey dk) r'.1) as [shared ct] eqn:Ee.
  pose proof (mlkem_shared_len (mlkem_EncapsulationKey dk) r'.1) as Hsh.
  pose proof (mlkem_ciphertext_len (mlkem_EncapsulationKey dk) r'.1) as Hct.
  pose proof (mlkem_agree _ _ r'.1 Hdk) as Hagree. rewrite Ee in Hsh, Hct, Hagree. cbn [fst snd] in Hsh, Hct, Hagree.
  intros (y & Hy & [= <-])%bind_Ok_inv. destruct (ecdh_pre_agree _ _ _ _ _ Hx Hy) as (z & Hz & Hz').
  destruct (generateECDH_inv _ _ _ Hy) as (_ & sk' & Hsk' & ->). cbn [kp_PublicKey kp_PrivateKey] in *.
  pose proof (ecdh_private_len _ _ Hsk') as Hskl'. pose proof (ecdh_public_len _ _ Hsk') as Hpkl'.
  unfold x25519MLKEM768PreMasterSecret. rewrite !len_app, Hseed, Hskl, Hsh, Hskl', Z.eqb_refl.
  change (SharedKeySize + X25519KeySize =? X25519MLKEM768ClientPrivateKeySize) with false. rewrite Z.eqb_refl.
  unfold x25519MLKEM768ClientPreMasterSecret, x25519MLKEM768ServerPreMasterSecret, X25519MLKEM768ServerPublicKeySize,
    X25519MLKEM768ClientPublicKeySize. rewrite !len_app, Hct, Hpkl', Hek, Hpkl, !Z.eqb_refl. cbn [negb].
  rewrite !slice_app_l by done. cbn [mbind res_bind]. rewrite (mlkem_private _ _ Hdk). cbn [mbind res_bind].
  rewrite Hagree. cbn [mbind res_bind]. rewrite !slice_from_app by done. cbn [mbind res_bind].
  exists z. rewrite Hz, Hz'. cbn [mbind res_bind]. rewrite take_app_le, take_ge by (unfold len, SharedKeySize in Hsh; lia). done.
Qed.

(** The server's private key begins with the key that it encapsulated. *)
Lemma server_key_len pub r kp : generateX25519MLKEM768ServerKeypair pub r = Ok kp → (32 ≤ length (kp_PrivateKey kp))%nat.
Proof.
  unfold generateX25519MLKEM768ServerKeypair. destruct (negb _); [done|]. intros (k & _ & E)%bind_Ok_inv. apply bind_Ok_inv in E as (ek & _ & E).
  pose proof (mlkem_shared_len ek r.1) as Hl. destruct (mlkem_Encapsulate ek r.1) as [shared ct]. apply bind_Ok_inv in E as (x & _ & [= <-]).
  cbn [kp_PrivateKey fst] in *. unfold len, SharedKeySize in Hl. rewrite length_app. lia.
Qed.

(** The two sides of an exchange in any group. *)
Lemma premaster_agrees curve r r' client server :
  GenerateKeypair curve r = Ok client → GenerateKeypairForPeer curve (kp_PublicKey client) r' = Ok server →
  ∃ secret, PreMasterSecret (kp_PublicKey server) (kp_PrivateKey client) curve = Ok secret ∧
    PreMasterSecret (kp_PublicKey client) (kp_PrivateKey server) curve = Ok secret ∧
    (curve = X25519MLKEM768 → take 32 secret = take 32 (kp_PrivateKey server) ∧ (32 ≤ length secret)%nat).
Proof.
  unfold GenerateKeypair, GenerateKeypairForPeer, PreMasterSecret. destruct (Z.eqb_spec curve X25519MLKEM768) as [->|Hc].
  - intros Hk Hk'. destruct (hybrid_agrees _ _ _ _ Hk Hk') as (z & Hz & Hz'). eexists. split_and!; [exact Hz|exact Hz'|]. intros _.
    pose proof (server_key_len _ _ _ Hk'). rewrite take_app_le, take_take by (rewrite length_take; lia). split; [done|]. rewrite length_app, length_take. lia.
  - intros Hk Hk'. destruct (ecdh_pre_agree _ _ _ _ _ Hk Hk') as (z & Hz & Hz'). by exists z.
Qed.

Lemma group_cases curve r kp : GenerateKeypair curve r = Ok kp → curve = X25519 ∨ curve = P384 ∨ curve = X25519MLKEM768.
Proof.
  unfold GenerateKeypair. destruct (Z.eqb_spec curve X25519MLKEM768) as [->|_]; [auto|]. intros ([?|?] & _)%generateECDH_inv; auto.
Qed.

(** *** Property *)

(** C30: the two sides of a key exchange get one secret.  Key pairs exist for the
    groups X25519, P-384 and X25519MLKEM768, and for no other.  When the client has
    made its key pair and the server, with the client's share, its own, then neither
    computation of the premaster secret fails, and both give the same secret, also
    in the hybrid group, where the shares and the private keys of the two sides have
    different layouts; there the secret begins with the key that the server
    encapsulated.  The same holds for the secret of a suite with a PSK and ECDHE. *)
Theorem key_exchange_agrees curve r r' client server :
  GenerateKeypair curve r = Ok client → GenerateKeypairForPeer curve (kp_PublicKey client) r' = Ok server →
  (curve = X25519 ∨ curve = P384 ∨ curve = X25519MLKEM768) ∧
  ∃ secret, PreMasterSecret (kp_PublicKey server) (kp_PrivateKey client) curve = Ok secret ∧
    PreMasterSecret (kp_PublicKey client) (kp_PrivateKey server) curve = Ok secret ∧
    (curve = X25519MLKEM768 → take 32 secret = take 32 (kp_PrivateKey server) ∧ (32 ≤ length secret)%nat) ∧
    ∀ psk, ∃ secret', EcdhePSKPreMasterSecret psk (kp_PublicKey server) (kp_PrivateKey client) curve = Ok secret' ∧
      EcdhePSKPreMasterSecret psk (kp_PublicKey client) (kp_PrivateKey server) curve = Ok secret'.
Proof.
  intros Hc Hs. split; [by eapply group_cases|]. destruct (premaster_agrees _ _ _ _ _ Hc Hs) as (z & Hz & Hz' & Hh). exists z. split_and!; [done..|].
  intros psk. unfold EcdhePSKPreMasterSecret. rewrite Hz, Hz'. by eexists.
Qed.

End laws.

Lemma key_exchange_agrees_witness : ∃ secret,
  PreMasterSecret (be_put 32 3 ++ zeros 1056 ++ be_put 32 4) (be_put 64 1 ++ be_put 32 2) X25519MLKEM768 = Ok secret ∧
  PreMasterSecret (be_put 64 1 ++ zeros 1120 ++ be_put 32 2) (be_put 32 3 ++ be_put 32 4) X25519MLKEM768 = Ok secret.
Proof.
  pose proof (key_exchange_agrees X25519MLKEM768 (1, 2) (3, 4)
    (MkKeypair X25519MLKEM768 (be_put 64 1 ++ zeros 1120 ++ be_put 32 2) (be_put 64 1 ++ be_put 32 2))
    (MkKeypair X25519MLKEM768 (be_put 32 3 ++ zeros 1056 ++ be_put 32 4) (be_put 32 3 ++ be_put 32 4))) as E.
  destruct E as (_ & secret & E & E' & _); [vm_compute; reflexivity..|]. exists secret. split; [exact E|exact E'].
Defined.

End KeyExchange.

(** ** The key derivation of DTLS 1.3 *)

Module KeySchedule.

(** crypto/hkdf: a missing salt is as long as the hash. *)
Definition hkdf_Extract (h : Hash) (secret salt : bytes) : bytes :=
  hmac h (if len salt =? 0 then zeros (h_size h) else salt) secret.

(** The loop of Expand: [counter] is a byte, [buf] the previous block. *)
Fixpoint hkdf_loop (fuel : nat) (h : Hash) (prk info : bytes) (counter : Z) (buf out : bytes) (keyLength : Z) : res dtls_error bytes :=
  if len out <? keyLength then
    match fuel with
    | O => Panic
    | S fuel =>
        let counter := u8 (counter + 1) in
        if counter =? 0 then Panic else
        let buf := hmac h prk ((if 1 <? counter then buf else []) ++ info ++ [counter]) in
        let remain := Z.min (keyLength - len out) (len buf) in
        hkdf_loop fuel h prk info counter buf (out ++ sub 0 remain buf) keyLength
    end
  else Ok out.

Definition hkdf_Expand (h : Hash) (prk info : bytes) (keyLength : Z) : res dtls_error bytes :=
  if h_size h * 255 <? keyLength then Err (ErrOther (gs "hkdf: requested key length too large")) else
  if keyLength <? 0 then Panic else
  hkdf_loop 256 h prk info 0 [] [] keyLength.

Definition DTLS13prefix : gostring := gs "dtls13".

Definition HkdfExtract (hash : option Hash) (salt ikm : bytes) : res dtls_error bytes :=
  match hash with
  | None => Err ErrKeyScheduleMissingHashFunction
  | Some h => Ok (hkdf_Extract h ikm salt)
  end.

Section cryptobyte.
Context `{Cryptobyte}.

Definition HkdfExpandLabel (hash : option Hash) (secret : bytes) (label : gostring) (context : bytes) (length : Z)
    : res dtls_error bytes :=
  let fullLabel := DTLS13prefix ++ label in
  match hash with
  | None => Err ErrKeyScheduleMissingHashFunction
  | Some h =>
      if len fullLabel <? 7 then Err ErrKeyScheduleLabelTooSmall else
      if 255 <? len fullLabel then Err ErrKeyScheduleLabelTooBig else
      if 255 <? len context then Err ErrKeyScheduleContextTooBig else
      if h_size h * 255 <? length then Err ErrKeyScheduleLengthTooBig else
      let builder := AddUint 2 NewBuilder (u16 length) in
      let builder := AddPrefixed 1 builder (λ b, AddBytes b fullLabel) in
      let builder := AddPrefixed 1 builder (λ b, AddBytes b context) in
      hkdfLabel ← Bytes builder;
      hkdf_Expand h secret hkdfLabel length
  end.

(** A running hash is the function and the bytes written to it. *)
Definition DeriveSecret (hash : option Hash) (secret : bytes) (label : gostring) (transcriptHash : option (Hash * bytes))
    : res dtls_error bytes :=
  match hash with
  | None => Err ErrKeyScheduleMissingHashFunction
  | Some h =>
      let '(th, written) := match transcriptHash with Some t => t | None => (h, []) end in
      HkdfExpandLabel hash secret label (h_sum th written) (h_size th)
  end.

(** *** Specification: RFC 5869 and RFC 8446, section 7.1 *)

(** T(i) *)
Fixpoint T (h : Hash) (prk info : bytes) (i : nat) : bytes :=
  match i with
  | O => []
  | S i => hmac h prk (T h prk info i ++ info ++ [Z.of_nat (S i)])
  end.

Definition T_blocks (h : Hash) (prk info : bytes) (k : nat) : bytes := concat (map (T h prk info) (seq 1 k)).

(** HkdfLabel *)
Definition hkdf_label (label : gostring) (context : bytes) (length : Z) : bytes :=
  be_put 2 length ++ [len (DTLS13prefix ++ label)] ++ (DTLS13prefix ++ label) ++ [len context] ++ context.

(** *** Lemmas *)

Lemma T_blocks_S h prk info k : T_blocks h prk info (S k) = T_blocks h prk info k ++ T h prk info (S k).
Proof. unfold T_blocks. rewrite seq_S, map_app, concat_app. cbn [map concat]. by rewrite app_nil_r. Qed.

Lemma T_blocks_len h prk info k : hash_ok h → len (T_blocks h prk info k) = Z.of_nat k * h_size h.
Proof.
  intros Hh. induction k as [|k IH]; [done|]. rewrite T_blocks_S, len_app, IH.
  change (T h prk info (S k)) with (hmac h prk (T h prk info k ++ info ++ [Z.of_nat (S k)])).
  rewrite Prf.hmac_len by done. lia.
Qed.

Lemma T_blocks_prefix h prk info k d : ∃ r, T_blocks h prk info (k + d) = T_blocks h prk info k ++ r.
Proof.
  induction d as [|d [r IH]]; [exists []; by rewrite app_nil_r, Nat.add_0_r|].
  exists (r ++ T h prk info (S (k + d))). by rewrite Nat.add_succ_r, T_blocks_S, IH, <- (assoc_L (++)).
Qed.

(** After [i] rounds the output is whole blocks; the last round may cut one. *)
Lemma hkdf_loop_spec h prk info n fuel i : hash_ok h → 0 ≤ n ≤ 255 * h_size h →
  Z.of_nat i * h_size h ≤ n → (256 ≤ fuel + i)%nat →
  hkdf_loop fuel h prk info (Z.of_nat i) (T h prk info i) (T_blocks h prk info i) n =
  Ok (take (Z.to_nat n) (T_blocks h prk info 255)).
Proof.
  intros Hh Hn. pose proof (hk_size _ Hh) as Hs. revert i.
  assert (∀ i, Z.of_nat i * h_size h = n → T_blocks h prk info i = take (Z.to_nat n) (T_blocks h prk info 255)) as Hend.
  { intros i Hi. destruct (T_blocks_prefix h prk info i (255 - i)) as [r Er].
    replace (i + (255 - i))%nat with 255%nat in Er by nia. pose proof (T_blocks_len h prk info i Hh) as Hl.
    rewrite Er, take_app_length'; [done|]. unfold len in Hl. lia. }
  induction fuel as [|fuel IH]; intros i Hi Hf; cbn [hkdf_loop]; rewrite T_blocks_len by done;
    (destruct (Z.ltb_spec (Z.of_nat i * h_size h) n) as [Hlt|]; [|rewrite (Hend i) by lia; done]).
  { exfalso. assert (256 ≤ Z.of_nat i) by lia. nia. }
  assert (Z.of_nat i < 255) as Hi255 by nia.
  assert (u8 (Z.of_nat i + 1) = Z.of_nat (S i)) as -> by (unfold u8; rewrite Z.mod_small by lia; lia).
  destruct (Z.eqb_spec (Z.of_nat (S i)) 0); [lia|].
  assert ((if 1 <? Z.of_nat (S i) then T h prk info i else []) = T h prk info i) as -> by (destruct i; [done|by destruct (Z.ltb_spec 1 (Z.of_nat (S (S i)))); [|lia]]).
  change (hmac h prk (T h prk info i ++ info ++ [Z.of_nat (S i)])) with (T h prk info (S i)).
  assert (len (T h prk info (S i)) = h_size h) as Hlen by (by apply Prf.hmac_len).
  destruct (Z.le_gt_cases (Z.of_nat (S i) * h_size h) n) as [Hle|Hgt].
  - rewrite Z.min_r by lia. rewrite sub_full, <- T_blocks_S. apply IH; lia.
  - rewrite Z.min_l by lia. destruct (T_blocks_prefix h prk info (S i) (255 - S i)) as [r Er].
    replace (S i + (255 - S i))%nat with 255%nat in Er by lia. rewrite Er, T_blocks_S, <- (assoc_L (++)).
    pose proof (T_blocks_len h prk info i Hh) as Hl. unfold len in Hl, Hlen.
    assert (take (Z.to_nat n) (T_blocks h prk info i ++ T h prk info (S i) ++ r) =
      T_blocks h prk info i ++ sub 0 (n - Z.of_nat i * h_size h) (T h prk info (S i))) as ->.
    { rewrite take_app_ge by lia. f_equal. unfold sub. rewrite Z.sub_0_r, drop_0, take_app_le by lia. f_equal. lia. }
    destruct fuel; cbn [hkdf_loop]; rewrite len_app, T_blocks_len, len_sub by (done || (unfold len; lia));
      (destruct (Z.ltb_spec (Z.of_nat i * h_size h + (n - Z.of_nat i * h_size h - 0)) n); [lia|done]).
Qed.

Lemma hkdf_Expand_spec h prk info n : hash_ok h → 0 ≤ n ≤ 255 * h_size h →
  hkdf_Expand h prk info n = Ok (take (Z.to_nat n) (T_blocks h prk info 255)).
Proof.
  intros Hh Hn. unfold hkdf_Expand. destruct (Z.ltb_spec (h_size h * 255) n); [lia|].
  destruct (Z.ltb_spec n 0); [lia|]. apply (hkdf_loop_spec h prk info n 256 0); (done || lia).
Qed.

Lemma expand_label_blocks `{!CryptobyteLaws} h secret label context n :
  hash_ok h → 0 < len label ≤ 249 → len context ≤ 255 → 0 ≤ n ≤ 255 * h_size h → n < 2 ^ 16 →
  HkdfExpandLabel (Some h) secret label context n =
    Ok (take (Z.to_nat n) (T_blocks h secret (hkdf_label label context n) 255)).
Proof.
  intros Hh Hl Hc Hn H16. pose proof (hk_size _ Hh).
  unfold HkdfExpandLabel. rewrite len_app. change (len DTLS13prefix) with 6.
  destruct (Z.ltb_spec (6 + len label) 7); [lia|]. destruct (Z.ltb_spec 255 (6 + len label)); [lia|].
  destruct (Z.ltb_spec 255 (len context)); [lia|]. destruct (Z.ltb_spec (h_size h * 255) n); [lia|].
  rewrite !Bytes_AddPrefixed, Bytes_AddUint, !Bytes_AddBytes, !Bytes_New. cbn [mbind res_bind].
  rewrite !app_nil_l, len_app. change (len DTLS13prefix) with 6. change (2 ^ (8 * Z.of_nat 1)) with 256.
  destruct (Z.ltb_spec (6 + len label) 256); [|lia]. cbn [mbind res_bind].
  destruct (Z.ltb_spec (len context) 256); [|lia]. cbn [mbind res_bind].
  rewrite hkdf_Expand_spec by done. f_equal. f_equal. f_equal. unfold hkdf_label.
  rewrite u16_small by (unfold is_u16; lia). rewrite <- !(assoc_L (++)), len_app. change (len DTLS13prefix) with 6.
  pose proof (len_nonneg context).
  assert (∀ v, 0 ≤ v < 256 → be_put 1 v = [v]) as Hput by (intros v ?; cbn; by rewrite Z.mod_small).
  by rewrite !Hput by lia.
Qed.

(** *** Properties *)

(** deriving a key with a label is HKDF-Expand-Label of RFC 8446 with the
    prefix of RFC 9147: for a label of at most 249 bytes, a context of at most
    255 and a length the hash allows, the result is the first [n] bytes of the
    blocks T(1), T(2), ... over the encoded label, and two different labels,
    contexts or lengths are never encoded alike. *)
Theorem expand_label_spec `{!CryptobyteLaws} h secret label context n :
  hash_ok h → 0 < len label ≤ 249 → len context ≤ 255 → 0 ≤ n ≤ 255 * h_size h → n < 2 ^ 16 →
  HkdfExpandLabel (Some h) secret label context n =
    Ok (take (Z.to_nat n) (T_blocks h secret (hkdf_label label context n) 255)) ∧
  ∀ label' context' n', len label' ≤ 249 → 0 ≤ n' < 2 ^ 16 →
    hkdf_label label context n = hkdf_label label' context' n' → label = label' ∧ context = context' ∧ n = n'.
Proof.
  intros Hh Hl Hc Hn H16. split.
  - by apply expand_label_blocks.
  - intros label' context' n' Hl' Hn' E. unfold hkdf_label in E.
    apply app_inj_1 in E as [En E]; [|by rewrite !length_be_put].
    assert (n = n') as <-. { apply (f_equal be_get) in En. rewrite !be_get_put, !Z.mod_small in En by (cbn; lia). done. }
    apply app_inj_1 in E as [El E]; [|done].
    assert (len (DTLS13prefix ++ label) = len (DTLS13prefix ++ label')) as Elen by congruence.
    apply app_inj_1 in E as [E1 E2]; [|unfold len in Elen; lia].
    apply app_inj_1 in E1 as [_ ->]; [|done]. apply app_inj_1 in E2 as [_ ->]; [|done]. done.
Qed.

End cryptobyte.

Lemma expand_label_spec_witness :
  HkdfExpandLabel (Some Sha2.sha256) [1; 2] (gs "key") [3] 40 =
  Ok (take 40 (T_blocks Sha2.sha256 [1; 2] (hkdf_label (gs "key") [3] 40) 255)).
Proof.
  refine (proj1 (expand_label_spec Sha2.sha256 [1; 2] (gs "key") [3] 40 Sha2.sha256_ok _ _ _ _));
    [split|..|split|]; vm_compute; (reflexivity || discriminate).
Defined.

End KeySchedule.
