(* ===== verification/Record.v ===== *)
(** * DTLS records: headers, datagrams and simple contents
    (src/dtls/pkg/protocol and src/dtls/pkg/protocol/recordlayer)

    [Protocol]: versions, content types and the contents ChangeCipherSpec,
    Alert, ApplicationData and ACK.  [RecordHeader]: the record header of DTLS
    1.2, the unified header and the inner plaintext of DTLS 1.3, and the
    functions that split a datagram into records. *)
From stdpp Require Import base tactics numbers list.
From Stdlib Require Import ZArith Lia.
From S2P Require Import Prelude Wire.
Open Scope Z_scope.

Module Protocol.

Record Version := MkVersion { Major : Z; Minor : Z }.

#[export] Instance Version_eq_dec : EqDecision Version.
Proof. solve_decision. Defined.

Definition Version1_0 : Version := MkVersion 0xfe 0xff.
Definition Version1_2 : Version := MkVersion 0xfe 0xfd.
Definition Version1_3 : Version := MkVersion 0xfe 0xfc.

Definition Version_Equal (v x : Version) : bool := (Major v =? Major x) && (Minor v =? Minor x).

Definition IsSupportedBytes (major minor : Z) : bool :=
  (major =? Major Version1_2) && (minor =? Minor Version1_2).

Definition IsSupportedVersion (v : Version) : bool := Version_Equal v Version1_2.

Definition IsValidBytes (major minor : Z) : bool :=
  (major =? 0xfe) && ((minor =? 0xff) || (minor =? 0xfd) || (minor =? 0xfc)).

Definition IsValidVersion (v : Version) : bool :=
  Version_Equal v Version1_0 || Version_Equal v Version1_2 || Version_Equal v Version1_3.

(** Content types are bytes. *)
Definition ContentTypeChangeCipherSpec : Z := 20.
Definition ContentTypeAlert : Z := 21.
Definition ContentTypeHandshake : Z := 22.
Definition ContentTypeApplicationData : Z := 23.
Definition ContentTypeConnectionID : Z := 25.
Definition ContentTypeACK : Z := 26.

Definition IsDTLS13Ciphertext (ct : Z) : bool := (31 <? ct) && (ct <? 64).

(** ChangeCipherSpec *)
Definition ChangeCipherSpec_Marshal : list Z := [0x01].

Definition ChangeCipherSpec_Unmarshal (data : list Z) : res dtls_error unit :=
  if len data =? 1 then
    b ← idx data 0;
    if b =? 0x01 then Ok tt else Err ErrInvalidCipherSpec
  else Err ErrInvalidCipherSpec.

(** ApplicationData *)
Definition ApplicationData_Marshal (d : list Z) : list Z := d.
Definition ApplicationData_Unmarshal (data : list Z) : res dtls_error (list Z) := Ok data.

(** Alert *)
Record Alert := MkAlert { al_Level : Z; al_Description : Z }.

Definition Alert_Marshal (a : Alert) : list Z := [al_Level a; al_Description a].

Definition Alert_Unmarshal (data : list Z) : res dtls_error Alert :=
  if negb (len data =? 2) then Err ErrBufferTooSmall else
  l ← idx data 0;
  d ← idx data 1;
  Ok (MkAlert l d).

(** ACK *)
Record RecordNumber := MkRecordNumber { rn_Epoch : Z; rn_SequenceNumber : Z }.

Section ack.
Context `{Cryptobyte}.

Definition ACK_Marshal (records : list RecordNumber) : res dtls_error (list Z) :=
  Bytes (AddPrefixed 2 NewBuilder (λ b,
    foldl (λ b r, AddUint 8 (AddUint 8 b (rn_Epoch r)) (rn_SequenceNumber r)) b records)).

(** The loop over the record list; each round takes 16 bytes, so that the
    length of the list is enough fuel. *)
Fixpoint ACK_loop (fuel : nat) (s : list Z) : res dtls_error (list RecordNumber) :=
  match s, fuel with
  | [], _ => Ok []
  | _, O => Panic
  | _, S fuel =>
      '(e, s) ← or_err (ReadUint 8 s) ErrInvalidACK;
      '(n, s) ← or_err (ReadUint 8 s) ErrInvalidACK;
      rs ← ACK_loop fuel s;
      Ok (MkRecordNumber e n :: rs)
  end.

Definition ACK_Unmarshal (data : list Z) : res dtls_error (list RecordNumber) :=
  '(recordList, val) ← or_err (ReadPrefixed 2 data) ErrLengthMismatch;
  _ ← guard (len val =? 0) ErrLengthMismatch;
  ACK_loop (length recordList) recordList.
End ack.

(** Compression methods: only the null method, with identifier 0, is known. *)
Definition known_compression (id : Z) : bool := id =? 0.

Fixpoint DecodeCompressionMethods_loop (count : nat) (i : Z) (buf : list Z) : res dtls_error (list Z) :=
  match count with
  | O => Ok []
  | S count =>
      if len buf <=? i + 1 then Err ErrBufferTooSmall else
      id ← idx buf (i + 1);
      rest ← DecodeCompressionMethods_loop count (i + 1) buf;
      Ok (if known_compression id then id :: rest else rest)
  end.

Definition DecodeCompressionMethods (buf : list Z) : res dtls_error (list Z) :=
  if len buf <? 1 then Err ErrBufferTooSmall else
  n ← idx buf 0;
  DecodeCompressionMethods_loop (Z.to_nat n) 0 buf.

(** The methods are written from the last to the first. *)
Definition EncodeCompressionMethods (c : list Z) : list Z := u8 (len c) :: rev c.

(** ** Lemmas *)

Lemma Version_Equal_spec v x : Version_Equal v x = true ↔ v = x.
Proof.
  unfold Version_Equal. rewrite andb_true_iff, !Z.eqb_eq. destruct v, x; cbn.
  split; [intros [-> ->]; done|by intros [= -> ->]].
Qed.

Definition record_number_ok (r : RecordNumber) : Prop := is_u64 (rn_Epoch r) ∧ is_u64 (rn_SequenceNumber r).

Section ack_lemmas.
Context `{CryptobyteLaws}.

Definition encode_number (r : RecordNumber) : list Z :=
  be_put 8 (rn_Epoch r) ++ be_put 8 (rn_SequenceNumber r).

Lemma len_encode_numbers rs : len (concat (encode_number <$> rs)) = 16 * len rs.
Proof.
  induction rs as [|r rs IH]; [done|]. rewrite fmap_cons. cbn [concat].
  rewrite len_app, IH, len_cons. unfold encode_number. rewrite len_app, !len_be_put. lia.
Qed.

Lemma ACK_loop_roundtrip rs fuel : Forall record_number_ok rs → (length rs ≤ fuel)%nat →
  ACK_loop fuel (concat (encode_number <$> rs)) = Ok rs.
Proof.
  revert fuel. induction rs as [|[e n] rs IH]; intros fuel Hok Hf; [by destruct fuel|].
  apply Forall_cons in Hok as [[He Hn] Hok]. destruct fuel as [|fuel]; [cbn in Hf; lia|].
  rewrite fmap_cons. cbn [concat]. change (encode_number (MkRecordNumber e n)) with (be_put 8 e ++ be_put 8 n).
  cbn [rn_Epoch rn_SequenceNumber] in *.
  destruct ((be_put 8 e ++ be_put 8 n) ++ concat (encode_number <$> rs)) as [|x s] eqn:Es.
  { apply (f_equal length) in Es. rewrite !length_app, !length_be_put in Es. cbn in Es. lia. }
  cbn [ACK_loop]. rewrite <- Es, <- (assoc_L (++)), ReadUint_put by done.
  cbn [or_err mbind res_bind]. rewrite ReadUint_put by done. cbn [or_err mbind res_bind].
  rewrite IH by (done || cbn in Hf; lia). done.
Qed.

Lemma ACK_loop_no_panic fuel s : (length s ≤ fuel)%nat → no_panic (ACK_loop fuel s).
Proof.
  revert s. induction fuel as [|fuel IH]; intros [|x s] Hs; try done; [cbn in Hs; lia|].
  cbn [ACK_loop]. rewrite ReadUint_spec. destruct (Nat.leb_spec 8 (length (x :: s))); [|done].
  cbn [or_err mbind res_bind]. rewrite ReadUint_spec.
  destruct (Nat.leb_spec 8 (length (drop 8 (x :: s)))); [|done]. cbn [or_err mbind res_bind].
  eapply safe_bind, safe_mono; [apply IH|done]. rewrite drop_drop, length_drop. cbn in *. lia.
Qed.
End ack_lemmas.

End Protocol.

Module RecordHeader.
Import Protocol.

(** ** The record header of DTLS 1.2 (header.go) *)

Definition FixedHeaderSize : Z := 13.
Definition MaxSequenceNumber : Z := 0x0000FFFFFFFFFFFF.
Definition fixedHeaderLenIdx : Z := 11.

Record Header := MkHeader {
  ContentType : Z;
  ContentLen : Z;
  HVersion : Version;
  Epoch : Z;
  SequenceNumber : Z;
  ConnectionID : list Z
}.

Definition Header_Size (h : Header) : Z := FixedHeaderSize + len (ConnectionID h).

Definition Header_Marshal (h : Header) : res dtls_error (list Z) :=
  if MaxSequenceNumber <? SequenceNumber h then Err ErrSequenceNumberOverflow else
  Ok ([ContentType h; Major (HVersion h); Minor (HVersion h)] ++ be_put 2 (Epoch h) ++
      be_put 6 (SequenceNumber h) ++ ConnectionID h ++ be_put 2 (ContentLen h)).

(** [Unmarshal] on a header whose ConnectionID has the expected length. *)
Definition Header_Unmarshal (h : Header) (data : list Z) : res dtls_error Header :=
  if len data <? FixedHeaderSize then Err ErrBufferTooSmall else
  ct ← idx data 0;
  '(cid, headerSize) ←
    (if ct =? ContentTypeConnectionID then
       if len data <? FixedHeaderSize + len (ConnectionID h) then Err ErrBufferTooSmall else
       cid ← slice data 11 (11 + len (ConnectionID h));
       Ok (cid, FixedHeaderSize + len (ConnectionID h))
     else Ok ([], FixedHeaderSize));
  major ← idx data 1;
  minor ← idx data 2;
  d3 ← slice_from data 3;
  epoch ← Uint16 d3;
  seqCopy ← slice data 5 11;
  seq ← Uint64 (zeros 2 ++ seqCopy);
  dl ← slice_from data (headerSize - 2);
  contentLen ← Uint16 dl;
  let v := MkVersion major minor in
  if negb (Version_Equal v Version1_0) && negb (Version_Equal v Version1_2)
  then Err ErrUnsupportedProtocolVersion
  else Ok (MkHeader ct contentLen v epoch seq cid).

(** ** The unified header of DTLS 1.3 (header_13.go) *)

Record UnifiedHeader := MkUnified {
  u_ConnectionID : list Z;
  u_SequenceNumber : Z;
  u_SeqBit : bool;
  u_Length : Z;
  u_LengthBit : bool;
  u_EpochLow : Z
}.

Definition UnifiedHeaderFixedBits : Z := 0x20.
Definition UnifiedHeaderCIDBit : Z := 0x10.
Definition UnifiedHeaderSeqBit : Z := 0x08.
Definition UnifiedHeaderLengthBit : Z := 0x04.
Definition TwoLowBitsMask : Z := 0x03.

(** [ct & bit != 0] *)
Definition has_bit (ct bit : Z) : bool := negb (Z.land ct bit =? 0).

Definition Unified_Size (u : UnifiedHeader) : Z :=
  1 + len (u_ConnectionID u) + (if u_SeqBit u then 2 else 1) + (if u_LengthBit u then 2 else 0).

Section unified.
Context `{Cryptobyte}.

Definition Unified_Marshal (u : UnifiedHeader) : res dtls_error (list Z) :=
  let contentType := UnifiedHeaderFixedBits in
  let head := NewBuilder in
  let cidSz := len (u_ConnectionID u) in
  if (0 <? cidSz) && (255 <? cidSz) then Err ErrCIDTooBig else
  let '(contentType, head) :=
    if 0 <? cidSz
    then (Z.lor contentType UnifiedHeaderCIDBit, AddBytes head (u_ConnectionID u))
    else (contentType, head) in
  let '(contentType, head) :=
    if u_SeqBit u
    then (Z.lor contentType UnifiedHeaderSeqBit, AddUint 2 head (u_SequenceNumber u))
    else (contentType, AddUint 1 head (u8 (u_SequenceNumber u))) in
  let '(contentType, head) :=
    if u_LengthBit u
    then (Z.lor contentType UnifiedHeaderLengthBit, AddUint 2 head (u_Length u))
    else (contentType, head) in
  let contentType := Z.lor contentType (Z.land (u_EpochLow u) TwoLowBitsMask) in
  headBytes ← Bytes head;
  Ok (contentType :: headBytes).

(** [Unmarshal] on a header whose ConnectionID has the expected length; also
    gives what was not read. *)
Definition Unified_Unmarshal (u : UnifiedHeader) (data : list Z) : res dtls_error UnifiedHeader :=
  '(ct, str) ← or_err (ReadUint 1 data) ErrInvalidContentType;
  _ ← guard (IsDTLS13Ciphertext ct) ErrInvalidContentType;
  '(cid, str) ←
    (if has_bit ct UnifiedHeaderCIDBit
     then or_err (ReadBytes str (len (u_ConnectionID u))) ErrInvalidUnifiedHeaderFormat
     else Ok ([], str));
  '(seq, seqBit, str) ←
    (if has_bit ct UnifiedHeaderSeqBit
     then '(seq, str) ← or_err (ReadUint 2 str) ErrInvalidUnifiedHeaderFormat; Ok (seq, true, str)
     else '(seq, str) ← or_err (ReadUint 1 str) ErrInvalidUnifiedHeaderFormat; Ok (seq, false, str));
  let epochLow := Z.land ct TwoLowBitsMask in
  if has_bit ct UnifiedHeaderLengthBit then
    '(length, str) ← or_err (ReadUint 2 str) ErrInvalidUnifiedHeaderFormat;
    Ok (MkUnified cid seq seqBit length true epochLow)
  else Ok (MkUnified cid seq seqBit 0 false epochLow).

Definition unifiedHeaderWireSize (firstByte cidLength : Z) : Z :=
  1 + cidLength + (if has_bit firstByte UnifiedHeaderSeqBit then 2 else 1)
  + (if has_bit firstByte UnifiedHeaderLengthBit then 2 else 0).

(** ** Inner plaintext (inner_plaintext.go) *)

Record InnerPlaintext := MkInner { ip_Content : list Z; ip_RealType : Z; ip_Zeros : Z }.

Definition Inner_Marshal (p : InnerPlaintext) : res dtls_error (list Z) :=
  Bytes (AddBytes (AddUint 1 (AddBytes NewBuilder (ip_Content p)) (ip_RealType p)) (zeros (ip_Zeros p))).

(** The loop from the end of the data: the position of the last byte that is
    not zero, or -1. *)
Fixpoint last_nonzero (i : nat) (data : list Z) : res dtls_error Z :=
  b ← idx data (Z.of_nat i);
  if negb (b =? 0) then Ok (Z.of_nat i) else
  match i with
  | O => Ok (-1)
  | S i => last_nonzero i data
  end.

Definition Inner_Unmarshal (data : list Z) : res dtls_error InnerPlaintext :=
  if len data =? 0 then Err ErrBufferTooSmall else
  i ← last_nonzero (length data - 1) data;
  if i <? 0 then Err ErrBufferTooSmall else
  t ← idx data i;
  c ← slice data 0 i;
  Ok (MkInner c t (len data - 1 - i)).

(** ** Splitting datagrams (recordlayer.go) *)

(** The loop takes at least a header from the buffer in each round: the
    length of the buffer is enough fuel. *)
Fixpoint UnpackDatagram_loop (fuel : nat) (buf : list Z) (offset : Z) (out : list (list Z))
    : res dtls_error (list (list Z)) :=
  if len buf =? offset then Ok out else
  match fuel with
  | O => Panic
  | S fuel =>
      if len buf - offset <=? FixedHeaderSize then Err ErrInvalidPacketLength else
      b ← slice_from buf (offset + 11);
      n ← Uint16 b;
      let pktLen := FixedHeaderSize + n in
      if len buf <? offset + pktLen then Err ErrInvalidPacketLength else
      r ← slice buf offset (offset + pktLen);
      UnpackDatagram_loop fuel buf (offset + pktLen) (out ++ [r])
  end.

Definition UnpackDatagram (buf : list Z) : res dtls_error (list (list Z)) :=
  UnpackDatagram_loop (length buf) buf 0 [].

Fixpoint ContentAware_loop (fuel : nat) (buf : list Z) (cidLength offset : Z) (out : list (list Z))
    : res dtls_error (list (list Z)) :=
  if len buf =? offset then Ok out else
  match fuel with
  | O => Panic
  | S fuel =>
      ct ← idx buf offset;
      let cid := if ct =? ContentTypeConnectionID then cidLength else 0 in
      let headerSize := FixedHeaderSize + cid in
      let lenIdx := fixedHeaderLenIdx + cid in
      if len buf - offset <=? headerSize then Err ErrInvalidPacketLength else
      b ← slice_from buf (offset + lenIdx);
      n ← Uint16 b;
      let pktLen := headerSize + n in
      if len buf <? offset + pktLen then Err ErrInvalidPacketLength else
      r ← slice buf offset (offset + pktLen);
      ContentAware_loop fuel buf cidLength (offset + pktLen) (out ++ [r])
  end.

Definition ContentAwareUnpackDatagram (buf : list Z) (cidLength : Z) : res dtls_error (list (list Z)) :=
  ContentAware_loop (length buf) buf cidLength 0 [].

(** ** Splitting datagrams of DTLS 1.3 (recordlayer_13.go) *)

Definition maxDTLSPlaintextRecordLen : Z := 2 ^ 14.
Definition minDTLSCiphertextRecordLen : Z := 16.
Definition maxDTLSCiphertextRecordLen : Z := maxDTLSPlaintextRecordLen + 256.

Definition isPlaintextRecord13ContentType (ct : Z) : bool :=
  (ct =? ContentTypeAlert) || (ct =? ContentTypeHandshake) || (ct =? ContentTypeACK).

Definition isValidDTLSCiphertextRecordLen (n : Z) : bool :=
  (minDTLSCiphertextRecordLen <=? n) && (n <=? maxDTLSCiphertextRecordLen).

Definition unpackPlaintextDatagram13Record (buf : list Z) (offset : Z) : res dtls_error (list Z * Z) :=
  if len buf - offset <=? FixedHeaderSize then Err ErrInvalidPacketLength else
  b ← slice_from buf (offset + fixedHeaderLenIdx);
  n ← Uint16 b;
  let pktLen := FixedHeaderSize + n in
  if len buf <? offset + pktLen then Err ErrInvalidPacketLength else
  r ← slice buf offset (offset + pktLen);
  Ok (r, offset + pktLen).

Definition validateCiphertextCIDBit (hasCID : bool) (cidLength : Z) : res dtls_error unit :=
  if (0 <? cidLength) && negb hasCID then Err ErrInvalidCiphertextHeader
  else if (cidLength =? 0) && hasCID then Err ErrInvalidCiphertextHeader
  else Ok tt.

Definition unmarshalCiphertextDatagram13Header (data : list Z) (cidLength : Z) : res dtls_error UnifiedHeader :=
  b ← idx data 0;
  let hasCID := has_bit b UnifiedHeaderCIDBit in
  _ ← validateCiphertextCIDBit hasCID cidLength;
  Unified_Unmarshal (MkUnified (if hasCID then zeros cidLength else []) 0 false 0 false 0) data.

(** The record, its connection ID, the next offset, and whether it is the last. *)
Definition unpackCiphertextDatagram13RecordWithoutLength (buf : list Z) (offset headerSize : Z) (cid : list Z)
    : res dtls_error (list Z * list Z * Z * bool) :=
  let recordLen := len buf - offset - headerSize in
  if negb (isValidDTLSCiphertextRecordLen recordLen) then Err ErrInvalidPacketLength else
  r ← slice_from buf offset;
  Ok (r, cid, len buf, true).

Definition unpackCiphertextDatagram13RecordWithLength (buf : list Z) (offset headerSize : Z) (h : UnifiedHeader)
    : res dtls_error (list Z * list Z * Z * bool) :=
  if negb (isValidDTLSCiphertextRecordLen (u_Length h)) then Err ErrInvalidPacketLength else
  let pktLen := headerSize + u_Length h in
  if len buf <? offset + pktLen then Err ErrInvalidPacketLength else
  r ← slice buf offset (offset + pktLen);
  Ok (r, u_ConnectionID h, offset + pktLen, false).

Definition unpackCiphertextDatagram13Record (buf : list Z) (offset cidLength : Z)
    : res dtls_error (list Z * list Z * Z * bool) :=
  d ← slice_from buf offset;
  header ← unmarshalCiphertextDatagram13Header d cidLength;
  b ← idx buf offset;
  let headerSize := unifiedHeaderWireSize b (len (u_ConnectionID header)) in
  if negb (u_LengthBit header)
  then unpackCiphertextDatagram13RecordWithoutLength buf offset headerSize (u_ConnectionID header)
  else unpackCiphertextDatagram13RecordWithLength buf offset headerSize header.

(** The first connection ID is remembered; [None] is nil. *)
Definition isMismatchedCiphertextCID (firstCID : option (list Z)) (cid : list Z) (cidLength : Z)
    : bool * option (list Z) :=
  if cidLength =? 0 then (false, firstCID) else
  match firstCID with
  | None => (false, Some cid)
  | Some f => (negb (bool_decide (f = cid)), firstCID)
  end.

Fixpoint UnpackDatagram13_loop (fuel : nat) (buf : list Z) (cidLength : Z) (enabled : bool)
    (offset : Z) (first : option (list Z)) (out : list (list Z)) : res dtls_error (list (list Z)) :=
  if len buf =? offset then Ok out else
  match fuel with
  | O => Panic
  | S fuel =>
      ct ← idx buf offset;
      if isPlaintextRecord13ContentType ct then
        '(record, next) ← unpackPlaintextDatagram13Record buf offset;
        UnpackDatagram13_loop fuel buf cidLength enabled next first (out ++ [record])
      else if negb enabled || negb (IsDTLS13Ciphertext ct) then Err ErrInvalidContentType
      else
        '(record, cid, next, done) ← unpackCiphertextDatagram13Record buf offset cidLength;
        let '(mismatch, first) := isMismatchedCiphertextCID first cid cidLength in
        if (mismatch : bool) then Ok out
        else if (done : bool) then Ok (out ++ [record])
        else UnpackDatagram13_loop fuel buf cidLength enabled next first (out ++ [record])
  end.

Definition UnpackDatagram13 (buf : list Z) (cidLength : Z) (ciphertextHeadersEnabled : bool)
    : res dtls_error (list (list Z)) :=
  UnpackDatagram13_loop (length buf) buf cidLength ciphertextHeadersEnabled 0 None [].
End unified.

(** ** Headers: round trips *)

Record header_ok (h : Header) : Prop := {
  ho_type : is_byte (ContentType h);
  ho_len : is_u16 (ContentLen h);
  ho_version : HVersion h = Version1_0 ∨ HVersion h = Version1_2;
  ho_epoch : is_u16 (Epoch h);
  ho_seq : is_u48 (SequenceNumber h);
  ho_cid : ContentType h ≠ ContentTypeConnectionID → ConnectionID h = []
}.

Lemma Uint48_put {E} v : is_u48 v → get_be (E:=E) 8 (zeros 2 ++ be_put 6 v) = Ok v.
Proof.
  intros Hv. unfold get_be. rewrite len_app, len_be_put, len_zeros by lia. cbn [Z.ltb Z.compare].
  rewrite take_ge by (rewrite length_app, length_be_put; done). rewrite be_get_app, be_get_put.
  cbn [zeros replicate]. change (be_get (zeros 2)) with 0. unfold is_u48 in Hv.
  rewrite Z.mod_small by lia. done.
Qed.

(** Access to the fields of an encoded header. *)
Lemma header_access {E} ct ma mi ep seq cid cl rest :
  let data := [ct; ma; mi] ++ be_put 2 ep ++ be_put 6 seq ++ cid ++ be_put 2 cl ++ rest in
  len data = 13 + len cid + len rest ∧
  slice (E:=E) data 11 (11 + len cid) = Ok cid ∧
  slice_from (E:=E) data 3 = Ok (be_put 2 ep ++ be_put 6 seq ++ cid ++ be_put 2 cl ++ rest) ∧
  slice (E:=E) data 5 11 = Ok (be_put 6 seq) ∧
  slice_from (E:=E) data (13 + len cid - 2) = Ok (be_put 2 cl ++ rest).
Proof.
  cbv zeta. split_and!.
  - rewrite !len_app, !len_be_put. autorewrite with golen. lia.
  - rewrite !(assoc_L (++)), <- 2!(assoc_L (++)). apply slice_mid;
      rewrite !len_app, !len_be_put; autorewrite with golen; lia.
  - by apply slice_from_app.
  - rewrite (assoc_L (++)). apply slice_mid; rewrite ?len_app, ?len_be_put; done.
  - rewrite !(assoc_L (++)), <- (assoc_L (++) _ (be_put 2 cl)). apply slice_from_app.
    rewrite !len_app, !len_be_put. autorewrite with golen. lia.
Qed.

Lemma Header_roundtrip h h0 rest : header_ok h → len (ConnectionID h0) = len (ConnectionID h) →
  ∃ b, Header_Marshal h = Ok b ∧ len b = Header_Size h ∧ Header_Unmarshal h0 (b ++ rest) = Ok h.
Proof.
  intros [Ht Hl Hv He Hs Hc] Hcid. unfold Header_Marshal.
  destruct (Z.ltb_spec MaxSequenceNumber (SequenceNumber h)) as [Hgt|_];
    [unfold MaxSequenceNumber, is_u48 in *; lia|].
  eexists; split; [done|]. destruct h as [ct cl [ma mi] ep seq cid].
  cbn [ContentType ContentLen HVersion Epoch SequenceNumber ConnectionID Major Minor] in *.
  pose proof (len_nonneg cid). pose proof (len_nonneg rest).
  split; [unfold Header_Size; cbn [ConnectionID]; rewrite !len_app, !len_be_put; unfold FixedHeaderSize;
          autorewrite with golen; lia|].
  rewrite <- !(assoc_L (++)).
  destruct (header_access (E:=dtls_error) ct ma mi ep seq cid cl rest) as (Hlen & Hcs & H3 & H5 & Hdl).
  cbv zeta in *. set (data := [ct; ma; mi] ++ _) in *.
  unfold Header_Unmarshal, FixedHeaderSize. rewrite Hlen, Hcid.
  destruct (Z.ltb_spec (13 + len cid + len rest) 13); [lia|].
  destruct (Z.ltb_spec (13 + len cid + len rest) (13 + len cid)); [lia|].
  change (idx data 0) with (Ok ct : res dtls_error Z). change (idx data 1) with (Ok ma : res dtls_error Z).
  change (idx data 2) with (Ok mi : res dtls_error Z). cbn [mbind res_bind]. rewrite Hcs.
  assert ((if ct =? ContentTypeConnectionID
           then cid0 ← Ok cid; Ok (cid0, 13 + len cid)
           else Ok ([], 13)) = (Ok (cid, 13 + len cid) : res dtls_error _)) as ->.
  { destruct (Z.eqb_spec ct ContentTypeConnectionID) as [|Hne]; [done|]. by rewrite (Hc Hne). }
  cbn [mbind res_bind]. rewrite H3. cbn [mbind res_bind]. rewrite get_be_put by done.
  cbn [mbind res_bind]. rewrite H5. cbn [mbind res_bind]. rewrite Uint48_put by done.
  cbn [mbind res_bind]. rewrite Hdl. cbn [mbind res_bind]. rewrite get_be_put by done.
  cbn [mbind res_bind]. by destruct Hv as [[= -> ->]|[= -> ->]].
Qed.

(** Reading a header fails only with an error. *)
Lemma Header_Unmarshal_safe h data : bytes_ok data →
  safe (Header_Unmarshal h data) (λ h', FixedHeaderSize ≤ len data ∧ is_u16 (Epoch h') ∧ 0 ≤ SequenceNumber h').
Proof.
  intros Hok. unfold Header_Unmarshal, FixedHeaderSize. destruct (Z.ltb_spec (len data) 13) as [|Hge]; [done|].
  pose proof (len_nonneg (ConnectionID h)) as Hc.
  apply safe_bind, safe_idx; [lia|]. intros ct _.
  apply safe_bind, (safe_mono _ (λ p : list Z * Z, 13 ≤ p.2 ≤ len data)).
  { destruct (ct =? ContentTypeConnectionID); [|cbn; lia].
    destruct (Z.ltb_spec (len data) (13 + len (ConnectionID h))); [done|].
    apply safe_bind, safe_slice; [lia|lia|]. cbn. lia. }
  intros [cid hs] Hhs. cbn in Hhs. apply safe_bind, safe_idx; [lia|]. intros ma _.
  apply safe_bind, safe_idx; [lia|]. intros mi _.
  rewrite (slice_from_ok 3) by lia. cbn [mbind res_bind].
  apply safe_bind, safe_get_be; [by apply bytes_ok_sub|rewrite len_sub by lia; lia|]. intros ep Hep.
  rewrite (slice_ok 5) by lia. cbn [mbind res_bind].
  apply safe_bind, safe_get_be; [| |].
  { apply bytes_ok_app. split; [by repeat constructor|by apply bytes_ok_sub]. }
  { rewrite len_app, len_sub by lia. done. }
  intros seq Hseq. rewrite slice_from_ok by lia. cbn [mbind res_bind].
  apply safe_bind, safe_get_be; [by apply bytes_ok_sub|rewrite len_sub by lia; lia|]. intros cl _.
  destruct (negb _ && _); [done|]. split_and!; [done..|]. cbn. lia.
Qed.

Record unified_ok (u : UnifiedHeader) : Prop := {
  uo_cid : len (u_ConnectionID u) ≤ 255;
  uo_seq : if u_SeqBit u then is_u16 (u_SequenceNumber u) else is_byte (u_SequenceNumber u);
  uo_len : if u_LengthBit u then is_u16 (u_Length u) else u_Length u = 0;
  uo_epoch : 0 ≤ u_EpochLow u < 4
}.

(** The first byte of a unified header, and its bits. *)
Definition unified_flags (cid seqBit lengthBit : bool) (epoch : Z) : Z :=
  0x20 + (if cid then 0x10 else 0) + (if seqBit then 0x08 else 0) + (if lengthBit then 0x04 else 0) + epoch.

Lemma unified_flags_bits c s l e : 0 ≤ e < 4 →
  let b := unified_flags c s l e in
  has_bit b UnifiedHeaderCIDBit = c ∧ has_bit b UnifiedHeaderSeqBit = s ∧
  has_bit b UnifiedHeaderLengthBit = l ∧ Z.land b TwoLowBitsMask = e ∧
  IsDTLS13Ciphertext b = true ∧ is_byte b.
Proof.
  intros He. assert (e = 0 ∨ e = 1 ∨ e = 2 ∨ e = 3) as Hcase by lia.
  destruct Hcase as [->|[->|[->| ->]]], c, s, l; vm_compute; split_and!; done.
Qed.

Section unified_lemmas.
Context `{CryptobyteLaws}.

Lemma Unified_Marshal_ok u : unified_ok u →
  Unified_Marshal u = Ok (unified_flags (0 <? len (u_ConnectionID u)) (u_SeqBit u) (u_LengthBit u) (u_EpochLow u)
    :: u_ConnectionID u ++ (if u_SeqBit u then be_put 2 (u_SequenceNumber u) else be_put 1 (u_SequenceNumber u))
    ++ (if u_LengthBit u then be_put 2 (u_Length u) else [])).
Proof.
  intros [Hc Hs Hl He]. unfold Unified_Marshal. destruct u as [cid seq sb ln lb ep]. cbn in *.
  destruct (Z.ltb_spec 255 (len cid)); [lia|]. rewrite andb_false_r.
  assert (Z.land ep TwoLowBitsMask = ep) as Hep.
  { assert (ep = 0 ∨ ep = 1 ∨ ep = 2 ∨ ep = 3) as [->|[->|[->| ->]]] by lia; done. }
  assert (∀ c s l : bool, Z.lor (if l then Z.lor (if s then Z.lor (if c then Z.lor 0x20 0x10 else 0x20) 0x08
    else if c then Z.lor 0x20 0x10 else 0x20) 0x04 else if s then Z.lor (if c then Z.lor 0x20 0x10 else 0x20) 0x08
    else if c then Z.lor 0x20 0x10 else 0x20) (Z.land ep TwoLowBitsMask) = unified_flags c s l ep) as Hflags.
  { intros c s l. rewrite Hep. assert (ep = 0 ∨ ep = 1 ∨ ep = 2 ∨ ep = 3) as [->|[->|[->| ->]]] by lia;
      by destruct c, s, l. }
  assert ((0 <? len cid) = false → cid = []) as Hnil
    by (intros E; apply len_zero_nil; pose proof (len_nonneg cid); lia).
  assert (sb = false → u8 seq = seq) as Hu8 by (intros ->; unfold u8, is_byte in *; by apply Z.mod_small).
  specialize (Hflags (0 <? len cid) sb lb). unfold UnifiedHeaderFixedBits, UnifiedHeaderCIDBit,
    UnifiedHeaderSeqBit, UnifiedHeaderLengthBit in *.
  destruct (0 <? len cid) eqn:Ec, sb, lb; rewrite ?Bytes_AddUint, ?Bytes_AddBytes, ?Bytes_New;
    cbn [mbind res_bind app]; rewrite Hflags, ?app_nil_r, ?(Hnil eq_refl), ?Hu8 by done;
    rewrite <- ?(assoc_L (++)); done.
Qed.

Lemma Unified_roundtrip u u0 rest : unified_ok u → len (u_ConnectionID u0) = len (u_ConnectionID u) →
  ∃ f b, Unified_Marshal u = Ok (f :: b) ∧ len (f :: b) = Unified_Size u ∧
    unifiedHeaderWireSize f (len (u_ConnectionID u)) = Unified_Size u ∧
    Unified_Unmarshal u0 ((f :: b) ++ rest) = Ok u.
Proof.
  intros Hok Hcid. rewrite Unified_Marshal_ok by done. eexists _, _; split; [done|].
  destruct Hok as [Hc Hs Hl He]. destruct u as [cid seq sb ln lb ep].
  cbn [u_ConnectionID u_SequenceNumber u_SeqBit u_Length u_LengthBit u_EpochLow] in *.
  destruct (unified_flags_bits (0 <? len cid) sb lb ep He) as (Bc & Bs & Bl & Be & Bt & _).
  split; [|split].
  - unfold Unified_Size. cbn. rewrite len_cons, !len_app.
    destruct sb, lb; rewrite ?len_be_put; autorewrite with golen; lia.
  - unfold unifiedHeaderWireSize, Unified_Size. cbn. by rewrite Bs, Bl.
  - unfold Unified_Unmarshal. cbn [app]. rewrite ReadUint_1. cbn [or_err mbind res_bind].
    rewrite Bt. cbn [guard mbind res_bind]. rewrite Bc, Bs, Bl, Be, Hcid, <- !(assoc_L (++)).
    set (tail := (if sb then _ else _) ++ _).
    assert ((if 0 <? len cid then or_err (ReadBytes (cid ++ tail) (len cid)) ErrInvalidUnifiedHeaderFormat
             else Ok ([], cid ++ tail)) = Ok (cid, tail)) as ->.
    { destruct (Z.ltb_spec 0 (len cid)) as [|Hz]; [by rewrite ReadBytes_app|].
      rewrite (len_zero_nil cid) by (pose proof (len_nonneg cid); lia). done. }
    cbn [mbind res_bind]. unfold tail.
    destruct sb; cbv beta iota in *; rewrite ReadUint_put by done; cbn [or_err mbind res_bind];
      (destruct lb; cbv beta iota in *; [by rewrite ReadUint_put by done|by subst ln]).
Qed.

(** ** Inner plaintext *)

Lemma last_nonzero_app c t n k : t ≠ 0 → (k ≤ n)%nat →
  last_nonzero (length c + k) (c ++ t :: replicate n 0) = Ok (len c).
Proof.
  intros Ht. induction k as [|k IH]; intros Hk.
  - rewrite Nat.add_0_r. destruct (length c) as [|m] eqn:E; cbn [last_nonzero];
      (rewrite idx_mid by (unfold len; by rewrite E)); cbn [mbind res_bind];
      destruct (Z.eqb_spec t 0); try done; cbn; do 2 f_equal; unfold len; by rewrite E.
  - replace (length c + S k)%nat with (S (length c + k)) by lia. cbn [last_nonzero].
    rewrite idx_app_r by (unfold len; lia). rewrite idx_cons by (unfold len; lia).
    assert (idx (E:=dtls_error) (replicate n 0) (Z.of_nat (S (length c + k)) - len c - 1) = Ok 0) as ->.
    { unfold idx, len. destruct (Z.leb_spec 0 (Z.of_nat (S (length c + k)) - Z.of_nat (length c) - 1)); [|lia].
      by rewrite lookup_replicate_2 by lia. }
    cbn [mbind res_bind Z.eqb negb]. apply IH. lia.
Qed.

Lemma Inner_roundtrip p : ip_RealType p ≠ 0 → is_byte (ip_RealType p) → 0 ≤ ip_Zeros p →
  ∃ b, Inner_Marshal p = Ok b ∧ Inner_Unmarshal b = Ok p.
Proof.
  destruct p as [c t z]. cbn. intros Ht Hb Hz. unfold Inner_Marshal. cbn.
  rewrite Bytes_AddBytes, Bytes_AddUint, Bytes_AddBytes, Bytes_New. cbn [mbind res_bind app].
  eexists; split; [done|]. unfold Inner_Unmarshal, zeros.
  assert (be_put 1 t = [t]) as -> by (cbn; unfold is_byte in Hb; by rewrite Z.mod_small).
  rewrite <- (assoc_L (++)). cbn [app]. pose proof (len_nonneg c).
  assert (len (c ++ t :: replicate (Z.to_nat z) 0) = len c + 1 + z) as Hl
    by (autorewrite with golen; lia).
  rewrite Hl. destruct (Z.eqb_spec (len c + 1 + z) 0); [lia|].
  replace (length (c ++ t :: replicate (Z.to_nat z) 0%Z) - 1)%nat with (length c + Z.to_nat z)%nat
    by (unfold len in *; lia).
  rewrite last_nonzero_app by done. cbn [mbind res_bind]. destruct (Z.ltb_spec (len c) 0); [lia|].
  rewrite idx_mid by done. cbn [mbind res_bind].
  rewrite slice_ok by (rewrite ?Hl; lia). rewrite sub_app_l by done. cbn [mbind res_bind].
  do 2 f_equal. lia.
Qed.
End unified_lemmas.

(** ** Datagrams *)

(** A record with its length field, when connection IDs have [c] bytes. *)
Definition is_record (c : Z) (r body : list Z) : Prop :=
  ∃ ct h, r = (ct :: h) ++ be_put 2 (len body) ++ body ∧
    len h = 10 + (if ct =? ContentTypeConnectionID then c else 0) ∧ is_u16 (len body).

(** A datagram: the concatenation of records, the last of which is not empty. *)
Fixpoint is_datagram (c : Z) (rs : list (list Z)) : Prop :=
  match rs with
  | [] => True
  | r :: rs => (∃ body, is_record c r body ∧ (rs = [] → body ≠ [])) ∧ is_datagram c rs
  end.

Lemma is_record_len c r body : 0 ≤ c → is_record c r body → 13 ≤ len r.
Proof.
  intros Hc (ct & h & -> & Hh & _). rewrite !len_app, len_cons, len_be_put. pose proof (len_nonneg body).
  destruct (ct =? ContentTypeConnectionID); lia.
Qed.

(** One round of the loop on a record that is complete. *)
Lemma ContentAware_record c fuel pre r body suf out : 0 ≤ c → is_record c r body →
  (suf = [] → body ≠ []) →
  ContentAware_loop (S fuel) (pre ++ r ++ suf) c (len pre) out =
  ContentAware_loop fuel ((pre ++ r) ++ suf) c (len (pre ++ r)) (out ++ [r]).
Proof.
  intros Hc Hrec Hne. pose proof (is_record_len c r body Hc Hrec) as H13.
  destruct Hrec as (ct & h & Er & Hh & Hb). set (cid := if ct =? ContentTypeConnectionID then c else 0) in *.
  pose proof (len_nonneg suf). pose proof (len_nonneg pre).
  assert (len r = 13 + cid + len body) as Hr
    by (rewrite Er, !len_app, len_cons, len_be_put; lia).
  cbn [ContentAware_loop]. rewrite !len_app.
  destruct (Z.eqb_spec (len pre + (len r + len suf)) (len pre)); [lia|].
  assert (idx (E:=dtls_error) (pre ++ r ++ suf) (len pre) = Ok ct) as ->
    by (rewrite Er; by apply idx_mid).
  cbn [mbind res_bind]. fold cid. unfold FixedHeaderSize, fixedHeaderLenIdx.
  destruct (Z.leb_spec (len pre + (len r + len suf) - len pre) (13 + cid)) as [Hle|_].
  { destruct suf as [|x suf]; [|rewrite len_cons in Hle; pose proof (len_nonneg suf); pose proof (len_nonneg body); lia].
    destruct body as [|y body]; [by destruct Hne|]. rewrite len_cons in Hr. pose proof (len_nonneg body).
    rewrite len_nil in Hle. lia. }
  assert (slice_from (E:=dtls_error) (pre ++ r ++ suf) (len pre + (11 + cid))
    = Ok (be_put 2 (len body) ++ body ++ suf)) as ->.
  { rewrite Er, <- !(assoc_L (++)), (assoc_L (++) pre). apply slice_from_app.
    rewrite len_app, len_cons, Hh. lia. }
  cbn [mbind res_bind]. rewrite get_be_put by done. cbn [mbind res_bind].
  destruct (Z.ltb_spec (len pre + (len r + len suf)) (len pre + (13 + cid + len body))); [lia|].
  rewrite (slice_mid pre r suf) by lia. cbn [mbind res_bind]. rewrite <- (assoc_L (++)).
  f_equal. lia.
Qed.

(** One round in general: an error, or such a record. *)
Lemma ContentAware_step c fuel pre suf out : 0 ≤ c → bytes_ok suf → suf ≠ [] →
  (∃ e, ContentAware_loop (S fuel) (pre ++ suf) c (len pre) out = Err e) ∨
  (∃ r body suf', suf = r ++ suf' ∧ is_record c r body ∧ (suf' = [] → body ≠ [])).
Proof.
  intros Hc Hok Hne. destruct suf as [|ct suf]; [done|]. cbn [ContentAware_loop].
  rewrite len_app, len_cons. pose proof (len_nonneg suf). pose proof (len_nonneg pre).
  destruct (Z.eqb_spec (len pre + (1 + len suf)) (len pre)) as [?|_]; [lia|].
  rewrite idx_mid by done. cbn [mbind res_bind]. unfold FixedHeaderSize, fixedHeaderLenIdx.
  set (cid := if ct =? ContentTypeConnectionID then c else 0).
  assert (0 ≤ cid) as Hcid by (unfold cid; destruct (_ =? _); lia).
  destruct (Z.leb_spec (len pre + (1 + len suf) - len pre) (13 + cid)); [left; eauto|].
  apply bytes_ok_cons in Hok as [Hct Hok].
  set (h := sub 0 (10 + cid) suf). set (t := sub (10 + cid) (len suf) suf).
  assert (suf = h ++ t) as Es by (apply take_drop_sub; lia).
  assert (len h = 10 + cid) as Hh by (unfold h; rewrite len_sub; lia).
  assert (len t = len suf - (10 + cid)) as Ht by (unfold t; rewrite len_sub; lia).
  assert (bytes_ok t) as Hokt by (by apply bytes_ok_sub).
  assert (slice_from (E:=dtls_error) (pre ++ ct :: suf) (len pre + (11 + cid)) = Ok t) as ->.
  { rewrite Es. change (ct :: h ++ t) with ((ct :: h) ++ t). rewrite (assoc_L (++)).
    apply slice_from_app. rewrite len_app, len_cons. lia. }
  cbn [mbind res_bind]. unfold get_be. destruct (Z.ltb_spec (len t) (Z.of_nat 2)); [lia|].
  cbn [mbind res_bind]. set (n := be_get (take 2 t)).
  destruct (Z.ltb_spec (len pre + (1 + len suf)) (len pre + (13 + cid + n))); [left; eauto|].
  right. assert (bytes_ok (take 2 t)) as Hok2 by (by apply bytes_ok_take).
  pose proof (be_get_range _ Hok2) as Hn. assert (length (take 2 t) = 2%nat) as L2
    by (rewrite length_take; unfold len in *; lia).
  pose proof (be_put_get _ Hok2) as Hput. rewrite L2 in Hput. fold n in Hput, Hn.
  replace (len (take 2 t)) with 2 in Hn by (unfold len; by rewrite L2).
  set (body := sub 0 n (drop 2 t)). set (suf' := sub n (len (drop 2 t)) (drop 2 t)).
  assert (len (drop 2 t) = len t - 2) as Hd by (unfold len; rewrite length_drop; unfold len in *; lia).
  assert (drop 2 t = body ++ suf') as Eb by (apply take_drop_sub; lia).
  assert (len body = n) as Hbody by (unfold body; rewrite len_sub; lia).
  exists ((ct :: h) ++ be_put 2 (len body) ++ body), body, suf'. split_and!.
  - rewrite Hbody, Hput, Es, <- !(assoc_L (++)), <- Eb. cbn. by rewrite take_drop.
  - exists ct, h. fold cid. split; [done|]. split; [done|]. unfold is_u16. rewrite Hbody. lia.
  - intros E1 E2. assert (len body = 0) by (by rewrite E2). assert (len suf' = 0) by (by rewrite E1).
    assert (len (drop 2 t) = 0) by (rewrite Eb, len_app; lia). lia.
Qed.

Lemma ContentAware_end fuel pre c out : ContentAware_loop fuel (pre ++ []) c (len pre) out = Ok out.
Proof. rewrite app_nil_r. destruct fuel; cbn [ContentAware_loop]; by rewrite Z.eqb_refl. Qed.

(** The records of a datagram are found ... *)
Lemma ContentAware_complete c rs : ∀ fuel pre out, 0 ≤ c → is_datagram c rs →
  (length (concat rs) ≤ fuel)%nat →
  ContentAware_loop fuel (pre ++ concat rs) c (len pre) out = Ok (out ++ rs).
Proof.
  induction rs as [|r rs IH]; intros fuel pre out Hc Hd Hf; cbn [concat].
  - by rewrite ContentAware_end, app_nil_r.
  - destruct Hd as [(body & Hr & Hlast) Hd]. pose proof (is_record_len c r body Hc Hr) as H13.
    cbn [concat] in Hf. rewrite length_app in Hf. unfold len in H13.
    destruct fuel as [|fuel]; [lia|]. rewrite (ContentAware_record c fuel pre r body); [|done|done|].
    + rewrite IH by (done || lia). by rewrite <- (assoc_L (++)).
    + intros E. apply Hlast. destruct rs as [|r' rs]; [done|]. cbn [concat] in E.
      apply app_eq_nil in E as [-> _]. destruct Hd as [(body' & Hr' & _) _].
      apply is_record_len in Hr'; [|done]. rewrite len_nil in Hr'. lia.
Qed.

(** ... and nothing else is accepted. *)
Lemma ContentAware_sound c fuel : ∀ pre suf out, 0 ≤ c → bytes_ok suf → (length suf ≤ fuel)%nat →
  safe (ContentAware_loop fuel (pre ++ suf) c (len pre) out)
    (λ rs, ∃ rs', rs = out ++ rs' ∧ suf = concat rs' ∧ is_datagram c rs').
Proof.
  induction fuel as [|fuel IH]; intros pre suf out Hc Hok Hf.
  - destruct suf; [|cbn in Hf; lia]. rewrite ContentAware_end. exists []. by rewrite app_nil_r.
  - destruct (decide (suf = [])) as [->|Hne].
    { rewrite ContentAware_end. exists []. by rewrite app_nil_r. }
    destruct (ContentAware_step c fuel pre suf out Hc Hok Hne) as [[e ->]|(r & body & suf' & -> & Hr & Hlast)]; [done|].
    rewrite (ContentAware_record c fuel pre r body) by done.
    apply bytes_ok_app in Hok as [_ Hok]. pose proof (is_record_len c r body Hc Hr) as H13.
    eapply safe_mono; [apply (IH (pre ++ r) suf' (out ++ [r]) Hc Hok)|].
    + rewrite length_app in Hf. unfold len in H13. lia.
    + intros rs (rs' & -> & -> & Hd). exists (r :: rs'). rewrite <- (assoc_L (++)).
      split; [done|]. split; [done|]. split; [|done]. exists body. split; [done|].
      intros ->. by apply Hlast.
Qed.

Lemma ContentAwareUnpackDatagram_spec buf c : 0 ≤ c → bytes_ok buf →
  no_panic (ContentAwareUnpackDatagram buf c) ∧
  ∀ rs, ContentAwareUnpackDatagram buf c = Ok rs ↔ buf = concat rs ∧ is_datagram c rs.
Proof.
  intros Hc Hok. unfold ContentAwareUnpackDatagram.
  pose proof (ContentAware_sound c (length buf) [] buf [] Hc Hok) as Hs. cbn [app] in Hs.
  change (len []) with 0 in Hs. specialize (Hs ltac:(done)).
  split; [by eapply safe_no_panic|]. intros rs. split.
  - intros E. rewrite E in Hs. destruct Hs as (rs' & -> & -> & Hd). done.
  - intros [-> Hd]. apply (ContentAware_complete c rs _ [] []); done.
Qed.

(** Without connection IDs the two functions agree. *)
Lemma UnpackDatagram_loop_eq fuel : ∀ buf offset out, bytes_ok buf → 0 ≤ offset ≤ len buf →
  UnpackDatagram_loop fuel buf offset out = ContentAware_loop fuel buf 0 offset out.
Proof.
  induction fuel as [|fuel IH]; intros buf offset out Hok Ho; [done|].
  cbn [UnpackDatagram_loop ContentAware_loop].
  destruct (Z.eqb_spec (len buf) offset) as [|Hne]; [done|].
  destruct (idx_ok (E:=dtls_error) buf offset) as (ct & -> & _); [lia|]. cbn [mbind res_bind].
  replace (if ct =? ContentTypeConnectionID then 0 else 0) with 0 by (by destruct (_ =? _)).
  rewrite !Z.add_0_r. unfold fixedHeaderLenIdx, FixedHeaderSize.
  destruct (Z.leb_spec (len buf - offset) 13); [done|].
  rewrite slice_from_ok by lia. cbn [mbind res_bind].
  unfold get_be. destruct (Z.ltb_spec (len (sub (offset + 11) (len buf) buf)) (Z.of_nat 2)); [done|].
  cbn [mbind res_bind]. set (n := be_get _).
  destruct (Z.ltb_spec (len buf) (offset + (13 + n))); [done|].
  assert (0 ≤ n) by (apply be_get_range, bytes_ok_take, bytes_ok_sub, Hok).
  rewrite slice_ok by lia. cbn [mbind res_bind]. apply IH; [done|lia].
Qed.

Section datagram13.
Context `{CryptobyteLaws}.

(** A parsed unified header fits into the data. *)
Lemma Unified_Unmarshal_size u data : bytes_ok data →
  safe (Unified_Unmarshal u data) (λ h, ∃ f s, data = f :: s ∧
    unifiedHeaderWireSize f (len (u_ConnectionID h)) ≤ len data ∧
    len (u_ConnectionID h) ≤ len (u_ConnectionID u) ∧ 0 ≤ u_Length h).
Proof.
  intros Hok. unfold Unified_Unmarshal. destruct data as [|f s].
  { rewrite ReadUint_short by (cbn; lia). done. }
  rewrite ReadUint_1. cbn [or_err mbind res_bind]. unfold guard.
  destruct (IsDTLS13Ciphertext f); [|done]. cbn [mbind res_bind].
  apply bytes_ok_cons in Hok as [_ Hok].
  apply (safe_bind _ _ _). apply (safe_mono _ (λ '(cid, r), bytes_ok r ∧ len s = len cid + len r ∧
    len cid ≤ len (u_ConnectionID u))).
  { pose proof (len_nonneg (u_ConnectionID u)). destruct (has_bit f UnifiedHeaderCIDBit).
    - rewrite ReadBytes_spec. destruct (Z.leb_spec 0 (len (u_ConnectionID u))), (Z.leb_spec (len (u_ConnectionID u)) (len s));
        try done. cbn. split; [by apply bytes_ok_sub|]. rewrite !len_sub by lia. lia.
    - cbn. split; [done|]. rewrite len_nil. lia. }
  intros [cid r] (Hr & Hlen & Hcid). apply (safe_bind _ _ _).
  apply (safe_mono _ (λ '(seq, sb, r'), sb = has_bit f UnifiedHeaderSeqBit ∧ bytes_ok r' ∧
    len r = (if has_bit f UnifiedHeaderSeqBit then 2 else 1) + len r')).
  { destruct (has_bit f UnifiedHeaderSeqBit).
    - destruct (ReadUint 2 r) as [[v r']|] eqn:E; [|done]. apply ReadUint_Some in E as (_ & -> & ?); [|done].
      cbn [or_err mbind res_bind safe]. by rewrite len_app, len_be_put.
    - destruct (ReadUint 1 r) as [[v r']|] eqn:E; [|done]. apply ReadUint_Some in E as (_ & -> & ?); [|done].
      cbn [or_err mbind res_bind safe]. by rewrite len_app, len_be_put. }
  intros [[seq sb] r'] (-> & Hr' & Hlen'). unfold unifiedHeaderWireSize. rewrite len_cons.
  pose proof (len_nonneg r'). destruct (has_bit f UnifiedHeaderLengthBit) eqn:El.
  - destruct (ReadUint 2 r') as [[v r'']|] eqn:E; [|done].
    apply ReadUint_Some in E as (Hv & -> & ?); [|done]. cbn [or_err mbind res_bind safe].
    rewrite len_app, len_be_put in Hlen'. pose proof (len_nonneg r''). exists f, s.
    rewrite El. cbn [u_ConnectionID u_Length]. split; [done|]. rewrite Hlen, Hlen'. lia.
  - cbn [safe]. exists f, s. rewrite El. cbn [u_ConnectionID u_Length]. split; [done|]. lia.
Qed.

(** A record cut off the front of what remains. *)
Lemma plaintext13_cut pre suf : bytes_ok suf → suf ≠ [] →
  safe (unpackPlaintextDatagram13Record (pre ++ suf) (len pre)) (λ '(r, next),
    ∃ suf', suf = r ++ suf' ∧ r ≠ [] ∧ next = len (pre ++ r)).
Proof.
  intros Hok Hne. unfold unpackPlaintextDatagram13Record, FixedHeaderSize, fixedHeaderLenIdx.
  rewrite len_app. pose proof (len_nonneg pre).
  destruct (Z.leb_spec (len pre + len suf - len pre) 13); [done|].
  rewrite slice_from_ok by (rewrite len_app; lia). cbn [mbind res_bind].
  apply (safe_bind _ _ _). rewrite len_app, sub_app_r by lia.
  apply safe_get_be; [by apply bytes_ok_sub|rewrite len_sub; lia|]. intros n Hn.
  destruct (Z.ltb_spec (len pre + len suf) (len pre + (13 + n))); [done|].
  rewrite slice_ok by (rewrite ?len_app; lia). cbn [mbind res_bind safe].
  rewrite sub_app_r, Z.sub_diag by lia. replace (len pre + (13 + n) - len pre) with (13 + n) by lia.
  exists (sub (13 + n) (len suf) suf). split; [apply take_drop_sub; lia|].
  assert (len (sub 0 (13 + n) suf) = 13 + n) as Hl by (rewrite len_sub; lia).
  split; [intros E; rewrite E in Hl; change (len []) with 0 in Hl; lia|]. rewrite len_app, Hl. lia.
Qed.

Lemma ciphertext13_cut pre suf c : bytes_ok suf → suf ≠ [] → 0 ≤ c →
  safe (unpackCiphertextDatagram13Record (pre ++ suf) (len pre) c) (λ '(r, cid, next, d),
    ∃ suf', suf = r ++ suf' ∧ r ≠ [] ∧ (d = false → next = len (pre ++ r))).
Proof.
  intros Hok Hne Hc. unfold unpackCiphertextDatagram13Record. rewrite slice_from_app by done.
  cbn [mbind res_bind]. unfold unmarshalCiphertextDatagram13Header.
  destruct suf as [|f suf]; [done|]. cbn [mbind res_bind idx]. change (idx (f :: suf) 0) with (Ok f : res dtls_error Z).
  cbn [mbind res_bind]. unfold validateCiphertextCIDBit.
  destruct ((0 <? c) && negb (has_bit f UnifiedHeaderCIDBit)); [done|].
  destruct ((c =? 0) && has_bit f UnifiedHeaderCIDBit); [done|]. cbn [mbind res_bind].
  apply (safe_bind _ _ _). eapply safe_mono; [by apply Unified_Unmarshal_size|].
  intros h (f' & s' & [= <- <-] & Hsz & _ & Hl). rewrite idx_mid by done. cbn [mbind res_bind].
  set (hs := unifiedHeaderWireSize f (len (u_ConnectionID h))) in *.
  assert (0 < hs) as Hhs.
  { unfold hs, unifiedHeaderWireSize. pose proof (len_nonneg (u_ConnectionID h)).
    destruct (has_bit f UnifiedHeaderSeqBit), (has_bit f UnifiedHeaderLengthBit); lia. }
  pose proof (len_nonneg pre). destruct (u_LengthBit h); cbn [negb].
  - unfold unpackCiphertextDatagram13RecordWithLength. destruct (isValidDTLSCiphertextRecordLen _); [|done].
    cbn [negb]. rewrite len_app.
    destruct (Z.ltb_spec (len pre + len (f :: suf)) (len pre + (hs + u_Length h))); [done|].
    rewrite slice_ok by (rewrite ?len_app; lia). cbn [mbind res_bind safe].
    rewrite sub_app_r, Z.sub_diag by lia.
    replace (len pre + (hs + u_Length h) - len pre) with (hs + u_Length h) by lia.
    assert (len (sub 0 (hs + u_Length h) (f :: suf)) = hs + u_Length h) as Hlen by (rewrite len_sub; lia).
    exists (sub (hs + u_Length h) (len (f :: suf)) (f :: suf)). split; [apply take_drop_sub; lia|].
    split; [intros E; rewrite E in Hlen; change (len []) with 0 in Hlen; lia|]. intros _. rewrite len_app, Hlen. lia.
  - unfold unpackCiphertextDatagram13RecordWithoutLength. destruct (isValidDTLSCiphertextRecordLen _); [|done].
    cbn [negb]. rewrite slice_from_app by done. cbn [mbind res_bind safe].
    exists []. by rewrite app_nil_r.
Qed.

Lemma UnpackDatagram13_loop_spec c en fuel : ∀ pre suf first out, 0 ≤ c → bytes_ok suf →
  (length suf ≤ fuel)%nat →
  safe (UnpackDatagram13_loop fuel (pre ++ suf) c en (len pre) first out) (λ rs,
    ∃ rs' rest, rs = out ++ rs' ∧ suf = concat rs' ++ rest ∧ Forall (λ r, r ≠ []) rs').
Proof.
  assert (∀ fuel pre first out, UnpackDatagram13_loop fuel (pre ++ []) c en (len pre) first out = Ok out) as Hend.
  { intros. rewrite app_nil_r. destruct fuel0; cbn [UnpackDatagram13_loop]; by rewrite Z.eqb_refl. }
  induction fuel as [|fuel IH]; intros pre suf first out Hc Hok Hf.
  { destruct suf; [|cbn in Hf; lia]. rewrite Hend. exists [], []. by rewrite app_nil_r. }
  destruct suf as [|f suf]; [rewrite Hend; exists [], []; by rewrite app_nil_r|].
  cbn [UnpackDatagram13_loop]. destruct (Z.eqb_spec (len (pre ++ f :: suf)) (len pre)) as [E|_];
    [rewrite len_app, len_cons in E; pose proof (len_nonneg suf); lia|].
  rewrite idx_mid by done. cbn [mbind res_bind].
  assert (∀ r suf' first, f :: suf = r ++ suf' → r ≠ [] →
    safe (UnpackDatagram13_loop fuel (pre ++ f :: suf) c en (len (pre ++ r)) first (out ++ [r])) (λ rs,
      ∃ rs' rest, rs = out ++ rs' ∧ f :: suf = concat rs' ++ rest ∧ Forall (λ r, r ≠ []) rs')) as Hnext.
  { intros r suf' first' Es Hr. rewrite Es, (assoc_L (++)). rewrite Es in Hok, Hf.
    apply bytes_ok_app in Hok as [_ Hok]. eapply safe_mono; [apply (IH (pre ++ r)); [done|done|]|].
    - rewrite length_app in Hf. destruct r; [done|]. cbn in Hf. lia.
    - intros rs (rs' & rest & -> & -> & Hall). exists (r :: rs'), rest. cbn [concat].
      rewrite <- !(assoc_L (++)). split_and!; [done..|by constructor]. }
  destruct (isPlaintextRecord13ContentType f).
  - apply (safe_bind _ _ _). eapply safe_mono; [by apply plaintext13_cut|].
    intros [r next] (suf' & Es & Hr & ->). by apply (Hnext r suf').
  - destruct (negb en || negb (IsDTLS13Ciphertext f)); [done|].
    apply (safe_bind _ _ _). eapply safe_mono; [by apply ciphertext13_cut|].
    intros [[[r cid] next] d] (suf' & Es & Hr & Hn).
    destruct (isMismatchedCiphertextCID first cid c) as [[] first'].
    + exists [], (f :: suf). by rewrite app_nil_r.
    + destruct d; [|rewrite Hn by done; by apply (Hnext r suf')].
      exists [r], suf'. split_and!; [done|by cbn [concat]; rewrite app_nil_r|by repeat constructor].
Qed.
End datagram13.

(** ** Properties *)

(** record headers survive the wire.  For every header in range, with DTLS
    version 1.0 or 1.2 and a connection ID only for the content type that has
    one, [Marshal] succeeds with [Size()] bytes, and [Unmarshal] of these bytes
    followed by any data, on a header that expects a connection ID of that
    length, gives the header back. *)
Theorem record_header_roundtrip (h h0 : Header) (rest : list Z) :
  header_ok h → len (ConnectionID h0) = len (ConnectionID h) →
  ∃ b, Header_Marshal h = Ok b ∧ len b = Header_Size h ∧ Header_Unmarshal h0 (b ++ rest) = Ok h.
Proof. apply Header_roundtrip. Qed.

Definition example_header : Header := MkHeader 25 3 Version1_2 1 0x123456789abc [7; 8].

Lemma record_header_roundtrip_witness :
  ∃ b, Header_Marshal example_header = Ok b ∧ len b = Header_Size example_header ∧
    Header_Unmarshal (MkHeader 0 0 Version1_0 0 0 [0; 0]) (b ++ [1; 2; 3]) = Ok example_header.
Proof.
  apply record_header_roundtrip; [|reflexivity]. split; cbn; try (split; lia); [by right|]. intros []. done.
Defined.

(** unified headers survive the wire.  For every DTLS 1.3 header in range,
    with or without connection ID and length, and with a sequence number of 8
    or 16 bits, [Marshal] succeeds with [Size()] bytes, the size computed from
    the first byte alone agrees, and [Unmarshal] of these bytes followed by
    any data gives the header back. *)
Theorem unified_header_roundtrip `{CryptobyteLaws} (u u0 : UnifiedHeader) (rest : list Z) :
  unified_ok u → len (u_ConnectionID u0) = len (u_ConnectionID u) →
  ∃ f b, Unified_Marshal u = Ok (f :: b) ∧ len (f :: b) = Unified_Size u ∧
    unifiedHeaderWireSize f (len (u_ConnectionID u)) = Unified_Size u ∧
    Unified_Unmarshal u0 ((f :: b) ++ rest) = Ok u.
Proof. apply Unified_roundtrip. Qed.

Definition example_unified : UnifiedHeader := MkUnified [1; 2; 3] 0xbeef true 21 true 2.

Lemma unified_header_roundtrip_witness :
  ∃ f b, Unified_Marshal example_unified = Ok (f :: b) ∧ len (f :: b) = Unified_Size example_unified ∧
    unifiedHeaderWireSize f (len (u_ConnectionID example_unified)) = Unified_Size example_unified ∧
    Unified_Unmarshal (MkUnified [0; 0; 0] 0 false 0 false 0) ((f :: b) ++ zeros 21) = Ok example_unified.
Proof.
  apply (unified_header_roundtrip example_unified); [|reflexivity].
  split; cbn; try (split; lia); unfold len; cbn; lia.
Defined.

(** datagrams are split exactly.  On every datagram, with connection IDs
    of any length, [ContentAwareUnpackDatagram] returns (it neither panics nor
    loops), and it returns the records [rs] exactly when the datagram is their
    concatenation, each with a header and a length field that fits, and the
    last one not empty; [UnpackDatagram] is the case without connection IDs. *)
Theorem datagram_split_exact (buf : list Z) (c : Z) : 0 ≤ c → bytes_ok buf →
  no_panic (ContentAwareUnpackDatagram buf c) ∧
  (∀ rs, ContentAwareUnpackDatagram buf c = Ok rs ↔ buf = concat rs ∧ is_datagram c rs) ∧
  UnpackDatagram buf = ContentAwareUnpackDatagram buf 0.
Proof.
  intros Hc Hok. destruct (ContentAwareUnpackDatagram_spec buf c Hc Hok) as [Hnp Hiff].
  split_and!; [done..|]. apply UnpackDatagram_loop_eq; [done|]. pose proof (len_nonneg buf). lia.
Qed.

Definition two_records : list Z :=
  [22; 254; 253; 0; 0; 0; 0; 0; 0; 0; 0; 0; 2; 9; 9] ++
  [25; 254; 253; 0; 1; 0; 0; 0; 0; 0; 1; 7; 0; 1; 5].

Lemma datagram_split_exact_witness :
  no_panic (ContentAwareUnpackDatagram two_records 1) ∧
  (∀ rs, ContentAwareUnpackDatagram two_records 1 = Ok rs ↔ two_records = concat rs ∧ is_datagram 1 rs) ∧
  UnpackDatagram two_records = ContentAwareUnpackDatagram two_records 0.
Proof. apply datagram_split_exact; [lia|]. repeat constructor; lia. Defined.

(** DTLS 1.3 datagrams are split safely.  On every datagram
    [UnpackDatagram13] returns an error or a list of non-empty records that
    are, in order and without gaps, a prefix of the datagram; it neither
    panics nor loops, whatever the flags, lengths and connection IDs are. *)
Theorem datagram13_split_safe `{CryptobyteLaws} (buf : list Z) (c : Z) (enabled : bool) :
  0 ≤ c → bytes_ok buf →
  safe (UnpackDatagram13 buf c enabled) (λ rs,
    ∃ rest, buf = concat rs ++ rest ∧ Forall (λ r, r ≠ []) rs).
Proof.
  intros Hc Hok. unfold UnpackDatagram13. eapply safe_mono;
    [apply (UnpackDatagram13_loop_spec c enabled (length buf) [] buf None [] Hc Hok); lia|].
  intros rs (rs' & rest & -> & E & Hall). by exists rest.
Qed.

Lemma datagram13_split_safe_witness :
  safe (UnpackDatagram13 ([0x2e; 0; 1; 0; 16] ++ zeros 16 ++ [0x2a; 0; 2] ++ zeros 20) 0 true) (λ rs,
    ∃ rest, [0x2e; 0; 1; 0; 16] ++ zeros 16 ++ [0x2a; 0; 2] ++ zeros 20 = concat rs ++ rest ∧
      Forall (λ r, r ≠ []) rs).
Proof. apply datagram13_split_safe; [lia|]. repeat constructor; lia. Defined.

(** the content type of protected records cannot be confused.  For every
    content and every content type but zero, with any amount of padding,
    [InnerPlaintext.Unmarshal] recovers content, type and padding from what
    [Marshal] writes. *)
Theorem inner_plaintext_roundtrip `{CryptobyteLaws} (p : InnerPlaintext) :
  ip_RealType p ≠ 0 → is_byte (ip_RealType p) → 0 ≤ ip_Zeros p →
  ∃ b, Inner_Marshal p = Ok b ∧ Inner_Unmarshal b = Ok p.
Proof. apply Inner_roundtrip. Qed.

Lemma inner_plaintext_roundtrip_witness :
  ∃ b, Inner_Marshal (MkInner [0; 5; 0] 23 4) = Ok b ∧ Inner_Unmarshal b = Ok (MkInner [0; 5; 0] 23 4).
Proof. apply inner_plaintext_roundtrip; [done|split; cbn; lia|done]. Defined.

End RecordHeader.
