(* ===== verification/CipherSuite.v ===== *)
(** * Cipher suites and record protection

    [Aead]: the protection of DTLS 1.2 records with AES-GCM and
    ChaCha20-Poly1305 (src/dtls/pkg/crypto/ciphersuite).  [CipherSuite]: the
    cipher suites of src/dtls/internal/ciphersuite as values of the interface
    they implement, with their initialisation from the master secret.
    [Record13]: the protection of DTLS 1.3 records
    (tls_13_record_protection.go).  [Selection]: which suites a configuration
    enables (src/dtls/cipher_suite.go) and which of them the peers choose
    (src/dtls/internal/flight/helpers.go).

    The ciphers of Go's libraries are the class [Ciphers] with its laws. *)
From stdpp Require Import base tactics numbers list strings.
From Stdlib Require Import ZArith Lia.
From S2P Require Import Prelude Sha2 Wire SignatureHash Prf Record.
Import Protocol SignatureHash.
Open Scope Z_scope.

(** The AEADs the suites use; a cipher is the algorithm with its key. *)
Inductive aead_alg := AES_GCM | ChaCha20_Poly1305.

Record cipher := MkCipher { c_alg : aead_alg; c_key : bytes }.

Class Ciphers := {
  Seal : cipher → bytes → bytes → bytes → bytes;
  Open : cipher → bytes → bytes → bytes → option bytes;
  aes_Encrypt : bytes → bytes → bytes;
  chacha20_block : bytes → bytes → Z → bytes
}.

(** [Seal] and [Open] with nonce, text and additional data: what is sealed can
    be opened, and is 16 bytes longer. *)
Class CiphersLaws `{Ciphers} := {
  Open_Seal c nonce p ad : Open c nonce (Seal c nonce p ad) ad = Some p;
  Seal_len c nonce p ad : len (Seal c nonce p ad) = len p + 16
}.

(** aes.NewCipher with cipher.NewGCM, and chacha20poly1305.New. *)
Definition new_cipher (a : aead_alg) (key : bytes) : res dtls_error cipher :=
  match a with
  | AES_GCM =>
      if (len key =? 16) || (len key =? 24) || (len key =? 32) then Ok (MkCipher a key)
      else Err (ErrOther (gs "crypto/aes: invalid key size"))
  | ChaCha20_Poly1305 =>
      if len key =? 32 then Ok (MkCipher a key) else Err (ErrOther (gs "chacha20poly1305: bad key length"))
  end.

(** ** Record protection of DTLS 1.2 *)

Module Aead.
Import RecordHeader.

Definition seqNumPlaceholder : Z := 0xffffffffffffffff.
Definition gcmTagLength : Z := 16.
Definition chachaTagLength : Z := 16.
Definition chachaNonceLength : Z := 12.

Record aead := MkAead {
  localAEAD : cipher;
  remoteAEAD : cipher;
  localWriteIV : bytes;
  remoteWriteIV : bytes
}.

Definition new_aead (a : aead_alg) (localKey localIV remoteKey remoteIV : bytes) : res dtls_error aead :=
  l ← new_cipher a localKey;
  r ← new_cipher a remoteKey;
  Ok (MkAead l r localIV remoteIV).

Definition NewGCM := new_aead AES_GCM.
Definition NewChaCha20Poly1305 := new_aead ChaCha20_Poly1305.

Definition generateAEADAdditionalData (h : Header) (payloadLen : Z) : bytes :=
  be_put 2 (Epoch h) ++ drop 2 (be_put 8 (SequenceNumber h)) ++
  [u8 (ContentType h); Major (HVersion h); Minor (HVersion h)] ++ be_put 2 payloadLen.

(** uint64(epoch)<<48 | seq & 0xffffffffffff *)
Definition seq64 (h : Header) : Z :=
  Z.lor (u64 (Z.shiftl (Epoch h) 48)) (Z.land (SequenceNumber h) 0x0000ffffffffffff).

Section protection.
Context `{Cryptobyte} `{Ciphers}.

Definition generateAEADAdditionalDataCID (h : Header) (payloadLen : Z) : res dtls_error bytes :=
  let b := AddUint 8 NewBuilder seqNumPlaceholder in
  let b := AddUint 1 b ContentTypeConnectionID in
  let b := AddUint 1 b (u8 (len (ConnectionID h))) in
  let b := AddUint 1 b ContentTypeConnectionID in
  let b := AddUint 1 b (Major (HVersion h)) in
  let b := AddUint 1 b (Minor (HVersion h)) in
  let b := AddUint 2 b (Epoch h) in
  let b := AddUint 6 b (SequenceNumber h) in
  let b := AddBytes b (ConnectionID h) in
  let b := AddUint 2 b (u16 payloadLen) in
  match Bytes b with Ok r => Ok r | _ => Panic end.

Definition additionalData (h : Header) (payloadLen : Z) : res dtls_error bytes :=
  if ContentType h =? ContentTypeConnectionID then generateAEADAdditionalDataCID h payloadLen
  else Ok (generateAEADAdditionalData h payloadLen).

Definition encrypt (a : aead) (h : Header) (raw : bytes) : res dtls_error bytes :=
  payload ← slice_from raw (Header_Size h);
  raw ← slice raw 0 (Header_Size h);
  iv ← slice (localWriteIV a) 0 4;
  let nonce := iv ++ be_put 8 (seq64 h) in
  ad ← additionalData h (len payload);
  let r := raw ++ be_put 8 (seq64 h) ++ Seal (localAEAD a) nonce payload ad in
  Prf.put_u16 r (Header_Size h - 2) (len r - Header_Size h).

Definition decrypt (a : aead) (header : Header) (in_ : bytes) : res dtls_error bytes :=
  header ← Header_Unmarshal header in_;
  if ContentType header =? ContentTypeChangeCipherSpec then Ok in_ else
  if len in_ <=? 8 + Header_Size header then Err ErrNotEnoughRoomForNonce else
  iv ← slice (remoteWriteIV a) 0 4;
  explicit ← slice in_ (Header_Size header) (Header_Size header + 8);
  out ← slice_from in_ (Header_Size header + 8);
  ad ← additionalData header (len out - gcmTagLength);
  match Open (remoteAEAD a) (iv ++ explicit) out ad with
  | None => Err ErrDecryptPacket
  | Some plain => hd ← slice in_ 0 (Header_Size header); Ok (hd ++ plain)
  end.

(** The nonce of ChaCha20-Poly1305: the last eight bytes of the IV are combined
    with the sequence number. *)
Definition chacha_nonce (iv : bytes) (h : Header) : bytes :=
  let nonce := take 12 (iv ++ zeros chachaNonceLength) in
  take 4 nonce ++ zip_with Z.lxor (drop 4 nonce) (be_put 8 (seq64 h)).

Definition ChaCha_Encrypt (a : aead) (h : Header) (raw : bytes) : res dtls_error bytes :=
  payload ← slice_from raw (Header_Size h);
  raw ← slice raw 0 (Header_Size h);
  ad ← additionalData h (len payload);
  let encrypted := Seal (localAEAD a) (chacha_nonce (localWriteIV a) h) payload ad in
  Prf.put_u16 (raw ++ encrypted) (Header_Size h - 2) (len encrypted).

Definition ChaCha_Decrypt (a : aead) (header : Header) (in_ : bytes) : res dtls_error bytes :=
  header ← Header_Unmarshal header in_;
  if ContentType header =? ContentTypeChangeCipherSpec then Ok in_ else
  ciphertext ← slice_from in_ (Header_Size header);
  ad ← additionalData header (len ciphertext - chachaTagLength);
  match Open (remoteAEAD a) (chacha_nonce (remoteWriteIV a) header) ciphertext ad with
  | None => Err ErrDecryptPacket
  | Some plain => hd ← slice in_ 0 (Header_Size header); Ok (hd ++ plain)
  end.

End protection.

(** *** Lemmas *)

(** The header with another length. *)
Definition with_len (h : Header) (n : Z) : Header :=
  MkHeader (ContentType h) n (HVersion h) (Epoch h) (SequenceNumber h) (ConnectionID h).

Definition header_bytes (h : Header) : bytes :=
  [ContentType h; Major (HVersion h); Minor (HVersion h)] ++ be_put 2 (Epoch h) ++
  be_put 6 (SequenceNumber h) ++ ConnectionID h ++ be_put 2 (ContentLen h).

Lemma Header_Marshal_bytes h : header_ok h → Header_Marshal h = Ok (header_bytes h).
Proof.
  intros Hh. unfold Header_Marshal. pose proof (ho_seq _ Hh) as Hs. unfold is_u48 in Hs.
  destruct (Z.ltb_spec MaxSequenceNumber (SequenceNumber h)); [unfold MaxSequenceNumber in *; lia|done].
Qed.

Lemma header_bytes_len h : len (header_bytes h) = Header_Size h.
Proof.
  unfold header_bytes, Header_Size, FixedHeaderSize. rewrite !len_app, !len_be_put. autorewrite with golen. lia.
Qed.

Lemma Header_read h h0 rest : header_ok h → len (ConnectionID h0) = len (ConnectionID h) →
  Header_Unmarshal h0 (header_bytes h ++ rest) = Ok h.
Proof.
  intros Hh Hc. destruct (Header_roundtrip h h0 rest Hh Hc) as (b & Hm & _ & Hu).
  rewrite Header_Marshal_bytes in Hm by done. by injection Hm as <-.
Qed.

Lemma with_len_ok h n : header_ok h → is_u16 n → header_ok (with_len h n).
Proof. by intros []; split. Qed.

(** Writing the length into an encoded header. *)
Lemma put_header_len h n rest : Prf.put_u16 (header_bytes h ++ rest) (Header_Size h - 2) n = Ok (header_bytes (with_len h n) ++ rest).
Proof.
  pose proof (header_bytes_len h) as Hl. unfold header_bytes in *. cbn [with_len ContentType HVersion Epoch SequenceNumber ConnectionID ContentLen].
  rewrite !(assoc_L (++)) in *. rewrite <- !(assoc_L (++) _ (be_put 2 _) rest).
  apply Prf.put_u16_mid; [|apply length_be_put]. rewrite len_app, len_be_put in Hl. lia.
Qed.

Lemma seq64_value h : header_ok h → seq64 h = Epoch h * 2 ^ 48 + SequenceNumber h.
Proof.
  intros Hh. pose proof (ho_epoch _ Hh) as He. pose proof (ho_seq _ Hh) as Hs. unfold is_u16, is_u48 in *. unfold seq64.
  change 0x0000ffffffffffff with (Z.ones 48). rewrite Z.land_ones, (Z.mod_small (SequenceNumber h)) by lia.
  rewrite Z.shiftl_mul_pow2 by lia. unfold u64. rewrite Z.mod_small by lia. apply lor_add; lia.
Qed.

Section laws.
Context `{CryptobyteLaws} `{CiphersLaws}.

Lemma additionalData_Ok h n : ∃ ad, additionalData h n = Ok ad ∧ ∀ n', additionalData (with_len h n') n = Ok ad.
Proof.
  unfold additionalData, generateAEADAdditionalDataCID, generateAEADAdditionalData. cbn [with_len ContentType ConnectionID HVersion Epoch SequenceNumber].
  destruct (ContentType h =? ContentTypeConnectionID); [|by eexists].
  repeat (rewrite ?Bytes_AddUint, ?Bytes_AddBytes, ?Bytes_New; cbn [mbind res_bind]). by eexists.
Qed.

(** A sealed record is opened by the other side to the record with its length. *)
Lemma gcm_roundtrip a b h h0 payload : header_ok h → len (ConnectionID h0) = len (ConnectionID h) →
  ContentType h ≠ ContentTypeChangeCipherSpec → len payload + 24 < 2 ^ 16 → 4 ≤ len (localWriteIV a) →
  localAEAD a = remoteAEAD b → localWriteIV a = remoteWriteIV b →
  ∃ enc, encrypt a h (header_bytes h ++ payload) = Ok (header_bytes (with_len h (len enc)) ++ enc) ∧ len enc = len payload + 24 ∧
    decrypt b h0 (header_bytes (with_len h (len enc)) ++ enc) = Ok (header_bytes (with_len h (len enc)) ++ payload).
Proof.
  intros Hh Hc Hccs Hsz Hiv Hk Ev. pose proof (header_bytes_len h) as Hl. pose proof (len_nonneg payload).
  destruct (additionalData_Ok h (len payload)) as (ad & Had & Had'). unfold encrypt.
  rewrite slice_from_app by lia. cbn [mbind res_bind]. rewrite slice_app_l by lia. cbn [mbind res_bind].
  rewrite slice_ok by lia. cbn [mbind res_bind]. rewrite Had. cbn [mbind res_bind].
  set (nonce := sub 0 4 (localWriteIV a) ++ be_put 8 (seq64 h)). set (enc := be_put 8 (seq64 h) ++ Seal (localAEAD a) nonce payload ad).
  assert (len enc = len payload + 24) as Henc by (unfold enc; rewrite len_app, len_be_put, Seal_len; lia).
  rewrite len_app, Hl. replace (Header_Size h + len enc - Header_Size h) with (len enc) by lia. rewrite put_header_len.
  exists enc. split; [done|]. split; [done|]. set (h' := with_len h (len enc)).
  assert (Header_Size h' = Header_Size h) as Hsize by done. pose proof (header_bytes_len h') as Hl'.
  unfold decrypt. rewrite Header_read; [|apply with_len_ok; [done|unfold is_u16; lia]|done]. cbn [mbind res_bind].
  change (ContentType h') with (ContentType h). destruct (Z.eqb_spec (ContentType h) ContentTypeChangeCipherSpec); [done|].
  rewrite len_app, Hl', Henc. destruct (Z.leb_spec (Header_Size h' + (len payload + 24)) (8 + Header_Size h')); [lia|].
  rewrite <- Ev, (slice_ok 0 4) by lia. cbn [mbind res_bind]. 
  assert (slice (header_bytes h' ++ enc) (Header_Size h') (Header_Size h' + 8) = (Ok (be_put 8 (seq64 h)) : res dtls_error bytes)) as ->
    by (apply slice_mid; rewrite ?len_be_put; lia).
  cbn [mbind res_bind].
  assert (slice_from (header_bytes h' ++ enc) (Header_Size h' + 8) = (Ok (Seal (localAEAD a) nonce payload ad) : res dtls_error bytes)) as ->.
  { unfold enc. rewrite (assoc_L (++)). apply slice_from_app. rewrite len_app, len_be_put. lia. }
  cbn [mbind res_bind]. rewrite Seal_len. unfold gcmTagLength. replace (len payload + 16 - 16) with (len payload) by lia.
  unfold h'. rewrite Had'. cbn [mbind res_bind]. rewrite <- Hk. fold nonce. rewrite Open_Seal.
  rewrite slice_app_l by (by rewrite header_bytes_len). done.
Qed.

Lemma chacha_roundtrip a b h h0 payload : header_ok h → len (ConnectionID h0) = len (ConnectionID h) →
  ContentType h ≠ ContentTypeChangeCipherSpec → len payload + 16 < 2 ^ 16 →
  localAEAD a = remoteAEAD b → localWriteIV a = remoteWriteIV b →
  ∃ enc, ChaCha_Encrypt a h (header_bytes h ++ payload) = Ok (header_bytes (with_len h (len enc)) ++ enc) ∧ len enc = len payload + 16 ∧
    ChaCha_Decrypt b h0 (header_bytes (with_len h (len enc)) ++ enc) = Ok (header_bytes (with_len h (len enc)) ++ payload).
Proof.
  intros Hh Hc Hccs Hsz Hk Ev. pose proof (header_bytes_len h) as Hl. pose proof (len_nonneg payload).
  destruct (additionalData_Ok h (len payload)) as (ad & Had & Had'). unfold ChaCha_Encrypt.
  rewrite slice_from_app by lia. cbn [mbind res_bind]. rewrite slice_app_l by lia. cbn [mbind res_bind].
  rewrite Had. cbn [mbind res_bind]. set (enc := Seal (localAEAD a) _ payload ad).
  assert (len enc = len payload + 16) as Henc by (unfold enc; by rewrite Seal_len). rewrite put_header_len.
  exists enc. split; [done|]. split; [done|]. set (h' := with_len h (len enc)). pose proof (header_bytes_len h') as Hl'.
  unfold ChaCha_Decrypt. rewrite Header_read; [|apply with_len_ok; [done|unfold is_u16; lia]|done]. cbn [mbind res_bind].
  change (ContentType h') with (ContentType h). destruct (Z.eqb_spec (ContentType h) ContentTypeChangeCipherSpec); [done|].
  rewrite slice_from_app by lia. cbn [mbind res_bind]. rewrite Henc. unfold chachaTagLength.
  replace (len payload + 16 - 16) with (len payload) by lia. unfold h'. rewrite Had'. cbn [mbind res_bind].
  change (chacha_nonce (remoteWriteIV b) (with_len h (len enc))) with (chacha_nonce (remoteWriteIV b) h).
  rewrite <- Ev, <- Hk. unfold enc at 1. rewrite Open_Seal. fold h'.
  rewrite slice_app_l by (by rewrite header_bytes_len). done.
Qed.

End laws.
End Aead.

(** ** The cipher suites of DTLS 1.2 *)

Module CipherSuite.
Import RecordHeader.

(** What an initialised suite can do. *)
Record Protection := MkProtection {
  Encrypt : Header → bytes → res dtls_error bytes;
  Decrypt : Header → bytes → res dtls_error bytes
}.

(** The interface CipherSuite without its state: whether a suite is initialised
    is kept where the suite is used. *)
Record CipherSuite := MkSuite {
  ID : Z;
  CertificateType : Z;
  HashFunc : Hash;
  AuthenticationType : Z;
  KeyExchangeAlgorithm : Z;
  ECC : bool;
  Init : bytes → bytes → bytes → bool → res dtls_error Protection
}.

Definition AuthenticationTypeCertificate : Z := 1.
Definition AuthenticationTypePreSharedKey : Z := 2.
Definition AuthenticationTypeAnonymous : Z := 3.

Definition TLS_ECDHE_ECDSA_WITH_AES_256_GCM_SHA384 : Z := 0xc02c.
Definition TLS_PSK_WITH_AES_128_GCM_SHA256 : Z := 0x00a8.
Definition TLS_ECDHE_ECDSA_WITH_CHACHA20_POLY1305_SHA256 : Z := 0xcca9.
Definition TLS_PSK_WITH_CHACHA20_POLY1305_SHA256 : Z := 0xccab.
Definition TLS_CHACHA20_POLY1305_SHA256 : Z := 0x1303.

Section suites.
Context `{Cryptobyte} `{Ciphers}.

(** The keys each side writes and reads with. *)
Definition init_keys (masterSecret clientRandom serverRandom : bytes) (isClient : bool) (prfMacLen prfKeyLen prfIvLen : Z)
    (hashFunc : Hash) (new : bytes → bytes → bytes → bytes → res dtls_error Aead.aead) : res dtls_error Aead.aead :=
  keys ← Prf.GenerateEncryptionKeys masterSecret clientRandom serverRandom prfMacLen prfKeyLen prfIvLen hashFunc;
  if isClient
  then new (Prf.ClientWriteKey keys) (Prf.ClientWriteIV keys) (Prf.ServerWriteKey keys) (Prf.ServerWriteIV keys)
  else new (Prf.ServerWriteKey keys) (Prf.ServerWriteIV keys) (Prf.ClientWriteKey keys) (Prf.ClientWriteIV keys).

Definition init_gcm (keyLen : Z) (h : Hash) (masterSecret clientRandom serverRandom : bytes) (isClient : bool) : res dtls_error Protection :=
  a ← init_keys masterSecret clientRandom serverRandom isClient 0 keyLen 4 h Aead.NewGCM;
  Ok (MkProtection (Aead.encrypt a) (Aead.decrypt a)).

Definition init_chacha (h : Hash) (masterSecret clientRandom serverRandom : bytes) (isClient : bool) : res dtls_error Protection :=
  a ← init_keys masterSecret clientRandom serverRandom isClient 0 32 12 h Aead.NewChaCha20Poly1305;
  Ok (MkProtection (Aead.ChaCha_Encrypt a) (Aead.ChaCha_Decrypt a)).

Definition TLSEcdheEcdsaWithAes256GcmSha384 : CipherSuite :=
  MkSuite TLS_ECDHE_ECDSA_WITH_AES_256_GCM_SHA384 ECDSASign Sha2.sha384 AuthenticationTypeCertificate
    KeyExchangeAlgorithmEcdhe true (init_gcm 32 Sha2.sha384).

Definition TLSPskWithAes128GcmSha256 : CipherSuite :=
  MkSuite TLS_PSK_WITH_AES_128_GCM_SHA256 0 Sha2.sha256 AuthenticationTypePreSharedKey
    KeyExchangeAlgorithmPsk true (init_gcm 16 Sha2.sha256).

Definition TLSEcdheEcdsaWithChacha20Poly1305Sha256 : CipherSuite :=
  MkSuite TLS_ECDHE_ECDSA_WITH_CHACHA20_POLY1305_SHA256 ECDSASign Sha2.sha256 AuthenticationTypeCertificate
    KeyExchangeAlgorithmEcdhe true (init_chacha Sha2.sha256).

Definition TLSPskWithChacha20Poly1305Sha256 : CipherSuite :=
  MkSuite TLS_PSK_WITH_CHACHA20_POLY1305_SHA256 0 Sha2.sha256 AuthenticationTypePreSharedKey
    KeyExchangeAlgorithmPsk true (init_chacha Sha2.sha256).

(** The suite of DTLS 1.3 takes its keys from the traffic secrets instead. *)
Definition TLSChacha20Poly1305Sha256 : CipherSuite :=
  MkSuite TLS_CHACHA20_POLY1305_SHA256 0 Sha2.sha256 AuthenticationTypeAnonymous
    KeyExchangeAlgorithmNone true (λ _ _ _ _, Err ErrCipherSuiteRecordProtectionNotImplemented).

(** [customCiphers] is nil or gives the suites of the configuration. *)
Definition ForID (id : Z) (customCiphers : option (list CipherSuite)) : option CipherSuite :=
  if id =? TLS_CHACHA20_POLY1305_SHA256 then Some TLSChacha20Poly1305Sha256 else
  if id =? TLS_PSK_WITH_AES_128_GCM_SHA256 then Some TLSPskWithAes128GcmSha256 else
  if id =? TLS_ECDHE_ECDSA_WITH_AES_256_GCM_SHA384 then Some TLSEcdheEcdsaWithAes256GcmSha384 else
  if id =? TLS_ECDHE_ECDSA_WITH_CHACHA20_POLY1305_SHA256 then Some TLSEcdheEcdsaWithChacha20Poly1305Sha256 else
  if id =? TLS_PSK_WITH_CHACHA20_POLY1305_SHA256 then Some TLSPskWithChacha20Poly1305Sha256 else
  match customCiphers with
  | Some cs => find (λ c, ID c =? id) cs
  | None => None
  end.

(** The suites of DTLS 1.2 that the library implements. *)
Definition suites12 : list CipherSuite :=
  [TLSEcdheEcdsaWithAes256GcmSha384; TLSPskWithAes128GcmSha256;
   TLSEcdheEcdsaWithChacha20Poly1305Sha256; TLSPskWithChacha20Poly1305Sha256].

End suites.

Definition SupportedVersions (id : Z) : list Version :=
  if id =? TLS_CHACHA20_POLY1305_SHA256 then [Version1_3] else [Version1_2].

Definition IDSupportsVersion (id : Z) (version : Version) : bool :=
  existsb (Version_Equal version) (SupportedVersions id).

(** *** Lemmas *)

Lemma xor_inj (a b c : bytes) : length b = length a → length c = length b →
  zip_with Z.lxor a b = zip_with Z.lxor a c → b = c.
Proof.
  revert b c. induction a as [|x a IH]; intros [|y b] [|z c]; try done. cbn. intros [= Hb] [= Hc] [= E1 E2].
  f_equal; [|by apply IH]. apply (f_equal (Z.lxor x)) in E1. by rewrite <- !Z.lxor_assoc, Z.lxor_nilpotent, !Z.lxor_0_l in E1.
Qed.

Section laws.
Context `{CryptobyteLaws} `{CiphersLaws}.

Definition swap (a : Aead.aead) : Aead.aead :=
  Aead.MkAead (Aead.remoteAEAD a) (Aead.localAEAD a) (Aead.remoteWriteIV a) (Aead.localWriteIV a).

(** Both sides derive the same keys, with the directions exchanged. *)
Lemma init_keys_agree alg ms cr sr keyLen ivLen h : hash_ok h → 0 ≤ ivLen →
  (match alg with AES_GCM => keyLen = 16 ∨ keyLen = 32 | ChaCha20_Poly1305 => keyLen = 32 end) →
  ∃ a, init_keys ms cr sr true 0 keyLen ivLen h (Aead.new_aead alg) = Ok a ∧
    init_keys ms cr sr false 0 keyLen ivLen h (Aead.new_aead alg) = Ok (swap a) ∧
    len (Aead.localWriteIV a) = ivLen ∧ len (Aead.remoteWriteIV a) = ivLen.
Proof.
  intros Hh Hiv Hk. pose proof (hk_size _ Hh).
  assert (0 ≤ keyLen) as Hk0 by (destruct alg; lia).
  destruct (Prf.keys_lengths h ms cr sr 0 keyLen ivLen) as (keys & Hkeys & _ & _ & Hck & Hsk & Hci & Hsi); [done|lia..|].
  assert (∀ key, len key = keyLen → new_cipher alg key = Ok (MkCipher alg key)) as Hnew.
  { intros key Hkey. unfold new_cipher. rewrite Hkey. destruct alg; [destruct Hk as [-> | ->]|rewrite Hk]; done. }
  unfold init_keys. rewrite Hkeys. cbn [mbind res_bind]. unfold Aead.new_aead. rewrite !Hnew by done. cbn [mbind res_bind].
  by eexists.
Qed.

(** The two ends of a suite of DTLS 1.2: [c] and [s] protect records for each
    other.  The text grows by at most 24 bytes. *)
Definition opens (p q : Protection) : Prop :=
  ∀ h h0 payload, header_ok h → len (ConnectionID h0) = len (ConnectionID h) →
    ContentType h ≠ ContentTypeChangeCipherSpec → len payload + 24 < 2 ^ 16 →
    ∃ enc, Encrypt p h (Aead.header_bytes h ++ payload) = Ok (Aead.header_bytes (Aead.with_len h (len enc)) ++ enc) ∧
      len payload < len enc ≤ len payload + 24 ∧
      Decrypt q h0 (Aead.header_bytes (Aead.with_len h (len enc)) ++ enc) =
        Ok (Aead.header_bytes (Aead.with_len h (len enc)) ++ payload).

Lemma init_gcm_opens keyLen h ms cr sr : hash_ok h → keyLen = 16 ∨ keyLen = 32 →
  ∃ c s, init_gcm keyLen h ms cr sr true = Ok c ∧ init_gcm keyLen h ms cr sr false = Ok s ∧ opens c s ∧ opens s c.
Proof.
  intros Hh Hk. destruct (init_keys_agree AES_GCM ms cr sr keyLen 4 h Hh ltac:(lia) Hk) as (a & Hc & Hs & Hl & Hr).
  unfold init_gcm. unfold Aead.NewGCM. rewrite Hc, Hs. do 2 eexists. split_and!; [done|done| |];
    intros hd h0 payload ? ? ? ?; cbn [Encrypt Decrypt].
  - destruct (Aead.gcm_roundtrip a (swap a) hd h0 payload) as (enc & ? & ? & ?); [done..|lia|done|done|].
    exists enc. split_and!; [done|lia..|done].
  - destruct (Aead.gcm_roundtrip (swap a) a hd h0 payload) as (enc & ? & ? & ?); [done..|cbn; lia|done|done|].
    exists enc. split_and!; [done|lia..|done].
Qed.

Lemma init_chacha_opens h ms cr sr : hash_ok h →
  ∃ c s, init_chacha h ms cr sr true = Ok c ∧ init_chacha h ms cr sr false = Ok s ∧ opens c s ∧ opens s c.
Proof.
  intros Hh. destruct (init_keys_agree ChaCha20_Poly1305 ms cr sr 32 12 h Hh ltac:(lia) eq_refl) as (a & Hc & Hs & Hl & Hr).
  unfold init_chacha. unfold Aead.NewChaCha20Poly1305. rewrite Hc, Hs. do 2 eexists. split_and!; [done|done| |];
    intros hd h0 payload ? ? ? ?; cbn [Encrypt Decrypt].
  - destruct (Aead.chacha_roundtrip a (swap a) hd h0 payload) as (enc & ? & ? & ?); [done..|lia|done|done|].
    exists enc. split_and!; [done|lia..|done].
  - destruct (Aead.chacha_roundtrip (swap a) a hd h0 payload) as (enc & ? & ? & ?); [done..|lia|done|done|].
    exists enc. split_and!; [done|lia..|done].
Qed.

Lemma suites12_init s ms cr sr : s ∈ suites12 →
  ∃ c p, Init s ms cr sr true = Ok c ∧ Init s ms cr sr false = Ok p ∧ opens c p ∧ opens p c.
Proof.
  unfold suites12. rewrite !elem_of_cons. intros [->|[->|[->|[->|Hn]]]]; cbn [Init].
  - apply init_gcm_opens; [exact Sha2.sha384_ok|by right].
  - apply init_gcm_opens; [exact Sha2.sha256_ok|by left].
  - apply init_chacha_opens, Sha2.sha256_ok.
  - apply init_chacha_opens, Sha2.sha256_ok.
  - by apply not_elem_of_nil in Hn.
Qed.

(** *** Properties *)

(** C29: record protection works between the peers: for every suite of DTLS 1.2
    and every master secret and pair of randoms, client and server can both be
    initialised, and every record (with or without a connection ID) that one of
    them encrypts is decrypted by the other to the same header, with the length
    of the protected record, and the same payload. *)
Theorem record_protection_roundtrip s ms cr sr : s ∈ suites12 →
  ∃ client server, Init s ms cr sr true = Ok client ∧ Init s ms cr sr false = Ok server ∧
    opens client server ∧ opens server client.
Proof. apply suites12_init. Qed.

(** no two records of a connection are encrypted with the same nonce:
    headers with different epochs or sequence numbers have different nonces,
    for AES-GCM and for ChaCha20-Poly1305. *)
Theorem nonces_differ h h' iv : header_ok h → header_ok h' → len iv = 12 → bytes_ok iv →
  (Epoch h, SequenceNumber h) ≠ (Epoch h', SequenceNumber h') →
  take 4 iv ++ be_put 8 (Aead.seq64 h) ≠ take 4 iv ++ be_put 8 (Aead.seq64 h') ∧
  Aead.chacha_nonce iv h ≠ Aead.chacha_nonce iv h'.
Proof.
  intros Hh Hh' Hiv Hok Hne.
  assert (be_put 8 (Aead.seq64 h) ≠ be_put 8 (Aead.seq64 h')) as Hseq.
  { intros E. apply (f_equal be_get) in E. rewrite !be_get_put, !Aead.seq64_value in E by done.
    pose proof (ho_epoch _ Hh). pose proof (ho_epoch _ Hh'). pose proof (ho_seq _ Hh). pose proof (ho_seq _ Hh').
    unfold is_u16, is_u48 in *. rewrite !Z.mod_small in E by (cbn; lia). apply Hne. f_equal; lia. }
  split; [by intros ?%(inj (app _))|].
  unfold Aead.chacha_nonce. rewrite take_app_length' by (unfold len in Hiv; lia). intros ?%(inj (app _)).
  apply Hseq. apply (xor_inj (drop 4 iv)); [|by rewrite !length_be_put|done].
  rewrite length_be_put, length_drop. unfold len in Hiv. lia.
Qed.

End laws.
End CipherSuite.

(** An instance of [Ciphers] that satisfies the laws; its tag is the key's first
    bytes, so that records of another key are not opened. *)
Definition toy_tag (c : cipher) (nonce ad : bytes) : bytes := take 16 (map u8 (c_key c ++ nonce ++ ad) ++ zeros 16).

#[export] Instance toy_ciphers : Ciphers := {|
  Seal c nonce p ad := p ++ toy_tag c nonce ad;
  Open c nonce t ad :=
    let n := (length t - 16)%nat in
    if bool_decide (drop n t = toy_tag c nonce ad) then Some (take n t) else None;
  aes_Encrypt _ b := b;
  chacha20_block k _ _ := take 64 (k ++ zeros 64)
|}.

Lemma toy_tag_len c nonce ad : length (toy_tag c nonce ad) = 16%nat.
Proof. unfold toy_tag, zeros. rewrite length_take, length_app, length_replicate. change (Z.to_nat 16) with 16%nat. lia. Qed.

#[export] Instance toy_ciphers_laws : CiphersLaws.
Proof.
  split; intros; cbn [Seal Open toy_ciphers].
  - cbv zeta. rewrite length_app, toy_tag_len, Nat.add_sub, drop_app_length, take_app_length. by rewrite bool_decide_true.
  - rewrite len_app. unfold len. by rewrite toy_tag_len.
Qed.

Section witnesses.
Import CipherSuite RecordHeader.

Lemma record_protection_roundtrip_witness :
  TLSPskWithAes128GcmSha256 ∈ suites12 ∧
  ∃ client server, Init TLSPskWithAes128GcmSha256 [1] [2] [3] true = Ok client ∧
    Init TLSPskWithAes128GcmSha256 [1] [2] [3] false = Ok server ∧ opens client server ∧ opens server client.
Proof.
  assert (TLSPskWithAes128GcmSha256 ∈ suites12) as Hs by (by apply elem_of_cons; right; apply elem_of_cons; left).
  split; [exact Hs|]. exact (record_protection_roundtrip TLSPskWithAes128GcmSha256 [1] [2] [3] Hs).
Defined.

Lemma nonces_differ_witness :
  Aead.chacha_nonce (zeros 12) (MkHeader 23 5 Version1_2 1 7 []) ≠ Aead.chacha_nonce (zeros 12) (MkHeader 23 5 Version1_2 1 8 []).
Proof.
  refine (proj2 (nonces_differ (MkHeader 23 5 Version1_2 1 7 []) (MkHeader 23 5 Version1_2 1 8 []) (zeros 12) _ _ _ _ _)).
  1,2: split; cbn; try (split; lia); auto.
  - reflexivity.
  - by apply (bool_decide_unpack _); vm_compute.
  - done.
Defined.

End witnesses.

(** ** Record protection of DTLS 1.3 *)

Module Record13.
Import RecordHeader KeySchedule.

Definition trafficKeyLabel13 : gostring := gs "key".
Definition trafficIVLabel13 : gostring := gs "iv".
Definition trafficSequenceNumberKeyLabel13 : gostring := gs "sn".
Definition tls13AEADWriteIVLen : Z := 12.
Definition tls13ChaCha20Poly1305KeyLen : Z := 32.
Definition tls13SequenceNumberMaskSampleLen : Z := 16.
Definition maxDTLSPlaintextRecordLen13 : Z := 2 ^ 14.
Definition maxDTLSCiphertextRecordLen13 : Z := maxDTLSPlaintextRecordLen13 + 256.

Record recordTrafficKeys13 := MkTrafficKeys { tk_key : bytes; tk_iv : bytes; tk_sequenceNumberKey : bytes }.

Inductive mask_func := MaskAES | MaskChaCha.

Record recordTrafficProtection13 := MkTraffic {
  tp_aead : cipher;
  tp_iv : bytes;
  tp_sequenceNumberKey : bytes;
  tp_sequenceNumberMask : mask_func
}.

Record recordProtection13 := MkProtection13 { local13 : recordTrafficProtection13; remote13 : recordTrafficProtection13 }.

Section record13.
Context `{Cryptobyte} `{Ciphers}.

Definition deriveRecordTrafficKeys13 (h : Hash) (trafficSecret : bytes) (keyLen : Z) : res dtls_error recordTrafficKeys13 :=
  if keyLen <=? 0 then Err ErrLengthMismatch else
  key ← HkdfExpandLabel (Some h) trafficSecret trafficKeyLabel13 [] keyLen;
  iv ← HkdfExpandLabel (Some h) trafficSecret trafficIVLabel13 [] tls13AEADWriteIVLen;
  sn ← HkdfExpandLabel (Some h) trafficSecret trafficSequenceNumberKeyLabel13 [] keyLen;
  Ok (MkTrafficKeys key iv sn).

Definition newAESGCMRecordTrafficProtection13 (h : Hash) (trafficSecret : bytes) (keyLen : Z) : res dtls_error recordTrafficProtection13 :=
  keys ← deriveRecordTrafficKeys13 h trafficSecret keyLen;
  aead ← new_cipher AES_GCM (tk_key keys);
  Ok (MkTraffic aead (tk_iv keys) (tk_sequenceNumberKey keys) MaskAES).

Definition newAESGCMRecordProtection13 (h : Hash) (localSecret remoteSecret : bytes) (keyLen : Z) : res dtls_error recordProtection13 :=
  l ← newAESGCMRecordTrafficProtection13 h localSecret keyLen;
  r ← newAESGCMRecordTrafficProtection13 h remoteSecret keyLen;
  Ok (MkProtection13 l r).

Definition newChaCha20Poly1305RecordTrafficProtection13 (h : Hash) (trafficSecret : bytes) : res dtls_error recordTrafficProtection13 :=
  keys ← deriveRecordTrafficKeys13 h trafficSecret tls13ChaCha20Poly1305KeyLen;
  aead ← new_cipher ChaCha20_Poly1305 (tk_key keys);
  Ok (MkTraffic aead (tk_iv keys) (tk_sequenceNumberKey keys) MaskChaCha).

Definition newChaCha20Poly1305RecordProtection13 (h : Hash) (localSecret remoteSecret : bytes) : res dtls_error recordProtection13 :=
  l ← newChaCha20Poly1305RecordTrafficProtection13 h localSecret;
  r ← newChaCha20Poly1305RecordTrafficProtection13 h remoteSecret;
  Ok (MkProtection13 l r).

Definition localRemoteTrafficSecrets13 (clientSecret serverSecret : bytes) (isClient : bool) : bytes * bytes :=
  if isClient then (clientSecret, serverSecret) else (serverSecret, clientSecret).

Definition InitFromTrafficSecrets13 (clientSecret serverSecret : bytes) (isClient : bool) : res dtls_error recordProtection13 :=
  let '(localSecret, remoteSecret) := localRemoteTrafficSecrets13 clientSecret serverSecret isClient in
  newChaCha20Poly1305RecordProtection13 Sha2.sha256 localSecret remoteSecret.

Definition recordNonce13 (iv : bytes) (sequenceNumber : Z) : res dtls_error bytes :=
  if negb (len iv =? tls13AEADWriteIVLen) then Err ErrLengthMismatch else
  Ok (take 4 iv ++ zip_with Z.lxor (drop 4 iv) (be_put 8 sequenceNumber)).

(** The record that [seal] returns: its header and the encrypted part. *)
Definition seal (r : recordProtection13) (header : UnifiedHeader) (sequenceNumber contentType : Z) (plaintext : bytes)
    : res dtls_error (UnifiedHeader * bytes) :=
  if maxDTLSPlaintextRecordLen13 <? len plaintext then Err ErrInvalidPacketLength else
  innerPlaintext ← Inner_Marshal (MkInner plaintext contentType 0);
  let ciphertextLen := len innerPlaintext + 16 in
  if maxDTLSCiphertextRecordLen13 <? ciphertextLen then Err ErrInvalidPacketLength else
  let header := MkUnified (u_ConnectionID header) (u_SequenceNumber header) true (u16 ciphertextLen) true (u_EpochLow header) in
  additionalData ← Unified_Marshal header;
  nonce ← recordNonce13 (tp_iv (local13 r)) sequenceNumber;
  Ok (header, Seal (tp_aead (local13 r)) nonce innerPlaintext additionalData).

Definition open (r : recordProtection13) (header : UnifiedHeader) (sequenceNumber : Z) (encryptedRecord : bytes)
    : res dtls_error InnerPlaintext :=
  additionalData ← Unified_Marshal header;
  nonce ← recordNonce13 (tp_iv (remote13 r)) sequenceNumber;
  match Open (tp_aead (remote13 r)) nonce encryptedRecord additionalData with
  | None => Err ErrDecryptPacket
  | Some innerPlaintextRaw => Inner_Unmarshal innerPlaintextRaw
  end.

Definition recordSequenceNumberMaskAES13 (sequenceNumberKey encryptedRecord : bytes) : res dtls_error bytes :=
  if len encryptedRecord <? tls13SequenceNumberMaskSampleLen then Err ErrBufferTooSmall else
  _ ← new_cipher AES_GCM sequenceNumberKey;
  sample ← slice encryptedRecord 0 16;
  Ok (aes_Encrypt sequenceNumberKey sample).

Definition recordSequenceNumberMaskChaCha20Poly1305TLS13 (sequenceNumberKey encryptedRecord : bytes) : res dtls_error bytes :=
  if len encryptedRecord <? tls13SequenceNumberMaskSampleLen then Err ErrBufferTooSmall else
  nonce ← slice encryptedRecord 4 16;
  if negb (len sequenceNumberKey =? 32) then Err (ErrOther (gs "chacha20: wrong key size")) else
  counter ← slice encryptedRecord 0 4;
  Ok (chacha20_block sequenceNumberKey nonce (be_get (reverse counter))).

Definition sequenceNumberMask (r : recordProtection13) (encryptedRecord : bytes) : res dtls_error bytes :=
  match tp_sequenceNumberMask (local13 r) with
  | MaskAES => recordSequenceNumberMaskAES13 (tp_sequenceNumberKey (local13 r)) encryptedRecord
  | MaskChaCha => recordSequenceNumberMaskChaCha20Poly1305TLS13 (tp_sequenceNumberKey (local13 r)) encryptedRecord
  end.

End record13.

Section laws.
Context `{CryptobyteLaws} `{CiphersLaws}.

Lemma expand_len h secret label n : hash_ok h → 0 < len label ≤ 249 → 0 ≤ n ≤ 255 * h_size h → n < 2 ^ 16 →
  ∃ k, HkdfExpandLabel (Some h) secret label [] n = Ok k ∧ len k = n.
Proof.
  intros Hh Hl Hn H16. rewrite (expand_label_blocks h secret label [] n) by (done || (cbn; lia)).
  eexists. split; [done|]. pose proof (T_blocks_len h secret (hkdf_label label [] n) 255 Hh) as Hb.
  unfold len in *. rewrite length_take. lia.
Qed.

Lemma chacha_traffic secret : ∃ t, newChaCha20Poly1305RecordTrafficProtection13 Sha2.sha256 secret = Ok t ∧
  len (tp_iv t) = 12 ∧ len (tp_sequenceNumberKey t) = 32 ∧ tp_sequenceNumberMask t = MaskChaCha.
Proof.
  unfold newChaCha20Poly1305RecordTrafficProtection13, deriveRecordTrafficKeys13.
  destruct (expand_len Sha2.sha256 secret trafficKeyLabel13 32) as (k & Ek & Hk); [exact Sha2.sha256_ok|by apply (bool_decide_unpack _); vm_compute..|].
  destruct (expand_len Sha2.sha256 secret trafficIVLabel13 12) as (iv & Eiv & Hiv); [exact Sha2.sha256_ok|by apply (bool_decide_unpack _); vm_compute..|].
  destruct (expand_len Sha2.sha256 secret trafficSequenceNumberKeyLabel13 32) as (sn & Esn & Hsn); [exact Sha2.sha256_ok|by apply (bool_decide_unpack _); vm_compute..|].
  change tls13ChaCha20Poly1305KeyLen with 32. change tls13AEADWriteIVLen with 12. change (32 <=? 0) with false. cbv iota.
  rewrite Ek. cbn [mbind res_bind]. rewrite Eiv. cbn [mbind res_bind]. rewrite Esn. cbn [mbind res_bind tk_key]. unfold new_cipher. rewrite Hk. cbn [Z.eqb Pos.eqb mbind res_bind].
  by eexists.
Qed.

(** *** Property *)

(** records of DTLS 1.3 can be read by the peer: from any pair of traffic
    secrets client and server can be initialised, and what one of them seals (any
    content type but zero, a text of at most 2^14 bytes, any header and sequence
    number) the other opens to the same text and type; sealing a longer text is
    an error. *)
Theorem record13_roundtrip clientSecret serverSecret isClient :
  ∃ p q, InitFromTrafficSecrets13 clientSecret serverSecret isClient = Ok p ∧
    InitFromTrafficSecrets13 clientSecret serverSecret (negb isClient) = Ok q ∧
    ∀ header seq ct text, len (u_ConnectionID header) ≤ 255 → is_byte ct → ct ≠ 0 →
      (len text ≤ 2 ^ 14 → ∃ header' enc, seal p header seq ct text = Ok (header', enc) ∧
         u_Length header' = len enc ∧ open q header' seq enc = Ok (MkInner text ct 0)) ∧
      (2 ^ 14 < len text → seal p header seq ct text = Err ErrInvalidPacketLength).
Proof.
  destruct (chacha_traffic clientSecret) as (tc & Ec & Hc & _). destruct (chacha_traffic serverSecret) as (ts & Es & Hs & _).
  assert (∀ b, InitFromTrafficSecrets13 clientSecret serverSecret b = Ok (if b then MkProtection13 tc ts else MkProtection13 ts tc)) as Hinit.
  { intros []; unfold InitFromTrafficSecrets13, newChaCha20Poly1305RecordProtection13; cbn [localRemoteTrafficSecrets13]; by rewrite Ec, Es. }
  rewrite !Hinit. do 2 eexists. split; [done|]. split; [done|].
  set (p := if isClient then _ else _). set (q := if negb isClient then _ else _).
  assert (remote13 q = local13 p) as Epq by (by destruct isClient).
  assert (len (tp_iv (local13 p)) = 12) as Hiv by (by destruct isClient).
  intros header seq ct text Hcid Hct Hnz. pose proof (len_nonneg text). unfold seal, maxDTLSPlaintextRecordLen13. split; intros Hlen.
  2: { by destruct (Z.ltb_spec (2 ^ 14) (len text)); [|lia]. }
  destruct (Z.ltb_spec (2 ^ 14) (len text)); [lia|].
  destruct (Inner_roundtrip (MkInner text ct 0)) as (inner & Hm & Hu); [done..|]. rewrite Hm. cbn [mbind res_bind].
  assert (len inner = len text + 1) as Hil.
  { revert Hm. unfold Inner_Marshal. rewrite Bytes_AddBytes, Bytes_AddUint, Bytes_AddBytes, Bytes_New. cbn [mbind res_bind ip_Content ip_Zeros].
    intros [= <-]. rewrite !len_app, ?len_be_put. autorewrite with golen. change (len (zeros 0)) with 0. lia. }
  unfold maxDTLSCiphertextRecordLen13, maxDTLSPlaintextRecordLen13. destruct (Z.ltb_spec (2 ^ 14 + 256) (len inner + 16)); [lia|].
  set (header' := MkUnified _ _ _ _ _ _).
  assert (∃ ad, Unified_Marshal header' = Ok ad) as [ad Had].
  { unfold Unified_Marshal. cbn [u_ConnectionID u_SeqBit u_LengthBit u_EpochLow header'].
    destruct (Z.ltb_spec 255 (len (u_ConnectionID header))); [lia|]. rewrite andb_false_r.
    destruct (0 <? _); repeat (rewrite ?Bytes_AddUint, ?Bytes_AddBytes, ?Bytes_New; cbn [mbind res_bind]); by eexists. }
  rewrite Had. cbn [mbind res_bind]. unfold recordNonce13. rewrite Hiv. cbn [Z.eqb Pos.eqb negb tls13AEADWriteIVLen mbind res_bind].
  do 2 eexists. split; [done|]. split.
  { cbn [u_Length header']. rewrite Seal_len, u16_small by (unfold is_u16; lia). done. }
  unfold open. rewrite Had. cbn [mbind res_bind]. unfold recordNonce13. rewrite Epq, Hiv. cbn [Z.eqb Pos.eqb negb tls13AEADWriteIVLen mbind res_bind].
  by rewrite Open_Seal.
Qed.

End laws.
End Record13.

Lemma record13_roundtrip_witness :
  ∃ p q, Record13.InitFromTrafficSecrets13 [1] [2] true = Ok p ∧ Record13.InitFromTrafficSecrets13 [1] [2] false = Ok q ∧
    ∃ header enc, Record13.seal p (RecordHeader.MkUnified [] 9 true 0 true 2) 9 23 [5; 6] = Ok (header, enc) ∧
      Record13.open q header 9 enc = Ok (RecordHeader.MkInner [5; 6] 23 0).
Proof.
  destruct (Record13.record13_roundtrip [1] [2] true) as (p & q & Hp & Hq & Hrt). exists p, q.
  split; [exact Hp|]. split; [exact Hq|].
  destruct (Hrt (RecordHeader.MkUnified [] 9 true 0 true 2) 9 23 [5; 6]) as [Hok _]; [by apply (bool_decide_unpack _)|split; done|done|].
  destruct Hok as (h & enc & Hs & _ & Ho); [by apply (bool_decide_unpack _)|]. exists h, enc. split; [exact Hs|exact Ho].
Defined.

(** ** Selection of suites, versions and curves *)

Module Selection.
Import CipherSuite.

(** DTLS versions count down. *)
Definition versionAtLeast (v lo : Version) : bool := Minor v <=? Minor lo.
Definition versionAtMost (v hi : Version) : bool := Minor hi <=? Minor v.

Definition SupportedVersionsRange (minVersion maxVersion : Version) : list Version :=
  filter (λ v, versionAtLeast v minVersion && versionAtMost v maxVersion = true) [Version1_3; Version1_2].

Definition normalizeProtocolVersionRange (minVersion maxVersion : Version) : Version * Version :=
  ((if Version_Equal minVersion Version1_3 then minVersion else Version1_2),
   (if Version_Equal maxVersion Version1_3 then maxVersion else Version1_2)).

Definition selectVersion (remote : list Version) (minVersion maxVersion : Version) : option Version :=
  find (λ v, versionAtLeast v minVersion && versionAtMost v maxVersion) remote.

(** internal/flight/helpers.go *)
Fixpoint FindMatchingSRTPProfile (a b : list Z) : option Z :=
  match a with
  | [] => None
  | p1 :: a => if existsb (Z.eqb p1) b then Some p1 else FindMatchingSRTPProfile a b
  end.

Fixpoint FindMatchingCipherSuite (a b : list CipherSuite) : option CipherSuite :=
  match a with
  | [] => None
  | p1 :: a => if existsb (λ p2, ID p1 =? ID p2) b then Some p1 else FindMatchingCipherSuite a b
  end.

Definition CipherSuiteIDs (cipherSuites : list CipherSuite) : list Z := map ID cipherSuites.

(** flight12/curves.go *)
Definition dtls12EllipticCurves (curves : list Z) : list Z :=
  if existsb (Z.eqb X25519MLKEM768) curves then filter (λ c, c ≠ X25519MLKEM768) curves else curves.

Definition selectDTLS12EllipticCurve (localCurves remoteCurves : list Z) : option Z :=
  let localCurves := dtls12EllipticCurves localCurves in
  find (λ c, existsb (Z.eqb c) localCurves) remoteCurves.

(** cipher_suite.go *)
Section parse.
Context `{Cryptobyte} `{Ciphers}.

Definition defaultCipherSuites13 : list CipherSuite := [TLSChacha20Poly1305Sha256].
Definition defaultCipherSuites : list CipherSuite := [TLSEcdheEcdsaWithChacha20Poly1305Sha256; TLSEcdheEcdsaWithAes256GcmSha384].

Definition defaultCipherSuitesForVersions (minVersion maxVersion : Version) : list CipherSuite :=
  concat (map (λ version,
    if Version_Equal version Version1_3 then defaultCipherSuites13
    else if Version_Equal version Version1_2 then defaultCipherSuites else [])
    (SupportedVersionsRange minVersion maxVersion)).

Definition cipherSuiteIDSupportsVersions (id : Z) (minVersion maxVersion : Version) : bool :=
  existsb (IDSupportsVersion id) (SupportedVersionsRange minVersion maxVersion).

Definition filterCipherSuitesForVersions (cipherSuites : list CipherSuite) (minVersion maxVersion : Version) : list CipherSuite :=
  filter (λ c, cipherSuiteIDSupportsVersions (ID c) minVersion maxVersion = true) cipherSuites.

(** An unknown identifier is an error of its own. *)
Fixpoint cipherSuitesForIDs (ids : list Z) : res dtls_error (list CipherSuite) :=
  match ids with
  | [] => Ok []
  | id :: ids =>
      match ForID id None with
      | None => Err ErrInvalidCipherSuite
      | Some c => cs ← cipherSuitesForIDs ids; Ok (c :: cs)
      end
  end.

(** The loop over the suites: those kept (in place, [i] of them) and the flags
    foundCertificateSuite, foundPSKSuite, foundAnonymousSuite, foundTLS13Suite. *)
Definition keep_step (includeCertificateSuites includePSKSuites : bool) (st : list CipherSuite * (bool * bool * bool * bool)) (c : CipherSuite)
    : list CipherSuite * (bool * bool * bool * bool) :=
  let '(kept, (fc, fp, fa, f13)) := st in
  if includeCertificateSuites && (AuthenticationType c =? AuthenticationTypeCertificate) then (kept ++ [c], (true, fp, fa, f13)) else
  if includePSKSuites && (AuthenticationType c =? AuthenticationTypePreSharedKey) then (kept ++ [c], (fc, true, fa, f13)) else
  if AuthenticationType c =? AuthenticationTypeAnonymous
  then (kept ++ [c], (fc, fp, true, f13 || IDSupportsVersion (ID c) Version1_3))
  else st.

Definition parseCipherSuitesForVersions (userSelectedSuites : option (list Z)) (customCipherSuites : option (list CipherSuite))
    (includeCertificateSuites includePSKSuites : bool) (minVersion maxVersion : Version) : res dtls_error (list CipherSuite) :=
  cipherSuites ← (match userSelectedSuites with
                  | Some ids => cipherSuitesForIDs ids
                  | None => Ok (defaultCipherSuitesForVersions minVersion maxVersion)
                  end);
  let cipherSuites := match customCipherSuites with Some custom => custom ++ cipherSuites | None => cipherSuites end in
  let cipherSuites := filterCipherSuitesForVersions cipherSuites minVersion maxVersion in
  let '(kept, (fc, fp, fa, f13)) :=
    foldl (keep_step includeCertificateSuites includePSKSuites) ([], (false, false, false, false)) cipherSuites in
  if includeCertificateSuites && negb fc && negb fa then Err ErrNoAvailableCertificateCipherSuite else
  if includePSKSuites && negb fp && negb f13 then Err ErrNoAvailablePSKCipherSuite else
  if (length kept =? 0)%nat then Err ErrNoAvailableCipherSuites else Ok kept.

(** A certificate and its key: [None] when there is none or it cannot sign. *)
Definition filterCipherSuitesForCertificate (key : option PrivateKey) (cipherSuites : list CipherSuite) : list CipherSuite :=
  match key with
  | None | Some NoSigner => cipherSuites
  | Some k =>
      let certType := match k with Ed25519Key | EcdsaKey => ECDSASign | _ => 0 end in
      filter (λ c, AuthenticationType c ≠ AuthenticationTypeCertificate ∨ certType = CertificateType c) cipherSuites
  end.

(** *** Lemmas *)

Definition enabled (cert psk : bool) (c : CipherSuite) : bool :=
  (cert && (AuthenticationType c =? AuthenticationTypeCertificate)) ||
  (psk && (AuthenticationType c =? AuthenticationTypePreSharedKey)) ||
  (AuthenticationType c =? AuthenticationTypeAnonymous).

Definition certificate_suite (c : CipherSuite) : bool := AuthenticationType c =? AuthenticationTypeCertificate.
Definition psk_suite (c : CipherSuite) : bool := AuthenticationType c =? AuthenticationTypePreSharedKey.
Definition anonymous_suite (c : CipherSuite) : bool := AuthenticationType c =? AuthenticationTypeAnonymous.

Lemma one_kind c : match certificate_suite c, psk_suite c, anonymous_suite c with
  | true, true, _ | true, _, true | _, true, true => False | _, _, _ => True end.
Proof.
  unfold certificate_suite, psk_suite, anonymous_suite, AuthenticationTypeCertificate, AuthenticationTypePreSharedKey, AuthenticationTypeAnonymous.
  destruct (Z.eqb_spec (AuthenticationType c) 1), (Z.eqb_spec (AuthenticationType c) 2), (Z.eqb_spec (AuthenticationType c) 3); (done || lia).
Qed.

Lemma keep_loop cert psk cs kept fc fp fa f13 :
  foldl (keep_step cert psk) (kept, (fc, fp, fa, f13)) cs =
  (kept ++ filter (λ c, enabled cert psk c = true) cs,
   (fc || (cert && existsb certificate_suite cs), fp || (psk && existsb psk_suite cs), fa || existsb anonymous_suite cs,
    f13 || existsb (λ c, anonymous_suite c && IDSupportsVersion (ID c) Version1_3) cs)).
Proof.
  revert kept fc fp fa f13. induction cs as [|c cs IH]; intros kept fc fp fa f13; cbn [foldl existsb].
  { rewrite app_nil_r, !andb_false_r, !orb_false_r. done. }
  rewrite filter_cons. unfold keep_step at 2. fold (certificate_suite c) (psk_suite c) (anonymous_suite c).
  change (enabled cert psk c) with ((cert && certificate_suite c) || (psk && psk_suite c) || anonymous_suite c).
  pose proof (one_kind c) as H1. destruct (certificate_suite c), (psk_suite c), (anonymous_suite c); try done;
    (destruct cert, psk; cbn [andb orb]; rewrite ?decide_True, ?decide_False by done;
     rewrite IH, <- ?(assoc_L (++)); cbn [app andb orb];
     rewrite ?andb_false_r, ?orb_true_r, ?orb_false_r, <- ?orb_assoc; done).
Qed.

(** *** Properties *)

(** the suites a configuration enables: unless an identifier is unknown,
    they are, in their order, the custom suites and then the selected (or
    default) ones, without those that support no version of the range or
    authenticate in a way that is not enabled; the result is an error exactly
    when certificates (or pre-shared keys) are enabled and no suite serves them,
    or no suite is left, so that a result is never empty. *)
Theorem parse_cipher_suites ids custom cert psk lo hi :
  let selected := match ids with Some l => cipherSuitesForIDs l | None => Ok (defaultCipherSuitesForVersions lo hi) end in
  ∀ cs, selected = Ok cs →
    let all := filterCipherSuitesForVersions (default [] custom ++ cs) lo hi in
    let kept := filter (λ c, enabled cert psk c = true) all in
    parseCipherSuitesForVersions ids custom cert psk lo hi =
      if cert && negb (existsb certificate_suite all || existsb anonymous_suite all) then Err ErrNoAvailableCertificateCipherSuite
      else if psk && negb (existsb psk_suite all || existsb (λ c, anonymous_suite c && IDSupportsVersion (ID c) Version1_3) all)
      then Err ErrNoAvailablePSKCipherSuite
      else if bool_decide (kept = []) then Err ErrNoAvailableCipherSuites else Ok kept.
Proof.
  cbv zeta. intros cs Hcs. unfold parseCipherSuitesForVersions. rewrite Hcs. cbn [mbind res_bind].
  replace (match custom with Some c => c ++ cs | None => cs end) with (default [] custom ++ cs) by (by destruct custom).
  set (all := filterCipherSuitesForVersions _ lo hi). rewrite keep_loop. rewrite app_nil_l. cbn [orb].
  replace (cert && negb (cert && existsb certificate_suite all) && negb (existsb anonymous_suite all))
    with (cert && negb (existsb certificate_suite all || existsb anonymous_suite all))
    by (destruct cert; cbn; [by rewrite negb_orb|done]).
  replace (psk && negb (psk && existsb psk_suite all) && negb (existsb (λ c, anonymous_suite c && IDSupportsVersion (ID c) Version1_3) all))
    with (psk && negb (existsb psk_suite all || existsb (λ c, anonymous_suite c && IDSupportsVersion (ID c) Version1_3) all))
    by (destruct psk; cbn; [by rewrite negb_orb|done]).
  destruct (cert && _); [done|]. destruct (psk && _); [done|].
  set (kept := filter _ all). by destruct kept.
Qed.

End parse.

Lemma parse_cipher_suites_witness :
  parseCipherSuitesForVersions (Some [TLS_PSK_WITH_AES_128_GCM_SHA256; TLS_CHACHA20_POLY1305_SHA256]) None false true Version1_2 Version1_2 =
  Ok [TLSPskWithAes128GcmSha256].
Proof.
  rewrite (parse_cipher_suites (Some [TLS_PSK_WITH_AES_128_GCM_SHA256; TLS_CHACHA20_POLY1305_SHA256]) None false true
    Version1_2 Version1_2 [TLSPskWithAes128GcmSha256; TLSChacha20Poly1305Sha256] eq_refl). reflexivity.
Defined.

End Selection.
