(* ===== verification/Options.v ===== *)
(** * The options of a DTLS connection (src/dtls/options.go, src/dtls/config.go)

    A configuration is built by applying options to the defaults, each of which
    may refuse its value, then validated, and then turned into the values of a
    connection (createConn of src/dtls/conn.go).  Values that the configuration
    only stores (callbacks, loggers, writers) are values of a type [fn], pools of
    certificates of a type [pool]; a nil value is [None].  Of a certificate only
    its chain and the kind of its private key are looked at. *)
From stdpp Require Import base tactics numbers list.
From Stdlib Require Import ZArith Lia.
From S2P Require Import Prelude Wire SignatureHash Record CipherSuite.
Import Protocol SignatureHash CipherSuite Selection.
Open Scope Z_scope.

Module Options.

Record certificate := MkCertificate { ct_Certificate : option (list bytes); ct_PrivateKey : option PrivateKey }.

(** The constants of config.go. *)
Definition NoClientCert : Z := 0.
Definition RequireAndVerifyClientCert : Z := 4.
Definition RequestExtendedMasterSecret : Z := 0.
Definition DisableExtendedMasterSecret : Z := 2.
Definition defaultMTU : Z := 1200.
Definition defaultReplayProtectionWindow : Z := 64.
Definition second : Z := 1000000000.
Definition defaultCurves : list Z := [X25519; P384].

Section options.
Context `{Cryptobyte} `{Ciphers} {fn pool : Type}.

Record dtlsConfig := MkDtlsConfig {
  c_Certificates : list certificate;
  c_CipherSuites : option (list Z);
  c_SignatureSchemes : list Z;
  c_CertificateSignatureSchemes : list Z;
  c_SRTPProtectionProfiles : list Z;
  c_SRTPMasterKeyIdentifier : bytes;
  c_ClientAuth : Z;
  c_ExtendedMasterSecret : Z;
  c_FlightInterval : Z;
  c_DisableRetransmitBackoff : bool;
  c_PSKIdentityHint : option bytes;
  c_InsecureSkipVerify : bool;
  c_InsecureHashes : bool;
  c_VerifyPeerCertificate : option fn;
  c_RootCAs : option pool;
  c_ClientCAs : option pool;
  c_ServerName : gostring;
  c_LoggerFactory : option fn;
  c_MTU : Z;
  c_ReplayProtectionWindow : Z;
  c_KeyLogWriter : option fn;
  c_SupportedProtocols : list gostring;
  c_EllipticCurves : list Z;
  c_InsecureSkipVerifyHello : bool;
  c_ConnectionIDGenerator : option fn;
  c_PaddingLengthGenerator : option fn;
  c_HelloRandomBytesGenerator : option fn;
  c_ClientHelloMessageHook : option fn;
  c_ServerHelloMessageHook : option fn;
  c_CertificateRequestMessageHook : option fn;
  c_OnConnectionAttempt : option fn;
  c_ListenConfig : option fn;
  c_MinVersion : Version;
  c_MaxVersion : Version;
  c_customCipherSuites : option (list CipherSuite);
  c_psk : option fn;
  c_verifyConnection : option fn;
  c_sessionStore : option fn;
  c_getCertificate : option fn;
  c_getClientCertificate : option fn
}.

#[global] Instance eta_dtlsConfig : Eta dtlsConfig := λ r, MkDtlsConfig
  (c_Certificates r) (c_CipherSuites r) (c_SignatureSchemes r) (c_CertificateSignatureSchemes r) (c_SRTPProtectionProfiles r) (c_SRTPMasterKeyIdentifier r) (c_ClientAuth r) (c_ExtendedMasterSecret r) (c_FlightInterval r) (c_DisableRetransmitBackoff r) (c_PSKIdentityHint r) (c_InsecureSkipVerify r) (c_InsecureHashes r) (c_VerifyPeerCertificate r) (c_RootCAs r) (c_ClientCAs r) (c_ServerName r) (c_LoggerFactory r) (c_MTU r) (c_ReplayProtectionWindow r) (c_KeyLogWriter r) (c_SupportedProtocols r) (c_EllipticCurves r) (c_InsecureSkipVerifyHello r) (c_ConnectionIDGenerator r) (c_PaddingLengthGenerator r) (c_HelloRandomBytesGenerator r) (c_ClientHelloMessageHook r) (c_ServerHelloMessageHook r) (c_CertificateRequestMessageHook r) (c_OnConnectionAttempt r) (c_ListenConfig r) (c_MinVersion r) (c_MaxVersion r) (c_customCipherSuites r) (c_psk r) (c_verifyConnection r) (c_sessionStore r) (c_getCertificate r) (c_getClientCertificate r).
#[local] Hint Extern 1 (Update _) => derive_update : typeclass_instances.

(** A new configuration, before applyDefaults. *)
Definition zeroConfig : dtlsConfig := MkDtlsConfig
  [] None [] [] [] [] 0 0 0 false None false false None None None [] None 0 0 None [] [] false None None None None None None None None (MkVersion 0 0) (MkVersion 0 0) None None None None None None.

Definition applyDefaults (c : dtlsConfig) : dtlsConfig :=
  c <| c_ExtendedMasterSecret := RequestExtendedMasterSecret |> <| c_FlightInterval := second |> <| c_MTU := defaultMTU |>
    <| c_ReplayProtectionWindow := defaultReplayProtectionWindow |>.

(** sharedOption and serverOnlyOption *)
Definition option_fn : Type := dtlsConfig → res dtls_error dtlsConfig.

(** ** The options of both sides *)

Definition WithCertificates (v : list certificate) : option_fn := λ c, match v with [] => Err ErrEmptyCertificates | _ => Ok (c <| c_Certificates := v |>) end.
Definition WithCipherSuites (v : list Z) : option_fn := λ c, match v with [] => Err ErrEmptyCipherSuites | _ => Ok (c <| c_CipherSuites := Some v |>) end.
Definition WithCustomCipherSuites (v : option (list CipherSuite)) : option_fn := λ c, match v with None => Err ErrNilCustomCipherSuites | _ => Ok (c <| c_customCipherSuites := v |>) end.
Definition WithSignatureSchemes (v : list Z) : option_fn := λ c, match v with [] => Err ErrEmptySignatureSchemes | _ => Ok (c <| c_SignatureSchemes := v |>) end.
Definition WithCertificateSignatureSchemes (v : list Z) : option_fn := λ c, match v with [] => Err ErrEmptyCertificateSignatureSchemes | _ => Ok (c <| c_CertificateSignatureSchemes := v |>) end.
Definition WithSRTPProtectionProfiles (v : list Z) : option_fn := λ c, match v with [] => Err ErrEmptySRTPProtectionProfiles | _ => Ok (c <| c_SRTPProtectionProfiles := v |>) end.
Definition WithSRTPMasterKeyIdentifier (v : bytes) : option_fn := λ c, Ok (c <| c_SRTPMasterKeyIdentifier := v |>).
Definition WithExtendedMasterSecret (v : Z) : option_fn := λ c, if (v <? RequestExtendedMasterSecret) || (DisableExtendedMasterSecret <? v) then Err ErrInvalidExtendedMasterSecretType else Ok (c <| c_ExtendedMasterSecret := v |>).
Definition WithFlightInterval (v : Z) : option_fn := λ c, if v <=? 0 then Err ErrInvalidFlightInterval else Ok (c <| c_FlightInterval := v |>).
Definition WithDisableRetransmitBackoff (v : bool) : option_fn := λ c, Ok (c <| c_DisableRetransmitBackoff := v |>).
Definition WithPSK (v : option fn) : option_fn := λ c, match v with None => Err ErrNilPSKCallback | _ => Ok (c <| c_psk := v |>) end.
Definition WithPSKIdentityHint (v : bytes) : option_fn := λ c, Ok (c <| c_PSKIdentityHint := Some v |>).
Definition WithInsecureSkipVerify (v : bool) : option_fn := λ c, Ok (c <| c_InsecureSkipVerify := v |>).
Definition WithInsecureHashes (v : bool) : option_fn := λ c, Ok (c <| c_InsecureHashes := v |>).
Definition WithVerifyPeerCertificate (v : option fn) : option_fn := λ c, match v with None => Err ErrNilVerifyPeerCertificate | _ => Ok (c <| c_VerifyPeerCertificate := v |>) end.
Definition WithVerifyConnection (v : option fn) : option_fn := λ c, match v with None => Err ErrNilVerifyConnection | _ => Ok (c <| c_verifyConnection := v |>) end.
Definition WithRootCAs (v : option pool) : option_fn := λ c, Ok (c <| c_RootCAs := v |>).
Definition WithServerName (v : gostring) : option_fn := λ c, Ok (c <| c_ServerName := v |>).
Definition WithLoggerFactory (v : option fn) : option_fn := λ c, Ok (c <| c_LoggerFactory := v |>).
Definition WithMTU (v : Z) : option_fn := λ c, if v <=? 0 then Err ErrInvalidMTU else Ok (c <| c_MTU := v |>).
Definition WithReplayProtectionWindow (v : Z) : option_fn := λ c, if v <? 0 then Err ErrInvalidReplayProtectionWindow else Ok (c <| c_ReplayProtectionWindow := v |>).
Definition WithKeyLogWriter (v : option fn) : option_fn := λ c, Ok (c <| c_KeyLogWriter := v |>).
Definition WithSessionStore (v : option fn) : option_fn := λ c, Ok (c <| c_sessionStore := v |>).
Definition WithSupportedProtocols (v : list gostring) : option_fn := λ c, match v with [] => Err ErrEmptySupportedProtocols | _ => Ok (c <| c_SupportedProtocols := v |>) end.
Definition WithEllipticCurves (v : list Z) : option_fn := λ c, match v with [] => Err ErrEmptyEllipticCurves | _ => Ok (c <| c_EllipticCurves := v |>) end.
Definition WithGetClientCertificate (v : option fn) : option_fn := λ c, match v with None => Err ErrNilGetClientCertificate | _ => Ok (c <| c_getClientCertificate := v |>) end.
Definition WithConnectionIDGenerator (v : option fn) : option_fn := λ c, match v with None => Err ErrNilConnectionIDGenerator | _ => Ok (c <| c_ConnectionIDGenerator := v |>) end.
Definition WithPaddingLengthGenerator (v : option fn) : option_fn := λ c, match v with None => Err ErrNilPaddingLengthGenerator | _ => Ok (c <| c_PaddingLengthGenerator := v |>) end.
Definition WithHelloRandomBytesGenerator (v : option fn) : option_fn := λ c, match v with None => Err ErrNilHelloRandomBytesGenerator | _ => Ok (c <| c_HelloRandomBytesGenerator := v |>) end.
Definition WithClientHelloMessageHook (v : option fn) : option_fn := λ c, match v with None => Err ErrNilClientHelloMessageHook | _ => Ok (c <| c_ClientHelloMessageHook := v |>) end.
Definition WithMinVersion (v : Version) : option_fn := λ c, if negb (Version_Equal v Version1_2 || Version_Equal v Version1_3) then Err ErrUnsupportedProtocolVersion else Ok (c <| c_MinVersion := v |>).
Definition WithMaxVersion (v : Version) : option_fn := λ c, if negb (Version_Equal v Version1_2 || Version_Equal v Version1_3) then Err ErrUnsupportedProtocolVersion else Ok (c <| c_MaxVersion := v |>).

(** ** The options of a server *)

Definition WithClientAuth (v : Z) : option_fn := λ c, if (v <? NoClientCert) || (RequireAndVerifyClientCert <? v) then Err ErrInvalidClientAuthType else Ok (c <| c_ClientAuth := v |>).
Definition WithClientCAs (v : option pool) : option_fn := λ c, Ok (c <| c_ClientCAs := v |>).
Definition WithGetCertificate (v : option fn) : option_fn := λ c, match v with None => Err ErrNilGetCertificate | _ => Ok (c <| c_getCertificate := v |>) end.
Definition WithInsecureSkipVerifyHello (v : bool) : option_fn := λ c, Ok (c <| c_InsecureSkipVerifyHello := v |>).
Definition WithServerHelloMessageHook (v : option fn) : option_fn := λ c, match v with None => Err ErrNilServerHelloMessageHook | _ => Ok (c <| c_ServerHelloMessageHook := v |>) end.
Definition WithCertificateRequestMessageHook (v : option fn) : option_fn := λ c, match v with None => Err ErrNilCertificateRequestMessageHook | _ => Ok (c <| c_CertificateRequestMessageHook := v |>) end.
Definition WithOnConnectionAttempt (v : option fn) : option_fn := λ c, match v with None => Err ErrNilOnConnectionAttempt | _ => Ok (c <| c_OnConnectionAttempt := v |>) end.
Definition WithListenConfig (v : option fn) : option_fn := λ c, Ok (c <| c_ListenConfig := v |>).

(** The options there are. *)
Inductive Option :=
  | OCertificates (v : list certificate)
  | OCipherSuites (v : list Z)
  | OCustomCipherSuites (v : option (list CipherSuite))
  | OSignatureSchemes (v : list Z)
  | OCertificateSignatureSchemes (v : list Z)
  | OSRTPProtectionProfiles (v : list Z)
  | OSRTPMasterKeyIdentifier (v : bytes)
  | OExtendedMasterSecret (v : Z)
  | OFlightInterval (v : Z)
  | ODisableRetransmitBackoff (v : bool)
  | OPSK (v : option fn)
  | OPSKIdentityHint (v : bytes)
  | OInsecureSkipVerify (v : bool)
  | OInsecureHashes (v : bool)
  | OVerifyPeerCertificate (v : option fn)
  | OVerifyConnection (v : option fn)
  | ORootCAs (v : option pool)
  | OServerName (v : gostring)
  | OLoggerFactory (v : option fn)
  | OMTU (v : Z)
  | OReplayProtectionWindow (v : Z)
  | OKeyLogWriter (v : option fn)
  | OSessionStore (v : option fn)
  | OSupportedProtocols (v : list gostring)
  | OEllipticCurves (v : list Z)
  | OGetClientCertificate (v : option fn)
  | OConnectionIDGenerator (v : option fn)
  | OPaddingLengthGenerator (v : option fn)
  | OHelloRandomBytesGenerator (v : option fn)
  | OClientHelloMessageHook (v : option fn)
  | OMinVersion (v : Version)
  | OMaxVersion (v : Version).

Inductive ServerOption :=
  | OShared (o : Option)
  | OClientAuth (v : Z)
  | OClientCAs (v : option pool)
  | OGetCertificate (v : option fn)
  | OInsecureSkipVerifyHello (v : bool)
  | OServerHelloMessageHook (v : option fn)
  | OCertificateRequestMessageHook (v : option fn)
  | OOnConnectionAttempt (v : option fn)
  | OListenConfig (v : option fn).

(** applyClient and applyServer *)
Definition applyClient (o : Option) : option_fn :=
  match o with
  | OCertificates v => WithCertificates v
  | OCipherSuites v => WithCipherSuites v
  | OCustomCipherSuites v => WithCustomCipherSuites v
  | OSignatureSchemes v => WithSignatureSchemes v
  | OCertificateSignatureSchemes v => WithCertificateSignatureSchemes v
  | OSRTPProtectionProfiles v => WithSRTPProtectionProfiles v
  | OSRTPMasterKeyIdentifier v => WithSRTPMasterKeyIdentifier v
  | OExtendedMasterSecret v => WithExtendedMasterSecret v
  | OFlightInterval v => WithFlightInterval v
  | ODisableRetransmitBackoff v => WithDisableRetransmitBackoff v
  | OPSK v => WithPSK v
  | OPSKIdentityHint v => WithPSKIdentityHint v
  | OInsecureSkipVerify v => WithInsecureSkipVerify v
  | OInsecureHashes v => WithInsecureHashes v
  | OVerifyPeerCertificate v => WithVerifyPeerCertificate v
  | OVerifyConnection v => WithVerifyConnection v
  | ORootCAs v => WithRootCAs v
  | OServerName v => WithServerName v
  | OLoggerFactory v => WithLoggerFactory v
  | OMTU v => WithMTU v
  | OReplayProtectionWindow v => WithReplayProtectionWindow v
  | OKeyLogWriter v => WithKeyLogWriter v
  | OSessionStore v => WithSessionStore v
  | OSupportedProtocols v => WithSupportedProtocols v
  | OEllipticCurves v => WithEllipticCurves v
  | OGetClientCertificate v => WithGetClientCertificate v
  | OConnectionIDGenerator v => WithConnectionIDGenerator v
  | OPaddingLengthGenerator v => WithPaddingLengthGenerator v
  | OHelloRandomBytesGenerator v => WithHelloRandomBytesGenerator v
  | OClientHelloMessageHook v => WithClientHelloMessageHook v
  | OMinVersion v => WithMinVersion v
  | OMaxVersion v => WithMaxVersion v
  end.

Definition applyServer (o : ServerOption) : option_fn :=
  match o with
  | OShared o => applyClient o
  | OClientAuth v => WithClientAuth v
  | OClientCAs v => WithClientCAs v
  | OGetCertificate v => WithGetCertificate v
  | OInsecureSkipVerifyHello v => WithInsecureSkipVerifyHello v
  | OServerHelloMessageHook v => WithServerHelloMessageHook v
  | OCertificateRequestMessageHook v => WithCertificateRequestMessageHook v
  | OOnConnectionAttempt v => WithOnConnectionAttempt v
  | OListenConfig v => WithListenConfig v
  end.

(** ** Building a configuration *)

Fixpoint apply_all (fs : list option_fn) (c : dtlsConfig) : res dtls_error dtlsConfig :=
  match fs with
  | [] => Ok c
  | f :: fs => c ← f c; apply_all fs c
  end.

Definition buildConfig (opts : list Option) : res dtls_error dtlsConfig :=
  apply_all (map (λ o, applyServer (OShared o)) opts) (applyDefaults zeroConfig).

Definition buildServerConfig (opts : list ServerOption) : res dtls_error dtlsConfig := apply_all (map applyServer opts) (applyDefaults zeroConfig).

Definition buildClientConfig (opts : list Option) : res dtls_error dtlsConfig := apply_all (map applyClient opts) (applyDefaults zeroConfig).

(** ** Validation (config.go) *)

Definition is_nil {A} (o : option A) : bool := match o with None => true | Some _ => false end.

Definition includeCertificateSuites (c : dtlsConfig) : bool :=
  is_nil (c_psk c) || negb (len (c_Certificates c) =? 0) || negb (is_nil (c_getCertificate c)) || negb (is_nil (c_getClientCertificate c)).

Definition hasDTLS12CompatibleCurve (curves : list Z) : bool := existsb (λ curve, negb (curve =? X25519MLKEM768)) curves.

Definition validateEllipticCurveVersions (curves : list Z) (minVersion maxVersion : Version) : res dtls_error () :=
  if negb (existsb (Z.eqb X25519MLKEM768) curves) then Ok () else
  if negb (Version_Equal maxVersion Version1_3) then Err ErrUnsupportedEllipticCurveVersion else
  if Version_Equal minVersion Version1_3 || hasDTLS12CompatibleCurve curves then Ok () else Err ErrUnsupportedEllipticCurveVersion.

Fixpoint validate_certificates (certs : list certificate) : res dtls_error () :=
  match certs with
  | [] => Ok ()
  | cert :: certs =>
      if is_nil (ct_Certificate cert) then Err ErrInvalidCertificate else
      match ct_PrivateKey cert with
      | None | Some Ed25519Key | Some EcdsaKey => validate_certificates certs
      | Some OtherSigner | Some NoSigner => Err ErrInvalidPrivateKey
      end
  end.

(** The suites of newConnConfigValues and validateConfig. *)
Definition config_suites (c : dtlsConfig) : res dtls_error (list CipherSuite) :=
  let '(minVersion, maxVersion) := normalizeProtocolVersionRange (c_MinVersion c) (c_MaxVersion c) in
  parseCipherSuitesForVersions (c_CipherSuites c) (c_customCipherSuites c) (includeCertificateSuites c) (negb (is_nil (c_psk c))) minVersion maxVersion.

Definition validateConfig (config : option dtlsConfig) : res dtls_error () :=
  match config with
  | None => Err ErrNoConfigProvided
  | Some c =>
      if negb (is_nil (c_PSKIdentityHint c)) && is_nil (c_psk c) then Err ErrIdentityNoPSK else
      _ ← validate_certificates (c_Certificates c);
      let '(minVersion, maxVersion) := normalizeProtocolVersionRange (c_MinVersion c) (c_MaxVersion c) in
      _ ← validateEllipticCurveVersions (c_EllipticCurves c) minVersion maxVersion;
      _ ← config_suites c; Ok ()
  end.

(** ** The values of a connection (conn.go)

    [fips] is fips140.Enabled().  The logger, the padding and the server name are
    left out. *)

Record connConfigValues := MkConnConfigValues {
  v_maximumTransmissionUnit : Z; v_replayProtectionWindow : Z; v_initialRetransmitInterval : Z; v_minVersion : Version; v_maxVersion : Version;
  v_cipherSuites : list CipherSuite; v_signatureSchemes : list Algorithm; v_certificateSignatureSchemes : list Algorithm; v_ellipticCurves : list Z
}.

Definition effectiveMTU (mtu : Z) : Z := if mtu <=? 0 then defaultMTU else mtu.
Definition effectiveReplayProtectionWindow (w : Z) : Z := if w <=? 0 then defaultReplayProtectionWindow else w.
Definition effectiveFlightInterval (i : Z) : Z := if i <=? 0 then second else i.
Definition filterFIPSCurves (curves : list Z) : list Z := filter (λ c, c ≠ X25519 ∧ c ≠ X25519MLKEM768) curves.
Definition effectiveEllipticCurves (fips : bool) (curves : list Z) : list Z :=
  let curves := match curves with [] => defaultCurves | _ => curves end in if fips then filterFIPSCurves curves else curves.

Definition parseConnSignatureSchemes (c : dtlsConfig) : res dtls_error (list Algorithm * list Algorithm) :=
  signatureSchemes ← ParseSignatureSchemes (c_SignatureSchemes c) (c_InsecureHashes c);
  certSignatureSchemes ← (match c_CertificateSignatureSchemes c with
                          | [] => Ok []
                          | schemes => ParseSignatureSchemes schemes (c_InsecureHashes c)
                          end);
  Ok (signatureSchemes, certSignatureSchemes).

Definition newConnConfigValues (fips : bool) (c : dtlsConfig) : res dtls_error connConfigValues :=
  let '(minVersion, maxVersion) := normalizeProtocolVersionRange (c_MinVersion c) (c_MaxVersion c) in
  cipherSuites ← config_suites c;
  '(signatureSchemes, certSignatureSchemes) ← parseConnSignatureSchemes c;
  Ok (MkConnConfigValues (effectiveMTU (c_MTU c)) (effectiveReplayProtectionWindow (c_ReplayProtectionWindow c)) (effectiveFlightInterval (c_FlightInterval c))
    minVersion maxVersion cipherSuites signatureSchemes certSignatureSchemes (effectiveEllipticCurves fips (c_EllipticCurves c))).

(** clientWithConfig up to the connection itself. *)
Definition clientWithConfig (fips : bool) (config : option dtlsConfig) : res dtls_error connConfigValues :=
  match config with
  | None => Err ErrNoConfigProvided
  | Some c =>
      if negb (is_nil (c_psk c)) && is_nil (c_PSKIdentityHint c) then Err ErrPSKAndIdentityMustBeSetForClient else
      _ ← validateConfig config; newConnConfigValues fips c
  end.

Definition ClientWithOptions (fips : bool) (opts : list Option) : res dtls_error connConfigValues :=
  c ← buildClientConfig opts; clientWithConfig fips (Some c).

(** serverWithValidatedConfig; [attempt] is the result of OnConnectionAttempt, if it is set. *)
Definition serverWithConfig (fips : bool) (attempt : fn → res dtls_error ()) (config : option dtlsConfig) : res dtls_error connConfigValues :=
  match config with
  | None => Err ErrNoConfigProvided
  | Some c => _ ← (match c_OnConnectionAttempt c with None => Ok () | Some f => attempt f end); newConnConfigValues fips c
  end.

Definition ServerWithOptions (fips : bool) (attempt : fn → res dtls_error ()) (opts : list ServerOption) : res dtls_error connConfigValues :=
  c ← buildServerConfig opts; _ ← validateConfig (Some c); serverWithConfig fips attempt (Some c).

(** ** What the options guarantee *)

Definition version_ok (v : Version) : Prop := v = MkVersion 0 0 ∨ v = Version1_2 ∨ v = Version1_3.

Record config_ok (c : dtlsConfig) : Prop := {
  co_mtu : 0 < c_MTU c;
  co_window : 0 ≤ c_ReplayProtectionWindow c;
  co_interval : 0 < c_FlightInterval c;
  co_ems : 0 ≤ c_ExtendedMasterSecret c ≤ 2;
  co_auth : 0 ≤ c_ClientAuth c ≤ 4;
  co_min : version_ok (c_MinVersion c);
  co_max : version_ok (c_MaxVersion c);
  co_suites : c_CipherSuites c ≠ Some []
}.

Lemma version_Equal_eq v w : Version_Equal v w = true → v = w.
Proof. destruct v, w. unfold Version_Equal. cbn. rewrite andb_true_iff, !Z.eqb_eq. by intros [-> ->]. Qed.

Lemma version_check v : Version_Equal v Version1_2 || Version_Equal v Version1_3 = true → version_ok v.
Proof. unfold version_ok. intros [E%version_Equal_eq|E%version_Equal_eq]%orb_true_iff; auto. Qed.

Lemma defaults_ok : config_ok (applyDefaults zeroConfig).
Proof. split; cbn; try done; by left. Qed.

(** A value is refused, or it is stored and the others stay. *)
Ltac option_ok :=
  repeat case_match; try done; split; cbn; try done;
  unfold RequestExtendedMasterSecret, DisableExtendedMasterSecret, NoClientCert, RequireAndVerifyClientCert in *; first [lia|by apply version_check, negb_false_iff].

Lemma applyClient_ok o c : config_ok c → safe (applyClient o c) config_ok.
Proof.
  intros [H1 H2 H3 H4 H5 H6 H7 H8].
  destruct o; cbn [applyClient]; unfold WithCertificates, WithCipherSuites, WithCustomCipherSuites, WithSignatureSchemes, WithCertificateSignatureSchemes, WithSRTPProtectionProfiles, WithSRTPMasterKeyIdentifier, WithExtendedMasterSecret, WithFlightInterval, WithDisableRetransmitBackoff, WithPSK, WithPSKIdentityHint, WithInsecureSkipVerify, WithInsecureHashes, WithVerifyPeerCertificate, WithVerifyConnection, WithRootCAs, WithServerName, WithLoggerFactory, WithMTU, WithReplayProtectionWindow, WithKeyLogWriter, WithSessionStore, WithSupportedProtocols, WithEllipticCurves, WithGetClientCertificate, WithConnectionIDGenerator, WithPaddingLengthGenerator, WithHelloRandomBytesGenerator, WithClientHelloMessageHook, WithMinVersion, WithMaxVersion; option_ok.
Qed.

Lemma applyServer_ok o c : config_ok c → safe (applyServer o c) config_ok.
Proof.
  intros Hc. destruct o; cbn [applyServer]; [by apply applyClient_ok|..]; destruct Hc as [H1 H2 H3 H4 H5 H6 H7 H8];
    unfold WithClientAuth, WithClientCAs, WithGetCertificate, WithInsecureSkipVerifyHello, WithServerHelloMessageHook, WithCertificateRequestMessageHook, WithOnConnectionAttempt, WithListenConfig; option_ok.
Qed.

Lemma apply_all_ok fs : ∀ c, Forall (λ f : option_fn, ∀ c, config_ok c → safe (f c) config_ok) fs → config_ok c → safe (apply_all fs c) config_ok.
Proof.
  induction fs as [|f fs IH]; intros c Hfs Hc; [done|]. apply Forall_cons in Hfs as [Hf Hfs]. cbn [apply_all]. apply safe_bind.
  eapply safe_mono; [by apply Hf|]. intros c' Hc'. by apply IH.
Qed.

Lemma buildServerConfig_ok opts : safe (buildServerConfig opts) config_ok.
Proof. apply apply_all_ok; [|apply defaults_ok]. apply Forall_map, Forall_true. intros o c. apply applyServer_ok. Qed.

Lemma buildClientConfig_ok opts : safe (buildClientConfig opts) config_ok.
Proof. apply apply_all_ok; [|apply defaults_ok]. apply Forall_map, Forall_true. intros o c. apply applyClient_ok. Qed.

(** The values of a connection are usable. *)
Record values_ok (fips : bool) (v : connConfigValues) : Prop := {
  vo_mtu : 0 < v_maximumTransmissionUnit v;
  vo_window : 0 < v_replayProtectionWindow v;
  vo_interval : 0 < v_initialRetransmitInterval v;
  vo_range : SupportedVersionsRange (v_minVersion v) (v_maxVersion v) ≠ [];
  vo_suites : v_cipherSuites v ≠ [];
  vo_versions : Forall (λ c, cipherSuiteIDSupportsVersions (ID c) (v_minVersion v) (v_maxVersion v) = true) (v_cipherSuites v);
  vo_known : v_signatureSchemes v ≠ [] ∧ Forall known_scheme (v_signatureSchemes v);
  vo_cert_known : Forall known_scheme (v_certificateSignatureSchemes v);
  vo_curves : fips = false → v_ellipticCurves v ≠ [];
  vo_fips : fips = true → X25519 ∉ v_ellipticCurves v ∧ X25519MLKEM768 ∉ v_ellipticCurves v;
  vo_hybrid : X25519MLKEM768 ∈ v_ellipticCurves v →
    v_maxVersion v = Version1_3 ∧ (v_minVersion v = Version1_3 ∨ ∃ c, c ∈ v_ellipticCurves v ∧ c ≠ X25519MLKEM768)
}.

Lemma parsed_suites ids custom cert psk lo hi cs : parseCipherSuitesForVersions ids custom cert psk lo hi = Ok cs →
  cs ≠ [] ∧ Forall (λ c, cipherSuiteIDSupportsVersions (ID c) lo hi = true) cs.
Proof.
  intros Hp. destruct (match ids with Some l => cipherSuitesForIDs l | None => Ok (defaultCipherSuitesForVersions lo hi) end) as [sel|e|] eqn:Hs;
    [|unfold parseCipherSuitesForVersions in Hp; by rewrite Hs in Hp..].
  rewrite (parse_cipher_suites ids custom cert psk lo hi sel Hs) in Hp. destruct (cert && _); [done|]. destruct (psk && _); [done|].
  case_bool_decide as Hk; [done|]. injection Hp as <-. split; [done|]. unfold filterCipherSuitesForVersions. apply Forall_forall. intros c Hc.
  rewrite !list_elem_of_filter in Hc. by destruct Hc as (_ & Hc & _).
Qed.

Lemma range_of_suite id lo hi : cipherSuiteIDSupportsVersions id lo hi = true → SupportedVersionsRange lo hi ≠ [].
Proof. unfold cipherSuiteIDSupportsVersions. by destruct (SupportedVersionsRange lo hi). Qed.

Lemma curves_hybrid fips curves lo hi : validateEllipticCurveVersions curves lo hi = Ok () → X25519MLKEM768 ∈ effectiveEllipticCurves fips curves →
  hi = Version1_3 ∧ (lo = Version1_3 ∨ ∃ c, c ∈ effectiveEllipticCurves fips curves ∧ c ≠ X25519MLKEM768).
Proof.
  intros Hv Hin. unfold effectiveEllipticCurves in *. destruct fips.
  { unfold filterFIPSCurves in Hin. apply list_elem_of_filter in Hin. by destruct Hin as [[_ []] _]. }
  destruct curves as [|x curves]; [unfold defaultCurves in Hin; rewrite !elem_of_cons, elem_of_nil in Hin; by destruct Hin as [?|[?|?]]|].
  unfold validateEllipticCurveVersions in Hv. assert (existsb (Z.eqb X25519MLKEM768) (x :: curves) = true) as E.
  { apply existsb_exists. exists X25519MLKEM768. split; [by apply list_elem_of_In|apply Z.eqb_refl]. }
  rewrite E in Hv. cbn [negb] in Hv. destruct (Version_Equal hi Version1_3) eqn:Eh; [|done]. apply version_Equal_eq in Eh. split; [done|]. cbn [negb] in Hv.
  destruct (Version_Equal lo Version1_3) eqn:El; [left; by apply version_Equal_eq|right]. cbn [orb] in Hv. destruct (hasDTLS12CompatibleCurve _) eqn:Ec; [|done].
  apply existsb_exists in Ec as (y & Hy & Hn%negb_true_iff%Z.eqb_neq). exists y. split; [by apply list_elem_of_In|done].
Qed.

Lemma filterFIPS_curves curves : X25519 ∉ filterFIPSCurves curves ∧ X25519MLKEM768 ∉ filterFIPSCurves curves.
Proof. unfold filterFIPSCurves. rewrite !list_elem_of_filter. tauto. Qed.

(** No step of the configuration panics. *)
Lemma config_suites_safe c : no_panic (config_suites c).
Proof.
  unfold config_suites, parseCipherSuitesForVersions. destruct (normalizeProtocolVersionRange _ _) as [lo hi]. apply safe_bind.
  assert (∀ ids, no_panic (cipherSuitesForIDs ids)) as Hids.
  { intros ids. induction ids as [|id ids IH]; cbn [cipherSuitesForIDs]; [done|]. repeat case_match; try done. by apply safe_bind; eapply safe_mono. }
  apply (safe_mono _ (λ _, True)); [by destruct (c_CipherSuites c); [apply Hids|]|]. intros cs _.
  destruct (foldl _ _ _) as [kept [[[fc fp] fa] f13]]. repeat case_match; done.
Qed.

Lemma validate_certificates_safe certs : no_panic (validate_certificates certs).
Proof. induction certs as [|c certs IH]; cbn [validate_certificates]; [done|]. repeat case_match; done. Qed.

Lemma validateConfig_safe o : no_panic (validateConfig o).
Proof.
  unfold validateConfig. destruct o as [c|]; [|done]. destruct (_ && _); [done|]. apply safe_bind. eapply safe_mono; [apply validate_certificates_safe|]. intros [] _.
  destruct (normalizeProtocolVersionRange _ _) as [lo hi]. apply safe_bind. unfold validateEllipticCurveVersions.
  repeat case_match; try done; apply safe_bind; (eapply safe_mono; [apply config_suites_safe|done]).
Qed.

Lemma parseConnSignatureSchemes_ok c :
  safe (parseConnSignatureSchemes c) (λ r, (r.1 ≠ [] ∧ Forall known_scheme r.1) ∧ Forall known_scheme r.2).
Proof.
  unfold parseConnSignatureSchemes. apply safe_bind. eapply safe_mono; [apply ParseSignatureSchemes_known|]. intros ss Hss. apply safe_bind.
  apply (safe_mono _ (Forall known_scheme)); [|intros css Hcss; by split]. destruct (c_CertificateSignatureSchemes c) as [|x l]; [constructor|].
  eapply safe_mono; [apply ParseSignatureSchemes_known|]. by intros r [_ ?].
Qed.

Lemma values_of_config fips c : config_ok c → validateConfig (Some c) = Ok () → safe (newConnConfigValues fips c) (values_ok fips).
Proof.
  intros Hc Hv. unfold validateConfig in Hv. destruct (negb _ && _); [done|]. apply bind_Ok_inv in Hv as ([] & _ & Hv). unfold newConnConfigValues.
  pose proof (config_suites_safe c) as Hcs. unfold config_suites in *.
  destruct (normalizeProtocolVersionRange (c_MinVersion c) (c_MaxVersion c)) as [lo hi]. apply bind_Ok_inv in Hv as ([] & Hcv & _).
  destruct (parseCipherSuitesForVersions _ _ _ _ _ _) as [cs|e|] eqn:Hs; [|done|done]. cbn [mbind res_bind]. apply parsed_suites in Hs as [Hne Hs].
  apply safe_bind. eapply safe_mono; [apply parseConnSignatureSchemes_ok|]. intros [ss css] [Hss Hcss]. cbn [fst snd] in *.
  destruct Hc as [Hm Hw Hi _ _ _ _ _]. cbn. split; cbn; [..|by apply curves_hybrid].
  - unfold effectiveMTU, defaultMTU. case_match; lia.
  - unfold effectiveReplayProtectionWindow, defaultReplayProtectionWindow. destruct (Z.leb_spec (c_ReplayProtectionWindow c) 0); lia.
  - unfold effectiveFlightInterval, second. case_match; lia.
  - destruct cs as [|s cs]; [done|]. apply Forall_cons in Hs as [Hs _]. by eapply range_of_suite.
  - done.
  - done.
  - done.
  - done.
  - intros ->. unfold effectiveEllipticCurves. by destruct (c_EllipticCurves c).
  - intros ->. unfold effectiveEllipticCurves. apply filterFIPS_curves.
Qed.

Lemma validated_values {A} fips c (before : res dtls_error A) : no_panic before → config_ok c →
  safe (_ ← validateConfig (Some c); _ ← before; newConnConfigValues fips c) (values_ok fips).
Proof.
  intros Hb Hc. pose proof (validateConfig_safe (Some c)) as Hs. destruct (validateConfig (Some c)) as [[]|e|] eqn:Hv; [|done|done]. cbn [mbind res_bind].
  destruct before; [|done|done]. by apply values_of_config.
Qed.

End options.


Definition demo_options : list (@Option () ()) :=
  [OMinVersion Version1_2; OMaxVersion Version1_3; OEllipticCurves [X25519MLKEM768; P384]; OMTU 1400; OReplayProtectionWindow 0].


End Options.
