(* ===== verification/Extensions.v ===== *)
(** * TLS extensions

    src/dtls/pkg/protocol/extension: the 19 extension types with their encoders
    and decoders, and the encoder and decoder of a list of extensions.  The
    methods [Unmarshal] are modelled on a new value, the only way the code calls
    them.  cryptobyte is the class [Cryptobyte] of Wire. *)

From stdpp Require Import base tactics numbers list strings.
From Stdlib Require Import ZArith Lia.
From S2P Require Import Prelude Wire SignatureHash Record.
Open Scope Z_scope.

Module Extension.
Import Protocol SignatureHash.

(** ** Types *)

Definition ServerNameTypeValue : Z := 0.
Definition SupportedEllipticCurvesTypeValue : Z := 10.
Definition SupportedPointFormatsTypeValue : Z := 11.
Definition SupportedSignatureAlgorithmsTypeValue : Z := 13.
Definition UseSRTPTypeValue : Z := 14.
Definition ALPNTypeValue : Z := 16.
Definition UseExtendedMasterSecretTypeValue : Z := 23.
Definition PreSharedKeyValue : Z := 41.
Definition EarlyDataIndicationTypeValue : Z := 42.
Definition SupportedVersionsTypeValue : Z := 43.
Definition CookieTypeValue : Z := 44.
Definition PskKeyExchangeModesTypeValue : Z := 45.
Definition CertificateAuthoritiesTypeValue : Z := 47.
Definition OIDFiltersTypeValue : Z := 48.
Definition PostHandshakeAuthTypeValue : Z := 49.
Definition SignatureAlgorithmsCertTypeValue : Z := 50.
Definition KeyShareTypeValue : Z := 51.
Definition ConnectionIDTypeValue : Z := 54.
Definition RenegotiationInfoTypeValue : Z := 65281.

Record KeyShareEntry := MkKeyShareEntry { ks_Group : Z; ks_KeyExchange : list Z }.

(** [ClientShares] is [None] when it is nil. *)
Record KeyShareData := MkKeyShare {
  ClientShares : option (list KeyShareEntry);
  ServerShare : option KeyShareEntry;
  SelectedGroup : option Z
}.

Record PskIdentity := MkPskIdentity { Identity : list Z; ObfuscatedTicketAge : Z }.

Record PreSharedKeyData := MkPreSharedKey {
  Identities : list PskIdentity;
  Binders : list (list Z);
  SelectedIdentity : Z
}.

Record OIDFilter := MkOIDFilter { OID : list Z; Values : list Z }.

Inductive Extension :=
  | ServerName (name : gostring)
  | SupportedEllipticCurves (curves : list Z)
  | SupportedPointFormats (formats : list Z)
  | SupportedSignatureAlgorithms (algs : list Algorithm)
  | SignatureAlgorithmsCert (algs : list Algorithm)
  | UseSRTP (profiles : list Z) (mki : list Z)
  | ALPN (protocols : list gostring)
  | UseExtendedMasterSecret (supported : bool)
  | RenegotiationInfo (connection : Z)
  | ConnectionID (cid : list Z)
  | SupportedVersions (versions : list Version) (selected : bool)
  | KeyShare (k : KeyShareData)
  | CookieExt (cookie : list Z)
  | PskKeyExchangeModes (modes : list Z)
  | PreSharedKey (p : PreSharedKeyData)
  | EarlyDataIndication (max : option Z)
  | CertificateAuthorities (authorities : list (list Z))
  | OIDFilters (filters : list OIDFilter)
  | PostHandshakeAuth (enabled : bool).

Definition TypeValue (e : Extension) : Z :=
  match e with
  | ServerName _ => ServerNameTypeValue
  | SupportedEllipticCurves _ => SupportedEllipticCurvesTypeValue
  | SupportedPointFormats _ => SupportedPointFormatsTypeValue
  | SupportedSignatureAlgorithms _ => SupportedSignatureAlgorithmsTypeValue
  | SignatureAlgorithmsCert _ => SignatureAlgorithmsCertTypeValue
  | UseSRTP _ _ => UseSRTPTypeValue
  | ALPN _ => ALPNTypeValue
  | UseExtendedMasterSecret _ => UseExtendedMasterSecretTypeValue
  | RenegotiationInfo _ => RenegotiationInfoTypeValue
  | ConnectionID _ => ConnectionIDTypeValue
  | SupportedVersions _ _ => SupportedVersionsTypeValue
  | KeyShare _ => KeyShareTypeValue
  | CookieExt _ => CookieTypeValue
  | PskKeyExchangeModes _ => PskKeyExchangeModesTypeValue
  | PreSharedKey _ => PreSharedKeyValue
  | EarlyDataIndication _ => EarlyDataIndicationTypeValue
  | CertificateAuthorities _ => CertificateAuthoritiesTypeValue
  | OIDFilters _ => OIDFiltersTypeValue
  | PostHandshakeAuth _ => PostHandshakeAuthTypeValue
  end.

Section codec.
Context `{Cryptobyte}.

(** The type and the length-prefixed body that most [Unmarshal] start with: the
    result of reading the type is ignored (the variable keeps the value 0), or not. *)
Definition read_type_unchecked (typeValue : Z) (data : list Z) : res dtls_error (list Z) :=
  let '(extension, val) := match ReadUint 2 data with Some r => r | None => (0, data) end in
  _ ← guard (extension =? typeValue) ErrInvalidExtensionType;
  Ok val.

Definition read_type (typeValue : Z) (data : list Z) : res dtls_error (list Z) :=
  '(extension, val) ← or_err (ReadUint 2 data) ErrInvalidExtensionType;
  _ ← guard (extension =? typeValue) ErrInvalidExtensionType;
  Ok val.

(** ** server_name.go *)

Definition serverNameTypeDNSHostName : Z := 0.

Definition ServerName_Marshal (name : gostring) : res dtls_error (list Z) :=
  Bytes (AddPrefixed 2 (AddUint 2 NewBuilder ServerNameTypeValue) (λ b,
    AddPrefixed 2 b (λ b,
      AddPrefixed 2 (AddUint 1 b serverNameTypeDNSHostName) (λ b, AddBytes b name)))).

(** [strings.HasSuffix(s, ".")] *)
Definition ends_with_dot (s : gostring) : bool :=
  match reverse s with c :: _ => c =? 46 | [] => false end.

Definition ServerName_entry (name : gostring) (nameList : list Z) : res dtls_error (gostring * list Z) :=
  '(nameType, nameList) ← or_err (ReadUint 1 nameList) ErrInvalidSNIFormat;
  '(serverName, nameList) ← or_err (ReadPrefixed 2 nameList) ErrInvalidSNIFormat;
  _ ← guard (nonempty serverName) ErrInvalidSNIFormat;
  if negb (nameType =? serverNameTypeDNSHostName) then Ok (name, nameList) else
  if negb (len name =? 0) then Err ErrInvalidSNIFormat else
  if ends_with_dot serverName then Err ErrInvalidSNIFormat else
  Ok (serverName, nameList).

Definition ServerName_Unmarshal (data : list Z) : res dtls_error gostring :=
  val ← read_type_unchecked ServerNameTypeValue data;
  '(extData, _) ← or_err (ReadPrefixed 2 val) ErrBufferTooSmall;
  '(nameList, extData) ← or_err (ReadPrefixed 2 extData) ErrInvalidSNIFormat;
  _ ← guard (nonempty nameList) ErrInvalidSNIFormat;
  _ ← guard (negb (nonempty extData)) ErrLengthMismatch;
  for_nonempty ServerName_entry [] nameList.

(** ** supported_elliptic_curves.go *)

Definition supportedGroupsHeaderSize : Z := 6.

Definition SupportedEllipticCurves_Marshal (curves : list Z) : res dtls_error (list Z) :=
  Ok (be_put 2 SupportedEllipticCurvesTypeValue ++ be_put 2 (u16 (2 + len curves * 2)) ++
      be_put 2 (u16 (len curves * 2)) ++ concat (be_put 2 <$> curves)).

(** [for i := range count { x := Uint16(data[off+i*2:]); if known[x] { append } }] *)
Fixpoint known_uint16s (known : Z → bool) (count : nat) (off : Z) (data : list Z) : res dtls_error (list Z) :=
  match count with
  | O => Ok []
  | S count =>
      d ← slice_from data off;
      x ← Uint16 d;
      l ← known_uint16s known count (off + 2) data;
      Ok (if known x then x :: l else l)
  end.

Definition SupportedEllipticCurves_Unmarshal (data : list Z) : res dtls_error (list Z) :=
  if len data <? supportedGroupsHeaderSize then Err ErrBufferTooSmall else
  d ← slice data 2 4;
  declaredLength ← Uint16 d;
  d ← slice_from data 4;
  n ← Uint16 d;
  let groupCount := n / 2 in
  t ← Uint16 data;
  if negb (t =? SupportedEllipticCurvesTypeValue) then Err ErrInvalidExtensionType else
  if len data - 4 <? declaredLength then Err ErrLengthMismatch else
  if len data <? supportedGroupsHeaderSize + groupCount * 2 then Err ErrLengthMismatch else
  if negb (groupCount * 2 + 2 =? declaredLength) then Err ErrLengthMismatch else
  known_uint16s Curves (Z.to_nat groupCount) supportedGroupsHeaderSize data.

(** ** supported_point_formats.go *)

Definition supportedPointFormatsSize : Z := 5.

Definition SupportedPointFormats_Marshal (formats : list Z) : res dtls_error (list Z) :=
  if 255 <? len formats then Err ErrPointFormatsTooLarge else
  Ok (be_put 2 SupportedPointFormatsTypeValue ++ be_put 2 (u16 (1 + len formats)) ++
      [u8 (len formats)] ++ map u8 formats).

Fixpoint point_formats (count : nat) (off : Z) (data : list Z) : res dtls_error (list Z) :=
  match count with
  | O => Ok []
  | S count =>
      p ← idx data off;
      l ← point_formats count (off + 1) data;
      Ok (if p =? CurvePointFormatUncompressed then p :: l else l)
  end.

Definition SupportedPointFormats_Unmarshal (data : list Z) : res dtls_error (list Z) :=
  if len data <? supportedPointFormatsSize then Err ErrBufferTooSmall else
  d ← slice data 2 4;
  declaredLength ← Uint16 d;
  pointFormatCount ← idx data 4;
  t ← Uint16 data;
  if negb (t =? SupportedPointFormatsTypeValue) then Err ErrInvalidExtensionType else
  if len data - 4 <? declaredLength then Err ErrLengthMismatch else
  if len data <? supportedPointFormatsSize + pointFormatCount then Err ErrLengthMismatch else
  if negb (pointFormatCount + 1 =? declaredLength) then Err ErrLengthMismatch else
  point_formats (Z.to_nat pointFormatCount) supportedPointFormatsSize data.

(** ** generic_signature_hash_extension.go and its two users *)

Definition marshalGenericSignatureHashAlgorithm (typeValue : Z) (sigHashAlgs : list Algorithm) : res dtls_error (list Z) :=
  Bytes (AddPrefixed 2 (AddUint 2 NewBuilder typeValue) (λ b,
    AddPrefixed 2 b (λ b, foldl (λ b v, AddBytes b (Algorithm_Marshal v)) b sigHashAlgs))).

Definition signature_entry (dst : list Algorithm) (algData : list Z) : res dtls_error (list Algorithm * list Z) :=
  '(scheme, algData) ← or_err (ReadUint 2 algData) ErrLengthMismatch;
  match Algorithm_Unmarshal scheme with
  | Ok alg => Ok (dst ++ [alg], algData)
  | Err _ => Ok (dst, algData)
  | Panic => Panic
  end.

Definition unmarshalGenericSignatureHashAlgorithm (typeValue : Z) (data : list Z) : res dtls_error (list Algorithm) :=
  val ← read_type typeValue data;
  '(extData, _) ← or_err (ReadPrefixed 2 val) ErrBufferTooSmall;
  '(algData, extData) ← or_err (ReadPrefixed 2 extData) ErrLengthMismatch;
  _ ← guard (negb (nonempty extData)) ErrLengthMismatch;
  for_nonempty signature_entry [] algData.

Definition SupportedSignatureAlgorithms_Marshal : list Algorithm → res dtls_error (list Z) :=
  marshalGenericSignatureHashAlgorithm SupportedSignatureAlgorithmsTypeValue.

Definition SupportedSignatureAlgorithms_Unmarshal : list Z → res dtls_error (list Algorithm) :=
  unmarshalGenericSignatureHashAlgorithm SupportedSignatureAlgorithmsTypeValue.

Definition SignatureAlgorithmsCert_Marshal : list Algorithm → res dtls_error (list Z) :=
  marshalGenericSignatureHashAlgorithm SignatureAlgorithmsCertTypeValue.

Definition SignatureAlgorithmsCert_Unmarshal : list Z → res dtls_error (list Algorithm) :=
  unmarshalGenericSignatureHashAlgorithm SignatureAlgorithmsCertTypeValue.

(** ** use_srtp.go, srtp_protection_profile.go *)

Definition useSRTPHeaderSize : Z := 6.
Definition maxUint16 : Z := 2 ^ 16 - 1.

Definition srtpProtectionProfiles (p : Z) : bool := (1 <=? p) && (p <=? 8).

Definition UseSRTP_Marshal (profiles mki : list Z) : res dtls_error (list Z) :=
  if 255 <? len mki then Err ErrMasterKeyIdentifierTooLarge else
  let extensionDataLen := 2 + len profiles * 2 + 1 + len mki in
  if maxUint16 <? extensionDataLen then Err ErrUseSRTPDataTooLarge else
  Ok (be_put 2 UseSRTPTypeValue ++ be_put 2 (u16 extensionDataLen) ++ be_put 2 (u16 (len profiles * 2)) ++
      concat (be_put 2 <$> profiles) ++ [u8 (len mki)] ++ mki).

Definition UseSRTP_Unmarshal (data : list Z) : res dtls_error (list Z * list Z) :=
  if len data <=? useSRTPHeaderSize then Err ErrBufferTooSmall else
  t ← Uint16 data;
  if negb (t =? UseSRTPTypeValue) then Err ErrInvalidExtensionType else
  d ← slice_from data 4;
  n ← Uint16 d;
  let profileCount := n / 2 in
  let masterKeyIdentifierIndex := supportedGroupsHeaderSize + profileCount * 2 in
  if len data <? masterKeyIdentifierIndex + 1 then Err ErrLengthMismatch else
  d ← slice data 2 4;
  declaredLength ← Uint16 d;
  masterKeyIdentifierLen ← idx data masterKeyIdentifierIndex;
  let end_ := masterKeyIdentifierIndex + masterKeyIdentifierLen in
  if (len data <=? end_) || negb (end_ - 4 =? declaredLength - 1) then Err ErrLengthMismatch else
  profiles ← known_uint16s srtpProtectionProfiles (Z.to_nat profileCount) useSRTPHeaderSize data;
  mki ← slice data (masterKeyIdentifierIndex + 1) (end_ + 1);
  Ok (profiles, mki).

(** ** alpn.go *)

Definition ALPN_Marshal (protocols : list gostring) : res dtls_error (list Z) :=
  Bytes (AddPrefixed 2 (AddUint 2 NewBuilder ALPNTypeValue) (λ b,
    AddPrefixed 2 b (λ b, foldl (λ b p, AddPrefixed 1 b (λ b, AddBytes b p)) b protocols))).

Definition ALPN_entry (protocols : list gostring) (protoList : list Z) : res dtls_error (list gostring * list Z) :=
  '(proto, protoList) ← or_err (ReadPrefixed 1 protoList) ErrALPNInvalidFormat;
  _ ← guard (nonempty proto) ErrALPNInvalidFormat;
  Ok (protocols ++ [proto], protoList).

Definition ALPN_Unmarshal (data : list Z) : res dtls_error (list gostring) :=
  val ← read_type_unchecked ALPNTypeValue data;
  '(extData, _) ← or_err (ReadPrefixed 2 val) ErrLengthMismatch;
  '(protoList, extData) ← or_err (ReadPrefixed 2 extData) ErrALPNInvalidFormat;
  _ ← guard (nonempty protoList) ErrALPNInvalidFormat;
  _ ← guard (negb (nonempty extData)) ErrLengthMismatch;
  for_nonempty ALPN_entry [] protoList.

(** The first of our protocols that the peer has; the empty string when one side has none. *)
Definition ALPNProtocolSelection (supportedProtocols peerSupportedProtocols : list gostring) : res dtls_error gostring :=
  match supportedProtocols, peerSupportedProtocols with
  | [], _ | _, [] => Ok []
  | _, _ =>
      match List.find (λ s, bool_decide (s ∈ peerSupportedProtocols)) supportedProtocols with
      | Some s => Ok s
      | None => Err ErrALPNNoAppProto
      end
  end.

(** ** use_master_secret.go, post_handshake_auth.go, renegotiation_info.go *)

Definition useExtendedMasterSecretHeaderSize : Z := 4.

Definition UseExtendedMasterSecret_Marshal (supported : bool) : res dtls_error (list Z) :=
  if negb supported then Ok [] else Ok (be_put 2 UseExtendedMasterSecretTypeValue ++ be_put 2 0).

Definition UseExtendedMasterSecret_Unmarshal (data : list Z) : res dtls_error bool :=
  if len data <? useExtendedMasterSecretHeaderSize then Err ErrBufferTooSmall else
  d2 ← idx data 2;
  d3 ← idx data 3;
  if negb (d2 =? 0) || negb (d3 =? 0) then Err ErrLengthMismatch else
  t ← Uint16 data;
  if negb (t =? UseExtendedMasterSecretTypeValue) then Err ErrInvalidExtensionType else
  Ok true.

Definition postHandshakeAuthHeaderSize : Z := 4.

Definition PostHandshakeAuth_Marshal (enabled : bool) : res dtls_error (list Z) :=
  if negb enabled then Ok [] else Ok (be_put 2 PostHandshakeAuthTypeValue ++ be_put 2 0).

Definition PostHandshakeAuth_Unmarshal (data : list Z) : res dtls_error bool :=
  if len data <? postHandshakeAuthHeaderSize then Err ErrBufferTooSmall else
  d2 ← idx data 2;
  d3 ← idx data 3;
  if negb (d2 =? 0) || negb (d3 =? 0) then Err ErrLengthMismatch else
  t ← Uint16 data;
  if negb (t =? PostHandshakeAuthTypeValue) then Err ErrInvalidExtensionType else
  Ok true.

Definition renegotiationInfoHeaderSize : Z := 5.

Definition RenegotiationInfo_Marshal (connection : Z) : res dtls_error (list Z) :=
  Ok (be_put 2 RenegotiationInfoTypeValue ++ be_put 2 1 ++ [connection]).

Definition RenegotiationInfo_Unmarshal (data : list Z) : res dtls_error Z :=
  if len data <? renegotiationInfoHeaderSize then Err ErrBufferTooSmall else
  t ← Uint16 data;
  if negb (t =? RenegotiationInfoTypeValue) then Err ErrInvalidExtensionType else
  d ← slice data 2 4;
  n ← Uint16 d;
  if negb (n =? 1) then Err ErrLengthMismatch else
  idx data 4.

(** ** connection_id.go, cookie.go *)

Definition ConnectionID_Marshal (cid : list Z) : res dtls_error (list Z) :=
  Bytes (AddPrefixed 2 (AddUint 2 NewBuilder ConnectionIDTypeValue) (λ b,
    AddPrefixed 1 b (λ b, AddBytes b cid))).

Definition ConnectionID_Unmarshal (data : list Z) : res dtls_error (list Z) :=
  val ← read_type_unchecked ConnectionIDTypeValue data;
  '(extData, _) ← or_err (ReadPrefixed 2 val) ErrBufferTooSmall;
  '(cid, extData) ← or_err (ReadPrefixed 1 extData) ErrInvalidCIDFormat;
  _ ← guard (negb (nonempty extData)) ErrLengthMismatch;
  '(c, _) ← or_err (ReadBytes cid (len cid)) ErrInvalidCIDFormat;
  Ok c.

Definition maxCookieSize : Z := 0xffff - 2.

Definition CookieExt_Marshal (cookie : list Z) : res dtls_error (list Z) :=
  if (len cookie =? 0) || (maxCookieSize <? len cookie) then Err ErrCookieExtFormat else
  Bytes (AddPrefixed 2 (AddUint 2 NewBuilder CookieTypeValue) (λ b,
    AddPrefixed 2 b (λ b, AddBytes b cookie))).

Definition CookieExt_Unmarshal (data : list Z) : res dtls_error (list Z) :=
  val ← read_type CookieTypeValue data;
  '(extData, _) ← or_err (ReadPrefixed 2 val) ErrBufferTooSmall;
  '(cookie, extData) ← or_err (ReadPrefixed 2 extData) ErrCookieExtFormat;
  _ ← guard (nonempty cookie && (len cookie <=? maxCookieSize)) ErrCookieExtFormat;
  _ ← guard (negb (nonempty extData)) ErrLengthMismatch;
  Ok cookie.

(** ** supported_versions.go *)

Definition SupportedVersions_Marshal (versions : list Version) (selected : bool) : res dtls_error (list Z) :=
  if len versions =? 0 then Err ErrInvalidSupportedVersionsFormat else
  if selected && negb (len versions =? 1) then Err ErrInvalidSupportedVersionsFormat else
  let totalBytes := len versions * 2 in
  if (totalBytes <? 2) || (254 <? totalBytes) then Err ErrInvalidSupportedVersionsFormat else
  if negb (forallb IsValidVersion versions) then Err ErrInvalidDTLSVersion else
  let add_version b v := AddUint 1 (AddUint 1 b (Major v)) (Minor v) in
  Bytes (AddPrefixed 2 (AddUint 2 NewBuilder SupportedVersionsTypeValue) (λ b,
    if selected then match versions with v :: _ => add_version b v | [] => b end
    else AddPrefixed 1 b (λ b, foldl add_version b versions))).

Definition version_entry (versions : list Version) (peek : list Z) : res dtls_error (list Version * list Z) :=
  '(major, peek) ← or_err (ReadUint 1 peek) ErrInvalidSupportedVersionsFormat;
  '(minor, peek) ← or_err (ReadUint 1 peek) ErrInvalidSupportedVersionsFormat;
  Ok (if IsValidBytes major minor then versions ++ [MkVersion major minor] else versions, peek).

Definition SupportedVersions_Unmarshal (data : list Z) : res dtls_error (list Version * bool) :=
  val ← read_type_unchecked SupportedVersionsTypeValue data;
  '(extData, _) ← or_err (ReadPrefixed 2 val) ErrBufferTooSmall;
  _ ← guard (nonempty extData) ErrInvalidSupportedVersionsFormat;
  let is_list := match ReadUint 1 extData with
                 | Some (listLen, peek) => (listLen =? len peek) && (2 <=? listLen) && (listLen mod 2 =? 0)
                 | None => false
                 end in
  if is_list then
    '(listLen, peek) ← or_err (ReadUint 1 extData) ErrInvalidSupportedVersionsFormat;
    versions ← for_nonempty version_entry [] peek;
    '(_, extData) ← or_err (ReadBytes extData (1 + listLen)) ErrInvalidSupportedVersionsFormat;
    _ ← guard (negb (nonempty extData)) ErrLengthMismatch;
    Ok (versions, false)
  else
    _ ← guard (len extData =? 2) ErrInvalidSupportedVersionsFormat;
    '(versions, _) ← version_entry [] extData;
    Ok (versions, true).

(** ** key_share.go *)

Definition hasTooManyContexts (a b c : bool) : bool := (a && b) || (a && c) || (b && c).

Definition addKeyShareEntry (b : Builder) (e : KeyShareEntry) : Builder :=
  AddPrefixed 2 (AddUint 2 b (ks_Group e)) (λ b, AddBytes b (ks_KeyExchange e)).

Definition bad_key_length (e : KeyShareEntry) : bool :=
  (len (ks_KeyExchange e) =? 0) || (0xffff <? len (ks_KeyExchange e)).

(** The check of the client shares: no group twice, no empty or oversized key. *)
Fixpoint check_shares (seenGroups : list Z) (shares : list KeyShareEntry) : res dtls_error unit :=
  match shares with
  | [] => Ok tt
  | e :: shares =>
      if elem (ks_Group e) seenGroups then Err ErrDuplicateKeyShare else
      if bad_key_length e then Err ErrInvalidKeyShareFormat else
      check_shares (ks_Group e :: seenGroups) shares
  end.

Definition KeyShare_Marshal (k : KeyShareData) : res dtls_error (list Z) :=
  let shares := match ClientShares k with Some l => l | None => [] end in
  if hasTooManyContexts (bool_decide (is_Some (ClientShares k))) (bool_decide (is_Some (ServerShare k)))
       (bool_decide (is_Some (SelectedGroup k))) then Err ErrInvalidKeyShareFormat else
  _ ← check_shares [] shares;
  _ ← match ServerShare k with
      | Some e => guard (negb (bad_key_length e)) ErrInvalidKeyShareFormat
      | None => Ok tt
      end;
  Bytes (AddPrefixed 2 (AddUint 2 NewBuilder KeyShareTypeValue) (λ b,
    match SelectedGroup k, ServerShare k with
    | Some g, _ => AddUint 2 b g
    | None, Some e => addKeyShareEntry b e
    | None, None => AddPrefixed 2 b (λ b, foldl addKeyShareEntry b shares)
    end)).

(** The groups seen are those of the shares read so far. *)
Definition client_share_entry (shares : list KeyShareEntry) (peek : list Z)
    : res dtls_error (list KeyShareEntry * list Z) :=
  '(group, peek) ← or_err (ReadUint 2 peek) ErrInvalidKeyShareFormat;
  '(raw, peek) ← or_err (ReadPrefixed 2 peek) ErrInvalidKeyShareFormat;
  _ ← guard (nonempty raw) ErrInvalidKeyShareFormat;
  if elem group (ks_Group <$> shares) then Err ErrDuplicateKeyShare else
  Ok (shares ++ [MkKeyShareEntry group raw], peek).

Definition KeyShare_Unmarshal (data : list Z) : res dtls_error KeyShareData :=
  val ← read_type KeyShareTypeValue data;
  '(extData, _) ← or_err (ReadPrefixed 2 val) ErrBufferTooSmall;
  _ ← guard (nonempty extData) ErrInvalidKeyShareFormat;
  let is_list := match ReadUint 2 extData with Some (vecLen, peek) => vecLen =? len peek | None => false end in
  if is_list then
    '(vecLen, peek) ← or_err (ReadUint 2 extData) ErrInvalidKeyShareFormat;
    shares ← for_nonempty client_share_entry [] peek;
    _ ← or_err (ReadBytes extData (2 + vecLen)) ErrInvalidKeyShareFormat;
    Ok (MkKeyShare (match shares with [] => None | _ => Some shares end) None None)
  else if len extData =? 2 then
    '(group, _) ← or_err (ReadUint 2 extData) ErrInvalidKeyShareFormat;
    Ok (MkKeyShare None None (if Curves group then Some group else None))
  else
    '(group, extData) ← or_err (ReadUint 2 extData) ErrInvalidKeyShareFormat;
    '(raw, extData) ← or_err (ReadPrefixed 2 extData) ErrInvalidKeyShareFormat;
    _ ← guard (negb (nonempty extData) && nonempty raw) ErrInvalidKeyShareFormat;
    Ok (MkKeyShare None (Some (MkKeyShareEntry group raw)) None).

(** ** psk_key_exchange_modes.go *)

Definition PskKeyExchangeModes_Marshal (modes : list Z) : res dtls_error (list Z) :=
  if len modes =? 0 then Err ErrNoPskKeyExchangeMode else
  Bytes (AddPrefixed 2 (AddUint 2 NewBuilder PskKeyExchangeModesTypeValue) (λ b,
    AddPrefixed 1 b (λ b, foldl (AddUint 1) b modes))).

Definition PskKeyExchangeModes_Unmarshal (data : list Z) : res dtls_error (list Z) :=
  val ← read_type PskKeyExchangeModesTypeValue data;
  '(extData, _) ← or_err (ReadPrefixed 2 val) ErrBufferTooSmall;
  '(strModes, extData) ← or_err (ReadPrefixed 1 extData) ErrPskKeyExchangeModesFormat;
  _ ← guard (nonempty strModes) ErrPskKeyExchangeModesFormat;
  _ ← guard (negb (nonempty extData)) ErrLengthMismatch;
  Ok strModes.

(** ** pre_shared_key.go *)

Definition minPSKBinderSize : Z := 32.

(** Writes to a builder after an error do nothing, so that the loops may go on. *)
Definition add_identity (b : Builder) (i : PskIdentity) : Builder :=
  let b := if len (Identity i) =? 0 then SetError b ErrPreSharedKeyFormat else b in
  AddUint 4 (AddPrefixed 2 b (λ b, AddBytes b (Identity i))) (ObfuscatedTicketAge i).

Definition add_binder (b : Builder) (binder : list Z) : Builder :=
  let b := if len binder <? minPSKBinderSize then SetError b ErrPreSharedKeyFormat else b in
  AddPrefixed 1 b (λ b, AddBytes b binder).

Definition PreSharedKey_Marshal (p : PreSharedKeyData) : res dtls_error (list Z) :=
  let out := AddUint 2 NewBuilder PreSharedKeyValue in
  if (len (Identities p) =? 0) || (len (Binders p) =? 0)
  then Bytes (AddPrefixed 2 out (λ b, AddUint 2 b (SelectedIdentity p)))
  else Bytes (AddPrefixed 2 out (λ b,
    AddPrefixed 2 (AddPrefixed 2 b (λ b, foldl add_identity b (Identities p)))
      (λ b, foldl add_binder b (Binders p)))).

Definition identity_entry (ids : list PskIdentity) (identities : list Z) : res dtls_error (list PskIdentity * list Z) :=
  '(identity, identities) ← or_err (ReadPrefixed 2 identities) ErrPreSharedKeyFormat;
  '(ticket, identities) ← or_err (ReadUint 4 identities) ErrPreSharedKeyFormat;
  _ ← guard (nonempty identity) ErrPreSharedKeyFormat;
  Ok (ids ++ [MkPskIdentity identity ticket], identities).

Definition binder_entry (bs : list (list Z)) (binders : list Z) : res dtls_error (list (list Z) * list Z) :=
  '(binder, binders) ← or_err (ReadPrefixed 1 binders) ErrPreSharedKeyFormat;
  _ ← guard (minPSKBinderSize <=? len binder) ErrPreSharedKeyFormat;
  Ok (bs ++ [binder], binders).

Definition PreSharedKey_Unmarshal (data : list Z) : res dtls_error PreSharedKeyData :=
  val ← read_type PreSharedKeyValue data;
  '(extData, _) ← or_err (ReadPrefixed 2 val) ErrBufferTooSmall;
  if len extData =? 2 then
    '(selected, _) ← or_err (ReadUint 2 extData) ErrPreSharedKeyFormat;
    Ok (MkPreSharedKey [] [] selected)
  else
    '(identities, extData) ← or_err (ReadPrefixed 2 extData) ErrPreSharedKeyFormat;
    _ ← guard (nonempty identities) ErrPreSharedKeyFormat;
    ids ← for_nonempty identity_entry [] identities;
    '(binders, extData) ← or_err (ReadPrefixed 2 extData) ErrPreSharedKeyFormat;
    _ ← guard (nonempty binders) ErrPreSharedKeyFormat;
    bs ← for_nonempty binder_entry [] binders;
    _ ← guard (negb (nonempty extData)) ErrLengthMismatch;
    _ ← guard (len bs =? len ids) ErrPreSharedKeyFormat;
    Ok (MkPreSharedKey ids bs 0).

(** ** early_data_indication.go *)

Definition EarlyDataIndication_Marshal (max : option Z) : res dtls_error (list Z) :=
  let out := AddUint 2 NewBuilder EarlyDataIndicationTypeValue in
  match max with
  | None => Bytes (AddUint 2 out 0)
  | Some m => Bytes (AddPrefixed 2 out (λ b, AddUint 4 b m))
  end.

Definition EarlyDataIndication_Unmarshal (data : list Z) : res dtls_error (option Z) :=
  val ← read_type EarlyDataIndicationTypeValue data;
  '(extData, _) ← or_err (ReadPrefixed 2 val) ErrBufferTooSmall;
  if nonempty extData then
    '(med, extData) ← or_err (ReadUint 4 extData) ErrEarlyDataIndicationFormat;
    _ ← guard (negb (nonempty extData)) ErrEarlyDataIndicationFormat;
    Ok (Some med)
  else Ok None.

(** ** certificate_auth.go *)

(** The loop returns at the first empty authority. *)
Fixpoint add_authorities (b : Builder) (cas : list (list Z)) : Builder :=
  match cas with
  | [] => b
  | ca :: cas =>
      if len ca <? 1 then SetError b ErrInvalidCertificateAuthFormat
      else add_authorities (AddPrefixed 2 b (λ b, AddBytes b ca)) cas
  end.

Definition CertificateAuthorities_Marshal (authorities : list (list Z)) : res dtls_error (list Z) :=
  if len authorities <? 1 then Err ErrInvalidCertificateAuthFormat else
  Bytes (AddPrefixed 2 (AddUint 2 NewBuilder CertificateAuthoritiesTypeValue) (λ b,
    AddPrefixed 2 b (λ b, add_authorities b authorities))).

Definition authority_entry (cauths : list (list Z)) (auths : list Z) : res dtls_error (list (list Z) * list Z) :=
  '(ca, auths) ← or_err (ReadPrefixed 2 auths) ErrInvalidCertificateAuthFormat;
  _ ← guard (1 <=? len ca) ErrInvalidCertificateAuthFormat;
  Ok (cauths ++ [ca], auths).

Definition CertificateAuthorities_Unmarshal (data : list Z) : res dtls_error (list (list Z)) :=
  val ← read_type CertificateAuthoritiesTypeValue data;
  '(extData, _) ← or_err (ReadPrefixed 2 val) ErrBufferTooSmall;
  _ ← guard (nonempty extData) ErrInvalidCertificateAuthFormat;
  '(auths, extData) ← or_err (ReadPrefixed 2 extData) ErrInvalidCertificateAuthFormat;
  _ ← guard (nonempty auths) ErrInvalidCertificateAuthFormat;
  _ ← guard (negb (nonempty extData)) ErrLengthMismatch;
  for_nonempty authority_entry [] auths.

(** ** oid_filters.go *)

Definition seen_oid (oid : list Z) (seen : list (list Z)) : bool := bool_decide (oid ∈ seen).

Fixpoint add_filters (seen : list (list Z)) (b : Builder) (filters : list OIDFilter) : Builder :=
  match filters with
  | [] => b
  | f :: filters =>
      let b := if len (OID f) <? 1 then SetError b ErrEmptyOIDFilter else b in
      let b := if seen_oid (OID f) seen then SetError b ErrDuplicateOID else b in
      let b := AddPrefixed 1 b (λ b, AddBytes b (OID f)) in
      let b := AddPrefixed 2 b (λ b, AddBytes b (Values f)) in
      add_filters (OID f :: seen) b filters
  end.

Definition OIDFilters_Marshal (filters : list OIDFilter) : res dtls_error (list Z) :=
  Bytes (AddPrefixed 2 (AddUint 2 NewBuilder OIDFiltersTypeValue) (λ b,
    AddPrefixed 2 b (λ b, add_filters [] b filters))).

Definition filter_entry (filters : list OIDFilter) (filterList : list Z) : res dtls_error (list OIDFilter * list Z) :=
  '(oid, filterList) ← or_err (ReadPrefixed 1 filterList) ErrOIDFiltersFormat;
  _ ← guard (nonempty oid) ErrOIDFiltersFormat;
  if seen_oid oid (OID <$> filters) then Err ErrDuplicateOID else
  '(values, filterList) ← or_err (ReadPrefixed 2 filterList) ErrOIDFiltersFormat;
  Ok (filters ++ [MkOIDFilter oid values], filterList).

Definition OIDFilters_Unmarshal (data : list Z) : res dtls_error (list OIDFilter) :=
  val ← read_type OIDFiltersTypeValue data;
  '(extData, _) ← or_err (ReadPrefixed 2 val) ErrBufferTooSmall;
  '(filterList, extData) ← or_err (ReadPrefixed 2 extData) ErrLengthMismatch;
  _ ← guard (negb (nonempty extData)) ErrLengthMismatch;
  for_nonempty filter_entry [] filterList.

(** ** extension.go *)

(** The method [Marshal] of each type. *)
Definition Ext_Marshal (e : Extension) : res dtls_error (list Z) :=
  match e with
  | ServerName n => ServerName_Marshal n
  | SupportedEllipticCurves cs => SupportedEllipticCurves_Marshal cs
  | SupportedPointFormats fs => SupportedPointFormats_Marshal fs
  | SupportedSignatureAlgorithms l => SupportedSignatureAlgorithms_Marshal l
  | SignatureAlgorithmsCert l => SignatureAlgorithmsCert_Marshal l
  | UseSRTP ps mki => UseSRTP_Marshal ps mki
  | ALPN ps => ALPN_Marshal ps
  | UseExtendedMasterSecret b => UseExtendedMasterSecret_Marshal b
  | RenegotiationInfo c => RenegotiationInfo_Marshal c
  | ConnectionID c => ConnectionID_Marshal c
  | SupportedVersions vs b => SupportedVersions_Marshal vs b
  | KeyShare k => KeyShare_Marshal k
  | CookieExt c => CookieExt_Marshal c
  | PskKeyExchangeModes ms => PskKeyExchangeModes_Marshal ms
  | PreSharedKey p => PreSharedKey_Marshal p
  | EarlyDataIndication m => EarlyDataIndication_Marshal m
  | CertificateAuthorities l => CertificateAuthorities_Marshal l
  | OIDFilters l => OIDFilters_Marshal l
  | PostHandshakeAuth b => PostHandshakeAuth_Marshal b
  end.

(** The switch over the type: an unknown type is [None]. *)
Definition unmarshal_known (t : Z) (data : list Z) : option (res dtls_error Extension) :=
  if t =? ServerNameTypeValue then Some (n ← ServerName_Unmarshal data; Ok (ServerName n))
  else if t =? SupportedEllipticCurvesTypeValue then
    Some (l ← SupportedEllipticCurves_Unmarshal data; Ok (SupportedEllipticCurves l))
  else if t =? SupportedPointFormatsTypeValue then
    Some (l ← SupportedPointFormats_Unmarshal data; Ok (SupportedPointFormats l))
  else if t =? SupportedSignatureAlgorithmsTypeValue then
    Some (l ← SupportedSignatureAlgorithms_Unmarshal data; Ok (SupportedSignatureAlgorithms l))
  else if t =? SignatureAlgorithmsCertTypeValue then
    Some (l ← SignatureAlgorithmsCert_Unmarshal data; Ok (SignatureAlgorithmsCert l))
  else if t =? UseSRTPTypeValue then Some ('(ps, mki) ← UseSRTP_Unmarshal data; Ok (UseSRTP ps mki))
  else if t =? ALPNTypeValue then Some (l ← ALPN_Unmarshal data; Ok (ALPN l))
  else if t =? UseExtendedMasterSecretTypeValue then
    Some (b ← UseExtendedMasterSecret_Unmarshal data; Ok (UseExtendedMasterSecret b))
  else if t =? RenegotiationInfoTypeValue then Some (c ← RenegotiationInfo_Unmarshal data; Ok (RenegotiationInfo c))
  else if t =? ConnectionIDTypeValue then Some (c ← ConnectionID_Unmarshal data; Ok (ConnectionID c))
  else if t =? SupportedVersionsTypeValue then
    Some ('(vs, b) ← SupportedVersions_Unmarshal data; Ok (SupportedVersions vs b))
  else if t =? KeyShareTypeValue then Some (k ← KeyShare_Unmarshal data; Ok (KeyShare k))
  else if t =? CookieTypeValue then Some (c ← CookieExt_Unmarshal data; Ok (CookieExt c))
  else if t =? PskKeyExchangeModesTypeValue then
    Some (l ← PskKeyExchangeModes_Unmarshal data; Ok (PskKeyExchangeModes l))
  else if t =? PreSharedKeyValue then Some (p ← PreSharedKey_Unmarshal data; Ok (PreSharedKey p))
  else None.

(** Each round moves on by at least four bytes, so that the length is enough fuel. *)
Fixpoint Unmarshal_loop (fuel : nat) (buf : list Z) (offset : Z) (extensions : list Extension)
    : res dtls_error (list Extension) :=
  if negb (offset <? len buf) then Ok extensions else
  match fuel with
  | O => Panic
  | S fuel =>
      bufView ← slice_from buf offset;
      if len bufView <? 2 then Err ErrBufferTooSmall else
      t ← Uint16 bufView;
      extensions ← match unmarshal_known t bufView with
                   | Some r => e ← r; Ok (extensions ++ [e])
                   | None => Ok extensions
                   end;
      if len bufView <? 4 then Err ErrBufferTooSmall else
      d ← slice_from bufView 2;
      extensionLength ← Uint16 d;
      Unmarshal_loop fuel buf (offset + (4 + extensionLength)) extensions
  end.

Definition Unmarshal (buf : list Z) : res dtls_error (list Extension) :=
  if len buf =? 0 then Ok [] else
  if len buf <? 2 then Err ErrBufferTooSmall else
  declaredLen ← Uint16 buf;
  if negb (len buf - 2 =? declaredLen) then Err ErrLengthMismatch else
  Unmarshal_loop (length buf) buf 2 [].

Fixpoint Marshal_loop (es : list Extension) : res dtls_error (list Z) :=
  match es with
  | [] => Ok []
  | e :: es =>
      raw ← Ext_Marshal e;
      rest ← Marshal_loop es;
      Ok (raw ++ rest)
  end.

Definition Marshal (es : list Extension) : res dtls_error (list Z) :=
  extensions ← Marshal_loop es;
  Ok (be_put 2 (u16 (len extensions)) ++ extensions).

(** The types that the switch does not have are read by their own [Unmarshal]. *)
Definition unmarshal_as (t : Z) (data : list Z) : res dtls_error Extension :=
  match unmarshal_known t data with
  | Some r => r
  | None =>
      if t =? EarlyDataIndicationTypeValue then m ← EarlyDataIndication_Unmarshal data; Ok (EarlyDataIndication m)
      else if t =? CertificateAuthoritiesTypeValue then
        l ← CertificateAuthorities_Unmarshal data; Ok (CertificateAuthorities l)
      else if t =? OIDFiltersTypeValue then l ← OIDFilters_Unmarshal data; Ok (OIDFilters l)
      else if t =? PostHandshakeAuthTypeValue then b ← PostHandshakeAuth_Unmarshal data; Ok (PostHandshakeAuth b)
      else Err ErrInvalidExtensionType
  end.

(** ** Wire format *)

(** A vector with a length of [n] bytes. *)
Definition vec (n : nat) (l : list Z) : list Z := be_put n (len l) ++ l.

Definition version_bytes (v : Version) : list Z := [Major v; Minor v].
Definition share_bytes (e : KeyShareEntry) : list Z := be_put 2 (ks_Group e) ++ vec 2 (ks_KeyExchange e).
Definition identity_bytes (i : PskIdentity) : list Z := vec 2 (Identity i) ++ be_put 4 (ObfuscatedTicketAge i).
Definition filter_bytes (f : OIDFilter) : list Z := vec 1 (OID f) ++ vec 2 (Values f).

(** The body of an extension, as the RFCs define it. *)
Definition ext_body (e : Extension) : list Z :=
  match e with
  | ServerName n => vec 2 ([serverNameTypeDNSHostName] ++ vec 2 n)
  | SupportedEllipticCurves cs => vec 2 (concat (be_put 2 <$> cs))
  | SupportedPointFormats fs => vec 1 fs
  | SupportedSignatureAlgorithms l | SignatureAlgorithmsCert l => vec 2 (concat (Algorithm_Marshal <$> l))
  | UseSRTP ps mki => vec 2 (concat (be_put 2 <$> ps)) ++ vec 1 mki
  | ALPN ps => vec 2 (concat (vec 1 <$> ps))
  | UseExtendedMasterSecret _ | PostHandshakeAuth _ => []
  | RenegotiationInfo c => [c]
  | ConnectionID c => vec 1 c
  | SupportedVersions vs true => concat (version_bytes <$> vs)
  | SupportedVersions vs false => vec 1 (concat (version_bytes <$> vs))
  | KeyShare (MkKeyShare _ _ (Some g)) => be_put 2 g
  | KeyShare (MkKeyShare _ (Some e) None) => share_bytes e
  | KeyShare (MkKeyShare l None None) => vec 2 (concat (share_bytes <$> default [] l))
  | CookieExt c => vec 2 c
  | PskKeyExchangeModes ms => vec 1 ms
  | PreSharedKey (MkPreSharedKey [] _ selected) => be_put 2 selected
  | PreSharedKey (MkPreSharedKey ids bs _) => vec 2 (concat (identity_bytes <$> ids)) ++ vec 2 (concat (vec 1 <$> bs))
  | EarlyDataIndication None => []
  | EarlyDataIndication (Some m) => be_put 4 m
  | CertificateAuthorities l => vec 2 (concat (vec 2 <$> l))
  | OIDFilters l => vec 2 (concat (filter_bytes <$> l))
  end.

(** The extensions that the code can send and understand. *)
Definition ext_values_ok (e : Extension) : Prop :=
  match e with
  | ServerName n => n ≠ [] ∧ ends_with_dot n = false
  | SupportedEllipticCurves cs => Forall (λ c, Curves c = true) cs
  | SupportedPointFormats fs => Forall (λ f, f = CurvePointFormatUncompressed) fs ∧ len fs ≤ 255
  | SupportedSignatureAlgorithms l | SignatureAlgorithmsCert l => Forall valid_algorithm l
  | UseSRTP ps mki => Forall (λ p, srtpProtectionProfiles p = true) ps ∧ len mki ≤ 255
  | ALPN ps => ps ≠ [] ∧ Forall (λ p, 1 ≤ len p ≤ 255) ps
  | UseExtendedMasterSecret b | PostHandshakeAuth b => b = true
  | RenegotiationInfo c => True
  | ConnectionID c => len c ≤ 255
  | SupportedVersions vs selected =>
      1 ≤ len vs ≤ 127 ∧ Forall (λ v, IsValidVersion v = true) vs ∧ (selected = true → len vs = 1)
  | KeyShare (MkKeyShare cs None None) => cs ≠ Some [] ∧
      let l := default [] cs in NoDup (ks_Group <$> l) ∧ Forall (λ e, is_u16 (ks_Group e) ∧ 1 ≤ len (ks_KeyExchange e)) l
  | KeyShare (MkKeyShare None (Some e) None) =>
      is_u16 (ks_Group e) ∧ 1 ≤ len (ks_KeyExchange e) ∧ ks_Group e ≠ 2 + len (ks_KeyExchange e)
  | KeyShare (MkKeyShare None None (Some g)) => Curves g = true
  | KeyShare _ => False
  | CookieExt c => c ≠ []
  | PskKeyExchangeModes ms => 1 ≤ len ms ≤ 255 ∧ Forall is_byte ms
  | PreSharedKey (MkPreSharedKey [] [] selected) => is_u16 selected
  | PreSharedKey (MkPreSharedKey ids bs selected) => len ids = len bs ∧ selected = 0 ∧
      Forall (λ i, 1 ≤ len (Identity i) ∧ is_u32 (ObfuscatedTicketAge i)) ids ∧ Forall (λ b, 32 ≤ len b ≤ 255) bs
  | EarlyDataIndication m => match m with Some v => is_u32 v | None => True end
  | CertificateAuthorities l => l ≠ [] ∧ Forall (λ c, 1 ≤ len c) l
  | OIDFilters l => NoDup (OID <$> l) ∧ Forall (λ f, 1 ≤ len (OID f) ≤ 255) l
  end.

Definition ext_ok (e : Extension) : Prop := ext_values_ok e ∧ len (ext_body e) < 2 ^ 16.

(** ** Lemmas: writing *)

Context {laws : CryptobyteLaws}.

Lemma len_vec n l : len (vec n l) = Z.of_nat n + len l.
Proof. unfold vec. by rewrite len_app, len_be_put. Qed.

Lemma len_concat_elem {A} (enc : A → list Z) l a : a ∈ l → len (enc a) ≤ len (concat (enc <$> l)).
Proof.
  induction 1 as [a l|a b l _ IH]; rewrite fmap_cons; cbn [concat]; rewrite len_app.
  - pose proof (len_nonneg (concat (enc <$> l))). lia.
  - pose proof (len_nonneg (enc b)). lia.
Qed.

Lemma len_concat_const {A} (enc : A → list Z) n l : (∀ a, len (enc a) = n) → len (concat (enc <$> l)) = n * len l.
Proof.
  intros He. induction l as [|a l IH]; [unfold len; cbn; lia|]. rewrite fmap_cons. cbn [concat]. rewrite len_app, len_cons, He, IH. lia.
Qed.

Lemma Bytes_vec n b f r c : Bytes b = Ok r → Bytes (f NewBuilder) = Ok c → len c < 2 ^ (8 * Z.of_nat n) →
  Bytes (AddPrefixed n b f) = Ok (r ++ vec n c).
Proof. apply Bytes_AddPrefixed_Ok. Qed.

Lemma Bytes_bytes l : Bytes (AddBytes NewBuilder l) = Ok l.
Proof. by rewrite (Bytes_AddBytes_Ok _ _ []) by apply Bytes_New. Qed.

Lemma Bytes_ext t f body : Bytes (f NewBuilder) = Ok body → len body < 2 ^ 16 →
  Bytes (AddPrefixed 2 (AddUint 2 NewBuilder t) f) = Ok (be_put 2 t ++ vec 2 body).
Proof. intros Hf Hl. by rewrite (Bytes_vec 2 _ _ (be_put 2 t) body) by (try apply (Bytes_AddUint_Ok 2 _ _ []), Bytes_New; done). Qed.

(** A list of items, each added by [add] and encoded as [enc]. *)
Lemma Bytes_list {A} (add : Builder → A → Builder) (enc : A → list Z) l :
  (∀ b r a, Bytes b = Ok r → a ∈ l → Bytes (add b a) = Ok (r ++ enc a)) →
  Bytes (foldl add NewBuilder l) = Ok (concat (enc <$> l)).
Proof. intros Hadd. by rewrite (Bytes_fold add enc l NewBuilder [] Hadd Bytes_New). Qed.

Lemma Bytes_add_vec n (l : list Z) b r : Bytes b = Ok r → len l < 2 ^ (8 * Z.of_nat n) →
  Bytes (AddPrefixed n b (λ b, AddBytes b l)) = Ok (r ++ vec n l).
Proof. intros Hb Hl. apply Bytes_vec; [done|apply Bytes_bytes|done]. Qed.

Lemma ServerName_Marshal_ok n : ext_ok (ServerName n) →
  ServerName_Marshal n = Ok (be_put 2 ServerNameTypeValue ++ vec 2 (ext_body (ServerName n))).
Proof.
  intros [_ Hl]. cbn [ext_body] in *. pose proof Hl as Hl'. rewrite len_vec, len_app, len_vec in Hl'.
  change (len [serverNameTypeDNSHostName]) with 1 in Hl'.
  apply Bytes_ext; [|done]. apply (Bytes_vec 2 _ _ []); [apply Bytes_New| |].
  - apply Bytes_add_vec; [|cbn; lia]. by rewrite (Bytes_AddUint_Ok 1 _ _ []) by apply Bytes_New.
  - rewrite len_app, len_vec. change (len [serverNameTypeDNSHostName]) with 1. cbn. lia.
Qed.

(** Extensions whose body is one vector of items, or one vector of bytes. *)
Lemma Bytes_ext_list {A} t n (add : Builder → A → Builder) (enc : A → list Z) l :
  (∀ b r a, Bytes b = Ok r → a ∈ l → Bytes (add b a) = Ok (r ++ enc a)) →
  len (concat (enc <$> l)) < 2 ^ (8 * Z.of_nat n) → len (vec n (concat (enc <$> l))) < 2 ^ 16 →
  Bytes (AddPrefixed 2 (AddUint 2 NewBuilder t) (λ b, AddPrefixed n b (λ b, foldl add b l))) =
  Ok (be_put 2 t ++ vec 2 (vec n (concat (enc <$> l)))).
Proof.
  intros Hadd Hn Hl. apply Bytes_ext; [|done]. apply (Bytes_vec n _ _ []); [apply Bytes_New|by apply Bytes_list|done].
Qed.

Lemma Bytes_ext_bytes t n l : len l < 2 ^ (8 * Z.of_nat n) → len (vec n l) < 2 ^ 16 →
  Bytes (AddPrefixed 2 (AddUint 2 NewBuilder t) (λ b, AddPrefixed n b (λ b, AddBytes b l))) =
  Ok (be_put 2 t ++ vec 2 (vec n l)).
Proof.
  intros Hn Hl. apply Bytes_ext; [|done]. by apply (Bytes_add_vec n l _ []); [apply Bytes_New|].
Qed.

Lemma signature_Marshal_ok t l : len (vec 2 (concat (Algorithm_Marshal <$> l))) < 2 ^ 16 →
  marshalGenericSignatureHashAlgorithm t l = Ok (be_put 2 t ++ vec 2 (vec 2 (concat (Algorithm_Marshal <$> l)))).
Proof.
  intros Hl. apply Bytes_ext_list; [|by rewrite len_vec in Hl; cbn; lia|done].
  intros b r a Hb _. by apply Bytes_AddBytes_Ok.
Qed.

Lemma ALPN_Marshal_ok ps : ext_ok (ALPN ps) → ALPN_Marshal ps = Ok (be_put 2 ALPNTypeValue ++ vec 2 (ext_body (ALPN ps))).
Proof.
  intros [[_ Hps] Hl]. cbn [ext_body] in *. apply Bytes_ext_list; [|by rewrite len_vec in Hl; cbn; lia|done].
  intros b r p Hb Hp. apply Bytes_add_vec; [done|]. rewrite Forall_forall in Hps. specialize (Hps p Hp). cbn. lia.
Qed.

Lemma SupportedVersions_Marshal_ok vs sel : ext_ok (SupportedVersions vs sel) →
  SupportedVersions_Marshal vs sel = Ok (be_put 2 SupportedVersionsTypeValue ++ vec 2 (ext_body (SupportedVersions vs sel))).
Proof.
  intros [(Hlen & Hval & Hsel) Hl]. unfold SupportedVersions_Marshal.
  destruct (Z.eqb_spec (len vs) 0); [lia|].
  assert (selected_ok : sel && negb (len vs =? 1) = false).
  { destruct sel; [|done]. by rewrite (Hsel eq_refl). }
  rewrite selected_ok. destruct (Z.ltb_spec (len vs * 2) 2); [lia|]. destruct (Z.ltb_spec 254 (len vs * 2)); [lia|].
  cbn [orb]. assert (forallb IsValidVersion vs = true) as ->.
  { apply forallb_forall. intros v Hv%list_elem_of_In. rewrite Forall_forall in Hval. by apply Hval. }
  cbn [negb]. set (add := λ b v, AddUint 1 (AddUint 1 b (Major v)) (Minor v)).
  assert (∀ v, IsValidVersion v = true → version_bytes v = be_put 1 (Major v) ++ be_put 1 (Minor v)) as Hvb.
  { intros v Hv. unfold IsValidVersion in Hv. rewrite !orb_true_iff, !Version_Equal_spec in Hv. by destruct Hv as [[->| ->]| ->]. }
  rewrite Forall_forall in Hval.
  assert (∀ b r v, Bytes b = Ok r → v ∈ vs → Bytes (add b v) = Ok (r ++ version_bytes v)) as Hadd.
  { intros b r v Hb Hv. rewrite Hvb by (by apply Hval). rewrite (assoc_L (++)). by apply Bytes_AddUint_Ok, Bytes_AddUint_Ok. }
  destruct sel; cbn [ext_body] in *.
  - apply Bytes_ext; [|done]. specialize (Hsel eq_refl). destruct vs as [|v [|? vs]]; [done| |].
    + apply (Hadd NewBuilder [] v); [apply Bytes_New|by left].
    + rewrite !len_cons in Hsel. pose proof (len_nonneg vs). lia.
  - apply Bytes_ext_list; [done| |done]. rewrite (len_concat_const _ 2) by done. cbn. lia.
Qed.

Lemma client_shares_ok cs : ext_values_ok (KeyShare (MkKeyShare cs None None)) → cs ≠ Some [] ∧
  NoDup (ks_Group <$> default [] cs) ∧ Forall (λ e, is_u16 (ks_Group e) ∧ 1 ≤ len (ks_KeyExchange e)) (default [] cs).
Proof. by destruct cs. Qed.

Lemma check_shares_ok seen l : (∀ g, g ∈ seen → g ∉ ks_Group <$> l) → NoDup (ks_Group <$> l) →
  Forall (λ e, 1 ≤ len (ks_KeyExchange e) ≤ 0xffff) l → check_shares seen l = Ok tt.
Proof.
  intros Hseen Hnd Hl. revert seen Hseen. induction Hl as [|e l He Hl IH]; intros seen Hseen; [done|].
  rewrite fmap_cons in *. apply NoDup_cons in Hnd as [Hn Hnd]. cbn [check_shares].
  destruct (elem (ks_Group e) seen) eqn:Ee.
  { apply elem_spec in Ee. destruct (Hseen _ Ee). by left. }
  unfold bad_key_length. destruct (Z.eqb_spec (len (ks_KeyExchange e)) 0); [lia|].
  destruct (Z.ltb_spec 0xffff (len (ks_KeyExchange e))); [lia|]. cbn [orb]. apply IH; [done|].
  intros g [->|Hg]%elem_of_cons; [done|]. intros Hin. apply (Hseen g Hg). by right.
Qed.

Lemma len_share_bytes e : len (share_bytes e) = 4 + len (ks_KeyExchange e).
Proof. unfold share_bytes. rewrite len_app, len_be_put, len_vec. lia. Qed.

Lemma addKeyShareEntry_ok b r e : Bytes b = Ok r → len (share_bytes e) < 2 ^ 16 →
  Bytes (addKeyShareEntry b e) = Ok (r ++ share_bytes e).
Proof.
  intros Hb Hl. rewrite len_share_bytes in Hl. unfold share_bytes. rewrite (assoc_L (++)).
  apply Bytes_add_vec; [by apply Bytes_AddUint_Ok|cbn; lia].
Qed.

Lemma KeyShare_Marshal_ok k : ext_ok (KeyShare k) →
  KeyShare_Marshal k = Ok (be_put 2 KeyShareTypeValue ++ vec 2 (ext_body (KeyShare k))).
Proof.
  intros [Hv Hl]. destruct k as [cs [e|] [g|]]; try (by destruct cs); unfold KeyShare_Marshal;
    cbn [ClientShares ServerShare SelectedGroup].
  - destruct cs; [done|]. destruct Hv as (Hg & He & _). cbn [ext_body] in *. rewrite len_share_bytes in Hl.
    change (hasTooManyContexts _ _ _) with false. cbn [check_shares mbind res_bind].
    unfold bad_key_length. destruct (Z.eqb_spec (len (ks_KeyExchange e)) 0); [lia|].
    destruct (Z.ltb_spec 0xffff (len (ks_KeyExchange e))); [lia|]. cbn [orb negb guard mbind res_bind].
    apply Bytes_ext; [|by rewrite len_share_bytes].
    apply (addKeyShareEntry_ok NewBuilder []); [apply Bytes_New|by rewrite len_share_bytes].
  - destruct cs; [done|]. change (hasTooManyContexts _ _ _) with false. cbn [check_shares mbind res_bind].
    apply Bytes_ext; [|done]. by apply (Bytes_AddUint_Ok 2 _ _ []), Bytes_New.
  - apply client_shares_ok in Hv as (Hne & Hnd & Hes). cbn [ext_body] in *. rewrite Forall_forall in Hes.
    assert (∀ e, e ∈ default [] cs → len (share_bytes e) < 2 ^ 16 - 2) as Hle.
    { intros e He. pose proof (len_concat_elem share_bytes _ e He). rewrite len_vec in Hl. lia. }
    change (match cs with Some l => l | None => [] end) with (default [] cs).
    assert (hasTooManyContexts (bool_decide (is_Some cs)) false false = false) as E
      by (unfold hasTooManyContexts; by rewrite !andb_false_r).
    assert (bool_decide (is_Some (@None KeyShareEntry)) = false ∧ bool_decide (is_Some (@None Z)) = false) as [-> ->] by done.
    rewrite E. rewrite check_shares_ok; [|by intros ? ?%elem_of_nil|done|].
    + cbn [mbind res_bind]. apply Bytes_ext_list; [|by rewrite len_vec in Hl; cbn; lia|done].
      intros b r e Hb He. apply addKeyShareEntry_ok; [done|]. specialize (Hle e He). lia.
    + apply Forall_forall. intros e He. specialize (Hle e He). rewrite len_share_bytes in Hle.
      destruct (Hes e He). lia.
Qed.

Lemma len_identity_bytes i : len (identity_bytes i) = 6 + len (Identity i).
Proof. unfold identity_bytes. rewrite len_app, len_be_put, len_vec. lia. Qed.

Lemma psk_client_ok p : ext_values_ok (PreSharedKey p) → Identities p ≠ [] →
  len (Identities p) = len (Binders p) ∧ SelectedIdentity p = 0 ∧
  Forall (λ i, 1 ≤ len (Identity i) ∧ is_u32 (ObfuscatedTicketAge i)) (Identities p) ∧
  Forall (λ b, 32 ≤ len b ≤ 255) (Binders p).
Proof. by destruct p as [[|i ids] bs sel]. Qed.

Lemma PreSharedKey_Marshal_ok p : ext_ok (PreSharedKey p) →
  PreSharedKey_Marshal p = Ok (be_put 2 PreSharedKeyValue ++ vec 2 (ext_body (PreSharedKey p))).
Proof.
  intros [Hv Hl]. unfold PreSharedKey_Marshal. destruct (decide (Identities p = [])) as [Hid|Hid].
  { destruct p as [ids bs sel]. cbn in Hid. subst ids. cbn [Identities orb]. change (len [] =? 0) with true. cbn [orb].
    apply Bytes_ext; [|done]. by apply (Bytes_AddUint_Ok 2 _ _ []), Bytes_New. }
  destruct (psk_client_ok p Hv Hid) as (Hlen & Hsel & Hids & Hbs). clear Hv.
  destruct p as [ids bs sel]. cbn [Identities Binders SelectedIdentity] in *.
  assert (ext_body (PreSharedKey (MkPreSharedKey ids bs sel)) =
    vec 2 (concat (identity_bytes <$> ids)) ++ vec 2 (concat (vec 1 <$> bs))) as E by (by destruct ids).
  rewrite E in *. clear E. pose proof Hl as Hl'. rewrite len_app, !len_vec in Hl'.
  pose proof (len_nonneg (concat (identity_bytes <$> ids))). pose proof (len_nonneg (concat (vec 1 <$> bs))).
  assert (0 < len ids) by (destruct ids; [done|]; rewrite len_cons; pose proof (len_nonneg ids); lia).
  destruct (Z.eqb_spec (len ids) 0); [lia|]. destruct (Z.eqb_spec (len bs) 0); [lia|]. cbn [orb].
  rewrite Forall_forall in Hids. rewrite Forall_forall in Hbs.
  apply Bytes_ext; [|done]. apply Bytes_vec.
  - apply (Bytes_vec 2 _ _ []); [apply Bytes_New| |cbn; lia].
    apply Bytes_list. intros b r i Hb Hi. pose proof (len_concat_elem identity_bytes _ i Hi) as Hle.
    rewrite len_identity_bytes in Hle. destruct (Hids i Hi) as [Hi1 _]. unfold add_identity, identity_bytes.
    destruct (Z.eqb_spec (len (Identity i)) 0); [lia|]. rewrite (assoc_L (++)).
    apply Bytes_AddUint_Ok, Bytes_add_vec; [done|cbn; lia].
  - apply Bytes_list. intros b r x Hb Hx. specialize (Hbs x Hx). unfold add_binder, minPSKBinderSize.
    destruct (Z.ltb_spec (len x) 32); [lia|]. apply Bytes_add_vec; [done|cbn; lia].
  - cbn. lia.
Qed.

Lemma add_authorities_ok b r l : Bytes b = Ok r → Forall (λ c, 1 ≤ len c < 2 ^ 16) l →
  Bytes (add_authorities b l) = Ok (r ++ concat (vec 2 <$> l)).
Proof.
  intros Hb Hl. revert b r Hb. induction Hl as [|c l Hc Hl IH]; intros b r Hb; [by rewrite app_nil_r|].
  cbn [add_authorities]. destruct (Z.ltb_spec (len c) 1); [lia|]. rewrite fmap_cons. cbn [concat]. rewrite (assoc_L (++)).
  apply IH, Bytes_add_vec; [done|cbn; lia].
Qed.

Lemma CertificateAuthorities_Marshal_ok l : ext_ok (CertificateAuthorities l) → CertificateAuthorities_Marshal l =
  Ok (be_put 2 CertificateAuthoritiesTypeValue ++ vec 2 (ext_body (CertificateAuthorities l))).
Proof.
  intros [[Hne Hl] Hlen]. unfold CertificateAuthorities_Marshal. cbn [ext_body] in *.
  assert (0 < len l) by (destruct l; [done|]; rewrite len_cons; pose proof (len_nonneg l0); lia).
  destruct (Z.ltb_spec (len l) 1); [lia|].
  apply Bytes_ext; [|done]. apply (Bytes_vec 2 _ _ []); [apply Bytes_New| |by rewrite len_vec in Hlen; cbn; lia].
  apply (add_authorities_ok _ []); [apply Bytes_New|]. rewrite Forall_forall in Hl. apply Forall_forall. intros c Hc.
  pose proof (len_concat_elem (vec 2) _ c Hc) as Hle. rewrite !len_vec in *. specialize (Hl c Hc). lia.
Qed.

Lemma len_filter_bytes f : len (filter_bytes f) = 3 + len (OID f) + len (Values f).
Proof. unfold filter_bytes. rewrite len_app, !len_vec. lia. Qed.

Lemma add_filters_ok seen b r l : Bytes b = Ok r → (∀ o, o ∈ seen → o ∉ OID <$> l) → NoDup (OID <$> l) →
  Forall (λ f, 1 ≤ len (OID f) ≤ 255 ∧ len (Values f) < 2 ^ 16) l →
  Bytes (add_filters seen b l) = Ok (r ++ concat (filter_bytes <$> l)).
Proof.
  intros Hb Hseen Hnd Hl. revert seen b r Hb Hseen. induction Hl as [|f l [Ho Hv] Hl IH]; intros seen b r Hb Hseen.
  { by rewrite app_nil_r. }
  rewrite fmap_cons in *. apply NoDup_cons in Hnd as [Hn Hnd]. cbn [add_filters concat].
  destruct (Z.ltb_spec (len (OID f)) 1); [lia|]. unfold seen_oid. rewrite bool_decide_eq_false_2.
  2: { intros Hin. apply (Hseen _ Hin). by left. }
  rewrite (assoc_L (++)). apply IH; [done| |].
  - unfold filter_bytes. rewrite (assoc_L (++)). apply Bytes_add_vec; [|cbn; lia]. apply Bytes_add_vec; [done|cbn; lia].
  - intros o [->|Hin]%elem_of_cons; [done|]. intros Hin'. apply (Hseen _ Hin). by right.
Qed.

Lemma OIDFilters_Marshal_ok l : ext_ok (OIDFilters l) →
  OIDFilters_Marshal l = Ok (be_put 2 OIDFiltersTypeValue ++ vec 2 (ext_body (OIDFilters l))).
Proof.
  intros [[Hnd Hl] Hlen]. unfold OIDFilters_Marshal. cbn [ext_body] in *.
  apply Bytes_ext; [|done]. apply (Bytes_vec 2 _ _ []); [apply Bytes_New| |by rewrite len_vec in Hlen; cbn; lia].
  apply (add_filters_ok [] _ []); [apply Bytes_New|by intros ? ?%elem_of_nil|done|].
  rewrite Forall_forall in Hl. apply Forall_forall. intros f Hf.
  pose proof (len_concat_elem filter_bytes _ f Hf) as Hle. rewrite len_filter_bytes in Hle. rewrite len_vec in Hlen.
  specialize (Hl f Hf). pose proof (len_nonneg (OID f)). lia.
Qed.

Lemma UseSRTP_Marshal_ok ps mki : ext_ok (UseSRTP ps mki) →
  UseSRTP_Marshal ps mki = Ok (be_put 2 UseSRTPTypeValue ++ vec 2 (ext_body (UseSRTP ps mki))).
Proof.
  intros [[_ Hm] Hl]. unfold UseSRTP_Marshal. cbn [ext_body] in *. pose proof Hl as Hl'. rewrite len_app, !len_vec in Hl'.
  rewrite (len_concat_const _ 2) in Hl' by (intros; apply len_be_put).
  destruct (Z.ltb_spec 255 (len mki)); [lia|]. unfold maxUint16.
  destruct (Z.ltb_spec (2 ^ 16 - 1) (2 + len ps * 2 + 1 + len mki)); [lia|].
  unfold vec at 1. rewrite len_app, !len_vec, (len_concat_const _ 2) by (intros; apply len_be_put).
  unfold u16, u8. pose proof (len_nonneg ps). pose proof (len_nonneg mki). rewrite !Z.mod_small by lia.
  unfold vec. rewrite (len_concat_const _ 2) by (intros; apply len_be_put). rewrite <- !(assoc_L (++)).
  assert (be_put 1 (len mki) = [len mki]) as -> by (cbn [be_put app]; by rewrite Z.mod_small by lia).
  replace (Z.of_nat 2 + 2 * len ps + (Z.of_nat 1 + len mki)) with (2 + len ps * 2 + 1 + len mki) by lia.
  by rewrite (Z.mul_comm 2).
Qed.

Lemma concat_bytes (l : list Z) : Forall is_byte l → concat (be_put 1 <$> l) = l.
Proof.
  induction 1 as [|x l Hx Hl IH]; [done|]. rewrite fmap_cons. cbn [concat]. rewrite IH.
  cbn [be_put app]. unfold is_byte in Hx. by rewrite Z.mod_small by lia.
Qed.

Lemma map_u8_formats fs : Forall (λ f, f = CurvePointFormatUncompressed) fs → map u8 fs = fs.
Proof. induction 1 as [|f fs -> _ IH]; [done|]. cbn [map]. by rewrite IH. Qed.

Lemma Ext_Marshal_ok e : ext_ok e → Ext_Marshal e = Ok (be_put 2 (TypeValue e) ++ vec 2 (ext_body e)).
Proof.
  intros He. destruct e as [n|cs|fs|l|l|ps mki|ps|b|c|c|vs b|k|c|ms|p|m|l|l|b]; cbn [Ext_Marshal TypeValue].
  - by apply ServerName_Marshal_ok.
  - destruct He as [_ Hl]. cbn [ext_body] in *. unfold SupportedEllipticCurves_Marshal, vec at 1. rewrite len_vec in *.
    rewrite (len_concat_const _ 2) in * by (intros; apply len_be_put). pose proof (len_nonneg cs).
    unfold u16. rewrite !Z.mod_small by lia. unfold vec. rewrite (len_concat_const _ 2) by (intros; apply len_be_put).
    rewrite Z.mul_comm. done.
  - destruct He as [[Hf Hn] _]. unfold SupportedPointFormats_Marshal. cbn [ext_body]. pose proof (len_nonneg fs).
    destruct (Z.ltb_spec 255 (len fs)); [lia|].
    rewrite (map_u8_formats fs Hf).
    unfold vec. rewrite len_app, len_be_put. assert (be_put 1 (len fs) = [len fs]) as ->
      by (cbn [be_put app]; by rewrite Z.mod_small by lia).
    unfold u16, u8. by rewrite !Z.mod_small by lia.
  - by apply signature_Marshal_ok, He.
  - by apply signature_Marshal_ok, He.
  - by apply UseSRTP_Marshal_ok.
  - by apply ALPN_Marshal_ok.
  - by destruct He as [-> _].
  - done.
  - destruct He as [Hc Hl]. apply Bytes_ext_bytes; [cbn in *; lia|done].
  - by apply SupportedVersions_Marshal_ok.
  - by apply KeyShare_Marshal_ok.
  - destruct He as [Hc Hl]. unfold CookieExt_Marshal, maxCookieSize. cbn [ext_body] in *. pose proof Hl as Hl'. rewrite len_vec in Hl'.
    assert (len c ≠ 0) by (intros ?%len_zero_nil; done).
    destruct (Z.eqb_spec (len c) 0); [done|]. destruct (Z.ltb_spec (0xffff - 2) (len c)); [lia|]. cbn [orb].
    apply Bytes_ext_bytes; [cbn; lia|done].
  - destruct He as [[Hn Hb] Hl]. unfold PskKeyExchangeModes_Marshal. cbn [ext_body] in *.
    destruct (Z.eqb_spec (len ms) 0); [lia|].
    pose proof (Bytes_ext_list PskKeyExchangeModesTypeValue 1 (AddUint 1) (be_put 1) ms) as HB.
    rewrite concat_bytes in HB by done. apply HB; [|cbn; lia|done]. intros b r a Hr _. by apply Bytes_AddUint_Ok.
  - by apply PreSharedKey_Marshal_ok.
  - destruct He as [Hm Hl]. destruct m as [m|]; cbn [ext_body EarlyDataIndication_Marshal].
    + apply Bytes_ext; [|done]. by apply (Bytes_AddUint_Ok 4 _ _ []), Bytes_New.
    + unfold EarlyDataIndication_Marshal. rewrite (Bytes_AddUint_Ok 2 _ _ (be_put 2 EarlyDataIndicationTypeValue)); [done|].
      by apply (Bytes_AddUint_Ok 2 _ _ []), Bytes_New.
  - by apply CertificateAuthorities_Marshal_ok.
  - by apply OIDFilters_Marshal_ok.
  - by destruct He as [-> _].
Qed.

(** ** Lemmas: reading *)

Lemma read_type_ok t s : is_u16 t → read_type t (be_put 2 t ++ s) = Ok s.
Proof. intros Ht. unfold read_type. rewrite ReadUint_put by done. cbn [or_err mbind res_bind]. by rewrite Z.eqb_refl. Qed.

Lemma read_type_unchecked_ok t s : is_u16 t → read_type_unchecked t (be_put 2 t ++ s) = Ok s.
Proof. intros Ht. unfold read_type_unchecked. rewrite ReadUint_put by done. by rewrite Z.eqb_refl. Qed.

Lemma ReadPrefixed_vec n l s : len l < 2 ^ (8 * Z.of_nat n) → ReadPrefixed n (vec n l ++ s) = Some (l, s).
Proof. intros Hl. unfold vec. rewrite <- (assoc_L (++)). by apply ReadPrefixed_put. Qed.

Lemma ReadPrefixed_vec_nil n l : len l < 2 ^ (8 * Z.of_nat n) → ReadPrefixed n (vec n l) = Some (l, []).
Proof. apply ReadPrefixed_put_nil. Qed.

Lemma nonempty_true l : l ≠ [] → nonempty l = true.
Proof. intros Hl. unfold nonempty. destruct (Z.eqb_spec (len l) 0) as [E|]; [by apply len_zero_nil in E|done]. Qed.

Lemma len_ne (l : list Z) : 0 < len l → l ≠ [].
Proof. by intros Hl ->. Qed.

Lemma vec_ne n l : (0 < n)%nat → vec n l ≠ [].
Proof. intros Hn E. apply (f_equal len) in E. rewrite len_vec in E. pose proof (len_nonneg l). change (len (@nil Z)) with 0 in E. lia. Qed.

Lemma concat_ne {A} (enc : A → list Z) l : l ≠ [] → (∀ a, a ∈ l → enc a ≠ []) → concat (enc <$> l) ≠ [].
Proof.
  intros Hl He. destruct l as [|a l]; [done|]. rewrite fmap_cons. cbn [concat].
  specialize (He a ltac:(by left)). by destruct (enc a).
Qed.

(** A loop that appends what it reads. *)
Lemma for_nonempty_snoc {B} (body : list B → list Z → res dtls_error (list B * list Z)) (enc : B → list Z) (l : list B) :
  (∀ pre b post, l = pre ++ b :: post → enc b ≠ [] ∧ ∀ rest, body pre (enc b ++ rest) = Ok (pre ++ [b], rest)) →
  for_nonempty body [] (concat (enc <$> l)) = Ok l.
Proof.
  intros Hb. assert (∀ pre : list B, foldl (λ acc b, acc ++ [b]) [] pre = pre) as Hf.
  { intros pre. induction pre as [|b pre IH] using rev_ind; [done|]. by rewrite foldl_app, IH. }
  rewrite (for_nonempty_list body enc (λ acc b, acc ++ [b])); [by rewrite Hf|].
  intros pre b post ->. rewrite Hf. by apply (Hb pre b post).
Qed.

(** The frame of an extension that is read with cryptobyte. *)
Ltac read_frame :=
  first [rewrite read_type_ok by done|rewrite read_type_unchecked_ok by done]; cbn [mbind res_bind];
  rewrite ReadPrefixed_vec by done; cbn [or_err mbind res_bind].

Lemma ServerName_Unmarshal_ok n rest : ext_ok (ServerName n) →
  ServerName_Unmarshal (be_put 2 ServerNameTypeValue ++ vec 2 (ext_body (ServerName n)) ++ rest) = Ok n.
Proof.
  intros [[Hne Hdot] Hl]. unfold ServerName_Unmarshal. read_frame. cbn [ext_body] in *.
  pose proof Hl as Hl'. rewrite len_vec, len_app, len_vec in Hl'. change (len [serverNameTypeDNSHostName]) with 1 in Hl'.
  rewrite ReadPrefixed_vec_nil by (rewrite len_app, len_vec; change (len [serverNameTypeDNSHostName]) with 1; cbn; lia).
  cbn [or_err mbind res_bind]. change (nonempty []) with false. rewrite nonempty_true by done.
  cbn [guard negb mbind res_bind]. set (s := [serverNameTypeDNSHostName] ++ vec 2 n).
  assert (ServerName_entry [] s = Ok (n, [])) as He.
  { unfold ServerName_entry, s. cbn [app]. rewrite ReadUint_1. cbn [or_err mbind res_bind].
    rewrite ReadPrefixed_vec_nil by (cbn; lia). cbn [or_err mbind res_bind]. rewrite nonempty_true by done.
    cbn [guard mbind res_bind]. by rewrite Hdot. }
  unfold for_nonempty. destruct (length s) as [|m] eqn:Em; [done|]. rewrite for_loop_step by done. rewrite He. by destruct m.
Qed.

Lemma known_uint16s_ok known l pre rest off : off = len pre → Forall (λ x, is_u16 x ∧ known x = true) l →
  known_uint16s known (length l) off (pre ++ concat (be_put 2 <$> l) ++ rest) = Ok l.
Proof.
  intros -> Hl. revert pre. induction Hl as [|x l [Hx Hk] Hl IH]; intros pre; [done|].
  rewrite fmap_cons. cbn [length known_uint16s concat]. rewrite slice_from_app by done. cbn [mbind res_bind].
  rewrite <- (assoc_L (++)), get_be_put by done. cbn [mbind res_bind].
  specialize (IH (pre ++ be_put 2 x)). rewrite len_app, len_be_put, <- (assoc_L (++)) in IH.
  change (Z.of_nat 2) with 2 in IH. rewrite IH.
  cbn [mbind res_bind]. by rewrite Hk.
Qed.

Lemma Curves_u16 c : Curves c = true → is_u16 c.
Proof. unfold Curves. rewrite !orb_true_iff, !Z.eqb_eq. by intros [[[->| ->]| ->]| ->]. Qed.

Lemma Forall_impl_elem {A} (P Q : A → Prop) l : Forall P l → (∀ x, P x → Q x) → Forall Q l.
Proof. intros Hl HPQ. by eapply Forall_impl. Qed.

Lemma SupportedEllipticCurves_Unmarshal_ok cs rest : ext_ok (SupportedEllipticCurves cs) →
  SupportedEllipticCurves_Unmarshal
    (be_put 2 SupportedEllipticCurvesTypeValue ++ vec 2 (ext_body (SupportedEllipticCurves cs)) ++ rest) = Ok cs.
Proof.
  intros [Hcs Hl]. cbn [ext_body] in *. unfold vec in *. rewrite len_app, len_be_put in *.
  rewrite (len_concat_const _ 2) in * by (intros; apply len_be_put). rewrite <- !(assoc_L (++)).
  change (Z.of_nat 2) with 2 in *. set (n := len cs) in *. assert (0 ≤ n) by apply len_nonneg.
  set (body := concat (be_put 2 <$> cs)). set (data := be_put 2 _ ++ _).
  assert (len data = 6 + 2 * n + len rest) as Hd.
  { unfold data, body. rewrite !len_app, !len_be_put, (len_concat_const _ 2) by (intros; apply len_be_put). unfold n. lia. }
  pose proof (len_nonneg rest). unfold SupportedEllipticCurves_Unmarshal, supportedGroupsHeaderSize.
  destruct (Z.ltb_spec (len data) 6); [lia|].
  assert (slice (E:=dtls_error) data 2 4 = Ok (be_put 2 (2 + 2 * n))) as -> by (by apply slice_mid). cbn [mbind res_bind].
  rewrite <- (app_nil_r (be_put 2 (2 + 2 * n))), get_be_put by (cbn; lia). cbn [mbind res_bind].
  assert (slice_from (E:=dtls_error) data 4 = Ok (be_put 2 (2 * n) ++ body ++ rest)) as ->
    by (unfold data; rewrite (assoc_L (++)); by apply slice_from_app).
  cbn [mbind res_bind]. rewrite get_be_put by (cbn; lia). cbn [mbind res_bind].
  assert (get_be (E:=dtls_error) 2 data = Ok SupportedEllipticCurvesTypeValue) as -> by (by apply get_be_put). cbn [mbind res_bind]. rewrite Z.eqb_refl. cbn [negb].
  replace (2 * n / 2) with n by (rewrite Z.mul_comm, Z.div_mul; lia).
  destruct (Z.ltb_spec (len data - 4) (2 + 2 * n)); [lia|]. destruct (Z.ltb_spec (len data) (6 + n * 2)); [lia|].
  destruct (Z.eqb_spec (n * 2 + 2) (2 + 2 * n)); [|lia]. cbn [negb]. unfold n, len. rewrite Nat2Z.id.
  unfold data. rewrite !(assoc_L (++)), <- (assoc_L (++) _ body). apply known_uint16s_ok; [done|].
  eapply Forall_impl_elem; [done|]. intros c Hc. split; [by apply Curves_u16|done].
Qed.

Lemma point_formats_ok l pre rest off : off = len pre → Forall (λ f, f = CurvePointFormatUncompressed) l →
  point_formats (length l) off (pre ++ l ++ rest) = Ok l.
Proof.
  intros -> Hl. revert pre. induction Hl as [|x l -> Hl IH]; intros pre; [done|]. cbn [length point_formats app].
  rewrite idx_mid by done. cbn [mbind res_bind]. specialize (IH (pre ++ [CurvePointFormatUncompressed])).
  rewrite len_app, <- (assoc_L (++)) in IH. change (len [CurvePointFormatUncompressed]) with 1 in IH.
  cbn [app] in IH. by rewrite IH.
Qed.

Lemma be_put_1 v : is_byte v → be_put 1 v = [v].
Proof. intros Hv. cbn [be_put app]. unfold is_byte in Hv. by rewrite Z.mod_small by lia. Qed.

Lemma SupportedPointFormats_Unmarshal_ok fs rest : ext_ok (SupportedPointFormats fs) →
  SupportedPointFormats_Unmarshal
    (be_put 2 SupportedPointFormatsTypeValue ++ vec 2 (ext_body (SupportedPointFormats fs)) ++ rest) = Ok fs.
Proof.
  intros [[Hfs Hn] _]. cbn [ext_body] in *. unfold vec. rewrite len_app, len_be_put. pose proof (len_nonneg fs).
  rewrite (be_put_1 (len fs)) by (unfold is_byte; lia). rewrite <- !(assoc_L (++)). change (Z.of_nat 1) with 1.
  set (n := len fs) in *. set (data := be_put 2 _ ++ _).
  assert (len data = 5 + n + len rest) as Hd.
  { unfold data. rewrite !len_app, !len_be_put. change (len [n]) with 1. unfold n. lia. }
  pose proof (len_nonneg rest). unfold SupportedPointFormats_Unmarshal, supportedPointFormatsSize.
  destruct (Z.ltb_spec (len data) 5); [lia|].
  assert (slice (E:=dtls_error) data 2 4 = Ok (be_put 2 (1 + n))) as -> by (by apply slice_mid). cbn [mbind res_bind].
  rewrite <- (app_nil_r (be_put 2 (1 + n))), get_be_put by (cbn; lia). cbn [mbind res_bind].
  assert (idx (E:=dtls_error) data 4 = Ok n) as -> by (unfold data; rewrite (assoc_L (++)); by apply idx_mid).
  cbn [mbind res_bind]. assert (get_be (E:=dtls_error) 2 data = Ok SupportedPointFormatsTypeValue) as -> by (by apply get_be_put). cbn [mbind res_bind]. rewrite Z.eqb_refl. cbn [negb].
  destruct (Z.ltb_spec (len data - 4) (1 + n)); [lia|]. destruct (Z.ltb_spec (len data) (5 + n)); [lia|].
  destruct (Z.eqb_spec (n + 1) (1 + n)); [|lia]. cbn [negb]. unfold n, len. rewrite Nat2Z.id.
  unfold data. rewrite !(assoc_L (++)), <- (assoc_L (++) _ fs). by apply point_formats_ok.
Qed.

Lemma Algorithm_Marshal_put a : ∃ s, is_u16 s ∧ Algorithm_Marshal a = be_put 2 s ∧ be_get (Algorithm_Marshal a) = s.
Proof.
  assert (∃ x y, Algorithm_Marshal a = [x; y] ∧ is_byte x ∧ is_byte y) as (x & y & Em & Hx & Hy).
  { unfold Algorithm_Marshal. destruct (Signature.IsPSS _); eexists _, _; (split; [done|]); split; by apply Z.mod_pos_bound. }
  exists (be_get [x; y]). rewrite Em. assert (bytes_ok [x; y]) as Hb by (unfold bytes_ok; rewrite !Forall_cons, Forall_nil; done).
  split; [|split; [|done]].
  - pose proof (be_get_range _ Hb) as Hr. done.
  - symmetry. apply (be_put_get [x; y] Hb).
Qed.

Lemma signature_Unmarshal_ok t l rest : is_u16 t → Forall valid_algorithm l →
  len (vec 2 (concat (Algorithm_Marshal <$> l))) < 2 ^ 16 →
  unmarshalGenericSignatureHashAlgorithm t (be_put 2 t ++ vec 2 (vec 2 (concat (Algorithm_Marshal <$> l))) ++ rest) = Ok l.
Proof.
  intros Ht Hv Hl. unfold unmarshalGenericSignatureHashAlgorithm. read_frame.
  rewrite ReadPrefixed_vec_nil by (rewrite len_vec in Hl; cbn; lia). cbn [or_err mbind res_bind].
  change (nonempty []) with false. cbn [negb guard mbind res_bind]. apply for_nonempty_snoc.
  intros pre a post ->. destruct (Algorithm_Marshal_put a) as (s & Hs & Em & Eg). split; [by rewrite Em|].
  intros r. unfold signature_entry. rewrite Em, ReadUint_put by done. cbn [or_err mbind res_bind].
  rewrite Forall_app, Forall_cons in Hv. destruct Hv as (_ & Ha & _). unfold valid_algorithm in Ha. rewrite Eg in Ha. by rewrite Ha.
Qed.

Lemma srtp_u16 p : srtpProtectionProfiles p = true → is_u16 p.
Proof. unfold srtpProtectionProfiles, is_u16. rewrite andb_true_iff, !Z.leb_le. lia. Qed.

Lemma UseSRTP_Unmarshal_ok ps mki rest : ext_ok (UseSRTP ps mki) →
  UseSRTP_Unmarshal (be_put 2 UseSRTPTypeValue ++ vec 2 (ext_body (UseSRTP ps mki)) ++ rest) = Ok (ps, mki).
Proof.
  intros [[Hps Hm] Hl]. cbn [ext_body] in *. unfold vec in *. rewrite !len_app, !len_be_put in *.
  rewrite (len_concat_const _ 2) in * by (intros; apply len_be_put). change (Z.of_nat 2) with 2 in *. change (Z.of_nat 1) with 1 in *.
  pose proof (len_nonneg mki). pose proof (len_nonneg ps).
  rewrite (be_put_1 (len mki)) by (unfold is_byte; lia). rewrite <- !(assoc_L (++)).
  set (n := len ps) in *. set (k := len mki) in *. set (body := concat (be_put 2 <$> ps)). set (data := be_put 2 _ ++ _).
  assert (len body = 2 * n) as Hb by (unfold body; by rewrite (len_concat_const _ 2) by (intros; apply len_be_put)).
  assert (len data = 7 + 2 * n + k + len rest) as Hd.
  { unfold data. rewrite !len_app, !len_be_put, Hb. change (len [k]) with 1. unfold k. lia. }
  pose proof (len_nonneg rest). unfold UseSRTP_Unmarshal, supportedGroupsHeaderSize, useSRTPHeaderSize.
  destruct (Z.leb_spec (len data) 6); [lia|].
  assert (get_be (E:=dtls_error) 2 data = Ok UseSRTPTypeValue) as -> by (by apply get_be_put).
  cbn [mbind res_bind]. rewrite Z.eqb_refl. cbn [negb].
  assert (slice_from (E:=dtls_error) data 4 = Ok (be_put 2 (2 * n) ++ body ++ [k] ++ mki ++ rest)) as ->
    by (unfold data; rewrite (assoc_L (++)); by apply slice_from_app).
  cbn [mbind res_bind]. rewrite get_be_put by (cbn; lia). cbn [mbind res_bind].
  replace (2 * n / 2) with n by (rewrite Z.mul_comm, Z.div_mul; lia).
  destruct (Z.ltb_spec (len data) (6 + n * 2 + 1)); [lia|].
  assert (slice (E:=dtls_error) data 2 4 = Ok (be_put 2 (2 + 2 * n + (1 + k)))) as -> by (by apply slice_mid). cbn [mbind res_bind].
  rewrite <- (app_nil_r (be_put 2 (2 + 2 * n + (1 + k)))), get_be_put by (cbn; lia). cbn [mbind res_bind].
  assert (∀ x, be_put 2 UseSRTPTypeValue ++ be_put 2 (2 + 2 * n + (1 + k)) ++ be_put 2 (2 * n) ++ body ++ x =
    (be_put 2 UseSRTPTypeValue ++ be_put 2 (2 + 2 * n + (1 + k)) ++ be_put 2 (2 * n) ++ body) ++ x) as Ea
    by (intros x; by rewrite <- !(assoc_L (++))).
  assert (idx (E:=dtls_error) data (6 + n * 2) = Ok k) as ->.
  { unfold data. rewrite Ea. apply idx_mid. rewrite !len_app, !len_be_put, Hb. lia. }
  cbn [mbind res_bind]. destruct (Z.leb_spec (len data) (6 + n * 2 + k)); [lia|].
  destruct (Z.eqb_spec (6 + n * 2 + k - 4) (2 + 2 * n + (1 + k) - 1)); [|lia]. cbn [orb negb].
  assert (known_uint16s srtpProtectionProfiles (Z.to_nat n) 6 data = Ok ps) as ->.
  { assert (data = (be_put 2 UseSRTPTypeValue ++ be_put 2 (2 + 2 * n + (1 + k)) ++ be_put 2 (2 * n)) ++ body ++ [k] ++ mki ++ rest) as ->
      by (unfold data; by rewrite <- !(assoc_L (++))).
    unfold n at 1, len. rewrite Nat2Z.id.
    apply known_uint16s_ok; [done|]. eapply Forall_impl_elem; [done|]. intros c Hc. split; [by apply srtp_u16|done]. }
  cbn [mbind res_bind]. assert (slice (E:=dtls_error) data (6 + n * 2 + 1) (6 + n * 2 + k + 1) = Ok mki) as ->; [|done].
  unfold data. rewrite Ea, (assoc_L (++) _ [k]). apply slice_mid; rewrite !len_app, !len_be_put, Hb; change (len [k]) with 1; unfold k; lia.
Qed.

(** The list vector inside the frame, and the empty rest after it. *)
Ltac read_vector :=
  rewrite ReadPrefixed_vec_nil by (rewrite ?len_vec in *; cbn; lia); cbn [or_err mbind res_bind];
  change (nonempty []) with false; cbn [negb guard mbind res_bind].

Lemma ALPN_Unmarshal_ok ps rest : ext_ok (ALPN ps) →
  ALPN_Unmarshal (be_put 2 ALPNTypeValue ++ vec 2 (ext_body (ALPN ps)) ++ rest) = Ok ps.
Proof.
  intros [[Hne Hps] Hl]. unfold ALPN_Unmarshal. read_frame. cbn [ext_body] in *. read_vector.
  rewrite nonempty_true by (apply concat_ne; [done|]; intros; by apply vec_ne, Nat.lt_0_1). cbn [guard mbind res_bind].
  apply for_nonempty_snoc. intros pre p post ->. split; [by apply vec_ne, Nat.lt_0_1|]. intros r.
  rewrite Forall_app, Forall_cons in Hps. destruct Hps as (_ & Hp & _). cbv beta in Hp.
  unfold ALPN_entry. rewrite ReadPrefixed_vec by (cbn; lia). cbn [or_err mbind res_bind].
  by rewrite nonempty_true by (apply len_ne; lia).
Qed.

Lemma ConnectionID_Unmarshal_ok c rest : ext_ok (ConnectionID c) →
  ConnectionID_Unmarshal (be_put 2 ConnectionIDTypeValue ++ vec 2 (ext_body (ConnectionID c)) ++ rest) = Ok c.
Proof.
  intros [Hc Hl]. unfold ConnectionID_Unmarshal. read_frame. cbn [ext_body] in *. cbn in Hc. read_vector.
  pose proof (ReadBytes_app c [] (len c) eq_refl) as Hr. rewrite app_nil_r in Hr. by rewrite Hr.
Qed.

Lemma CookieExt_Unmarshal_ok c rest : ext_ok (CookieExt c) →
  CookieExt_Unmarshal (be_put 2 CookieTypeValue ++ vec 2 (ext_body (CookieExt c)) ++ rest) = Ok c.
Proof.
  intros [Hc Hl]. unfold CookieExt_Unmarshal. read_frame. cbn [ext_body] in *. read_vector.
  rewrite nonempty_true by done. rewrite len_vec in Hl. unfold maxCookieSize.
  by destruct (Z.leb_spec (len c) (0xffff - 2)); [|lia].
Qed.

Lemma PskKeyExchangeModes_Unmarshal_ok ms rest : ext_ok (PskKeyExchangeModes ms) →
  PskKeyExchangeModes_Unmarshal (be_put 2 PskKeyExchangeModesTypeValue ++ vec 2 (ext_body (PskKeyExchangeModes ms)) ++ rest) = Ok ms.
Proof.
  intros [[Hn _] Hl]. unfold PskKeyExchangeModes_Unmarshal. read_frame. cbn [ext_body] in *. read_vector.
  by rewrite nonempty_true by (apply len_ne; lia).
Qed.

Lemma EarlyDataIndication_Unmarshal_ok m rest : ext_ok (EarlyDataIndication m) →
  EarlyDataIndication_Unmarshal (be_put 2 EarlyDataIndicationTypeValue ++ vec 2 (ext_body (EarlyDataIndication m)) ++ rest) = Ok m.
Proof.
  intros [Hm Hl]. unfold EarlyDataIndication_Unmarshal. read_frame. destruct m as [m|]; cbn [ext_body]; [|done].
  change (nonempty (be_put 4 m)) with true. cbv iota.
  pose proof (ReadUint_put 4 m [] Hm) as Hr. rewrite app_nil_r in Hr. by rewrite Hr.
Qed.

Lemma CertificateAuthorities_Unmarshal_ok l rest : ext_ok (CertificateAuthorities l) →
  CertificateAuthorities_Unmarshal (be_put 2 CertificateAuthoritiesTypeValue ++ vec 2 (ext_body (CertificateAuthorities l)) ++ rest) = Ok l.
Proof.
  intros [[Hne Hv] Hl]. unfold CertificateAuthorities_Unmarshal. read_frame. cbn [ext_body] in *.
  rewrite nonempty_true by (by apply vec_ne, Nat.lt_0_2). cbn [guard mbind res_bind]. read_vector.
  rewrite nonempty_true by (apply concat_ne; [done|]; intros; by apply vec_ne, Nat.lt_0_2). cbn [guard mbind res_bind].
  apply for_nonempty_snoc. intros pre c post ->. split; [by apply vec_ne, Nat.lt_0_2|]. intros r.
  assert (len (vec 2 c) ≤ len (concat (vec 2 <$> pre ++ c :: post))) as Hle
    by (apply len_concat_elem, elem_of_app; right; by left).
  rewrite !len_vec in *. rewrite Forall_app, Forall_cons in Hv. destruct Hv as (_ & Hc & _). cbv beta in Hc.
  unfold authority_entry. rewrite ReadPrefixed_vec by (cbn; lia). cbn [or_err mbind res_bind].
  by destruct (Z.leb_spec 1 (len c)); [|lia].
Qed.

Lemma OIDFilters_Unmarshal_ok l rest : ext_ok (OIDFilters l) →
  OIDFilters_Unmarshal (be_put 2 OIDFiltersTypeValue ++ vec 2 (ext_body (OIDFilters l)) ++ rest) = Ok l.
Proof.
  intros [[Hnd Hv] Hl]. unfold OIDFilters_Unmarshal. read_frame. cbn [ext_body] in *. read_vector.
  apply for_nonempty_snoc. intros pre f post ->.
  split; [intros [E _]%app_nil; by apply vec_ne in E; [|apply Nat.lt_0_1]|]. intros r.
  assert (len (filter_bytes f) ≤ len (concat (filter_bytes <$> pre ++ f :: post))) as Hle
    by (apply len_concat_elem, elem_of_app; right; by left).
  rewrite len_vec, len_filter_bytes in *. rewrite Forall_app, Forall_cons in Hv. destruct Hv as (_ & Hf & _). cbv beta in Hf.
  unfold filter_entry, filter_bytes. rewrite <- (assoc_L (++)), ReadPrefixed_vec by (cbn; lia). cbn [or_err mbind res_bind].
  rewrite nonempty_true by (apply len_ne; lia). cbn [guard mbind res_bind].
  unfold seen_oid. rewrite bool_decide_eq_false_2.
  - rewrite ReadPrefixed_vec by (cbn; lia). cbn [or_err mbind res_bind]. by destruct f.
  - rewrite fmap_app, fmap_cons, NoDup_app in Hnd. destruct Hnd as (_ & Hnd & _). intros Hin. apply (Hnd _ Hin). by left.
Qed.

Lemma valid_version v : IsValidVersion v = true → Major v = 0xfe ∧ IsValidBytes (Major v) (Minor v) = true.
Proof.
  intros Hv. unfold IsValidVersion in Hv. rewrite !orb_true_iff, !Version_Equal_spec in Hv. by destruct Hv as [[->| ->]| ->].
Qed.

Lemma version_entry_ok vs v rest : IsValidVersion v = true →
  version_entry vs (version_bytes v ++ rest) = Ok (vs ++ [v], rest).
Proof.
  intros Hv. destruct (valid_version v Hv) as [_ Hb]. unfold version_entry, version_bytes. cbn [app].
  rewrite ReadUint_1. cbn [or_err mbind res_bind]. rewrite ReadUint_1. cbn [or_err mbind res_bind]. rewrite Hb. by destruct v.
Qed.

Lemma SupportedVersions_Unmarshal_ok vs sel rest : ext_ok (SupportedVersions vs sel) →
  SupportedVersions_Unmarshal (be_put 2 SupportedVersionsTypeValue ++ vec 2 (ext_body (SupportedVersions vs sel)) ++ rest) = Ok (vs, sel).
Proof.
  intros [(Hn & Hval & Hsel) Hl]. unfold SupportedVersions_Unmarshal. read_frame. cbn [ext_body] in *. destruct sel.
  - specialize (Hsel eq_refl). destruct vs as [|v [|v' vs]]; [done| |].
    2: { rewrite !len_cons in Hsel. pose proof (len_nonneg vs). lia. }
    apply Forall_cons in Hval as [Hv _]. destruct (valid_version v Hv) as [Hm _].
    change (concat (version_bytes <$> [v])) with (version_bytes v ++ []).
    rewrite nonempty_true by done. cbn [guard mbind res_bind]. unfold version_bytes at 1. cbn [app]. rewrite ReadUint_1, Hm.
    cbn [andb]. change (254 =? len [Minor v]) with false. cbn [andb].
    change (len (version_bytes v ++ []) =? 2) with true. cbn [guard mbind res_bind]. by rewrite version_entry_ok.
  - rewrite nonempty_true by (by apply vec_ne, Nat.lt_0_1). cbn [guard mbind res_bind].
    assert (len (concat (version_bytes <$> vs)) = 2 * len vs) as Hc by (by apply len_concat_const).
    assert (ReadUint 1 (vec 1 (concat (version_bytes <$> vs))) = Some (2 * len vs, concat (version_bytes <$> vs))) as ->.
    { unfold vec. rewrite Hc. apply ReadUint_put. cbn. lia. }
    rewrite Hc, Z.eqb_refl. cbn [andb]. destruct (Z.leb_spec 2 (2 * len vs)); [|lia]. cbn [andb].
    rewrite Z.mul_comm, Z.mod_mul by lia. change (0 =? 0) with true. cbv iota. cbn [or_err mbind res_bind].
    rewrite (for_nonempty_snoc version_entry version_bytes vs).
    + cbn [mbind res_bind]. pose proof (ReadBytes_app (vec 1 (concat (version_bytes <$> vs))) [] (1 + len vs * 2)) as Hr.
      rewrite app_nil_r in Hr. rewrite Hr by (rewrite len_vec, Hc; lia). done.
    + intros pre v post ->. rewrite Forall_app, Forall_cons in Hval. destruct Hval as (_ & Hv & _).
      split; [done|]. intros r. by apply version_entry_ok.
Qed.

Lemma client_share_entry_ok pre e rest : is_u16 (ks_Group e) → 1 ≤ len (ks_KeyExchange e) → len (share_bytes e) < 2 ^ 16 →
  ks_Group e ∉ ks_Group <$> pre → client_share_entry pre (share_bytes e ++ rest) = Ok (pre ++ [e], rest).
Proof.
  intros Hg H1 Hl Hn. rewrite len_share_bytes in Hl. unfold client_share_entry, share_bytes. rewrite <- (assoc_L (++)).
  rewrite ReadUint_put by done. cbn [or_err mbind res_bind]. rewrite ReadPrefixed_vec by (cbn; lia). cbn [or_err mbind res_bind].
  rewrite nonempty_true by (apply len_ne; lia). cbn [guard mbind res_bind].
  destruct (elem (ks_Group e) (ks_Group <$> pre)) eqn:E; [by apply elem_spec in E|]. by destruct e.
Qed.

Lemma KeyShare_client_ok cs rest : ext_ok (KeyShare (MkKeyShare cs None None)) →
  KeyShare_Unmarshal (be_put 2 KeyShareTypeValue ++ vec 2 (ext_body (KeyShare (MkKeyShare cs None None))) ++ rest) =
  Ok (MkKeyShare cs None None).
Proof.
  intros [Hv Hl]. apply client_shares_ok in Hv as (Hne & Hnd & Hes). unfold KeyShare_Unmarshal. read_frame. cbn [ext_body] in *.
  set (body := concat (share_bytes <$> default [] cs)) in *. pose proof Hl as Hl'. rewrite len_vec in Hl'.
  rewrite nonempty_true by (by apply vec_ne, Nat.lt_0_2). cbn [guard mbind res_bind].
  assert (ReadUint 2 (vec 2 body) = Some (len body, body)) as ->
    by (apply ReadUint_put; pose proof (len_nonneg body); cbn; lia).
  rewrite Z.eqb_refl. cbv iota. cbn [or_err mbind res_bind].
  assert (for_nonempty client_share_entry [] body = Ok (default [] cs)) as ->.
  { apply for_nonempty_snoc. intros pre e post Ep. split; [done|]. intros r.
    assert (len (share_bytes e) ≤ len body) as Hle by (apply len_concat_elem; rewrite Ep; apply elem_of_app; right; by left).
    rewrite Ep, Forall_app, Forall_cons in Hes. destruct Hes as (_ & [Hg H1] & _).
    apply client_share_entry_ok; [done|done|lia|].
    rewrite Ep, fmap_app, fmap_cons, NoDup_app in Hnd. destruct Hnd as (_ & Hnd & _). intros Hin. apply (Hnd _ Hin). by left. }
  cbn [mbind res_bind]. pose proof (ReadBytes_app (vec 2 body) [] (2 + len body)) as Hr. rewrite app_nil_r in Hr.
  rewrite Hr by (by rewrite len_vec). cbn [or_err mbind res_bind]. destruct cs as [[|e l]|]; done.
Qed.

Lemma KeyShare_Unmarshal_ok k rest : ext_ok (KeyShare k) →
  KeyShare_Unmarshal (be_put 2 KeyShareTypeValue ++ vec 2 (ext_body (KeyShare k)) ++ rest) = Ok k.
Proof.
  intros Hok. destruct k as [cs [e|] [g|]]; [destruct Hok as [Hv _]; by destruct cs| | |by apply KeyShare_client_ok];
    destruct cs as [?|]; try (by destruct Hok as [[] _]); destruct Hok as [Hv Hl]; unfold KeyShare_Unmarshal; read_frame;
    cbn [ext_body] in *.
  - destruct Hv as (Hg & H1 & Hamb). rewrite len_share_bytes in Hl.
    rewrite nonempty_true by done. cbn [guard mbind res_bind].
    assert (ReadUint 2 (share_bytes e) = Some (ks_Group e, vec 2 (ks_KeyExchange e))) as -> by (by apply ReadUint_put).
    rewrite len_vec. destruct (Z.eqb_spec (ks_Group e) (Z.of_nat 2 + len (ks_KeyExchange e))); [done|]. cbv iota.
    rewrite len_share_bytes. destruct (Z.eqb_spec (4 + len (ks_KeyExchange e)) 2); [lia|].
    cbn [or_err mbind res_bind]. rewrite ReadPrefixed_vec_nil by (cbn; lia). cbn [or_err mbind res_bind].
    change (nonempty []) with false. rewrite nonempty_true by (apply len_ne; lia). cbn. by destruct e.
  - assert (ReadUint 2 (be_put 2 g) = Some (g, [])) as Hr.
    { rewrite <- (app_nil_r (be_put 2 g)). by apply ReadUint_put, Curves_u16. }
    rewrite nonempty_true by done. cbn [guard mbind res_bind]. rewrite Hr.
    destruct (Z.eqb_spec g (len (@nil Z))) as [->|_]; [done|]. change (len (be_put 2 g) =? 2) with true. cbv iota.
    cbn [or_err mbind res_bind]. cbn in Hv. by rewrite Hv.
Qed.

Lemma PreSharedKey_Unmarshal_ok p rest : ext_ok (PreSharedKey p) →
  PreSharedKey_Unmarshal (be_put 2 PreSharedKeyValue ++ vec 2 (ext_body (PreSharedKey p)) ++ rest) = Ok p.
Proof.
  intros [Hv Hl]. unfold PreSharedKey_Unmarshal. read_frame. destruct (decide (Identities p = [])) as [Hid|Hid].
  { destruct p as [ids [|b bs] sel]; cbn in Hid; subst ids; [|by destruct Hv as [Hv _]]. cbn [ext_body].
    change (len (be_put 2 sel) =? 2) with true. cbv iota.
    pose proof (ReadUint_put 2 sel [] Hv) as Hr. rewrite app_nil_r in Hr. by rewrite Hr. }
  destruct (psk_client_ok p Hv Hid) as (Hlen & Hsel & Hids & Hbs). clear Hv.
  destruct p as [ids bs sel]. cbn [Identities Binders SelectedIdentity] in *. subst sel.
  set (I := concat (identity_bytes <$> ids)). set (B := concat (vec 1 <$> bs)).
  assert (ext_body (PreSharedKey (MkPreSharedKey ids bs 0)) = vec 2 I ++ vec 2 B) as E by (by destruct ids).
  rewrite E in *. clear E. pose proof Hl as Hl'. rewrite len_app, !len_vec in Hl'.
  pose proof (len_nonneg I). pose proof (len_nonneg B).
  assert (len (vec 2 I ++ vec 2 B) = 4 + len I + len B) as -> by (rewrite len_app, !len_vec; lia).
  destruct (Z.eqb_spec (4 + len I + len B) 2); [lia|].
  assert (0 < len ids) by (destruct ids; [done|]; rewrite len_cons; pose proof (len_nonneg ids); lia).
  assert (bs ≠ []) by (intros ->; change (len (@nil (list Z))) with 0 in Hlen; lia).
  rewrite ReadPrefixed_vec by (cbn; lia). cbn [or_err mbind res_bind].
  assert (∀ i, identity_bytes i ≠ []) as Hine by (intros i [Ei _]%app_nil; by apply vec_ne in Ei; [|apply Nat.lt_0_2]).
  rewrite nonempty_true by (by apply concat_ne). cbn [guard mbind res_bind].
  assert (for_nonempty identity_entry [] I = Ok ids) as ->.
  { apply for_nonempty_snoc. intros pre i post ->. split; [done|]. intros r.
    assert (len (identity_bytes i) ≤ len I) as Hle by (apply len_concat_elem, elem_of_app; right; by left).
    rewrite len_identity_bytes in Hle. rewrite Forall_app, Forall_cons in Hids. destruct Hids as (_ & [Hi Ha] & _).
    unfold identity_entry, identity_bytes. rewrite <- (assoc_L (++)), ReadPrefixed_vec by (cbn; lia). cbn [or_err mbind res_bind].
    rewrite ReadUint_put by done. cbn [or_err mbind res_bind]. rewrite nonempty_true by (apply len_ne; lia). by destruct i. }
  cbn [mbind res_bind]. rewrite ReadPrefixed_vec_nil by (cbn; lia). cbn [or_err mbind res_bind]. change (nonempty []) with false.
  rewrite nonempty_true by (apply concat_ne; [done|]; intros; by apply vec_ne, Nat.lt_0_1). cbn [guard mbind res_bind].
  assert (for_nonempty binder_entry [] B = Ok bs) as ->.
  { apply for_nonempty_snoc. intros pre x post ->. split; [by apply vec_ne, Nat.lt_0_1|]. intros r.
    rewrite Forall_app, Forall_cons in Hbs. destruct Hbs as (_ & Hx & _). cbv beta in Hx.
    unfold binder_entry, minPSKBinderSize. rewrite ReadPrefixed_vec by (cbn; lia). cbn [or_err mbind res_bind].
    by destruct (Z.leb_spec 32 (len x)); [|lia]. }
  cbn [mbind res_bind negb guard]. by rewrite Hlen, Z.eqb_refl.
Qed.

Lemma RenegotiationInfo_Unmarshal_ok c rest :
  RenegotiationInfo_Unmarshal (be_put 2 RenegotiationInfoTypeValue ++ vec 2 [c] ++ rest) = Ok c.
Proof.
  unfold RenegotiationInfo_Unmarshal, renegotiationInfoHeaderSize. rewrite len_app, len_be_put, len_app, len_vec.
  pose proof (len_nonneg rest). change (len [c]) with 1. destruct (Z.ltb_spec (Z.of_nat 2 + (Z.of_nat 2 + 1 + len rest)) 5); [lia|].
  rewrite get_be_put by done. cbn [mbind res_bind]. rewrite Z.eqb_refl. cbn [negb]. unfold vec. rewrite <- (assoc_L (++)).
  by rewrite slice_mid.
Qed.

Lemma UseExtendedMasterSecret_Unmarshal_ok rest :
  UseExtendedMasterSecret_Unmarshal (be_put 2 UseExtendedMasterSecretTypeValue ++ vec 2 [] ++ rest) = Ok true.
Proof.
  unfold UseExtendedMasterSecret_Unmarshal, useExtendedMasterSecretHeaderSize. rewrite len_app, len_be_put, len_app, len_vec.
  pose proof (len_nonneg rest). change (len []) with 0. destruct (Z.ltb_spec (Z.of_nat 2 + (Z.of_nat 2 + 0 + len rest)) 4); [lia|].
  set (data := be_put 2 _ ++ _). change (idx data 2) with (Ok 0 : res dtls_error Z). change (idx data 3) with (Ok 0 : res dtls_error Z).
  cbn [mbind res_bind]. change (negb (0 =? 0) || negb (0 =? 0)) with false. cbv iota. unfold data. by rewrite get_be_put.
Qed.

Lemma PostHandshakeAuth_Unmarshal_ok rest :
  PostHandshakeAuth_Unmarshal (be_put 2 PostHandshakeAuthTypeValue ++ vec 2 [] ++ rest) = Ok true.
Proof.
  unfold PostHandshakeAuth_Unmarshal, postHandshakeAuthHeaderSize. rewrite len_app, len_be_put, len_app, len_vec.
  pose proof (len_nonneg rest). change (len []) with 0. destruct (Z.ltb_spec (Z.of_nat 2 + (Z.of_nat 2 + 0 + len rest)) 4); [lia|].
  set (data := be_put 2 _ ++ _). change (idx data 2) with (Ok 0 : res dtls_error Z). change (idx data 3) with (Ok 0 : res dtls_error Z).
  cbn [mbind res_bind]. change (negb (0 =? 0) || negb (0 =? 0)) with false. cbv iota. unfold data. by rewrite get_be_put.
Qed.

Lemma Ext_Unmarshal_ok e rest : ext_ok e →
  unmarshal_as (TypeValue e) (be_put 2 (TypeValue e) ++ vec 2 (ext_body e) ++ rest) = Ok e.
Proof.
  intros He. destruct e as [n|cs|fs|l|l|ps mki|ps|b|c|c|vs b|k|c|ms|p|m|l|l|b]; cbn [TypeValue];
    set (data := be_put 2 _ ++ _ ++ rest).
  - change (unmarshal_as _ data) with (n ← ServerName_Unmarshal data; Ok (ServerName n)).
    unfold data. by rewrite ServerName_Unmarshal_ok.
  - change (unmarshal_as _ data) with (l ← SupportedEllipticCurves_Unmarshal data; Ok (SupportedEllipticCurves l)).
    unfold data. by rewrite SupportedEllipticCurves_Unmarshal_ok.
  - change (unmarshal_as _ data) with (l ← SupportedPointFormats_Unmarshal data; Ok (SupportedPointFormats l)).
    unfold data. by rewrite SupportedPointFormats_Unmarshal_ok.
  - change (unmarshal_as _ data) with (l ← SupportedSignatureAlgorithms_Unmarshal data; Ok (SupportedSignatureAlgorithms l)).
    unfold data, SupportedSignatureAlgorithms_Unmarshal. destruct He. cbn [ext_body]. by rewrite signature_Unmarshal_ok.
  - change (unmarshal_as _ data) with (l ← SignatureAlgorithmsCert_Unmarshal data; Ok (SignatureAlgorithmsCert l)).
    unfold data, SignatureAlgorithmsCert_Unmarshal. destruct He. cbn [ext_body]. by rewrite signature_Unmarshal_ok.
  - change (unmarshal_as _ data) with ('(ps, mki) ← UseSRTP_Unmarshal data; Ok (UseSRTP ps mki)).
    unfold data. by rewrite UseSRTP_Unmarshal_ok.
  - change (unmarshal_as _ data) with (l ← ALPN_Unmarshal data; Ok (ALPN l)). unfold data. by rewrite ALPN_Unmarshal_ok.
  - change (unmarshal_as _ data) with (b ← UseExtendedMasterSecret_Unmarshal data; Ok (UseExtendedMasterSecret b)).
    unfold data. cbn [ext_body]. rewrite UseExtendedMasterSecret_Unmarshal_ok. by destruct He as [-> _].
  - change (unmarshal_as _ data) with (c ← RenegotiationInfo_Unmarshal data; Ok (RenegotiationInfo c)).
    unfold data. cbn [ext_body]. by rewrite RenegotiationInfo_Unmarshal_ok.
  - change (unmarshal_as _ data) with (c ← ConnectionID_Unmarshal data; Ok (ConnectionID c)).
    unfold data. by rewrite ConnectionID_Unmarshal_ok.
  - change (unmarshal_as _ data) with ('(vs, b) ← SupportedVersions_Unmarshal data; Ok (SupportedVersions vs b)).
    unfold data. by rewrite SupportedVersions_Unmarshal_ok.
  - change (unmarshal_as _ data) with (k ← KeyShare_Unmarshal data; Ok (KeyShare k)). unfold data. by rewrite KeyShare_Unmarshal_ok.
  - change (unmarshal_as _ data) with (c ← CookieExt_Unmarshal data; Ok (CookieExt c)). unfold data. by rewrite CookieExt_Unmarshal_ok.
  - change (unmarshal_as _ data) with (l ← PskKeyExchangeModes_Unmarshal data; Ok (PskKeyExchangeModes l)).
    unfold data. by rewrite PskKeyExchangeModes_Unmarshal_ok.
  - change (unmarshal_as _ data) with (p ← PreSharedKey_Unmarshal data; Ok (PreSharedKey p)).
    unfold data. by rewrite PreSharedKey_Unmarshal_ok.
  - change (unmarshal_as _ data) with (m ← EarlyDataIndication_Unmarshal data; Ok (EarlyDataIndication m)).
    unfold data. by rewrite EarlyDataIndication_Unmarshal_ok.
  - change (unmarshal_as _ data) with (l ← CertificateAuthorities_Unmarshal data; Ok (CertificateAuthorities l)).
    unfold data. by rewrite CertificateAuthorities_Unmarshal_ok.
  - change (unmarshal_as _ data) with (l ← OIDFilters_Unmarshal data; Ok (OIDFilters l)). unfold data. by rewrite OIDFilters_Unmarshal_ok.
  - change (unmarshal_as _ data) with (b ← PostHandshakeAuth_Unmarshal data; Ok (PostHandshakeAuth b)).
    unfold data. cbn [ext_body]. rewrite PostHandshakeAuth_Unmarshal_ok. by destruct He as [-> _].
Qed.

(** ** Lists of extensions *)

(** A flag that is not set is not sent. *)
Definition sent (e : Extension) : bool :=
  match e with UseExtendedMasterSecret b | PostHandshakeAuth b => b | _ => true end.

(** The types of the switch. *)
Definition in_switch (e : Extension) : bool :=
  match e with EarlyDataIndication _ | CertificateAuthorities _ | OIDFilters _ | PostHandshakeAuth _ => false | _ => true end.

Definition ext_bytes (e : Extension) : list Z := if sent e then be_put 2 (TypeValue e) ++ vec 2 (ext_body e) else [].

Definition understood (e : Extension) : bool := sent e && in_switch e.

Lemma TypeValue_u16 e : is_u16 (TypeValue e).
Proof. by destruct e. Qed.

Lemma unmarshal_known_as e data : unmarshal_known (TypeValue e) data =
  if in_switch e then Some (unmarshal_as (TypeValue e) data) else None.
Proof. by destruct e. Qed.

Lemma Marshal_loop_ok es : Forall (λ e, sent e = true → ext_ok e) es → Marshal_loop es = Ok (concat (ext_bytes <$> es)).
Proof.
  induction 1 as [|e es He Hes IH]; [done|]. rewrite fmap_cons. cbn [Marshal_loop concat]. rewrite IH. unfold ext_bytes at 2.
  destruct (sent e) eqn:Es; [by rewrite Ext_Marshal_ok by auto|].
  destruct e; try done; cbn in Es; by subst.
Qed.

Lemma Unmarshal_loop_ok fuel pre es acc : Forall (λ e, sent e = true → ext_ok e) es →
  (length (concat (ext_bytes <$> es)) ≤ fuel)%nat →
  Unmarshal_loop fuel (pre ++ concat (ext_bytes <$> es)) (len pre) acc = Ok (acc ++ List.filter understood es).
Proof.
  intros Hes. revert fuel pre acc. induction Hes as [|e es He Hes IH]; intros fuel pre acc Hf.
  { cbn [concat fmap list_fmap]. rewrite app_nil_r. destruct fuel; cbn [Unmarshal_loop];
      rewrite Z.ltb_irrefl; cbn; by rewrite app_nil_r. }
  rewrite fmap_cons in *. cbn [concat List.filter] in *. unfold understood at 1. rewrite length_app in Hf.
  destruct (sent e) eqn:Es.
  2: { unfold ext_bytes at 1. rewrite Es. cbn [app andb]. apply IH. lia. }
  specialize (He eq_refl). pose proof He as [_ Hb].
  set (rest := concat (ext_bytes <$> es)) in *.
  assert (ext_bytes e = be_put 2 (TypeValue e) ++ vec 2 (ext_body e)) as Ee by (unfold ext_bytes; by rewrite Es).
  assert (len (ext_bytes e) = 4 + len (ext_body e)) as Hl by (rewrite Ee, len_app, len_be_put, len_vec; lia).
  pose proof (len_nonneg (ext_body e)). pose proof (len_nonneg rest).
  destruct fuel as [|fuel]; [unfold len in Hl; lia|]. cbn [Unmarshal_loop]. rewrite !len_app.
  destruct (Z.ltb_spec (len pre) (len pre + (len (ext_bytes e) + len rest))); [|lia]. cbn [negb].
  rewrite slice_from_app by done. cbn [mbind res_bind]. rewrite !len_app, Hl.
  destruct (Z.ltb_spec (4 + len (ext_body e) + len rest) 2); [lia|]. rewrite Ee, <- (assoc_L (++)).
  rewrite get_be_put by apply TypeValue_u16. cbn [mbind res_bind]. rewrite unmarshal_known_as, Ext_Unmarshal_ok by done.
  assert (∀ x : list Extension, match (if in_switch e then Some (Ok e) else None) with
    | Some r => e0 ← r; Ok (x ++ [e0]) | None => Ok x end = (Ok (x ++ if in_switch e then [e] else []) : res dtls_error _)) as ->
    by (intros; destruct (in_switch e); [done|by rewrite app_nil_r]).
  cbn [mbind res_bind]. destruct (Z.ltb_spec (4 + len (ext_body e) + len rest) 4); [lia|].
  rewrite slice_from_app by done. cbn [mbind res_bind].
  assert (get_be (E:=dtls_error) 2 (vec 2 (ext_body e) ++ rest) = Ok (len (ext_body e))) as ->
    by (unfold vec; rewrite <- (assoc_L (++)); apply get_be_put; cbn; lia).
  cbn [mbind res_bind]. specialize (IH fuel (pre ++ ext_bytes e) (acc ++ if in_switch e then [e] else [])).
  rewrite len_app, Hl, <- !(assoc_L (++)), Ee, <- (assoc_L (++)) in IH. rewrite IH by (unfold len in Hl; lia).
  by destruct (in_switch e).
Qed.

(** ** No input makes the decoders panic *)

(** Runs through a sequence of reads and checks. *)
Ltac parse :=
  repeat match goal with
  | |- safe (or_err (ReadUint _ _) _ ≫= _) _ =>
      let E := fresh in apply safe_or_err; intros [? ?] E; apply ReadUint_length in E as [? ?]; [|done]
  | |- safe (or_err (ReadPrefixed _ _) _ ≫= _) _ =>
      let E := fresh in apply safe_or_err; intros [? ?] E; apply ReadPrefixed_length in E as (? & ? & ?); [|done]
  | |- safe (or_err _ _ ≫= _) _ => apply safe_or_err; intros [? ?] ?
  | |- safe (guard _ _ ≫= _) _ => apply safe_guard; intros ?
  | |- no_panic (or_err _ _ ≫= _) => unfold no_panic
  | |- no_panic (guard _ _ ≫= _) => unfold no_panic
  | |- safe (read_type _ _ ≫= _) _ => unfold read_type
  | |- safe ((_ ≫= _) ≫= _) _ => apply safe_bind
  | |- safe (Ok _ ≫= _) _ => cbn [mbind res_bind]
  end.

Lemma read_type_safe t data : bytes_ok data → safe (read_type t data) bytes_ok.
Proof. intros Hd. unfold read_type. parse. done. Qed.

Lemma read_type_unchecked_safe t data : bytes_ok data → safe (read_type_unchecked t data) bytes_ok.
Proof.
  intros Hd. unfold read_type_unchecked. destruct (ReadUint 2 data) as [[v r]|] eqn:E; [|by destruct (0 =? t)].
  apply ReadUint_length in E as [? ?]; [|done]. by destruct (v =? t).
Qed.

Lemma for_nonempty_no_panic {A} (body : A → list Z → res dtls_error (A * list Z)) acc s : bytes_ok s →
  (∀ acc s, bytes_ok s → s ≠ [] → safe (body acc s) (λ '(_, r), bytes_ok r ∧ (length r < length s)%nat)) →
  no_panic (for_nonempty body acc s).
Proof.
  intros Hs Hb. eapply safe_no_panic, (for_nonempty_safe body (λ _, True)); [done|done|].
  intros a s' _ Hs' Hne. eapply safe_mono; [by apply Hb|]. by intros [a' r] [? ?].
Qed.

Lemma no_panic_bind {A B} (m : res dtls_error A) (k : A → res dtls_error B) :
  no_panic m → (∀ a, no_panic (k a)) → no_panic (m ≫= k).
Proof. intros Hm Hk. apply safe_bind. eapply safe_mono; [done|]. intros a _. apply Hk. Qed.

Lemma entry_bodies_safe s : bytes_ok s → s ≠ [] →
  (∀ n, safe (ServerName_entry n s) (λ '(_, r), bytes_ok r ∧ (length r < length s)%nat)) ∧
  (∀ l, safe (signature_entry l s) (λ '(_, r), bytes_ok r ∧ (length r < length s)%nat)) ∧
  (∀ l, safe (ALPN_entry l s) (λ '(_, r), bytes_ok r ∧ (length r < length s)%nat)) ∧
  (∀ l, safe (version_entry l s) (λ '(_, r), bytes_ok r ∧ (length r < length s)%nat)) ∧
  (∀ l, safe (client_share_entry l s) (λ '(_, r), bytes_ok r ∧ (length r < length s)%nat)) ∧
  (∀ l, safe (identity_entry l s) (λ '(_, r), bytes_ok r ∧ (length r < length s)%nat)) ∧
  (∀ l, safe (binder_entry l s) (λ '(_, r), bytes_ok r ∧ (length r < length s)%nat)).
Proof.
  intros Hs Hne. split_and!; intros l.
  - unfold ServerName_entry. parse. destruct (negb _); [cbn; split; [done|lia]|]. destruct (negb _); [done|].
    destruct (ends_with_dot _); [done|]. cbn. split; [done|lia].
  - unfold signature_entry. parse. destruct (Algorithm_Unmarshal _) as [a|e|] eqn:E; [cbn; split; [done|lia]..|].
    by apply Algorithm_Unmarshal_no_panic in E.
  - unfold ALPN_entry. parse. cbn. split; [done|lia].
  - unfold version_entry. parse. cbn. split; [done|lia].
  - unfold client_share_entry. parse. destruct (elem _ _); [done|]. cbn. split; [done|lia].
  - unfold identity_entry. parse. cbn. split; [done|lia].
  - unfold binder_entry. parse. cbn. split; [done|lia].
Qed.

(** Decoders: the type, then reads and checks. *)
Ltac parse_ext :=
  match goal with |- no_panic (?m ≫= _) => apply safe_bind; first
    [eapply safe_mono; [by apply read_type_safe|]|eapply safe_mono; [by apply read_type_unchecked_safe|]] end;
  intros ? ?; parse.

Lemma known_uint16s_safe known count off data : bytes_ok data → 0 ≤ off → off + 2 * Z.of_nat count ≤ len data →
  no_panic (known_uint16s known count off data).
Proof.
  intros Hd. revert off. induction count as [|count IH]; intros off Ho Hl; [done|]. cbn [known_uint16s].
  rewrite slice_from_ok by lia. cbn [mbind res_bind]. apply safe_bind, safe_get_be.
  - by apply bytes_ok_sub.
  - rewrite len_sub by lia. lia.
  - intros x _. apply no_panic_bind; [apply IH; lia|done].
Qed.

Lemma point_formats_safe count off data : 0 ≤ off → off + Z.of_nat count ≤ len data → no_panic (point_formats count off data).
Proof.
  revert off. induction count as [|count IH]; intros off Ho Hl; [done|]. cbn [point_formats].
  apply safe_bind, safe_idx; [lia|]. intros p _. apply no_panic_bind; [apply IH; lia|done].
Qed.

(** Two bytes of the data as an integer. *)
Lemma safe_uint16_at data lo {B} (k : Z → res dtls_error B) : bytes_ok data → 0 ≤ lo → lo + 2 ≤ len data →
  (∀ v, is_u16 v → no_panic (k v)) →
  no_panic (d ← slice data lo (lo + 2); v ← Uint16 d; k v) ∧
  no_panic (d ← slice_from data lo; v ← Uint16 d; k v).
Proof.
  intros Hd Hlo Hl Hk. rewrite slice_ok, slice_from_ok by lia. cbn [mbind res_bind].
  split; (apply safe_bind, safe_get_be; [by apply bytes_ok_sub|rewrite len_sub by lia; lia|exact Hk]).
Qed.

Lemma SupportedEllipticCurves_no_panic data : bytes_ok data → no_panic (SupportedEllipticCurves_Unmarshal data).
Proof.
  intros Hd. unfold SupportedEllipticCurves_Unmarshal, supportedGroupsHeaderSize.
  destruct (Z.ltb_spec (len data) 6); [done|]. apply (safe_uint16_at data 2); [done|lia|lia|]. intros dl _.
  apply (safe_uint16_at data 4); [done|lia|lia|]. intros n Hn.
  apply safe_bind, safe_get_be; [done|lia|]. intros t _. destruct (negb _); [done|].
  destruct (len data - 4 <? dl); [done|]. destruct (Z.ltb_spec (len data) (6 + n / 2 * 2)); [done|].
  destruct (negb _); [done|]. assert (0 ≤ n / 2) by (apply Z.div_pos; [apply Hn|done]).
  apply known_uint16s_safe; [done|done|]. rewrite Z2Nat.id by done. lia.
Qed.

Lemma SupportedPointFormats_no_panic data : bytes_ok data → no_panic (SupportedPointFormats_Unmarshal data).
Proof.
  intros Hd. unfold SupportedPointFormats_Unmarshal, supportedPointFormatsSize.
  destruct (Z.ltb_spec (len data) 5); [done|]. apply (safe_uint16_at data 2); [done|lia|lia|]. intros dl _.
  apply safe_bind, safe_idx; [lia|]. intros n Hn. apply (bytes_ok_elem _ _ Hd) in Hn. unfold is_byte in Hn.
  apply safe_bind, safe_get_be; [done|lia|]. intros t _. destruct (negb _); [done|].
  destruct (len data - 4 <? dl); [done|]. destruct (Z.ltb_spec (len data) (5 + n)); [done|].
  destruct (negb _); [done|]. apply point_formats_safe; [done|]. rewrite Z2Nat.id by lia. lia.
Qed.

Lemma UseSRTP_no_panic data : bytes_ok data → no_panic (UseSRTP_Unmarshal data).
Proof.
  intros Hd. unfold UseSRTP_Unmarshal, useSRTPHeaderSize, supportedGroupsHeaderSize.
  destruct (Z.leb_spec (len data) 6); [done|]. apply safe_bind, safe_get_be; [done|lia|]. intros t _. destruct (negb _); [done|].
  apply (safe_uint16_at data 4); [done|lia|lia|]. intros n Hn. assert (0 ≤ n / 2) by (apply Z.div_pos; [apply Hn|done]).
  destruct (Z.ltb_spec (len data) (6 + n / 2 * 2 + 1)); [done|]. apply (safe_uint16_at data 2); [done|lia|lia|]. intros dl _.
  apply safe_bind, safe_idx; [lia|]. intros k Hk. apply (bytes_ok_elem _ _ Hd) in Hk. unfold is_byte in Hk.
  destruct (Z.leb_spec (len data) (6 + n / 2 * 2 + k)); [done|]. cbn [orb]. destruct (negb _); [done|].
  apply no_panic_bind; [apply known_uint16s_safe; [done|done|]; rewrite Z2Nat.id by done; lia|].
  intros ps. rewrite slice_ok by lia. done.
Qed.

Lemma fixed_no_panic data : bytes_ok data →
  no_panic (UseExtendedMasterSecret_Unmarshal data) ∧ no_panic (RenegotiationInfo_Unmarshal data).
Proof.
  intros Hd. unfold UseExtendedMasterSecret_Unmarshal, RenegotiationInfo_Unmarshal, useExtendedMasterSecretHeaderSize,
    renegotiationInfoHeaderSize. split.
  - destruct (Z.ltb_spec (len data) 4); [done|]. apply safe_bind, safe_idx; [lia|]. intros a _.
    apply safe_bind, safe_idx; [lia|]. intros b _. destruct (_ || _); [done|].
    apply safe_bind, safe_get_be; [done|lia|]. intros t _. by destruct (negb _).
  - destruct (Z.ltb_spec (len data) 5); [done|]. apply safe_bind, safe_get_be; [done|lia|]. intros t _. destruct (negb _); [done|].
    apply (safe_uint16_at data 2); [done|lia|lia|]. intros n _. destruct (negb _); [done|]. by apply safe_idx; [lia|].
Qed.

Lemma cryptobyte_no_panic data : bytes_ok data →
  no_panic (ServerName_Unmarshal data) ∧ (∀ t, no_panic (unmarshalGenericSignatureHashAlgorithm t data)) ∧
  no_panic (ALPN_Unmarshal data) ∧ no_panic (ConnectionID_Unmarshal data) ∧ no_panic (CookieExt_Unmarshal data) ∧
  no_panic (PskKeyExchangeModes_Unmarshal data).
Proof.
  intros Hd. split_and!.
  - unfold ServerName_Unmarshal. parse_ext. apply for_nonempty_no_panic; [done|]. intros ? ? ? ?. by apply entry_bodies_safe.
  - intros t. unfold unmarshalGenericSignatureHashAlgorithm. parse_ext. apply for_nonempty_no_panic; [done|].
    intros ? ? ? ?. by apply entry_bodies_safe.
  - unfold ALPN_Unmarshal. parse_ext. apply for_nonempty_no_panic; [done|]. intros ? ? ? ?. by apply entry_bodies_safe.
  - unfold ConnectionID_Unmarshal. by parse_ext.
  - unfold CookieExt_Unmarshal. by parse_ext.
  - unfold PskKeyExchangeModes_Unmarshal. by parse_ext.
Qed.

Lemma SupportedVersions_no_panic data : bytes_ok data → no_panic (SupportedVersions_Unmarshal data).
Proof.
  intros Hd. unfold SupportedVersions_Unmarshal. parse_ext. cbv zeta.
  match goal with |- context [if ?b then _ else _] => destruct b end; parse.
  - apply no_panic_bind; [|intros; by parse]. apply for_nonempty_no_panic; [done|].
    intros ? ? ? ?. by apply entry_bodies_safe.
  - apply no_panic_bind; [|by intros [? ?]]. eapply safe_no_panic, entry_bodies_safe; [done|].
    match goal with H : nonempty _ = true |- _ => intros ->; done end.
Qed.

Lemma KeyShare_no_panic data : bytes_ok data → no_panic (KeyShare_Unmarshal data).
Proof.
  intros Hd. unfold KeyShare_Unmarshal. parse_ext. cbv zeta.
  match goal with |- context [if ?b then _ else _] => destruct b end; parse.
  - apply no_panic_bind; [|intros; by parse]. apply for_nonempty_no_panic; [done|].
    intros ? ? ? ?. by apply entry_bodies_safe.
  - match goal with |- context [if ?b then _ else _] => destruct b end; by parse.
Qed.

Lemma PreSharedKey_no_panic data : bytes_ok data → no_panic (PreSharedKey_Unmarshal data).
Proof.
  intros Hd. unfold PreSharedKey_Unmarshal. parse_ext.
  match goal with |- context [if ?b then _ else _] => destruct b end; parse; [done|].
  apply no_panic_bind; [|intros ids; parse; apply no_panic_bind; [|intros; by parse]]; (apply for_nonempty_no_panic; [done|]);
    intros ? ? ? ?; by apply entry_bodies_safe.
Qed.

Lemma unmarshal_known_no_panic t data r : bytes_ok data → unmarshal_known t data = Some r → no_panic r.
Proof.
  intros Hd. unfold unmarshal_known. pose proof (cryptobyte_no_panic data Hd) as (H1 & H2 & H3 & H4 & H5 & H6).
  pose proof (fixed_no_panic data Hd) as [H7 H8].
  repeat (match goal with |- context [if ?b then _ else _] => destruct b end;
    [intros [= <-]; apply no_panic_bind; [|by intros; case_match || done]|]); try done.
  - by apply SupportedEllipticCurves_no_panic.
  - by apply SupportedPointFormats_no_panic.
  - apply H2.
  - apply H2.
  - by apply UseSRTP_no_panic.
  - by apply SupportedVersions_no_panic.
  - by apply KeyShare_no_panic.
  - by apply PreSharedKey_no_panic.
Qed.

Lemma Unmarshal_loop_no_panic fuel buf offset acc : bytes_ok buf → 0 ≤ offset →
  len buf - offset ≤ Z.of_nat fuel → no_panic (Unmarshal_loop fuel buf offset acc).
Proof.
  intros Hb. revert offset acc. induction fuel as [|fuel IH]; intros offset acc Ho Hf; cbn [Unmarshal_loop];
    (destruct (Z.ltb_spec offset (len buf)); [|done]); cbn [negb]; [lia|].
  rewrite slice_from_ok by lia. cbn [mbind res_bind]. set (v := sub offset (len buf) buf).
  assert (bytes_ok v) as Hv by (by apply bytes_ok_sub). destruct (Z.ltb_spec (len v) 2); [done|].
  apply safe_bind, safe_get_be; [done|lia|]. intros t _. apply no_panic_bind.
  { destruct (unmarshal_known t v) as [r|] eqn:E; [|done]. apply no_panic_bind; [by eapply unmarshal_known_no_panic|done]. }
  intros acc'. destruct (Z.ltb_spec (len v) 4); [done|]. apply (safe_uint16_at v 2); [done|lia|lia|].
  intros n Hn. unfold is_u16 in Hn. apply IH; lia.
Qed.

Lemma Unmarshal_no_panic buf : bytes_ok buf → no_panic (Unmarshal buf).
Proof.
  intros Hb. unfold Unmarshal. destruct (len buf =? 0); [done|]. destruct (Z.ltb_spec (len buf) 2); [done|].
  apply safe_bind, safe_get_be; [done|lia|]. intros n _. destruct (negb _); [done|].
  apply Unmarshal_loop_no_panic; [done|done|]. unfold len. lia.
Qed.

Lemma Marshal_Unmarshal es : Forall (λ e, sent e = true → ext_ok e) es → len (concat (ext_bytes <$> es)) < 2 ^ 16 →
  ∃ buf, Marshal es = Ok buf ∧ buf = vec 2 (concat (ext_bytes <$> es)) ∧ Unmarshal buf = Ok (List.filter understood es).
Proof.
  intros Hes Hl. unfold Marshal. rewrite Marshal_loop_ok by done. cbn [mbind res_bind]. eexists. split; [done|].
  set (body := concat (ext_bytes <$> es)) in *. pose proof (len_nonneg body). unfold u16. rewrite Z.mod_small by lia.
  split; [done|]. unfold Unmarshal. rewrite len_app, len_be_put. change (Z.of_nat 2) with 2.
  destruct (Z.eqb_spec (2 + len body) 0); [lia|]. destruct (Z.ltb_spec (2 + len body) 2); [lia|].
  rewrite get_be_put by (cbn; lia). cbn [mbind res_bind]. destruct (Z.eqb_spec (2 + len body - 2) (len body)); [|lia]. cbn [negb].
  apply (Unmarshal_loop_ok _ (be_put 2 (len body)) es []); [done|]. rewrite length_app. fold body. lia.
Qed.

(** ** Properties *)

(** C32: a list of extensions survives the wire.  Every extension that is sent has the
    format of its RFC behind its type and length; reading the list back gives exactly
    the extensions that were sent, in order and with all their values, but those whose
    type the reader does not know (early_data, certificate_authorities, oid_filters,
    post_handshake_auth), which it skips. *)
Theorem extensions_roundtrip es :
  Forall (λ e, sent e = true → ext_ok e) es → len (concat (ext_bytes <$> es)) < 2 ^ 16 →
  ∃ buf, Marshal es = Ok buf ∧ buf = vec 2 (concat (ext_bytes <$> es)) ∧ Unmarshal buf = Ok (List.filter understood es).
Proof. apply Marshal_Unmarshal. Qed.

(** every type of extension, those that are not in the list decoder included, is
    read back from its encoding by its own [Unmarshal], whatever bytes follow. *)
Theorem extension_roundtrip e rest : ext_ok e →
  ∃ raw, Ext_Marshal e = Ok raw ∧ unmarshal_as (TypeValue e) (raw ++ rest) = Ok e.
Proof.
  intros He. eexists. split; [by apply Ext_Marshal_ok|]. rewrite <- (assoc_L (++)). by apply Ext_Unmarshal_ok.
Qed.

(** the extension parser is total: on every byte string it returns a list of
    extensions or an error; no index or slice is out of range and its loops end. *)
Theorem extensions_parser_total buf : bytes_ok buf → no_panic (Unmarshal buf).
Proof. apply Unmarshal_no_panic. Qed.

End codec.

Definition example_extensions : list Extension :=
  [ServerName (gs "example.org"); SupportedVersions [Version1_3; Version1_2] false;
   KeyShare (MkKeyShare (Some [MkKeyShareEntry X25519 (zeros 32); MkKeyShareEntry P256 (zeros 65)]) None None);
   SupportedSignatureAlgorithms [MkAlgorithm 4 3; MkAlgorithm 4 0x0804]; EarlyDataIndication None;
   UseExtendedMasterSecret false; ALPN [gs "h2"; gs "webrtc"]; UseSRTP [1; 7] [9]; ConnectionID []].

Lemma extensions_roundtrip_witness :
  ∃ buf, Marshal example_extensions = Ok buf ∧ buf = vec 2 (concat (ext_bytes <$> example_extensions)) ∧
    Unmarshal buf = Ok (List.filter understood example_extensions).
Proof.
  apply (extensions_roundtrip (H := cryptobyte_model) (laws := cryptobyte_model_laws)).
  - repeat (apply Forall_cons; split; [intros Hs; first [discriminate Hs|split; [|done]]|]); [..|by apply Forall_nil]; cbn; try done;
      repeat split; try done; repeat (apply Forall_cons; split; [done|]); try by apply Forall_nil.
    + by apply (bool_decide_unpack _); vm_compute.
  - done.
Defined.
Lemma extension_roundtrip_witness :
  ∃ raw, Ext_Marshal (OIDFilters [MkOIDFilter [1; 2] [3]; MkOIDFilter [4] []]) = Ok raw ∧
    unmarshal_as OIDFiltersTypeValue (raw ++ [5; 6]) = Ok (OIDFilters [MkOIDFilter [1; 2] [3]; MkOIDFilter [4] []]).
Proof.
  apply (extension_roundtrip (H := cryptobyte_model) (laws := cryptobyte_model_laws)
    (OIDFilters [MkOIDFilter [1; 2] [3]; MkOIDFilter [4] []]) [5; 6]).
  split; [|done]. split; [by apply (bool_decide_unpack _); vm_compute|]. by repeat constructor.
Defined.

Lemma extensions_parser_total_witness : no_panic (Unmarshal [0; 5; 0; 10; 0; 1; 7]).
Proof.
  apply (extensions_parser_total (H := cryptobyte_model) (laws := cryptobyte_model_laws)).
  by repeat constructor.
Defined.

(** An unknown extension may declare more bytes than there are: the list is accepted. *)
Example unknown_extension_overrun : Unmarshal [0; 4; 0; 99; 255; 255] = Ok [].
Proof. reflexivity. Qed.

(** A server's key share whose group is its length plus two is taken for a list of client shares. *)
Example server_share_misread :
  let k := MkKeyShare None (Some (MkKeyShareEntry 7 [0; 3; 0; 1; 5])) None in
  (raw ← KeyShare_Marshal k; KeyShare_Unmarshal raw) =
    Ok (MkKeyShare (Some [MkKeyShareEntry 5 [0; 1; 5]]) None None).
Proof. reflexivity. Qed.

End Extension.
