(* ===== verification/Fragment.v ===== *)
(** * Reassembly of handshake messages (src/dtls/fragment_buffer.go)

    [HandshakeHeader] is the header of handshake messages and fragments
    (src/dtls/pkg/protocol/handshake/header.go).  [FragmentBuffer] is the
    buffer that collects the fragments of the records that arrive, and hands
    out the messages in the order of their sequence numbers. *)
From stdpp Require Import base tactics numbers list gmap.
From Stdlib Require Import ZArith Lia.
From S2P Require Import Prelude Wire Record.
Open Scope Z_scope.

Module HandshakeHeader.

Definition HeaderLength : Z := 12.

Record Header := MkHeader {
  Type_ : Z;
  Length : Z;
  MessageSequence : Z;
  FragmentOffset : Z;
  FragmentLength : Z
}.

Definition Header_Marshal (h : Header) : list Z :=
  [Type_ h] ++ be_put 3 (Length h) ++ be_put 2 (MessageSequence h) ++
  be_put 3 (FragmentOffset h) ++ be_put 3 (FragmentLength h).

Definition Header_Unmarshal (data : list Z) : res dtls_error Header :=
  if len data <? HeaderLength then Err ErrBufferTooSmall else
  t ← idx data 0;
  d1 ← slice_from data 1;
  d4 ← slice_from data 4;
  seq ← Uint16 d4;
  d6 ← slice_from data 6;
  d9 ← slice_from data 9;
  Ok (MkHeader t (BigEndianUint24 d1) seq (BigEndianUint24 d6) (BigEndianUint24 d9)).

Record header_ok (h : Header) : Prop := {
  hh_type : is_byte (Type_ h);
  hh_length : is_u24 (Length h);
  hh_seq : is_u16 (MessageSequence h);
  hh_offset : is_u24 (FragmentOffset h);
  hh_fragment : is_u24 (FragmentLength h)
}.

Lemma BigEndianUint24_put v s : is_u24 v → BigEndianUint24 (be_put 3 v ++ s) = v.
Proof.
  intros Hv. unfold BigEndianUint24. rewrite len_app, len_be_put. pose proof (len_nonneg s).
  destruct (Z.ltb_spec (Z.of_nat 3 + len s) 3); [lia|].
  rewrite take_app_length' by (by rewrite length_be_put). rewrite be_get_put. by apply Z.mod_small.
Qed.

Lemma len_Header_Marshal h : len (Header_Marshal h) = HeaderLength.
Proof. done. Qed.

Lemma handshake_header_roundtrip h rest : header_ok h → Header_Unmarshal (Header_Marshal h ++ rest) = Ok h.
Proof.
  intros [Ht Hl Hs Ho Hf]. unfold Header_Unmarshal. rewrite len_app, len_Header_Marshal.
  pose proof (len_nonneg rest). destruct (Z.ltb_spec (HeaderLength + len rest) HeaderLength); [lia|].
  set (t4 := be_put 2 (MessageSequence h) ++ be_put 3 (FragmentOffset h) ++ be_put 3 (FragmentLength h) ++ rest).
  set (t6 := be_put 3 (FragmentOffset h) ++ be_put 3 (FragmentLength h) ++ rest).
  set (t9 := be_put 3 (FragmentLength h) ++ rest).
  assert (Header_Marshal h ++ rest = [Type_ h] ++ be_put 3 (Length h) ++ t4) as E
    by (unfold Header_Marshal; by rewrite <- !(assoc_L (++))).
  assert (slice_from (E:=dtls_error) (Header_Marshal h ++ rest) 4 = Ok t4) as ->
    by (rewrite E, (assoc_L (++)); by apply slice_from_app).
  assert (slice_from (E:=dtls_error) (Header_Marshal h ++ rest) 6 = Ok t6) as ->
    by (rewrite E; unfold t4; rewrite !(assoc_L (++)), <- (assoc_L (++) _ _ rest), <- (assoc_L (++) _ _ (_ ++ rest)); by apply slice_from_app).
  assert (slice_from (E:=dtls_error) (Header_Marshal h ++ rest) 9 = Ok t9) as ->
    by (rewrite E; unfold t4; rewrite !(assoc_L (++)), <- (assoc_L (++) _ _ rest); by apply slice_from_app).
  rewrite E. change (idx _ 0) with (Ok (Type_ h) : res dtls_error Z).
  rewrite slice_from_app by done. cbn [mbind res_bind]. unfold t4 at 2.
  rewrite get_be_put by done. cbn [mbind res_bind].
  unfold t6, t9. rewrite !BigEndianUint24_put by done. by destruct h.
Qed.

(** Every 12 bytes are a header in range. *)
Lemma Header_Unmarshal_spec data : bytes_ok data →
  if len data <? HeaderLength then Header_Unmarshal data = Err ErrBufferTooSmall
  else ∃ h rest, data = Header_Marshal h ++ rest ∧ header_ok h ∧ Header_Unmarshal data = Ok h.
Proof.
  intros Hok. unfold HeaderLength. destruct (Z.ltb_spec (len data) 12) as [Hlt|Hge].
  - unfold Header_Unmarshal, HeaderLength. destruct (Z.ltb_spec (len data) 12); [done|lia].
  - assert (∃ a b c d e f, data = [a] ++ b ++ c ++ d ++ e ++ f ∧
      len b = 3 ∧ len c = 2 ∧ len d = 3 ∧ len e = 3) as (a & b & c & d & e & f & -> & Hb & Hc & Hd & He).
    { destruct data as [|x0 [|x1 [|x2 [|x3 [|x4 [|x5 [|x6 [|x7 [|x8 [|x9 [|x10 [|x11 f]]]]]]]]]]]];
        try (rewrite ?len_cons, len_nil in Hge; lia).
      by exists x0, [x1; x2; x3], [x4; x5], [x6; x7; x8], [x9; x10; x11], f. }
    rewrite !bytes_ok_app in Hok. destruct Hok as (Ha & Hokb & Hokc & Hokd & Hoke & _).
    apply bytes_ok_cons in Ha as [Ha _].
    set (h := MkHeader a (be_get b) (be_get c) (be_get d) (be_get e)).
    assert (header_ok h) as Hh.
    { pose proof (be_get_range b Hokb) as Rb. pose proof (be_get_range c Hokc) as Rc.
      pose proof (be_get_range d Hokd) as Rd. pose proof (be_get_range e Hoke) as Re.
      rewrite Hb in Rb. rewrite Hc in Rc. rewrite Hd in Rd. rewrite He in Re. by split. }
    assert ([a] ++ b ++ c ++ d ++ e ++ f = Header_Marshal h ++ f) as E.
    { unfold Header_Marshal, h. cbn [Type_ Length MessageSequence FragmentOffset FragmentLength].
      rewrite <- !(assoc_L (++)). f_equal. pose proof (be_put_get b Hokb) as Pb.
      pose proof (be_put_get c Hokc) as Pc. pose proof (be_put_get d Hokd) as Pd. pose proof (be_put_get e Hoke) as Pe.
      unfold len in Hb, Hc, Hd, He. replace (length b) with 3%nat in Pb by lia.
      replace (length c) with 2%nat in Pc by lia. replace (length d) with 3%nat in Pd by lia.
      replace (length e) with 3%nat in Pe by lia. by rewrite Pb, Pc, Pd, Pe. }
    exists h, f. rewrite E. split_and!; [done..|]. by apply handshake_header_roundtrip.
Qed.

End HandshakeHeader.

Module FragmentBuffer.
Import HandshakeHeader.

Definition fragmentBufferMaxSize : Z := 2000000.
Definition fragmentBufferMaxCount : Z := 1000.

Record fragment := MkFragment {
  recordLayerHeader : RecordHeader.Header;
  handshakeHeader : Header;
  data : list Z
}.

Record fragments := MkFragments {
  fragmentByOffset : gmap Z fragment;
  fragmentsLength : Z;
  handshakeLength : Z
}.

Record fragmentBuffer := MkBuffer {
  cache : gmap Z fragments;
  currentMessageSequenceNumber : Z;
  totalBufferSize : Z;
  totalFragmentCount : Z
}.

Definition newFragmentBuffer : fragmentBuffer := MkBuffer ∅ 0 0 0.

(** A fragment enters the cache of its message; a second fragment at the same
    offset is dropped. *)
Definition insert_fragment (f : fragmentBuffer) (frag : fragment) : fragmentBuffer :=
  let h := handshakeHeader frag in
  let ms := match cache f !! MessageSequence h with
            | Some ms => ms
            | None => MkFragments ∅ 0 (Length h)
            end in
  match fragmentByOffset ms !! FragmentOffset h with
  | Some _ =>
      MkBuffer (<[MessageSequence h := ms]> (cache f)) (currentMessageSequenceNumber f)
        (totalBufferSize f) (totalFragmentCount f)
  | None =>
      MkBuffer
        (<[MessageSequence h :=
           MkFragments (<[FragmentOffset h := frag]> (fragmentByOffset ms))
             (u32 (fragmentsLength ms + FragmentLength h)) (handshakeLength ms)]> (cache f))
        (currentMessageSequenceNumber f)
        (totalBufferSize f + FragmentLength h) (totalFragmentCount f + 1)
  end.

(** The loop of [push] over the fragments of a record.  The buffer keeps what
    was inserted also when an error follows.  A round takes at least a header,
    so that the length of the record is enough fuel. *)
Fixpoint push_loop (fuel : nat) (rh : RecordHeader.Header) (f : fragmentBuffer) (buf : list Z)
    (isRetransmit : bool) : fragmentBuffer * res dtls_error (bool * bool) :=
  match buf, fuel with
  | [], _ => (f, Ok (true, isRetransmit))
  | _, O => (f, Panic)
  | _, S fuel =>
      match Header_Unmarshal buf with
      | Err e => (f, Err e)
      | Panic => (f, Panic)
      | Ok h =>
          let isRetransmit := (FragmentOffset h =? 0) && (MessageSequence h <? currentMessageSequenceNumber f) in
          let end_ := HeaderLength + FragmentLength h in
          if len buf <? end_ then (f, Err ErrBufferTooSmall) else
          match slice_from buf end_ with
          | Ok next =>
              if MessageSequence h <? currentMessageSequenceNumber f
              then push_loop fuel rh f next isRetransmit
              else
                match slice buf HeaderLength end_ with
                | Ok d => push_loop fuel rh (insert_fragment f (MkFragment rh h d)) next isRetransmit
                | Err e => (f, Err e)
                | Panic => (f, Panic)
                end
          | Err e => (f, Err e)
          | Panic => (f, Panic)
          end
      end
  end.

Definition push (f : fragmentBuffer) (buf : list Z) : fragmentBuffer * res dtls_error (bool * bool) :=
  if (fragmentBufferMaxSize <=? totalBufferSize f + len buf) || (fragmentBufferMaxCount <=? totalFragmentCount f)
  then (f, Err ErrFragmentBufferOverflow) else
  match RecordHeader.Header_Unmarshal (RecordHeader.MkHeader 0 0 (Protocol.MkVersion 0 0) 0 0 []) buf with
  | Err e => (f, Err e)
  | Panic => (f, Panic)
  | Ok rh =>
      if negb (RecordHeader.ContentType rh =? Protocol.ContentTypeHandshake) then (f, Ok (false, false)) else
      match slice_from buf RecordHeader.FixedHeaderSize with
      | Ok b => push_loop (length b) rh f b false
      | Err e => (f, Err e)
      | Panic => (f, Panic)
      end
  end.

(** The loop of [pop]: [i] fragments may still be looked at. *)
Fixpoint pop_loop (i : nat) (ms : fragments) (rawMessage : list Z) (targetOffset : Z) : option (list Z) :=
  match i with
  | O => Some rawMessage
  | S i =>
      if targetOffset <? handshakeLength ms then
        match fragmentByOffset ms !! targetOffset with
        | Some frag =>
            pop_loop i ms (rawMessage ++ data frag)
              (u32 (FragmentOffset (handshakeHeader frag) + FragmentLength (handshakeHeader frag)))
        | None => None
        end
      else Some rawMessage
  end.

(** [pop]: nothing, or a message with its epoch. *)
Definition pop (f : fragmentBuffer) : res Empty_set (option (list Z * Z) * fragmentBuffer) :=
  match cache f !! currentMessageSequenceNumber f with
  | None => Ok (None, f)
  | Some ms =>
      if negb (fragmentsLength ms =? handshakeLength ms) then Ok (None, f) else
      match pop_loop (size (fragmentByOffset ms)) ms [] 0 with
      | None => Ok (None, f)
      | Some rawMessage =>
          if negb (handshakeLength ms =? len rawMessage) then Ok (None, f) else
          match fragmentByOffset ms !! 0 with
          | None => Panic
          | Some first =>
              let fh := handshakeHeader first in
              let firstHeader := MkHeader (Type_ fh) (Length fh) (MessageSequence fh) 0 (Length fh) in
              Ok (Some (Header_Marshal firstHeader ++ rawMessage, RecordHeader.Epoch (recordLayerHeader first)),
                  MkBuffer (delete (currentMessageSequenceNumber f) (cache f))
                    (u16 (currentMessageSequenceNumber f + 1))
                    (totalBufferSize f - fragmentsLength ms)
                    (totalFragmentCount f - Z.of_nat (size (fragmentByOffset ms))))
          end
      end
  end.

(** ** Invariant *)

(** The sum of a quantity over a map. *)
Definition total {A} (q : A → Z) (m : gmap Z A) : Z := map_fold (λ _ a s, q a + s) 0 m.

Record frags_ok (seq : Z) (ms : fragments) : Prop := {
  fo_frag : ∀ o x, fragmentByOffset ms !! o = Some x →
    header_ok (handshakeHeader x) ∧ FragmentOffset (handshakeHeader x) = o ∧
    MessageSequence (handshakeHeader x) = seq ∧ len (data x) = FragmentLength (handshakeHeader x);
  fo_length : fragmentsLength ms = total (λ x, len (data x)) (fragmentByOffset ms);
  fo_handshake : is_u24 (handshakeLength ms);
  fo_some : fragmentByOffset ms ≠ ∅
}.

Record buffer_ok (f : fragmentBuffer) : Prop := {
  bo_frags : ∀ seq ms, cache f !! seq = Some ms → frags_ok seq ms;
  bo_current : is_u16 (currentMessageSequenceNumber f);
  bo_size : totalBufferSize f = total fragmentsLength (cache f);
  bo_count : totalFragmentCount f = total (λ ms, Z.of_nat (size (fragmentByOffset ms))) (cache f);
  bo_max : totalBufferSize f < fragmentBufferMaxSize
}.

(** ** Sums *)

Section totals.
Context {A : Type} (q : A → Z).
Implicit Types m : gmap Z A.

Lemma total_empty : total q ∅ = 0.
Proof. apply map_fold_empty. Qed.

Lemma total_insert m i a : m !! i = None → total q (<[i := a]> m) = q a + total q m.
Proof. intros Hi. unfold total. rewrite map_fold_insert_L; [done| |done]. intros. lia. Qed.

Lemma total_delete m i a : m !! i = Some a → total q m = q a + total q (delete i m).
Proof.
  intros Hi. rewrite <- (insert_delete_id m i a Hi) at 1. apply total_insert. apply lookup_delete_eq.
Qed.

Lemma total_replace m i a b : m !! i = Some a → total q (<[i := b]> m) = total q m - q a + q b.
Proof.
  intros Hi. rewrite (total_delete m i a Hi), (total_delete (<[i:=b]> m) i b) by apply lookup_insert_eq.
  rewrite delete_insert_eq. lia.
Qed.

Lemma total_nonneg m : (∀ i a, m !! i = Some a → 0 ≤ q a) → 0 ≤ total q m.
Proof.
  induction m as [|i a m Hi IH] using map_ind; intros Hq; [by rewrite total_empty|].
  rewrite total_insert by done. assert (0 ≤ q a) by (apply (Hq i); apply lookup_insert_eq).
  assert (0 ≤ total q m); [|lia]. apply IH. intros k b Hk. apply (Hq k). rewrite lookup_insert_ne; [done|].
  intros ->. congruence.
Qed.

Lemma total_le m i a : (∀ i a, m !! i = Some a → 0 ≤ q a) → m !! i = Some a → q a ≤ total q m.
Proof.
  intros Hq Hi. rewrite (total_delete m i a Hi). assert (0 ≤ total q (delete i m)); [|lia].
  apply total_nonneg. intros k b [_ Hk]%lookup_delete_Some. eauto.
Qed.
End totals.

Lemma frags_length_nonneg seq ms : frags_ok seq ms → 0 ≤ fragmentsLength ms.
Proof. intros [_ -> _ _]. apply total_nonneg. intros. apply len_nonneg. Qed.

Lemma frags_length_le f seq ms : buffer_ok f → cache f !! seq = Some ms →
  0 ≤ fragmentsLength ms ≤ totalBufferSize f.
Proof.
  intros Hok Hms. split; [by eapply frags_length_nonneg, (bo_frags _ Hok)|].
  rewrite (bo_size _ Hok). apply (total_le fragmentsLength _ seq); [|done].
  intros k m Hm. by eapply frags_length_nonneg, (bo_frags _ Hok).
Qed.

Lemma newFragmentBuffer_ok : buffer_ok newFragmentBuffer.
Proof.
  split; cbn; [|done|by rewrite total_empty|by rewrite total_empty|done]. intros seq ms. by rewrite lookup_empty.
Qed.

(** The entry a fragment is added to, known or new. *)
Definition entry_ok (f : fragmentBuffer) (seq : Z) (ms : fragments) : Prop :=
  (∀ o x, fragmentByOffset ms !! o = Some x →
    header_ok (handshakeHeader x) ∧ FragmentOffset (handshakeHeader x) = o ∧
    MessageSequence (handshakeHeader x) = seq ∧ len (data x) = FragmentLength (handshakeHeader x)) ∧
  fragmentsLength ms = total (λ x, len (data x)) (fragmentByOffset ms) ∧
  is_u24 (handshakeLength ms) ∧ 0 ≤ fragmentsLength ms ≤ totalBufferSize f.

Lemma entry_lookup f h ms : buffer_ok f → header_ok h →
  ms = match cache f !! MessageSequence h with Some ms => ms | None => MkFragments ∅ 0 (Length h) end →
  entry_ok f (MessageSequence h) ms.
Proof.
  intros Hok Hh ->. destruct (cache f !! MessageSequence h) as [m|] eqn:E.
  - pose proof (frags_length_le f _ m Hok E). destruct (bo_frags _ Hok _ _ E). done.
  - split; [intros o y; cbn; by rewrite lookup_empty|]. split; [cbn; by rewrite total_empty|].
    split; [apply Hh|]. cbn. rewrite (bo_size _ Hok). split; [done|].
    apply total_nonneg. intros k m Hm. by eapply frags_length_nonneg, (bo_frags _ Hok).
Qed.

(** Counting a grown entry instead of the known one, or beside the others. *)
Lemma total_entry (q : fragments → Z) f h ms ms' : q (MkFragments ∅ 0 (Length h)) = 0 →
  ms = match cache f !! MessageSequence h with Some ms => ms | None => MkFragments ∅ 0 (Length h) end →
  total q (<[MessageSequence h := ms']> (cache f)) = total q (cache f) - q ms + q ms'.
Proof.
  intros H0 ->. destruct (cache f !! MessageSequence h) as [m|] eqn:E.
  - by apply total_replace.
  - rewrite total_insert by done. lia.
Qed.

(** A fragment that leaves room below the limit. *)
Lemma insert_fragment_ok f x : buffer_ok f → header_ok (handshakeHeader x) →
  len (data x) = FragmentLength (handshakeHeader x) →
  totalBufferSize f + len (data x) < fragmentBufferMaxSize →
  buffer_ok (insert_fragment f x) ∧
  currentMessageSequenceNumber (insert_fragment f x) = currentMessageSequenceNumber f ∧
  totalBufferSize f ≤ totalBufferSize (insert_fragment f x) ≤ totalBufferSize f + len (data x) ∧
  totalFragmentCount f ≤ totalFragmentCount (insert_fragment f x) ≤ totalFragmentCount f + 1.
Proof.
  intros Hok Hh Hd Hmax. unfold insert_fragment. set (h := handshakeHeader x) in *.
  remember (match cache f !! MessageSequence h with Some ms => ms | None => _ end) as ms eqn:Ems.
  pose proof (len_nonneg (data x)) as Hdn.
  destruct (entry_lookup f h ms Hok Hh Ems) as (Hfr & Hfl & Hhl & Hl).
  destruct (fragmentByOffset ms !! FragmentOffset h) as [y|] eqn:Eo.
  - assert (cache f !! MessageSequence h = Some ms) as E.
    { destruct (cache f !! MessageSequence h); [by subst|]. subst ms. cbn in Eo. by rewrite lookup_empty in Eo. }
    rewrite insert_id by done. destruct f; cbn in *. split; [done|]. lia.
  - cbn. split; [|unfold fragmentBufferMaxSize in *; lia].
    assert (u32 (fragmentsLength ms + FragmentLength h) = fragmentsLength ms + len (data x)) as Hu.
    { unfold fragmentBufferMaxSize in *. rewrite <- Hd. unfold u32. apply Z.mod_small. lia. }
    split; cbn.
    + intros seq m. rewrite lookup_insert. case_decide as Hseq; [intros [= <-]; subst seq|apply Hok].
      split; cbn.
      * intros o y. rewrite lookup_insert. case_decide as Ho; [intros [= <-]; by subst o|apply Hfr].
      * rewrite total_insert by done. rewrite Hu. lia.
      * done.
      * apply insert_non_empty.
    + apply Hok.
    + rewrite (total_entry _ f h ms) by done. cbn. rewrite Hu, (bo_size _ Hok). lia.
    + rewrite (total_entry _ f h ms) by done. cbn. rewrite map_size_insert_None, (bo_count _ Hok) by done. lia.
    + lia.
Qed.

(** ** What a buffer holds only grows under [push] *)

Definition extends (f f' : fragmentBuffer) : Prop := ∀ seq ms, cache f !! seq = Some ms →
  ∃ ms', cache f' !! seq = Some ms' ∧ handshakeLength ms' = handshakeLength ms ∧
    fragmentsLength ms ≤ fragmentsLength ms' ∧ fragmentByOffset ms ⊆ fragmentByOffset ms'.

#[global] Instance extends_preorder : PreOrder extends.
Proof.
  split; [intros f seq ms Hms; by exists ms|].
  intros f1 f2 f3 H12 H23 seq m1 Hm1. destruct (H12 seq m1 Hm1) as (m2 & Hm2 & E2 & L2 & S2).
  destruct (H23 seq m2 Hm2) as (m3 & Hm3 & E3 & L3 & S3). exists m3.
  split; [done|]. split; [congruence|]. split; [lia|]. by etrans.
Qed.

Lemma insert_fragment_extends f x : buffer_ok f → header_ok (handshakeHeader x) →
  totalBufferSize f + FragmentLength (handshakeHeader x) < fragmentBufferMaxSize →
  extends f (insert_fragment f x).
Proof.
  intros Hok Hh Hmax seq ms Hms. unfold insert_fragment. set (h := handshakeHeader x) in *.
  destruct (decide (MessageSequence h = seq)) as [<-|Hne].
  - rewrite Hms. pose proof (frags_length_le f _ ms Hok Hms) as Hl.
    destruct (fragmentByOffset ms !! FragmentOffset h) eqn:Eo; cbn; rewrite lookup_insert_eq; [by exists ms|].
    eexists. split; [done|]. cbn. split; [done|]. split; [|by apply insert_subseteq].
    unfold u32. rewrite Z.mod_small; pose proof (hh_fragment _ Hh) as Hf; unfold is_u24, fragmentBufferMaxSize in *; lia.
  - exists ms. split; [|done].
    by destruct (fragmentByOffset _ !! FragmentOffset h); cbn; rewrite lookup_insert_ne.
Qed.

(** ** [push] *)

(** What a run over [n] bytes of a record may do to the buffer. *)
Record pushed (n : Z) (f f' : fragmentBuffer) : Prop := {
  pu_ok : buffer_ok f';
  pu_current : currentMessageSequenceNumber f' = currentMessageSequenceNumber f;
  pu_size : totalBufferSize f ≤ totalBufferSize f' ≤ totalBufferSize f + n;
  pu_count : totalFragmentCount f ≤ totalFragmentCount f' ∧
    HeaderLength * (totalFragmentCount f' - totalFragmentCount f) ≤ n;
  pu_extends : extends f f'
}.

Lemma pushed_refl n f : buffer_ok f → 0 ≤ n → pushed n f f.
Proof. intros Hok Hn. split; [done|done|lia|lia|done]. Qed.

Lemma pushed_trans n1 n2 f1 f2 f3 : pushed n1 f1 f2 → pushed n2 f2 f3 → pushed (n1 + n2) f1 f3.
Proof. intros [? ? ? ? ?] [? ? ? ? ?]. split; [done|congruence|lia|lia|by etrans]. Qed.

Lemma pushed_mono n n' f f' : n ≤ n' → pushed n f f' → pushed n' f f'.
Proof. intros Hn [? ? ? ? ?]. split; [done|done|lia|lia|done]. Qed.

Lemma push_loop_spec fuel rh f buf r : (length buf ≤ fuel)%nat → buffer_ok f → bytes_ok buf →
  totalBufferSize f + len buf < fragmentBufferMaxSize →
  pushed (len buf) f (push_loop fuel rh f buf r).1 ∧ no_panic (push_loop fuel rh f buf r).2.
Proof.
  revert f buf r. induction fuel as [|fuel IH]; intros f buf r Hfuel Hok Hb Hmax.
  { destruct buf; [|cbn in Hfuel; lia]. by split; [apply pushed_refl|]. }
  destruct buf as [|b0 bs] eqn:Ebuf; [by split; [apply pushed_refl|]|]. rewrite <- Ebuf in *.
  replace (push_loop (S fuel) rh f buf r) with (push_loop (S fuel) rh f (b0 :: bs) r) by by rewrite Ebuf.
  cbn [push_loop]. rewrite <- Ebuf. clear Ebuf b0 bs. pose proof (len_nonneg buf) as Hn.
  pose proof (Header_Unmarshal_spec buf Hb) as Hspec. destruct (Z.ltb_spec (len buf) HeaderLength) as [_|_].
  { rewrite Hspec. by split; [apply pushed_refl|]. }
  destruct Hspec as (h & rest & -> & Hh & ->). rewrite len_app, len_Header_Marshal in *.
  pose proof (hh_fragment _ Hh) as Hf. unfold is_u24 in Hf.
  destruct (Z.ltb_spec (HeaderLength + len rest) (HeaderLength + FragmentLength h)) as [_|Hlen];
    [by split; [apply pushed_refl|]|].
  apply bytes_ok_app in Hb as [_ Hb].
  destruct (split_len rest (FragmentLength h)) as (d & next & -> & Hd); [lia|].
  rewrite len_app in *. apply bytes_ok_app in Hb as [Hbd Hbn]. pose proof (len_nonneg next).
  rewrite (assoc_L (++)), slice_from_app by (rewrite len_app, len_Header_Marshal; lia). rewrite <- (assoc_L (++)).
  assert (length next ≤ fuel)%nat as Hfuel'.
  { rewrite !length_app in Hfuel. change (length (Header_Marshal h)) with 12%nat in Hfuel. lia. }
  unfold HeaderLength in *. destruct (MessageSequence h <? currentMessageSequenceNumber f).
  { edestruct (IH f next) as [Hp Hnp]; [done..|lia|]. split; [|done]. eapply pushed_mono; [|done]. lia. }
  rewrite slice_mid by (rewrite ?len_app, ?len_Header_Marshal; unfold HeaderLength; lia).
  set (x := MkFragment rh h d).
  destruct (insert_fragment_ok f x Hok) as (Hok' & Hc & Hs & Hcnt); [done|done|cbn; lia|]. cbn in Hs.
  edestruct (IH (insert_fragment f x) next) as [Hp Hnp]; [done..|lia|].
  split; [|done]. replace (12 + (len d + len next)) with ((12 + len d) + len next) by lia.
  eapply pushed_trans; [|done]. split; [done|done|lia|unfold HeaderLength; lia|].
  apply insert_fragment_extends; [done|done|cbn; lia].
Qed.

Lemma push_spec f buf : buffer_ok f → bytes_ok buf →
  pushed (len buf) f (push f buf).1 ∧ no_panic (push f buf).2 ∧
  totalFragmentCount (push f buf).1 ≤ Z.max (totalFragmentCount f) (fragmentBufferMaxCount - 1 + len buf / HeaderLength).
Proof.
  intros Hok Hb. pose proof (len_nonneg buf) as Hn. unfold push.
  assert (pushed (len buf) f f ∧ totalFragmentCount f ≤ Z.max (totalFragmentCount f)
    (fragmentBufferMaxCount - 1 + len buf / HeaderLength)) as [Hr Hm] by (split; [by apply pushed_refl|lia]).
  destruct (Z.leb_spec fragmentBufferMaxSize (totalBufferSize f + len buf)); [done|].
  destruct (Z.leb_spec fragmentBufferMaxCount (totalFragmentCount f)); [done|]. cbn [orb].
  pose proof (safe_mono _ _ (λ _, RecordHeader.FixedHeaderSize ≤ len buf) (RecordHeader.Header_Unmarshal_safe (RecordHeader.MkHeader 0 0 (Protocol.MkVersion 0 0) 0 0 []) buf Hb) (λ _, proj1 (B := _))) as Hfix.
  destruct (RecordHeader.Header_Unmarshal _ buf) as [rh|e|]; [|done|done]. cbn in Hfix.
  destruct (negb _); [done|].
  rewrite slice_from_ok by (unfold RecordHeader.FixedHeaderSize in *; lia).
  set (b := sub _ _ buf). assert (len b = len buf - RecordHeader.FixedHeaderSize) as Hlb
    by (apply len_sub; unfold RecordHeader.FixedHeaderSize in *; lia).
  unfold RecordHeader.FixedHeaderSize in *.
  destruct (push_loop_spec (length b) rh f b false) as [Hp Hnp]; [done|done| |lia|].
  { unfold b. by apply bytes_ok_sub. }
  split; [eapply pushed_mono; [|done]; lia|]. split; [done|].
  destruct Hp as [_ _ _ [_ Hc] _]. unfold HeaderLength in *.
  assert (totalFragmentCount (push_loop (length b) rh f b false).1 - totalFragmentCount f ≤ len buf / 12); [|lia].
  apply Z.div_le_lower_bound; lia.
Qed.

(** ** [pop] *)

(** The fragments that the loop of [pop] joins. *)
Inductive chain (ms : fragments) : Z → list fragment → Z → Prop :=
  | chain_nil o : chain ms o [] o
  | chain_cons o x xs o' : fragmentByOffset ms !! o = Some x →
      chain ms (o + len (data x)) xs o' → chain ms o (x :: xs) o'.

Definition joined (xs : list fragment) : list Z := concat (map data xs).

Lemma chain_length ms o xs o' : chain ms o xs o' → o' = o + len (joined xs).
Proof.
  unfold joined. induction 1 as [|o x xs o' _ _ IH]; cbn; [unfold len; cbn; lia|]. rewrite len_app. lia.
Qed.

Lemma pop_loop_spec seq ms i raw o : frags_ok seq ms → 0 ≤ o →
  match pop_loop i ms raw o with
  | Some r => ∃ xs o', chain ms o xs o' ∧ r = raw ++ joined xs
  | None => True
  end.
Proof.
  intros Hok. revert raw o. induction i as [|i IH]; intros raw o Ho; cbn [pop_loop].
  { exists [], o. split; [constructor|]. by rewrite app_nil_r. }
  destruct (o <? handshakeLength ms); [|exists [], o; split; [constructor|by rewrite app_nil_r]].
  destruct (fragmentByOffset ms !! o) as [x|] eqn:Ex; [|done].
  destruct (fo_frag _ _ Hok o x Ex) as (Hh & Hxo & _ & Hxl).
  pose proof (hh_offset _ Hh) as Ho24. pose proof (hh_fragment _ Hh) as Hf24. unfold is_u24 in *.
  assert (u32 (FragmentOffset (handshakeHeader x) + FragmentLength (handshakeHeader x)) = o + len (data x)) as ->
    by (unfold u32; rewrite Z.mod_small; lia).
  pose proof (len_nonneg (data x)). specialize (IH (raw ++ data x) (o + len (data x)) ltac:(lia)).
  destruct (pop_loop i ms _ _) as [r|]; [|done]. destruct IH as (xs & o' & Hc & ->).
  exists (x :: xs), o'. split; [by econstructor|]. unfold joined. cbn. by rewrite (assoc_L (++)).
Qed.

(** The message number [seq] with body [body], as [pop] hands it out. *)
Definition message (t l seq : Z) (body : list Z) : list Z := Header_Marshal (MkHeader t l seq 0 l) ++ body.

Lemma pop_spec f : buffer_ok f →
  match pop f with
  | Ok (None, f') => f' = f
  | Ok (Some (m, epoch), f') =>
      buffer_ok f' ∧ currentMessageSequenceNumber f' = u16 (currentMessageSequenceNumber f + 1) ∧
      totalBufferSize f' ≤ totalBufferSize f ∧ totalFragmentCount f' < totalFragmentCount f ∧
      cache f' = delete (currentMessageSequenceNumber f) (cache f) ∧
      ∃ ms x xs, cache f !! currentMessageSequenceNumber f = Some ms ∧ fragmentByOffset ms !! 0 = Some x ∧
        chain ms 0 xs (handshakeLength ms) ∧ epoch = RecordHeader.Epoch (recordLayerHeader x) ∧
        m = message (Type_ (handshakeHeader x)) (Length (handshakeHeader x)) (currentMessageSequenceNumber f) (joined xs)
  | Panic => ∃ ms, cache f !! currentMessageSequenceNumber f = Some ms ∧
      handshakeLength ms = 0 ∧ fragmentsLength ms = 0 ∧ fragmentByOffset ms !! 0 = None
  | Err _ => False
  end.
Proof.
  intros Hok. unfold pop. set (cur := currentMessageSequenceNumber f).
  destruct (cache f !! cur) as [ms|] eqn:Ems; [|done]. pose proof (bo_frags _ Hok _ _ Ems) as Hms.
  destruct (Z.eqb_spec (fragmentsLength ms) (handshakeLength ms)) as [Hl|_]; [|done]. cbn [negb].
  pose proof (pop_loop_spec cur ms (size (fragmentByOffset ms)) [] 0 Hms ltac:(lia)) as Hloop.
  destruct (pop_loop _ _ _ _) as [raw|]; [|done]. destruct Hloop as (xs & o' & Hch & ->). cbn [app].
  destruct (Z.eqb_spec (handshakeLength ms) (len (joined xs))) as [Hlen|_]; [|done]. cbn [negb].
  pose proof (chain_length _ _ _ _ Hch) as Ho'. replace o' with (handshakeLength ms) in Hch by lia.
  destruct (fragmentByOffset ms !! 0) as [x|] eqn:Ex.
  - assert (0 < Z.of_nat (size (fragmentByOffset ms))) as Hsz.
    { destruct (decide (size (fragmentByOffset ms) = 0%nat)) as [E|]; [|lia].
      apply map_size_empty_inv in E. by destruct (fo_some _ _ Hms). }
    pose proof (frags_length_le f cur ms Hok Ems) as Hb.
    split_and!; cbn; [|done|lia|lia|done|].
    + split; cbn.
      * intros seq m [_ Hm]%lookup_delete_Some. by apply Hok.
      * apply u16_range.
      * rewrite (bo_size _ Hok), (total_delete _ _ cur ms) by done. lia.
      * rewrite (bo_count _ Hok), (total_delete _ _ cur ms) by done. lia.
      * pose proof (bo_max _ Hok). lia.
    + destruct (fo_frag _ _ Hms 0 x Ex) as (_ & _ & <- & _). by exists ms, x, xs.
  - exists ms. assert (xs = []) as ->; [|by unfold joined, len in *; cbn in *; split_and!; [done|lia|lia|]].
    inversion Hch; [done|congruence].
Qed.

(** ** Runs of the buffer *)

Inductive op := Push (record : list Z) | Pop.

(** [Push] ignores what [push] returned, as far as the buffer goes. *)
Definition step (o : op) (f : fragmentBuffer) : res Empty_set (fragmentBuffer * list (list Z * Z)) :=
  match o with
  | Push buf => Ok ((push f buf).1, [])
  | Pop => '(m, f') ← pop f; Ok (f', match m with Some m => [m] | None => [] end)
  end.

(** The messages that a run hands out, in order. *)
Fixpoint run (ops : list op) (f : fragmentBuffer) : res Empty_set (fragmentBuffer * list (list Z * Z)) :=
  match ops with
  | [] => Ok (f, [])
  | o :: ops =>
      '(f, ms) ← step o f;
      '(f, ms') ← run ops f;
      Ok (f, ms ++ ms')
  end.

(** Records of at most [n] bytes. *)
Definition op_ok (n : Z) (o : op) : Prop :=
  match o with Push buf => bytes_ok buf ∧ len buf ≤ n | Pop => True end.

(** A message of length zero that only has a fragment at some other offset. *)
Definition headless (f : fragmentBuffer) : Prop :=
  ∃ ms, cache f !! currentMessageSequenceNumber f = Some ms ∧
    handshakeLength ms = 0 ∧ fragmentsLength ms = 0 ∧ fragmentByOffset ms !! 0 = None.

(** The messages [ms] carry the numbers from [k] on. *)
Definition numbered (k : Z) (ms : list (list Z * Z)) : Prop :=
  ∀ i m epoch, ms !! i = Some (m, epoch) → ∃ t l body, is_u24 (len body) ∧ m = message t l (u16 (k + Z.of_nat i)) body.

Lemma numbered_app k ms ms' : numbered k ms → numbered (k + len ms) ms' → numbered k (ms ++ ms').
Proof.
  intros H1 H2 i m ep [Hi|[Hge Hi]]%lookup_app_Some; [by eapply H1|].
  destruct (H2 _ _ _ Hi) as (t & l & body & Hb & ->). exists t, l, body. split; [done|].
  f_equal. f_equal. unfold len. lia.
Qed.

Lemma run_app ops1 ops2 f : run (ops1 ++ ops2) f =
  ('(f1, ms1) ← run ops1 f; '(f2, ms2) ← run ops2 f1; Ok (f2, ms1 ++ ms2)).
Proof.
  revert f. induction ops1 as [|o ops1 IH]; intros f; cbn [app run mbind res_bind].
  { by destruct (run ops2 f) as [[f2 ms2]|e|]. }
  destruct (step o f) as [[f' ms]|e|]; cbn [mbind res_bind]; [|done|done]. rewrite IH.
  destruct (run ops1 f') as [[f1 ms1]|e|]; cbn [mbind res_bind]; [|done|done].
  destruct (run ops2 f1) as [[f2 ms2]|e|]; cbn [mbind res_bind]; [|done|done]. by rewrite (assoc_L (++)).
Qed.

(** One operation on a buffer in the invariant. *)
Lemma step_spec n o f : buffer_ok f → op_ok n o → 0 ≤ n →
  match step o f with
  | Ok (f', ms) => buffer_ok f' ∧ numbered (currentMessageSequenceNumber f) ms ∧
      currentMessageSequenceNumber f' = u16 (currentMessageSequenceNumber f + len ms) ∧
      totalFragmentCount f' ≤ Z.max (totalFragmentCount f) (fragmentBufferMaxCount - 1 + n / HeaderLength)
  | Panic => o = Pop ∧ headless f
  | Err _ => False
  end.
Proof.
  intros Hok Ho Hn. pose proof (bo_current _ Hok) as Hc. unfold is_u16 in Hc. destruct o as [buf|]; cbn [step].
  - destruct Ho as [Hb Hl]. destruct (push_spec f buf Hok Hb) as ([Hok' Hcur _ _ _] & _ & Hcnt).
    split; [done|]. split; [intros i m ep; by rewrite lookup_nil|]. split.
    + rewrite Hcur. unfold u16, len. cbn. rewrite Z.mod_small; lia.
    + assert (len buf / HeaderLength ≤ n / HeaderLength); [|lia]. by apply Z.div_le_mono.
  - pose proof (pop_spec f Hok) as Hpop. destruct (pop f) as [[[[m ep]|] f']|e|]; cbn [mbind res_bind]; [| |done|done].
    + destruct Hpop as (Hok' & Hcur & _ & Hcnt & _ & ms & x & xs & Hms & _ & Hch & -> & ->).
      split; [done|]. split; [|split; [done|lia]].
      intros i m e Hi. destruct i as [|i]; [|done]. injection Hi as <- <-.
      eexists _, _, (joined xs). pose proof (chain_length _ _ _ _ Hch) as Hl.
      split; [pose proof (fo_handshake _ _ (bo_frags _ Hok _ _ Hms)) as Hu; by replace (len (joined xs)) with (handshakeLength ms) by lia|].
      by assert (u16 (currentMessageSequenceNumber f + Z.of_nat 0) = currentMessageSequenceNumber f) as ->
        by (unfold u16; rewrite Z.mod_small; lia).
    + subst f'. split; [done|]. split; [intros i m ep; by rewrite lookup_nil|]. split; [|lia].
      unfold u16, len. cbn. rewrite Z.mod_small; lia.
Qed.

(** ** A message cut into fragments *)

(** The chunks [cs] of a body of length [l], from offset [o] on. *)
Fixpoint parts (t l seq o : Z) (cs : list (list Z)) : list (Header * list Z) :=
  match cs with
  | [] => []
  | c :: cs => (MkHeader t l seq o (len c), c) :: parts t l seq (o + len c) cs
  end.

(** At least one chunk, and only the last one may be empty. *)
Fixpoint cuts_ok (cs : list (list Z)) : Prop :=
  match cs with
  | [] => False
  | [_] => True
  | c :: cs => c ≠ [] ∧ cuts_ok cs
  end.

Lemma parts_offset t l seq o cs p : p ∈ parts t l seq o cs → o ≤ FragmentOffset p.1.
Proof.
  revert o. induction cs as [|c cs IH]; intros o; cbn; [by intros ?%elem_of_nil|].
  intros [->|Hp]%elem_of_cons; [done|]. apply IH in Hp. pose proof (len_nonneg c). lia.
Qed.

Lemma cuts_ok_rest t l seq o c cs p : cuts_ok (c :: cs) → p ∈ parts t l seq (o + len c) cs → o < FragmentOffset p.1.
Proof.
  intros Hc Hp. destruct cs as [|c' cs]; [by apply elem_of_nil in Hp|]. destruct Hc as [Hc _].
  apply parts_offset in Hp. destruct c; [done|]. rewrite len_cons in Hp. pose proof (len_nonneg c). lia.
Qed.

(** A map that holds the fragments of a cut, each at its offset. *)
Record holds (ps : list (Header * list Z)) (m : gmap Z fragment) : Prop := {
  ho_sound : ∀ o x, m !! o = Some x → (handshakeHeader x, data x) ∈ ps ∧ FragmentOffset (handshakeHeader x) = o;
  ho_complete : ∀ p, p ∈ ps → is_Some (m !! FragmentOffset p.1)
}.

Lemma holds_parts t l seq o c cs m : cuts_ok (c :: cs) → holds (parts t l seq o (c :: cs)) m →
  ∃ x, m !! o = Some x ∧ handshakeHeader x = MkHeader t l seq o (len c) ∧ data x = c ∧
    holds (parts t l seq (o + len c) cs) (delete o m).
Proof.
  intros Hc [Hs Hcm]. destruct (Hcm (MkHeader t l seq o (len c), c)) as [x Hx]; [by left|]. cbn in Hx.
  exists x. destruct (Hs o x Hx) as [Hin Ho]. split; [done|].
  apply elem_of_cons in Hin as [[= -> ->]|Hin].
  2: { pose proof (cuts_ok_rest _ _ _ _ _ _ _ Hc Hin). cbn in *. lia. }
  split; [done|]. split; [done|]. split.
  - intros k y [Hk Hy]%lookup_delete_Some. destruct (Hs k y Hy) as [Hin <-]. split; [|done].
    apply elem_of_cons in Hin as [[= E _]|Hin]; [|done]. by rewrite E in Hk.
  - intros p Hp. pose proof (cuts_ok_rest _ _ _ _ _ _ _ Hc Hp). rewrite lookup_delete_ne by lia.
    apply Hcm. by right.
Qed.

Lemma cuts_ok_tail c cs : cuts_ok (c :: cs) → cs = [] ∨ cuts_ok cs.
Proof. destruct cs; [by left|]. intros [_ ?]. by right. Qed.

Lemma holds_nil m : holds [] m → m = ∅.
Proof.
  intros [Hs _]. apply map_empty. intros o. destruct (m !! o) as [x|] eqn:E; [|done].
  destruct (Hs _ _ E) as [H _]. by apply elem_of_nil in H.
Qed.

(** Such a map has the length of the message and one entry per chunk. *)
Lemma holds_total t l seq o cs m : cuts_ok cs → holds (parts t l seq o cs) m →
  total (λ x, len (data x)) m = len (concat cs) ∧ size m = length cs.
Proof.
  revert o m. induction cs as [|c cs IH]; intros o m Hc Hh; [done|].
  destruct (holds_parts _ _ _ _ _ _ _ Hc Hh) as (x & Hx & _ & Hd & Hrest).
  rewrite (total_delete _ m o x Hx), Hd. cbn [concat length]. rewrite len_app.
  assert (total (λ x, len (data x)) (delete o m) = len (concat cs) ∧ size (delete o m) = length cs) as [-> Hsz].
  { destruct (cuts_ok_tail _ _ Hc) as [->|Hc']; [|by eapply IH].
    cbn in Hrest. by rewrite (holds_nil _ Hrest), total_empty. }
  split; [done|]. rewrite <- Hsz. rewrite map_size_delete_Some by done.
  destruct (size m) eqn:E; [|done]. apply map_size_empty_inv in E. subst m. by rewrite lookup_empty in Hx.
Qed.

(** The loop of [pop] on a complete message. *)
Lemma pop_loop_complete t l seq o cs ms m raw : cuts_ok cs → holds (parts t l seq o cs) m →
  m ⊆ fragmentByOffset ms → 0 ≤ o → o + len (concat cs) = handshakeLength ms → handshakeLength ms < 2 ^ 24 →
  pop_loop (length cs) ms raw o = Some (raw ++ concat cs).
Proof.
  revert o m raw. induction cs as [|c cs IH]; intros o m raw Hc Hh Hm Ho Hl Hmax; [done|].
  destruct (holds_parts _ _ _ _ _ _ _ Hc Hh) as (x & Hx & Hxh & Hd & Hrest).
  cbn [length pop_loop concat]. cbn [concat] in Hl. rewrite len_app in Hl.
  pose proof (len_nonneg c). pose proof (len_nonneg (concat cs)).
  destruct (Z.ltb_spec o (handshakeLength ms)) as [_|Hge].
  2: { rewrite (len_zero_nil c), (len_zero_nil (concat cs)) by lia. by rewrite app_nil_r. }
  rewrite (lookup_weaken _ _ _ _ Hx Hm), Hxh, Hd. cbn [FragmentOffset FragmentLength].
  assert (u32 (o + len c) = o + len c) as -> by (unfold u32; apply Z.mod_small; lia).
  destruct (cuts_ok_tail _ _ Hc) as [->|Hc']; [cbn; by rewrite app_nil_r|].
  rewrite (IH (o + len c) (delete o m)); [by rewrite (assoc_L (++))|done|done| |lia|lia|done].
  etrans; [apply delete_subseteq|done].
Qed.

(** ** Records of fragments *)

(** A handshake record: its header and its fragments. *)
Definition record := (RecordHeader.Header * list (Header * list Z))%type.

Definition fragment_bytes (p : Header * list Z) : list Z := Header_Marshal p.1 ++ p.2.

Definition record_bytes (r : record) : list Z :=
  match RecordHeader.Header_Marshal r.1 with Ok b => b | _ => [] end ++ concat (map fragment_bytes r.2).

Definition part_ok (p : Header * list Z) : Prop :=
  header_ok p.1 ∧ len p.2 = FragmentLength p.1 ∧ bytes_ok p.2.

Definition record_ok (r : record) : Prop :=
  RecordHeader.header_ok r.1 ∧ RecordHeader.ContentType r.1 = Protocol.ContentTypeHandshake ∧ Forall part_ok r.2.

(** What [push] does with one fragment. *)
Definition accept (rh : RecordHeader.Header) (f : fragmentBuffer) (p : Header * list Z) : fragmentBuffer :=
  if MessageSequence p.1 <? currentMessageSequenceNumber f then f else insert_fragment f (MkFragment rh p.1 p.2).

Lemma push_loop_accept rh f ps r fuel : Forall part_ok ps → (length (concat (map fragment_bytes ps)) ≤ fuel)%nat →
  (push_loop fuel rh f (concat (map fragment_bytes ps)) r).1 = foldl (accept rh) f ps.
Proof.
  intros Hps. revert f r fuel. induction Hps as [|[h d] ps (Hh & Hd & Hbd) Hps IH]; intros f r fuel Hfuel;
    [by destruct fuel|]. cbn [map concat foldl] in *.
  set (next := concat (map fragment_bytes ps)) in *. unfold fragment_bytes at 1. cbn [fst snd] in *.
  rewrite <- (assoc_L (++)). unfold fragment_bytes in Hfuel. cbn [fst snd] in Hfuel.
  rewrite !length_app in Hfuel. change (length (Header_Marshal h)) with 12%nat in Hfuel.
  destruct fuel as [|fuel]; [lia|].
  pose proof (handshake_header_roundtrip h (d ++ next) Hh) as Hrt.
  set (buf := Header_Marshal h ++ d ++ next) in *.
  assert (push_loop (S fuel) rh f buf r = push_loop (S fuel) rh f (Type_ h :: tail buf) r) as -> by done.
  cbn [push_loop]. change (Type_ h :: tail buf) with buf. rewrite Hrt.
  pose proof (len_nonneg next). assert (len buf = HeaderLength + len d + len next) as Hlen
    by (unfold buf; rewrite !len_app, len_Header_Marshal; lia).
  destruct (Z.ltb_spec (len buf) (HeaderLength + FragmentLength h)); [lia|].
  assert (slice_from (E:=dtls_error) buf (HeaderLength + FragmentLength h) = Ok next) as ->.
  { unfold buf. rewrite (assoc_L (++)). apply slice_from_app. rewrite len_app, len_Header_Marshal. lia. }
  unfold accept at 2. cbn [fst snd]. destruct (MessageSequence h <? currentMessageSequenceNumber f).
  - apply IH. lia.
  - assert (slice (E:=dtls_error) buf HeaderLength (HeaderLength + FragmentLength h) = Ok d) as ->
      by (unfold buf; apply slice_mid; rewrite len_Header_Marshal; lia).
    apply IH. lia.
Qed.

Lemma push_record f r : record_ok r → totalBufferSize f + len (record_bytes r) < fragmentBufferMaxSize →
  totalFragmentCount f < fragmentBufferMaxCount →
  (push f (record_bytes r)).1 = foldl (accept r.1) f r.2.
Proof.
  destruct r as [rh ps]. intros (Hrh & Hct & Hps) Hs Hc. cbn [fst snd] in *. unfold push.
  destruct (Z.leb_spec fragmentBufferMaxSize (totalBufferSize f + len (record_bytes (rh, ps)))); [lia|].
  destruct (Z.leb_spec fragmentBufferMaxCount (totalFragmentCount f)); [lia|]. cbn [orb].
  assert (RecordHeader.ConnectionID rh = []) as Hcid by (apply Hrh; by rewrite Hct).
  unfold record_bytes. cbn [fst snd].
  destruct (RecordHeader.Header_roundtrip rh (RecordHeader.MkHeader 0 0 (Protocol.MkVersion 0 0) 0 0 [])
    (concat (map fragment_bytes ps)) Hrh) as (b & -> & Hlb & ->); [by rewrite Hcid|].
  rewrite Hct. cbn [negb]. change (_ =? _) with true. cbn [negb].
  rewrite slice_from_app by (rewrite Hlb; unfold RecordHeader.Header_Size; by rewrite Hcid).
  by apply push_loop_accept.
Qed.

Lemma accept_ok rh f p : buffer_ok f → part_ok p → totalBufferSize f + len p.2 < fragmentBufferMaxSize →
  buffer_ok (accept rh f p) ∧ currentMessageSequenceNumber (accept rh f p) = currentMessageSequenceNumber f ∧
  totalBufferSize (accept rh f p) ≤ totalBufferSize f + len p.2 ∧
  totalFragmentCount (accept rh f p) ≤ totalFragmentCount f + 1 ∧ extends f (accept rh f p).
Proof.
  intros Hok (Hh & Hd & _) Hmax. unfold accept. pose proof (len_nonneg p.2).
  destruct (MessageSequence p.1 <? currentMessageSequenceNumber f); [split; [done|]; split; [done|]; split; [lia|]; split; [lia|done]|].
  destruct (insert_fragment_ok f (MkFragment rh p.1 p.2) Hok Hh Hd Hmax) as (? & ? & ? & ?).
  split; [done|]. split; [done|]. split; [cbn in *; lia|]. split; [lia|].
  apply insert_fragment_extends; [done|done|cbn; lia].
Qed.

Section collecting.
Context (t l seq : Z) (cs : list (list Z)).

(** The buffer has of message [seq] only parts of the cut, and those among [seen]. *)
Record collecting (f : fragmentBuffer) (seen : list (Header * list Z)) : Prop := {
  co_ok : buffer_ok f;
  co_current : currentMessageSequenceNumber f = seq;
  co_sound : ∀ ms, cache f !! seq = Some ms → handshakeLength ms = l ∧
    ∀ o x, fragmentByOffset ms !! o = Some x → (handshakeHeader x, data x) ∈ parts t l seq 0 cs;
  co_complete : ∀ p, p ∈ seen → MessageSequence p.1 = seq →
    ∃ ms, cache f !! seq = Some ms ∧ is_Some (fragmentByOffset ms !! FragmentOffset p.1)
}.

Lemma parts_length o p : p ∈ parts t l seq o cs → Length p.1 = l ∧ MessageSequence p.1 = seq.
Proof.
  revert o. induction cs as [|c cs' IH]; intros o; cbn; [by intros ?%elem_of_nil|].
  intros [->|Hp]%elem_of_cons; [done|by eapply IH].
Qed.

Lemma insert_fragment_lookup f x : let h := handshakeHeader x in
  ∃ ms, cache (insert_fragment f x) !! MessageSequence h = Some ms ∧ is_Some (fragmentByOffset ms !! FragmentOffset h) ∧
    (handshakeLength ms = Length h ∨ ∃ ms0, cache f !! MessageSequence h = Some ms0 ∧ handshakeLength ms = handshakeLength ms0) ∧
    ∀ o y, fragmentByOffset ms !! o = Some y → y = x ∨
      ∃ ms0, cache f !! MessageSequence h = Some ms0 ∧ fragmentByOffset ms0 !! o = Some y.
Proof.
  intros h. unfold insert_fragment. fold h.
  remember (match cache f !! MessageSequence h with Some ms => ms | None => _ end) as ms eqn:Ems.
  assert ((handshakeLength ms = Length h ∨ ∃ ms0, cache f !! MessageSequence h = Some ms0 ∧ handshakeLength ms = handshakeLength ms0) ∧
    ∀ o y, fragmentByOffset ms !! o = Some y → ∃ ms0, cache f !! MessageSequence h = Some ms0 ∧ fragmentByOffset ms0 !! o = Some y)
    as [Hl Hf].
  { destruct (cache f !! MessageSequence h) as [ms0|]; subst ms; [split; [right|]; eauto|].
    split; [by left|]. intros o y. cbn. by rewrite lookup_empty. }
  destruct (fragmentByOffset ms !! FragmentOffset h) as [y|] eqn:Ey; cbn; rewrite lookup_insert_eq; eexists;
    (split; [done|]); cbn.
  - split; [by eexists|]. split; [done|]. intros o z Hz. right. by apply Hf.
  - rewrite lookup_insert_eq. split; [by eexists|]. split; [done|].
    intros o z. rewrite lookup_insert. case_decide; [intros [= <-]; by left|]. intros Hz. right. by apply Hf.
Qed.

Lemma insert_fragment_other f x s : MessageSequence (handshakeHeader x) ≠ s → cache (insert_fragment f x) !! s = cache f !! s.
Proof.
  intros Hne. unfold insert_fragment.
  by destruct (fragmentByOffset _ !! _); cbn; rewrite lookup_insert_ne.
Qed.

Lemma accept_collecting rh f seen p : collecting f seen → part_ok p →
  totalBufferSize f + len p.2 < fragmentBufferMaxSize →
  (MessageSequence p.1 = seq → p ∈ parts t l seq 0 cs) → collecting (accept rh f p) (p :: seen).
Proof.
  intros [Hok Hcur Hs Hc] Hp Hmax Hin.
  destruct (accept_ok rh f p Hok Hp Hmax) as (Hok' & Hcur' & _ & _ & Hext).
  split; [done|congruence| |].
  - intros ms. unfold accept. rewrite Hcur. destruct (Z.ltb_spec (MessageSequence p.1) seq); [apply Hs|].
    destruct (decide (MessageSequence p.1 = seq)) as [Heq|Hne]; [|rewrite insert_fragment_other by done; apply Hs].
    destruct (insert_fragment_lookup f (MkFragment rh p.1 p.2)) as (m & Hm & _ & Hl & Hf). cbn in Hm, Hl, Hf.
    rewrite Heq in *. rewrite Hm. intros [= <-]. specialize (Hin eq_refl). split.
    + destruct Hl as [->|(ms0 & H0 & ->)]; [by apply parts_length in Hin as [-> _]|by apply Hs].
    + intros o x Hx. destruct (Hf o x Hx) as [->|(ms0 & H0 & H1)]; [by destruct p|by eapply Hs].
  - intros q [->|Hq]%elem_of_cons Hqs.
    + unfold accept. rewrite Hcur, Hqs, Z.ltb_irrefl.
      destruct (insert_fragment_lookup f (MkFragment rh p.1 p.2)) as (m & Hm & Ho & _). cbn in Hm, Ho.
      rewrite Hqs in Hm. by exists m.
    + destruct (Hc q Hq Hqs) as (ms & Hms & x & Hx). destruct (Hext _ _ Hms) as (ms' & Hms' & _ & _ & Hsub).
      exists ms'. split; [done|]. exists x. by eapply lookup_weaken.
Qed.

Lemma fold_accept_collecting rh ps f seen : collecting f seen → Forall part_ok ps →
  totalBufferSize f + len (concat (map snd ps)) < fragmentBufferMaxSize →
  (∀ p, p ∈ ps → MessageSequence p.1 = seq → p ∈ parts t l seq 0 cs) →
  collecting (foldl (accept rh) f ps) (reverse ps ++ seen) ∧
  totalBufferSize (foldl (accept rh) f ps) ≤ totalBufferSize f + len (concat (map snd ps)) ∧
  totalFragmentCount (foldl (accept rh) f ps) ≤ totalFragmentCount f + len ps.
Proof.
  intros Hco Hps. revert f seen Hco. induction Hps as [|p ps Hp Hps IH]; intros f seen Hco Hmax Hin.
  { cbn. unfold len. cbn. split; [done|]. lia. }
  cbn [foldl map concat]. cbn [map concat] in Hmax. rewrite len_app in *. rewrite reverse_cons, <- (assoc_L (++)).
  pose proof (len_nonneg (concat (map snd ps))).
  destruct (accept_ok rh f p (co_ok _ _ Hco) Hp) as (_ & _ & Hs & Hn & _); [lia|].
  destruct (IH (accept rh f p) (p :: seen)) as (Hco' & Hs' & Hn').
  - apply accept_collecting; [done|done|lia|]. apply Hin. by left.
  - lia.
  - intros q Hq. apply Hin. by right.
  - split; [done|]. rewrite len_cons. lia.
Qed.

Lemma len_record_bytes r : len (concat (map snd r.2)) ≤ len (record_bytes r).
Proof.
  unfold record_bytes. rewrite len_app. pose proof (len_nonneg (match RecordHeader.Header_Marshal r.1 with Ok b => b | _ => [] end)).
  assert (len (concat (map snd r.2)) ≤ len (concat (map fragment_bytes r.2))); [|lia].
  induction r.2 as [|p ps IH]; cbn [map concat]; [done|]. rewrite !len_app.
  assert (len (fragment_bytes p) = HeaderLength + len p.2) by (unfold fragment_bytes; by rewrite len_app).
  unfold HeaderLength in *. lia.
Qed.

Lemma run_records_collecting rs f seen : collecting f seen → Forall record_ok rs →
  totalBufferSize f + len (concat (map record_bytes rs)) < fragmentBufferMaxSize →
  totalFragmentCount f + len (concat (map snd rs)) < fragmentBufferMaxCount →
  (∀ r p, r ∈ rs → p ∈ r.2 → MessageSequence p.1 = seq → p ∈ parts t l seq 0 cs) →
  ∃ f' seen', run (map (λ r, Push (record_bytes r)) rs) f = Ok (f', []) ∧ collecting f' seen' ∧
    (∀ p, p ∈ seen → p ∈ seen') ∧ ∀ r p, r ∈ rs → p ∈ r.2 → p ∈ seen'.
Proof.
  intros Hco Hrs. revert f seen Hco. induction Hrs as [|r rs Hr Hrs IH]; intros f seen Hco Hs Hn Hin.
  { exists f, seen. split; [done|]. split; [done|]. split; [done|]. by intros r p ?%elem_of_nil. }
  cbn [map concat] in *. rewrite len_app in Hs. rewrite len_app in Hn. cbn [run step]. cbn [mbind res_bind].
  pose proof (len_nonneg (concat (map record_bytes rs))). pose proof (len_nonneg (concat (map snd rs))).
  pose proof (len_nonneg r.2). pose proof (len_record_bytes r).
  rewrite push_record by (done || lia).
  destruct (fold_accept_collecting r.1 r.2 f seen Hco) as (Hco' & Hs' & Hn'); [apply Hr|lia| |].
  { intros p Hp. apply (Hin r); [by left|done]. }
  edestruct (IH _ _ Hco') as (f' & seen' & -> & Hco'' & Hold & Hall); [lia|lia| |].
  { intros r' p Hr' Hp. apply (Hin r'); [by right|done]. }
  exists f', seen'. split; [done|]. split; [done|]. split.
  - intros p Hp. apply Hold, elem_of_app. by right.
  - intros r' p [->|Hr']%elem_of_cons Hp; [|by eapply Hall]. apply Hold, elem_of_app. left. by apply elem_of_reverse.
Qed.

(** Once every part was seen, [pop] hands the message out. *)
Lemma pop_collected f seen : collecting f seen → cuts_ok cs → l = len (concat cs) → l < 2 ^ 24 →
  (∀ p, p ∈ parts t l seq 0 cs → p ∈ seen) →
  ∃ epoch f', pop f = Ok (Some (message t l seq (concat cs), epoch), f').
Proof.
  intros [Hok Hcur Hs Hc] Hcut Hl Hl24 Hall.
  assert (∃ ms, cache f !! seq = Some ms) as [ms Hms].
  { destruct cs as [|c cs']; [done|]. destruct (Hc (MkHeader t l seq 0 (len c), c)) as (ms & Hms & _); [|done|by exists ms].
    apply Hall. by left. }
  pose proof (bo_frags _ Hok _ _ Hms) as Hfo. destruct (Hs ms Hms) as [Hhl Hparts].
  assert (holds (parts t l seq 0 cs) (fragmentByOffset ms)) as Hh.
  { split.
    - intros o x Hx. split; [by eapply Hparts|]. by destruct (fo_frag _ _ Hfo o x Hx) as (_ & ? & _).
    - intros p Hp. destruct (Hc p) as (ms' & Hms' & ?); [by apply Hall|by apply parts_length in Hp as [_ ?]|].
      by assert (ms' = ms) as -> by congruence. }
  destruct (holds_total _ _ _ _ _ _ Hcut Hh) as [Htot Hsz]. pose proof (fo_length _ _ Hfo) as Hfl.
  unfold pop. rewrite Hcur, Hms, Hfl, Htot, Hhl, Hl, Z.eqb_refl. cbn [negb]. rewrite Hsz.
  rewrite (pop_loop_complete t l seq 0 cs ms (fragmentByOffset ms) []); [|done|done|done|done|lia|lia].
  cbn [app]. rewrite Z.eqb_refl. cbn [negb].
  destruct cs as [|c cs']; [done|].
  destruct (holds_parts _ _ _ _ _ _ _ Hcut Hh) as (x & -> & -> & _). rewrite <- Hl. cbn. by eexists _, _.
Qed.

End collecting.

(** ** Properties *)

Lemma run_spec n ops f : 0 ≤ n → Forall (op_ok n) ops → buffer_ok f →
  totalFragmentCount f ≤ fragmentBufferMaxCount - 1 + n / HeaderLength →
  match run ops f with
  | Ok (f', ms) => buffer_ok f' ∧ totalFragmentCount f' ≤ fragmentBufferMaxCount - 1 + n / HeaderLength ∧
      numbered (currentMessageSequenceNumber f) ms ∧
      currentMessageSequenceNumber f' = u16 (currentMessageSequenceNumber f + len ms)
  | Panic => ∃ ops1 ops2 f' ms, ops = ops1 ++ Pop :: ops2 ∧ run ops1 f = Ok (f', ms) ∧ headless f'
  | Err _ => False
  end.
Proof.
  intros Hn Hops. revert f. induction Hops as [|o ops Ho Hops IH]; intros f Hok Hcnt; cbn [run].
  { split; [done|]. split; [done|]. split; [intros i m ep; by rewrite lookup_nil|].
    pose proof (bo_current _ Hok) as Hc. unfold is_u16, u16, len in *. cbn. rewrite Z.mod_small; lia. }
  pose proof (step_spec n o f Hok Ho Hn) as Hstep.
  destruct (step o f) as [[f1 ms1]|e|] eqn:Es; cbn [mbind res_bind]; [|done|].
  2: { destruct Hstep as [-> Hz]. by exists [], ops, f, []. }
  destruct Hstep as (Hok1 & Hnum1 & Hcur1 & Hcnt1). specialize (IH f1 Hok1 ltac:(lia)).
  destruct (run ops f1) as [[f2 ms2]|e|]; cbn [mbind res_bind]; [|done|].
  - destruct IH as (Hok2 & Hcnt2 & Hnum2 & Hcur2). split; [done|]. split; [done|]. rewrite Hcur1 in *.
    assert (∀ k, u16 (u16 (currentMessageSequenceNumber f + len ms1) + k) =
      u16 (currentMessageSequenceNumber f + len ms1 + k)) as Hu by (intros k; unfold u16; by rewrite Zplus_mod_idemp_l).
    split; [|rewrite len_app; by rewrite Hcur2, Hu, Z.add_assoc]. apply numbered_app; [done|].
    intros i m ep Hi. destruct (Hnum2 i m ep Hi) as (t & l & body & Hb & ->). exists t, l, body. by rewrite Hu.
  - destruct IH as (ops1 & ops2 & f' & ms & -> & Hr & Hz). exists (o :: ops1), ops2, f', (ms1 ++ ms).
    split; [done|]. split; [|done]. cbn [run]. rewrite Es. cbn [mbind res_bind]. by rewrite Hr.
Qed.

(** whatever records of at most [n] bytes are pushed and however the calls to
    [push] and [pop] interleave, the buffer stays below its limit of 2,000,000
    bytes, its counters are exactly the bytes and the fragments it holds, the
    fragments exceed the limit of 1,000 by less than one record, and the messages
    handed out carry the consecutive numbers 0, 1, 2, ... (modulo 2^16).  The only
    panic is a [pop] of a message of length zero without fragment at offset 0. *)
Theorem fragment_buffer_safe n ops : 0 ≤ n → Forall (op_ok n) ops →
  match run ops newFragmentBuffer with
  | Ok (f, ms) => buffer_ok f ∧ totalFragmentCount f ≤ fragmentBufferMaxCount - 1 + n / HeaderLength ∧
      numbered 0 ms ∧ currentMessageSequenceNumber f = u16 (len ms)
  | Panic => ∃ ops1 ops2 f ms, ops = ops1 ++ Pop :: ops2 ∧ run ops1 newFragmentBuffer = Ok (f, ms) ∧ headless f
  | Err _ => False
  end.
Proof.
  intros Hn Hops. apply (run_spec n ops newFragmentBuffer Hn Hops newFragmentBuffer_ok).
  assert (0 ≤ n / HeaderLength) by (by apply Z.div_pos). cbn in *. unfold fragmentBufferMaxCount. lia.
Qed.

(** As soon as every fragment was pushed, the message is handed out. *)
Lemma reassembled t cs f rs : let l := len (concat cs) in let seq := currentMessageSequenceNumber f in
  buffer_ok f → cache f !! seq = None → cuts_ok cs → l < 2 ^ 24 → Forall record_ok rs →
  totalBufferSize f + len (concat (map record_bytes rs)) < fragmentBufferMaxSize →
  totalFragmentCount f + len (concat (map snd rs)) < fragmentBufferMaxCount →
  (∀ r p, r ∈ rs → p ∈ r.2 → MessageSequence p.1 = seq → p ∈ parts t l seq 0 cs) →
  (∀ p, p ∈ parts t l seq 0 cs → ∃ r, r ∈ rs ∧ p ∈ r.2) →
  ∃ f' epoch, run (map (λ r, Push (record_bytes r)) rs ++ [Pop]) f = Ok (f', [(message t l seq (concat cs), epoch)]).
Proof.
  intros l seq Hok Hnone Hcut Hl Hrs Hs Hn Hin Hall.
  destruct (run_records_collecting t l seq cs rs f []) as (f' & seen & Hrun & Hco & _ & Hseen); [|done..|].
  { split; [done|done|intros ms Hms; congruence|by intros p ?%elem_of_nil]. }
  destruct (pop_collected t l seq cs f' seen Hco Hcut eq_refl Hl) as (epoch & f'' & Hpop).
  { intros p Hp. destruct (Hall p Hp) as (r & Hr & Hpr). by eapply Hseen. }
  exists f'', epoch. rewrite run_app, Hrun. cbn [mbind res_bind run step]. by rewrite Hpop.
Qed.

(** a message cut into fragments is reassembled: whatever the order, the
    duplicates, the records and the fragments of other messages in between, as
    soon as every fragment of the next message was pushed, [pop] hands out its
    header and its body. *)
Theorem fragments_reassemble t cs f rs : let l := len (concat cs) in let seq := currentMessageSequenceNumber f in
  buffer_ok f → cache f !! seq = None → cuts_ok cs → l < 2 ^ 24 → Forall record_ok rs →
  totalBufferSize f + len (concat (map record_bytes rs)) < fragmentBufferMaxSize →
  totalFragmentCount f + len (concat (map snd rs)) < fragmentBufferMaxCount →
  (∀ r p, r ∈ rs → p ∈ r.2 → MessageSequence p.1 = seq → p ∈ parts t l seq 0 cs) →
  (∀ p, p ∈ parts t l seq 0 cs → ∃ r, r ∈ rs ∧ p ∈ r.2) →
  ∃ f' epoch, run (map (λ r, Push (record_bytes r)) rs ++ [Pop]) f = Ok (f', [(message t l seq (concat cs), epoch)]).
Proof. apply reassembled. Qed.

(** A cut of a message in three and the records that carry it, out of order and with
    a duplicate and a fragment of the next message. *)
Definition example_cut : list (list Z) := [[1; 2]; [3]; [4; 5; 6]].

Definition example_header (seq : Z) : RecordHeader.Header :=
  RecordHeader.MkHeader Protocol.ContentTypeHandshake 0 Protocol.Version1_2 0 seq [].

Definition example_records : list record :=
  [(example_header 0, [(MkHeader 1 6 0 3 3, [4; 5; 6]); (MkHeader 2 9 1 0 1, [7])]);
   (example_header 1, [(MkHeader 1 6 0 0 2, [1; 2]); (MkHeader 1 6 0 3 3, [4; 5; 6])]);
   (example_header 2, [(MkHeader 1 6 0 2 1, [3])])].

Lemma fragments_reassemble_witness :
  ∃ f' epoch, run (map (λ r, Push (record_bytes r)) example_records ++ [Pop]) newFragmentBuffer =
    Ok (f', [(message 1 6 0 [1; 2; 3; 4; 5; 6], epoch)]).
Proof.
  apply (fragments_reassemble 1 example_cut newFragmentBuffer example_records newFragmentBuffer_ok).
  - done.
  - done.
  - done.
  - repeat constructor; cbn; done.
  - done.
  - done.
  - intros r p Hr Hp. unfold example_records in Hr. rewrite !elem_of_cons, elem_of_nil in Hr.
    destruct Hr as [->|[->|[->|[]]]]; cbn in Hp; rewrite ?elem_of_cons, ?elem_of_nil in Hp;
      destruct_or?; subst; cbn; try done; intros _; by repeat constructor.
  - intros p Hp. cbn in Hp. rewrite !elem_of_cons, elem_of_nil in Hp.
    destruct Hp as [->|[->|[->|[]]]];
      [exists (nth 1 example_records (example_header 0, []))|exists (nth 2 example_records (example_header 0, []))
      |exists (nth 0 example_records (example_header 0, []))]; (split; unfold example_records; cbn [nth snd]; by repeat constructor).
Defined.

Lemma fragment_buffer_safe_witness :
  let ops := map (λ r, Push (record_bytes r)) example_records ++ [Pop; Pop] in
  match run ops newFragmentBuffer with
  | Ok (f, ms) => totalFragmentCount f ≤ 1364 ∧ currentMessageSequenceNumber f = u16 (len ms)
  | _ => False
  end.
Proof.
  intros ops. pose proof (fragment_buffer_safe 4390 ops ltac:(done)) as H.
  assert (Forall (op_ok 4390) ops) as Hops by (repeat constructor; cbn; done).
  specialize (H Hops). destruct (run ops newFragmentBuffer) as [[f ms]|e|] eqn:E; [|done|].
  - destruct H as (_ & Hc & _ & Hs). split; [exact Hc|exact Hs].
  - by vm_compute in E.
Defined.

(** a record with one handshake fragment of length zero at an offset that is not
    zero, which any peer can send, makes the next [pop] panic: the fragment is stored,
    and [pop] takes the one at offset 0 without looking whether there is one. *)
Theorem zero_length_fragment_panics o seq : is_u24 o → is_u48 seq → o ≠ 0 →
  run [Push (record_bytes (example_header seq, [(MkHeader 1 0 0 o 0, [])])); Pop] newFragmentBuffer = Panic.
Proof.
  intros Ho Hseq Hne. cbn [run step]. cbn [mbind res_bind]. set (r := (example_header seq, _)).
  assert (record_ok r) as Hr.
  { split; [split; cbn; [done|done|by right|done|done|done]|]. split; [done|].
    apply Forall_singleton. split; [by split|]. split; [done|]. by apply Forall_nil. }
  assert (len (record_bytes r) = 25) as Hlen.
  { unfold record_bytes. destruct Hr as [Hh _].
    destruct (RecordHeader.Header_roundtrip _ (example_header 0) [] Hh) as (b & -> & Hlb & _); [done|].
    by rewrite len_app, Hlb. }
  rewrite push_record; [|done|by rewrite Hlen|done]. cbn [r fst snd foldl]. unfold accept, insert_fragment, pop.
  cbn -[insert]. change ((∅ : gmap Z fragments) !! 0) with (None : option fragments). cbn -[insert].
  rewrite lookup_empty. cbn -[insert]. rewrite lookup_insert_eq. cbn -[insert].
  rewrite map_size_insert_None by done. cbn -[insert]. by rewrite lookup_insert_ne.
Qed.

Lemma zero_length_fragment_panics_witness :
  run [Push (record_bytes (example_header 0, [(MkHeader 1 0 0 1 0, [])])); Pop] newFragmentBuffer = Panic.
Proof. apply (zero_length_fragment_panics 1 0); done. Defined.

(** More fragment bytes than the message has. *)
Definition overfull (f : fragmentBuffer) : Prop :=
  ∃ ms, cache f !! currentMessageSequenceNumber f = Some ms ∧ handshakeLength ms < fragmentsLength ms.

Lemma overfull_step n o f : buffer_ok f → overfull f → op_ok n o →
  ∃ f', step o f = Ok (f', []) ∧ buffer_ok f' ∧ overfull f'.
Proof.
  intros Hok (ms & Hms & Hlt) Ho. destruct o as [buf|]; cbn [step].
  - destruct Ho as [Hb _]. destruct (push_spec f buf Hok Hb) as ([Hok' Hcur _ _ Hext] & _).
    eexists. split; [done|]. split; [done|]. destruct (Hext _ _ Hms) as (ms' & Hms' & Hl & Hle & _).
    exists ms'. rewrite Hcur. split; [done|]. lia.
  - exists f. unfold pop. rewrite Hms. destruct (Z.eqb_spec (fragmentsLength ms) (handshakeLength ms)); [lia|].
    cbn. split; [done|]. split; [done|]. by exists ms.
Qed.

(** the buffer does not merge overlapping fragments, it adds their lengths up.
    Once the fragments of the next message add up to more than its length, as after a
    retransmission cut at other offsets, no sequence of further records makes [pop]
    hand out that message or a later one. *)
Theorem overlapping_fragments_stall n ops f : buffer_ok f → overfull f → Forall (op_ok n) ops →
  ∃ f', run ops f = Ok (f', []) ∧ overfull f'.
Proof.
  intros Hok Hov Hops. revert f Hok Hov. induction Hops as [|o ops Ho Hops IH]; intros f Hok Hov; cbn [run].
  { by exists f. }
  destruct (overfull_step n o f Hok Hov Ho) as (f1 & -> & Hok1 & Hov1). cbn [mbind res_bind].
  destruct (IH f1 Hok1 Hov1) as (f2 & -> & Hov2). by exists f2.
Qed.

(** A body of four bytes: a fragment with the first three, then the message cut in the middle. *)
Definition overlapping_record : list Z :=
  record_bytes (example_header 0, [(MkHeader 1 4 0 0 3, [1; 2; 3]); (MkHeader 1 4 0 2 2, [3; 4])]).

Definition retransmitted_record : list Z := record_bytes (example_header 1, [(MkHeader 1 4 0 0 4, [1; 2; 3; 4])]).

Lemma overlapping_fragments_stall_witness :
  ∃ f', run [Pop; Push retransmitted_record; Pop] (push newFragmentBuffer overlapping_record).1 = Ok (f', []) ∧ overfull f'.
Proof.
  apply (overlapping_fragments_stall 100).
  - destruct (push_spec newFragmentBuffer overlapping_record newFragmentBuffer_ok) as ([Hok _ _ _ _] & _); [|exact Hok].
    repeat constructor; done.
  - eexists. split; [vm_compute; reflexivity|]. vm_compute. done.
  - repeat constructor; cbn; done.
Defined.

End FragmentBuffer.
