(* ===== verification/Handshake.v ===== *)
(** * Handshake messages

    src/dtls/pkg/protocol/handshake: the handshake messages of DTLS 1.2 and 1.3
    with their encoders and decoders, and the [Handshake] that puts a header in
    front of them.  [Unmarshal] is modelled on a new value (with the key exchange
    algorithm that Handshake.Unmarshal sets), as the code calls it. *)

From stdpp Require Import base tactics numbers list strings.
From Stdlib Require Import ZArith Lia.
From S2P Require Import Prelude Wire SignatureHash Record Extensions Fragment.
Open Scope Z_scope.

Module Handshake.
Import Protocol SignatureHash Extension HandshakeHeader.

(** ** Types *)

Definition TypeHelloRequest : Z := 0.
Definition TypeClientHello : Z := 1.
Definition TypeServerHello : Z := 2.
Definition TypeHelloVerifyRequest : Z := 3.
Definition TypeEncryptedExtensions : Z := 8.
Definition TypeCertificate : Z := 11.
Definition TypeServerKeyExchange : Z := 12.
Definition TypeCertificateRequest : Z := 13.
Definition TypeServerHelloDone : Z := 14.
Definition TypeCertificateVerify : Z := 15.
Definition TypeClientKeyExchange : Z := 16.
Definition TypeFinished : Z := 20.

Definition RandomBytesLength : Z := 28.
Definition RandomLength : Z := RandomBytesLength + 4.

(** The time is kept in seconds, what [Unix] returns of it. *)
Record Random := MkRandom { GMTUnixTime : Z; RandomBytes : list Z }.

Definition MarshalFixed (r : Random) : list Z := be_put 4 (u32 (GMTUnixTime r)) ++ RandomBytes r.

Definition UnmarshalFixed (data : list Z) : Random := MkRandom (be_get (take 4 data)) (drop 4 data).

Record MessageClientHello := MkClientHello {
  ch_Version : Version;
  ch_Random : Random;
  ch_Cookie : list Z;
  ch_SessionID : list Z;
  ch_CipherSuiteIDs : list Z;
  ch_CompressionMethods : list Z;
  ch_Extensions : list Extension
}.

(** [CipherSuiteID] and [CompressionMethod] are pointers. *)
Record MessageServerHello := MkServerHello {
  sh_Version : Version;
  sh_Random : Random;
  sh_SessionID : list Z;
  sh_CipherSuiteID : option Z;
  sh_CompressionMethod : option Z;
  sh_Extensions : list Extension
}.

Record MessageHelloVerifyRequest := MkHelloVerifyRequest { hv_Version : Version; hv_Cookie : list Z }.

Record MessageCertificateRequest := MkCertificateRequest {
  cr_CertificateTypes : list Z;
  cr_SignatureHashAlgorithms : list Algorithm;
  cr_CertificateAuthoritiesNames : list (list Z)
}.

Record MessageCertificateVerify := MkCertificateVerify {
  cv_HashAlgorithm : Z;
  cv_SignatureAlgorithm : Z;
  cv_Signature : list Z
}.

(** Slices that the code compares with nil are options. *)
Record MessageClientKeyExchange := MkClientKeyExchange {
  ck_IdentityHint : option (list Z);
  ck_PublicKey : option (list Z)
}.

Record MessageServerKeyExchange := MkServerKeyExchange {
  sk_IdentityHint : option (list Z);
  sk_EllipticCurveType : Z;
  sk_NamedCurve : Z;
  sk_PublicKey : list Z;
  sk_HashAlgorithm : Z;
  sk_SignatureAlgorithm : Z;
  sk_Signature : list Z
}.

Record CertificateEntry13 := MkCertificateEntry13 { ce_CertificateData : list Z; ce_Extensions : list Extension }.

Record MessageCertificate13 := MkCertificate13 {
  c13_CertificateRequestContext : list Z;
  c13_CertificateList : list CertificateEntry13
}.

Record MessageCertificateRequest13 := MkCertificateRequest13 {
  cr13_CertificateRequestContext : list Z;
  cr13_Extensions : list Extension
}.

Inductive Message :=
  | ClientHello (m : MessageClientHello)
  | ServerHello (m : MessageServerHello)
  | HelloVerifyRequest (m : MessageHelloVerifyRequest)
  | EncryptedExtensions (es : list Extension)
  | Certificate (certs : list (list Z))
  | ServerKeyExchange (m : MessageServerKeyExchange)
  | CertificateRequest (m : MessageCertificateRequest)
  | ServerHelloDone
  | CertificateVerify (m : MessageCertificateVerify)
  | ClientKeyExchange (m : MessageClientKeyExchange)
  | Finished (verifyData : list Z)
  | Certificate13 (m : MessageCertificate13)
  | CertificateRequest13 (m : MessageCertificateRequest13).

Definition Message_Type (m : Message) : Z :=
  match m with
  | ClientHello _ => TypeClientHello
  | ServerHello _ => TypeServerHello
  | HelloVerifyRequest _ => TypeHelloVerifyRequest
  | EncryptedExtensions _ => TypeEncryptedExtensions
  | Certificate _ | Certificate13 _ => TypeCertificate
  | ServerKeyExchange _ => TypeServerKeyExchange
  | CertificateRequest _ | CertificateRequest13 _ => TypeCertificateRequest
  | ServerHelloDone => TypeServerHelloDone
  | CertificateVerify _ => TypeCertificateVerify
  | ClientKeyExchange _ => TypeClientKeyExchange
  | Finished _ => TypeFinished
  end.

Section codec.
Context `{Cryptobyte}.

(** ** cipher_suite.go *)

(** [count] suites from index [i] on. *)
Fixpoint decodeCipherSuiteIDs_loop (count : nat) (i : Z) (buf : list Z) : res dtls_error (list Z) :=
  match count with
  | O => Ok []
  | S count =>
      if len buf <? i * 2 + 4 then Err ErrBufferTooSmall else
      d ← slice_from buf (i * 2 + 2);
      id ← Uint16 d;
      ids ← decodeCipherSuiteIDs_loop count (i + 1) buf;
      Ok (id :: ids)
  end.

Definition decodeCipherSuiteIDs (buf : list Z) : res dtls_error (list Z) :=
  if len buf <? 2 then Err ErrBufferTooSmall else
  n ← Uint16 buf;
  decodeCipherSuiteIDs_loop (Z.to_nat (n / 2)) 0 buf.

Definition encodeCipherSuiteIDs (ids : list Z) : list Z :=
  be_put 2 (u16 (len ids * 2)) ++ concat (be_put 2 <$> ids).

(** ** message_client_hello.go *)

Definition handshakeMessageClientHelloVariableWidthStart : Z := 34.

Definition ClientHello_Marshal (m : MessageClientHello) : res dtls_error (list Z) :=
  if 255 <? len (ch_Cookie m) then Err ErrCookieTooLong else
  if 255 <? len (ch_SessionID m) then Err ErrSessionIDTooLong else
  if 255 <? len (ch_CompressionMethods m) then Err ErrCompressionMethodsTooLong else
  extensions ← Extension.Marshal (ch_Extensions m);
  Ok ([Major (ch_Version m); Minor (ch_Version m)] ++ MarshalFixed (ch_Random m) ++
      [u8 (len (ch_SessionID m))] ++ ch_SessionID m ++ [u8 (len (ch_Cookie m))] ++ ch_Cookie m ++
      encodeCipherSuiteIDs (ch_CipherSuiteIDs m) ++ EncodeCompressionMethods (ch_CompressionMethods m) ++ extensions).

(** The bytes from [currOffset] on that the length byte before it announces, and the offset after them. *)
Definition variable_field (data : list Z) (currOffset : Z) : res dtls_error (list Z * Z) :=
  let currOffset := currOffset + 1 in
  if len data <=? currOffset then Err ErrBufferTooSmall else
  n ← idx data (currOffset - 1);
  if len data <=? currOffset + n then Err ErrBufferTooSmall else
  field ← slice data currOffset (currOffset + n);
  Ok (field, currOffset + len field).

Definition ClientHello_Unmarshal (data : list Z) : res dtls_error MessageClientHello :=
  if len data <? 2 + RandomLength then Err ErrBufferTooSmall else
  major ← idx data 0;
  minor ← idx data 1;
  d ← slice_from data 2;
  let random := UnmarshalFixed (take (Z.to_nat RandomLength) d) in
  '(sessionID, currOffset) ← variable_field data handshakeMessageClientHelloVariableWidthStart;
  '(cookie, currOffset) ← variable_field data currOffset;
  if len data <? currOffset then Err ErrBufferTooSmall else
  d ← slice_from data currOffset;
  cipherSuiteIDs ← decodeCipherSuiteIDs d;
  if len data <? currOffset + 2 then Err ErrBufferTooSmall else
  d ← slice_from data currOffset;
  n ← Uint16 d;
  let currOffset := currOffset + (n + 2) in
  if len data <? currOffset then Err ErrBufferTooSmall else
  d ← slice_from data currOffset;
  compressionMethods ← DecodeCompressionMethods d;
  if len data <? currOffset then Err ErrBufferTooSmall else
  n ← idx data currOffset;
  let currOffset := currOffset + (n + 1) in
  d ← slice_from data currOffset;
  extensions ← Extension.Unmarshal d;
  Ok (MkClientHello (MkVersion major minor) random cookie sessionID cipherSuiteIDs compressionMethods extensions).

(** ** message_server_hello.go *)

Definition messageServerHelloVariableWidthStart : Z := 2 + RandomLength.

Definition ServerHello_Marshal (m : MessageServerHello) : res dtls_error (list Z) :=
  match sh_CipherSuiteID m, sh_CompressionMethod m with
  | None, _ => Err ErrCipherSuiteUnset
  | _, None => Err ErrCompressionMethodUnset
  | Some id, Some compression =>
      if 255 <? len (sh_SessionID m) then Err ErrSessionIDTooLong else
      extensions ← Extension.Marshal (sh_Extensions m);
      Ok ([Major (sh_Version m); Minor (sh_Version m)] ++ MarshalFixed (sh_Random m) ++
          [u8 (len (sh_SessionID m))] ++ sh_SessionID m ++ be_put 2 id ++ [compression] ++ extensions)
  end.

Definition ServerHello_Unmarshal (data : list Z) : res dtls_error MessageServerHello :=
  if len data <? 2 + RandomLength then Err ErrBufferTooSmall else
  major ← idx data 0;
  minor ← idx data 1;
  d ← slice_from data 2;
  let random := UnmarshalFixed (take (Z.to_nat RandomLength) d) in
  '(sessionID, currOffset) ← variable_field data messageServerHelloVariableWidthStart;
  if len data <? currOffset + 2 then Err ErrBufferTooSmall else
  d ← slice_from data currOffset;
  id ← Uint16 d;
  let currOffset := currOffset + 2 in
  if len data <=? currOffset then Err ErrBufferTooSmall else
  c ← idx data currOffset;
  if negb (known_compression c) then Err ErrInvalidCompressionMethod else
  let currOffset := currOffset + 1 in
  if len data <=? currOffset
  then Ok (MkServerHello (MkVersion major minor) random sessionID (Some id) (Some c) [])
  else
    d ← slice_from data currOffset;
    extensions ← Extension.Unmarshal d;
    Ok (MkServerHello (MkVersion major minor) random sessionID (Some id) (Some c) extensions).

(** ** message_hello_verify_request.go, message_encrypted_extensions.go, message_finished.go *)

Definition HelloVerifyRequest_Marshal (m : MessageHelloVerifyRequest) : res dtls_error (list Z) :=
  if 255 <? len (hv_Cookie m) then Err ErrCookieTooLong else
  Ok ([Major (hv_Version m); Minor (hv_Version m); u8 (len (hv_Cookie m))] ++ hv_Cookie m).

Definition HelloVerifyRequest_Unmarshal (data : list Z) : res dtls_error MessageHelloVerifyRequest :=
  if len data <? 3 then Err ErrBufferTooSmall else
  major ← idx data 0;
  minor ← idx data 1;
  cookieLength ← idx data 2;
  if len data <? cookieLength + 3 then Err ErrBufferTooSmall else
  cookie ← slice data 3 (3 + cookieLength);
  Ok (MkHelloVerifyRequest (MkVersion major minor) cookie).

Definition EncryptedExtensions_Marshal (es : list Extension) : res dtls_error (list Z) := Extension.Marshal es.

Definition EncryptedExtensions_Unmarshal (data : list Z) : res dtls_error (list Extension) :=
  if len data <? 2 then Err ErrBufferTooSmall else
  Extension.Unmarshal data.

Definition Finished_Marshal (verifyData : list Z) : res dtls_error (list Z) := Ok verifyData.
Definition Finished_Unmarshal (data : list Z) : res dtls_error (list Z) := Ok data.

(** ** message_certificate.go *)

Definition handshakeMessageCertificateLengthFieldSize : Z := 3.

(** The length of the encoding. *)
Definition certificate_total (certs : list (list Z)) : Z :=
  foldl (λ total cert, total + (handshakeMessageCertificateLengthFieldSize + len cert)) handshakeMessageCertificateLengthFieldSize certs.

Definition Certificate_Marshal (certs : list (list Z)) : res dtls_error (list Z) :=
  Ok (be_put 3 (u32 (certificate_total certs - handshakeMessageCertificateLengthFieldSize)) ++
      concat ((λ cert, be_put 3 (u32 (len cert)) ++ cert) <$> certs)).

(** Each round moves on by at least three bytes. *)
Fixpoint Certificate_loop (fuel : nat) (data : list Z) (offset : Z) : res dtls_error (list (list Z)) :=
  if negb (offset <? len data) then Ok [] else
  match fuel with
  | O => Panic
  | S fuel =>
      d ← slice_from data offset;
      let certificateLen := BigEndianUint24 d in
      let offset := offset + handshakeMessageCertificateLengthFieldSize in
      if len data <? offset + certificateLen then Err ErrLengthMismatch else
      cert ← slice data offset (offset + certificateLen);
      certs ← Certificate_loop fuel data (offset + certificateLen);
      Ok (cert :: certs)
  end.

Definition Certificate_Unmarshal (data : list Z) : res dtls_error (list (list Z)) :=
  if len data <? handshakeMessageCertificateLengthFieldSize then Err ErrBufferTooSmall else
  if negb (BigEndianUint24 data + handshakeMessageCertificateLengthFieldSize =? len data) then Err ErrLengthMismatch else
  Certificate_loop (length data) data handshakeMessageCertificateLengthFieldSize.

(** ** message_certificate_request.go *)

Definition messageCertificateRequestMinLength : Z := 5.

Definition CertificateRequest_Marshal (m : MessageCertificateRequest) : res dtls_error (list Z) :=
  if 255 <? len (cr_CertificateTypes m) then Err ErrCertificateTypesTooLong else
  let casLength := foldl (λ n ca, n + (len ca + 2)) 0 (cr_CertificateAuthoritiesNames m) in
  Ok ([u8 (len (cr_CertificateTypes m))] ++ map u8 (cr_CertificateTypes m) ++
      be_put 2 (u16 (len (cr_SignatureHashAlgorithms m) * 2)) ++
      concat (Algorithm_Marshal <$> cr_SignatureHashAlgorithms m) ++
      be_put 2 (u16 casLength) ++
      (if 0 <? casLength
       then concat ((λ ca, be_put 2 (u16 (len ca)) ++ ca) <$> cr_CertificateAuthoritiesNames m)
       else [])).

Fixpoint certificate_types (count : nat) (off : Z) (data : list Z) : res dtls_error (list Z) :=
  match count with
  | O => Ok []
  | S count =>
      t ← idx data off;
      l ← certificate_types count (off + 1) data;
      Ok (if ClientCertificateTypes t then t :: l else l)
  end.

(** [for i := 0; i < n; i += 2]: [count] rounds from offset [off] on. *)
Fixpoint request_algorithms (count : nat) (off : Z) (data : list Z) : res dtls_error (list Algorithm) :=
  match count with
  | O => Ok []
  | S count =>
      if len data <? off + 2 then Err ErrBufferTooSmall else
      d ← slice data off (off + 2);
      scheme ← Uint16 d;
      match Algorithm_Unmarshal scheme with
      | Panic => Panic
      | Err _ => request_algorithms count (off + 2) data
      | Ok alg => l ← request_algorithms count (off + 2) data; Ok (alg :: l)
      end
  end.

Definition authority_name (names : list (list Z)) (cas : list Z) : res dtls_error (list (list Z) * list Z) :=
  if len cas <? 2 then Err ErrBufferTooSmall else
  caLen ← Uint16 cas;
  cas ← slice_from cas 2;
  if len cas <? caLen then Err ErrBufferTooSmall else
  name ← slice cas 0 caLen;
  cas ← slice_from cas caLen;
  Ok (names ++ [name], cas).

Definition CertificateRequest_Unmarshal (data : list Z) : res dtls_error MessageCertificateRequest :=
  if len data <? messageCertificateRequestMinLength then Err ErrBufferTooSmall else
  certificateTypesLength ← idx data 0;
  let offset := 1 in
  if len data <? offset + certificateTypesLength then Err ErrBufferTooSmall else
  types ← certificate_types (Z.to_nat certificateTypesLength) offset data;
  let offset := offset + certificateTypesLength in
  if len data <? offset + 2 then Err ErrBufferTooSmall else
  d ← slice_from data offset;
  signatureHashAlgorithmsLength ← Uint16 d;
  let offset := offset + 2 in
  if len data <? offset + signatureHashAlgorithmsLength then Err ErrBufferTooSmall else
  algs ← request_algorithms (Z.to_nat ((signatureHashAlgorithmsLength + 1) / 2)) offset data;
  let offset := offset + signatureHashAlgorithmsLength in
  if len data <? offset + 2 then Err ErrBufferTooSmall else
  d ← slice_from data offset;
  casLength ← Uint16 d;
  let offset := offset + 2 in
  if len data <? offset + casLength then Err ErrBufferTooSmall else
  cas ← slice data offset (offset + casLength);
  names ← for_nonempty authority_name [] cas;
  Ok (MkCertificateRequest types algs names).

(** ** message_certificate_verify.go *)

Definition handshakeMessageCertificateVerifyMinLength : Z := 4.

Definition CertificateVerify_Marshal (m : MessageCertificateVerify) : res dtls_error (list Z) :=
  if (0xFF <? cv_HashAlgorithm m) || (0xFF <? cv_SignatureAlgorithm m) then Err ErrInvalidSignHashAlgorithm else
  let scheme := Z.lor (u16 (Z.shiftl (cv_HashAlgorithm m) 8)) (cv_SignatureAlgorithm m) in
  match Algorithm_Unmarshal scheme with
  | Panic => Panic
  | Err _ => Err ErrInvalidSignHashAlgorithm
  | Ok _ =>
      Ok ([u8 (cv_HashAlgorithm m); u8 (cv_SignatureAlgorithm m)] ++ be_put 2 (u16 (len (cv_Signature m))) ++ cv_Signature m)
  end.

Definition CertificateVerify_Unmarshal (data : list Z) : res dtls_error MessageCertificateVerify :=
  if len data <? handshakeMessageCertificateVerifyMinLength then Err ErrBufferTooSmall else
  d ← slice data 0 2;
  scheme ← Uint16 d;
  match Algorithm_Unmarshal scheme with
  | Panic => Panic
  | Err _ => Err ErrInvalidSignHashAlgorithm
  | Ok alg =>
      d ← slice_from data 2;
      signatureLength ← Uint16 d;
      if negb (signatureLength + 4 =? len data) then Err ErrBufferTooSmall else
      signature ← slice_from data 4;
      Ok (MkCertificateVerify (alg_Hash alg) (alg_Signature alg) signature)
  end.

(** ** message_client_key_exchange.go *)

Definition ClientKeyExchange_Marshal (m : MessageClientKeyExchange) : res dtls_error (list Z) :=
  match ck_IdentityHint m, ck_PublicKey m with
  | None, None => Err ErrInvalidClientKeyExchange
  | hint, key =>
      let out := match hint with Some h => be_put 2 (u16 (len h)) ++ h | None => [] end in
      match key with
      | Some k => if 255 <? len k then Err ErrPublicKeyTooLong else Ok (out ++ [u8 (len k)] ++ k)
      | None => Ok out
      end
  end.

Definition ClientKeyExchange_Unmarshal (kx : Z) (data : list Z) : res dtls_error MessageClientKeyExchange :=
  if len data <? 2 then Err ErrBufferTooSmall else
  if kx =? KeyExchangeAlgorithmNone then Err ErrCipherSuiteUnset else
  '(hint, offset) ← (if Has kx KeyExchangeAlgorithmPsk then
                       pskLength ← Uint16 data;
                       if len data - 2 <? pskLength then Err ErrBufferTooSmall else
                       h ← slice data 2 (pskLength + 2);
                       Ok (Some h, pskLength + 2)
                     else Ok (None, 0));
  key ← (if Has kx KeyExchangeAlgorithmEcdhe then
           publicKeyLength ← idx data offset;
           if len data - 1 - offset <? publicKeyLength then Err ErrBufferTooSmall else
           k ← slice_from data (offset + 1);
           Ok (Some k)
         else Ok None);
  Ok (MkClientKeyExchange hint key).

(** ** message_server_key_exchange.go *)

Definition ServerKeyExchange_Marshal (m : MessageServerKeyExchange) : res dtls_error (list Z) :=
  let out := match sk_IdentityHint m with Some h => be_put 2 (u16 (len h)) ++ h | None => [] end in
  if (sk_EllipticCurveType m =? 0) || (len (sk_PublicKey m) =? 0) then Ok out else
  let out := out ++ [u8 (sk_EllipticCurveType m)] ++ be_put 2 (sk_NamedCurve m) ++
             [u8 (len (sk_PublicKey m))] ++ sk_PublicKey m in
  let hash_none := sk_HashAlgorithm m =? Hash.None_ in
  let signature_empty := len (sk_Signature m) =? 0 in
  if negb hash_none && signature_empty then Err ErrInvalidSignHashAlgorithm else
  if hash_none && negb signature_empty then Err ErrInvalidSignHashAlgorithm else
  if (sk_SignatureAlgorithm m =? Signature.Anonymous) && (negb hash_none || negb signature_empty)
  then Err ErrInvalidSignHashAlgorithm else
  if sk_SignatureAlgorithm m =? Signature.Anonymous then Ok out else
  Ok (out ++ Algorithm_Marshal (MkAlgorithm (sk_HashAlgorithm m) (sk_SignatureAlgorithm m)) ++
      be_put 2 (u16 (len (sk_Signature m))) ++ sk_Signature m).

(** The elliptic curve parameters behind the identity hint. *)
Definition ServerKeyExchange_params (hint : option (list Z)) (data : list Z) : res dtls_error MessageServerKeyExchange :=
  if len data =? 0 then Err ErrBufferTooSmall else
  t ← idx data 0;
  if negb (CurveTypes t) then Err ErrInvalidEllipticCurveType else
  d ← slice_from data 1;
  if len d <? 2 then Err ErrBufferTooSmall else
  d ← slice data 1 3;
  curve ← Uint16 d;
  if negb (Curves curve) then Err ErrInvalidNamedCurveFatal else
  if len data <? 4 then Err ErrBufferTooSmall else
  publicKeyLength ← idx data 3;
  let offset := 4 + publicKeyLength in
  if len data <? offset then Err ErrBufferTooSmall else
  key ← slice data 4 offset;
  if len data =? offset then Ok (MkServerKeyExchange hint t curve key Hash.None_ Signature.Anonymous []) else
  if len data <=? offset + 1 then Err ErrBufferTooSmall else
  d ← slice data offset (offset + 2);
  scheme ← Uint16 d;
  match Algorithm_Unmarshal scheme with
  | Panic => Panic
  | Err _ => Err ErrInvalidSignHashAlgorithm
  | Ok alg =>
      let offset := offset + 2 in
      if len data <? offset + 2 then Err ErrBufferTooSmall else
      d ← slice_from data offset;
      signatureLength ← Uint16 d;
      let offset := offset + 2 in
      if len data <? offset + signatureLength then Err ErrBufferTooSmall else
      signature ← slice data offset (offset + signatureLength);
      Ok (MkServerKeyExchange hint t curve key (alg_Hash alg) (alg_Signature alg) signature)
  end.

(** [hintLength] is a uint16, so that [2+hintLength] wraps around. *)
Definition ServerKeyExchange_Unmarshal (kx : Z) (data : list Z) : res dtls_error MessageServerKeyExchange :=
  if len data <? 2 then Err ErrBufferTooSmall else
  if kx =? KeyExchangeAlgorithmNone then Err ErrCipherSuiteUnset else
  hintLength ← Uint16 data;
  '(hint, data) ← (if (hintLength <=? len data - 2) && Has kx KeyExchangeAlgorithmPsk then
                     h ← slice data 2 (u16 (2 + hintLength));
                     d ← slice_from data (u16 (2 + hintLength));
                     Ok (Some h, d)
                   else Ok (None, data));
  if kx =? KeyExchangeAlgorithmPsk then
    if len data =? 0 then Ok (MkServerKeyExchange hint 0 0 [] Hash.None_ Signature.Anonymous [])
    else Err ErrLengthMismatch
  else if negb (Has kx KeyExchangeAlgorithmEcdhe) then Err ErrLengthMismatch
  else ServerKeyExchange_params hint data.

(** ** message_certificate_13.go *)

Definition maxUint24 : Z := 0xffffff.
Definition cert13ContextLengthFieldSize : Z := 1.
Definition cert13ContextMaxLength : Z := 255.
Definition cert13CertLengthFieldSize : Z := 3.
Definition cert13ExtLengthFieldSize : Z := 2.

Fixpoint certificate_list (certificateList : list Z) (entries : list CertificateEntry13) : res dtls_error (list Z) :=
  match entries with
  | [] => Ok certificateList
  | entry :: entries =>
      let certDataLen := len (ce_CertificateData entry) in
      if (certDataLen =? 0) || (maxUint24 <? certDataLen) then Err ErrInvalidCertificateEntry else
      extensionsData ← Extension.Marshal (ce_Extensions entry);
      let certificateList := certificateList ++ be_put 3 certDataLen ++ ce_CertificateData entry ++ extensionsData in
      if maxUint24 <? len certificateList then Err ErrCertificateListTooLong else
      certificate_list certificateList entries
  end.

Definition Certificate13_Marshal (m : MessageCertificate13) : res dtls_error (list Z) :=
  let ctx := c13_CertificateRequestContext m in
  if cert13ContextMaxLength <? len ctx then Err ErrCertificateRequestContextTooLong else
  certificateList ← certificate_list [] (c13_CertificateList m);
  Ok ([u8 (len ctx)] ++ ctx ++ be_put 3 (len certificateList) ++ certificateList).

Definition parseCertificate13Entry (entries : list CertificateEntry13) (str : list Z)
    : res dtls_error (list CertificateEntry13 * list Z) :=
  '(certData, str) ← or_err (ReadPrefixed 3 str) ErrInvalidCertificateEntry;
  _ ← guard (negb (len certData =? 0)) ErrInvalidCertificateEntry;
  _ ← guard (negb (len str <? cert13ExtLengthFieldSize)) ErrInvalidCertificateEntry;
  d ← slice str 0 cert13ExtLengthFieldSize;
  extensionsLen ← Uint16 d;
  _ ← guard (negb (len str <? cert13ExtLengthFieldSize + extensionsLen)) ErrInvalidCertificateEntry;
  extensionsData ← slice str 0 (cert13ExtLengthFieldSize + extensionsLen);
  extensions ← Extension.Unmarshal extensionsData;
  '(_, str) ← or_err (ReadBytes str (cert13ExtLengthFieldSize + extensionsLen)) ErrInvalidCertificateEntry;
  Ok (entries ++ [MkCertificateEntry13 certData extensions], str).

Definition Certificate13_Unmarshal (data : list Z) : res dtls_error MessageCertificate13 :=
  if len data <? cert13ContextLengthFieldSize + cert13CertLengthFieldSize then Err ErrBufferTooSmall else
  '(contextData, str) ← or_err (ReadPrefixed 1 data) ErrInvalidCertificateRequestContext;
  '(certificateListData, str) ← or_err (ReadPrefixed 3 str) ErrInvalidCertificateEntry;
  _ ← guard (len str =? 0) ErrLengthMismatch;
  entries ← for_nonempty parseCertificate13Entry [] certificateListData;
  Ok (MkCertificate13 contextData entries).

(** ** message_certificate_request_13.go *)

Definition certReq13ContextMaxLength : Z := 255.
Definition certReq13MinLength : Z := 3.

Definition hasSignatureAlgorithms (es : list Extension) : bool :=
  existsb (λ e, TypeValue e =? SupportedSignatureAlgorithmsTypeValue) es.

Definition CertificateRequest13_Marshal (m : MessageCertificateRequest13) : res dtls_error (list Z) :=
  let ctx := cr13_CertificateRequestContext m in
  if certReq13ContextMaxLength <? len ctx then Err ErrCertificateRequestContextTooLong else
  if negb (hasSignatureAlgorithms (cr13_Extensions m)) then Err ErrMissingSignatureAlgorithmsExtension else
  let builder := AddPrefixed 1 NewBuilder (λ b, AddBytes b ctx) in
  extensionsData ← Extension.Marshal (cr13_Extensions m);
  if (len extensionsData <? 2) || (maxUint16 <? len extensionsData) then Err ErrInvalidExtensionsLength else
  Bytes (AddBytes builder extensionsData).

Definition CertificateRequest13_Unmarshal (data : list Z) : res dtls_error MessageCertificateRequest13 :=
  if len data <? certReq13MinLength then Err ErrBufferTooSmall else
  '(contextData, str) ← or_err (ReadPrefixed 1 data) ErrInvalidCertificateRequestContext;
  if len str <? 2 then Err ErrInvalidExtensionsLength else
  d ← slice str 0 2;
  extensionsLen ← Uint16 d;
  d ← slice_from str 2;
  if negb (len d =? extensionsLen) then Err ErrLengthMismatch else
  extensions ← Extension.Unmarshal str;
  if negb (hasSignatureAlgorithms extensions) then Err ErrMissingSignatureAlgorithmsExtension else
  Ok (MkCertificateRequest13 contextData extensions).

(** ** handshake.go *)

Definition Message_Marshal (m : Message) : res dtls_error (list Z) :=
  match m with
  | ClientHello m => ClientHello_Marshal m
  | ServerHello m => ServerHello_Marshal m
  | HelloVerifyRequest m => HelloVerifyRequest_Marshal m
  | EncryptedExtensions es => EncryptedExtensions_Marshal es
  | Certificate certs => Certificate_Marshal certs
  | ServerKeyExchange m => ServerKeyExchange_Marshal m
  | CertificateRequest m => CertificateRequest_Marshal m
  | ServerHelloDone => Ok []
  | CertificateVerify m => CertificateVerify_Marshal m
  | ClientKeyExchange m => ClientKeyExchange_Marshal m
  | Finished d => Finished_Marshal d
  | Certificate13 m => Certificate13_Marshal m
  | CertificateRequest13 m => CertificateRequest13_Marshal m
  end.

(** The switch over the message type. *)
Definition Message_Unmarshal (kx t : Z) (data : list Z) : res dtls_error Message :=
  if t =? TypeHelloRequest then Err ErrNotImplemented
  else if t =? TypeClientHello then m ← ClientHello_Unmarshal data; Ok (ClientHello m)
  else if t =? TypeHelloVerifyRequest then m ← HelloVerifyRequest_Unmarshal data; Ok (HelloVerifyRequest m)
  else if t =? TypeServerHello then m ← ServerHello_Unmarshal data; Ok (ServerHello m)
  else if t =? TypeEncryptedExtensions then es ← EncryptedExtensions_Unmarshal data; Ok (EncryptedExtensions es)
  else if t =? TypeCertificate then cs ← Certificate_Unmarshal data; Ok (Certificate cs)
  else if t =? TypeServerKeyExchange then m ← ServerKeyExchange_Unmarshal kx data; Ok (ServerKeyExchange m)
  else if t =? TypeCertificateRequest then m ← CertificateRequest_Unmarshal data; Ok (CertificateRequest m)
  else if t =? TypeServerHelloDone then Ok ServerHelloDone
  else if t =? TypeClientKeyExchange then m ← ClientKeyExchange_Unmarshal kx data; Ok (ClientKeyExchange m)
  else if t =? TypeFinished then d ← Finished_Unmarshal data; Ok (Finished d)
  else if t =? TypeCertificateVerify then m ← CertificateVerify_Unmarshal data; Ok (CertificateVerify m)
  else Err ErrNotImplemented.

(** The header with the fields that [Marshal] sets, and the encoding. *)
Definition Handshake_Marshal (h : Header) (message : option Message) : res dtls_error (Header * list Z) :=
  match message with
  | None => Err ErrHandshakeMessageUnset
  | Some m =>
      if negb (FragmentOffset h =? 0) then Err ErrUnableToMarshalFragmented else
      msg ← Message_Marshal m;
      let l := u32 (len msg) in
      let h := MkHeader (Message_Type m) l (MessageSequence h) (FragmentOffset h) l in
      Ok (h, Header_Marshal h ++ msg)
  end.

Definition Handshake_Unmarshal (kx : Z) (data : list Z) : res dtls_error (Header * Message) :=
  h ← Header_Unmarshal data;
  d ← slice_from data 1;
  let reportedLen := BigEndianUint24 d in
  if negb (u32 (len data - HeaderLength) =? reportedLen) then Err ErrLengthMismatch else
  if negb (reportedLen =? FragmentLength h) then Err ErrLengthMismatch else
  t ← idx data 0;
  d ← slice_from data HeaderLength;
  m ← Message_Unmarshal kx t d;
  Ok (h, m).

(** ** Lemmas: which inputs make the decoders panic *)

Context {laws : CryptobyteLaws}.

Lemma variable_field_safe data off : bytes_ok data → 0 ≤ off →
  safe (variable_field data off) (λ '(field, off'), off < off' < len data).
Proof.
  intros Hd Ho. unfold variable_field. destruct (Z.leb_spec (len data) (off + 1)); [done|].
  apply safe_bind, safe_idx; [lia|]. intros n Hn. apply (bytes_ok_elem _ _ Hd) in Hn. unfold is_byte in Hn.
  destruct (Z.leb_spec (len data) (off + 1 + n)); [done|]. rewrite slice_ok by lia. cbn [mbind res_bind].
  cbn. rewrite len_sub by lia. lia.
Qed.

Lemma decodeCipherSuiteIDs_loop_safe count i buf : bytes_ok buf → 0 ≤ i → no_panic (decodeCipherSuiteIDs_loop count i buf).
Proof.
  intros Hb. revert i. induction count as [|count IH]; intros i Hi; [done|]. cbn [decodeCipherSuiteIDs_loop].
  destruct (Z.ltb_spec (len buf) (i * 2 + 4)); [done|]. rewrite slice_from_ok by lia. cbn [mbind res_bind].
  apply safe_bind, safe_get_be; [by apply bytes_ok_sub|rewrite len_sub by lia; lia|]. intros id _.
  apply no_panic_bind; [apply IH; lia|done].
Qed.

Lemma decodeCipherSuiteIDs_safe buf : bytes_ok buf → no_panic (decodeCipherSuiteIDs buf).
Proof.
  intros Hb. unfold decodeCipherSuiteIDs. destruct (Z.ltb_spec (len buf) 2); [done|].
  apply safe_bind, safe_get_be; [done|lia|]. intros n _. by apply decodeCipherSuiteIDs_loop_safe.
Qed.

Lemma DecodeCompressionMethods_loop_safe count i buf : 0 ≤ i → i < len buf →
  safe (DecodeCompressionMethods_loop count i buf) (λ _, i + Z.of_nat count < len buf).
Proof.
  revert i. induction count as [|count IH]; intros i Hi Hl; cbn [DecodeCompressionMethods_loop]; [cbn; lia|].
  destruct (Z.leb_spec (len buf) (i + 1)); [done|]. apply safe_bind, safe_idx; [lia|]. intros id _.
  apply safe_bind. eapply safe_mono; [apply IH; lia|]. intros l Hc. cbv beta in Hc. destruct (known_compression id); cbn; lia.
Qed.

(** A decoded list of compression methods has its length byte and all its bytes. *)
Lemma DecodeCompressionMethods_safe buf : bytes_ok buf →
  safe (DecodeCompressionMethods buf) (λ _, ∃ n r, buf = n :: r ∧ is_byte n ∧ n < len buf).
Proof.
  intros Hb. unfold DecodeCompressionMethods. destruct buf as [|n r]; [done|].
  pose proof (len_nonneg r). rewrite len_cons. destruct (Z.ltb_spec (1 + len r) 1); [lia|].
  change (idx (n :: r) 0) with (Ok n : res dtls_error Z). cbn [mbind res_bind].
  apply bytes_ok_cons in Hb as [Hn _]. unfold is_byte in Hn.
  eapply safe_mono; [apply DecodeCompressionMethods_loop_safe; [done|]; rewrite len_cons; lia|].
  intros l Hc. cbv beta in Hc. rewrite len_cons in Hc. exists n, r. split; [done|]. split; [done|]. lia.
Qed.

Lemma ClientHello_no_panic data : bytes_ok data → no_panic (ClientHello_Unmarshal data).
Proof.
  intros Hd. unfold ClientHello_Unmarshal, RandomLength, RandomBytesLength, handshakeMessageClientHelloVariableWidthStart.
  destruct (Z.ltb_spec (len data) (2 + (28 + 4))); [done|].
  apply safe_bind, safe_idx; [lia|]. intros ma _. apply safe_bind, safe_idx; [lia|]. intros mi _.
  rewrite (slice_from_ok 2) by lia. cbn [mbind res_bind].
  apply safe_bind. eapply safe_mono; [by apply variable_field_safe|]. intros [sid o1] Ho1.
  apply safe_bind. eapply safe_mono; [apply variable_field_safe; [done|lia]|]. intros [cookie o2] Ho2.
  destruct (Z.ltb_spec (len data) o2); [done|]. rewrite (slice_from_ok o2) by lia. cbn [mbind res_bind].
  apply no_panic_bind; [by apply decodeCipherSuiteIDs_safe, bytes_ok_sub|]. intros ids.
  destruct (Z.ltb_spec (len data) (o2 + 2)); [done|].
  apply safe_bind, safe_get_be; [by apply bytes_ok_sub|rewrite len_sub by lia; lia|]. intros n Hn.
  assert (0 ≤ n) by lia. clear Hn.
  destruct (Z.ltb_spec (len data) (o2 + (n + 2))); [done|]. rewrite (slice_from_ok (o2 + (n + 2))) by lia. cbn [mbind res_bind].
  apply safe_bind. eapply safe_mono; [by apply DecodeCompressionMethods_safe, bytes_ok_sub|].
  intros cms (c & r & Es & Hc & Hlt). rewrite len_sub in Hlt by lia. unfold is_byte in Hc.
  assert (idx (E:=dtls_error) data (o2 + (n + 2)) = Ok c) as ->.
  { rewrite (take_drop_sub (o2 + (n + 2)) data) by lia. rewrite Es. apply idx_mid. rewrite len_sub by lia. lia. }
  cbn [mbind res_bind]. rewrite slice_from_ok by lia. cbn [mbind res_bind].
  apply no_panic_bind; [by apply Unmarshal_no_panic, bytes_ok_sub|done].
Qed.

Lemma ServerHello_no_panic data : bytes_ok data → no_panic (ServerHello_Unmarshal data).
Proof.
  intros Hd. unfold ServerHello_Unmarshal, messageServerHelloVariableWidthStart, RandomLength, RandomBytesLength.
  destruct (Z.ltb_spec (len data) (2 + (28 + 4))); [done|].
  apply safe_bind, safe_idx; [lia|]. intros ma _. apply safe_bind, safe_idx; [lia|]. intros mi _.
  rewrite (slice_from_ok 2) by lia. cbn [mbind res_bind].
  apply safe_bind. eapply safe_mono; [by apply variable_field_safe|]. intros [sid o] Ho.
  destruct (Z.ltb_spec (len data) (o + 2)); [done|]. apply (safe_uint16_at data o); [done|lia|lia|]. intros id _.
  destruct (Z.leb_spec (len data) (o + 2)); [done|]. apply safe_bind, safe_idx; [lia|]. intros c _.
  destruct (negb _); [done|]. destruct (Z.leb_spec (len data) (o + 2 + 1)); [done|].
  rewrite slice_from_ok by lia. cbn [mbind res_bind]. apply no_panic_bind; [by apply Unmarshal_no_panic, bytes_ok_sub|done].
Qed.

Lemma small_messages_no_panic data : bytes_ok data →
  no_panic (HelloVerifyRequest_Unmarshal data) ∧ no_panic (EncryptedExtensions_Unmarshal data) ∧
  no_panic (CertificateVerify_Unmarshal data).
Proof.
  intros Hd. split_and!.
  - unfold HelloVerifyRequest_Unmarshal. destruct (Z.ltb_spec (len data) 3); [done|].
    apply safe_bind, safe_idx; [lia|]. intros ma _. apply safe_bind, safe_idx; [lia|]. intros mi _.
    apply safe_bind, safe_idx; [lia|]. intros n Hn. apply (bytes_ok_elem _ _ Hd) in Hn. unfold is_byte in Hn.
    destruct (Z.ltb_spec (len data) (n + 3)); [done|]. by rewrite slice_ok by lia.
  - unfold EncryptedExtensions_Unmarshal. destruct (len data <? 2); [done|]. by apply Unmarshal_no_panic.
  - unfold CertificateVerify_Unmarshal, handshakeMessageCertificateVerifyMinLength.
    destruct (Z.ltb_spec (len data) 4); [done|]. apply (safe_uint16_at data 0); [done|lia|lia|]. intros scheme _.
    pose proof (Algorithm_Unmarshal_no_panic scheme). destruct (Algorithm_Unmarshal scheme) as [alg|e|]; [|done|done].
    apply (safe_uint16_at data 2); [done|lia|lia|]. intros n _. destruct (negb _); [done|]. by rewrite slice_from_ok by lia.
Qed.

Lemma BigEndianUint24_range d : bytes_ok d → is_u24 (BigEndianUint24 d).
Proof.
  intros Hd. unfold BigEndianUint24. destruct (Z.ltb_spec (len d) 3); [done|].
  pose proof (be_get_range (take 3 d) (bytes_ok_take _ _ Hd)) as Hr. unfold len in *. rewrite length_take in Hr.
  by replace (3 `min` length d)%nat with 3%nat in Hr by lia.
Qed.

Lemma Certificate_loop_no_panic fuel data off : bytes_ok data → 0 ≤ off → len data - off ≤ Z.of_nat fuel →
  no_panic (Certificate_loop fuel data off).
Proof.
  intros Hd. revert off. induction fuel as [|fuel IH]; intros off Ho Hf; cbn [Certificate_loop];
    (destruct (Z.ltb_spec off (len data)); [|done]); cbn [negb]; [lia|].
  rewrite slice_from_ok by lia. cbn [mbind res_bind].
  pose proof (BigEndianUint24_range (sub off (len data) data) (bytes_ok_sub _ _ _ Hd)) as Hn. unfold is_u24 in Hn.
  set (n := BigEndianUint24 _) in *. unfold handshakeMessageCertificateLengthFieldSize.
  destruct (Z.ltb_spec (len data) (off + 3 + n)); [done|]. rewrite slice_ok by lia. cbn [mbind res_bind].
  apply no_panic_bind; [apply IH; lia|done].
Qed.

Lemma Certificate_no_panic data : bytes_ok data → no_panic (Certificate_Unmarshal data).
Proof.
  intros Hd. unfold Certificate_Unmarshal, handshakeMessageCertificateLengthFieldSize.
  destruct (len data <? 3); [done|]. destruct (negb _); [done|]. apply Certificate_loop_no_panic; [done|done|]. unfold len. lia.
Qed.

Lemma certificate_types_safe count off data : 0 ≤ off → off + Z.of_nat count ≤ len data → no_panic (certificate_types count off data).
Proof.
  revert off. induction count as [|count IH]; intros off Ho Hl; [done|]. cbn [certificate_types].
  apply safe_bind, safe_idx; [lia|]. intros t _. apply no_panic_bind; [apply IH; lia|done].
Qed.

Lemma request_algorithms_safe count off data : bytes_ok data → 0 ≤ off → no_panic (request_algorithms count off data).
Proof.
  intros Hd. revert off. induction count as [|count IH]; intros off Ho; [done|]. cbn [request_algorithms].
  destruct (Z.ltb_spec (len data) (off + 2)); [done|]. apply (safe_uint16_at data off); [done|lia|lia|]. intros scheme _.
  pose proof (Algorithm_Unmarshal_no_panic scheme). destruct (Algorithm_Unmarshal scheme) as [alg|e|]; [|apply IH; lia|done].
  apply no_panic_bind; [apply IH; lia|done].
Qed.

Lemma authority_name_safe names cas : bytes_ok cas → cas ≠ [] →
  safe (authority_name names cas) (λ '(_, r), bytes_ok r ∧ (length r < length cas)%nat).
Proof.
  intros Hc _. unfold authority_name. destruct (Z.ltb_spec (len cas) 2); [done|].
  apply safe_bind, safe_get_be; [done|lia|]. intros n Hn. rewrite slice_from_ok by lia. cbn [mbind res_bind].
  set (c := sub 2 (len cas) cas). assert (len c = len cas - 2) as Hl by (apply len_sub; lia).
  destruct (Z.ltb_spec (len c) n); [done|]. rewrite slice_ok, slice_from_ok by lia. cbn [mbind res_bind].
  cbn. split; [by apply bytes_ok_sub, bytes_ok_sub|].
  assert (len (sub n (len c) c) = len c - n) by (apply len_sub; lia). unfold len in *. lia.
Qed.

Lemma CertificateRequest_no_panic data : bytes_ok data → no_panic (CertificateRequest_Unmarshal data).
Proof.
  intros Hd. unfold CertificateRequest_Unmarshal, messageCertificateRequestMinLength.
  destruct (Z.ltb_spec (len data) 5); [done|]. apply safe_bind, safe_idx; [lia|]. intros n Hn.
  apply (bytes_ok_elem _ _ Hd) in Hn. unfold is_byte in Hn. destruct (Z.ltb_spec (len data) (1 + n)); [done|].
  apply no_panic_bind; [apply certificate_types_safe; [done|]; rewrite Z2Nat.id by lia; lia|]. intros types.
  destruct (Z.ltb_spec (len data) (1 + n + 2)); [done|]. apply (safe_uint16_at data (1 + n)); [done|lia|lia|]. intros m Hm.
  unfold is_u16 in Hm. destruct (Z.ltb_spec (len data) (1 + n + 2 + m)); [done|].
  apply no_panic_bind; [apply request_algorithms_safe; [done|lia]|]. intros algs.
  destruct (Z.ltb_spec (len data) (1 + n + 2 + m + 2)); [done|]. apply (safe_uint16_at data (1 + n + 2 + m)); [done|lia|lia|].
  intros c Hc. unfold is_u16 in Hc. destruct (Z.ltb_spec (len data) (1 + n + 2 + m + 2 + c)); [done|].
  rewrite slice_ok by lia. cbn [mbind res_bind]. apply no_panic_bind; [|done].
  apply for_nonempty_no_panic; [by apply bytes_ok_sub|]. intros acc cas. apply authority_name_safe.
Qed.

(** The identity fills the message and no byte is left for the length of the public key. *)
Definition bad_client_key_exchange (kx : Z) (data : list Z) : Prop :=
  Has kx KeyExchangeAlgorithmPsk = true ∧ Has kx KeyExchangeAlgorithmEcdhe = true ∧
  2 ≤ len data ∧ be_get (take 2 data) = len data - 2.

Lemma Has_not_none kx v : 0 < v → Has kx v = true → kx ≠ KeyExchangeAlgorithmNone.
Proof. intros Hv. unfold Has. rewrite Z.eqb_eq. intros E ->. unfold KeyExchangeAlgorithmNone in E. rewrite Z.land_0_l in E. lia. Qed.

Lemma get_be_take data : 2 ≤ len data → get_be (E:=dtls_error) 2 data = Ok (be_get (take 2 data)).
Proof. intros Hl. unfold get_be. change (Z.of_nat 2) with 2. by destruct (Z.ltb_spec (len data) 2); [lia|]. Qed.

Lemma be_get_take_u16 data : bytes_ok data → 2 ≤ len data → is_u16 (be_get (take 2 data)).
Proof.
  intros Hd Hl. pose proof (be_get_range (take 2 data) (bytes_ok_take _ _ Hd)) as Hr. unfold len in *.
  rewrite length_take in Hr. by replace (2 `min` length data)%nat with 2%nat in Hr by lia.
Qed.

Lemma ClientKeyExchange_panic_iff kx data : bytes_ok data →
  ClientKeyExchange_Unmarshal kx data = Panic ↔ bad_client_key_exchange kx data.
Proof.
  intros Hd. unfold ClientKeyExchange_Unmarshal, bad_client_key_exchange.
  destruct (Z.ltb_spec (len data) 2) as [Hlt|Hge]; [split; [done|]; intros (_ & _ & ? & _); lia|].
  rewrite get_be_take by done. pose proof (be_get_take_u16 data Hd Hge) as Hu. set (n := be_get (take 2 data)) in *. unfold is_u16 in Hu.
  destruct (Z.eqb_spec kx KeyExchangeAlgorithmNone) as [->|Hk].
  { split; [done|]. intros (Hp & _). by apply Has_not_none in Hp. }
  assert (∀ o, 0 ≤ o < len data → no_panic (publicKeyLength ← idx data o;
    if len data - 1 - o <? publicKeyLength then Err ErrBufferTooSmall else k ← slice_from data (o + 1); Ok (Some k))) as Hkey.
  { intros o Ho. apply safe_bind, safe_idx; [lia|]. intros k Hk'. apply (bytes_ok_elem _ _ Hd) in Hk'. unfold is_byte in Hk'.
    destruct (_ <? k); [done|]. by rewrite slice_from_ok by lia. }
  destruct (Has kx KeyExchangeAlgorithmPsk); cbn [mbind res_bind].
  - destruct (Z.ltb_spec (len data - 2) n) as [Hn|Hn]; cbn [mbind res_bind].
    { split; [done|]. intros (_ & _ & _ & ?). lia. }
    rewrite slice_ok by lia. cbn [mbind res_bind]. destruct (Has kx KeyExchangeAlgorithmEcdhe); cbn [mbind res_bind].
    2: { split; [done|]. by intros (_ & ? & _). }
    destruct (Z.eq_dec (n + 2) (len data)) as [He|He].
    + rewrite idx_out by lia. split; [|done]. intros _. split_and!; [done|done|lia|lia].
    + split; [|intros (_ & _ & _ & ?); lia]. intros Hp. specialize (Hkey (n + 2) ltac:(lia)).
      destruct (_ ≫= _) as [?|?|] in Hkey, Hp; done.
  - split; [|by intros (? & _)]. intros Hp. destruct (Has kx KeyExchangeAlgorithmEcdhe); [|done].
    specialize (Hkey 0 ltac:(lia)). destruct (_ ≫= _) as [?|?|] in Hkey, Hp; done.
Qed.

Lemma ServerKeyExchange_params_no_panic hint data : bytes_ok data → no_panic (ServerKeyExchange_params hint data).
Proof.
  intros Hd. unfold ServerKeyExchange_params. destruct (Z.eqb_spec (len data) 0) as [?|Hne]; [done|]. pose proof (len_nonneg data).
  apply safe_bind, safe_idx; [lia|]. intros t _. destruct (negb _); [done|].
  rewrite slice_from_ok by lia. cbn [mbind res_bind]. rewrite len_sub by lia.
  destruct (Z.ltb_spec (len data - 1) 2); [done|]. apply (safe_uint16_at data 1); [done|lia|lia|]. intros c _.
  destruct (negb _); [done|]. destruct (Z.ltb_spec (len data) 4); [done|].
  apply safe_bind, safe_idx; [lia|]. intros n Hn. apply (bytes_ok_elem _ _ Hd) in Hn. unfold is_byte in Hn.
  destruct (Z.ltb_spec (len data) (4 + n)); [done|]. rewrite (slice_ok 4) by lia. cbn [mbind res_bind].
  destruct (len data =? 4 + n); [done|]. destruct (Z.leb_spec (len data) (4 + n + 1)); [done|].
  apply (safe_uint16_at data (4 + n)); [done|lia|lia|]. intros scheme _.
  pose proof (Algorithm_Unmarshal_no_panic scheme). destruct (Algorithm_Unmarshal scheme) as [alg|e|]; [|done|done].
  destruct (Z.ltb_spec (len data) (4 + n + 2 + 2)); [done|]. apply (safe_uint16_at data (4 + n + 2)); [done|lia|lia|].
  intros m Hm. unfold is_u16 in Hm. destruct (Z.ltb_spec (len data) (4 + n + 2 + 2 + m)); [done|]. by rewrite slice_ok by lia.
Qed.

(** The length of the identity hint is one that wraps around with the two bytes before it. *)
Definition bad_server_key_exchange (kx : Z) (data : list Z) : Prop :=
  Has kx KeyExchangeAlgorithmPsk = true ∧ 2 ≤ len data ∧ 2 ^ 16 - 2 ≤ be_get (take 2 data) ≤ len data - 2.

Lemma ServerKeyExchange_panic_iff kx data : bytes_ok data →
  ServerKeyExchange_Unmarshal kx data = Panic ↔ bad_server_key_exchange kx data.
Proof.
  intros Hd. unfold ServerKeyExchange_Unmarshal, bad_server_key_exchange.
  destruct (Z.ltb_spec (len data) 2) as [Hlt|Hge]; [split; [done|]; intros (_ & ? & _); lia|].
  rewrite get_be_take by done. pose proof (be_get_take_u16 data Hd Hge) as Hu. set (n := be_get (take 2 data)) in *. unfold is_u16 in Hu.
  destruct (Z.eqb_spec kx KeyExchangeAlgorithmNone) as [->|Hk].
  { split; [done|]. intros (Hp & _). by apply Has_not_none in Hp. }
  cbn [mbind res_bind].
  assert (∀ h d, bytes_ok d → (if kx =? KeyExchangeAlgorithmPsk
      then if len d =? 0 then Ok (MkServerKeyExchange h 0 0 [] Hash.None_ Signature.Anonymous []) else Err ErrLengthMismatch
      else if negb (Has kx KeyExchangeAlgorithmEcdhe) then Err ErrLengthMismatch else ServerKeyExchange_params h d) ≠ Panic) as Hrest.
  { intros h d Hb. destruct (kx =? KeyExchangeAlgorithmPsk); [by destruct (len d =? 0)|].
    destruct (negb _); [done|]. apply no_panic_iff. by apply ServerKeyExchange_params_no_panic. }
  destruct (Z.leb_spec n (len data - 2)) as [Hn|Hn]; cbn [andb mbind res_bind].
  2: { split; [intros E; by apply Hrest in E|]. intros (_ & _ & ?). lia. }
  destruct (Has kx KeyExchangeAlgorithmPsk); cbn [mbind res_bind].
  2: { split; [intros E; by apply Hrest in E|]. by intros (? & _). }
  destruct (Z.le_gt_cases (2 ^ 16 - 2) n) as [Hw|Hw].
  - assert (u16 (2 + n) = 2 + n - 2 ^ 16) as ->.
    { unfold u16. replace (2 + n) with (2 + n - 2 ^ 16 + 1 * 2 ^ 16) at 1 by lia. rewrite Z.mod_add by lia. apply Z.mod_small. lia. }
    rewrite slice_out by lia. split; [|done]. intros _. split; [done|]. lia.
  - assert (u16 (2 + n) = 2 + n) as -> by (apply Z.mod_small; lia).
    rewrite slice_ok, slice_from_ok by lia. cbn [mbind res_bind].
    split; [intros E; by apply Hrest in E; [|apply bytes_ok_sub]|]. intros (_ & _ & ?). lia.
Qed.

Lemma parseCertificate13Entry_safe es str : bytes_ok str → str ≠ [] →
  safe (parseCertificate13Entry es str) (λ '(_, r), bytes_ok r ∧ (length r < length str)%nat).
Proof.
  intros Hs _. unfold parseCertificate13Entry, cert13ExtLengthFieldSize. apply safe_or_err. intros [cd r] E.
  apply ReadPrefixed_length in E as (Hcd & Hr & Hlen); [|done]. apply safe_guard. intros _. apply safe_guard. intros Hl.
  apply negb_true_iff, Z.ltb_ge in Hl. rewrite (slice_ok 0 2) by lia. cbn [mbind res_bind].
  apply safe_bind, safe_get_be; [by apply bytes_ok_sub|rewrite len_sub by lia; lia|]. intros n Hn.
  apply safe_guard. intros Hl2. apply negb_true_iff, Z.ltb_ge in Hl2. rewrite slice_ok by lia. cbn [mbind res_bind].
  apply safe_bind. eapply safe_mono; [by apply Unmarshal_no_panic, bytes_ok_sub|]. intros exts _.
  apply safe_or_err. intros [x y] E. rewrite ReadBytes_spec in E. destruct (_ && _) eqn:Eb; [|done]. injection E as <- <-.
  cbn. split; [by apply bytes_ok_sub|]. assert (len (sub (2 + n) (len r) r) = len r - (2 + n)) by (apply len_sub; lia).
  unfold len in *. lia.
Qed.

Lemma messages13_no_panic data : bytes_ok data → no_panic (Certificate13_Unmarshal data) ∧ no_panic (CertificateRequest13_Unmarshal data).
Proof.
  intros Hd. split.
  - unfold Certificate13_Unmarshal. destruct (_ <? _); [done|]. apply safe_or_err. intros [ctx r] E.
    apply ReadPrefixed_length in E as (_ & Hr & _); [|done]. apply safe_or_err. intros [l r'] E.
    apply ReadPrefixed_length in E as (Hl & _ & _); [|done]. apply safe_guard. intros _.
    apply no_panic_bind; [|done]. apply for_nonempty_no_panic; [done|]. intros es s. apply parseCertificate13Entry_safe.
  - unfold CertificateRequest13_Unmarshal. destruct (_ <? _); [done|]. apply safe_or_err. intros [ctx r] E.
    apply ReadPrefixed_length in E as (_ & Hr & _); [|done]. destruct (Z.ltb_spec (len r) 2); [done|].
    apply (safe_uint16_at r 0); [done|lia|lia|]. intros n _. rewrite slice_from_ok by lia. cbn [mbind res_bind].
    destruct (negb _); [done|]. apply no_panic_bind; [by apply Unmarshal_no_panic|]. intros es. by destruct (negb _).
Qed.

Lemma bind_Panic {A B} (m : res dtls_error A) (f : A → B) : (a ← m; Ok (f a)) = Panic ↔ m = Panic.
Proof. by destruct m. Qed.

Lemma no_panic_bind_Ok {A B} (m : res dtls_error A) (f : A → B) : no_panic m → (a ← m; Ok (f a)) ≠ Panic.
Proof. rewrite bind_Panic. apply no_panic_iff. Qed.

Lemma Message_Unmarshal_panic kx t data : bytes_ok data →
  Message_Unmarshal kx t data = Panic ↔
    (t = TypeServerKeyExchange ∧ bad_server_key_exchange kx data) ∨ (t = TypeClientKeyExchange ∧ bad_client_key_exchange kx data).
Proof.
  intros Hd. pose proof (small_messages_no_panic data Hd) as (Hhv & Hee & Hcv).
  unfold Message_Unmarshal.
  destruct (Z.eqb_spec t TypeHelloRequest) as [->|_]; [split; [done|by intros [[? _]|[? _]]]|].
  destruct (Z.eqb_spec t TypeClientHello) as [->|_].
  { split; [|by intros [[? _]|[? _]]]. intros E. exfalso. by apply (no_panic_bind_Ok _ _ (ClientHello_no_panic data Hd)) in E. }
  destruct (Z.eqb_spec t TypeHelloVerifyRequest) as [->|_].
  { split; [|by intros [[? _]|[? _]]]. intros E. exfalso. by apply (no_panic_bind_Ok _ _ Hhv) in E. }
  destruct (Z.eqb_spec t TypeServerHello) as [->|_].
  { split; [|by intros [[? _]|[? _]]]. intros E. exfalso. by apply (no_panic_bind_Ok _ _ (ServerHello_no_panic data Hd)) in E. }
  destruct (Z.eqb_spec t TypeEncryptedExtensions) as [->|_].
  { split; [|by intros [[? _]|[? _]]]. intros E. exfalso. by apply (no_panic_bind_Ok _ _ Hee) in E. }
  destruct (Z.eqb_spec t TypeCertificate) as [->|_].
  { split; [|by intros [[? _]|[? _]]]. intros E. exfalso. by apply (no_panic_bind_Ok _ _ (Certificate_no_panic data Hd)) in E. }
  destruct (Z.eqb_spec t TypeServerKeyExchange) as [->|Hsk].
  { rewrite bind_Panic, ServerKeyExchange_panic_iff by done. split; [by left|]. by intros [[_ ?]|[? _]]. }
  destruct (Z.eqb_spec t TypeCertificateRequest) as [->|_].
  { split; [|by intros [[? _]|[? _]]]. intros E. exfalso. by apply (no_panic_bind_Ok _ _ (CertificateRequest_no_panic data Hd)) in E. }
  destruct (Z.eqb_spec t TypeServerHelloDone) as [->|_]; [split; [done|by intros [[? _]|[? _]]]|].
  destruct (Z.eqb_spec t TypeClientKeyExchange) as [->|Hck].
  { rewrite bind_Panic, ClientKeyExchange_panic_iff by done. split; [by right|]. by intros [[? _]|[_ ?]]. }
  destruct (Z.eqb_spec t TypeFinished) as [->|_]; [split; [done|by intros [[? _]|[? _]]]|].
  destruct (Z.eqb_spec t TypeCertificateVerify) as [->|_].
  { split; [|by intros [[? _]|[? _]]]. intros E. exfalso. by apply (no_panic_bind_Ok _ _ Hcv) in E. }
  split; [done|]. by intros [[? _]|[? _]].
Qed.

(** [Unmarshal] of a header in front of some bytes. *)
Lemma Handshake_Unmarshal_frame kx h body : header_ok h → len body < 2 ^ 32 →
  Handshake_Unmarshal kx (Header_Marshal h ++ body) =
  if negb (len body =? Length h) || negb (Length h =? FragmentLength h) then Err ErrLengthMismatch
  else m ← Message_Unmarshal kx (Type_ h) body; Ok (h, m).
Proof.
  intros Hh Hb. unfold Handshake_Unmarshal. rewrite handshake_header_roundtrip by done. cbn [mbind res_bind].
  assert (slice_from (E:=dtls_error) (Header_Marshal h ++ body) 1 = Ok (be_put 3 (Length h) ++ be_put 2 (MessageSequence h) ++
    be_put 3 (FragmentOffset h) ++ be_put 3 (FragmentLength h) ++ body)) as ->.
  { unfold Header_Marshal. rewrite <- !(assoc_L (++)). by apply slice_from_app. }
  cbn [mbind res_bind]. rewrite BigEndianUint24_put by apply Hh. rewrite len_app, len_Header_Marshal.
  replace (HeaderLength + len body - HeaderLength) with (len body) by lia. pose proof (len_nonneg body).
  unfold u32. rewrite Z.mod_small by lia. destruct (len body =? Length h); [|done]. cbn [negb orb].
  destruct (Length h =? FragmentLength h); [|done]. cbn [negb].
  change (idx (Header_Marshal h ++ body) 0) with (Ok (Type_ h) : res dtls_error Z). cbn [mbind res_bind].
  by rewrite slice_from_app by done.
Qed.

Lemma Handshake_Unmarshal_short kx data : bytes_ok data → len data < HeaderLength →
  Handshake_Unmarshal kx data = Err ErrBufferTooSmall.
Proof.
  intros Hd Hl. pose proof (Header_Unmarshal_spec data Hd) as Hs. destruct (Z.ltb_spec (len data) HeaderLength); [|lia].
  unfold Handshake_Unmarshal. by rewrite Hs.
Qed.

(** ** Lemmas: decoding what was encoded *)

Definition random_ok (r : Random) : Prop := is_u32 (GMTUnixTime r) ∧ len (RandomBytes r) = RandomBytesLength.

(** Extensions that the list decoder gives back as they were. *)
Definition extensions_ok (es : list Extension) : Prop :=
  Forall ext_ok es ∧ Forall (λ e, understood e = true) es ∧ len (concat (ext_bytes <$> es)) < 2 ^ 16.

Lemma extensions_vec es : extensions_ok es → let body := concat (ext_bytes <$> es) in
  Extension.Marshal es = Ok (vec 2 body) ∧ len body < 2 ^ 16 ∧ Extension.Unmarshal (vec 2 body) = Ok es.
Proof.
  intros (Hok & Hun & Hl). destruct (Marshal_Unmarshal es) as (buf & Hm & -> & Hu).
  - eapply Forall_impl_elem; [exact Hok|done].
  - done.
  - split_and!; [done..|]. rewrite Hu. f_equal.
    clear -Hun. induction Hun as [|e es He _ IH]; [done|]. cbn. rewrite He. by f_equal.
Qed.

Lemma extensions_codec es : extensions_ok es →
  ∃ body, Extension.Marshal es = Ok (be_put 2 (len body) ++ body) ∧ len body < 2 ^ 16 ∧
    Extension.Unmarshal (be_put 2 (len body) ++ body) = Ok es.
Proof. intros Hes. eexists. by apply extensions_vec. Qed.

Lemma random_roundtrip r : random_ok r → UnmarshalFixed (MarshalFixed r) = r ∧ len (MarshalFixed r) = RandomLength.
Proof.
  intros [Ht Hl]. unfold MarshalFixed. split; [|by rewrite len_app, len_be_put, Hl].
  unfold u32. rewrite Z.mod_small by done. unfold UnmarshalFixed.
  rewrite take_app_length', drop_app_length' by (by rewrite length_be_put).
  rewrite be_get_put, Z.mod_small by done. by destruct r.
Qed.

Lemma variable_field_ok pre f rest off : off = len pre → len f ≤ 255 → 0 < len rest →
  variable_field (pre ++ u8 (len f) :: f ++ rest) off = Ok (f, off + 1 + len f).
Proof.
  intros -> Hf Hr. pose proof (len_nonneg f). unfold variable_field, u8. rewrite Z.mod_small by lia.
  rewrite len_app, len_cons, len_app. destruct (Z.leb_spec (len pre + (1 + (len f + len rest))) (len pre + 1)); [lia|].
  rewrite (idx_mid pre) by lia. cbn [mbind res_bind].
  destruct (Z.leb_spec (len pre + (1 + (len f + len rest))) (len pre + 1 + len f)); [lia|].
  change (len f :: f ++ rest) with ([len f] ++ f ++ rest). rewrite (assoc_L (++)).
  by rewrite slice_mid by (rewrite len_app, len_cons, len_nil; lia).
Qed.

Lemma decodeCipherSuiteIDs_loop_ok ids pre rest i : Forall is_u16 ids → len pre = 2 * i + 2 →
  decodeCipherSuiteIDs_loop (length ids) i (pre ++ concat (be_put 2 <$> ids) ++ rest) = Ok ids.
Proof.
  intros Hids. revert pre i. induction Hids as [|id ids Hid _ IH]; intros pre i Hp; [done|].
  cbn [length decodeCipherSuiteIDs_loop fmap list_fmap concat]. rewrite <- (assoc_L (++) (be_put 2 id)).
  rewrite !len_app, len_be_put. pose proof (len_nonneg (concat (be_put 2 <$> ids))). pose proof (len_nonneg rest).
  destruct (Z.ltb_spec (len pre + (Z.of_nat 2 + (len (concat (be_put 2 <$> ids)) + len rest))) (i * 2 + 4)); [lia|].
  rewrite slice_from_app by lia. cbn [mbind res_bind]. rewrite get_be_put by done. cbn [mbind res_bind].
  rewrite (assoc_L (++) pre), IH; [done|]. rewrite len_app, len_be_put. lia.
Qed.

Lemma len_encodeCipherSuiteIDs ids : len (encodeCipherSuiteIDs ids) = 2 + 2 * len ids.
Proof. unfold encodeCipherSuiteIDs. rewrite len_app, len_be_put. by rewrite (len_concat_const _ 2) by apply len_be_put. Qed.

Lemma decodeCipherSuiteIDs_ok ids rest : Forall is_u16 ids → 2 * len ids < 2 ^ 16 →
  decodeCipherSuiteIDs (encodeCipherSuiteIDs ids ++ rest) = Ok ids.
Proof.
  intros Hids Hl. unfold decodeCipherSuiteIDs. rewrite len_app, len_encodeCipherSuiteIDs.
  pose proof (len_nonneg ids). pose proof (len_nonneg rest). destruct (Z.ltb_spec (2 + 2 * len ids + len rest) 2); [lia|].
  unfold encodeCipherSuiteIDs, u16. rewrite Z.mod_small by lia. rewrite <- (assoc_L (++)).
  rewrite get_be_put by (change (2 ^ (8 * Z.of_nat 2)) with (2 ^ 16); lia). cbn [mbind res_bind].
  rewrite Z.div_mul by lia. replace (Z.to_nat (len ids)) with (length ids) by (unfold len; lia).
  by apply decodeCipherSuiteIDs_loop_ok.
Qed.

Lemma DecodeCompressionMethods_loop_ok cs pre rest i : Forall (λ c, known_compression c = true) cs → len pre = i + 1 →
  DecodeCompressionMethods_loop (length cs) i (pre ++ cs ++ rest) = Ok cs.
Proof.
  intros Hcs. revert pre i. induction Hcs as [|c cs Hc _ IH]; intros pre i Hp; [done|].
  cbn [length DecodeCompressionMethods_loop]. rewrite !len_app, len_cons.
  pose proof (len_nonneg cs). pose proof (len_nonneg rest).
  destruct (Z.leb_spec (len pre + (1 + len cs + len rest)) (i + 1)); [lia|].
  cbn [app]. rewrite (idx_mid pre) by lia. cbn [mbind res_bind].
  change (c :: cs ++ rest) with ([c] ++ cs ++ rest). rewrite (assoc_L (++) pre), IH.
  - cbn [mbind res_bind]. by rewrite Hc.
  - rewrite len_app, len_cons, len_nil. lia.
Qed.

Lemma known_compressions_rev cs : Forall (λ c, known_compression c = true) cs → rev cs = cs.
Proof.
  intros Hcs. assert (cs = replicate (length cs) 0) as E.
  { induction Hcs as [|c cs Hc _ IH]; [done|]. cbn. apply Z.eqb_eq in Hc as ->. by rewrite IH at 1. }
  rewrite E. clear. induction (length cs) as [|n IH]; [done|]. cbn. rewrite IH. clear.
  induction n as [|n IH]; [done|]. cbn. by rewrite IH.
Qed.

Lemma DecodeCompressionMethods_ok cs rest : Forall (λ c, known_compression c = true) cs → len cs ≤ 255 →
  DecodeCompressionMethods (EncodeCompressionMethods cs ++ rest) = Ok cs.
Proof.
  intros Hcs Hl. unfold DecodeCompressionMethods, EncodeCompressionMethods. rewrite known_compressions_rev by done.
  cbn [app]. rewrite len_cons, len_app. pose proof (len_nonneg cs). pose proof (len_nonneg rest).
  destruct (Z.ltb_spec (1 + (len cs + len rest)) 1); [lia|]. rewrite idx_0. cbn [mbind res_bind].
  unfold u8. rewrite Z.mod_small by lia. replace (Z.to_nat (len cs)) with (length cs) by (unfold len; lia).
  by apply (DecodeCompressionMethods_loop_ok cs [len cs]).
Qed.

Definition client_hello_ok (m : MessageClientHello) : Prop :=
  random_ok (ch_Random m) ∧ len (ch_Cookie m) ≤ 255 ∧ len (ch_SessionID m) ≤ 255 ∧
  Forall is_u16 (ch_CipherSuiteIDs m) ∧ 2 * len (ch_CipherSuiteIDs m) < 2 ^ 16 ∧
  Forall (λ c, known_compression c = true) (ch_CompressionMethods m) ∧ len (ch_CompressionMethods m) ≤ 255 ∧
  extensions_ok (ch_Extensions m).

(** What is behind the cookie, with [pre] in front of it. *)
Lemma client_hello_tail pre ids cs ex off : off = len pre → Forall is_u16 ids → 2 * len ids < 2 ^ 16 →
  Forall (λ c, known_compression c = true) cs → len cs ≤ 255 →
  let data := pre ++ encodeCipherSuiteIDs ids ++ EncodeCompressionMethods cs ++ ex in
  let off1 := off + (2 * len ids + 2) in let off2 := off1 + (len cs + 1) in
  (len data <? off + 2) = false ∧ (len data <? off) = false ∧
  slice_from (E:=dtls_error) data off = Ok (encodeCipherSuiteIDs ids ++ EncodeCompressionMethods cs ++ ex) ∧
  get_be (E:=dtls_error) 2 (encodeCipherSuiteIDs ids ++ EncodeCompressionMethods cs ++ ex) = Ok (2 * len ids) ∧
  (len data <? off1) = false ∧ slice_from (E:=dtls_error) data off1 = Ok (EncodeCompressionMethods cs ++ ex) ∧
  idx (E:=dtls_error) data off1 = Ok (len cs) ∧ slice_from (E:=dtls_error) data off2 = Ok ex.
Proof.
  intros -> Hids Hl Hcs Hc data off1 off2. unfold off2, off1, data. clear off2 off1 data.
  pose proof (len_nonneg ids). pose proof (len_nonneg cs). pose proof (len_nonneg ex).
  assert (len (EncodeCompressionMethods cs) = 1 + len cs) as Hcl.
  { unfold EncodeCompressionMethods. by rewrite known_compressions_rev, len_cons by done. }
  rewrite !len_app, len_encodeCipherSuiteIDs, Hcl.
  split_and!; [apply Z.ltb_ge; lia..| | |apply Z.ltb_ge; lia| | |].
  - by rewrite slice_from_app.
  - unfold encodeCipherSuiteIDs, u16. rewrite Z.mod_small by lia. rewrite <- (assoc_L (++)).
    rewrite get_be_put by (change (2 ^ (8 * Z.of_nat 2)) with (2 ^ 16); lia). f_equal. lia.
  - rewrite (assoc_L (++) pre). apply slice_from_app. rewrite len_app, len_encodeCipherSuiteIDs. lia.
  - rewrite (assoc_L (++) pre). unfold EncodeCompressionMethods. cbn [app].
    rewrite idx_mid by (rewrite len_app, len_encodeCipherSuiteIDs; lia). unfold u8. by rewrite Z.mod_small by lia.
  - rewrite (assoc_L (++) pre), (assoc_L (++) _ (EncodeCompressionMethods cs)). apply slice_from_app.
    rewrite !len_app, len_encodeCipherSuiteIDs, Hcl. lia.
Qed.

Lemma hello_head ma mi r t : random_ok r →
  (len ([ma; mi] ++ MarshalFixed r ++ t) <? 2 + RandomLength) = false ∧
  slice_from (E:=dtls_error) ([ma; mi] ++ MarshalFixed r ++ t) 2 = Ok (MarshalFixed r ++ t) ∧
  UnmarshalFixed (take (Z.to_nat RandomLength) (MarshalFixed r ++ t)) = r ∧ len ([ma; mi] ++ MarshalFixed r) = 34.
Proof.
  intros Hr. destruct (random_roundtrip r Hr) as [Hu Hl]. pose proof (len_nonneg t). split_and!.
  - rewrite !len_app, Hl, !len_cons, len_nil. apply Z.ltb_ge. lia.
  - by apply slice_from_app.
  - rewrite take_app_length'; [done|]. rewrite <- Hl. unfold len. lia.
  - by rewrite len_app, Hl.
Qed.

Lemma ClientHello_roundtrip m : client_hello_ok m →
  ∃ buf, ClientHello_Marshal m = Ok buf ∧ ClientHello_Unmarshal buf = Ok m.
Proof.
  destruct m as [[ma mi] r cookie sid ids cs es]. unfold client_hello_ok. cbn.
  intros (Hr & Hck & Hsid & Hids & Hil & Hcs & Hcl & Hes). unfold ClientHello_Marshal. cbn [ch_Cookie ch_SessionID ch_CompressionMethods
    ch_Extensions ch_Version ch_Random ch_CipherSuiteIDs Major Minor].
  destruct (extensions_codec es Hes) as (body & -> & _ & Hx). cbn [mbind res_bind].
  destruct (Z.ltb_spec 255 (len cookie)); [lia|]. destruct (Z.ltb_spec 255 (len sid)); [lia|]. destruct (Z.ltb_spec 255 (len cs)); [lia|].
  set (ex := be_put 2 (len body) ++ body) in *. eexists. split; [done|].
  set (t := encodeCipherSuiteIDs ids ++ EncodeCompressionMethods cs ++ ex).
  assert (0 < len t) as Ht. { unfold t. rewrite len_app, len_encodeCipherSuiteIDs.
    pose proof (len_nonneg ids). pose proof (len_nonneg (EncodeCompressionMethods cs ++ ex)). lia. }
  unfold ClientHello_Unmarshal. destruct (hello_head ma mi r ([u8 (len sid)] ++ sid ++ [u8 (len cookie)] ++ cookie ++ t) Hr) as (-> & Hs & Hu & Hh).
  rewrite Hs. change (idx _ 0) with (Ok ma : res dtls_error Z). change (idx _ 1) with (Ok mi : res dtls_error Z).
  cbn [mbind res_bind]. rewrite Hu. clear Hu Hs.
  set (pre1 := [ma; mi] ++ MarshalFixed r) in *. rewrite (assoc_L (++) [ma; mi]). fold pre1. cbn [app].
  rewrite (variable_field_ok pre1 sid) by first [done|rewrite len_cons, len_app; pose proof (len_nonneg cookie); lia].
  cbn [mbind res_bind].
  set (pre2 := pre1 ++ u8 (len sid) :: sid).
  assert (pre1 ++ u8 (len sid) :: sid ++ u8 (len cookie) :: cookie ++ t = pre2 ++ u8 (len cookie) :: cookie ++ t) as ->
    by (unfold pre2; by rewrite <- (assoc_L (++))).
  assert (len pre2 = handshakeMessageClientHelloVariableWidthStart + 1 + len sid) as Hp2
    by (unfold pre2; rewrite len_app, len_cons, Hh; unfold handshakeMessageClientHelloVariableWidthStart; lia).
  rewrite (variable_field_ok pre2 cookie) by done. cbn [mbind res_bind].
  set (pre3 := pre2 ++ u8 (len cookie) :: cookie).
  assert (pre2 ++ u8 (len cookie) :: cookie ++ t = pre3 ++ t) as -> by (unfold pre3; by rewrite <- (assoc_L (++))).
  destruct (client_hello_tail pre3 ids cs ex (handshakeMessageClientHelloVariableWidthStart + 1 + len sid + 1 + len cookie))
    as (T1 & T2 & T3 & T4 & T5 & T6 & T7 & T8); [by unfold pre3; rewrite len_app, len_cons, Hp2; lia|done..|].
  fold t in T1, T2, T3, T4, T5, T6, T7, T8. rewrite T2, T3. cbn [mbind res_bind].
  assert (decodeCipherSuiteIDs t = Ok ids) as -> by (by apply decodeCipherSuiteIDs_ok). cbn [mbind res_bind]. rewrite T1, T4. cbn [mbind res_bind].
  rewrite T5, T6. cbn [mbind res_bind]. rewrite DecodeCompressionMethods_ok by done. cbn [mbind res_bind].
  rewrite T7. cbn [mbind res_bind]. rewrite T8. cbn [mbind res_bind]. by rewrite Hx.
Qed.

Definition server_hello_ok (m : MessageServerHello) : Prop :=
  random_ok (sh_Random m) ∧ len (sh_SessionID m) ≤ 255 ∧ extensions_ok (sh_Extensions m) ∧
  (∃ id, sh_CipherSuiteID m = Some id ∧ is_u16 id) ∧ (∃ c, sh_CompressionMethod m = Some c ∧ known_compression c = true).

Lemma ServerHello_roundtrip m : server_hello_ok m →
  ∃ buf, ServerHello_Marshal m = Ok buf ∧ ServerHello_Unmarshal buf = Ok m.
Proof.
  destruct m as [[ma mi] r sid oid oc es]. unfold server_hello_ok. cbn.
  intros (Hr & Hsid & Hes & (id & -> & Hid) & c & -> & Hc). unfold ServerHello_Marshal.
  cbn [sh_Version sh_Random sh_SessionID sh_CipherSuiteID sh_CompressionMethod sh_Extensions Major Minor].
  destruct (extensions_codec es Hes) as (body & -> & _ & Hx). cbn [mbind res_bind].
  destruct (Z.ltb_spec 255 (len sid)); [lia|]. set (ex := be_put 2 (len body) ++ body) in *. eexists. split; [done|].
  assert (0 < len ex) as He by (unfold ex; rewrite len_app, len_be_put; pose proof (len_nonneg body); lia).
  set (t := be_put 2 id ++ [c] ++ ex). unfold ServerHello_Unmarshal.
  destruct (hello_head ma mi r ([u8 (len sid)] ++ sid ++ t) Hr) as (-> & Hs & Hu & Hh).
  rewrite Hs. change (idx _ 0) with (Ok ma : res dtls_error Z). change (idx _ 1) with (Ok mi : res dtls_error Z).
  cbn [mbind res_bind]. rewrite Hu. clear Hu Hs.
  assert (len t = 3 + len ex) as Ht by (unfold t; rewrite !len_app, len_be_put, len_cons, len_nil; lia).
  set (pre1 := [ma; mi] ++ MarshalFixed r) in *. rewrite (assoc_L (++) [ma; mi]). fold pre1. cbn [app].
  rewrite (variable_field_ok pre1 sid) by first [done|lia]. cbn [mbind res_bind].
  set (pre2 := pre1 ++ u8 (len sid) :: sid). set (off := messageServerHelloVariableWidthStart + 1 + len sid).
  assert (pre1 ++ u8 (len sid) :: sid ++ t = pre2 ++ t) as -> by (unfold pre2; by rewrite <- (assoc_L (++))).
  assert (len pre2 = off) as Hp2 by (unfold pre2, off; rewrite len_app, len_cons, Hh; unfold messageServerHelloVariableWidthStart, RandomLength, RandomBytesLength; lia).
  rewrite len_app, Hp2, Ht. destruct (Z.ltb_spec (off + (3 + len ex)) (off + 2)); [lia|].
  rewrite (slice_from_app pre2 t off) by done. cbn [mbind res_bind].
  assert (get_be (E:=dtls_error) 2 t = Ok id) as -> by (by apply get_be_put). cbn [mbind res_bind].
  destruct (Z.leb_spec (off + (3 + len ex)) (off + 2)); [lia|].
  assert (idx (E:=dtls_error) (pre2 ++ t) (off + 2) = Ok c) as ->.
  { unfold t. rewrite (assoc_L (++)). apply idx_mid. rewrite len_app, len_be_put. lia. }
  cbn [mbind res_bind]. rewrite Hc. cbn [negb]. destruct (Z.leb_spec (off + (3 + len ex)) (off + 2 + 1)); [lia|].
  assert (slice_from (E:=dtls_error) (pre2 ++ t) (off + 2 + 1) = Ok ex) as ->.
  { unfold t. rewrite !(assoc_L (++)). apply slice_from_app. rewrite !len_app, len_be_put, len_cons, len_nil. lia. }
  cbn [mbind res_bind]. by rewrite Hx.
Qed.

Lemma HelloVerifyRequest_roundtrip m : len (hv_Cookie m) ≤ 255 →
  ∃ buf, HelloVerifyRequest_Marshal m = Ok buf ∧ HelloVerifyRequest_Unmarshal buf = Ok m.
Proof.
  destruct m as [[ma mi] ck]. cbn. intros Hl. unfold HelloVerifyRequest_Marshal. cbn [hv_Cookie hv_Version Major Minor].
  pose proof (len_nonneg ck). destruct (Z.ltb_spec 255 (len ck)); [lia|]. eexists. split; [done|].
  unfold HelloVerifyRequest_Unmarshal, u8. rewrite Z.mod_small by lia. rewrite len_app, !len_cons, len_nil.
  destruct (Z.ltb_spec (1 + (1 + (1 + 0)) + len ck) 3); [lia|]. change (idx _ 0) with (Ok ma : res dtls_error Z).
  change (idx _ 1) with (Ok mi : res dtls_error Z). change (idx _ 2) with (Ok (len ck) : res dtls_error Z). cbn [mbind res_bind].
  destruct (Z.ltb_spec (1 + (1 + (1 + 0)) + len ck) (len ck + 3)); [lia|].
  rewrite <- (app_nil_r ck) at 2. by rewrite slice_mid by first [done|rewrite !len_cons, len_nil; lia].
Qed.

Lemma EncryptedExtensions_roundtrip es : extensions_ok es →
  ∃ buf, EncryptedExtensions_Marshal es = Ok buf ∧ EncryptedExtensions_Unmarshal buf = Ok es.
Proof.
  intros Hes. destruct (extensions_codec es Hes) as (body & Hm & _ & Hu). eexists. split; [exact Hm|].
  unfold EncryptedExtensions_Unmarshal. rewrite len_app, len_be_put. pose proof (len_nonneg body).
  by destruct (Z.ltb_spec (Z.of_nat 2 + len body) 2); [lia|].
Qed.

(** *** Certificate *)

Definition cert_bytes (cert : list Z) : list Z := be_put 3 (u32 (len cert)) ++ cert.

Lemma len_cert_bytes c : len (cert_bytes c) = 3 + len c.
Proof. unfold cert_bytes. by rewrite len_app, len_be_put. Qed.

Lemma certificate_total_spec certs : certificate_total certs = 3 + len (concat (cert_bytes <$> certs)).
Proof.
  unfold certificate_total, handshakeMessageCertificateLengthFieldSize.
  assert (∀ n, foldl (λ total cert, total + (3 + len cert)) n certs = n + len (concat (cert_bytes <$> certs))) as E; [|apply E].
  induction certs as [|c certs IH]; intros n; [cbn [foldl fmap list_fmap concat]; rewrite len_nil; lia|]. cbn [foldl fmap list_fmap concat]. rewrite IH.
  rewrite len_app, len_cert_bytes. lia.
Qed.

Lemma Certificate_loop_ok certs pre fuel : (length certs ≤ fuel)%nat → len (concat (cert_bytes <$> certs)) < 2 ^ 24 →
  Certificate_loop fuel (pre ++ concat (cert_bytes <$> certs)) (len pre) = Ok certs.
Proof.
  revert pre fuel. induction certs as [|c certs IH]; intros pre fuel Hf Hl.
  { cbn [fmap list_fmap concat]. rewrite app_nil_r. destruct fuel; cbn [Certificate_loop]; by rewrite Z.ltb_irrefl. }
  destruct fuel as [|fuel]; [cbn in Hf; lia|]. rewrite fmap_cons in *. cbn [concat] in *. rewrite len_app, len_cert_bytes in Hl.
  set (t := concat (cert_bytes <$> certs)) in *. cbn [Certificate_loop]. rewrite len_app.
  rewrite (len_app (cert_bytes c)), len_cert_bytes. pose proof (len_nonneg c). pose proof (len_nonneg t).
  destruct (Z.ltb_spec (len pre) (len pre + (3 + len c + len t))); [|lia]. cbn [negb].
  rewrite (slice_from_app pre) by done. cbn [mbind res_bind].
  assert (BigEndianUint24 (cert_bytes c ++ t) = len c) as ->.
  { unfold cert_bytes, u32. rewrite Z.mod_small, <- (assoc_L (++)) by lia. apply BigEndianUint24_put. unfold is_u24. lia. }
  destruct (Z.ltb_spec (len pre + (3 + len c + len t)) (len pre + handshakeMessageCertificateLengthFieldSize + len c));
    [unfold handshakeMessageCertificateLengthFieldSize in *; lia|].
  assert (pre ++ cert_bytes c ++ t = (pre ++ be_put 3 (u32 (len c))) ++ c ++ t) as -> by (unfold cert_bytes; by rewrite !(assoc_L (++))).
  rewrite slice_mid by (rewrite len_app, len_be_put; unfold handshakeMessageCertificateLengthFieldSize; lia). cbn [mbind res_bind].
  rewrite (assoc_L (++) _ c). replace (len pre + handshakeMessageCertificateLengthFieldSize + len c) with (len ((pre ++ be_put 3 (u32 (len c))) ++ c))
    by (rewrite !len_app, len_be_put; unfold handshakeMessageCertificateLengthFieldSize; lia).
  unfold t. rewrite IH; [done|cbn in Hf; lia|fold t; lia].
Qed.

Lemma Certificate_roundtrip certs : len (concat (cert_bytes <$> certs)) < 2 ^ 24 →
  ∃ buf, Certificate_Marshal certs = Ok buf ∧ Certificate_Unmarshal buf = Ok certs.
Proof.
  intros Hl. unfold Certificate_Marshal. eexists. split; [done|]. change (λ cert, be_put 3 (u32 (len cert)) ++ cert) with cert_bytes.
  rewrite certificate_total_spec. set (t := concat (cert_bytes <$> certs)) in *. pose proof (len_nonneg t).
  replace (3 + len t - handshakeMessageCertificateLengthFieldSize) with (len t) by (unfold handshakeMessageCertificateLengthFieldSize; lia).
  unfold u32. rewrite Z.mod_small by lia. unfold Certificate_Unmarshal. rewrite len_app, len_be_put.
  destruct (Z.ltb_spec (Z.of_nat 3 + len t) handshakeMessageCertificateLengthFieldSize);
    [unfold handshakeMessageCertificateLengthFieldSize in *; lia|].
  rewrite BigEndianUint24_put by (unfold is_u24; lia). unfold handshakeMessageCertificateLengthFieldSize at 1.
  destruct (Z.eqb_spec (len t + 3) (Z.of_nat 3 + len t)); [|lia]. cbn [negb].
  change handshakeMessageCertificateLengthFieldSize with (len (be_put 3 (len t))). apply Certificate_loop_ok; [|done].
  assert (length certs ≤ length t)%nat; [|rewrite length_app; lia]. clear. unfold t.
  induction certs as [|c certs IH]; [done|]. rewrite fmap_cons. cbn [concat length]. rewrite length_app.
  pose proof (len_cert_bytes c) as E. unfold len in E. cbv zeta in IH. lia.
Qed.

(** *** CertificateRequest *)

Definition name_bytes (ca : list Z) : list Z := be_put 2 (u16 (len ca)) ++ ca.

Definition certificate_request_ok (m : MessageCertificateRequest) : Prop :=
  Forall (λ t, ClientCertificateTypes t = true) (cr_CertificateTypes m) ∧ len (cr_CertificateTypes m) ≤ 255 ∧
  Forall valid_algorithm (cr_SignatureHashAlgorithms m) ∧ 2 * len (cr_SignatureHashAlgorithms m) < 2 ^ 16 ∧
  len (concat (name_bytes <$> cr_CertificateAuthoritiesNames m)) < 2 ^ 16.

Lemma certificate_types_ok ts pre rest off : off = len pre → Forall (λ t, ClientCertificateTypes t = true) ts →
  certificate_types (length ts) off (pre ++ ts ++ rest) = Ok ts.
Proof.
  intros -> Hts. revert pre. induction Hts as [|t ts Ht _ IH]; intros pre; [done|]. cbn [length certificate_types app].
  rewrite (idx_mid pre) by done. cbn [mbind res_bind]. change (t :: ts ++ rest) with ([t] ++ ts ++ rest).
  rewrite (assoc_L (++) pre). replace (len pre + 1) with (len (pre ++ [t])) by (rewrite len_app, len_cons, len_nil; lia).
  rewrite IH. cbn [mbind res_bind]. by rewrite Ht.
Qed.

Lemma map_u8_types ts : Forall (λ t, ClientCertificateTypes t = true) ts → map u8 ts = ts.
Proof.
  induction 1 as [|t ts Ht _ IH]; [done|]. cbn. rewrite IH. f_equal. unfold ClientCertificateTypes in Ht.
  by apply Z.eqb_eq in Ht as ->.
Qed.

Lemma request_algorithms_ok l pre rest off : off = len pre → Forall valid_algorithm l →
  request_algorithms (length l) off (pre ++ concat (Algorithm_Marshal <$> l) ++ rest) = Ok l.
Proof.
  intros -> Hl. revert pre. induction Hl as [|a l Ha _ IH]; intros pre; [done|].
  rewrite fmap_cons. cbn [length request_algorithms concat]. destruct (Algorithm_Marshal_put a) as (s & Hs & Em & Eg).
  unfold valid_algorithm in Ha. rewrite Eg in Ha. rewrite Em, <- (assoc_L (++) (be_put 2 s)).
  set (t := concat (Algorithm_Marshal <$> l) ++ rest) in *. pose proof (len_nonneg t).
  rewrite !len_app, len_be_put. destruct (Z.ltb_spec (len pre + (Z.of_nat 2 + len t)) (len pre + 2)); [lia|].
  rewrite (slice_mid pre) by (rewrite ?len_be_put; lia). cbn [mbind res_bind].
  rewrite <- (app_nil_r (be_put 2 s)) at 1. rewrite get_be_put by done. cbn [mbind res_bind]. rewrite Ha.
  rewrite (assoc_L (++) pre). replace (len pre + 2) with (len (pre ++ be_put 2 s)) by (rewrite len_app, len_be_put; lia).
  unfold t. by rewrite IH.
Qed.

Lemma authority_names_ok names : Forall (λ n, len n < 2 ^ 16) names →
  for_nonempty authority_name [] (concat (name_bytes <$> names)) = Ok names.
Proof.
  intros Hn. apply for_nonempty_snoc. intros pre n post ->. rewrite Forall_app, Forall_cons in Hn. destruct Hn as (_ & Hn & _).
  pose proof (len_nonneg n). unfold name_bytes, u16. rewrite Z.mod_small by lia.
  split; [by destruct (be_put 2 (len n)) eqn:E; [apply (f_equal len) in E; rewrite len_be_put in E|]|].
  intros rest. unfold authority_name. rewrite <- (assoc_L (++)). rewrite !len_app, len_be_put. pose proof (len_nonneg rest).
  destruct (Z.ltb_spec (Z.of_nat 2 + (len n + len rest)) 2); [lia|].
  rewrite get_be_put by (change (2 ^ (8 * Z.of_nat 2)) with (2 ^ 16); lia). cbn [mbind res_bind].
  rewrite (slice_from_app (be_put 2 (len n)) (n ++ rest) 2) by done. cbn [mbind res_bind]. rewrite len_app.
  destruct (Z.ltb_spec (len n + len rest) (len n)); [lia|].
  assert (slice (E:=dtls_error) (n ++ rest) 0 (len n) = Ok n) as -> by (by apply (slice_mid [])). cbn [mbind res_bind].
  by rewrite slice_from_app.
Qed.

Lemma names_length names : foldl (λ n ca, n + (len ca + 2)) 0 names = len (concat (name_bytes <$> names)).
Proof.
  assert (∀ n, foldl (λ n ca, n + (len ca + 2)) n names = n + len (concat (name_bytes <$> names))) as E; [|apply E].
  induction names as [|ca names IH]; intros n; [cbn [foldl fmap list_fmap concat]; rewrite len_nil; lia|].
  rewrite fmap_cons. cbn [foldl concat]. rewrite IH, len_app. unfold name_bytes at 2. rewrite len_app, len_be_put. lia.
Qed.

Lemma slice_end (l k : list Z) lo hi : lo = len l → hi = len l + len k → slice (E:=dtls_error) (l ++ k) lo hi = Ok k.
Proof. intros -> ->. rewrite <- (app_nil_r k) at 1. by apply slice_mid. Qed.

(** What is behind the certificate types, with [pre] in front of it. *)
Lemma certificate_request_tail pre algs names off : off = len pre → Forall valid_algorithm algs →
  let na := 2 * len algs in let N := concat (name_bytes <$> names) in
  na < 2 ^ 16 → len N < 2 ^ 16 →
  let A := concat (Algorithm_Marshal <$> algs) in let data := pre ++ be_put 2 na ++ A ++ be_put 2 (len N) ++ N in
  len data = off + 2 + na + 2 + len N ∧
  (d ← slice_from data off; get_be (E:=dtls_error) 2 d) = Ok na ∧
  request_algorithms (Z.to_nat ((na + 1) / 2)) (off + 2) data = Ok algs ∧
  (d ← slice_from data (off + 2 + na); get_be (E:=dtls_error) 2 d) = Ok (len N) ∧
  (cas ← slice data (off + 2 + na + 2) (off + 2 + na + 2 + len N); for_nonempty authority_name [] cas) = Ok names.
Proof.
  intros -> Halgs na N Hna HN A data. pose proof (len_nonneg algs). pose proof (len_nonneg N).
  assert (len A = na) as HA.
  { unfold A, na. apply len_concat_const. intros a. unfold Algorithm_Marshal. by destruct (Signature.IsPSS _). }
  assert (Forall (λ n, len n < 2 ^ 16) names) as Hns.
  { apply Forall_forall. intros n Hn. apply (len_concat_elem name_bytes) in Hn. fold N in Hn.
    unfold name_bytes in Hn. rewrite len_app, len_be_put in Hn. lia. }
  split_and!.
  - unfold data. rewrite !len_app, !len_be_put, HA. lia.
  - unfold data. rewrite slice_from_app by done. cbn [mbind res_bind]. apply get_be_put. change (2 ^ (8 * Z.of_nat 2)) with (2 ^ 16). lia.
  - replace (Z.to_nat ((na + 1) / 2)) with (length algs)
      by (unfold na; rewrite (Z.add_comm _ 1), (Z.mul_comm 2), Z.div_add by lia; change (1 / 2) with 0; unfold len; lia).
    unfold data. rewrite (assoc_L (++) pre). apply request_algorithms_ok; [|done]. rewrite len_app, len_be_put. lia.
  - unfold data. rewrite !(assoc_L (++)), <- (assoc_L (++) _ (be_put 2 (len N))).
    rewrite slice_from_app by (rewrite !len_app, len_be_put, HA; lia).
    cbn [mbind res_bind]. apply get_be_put. change (2 ^ (8 * Z.of_nat 2)) with (2 ^ 16). lia.
  - unfold data. rewrite !(assoc_L (++)). rewrite slice_end by (rewrite !len_app, !len_be_put, HA; lia). cbn [mbind res_bind]. by apply authority_names_ok.
Qed.

Lemma CertificateRequest_roundtrip m : certificate_request_ok m →
  ∃ buf, CertificateRequest_Marshal m = Ok buf ∧ CertificateRequest_Unmarshal buf = Ok m.
Proof.
  destruct m as [ts algs names]. unfold certificate_request_ok. cbn. intros (Hts & Htl & Halgs & Hal & HN).
  unfold CertificateRequest_Marshal. cbn [cr_CertificateTypes cr_SignatureHashAlgorithms cr_CertificateAuthoritiesNames].
  pose proof (len_nonneg ts). pose proof (len_nonneg algs). destruct (Z.ltb_spec 255 (len ts)); [lia|]. eexists. split; [done|].
  rewrite map_u8_types, names_length by done. change (λ ca, be_put 2 (u16 (len ca)) ++ ca) with name_bytes.
  set (N := concat (name_bytes <$> names)) in *. pose proof (len_nonneg N). unfold u8, u16. rewrite !Z.mod_small by lia.
  assert ((if 0 <? len N then N else []) = N) as -> by (destruct (Z.ltb_spec 0 (len N)); [done|]; rewrite (len_zero_nil N); [done|lia]).
  rewrite (Z.mul_comm _ 2), (assoc_L (++) [len ts]). set (pre := [len ts] ++ ts).
  assert (1 + len ts = len pre) as Hp by (unfold pre; by rewrite len_app).
  destruct (certificate_request_tail pre algs names (1 + len ts) Hp Halgs) as (T1 & T2 & T3 & T4 & T5); [done..|]. fold N in T1, T2, T3, T4, T5.
  unfold CertificateRequest_Unmarshal. rewrite T1. unfold messageCertificateRequestMinLength.
  destruct (Z.ltb_spec (1 + len ts + 2 + 2 * len algs + 2 + len N) 5); [lia|].
  change (idx _ 0) with (Ok (len ts) : res dtls_error Z). cbn [mbind res_bind].
  destruct (Z.ltb_spec (1 + len ts + 2 + 2 * len algs + 2 + len N) (1 + len ts)); [lia|].
  assert (certificate_types (Z.to_nat (len ts)) 1 (pre ++ be_put 2 (2 * len algs) ++ concat (Algorithm_Marshal <$> algs) ++
    be_put 2 (len N) ++ N) = Ok ts) as ->.
  { unfold pre. rewrite <- (assoc_L (++)). replace (Z.to_nat (len ts)) with (length ts) by (unfold len; lia). by apply certificate_types_ok. }
  cbn [mbind res_bind]. destruct (Z.ltb_spec (1 + len ts + 2 + 2 * len algs + 2 + len N) (1 + len ts + 2)); [lia|].
  destruct (slice_from _ (1 + len ts)) as [d1| |]; cbn [mbind res_bind] in *; [|done..]. rewrite T2. cbn [mbind res_bind].
  destruct (Z.ltb_spec (1 + len ts + 2 + 2 * len algs + 2 + len N) (1 + len ts + 2 + 2 * len algs)); [lia|].
  rewrite T3. cbn [mbind res_bind].
  destruct (Z.ltb_spec (1 + len ts + 2 + 2 * len algs + 2 + len N) (1 + len ts + 2 + 2 * len algs + 2)); [lia|].
  destruct (slice_from _ (1 + len ts + 2 + 2 * len algs)) as [d2| |]; cbn [mbind res_bind] in *; [|done..]. rewrite T4. cbn [mbind res_bind].
  destruct (Z.ltb_spec (1 + len ts + 2 + 2 * len algs + 2 + len N) (1 + len ts + 2 + 2 * len algs + 2 + len N)); [lia|].
  destruct (slice _ _ _) as [d3| |]; cbn [mbind res_bind] in *; [|done..]. by rewrite T5.
Qed.

(** *** CertificateVerify *)

(** The algorithms whose scheme is the hash followed by the signature algorithm. *)
Lemma plain_algorithm h g : valid_algorithm (MkAlgorithm h g) → Signature.IsPSS g = false →
  is_byte h ∧ is_byte g ∧ Algorithm_Marshal (MkAlgorithm h g) = [h; g] ∧ Algorithm_Unmarshal (be_get [h; g]) = Ok (MkAlgorithm h g).
Proof.
  intros Hv Hp. unfold valid_algorithm, Algorithm_Marshal in *. cbn [alg_Hash alg_Signature] in *. rewrite Hp in *.
  assert (bytes_ok [u8 h; u8 g]) as Hb by (unfold bytes_ok; rewrite !Forall_cons, Forall_nil; split_and!; try done; by apply Z.mod_pos_bound).
  pose proof (be_get_range _ Hb) as Hr. change (2 ^ (8 * len [u8 h; u8 g])) with (2 ^ 16) in Hr.
  set (s := be_get [u8 h; u8 g]) in *. pose proof Hv as Hv'. unfold Algorithm_Unmarshal in Hv.
  destruct (Signature.IsPSS s) eqn:Es.
  - destruct (Hash.ExtractHashFromPSS s =? Hash.None_); [done|]. cbn [mbind res_bind] in Hv.
    destruct (negb _); [done|]. destruct (_ || _); [done|]. injection Hv as _ E. rewrite E in Es. congruence.
  - cbn [mbind res_bind] in Hv. destruct (negb _); [done|]. destruct (_ || _); [done|]. injection Hv as Hh Hg.
    assert (is_byte h) as Hbh. { rewrite <- Hh, Z.shiftr_div_pow2 by lia. split; [apply Z.div_pos; lia|]. apply Z.div_lt_upper_bound; lia. }
    assert (is_byte g) as Hbg. { rewrite <- Hg. change 255 with (Z.ones 8). rewrite Z.land_ones by lia. by apply Z.mod_pos_bound. }
    assert (u8 h = h) as Eh by (by apply Z.mod_small). assert (u8 g = g) as Eg by (by apply Z.mod_small).
    unfold s in Hv'. rewrite Eh, Eg in *. done.
Qed.

Definition certificate_verify_ok (m : MessageCertificateVerify) : Prop :=
  valid_algorithm (MkAlgorithm (cv_HashAlgorithm m) (cv_SignatureAlgorithm m)) ∧
  Signature.IsPSS (cv_SignatureAlgorithm m) = false ∧ len (cv_Signature m) < 2 ^ 16.

Lemma CertificateVerify_roundtrip m : certificate_verify_ok m →
  ∃ buf, CertificateVerify_Marshal m = Ok buf ∧ CertificateVerify_Unmarshal buf = Ok m.
Proof.
  destruct m as [h g sig]. unfold certificate_verify_ok. cbn. intros (Hv & Hp & Hl).
  destruct (plain_algorithm h g Hv Hp) as (Hh & Hg & _ & Hu). unfold is_byte in Hh, Hg. unfold CertificateVerify_Marshal.
  cbn [cv_HashAlgorithm cv_SignatureAlgorithm cv_Signature].
  destruct (Z.ltb_spec 255 h); [lia|]. destruct (Z.ltb_spec 255 g); [lia|]. cbn [orb].
  assert (Z.lor (u16 (Z.shiftl h 8)) g = be_get [h; g]) as ->.
  { unfold u16. rewrite Z.shiftl_mul_pow2, Z.mod_small by lia. rewrite lor_add by lia. cbn. lia. }
  rewrite Hu. eexists. split; [done|]. pose proof (len_nonneg sig). unfold u8, u16. rewrite !Z.mod_small by lia.
  set (n := len sig) in *. unfold CertificateVerify_Unmarshal, handshakeMessageCertificateVerifyMinLength.
  rewrite !len_app, len_be_put, !len_cons, len_nil. fold n. destruct (Z.ltb_spec (1 + (1 + 0) + (Z.of_nat 2 + n)) 4); [lia|].
  assert (slice (E:=dtls_error) ([h; g] ++ be_put 2 n ++ sig) 0 2 = Ok [h; g]) as -> by (by apply (slice_mid [] [h; g])).
  cbn [mbind res_bind]. change (get_be 2 [h; g]) with (Ok (be_get [h; g]) : res dtls_error Z). cbn [mbind res_bind]. rewrite Hu.
  rewrite (slice_from_app [h; g] _ 2) by done. cbn [mbind res_bind].
  rewrite get_be_put by (change (2 ^ (8 * Z.of_nat 2)) with (2 ^ 16); lia). cbn [mbind res_bind].
  destruct (Z.eqb_spec (n + 4) (1 + (1 + 0) + (Z.of_nat 2 + n))); [|lia]. cbn [negb].
  rewrite (assoc_L (++)), slice_from_app by done. done.
Qed.

(** *** ClientKeyExchange and ServerKeyExchange *)

(** An identity hint goes with a pre-shared key. *)
Definition hint_ok (kx : Z) (hint : option (list Z)) (bound : Z) : Prop :=
  match hint with
  | Some h => Has kx KeyExchangeAlgorithmPsk = true ∧ len h < bound
  | None => Has kx KeyExchangeAlgorithmPsk = false
  end.

Definition client_key_exchange_ok (kx : Z) (m : MessageClientKeyExchange) : Prop :=
  hint_ok kx (ck_IdentityHint m) (2 ^ 16) ∧
  match ck_PublicKey m with
  | Some k => Has kx KeyExchangeAlgorithmEcdhe = true ∧ 1 ≤ len k ≤ 255
  | None => Has kx KeyExchangeAlgorithmEcdhe = false ∧ ck_IdentityHint m ≠ None
  end.

Lemma ClientKeyExchange_roundtrip kx m : client_key_exchange_ok kx m →
  ∃ buf, ClientKeyExchange_Marshal m = Ok buf ∧ ClientKeyExchange_Unmarshal kx buf = Ok m.
Proof.
  destruct m as [hint key]. unfold client_key_exchange_ok. cbn. intros [Hh Hk].
  set (pre := match hint with Some h => be_put 2 (u16 (len h)) ++ h | None => [] end).
  set (post := match key with Some k => len k :: k | None => [] end).
  assert (ClientKeyExchange_Marshal (MkClientKeyExchange hint key) = Ok (pre ++ post)) as ->.
  { unfold ClientKeyExchange_Marshal, pre, post. cbn. destruct hint as [h|], key as [k|]; cbn [app]; rewrite ?app_nil_r; try done;
      try (destruct (Z.ltb_spec 255 (len k)); [lia|]; unfold u8; rewrite (Z.mod_small (len k)) by lia; done).
    by destruct Hk. }
  eexists. split; [done|]. unfold ClientKeyExchange_Unmarshal.
  assert (kx ≠ KeyExchangeAlgorithmNone) as Hkx.
  { destruct hint, key; cbn in Hh; first [by apply (Has_not_none _ KeyExchangeAlgorithmPsk); [|apply Hh]
      |by apply (Has_not_none _ KeyExchangeAlgorithmEcdhe); [|apply Hk]|by destruct Hk]. }
  assert (2 ≤ len (pre ++ post)) as Hl2.
  { unfold pre, post. rewrite len_app. destruct hint as [h|], key as [k|]; rewrite ?len_app, ?len_be_put, ?len_cons, ?len_nil;
      try (pose proof (len_nonneg h)); try (pose proof (len_nonneg k)); try lia. by destruct Hk. }
  destruct (Z.ltb_spec (len (pre ++ post)) 2); [lia|]. destruct (Z.eqb_spec kx KeyExchangeAlgorithmNone); [done|].
  assert ((if Has kx KeyExchangeAlgorithmPsk then
      pskLength ← get_be 2 (pre ++ post); if len (pre ++ post) - 2 <? pskLength then Err ErrBufferTooSmall else
      h ← slice (pre ++ post) 2 (pskLength + 2); Ok (Some h, pskLength + 2) else Ok (None, 0)) = Ok (hint, len pre)) as ->.
  { unfold pre. destruct hint as [h|]; cbn in Hh; [|by rewrite Hh]. destruct Hh as [-> Hhl]. pose proof (len_nonneg h).
    unfold u16. rewrite Z.mod_small, <- (assoc_L (++)) by lia. rewrite get_be_put by (change (2 ^ (8 * Z.of_nat 2)) with (2 ^ 16); lia).
    cbn [mbind res_bind]. rewrite !len_app, len_be_put. pose proof (len_nonneg post).
    destruct (Z.ltb_spec (Z.of_nat 2 + (len h + len post) - 2) (len h)); [lia|].
    rewrite slice_mid by (rewrite ?len_be_put; lia). cbn [mbind res_bind]. do 2 f_equal. lia. }
  cbn [mbind res_bind]. unfold post. destruct key as [k|]; destruct Hk as [-> Hkl]; [|done].
  rewrite idx_mid by done. cbn [mbind res_bind]. rewrite len_app, len_cons.
  destruct (Z.ltb_spec (len pre + (1 + len k) - 1 - len pre) (len k)); [lia|].
  change (len k :: k) with ([len k] ++ k). rewrite (assoc_L (++)).
  by rewrite slice_from_app by (rewrite len_app, len_cons, len_nil; lia).
Qed.

(** Either nothing is signed or the signature has an algorithm. *)
Definition signature_ok (h g : Z) (sig : list Z) : Prop :=
  (h = Hash.None_ ∧ g = Signature.Anonymous ∧ sig = []) ∨
  (valid_algorithm (MkAlgorithm h g) ∧ g ≠ Signature.Anonymous ∧ 1 ≤ len sig < 2 ^ 16).

Definition signature_bytes (h g : Z) (sig : list Z) : list Z :=
  match sig with [] => [] | _ => Algorithm_Marshal (MkAlgorithm h g) ++ be_put 2 (len sig) ++ sig end.

Definition server_key_exchange_ok (kx : Z) (m : MessageServerKeyExchange) : Prop :=
  hint_ok kx (sk_IdentityHint m) (2 ^ 16 - 2) ∧
  if kx =? KeyExchangeAlgorithmPsk
  then sk_EllipticCurveType m = 0 ∧ sk_NamedCurve m = 0 ∧ sk_PublicKey m = [] ∧
       sk_HashAlgorithm m = Hash.None_ ∧ sk_SignatureAlgorithm m = Signature.Anonymous ∧ sk_Signature m = []
  else Has kx KeyExchangeAlgorithmEcdhe = true ∧ CurveTypes (sk_EllipticCurveType m) = true ∧ Curves (sk_NamedCurve m) = true ∧
       1 ≤ len (sk_PublicKey m) ≤ 255 ∧ signature_ok (sk_HashAlgorithm m) (sk_SignatureAlgorithm m) (sk_Signature m).

Lemma signature_tail pre h g sig : signature_ok h g sig → let data := pre ++ signature_bytes h g sig in
  if len data =? len pre then h = Hash.None_ ∧ g = Signature.Anonymous ∧ sig = []
  else (len data <=? len pre + 1) = false ∧ (len data <? len pre + 2 + 2) = false ∧ (len data <? len pre + 2 + 2 + len sig) = false ∧
    (∃ s, (d ← slice data (len pre) (len pre + 2); get_be (E:=dtls_error) 2 d) = Ok s ∧ Algorithm_Unmarshal s = Ok (MkAlgorithm h g)) ∧
    (d ← slice_from data (len pre + 2); get_be (E:=dtls_error) 2 d) = Ok (len sig) ∧
    slice (E:=dtls_error) data (len pre + 2 + 2) (len pre + 2 + 2 + len sig) = Ok sig.
Proof.
  intros Hs data. unfold data. clear data. destruct Hs as [(-> & -> & ->)|(Hv & Hg & Hl)].
  { cbn [signature_bytes]. by rewrite app_nil_r, Z.eqb_refl. }
  destruct (Algorithm_Marshal_put (MkAlgorithm h g)) as (s & Hs & Em & Eg). unfold valid_algorithm in Hv. rewrite Eg in Hv.
  assert (signature_bytes h g sig = be_put 2 s ++ be_put 2 (len sig) ++ sig) as ->.
  { unfold signature_bytes. rewrite Em. destruct sig; [rewrite len_nil in Hl; lia|done]. }
  rewrite !len_app, !len_be_put. destruct (Z.eqb_spec (len pre + (Z.of_nat 2 + (Z.of_nat 2 + len sig))) (len pre)); [lia|].
  split_and!; [apply Z.leb_gt; lia|apply Z.ltb_ge; lia..| | |].
  - exists s. split; [|done]. rewrite slice_mid by (rewrite ?len_be_put; lia). cbn [mbind res_bind].
    rewrite <- (app_nil_r (be_put 2 s)). by apply get_be_put.
  - rewrite (assoc_L (++)), slice_from_app by (rewrite len_app, len_be_put; lia). cbn [mbind res_bind].
    apply get_be_put. change (2 ^ (8 * Z.of_nat 2)) with (2 ^ 16). lia.
  - rewrite !(assoc_L (++)). apply slice_end; rewrite !len_app, !len_be_put; lia.
Qed.

Lemma ServerKeyExchange_params_ok hint t c key h g sig : CurveTypes t = true → Curves c = true → 1 ≤ len key ≤ 255 →
  signature_ok h g sig →
  ServerKeyExchange_params hint ([t] ++ be_put 2 c ++ [len key] ++ key ++ signature_bytes h g sig) =
  Ok (MkServerKeyExchange hint t c key h g sig).
Proof.
  intros Ht Hc Hk Hs. set (post := signature_bytes h g sig). pose proof (len_nonneg post).
  set (pre := [t] ++ be_put 2 c ++ [len key] ++ key).
  assert ([t] ++ be_put 2 c ++ [len key] ++ key ++ post = pre ++ post) as E by (unfold pre; by rewrite <- !(assoc_L (++))).
  assert (len pre = 4 + len key) as Hp by (unfold pre; rewrite !len_app, len_be_put, !len_cons, len_nil; lia).
  assert (slice (E:=dtls_error) (pre ++ post) 1 3 = Ok (be_put 2 c)) as S1 by (rewrite <- E; by apply slice_mid).
  assert (slice (E:=dtls_error) (pre ++ post) 4 (4 + len key) = Ok key) as S2
    by (rewrite <- E; rewrite !(assoc_L (++)), <- (assoc_L (++) _ key); apply slice_mid; rewrite !len_app, len_be_put, !len_cons, len_nil; lia).
  pose proof (signature_tail pre h g sig Hs) as Htail. fold post in Htail. cbv zeta in Htail. rewrite Hp in Htail.
  rewrite E. unfold ServerKeyExchange_params. assert (len (pre ++ post) = 4 + len key + len post) as Hl by (rewrite len_app; lia).
  set (data := pre ++ post) in *. destruct (Z.eqb_spec (len data) 0); [lia|].
  change (idx data 0) with (Ok t : res dtls_error Z). cbn [mbind res_bind]. rewrite Ht. cbn [negb].
  rewrite (slice_from_ok 1) by lia. cbn [mbind res_bind]. rewrite len_sub by lia.
  destruct (Z.ltb_spec (len data - 1) 2); [lia|]. rewrite S1. cbn [mbind res_bind].
  rewrite <- (app_nil_r (be_put 2 c)), get_be_put by (by apply Curves_u16). cbn [mbind res_bind]. rewrite Hc. cbn [negb].
  destruct (Z.ltb_spec (len data) 4); [lia|].
  assert (idx (E:=dtls_error) data 3 = Ok (len key)) as -> by (rewrite <- E, (assoc_L (++)); by apply idx_mid).
  cbn [mbind res_bind]. destruct (Z.ltb_spec (len data) (4 + len key)); [lia|]. rewrite S2. cbn [mbind res_bind].
  destruct (len data =? 4 + len key); [by destruct Htail as (-> & -> & ->)|].
  destruct Htail as (T1 & T2 & T3 & (s & T4 & Hu) & T5 & T6). rewrite T1.
  destruct (slice data (4 + len key) (4 + len key + 2)) as [d1| |]; cbn [mbind res_bind] in *; [|done..].
  rewrite T4. cbn [mbind res_bind]. rewrite Hu, T2.
  destruct (slice_from data (4 + len key + 2)) as [d2| |]; cbn [mbind res_bind] in *; [|done..].
  rewrite T5. cbn [mbind res_bind]. by rewrite T3, T6.
Qed.

Lemma valid_algorithm_hash h g : valid_algorithm (MkAlgorithm h g) → h ≠ Hash.None_.
Proof.
  intros Hv. destruct (Algorithm_Marshal_put (MkAlgorithm h g)) as (s & Hs & Em & Eg). unfold valid_algorithm in Hv. rewrite Eg in Hv.
  by apply (Algorithm_Unmarshal_Ok s _ Hs) in Hv as [_ ?].
Qed.

Lemma ServerKeyExchange_Marshal_ok kx m : server_key_exchange_ok kx m →
  ServerKeyExchange_Marshal m = Ok (match sk_IdentityHint m with Some h => be_put 2 (len h) ++ h | None => [] end ++
    if kx =? KeyExchangeAlgorithmPsk then []
    else [sk_EllipticCurveType m] ++ be_put 2 (sk_NamedCurve m) ++ [len (sk_PublicKey m)] ++ sk_PublicKey m ++
         signature_bytes (sk_HashAlgorithm m) (sk_SignatureAlgorithm m) (sk_Signature m)).
Proof.
  destruct m as [hint t c key h g sig]. unfold server_key_exchange_ok, ServerKeyExchange_Marshal.
  cbn [sk_IdentityHint sk_EllipticCurveType sk_NamedCurve sk_PublicKey sk_HashAlgorithm sk_SignatureAlgorithm sk_Signature].
  intros [Hh Hm].
  assert (match hint with Some h => be_put 2 (u16 (len h)) ++ h | None => [] end =
    match hint with Some h => be_put 2 (len h) ++ h | None => [] end) as ->.
  { destruct hint as [hi|]; [|done]. cbn in Hh. pose proof (len_nonneg hi). unfold u16. by rewrite Z.mod_small by lia. }
  set (pre := match hint with Some h => be_put 2 (len h) ++ h | None => [] end).
  destruct (kx =? KeyExchangeAlgorithmPsk).
  { destruct Hm as (-> & -> & -> & _). by rewrite (app_nil_r pre). }
  destruct Hm as (_ & Ht & _ & Hk & Hs). assert (t = CurveTypeNamedCurve) as -> by (by apply Z.eqb_eq).
  destruct (Z.eqb_spec (len key) 0); [lia|]. change (u8 CurveTypeNamedCurve) with CurveTypeNamedCurve. unfold u8, u16.
  rewrite (Z.mod_small (len key)) by lia. cbn [orb].
  destruct Hs as [(-> & -> & ->)|(Hv & Hg & Hl)]; [cbn [signature_bytes]; by rewrite (app_nil_r key)|].
  pose proof (valid_algorithm_hash h g Hv) as Hn. apply Z.eqb_neq in Hn as ->.
  destruct (Z.eqb_spec (len sig) 0); [lia|]. apply Z.eqb_neq in Hg as ->. rewrite (Z.mod_small (len sig)) by lia. cbn [andb negb].
  f_equal. unfold signature_bytes. destruct sig; [rewrite len_nil in Hl; lia|]. by rewrite <- !(assoc_L (++)).
Qed.

Lemma ServerKeyExchange_roundtrip kx m : server_key_exchange_ok kx m →
  ∃ buf, ServerKeyExchange_Marshal m = Ok buf ∧ ServerKeyExchange_Unmarshal kx buf = Ok m.
Proof.
  intros Hm. eexists. split; [by apply ServerKeyExchange_Marshal_ok|]. revert Hm.
  destruct m as [hint t c key h g sig]. unfold server_key_exchange_ok, ServerKeyExchange_Unmarshal.
  cbn [sk_IdentityHint sk_EllipticCurveType sk_NamedCurve sk_PublicKey sk_HashAlgorithm sk_SignatureAlgorithm sk_Signature].
  intros [Hh Hm]. set (pre := match hint with Some h => be_put 2 (len h) ++ h | None => [] end).
  set (post := if kx =? KeyExchangeAlgorithmPsk then [] else _).
  assert (kx ≠ KeyExchangeAlgorithmNone) as Hkx.
  { intros ->. change (KeyExchangeAlgorithmNone =? KeyExchangeAlgorithmPsk) with false in Hm. by destruct Hm as [Hm _]. }
  assert (match hint with None => 2 ≤ len post | Some _ => True end) as Hpost.
  { destruct hint as [hi|]; [done|]. cbn in Hh. unfold post. destruct (Z.eqb_spec kx KeyExchangeAlgorithmPsk) as [->|_]; [done|].
    rewrite !len_app, len_be_put, !len_cons, len_nil. pose proof (len_nonneg key). pose proof (len_nonneg (signature_bytes h g sig)). lia. }
  assert (2 ≤ len (pre ++ post)) as Hl2.
  { rewrite len_app. pose proof (len_nonneg post). unfold pre. destruct hint as [hi|]; [|rewrite len_nil; lia].
    rewrite len_app, len_be_put. pose proof (len_nonneg hi). lia. }
  destruct (Z.ltb_spec (len (pre ++ post)) 2); [lia|]. destruct (Z.eqb_spec kx KeyExchangeAlgorithmNone); [done|].
  assert ((hintLength ← get_be 2 (pre ++ post);
    if (hintLength <=? len (pre ++ post) - 2) && Has kx KeyExchangeAlgorithmPsk
    then h ← slice (pre ++ post) 2 (u16 (2 + hintLength)); d ← slice_from (pre ++ post) (u16 (2 + hintLength)); Ok (Some h, d)
    else Ok (None, pre ++ post)) = (Ok (hint, post) : res dtls_error _)) as Hhint.
  { unfold pre. destruct hint as [hi|]; cbn -[Z.pow Z.leb] in Hh.
    - destruct Hh as [-> Hhl]. pose proof (len_nonneg hi). pose proof (len_nonneg post).
      rewrite <- (assoc_L (++)), get_be_put by (change (2 ^ (8 * Z.of_nat 2)) with (2 ^ 16); lia). cbn [mbind res_bind].
      rewrite !len_app, len_be_put. destruct (Z.leb_spec (len hi) (Z.of_nat 2 + (len hi + len post) - 2)); [|lia]. cbn [andb].
      unfold u16. rewrite Z.mod_small by lia. rewrite slice_mid by (rewrite ?len_be_put; lia). cbn [mbind res_bind].
      by rewrite (assoc_L (++)), slice_from_app by (rewrite len_app, len_be_put; lia).
    - cbn [app]. rewrite Hh. unfold get_be. change (Z.of_nat 2) with 2. destruct (Z.ltb_spec (len post) 2); [lia|]. cbn [mbind res_bind].
      by rewrite andb_false_r. }
  destruct (get_be 2 (pre ++ post)) as [n0| |]; cbn [mbind res_bind] in *; [|done..]. rewrite Hhint. cbn [mbind res_bind].
  unfold post. destruct (kx =? KeyExchangeAlgorithmPsk).
  - by destruct Hm as (-> & -> & -> & -> & -> & ->).
  - destruct Hm as (-> & Ht & Hc & Hk & Hs). cbn [negb]. by apply ServerKeyExchange_params_ok.
Qed.

(** *** The messages of DTLS 1.3 *)

Definition entry_bytes (e : CertificateEntry13) : list Z :=
  vec 3 (ce_CertificateData e) ++ vec 2 (concat (ext_bytes <$> ce_Extensions e)).

Definition entry_ok (e : CertificateEntry13) : Prop := 1 ≤ len (ce_CertificateData e) ∧ extensions_ok (ce_Extensions e).

Definition certificate13_ok (m : MessageCertificate13) : Prop :=
  len (c13_CertificateRequestContext m) ≤ 255 ∧ Forall entry_ok (c13_CertificateList m) ∧
  len (concat (entry_bytes <$> c13_CertificateList m)) < 2 ^ 24.

Definition certificate_request13_ok (m : MessageCertificateRequest13) : Prop :=
  len (cr13_CertificateRequestContext m) ≤ 255 ∧ hasSignatureAlgorithms (cr13_Extensions m) = true ∧
  extensions_ok (cr13_Extensions m) ∧ len (concat (ext_bytes <$> cr13_Extensions m)) + 2 < 2 ^ 16.

Lemma len_entry_bytes e : len (ce_CertificateData e) ≤ len (entry_bytes e).
Proof. unfold entry_bytes. rewrite len_app, len_vec. pose proof (len_nonneg (vec 2 (concat (ext_bytes <$> ce_Extensions e)))). lia. Qed.

Lemma certificate_list_ok pre entries : Forall entry_ok entries → len (pre ++ concat (entry_bytes <$> entries)) < 2 ^ 24 →
  certificate_list pre entries = Ok (pre ++ concat (entry_bytes <$> entries)).
Proof.
  intros He. revert pre. induction He as [|e entries [Hd Hes] _ IH]; intros pre Hl; [cbn; by rewrite app_nil_r|].
  rewrite fmap_cons in *. cbn [certificate_list concat] in *. rewrite !len_app in Hl. pose proof (len_entry_bytes e).
  pose proof (len_nonneg pre). pose proof (len_nonneg (concat (entry_bytes <$> entries))).
  destruct (Z.eqb_spec (len (ce_CertificateData e)) 0); [lia|].
  destruct (Z.ltb_spec maxUint24 (len (ce_CertificateData e))); [unfold maxUint24 in *; lia|]. cbn [orb].
  destruct (extensions_vec _ Hes) as (-> & _ & _). cbn [mbind res_bind].
  assert (pre ++ be_put 3 (len (ce_CertificateData e)) ++ ce_CertificateData e ++ vec 2 (concat (ext_bytes <$> ce_Extensions e)) =
    pre ++ entry_bytes e) as -> by (unfold entry_bytes, vec at 2; by rewrite <- (assoc_L (++))).
  destruct (Z.ltb_spec maxUint24 (len (pre ++ entry_bytes e))) as [Hbad|_]; [rewrite len_app in Hbad; unfold maxUint24 in *; lia|].
  rewrite IH by (rewrite !len_app; lia). by rewrite <- (assoc_L (++)).
Qed.

Lemma parseCertificate13Entry_ok acc e rest : entry_ok e → len (entry_bytes e) < 2 ^ 24 →
  parseCertificate13Entry acc (entry_bytes e ++ rest) = Ok (acc ++ [e], rest).
Proof.
  intros [Hd Hes] Hl. pose proof (len_entry_bytes e). destruct (extensions_vec _ Hes) as (_ & Hb & Hu).
  unfold parseCertificate13Entry, entry_bytes. rewrite <- (assoc_L (++)), ReadPrefixed_vec by (change (2 ^ (8 * Z.of_nat 3)) with (2 ^ 24); lia).
  set (body := concat (ext_bytes <$> ce_Extensions e)) in *. cbn [or_err mbind res_bind].
  destruct (Z.eqb_spec (len (ce_CertificateData e)) 0); [lia|]. cbn [negb guard mbind res_bind].
  pose proof (len_nonneg body). pose proof (len_nonneg rest). unfold cert13ExtLengthFieldSize. rewrite len_app, len_vec.
  destruct (Z.ltb_spec (Z.of_nat 2 + len body + len rest) 2); [lia|]. cbn [negb guard mbind res_bind].
  assert (slice (E:=dtls_error) (vec 2 body ++ rest) 0 2 = Ok (be_put 2 (len body))) as ->
    by (unfold vec; rewrite <- (assoc_L (++)); by apply (slice_mid [])).
  cbn [mbind res_bind]. rewrite <- (app_nil_r (be_put 2 (len body))), get_be_put by (change (2 ^ (8 * Z.of_nat 2)) with (2 ^ 16); lia).
  cbn [mbind res_bind]. destruct (Z.ltb_spec (Z.of_nat 2 + len body + len rest) (2 + len body)); [lia|]. cbn [negb guard mbind res_bind].
  assert (slice (E:=dtls_error) (vec 2 body ++ rest) 0 (2 + len body) = Ok (vec 2 body)) as ->
    by (apply (slice_mid []); [done|by rewrite len_vec]).
  cbn [mbind res_bind]. rewrite Hu. cbn [mbind res_bind]. rewrite ReadBytes_app by (by rewrite len_vec). by destruct e.
Qed.

Lemma Certificate13_roundtrip m : certificate13_ok m →
  ∃ buf, Certificate13_Marshal m = Ok buf ∧ Certificate13_Unmarshal buf = Ok m.
Proof.
  destruct m as [ctx entries]. unfold certificate13_ok. cbn [c13_CertificateRequestContext c13_CertificateList]. intros (Hc & He & Hl).
  unfold Certificate13_Marshal. cbn [c13_CertificateRequestContext c13_CertificateList]. pose proof (len_nonneg ctx).
  destruct (Z.ltb_spec cert13ContextMaxLength (len ctx)); [unfold cert13ContextMaxLength in *; lia|].
  rewrite certificate_list_ok by done. cbn [mbind res_bind app]. set (L := concat (entry_bytes <$> entries)) in *. pose proof (len_nonneg L).
  eexists. split; [done|]. unfold u8. rewrite Z.mod_small by lia.
  assert (len ctx :: ctx ++ be_put 3 (len L) ++ L = vec 1 ctx ++ vec 3 L) as ->
    by (unfold vec; by rewrite be_put_1 by (unfold is_byte; lia)).
  unfold Certificate13_Unmarshal, cert13ContextLengthFieldSize, cert13CertLengthFieldSize. rewrite len_app, !len_vec.
  destruct (Z.ltb_spec (Z.of_nat 1 + len ctx + (Z.of_nat 3 + len L)) (1 + 3)); [lia|].
  rewrite ReadPrefixed_vec by (change (2 ^ (8 * Z.of_nat 1)) with 256; lia). cbn [or_err mbind res_bind].
  rewrite ReadPrefixed_vec_nil by (change (2 ^ (8 * Z.of_nat 3)) with (2 ^ 24); lia). cbn [or_err mbind res_bind].
  change (len [] =? 0) with true. cbn [guard mbind res_bind]. unfold L. rewrite for_nonempty_snoc; [done|].
  intros pre e post ->. rewrite Forall_app, Forall_cons in He. destruct He as (_ & Hee & _).
  assert (len (entry_bytes e) < 2 ^ 24) as Hel.
  { unfold L in Hl. pose proof (len_concat_elem entry_bytes (pre ++ e :: post) e ltac:(by apply elem_of_app; right; left)). lia. }
  split; [unfold entry_bytes; by destruct (be_put 3 (len (ce_CertificateData e)))|].
  intros rest. by apply parseCertificate13Entry_ok.
Qed.

Lemma CertificateRequest13_roundtrip m : certificate_request13_ok m →
  ∃ buf, CertificateRequest13_Marshal m = Ok buf ∧ CertificateRequest13_Unmarshal buf = Ok m.
Proof.
  destruct m as [ctx es]. unfold certificate_request13_ok. cbn [cr13_CertificateRequestContext cr13_Extensions]. intros (Hc & Hs & He & Hl).
  unfold CertificateRequest13_Marshal. cbn [cr13_CertificateRequestContext cr13_Extensions]. pose proof (len_nonneg ctx).
  destruct (Z.ltb_spec certReq13ContextMaxLength (len ctx)); [unfold certReq13ContextMaxLength in *; lia|].
  rewrite Hs. cbn [negb]. destruct (extensions_vec es He) as (-> & _ & Hu). cbn [mbind res_bind].
  set (body := concat (ext_bytes <$> es)) in *. pose proof (len_nonneg body). rewrite len_vec.
  destruct (Z.ltb_spec (Z.of_nat 2 + len body) 2); [lia|].
  destruct (Z.ltb_spec maxUint16 (Z.of_nat 2 + len body)); [unfold maxUint16 in *; lia|]. cbn [orb].
  exists (vec 1 ctx ++ vec 2 body). split.
  { apply Bytes_AddBytes_Ok. rewrite <- (app_nil_l (vec 1 ctx)). apply Bytes_add_vec; [by apply Bytes_New|].
    change (2 ^ (8 * Z.of_nat 1)) with 256. lia. }
  unfold CertificateRequest13_Unmarshal, certReq13MinLength. rewrite len_app, !len_vec.
  destruct (Z.ltb_spec (Z.of_nat 1 + len ctx + (Z.of_nat 2 + len body)) 3); [lia|].
  rewrite ReadPrefixed_vec by (change (2 ^ (8 * Z.of_nat 1)) with 256; lia). cbn [or_err mbind res_bind]. rewrite len_vec.
  destruct (Z.ltb_spec (Z.of_nat 2 + len body) 2); [lia|].
  assert (slice (E:=dtls_error) (vec 2 body) 0 2 = Ok (be_put 2 (len body))) as -> by (by apply (slice_mid [])).
  cbn [mbind res_bind]. rewrite <- (app_nil_r (be_put 2 (len body))), get_be_put by (change (2 ^ (8 * Z.of_nat 2)) with (2 ^ 16); lia).
  cbn [mbind res_bind]. assert (slice_from (E:=dtls_error) (vec 2 body) 2 = Ok body) as -> by (by apply slice_from_app).
  cbn [mbind res_bind]. rewrite Z.eqb_refl. cbn [negb]. rewrite Hu. cbn [mbind res_bind]. by rewrite Hs.
Qed.

(** *** All messages *)

(** The messages that are read back as they were, with key exchange algorithm
    [kx].  The messages of DTLS 1.3 with a format of their own are not in the switch. *)
Definition message_ok (kx : Z) (m : Message) : Prop :=
  match m with
  | ClientHello m => client_hello_ok m
  | ServerHello m => server_hello_ok m
  | HelloVerifyRequest m => len (hv_Cookie m) ≤ 255
  | EncryptedExtensions es => extensions_ok es
  | Certificate certs => len (concat (cert_bytes <$> certs)) < 2 ^ 24
  | ServerKeyExchange m => server_key_exchange_ok kx m
  | CertificateRequest m => certificate_request_ok m
  | ServerHelloDone => True
  | CertificateVerify m => certificate_verify_ok m
  | ClientKeyExchange m => client_key_exchange_ok kx m
  | Finished _ => True
  | Certificate13 _ | CertificateRequest13 _ => False
  end.

Lemma Message_roundtrip kx m : message_ok kx m →
  ∃ buf, Message_Marshal m = Ok buf ∧ Message_Unmarshal kx (Message_Type m) buf = Ok m.
Proof.
  intros Hm. destruct m as [m|m|m|es|certs|m|m| |m|m|d|m|m]; cbn [message_ok] in Hm;
    [apply ClientHello_roundtrip in Hm|apply ServerHello_roundtrip in Hm|apply HelloVerifyRequest_roundtrip in Hm
    |apply EncryptedExtensions_roundtrip in Hm|apply Certificate_roundtrip in Hm|apply ServerKeyExchange_roundtrip in Hm
    |apply CertificateRequest_roundtrip in Hm|by exists []|apply CertificateVerify_roundtrip in Hm
    |apply ClientKeyExchange_roundtrip in Hm|by exists d|done|done];
    destruct Hm as (buf & Hmar & Hun); exists buf; (split; [exact Hmar|]); cbn; by rewrite Hun.
Qed.

Lemma Handshake_roundtrip kx h m msg : is_u16 (MessageSequence h) → FragmentOffset h = 0 → message_ok kx m →
  Message_Marshal m = Ok msg → len msg < 2 ^ 24 →
  let h' := MkHeader (Message_Type m) (len msg) (MessageSequence h) 0 (len msg) in
  Handshake_Marshal h (Some m) = Ok (h', Header_Marshal h' ++ msg) ∧ Handshake_Unmarshal kx (Header_Marshal h' ++ msg) = Ok (h', m).
Proof.
  intros Hseq Hoff Hm Hmsg Hl h'. pose proof (len_nonneg msg). destruct (Message_roundtrip kx m Hm) as (buf & E & Hu).
  rewrite E in Hmsg. injection Hmsg as ->. split.
  - unfold Handshake_Marshal. rewrite Hoff, E. cbn [Z.eqb negb mbind res_bind]. unfold u32. by rewrite Z.mod_small by lia.
  - rewrite Handshake_Unmarshal_frame by first [lia|split; cbn; first [by destruct m|unfold is_u24; lia|done]].
    cbn [Length FragmentLength Type_ h']. rewrite Z.eqb_refl. cbn [negb orb]. by rewrite Hu.
Qed.

(** The only messages that make [Handshake_Unmarshal] panic. *)
Definition crafted (kx : Z) (data : list Z) : Prop :=
  ∃ h body, header_ok h ∧ data = Header_Marshal h ++ body ∧ Length h = len body ∧ FragmentLength h = len body ∧
    ((Type_ h = TypeServerKeyExchange ∧ bad_server_key_exchange kx body) ∨
     (Type_ h = TypeClientKeyExchange ∧ bad_client_key_exchange kx body)).

Lemma Handshake_Unmarshal_crafted kx data : bytes_ok data → len data < 2 ^ 32 →
  Handshake_Unmarshal kx data = Panic ↔ crafted kx data.
Proof.
  intros Hd Hl. pose proof (Header_Unmarshal_spec data Hd) as Hs. destruct (Z.ltb_spec (len data) HeaderLength) as [Hlt|Hge].
  { rewrite Handshake_Unmarshal_short by done. split; [done|]. intros (h & body & _ & -> & _).
    rewrite len_app, len_Header_Marshal in Hlt. pose proof (len_nonneg body). lia. }
  destruct Hs as (h & body & -> & Hh & _). apply bytes_ok_app in Hd as [_ Hb].
  rewrite len_app, len_Header_Marshal in Hl. unfold HeaderLength in Hl. rewrite Handshake_Unmarshal_frame by first [done|lia].
  assert (crafted kx (Header_Marshal h ++ body) ↔ Length h = len body ∧ FragmentLength h = len body ∧
    ((Type_ h = TypeServerKeyExchange ∧ bad_server_key_exchange kx body) ∨
     (Type_ h = TypeClientKeyExchange ∧ bad_client_key_exchange kx body))) as ->.
  { split; [|by intros ?; exists h, body]. intros (h' & body' & Hh' & E & Hrest).
    assert (h = h' ∧ body = body') as [-> ->]; [|done].
    pose proof (handshake_header_roundtrip h body Hh) as R. rewrite E, handshake_header_roundtrip in R by done. injection R as ->.
    by apply app_inj_1 in E as [_ ->]. }
  rewrite <- Message_Unmarshal_panic by done.
  destruct (Z.eqb_spec (len body) (Length h)) as [E1|E1]; [|split; [done|]; intros (? & _); congruence].
  destruct (Z.eqb_spec (Length h) (FragmentLength h)) as [E2|E2]; [|split; [done|]; intros (? & ? & _); congruence].
  cbn [negb orb]. rewrite bind_Panic. split; [intros ?; split_and!; [congruence..|done]|by intros (_ & _ & ?)].
Qed.

(** ** Properties *)

(** C31: a handshake message whose fields are in range is read back, with the header
    that was written, when the reader has the same key exchange algorithm. *)
Theorem handshake_roundtrip kx h m msg : is_u16 (MessageSequence h) → FragmentOffset h = 0 → message_ok kx m →
  Message_Marshal m = Ok msg → len msg < 2 ^ 24 →
  let h' := MkHeader (Message_Type m) (len msg) (MessageSequence h) 0 (len msg) in
  Handshake_Marshal h (Some m) = Ok (h', Header_Marshal h' ++ msg) ∧ Handshake_Unmarshal kx (Header_Marshal h' ++ msg) = Ok (h', m).
Proof. apply Handshake_roundtrip. Qed.

(** the certificate messages of DTLS 1.3 are read back from their encodings. *)
Theorem certificates13_roundtrip m m' : certificate13_ok m → certificate_request13_ok m' →
  (∃ buf, Certificate13_Marshal m = Ok buf ∧ Certificate13_Unmarshal buf = Ok m) ∧
  (∃ buf, CertificateRequest13_Marshal m' = Ok buf ∧ CertificateRequest13_Unmarshal buf = Ok m').
Proof. intros Hm Hm'. split; [by apply Certificate13_roundtrip|by apply CertificateRequest13_roundtrip]. Qed.

(** the bytes that make the handshake parser panic are exactly these: a
    ClientKeyExchange whose identity takes all of the message although a public
    key has to follow, and a ServerKeyExchange whose identity hint is so long that
    its end does not fit 16 bits.  On all other bytes the parser returns a value or an error. *)
Theorem handshake_parser_panics kx data : bytes_ok data → len data < 2 ^ 32 →
  Handshake_Unmarshal kx data = Panic ↔ crafted kx data.
Proof. apply Handshake_Unmarshal_crafted. Qed.

End codec.

Definition example_hello : MessageClientHello :=
  MkClientHello Version1_2 (MkRandom 1700000000 (zeros 28)) [1; 2; 3] [] [0xc02b; 0xc0a8] [0]
    [SupportedVersions [Version1_2] false; RenegotiationInfo 0].

Lemma handshake_roundtrip_witness :
  let h' := MkHeader TypeClientHello 61 5 0 61 in
  let h := MkHeader 0 0 5 0 0 in
  ∃ msg, Handshake_Marshal h (Some (ClientHello example_hello)) = Ok (h', Header_Marshal h' ++ msg) ∧
    Handshake_Unmarshal 4 (Header_Marshal h' ++ msg) = Ok (h', ClientHello example_hello).
Proof.
  destruct (Message_Marshal (ClientHello example_hello)) as [msg| |] eqn:E; [|by vm_compute in E..].
  exists msg. assert (len msg = 61) as El by (by vm_compute in E; injection E as <-).
  cbv zeta. rewrite <- El. apply (handshake_roundtrip (H := cryptobyte_model) (laws := cryptobyte_model_laws) 4 (MkHeader 0 0 5 0 0) (ClientHello example_hello) msg);
    [done|done| |done|by rewrite El].
  split_and!; try done; by repeat constructor.
Defined.

Definition example_certificate : MessageCertificate13 :=
  MkCertificate13 [7] [MkCertificateEntry13 [1; 2; 3] []; MkCertificateEntry13 [4] [RenegotiationInfo 0]].

Definition example_request : MessageCertificateRequest13 :=
  MkCertificateRequest13 [] [SupportedSignatureAlgorithms [MkAlgorithm 4 3]].

Lemma certificates13_roundtrip_witness :
  (∃ buf, Certificate13_Marshal example_certificate = Ok buf ∧ Certificate13_Unmarshal buf = Ok example_certificate) ∧
  (∃ buf, CertificateRequest13_Marshal example_request = Ok buf ∧ CertificateRequest13_Unmarshal buf = Ok example_request).
Proof.
  apply (certificates13_roundtrip (H := cryptobyte_model) (laws := cryptobyte_model_laws)); split_and!; try done; by repeat constructor.
Defined.

(** An identity of no bytes and nothing behind it. *)
Lemma handshake_parser_panics_witness :
  Handshake_Unmarshal 6 (Header_Marshal (MkHeader TypeClientKeyExchange 2 0 0 2) ++ [0; 0]) = Panic.
Proof.
  apply (handshake_parser_panics (H := cryptobyte_model) (laws := cryptobyte_model_laws));
    [by apply (bool_decide_unpack _); vm_compute|done|].
  exists (MkHeader TypeClientKeyExchange 2 0 0 2), [0; 0]. split_and!; try done. by right.
Defined.

End Handshake.
