(* ===== verification/Udp.v ===== *)
(** * Connections over one UDP socket (src/dtls/internal/net/udp/packet_conn.go,
    src/dtls/listener.go, src/dtls/connection_id.go)

    [Udp]: the listener, which passes the datagrams of a socket to the connection
    they belong to, found by an identifier in the datagram or by the address of
    the sender, and its connections.  A [listener] holds the fields of the listener
    and of its connections; an event is a critical section of one of the
    goroutines.  [Cid]: the functions by which a DTLS listener finds the
    identifier, the connection ID of a record or of a ServerHello. *)
From stdpp Require Import base tactics numbers list gmap.
From Stdlib Require Import ZArith Lia.
From S2P Require Import Prelude Wire Record Extensions Fragment Handshake PacketBuffer.
Import Wire Protocol.
Open Scope Z_scope.

Module Udp.

(** Where the Close of a connection is: it has taken itself off the count of
    connections, and was the last one with somebody waiting if [last]; it has
    closed its channel, taken itself out of the map, and closed its buffer;
    [PDrained] is a connection that was closed by the listener before it was
    accepted. *)
Inductive conn_state := POpen | PReleasing (last : bool) | PClosing | PRemoved (waits : bool) | PClosed | PDrained.

#[export] Instance conn_state_eq_dec : EqDecision conn_state.
Proof. solve_decision. Defined.

(** Where a call of WriteTo is: it found no identifier in the connection but one
    in the payload; it has entered the connection in the map; it found an
    identifier in the connection and writes to another address than the first. *)
Inductive writer := WInsert (k : gostring) | WStore (k : gostring) | WFree.

(** [pc_writers] are the calls of WriteTo that are under way; [pc_claims] is
    history, the identifiers under which the connection was entered in the map. *)
Record PacketConn := MkPacketConn {
  pc_raddr : gostring; pc_rmraddr : bool; pc_id : option gostring; pc_buffer : PacketBuffer.buffer;
  pc_doneCh : bool; pc_accepted : bool; pc_state : conn_state; pc_writers : list writer; pc_claims : list gostring
}.

(** Where the Close of the listener is. *)
Inductive close_state := LOpen | LStarted | LDrained (nConns : nat) | LReleasing (nConns : nat) (last : bool) | LWaits | LReturned.

(** Where the goroutine of Listen is, in [connWG.Wait()]. *)
Inductive wait_state := WaitNot | WaitBlocked | WaitWoken | WaitReturned.

#[export] Instance wait_state_eq_dec : EqDecision wait_state.
Proof. solve_decision. Defined.

Record listener := MkListener {
  l_accepting : bool;
  l_acceptCh : list nat;                          (* channel of connections *)
  l_taken : gset nat;                             (* received by Accept, not counted yet *)
  l_conns : gmap gostring nat;
  l_store : gmap nat PacketConn;
  l_connWG : Z;                                   (* the counter of connWG *)
  l_waiter : wait_state;
  l_pending : option (nat * bytes * gostring);    (* readLoop, before it writes to the buffer *)
  l_readDone : bool;
  l_sockClosed : bool;
  l_close : close_state
}.

Definition set_accepting v l := MkListener v (l_acceptCh l) (l_taken l) (l_conns l) (l_store l) (l_connWG l) (l_waiter l) (l_pending l) (l_readDone l) (l_sockClosed l) (l_close l).
Definition set_acceptCh v l := MkListener (l_accepting l) v (l_taken l) (l_conns l) (l_store l) (l_connWG l) (l_waiter l) (l_pending l) (l_readDone l) (l_sockClosed l) (l_close l).
Definition set_taken v l := MkListener (l_accepting l) (l_acceptCh l) v (l_conns l) (l_store l) (l_connWG l) (l_waiter l) (l_pending l) (l_readDone l) (l_sockClosed l) (l_close l).
Definition set_conns v l := MkListener (l_accepting l) (l_acceptCh l) (l_taken l) v (l_store l) (l_connWG l) (l_waiter l) (l_pending l) (l_readDone l) (l_sockClosed l) (l_close l).
Definition set_store v l := MkListener (l_accepting l) (l_acceptCh l) (l_taken l) (l_conns l) v (l_connWG l) (l_waiter l) (l_pending l) (l_readDone l) (l_sockClosed l) (l_close l).
Definition set_connWG v l := MkListener (l_accepting l) (l_acceptCh l) (l_taken l) (l_conns l) (l_store l) v (l_waiter l) (l_pending l) (l_readDone l) (l_sockClosed l) (l_close l).
Definition set_waiter v l := MkListener (l_accepting l) (l_acceptCh l) (l_taken l) (l_conns l) (l_store l) (l_connWG l) v (l_pending l) (l_readDone l) (l_sockClosed l) (l_close l).
Definition set_pending v l := MkListener (l_accepting l) (l_acceptCh l) (l_taken l) (l_conns l) (l_store l) (l_connWG l) (l_waiter l) v (l_readDone l) (l_sockClosed l) (l_close l).
Definition set_ended r s l := MkListener (l_accepting l) (l_acceptCh l) (l_taken l) (l_conns l) (l_store l) (l_connWG l) (l_waiter l) (l_pending l) r s (l_close l).
Definition set_close v l := MkListener (l_accepting l) (l_acceptCh l) (l_taken l) (l_conns l) (l_store l) (l_connWG l) (l_waiter l) (l_pending l) (l_readDone l) (l_sockClosed l) v.

Definition set_conn c p l := set_store (<[c:=p]> (l_store l)) l.

Definition set_id v p := MkPacketConn (pc_raddr p) (pc_rmraddr p) (Some v) (pc_buffer p) (pc_doneCh p) (pc_accepted p) (pc_state p) (pc_writers p) (pc_claims p).
Definition set_rmraddr p := MkPacketConn (pc_raddr p) true (pc_id p) (pc_buffer p) (pc_doneCh p) (pc_accepted p) (pc_state p) (pc_writers p) (pc_claims p).
Definition set_buffer b p := MkPacketConn (pc_raddr p) (pc_rmraddr p) (pc_id p) b (pc_doneCh p) (pc_accepted p) (pc_state p) (pc_writers p) (pc_claims p).
Definition set_accepted p := MkPacketConn (pc_raddr p) (pc_rmraddr p) (pc_id p) (pc_buffer p) (pc_doneCh p) true (pc_state p) (pc_writers p) (pc_claims p).
Definition set_state s p := MkPacketConn (pc_raddr p) (pc_rmraddr p) (pc_id p) (pc_buffer p) (pc_doneCh p) (pc_accepted p) s (pc_writers p) (pc_claims p).
Definition set_writers ws p := MkPacketConn (pc_raddr p) (pc_rmraddr p) (pc_id p) (pc_buffer p) (pc_doneCh p) (pc_accepted p) (pc_state p) ws (pc_claims p).
Definition claim k p := MkPacketConn (pc_raddr p) (pc_rmraddr p) (pc_id p) (pc_buffer p) (pc_doneCh p) (pc_accepted p) (pc_state p) (pc_writers p) (k :: pc_claims p).

(** [close(c.doneCh)] *)
Definition close_doneCh {E} (p : PacketConn) : res E PacketConn :=
  if pc_doneCh p then Panic else
  Ok (MkPacketConn (pc_raddr p) (pc_rmraddr p) (pc_id p) (pc_buffer p) true (pc_accepted p) (pc_state p) (pc_writers p) (pc_claims p)).

(** *** The wait group *)

(** sync.WaitGroup has a counter and a number of waiters, here one or none: it is
    the goroutine of Listen that waits for connWG. *)
Definition waits (l : listener) : bool := bool_decide (l_waiter l = WaitBlocked).

(** [connWG.Add(1)] panics (Add called concurrently with Wait) when the counter was
    zero and there still is a waiter. *)
Definition wg_add {E} (l : listener) : res E listener := if waits l && (l_connWG l + 1 =? 1) then Panic else Ok (set_connWG (l_connWG l + 1) l).

(** [connWG.Done()] first counts; when it gets to zero and there is a waiter, it
    then resets the state, which it expects as it was, and wakes the waiter. *)
Definition wg_done {E} (l : listener) : res E (bool * listener) :=
  if l_connWG l - 1 <? 0 then Panic else Ok (waits l && (l_connWG l - 1 =? 0), set_connWG (l_connWG l - 1) l).

Definition wg_release {E} (last : bool) (l : listener) : res E listener :=
  if negb last then Ok l else if waits l && (l_connWG l =? 0) then Ok (set_waiter WaitWoken l) else Panic.

Definition defaultListenBacklog : Z := 128.

Section listener.
(** The options of ListenConfig; a nil function is [None]. *)
Variables (Backlog : nat) (acceptFilter : option (bytes → res dtls_error bool)).
Variables (datagramRouter connIdentifier : option (bytes → res dtls_error (option gostring))).

Definition Listen : listener := MkListener true [] ∅ ∅ ∅ 1 WaitNot None false false LOpen.

Definition newPacketConn (raddr : gostring) : PacketConn := MkPacketConn raddr false None PacketBuffer.NewPacketBuffer false false POpen [] [].

Definition routed (buf : bytes) (l : listener) : res dtls_error (option nat) :=
  match datagramRouter with
  | None => Ok None
  | Some route => o ← route buf; Ok (k ← o; l_conns l !! k)
  end.

Definition accepts (buf : bytes) : res dtls_error bool := match acceptFilter with None => Ok true | Some f => f buf end.

(** getConn: the connection, if any, and whether it is new; [n] is the pointer to a new one. *)
Definition getConn (raddr : gostring) (buf : bytes) (n : nat) (l : listener) : res dtls_error (option nat * listener) :=
  o ← routed buf l;
  match o with
  | Some c => Ok (Some c, l)
  | None =>
      match l_conns l !! raddr with
      | Some c => Ok (Some c, l)
      | None =>
          if negb (l_accepting l) then Err ErrUDPClosedListener else
          ok ← accepts buf;
          if negb ok then Ok (None, l) else
          if (Backlog <=? length (l_acceptCh l))%nat then Err ErrUDPListenQueueExceeded else
          Ok (Some n, set_conn n (newPacketConn raddr) (set_conns (<[raddr:=n]> (l_conns l)) (set_acceptCh (l_acceptCh l ++ [n]) l)))
      end
  end.

(** ** Events *)

Inductive event :=
  | EDatagram (raddr : gostring) (buf : bytes) (n : nat)   (* readLoop reads a datagram *)
  | EBuffer                                                (* ... and writes it to the buffer *)
  | EReadError                                             (* the socket gives an error *)
  | EAccept                                                (* Accept receives a connection *)
  | EAccepted (c : nat)                                    (* ... counts and returns it *)
  | EWrite (c : nat) (payload : bytes) (a : gostring)      (* WriteTo, up to the lock *)
  | EWriter (c : nat) (i : nat)                            (* ... its next step *)
  | EClose (c : nat)                                       (* Close of a connection, connWG.Done() *)
  | EReleased (c : nat)                                    (* ... up to the lock *)
  | ERemove (c : nat)                                      (* ... its critical section *)
  | ECloseBuffer (c : nat)                                 (* ... and its end *)
  | EListenerClose                                         (* Close of the listener, up to the lock *)
  | EDrain                                                 (* ... its critical section *)
  | EListenerDone                                          (* ... connWG.Done() *)
  | EListenerReleased
  | EListenerReturn                                        (* ... and its end *)
  | EWait                                                  (* the goroutine of Listen calls connWG.Wait() *)
  | EWake                                                  (* ... is woken *)
  | ESocket.                                               (* ... and closes the socket *)

Inductive disabled := Disabled.

Definition get {A} (o : option A) : res disabled A := match o with Some a => Ok a | None => Err Disabled end.
Definition guard (b : bool) : res disabled () := if b then Ok () else Err Disabled.

(** An error of getConn makes readLoop continue. *)
Definition datagram (raddr : gostring) (buf : bytes) (n : nat) (l : listener) : res disabled listener :=
  _ ← guard (negb (l_readDone l) && bool_decide (l_pending l = None) && bool_decide (l_store l !! n = None));
  match getConn raddr buf n l with
  | Ok (Some c, l) => Ok (set_pending (Some (c, buf, raddr)) l)
  | Ok (None, l) => Ok l
  | Err _ => Ok l
  | Panic => Panic
  end.

Definition buffer (l : listener) : res disabled listener :=
  '(c, buf, raddr) ← get (l_pending l);
  p ← get (l_store l !! c);
  let l := set_pending None l in
  match PacketBuffer.WriteTo buf raddr (pc_buffer p) with
  | Ok (_, _, b) => Ok (set_conn c (set_buffer b p) l)
  | Err _ => Ok l
  | Panic => Panic
  end.

Definition read_error (l : listener) : res disabled listener :=
  _ ← guard (negb (l_readDone l) && bool_decide (l_pending l = None)); Ok (set_ended true (l_sockClosed l) l).

Definition accept (l : listener) : res disabled listener :=
  match l_acceptCh l with
  | [] => Err Disabled
  | c :: cs => Ok (set_taken ({[c]} ∪ l_taken l) (set_acceptCh cs l))
  end.

Definition accepted (c : nat) (l : listener) : res disabled listener :=
  _ ← guard (bool_decide (c ∈ l_taken l));
  p ← get (l_store l !! c);
  l ← wg_add l;
  Ok (set_conn c (set_accepted p) (set_taken (l_taken l ∖ {[c]}) l)).

(** WriteTo, as far as the identifiers go, up to the lock.  A call runs one of the
    two critical sections at most, since the identifier is loaded before. *)
Definition write (c : nat) (payload : bytes) (a : gostring) (l : listener) : res disabled listener :=
  p ← get (l_store l !! c);
  _ ← guard (pc_accepted p);
  match connIdentifier with
  | None => Ok l
  | Some identify =>
      match pc_id p with
      | None =>
          match identify payload with
          | Ok (Some candidate) => Ok (set_conn c (set_writers (pc_writers p ++ [WInsert candidate]) p) l)
          | Ok None => Ok l
          | Err _ => Err Disabled
          | Panic => Panic
          end
      | Some _ =>
          if negb (pc_rmraddr p) && negb (bool_decide (a = pc_raddr p))
          then Ok (set_conn c (set_writers (pc_writers p ++ [WFree]) p) l)
          else Ok l
      end
  end.

(** The next step of the [i]th call: the first critical section, the store of the
    identifier after it, or the second critical section. *)
Definition write_step (c : nat) (i : nat) (l : listener) : res disabled listener :=
  p ← get (l_store l !! c);
  w ← get (pc_writers p !! i);
  match w with
  | WInsert candidate => Ok (set_conn c (claim candidate (set_writers (<[i:=WStore candidate]> (pc_writers p)) p)) (set_conns (<[candidate:=c]> (l_conns l)) l))
  | WStore candidate => Ok (set_conn c (set_id candidate (set_writers (delete i (pc_writers p)) p)) l)
  | WFree => Ok (set_conn c (set_rmraddr (set_writers (delete i (pc_writers p)) p)) (set_conns (delete (pc_raddr p) (l_conns l)) l))
  end.

(** The first call of Close. *)
Definition close (c : nat) (l : listener) : res disabled listener :=
  p ← get (l_store l !! c);
  match pc_state p with
  | POpen =>
      _ ← guard (pc_accepted p);
      '(last, l) ← wg_done l;
      Ok (set_conn c (set_state (PReleasing last) p) l)
  | _ => Err Disabled
  end.

Definition released (c : nat) (l : listener) : res disabled listener :=
  p ← get (l_store l !! c);
  match pc_state p with
  | PReleasing last =>
      l ← wg_release last l;
      p ← close_doneCh p;
      Ok (set_conn c (set_state PClosing p) l)
  | _ => Err Disabled
  end.

(** The entries of a connection are taken out of the map. *)
Definition forget (p : PacketConn) (conns : gmap gostring nat) : gmap gostring nat :=
  let conns := match pc_id p with Some id => delete id conns | None => conns end in
  if pc_rmraddr p then conns else delete (pc_raddr p) conns.

Definition remove (c : nat) (l : listener) : res disabled listener :=
  p ← get (l_store l !! c);
  match pc_state p with
  | PClosing =>
      let l := set_conns (forget p (l_conns l)) l in
      let waits := (size (l_conns l) =? 0)%nat && negb (l_accepting l) in
      Ok (set_conn c (set_state (PRemoved waits) (set_rmraddr p)) l)
  | _ => Err Disabled
  end.

(** [readWG.Wait()] waits for readLoop and for the close of the socket. *)
Definition read_ended (l : listener) : bool := l_readDone l && l_sockClosed l.

Definition close_buffer (c : nat) (l : listener) : res disabled listener :=
  p ← get (l_store l !! c);
  match pc_state p with
  | PRemoved waits =>
      _ ← guard (negb waits || read_ended l);
      Ok (set_conn c (set_state PClosed (set_buffer (PacketBuffer.Close (pc_buffer p)).2 p)) l)
  | _ => Err Disabled
  end.

Definition listener_close (l : listener) : res disabled listener :=
  match l_close l with LOpen => Ok (set_close LStarted (set_accepting false l)) | _ => Err Disabled end.

(** The loop that closes the connections that were not accepted. *)
Fixpoint drain (cs : list nat) (l : listener) : res disabled listener :=
  match cs with
  | [] => Ok l
  | c :: cs =>
      p ← get (l_store l !! c);
      p ← close_doneCh p;
      drain cs (set_conn c (set_state PDrained (set_rmraddr p)) (set_conns (forget p (l_conns l)) (set_acceptCh cs l)))
  end.

Definition listener_drain (l : listener) : res disabled listener :=
  match l_close l with
  | LStarted => l ← drain (l_acceptCh l) l; Ok (set_close (LDrained (size (l_conns l))) l)
  | _ => Err Disabled
  end.

Definition listener_done (l : listener) : res disabled listener :=
  match l_close l with
  | LDrained n => '(last, l) ← wg_done l; Ok (set_close (LReleasing n last) l)
  | _ => Err Disabled
  end.

Definition listener_released (l : listener) : res disabled listener :=
  match l_close l with
  | LReleasing n last => l ← wg_release last l; Ok (set_close (if (n =? 0)%nat then LWaits else LReturned) l)
  | _ => Err Disabled
  end.

Definition listener_return (l : listener) : res disabled listener :=
  match l_close l with
  | LWaits => _ ← guard (read_ended l); Ok (set_close LReturned l)
  | _ => Err Disabled
  end.

(** [connWG.Wait()]: returns at once, or blocks. *)
Definition wait (l : listener) : res disabled listener :=
  match l_waiter l with WaitNot => Ok (set_waiter (if l_connWG l =? 0 then WaitReturned else WaitBlocked) l) | _ => Err Disabled end.

(** ... and panics (WaitGroup is reused before previous Wait has returned) when it
    is woken and the state is not zero. *)
Definition wake (l : listener) : res disabled listener :=
  match l_waiter l with WaitWoken => if l_connWG l =? 0 then Ok (set_waiter WaitReturned l) else Panic | _ => Err Disabled end.

Definition socket (l : listener) : res disabled listener :=
  _ ← guard (negb (l_sockClosed l) && bool_decide (l_waiter l = WaitReturned)); Ok (set_ended (l_readDone l) true l).

Definition exec (e : event) (l : listener) : res disabled listener :=
  match e with
  | EDatagram raddr buf n => datagram raddr buf n l
  | EBuffer => buffer l
  | EReadError => read_error l
  | EAccept => accept l
  | EAccepted c => accepted c l
  | EWrite c payload a => write c payload a l
  | EWriter c i => write_step c i l
  | EClose c => close c l
  | EReleased c => released c l
  | ERemove c => remove c l
  | ECloseBuffer c => close_buffer c l
  | EListenerClose => listener_close l
  | EDrain => listener_drain l
  | EListenerDone => listener_done l
  | EListenerReleased => listener_released l
  | EListenerReturn => listener_return l
  | EWait => wait l
  | EWake => wake l
  | ESocket => socket l
  end.

Fixpoint execs (es : list event) (l : listener) : res disabled listener :=
  match es with
  | [] => Ok l
  | e :: es => l ← exec e l; execs es l
  end.

Inductive reachable : listener → Prop :=
  | reachable_init : reachable Listen
  | reachable_step l e l' : reachable l → exec e l = Ok l' → reachable l'.

(** *** Orderly runs *)

Definition listed (p : PacketConn) : Prop := pc_state p = POpen ∨ (∃ last, pc_state p = PReleasing last) ∨ pc_state p = PClosing.

(** A connection writes one packet after the other, none of them while its Close
    takes it out of the map or later, and takes an identifier that is not in use. *)
Definition orderly (e : event) (l : listener) : Prop :=
  match e with
  | EWrite c _ _ => ∀ p, l_store l !! c = Some p → listed p ∧ pc_writers p = []
  | EWriter c i => ∀ p k, l_store l !! c = Some p → pc_writers p !! i = Some (WInsert k) → l_conns l !! k = None
  | ERemove c => ∀ p, l_store l !! c = Some p → pc_writers p = []
  | _ => True
  end.

Inductive reachable_orderly : listener → Prop :=
  | orderly_init : reachable_orderly Listen
  | orderly_step l e l' : reachable_orderly l → orderly e l → exec e l = Ok l' → reachable_orderly l'.

Lemma orderly_reachable l : reachable_orderly l → reachable l.
Proof. induction 1; [apply reachable_init|by eapply reachable_step]. Qed.

(** ** Every run *)

(** The keys a connection may be entered under: its address, and the identifiers
    in what it wrote. *)
Definition known (p : PacketConn) (k : gostring) : Prop := pc_raddr p = k ∨ k ∈ pc_claims p.

Definition claimed (l : listener) (c : nat) (k : gostring) : Prop := ∃ p, l_store l !! c = Some p ∧ known p k.

(** A connection that the listener has not handed out. *)
Definition unaccepted (p : PacketConn) : Prop := pc_state p = POpen ∧ pc_accepted p = false.

(** The connections that connWG counts, and the listener itself. *)
Definition counted (q : nat * PacketConn) : Prop := pc_accepted q.2 = true ∧ pc_state q.2 = POpen.
#[local] Instance counted_dec q : Decision (counted q).
Proof. unfold counted. apply _. Defined.

Definition count (store : gmap nat PacketConn) : Z := Z.of_nat (size (filter counted store)).

Definition listening (s : close_state) : Z := match s with LOpen | LStarted | LDrained _ => 1 | _ => 0 end.

(** The channel of the connection is open. *)
Definition undone (p : PacketConn) : Prop := pc_state p = POpen ∨ ∃ last, pc_state p = PReleasing last.

(** Who is about to wake the waiter: a connection, or the listener. *)
Definition last_done (l : listener) (a : option nat) : Prop :=
  match a with
  | Some c => ∃ p, l_store l !! c = Some p ∧ pc_state p = PReleasing true
  | None => ∃ n, l_close l = LReleasing n true
  end.

Record inv (l : listener) : Prop := {
  inv_sound : ∀ k c, l_conns l !! k = Some c → claimed l c k;
  inv_queue : NoDup (l_acceptCh l) ∧ Forall (λ c, c ∉ l_taken l) (l_acceptCh l);
  inv_waiting : ∀ c, c ∈ l_acceptCh l ∨ c ∈ l_taken l → ∃ p, l_store l !! c = Some p ∧ unaccepted p;
  inv_done : map_Forall (λ _ p, undone p → pc_doneCh p = false) (l_store l);
  inv_ring : map_Forall (λ _ p, PacketBuffer.ring_ok (pc_buffer p)) (l_store l);
  inv_count : l_connWG l = listening (l_close l) + count (l_store l);
  inv_pending : ∀ c b a, l_pending l = Some (c, b, a) → is_Some (l_store l !! c)
}.

Record rel (l : listener) : Prop := {
  rel_last : ∀ a, last_done l a → l_connWG l = 0 ∧ l_waiter l = WaitBlocked;
  rel_one : ∀ a b, last_done l a → last_done l b → a = b;
  rel_woken : l_waiter l = WaitWoken ∨ l_waiter l = WaitReturned → listening (l_close l) = 0
}.

Definition indicator (o : option PacketConn) : Z := match o with Some p => if decide (counted (0%nat, p)) then 1 else 0 | None => 0 end.

Lemma indicator_same p p' : pc_accepted p' = pc_accepted p → pc_state p' = pc_state p → indicator (Some p') = indicator (Some p).
Proof.
  intros Ha Hs. unfold indicator. destruct (decide (counted (0%nat, p'))) as [[H1 H2]|Hn], (decide (counted (0%nat, p))) as [[H3 H4]|Hn']; try done; exfalso; cbn in *.
  - apply Hn'. split; cbn; congruence.
  - apply Hn. split; cbn; congruence.
Qed.

Lemma indicator_not p : ¬ (pc_accepted p = true ∧ pc_state p = POpen) → indicator (Some p) = 0.
Proof. intros Hn. unfold indicator. by rewrite decide_False. Qed.

Lemma indicator_counted p : pc_accepted p = true → pc_state p = POpen → indicator (Some p) = 1.
Proof. intros Ha Hs. unfold indicator. by rewrite decide_True. Qed.

#[local] Arguments indicator : simpl never.

(** The count stays the same. *)
Lemma count_same a b p p' : pc_accepted p' = pc_accepted p → pc_state p' = pc_state p → a = b → a = b - indicator (Some p) + indicator (Some p').
Proof. intros Ha Hs ->. rewrite (indicator_same p p') by done. lia. Qed.

Lemma count_zero a b p p' : (pc_accepted p = true → pc_state p ≠ POpen) → (pc_accepted p' = true → pc_state p' ≠ POpen) → a = b →
  a = b - indicator (Some p) + indicator (Some p').
Proof. intros Ha Hs ->. rewrite !indicator_not by tauto. lia. Qed.

Lemma count_insert store c p : count (<[c:=p]> store) = count store - indicator (store !! c) + indicator (Some p).
Proof.
  unfold count, indicator. assert (∀ q, counted (c, q) ↔ counted (0%nat, q)) as Hq by done.
  destruct (store !! c) as [p0|] eqn:E.
  - destruct (decide (counted (0%nat, p0))) as [H0|H0], (decide (counted (0%nat, p))) as [H1|H1].
    + rewrite map_filter_insert_True by done. rewrite map_size_insert_Some; [lia|]. exists p0. by apply map_lookup_filter_Some.
    + assert (filter counted store !! c = Some p0) as Hf by (by apply map_lookup_filter_Some).
      rewrite map_filter_insert_False, map_filter_delete by done. rewrite map_size_delete_Some by done.
      assert (size (filter counted store) ≠ 0%nat) by (apply map_size_ne_0_lookup; eauto). lia.
    + rewrite map_filter_insert_True by done. rewrite map_size_insert_None; [lia|]. apply map_lookup_filter_None. right. intros ? ?. simplify_eq. done.
    + rewrite map_filter_insert_False, map_filter_delete by done. rewrite delete_id; [lia|]. apply map_lookup_filter_None. right. intros ? ?. simplify_eq. done.
  - assert (filter counted store !! c = None) by (apply map_lookup_filter_None; by left). destruct (decide (counted (0%nat, p))).
    + rewrite map_filter_insert_True by done. rewrite map_size_insert_None by done. lia.
    + rewrite map_filter_insert_False, map_filter_delete, delete_id by done. lia.
Qed.

Lemma count_positive store c p : store !! c = Some p → counted (0%nat, p) → 0 < count store.
Proof.
  intros Hc Hp. unfold count. assert (size (filter counted store) ≠ 0%nat); [|lia].
  apply map_size_ne_0_lookup. exists c, p. by apply map_lookup_filter_Some.
Qed.

Lemma lookup_forget p conns k c : forget p conns !! k = Some c ↔ conns !! k = Some c ∧ ¬ (pc_id p = Some k ∨ pc_raddr p = k ∧ pc_rmraddr p = false).
Proof. unfold forget. destruct (pc_rmraddr p), (pc_id p) as [i|]; rewrite ?lookup_delete_Some; intuition congruence. Qed.

(** *** Steps *)

(** One connection changes. *)
Record updates (l l' : listener) (c : nat) (p p' : PacketConn) : Prop := {
  up_before : l_store l !! c = Some p;
  up_store : l_store l' = <[c:=p']> (l_store l);
  up_queue : sublist (l_acceptCh l') (l_acceptCh l);
  up_taken : l_taken l' ⊆ l_taken l;
  up_pending : ∀ x, l_pending l' = Some x → l_pending l = Some x;
  up_conns : ∀ k d, l_conns l' !! k = Some d → l_conns l !! k = Some d ∨ d = c ∧ known p' k;
  up_known : ∀ k, known p k → known p' k;
  up_done : (undone p → pc_doneCh p = false) → undone p' → pc_doneCh p' = false;
  up_ring : PacketBuffer.ring_ok (pc_buffer p) → PacketBuffer.ring_ok (pc_buffer p');
  up_waiting : c ∈ l_acceptCh l' ∨ c ∈ l_taken l' → unaccepted p → unaccepted p';
  up_count : l_connWG l' - listening (l_close l') = l_connWG l - listening (l_close l) - indicator (Some p) + indicator (Some p')
}.

Lemma inv_update l l' c p p' : inv l → updates l l' c p p' → inv l'.
Proof.
  intros [Hk [Hnd Hnt] Hw Hd Hr Hc Hp] [Ub Us Uq Ut Up Uc Uk Ud Ur Uw Un].
  assert (∀ d q, l_store l !! d = Some q → (∀ k, known q k → claimed l' d k)) as Hkn.
  { intros d q Hdq k Hq. unfold claimed. rewrite Us. destruct (decide (d = c)) as [->|]; [rewrite lookup_insert_eq; simplify_eq; eauto|rewrite lookup_insert_ne by done; eauto]. }
  split; rewrite ?Us.
  - intros k d [(q & Hq & Hkq)%Hk|[-> Hkp]]%Uc; [by eapply Hkn|]. exists p'. split; [|done]. by rewrite Us, lookup_insert_eq.
  - split; [by eapply sublist_NoDup|]. rewrite Forall_forall in *. intros d Hd' Hx. apply (Hnt d); [by eapply elem_of_sublist|by apply Ut].
  - intros d Hd'. assert (d ∈ l_acceptCh l ∨ d ∈ l_taken l) as (q & Hq & Hu)%Hw by (destruct Hd'; [left; by eapply elem_of_sublist|right; by apply Ut]).
    destruct (decide (d = c)) as [->|]; [rewrite lookup_insert_eq; simplify_eq; eauto|rewrite lookup_insert_ne by done; eauto].
  - apply map_Forall_insert_2; [|done]. by apply Ud, (Hd c).
  - apply map_Forall_insert_2; [|done]. by apply Ur, (Hr c).
  - rewrite count_insert, Ub. lia.
  - intros d b a Hpe%Up. apply Hp in Hpe as [q Hq']. destruct (decide (d = c)) as [->|]; [by rewrite lookup_insert_eq|rewrite lookup_insert_ne by done; eauto].
Qed.

(** The fields that the invariant does not speak about. *)
Lemma inv_other l l' : inv l → l_conns l' = l_conns l → l_store l' = l_store l → l_acceptCh l' = l_acceptCh l → l_taken l' = l_taken l → (∀ x, l_pending l' = Some x → l_pending l = Some x) →
  l_connWG l' - listening (l_close l') = l_connWG l - listening (l_close l) → inv l'.
Proof.
  intros [Hk Hq Hw Hd Hr Hc Hp] E1 E2 E3 E4 E5 E6. split; rewrite ?E1, ?E2, ?E3, ?E4; try done; [|lia|intros c b a ?%E5; by eapply Hp].
  intros k c (p & Hp' & Hk')%Hk. exists p. by rewrite E2.
Qed.

Lemma rel_frame l l' : rel l → (∀ a, last_done l' a → last_done l a) → l_connWG l' = l_connWG l → l_waiter l' = l_waiter l →
  (listening (l_close l) = 0 → listening (l_close l') = 0) → rel l'.
Proof. intros [Hl H1 Hw] Ha E1 E2 Hls. split; rewrite ?E1, ?E2; [intros a Hx%Ha; by apply (Hl a)|intros a b ?%Ha ?%Ha; by apply H1|intros Hx; by apply Hls, Hw]. Qed.

Lemma last_done_insert l l' c p p' : l_store l !! c = Some p → l_store l' = <[c:=p']> (l_store l) → l_close l' = l_close l →
  (pc_state p' = PReleasing true → pc_state p = PReleasing true) → ∀ a, last_done l' a → last_done l a.
Proof.
  intros Hc Es El Hst [d|]; cbn; [|by rewrite El]. rewrite Es. intros (q & [[<- <-]|[Hne Hq]]%lookup_insert_Some & Hs); eauto.
Qed.

(** Nobody has counted down to zero. *)
Lemma rel_none l l' : rel l → (l_connWG l ≠ 0 ∨ l_waiter l ≠ WaitBlocked) → (∀ a, last_done l' a → last_done l a) →
  (l_waiter l' = WaitWoken ∨ l_waiter l' = WaitReturned → listening (l_close l') = 0) → rel l'.
Proof.
  intros [Hl H1 Hw] Hn Ha Hls. assert (∀ a, ¬ last_done l' a) as Hno by (intros a [? ?]%Ha%Hl; tauto). split; [|intros a b Hx; by destruct (Hno a)|done].
  intros a Hx. by destruct (Hno a).
Qed.

Definition full (l : listener) : Prop := inv l ∧ rel l.

(** A connection changes, but neither the wait group nor the Close of the listener. *)
Lemma full_update l l' c p p' : full l → updates l l' c p p' → l_connWG l' = l_connWG l → l_waiter l' = l_waiter l → l_close l' = l_close l →
  (pc_state p' = PReleasing true → pc_state p = PReleasing true) → full l'.
Proof.
  intros [Hi Hr] Hu E1 E2 E3 Hst. split; [by eapply inv_update|]. eapply rel_frame; [done| |done|done|by rewrite E3].
  eapply last_done_insert; [apply Hu|apply Hu|done|done].
Qed.

Lemma inv_counter l : inv l → 0 ≤ listening (l_close l) ∧ 0 ≤ count (l_store l) ∧ l_connWG l = listening (l_close l) + count (l_store l).
Proof. intros Hi. split_and!; [by destruct (l_close l)|unfold count; lia|apply Hi]. Qed.

(** The functions of the configuration return. *)
Hypothesis accept_safe : ∀ f buf, acceptFilter = Some f → ∃ b, f buf = Ok b.
Hypothesis route_safe : ∀ f buf, datagramRouter = Some f → ∃ o, f buf = Ok o.
Hypothesis identify_safe : ∀ f buf, connIdentifier = Some f → ∃ o, f buf = Ok o.

Lemma routed_safe buf l : ∃ o, routed buf l = Ok o.
Proof. unfold routed. destruct datagramRouter as [f|]; [|by eexists]. destruct (route_safe f buf eq_refl) as [o ->]. by eexists. Qed.

Definition routes (buf : bytes) (k : gostring) : Prop := ∃ f, datagramRouter = Some f ∧ f buf = Ok (Some k).

Lemma routed_inv buf l o : routed buf l = Ok o →
  match o with Some c => ∃ k, routes buf k ∧ l_conns l !! k = Some c | None => ∀ k, routes buf k → l_conns l !! k = None end.
Proof.
  unfold routed, routes. destruct datagramRouter as [f|]; [|by intros [= <-] k (f & ? & _)]. intros (r & Hr & [= <-])%bind_Ok_inv.
  destruct r as [k|]; cbn; [|by intros k (f' & [= <-] & ?); congruence]. destruct (l_conns l !! k) as [c|] eqn:E; [eauto|].
  intros k' (f' & [= <-] & ?). by assert (k' = k) as -> by congruence.
Qed.

Lemma accepts_safe buf : ∃ b, accepts buf = Ok b.
Proof. unfold accepts. destruct acceptFilter as [f|]; [by apply accept_safe|by eexists]. Qed.

(** A new connection. *)
Definition with_new (l : listener) (raddr : gostring) (n : nat) : listener :=
  set_conn n (newPacketConn raddr) (set_conns (<[raddr:=n]> (l_conns l)) (set_acceptCh (l_acceptCh l ++ [n]) l)).

(** What getConn does. *)
Lemma getConn_cases raddr buf n l :
  (∃ c k, getConn raddr buf n l = Ok (Some c, l) ∧ routes buf k ∧ l_conns l !! k = Some c) ∨
  (∀ k, routes buf k → l_conns l !! k = None) ∧
    ((∃ c, getConn raddr buf n l = Ok (Some c, l) ∧ l_conns l !! raddr = Some c) ∨
     l_conns l !! raddr = None ∧
       (getConn raddr buf n l = Err ErrUDPClosedListener ∧ l_accepting l = false ∨
        getConn raddr buf n l = Ok (None, l) ∧ accepts buf = Ok false ∨
        getConn raddr buf n l = Err ErrUDPListenQueueExceeded ∧ (Backlog ≤ length (l_acceptCh l))%nat ∨
        getConn raddr buf n l = Ok (Some n, with_new l raddr n) ∧ l_accepting l = true ∧ (length (l_acceptCh l) < Backlog)%nat)).
Proof.
  unfold getConn. destruct (routed_safe buf l) as [o E]. rewrite E. apply routed_inv in E. destruct o as [c|]; cbn; [left; destruct E as (k & ? & ?); eauto|].
  right. split; [done|]. destruct (l_conns l !! raddr) as [c|] eqn:Er; [left; eauto|]. right. split; [done|]. destruct (l_accepting l) eqn:Ea; cbn; [|by auto 10].
  destruct (accepts_safe buf) as [[] ->]; cbn; [|by auto 10]. destruct (Nat.leb_spec Backlog (length (l_acceptCh l))); by auto 10.
Qed.

Lemma full_new l raddr n : full l → l_store l !! n = None → full (with_new l raddr n).
Proof.
  intros [[Hk [Hnd Hnt] Hw Hd Hr Hc Hp] Hrel] Hn.
  assert (∀ d, d ∈ l_acceptCh l ∨ d ∈ l_taken l → d ≠ n) as Hne by (intros d (p & Hd' & _)%Hw ->; congruence). split; [split; cbn|].
  - intros k c. rewrite lookup_insert_Some. unfold claimed. cbn. intros [[<- <-]|[_ (p & Hp' & Hk')%Hk]].
    + rewrite lookup_insert_eq. eexists. split; [done|by left].
    + rewrite lookup_insert_ne by congruence. eauto.
  - split; [apply NoDup_app; split_and!; [done|intros d Hd' ->%list_elem_of_singleton; by apply (Hne n); [left|]|apply NoDup_singleton]|].
    apply Forall_app. split; [done|]. apply Forall_singleton. intros Hin. by apply (Hne n); [right|].
  - intros d Hd'. destruct (decide (d = n)) as [->|Hdn]; [rewrite lookup_insert_eq; by eexists|]. rewrite lookup_insert_ne by done. apply Hw.
    rewrite elem_of_app, list_elem_of_singleton in Hd'. tauto.
  - by apply map_Forall_insert_2.
  - apply map_Forall_insert_2; [|done]. apply PacketBuffer.NewPacketBuffer_ok.
  - rewrite count_insert, Hn. rewrite (indicator_not (newPacketConn raddr)) by (by intros [? _]). unfold indicator. lia.
  - intros d b a Hpe. apply Hp in Hpe as [q Hq']. rewrite lookup_insert_ne by congruence. eauto.
  - eapply rel_frame; [done| |done..]. intros [d|]; [|done]. cbn. intros (q & [[<- <-]|[Hne' Hq]]%lookup_insert_Some & Hs); [done|eauto].
Qed.

Lemma full_pending l o : full l → (∀ c b a, o = Some (c, b, a) → is_Some (l_store l !! c)) → full (set_pending o l).
Proof. intros [[Hk Hq Hw Hd Hr Hc Hp] Hrel] Hx. split; [by split|]. by eapply rel_frame. Qed.

Lemma sound_store l k c : full l → l_conns l !! k = Some c → is_Some (l_store l !! c).
Proof. intros [Hi _] (p & Hp & _)%(inv_sound _ Hi). eauto. Qed.

(** The panics of the wait group. *)
Definition panics (e : event) (l : listener) : Prop :=
  (∃ c, e = EAccepted c ∧ c ∈ l_taken l ∧ l_connWG l = 0 ∧ l_waiter l = WaitBlocked) ∨ (e = EWake ∧ l_connWG l ≠ 0 ∧ l_waiter l = WaitWoken).

(** The next state is a good one, and if there is a panic it is one of these. *)
Definition outcome (e : event) (l : listener) (r : res disabled listener) : Prop :=
  match r with Ok l' => full l' | Err _ => True | Panic => panics e l end.

Lemma datagram_outcome raddr buf n l : full l → outcome (EDatagram raddr buf n) l (datagram raddr buf n l).
Proof.
  intros Hi. unfold datagram, guard. destruct (_ && _) eqn:B; cbn; [|done]. apply andb_true_iff in B as [_ B%bool_decide_eq_true].
  destruct (getConn_cases raddr buf n l) as [(c & k & -> & _ & E)|[_ [(c & -> & E)|[_ [[-> _]|[[-> _]|[[-> _]|[-> _]]]]]]]]; cbn; try done.
  - apply full_pending; [done|]. intros d b a [= <- _ _]. by eapply sound_store.
  - apply full_pending; [done|]. intros d b a [= <- _ _]. by eapply sound_store.
  - apply full_pending; [by apply full_new|]. intros d b a [= <- _ _]. cbn. by rewrite lookup_insert_eq.
Qed.

Lemma buffer_outcome l : full l → outcome EBuffer l (buffer l).
Proof.
  intros [Hi Hr]. unfold buffer. destruct (l_pending l) as [[[c buf] raddr]|] eqn:P; cbn; [|done]. destruct (l_store l !! c) as [p|] eqn:E; cbn; [|done].
  pose proof (PacketBuffer.WriteTo_refines buf raddr (pc_buffer p) (inv_ring _ Hi _ _ E)) as Hb.
  destruct (PacketBuffer.WriteTo buf raddr (pc_buffer p)) as [[[m wake] b]|e|]; [|by apply full_pending|done]. cbn.
  apply (full_update l _ c p (set_buffer b p)); [done| |done..]. split; cbn; try done; [by auto|by intros _; apply Hb|by apply count_same].
Qed.

Lemma accept_outcome l : full l → outcome EAccept l (accept l).
Proof.
  intros [[Hk [Hnd Hnt] Hw Hd Hr Hc Hp] Hrel]. unfold accept. destruct (l_acceptCh l) as [|c cs] eqn:E; cbn; [done|]. apply NoDup_cons in Hnd as [Hnc Hnd].
  apply Forall_cons in Hnt as [Hct Hnt]. split; [|by eapply rel_frame]. split; cbn; try done.
  - split; [done|]. rewrite Forall_forall in *. intros d Hdc. rewrite elem_of_union, elem_of_singleton. intros [->|?]; [done|by eapply Hnt].
  - intros d Hd'. apply Hw. rewrite elem_of_union, elem_of_singleton in Hd'. destruct Hd' as [?|[->|?]]; [left; by right|left; by left|by right].
Qed.

Lemma accepted_outcome c l : full l → outcome (EAccepted c) l (accepted c l).
Proof.
  intros [Hi Hr]. unfold accepted, guard, wg_add, waits. destruct (bool_decide (c ∈ l_taken l)) eqn:Ht; cbn [mbind res_bind]; [|done]. apply bool_decide_eq_true in Ht. destruct (l_store l !! c) as [p|] eqn:E; cbn; [|done].
  destruct (inv_waiting _ Hi c (or_intror Ht)) as (q & Hq & Hs & Ha). assert (q = p) as -> by congruence. destruct (bool_decide (l_waiter l = WaitBlocked) && _) eqn:B; cbn.
  { left. exists c. apply andb_true_iff in B as [B1%bool_decide_eq_true B2%Z.eqb_eq]. split_and!; [done..|lia|done]. }
  pose proof (inv_queue _ Hi) as [_ Hnt]. rewrite Forall_forall in Hnt. split.
  - apply (inv_update l _ c p (set_accepted p)); [done|]. split; cbn; try done; [set_solver|by auto| |].
    + intros [Hin|[_ []%not_elem_of_singleton]%elem_of_difference]; [by destruct (Hnt c)|done].
    + rewrite (indicator_counted (set_accepted p)), (indicator_not p); [lia|intros [? _]; congruence|done|done].
  - apply (rel_none l); [done| | |apply Hr].
    + apply andb_false_iff in B as [B%bool_decide_eq_false|B%Z.eqb_neq]; [by right|left; lia].
    + eapply last_done_insert; [exact E|done..].
Qed.

Lemma write_outcome c payload a l : full l → outcome (EWrite c payload a) l (write c payload a l).
Proof.
  intros Hf. unfold write. destruct (l_store l !! c) as [p|] eqn:E; cbn; [|done]. destruct (pc_accepted p) eqn:Ha; cbn; [|done]. destruct connIdentifier as [f|]; [|done].
  assert (∀ ws, full (set_conn c (set_writers ws p) l)) as Hw.
  { intros ws. apply (full_update l _ c p (set_writers ws p)); [done| |done..]. split; cbn; try done; [by auto|by apply count_same]. }
  destruct (pc_id p); [destruct (_ && _); [apply Hw|done]|]. destruct (identify_safe f payload eq_refl) as [[k|] ->]; [apply Hw|done].
Qed.

Lemma write_step_outcome c i l : full l → outcome (EWriter c i) l (write_step c i l).
Proof.
  intros Hf. unfold write_step. destruct (l_store l !! c) as [p|] eqn:E; cbn; [|done]. destruct (pc_writers p !! i) as [[k|k|]|]; cbn; [..|done].
  all: match goal with |- full (set_conn _ ?p' _) => apply (full_update l _ c p p'); [done| |done..]; split; cbn; try done; try by apply count_same end.
  - intros k' d [[<- <-]|[_ ?]]%lookup_insert_Some; [right; split; [done|]; right; by left|by left].
  - intros k' [?|?]; [by left|right; by right].
  - by auto.
  - intros k' d [_ ?]%lookup_delete_Some. by left.
Qed.

(** [connWG.Done()] of somebody who is counted. *)
Lemma wg_done_ok l : 1 ≤ l_connWG l → wg_done (E := disabled) l = Ok (waits l && (l_connWG l - 1 =? 0), set_connWG (l_connWG l - 1) l).
Proof. intros Hc. unfold wg_done. by rewrite (proj2 (Z.ltb_ge _ _)) by lia. Qed.

Lemma close_outcome c l : full l → outcome (EClose c) l (close c l).
Proof.
  intros [Hi Hr]. unfold close. destruct (l_store l !! c) as [p|] eqn:E; cbn; [|done]. destruct (pc_state p) eqn:Hs; try done.
  destruct (pc_accepted p) eqn:Ha; cbn; [|done]. assert (counted (0%nat, p)) as Hc by done. pose proof (count_positive _ _ _ E Hc) as Hpos. destruct (inv_counter _ Hi) as (H1 & H2 & H3).
  rewrite wg_done_ok by lia. cbn. set (p' := set_state _ p). split.
  - apply (inv_update l _ c p p'); [done|]. split; cbn; try done; [by auto|intros Hd _; apply Hd; by left|intros _ [_ ?]; congruence|].
    rewrite (indicator_counted p), indicator_not by (done || by intros [_ ?]). lia.
  - assert (∀ a, ¬ last_done l a) as Hno by (intros a [? _]%(rel_last _ Hr); lia).
    assert (∀ a, last_done (set_conn c p' (set_connWG (l_connWG l - 1) l)) a → a = Some c ∧ waits l && (l_connWG l - 1 =? 0) = true) as Hld.
    { intros [d|] Hx; cbn in Hx; [|by destruct (Hno None)]. destruct Hx as (q & [[<- <-]|[_ Hq]]%lookup_insert_Some & Hsq); [by injection Hsq|]. destruct (Hno (Some d)). by exists q. }
    split; cbn; [|by intros a b [-> _]%Hld [-> _]%Hld|apply Hr].
    intros a [_ [Hw%bool_decide_eq_true Hz%Z.eqb_eq]%andb_true_iff]%Hld. done.
Qed.

(** The waiter is woken. *)
Lemma wg_release_ok l a : full l → last_done l a → wg_release (E := disabled) true l = Ok (set_waiter WaitWoken l).
Proof. intros [_ Hr] [Hz Hw]%(rel_last _ Hr). unfold wg_release, waits. rewrite bool_decide_true by done. by rewrite Hz. Qed.

Lemma rel_release l l' a : full l → last_done l a → (∀ b, last_done l' b → last_done l b ∧ b ≠ a) → listening (l_close l') = listening (l_close l) → rel l'.
Proof.
  intros [Hi Hr] Ha Hb Hls. destruct (rel_last _ Hr _ Ha) as [Hz _]. destruct (inv_counter _ Hi) as (H1 & H2 & H3).
  assert (∀ b, ¬ last_done l' b) as Hno by (intros b [Hx Hne]%Hb; apply Hne; by apply (rel_one _ Hr)). split; [intros b Hx; by destruct (Hno b)|intros b d Hx; by destruct (Hno b)|].
  intros _. lia.
Qed.

Lemma released_outcome c l : full l → outcome (EReleased c) l (released c l).
Proof.
  intros Hf. pose proof Hf as [Hi Hr]. unfold released. destruct (l_store l !! c) as [p|] eqn:E; cbn; [|done]. destruct (pc_state p) as [|last| | | |] eqn:Hs; try done.
  assert (pc_doneCh p = false) as Hd by (apply (inv_done _ Hi _ _ E); right; by exists last).
  assert (∀ l', l_store l' = l_store l → l_acceptCh l' = l_acceptCh l → l_taken l' = l_taken l → l_pending l' = l_pending l → l_conns l' = l_conns l → l_connWG l' = l_connWG l → l_close l' = l_close l →
    (∀ a, last_done l' a ↔ last_done l a) ∧ ∃ p', close_doneCh (E := disabled) p = Ok p' ∧ updates l (set_conn c (set_state PClosing p') l') c p (set_state PClosing p')) as Hu.
  { intros l' E1 E2 E3 E4 E5 E6 E7. split; [intros [d|]; cbn; by rewrite ?E1, ?E7|]. unfold close_doneCh. rewrite Hd. eexists. split; [done|].
    split; cbn; rewrite ?E1, ?E2, ?E3, ?E4, ?E5, ?E6, ?E7; try done; [by auto|by intros _ [?|[? ?]]|intros _ [? _]; congruence|].
    by apply count_zero; rewrite ?Hs. }
  destruct last.
  - assert (last_done l (Some c)) as Hl by (by exists p). rewrite (wg_release_ok l (Some c)) by done. cbn. destruct (Hu (set_waiter WaitWoken l)) as (Hld & p' & -> & Hup); [done..|]. cbn.
    split; [by eapply inv_update|]. apply (rel_release l _ (Some c)); [done|done| |done]. intros [d|]; cbn; [|intros ?; split; [done|done]].
    intros (q & [[<- <-]|[Hne Hq]]%lookup_insert_Some & Hsq); [done|]. split; [eauto|congruence].
  - destruct (Hu l) as (_ & p' & -> & Hup); [done..|]. cbn. by apply (full_update l _ c p (set_state PClosing p')).
Qed.

Lemma remove_outcome c l : full l → outcome (ERemove c) l (remove c l).
Proof.
  intros Hf. unfold remove. destruct (l_store l !! c) as [p|] eqn:E; cbn; [|done]. destruct (pc_state p) eqn:Hs; try done. cbn.
  match goal with |- full (set_conn _ ?p' _) => apply (full_update l _ c p p'); [done| |done..]; split; cbn; try done end.
  - intros k d. rewrite lookup_forget. intros [? _]. by left.
  - by intros _ [?|[? ?]].
  - by intros _ [? _]; congruence.
  - by apply count_zero; rewrite ?Hs.
Qed.

Lemma close_buffer_outcome c l : full l → outcome (ECloseBuffer c) l (close_buffer c l).
Proof.
  intros Hf. unfold close_buffer, guard. destruct (l_store l !! c) as [p|] eqn:E; cbn; [|done]. destruct (pc_state p) eqn:Hs; try done. case_match; cbn; [|done].
  match goal with |- full (set_conn _ ?p' _) => apply (full_update l _ c p p'); [done| |done..]; split; cbn; try done end.
  - by auto.
  - by intros _ [?|[? ?]].
  - intros [? ? ?]. unfold PacketBuffer.Close. by destruct (PacketBuffer.closed (pc_buffer p)).
  - by intros _ [? _]; congruence.
  - by apply count_zero; rewrite ?Hs.
Qed.

(** One round of the loop. *)
Lemma drain_one c cs l : full l → l_acceptCh l = c :: cs → ∃ p p', l_store l !! c = Some p ∧ unaccepted p ∧ close_doneCh (E := disabled) p = Ok p' ∧
  pc_id p' = pc_id p ∧ pc_raddr p' = pc_raddr p ∧ pc_rmraddr p' = pc_rmraddr p ∧ pc_writers p' = pc_writers p ∧
  full (set_conn c (set_state PDrained (set_rmraddr p')) (set_conns (forget p' (l_conns l)) (set_acceptCh cs l))).
Proof.
  intros Hf Hcs. pose proof Hf as [Hi _]. pose proof (inv_queue _ Hi) as [Hnd Hnt]. rewrite Hcs in Hnd, Hnt. apply NoDup_cons in Hnd as [Hnc _]. apply Forall_cons in Hnt as [Hct _].
  destruct (inv_waiting _ Hi c) as (p & Hp & Hs & Ha); [left; rewrite Hcs; by left|]. exists p. unfold close_doneCh. rewrite (inv_done _ Hi _ _ Hp (or_introl Hs)). eexists. split_and!; [done..|].
  match goal with |- full (set_conn _ ?p' _) => apply (full_update l _ c p p'); [done| |done..]; split; cbn; try done end.
  - rewrite Hcs. by apply sublist_cons.
  - intros k d. rewrite lookup_forget. intros [? _]. by left.
  - by intros _ [?|[? ?]].
  - intros [?|?]; done.
  - by apply count_zero; rewrite ?Ha.
Qed.

Lemma drain_full cs : ∀ l, full l → l_acceptCh l = cs → safe (drain cs l) (λ l', full l' ∧ l_close l' = l_close l).
Proof.
  induction cs as [|c cs IH]; intros l Hf Hcs; cbn [drain]; [done|]. destruct (drain_one c cs l Hf Hcs) as (p & p' & -> & _ & Ed & _ & _ & _ & _ & Hf'). cbn [get mbind res_bind]. rewrite Ed.
  cbn [mbind res_bind]. eapply safe_mono; [by apply IH|by intros l' [? ->]].
Qed.

(** A step that is not about the connections. *)
Lemma full_other l l' : full l → l_conns l' = l_conns l → l_store l' = l_store l → l_acceptCh l' = l_acceptCh l → l_taken l' = l_taken l → l_pending l' = l_pending l →
  l_connWG l' = l_connWG l → l_waiter l' = l_waiter l → (∀ n, l_close l' ≠ LReleasing n true) → listening (l_close l') = listening (l_close l) → full l'.
Proof.
  intros [Hi Hr] E1 E2 E3 E4 E5 E6 E7 E8 E9. split; [apply (inv_other l); rewrite ?E5; try done; lia|]. apply (rel_frame l); try done; [|by rewrite E9].
  intros [d|]; cbn; [by rewrite E2|]. intros [n ?]. by destruct (E8 n).
Qed.

Lemma listener_outcome e l : full l → match e with EListenerClose | EDrain | EListenerDone | EListenerReleased | EListenerReturn => True | _ => False end → outcome e l (exec e l).
Proof.
  intros Hf He. pose proof Hf as [Hi Hr]. destruct (inv_counter _ Hi) as (H1 & H2 & H3). destruct e; try done; cbn [exec].
  - unfold listener_close. destruct (l_close l) eqn:E; try done. apply (full_other l); cbn; rewrite ?E; done.
  - unfold listener_drain. destruct (l_close l) eqn:E; try done. pose proof (drain_full _ l Hf eq_refl) as Hd. destruct (drain _ l) as [l'| |]; try done.
    destruct Hd as [Hf' Hc]. apply (full_other l'); cbn; rewrite ?Hc, ?E; done.
  - unfold listener_done. destruct (l_close l) as [| |n| | |] eqn:E; try done. cbn in *. rewrite wg_done_ok by lia. cbn. set (last := waits l && _). split.
    + apply (inv_other l); cbn; try done. rewrite E. cbn. lia.
    + assert (∀ a, ¬ last_done l a) as Hno by (intros a [? _]%(rel_last _ Hr); lia).
      assert (∀ a, last_done (set_close (LReleasing n last) (set_connWG (l_connWG l - 1) l)) a → a = None ∧ last = true) as Hld.
      { intros [d|] Hx; cbn in Hx; [by destruct (Hno (Some d))|]. destruct Hx as [m [= _ <-]]. done. }
      split; cbn; [|by intros a b [-> _]%Hld [-> _]%Hld|done]. intros a [_ [Hw%bool_decide_eq_true Hz%Z.eqb_eq]%andb_true_iff]%Hld. done.
  - unfold listener_released. destruct (l_close l) as [| | |n [|]| |] eqn:E; try done.
    + assert (last_done l None) as Hl by (by exists n). rewrite (wg_release_ok l None) by done. cbn. split.
      * apply (inv_other l); cbn; try done. rewrite E. cbn. by destruct (n =? 0)%nat.
      * apply (rel_release l _ None); [done|done| |cbn; rewrite E; by destruct (n =? 0)%nat]. intros [d|]; cbn; [done|]. intros [m ?]. by destruct (n =? 0)%nat.
    + change (wg_release false l) with (Ok l : res disabled listener). cbn. apply (full_other l); cbn; rewrite ?E; try done; by destruct (n =? 0)%nat.
  - unfold listener_return, guard. destruct (l_close l) eqn:E; try done. case_match; cbn; [|done]. apply (full_other l); cbn; rewrite ?E; done.
Qed.

Lemma waiter_outcome e l : full l → match e with EWait | EWake => True | _ => False end → outcome e l (exec e l).
Proof.
  intros [Hi Hr] He. destruct (inv_counter _ Hi) as (H1 & H2 & H3).
  assert (∀ v, (v = WaitWoken ∨ v = WaitReturned → listening (l_close l) = 0) → l_waiter l ≠ WaitBlocked → full (set_waiter v l)) as Hw.
  { intros v Hv Hb. split; [by apply (inv_other l)|]. apply (rel_none l); [done|by right|by intros []|done]. }
  destruct e; try done; cbn [exec].
  - unfold wait. destruct (l_waiter l) eqn:E; try done. cbn. apply Hw; [|done]. destruct (Z.eqb_spec (l_connWG l) 0); [lia|by intros []].
  - unfold wake. destruct (l_waiter l) eqn:E; try done. destruct (Z.eqb_spec (l_connWG l) 0); cbn; [|by right]. apply Hw; [|done]. intros _. apply Hr. by left.
Qed.

Lemma exec_outcome e l : full l → outcome e l (exec e l).
Proof.
  intros Hf. destruct e; try (by apply listener_outcome); try (by apply waiter_outcome); cbn [exec];
    auto using datagram_outcome, buffer_outcome, accept_outcome, accepted_outcome, write_outcome, write_step_outcome, close_outcome, released_outcome, remove_outcome, close_buffer_outcome.
  - unfold read_error, guard. case_match; [|done]. cbn. destruct Hf as [Hi Hr]. split; [by apply (inv_other l)|by apply (rel_frame l)].
  - unfold socket, guard. case_match; [|done]. cbn. destruct Hf as [Hi Hr]. split; [by apply (inv_other l)|by apply (rel_frame l)].
Qed.

Lemma Listen_full : full Listen.
Proof.
  assert (∀ a, ¬ last_done Listen a) as Hno by (intros [c|]; cbn; [intros (p & Hp & _); by rewrite lookup_empty in Hp|by intros []]). split; split; cbn.
  - intros k c. by rewrite lookup_empty.
  - split; constructor.
  - intros c [Hc|Hc]; [by apply not_elem_of_nil in Hc|by apply not_elem_of_empty in Hc].
  - apply map_Forall_empty.
  - apply map_Forall_empty.
  - done.
  - done.
  - intros a Ha. by destruct (Hno a).
  - intros a b Ha. by destruct (Hno a).
  - by intros [].
Qed.

Lemma reachable_full l : reachable l → full l.
Proof. induction 1 as [|l e l' _ Hi Hx]; [apply Listen_full|]. pose proof (exec_outcome e l Hi) as Hs. by rewrite Hx in Hs. Qed.

(** ** Orderly runs: the map of connections *)

(** The keys under which a connection is found. *)
Definition has_key (p : PacketConn) (k : gostring) : Prop := pc_id p = Some k ∨ WStore k ∈ pc_writers p ∨ pc_raddr p = k ∧ pc_rmraddr p = false.

Definition keyed (l : listener) (c : nat) (k : gostring) : Prop := ∃ p, l_store l !! c = Some p ∧ listed p ∧ has_key p k.

(** An identifier is taken before the address is given up, and it is another key;
    at most one packet is written at a time. *)
Definition conn_ok (p : PacketConn) : Prop :=
  match pc_writers p with
  | [] => listed p → (pc_rmraddr p = true → pc_id p ≠ None) ∧ (∀ k, pc_id p = Some k → pc_rmraddr p = false → k ≠ pc_raddr p)
  | [w] => listed p ∧ pc_accepted p = true ∧ pc_rmraddr p = false ∧
      match w with WInsert _ => pc_id p = None | WStore k => pc_id p = None ∧ k ≠ pc_raddr p | WFree => ∃ k, pc_id p = Some k ∧ k ≠ pc_raddr p end
  | _ => False
  end.

(** The map of connections and the connections agree. *)
Definition keys_ok (conns : gmap gostring nat) (store : gmap nat PacketConn) : Prop :=
  ∀ k c, conns !! k = Some c ↔ ∃ p, store !! c = Some p ∧ listed p ∧ has_key p k.

Record keys (l : listener) : Prop := {
  keys_map : keys_ok (l_conns l) (l_store l);
  keys_conns : map_Forall (λ _, conn_ok) (l_store l)
}.

Lemma keys_update l l' c p' : keys l → l_store l' = <[c:=p']> (l_store l) → keys_ok (l_conns l') (<[c:=p']> (l_store l)) → conn_ok p' → keys l'.
Proof. intros [Hm Hc] Es Hm' Hp. split; rewrite Es; [done|]. by apply map_Forall_insert_2. Qed.

Lemma keys_other l l' : keys l → l_conns l' = l_conns l → l_store l' = l_store l → keys l'.
Proof. intros [Hm Hc] E1 E2. split; by rewrite ?E1, ?E2. Qed.

(** Another record of a connection that is listed under the same keys. *)
Lemma keys_same conns store c p p' : keys_ok conns store → store !! c = Some p → (listed p' ↔ listed p) → (∀ k, has_key p' k ↔ has_key p k) →
  keys_ok conns (<[c:=p']> store).
Proof.
  intros Hk Hc Hl Hh k d. rewrite (Hk k d). destruct (decide (d = c)) as [->|Hd].
  - rewrite lookup_insert_eq. split; intros (q & Hq & Hlq & Hhq); simplify_eq; eexists; (split; [done|]); by rewrite ?Hl, ?Hh in *.
  - by rewrite lookup_insert_ne.
Qed.

Lemma keys_same_conn l l' c p p' : keys l → l_store l !! c = Some p → l_store l' = <[c:=p']> (l_store l) → l_conns l' = l_conns l → (listed p' ↔ listed p) → (∀ k, has_key p' k ↔ has_key p k) →
  conn_ok p' → keys l'.
Proof. intros Hk Hc Es Ec Hl Hh Hok. eapply keys_update; [done|done| |done]. rewrite Ec. eapply keys_same; [apply Hk|done..]. Qed.

(** A connection without writers is taken out of the map. *)
Lemma keys_forget conns store c p p' : keys_ok conns store → store !! c = Some p → pc_writers p = [] → listed p → ¬ listed p' → keys_ok (forget p conns) (<[c:=p']> store).
Proof.
  intros Hk Hc Hw Hl Hl' k d. assert (has_key p k ↔ pc_id p = Some k ∨ pc_raddr p = k ∧ pc_rmraddr p = false) as Hkey.
  { unfold has_key. rewrite Hw, elem_of_nil. tauto. }
  rewrite lookup_forget, <- Hkey, (Hk k d). destruct (decide (d = c)) as [->|Hd].
  - rewrite lookup_insert_eq. split; [intros [(q & Hq & _ & Hh) Hn]|intros (q & Hq & Hlq & _)]; simplify_eq; done.
  - rewrite lookup_insert_ne by done. split; [tauto|]. intros Hq. split; [done|]. intros Hh. apply Hd.
    assert (conns !! k = Some d) as E by (by apply Hk). assert (conns !! k = Some c) as E' by (apply Hk; eauto). congruence.
Qed.

(** A connection gets one more key, that is not in use. *)
Lemma keys_add conns store c p' k0 : keys_ok conns store → conns !! k0 = None → listed p' →
  (∀ k, has_key p' k ↔ k = k0 ∨ ∃ p, store !! c = Some p ∧ listed p ∧ has_key p k) →
  keys_ok (<[k0:=c]> conns) (<[c:=p']> store).
Proof.
  intros Hk Hn Hl Hh k d. destruct (decide (k = k0)) as [->|Hne].
  - rewrite lookup_insert_eq. destruct (decide (d = c)) as [->|Hd].
    + rewrite lookup_insert_eq. split; [intros _|done]. exists p'. split_and!; [done..|]. apply Hh. by left.
    + rewrite lookup_insert_ne by done. split; [congruence|]. intros Hq. apply Hk in Hq. congruence.
  - rewrite lookup_insert_ne by done. rewrite (Hk k d). destruct (decide (d = c)) as [->|Hd].
    + rewrite lookup_insert_eq. split.
      * intros Hq. exists p'. split_and!; [done..|]. apply Hh. by right.
      * intros (q & [= <-] & _ & Hhq). apply Hh in Hhq as [?|Hq]; [done|exact Hq].
    + by rewrite lookup_insert_ne.
Qed.

(** A connection gives up one key. *)
Lemma keys_drop conns store c p p' k0 : keys_ok conns store → store !! c = Some p → listed p → listed p' → has_key p k0 →
  (∀ k, has_key p' k ↔ k ≠ k0 ∧ has_key p k) → keys_ok (delete k0 conns) (<[c:=p']> store).
Proof.
  intros Hk Hc Hl Hl' H0 Hh k d. rewrite lookup_delete_Some, (Hk k d). destruct (decide (d = c)) as [->|Hd].
  - rewrite lookup_insert_eq. split; [intros (Hne & q & Hq & _ & Hhq)|intros (q & [= <-] & _ & [Hne Hhq]%Hh)].
    + simplify_eq. exists p'. split_and!; [done..|]. by apply Hh.
    + split; [done|]. by exists p.
  - rewrite lookup_insert_ne by done. split; [tauto|]. intros Hq. split; [|done]. intros <-. apply Hd.
    assert (conns !! k0 = Some d) as E by (by apply Hk). assert (conns !! k0 = Some c) as E' by (apply Hk; eauto). congruence.
Qed.

Lemma keys_new l raddr n : keys l → l_store l !! n = None → l_conns l !! raddr = None → keys (with_new l raddr n).
Proof.
  intros Hk Hn Hc. eapply keys_update; [done|done| |by intros _; split]. apply keys_add; [apply Hk|done|by left|]. intros k. unfold has_key. cbn. rewrite elem_of_nil.
  split; [intros [?|[?|[-> _]]]; [done|done|by left]|]. intros [->|(p & Hp & _)]; [by right; right|congruence].
Qed.

Lemma write_keys c payload a l l' : keys l → orderly (EWrite c payload a) l → write c payload a l = Ok l' → keys l'.
Proof.
  intros Hk Ho. unfold write. destruct (l_store l !! c) as [p|] eqn:E; cbn; [|done]. destruct (pc_accepted p) eqn:Ha; cbn; [|done].
  destruct (Ho p E) as [Hl Hw]. pose proof (keys_conns _ Hk _ _ E) as Hok. unfold conn_ok in Hok. rewrite Hw in Hok. destruct (Hok Hl) as [Hrm Hid].
  assert (∀ w, (∀ k, w ≠ WStore k) → conn_ok (set_writers [w] p) → keys (set_conn c (set_writers [w] p) l)) as Hset.
  { intros w Hn Hc. eapply keys_same_conn; [done|exact E|done|done|done| |done]. intros k. unfold has_key. cbn. rewrite Hw, elem_of_nil, list_elem_of_singleton. specialize (Hn k). intuition congruence. }
  rewrite Hw. cbn. destruct connIdentifier as [f|]; [|by intros [= <-]]. destruct (pc_id p) as [k0|] eqn:Eid.
  - destruct (pc_rmraddr p) eqn:Er; cbn; [by intros [= <-]|]. case_bool_decide; [by intros [= <-]|]. cbn. intros [= <-]. apply Hset; [done|]. split_and!; [done..|]. exists k0. split; [done|by apply Hid].
  - destruct (f payload) as [[k|]|e|]; intros [= <-]; [|done]. apply Hset; [done|]. split_and!; [done|done| |done]. cbn. by destruct (pc_rmraddr p); [destruct Hrm|].
Qed.

Lemma write_step_keys c i l l' : keys l → orderly (EWriter c i) l → write_step c i l = Ok l' → keys l'.
Proof.
  intros Hk Ho. unfold write_step. destruct (l_store l !! c) as [p|] eqn:E; cbn; [|done]. destruct (pc_writers p !! i) as [w|] eqn:Ew; cbn; [|done].
  pose proof (keys_conns _ Hk _ _ E) as Hok. unfold conn_ok in Hok. destruct (pc_writers p) as [|w' [|]] eqn:Hw; [done| |done]. destruct i as [|i]; [|done]. injection Ew as ->.
  destruct Hok as (Hl & Ha & Hr & Hok). assert (l_conns l !! pc_raddr p = Some c) as Hra by (apply (keys_map _ Hk); exists p; split_and!; [done|done|by right; right]).
  destruct w as [k|k|]; cbn; intros [= <-].
  - assert (l_conns l !! k = None) as Hn by (apply (Ho p k E); by rewrite Hw). assert (k ≠ pc_raddr p) by congruence. eapply keys_update; [done|done| |by split_and!].
    apply keys_add; [apply Hk|done|exact Hl|]. intros k'. unfold has_key. cbn. rewrite list_elem_of_singleton. split.
    + intros [?|[[= ->]|[<- _]]]; [congruence|by left|right]. exists p. split_and!; [done..|by right; right].
    + intros [->|(q & Hq & _ & Hh)]; [by right; left|]. simplify_eq. rewrite Hw, list_elem_of_singleton in Hh. destruct Hh as [?|[?|[-> _]]]; [congruence|done|by right; right].
  - destruct Hok as [Hid Hne]. eapply keys_same_conn; [done|exact E|done|done|done| |].
    + intros k'. unfold has_key. cbn. rewrite Hw, Hid, elem_of_nil, list_elem_of_singleton. intuition congruence.
    + intros _. cbn. split; [done|]. by intros k' [= <-].
  - destruct Hok as (k & Hid & Hne). eapply keys_update; [done|done| |].
    + eapply keys_drop; [apply Hk|done|exact Hl|exact Hl|by right; right|]. intros k'. unfold has_key. cbn. rewrite Hw, Hid, Hr, elem_of_nil, list_elem_of_singleton. intuition congruence.
    + intros _. cbn. split; [by rewrite Hid|done].
Qed.

Lemma drain_keys cs : ∀ l l', full l → keys l → l_acceptCh l = cs → drain cs l = Ok l' → keys l'.
Proof.
  induction cs as [|c cs IH]; intros l l' Hf Hk Hcs; cbn [drain]; [by intros [= <-]|].
  destruct (drain_one c cs l Hf Hcs) as (p & p' & Hp & [Hs Ha] & Ed & E1 & E2 & E3 & E4 & Hf'). rewrite Hp. cbn [get mbind res_bind]. rewrite Ed. cbn [mbind res_bind].
  assert (pc_writers p = []) as Hw. { pose proof (keys_conns _ Hk _ _ Hp) as Hok. unfold conn_ok in Hok. destruct (pc_writers p) as [|? []]; [done| |done]. destruct Hok as (_ & ? & _). congruence. }
  assert (∀ q, pc_state q = PDrained → ¬ listed q) as Hnl by (unfold listed; intros q ->; by intros [?|[[? ?]|?]]).
  apply IH; [done| |done]. eapply keys_update; [done|done| |].
  - cbn. assert (forget p' (l_conns l) = forget p (l_conns l)) as -> by (unfold forget; by rewrite E1, E2, E3). apply keys_forget; [apply Hk|done|done|by left|by apply Hnl].
  - unfold conn_ok. cbn. rewrite E4, Hw. intros Hl. by eapply Hnl in Hl.
Qed.

(** A connection changes, but neither its keys nor whether it is listed. *)
Lemma keys_steady l l' c p p' : keys l → l_store l !! c = Some p → l_store l' = <[c:=p']> (l_store l) → l_conns l' = l_conns l →
  (listed p' ↔ listed p) → pc_id p' = pc_id p → pc_raddr p' = pc_raddr p → pc_rmraddr p' = pc_rmraddr p → pc_writers p' = pc_writers p → (pc_accepted p = true → pc_accepted p' = true) → keys l'.
Proof.
  intros Hk Hc Es Ec Hl E1 E2 E3 E4 Ha. eapply keys_same_conn; [done|done|done|done|done| |].
  - intros k. unfold has_key. by rewrite E1, E2, E3, E4.
  - pose proof (keys_conns _ Hk _ _ Hc) as Hok. unfold conn_ok in *. rewrite E1, E2, E3, E4. destruct (pc_writers p) as [|w [|]]; [by rewrite Hl| |done]. rewrite Hl. naive_solver.
Qed.

Lemma listed_closing p : listed (set_state PClosing p).
Proof. by right; right. Qed.

Lemma datagram_keys raddr buf n l l' : keys l → datagram raddr buf n l = Ok l' → keys l'.
Proof.
  intros Hk. unfold datagram, guard. destruct (_ && _) eqn:B; cbn; [|done]. apply andb_true_iff in B as [_ B%bool_decide_eq_true].
  destruct (getConn_cases raddr buf n l) as [(c & k & -> & _)|[_ [(c & -> & E)|[E [[-> _]|[[-> _]|[[-> _]|[-> _]]]]]]]]; intros [= <-]; try done; try (by apply (keys_other l)).
  eapply keys_other; [by apply keys_new|done|done].
Qed.

Lemma keys_step e l l' : full l → keys l → orderly e l → exec e l = Ok l' → keys l'.
Proof.
  intros Hf Hk Ho. destruct e; cbn [exec]; [by apply datagram_keys| | | | |by apply write_keys|by apply write_step_keys|..].
  - unfold buffer. intros ([[c buf] raddr] & _ & (p & E & Hx)%bind_Ok_inv)%bind_Ok_inv. unfold get in E. destruct (l_store l !! c) as [q|] eqn:Ec; [|done]. injection E as ->.
    destruct (PacketBuffer.WriteTo _ _ _) as [[[m w] b]|er|]; [injection Hx as <-; by eapply (keys_steady l _ c p)|injection Hx as <-; by apply (keys_other l)|done].
  - unfold read_error. intros (? & _ & [= <-])%bind_Ok_inv. by apply (keys_other l).
  - unfold accept. destruct (l_acceptCh l); intros [= <-]. by apply (keys_other l).
  - unfold accepted, wg_add. intros (? & _ & (p & E & (l1 & Hl1 & [= <-])%bind_Ok_inv)%bind_Ok_inv)%bind_Ok_inv. unfold get in E. destruct (l_store l !! c) as [q|] eqn:Ec; [|done]. injection E as ->.
    destruct (_ && _); [done|]. injection Hl1 as <-. by eapply (keys_steady l _ c p).
  - unfold close, wg_done. destruct (l_store l !! c) as [p|] eqn:E; cbn; [|done]. destruct (pc_state p) eqn:Hs; try done. unfold guard. destruct (pc_accepted p); cbn; [|done].
    destruct (_ <? 0); [done|]. intros [= <-]. eapply (keys_steady l _ c p); try done. unfold listed. cbn. rewrite Hs. split; intros _; [by left|right; left; eauto].
  - unfold released. destruct (l_store l !! c) as [p|] eqn:E; cbn; [|done]. destruct (pc_state p) as [|last| | | |] eqn:Hs; try done. unfold wg_release, close_doneCh.
    intros (l1 & Hl1 & (p' & Hp & [= <-])%bind_Ok_inv)%bind_Ok_inv. assert (l_store l1 = l_store l ∧ l_conns l1 = l_conns l) as [E1 E2].
    { destruct (negb last); [by injection Hl1 as <-|]. destruct (_ && _); [by injection Hl1 as <-|done]. }
    destruct (pc_doneCh p); [done|]. injection Hp as <-. eapply (keys_steady l _ c p); cbn; rewrite ?E1; try done. split; intros _; [right; left; eauto|apply listed_closing].
  - unfold remove. destruct (l_store l !! c) as [p|] eqn:E; cbn; [|done]. destruct (pc_state p) eqn:Hs; try done. intros [= <-]. pose proof (Ho p E) as Hw.
    eapply keys_update; [done|done| |].
    + cbn. apply keys_forget; [apply Hk|done|done|by right; right|by intros [?|[[? ?]|?]]].
    + unfold conn_ok. cbn. rewrite Hw. by intros [?|[[? ?]|?]].
  - unfold close_buffer, guard. destruct (l_store l !! c) as [p|] eqn:E; cbn; [|done]. destruct (pc_state p) eqn:Hs; try done. case_match; [|done]. cbn. intros [= <-].
    eapply (keys_steady l _ c p); try done. unfold listed. cbn. rewrite Hs. split; by intros [?|[[? ?]|?]].
  - unfold listener_close. destruct (l_close l); intros [= <-]. by apply (keys_other l).
  - unfold listener_drain. destruct (l_close l); try done. intros (l1 & Hd & [= <-])%bind_Ok_inv. apply (keys_other l1); [|done..]. by eapply drain_keys.
  - unfold listener_done, wg_done. destruct (l_close l); try done. destruct (_ <? 0); [done|]. intros [= <-]. by apply (keys_other l).
  - unfold listener_released, wg_release. destruct (l_close l); try done. destruct (negb _); [intros [= <-]; by apply (keys_other l)|]. destruct (_ && _); [|done]. intros [= <-]. by apply (keys_other l).
  - unfold listener_return, guard. destruct (l_close l); try done. destruct (read_ended l); [|done]. intros [= <-]. by apply (keys_other l).
  - unfold wait. destruct (l_waiter l); intros [= <-]. by apply (keys_other l).
  - unfold wake. destruct (l_waiter l); try done. destruct (_ =? 0); intros [= <-]. by apply (keys_other l).
  - unfold socket, guard. destruct (_ && _); [|done]. intros [= <-]. by apply (keys_other l).
Qed.

Lemma orderly_keys l : reachable_orderly l → keys l.
Proof.
  induction 1 as [|l e l' Hl Hk Ho Hx].
  - split; [|apply map_Forall_empty]. intros k c. cbn. rewrite lookup_empty. split; [done|]. intros (p & Hp & _). by rewrite lookup_empty in Hp.
  - eapply keys_step; [|done..]. by apply reachable_full, orderly_reachable.
Qed.
End listener.

(** ** Properties *)


(** C36: when the listener panics.  Whatever the order of the steps of the listener
    and of its connections, no channel is closed twice, the count of connections
    never gets negative, and no buffer is written to out of its bounds.  The only
    panics are those of the wait group, and there are two: Accept counts a
    connection that it received before, when meanwhile the others have been counted
    down to zero and the waiter is not woken yet; or the waiter wakes up and the
    connection is counted already.  Both happen only to a listener that is being
    closed, past the point where it has counted itself down. *)
Theorem udp_panics (Backlog : nat) (acceptFilter : option (bytes → res dtls_error bool))
    (datagramRouter connIdentifier : option (bytes → res dtls_error (option gostring))) (l : listener) (e : event) :
  (∀ f b, acceptFilter = Some f → ∃ o, f b = Ok o) → (∀ f b, datagramRouter = Some f → ∃ o, f b = Ok o) → (∀ f b, connIdentifier = Some f → ∃ o, f b = Ok o) →
  reachable Backlog acceptFilter datagramRouter connIdentifier l →
  (exec Backlog acceptFilter datagramRouter connIdentifier e l = Panic ↔
    (∃ c, e = EAccepted c ∧ c ∈ l_taken l ∧ l_connWG l = 0 ∧ l_waiter l = WaitBlocked) ∨ (e = EWake ∧ l_connWG l ≠ 0 ∧ l_waiter l = WaitWoken)) ∧
  (exec Backlog acceptFilter datagramRouter connIdentifier e l = Panic → listening (l_close l) = 0).
Proof.
  intros Ha Hr Hid Hl. pose proof (reachable_full _ _ _ _ Ha Hr Hid l Hl) as Hf. pose proof Hf as [Hi Hrel]. pose proof (exec_outcome Backlog _ _ _ Ha Hr Hid e l Hf) as Ho.
  assert (exec Backlog acceptFilter datagramRouter connIdentifier e l = Panic → panics e l) as Hp by (intros E; by rewrite E in Ho). split; [split; [exact Hp|]|].
  - intros [(c & -> & Hc & Hz & Hw)|(-> & Hz & Hw)]; cbn [exec].
    + destruct (inv_waiting _ Hi c) as (p & Ep & _); [by right|]. unfold accepted, guard, wg_add, waits. rewrite (bool_decide_true (c ∈ l_taken l)) by done. rewrite Ep. cbn [get mbind res_bind]. by rewrite Hw, Hz.
    + unfold wake. rewrite Hw. by rewrite (proj2 (Z.eqb_neq _ _) Hz).
  - destruct (inv_counter _ Hi) as (H1 & H2 & H3). intros [(c & -> & Hc & Hz & Hw)|(-> & Hz & Hw)]%Hp; [lia|]. apply (rel_woken _ Hrel). by left.
Qed.

(** *** Examples *)

(** A datagram names the connection by its first two bytes, if the first is not 0;
    a connection takes the first two bytes of what it writes. *)
Definition demo_id (b : bytes) : res dtls_error (option gostring) :=
  match b with x :: y :: _ => Ok (if x =? 0 then None else Some [x; y]) | _ => Ok None end.

Definition demo_exec (es : list event) : res disabled listener := execs 2 None (Some demo_id) (Some demo_id) es Listen.
Definition demo_listener (es : list event) : listener := match demo_exec es with Ok l => l | _ => Listen end.

Definition demo_start : list event := [EDatagram [1] [0; 0] 0; EBuffer; EAccept; EAccepted 0].
Definition demo_events : list event := demo_start ++ [EWrite 0 [7; 8] [1]; EWriter 0 0; EWriter 0 0; EDatagram [2] [0; 0] 1; EBuffer].

Lemma demo_id_safe f b : Some demo_id = Some f → ∃ o, f b = Ok o.
Proof. intros [= <-]. destruct b as [|x [|y b]]; by eexists. Qed.

Lemma listener_reachable_execs Backlog af dr ci es : ∀ l l', reachable Backlog af dr ci l → execs Backlog af dr ci es l = Ok l' → reachable Backlog af dr ci l'.
Proof.
  induction es as [|e es IH]; intros l l' Hl Hx; [by injection Hx as <-|]. apply bind_Ok_inv in Hx as (l1 & Hx & Hx'). eapply IH; [|exact Hx']. by eapply reachable_step.
Qed.

(** Runs whose steps are checked to be orderly. *)
Definition listedb (p : PacketConn) : bool := match pc_state p with POpen | PReleasing _ | PClosing => true | _ => false end.

Definition orderlyb (e : event) (l : listener) : bool :=
  match e with
  | EWrite c _ _ => match l_store l !! c with Some p => listedb p && match pc_writers p with [] => true | _ => false end | None => true end
  | EWriter c i => match l_store l !! c with Some p => match pc_writers p !! i with Some (WInsert k) => match l_conns l !! k with None => true | _ => false end | _ => true end | None => true end
  | ERemove c => match l_store l !! c with Some p => match pc_writers p with [] => true | _ => false end | None => true end
  | _ => true
  end.

Lemma orderlyb_sound e l : orderlyb e l = true → orderly e l.
Proof.
  destruct e; cbn; try done.
  - intros Hb p E. rewrite E in Hb. apply andb_true_iff in Hb as [Hl Hw]. split; [|by destruct (pc_writers p)]. unfold listedb in Hl. unfold listed. destruct (pc_state p); try done; eauto.
  - intros Hb p k E Ew. rewrite E, Ew in Hb. by destruct (l_conns l !! k).
  - intros Hb p E. rewrite E in Hb. by destruct (pc_writers p).
Qed.

Fixpoint demo_orderly (es : list event) (l : listener) : bool :=
  match es with
  | [] => true
  | e :: es => orderlyb e l && match exec 2 None (Some demo_id) (Some demo_id) e l with Ok l => demo_orderly es l | _ => false end
  end.

Lemma demo_orderly_reachable es : ∀ l, reachable_orderly 2 None (Some demo_id) (Some demo_id) l → demo_orderly es l = true →
  ∃ l', execs 2 None (Some demo_id) (Some demo_id) es l = Ok l' ∧ reachable_orderly 2 None (Some demo_id) (Some demo_id) l'.
Proof.
  induction es as [|e es IH]; intros l Hl; cbn [demo_orderly execs]; [by exists l|]. intros [Ho%orderlyb_sound Hx]%andb_true_iff.
  destruct (exec _ _ _ _ e l) as [l1| |] eqn:E; [|done..]. apply IH; [|done]. by eapply orderly_step.
Qed.

Lemma demo_reachable : reachable_orderly 2 None (Some demo_id) (Some demo_id) (demo_listener demo_events).
Proof.
  destruct (demo_orderly_reachable demo_events Listen) as (l & E & Hl); [apply orderly_init|vm_compute; reflexivity|]. unfold demo_listener, demo_exec. by rewrite E.
Qed.


(** Close of the listener while Accept has a connection. *)
Definition demo_closing : list event := [EWait; EDatagram [1] [0; 0] 0; EBuffer; EAccept; EListenerClose; EDrain; EListenerDone].

Lemma demo_run_reachable es : match demo_exec es with Ok _ => True | _ => False end → reachable 2 None (Some demo_id) (Some demo_id) (demo_listener es).
Proof. unfold demo_listener. destruct (demo_exec es) as [l| |] eqn:E; [|done..]. intros _. eapply listener_reachable_execs; [apply reachable_init|exact E]. Qed.

(** Accept panics; or, when the waiter is woken first, the waiter does. *)
Lemma udp_panics_witness : exec 2 None (Some demo_id) (Some demo_id) (EAccepted 0) (demo_listener demo_closing) = Panic ∧
  exec 2 None (Some demo_id) (Some demo_id) EWake (demo_listener (demo_closing ++ [EListenerReleased; EAccepted 0])) = Panic.
Proof.
  split.
  - apply (udp_panics 2 None (Some demo_id) (Some demo_id) (demo_listener demo_closing) (EAccepted 0)); [done|exact demo_id_safe|exact demo_id_safe|apply demo_run_reachable; vm_compute; exact I|].
    left. exists 0%nat. split; [reflexivity|]. by apply (bool_decide_unpack _); vm_compute.
  - apply (udp_panics 2 None (Some demo_id) (Some demo_id) (demo_listener (demo_closing ++ [EListenerReleased; EAccepted 0])) EWake);
      [done|exact demo_id_safe|exact demo_id_safe|apply demo_run_reachable; vm_compute; exact I|]. right. split; [reflexivity|]. by apply (bool_decide_unpack _); vm_compute.
Defined.

(** A connection that is closed and then writes, before it has an identifier, is
    put back in the map, and a datagram with the identifier goes to it. *)
Theorem write_after_close_stays : ∃ l p,
  demo_exec (demo_start ++ [EClose 0; EReleased 0; ERemove 0; ECloseBuffer 0; EWrite 0 [7; 8] [1]; EWriter 0 0; EWriter 0 0]) = Ok l ∧
  l_store l !! 0%nat = Some p ∧ pc_state p = PClosed ∧ l_conns l !! [7; 8] = Some 0%nat ∧
  getConn 2 None (Some demo_id) [2] [7; 8; 9] 5 l = Ok (Some 0%nat, l).
Proof. do 2 eexists. split; [vm_compute; reflexivity|]. split_and!; vm_compute; reflexivity. Qed.

(** A connection that is closed while it writes to a new address: a connection
    with the old address, which was made after the Close, is taken out of the map,
    and the next datagram of the peer starts yet another connection. *)
Theorem free_after_close_unlists : ∃ l p,
  demo_exec (demo_start ++ [EWrite 0 [7; 8] [1]; EWriter 0 0; EWriter 0 0; EWrite 0 [7; 8] [2]; EClose 0; EReleased 0; ERemove 0; ECloseBuffer 0; EDatagram [1] [0; 0] 1; EBuffer; EWriter 0 0]) = Ok l ∧
  l_store l !! 1%nat = Some p ∧ pc_state p = POpen ∧ pc_raddr p = [1] ∧ l_conns l !! [1] = None ∧
  ∃ l', getConn 2 None (Some demo_id) [1] [0; 0] 5 l = Ok (Some 5%nat, l').
Proof. do 2 eexists. split; [vm_compute; reflexivity|]. split_and!; [vm_compute; reflexivity..|]. eexists. vm_compute. reflexivity. Qed.

(** Accept counts a connection after it has received it: when the listener is
    closed in between, the socket is closed, and Accept returns a connection over
    a closed socket. *)
Theorem accepted_on_closed_socket : ∃ l p,
  demo_exec [EDatagram [1] [0; 0] 0; EBuffer; EAccept; EListenerClose; EDrain; EListenerDone; EListenerReleased; EWait; ESocket; EAccepted 0] = Ok l ∧
  l_store l !! 0%nat = Some p ∧ pc_state p = POpen ∧ pc_accepted p = true ∧ l_sockClosed l = true.
Proof. do 2 eexists. split; [vm_compute; reflexivity|]. split_and!; vm_compute; reflexivity. Qed.

End Udp.

(** ** Connection IDs *)

Module Cid.
Import Handshake Extension RecordHeader.

(** The first record with a connection ID. *)
Fixpoint first_cid (size : Z) (pkts : list bytes) : res dtls_error (option gostring) :=
  match pkts with
  | [] => Ok None
  | pkt :: pkts =>
      match Header_Unmarshal (MkHeader 0 0 (MkVersion 0 0) 0 0 (zeros size)) pkt with
      | Ok h => if ContentType h =? ContentTypeConnectionID then Ok (Some (RecordHeader.ConnectionID h)) else first_cid size pkts
      | Err _ => first_cid size pkts
      | Panic => Panic
      end
  end.

Definition cidDatagramRouter (size : Z) (packet : bytes) : res dtls_error (option gostring) :=
  match ContentAwareUnpackDatagram packet size with
  | Ok pkts => first_cid size pkts
  | Err _ => Ok None
  | Panic => Panic
  end.

Section identifier.
Context `{Cryptobyte}.

(** The extensions of the first message that can be read as a ServerHello; there
    are none when there is no such message. *)
Fixpoint hello_extensions (pkts : list bytes) : res dtls_error (list Extension) :=
  match pkts with
  | [] => Ok []
  | pkt :: pkts =>
      d ← slice_from pkt FixedHeaderSize;
      match HandshakeHeader.Header_Unmarshal d with
      | Err _ => hello_extensions pkts
      | Panic => Panic
      | Ok _ =>
          d ← slice_from pkt (FixedHeaderSize + HandshakeHeader.HeaderLength);
          match ServerHello_Unmarshal d with
          | Ok sh => Ok (sh_Extensions sh)
          | Err _ => hello_extensions pkts
          | Panic => Panic
          end
      end
  end.

Fixpoint find_cid (es : list Extension) : option gostring :=
  match es with
  | [] => None
  | Extension.ConnectionID cid :: _ => Some cid
  | _ :: es => find_cid es
  end.

Definition cidConnIdentifier (packet : bytes) : res dtls_error (option gostring) :=
  match UnpackDatagram packet with
  | Ok (p :: ps) =>
      match Header_Unmarshal (MkHeader 0 0 (MkVersion 0 0) 0 0 []) p with
      | Ok h => if ContentType h =? ContentTypeHandshake then es ← hello_extensions (p :: ps); Ok (find_cid es) else Ok None
      | Err _ => Ok None
      | Panic => Panic
      end
  | Ok [] | Err _ => Ok None
  | Panic => Panic
  end.

End identifier.

(** The AcceptFilter of listenWithConfig. *)
Definition handshakeFilter (packet : bytes) : res dtls_error bool :=
  match UnpackDatagram packet with
  | Ok (p :: _) =>
      match Header_Unmarshal (MkHeader 0 0 (MkVersion 0 0) 0 0 []) p with
      | Ok h => Ok (ContentType h =? ContentTypeHandshake)
      | Err _ => Ok false
      | Panic => Panic
      end
  | Ok [] | Err _ => Ok false
  | Panic => Panic
  end.

(** a record is found by its connection ID.  The router of a listener whose
    connection IDs have a given size finds the connection ID of every record with
    one, whose content is not empty and which is alone in its datagram. *)
Theorem cid_record_routed (h : Header) (body : bytes) : header_ok h → ContentType h = ContentTypeConnectionID → body ≠ [] → ContentLen h = len body →
  ∃ b, Header_Marshal h = Ok b ∧ cidDatagramRouter (len (RecordHeader.ConnectionID h)) (b ++ body) = Ok (Some (RecordHeader.ConnectionID h)).
Proof.
  intros Hok Hct Hne Hlen. set (h0 := MkHeader 0 0 (MkVersion 0 0) 0 0 (zeros (len (RecordHeader.ConnectionID h)))).
  destruct (Header_roundtrip h h0 body Hok) as (b & Hb & _ & Hu). { cbn. apply len_zeros. apply len_nonneg. }
  exists b. split; [done|]. unfold cidDatagramRouter.
  assert (is_record (len (RecordHeader.ConnectionID h)) (b ++ body) body) as Hr.
  { unfold Header_Marshal in Hb. case_match; [done|]. injection Hb as <-. rewrite Hct, Hlen.
    exists ContentTypeConnectionID, ([Major (HVersion h); Minor (HVersion h)] ++ be_put 2 (Epoch h) ++ be_put 6 (SequenceNumber h) ++ RecordHeader.ConnectionID h).
    split_and!; [cbn [app]; by rewrite <- ?app_assoc| |rewrite <- Hlen; apply Hok]. rewrite !len_app, !len_be_put, Z.eqb_refl, !len_cons, len_nil. lia. }
  assert (ContentAwareUnpackDatagram (b ++ body) (len (RecordHeader.ConnectionID h)) = Ok [b ++ body]) as ->.
  { unfold ContentAwareUnpackDatagram. pose proof (ContentAware_complete (len (RecordHeader.ConnectionID h)) [b ++ body] (length (b ++ body)) [] []) as Hc.
    cbn [concat app] in Hc. rewrite app_nil_r in Hc. apply Hc; [apply len_nonneg|split; [by exists body|done]|done]. }
  cbn [first_cid]. fold h0. rewrite Hu, Hct. cbn. done.
Qed.

Lemma cid_record_routed_witness :
  ∃ b, Header_Marshal example_header = Ok b ∧ cidDatagramRouter (len (RecordHeader.ConnectionID example_header)) (b ++ [1; 2; 3]) = Ok (Some [7; 8]).
Proof.
  apply (cid_record_routed example_header [1; 2; 3]); [|reflexivity|done|reflexivity].
  split; cbn; unfold is_byte, is_u16, is_u48; try lia; [by right|done].
Defined.

End Cid.
