(* ===== verification/HandshakeState.v ===== *)
(** * The state and the configuration of a handshake

    [State] is the record of src/dtls/internal/state/state.go, with the
    initialisation of its cipher suite.  [Config] is the record of
    src/dtls/internal/config/handshake.go with the selection of certificates.
    The callbacks of a configuration are code of the application: they are
    functions on an abstract world, like the random number generator and the
    clock. *)
From stdpp Require Import base tactics numbers list strings gmap.
From Stdlib Require Import ZArith Lia.
From S2P Require Import Prelude Sha2 Wire SignatureHash HandshakeCrypto Prf Record CipherSuite Extensions Fragment Handshake.
Import Protocol SignatureHash Handshake.
Open Scope Z_scope.

Module State.

Record HandshakeTrafficSecrets13 := MkTrafficSecrets { ts_Client : bytes; ts_Server : bytes }.

(** Slices that the code compares with nil are options; [PeerCertificates] comes
    from a decoder, which leaves nil exactly when there is no certificate.
    [st_Protection] are the keys inside the cipher suite, once it is initialised.
    The replay detectors are part of the connection. *)
Record State := MkState {
  st_LocalEpoch : Z;
  st_RemoteEpoch : Z;
  st_LocalSequenceNumber : list Z;
  st_LocalRandom : Random;
  st_RemoteRandom : Random;
  st_MasterSecret : bytes;
  st_CipherSuite : option CipherSuite.CipherSuite;
  st_Protection : option CipherSuite.Protection;
  st_PeerCertificates : list bytes;
  st_IdentityHint : option bytes;
  st_SessionID : bytes;
  st_NegotiatedProtocol : gostring;
  st_RemoteSupportsRenegotiation : bool;
  st_SRTPProtectionProfile : Z;
  st_RemoteSRTPMasterKeyIdentifier : bytes;
  st_LocalConnectionID : option bytes;
  st_RemoteConnectionID : option bytes;
  st_IsClient : bool;
  st_PreMasterSecret : bytes;
  st_ExtendedMasterSecret : bool;
  st_NamedCurve : Z;
  st_LocalKeypair : option KeyExchange.Keypair;
  st_Cookie : bytes;
  st_HandshakeSendSequence : Z;
  st_HandshakeRecvSequence : Z;
  st_ServerName : gostring;
  st_RemoteCertRequestAlgs : list Algorithm;
  st_RemoteSignatureSchemes : list Algorithm;
  st_RemoteCertSignatureSchemes : list Algorithm;
  st_RemoteRequestedCertificate : bool;
  st_LocalCertificatesVerify : bytes;
  st_LocalVerifyData : bytes;
  st_LocalKeySignature : bytes;
  st_PeerCertificatesVerified : bool;
  st_PeerSupportedProtocols : list gostring;
  st_LocalVersion : Version;
  st_RemoteVersions : list Version;
  st_HandshakeTrafficSecrets13 : HandshakeTrafficSecrets13;
  st_LocalKeyEntries : list Extension.KeyShareEntry;
  st_LocalKeypairs : gmap Z KeyExchange.Keypair;
  st_RemoteKeyEntries : option (list Extension.KeyShareEntry);
  st_RemoteGroups : list Z
}.

#[global] Instance State_eta : Eta State := λ s, MkState
  (st_LocalEpoch s) (st_RemoteEpoch s) (st_LocalSequenceNumber s) (st_LocalRandom s) (st_RemoteRandom s)
  (st_MasterSecret s) (st_CipherSuite s) (st_Protection s) (st_PeerCertificates s) (st_IdentityHint s) (st_SessionID s)
  (st_NegotiatedProtocol s) (st_RemoteSupportsRenegotiation s) (st_SRTPProtectionProfile s)
  (st_RemoteSRTPMasterKeyIdentifier s) (st_LocalConnectionID s) (st_RemoteConnectionID s) (st_IsClient s)
  (st_PreMasterSecret s) (st_ExtendedMasterSecret s) (st_NamedCurve s) (st_LocalKeypair s) (st_Cookie s)
  (st_HandshakeSendSequence s) (st_HandshakeRecvSequence s) (st_ServerName s) (st_RemoteCertRequestAlgs s)
  (st_RemoteSignatureSchemes s) (st_RemoteCertSignatureSchemes s) (st_RemoteRequestedCertificate s)
  (st_LocalCertificatesVerify s) (st_LocalVerifyData s) (st_LocalKeySignature s) (st_PeerCertificatesVerified s)
  (st_PeerSupportedProtocols s) (st_LocalVersion s) (st_RemoteVersions s) (st_HandshakeTrafficSecrets13 s)
  (st_LocalKeyEntries s) (st_LocalKeypairs s) (st_RemoteKeyEntries s) (st_RemoteGroups s).

#[global] Instance upd_LocalEpoch : Update st_LocalEpoch := ltac:(derive_update).
#[global] Instance upd_RemoteEpoch : Update st_RemoteEpoch := ltac:(derive_update).
#[global] Instance upd_LocalSequenceNumber : Update st_LocalSequenceNumber := ltac:(derive_update).
#[global] Instance upd_LocalRandom : Update st_LocalRandom := ltac:(derive_update).
#[global] Instance upd_RemoteRandom : Update st_RemoteRandom := ltac:(derive_update).
#[global] Instance upd_MasterSecret : Update st_MasterSecret := ltac:(derive_update).
#[global] Instance upd_CipherSuite : Update st_CipherSuite := ltac:(derive_update).
#[global] Instance upd_Protection : Update st_Protection := ltac:(derive_update).
#[global] Instance upd_PeerCertificates : Update st_PeerCertificates := ltac:(derive_update).
#[global] Instance upd_IdentityHint : Update st_IdentityHint := ltac:(derive_update).
#[global] Instance upd_SessionID : Update st_SessionID := ltac:(derive_update).
#[global] Instance upd_NegotiatedProtocol : Update st_NegotiatedProtocol := ltac:(derive_update).
#[global] Instance upd_RemoteSupportsRenegotiation : Update st_RemoteSupportsRenegotiation := ltac:(derive_update).
#[global] Instance upd_SRTPProtectionProfile : Update st_SRTPProtectionProfile := ltac:(derive_update).
#[global] Instance upd_RemoteSRTPMasterKeyIdentifier : Update st_RemoteSRTPMasterKeyIdentifier := ltac:(derive_update).
#[global] Instance upd_LocalConnectionID : Update st_LocalConnectionID := ltac:(derive_update).
#[global] Instance upd_RemoteConnectionID : Update st_RemoteConnectionID := ltac:(derive_update).
#[global] Instance upd_IsClient : Update st_IsClient := ltac:(derive_update).
#[global] Instance upd_PreMasterSecret : Update st_PreMasterSecret := ltac:(derive_update).
#[global] Instance upd_ExtendedMasterSecret : Update st_ExtendedMasterSecret := ltac:(derive_update).
#[global] Instance upd_NamedCurve : Update st_NamedCurve := ltac:(derive_update).
#[global] Instance upd_LocalKeypair : Update st_LocalKeypair := ltac:(derive_update).
#[global] Instance upd_Cookie : Update st_Cookie := ltac:(derive_update).
#[global] Instance upd_HandshakeSendSequence : Update st_HandshakeSendSequence := ltac:(derive_update).
#[global] Instance upd_HandshakeRecvSequence : Update st_HandshakeRecvSequence := ltac:(derive_update).
#[global] Instance upd_ServerName : Update st_ServerName := ltac:(derive_update).
#[global] Instance upd_RemoteCertRequestAlgs : Update st_RemoteCertRequestAlgs := ltac:(derive_update).
#[global] Instance upd_RemoteSignatureSchemes : Update st_RemoteSignatureSchemes := ltac:(derive_update).
#[global] Instance upd_RemoteCertSignatureSchemes : Update st_RemoteCertSignatureSchemes := ltac:(derive_update).
#[global] Instance upd_RemoteRequestedCertificate : Update st_RemoteRequestedCertificate := ltac:(derive_update).
#[global] Instance upd_LocalCertificatesVerify : Update st_LocalCertificatesVerify := ltac:(derive_update).
#[global] Instance upd_LocalVerifyData : Update st_LocalVerifyData := ltac:(derive_update).
#[global] Instance upd_LocalKeySignature : Update st_LocalKeySignature := ltac:(derive_update).
#[global] Instance upd_PeerCertificatesVerified : Update st_PeerCertificatesVerified := ltac:(derive_update).
#[global] Instance upd_PeerSupportedProtocols : Update st_PeerSupportedProtocols := ltac:(derive_update).
#[global] Instance upd_LocalVersion : Update st_LocalVersion := ltac:(derive_update).
#[global] Instance upd_RemoteVersions : Update st_RemoteVersions := ltac:(derive_update).
#[global] Instance upd_HandshakeTrafficSecrets13 : Update st_HandshakeTrafficSecrets13 := ltac:(derive_update).
#[global] Instance upd_LocalKeyEntries : Update st_LocalKeyEntries := ltac:(derive_update).
#[global] Instance upd_LocalKeypairs : Update st_LocalKeypairs := ltac:(derive_update).
#[global] Instance upd_RemoteKeyEntries : Update st_RemoteKeyEntries := ltac:(derive_update).
#[global] Instance upd_RemoteGroups : Update st_RemoteGroups := ltac:(derive_update).

(** Reads fields of updated states. *)
Ltac st_simpl :=
  cbn [update upd_LocalEpoch upd_RemoteEpoch upd_LocalSequenceNumber upd_LocalRandom upd_RemoteRandom upd_MasterSecret
    upd_CipherSuite upd_Protection upd_PeerCertificates upd_IdentityHint upd_SessionID upd_NegotiatedProtocol
    upd_RemoteSupportsRenegotiation upd_SRTPProtectionProfile upd_RemoteSRTPMasterKeyIdentifier upd_LocalConnectionID
    upd_RemoteConnectionID upd_IsClient upd_PreMasterSecret upd_ExtendedMasterSecret upd_NamedCurve upd_LocalKeypair
    upd_Cookie upd_HandshakeSendSequence upd_HandshakeRecvSequence upd_ServerName upd_RemoteCertRequestAlgs
    upd_RemoteSignatureSchemes upd_RemoteCertSignatureSchemes upd_RemoteRequestedCertificate upd_LocalCertificatesVerify
    upd_LocalVerifyData upd_LocalKeySignature upd_PeerCertificatesVerified upd_PeerSupportedProtocols upd_LocalVersion
    upd_RemoteVersions upd_HandshakeTrafficSecrets13 upd_LocalKeyEntries upd_LocalKeypairs upd_RemoteKeyEntries
    upd_RemoteGroups st_LocalEpoch st_RemoteEpoch st_LocalSequenceNumber st_LocalRandom st_RemoteRandom st_MasterSecret
    st_CipherSuite st_Protection st_PeerCertificates st_IdentityHint st_SessionID st_NegotiatedProtocol
    st_RemoteSupportsRenegotiation st_SRTPProtectionProfile st_RemoteSRTPMasterKeyIdentifier st_LocalConnectionID
    st_RemoteConnectionID st_IsClient st_PreMasterSecret st_ExtendedMasterSecret st_NamedCurve st_LocalKeypair st_Cookie
    st_HandshakeSendSequence st_HandshakeRecvSequence st_ServerName st_RemoteCertRequestAlgs st_RemoteSignatureSchemes
    st_RemoteCertSignatureSchemes st_RemoteRequestedCertificate st_LocalCertificatesVerify st_LocalVerifyData
    st_LocalKeySignature st_PeerCertificatesVerified st_PeerSupportedProtocols st_LocalVersion st_RemoteVersions
    st_HandshakeTrafficSecrets13 st_LocalKeyEntries st_LocalKeypairs st_RemoteKeyEntries st_RemoteGroups].

(** A new connection. *)
Definition zero_random : Random := MkRandom (-62135596800) (zeros RandomBytesLength).

Definition new_state (isClient : bool) : State :=
  MkState 0 0 [] zero_random zero_random [] None None [] None [] [] false 0 [] None None isClient [] false 0 None [] 0 0 [] [] [] []
    false [] [] [] false [] (MkVersion 0 0) [] (MkTrafficSecrets [] []) [] ∅ None [].

Definition IsInitialized (s : State) : bool := match st_Protection s with Some _ => true | None => false end.

(** Returns the state with the initialised suite. *)
Definition InitCipherSuite (s : State) : res dtls_error State :=
  match st_CipherSuite s with
  | None => Err ErrCipherSuiteNotSet
  | Some cs =>
      if IsInitialized s then Ok s else
      let localRandom := MarshalFixed (st_LocalRandom s) in
      let remoteRandom := MarshalFixed (st_RemoteRandom s) in
      p ← (if st_IsClient s then CipherSuite.Init cs (st_MasterSecret s) localRandom remoteRandom true
           else CipherSuite.Init cs (st_MasterSecret s) remoteRandom localRandom false);
      Ok (s <| st_Protection := Some p |>)
  end.

End State.

(** ** The configuration *)

Module Config.
Import HandshakeCrypto State.

Definition NoClientCert : Z := 0.
Definition RequestClientCert : Z := 1.
Definition RequireAnyClientCert : Z := 2.
Definition VerifyClientCertIfGiven : Z := 3.
Definition RequireAndVerifyClientCert : Z := 4.

Inductive ExtendedMasterSecretType := RequestExtendedMasterSecret | RequireExtendedMasterSecret | DisableExtendedMasterSecret.

#[global] Instance ems_eq_dec : EqDecision ExtendedMasterSecretType.
Proof. solve_decision. Defined.

Record ClientHelloInfo := MkHelloInfo { hi_ServerName : gostring; hi_CipherSuites : list Z; hi_RandomBytes : bytes }.

Record CertificateRequestInfo := MkRequestInfo { ri_AcceptableCAs : list bytes }.

(** tls.Certificate: the chain (nil or not), the key if it is a crypto.Signer,
    and the parsed leaf if it is set. *)
Record tls_Certificate := MkTLSCertificate {
  tc_Certificate : option (list bytes);
  tc_PrivateKey : option Signer;
  tc_Leaf : option Certificate
}.

(** strings.ToLower of a string that is not ASCII. *)
Class Unicode := unicode_ToLower : gostring → gostring.

(** The random number generator and the clock, on a world [W]. *)
Class World (W : Type) := {
  rand_Read : Z → W → res dtls_error bytes * W;
  rand_Reader : W → (Z * Z) * W;
  time_Now : W → Z * W
}.

Section config.
Context {W : Type} `{PKI}.

(** What a callback may do. *)
Definition action (A : Type) : Type := W → res dtls_error A * W.

(** A callback that is nil is [None].  Logging and the callbacks that only
    observe the flights are left out. *)
Record HandshakeConfig := MkConfig {
  cf_LocalPSKCallback : option (option bytes → action bytes);
  cf_LocalPSKIdentityHint : option bytes;
  cf_LocalCipherSuites : list CipherSuite.CipherSuite;
  cf_LocalSignatureSchemes : list Algorithm;
  cf_LocalCertSignatureSchemes : list Algorithm;
  cf_ExtendedMasterSecret : ExtendedMasterSecretType;
  cf_LocalSRTPProtectionProfiles : list Z;
  cf_LocalSRTPMasterKeyIdentifier : bytes;
  cf_ServerName : gostring;
  cf_SupportedProtocols : list gostring;
  cf_ClientAuth : Z;
  cf_LocalCertificates : list tls_Certificate;
  cf_InsecureSkipVerify : bool;
  cf_VerifyPeerCertificate : option (list bytes → list (list Certificate) → action unit);
  cf_VerifyConnection : option (State → action unit);
  cf_HasSessionStore : bool;
  cf_GetSession : bytes → action (option bytes * bytes);
  cf_SetSession : bytes → bytes → bytes → action unit;
  cf_DelSession : bytes → action unit;
  cf_RootCAs : option CertPool;
  cf_ClientCAs : option CertPool;
  cf_InitialRetransmitInterval : Z;
  cf_DisableRetransmitBackoff : bool;
  cf_CustomCipherSuites : option (list CipherSuite.CipherSuite);
  cf_EllipticCurves : list Z;
  cf_InsecureSkipHelloVerify : bool;
  cf_ConnectionIDGenerator : option (W → option bytes * W);
  cf_HelloRandomBytesGenerator : option (W → bytes * W);
  cf_KeyLogWriter : bool;
  cf_LocalGetCertificate : option (ClientHelloInfo → action (option tls_Certificate));
  cf_LocalGetClientCertificate : option (CertificateRequestInfo → action (option tls_Certificate));
  cf_InitialEpoch : Z;
  cf_ClientHelloMessageHook : option (MessageClientHello → option Message);
  cf_ServerHelloMessageHook : option (MessageServerHello → option Message);
  cf_CertificateRequestMessageHook : option (MessageCertificateRequest → option Message);
  cf_MinVersion : Version;
  cf_MaxVersion : Version
}.

(** The chain is accepted when one of its certificates was issued by one of the
    authorities; [j] is the index of the certificate. *)
Fixpoint supports_loop (acceptableCAs : list bytes) (leaf : option Certificate) (first : bool) (certs : list bytes) : res dtls_error unit :=
  match certs with
  | [] => Err ErrNotAcceptableCertificateChain
  | cert :: certs =>
      x509Cert ← (match first, leaf with
                  | true, Some c => Ok c
                  | _, _ => map_err (λ _, ErrOther (gs "failed to parse certificate in the chain")) (ParseCertificate cert)
                  end);
      if existsb (λ ca, bool_decide (x_RawIssuer x509Cert = ca)) acceptableCAs then Ok tt
      else supports_loop acceptableCAs leaf false certs
  end.

Definition SupportsCertificate (acceptableCAs : list bytes) (c : tls_Certificate) : res dtls_error unit :=
  match acceptableCAs with
  | [] => Ok tt
  | _ => supports_loop acceptableCAs (tc_Leaf c) true (default [] (tc_Certificate c))
  end.

(** strings.ToLower *)
Definition lower (c : Z) : Z := if (65 <=? c) && (c <=? 90) then c + 32 else c.

Definition ToLower `{Unicode} (s : gostring) : gostring :=
  if forallb (λ c, c <? 128) s then map lower s else unicode_ToLower s.

(** strings.TrimRight(s, c) for one character. *)
Definition TrimRight (c : Z) (s : gostring) : gostring :=
  reverse ((fix drop_while (l : gostring) := match l with [] => [] | x :: l' => if x =? c then drop_while l' else l end) (reverse s)).

(** strings.Split(s, c) and strings.Join(l, c) for one character. *)
Fixpoint Split (c : Z) (s : gostring) : list gostring :=
  match s with
  | [] => [[]]
  | x :: s =>
      if x =? c then [] :: Split c s
      else match Split c s with [] => [[x]] | p :: ps => (x :: p) :: ps end
  end.

Fixpoint Join (c : Z) (l : list gostring) : gostring :=
  match l with
  | [] => []
  | [p] => p
  | p :: l => p ++ c :: Join c l
  end.

Definition dot : Z := 46.
Definition star : gostring := gs "*".

(** The names of one certificate, lower-cased; a chain without certificates
    makes [cert.Certificate[0]] panic. *)
Definition certificate_names `{Unicode} (cert : tls_Certificate) : res dtls_error (list gostring) :=
  x509Cert ← (match tc_Leaf cert with
              | Some c => Ok (Some c)
              | None =>
                  raw ← idx (default [] (tc_Certificate cert)) 0;
                  match ParseCertificate raw with Ok c => Ok (Some c) | Err _ => Ok None | Panic => Panic end
              end);
  match x509Cert with
  | None => Ok []
  | Some c => Ok ((if 0 <? len (x_CommonName c) then [ToLower (x_CommonName c)] else []) ++ map ToLower (x_DNSNames c))
  end.

Fixpoint setNameToCertificateLocked `{Unicode} (certs : list tls_Certificate) (m : gmap gostring tls_Certificate)
    : res dtls_error (gmap gostring tls_Certificate) :=
  match certs with
  | [] => Ok m
  | cert :: certs =>
      names ← certificate_names cert;
      setNameToCertificateLocked certs (foldl (λ m name, <[name := cert]> m) m names)
  end.

(** The loop over the labels: those before the current one are stars already. *)
Fixpoint wildcard_loop (m : gmap gostring tls_Certificate) (stars labels : list gostring) : option tls_Certificate :=
  match labels with
  | [] => None
  | _ :: labels =>
      let stars := stars ++ [star] in
      match m !! Join dot (stars ++ labels) with
      | Some cert => Some cert
      | None => wildcard_loop m stars labels
      end
  end.

Definition getCertificateForNameLocked `{Unicode} (m : gmap gostring tls_Certificate) (serverName : gostring) : option tls_Certificate :=
  let name := TrimRight dot (ToLower serverName) in
  match m !! name with
  | Some cert => Some cert
  | None => wildcard_loop m [] (Split dot name)
  end.

Definition shouldGetCertificateFromCallbackLocked (c : HandshakeConfig) (info : ClientHelloInfo) : bool :=
  match cf_LocalGetCertificate c with
  | None => false
  | Some _ => (len (cf_LocalCertificates c) =? 0) || (0 <? len (hi_ServerName info))
  end.

(** The certificates of the configuration.  The code keeps the map of names for
    the next call; it does not change. *)
Definition local_certificate `{Unicode} (c : HandshakeConfig) (info : ClientHelloInfo) : res dtls_error (option tls_Certificate) :=
  m ← setNameToCertificateLocked (cf_LocalCertificates c) ∅;
  match cf_LocalCertificates c with
  | [] => Err ErrNoCertificates
  | [cert] => Ok (Some cert)
  | cert :: _ =>
      if len (hi_ServerName info) =? 0 then Ok (Some cert) else
      match getCertificateForNameLocked m (hi_ServerName info) with
      | Some cert => Ok (Some cert)
      | None => Ok (Some cert)
      end
  end.

Definition GetCertificate `{Unicode} (c : HandshakeConfig) (info : ClientHelloInfo) : action (option tls_Certificate) := λ w,
  match cf_LocalGetCertificate c with
  | Some callback =>
      if shouldGetCertificateFromCallbackLocked c info then
        match callback info w with
        | (Ok None, w) => (local_certificate c info, w)
        | r => r
        end
      else (local_certificate c info, w)
  | None => (local_certificate c info, w)
  end.

Fixpoint client_certificate (cri : CertificateRequestInfo) (chains : list tls_Certificate) : res dtls_error (option tls_Certificate) :=
  match chains with
  | [] => Ok (Some (MkTLSCertificate None None None))
  | chain :: chains =>
      match SupportsCertificate (ri_AcceptableCAs cri) chain with
      | Ok _ => Ok (Some chain)
      | Err _ => client_certificate cri chains
      | Panic => Panic
      end
  end.

Definition GetClientCertificate (c : HandshakeConfig) (cri : CertificateRequestInfo) : action (option tls_Certificate) := λ w,
  match cf_LocalGetClientCertificate c with
  | Some callback => callback cri w
  | None => (client_certificate cri (cf_LocalCertificates c), w)
  end.

End config.
Arguments HandshakeConfig W {_}.
End Config.
