(* ===== verification/ExportState.v ===== *)
(** * The state that an application can keep (src/dtls/state.go)

    The public [State] of a connection, which is exported to be serialised and
    imported to resume the connection, and the export of keying material.  The
    encoding of the serialised record by encoding/gob is not modelled. *)
From stdpp Require Import base tactics numbers list strings.
From Stdlib Require Import ZArith Lia.
From S2P Require Import Prelude Sha2 Wire Prf Record CipherSuite Handshake HandshakeState.
Import Handshake State.
Open Scope Z_scope.

Module ExportState.

Record PublicState := MkPublicState {
  ps_localEpoch : Z; ps_remoteEpoch : Z; ps_localRandom : Random; ps_remoteRandom : Random; ps_masterSecret : bytes; ps_sequenceNumber : Z;
  ps_srtpProtectionProfile : Z; ps_localConnectionID : option bytes; ps_remoteConnectionID : option bytes; ps_isClient : bool;
  ps_CipherSuiteID : Z; ps_PeerCertificates : list bytes; ps_IdentityHint : option bytes; ps_SessionID : bytes; ps_NegotiatedProtocol : gostring
}.

Record serializedState := MkSerialized {
  se_LocalEpoch : Z; se_RemoteEpoch : Z; se_LocalRandom : bytes; se_RemoteRandom : bytes; se_CipherSuiteID : Z; se_MasterSecret : bytes;
  se_SequenceNumber : Z; se_SRTPProtectionProfile : Z; se_PeerCertificates : list bytes; se_IdentityHint : option bytes; se_SessionID : bytes;
  se_LocalConnectionID : option bytes; se_RemoteConnectionID : option bytes; se_IsClient : bool; se_NegotiatedProtocol : gostring
}.

Definition generateState (s : State) : res dtls_error PublicState :=
  match st_CipherSuite s with
  | None => Err ErrCipherSuiteNotSet
  | Some cs =>
      sequenceNumber ← idx (st_LocalSequenceNumber s) (st_LocalEpoch s);
      Ok (MkPublicState (st_LocalEpoch s) (st_RemoteEpoch s) (st_LocalRandom s) (st_RemoteRandom s) (st_MasterSecret s) sequenceNumber
        (st_SRTPProtectionProfile s) (st_LocalConnectionID s) (st_RemoteConnectionID s) (st_IsClient s)
        (CipherSuite.ID cs) (st_PeerCertificates s) (st_IdentityHint s) (st_SessionID s) (st_NegotiatedProtocol s))
  end.

Definition serialize (s : PublicState) : res dtls_error serializedState :=
  if ps_CipherSuiteID s =? 0 then Err ErrCipherSuiteNotSet else
  Ok (MkSerialized (ps_localEpoch s) (ps_remoteEpoch s) (MarshalFixed (ps_localRandom s)) (MarshalFixed (ps_remoteRandom s)) (u16 (ps_CipherSuiteID s))
    (ps_masterSecret s) (ps_sequenceNumber s) (u16 (ps_srtpProtectionProfile s)) (ps_PeerCertificates s) (ps_IdentityHint s) (ps_SessionID s)
    (ps_localConnectionID s) (ps_remoteConnectionID s) (ps_isClient s) (ps_NegotiatedProtocol s)).

(** All fields are assigned to, whatever was in them. *)
Definition deserialize (e : serializedState) : PublicState :=
  MkPublicState (se_LocalEpoch e) (se_RemoteEpoch e) (UnmarshalFixed (se_LocalRandom e)) (UnmarshalFixed (se_RemoteRandom e)) (se_MasterSecret e)
    (se_SequenceNumber e) (se_SRTPProtectionProfile e) (se_LocalConnectionID e) (se_RemoteConnectionID e) (se_IsClient e)
    (se_CipherSuiteID e) (se_PeerCertificates e) (se_IdentityHint e) (se_SessionID e) (se_NegotiatedProtocol e).

Section state.
Context `{Cryptobyte} `{Ciphers}.

Definition cipherSuiteForID (id : Z) : option CipherSuite.CipherSuite := CipherSuite.ForID id None.

Definition invalidKeyingLabels : list gostring := [gs "client finished"; gs "server finished"; gs "master secret"; gs "key expansion"].

(** The suite, which is new and so not initialised, with its keys. *)
Definition initializedCipherSuite (s : PublicState) : res dtls_error (CipherSuite.CipherSuite * CipherSuite.Protection) :=
  match cipherSuiteForID (ps_CipherSuiteID s) with
  | None => Err ErrCipherSuiteNotSet
  | Some cs =>
      let localRandom := MarshalFixed (ps_localRandom s) in
      let remoteRandom := MarshalFixed (ps_remoteRandom s) in
      p ← (if ps_isClient s then CipherSuite.Init cs (ps_masterSecret s) localRandom remoteRandom true
           else CipherSuite.Init cs (ps_masterSecret s) remoteRandom localRandom false);
      Ok (cs, p)
  end.

(** The sequence numbers of the epochs up to the current one. *)
Definition sequence_numbers (epoch sequenceNumber : Z) : list Z := <[Z.to_nat epoch := sequenceNumber]> (zeros (epoch + 1)).

Definition generateInternalState (s : PublicState) : res dtls_error State :=
  if ps_CipherSuiteID s =? 0 then Err ErrCipherSuiteNotSet else
  let state := (new_state (ps_isClient s))
    <| st_LocalRandom := ps_localRandom s |> <| st_RemoteRandom := ps_remoteRandom s |> <| st_MasterSecret := ps_masterSecret s |>
    <| st_CipherSuite := cipherSuiteForID (ps_CipherSuiteID s) |> <| st_RemoteConnectionID := ps_remoteConnectionID s |>
    <| st_PeerCertificates := ps_PeerCertificates s |> <| st_IdentityHint := ps_IdentityHint s |> <| st_SessionID := ps_SessionID s |>
    <| st_NegotiatedProtocol := ps_NegotiatedProtocol s |> <| st_LocalEpoch := ps_localEpoch s |> <| st_RemoteEpoch := ps_remoteEpoch s |>
    <| st_SRTPProtectionProfile := ps_srtpProtectionProfile s |> <| st_LocalConnectionID := ps_localConnectionID s |>
    <| st_LocalSequenceNumber := sequence_numbers (ps_localEpoch s) (ps_sequenceNumber s) |> in
  InitCipherSuite state.

Definition ExportKeyingMaterial (s : PublicState) (label : gostring) (context : bytes) (length : Z) : res dtls_error bytes :=
  if ps_localEpoch s =? 0 then Err ErrHandshakeInProgress else
  if negb (len context =? 0) then Err ErrContextUnsupported else
  if existsb (λ l, bool_decide (l = label)) invalidKeyingLabels then Err ErrReservedExportKeyingMaterial else
  '(cipherSuite, _) ← initializedCipherSuite s;
  let localRandom := MarshalFixed (ps_localRandom s) in
  let remoteRandom := MarshalFixed (ps_remoteRandom s) in
  let seed := if ps_isClient s then (label ++ localRandom) ++ remoteRandom else (label ++ remoteRandom) ++ localRandom in
  Prf.PHash (ps_masterSecret s) seed length (CipherSuite.HashFunc cipherSuite).

(** ** Properties *)

Lemma fixed_random_roundtrip r : is_u32 (GMTUnixTime r) → UnmarshalFixed (MarshalFixed r) = r.
Proof.
  intros Hr. destruct r as [t b]. unfold UnmarshalFixed, MarshalFixed. cbn [GMTUnixTime RandomBytes] in *.
  assert (length (be_put 4 (u32 t)) = 4%nat) as Hl by apply length_be_put. unfold u32. rewrite Z.mod_small by done.
  rewrite take_app_length', drop_app_length' by (by rewrite length_be_put). rewrite be_get_put. by rewrite Z.mod_small.
Qed.

Lemma idx_nonneg {E A} (l : list A) i (a : A) : idx (E:=E) l i = Ok a → 0 ≤ i.
Proof. unfold idx. destruct (Z.leb_spec 0 i); [done|discriminate]. Qed.

Lemma sequence_numbers_idx {E} epoch n : 0 ≤ epoch → idx (E:=E) (sequence_numbers epoch n) epoch = Ok n.
Proof.
  intros He. unfold idx, sequence_numbers. rewrite (proj2 (Z.leb_le 0 epoch) He). rewrite list_lookup_insert_eq; [done|].
  unfold zeros. rewrite length_replicate. lia.
Qed.

Lemma known_id id cs : cipherSuiteForID id = Some cs → is_u16 id ∧ id ≠ 0.
Proof.
  unfold cipherSuiteForID, CipherSuite.ForID. intros E.
  repeat match type of E with (if ?a =? ?b then _ else _) = _ => destruct (Z.eqb_spec a b) as [->|?]; [split; [split; vm_compute; congruence|done]|] end. done.
Qed.

(** C38: a connection that is exported and imported goes on as it was.  From the
    state of a connection whose suite is one of the library's and was initialised
    from the connection's secrets, the exported state can be imported; the new
    state is exported as the same again, and protects records with the same keys.
    Serialising the exported state in between changes nothing. *)
Theorem exported_state_resumes (s : State) (cs : CipherSuite.CipherSuite) (e : PublicState) :
  st_CipherSuite s = Some cs → cipherSuiteForID (CipherSuite.ID cs) = Some cs → InitCipherSuite (s <| st_Protection := None |>) = Ok s →
  is_u32 (GMTUnixTime (st_LocalRandom s)) → is_u32 (GMTUnixTime (st_RemoteRandom s)) → is_u16 (st_SRTPProtectionProfile s) →
  generateState s = Ok e →
  (∃ x, serialize e = Ok x ∧ deserialize x = e) ∧
  ∃ s', generateInternalState e = Ok s' ∧ generateState s' = Ok e ∧ st_Protection s' = st_Protection s ∧ st_CipherSuite s' = Some cs.
Proof.
  intros Hcs Hid Hinit Hl Hr Hp Hg. unfold generateState in Hg. rewrite Hcs in Hg. apply bind_Ok_inv in Hg as (n & Hn & [= <-]).
  assert (is_u16 (CipherSuite.ID cs) ∧ CipherSuite.ID cs ≠ 0) as [Hu Hne] by (by eapply known_id). split.
  - eexists. split; [unfold serialize; cbn -[MarshalFixed u16]; by rewrite (proj2 (Z.eqb_neq _ _) Hne)|]. unfold deserialize. cbn -[MarshalFixed UnmarshalFixed u16]. by rewrite !fixed_random_roundtrip, !u16_small.
  - unfold generateInternalState. cbn [ps_CipherSuiteID]. rewrite (proj2 (Z.eqb_neq _ _) Hne). unfold InitCipherSuite in *.
    cbn in Hinit |- *. rewrite Hid. rewrite Hcs in Hinit. cbn in Hinit |- *.
    destruct (if st_IsClient s then _ else _) as [p| |] eqn:E in Hinit; cbn in Hinit; [|done..]. injection Hinit as Hs. rewrite E. cbn.
    eexists. split; [reflexivity|]. split_and!; cbn; [|by rewrite <- Hs|done].
    unfold generateState. cbn. rewrite (sequence_numbers_idx _ _ (idx_nonneg _ _ _ Hn)). done.
Qed.

Lemma known_hash s x : initializedCipherSuite s = Ok x → hash_ok (CipherSuite.HashFunc x.1).
Proof.
  unfold initializedCipherSuite, cipherSuiteForID, CipherSuite.ForID. intros E.
  destruct (if ps_CipherSuiteID s =? _ then _ else _) as [cs|] eqn:F; [|done]. apply bind_Ok_inv in E as (p & _ & [= <-]). cbn [fst].
  repeat match type of F with (if ?a =? ?b then _ else _) = _ => destruct (a =? b); [injection F as <-; cbn; first [apply Sha2.sha256_ok|apply Sha2.sha384_ok]|] end. done.
Qed.

(** both ends export the same keying material.  When a client and a server
    have the same suite, master secret and randoms, for every label that is not
    reserved and every length they export the same bytes, as many as asked for. *)
Theorem exported_keys_agree (c s : PublicState) (label : gostring) (n : Z) : ps_isClient c = true → ps_isClient s = false →
  ps_localEpoch c ≠ 0 → ps_localEpoch s ≠ 0 → ps_masterSecret c = ps_masterSecret s → ps_CipherSuiteID c = ps_CipherSuiteID s →
  ps_localRandom c = ps_remoteRandom s → ps_remoteRandom c = ps_localRandom s → label ∉ invalidKeyingLabels → 0 ≤ n →
  (∃ x, initializedCipherSuite c = Ok x) → (∃ x, initializedCipherSuite s = Ok x) →
  ∃ key, len key = n ∧ ExportKeyingMaterial c label [] n = Ok key ∧ ExportKeyingMaterial s label [] n = Ok key.
Proof.
  intros Hc Hs He He' Hm Hid Hl Hr Hlabel Hn [[cs p] Ec] [[cs' p'] Es]. unfold ExportKeyingMaterial. rewrite (proj2 (Z.eqb_neq _ _) He), (proj2 (Z.eqb_neq _ _) He').
  assert (existsb (λ l, bool_decide (l = label)) invalidKeyingLabels = false) as ->.
  { apply not_true_iff_false. intros (l & Hin & ->%bool_decide_eq_true)%existsb_exists. by apply Hlabel, list_elem_of_In. }
  rewrite Ec, Es, Hc, Hs, Hm, Hl, Hr. cbn [len length negb Z.eqb Z.of_nat mbind res_bind].
  assert (cs = cs') as <-.
  { unfold initializedCipherSuite in Ec, Es. rewrite Hid in Ec. destruct (cipherSuiteForID _); [|done].
    apply bind_Ok_inv in Ec as (? & _ & [= <- _]). by apply bind_Ok_inv in Es as (? & _ & [= <- _]). }
  assert (hash_ok (CipherSuite.HashFunc cs)) as Hh by exact (known_hash _ _ Es).
  destruct (Prf.PHash_Ok (CipherSuite.HashFunc cs) (ps_masterSecret s) ((label ++ MarshalFixed (ps_remoteRandom s)) ++ MarshalFixed (ps_localRandom s)) n Hh Hn) as (key & Hk & Hlen).
  by exists key.
Qed.

End state.

(** *** An example *)

Definition demo_suite : CipherSuite.CipherSuite := CipherSuite.TLSPskWithAes128GcmSha256.
Definition demo_random : Random := MkRandom 1700000000 (zeros 28).
Definition demo (isClient : bool) (p : CipherSuite.Protection) : State :=
  (new_state isClient) <| st_LocalRandom := demo_random |> <| st_RemoteRandom := demo_random |> <| st_MasterSecret := [1] |> <| st_CipherSuite := Some demo_suite |> <| st_LocalEpoch := 1 |> <| st_RemoteEpoch := 1 |>
    <| st_LocalSequenceNumber := [4; 7] |> <| st_Protection := Some p |>.
Definition demo_public (isClient : bool) : PublicState :=
  MkPublicState 1 1 demo_random demo_random [1] 7 0 None None isClient 0xa8 [] None [] [].

Lemma demo_init (isClient : bool) : ∃ p, CipherSuite.Init demo_suite [1] (MarshalFixed demo_random) (MarshalFixed demo_random) isClient = Ok p.
Proof.
  destruct (CipherSuite.suites12_init demo_suite [1] (MarshalFixed demo_random) (MarshalFixed demo_random)) as (c & s & Hc & Hs & _);
    [by apply elem_of_cons; right; apply elem_of_cons; left|]. destruct isClient; [exists c; exact Hc|exists s; exact Hs].
Qed.

Lemma exported_state_resumes_witness : ∃ p, InitCipherSuite ((demo true p) <| st_Protection := None |>) = Ok (demo true p) ∧
  generateState (demo true p) = Ok (demo_public true) ∧
  ∃ s', generateInternalState (demo_public true) = Ok s' ∧ generateState s' = Ok (demo_public true) ∧ st_Protection s' = Some p.
Proof.
  destruct (demo_init true) as [p Hp]. exists p.
  assert (InitCipherSuite ((demo true p) <| st_Protection := None |>) = Ok (demo true p)) as Hi.
  { change ((q ← CipherSuite.Init demo_suite [1] (MarshalFixed demo_random) (MarshalFixed demo_random) true; Ok (demo true q)) = Ok (demo true p)). by rewrite Hp. }
  split; [exact Hi|]. split; [reflexivity|].
  destruct (exported_state_resumes (demo true p) demo_suite (demo_public true) eq_refl eq_refl Hi) as (_ & s' & Hs & Hg & Hpr & _); [split; cbn; lia..|reflexivity|].
  exists s'. split_and!; [exact Hs|exact Hg|exact Hpr].
Defined.

Lemma exported_keys_agree_witness :
  ∃ key, len key = 20 ∧ ExportKeyingMaterial (demo_public true) (gs "EXTRACTOR-dtls_srtp") [] 20 = Ok key ∧
    ExportKeyingMaterial (demo_public false) (gs "EXTRACTOR-dtls_srtp") [] 20 = Ok key.
Proof.
  assert (∀ b, ∃ x, initializedCipherSuite (demo_public b) = Ok x) as Hi.
  { intros b. destruct (demo_init b) as [p Hp]. exists (demo_suite, p). unfold initializedCipherSuite. cbn -[CipherSuite.Init MarshalFixed].
    change (CipherSuite.TLSPskWithAes128GcmSha256) with demo_suite. destruct b; by rewrite Hp. }
  apply (exported_keys_agree (demo_public true) (demo_public false) (gs "EXTRACTOR-dtls_srtp") 20); [done..| |lia|apply Hi|apply Hi].
  by apply (bool_decide_unpack _); vm_compute.
Defined.

End ExportState.
