(* ===== verification/FlightCache.v ===== *)
(** * The handshake cache (src/dtls/internal/flight/cache.go)

    Both sides keep every handshake message they send or receive.  The flights
    pull the messages they wait for with [FullPullMap], and compute the
    transcript of the handshake with [PullAndMerge] and [SessionHash].  Parsing a
    cached message may panic (see [handshake_parser_panics]), so pulling may. *)
From stdpp Require Import base tactics numbers list gmap.
From Stdlib Require Import ZArith Lia.
From S2P Require Import Prelude Sha2 Wire SignatureHash Record Fragment Handshake CipherSuite.
Import Handshake HandshakeHeader.
Open Scope Z_scope.

Module Flight.

Record HandshakeCacheItem := MkItem {
  it_Typ : Z;
  it_IsClient : bool;
  it_Epoch : Z;
  it_MessageSequence : Z;
  it_Data : bytes
}.

#[global] Instance item_eq_dec : EqDecision HandshakeCacheItem.
Proof. solve_decision. Defined.

Record HandshakeCachePullRule := MkRule { ru_Typ : Z; ru_Epoch : Z; ru_IsClient : bool; ru_Optional : bool }.

Abbreviation Cache := (list HandshakeCacheItem).

Definition Push (h : Cache) (data : bytes) (epoch messageSequence typ : Z) (isClient : bool) : Cache :=
  h ++ [MkItem typ isClient epoch messageSequence data].

Definition cacheItemMatchesRule (item : HandshakeCacheItem) (rule : HandshakeCachePullRule) : bool :=
  (it_Typ item =? ru_Typ rule) && bool_decide (it_IsClient item = ru_IsClient rule) && (it_Epoch item =? ru_Epoch rule).

(** One round of the loop over the cache; the loop of [Pull] has the same body. *)
Definition last_step (rule : HandshakeCachePullRule) (last : option HandshakeCacheItem) (c : HandshakeCacheItem) : option HandshakeCacheItem :=
  if negb (cacheItemMatchesRule c rule) then last else
  match last with
  | None => Some c
  | Some l => if it_MessageSequence l <? it_MessageSequence c then Some c else last
  end.

Definition lastCacheItemForRule (h : Cache) (rule : HandshakeCachePullRule) : option HandshakeCacheItem :=
  foldl (last_step rule) None h.

Definition Pull (h : Cache) (rules : list HandshakeCachePullRule) : list (option HandshakeCacheItem) :=
  map (lastCacheItemForRule h) rules.

Fixpoint pullLastCacheItems (h : Cache) (rules : list HandshakeCachePullRule) : option (list (option HandshakeCacheItem)) :=
  match rules with
  | [] => Some []
  | rule :: rules =>
      match lastCacheItemForRule h rule with
      | None => if negb (ru_Optional rule) then None else cons None <$> pullLastCacheItems h rules
      | Some item => cons (Some item) <$> pullLastCacheItems h rules
      end
  end.

Definition keyExchangeAlgorithmForCipherSuite (cipherSuite : option CipherSuite.CipherSuite) : Z :=
  match cipherSuite with Some c => CipherSuite.KeyExchangeAlgorithm c | None => 0 end.

(** The messages by type, and the items. *)
Definition pulled : Type := gmap Z Message * list HandshakeCacheItem.

(** The loop over the rules; a message that cannot be parsed ends it like a gap
    in the sequence. *)
Fixpoint pull_loop `{Cryptobyte} (kx : Z) (rules : list (HandshakeCachePullRule * option HandshakeCacheItem)) (seq : Z) (acc : pulled)
    : res Empty_set (option (Z * pulled)) :=
  match rules with
  | [] => Ok (Some (seq, acc))
  | (r, None) :: rules => pull_loop kx rules seq acc
  | (r, Some item) :: rules =>
      match Handshake_Unmarshal kx (it_Data item) with
      | Ok (header, message) =>
          if negb (u16 seq =? MessageSequence header) then Ok None else
          pull_loop kx rules (seq + 1) (<[ru_Typ r := message]> acc.1, acc.2 ++ [item])
      | Err _ => Ok None
      | Panic => Panic
      end
  end.

Definition fullPullMapCacheItems `{Cryptobyte} (startSeq : Z) (cipherSuite : option CipherSuite.CipherSuite)
    (rules : list HandshakeCachePullRule) (ci : list (option HandshakeCacheItem)) : res Empty_set (option (Z * pulled)) :=
  o ← pull_loop (keyExchangeAlgorithmForCipherSuite cipherSuite) (zip rules ci) startSeq (∅, []);
  match o with
  | Some (seq, (out, items)) => if len items =? 0 then Ok None else Ok (Some (seq, (out, items)))
  | None => Ok None
  end.

Definition FullPullMapItems `{Cryptobyte} (h : Cache) (startSeq : Z) (cipherSuite : option CipherSuite.CipherSuite)
    (rules : list HandshakeCachePullRule) : res Empty_set (option (Z * pulled)) :=
  match pullLastCacheItems h rules with
  | None => Ok None
  | Some ci => fullPullMapCacheItems startSeq cipherSuite rules ci
  end.

(** [None] is the result false. *)
Definition FullPullMap `{Cryptobyte} (h : Cache) (startSeq : Z) (cipherSuite : option CipherSuite.CipherSuite)
    (rules : list HandshakeCachePullRule) : res Empty_set (option (Z * gmap Z Message)) :=
  o ← FullPullMapItems h startSeq cipherSuite rules;
  match o with
  | Some (seq, (out, _)) => Ok (Some (seq, out))
  | None => Ok None
  end.

Definition merge (items : list (option HandshakeCacheItem)) : bytes :=
  concat (map (λ o, match o with Some p => it_Data p | None => [] end) items).

Definition PullAndMerge (h : Cache) (rules : list HandshakeCachePullRule) : bytes := merge (Pull h rules).

(** The messages of the session hash, in the order of RFC 5246. *)
Definition session_rules (epoch : Z) : list HandshakeCachePullRule :=
  [MkRule TypeClientHello epoch true false; MkRule TypeServerHello epoch false false;
   MkRule TypeCertificate epoch false false; MkRule TypeServerKeyExchange epoch false false;
   MkRule TypeCertificateRequest epoch false false; MkRule TypeServerHelloDone epoch false false;
   MkRule TypeCertificate epoch true false; MkRule TypeClientKeyExchange epoch true false].

Definition SessionHash (h : Cache) (hf : Hash) (epoch : Z) (additional : list bytes) : bytes :=
  h_sum hf (merge (Pull h (session_rules epoch)) ++ concat additional).

(** ** Lemmas *)

(** The result of the loop: [best rule h o] says that [o] is the first of the
    matching items with the greatest sequence number. *)
Definition best (rule : HandshakeCachePullRule) (h : Cache) (o : option HandshakeCacheItem) : Prop :=
  match o with
  | None => ∀ x, x ∈ h → cacheItemMatchesRule x rule = false
  | Some i => i ∈ h ∧ cacheItemMatchesRule i rule = true ∧
      ∀ x, x ∈ h → cacheItemMatchesRule x rule = true → it_MessageSequence x ≤ it_MessageSequence i
  end.

Lemma last_best h rule : best rule h (lastCacheItemForRule h rule).
Proof.
  unfold lastCacheItemForRule. induction h as [|c h IH] using rev_ind; [by intros x ?%elem_of_nil|].
  rewrite foldl_app. cbn [foldl]. unfold last_step at 1. destruct (cacheItemMatchesRule c rule) eqn:Em; cbn [negb].
  - destruct (foldl (last_step rule) None h) as [l|].
    + destruct IH as (Hin & Hm & Hmax). destruct (Z.ltb_spec (it_MessageSequence l) (it_MessageSequence c)) as [Hlt|Hge].
      * split; [apply elem_of_app; right; by apply list_elem_of_singleton|]. split; [done|].
        intros x [Hx|Hx%list_elem_of_singleton]%elem_of_app Hmx; [specialize (Hmax x Hx Hmx); lia|by subst].
      * split; [apply elem_of_app; by left|]. split; [done|].
        intros x [Hx|Hx%list_elem_of_singleton]%elem_of_app Hmx; [by apply Hmax|by subst].
    + split; [apply elem_of_app; right; by apply list_elem_of_singleton|]. split; [done|].
      intros x [Hx|Hx%list_elem_of_singleton]%elem_of_app Hmx; [by rewrite IH in Hmx|by subst].
  - destruct (foldl (last_step rule) None h) as [l|].
    + destruct IH as (Hin & Hm & Hmax). split; [apply elem_of_app; by left|]. split; [done|].
      intros x [Hx|Hx%list_elem_of_singleton]%elem_of_app Hmx; [by apply Hmax|subst; congruence].
    + intros x [Hx|Hx%list_elem_of_singleton]%elem_of_app; [by apply IH|by subst].
Qed.

(** Messages of one kind with one sequence number are the same message: what is
    sent again is what was sent. *)
Definition consistent (h : Cache) : Prop := ∀ x y, x ∈ h → y ∈ h →
  it_Typ x = it_Typ y → it_IsClient x = it_IsClient y → it_Epoch x = it_Epoch y → it_MessageSequence x = it_MessageSequence y → x = y.

Lemma matches_kind x y rule : cacheItemMatchesRule x rule = true → cacheItemMatchesRule y rule = true →
  it_Typ x = it_Typ y ∧ it_IsClient x = it_IsClient y ∧ it_Epoch x = it_Epoch y.
Proof.
  unfold cacheItemMatchesRule. rewrite !andb_true_iff, !Z.eqb_eq, !bool_decide_eq_true.
  intros [[-> ->] ->] [[-> ->] ->]. done.
Qed.

Lemma best_unique rule h h' o o' : (∀ x, x ∈ h ↔ x ∈ h') → consistent h → best rule h o → best rule h' o' → o = o'.
Proof.
  intros Hh Hc. destruct o as [i|], o' as [j|]; cbn [best].
  - intros (Hi & Hmi & Hmaxi) (Hj & Hmj & Hmaxj). apply Hh in Hj. f_equal.
    destruct (matches_kind i j rule Hmi Hmj) as (? & ? & ?). apply (Hc i j); try done.
    specialize (Hmaxi j Hj Hmj). apply Hh in Hi. specialize (Hmaxj i Hi Hmi). lia.
  - intros (Hi & Hmi & _) Hn. apply Hh in Hi. rewrite (Hn i Hi) in Hmi. done.
  - intros Hn (Hj & Hmj & _). apply Hh in Hj. by rewrite (Hn j Hj) in Hmj.
  - done.
Qed.

Lemma Pull_set h h' rules : (∀ x, x ∈ h ↔ x ∈ h') → consistent h → Pull h rules = Pull h' rules.
Proof.
  intros Hh Hc. unfold Pull. apply map_ext. intros rule. eapply best_unique; [done..|apply last_best|apply last_best].
Qed.

(** *** FullPullMap *)

Lemma pullLast_spec h rules ci : pullLastCacheItems h rules = Some ci →
  ci = Pull h rules ∧ Forall2 (λ r o, ru_Optional r = false → o ≠ None) rules ci.
Proof.
  revert ci. induction rules as [|r rules IH]; intros ci; cbn; [intros [= <-]; by split|].
  destruct (lastCacheItemForRule h r) as [i|].
  - intros (ci' & Hci & ->)%fmap_Some. destruct (IH _ Hci) as [-> Hall]. split; [done|]. by constructor.
  - destruct (ru_Optional r) eqn:Eo; cbn [negb]; [|done]. intros (ci' & Hci & ->)%fmap_Some.
    destruct (IH _ Hci) as [-> Hall]. split; [done|]. constructor; [|done]. congruence.
Qed.

(** What one item contributes: its message parsed at its place in the sequence. *)
Definition parsed `{Cryptobyte} (kx seq : Z) (item : HandshakeCacheItem) (m : Message) : Prop :=
  ∃ header, Handshake_Unmarshal kx (it_Data item) = Ok (header, m) ∧ MessageSequence header = u16 seq.

(** The rules with an item, in order, numbered from [seq]; [out] has their messages. *)
Inductive pulled_as `{Cryptobyte} (kx : Z) : list (HandshakeCachePullRule * option HandshakeCacheItem) → Z → Z →
    gmap Z Message → gmap Z Message → list HandshakeCacheItem → Prop :=
  | pulled_nil seq out : pulled_as kx [] seq seq out out []
  | pulled_none r rules seq seq' out out' items : pulled_as kx rules seq seq' out out' items →
      pulled_as kx ((r, None) :: rules) seq seq' out out' items
  | pulled_some r i m rules seq seq' out out' items : parsed kx seq i m →
      pulled_as kx rules (seq + 1) seq' (<[ru_Typ r := m]> out) out' items →
      pulled_as kx ((r, Some i) :: rules) seq seq' out out' (i :: items).

Lemma pull_loop_spec `{Cryptobyte} kx rules seq out items seq' out' items' :
  pull_loop kx rules seq (out, items) = Ok (Some (seq', (out', items'))) ↔
  ∃ new, items' = items ++ new ∧ pulled_as kx rules seq seq' out out' new.
Proof.
  revert seq out items. induction rules as [|[r [i|]] rules IH]; intros seq out items; cbn [pull_loop].
  - split; [intros [= <- <- <-]; exists []; rewrite app_nil_r; by split; [|constructor]|].
    intros (new & -> & Hp). inversion Hp; subst. by rewrite app_nil_r.
  - destruct (Handshake_Unmarshal kx (it_Data i)) as [[hd m]|e|] eqn:Eu.
    + destruct (Z.eqb_spec (u16 seq) (MessageSequence hd)) as [Es|Es]; cbn [negb].
      * cbn [fst snd]. rewrite IH. split.
        { intros (new & -> & Hp). exists (i :: new). rewrite <- (assoc_L (++)). split; [done|]. econstructor; [by exists hd|done]. }
        { intros (new & -> & Hp). inversion Hp as [| |? ? m' ? ? ? ? ? new' (hd' & Hu & _) Hp']; subst.
          rewrite Eu in Hu. injection Hu as <- <-. exists new'. rewrite <- (assoc_L (++)). by split. }
      * split; [done|]. intros (new & -> & Hp). inversion Hp as [| |? ? ? ? ? ? ? ? ? (hd' & Hu & ?) _]; subst. congruence.
    + split; [done|]. intros (new & -> & Hp). inversion Hp as [| |? ? ? ? ? ? ? ? ? (hd' & Hu & ?) _]; subst. congruence.
    + split; [done|]. intros (new & -> & Hp). inversion Hp as [| |? ? ? ? ? ? ? ? ? (hd' & Hu & ?) _]; subst. congruence.
  - rewrite IH. split; intros (new & -> & Hp); exists new; (split; [done|]); [by constructor|by inversion Hp].
Qed.

Lemma pulled_count `{Cryptobyte} kx rules seq seq' out out' items : pulled_as kx rules seq seq' out out' items → seq' = seq + len items.
Proof. induction 1; rewrite ?len_nil, ?len_cons; lia. Qed.

Lemma FullPullMapItems_iff `{Cryptobyte} h startSeq cs rules seq out items :
  let kx := keyExchangeAlgorithmForCipherSuite cs in
  FullPullMapItems h startSeq cs rules = Ok (Some (seq, (out, items))) ↔
  Forall (λ r, ru_Optional r = false → lastCacheItemForRule h r ≠ None) rules ∧ items ≠ [] ∧ seq = startSeq + len items ∧
  pulled_as kx (zip rules (Pull h rules)) startSeq seq ∅ out items.
Proof.
  cbv zeta. unfold FullPullMapItems. split.
  - destruct (pullLastCacheItems h rules) as [ci|] eqn:Ep; [|done]. destruct (pullLast_spec _ _ _ Ep) as [-> Hall].
    unfold fullPullMapCacheItems. destruct (pull_loop _ _ _ _) as [[[s [o i]]|]|e|] eqn:El; cbn [mbind res_bind]; try done.
    destruct (Z.eqb_spec (len i) 0) as [|Hne]; [done|]. intros [= -> -> ->].
    apply pull_loop_spec in El as (new & -> & Hp). cbn [app] in *. split_and!; [|by intros ->|by apply pulled_count in Hp|done].
    clear -Hall. induction rules as [|r rules IH]; [done|]. cbn in Hall. apply Forall2_cons in Hall as [Hr Hall]. constructor; [done|by apply IH].
  - intros (Hall & Hne & -> & Hp).
    assert (pullLastCacheItems h rules = Some (Pull h rules)) as ->.
    { clear Hp Hne. induction Hall as [|r rules Hr Hall IH]; [done|]. cbn. rewrite IH.
      destruct (lastCacheItemForRule h r); [done|]. destruct (ru_Optional r); [done|]. by specialize (Hr eq_refl). }
    unfold fullPullMapCacheItems. rewrite (proj2 (pull_loop_spec _ _ _ ∅ [] _ out items)) by (exists items; by split).
    cbn [mbind res_bind]. destruct (Z.eqb_spec (len items) 0) as [E|]; [|done]. by apply len_zero_nil in E.
Qed.

(** Where the messages of the result come from: each is the message of an item
    of the cache that matches a rule of its type. *)
Lemma pulled_as_lookup `{Cryptobyte} kx rules seq seq' out out' items t m : pulled_as kx rules seq seq' out out' items →
  out' !! t = Some m → out !! t = Some m ∨ ∃ r i seq0, (r, Some i) ∈ rules ∧ ru_Typ r = t ∧ parsed kx seq0 i m.
Proof.
  induction 1 as [|r rules seq seq' out out' items _ IH|r i m' rules seq seq' out out' items Hp _ IH]; intros Ht; [by left| |].
  - destruct (IH Ht) as [?|(r' & i & s0 & Hin & ?)]; [by left|]. right. exists r', i, s0. split; [by apply elem_of_cons; right|done].
  - destruct (IH Ht) as [Hl|(r' & i' & s0 & Hin & ?)].
    + destruct (decide (ru_Typ r = t)) as [<-|Hne].
      * rewrite lookup_insert in Hl. destruct (decide _); [|done]. injection Hl as ->. right. exists r, i, seq. split; [by apply elem_of_cons; left|done].
      * rewrite lookup_insert_ne in Hl by done. by left.
    + right. exists r', i', s0. split; [by apply elem_of_cons; right|done].
Qed.

Lemma pulled_as_mandatory `{Cryptobyte} kx rules seq seq' out out' items t : pulled_as kx rules seq seq' out out' items →
  (∃ r i, (r, Some i) ∈ rules ∧ ru_Typ r = t) ∨ out !! t ≠ None → out' !! t ≠ None.
Proof.
  induction 1 as [|r rules seq seq' out out' items _ IH|r i m' rules seq seq' out out' items Hp _ IH]; intros [(r' & i' & Hi & Ht)|Ho]; try done.
  - by apply elem_of_nil in Hi.
  - apply IH. apply elem_of_cons in Hi as [[=]|Hi]. by left; exists r', i'.
  - apply IH. by right.
  - apply IH. apply elem_of_cons in Hi as [[= -> ->]|Hi]; [|by left; exists r', i']. right. rewrite <- Ht. by rewrite lookup_insert, decide_True.
  - apply IH. right. destruct (decide (ru_Typ r = t)) as [->|]; [by rewrite lookup_insert, decide_True|by rewrite lookup_insert_ne].
Qed.

Lemma FullPullMap_lookup `{Cryptobyte} h startSeq cs rules seq msgs t m : FullPullMap h startSeq cs rules = Ok (Some (seq, msgs)) →
  msgs !! t = Some m → ∃ r i seq0, r ∈ rules ∧ ru_Typ r = t ∧ i ∈ h ∧ cacheItemMatchesRule i r = true ∧
    parsed (keyExchangeAlgorithmForCipherSuite cs) seq0 i m.
Proof.
  unfold FullPullMap. destruct (FullPullMapItems h startSeq cs rules) as [[[s [o items]]|]| |] eqn:E; try done. intros [= -> ->] Ht.
  apply FullPullMapItems_iff in E as (_ & _ & _ & Hp). destruct (pulled_as_lookup _ _ _ _ _ _ _ _ _ Hp Ht) as [Hl|(r & i & s0 & Hin & Ht' & Hpa)].
  { by rewrite lookup_empty in Hl. }
  exists r, i, s0. unfold Pull in Hin. apply list_elem_of_lookup in Hin as [k Hk].
  apply lookup_zip_Some in Hk as [Hk1 Hk2]. rewrite list_lookup_fmap, Hk1 in Hk2. injection Hk2 as Hk2.
  pose proof (last_best h r) as Hb. rewrite Hk2 in Hb. destruct Hb as (Hin & Hm & _).
  split_and!; [by eapply list_elem_of_lookup_2|done..].
Qed.

(** ** Properties *)

(** the transcript of a handshake does not depend on the order in which
    messages arrive or on retransmissions: two caches with the same items, in any
    order and number, give the same items for all rules, and hence the same
    merged transcript and session hash, provided what is sent again is the same. *)
Theorem transcript_order_independent h h' rules hf epoch additional :
  (∀ x, x ∈ h ↔ x ∈ h') → consistent h →
  Pull h rules = Pull h' rules ∧ PullAndMerge h rules = PullAndMerge h' rules ∧
  SessionHash h hf epoch additional = SessionHash h' hf epoch additional.
Proof.
  intros Hh Hc. unfold PullAndMerge, SessionHash. by rewrite !(Pull_set h h') by done.
Qed.

Lemma transcript_order_independent_witness :
  let a := MkItem 1 true 0 0 [1] in let b := MkItem 1 true 0 1 [2] in
  PullAndMerge [a; b] [MkRule 1 0 true false] = PullAndMerge [b; a; b] [MkRule 1 0 true false] ∧
  PullAndMerge [a; b] [MkRule 1 0 true false] = [2].
Proof.
  cbv zeta. split; [|reflexivity].
  refine (proj1 (proj2 (transcript_order_independent _ _ _ Sha2.sha256 0 [] _ _))).
  - intros x. rewrite !elem_of_cons, elem_of_nil. tauto.
  - intros x y. rewrite !elem_of_cons, !elem_of_nil. intros [->|[->|[]]] [->|[->|[]]]; cbn; (reflexivity || discriminate).
Defined.

(** [FullPullMap] succeeds exactly when every rule that is not optional has a
    message, some rule has one, and the last messages of the rules that have one
    parse and carry consecutive sequence numbers from the given one; it then
    returns the next sequence number and these messages. *)
Theorem FullPullMapItems_spec `{Cryptobyte} h startSeq cs rules seq out items :
  let kx := keyExchangeAlgorithmForCipherSuite cs in
  FullPullMapItems h startSeq cs rules = Ok (Some (seq, (out, items))) ↔
  Forall (λ r, ru_Optional r = false → lastCacheItemForRule h r ≠ None) rules ∧ items ≠ [] ∧ seq = startSeq + len items ∧
  pulled_as kx (zip rules (Pull h rules)) startSeq seq ∅ out items.
Proof. apply FullPullMapItems_iff. Qed.

End Flight.
