(* ===== verification/Flight12.v ===== *)
(** * The flights of a DTLS 1.2 handshake (src/dtls/internal/flight/flight12)

    Every flight has a parser, which looks at the messages received and decides
    the next flight, and a generator, which makes the packets to send.  They are
    programs in a monad over the state of the handshake, the cache of messages,
    the world of the callbacks and the key log, with the early returns of the
    code; a nil dereference or an index out of range is a crash. *)
From stdpp Require Import base tactics numbers list strings gmap.
From Stdlib Require Import ZArith Lia.
From S2P Require Import Prelude Sha2 Wire SignatureHash HandshakeCrypto Prf Record CipherSuite Extensions Fragment Handshake HandshakeState FlightCache.
Import Protocol SignatureHash Extension Handshake HandshakeHeader State Config HandshakeCrypto Flight Selection.
Open Scope Z_scope.

(** ** Alerts (src/dtls/pkg/protocol/alert) *)

Module AlertDescription.
Definition Warning : Z := 1.
Definition Fatal : Z := 2.
Definition CloseNotify : Z := 0.
Definition UnexpectedMessage : Z := 10.
Definition HandshakeFailure : Z := 40.
Definition NoCertificate : Z := 41.
Definition BadCertificate : Z := 42.
Definition IllegalParameter : Z := 47.
Definition AccessDenied : Z := 49.
Definition DecodeError : Z := 50.
Definition ProtocolVersion : Z := 70.
Definition InsufficientSecurity : Z := 71.
Definition InternalError : Z := 80.
Definition NoApplicationProtocol : Z := 120.
End AlertDescription.

Module Flight12.
Import AlertDescription.

(** 0 is no flight. *)
Inductive flight := Flight0 | Flight1 | Flight2 | Flight3 | Flight4 | Flight4b | Flight5 | Flight5b | Flight6.

#[global] Instance flight_eq_dec : EqDecision flight.
Proof. solve_decision. Defined.

Definition IsLastSendFlight (f : flight) : bool := bool_decide (f = Flight6) || bool_decide (f = Flight5b).
Definition IsLastRecvFlight (f : flight) : bool := bool_decide (f = Flight5) || bool_decide (f = Flight4b).

Definition keyLogLabelTLS12 : gostring := gs "CLIENT_RANDOM".
Definition cookieLength : Z := 20.
Definition sessionLength : Z := 32.
Definition renegotiationInfoSCSV : Z := 0x00ff.
Definition CurveTypeNamedCurve : Z := 3.
Definition CurvePointFormatUncompressed : Z := 0.

(** A packet: the header of its record and the content. *)
Inductive Content :=
  | HandshakeContent (header : Header) (message : option Message)
  | ChangeCipherSpecContent
  | AlertContent (a : Alert)
  | ApplicationDataContent (data : bytes).

Record Packet := MkPacket {
  pk_Header : RecordHeader.Header;
  pk_Content : Content;
  pk_ShouldEncrypt : bool;
  pk_ShouldWrapCID : bool;
  pk_ResetLocalSequenceNumber : bool
}.

Definition zero_header : Header := MkHeader 0 0 0 0 0.

(** The header of a record with version 1.2. *)
Definition record_header (epoch : Z) : RecordHeader.Header := RecordHeader.MkHeader 0 0 Version1_2 epoch 0 [].

(** A packet in the clear with a message, and the Finished message. *)
Definition plain (m : option Message) : Packet := MkPacket (record_header 0) (HandshakeContent zero_header m) false false false.
Definition change_cipher_spec : Packet := MkPacket (record_header 0) ChangeCipherSpecContent false false false.
Definition finished_packet (verifyData : bytes) (wrapCID : bool) : Packet :=
  MkPacket (record_header 1) (HandshakeContent zero_header (Some (Finished verifyData))) true wrapCID true.

Definition fatal (d : Z) : Alert := MkAlert Fatal d.

(** What a parser returns: the next flight, an alert and an error. *)
Definition presult : Type := option flight * option Alert * option dtls_error.
Definition keep_reading : presult := (None, None, None).
Definition next (f : flight) : presult := (Some f, None, None).
Definition fails (d : Z) (e : dtls_error) : presult := (None, Some (fatal d), Some e).
Definition alert_only (d : Z) : presult := (None, Some (fatal d), None).

(** What a generator returns. *)
Definition gresult : Type := list Packet * option Alert * option dtls_error.
Definition packets (ps : list Packet) : gresult := (ps, None, None).
Definition gfails (d : Z) (e : dtls_error) : gresult := ([], Some (fatal d), Some e).
Definition gerror (e : dtls_error) : gresult := ([], None, Some e).

Section flights.
Context `{Cryptobyte} `{Ciphers} `{KeyExchange.KeyAgreement} `{PKI} `{Unicode} {W : Type} `{World W}.

(** ** The monad *)

Record hs := MkHs {
  h_state : State;
  h_cache : Cache;
  h_world : W;
  h_keylog : list (gostring * bytes * bytes)
}.

Inductive out (R A : Type) := Val (a : A) | Ret (r : R) | Crash.
#[global] Arguments Val {R A} a.
#[global] Arguments Ret {R A} r.
#[global] Arguments Crash {R A}.

Definition M (R A : Type) : Type := hs → out R A * hs.

#[global] Instance M_bind (R : Type) : MBind (M R) := λ A B k m s,
  match m s with
  | (Val a, s') => k a s'
  | (Ret r, s') => (Ret r, s')
  | (Crash, s') => (Crash, s')
  end.

Definition val {R A} (a : A) : M R A := λ s, (Val a, s).
Definition ret {R A} (r : R) : M R A := λ s, (Ret r, s).
Definition crash {R A} : M R A := λ s, (Crash, s).
Definition gets {R A} (f : State → A) : M R A := λ s, (Val (f (h_state s)), s).
Definition modify {R} (f : State → State) : M R unit := λ s,
  (Val tt, MkHs (f (h_state s)) (h_cache s) (h_world s) (h_keylog s)).

(** A call that may fail: [onerr] is what the code returns then. *)
Definition lift {R A} (m : res dtls_error A) (onerr : dtls_error → R) : M R A := λ s,
  match m with
  | Ok a => (Val a, s)
  | Err e => (Ret (onerr e), s)
  | Panic => (Crash, s)
  end.

Definition act {R A} (a : action (W := W) A) (onerr : dtls_error → R) : M R A := λ s,
  let '(r, w) := a (h_world s) in lift r onerr (MkHs (h_state s) (h_cache s) w (h_keylog s)).

Definition with_world {R A} (f : W → A * W) : M R A := λ s,
  let '(a, w) := f (h_world s) in (Val a, MkHs (h_state s) (h_cache s) w (h_keylog s)).

(** A function with results of its own kind: [onret] turns them into those of
    the caller. *)
Definition within {R R' A} (m : M R A) (onret : R → R') : M R' A := λ s,
  match m s with
  | (Val a, s') => (Val a, s')
  | (Ret r, s') => (Ret (onret r), s')
  | (Crash, s') => (Crash, s')
  end.

Fixpoint for_each {R A} (l : list A) (f : A → M R unit) : M R unit :=
  match l with
  | [] => val tt
  | a :: l => _ ← f a; for_each l f
  end.

(** Fields that the code dereferences. *)
Definition deref {R A} (f : State → option A) : M R A := λ s,
  match f (h_state s) with
  | Some a => (Val a, s)
  | None => (Crash, s)
  end.

Definition pull {R} (startSeq : Z) (rules : list HandshakeCachePullRule) : M R (option (Z * gmap Z Message)) := λ s,
  match FullPullMap (h_cache s) startSeq (st_CipherSuite (h_state s)) rules with
  | Ok o => (Val o, s)
  | Err e => match e with end
  | Panic => (Crash, s)
  end.

Definition merged {R} (rules : list HandshakeCachePullRule) : M R bytes := λ s, (Val (PullAndMerge (h_cache s) rules), s).

Definition get_cache {R} : M R Cache := λ s, (Val (h_cache s), s).

(** The connection as the flights see it: decrypting the packets that were
    queued changes the state and the cache. *)
Record Conn := MkConn {
  HandleQueuedPackets : hs → res dtls_error unit * hs;
  SessionKey : hs → bytes
}.

Definition session_key {R} (c : Conn) : M R bytes := λ s, (Val (SessionKey c s), s).

Definition handle_queued {R} (c : Conn) (onerr : dtls_error → R) : M R unit := λ s,
  let '(r, s') := HandleQueuedPackets c s in lift r onerr s'.

Definition WriteKeyLog {R} (cfg : HandshakeConfig W) (label : gostring) (clientRandom secret : bytes) : M R unit := λ s,
  (Val tt, if cf_KeyLogWriter cfg
           then MkHs (h_state s) (h_cache s) (h_world s) (h_keylog s ++ [(label, clientRandom, secret)]) else s).

(** state.LocalRandom.Populate() *)
Definition Populate {R} (onerr : dtls_error → R) : M R unit :=
  now ← with_world time_Now;
  tmp ← act (rand_Read RandomBytesLength) onerr;
  modify (λ s, s <| st_LocalRandom := MkRandom now tmp |>).

(** Rules in the clear and for the messages under the new keys. *)
Definition epoch0 (cfg : HandshakeConfig W) (typ : Z) (isClient optional : bool) : HandshakeCachePullRule :=
  MkRule typ (cf_InitialEpoch cfg) isClient optional.
Definition epoch1 (cfg : HandshakeConfig W) (typ : Z) (isClient optional : bool) : HandshakeCachePullRule :=
  MkRule typ (u16 (cf_InitialEpoch cfg + 1)) isClient optional.

Definition hello_rules (cfg : HandshakeConfig W) : list HandshakeCachePullRule :=
  [epoch0 cfg TypeClientHello true false; epoch0 cfg TypeServerHello false false].

(** The messages up to the client's key exchange. *)
Definition key_exchange_rules (cfg : HandshakeConfig W) : list HandshakeCachePullRule :=
  [epoch0 cfg TypeClientHello true false; epoch0 cfg TypeServerHello false false;
   epoch0 cfg TypeCertificate false false; epoch0 cfg TypeServerKeyExchange false false;
   epoch0 cfg TypeCertificateRequest false false; epoch0 cfg TypeServerHelloDone false false;
   epoch0 cfg TypeCertificate true false; epoch0 cfg TypeClientKeyExchange true false].

Definition full_rules (cfg : HandshakeConfig W) : list HandshakeCachePullRule :=
  key_exchange_rules cfg ++ [epoch0 cfg TypeCertificateVerify true false; epoch1 cfg TypeFinished true false].

Definition ems_offered (cfg : HandshakeConfig W) : bool :=
  bool_decide (cf_ExtendedMasterSecret cfg = RequestExtendedMasterSecret) || bool_decide (cf_ExtendedMasterSecret cfg = RequireExtendedMasterSecret).

(** ** Flight 0 *)

Definition flight0_extension (cfg : HandshakeConfig W) (ext : Extension) : M presult unit :=
  match ext with
  | SupportedEllipticCurves curves =>
      if len curves =? 0 then ret (fails InsufficientSecurity ErrNoSupportedEllipticCurves) else
      match selectDTLS12EllipticCurve (cf_EllipticCurves cfg) curves with
      | None => ret (fails InsufficientSecurity ErrNoSupportedEllipticCurves)
      | Some c => modify (λ s, s <| st_NamedCurve := c |>)
      end
  | UseSRTP profiles mki =>
      match FindMatchingSRTPProfile (cf_LocalSRTPProtectionProfiles cfg) profiles with
      | None => ret (fails InsufficientSecurity ErrServerNoMatchingSRTPProfile)
      | Some p => modify (λ s, s <| st_SRTPProtectionProfile := p |> <| st_RemoteSRTPMasterKeyIdentifier := mki |>)
      end
  | UseExtendedMasterSecret _ =>
      if bool_decide (cf_ExtendedMasterSecret cfg ≠ DisableExtendedMasterSecret)
      then modify (λ s, s <| st_ExtendedMasterSecret := true |>) else val tt
  | ServerName name => modify (λ s, s <| st_ServerName := name |>)
  | RenegotiationInfo _ => modify (λ s, s <| st_RemoteSupportsRenegotiation := true |>)
  | ALPN protocols => modify (λ s, s <| st_PeerSupportedProtocols := protocols |>)
  | ConnectionID cid =>
      match cf_ConnectionIDGenerator cfg with
      | Some _ => modify (λ s, s <| st_RemoteConnectionID := Some cid |>)
      | None => val tt
      end
  | SignatureAlgorithmsCert algs => modify (λ s, s <| st_RemoteCertSignatureSchemes := algs |>)
  | _ => val tt
  end.

(** The client's suites that exist and are for DTLS 1.2. *)
Definition remote_suites (cfg : HandshakeConfig W) (ids : list Z) : list CipherSuite.CipherSuite :=
  filter (λ c, CipherSuite.IDSupportsVersion (CipherSuite.ID c) Version1_2 = true)
    (omap (λ id, if id =? renegotiationInfoSCSV then None else CipherSuite.ForID id (cf_CustomCipherSuites cfg)) ids).

Definition choose_suite (o : option CipherSuite.CipherSuite) (s : State) : State :=
  s <| st_CipherSuite := o |> <| st_Protection := None |>.

Definition handleHelloResume (sessionID : bytes) (cfg : HandshakeConfig W) (nextFlight : flight) : M presult presult :=
  if (0 <? len sessionID) && cf_HasSessionStore cfg then
    session ← act (cf_GetSession cfg sessionID) (fails InternalError);
    match session with
    | (Some _, secret) =>
        modify (λ s, s <| st_SessionID := sessionID |> <| st_MasterSecret := secret |>);;
        s ← gets id;
        s' ← lift (InitCipherSuite s) (fails InternalError);
        modify (λ _, s');;
        WriteKeyLog cfg keyLogLabelTLS12 (MarshalFixed (st_LocalRandom s')) (st_MasterSecret s');;
        val (next Flight4b)
    | (None, _) => val (next nextFlight)
    end
  else val (next nextFlight).

Definition flight0Parse (cfg : HandshakeConfig W) : M presult presult :=
  o ← pull 0 [epoch0 cfg TypeClientHello true false];
  match o with
  | None => val keep_reading
  | Some (seq, msgs) =>
      modify (λ s, s <| st_LocalConnectionID := None |> <| st_RemoteConnectionID := None |> <| st_HandshakeRecvSequence := seq |>);;
      match msgs !! TypeClientHello with
      | Some (ClientHello clientHello) =>
          if negb (Version_Equal (ch_Version clientHello) Version1_2) then val (fails ProtocolVersion ErrUnsupportedProtocolVersion) else
          modify (λ s, s <| st_RemoteRandom := ch_Random clientHello |>
                         <| st_RemoteSupportsRenegotiation :=
                              st_RemoteSupportsRenegotiation s || existsb (Z.eqb renegotiationInfoSCSV) (ch_CipherSuiteIDs clientHello) |>);;
          let selected := FindMatchingCipherSuite (remote_suites cfg (ch_CipherSuiteIDs clientHello)) (cf_LocalCipherSuites cfg) in
          modify (choose_suite selected);;
          match selected with
          | None => val (fails InsufficientSecurity ErrCipherSuiteNoIntersection)
          | Some _ =>
              for_each (ch_Extensions clientHello) (flight0_extension cfg);;
              modify (λ s, match st_RemoteConnectionID s with None => s <| st_LocalConnectionID := None |> | Some _ => s end);;
              ems ← gets st_ExtendedMasterSecret;
              if bool_decide (cf_ExtendedMasterSecret cfg = RequireExtendedMasterSecret) && negb ems
              then val (fails InsufficientSecurity ErrServerRequiredButNoClientEMS) else
              keypair ← gets st_LocalKeypair;
              curve ← gets st_NamedCurve;
              (match keypair with
               | Some _ => val tt
               | None =>
                   r ← with_world rand_Reader;
                   k ← lift (KeyExchange.GenerateKeypair curve r) (fails IllegalParameter);
                   modify (λ s, s <| st_LocalKeypair := Some k |>)
               end);;
              handleHelloResume (ch_SessionID clientHello) cfg (if cf_InsecureSkipHelloVerify cfg then Flight4 else Flight2)
          end
      | _ => val (alert_only InternalError)
      end
  end.

Definition flight0Generate (cfg : HandshakeConfig W) : M gresult gresult :=
  (if cf_InsecureSkipHelloVerify cfg then val tt else
     cookie ← act (rand_Read cookieLength) gerror;
     modify (λ s, s <| st_Cookie := cookie |>));;
  modify (λ s, s <| st_LocalEpoch := 0 |> <| st_RemoteEpoch := 0 |>);;
  match dtls12EllipticCurves (cf_EllipticCurves cfg) with
  | [] => val (gerror ErrEmptyEllipticCurves)
  | curve :: _ =>
      modify (λ s, s <| st_NamedCurve := curve |>);;
      Populate gerror;;
      val (packets [])
  end.

(** ** Flight 3 and the client's side of the key exchange *)

Definition kx_failure : Type := option Alert * dtls_error.

(** The callers return the alert and the error. *)
Definition handleServerKeyExchange (cfg : HandshakeConfig W) (m : MessageServerKeyExchange) : M kx_failure unit :=
  let failure d e : kx_failure := (Some (fatal d), e) in
  suite ← gets st_CipherSuite;
  match suite with
  | None => ret (failure InsufficientSecurity ErrInvalidCipherSuite)
  | Some cs =>
      if sk_NamedCurve m =? X25519MLKEM768 then ret (failure IllegalParameter ErrUnsupportedEllipticCurveVersion) else
      match cf_LocalPSKCallback cfg with
      | Some callback =>
          psk ← act (callback (sk_IdentityHint m)) (failure InternalError);
          modify (λ s, s <| st_IdentityHint := sk_IdentityHint m |>);;
          if CipherSuite.KeyExchangeAlgorithm cs =? KeyExchangeAlgorithmPsk then
            pms ← lift (Prf.PSKPreMasterSecret psk) (failure InternalError);
            modify (λ s, s <| st_PreMasterSecret := pms |>)
          else if CipherSuite.KeyExchangeAlgorithm cs =? Z.lor KeyExchangeAlgorithmEcdhe KeyExchangeAlgorithmPsk then
            r ← with_world rand_Reader;
            k ← lift (KeyExchange.GenerateKeypair (sk_NamedCurve m) r) (failure InternalError);
            modify (λ s, s <| st_LocalKeypair := Some k |>);;
            pms ← lift (KeyExchange.EcdhePSKPreMasterSecret psk (sk_PublicKey m) (KeyExchange.kp_PrivateKey k) (KeyExchange.kp_Curve k))
                    (failure InternalError);
            modify (λ s, s <| st_PreMasterSecret := pms |>)
          else ret (failure InsufficientSecurity ErrInvalidCipherSuite)
      | None =>
          r ← with_world rand_Reader;
          k ← lift (KeyExchange.GenerateKeypair (sk_NamedCurve m) r) (failure InternalError);
          modify (λ s, s <| st_LocalKeypair := Some k |>);;
          pms ← lift (KeyExchange.PreMasterSecret (sk_PublicKey m) (KeyExchange.kp_PrivateKey k) (KeyExchange.kp_Curve k))
                  (failure InternalError);
          modify (λ s, s <| st_PreMasterSecret := pms |>)
      end
  end.

Definition handleResumption (c : Conn) (cfg : HandshakeConfig W) : M presult presult :=
  s ← gets id;
  s' ← lift (InitCipherSuite s) (fails InternalError);
  modify (λ _, s');;
  handle_queued c (fails InternalError);;
  recv ← gets st_HandshakeRecvSequence;
  o ← pull (recv + 1) [epoch1 cfg TypeFinished false false];
  match o with
  | None => val keep_reading
  | Some (_, msgs) =>
      match msgs !! TypeFinished with
      | Some (Finished verifyData) =>
          plainText ← merged (hello_rules cfg);
          secret ← gets st_MasterSecret;
          cs ← deref st_CipherSuite;
          expected ← lift (Prf.VerifyDataServer secret plainText (CipherSuite.HashFunc cs)) (fails InternalError);
          if negb (bool_decide (expected = verifyData)) then val (fails HandshakeFailure ErrVerifyDataMismatch) else
          random ← gets st_LocalRandom;
          WriteKeyLog cfg keyLogLabelTLS12 (MarshalFixed random) secret;;
          val (next Flight5b)
      | _ => val (alert_only InternalError)
      end
  end.

Definition flight3_extension (cfg : HandshakeConfig W) (ext : Extension) : M presult unit :=
  match ext with
  | UseSRTP profiles mki =>
      match FindMatchingSRTPProfile profiles (cf_LocalSRTPProtectionProfiles cfg) with
      | None => ret (fails IllegalParameter ErrClientNoMatchingSRTPProfile)
      | Some p => modify (λ s, s <| st_SRTPProtectionProfile := p |> <| st_RemoteSRTPMasterKeyIdentifier := mki |>)
      end
  | UseExtendedMasterSecret _ =>
      if bool_decide (cf_ExtendedMasterSecret cfg ≠ DisableExtendedMasterSecret)
      then modify (λ s, s <| st_ExtendedMasterSecret := true |>) else val tt
  | ALPN protocols =>
      if 1 <? len protocols then ret (fails InternalError ErrALPNInvalidFormat) else
      match protocols with
      | [] => crash
      | proto :: _ => modify (λ s, s <| st_NegotiatedProtocol := proto |>)
      end
  | ConnectionID cid =>
      match cf_ConnectionIDGenerator cfg with
      | Some _ => modify (λ s, s <| st_RemoteConnectionID := Some cid |>)
      | None => val tt
      end
  | _ => val tt
  end.

(** A HelloVerifyRequest, in flights 1 and 3. *)
Definition hello_verify (h : MessageHelloVerifyRequest) (seq : Z) : M presult presult :=
  if negb (Version_Equal (hv_Version h) Version1_0) && negb (Version_Equal (hv_Version h) Version1_2)
  then val (fails ProtocolVersion ErrUnsupportedProtocolVersion) else
  modify (λ s, s <| st_Cookie := hv_Cookie h |> <| st_HandshakeRecvSequence := seq |>);;
  val (next Flight3).

(** The rest of flight 3, after the ServerHello of a new session. *)
Definition flight3_key_exchange (cfg : HandshakeConfig W) : M presult presult :=
  recv ← gets st_HandshakeRecvSequence;
  o ← pull (recv + 1)
        (match cf_LocalPSKCallback cfg with
         | Some _ => [epoch0 cfg TypeServerKeyExchange false true; epoch0 cfg TypeServerHelloDone false false]
         | None => [epoch0 cfg TypeCertificate false true; epoch0 cfg TypeServerKeyExchange false false;
                    epoch0 cfg TypeCertificateRequest false true; epoch0 cfg TypeServerHelloDone false false]
         end);
  match o with
  | None => val keep_reading
  | Some (seq, msgs) =>
      modify (λ s, s <| st_HandshakeRecvSequence := seq |>);;
      (match msgs !! TypeCertificate with
       | Some (Handshake.Certificate certs) => modify (λ s, s <| st_PeerCertificates := certs |>)
       | _ =>
           cs ← deref st_CipherSuite;
           if CipherSuite.AuthenticationType cs =? CipherSuite.AuthenticationTypeCertificate
           then ret (fails NoCertificate ErrInvalidCertificate) else val tt
       end);;
      (match msgs !! TypeServerKeyExchange with
       | Some (ServerKeyExchange m) => within (handleServerKeyExchange cfg m) (λ '(a, e), (None, a, Some e))
       | _ => val tt
       end);;
      (match msgs !! TypeCertificateRequest with
       | Some (CertificateRequest creq) =>
           modify (λ s, s <| st_RemoteCertRequestAlgs := cr_SignatureHashAlgorithms creq |> <| st_RemoteRequestedCertificate := true |>)
       | _ => val tt
       end);;
      val (next Flight5)
  end.

(** A ServerHello: [true] when it resumes the session. *)
Definition flight3_server_hello (cfg : HandshakeConfig W) (m : MessageServerHello) : M presult bool :=
  if negb (Version_Equal (sh_Version m) Version1_2) then ret (fails ProtocolVersion ErrUnsupportedProtocolVersion) else
  for_each (sh_Extensions m) (flight3_extension cfg);;
  modify (λ s, match st_RemoteConnectionID s with None => s <| st_LocalConnectionID := None |> | Some _ => s end);;
  s ← gets id;
  if bool_decide (cf_ExtendedMasterSecret cfg = RequireExtendedMasterSecret) && negb (st_ExtendedMasterSecret s)
  then ret (fails InsufficientSecurity ErrClientRequiredButNoServerEMS) else
  if (0 <? len (cf_LocalSRTPProtectionProfiles cfg)) && (st_SRTPProtectionProfile s =? 0)
  then ret (fails InsufficientSecurity ErrRequestedButNoSRTPExtension) else
  match sh_CipherSuiteID m with
  | None => crash
  | Some id =>
      match CipherSuite.ForID id (cf_CustomCipherSuites cfg) with
      | None => ret (fails InsufficientSecurity ErrCipherSuiteNoIntersection)
      | Some remote =>
          if negb (CipherSuite.IDSupportsVersion (CipherSuite.ID remote) Version1_2)
          then ret (fails InsufficientSecurity ErrInvalidCipherSuite) else
          match FindMatchingCipherSuite [remote] (cf_LocalCipherSuites cfg) with
          | None => ret (fails InsufficientSecurity ErrInvalidCipherSuite)
          | Some selected =>
              modify (choose_suite (Some selected));;
              modify (λ s, s <| st_RemoteRandom := sh_Random m |>);;
              sid ← gets st_SessionID;
              if (0 <? len (sh_SessionID m)) && bool_decide (sid = sh_SessionID m) then val true else
              (if cf_HasSessionStore cfg && (0 <? len sid) then act (cf_DelSession cfg sid) (fails InternalError) else val tt);;
              modify (λ s, s <| st_SessionID := if cf_HasSessionStore cfg then sh_SessionID m else [] |> <| st_MasterSecret := [] |>);;
              val false
          end
      end
  end.

Definition flight3_hello (c : Conn) (cfg : HandshakeConfig W) (recv : Z) : M presult presult :=
  o ← pull recv [epoch0 cfg TypeServerHello false false];
  match o with
  | None => val keep_reading
  | Some (_, msgs) =>
      resumed ← (match msgs !! TypeServerHello with
                 | Some (ServerHello m) => flight3_server_hello cfg m
                 | _ => val false
                 end);
      if resumed : bool then handleResumption c cfg else flight3_key_exchange cfg
  end.

Definition flight3Parse (c : Conn) (cfg : HandshakeConfig W) : M presult presult :=
  recv ← gets st_HandshakeRecvSequence;
  o ← pull recv [epoch0 cfg TypeHelloVerifyRequest false true];
  match (match o with Some (seq, msgs) => (λ m, (seq, m)) <$> msgs !! TypeHelloVerifyRequest | None => None end) with
  | Some (seq, HelloVerifyRequest h) => hello_verify h seq
  | _ => flight3_hello c cfg recv
  end.

(** ** Flight 1 *)

Definition flight1Parse (c : Conn) (cfg : HandshakeConfig W) : M presult presult :=
  recv ← gets st_HandshakeRecvSequence;
  o ← pull recv [epoch0 cfg TypeHelloVerifyRequest false true; epoch0 cfg TypeServerHello false true];
  match o with
  | None => val keep_reading
  | Some (seq, msgs) =>
      match msgs !! TypeServerHello with
      | Some _ => flight3Parse c cfg
      | None =>
          match msgs !! TypeHelloVerifyRequest with
          | Some (HelloVerifyRequest h) => hello_verify h seq
          | _ => val (alert_only InternalError)
          end
      end
  end.

(** The extensions of a ClientHello before the connection ID; [ecc] says whether
    the curves are offered. *)
Definition client_extensions (cfg : HandshakeConfig W) (ecc : bool) : list Extension :=
  [SupportedSignatureAlgorithms (cf_LocalSignatureSchemes cfg); RenegotiationInfo 0] ++
  (if 0 <? len (cf_LocalCertSignatureSchemes cfg) then [SignatureAlgorithmsCert (cf_LocalCertSignatureSchemes cfg)] else []) ++
  (if ecc then [SupportedEllipticCurves (dtls12EllipticCurves (cf_EllipticCurves cfg)); SupportedPointFormats [CurvePointFormatUncompressed]] else []) ++
  (if 0 <? len (cf_LocalSRTPProtectionProfiles cfg)
   then [UseSRTP (cf_LocalSRTPProtectionProfiles cfg) (cf_LocalSRTPMasterKeyIdentifier cfg)] else []) ++
  (if ems_offered cfg then [UseExtendedMasterSecret true] else []) ++
  (if 0 <? len (cf_ServerName cfg) then [ServerName (cf_ServerName cfg)] else []) ++
  (if 0 <? len (cf_SupportedProtocols cfg) then [ALPN (cf_SupportedProtocols cfg)] else []).

(** The ClientHello packet for the state. *)
Definition client_hello (cfg : HandshakeConfig W) (s : State) (extensions : list Extension) : Packet :=
  let clientHello := MkClientHello Version1_2 (st_LocalRandom s) (st_Cookie s) (st_SessionID s)
                       (CipherSuiteIDs (cf_LocalCipherSuites cfg)) [0] extensions in
  plain (match cf_ClientHelloMessageHook cfg with
         | Some hook => hook clientHello
         | None => Some (ClientHello clientHello)
         end).

Definition cid_extension (s : State) : list Extension :=
  match st_LocalConnectionID s with Some cid => [ConnectionID cid] | None => [] end.

Definition flight1Generate (c : Conn) (cfg : HandshakeConfig W) : M gresult gresult :=
  modify (λ s, s <| st_LocalEpoch := 0 |> <| st_RemoteEpoch := 0 |>);;
  match dtls12EllipticCurves (cf_EllipticCurves cfg) with
  | [] => val (gerror ErrEmptyEllipticCurves)
  | curve :: _ =>
      modify (λ s, s <| st_NamedCurve := curve |> <| st_Cookie := [] |>);;
      Populate gerror;;
      (match cf_HelloRandomBytesGenerator cfg with
       | Some gen => r ← with_world gen; modify (λ s, s <| st_LocalRandom := MkRandom (GMTUnixTime (st_LocalRandom s)) r |>)
       | None => val tt
       end);;
      (if cf_HasSessionStore cfg then
         key ← session_key c;
         session ← act (cf_GetSession cfg key) (gfails InternalError);
         match session with
         | (Some id, secret) => modify (λ s, s <| st_SessionID := id |> <| st_MasterSecret := secret |>)
         | (None, _) => val tt
         end
       else val tt);;
      cid ← (match cf_ConnectionIDGenerator cfg with
             | Some gen =>
                 cid ← with_world gen;
                 modify (λ s, s <| st_LocalConnectionID := Some (default [] cid) |>);;
                 val [ConnectionID (default [] cid)]
             | None => val []
             end);
      s ← gets id;
      val (packets [client_hello cfg s (client_extensions cfg (existsb CipherSuite.ECC (cf_LocalCipherSuites cfg)) ++ cid)])
  end.

Definition flight3Generate (cfg : HandshakeConfig W) : M gresult gresult :=
  s ← gets id;
  val (packets [client_hello cfg s (client_extensions cfg (negb (st_NamedCurve s =? 0)) ++ cid_extension s)]).

(** ** Flight 2 *)

Definition flight2Parse (cfg : HandshakeConfig W) : M presult presult :=
  recv ← gets st_HandshakeRecvSequence;
  o ← pull recv [epoch0 cfg TypeClientHello true false];
  match o with
  | None => flight0Parse cfg
  | Some (seq, msgs) =>
      modify (λ s, s <| st_HandshakeRecvSequence := seq |>);;
      match msgs !! TypeClientHello with
      | Some (ClientHello clientHello) =>
          if negb (Version_Equal (ch_Version clientHello) Version1_2) then val (fails ProtocolVersion ErrUnsupportedProtocolVersion) else
          if len (ch_Cookie clientHello) =? 0 then val keep_reading else
          cookie ← gets st_Cookie;
          if negb (bool_decide (cookie = ch_Cookie clientHello)) then val (fails AccessDenied ErrCookieMismatch) else
          val (next Flight4)
      | _ => val (alert_only InternalError)
      end
  end.

Definition flight2Generate : M gresult gresult :=
  modify (λ s, s <| st_HandshakeSendSequence := 0 |>);;
  cookie ← gets st_Cookie;
  val (packets [plain (Some (HelloVerifyRequest (MkHelloVerifyRequest Version1_2 cookie)))]).

(** ** Flight 4 *)

Definition listed (schemes : list Algorithm) (hash sig : Z) : bool :=
  existsb (λ ss, (alg_Hash ss =? hash) && (alg_Signature ss =? sig)) schemes.

(** The algorithms that certificates may be signed with. *)
Definition certAlgs (cfg : HandshakeConfig W) : list Algorithm :=
  match cf_LocalCertSignatureSchemes cfg with [] => cf_LocalSignatureSchemes cfg | algs => algs end.

Definition verify_peer_certificate {R} (cfg : HandshakeConfig W) (chains : list (list HandshakeCrypto.Certificate)) (onerr : dtls_error → R) : M R unit :=
  match cf_VerifyPeerCertificate cfg with
  | Some verify => certs ← gets st_PeerCertificates; act (verify certs chains) onerr
  | None => val tt
  end.

Definition verify_connection {R} (cfg : HandshakeConfig W) (onerr : dtls_error → R) : M R unit :=
  match cf_VerifyConnection cfg with
  | Some verify => s ← gets id; act (verify s) onerr
  | None => val tt
  end.

(** The client's CertificateVerify message. *)
Definition flight4_verify (cfg : HandshakeConfig W) (verify : MessageCertificateVerify) : M presult unit :=
  certs ← gets st_PeerCertificates;
  match certs with
  | [] => ret (fails NoCertificate ErrCertificateVerifyNoCertificate)
  | _ =>
      plainText ← merged (key_exchange_rules cfg);
      if negb (listed (cf_LocalSignatureSchemes cfg) (cv_HashAlgorithm verify) (cv_SignatureAlgorithm verify))
      then ret (fails InsufficientSecurity ErrNoAvailableSignatureSchemes) else
      lift (VerifyCertificateVerify plainText (cv_HashAlgorithm verify) (cv_SignatureAlgorithm verify) (cv_Signature verify) certs) (fails BadCertificate);;
      chains ← (if VerifyClientCertIfGiven <=? cf_ClientAuth cfg
                then lift (VerifyClientCert certs (cf_ClientCAs cfg) (certAlgs cfg)) (fails BadCertificate) else val []);
      verify_peer_certificate cfg chains (fails BadCertificate);;
      modify (λ s, s <| st_PeerCertificatesVerified := VerifyClientCertIfGiven <=? cf_ClientAuth cfg |>)
  end.

(** The premaster secret on the server. *)
Definition flight4_premaster (cfg : HandshakeConfig W) (cs : CipherSuite.CipherSuite) (m : MessageClientKeyExchange) : M presult bytes :=
  if CipherSuite.AuthenticationType cs =? CipherSuite.AuthenticationTypePreSharedKey then
    match cf_LocalPSKCallback cfg with
    | None => crash
    | Some callback =>
        psk ← act (callback (ck_IdentityHint m)) (fails InternalError);
        modify (λ s, s <| st_IdentityHint := ck_IdentityHint m |>);;
        if CipherSuite.KeyExchangeAlgorithm cs =? KeyExchangeAlgorithmPsk then lift (Prf.PSKPreMasterSecret psk) (fails InternalError)
        else if CipherSuite.KeyExchangeAlgorithm cs =? Z.lor KeyExchangeAlgorithmPsk KeyExchangeAlgorithmEcdhe then
          k ← deref st_LocalKeypair;
          lift (KeyExchange.EcdhePSKPreMasterSecret psk (default [] (ck_PublicKey m)) (KeyExchange.kp_PrivateKey k) (KeyExchange.kp_Curve k))
            (fails InternalError)
        else ret (fails InternalError ErrInvalidCipherSuite)
    end
  else
    k ← deref st_LocalKeypair;
    lift (KeyExchange.PreMasterSecret (default [] (ck_PublicKey m)) (KeyExchange.kp_PrivateKey k) (KeyExchange.kp_Curve k)) (fails IllegalParameter).

(** The master secret and the keys of the server. *)
Definition flight4_keys (cfg : HandshakeConfig W) (cs : CipherSuite.CipherSuite) (m : MessageClientKeyExchange) : M presult unit :=
  s ← gets id;
  if IsInitialized s then val tt else
  let serverRandom := MarshalFixed (st_LocalRandom s) in
  let clientRandom := MarshalFixed (st_RemoteRandom s) in
  pms ← flight4_premaster cfg cs m;
  cache ← get_cache;
  secret ← (if st_ExtendedMasterSecret s
            then lift (Prf.ExtendedMasterSecret pms (SessionHash cache (CipherSuite.HashFunc cs) (cf_InitialEpoch cfg) []) (CipherSuite.HashFunc cs))
                   (fails InternalError)
            else lift (Prf.MasterSecret pms clientRandom serverRandom (CipherSuite.HashFunc cs)) (fails InternalError));
  modify (λ s, s <| st_MasterSecret := secret |>);;
  p ← lift (CipherSuite.Init cs secret clientRandom serverRandom false) (fails InternalError);
  modify (λ s, s <| st_Protection := Some p |>);;
  WriteKeyLog cfg keyLogLabelTLS12 clientRandom secret.

(** The policy on client certificates. *)
Definition flight4_client_auth (cfg : HandshakeConfig W) : M presult unit :=
  s ← gets id;
  let none := (len (st_PeerCertificates s) =? 0) in
  if cf_ClientAuth cfg =? RequireAnyClientCert then
    if none then ret (fails NoCertificate ErrClientCertificateRequired) else val tt
  else if cf_ClientAuth cfg =? VerifyClientCertIfGiven then
    if negb none && negb (st_PeerCertificatesVerified s) then ret (fails BadCertificate ErrClientCertificateNotVerified) else val tt
  else if cf_ClientAuth cfg =? RequireAndVerifyClientCert then
    if none then ret (fails NoCertificate ErrClientCertificateRequired) else
    if negb (st_PeerCertificatesVerified s) then ret (fails BadCertificate ErrClientCertificateNotVerified) else val tt
  else val tt.

Definition flight4_save (cfg : HandshakeConfig W) : M presult unit :=
  s ← gets id;
  if 0 <? len (st_SessionID s)
  then act (cf_SetSession cfg (st_SessionID s) (st_SessionID s) (st_MasterSecret s)) (fails InternalError) else val tt.

(** From the decryption of the queued packets on: waits for the Finished message. *)
Definition flight4_finished (c : Conn) (cfg : HandshakeConfig W) (seq : Z) : M presult presult :=
  handle_queued c (fails InternalError);;
  o ← pull seq [epoch1 cfg TypeFinished true false];
  match o with
  | None => val keep_reading
  | Some (seq, msgs) =>
      modify (λ s, s <| st_HandshakeRecvSequence := seq |>);;
      match msgs !! TypeFinished with
      | Some (Finished _) =>
          cs ← deref st_CipherSuite;
          (if CipherSuite.AuthenticationType cs =? CipherSuite.AuthenticationTypeAnonymous then val tt else flight4_client_auth cfg);;
          verify_connection cfg (fails BadCertificate);;
          val (next Flight6)
      | _ => val (alert_only InternalError)
      end
  end.

Definition flight4Parse (c : Conn) (cfg : HandshakeConfig W) : M presult presult :=
  recv ← gets st_HandshakeRecvSequence;
  o ← pull recv [epoch0 cfg TypeCertificate true true; epoch0 cfg TypeClientKeyExchange true false; epoch0 cfg TypeCertificateVerify true true];
  match o with
  | None => val keep_reading
  | Some (seq, msgs) =>
      match msgs !! TypeClientKeyExchange with
      | Some (ClientKeyExchange clientKeyExchange) =>
          (match msgs !! TypeCertificate with
           | Some (Handshake.Certificate certs) => modify (λ s, s <| st_PeerCertificates := certs |> <| st_SessionID := [] |>)
           | _ => val tt
           end);;
          (match msgs !! TypeCertificateVerify with
           | Some (CertificateVerify verify) => flight4_verify cfg verify
           | _ =>
               certs ← gets st_PeerCertificates;
               if negb (len certs =? 0) then ret keep_reading else val tt
           end);;
          cs ← deref st_CipherSuite;
          flight4_keys cfg cs clientKeyExchange;;
          flight4_save cfg;;
          flight4_finished c cfg seq
      | _ => val (alert_only InternalError)
      end
  end.

(** The extensions that flights 4 and 4b share, around those of their own. *)
Definition server_extensions (cfg : HandshakeConfig W) (s : State) : list Extension :=
  (if ems_offered cfg && st_ExtendedMasterSecret s then [UseExtendedMasterSecret true] else []) ++
  (if st_SRTPProtectionProfile s =? 0 then [] else [UseSRTP [st_SRTPProtectionProfile s] (cf_LocalSRTPMasterKeyIdentifier cfg)]).

Definition select_protocol (cfg : HandshakeConfig W) : M gresult (list Extension) :=
  peer ← gets st_PeerSupportedProtocols;
  proto ← lift (ALPNProtocolSelection (cf_SupportedProtocols cfg) peer) (gfails NoApplicationProtocol);
  match proto with
  | [] => val []
  | _ => modify (λ s, s <| st_NegotiatedProtocol := proto |>);; val [ALPN [proto]]
  end.

Definition server_hello (cfg : HandshakeConfig W) (s : State) (cs : CipherSuite.CipherSuite) (extensions : list Extension) : option Message :=
  let m := MkServerHello Version1_2 (st_LocalRandom s) (st_SessionID s) (Some (u16 (CipherSuite.ID cs))) (Some 0) extensions in
  match cf_ServerHelloMessageHook cfg with
  | Some hook => hook m
  | None => Some (ServerHello m)
  end.

(** The certificate, the signed key exchange and the request for a certificate. *)
Definition flight4_certificate (cfg : HandshakeConfig W) (cs : CipherSuite.CipherSuite) : M gresult (list Packet) :=
  s ← gets id;
  certificate ← act (GetCertificate cfg (MkHelloInfo (st_ServerName s) [CipherSuite.ID cs] (RandomBytes (st_RemoteRandom s)))) (gfails HandshakeFailure);
  match certificate with
  | None => crash
  | Some certificate =>
      let serverRandom := MarshalFixed (st_LocalRandom s) in
      let clientRandom := MarshalFixed (st_RemoteRandom s) in
      match tc_PrivateKey certificate with
      | None => ret (gfails InternalError ErrInvalidPrivateKey)
      | Some signer =>
          algo ← lift (SelectSignatureScheme (cf_LocalSignatureSchemes cfg) (signer_key signer)) (gfails InsufficientSecurity);
          k ← deref st_LocalKeypair;
          r ← with_world rand_Reader;
          signature ← lift (GenerateKeySignature r.1 clientRandom serverRandom (KeyExchange.kp_PublicKey k) (st_NamedCurve s) signer (alg_Hash algo) (alg_Signature algo))
                        (gfails InternalError);
          modify (λ s, s <| st_LocalKeySignature := signature |>);;
          let request := MkCertificateRequest [ECDSASign] (cf_LocalSignatureSchemes cfg)
                           (match cf_ClientCAs cfg with Some pool => Subjects pool | None => [] end) in
          val ([plain (Some (Handshake.Certificate (default [] (tc_Certificate certificate))));
                plain (Some (ServerKeyExchange (MkServerKeyExchange None CurveTypeNamedCurve (st_NamedCurve s) (KeyExchange.kp_PublicKey k)
                                                  (alg_Hash algo) (alg_Signature algo) signature)))] ++
               (if NoClientCert <? cf_ClientAuth cfg
                then [plain (match cf_CertificateRequestMessageHook cfg with
                             | Some hook => hook request
                             | None => Some (CertificateRequest request)
                             end)]
                else []))
      end
  end.

(** The key exchange with a pre-shared key: the hint, and the key if there is one. *)
Definition flight4_psk (cfg : HandshakeConfig W) (cs : CipherSuite.CipherSuite) : M gresult (list Packet) :=
  let ecdhe := Has (CipherSuite.KeyExchangeAlgorithm cs) KeyExchangeAlgorithmEcdhe in
  if (match cf_LocalPSKIdentityHint cfg with Some _ => true | None => false end) || ecdhe then
    if ecdhe then
      s ← gets id;
      k ← deref st_LocalKeypair;
      val [plain (Some (ServerKeyExchange (MkServerKeyExchange (cf_LocalPSKIdentityHint cfg) CurveTypeNamedCurve (st_NamedCurve s)
                                             (KeyExchange.kp_PublicKey k) 0 0 [])))]
    else val [plain (Some (ServerKeyExchange (MkServerKeyExchange (cf_LocalPSKIdentityHint cfg) 0 0 [] 0 0 [])))]
  else val [].

Definition flight4Generate (cfg : HandshakeConfig W) : M gresult gresult :=
  s ← gets id;
  cs ← deref st_CipherSuite;
  alpn ← select_protocol cfg;
  cid ← (match cf_ConnectionIDGenerator cfg, st_RemoteConnectionID s with
         | Some gen, Some _ =>
             cid ← with_world gen;
             modify (λ s, s <| st_LocalConnectionID := cid |>);;
             val [ConnectionID (default [] cid)]
         | _, _ => val []
         end);
  (if cf_HasSessionStore cfg
   then sid ← act (rand_Read sessionLength) (gfails InternalError); modify (λ s, s <| st_SessionID := sid |>)
   else val tt);;
  s ← gets id;
  let certificate := CipherSuite.AuthenticationType cs =? CipherSuite.AuthenticationTypeCertificate in
  let extensions := server_extensions cfg s ++
    (if st_RemoteSupportsRenegotiation s then [RenegotiationInfo 0] else []) ++
    (if certificate then [SupportedPointFormats [CurvePointFormatUncompressed]] else []) ++ alpn ++ cid in
  keys ← (if certificate then flight4_certificate cfg cs else flight4_psk cfg cs);
  val (packets (plain (server_hello cfg s cs extensions) :: keys ++ [plain (Some ServerHelloDone)])).

(** ** Flight 4b *)

Definition flight4bParse (cfg : HandshakeConfig W) : M presult presult :=
  recv ← gets st_HandshakeRecvSequence;
  o ← pull recv [epoch1 cfg TypeFinished true false];
  match o with
  | None => val keep_reading
  | Some (_, msgs) =>
      match msgs !! TypeFinished with
      | Some (Finished verifyData) =>
          plainText ← merged (hello_rules cfg ++ [epoch1 cfg TypeFinished false false]);
          secret ← gets st_MasterSecret;
          cs ← deref st_CipherSuite;
          expected ← lift (Prf.VerifyDataClient secret plainText (CipherSuite.HashFunc cs)) (fails InternalError);
          if negb (bool_decide (expected = verifyData)) then val (fails HandshakeFailure ErrVerifyDataMismatch) else
          val (next Flight4b)
      | _ => val (alert_only InternalError)
      end
  end.

Definition flight4bGenerate (cfg : HandshakeConfig W) : M gresult gresult :=
  s ← gets id;
  alpn ← select_protocol cfg;
  cs ← deref st_CipherSuite;
  let hello := server_hello cfg s cs (RenegotiationInfo 0 :: server_extensions cfg s ++ alpn) in
  let header := MkHeader 0 0 (u16 (st_HandshakeSendSequence s)) 0 0 in
  header ← (if len (st_LocalVerifyData s) =? 0 then
              plainText ← merged [epoch0 cfg TypeClientHello true false];
              '(header, raw) ← lift (Handshake_Marshal header hello) (gfails InternalError);
              verifyData ← lift (Prf.VerifyDataServer (st_MasterSecret s) (plainText ++ raw) (CipherSuite.HashFunc cs)) (gfails InternalError);
              modify (λ s, s <| st_LocalVerifyData := verifyData |>);;
              val header
            else val header);
  verifyData ← gets st_LocalVerifyData;
  val (packets [MkPacket (record_header 0) (HandshakeContent header hello) false false false; change_cipher_spec; finished_packet verifyData false]).

(** ** Flight 5 *)

Definition flight5Parse (c : Conn) (cfg : HandshakeConfig W) : M presult presult :=
  recv ← gets st_HandshakeRecvSequence;
  o ← pull recv [epoch1 cfg TypeFinished false false];
  match o with
  | None => val keep_reading
  | Some (_, msgs) =>
      match msgs !! TypeFinished with
      | Some (Finished verifyData) =>
          plainText ← merged (full_rules cfg);
          secret ← gets st_MasterSecret;
          cs ← deref st_CipherSuite;
          expected ← lift (Prf.VerifyDataServer secret plainText (CipherSuite.HashFunc cs)) (fails InternalError);
          if negb (bool_decide (expected = verifyData)) then val (fails HandshakeFailure ErrVerifyDataMismatch) else
          sid ← gets st_SessionID;
          (if 0 <? len sid then key ← session_key c; act (cf_SetSession cfg key sid secret) (fails InternalError) else val tt);;
          val (next Flight5)
      | _ => val (alert_only InternalError)
      end
  end.

(** The answer to a CertificateRequest: the certificate and its signer. *)
Definition flight5_certificate (cfg : HandshakeConfig W) : M gresult (list Packet * option Signer) :=
  recv ← gets st_HandshakeRecvSequence;
  o ← pull (recv - 2) [epoch0 cfg TypeCertificateRequest false false];
  match o with
  | None => ret (gfails HandshakeFailure ErrClientCertificateRequired)
  | Some (_, msgs) =>
      match msgs !! TypeCertificateRequest with
      | Some (CertificateRequest r) =>
          certificate ← act (GetClientCertificate cfg (MkRequestInfo (cr_CertificateAuthoritiesNames r))) (gfails HandshakeFailure);
          match certificate with
          | None => ret (gfails HandshakeFailure ErrNotAcceptableCertificateChain)
          | Some (MkTLSCertificate None _ _) => val ([plain (Some (Handshake.Certificate []))], None)
          | Some (MkTLSCertificate (Some _) None _) => ret (gfails HandshakeFailure ErrInvalidPrivateKey)
          | Some (MkTLSCertificate (Some certs) (Some signer) _) => val ([plain (Some (Handshake.Certificate certs))], Some signer)
          end
      | _ => ret (gfails HandshakeFailure ErrClientCertificateRequired)
      end
  end.

Definition client_key_exchange (cfg : HandshakeConfig W) (s : State) : M gresult MessageClientKeyExchange :=
  match cf_LocalPSKCallback cfg, st_LocalKeypair s with
  | None, None => crash
  | None, Some k => val (MkClientKeyExchange None (Some (KeyExchange.kp_PublicKey k)))
  | Some _, None => val (MkClientKeyExchange (cf_LocalPSKIdentityHint cfg) None)
  | Some _, Some k =>
      val (MkClientKeyExchange (cf_LocalPSKIdentityHint cfg)
             (if 0 <? len (KeyExchange.kp_PublicKey k) then Some (KeyExchange.kp_PublicKey k) else None))
  end.

Definition empty_key_exchange : MessageServerKeyExchange := MkServerKeyExchange None 0 0 [] 0 0 [].

(** The server's key exchange again, from the cache. *)
Definition cached_key_exchange (cfg : HandshakeConfig W) : M gresult MessageServerKeyExchange :=
  data ← merged [epoch0 cfg TypeServerKeyExchange false false];
  if len data =? 0 then
    within (handleServerKeyExchange cfg empty_key_exchange) (λ '(a, e), ([], a, Some e));;
    val empty_key_exchange
  else
    cs ← deref st_CipherSuite;
    '(_, m) ← lift (Handshake_Unmarshal (CipherSuite.KeyExchangeAlgorithm cs) data) (gfails UnexpectedMessage);
    match m with
    | ServerKeyExchange h => val h
    | _ => ret (gfails UnexpectedMessage ErrInvalidContentType)
    end.

(** Numbers the messages from [seq] and encodes them. *)
Fixpoint marshal_packets (seq : Z) (ps : list Packet) : M gresult (list Packet * bytes) :=
  match ps with
  | [] => val ([], [])
  | p :: ps =>
      match pk_Content p with
      | HandshakeContent h m =>
          '(h, raw) ← lift (Handshake_Marshal (MkHeader (Type_ h) (Length h) seq (FragmentOffset h) (FragmentLength h)) m) (gfails InternalError);
          '(ps, raws) ← marshal_packets (u16 (seq + 1)) ps;
          val (MkPacket (pk_Header p) (HandshakeContent h m) (pk_ShouldEncrypt p) (pk_ShouldWrapCID p) (pk_ResetLocalSequenceNumber p) :: ps, raw ++ raws)
      | _ => ret (gfails InternalError ErrInvalidContentType)
      end
  end.

(** The server's signature and certificates, as the client's configuration asks. *)
Definition verify_server (cfg : HandshakeConfig W) (m : MessageServerKeyExchange) (clientRandom serverRandom : bytes) : M kx_failure unit :=
  let failure d e : kx_failure := (Some (fatal d), e) in
  if negb (listed (cf_LocalSignatureSchemes cfg) (sk_HashAlgorithm m) (sk_SignatureAlgorithm m))
  then ret (failure InsufficientSecurity ErrNoAvailableSignatureSchemes) else
  certs ← gets st_PeerCertificates;
  lift (VerifyKeySignature (ValueKeyMessage clientRandom serverRandom (sk_PublicKey m) (sk_NamedCurve m)) (sk_Signature m)
          (sk_HashAlgorithm m) (sk_SignatureAlgorithm m) certs) (failure BadCertificate);;
  chains ← (if cf_InsecureSkipVerify cfg then val []
            else lift (VerifyServerCert certs (cf_RootCAs cfg) (cf_ServerName cfg) (certAlgs cfg)) (failure BadCertificate));
  verify_peer_certificate cfg chains (failure BadCertificate).

Definition initializeCipherSuite (cfg : HandshakeConfig W) (m : MessageServerKeyExchange) (sendingPlainText : bytes) : M kx_failure unit :=
  let failure d e : kx_failure := (Some (fatal d), e) in
  cs ← deref st_CipherSuite;
  s ← gets id;
  if IsInitialized s then val tt else
  let clientRandom := MarshalFixed (st_LocalRandom s) in
  let serverRandom := MarshalFixed (st_RemoteRandom s) in
  cache ← get_cache;
  secret ← (if st_ExtendedMasterSecret s
            then lift (Prf.ExtendedMasterSecret (st_PreMasterSecret s)
                         (SessionHash cache (CipherSuite.HashFunc cs) (cf_InitialEpoch cfg) [sendingPlainText]) (CipherSuite.HashFunc cs))
                   (failure IllegalParameter)
            else lift (Prf.MasterSecret (st_PreMasterSecret s) clientRandom serverRandom (CipherSuite.HashFunc cs)) (failure InternalError));
  modify (λ s, s <| st_MasterSecret := secret |>);;
  (if CipherSuite.AuthenticationType cs =? CipherSuite.AuthenticationTypeCertificate then verify_server cfg m clientRandom serverRandom else val tt);;
  verify_connection cfg (failure BadCertificate);;
  p ← lift (CipherSuite.Init cs secret clientRandom serverRandom true) (failure InternalError);
  modify (λ s, s <| st_Protection := Some p |>);;
  WriteKeyLog cfg keyLogLabelTLS12 clientRandom secret.

(** The signature over the handshake messages, numbered [seq]. *)
Definition flight5_verify (cfg : HandshakeConfig W) (signer : Signer) (sending : bytes) (seq : Z) : M gresult (Packet * bytes) :=
  plainText ← merged (key_exchange_rules cfg);
  algs ← gets st_RemoteCertRequestAlgs;
  algo ← lift (SelectSignatureScheme algs (signer_key signer)) (gfails InsufficientSecurity);
  r ← with_world rand_Reader;
  certVerify ← lift (GenerateCertificateVerify r.1 (plainText ++ sending) signer (alg_Hash algo) (alg_Signature algo)) (gfails InternalError);
  modify (λ s, s <| st_LocalCertificatesVerify := certVerify |>);;
  let m := Some (CertificateVerify (MkCertificateVerify (alg_Hash algo) (alg_Signature algo) certVerify)) in
  '(h, raw) ← lift (Handshake_Marshal (MkHeader 0 0 seq 0 0) m) (gfails InternalError);
  val (MkPacket (record_header 0) (HandshakeContent h m) false false false, raw).

(** The verify data of the side's own Finished message, computed once. *)
Definition local_verify_data (cfg : HandshakeConfig W) (verifyData : bytes → bytes → Hash → res dtls_error bytes)
    (rules : list HandshakeCachePullRule) (sending : bytes) : M gresult bytes :=
  s ← gets id;
  if len (st_LocalVerifyData s) =? 0 then
    plainText ← merged rules;
    cs ← deref st_CipherSuite;
    d ← lift (verifyData (st_MasterSecret s) (plainText ++ sending) (CipherSuite.HashFunc cs)) (gfails InternalError);
    modify (λ s, s <| st_LocalVerifyData := d |>);;
    val d
  else val (st_LocalVerifyData s).

(** The signature, if the client has a key, and the Finished message. *)
Definition flight5_finish (cfg : HandshakeConfig W) (signer : option Signer) (pkts : list Packet) (sending : bytes) (seq : Z) : M gresult gresult :=
  '(verify, sending) ← (match signer with
                        | Some signer => '(p, raw) ← flight5_verify cfg signer sending seq; val ([p], sending ++ raw)
                        | None => val ([], sending)
                        end);
  verifyData ← local_verify_data cfg Prf.VerifyDataClient (full_rules cfg) sending;
  cid ← gets st_RemoteConnectionID;
  val (packets (pkts ++ verify ++ [change_cipher_spec; finished_packet verifyData (0 <? len (default [] cid))])).

Definition flight5Generate (cfg : HandshakeConfig W) : M gresult gresult :=
  s ← gets id;
  '(certificate, signer) ← (if st_RemoteRequestedCertificate s then flight5_certificate cfg else val ([], None));
  cke ← client_key_exchange cfg s;
  m ← cached_key_exchange cfg;
  let seqPred := u16 (st_HandshakeSendSequence s) in
  '(pkts, sending) ← marshal_packets seqPred (certificate ++ [plain (Some (ClientKeyExchange cke))]);
  within (initializeCipherSuite cfg m sending) (λ '(a, e), ([], a, Some e));;
  flight5_finish cfg signer pkts sending (u16 (seqPred + len pkts)).

(** ** Flights 5b and 6 *)

(** The last flight of a side: the peer may send its Finished message again. *)
Definition last_parse (cfg : HandshakeConfig W) (isClient : bool) (f : flight) : M presult presult :=
  recv ← gets st_HandshakeRecvSequence;
  o ← pull (recv - 1) [epoch1 cfg TypeFinished isClient false];
  match o with
  | None => val keep_reading
  | Some (_, msgs) =>
      match msgs !! TypeFinished with
      | Some (Finished _) => val (next f)
      | _ => val (alert_only InternalError)
      end
  end.

Definition flight5bParse (cfg : HandshakeConfig W) : M presult presult := last_parse cfg false Flight5b.
Definition flight6Parse (cfg : HandshakeConfig W) : M presult presult := last_parse cfg true Flight6.

Definition flight5bGenerate (cfg : HandshakeConfig W) : M gresult gresult :=
  verifyData ← local_verify_data cfg Prf.VerifyDataClient (hello_rules cfg ++ [epoch1 cfg TypeFinished false false]) [];
  val (packets [change_cipher_spec; finished_packet verifyData false]).

Definition flight6Generate (cfg : HandshakeConfig W) : M gresult gresult :=
  verifyData ← local_verify_data cfg Prf.VerifyDataServer (full_rules cfg) [];
  cid ← gets st_RemoteConnectionID;
  val (packets [change_cipher_spec; finished_packet verifyData (0 <? len (default [] cid))]).

(** ** Dispatch *)

Definition Parse (f : flight) (c : Conn) (cfg : HandshakeConfig W) : M presult presult :=
  match f with
  | Flight0 => flight0Parse cfg
  | Flight1 => flight1Parse c cfg
  | Flight2 => flight2Parse cfg
  | Flight3 => flight3Parse c cfg
  | Flight4 => flight4Parse c cfg
  | Flight4b => flight4bParse cfg
  | Flight5 => flight5Parse c cfg
  | Flight5b => flight5bParse cfg
  | Flight6 => flight6Parse cfg
  end.

(** The generator, and whether its packets are sent again after a timeout. *)
Definition GetGenerator (f : flight) (c : Conn) (cfg : HandshakeConfig W) : M gresult gresult * bool :=
  match f with
  | Flight0 => (flight0Generate cfg, true)
  | Flight1 => (flight1Generate c cfg, true)
  | Flight2 => (flight2Generate, false)
  | Flight3 => (flight3Generate cfg, true)
  | Flight4 => (flight4Generate cfg, true)
  | Flight4b => (flight4bGenerate cfg, true)
  | Flight5 => (flight5Generate cfg, true)
  | Flight5b => (flight5bGenerate cfg, true)
  | Flight6 => (flight6Generate cfg, true)
  end.

End flights.
End Flight12.
