(* ===== verification/Flight12Auth.v ===== *)
(** * What a completed flight of DTLS 1.2 guarantees

    A weakest precondition for the flights' programs, and the security
    properties proved with it: the cookie exchange, the authentication of the
    client, the authentication of the server and the key exchange it has signed,
    the sessions that are resumed, and the Finished messages. *)
From stdpp Require Import base tactics numbers list strings gmap.
From Stdlib Require Import ZArith Lia.
From S2P Require Import Prelude Sha2 Wire SignatureHash HandshakeCrypto Prf Record CipherSuite Extensions Fragment Handshake HandshakeState FlightCache Flight12.
Import Protocol SignatureHash Extension Handshake HandshakeHeader State Config HandshakeCrypto Flight Selection AlertDescription Flight12.
Open Scope Z_scope.

Module Flight12Auth.
Section logic.
Context `{Cryptobyte} `{Ciphers} `{KeyExchange.KeyAgreement} `{PKI} `{Unicode} {W : Type} `{World W}.
Implicit Types (s : hs (W := W)) (cfg : HandshakeConfig W) (c : Conn (W := W)).

(** ** Weakest preconditions

    [Qv] for a value, [Qr] for an early return; nothing is said of a crash. *)
Definition wp {R A} (m : M R A) (Qv : A → hs → Prop) (Qr : R → hs → Prop) s : Prop :=
  match m s with
  | (Val a, s') => Qv a s'
  | (Ret r, s') => Qr r s'
  | (Crash, _) => True
  end.

Section rules.
Context {R A B : Type}.
Implicit Types (Qr : R → hs (W := W) → Prop).

Lemma wp_bind (m : M R A) (k : A → M R B) Qv Qr s : wp m (λ a, wp (k a) Qv Qr) Qr s → wp (m ≫= k) Qv Qr s.
Proof. unfold wp, mbind, M_bind. by destruct (m s) as [[a|r|] s']. Qed.

Lemma wp_val a Qv Qr s : Qv a s → wp (val a : M R A) Qv Qr s.
Proof. done. Qed.

Lemma wp_ret r Qv Qr s : Qr r s → wp (ret r : M R A) Qv Qr s.
Proof. done. Qed.

Lemma wp_crash Qv Qr s : wp (crash : M R A) Qv Qr s.
Proof. done. Qed.

Lemma wp_gets (f : State → A) Qv Qr s : Qv (f (h_state s)) s → wp (gets f : M R A) Qv Qr s.
Proof. done. Qed.

Lemma wp_modify f (Qv : unit → hs → Prop) Qr s :
  Qv tt (MkHs (f (h_state s)) (h_cache s) (h_world s) (h_keylog s)) → wp (modify f : M R unit) Qv Qr s.
Proof. done. Qed.

Lemma wp_lift (m : res dtls_error A) (onerr : dtls_error → R) Qv Qr s :
  (∀ a, m = Ok a → Qv a s) → (∀ e, m = Err e → Qr (onerr e) s) → wp (lift m onerr) Qv Qr s.
Proof. unfold wp, lift. destruct m; auto. Qed.

Lemma wp_act (a : action A) (onerr : dtls_error → R) Qv Qr s :
  (∀ x w, a (h_world s) = (Ok x, w) → Qv x (MkHs (h_state s) (h_cache s) w (h_keylog s))) →
  (∀ e w, a (h_world s) = (Err e, w) → Qr (onerr e) (MkHs (h_state s) (h_cache s) w (h_keylog s))) → wp (act a onerr) Qv Qr s.
Proof. unfold wp, act. destruct (a (h_world s)) as [[x|e|] w]; cbn [lift]; auto. Qed.

Lemma wp_with_world (f : W → A * W) Qv Qr s :
  (∀ a w, f (h_world s) = (a, w) → Qv a (MkHs (h_state s) (h_cache s) w (h_keylog s))) → wp (with_world f : M R A) Qv Qr s.
Proof. unfold wp, with_world. destruct (f (h_world s)); auto. Qed.

Lemma wp_within {R'} (m : M R' A) (onret : R' → R) Qv Qr s : wp m Qv (λ r, Qr (onret r)) s → wp (within m onret) Qv Qr s.
Proof. unfold wp, within. by destruct (m s) as [[]]. Qed.

Lemma wp_deref (f : State → option A) Qv Qr s : (∀ a, f (h_state s) = Some a → Qv a s) → wp (deref f : M R A) Qv Qr s.
Proof. unfold wp, deref. destruct (f (h_state s)); auto. Qed.

Lemma wp_merged rules (Qv : bytes → hs → Prop) Qr s : Qv (PullAndMerge (h_cache s) rules) s → wp (merged rules : M R bytes) Qv Qr s.
Proof. done. Qed.

Lemma wp_cache (Qv : Cache → hs → Prop) Qr s : Qv (h_cache s) s → wp (get_cache : M R Cache) Qv Qr s.
Proof. done. Qed.

Lemma wp_pull startSeq rules (Qv : option (Z * gmap Z Message) → hs → Prop) Qr s :
  (∀ o, FullPullMap (h_cache s) startSeq (st_CipherSuite (h_state s)) rules = Ok o → Qv o s) → wp (pull startSeq rules : M R _) Qv Qr s.
Proof. unfold wp, pull. destruct (FullPullMap _ _ _ _) as [o|[]|]; auto. Qed.

Lemma wp_handle_queued c (onerr : dtls_error → R) (Qv : unit → hs → Prop) Qr s :
  (∀ r s', HandleQueuedPackets c s = (r, s') → (r = Ok tt → Qv tt s') ∧ (∀ e, r = Err e → Qr (onerr e) s')) → wp (handle_queued c onerr) Qv Qr s.
Proof.
  unfold wp, handle_queued. destruct (HandleQueuedPackets c s) as [r s'] eqn:E. intros Hq. destruct (Hq r s' eq_refl) as [Hv Hr].
  destruct r as [[]|e|]; cbn [lift]; [by apply Hv|by apply Hr|done].
Qed.

Lemma wp_keylog cfg label cr secret (Qv : unit → hs → Prop) Qr s :
  (∀ k, Qv tt (MkHs (h_state s) (h_cache s) (h_world s) k)) → wp (WriteKeyLog cfg label cr secret : M R unit) Qv Qr s.
Proof. unfold wp, WriteKeyLog. destruct s, (cf_KeyLogWriter cfg); cbn; auto. Qed.

Lemma wp_session_key c (Qv : bytes → hs → Prop) Qr s : Qv (SessionKey c s) s → wp (session_key c : M R bytes) Qv Qr s.
Proof. done. Qed.

Lemma wp_mono (m : M R A) (Qv Qv' : A → hs → Prop) Qr Qr' s :
  wp m Qv Qr s → (∀ a s', Qv a s' → Qv' a s') → (∀ r s', Qr r s' → Qr' r s') → wp m Qv' Qr' s.
Proof. unfold wp. destruct (m s) as [[]]; auto. Qed.

(** What the caller of a program sees. *)
Lemma wp_elim (m : M R R) (Q : R → hs → Prop) s r s' : wp m Q Q s → m s = (Val r, s') ∨ m s = (Ret r, s') → Q r s'.
Proof. unfold wp. by intros Hw [E|E]; rewrite E in Hw. Qed.
End rules.

Lemma wp_conj {R A} (m : M R A) (Q1 Q2 : A → hs → Prop) (R1 R2 : R → hs → Prop) s :
  wp m Q1 R1 s → wp m Q2 R2 s → wp m (λ a s', Q1 a s' ∧ Q2 a s') (λ r s', R1 r s' ∧ R2 r s') s.
Proof. unfold wp. destruct (m s) as [[]]; done. Qed.

(** The invariant of a loop. *)
Lemma wp_for_each {R A} (l : list A) (f : A → M R unit) (I : hs → Prop) (Qv : unit → hs → Prop) (Qr : R → hs → Prop) s :
  I s → (∀ a s, a ∈ l → I s → wp (f a) (λ _, I) Qr s) → (∀ s, I s → Qv tt s) → wp (for_each l f) Qv Qr s.
Proof.
  intros HI Hf HQ. revert s HI Hf. induction l as [|a l IH]; intros s HI Hf; [by apply HQ|].
  cbn [for_each]. apply wp_bind. pose proof (Hf a s (list_elem_of_here _ _) HI) as Ha. unfold wp in Ha |- *.
  destruct (f a s) as [[]]; [|done..]. apply IH; [done|]. intros b s' Hb HI'. apply Hf; [|done]. by apply list_elem_of_further.
Qed.

End logic.

Ltac wp_step :=
  lazymatch goal with
  | |- wp (mbind _ _) _ _ _ => apply wp_bind
  | |- wp (val _) _ _ _ => apply wp_val
  | |- wp (ret _) _ _ _ => apply wp_ret
  | |- wp crash _ _ _ => apply wp_crash
  | |- wp (gets _) _ _ _ => apply wp_gets
  | |- wp (modify _) _ _ _ => apply wp_modify
  | |- wp (lift _ _) _ _ _ => apply wp_lift; [intros ? ?|intros ? ?]
  | |- wp (act _ _) _ _ _ => apply wp_act; [intros ? ? ?|intros ? ? ?]
  | |- wp (with_world _) _ _ _ => apply wp_with_world; intros ? ? ?
  | |- wp (within _ _) _ _ _ => apply wp_within
  | |- wp (deref _) _ _ _ => apply wp_deref; intros ? ?
  | |- wp (merged _) _ _ _ => apply wp_merged
  | |- wp get_cache _ _ _ => apply wp_cache
  | |- wp (session_key _) _ _ _ => apply wp_session_key
  | |- wp (pull _ _) _ _ _ => apply wp_pull; intros ? ?
  | |- wp (WriteKeyLog _ _ _ _) _ _ _ => apply wp_keylog; intros ?
  | |- wp (if ?b then _ else _) _ _ _ => destruct b eqn:?
  | |- wp (match ?x with _ => _ end) _ _ _ => destruct x eqn:?
  end.

Ltac wp_run := repeat (wp_step; cbn [h_state h_cache h_world h_keylog id] in * ).

Section auth.
Context `{Cryptobyte} `{Ciphers} `{KeyExchange.KeyAgreement} `{PKI} `{Unicode} {W : Type} `{World W}.
Implicit Types (s : hs (W := W)) (cfg : HandshakeConfig W) (c : Conn (W := W)).

(** ** The server's first flights *)

(** What parsing a ClientHello leaves alone. *)
Definition kept s s' : Prop :=
  h_cache s' = h_cache s ∧ st_Cookie (h_state s') = st_Cookie (h_state s) ∧ st_IsClient (h_state s') = st_IsClient (h_state s).

(** A ClientHello of the client with this session ID. *)
Definition hello_with_session (h : Cache) (sid : bytes) : Prop :=
  ∃ i kx hd ch, i ∈ h ∧ it_IsClient i = true ∧ it_Typ i = TypeClientHello ∧
    Handshake_Unmarshal kx (it_Data i) = Ok (hd, ClientHello ch) ∧ ch_SessionID ch = sid.

(** The server resumes the session whose ID is in the client's hello: the store
    has it, with the secret that the server uses. *)
Definition session_resumed cfg s : Prop :=
  let st := h_state s in
  cf_HasSessionStore cfg = true ∧ st_SessionID st ≠ [] ∧ hello_with_session (h_cache s) (st_SessionID st) ∧
  ∃ id w w', cf_GetSession cfg (st_SessionID st) w = (Ok (Some id, st_MasterSecret st), w').

Definition flight0_result cfg s (r : presult) s' : Prop :=
  kept s s' ∧ ∀ f, r.1.1 = Some f →
    st_CipherSuite (h_state s') ≠ None ∧ st_LocalKeypair (h_state s') ≠ None ∧
    (f = Flight4 ∧ cf_InsecureSkipHelloVerify cfg = true ∨ f = Flight2 ∧ cf_InsecureSkipHelloVerify cfg = false ∨ f = Flight4b ∧ session_resumed cfg s').

Lemma InitCipherSuite_frame st st' : InitCipherSuite st = Ok st' →
  st_CipherSuite st ≠ None ∧ ∃ p, st' = st <| st_Protection := p |>.
Proof.
  unfold InitCipherSuite. destruct (st_CipherSuite st) as [cs|]; [|done]. destruct (IsInitialized st).
  - intros [= <-]. split; [done|]. exists (st_Protection st). by destruct st.
  - intros (p & _ & [= <-])%bind_Ok_inv. split; [done|]. by eexists.
Qed.

Lemma flight0_next cfg s st w k f : h_state s = st → f = (if cf_InsecureSkipHelloVerify cfg then Flight4 else Flight2) →
  st_CipherSuite st ≠ None → st_LocalKeypair st ≠ None → flight0_result cfg s (next f) (MkHs st (h_cache s) w k).
Proof.
  intros <- -> Hcs Hk. split; [done|]. intros f [= <-]. split_and!; [done..|]. destruct (cf_InsecureSkipHelloVerify cfg); auto.
Qed.

Lemma handleHelloResume_spec sid cfg f s :
  st_CipherSuite (h_state s) ≠ None → st_LocalKeypair (h_state s) ≠ None →
  f = (if cf_InsecureSkipHelloVerify cfg then Flight4 else Flight2) → hello_with_session (h_cache s) sid →
  wp (handleHelloResume sid cfg f) (flight0_result cfg s) (flight0_result cfg s) s.
Proof.
  intros Hcs Hk Hf Hh. unfold handleHelloResume. wp_run; try (by split; [|intros ? [=]]).
  - apply andb_true_iff in Heqb as [Hl%Z.ltb_lt Hst]. destruct (InitCipherSuite_frame _ _ H6) as (_ & p & ->).
    split; [done|]. intros g [= <-]. st_simpl. split_and!; [done..|]. right. right. split; [done|].
    split_and!; cbn [h_state h_cache]; st_simpl; [done|by intros ->|done|]. by do 3 eexists.
  - by apply flight0_next.
  - destruct s. by apply flight0_next.
Qed.

Lemma session_hello_pulled cfg h startSeq cs seq msgs ch : FullPullMap h startSeq cs [epoch0 cfg TypeClientHello true false] = Ok (Some (seq, msgs)) →
  msgs !! TypeClientHello = Some (ClientHello ch) → hello_with_session h (ch_SessionID ch).
Proof.
  intros Hp Hl. destruct (FullPullMap_lookup _ _ _ _ _ _ _ _ Hp Hl) as (r & i & s0 & Hr & _ & Hi & Hm & hd & Hu & _).
  apply list_elem_of_singleton in Hr as ->. unfold cacheItemMatchesRule in Hm. cbn in Hm.
  rewrite !andb_true_iff, !Z.eqb_eq, bool_decide_eq_true in Hm. destruct Hm as [[? ?] _]. by repeat eexists.
Qed.

(** The extensions of the ClientHello do not change the suite. *)
Definition hello_inv s cs s1 : Prop := kept s s1 ∧ st_CipherSuite (h_state s1) = Some cs.

Lemma flight0_extension_spec cfg ext s cs s1 : hello_inv s cs s1 →
  wp (flight0_extension cfg ext) (λ _, hello_inv s cs) (λ r s', kept s s' ∧ r.1.1 = None) s1.
Proof. intros ((Hc & Hk & Hi) & Hcs). unfold flight0_extension. wp_run; done. Qed.

Lemma flight0Parse_spec cfg s : wp (flight0Parse cfg) (flight0_result cfg s) (flight0_result cfg s) s.
Proof.
  unfold flight0Parse. wp_run; try (by split; [|intros ? [=]]).
  assert (hello_with_session (h_cache s) (ch_SessionID m0)) as Hh by (by eapply session_hello_pulled).
  apply (wp_for_each _ _ (hello_inv s c)).
  - done.
  - intros ext s1 _ Hs1. eapply wp_mono; [by apply flight0_extension_spec|done|]. intros r s' [Hk Hr].
    split; [done|]. by rewrite Hr.
  - intros s1 ((Hc & Hk & Hi) & Hcs). wp_step. wp_step. cbn [h_state h_cache h_world h_keylog].
    set (st := match st_RemoteConnectionID (h_state s1) with Some _ => _ | None => _ end).
    assert (st_Cookie st = st_Cookie (h_state s) ∧ st_IsClient st = st_IsClient (h_state s) ∧ st_CipherSuite st = Some c) as (Hk' & Hi' & Hcs').
    { unfold st. by destruct (st_RemoteConnectionID (h_state s1)). }
    clearbody st. wp_run; try (by split; [|intros ? [=]]);
      (eapply wp_mono; [apply handleHelloResume_spec; cbn [h_state h_cache]; [st_simpl; congruence..|done|by rewrite Hc]| |]);
      intros r s' [(Hc1 & Hk1 & Hi1) Hr]; (split; [|exact Hr]); cbn in *; split_and!; congruence.
Qed.

(** The ClientHello that flight 2 waits for. *)
Definition cookie_echoed cfg s : Prop :=
  ∃ startSeq seq msgs ch, FullPullMap (h_cache s) startSeq (st_CipherSuite (h_state s)) [epoch0 cfg TypeClientHello true false] = Ok (Some (seq, msgs)) ∧
    msgs !! TypeClientHello = Some (ClientHello ch) ∧ ch_Cookie ch = st_Cookie (h_state s) ∧ st_Cookie (h_state s) ≠ [].

Lemma flight2Parse_spec cfg s : wp (flight2Parse cfg)
  (λ r s', flight0_result cfg s r s' ∨ (kept s s' ∧ st_CipherSuite (h_state s') = st_CipherSuite (h_state s) ∧
     st_LocalKeypair (h_state s') = st_LocalKeypair (h_state s) ∧ (∀ f, r.1.1 = Some f → f = Flight4 ∧ cookie_echoed cfg s)))
  (flight0_result cfg s) s.
Proof.
  unfold flight2Parse. wp_run; try (right; split_and!; [done..|by intros f [=]]).
  - right. split_and!; [done..|]. intros f [= <-]. split; [done|].
    apply negb_false_iff, bool_decide_eq_true in Heqb1. revert Heqb1. st_simpl. intros Ec. apply Z.eqb_neq in Heqb0.
    exists (st_HandshakeRecvSequence (h_state s)), z, g, m0. split_and!; [done..|]. rewrite Ec. by intros E; rewrite E in Heqb0.
  - eapply wp_mono; [apply flight0Parse_spec|auto..].
Qed.

(** ** The client's certificate *)

(** What the connection may change of the state: epochs and sequence numbers. *)
Definition quiet (st st' : State) : Prop :=
  ∃ seqs le re, st' = st <| st_LocalSequenceNumber := seqs |> <| st_LocalEpoch := le |> <| st_RemoteEpoch := re |>.

(** The type of a cached message of the peer is the type in its header. *)
Definition cache_typed (isClient : bool) (h : Cache) : Prop :=
  Forall (λ i, it_IsClient i = negb isClient → ∀ kx hd m, Handshake_Unmarshal kx (it_Data i) = Ok (hd, m) → Message_Type m = it_Typ i) h.

Definition typed s : Prop := cache_typed (st_IsClient (h_state s)) (h_cache s).

Lemma typed_same s s' : st_IsClient (h_state s') = st_IsClient (h_state s) → h_cache s' = h_cache s → typed s → typed s'.
Proof. unfold typed. by intros -> ->. Qed.

(** The cache only grows. *)
Definition grows (h h' : Cache) : Prop := ∃ new, h' = h ++ new.

Lemma grows_refl h : grows h h.
Proof. exists []. by rewrite app_nil_r. Qed.

(** What the flights rely on: processing the queued packets changes of the state
    only the epoch, and adds messages to the cache. *)
Record conn_ok c : Prop := {
  co_state s r s' : HandleQueuedPackets c s = (r, s') → quiet (h_state s) (h_state s');
  co_cache s r s' : HandleQueuedPackets c s = (r, s') → grows (h_cache s) (h_cache s');
  co_typed s r s' : HandleQueuedPackets c s = (r, s') → typed s → typed s'
}.

(** The client has signed the handshake with the key of the first certificate,
    with a scheme that the server offers; the chain was verified if the
    configuration says so, and accepted by the application. *)
Definition client_verified cfg (cache : Cache) (certs : list bytes) : Prop :=
  (∃ v, listed (cf_LocalSignatureSchemes cfg) (cv_HashAlgorithm v) (cv_SignatureAlgorithm v) = true ∧
     VerifyCertificateVerify (PullAndMerge cache (key_exchange_rules cfg)) (cv_HashAlgorithm v) (cv_SignatureAlgorithm v) (cv_Signature v) certs = Ok tt) ∧
  ∃ chains, (VerifyClientCertIfGiven ≤ cf_ClientAuth cfg → VerifyClientCert certs (cf_ClientCAs cfg) (certAlgs cfg) = Ok chains) ∧
    (∀ verify, cf_VerifyPeerCertificate cfg = Some verify → ∃ w w', verify certs chains w = (Ok tt, w')).

Lemma verify_peer_certificate_spec {R} cfg chains (onerr : dtls_error → R) s :
  wp (verify_peer_certificate cfg chains onerr)
    (λ _ s', h_state s' = h_state s ∧ h_cache s' = h_cache s ∧
       ∀ verify, cf_VerifyPeerCertificate cfg = Some verify → ∃ w w', verify (st_PeerCertificates (h_state s)) chains w = (Ok tt, w'))
    (λ r s', ∃ e, r = onerr e) s.
Proof.
  unfold verify_peer_certificate. wp_run; [|by eexists|done].
  split_and!; [done..|]. intros verify [= <-]. destruct x. by do 2 eexists.
Qed.

Lemma flight4_verify_spec cfg v s : wp (flight4_verify cfg v)
  (λ _ s', h_cache s' = h_cache s ∧
     h_state s' = (h_state s) <| st_PeerCertificatesVerified := VerifyClientCertIfGiven <=? cf_ClientAuth cfg |> ∧
     client_verified cfg (h_cache s) (st_PeerCertificates (h_state s)))
  (λ r _, r.1.1 = None) s.
Proof.
  unfold flight4_verify. wp_step. wp_step. destruct (st_PeerCertificates (h_state s)) as [|cert certs] eqn:Ec; [by wp_run|].
  wp_run; try done;
    (eapply wp_mono; [apply verify_peer_certificate_spec| |by intros r s' [e ->]]);
    intros _ s' (Es & Ecc & Hv); wp_run; rewrite Es, Ecc; split_and!; try done;
    (split; [exists v; split; [by apply negb_false_iff|by destruct a]|]); rewrite Ec in Hv.
  - by exists a0.
  - exists []. split; [|done]. intros Hle. apply Z.leb_gt in Heqb0. lia.
Qed.

(** Deriving the keys changes neither the certificates nor the suite. *)
Definition same_client s s' : Prop :=
  h_cache s' = h_cache s ∧ st_PeerCertificates (h_state s') = st_PeerCertificates (h_state s) ∧
  st_PeerCertificatesVerified (h_state s') = st_PeerCertificatesVerified (h_state s) ∧ st_CipherSuite (h_state s') = st_CipherSuite (h_state s).

Lemma flight4_premaster_spec cfg cs m s : wp (flight4_premaster cfg cs m) (λ _ s', same_client s s') (λ r _, r.1.1 = None) s.
Proof. unfold flight4_premaster. wp_run; done. Qed.

Lemma flight4_keys_spec cfg cs m s : wp (flight4_keys cfg cs m) (λ _ s', same_client s s') (λ r _, r.1.1 = None) s.
Proof.
  unfold flight4_keys. wp_run; [done|]. eapply wp_mono; [apply flight4_premaster_spec| |done].
  intros pms s1 (Hc & Hp & Hv & Hs). wp_run; try done; split_and!; st_simpl; done.
Qed.

Lemma flight4_client_auth_spec cfg s : wp (flight4_client_auth cfg)
  (λ _ s', s' = s ∧ (cf_ClientAuth cfg = RequireAnyClientCert ∨ cf_ClientAuth cfg = RequireAndVerifyClientCert → st_PeerCertificates (h_state s) ≠ []))
  (λ r _, r.1.1 = None) s.
Proof.
  unfold flight4_client_auth. destruct (st_PeerCertificates (h_state s)) as [|cert certs] eqn:Ep; [|by wp_run].
  wp_run; try done; rewrite ?Ep in *; try done; (split; [done|]); intros [Ha|Ha]; rewrite Ha in *; done.
Qed.

Lemma verify_connection_spec {R} cfg (onerr : dtls_error → R) s :
  wp (verify_connection cfg onerr) (λ _ s', h_state s' = h_state s ∧ h_cache s' = h_cache s) (λ r _, ∃ e, r = onerr e) s.
Proof. unfold verify_connection. wp_run; [done|by eexists|done]. Qed.

Definition flight4_result cfg s (r : presult) s' : Prop :=
  ∀ f, r.1.1 = Some f → f = Flight6 ∧ ∃ cs, st_CipherSuite (h_state s') = Some cs ∧
    let certs := st_PeerCertificates (h_state s') in
    (certs ≠ [] → client_verified cfg (h_cache s) certs) ∧
    (CipherSuite.AuthenticationType cs ≠ CipherSuite.AuthenticationTypeAnonymous →
     cf_ClientAuth cfg = RequireAnyClientCert ∨ cf_ClientAuth cfg = RequireAndVerifyClientCert → certs ≠ []).

(** Waiting for the Finished message, with certificates that are verified. *)
Definition certs_verified cfg s s1 : Prop :=
  h_cache s1 = h_cache s ∧ (st_PeerCertificates (h_state s1) ≠ [] → client_verified cfg (h_cache s) (st_PeerCertificates (h_state s1))).

Lemma flight4_finished_spec c cfg seq s s1 : conn_ok c → certs_verified cfg s s1 →
  wp (flight4_finished c cfg seq) (flight4_result cfg s) (flight4_result cfg s) s1.
Proof.
  intros Hc [Ecache Hv]. unfold flight4_finished. wp_step. apply wp_handle_queued. intros r s2 Hq.
  destruct (co_state _ Hc _ _ _ Hq) as (seqs & le & re & Es2). split; [intros ->|by intros err -> f [=]].
  wp_run; try (by intros f [=]).
  - eapply wp_mono; [apply verify_connection_spec| |by intros r s' [err ->] f [=]].
    intros _ s3 [Es3 _]. apply wp_val. intros f [= <-]. split; [done|]. exists a.
    rewrite Es3. cbn [h_state]. rewrite Es2 in *. revert H6. st_simpl. intros H6. split_and!; [done..|].
    intros Ha. by apply Z.eqb_eq in Heqb.
  - eapply wp_mono; [apply flight4_client_auth_spec| |by intros r s' Er f; rewrite Er].
    intros _ s3 [-> Ha]. wp_step. eapply wp_mono; [apply verify_connection_spec| |by intros r s' [err ->] f [=]].
    intros _ s3 [Es3 _]. apply wp_val. intros f [= <-]. split; [done|]. exists a.
    rewrite Es3. cbn [h_state] in *. rewrite Es2 in *. revert H6 Ha. st_simpl. done.
Qed.

Lemma flight4Parse_spec c cfg s : conn_ok c → wp (flight4Parse c cfg) (flight4_result cfg s) (flight4_result cfg s) s.
Proof.
  intros Hc. unfold flight4Parse. do 4 wp_step. destruct o as [[seq msgs]|]; [|by apply wp_val].
  assert (∀ s', flight4_result cfg s (alert_only InternalError) s') as Ha by (by intros s' f [=]).
  assert (∀ s' (r : presult), r.1.1 = None → flight4_result cfg s r s') as Hn by (intros s' r Er f; by rewrite Er).
  destruct (msgs !! TypeClientKeyExchange) as [[]|]; try (by apply wp_val). wp_step.
  apply (wp_mono _ (λ _ s1, h_cache s1 = h_cache s) _ (λ r _, r.1.1 = None)); [wp_run; done| |by auto].
  intros _ s1 Es1. wp_step.
  apply (wp_mono _ (λ _ s2, certs_verified cfg s s2) _ (λ r _, r.1.1 = None)); [| |by auto].
  - assert (wp (certs ← gets st_PeerCertificates; if negb (len certs =? 0) then ret keep_reading else val tt)
              (λ _ s2, certs_verified cfg s s2) (λ r _, r.1.1 = None) s1) as Hnone.
    { wp_run; [done|]. split; [done|]. intros Hne. apply negb_false_iff, Z.eqb_eq, len_zero_nil in Heqb. done. }
    destruct (msgs !! TypeCertificateVerify) as [[]|]; try exact Hnone.
    eapply wp_mono; [apply flight4_verify_spec| |done]. intros _ s2 (Ec2 & Es2 & Hv). split; [congruence|]. intros _.
    rewrite Es2. st_simpl. by rewrite <- Es1.
  - intros _ s2 [Ec2 Hv2]. wp_step. wp_step. wp_step. eapply wp_mono; [apply flight4_keys_spec| |by auto].
    intros _ s3 (Ec3 & Ep3 & _ & _). wp_step.
    apply (wp_mono _ (λ _ s4, certs_verified cfg s s4) _ (λ r _, r.1.1 = None)); [| |by auto].
    + unfold flight4_save, certs_verified. rewrite <- Ec2, <- Ec3 in *. wp_run; try done; rewrite Ep3; (split; [congruence|]); done.
    + intros _ s4 Hs4. by apply flight4_finished_spec.
Qed.

(** ** The server's certificate *)

(** The server has signed a key exchange with the key of its first certificate,
    with a scheme that the client offers; the chain was verified unless the
    configuration says otherwise, and accepted by the application. *)
Definition server_verified cfg (certs : list bytes) (clientRandom serverRandom : bytes) (m : MessageServerKeyExchange) : Prop :=
  listed (cf_LocalSignatureSchemes cfg) (sk_HashAlgorithm m) (sk_SignatureAlgorithm m) = true ∧
  VerifyKeySignature (ValueKeyMessage clientRandom serverRandom (sk_PublicKey m) (sk_NamedCurve m)) (sk_Signature m)
    (sk_HashAlgorithm m) (sk_SignatureAlgorithm m) certs = Ok tt ∧
  ∃ chains, (cf_InsecureSkipVerify cfg = false → VerifyServerCert certs (cf_RootCAs cfg) (cf_ServerName cfg) (certAlgs cfg) = Ok chains) ∧
    (∀ verify, cf_VerifyPeerCertificate cfg = Some verify → ∃ w w', verify certs chains w = (Ok tt, w')).

Lemma verify_server_spec cfg m cr sr s : wp (verify_server cfg m cr sr)
  (λ _ s', h_state s' = h_state s ∧ h_cache s' = h_cache s ∧ server_verified cfg (st_PeerCertificates (h_state s)) cr sr m) (λ _ _, True) s.
Proof.
  unfold verify_server. wp_run; try done;
    (eapply wp_mono; [apply verify_peer_certificate_spec| |done]); intros _ s' (Es & Ec & Hv); split_and!; try done;
    (split; [by apply negb_false_iff|]); (split; [by destruct a|]); eexists; (split; [|done]); congruence.
Qed.

(** The client's keys: the secret is computed from the premaster secret of the
    state, and the suite is initialised with it. *)
Definition client_keys cfg s sending s' : Prop :=
  ∃ cs p, let st := h_state s in
    let cr := MarshalFixed (st_LocalRandom st) in let sr := MarshalFixed (st_RemoteRandom st) in
    let secret := st_MasterSecret (h_state s') in
    st_CipherSuite st = Some cs ∧ h_cache s' = h_cache s ∧
    h_state s' = st <| st_MasterSecret := secret |> <| st_Protection := Some p |> ∧
    (if st_ExtendedMasterSecret st
     then Prf.ExtendedMasterSecret (st_PreMasterSecret st) (SessionHash (h_cache s) (CipherSuite.HashFunc cs) (cf_InitialEpoch cfg) [sending]) (CipherSuite.HashFunc cs)
     else Prf.MasterSecret (st_PreMasterSecret st) cr sr (CipherSuite.HashFunc cs)) = Ok secret ∧
    CipherSuite.Init cs secret cr sr true = Ok p.

Lemma initializeCipherSuite_spec cfg m sending s : st_Protection (h_state s) = None → wp (initializeCipherSuite cfg m sending)
  (λ _ s', client_keys cfg s sending s' ∧ ∃ cs, st_CipherSuite (h_state s) = Some cs ∧
     (CipherSuite.AuthenticationType cs = CipherSuite.AuthenticationTypeCertificate →
      server_verified cfg (st_PeerCertificates (h_state s)) (MarshalFixed (st_LocalRandom (h_state s))) (MarshalFixed (st_RemoteRandom (h_state s))) m))
  (λ _ _, True) s.
Proof.
  intros Hp. unfold initializeCipherSuite. do 4 wp_step. cbn [id].
  assert (IsInitialized (h_state s) = false) as -> by (unfold IsInitialized; by rewrite Hp).
  wp_step. wp_step. wp_step.
  apply (wp_mono _ (λ secret s1, s1 = s ∧ (if st_ExtendedMasterSecret (h_state s)
     then Prf.ExtendedMasterSecret (st_PreMasterSecret (h_state s)) (SessionHash (h_cache s) (CipherSuite.HashFunc a) (cf_InitialEpoch cfg) [sending]) (CipherSuite.HashFunc a)
     else Prf.MasterSecret (st_PreMasterSecret (h_state s)) (MarshalFixed (st_LocalRandom (h_state s))) (MarshalFixed (st_RemoteRandom (h_state s))) (CipherSuite.HashFunc a)) = Ok secret)
     _ (λ _ _, True)); [wp_run; done| |done].
  intros secret s1 [-> Hsecret]. do 3 wp_step. cbn [h_state h_cache h_world h_keylog].
  apply (wp_mono _ (λ _ s1, h_cache s1 = h_cache s ∧ h_state s1 = (h_state s) <| st_MasterSecret := secret |> ∧
     (CipherSuite.AuthenticationType a = CipherSuite.AuthenticationTypeCertificate →
      server_verified cfg (st_PeerCertificates (h_state s)) (MarshalFixed (st_LocalRandom (h_state s))) (MarshalFixed (st_RemoteRandom (h_state s))) m))
     _ (λ _ _, True)); [| |done].
  { wp_step.
    - eapply wp_mono; [apply verify_server_spec| |done]. intros _ s1 (Es & Ec & Hv). revert Es Ec Hv. cbn [h_state h_cache]. st_simpl. done.
    - wp_run. split_and!; [done..|]. intros Ha. by apply Z.eqb_neq in Heqb. }
  intros _ s1 (Ec1 & Es1 & Hv). wp_step. eapply wp_mono; [apply verify_connection_spec| |done].
  intros _ s2 (Es2 & Ec2). wp_run; [|done]. split; [|by exists a].
  exists a, a0. cbn [h_state h_cache]. rewrite Es2, Es1. st_simpl. split_and!; [done|congruence|done..].
Qed.

(** What identifies the peer and the session in the state. *)
Definition same_peer s s' : Prop :=
  h_cache s' = h_cache s ∧ st_CipherSuite (h_state s') = st_CipherSuite (h_state s) ∧ st_Protection (h_state s') = st_Protection (h_state s) ∧
  st_PeerCertificates (h_state s') = st_PeerCertificates (h_state s) ∧ st_LocalRandom (h_state s') = st_LocalRandom (h_state s) ∧
  st_RemoteRandom (h_state s') = st_RemoteRandom (h_state s) ∧ st_IsClient (h_state s') = st_IsClient (h_state s) ∧
  st_ExtendedMasterSecret (h_state s') = st_ExtendedMasterSecret (h_state s).

Lemma same_peer_trans s1 s2 s3 : same_peer s1 s2 → same_peer s2 s3 → same_peer s1 s3.
Proof. unfold same_peer. intuition congruence. Qed.

Lemma handleServerKeyExchange_spec cfg m s : wp (handleServerKeyExchange cfg m) (λ _ s', same_peer s s') (λ _ _, True) s.
Proof. unfold handleServerKeyExchange. wp_run; done. Qed.

Lemma flight5_certificate_spec cfg s : wp (flight5_certificate cfg) (λ _ s', same_peer s s') (λ r _, r.2 ≠ None) s.
Proof. unfold flight5_certificate. wp_run; done. Qed.

(** A ServerKeyExchange message that the client has received. *)
Definition key_exchange_rule cfg : HandshakeCachePullRule := epoch0 cfg TypeServerKeyExchange false false.

Definition received_kx cfg (h : Cache) (cs : CipherSuite.CipherSuite) (m : MessageServerKeyExchange) : Prop :=
  ∃ i hd, i ∈ h ∧ cacheItemMatchesRule i (key_exchange_rule cfg) = true ∧
    Handshake_Unmarshal (CipherSuite.KeyExchangeAlgorithm cs) (it_Data i) = Ok (hd, ServerKeyExchange m).

(** The client has received at most one, perhaps several times. *)
Definition one_key_exchange cfg (h : Cache) : Prop := ∀ i j, i ∈ h → j ∈ h →
  cacheItemMatchesRule i (key_exchange_rule cfg) = true → cacheItemMatchesRule j (key_exchange_rule cfg) = true → it_Data i = it_Data j.

Lemma received_unique cfg h cs m m' : one_key_exchange cfg h → received_kx cfg h cs m → received_kx cfg h cs m' → m = m'.
Proof.
  intros Ho (i & hd & Hi & Hm & Hu) (j & hd' & Hj & Hm' & Hu'). rewrite (Ho i j) in Hu by done. congruence.
Qed.

Lemma received_grows cfg h h' cs m : grows h h' → received_kx cfg h cs m → received_kx cfg h' cs m.
Proof. intros [new ->] (i & hd & Hi & Hr). exists i, hd. split; [by apply elem_of_app; left|done]. Qed.

(** The premaster secret of the key of such a message and a new key pair. *)
Definition premaster_of (m : MessageServerKeyExchange) (pms : bytes) : Prop :=
  ∃ r k, KeyExchange.GenerateKeypair (sk_NamedCurve m) r = Ok k ∧
    KeyExchange.PreMasterSecret (sk_PublicKey m) (KeyExchange.kp_PrivateKey k) (KeyExchange.kp_Curve k) = Ok pms.

Lemma handleServerKeyExchange_premaster cfg m s : cf_LocalPSKCallback cfg = None →
  wp (handleServerKeyExchange cfg m) (λ _ s', premaster_of m (st_PreMasterSecret (h_state s'))) (λ _ _, True) s.
Proof. intros Hn. unfold handleServerKeyExchange. rewrite Hn. wp_run; try done. st_simpl. by do 2 eexists. Qed.

Lemma merged_item h r : len (PullAndMerge h [r]) ≠ 0 → ∃ i, i ∈ h ∧ cacheItemMatchesRule i r = true ∧ PullAndMerge h [r] = it_Data i.
Proof.
  unfold PullAndMerge, merge, Pull. cbn [map concat]. rewrite app_nil_r. pose proof (last_best h r) as Hb.
  destruct (lastCacheItemForRule h r) as [i|]; [|done]. destruct Hb as (Hi & Hm & _). by exists i.
Qed.

(** The key exchange whose signature is checked: without a shared key nothing
    else changes. *)
Lemma cached_key_exchange_spec cfg s : wp (cached_key_exchange cfg)
  (λ m s', same_peer s s' ∧ (cf_LocalPSKCallback cfg = None → h_state s' = h_state s ∧
     ∀ cs, st_CipherSuite (h_state s) = Some cs → received_kx cfg (h_cache s) cs m)) (λ r _, r.2 ≠ None) s.
Proof.
  unfold cached_key_exchange. do 3 wp_step.
  - wp_step. wp_step. assert (wp (handleServerKeyExchange cfg empty_key_exchange) (λ _ _, cf_LocalPSKCallback cfg ≠ None) (λ _ _, True) s) as Hn.
    { destruct (cf_LocalPSKCallback cfg) eqn:E; [by unfold wp; destruct (handleServerKeyExchange _ _ _) as [[]]|].
      eapply wp_mono; [by apply handleServerKeyExchange_premaster| |done]. by intros ? ? (r & k & [=] & _). }
    eapply wp_mono; [apply wp_conj; [apply handleServerKeyExchange_spec|exact Hn]| |by intros [a e] s' _].
    intros ? s' [Hs Hne]. by apply wp_val.
  - apply Z.eqb_neq, merged_item in Heqb as (i & Hi & Hm & Ed). rewrite Ed. wp_run; try done. split; [done|]. intros _. split; [done|].
    intros cs Hcs. simplify_eq. by exists i, h.
Qed.

Lemma marshal_packets_spec seq ps s : wp (marshal_packets seq ps) (λ _ s', s' = s) (λ r _, r.2 ≠ None) s.
Proof.
  revert seq. induction ps as [|p ps IH]; intros seq; cbn [marshal_packets]; [by apply wp_val|]. wp_run; try done.
  eapply wp_mono; [apply IH| |done]. intros [ps' raws] s' ->. by apply wp_val.
Qed.

(** The client's master secret is that of the key in this message. *)
Definition secret_from cfg s (cs : CipherSuite.CipherSuite) (m : MessageServerKeyExchange) : Prop :=
  let st := h_state s in
  ∃ pms, premaster_of m pms ∧
    if st_ExtendedMasterSecret st
    then ∃ h0 sending, grows h0 (h_cache s) ∧
      Prf.ExtendedMasterSecret pms (SessionHash h0 (CipherSuite.HashFunc cs) (cf_InitialEpoch cfg) [sending]) (CipherSuite.HashFunc cs) = Ok (st_MasterSecret st)
    else Prf.MasterSecret pms (MarshalFixed (st_LocalRandom st)) (MarshalFixed (st_RemoteRandom st)) (CipherSuite.HashFunc cs) = Ok (st_MasterSecret st).

(** The client's keys are those of its master secret.  With a certificate, the
    server has signed one of the key exchanges that were received, and the secret
    is that of one of them; with one key exchange they are the same. *)
Definition server_authenticated cfg s : Prop :=
  let st := h_state s in let cr := MarshalFixed (st_LocalRandom st) in let sr := MarshalFixed (st_RemoteRandom st) in
  ∃ cs p, st_CipherSuite st = Some cs ∧ st_Protection st = Some p ∧ CipherSuite.Init cs (st_MasterSecret st) cr sr true = Ok p ∧
    (CipherSuite.AuthenticationType cs = CipherSuite.AuthenticationTypeCertificate →
     ∃ m m', received_kx cfg (h_cache s) cs m ∧ server_verified cfg (st_PeerCertificates st) cr sr m ∧
       received_kx cfg (h_cache s) cs m' ∧ secret_from cfg s cs m' ∧ (one_key_exchange cfg (h_cache s) → m' = m)).

(** What flight 3 has left: a suite with certificates has the premaster secret of
    a received key exchange. *)
Definition kx_done cfg s : Prop := ∀ cs, st_CipherSuite (h_state s) = Some cs →
  CipherSuite.AuthenticationType cs = CipherSuite.AuthenticationTypeCertificate →
  cf_LocalPSKCallback cfg = None ∧ ∃ m, received_kx cfg (h_cache s) cs m ∧ premaster_of m (st_PreMasterSecret (h_state s)).

(** What the flights leave alone in the state and the cache. *)
Definition frame s s' : Prop :=
  st_IsClient (h_state s') = st_IsClient (h_state s) ∧ st_Cookie (h_state s') = st_Cookie (h_state s) ∧ h_cache s' = h_cache s.

Lemma frame_trans s1 s2 s3 : frame s1 s2 → frame s2 s3 → frame s1 s3.
Proof. unfold frame. intuition congruence. Qed.

Lemma handleServerKeyExchange_frame cfg m s : wp (handleServerKeyExchange cfg m) (λ _ s', frame s s') (λ _ s', frame s s') s.
Proof. unfold handleServerKeyExchange. wp_run; done. Qed.

Lemma cached_key_exchange_frame cfg s : wp (cached_key_exchange cfg) (λ _ s', frame s s') (λ _ s', frame s s') s.
Proof.
  unfold cached_key_exchange. do 3 wp_step; [|wp_run; done]. wp_step. wp_step.
  eapply wp_mono; [apply handleServerKeyExchange_frame| |by intros [a e] s0 ?]. intros ? s' Hs. by apply wp_val.
Qed.

Lemma initializeCipherSuite_frame cfg m sending s : wp (initializeCipherSuite cfg m sending) (λ _ s', frame s s') (λ _ s', frame s s') s.
Proof. unfold initializeCipherSuite, verify_server, verify_connection, verify_peer_certificate. wp_run; done. Qed.

Lemma flight5_finish_spec cfg signer pkts sending seq s : server_authenticated cfg s →
  wp (flight5_finish cfg signer pkts sending seq) (λ _ s', server_authenticated cfg s' ∧ frame s s') (λ r _, r.2 ≠ None) s.
Proof. intros Ha. unfold flight5_finish, flight5_verify, local_verify_data. wp_run; try done; by split. Qed.

(** The certificate and the client's key exchange leave the premaster secret. *)
Definition same_secret s s' : Prop := same_peer s s' ∧ st_PreMasterSecret (h_state s') = st_PreMasterSecret (h_state s).

(** The signature is verified and the keys are made. *)
Lemma keys_authenticated cfg m sending s s' cs : st_CipherSuite (h_state s) = Some cs →
  client_keys cfg s sending s' →
  (CipherSuite.AuthenticationType cs = CipherSuite.AuthenticationTypeCertificate →
   server_verified cfg (st_PeerCertificates (h_state s)) (MarshalFixed (st_LocalRandom (h_state s))) (MarshalFixed (st_RemoteRandom (h_state s))) m ∧
   received_kx cfg (h_cache s) cs m ∧ ∃ m', received_kx cfg (h_cache s) cs m' ∧ premaster_of m' (st_PreMasterSecret (h_state s))) →
  server_authenticated cfg s'.
Proof.
  intros Hcs (cs' & p & Hcs' & Ec & Es & Hsecret & Hinit) Hv. rewrite Hcs in Hcs'. injection Hcs' as <-. revert Es Hsecret Hinit.
  set (secret := st_MasterSecret (h_state s')). clearbody secret. intros Es Hsecret Hinit.
  exists cs, p. rewrite Ec, Es. st_simpl. split_and!; [done..|]. intros Ha. destruct (Hv Ha) as (Hm & Hr & m' & Hr' & Hp).
  exists m, m'. split_and!; [done..| |intros Ho; by eapply received_unique].
  exists (st_PreMasterSecret (h_state s)). split; [done|]. rewrite Es, Ec. st_simpl. destruct (st_ExtendedMasterSecret (h_state s)); [|done].
  exists (h_cache s), sending. split; [apply grows_refl|done].
Qed.

Lemma flight5Generate_spec cfg s : st_Protection (h_state s) = None → kx_done cfg s →
  wp (flight5Generate cfg) (λ r s', server_authenticated cfg s' ∧ frame s s') (λ r _, r.2 ≠ None) s.
Proof.
  intros Hp Hkx. unfold flight5Generate. wp_step. wp_step. wp_step. cbn [id].
  apply (wp_mono _ (λ _ s1, same_secret s s1 ∧ frame s s1) _ (λ r _, r.2 ≠ None)); [| |done].
  { wp_step; [|by wp_run]. unfold flight5_certificate. wp_run; done. }
  intros [certificate signer] s1 Hs1. wp_step.
  apply (wp_mono _ (λ _ s2, same_secret s s2 ∧ frame s s2) _ (λ r _, r.2 ≠ None)); [unfold client_key_exchange; wp_run; done| |done].
  intros cke s2 [[Hs2 Epms] Hf2]. wp_step.
  eapply wp_mono; [apply wp_conj; [apply cached_key_exchange_spec|apply cached_key_exchange_frame]| |by intros r s' []]. intros m s3 [[Hs3 Hkx3] Hf3]. wp_step.
  eapply wp_mono; [apply marshal_packets_spec| |done]. intros [pkts sending] s4 ->. wp_step. wp_step.
  destruct (same_peer_trans _ _ _ Hs2 Hs3) as (Ec3 & Ecs & Epr & _).
  eapply wp_mono; [apply wp_conj; [apply initializeCipherSuite_spec; congruence|apply initializeCipherSuite_frame]| |by intros [a e] s0 _].
  intros _ s5 [[Hkeys (cs & Hcs & Hv)] Hf5]. eapply wp_mono; [apply flight5_finish_spec| |done].
  - eapply keys_authenticated; [done..|]. intros Ha. rewrite Ecs in Hcs. destruct (Hkx cs Hcs Ha) as (Hn & m' & Hr' & Hp').
    destruct (Hkx3 Hn) as [Es3 Hr3]. destruct Hs2 as (Ec2 & Ecs2 & _). rewrite Ec2, Ecs2 in Hr3. rewrite Ec3. split_and!; [by apply Hv|by apply Hr3|].
    exists m'. split; [done|]. by rewrite Es3, Epms.
  - intros r s6 [Ha Hf6]. split; [done|]. eauto using frame_trans.
Qed.

(** ** Finished messages *)

(** The peer's Finished message under the new keys carries the verify data of the
    transcript of these rules. *)
Definition finished_verified cfg s (isClient : bool) (verifyData : bytes → bytes → Hash → res dtls_error bytes) (rules : list HandshakeCachePullRule) : Prop :=
  ∃ cs startSeq seq msgs d, st_CipherSuite (h_state s) = Some cs ∧
    FullPullMap (h_cache s) startSeq (Some cs) [epoch1 cfg TypeFinished isClient false] = Ok (Some (seq, msgs)) ∧
    msgs !! TypeFinished = Some (Finished d) ∧
    verifyData (st_MasterSecret (h_state s)) (PullAndMerge (h_cache s) rules) (CipherSuite.HashFunc cs) = Ok d.

Lemma flight5Parse_spec c cfg s : wp (flight5Parse c cfg)
  (λ r s', h_state s' = h_state s ∧ h_cache s' = h_cache s ∧
     ∀ f, r.1.1 = Some f → f = Flight5 ∧ finished_verified cfg s false Prf.VerifyDataServer (full_rules cfg))
  (λ r s', h_state s' = h_state s ∧ h_cache s' = h_cache s ∧ r.1.1 = None) s.
Proof.
  unfold flight5Parse. wp_run; try done; (split_and!; [done..|]); intros f [= <-]; (split; [done|]);
    apply negb_false_iff, bool_decide_eq_true in Heqb; subst; rewrite H6 in *; exists a; by do 4 eexists.
Qed.

Lemma flight4bParse_spec cfg s : wp (flight4bParse cfg)
  (λ r s', s' = s ∧ ∀ f, r.1.1 = Some f → f = Flight4b ∧
     finished_verified cfg s true Prf.VerifyDataClient (hello_rules cfg ++ [epoch1 cfg TypeFinished false false]))
  (λ r s', s' = s ∧ r.1.1 = None) s.
Proof.
  unfold flight4bParse. wp_run; try done; (split_and!; [done..|]); intros f [= <-]; (split; [done|]);
    apply negb_false_iff, bool_decide_eq_true in Heqb; subst; rewrite H6 in *; exists a; by do 4 eexists.
Qed.

(** ** The client's first flights *)

(** The session that a client offers: none, or one of the store.  The secret is
    empty after a ServerHello with another session ID. *)
Definition stored_session cfg (st : State) : Prop :=
  ∃ key w w', cf_GetSession cfg key w = (Ok (Some (st_SessionID st), st_MasterSecret st), w').

Definition session_offered cfg (st : State) : Prop :=
  (st_SessionID st = [] ∨ st_MasterSecret st = [] ∨ stored_session cfg st) ∧ (cf_HasSessionStore cfg = false → st_SessionID st = []).

(** The session that a client resumes. *)
Definition client_resumed cfg (st : State) : Prop :=
  cf_HasSessionStore cfg = true ∧ st_SessionID st ≠ [] ∧ (st_MasterSecret st = [] ∨ stored_session cfg st).

Lemma session_same cfg st st' : st_SessionID st' = st_SessionID st → st_MasterSecret st' = st_MasterSecret st →
  (session_offered cfg st → session_offered cfg st') ∧ (client_resumed cfg st → client_resumed cfg st').
Proof. unfold session_offered, client_resumed, stored_session. by intros -> ->. Qed.

Lemma offered_resumed cfg st : session_offered cfg st → st_SessionID st ≠ [] → client_resumed cfg st.
Proof. intros [Ho Hs] Hne. split_and!; [|done|by destruct Ho]. destruct (cf_HasSessionStore cfg); [done|]. by destruct Hne; apply Hs. Qed.

(** The state a handshake of the client keeps until it has keys. *)
Definition no_keys cfg s s' : Prop :=
  h_cache s' = h_cache s ∧ st_IsClient (h_state s') = st_IsClient (h_state s) ∧ session_offered cfg (h_state s') ∧
  st_Protection (h_state s') = None.

Definition client_result cfg s (r : presult) s' : Prop :=
  st_IsClient (h_state s') = st_IsClient (h_state s) ∧ grows (h_cache s) (h_cache s') ∧ typed s' ∧ session_offered cfg (h_state s') ∧
  ∀ f, r.1.1 = Some f → f = Flight3 ∨ (f = Flight5 ∧ st_Protection (h_state s') = None ∧ kx_done cfg s') ∨
    (f = Flight5b ∧ finished_verified cfg s' false Prf.VerifyDataServer (hello_rules cfg) ∧ client_resumed cfg (h_state s')).

Lemma client_result_same cfg s r s' : typed s → h_cache s' = h_cache s → st_IsClient (h_state s') = st_IsClient (h_state s) →
  session_offered cfg (h_state s') →
  (∀ f, r.1.1 = Some f → f = Flight3 ∨ (f = Flight5 ∧ st_Protection (h_state s') = None ∧ kx_done cfg s')) → client_result cfg s r s'.
Proof.
  intros Ht Ec Ei Ho Hf. split_and!; [done|rewrite Ec; apply grows_refl|by eapply typed_same|done|]. intros f Ef. destruct (Hf f Ef); auto.
Qed.

Lemma hello_verify_spec cfg h seq s : typed s → session_offered cfg (h_state s) →
  wp (hello_verify h seq) (client_result cfg s) (client_result cfg s) s.
Proof. intros Ht Ho. unfold hello_verify. wp_run; (apply client_result_same; [done..|]); intros f [= <-]; auto. Qed.

Lemma typed_lookup b h startSeq cs rules seq msgs t m : cache_typed b h → FullPullMap h startSeq cs rules = Ok (Some (seq, msgs)) →
  Forall (λ r, ru_IsClient r = negb b) rules → msgs !! t = Some m → Message_Type m = t.
Proof.
  intros Ht Hp Hrs Hl. destruct (FullPullMap_lookup _ _ _ _ _ _ _ _ Hp Hl) as (r & i & s0 & Hr & <- & Hi & Hm & hd & Hu & _).
  unfold cache_typed in Ht. rewrite Forall_forall in Ht. rewrite Forall_forall in Hrs.
  unfold cacheItemMatchesRule in Hm. rewrite !andb_true_iff, !Z.eqb_eq, bool_decide_eq_true in Hm. destruct Hm as [[<- Ei] _].
  eapply (Ht i Hi); [|done]. rewrite Ei. by apply Hrs.
Qed.

(** A rule that is not optional has its message in the result. *)
Lemma mandatory_pulled h startSeq cs rules r seq msgs : r ∈ rules → ru_Optional r = false →
  FullPullMap h startSeq cs rules = Ok (Some (seq, msgs)) → msgs !! ru_Typ r ≠ None.
Proof.
  intros Hr Ho. unfold FullPullMap. destruct (FullPullMapItems _ _ _ _) as [[[z [msgs' items]]|]| |] eqn:Ei; try done. intros [= -> ->].
  apply FullPullMapItems_iff in Ei as (Hall & _ & _ & Hp). rewrite Forall_forall in Hall. specialize (Hall r Hr Ho).
  eapply pulled_as_mandatory; [exact Hp|]. left. destruct (lastCacheItemForRule h r) as [i|] eqn:El; [|done]. exists r, i. split; [|done].
  apply list_elem_of_lookup in Hr as [k Hk]. apply (list_elem_of_lookup_2 _ k). apply lookup_zip_Some. split; [done|].
  unfold Pull. rewrite list_lookup_fmap, Hk. cbn. by rewrite El.
Qed.

(** The rules that flight 3 pulls after the ServerHello. *)
Definition server_rules cfg : list HandshakeCachePullRule :=
  match cf_LocalPSKCallback cfg with
  | Some _ => [epoch0 cfg TypeServerKeyExchange false true; epoch0 cfg TypeServerHelloDone false false]
  | None => [epoch0 cfg TypeCertificate false true; epoch0 cfg TypeServerKeyExchange false false;
             epoch0 cfg TypeCertificateRequest false true; epoch0 cfg TypeServerHelloDone false false]
  end.

(** With a shared key no certificate is pulled. *)
Lemma no_certificate_pulled cfg h startSeq cs seq msgs m : FullPullMap h startSeq cs (server_rules cfg) = Ok (Some (seq, msgs)) →
  msgs !! TypeCertificate = Some m → cf_LocalPSKCallback cfg = None.
Proof.
  intros Hp Hl. destruct (FullPullMap_lookup _ _ _ _ _ _ _ _ Hp Hl) as (r & _ & _ & Hr & Et & _). unfold server_rules in Hr.
  destruct (cf_LocalPSKCallback cfg); [|done]. by rewrite !elem_of_cons, elem_of_nil in Hr; destruct Hr as [->|[->|[]]].
Qed.

(** Without one the key exchange is there. *)
Lemma key_exchange_pulled cfg h startSeq cs seq msgs : cache_typed true h → cf_LocalPSKCallback cfg = None →
  FullPullMap h startSeq (Some cs) (server_rules cfg) = Ok (Some (seq, msgs)) →
  ∃ m, msgs !! TypeServerKeyExchange = Some (ServerKeyExchange m) ∧ received_kx cfg h cs m.
Proof.
  intros Ht Hn Hp. unfold server_rules in Hp. rewrite Hn in Hp.
  assert (msgs !! TypeServerKeyExchange ≠ None) as Hm.
  { refine (mandatory_pulled _ _ _ _ (key_exchange_rule cfg) _ _ _ eq_refl Hp). by apply elem_of_cons; right; apply elem_of_cons; left. }
  destruct (msgs !! TypeServerKeyExchange) as [m|] eqn:El; [|done].
  assert (Message_Type m = TypeServerKeyExchange) as Htyp by (eapply typed_lookup; [exact Ht|exact Hp|by repeat constructor|done]).
  destruct m; try done. eexists. split; [done|].
  destruct (FullPullMap_lookup _ _ _ _ _ _ _ _ Hp El) as (r & i & s0 & Hr & Et & Hi & Hma & hd & Hu & _). exists i, hd. split_and!; [done| |done].
  rewrite !elem_of_cons, elem_of_nil in Hr. by destruct Hr as [->|[->|[->|[->|[]]]]].
Qed.

Lemma flight3_key_exchange_spec cfg s0 s : typed s0 → st_IsClient (h_state s0) = true → no_keys cfg s0 s →
  wp (flight3_key_exchange cfg) (client_result cfg s0) (client_result cfg s0) s.
Proof.
  intros Ht Hcl Hs. unfold flight3_key_exchange. do 4 wp_step. destruct o as [[seq msgs]|].
  2: { destruct Hs as (? & ? & ? & ?). apply wp_val, client_result_same; done. }
  change (match cf_LocalPSKCallback cfg with Some _ => _ | None => _ end) with (server_rules cfg) in H5.
  assert (∀ (r : presult) s', no_keys cfg s0 s' → r.1.1 = None → client_result cfg s0 r s') as Hn.
  { intros r s' (? & ? & ? & ?) Hr. apply client_result_same; [done..|]. intros f. by rewrite Hr. }
  set (cert_suite := λ st, ∃ cs, st_CipherSuite st = Some cs ∧ CipherSuite.AuthenticationType cs = CipherSuite.AuthenticationTypeCertificate).
  do 3 wp_step. apply (wp_mono _ (λ _ s1, no_keys cfg s0 s1 ∧ st_CipherSuite (h_state s1) = st_CipherSuite (h_state s) ∧
    (cert_suite (h_state s1) → cf_LocalPSKCallback cfg = None)) _ (λ r s1, no_keys cfg s0 s1 ∧ r.1.1 = None)); [| |by intros r s' []; auto].
  { assert (∀ m, msgs !! TypeCertificate = Some m → cf_LocalPSKCallback cfg = None) as Hc by (intros m; by eapply no_certificate_pulled).
    wp_run; try done; (split_and!; [done..|]); intros (cs & Hcs & Ha); try (by eapply Hc); simplify_eq; by apply Z.eqb_neq in Heqb. }
  intros _ s1 (Hs1 & Ecs & Hnone). wp_step.
  apply (wp_mono _ (λ _ s1, no_keys cfg s0 s1 ∧ kx_done cfg s1) _ (client_result cfg s0)); [| |done].
  { assert (∀ s2, h_cache s2 = h_cache s1 → st_CipherSuite (h_state s2) = st_CipherSuite (h_state s1) → ∀ cs, st_CipherSuite (h_state s2) = Some cs →
      CipherSuite.AuthenticationType cs = CipherSuite.AuthenticationTypeCertificate → cf_LocalPSKCallback cfg = None ∧
      ∃ m, msgs !! TypeServerKeyExchange = Some (ServerKeyExchange m) ∧ received_kx cfg (h_cache s2) cs m) as Hkx.
    { intros s2 Ec2 Ecs2 cs Hcs Ha. assert (cf_LocalPSKCallback cfg = None) as Hn' by (apply Hnone; exists cs; split; congruence). split; [done|].
      rewrite Ec2. destruct Hs1 as (-> & _). destruct Hs as (Ecc & _). rewrite <- Ecc in *. eapply key_exchange_pulled; [|done|].
      - rewrite Ecc. unfold typed in Ht. by rewrite Hcl in Ht.
      - rewrite Ecs2, Ecs in Hcs. by rewrite Hcs in H5. }
    destruct (msgs !! TypeServerKeyExchange) as [[]|];
      try (apply wp_val; split; [done|]; intros cs Hcs Ha; by destruct (Hkx s1 eq_refl eq_refl cs Hcs Ha) as (_ & m' & [=] & _)).
    wp_step. unfold handleServerKeyExchange. destruct Hs1 as (? & ? & ? & ?). wp_run; try (apply client_result_same; done);
      (split; [done|]); intros cs Hcs Ha; (edestruct Hkx as (Hnn & m' & [= <-] & Hr); [| |exact Hcs|exact Ha|]; [done..|]); try congruence.
    split; [done|]. exists m. split; [done|]. by do 2 eexists. }
  intros _ s2 [(? & ? & ? & ?) Hkx]. wp_run; (apply client_result_same; [done..|]); intros f [= <-]; right; (split_and!; [done..|]); exact Hkx.
Qed.

Lemma flight3_server_hello_spec cfg m s : session_offered cfg (h_state s) → wp (flight3_server_hello cfg m)
  (λ b s', no_keys cfg s s' ∧ (b = true → st_SessionID (h_state s') ≠ []))
  (λ r s', h_cache s' = h_cache s ∧ st_IsClient (h_state s') = st_IsClient (h_state s) ∧ session_offered cfg (h_state s') ∧ r.1.1 = None) s.
Proof.
  intros Ho. unfold flight3_server_hello. wp_step; [by wp_run|]. wp_step.
  apply (wp_for_each _ _ (λ s1, h_cache s1 = h_cache s ∧ st_IsClient (h_state s1) = st_IsClient (h_state s) ∧ session_offered cfg (h_state s1))); [done|..].
  - intros ext s1 _ (Ec & Ei & Ho1). unfold flight3_extension. wp_run; done.
  - intros s1 (Ec & Ei & Ho1). do 2 wp_step. cbn [h_state h_cache h_world h_keylog].
    set (st := match st_RemoteConnectionID (h_state s1) with Some _ => _ | None => _ end).
    assert (st_IsClient st = st_IsClient (h_state s) ∧ session_offered cfg st) as [Ei' Ho'] by (unfold st; by destruct (st_RemoteConnectionID (h_state s1))).
    clearbody st. wp_run; try done.
    + split; [done|]. intros _. apply andb_true_iff in Heqb3 as [Hl%Z.ltb_lt He%bool_decide_eq_true]. cbn [h_state]. revert He. st_simpl. intros He Hnil. by rewrite <- He, Hnil in Hl.
    + split; [|done]. split_and!; [done..| |done]. split; st_simpl; [by right; left|]. intros ->. done.
    + split; [|done]. split_and!; [done..| |done]. split; st_simpl; [by right; left|]. intros ->. done.
Qed.

Lemma handleResumption_spec c cfg s0 s : conn_ok c → typed s0 → h_cache s = h_cache s0 →
  st_IsClient (h_state s) = st_IsClient (h_state s0) → session_offered cfg (h_state s) → st_SessionID (h_state s) ≠ [] →
  wp (handleResumption c cfg) (client_result cfg s0) (client_result cfg s0) s.
Proof.
  intros Hc Ht Ec Ei Ho Hne. unfold handleResumption. do 4 wp_step.
  2: { apply client_result_same; done. }
  destruct (InitCipherSuite_frame _ _ H5) as (_ & p & ->). do 3 wp_step. apply wp_handle_queued. intros r s1 Hq.
  destruct (co_state _ Hc _ _ _ Hq) as (seqs & le & re & Es1). cbn [h_state id] in Es1.
  destruct (session_same cfg (h_state s) (h_state s1)) as [Ho1 _]; [by rewrite Es1; st_simpl..|]. specialize (Ho1 Ho).
  assert (∀ (r' : presult) s', h_state s' = h_state s1 → h_cache s' = h_cache s1 →
     (∀ f, r'.1.1 = Some f → f = Flight5b ∧ finished_verified cfg s' false Prf.VerifyDataServer (hello_rules cfg)) → client_result cfg s0 r' s') as Hn.
  { intros r' s' Es Ecc Hf. split_and!.
    - rewrite Es, Es1. by st_simpl.
    - rewrite Ecc, <- Ec. apply (co_cache _ Hc _ _ _ Hq).
    - apply (typed_same s1); [by rewrite Es|done|]. apply (co_typed _ Hc _ _ _ Hq). by apply (typed_same s0).
    - by rewrite Es.
    - intros f Ef. right. right. destruct (Hf f Ef). split_and!; [done..|]. rewrite Es. apply offered_resumed; [done|]. rewrite Es1. by st_simpl. }
  split; [intros ->|intros e ->; apply Hn; done].
  wp_run; apply Hn; try done. intros f [= <-]. split; [done|].
  apply negb_false_iff, bool_decide_eq_true in Heqb. subst. rewrite H7 in *. exists a. by do 4 eexists.
Qed.

Lemma flight3_hello_spec c cfg recv s : conn_ok c → st_IsClient (h_state s) = true → typed s → session_offered cfg (h_state s) →
  wp (flight3_hello c cfg recv) (client_result cfg s) (client_result cfg s) s.
Proof.
  intros Hc Hcl Ht Ho. unfold flight3_hello. do 2 wp_step. destruct o as [[seq msgs]|]; [|apply wp_val, client_result_same; done].
  wp_step. pose proof (mandatory_pulled _ _ _ _ (epoch0 cfg TypeServerHello false false) _ _ (list_elem_of_here _ _) eq_refl H5) as Hm. cbn [ru_Typ epoch0] in Hm.
  destruct (msgs !! TypeServerHello) as [m|] eqn:El; [|done].
  pose proof Ht as Htt. unfold typed in Htt. rewrite Hcl in Htt.
  assert (Message_Type m = TypeServerHello) as Htyp by (eapply typed_lookup; [exact Htt|exact H5|by repeat constructor|done]). destruct m; try done.
  eapply wp_mono; [by apply flight3_server_hello_spec| |].
  - intros [] s1 [Hs1 Hsid]; [|by apply flight3_key_exchange_spec]. destruct Hs1 as (? & ? & ? & _). apply handleResumption_spec; auto.
  - intros r s1 (? & ? & ? & Hr). apply client_result_same; [done..|]. intros f. by rewrite Hr.
Qed.

Lemma flight3Parse_spec c cfg s : conn_ok c → st_IsClient (h_state s) = true → typed s → session_offered cfg (h_state s) →
  wp (flight3Parse c cfg) (client_result cfg s) (client_result cfg s) s.
Proof.
  intros Hc Hcl Ht Ho. unfold flight3Parse. do 4 wp_step. pose proof (flight3_hello_spec c cfg (st_HandshakeRecvSequence (h_state s)) s Hc Hcl Ht Ho) as Hhello.
  destruct o as [[seq msgs]|]; [|exact Hhello]. cbn [fmap].
  destruct (msgs !! TypeHelloVerifyRequest) as [[]|]; cbn [option_fmap option_map]; try exact Hhello. by apply hello_verify_spec.
Qed.

Lemma flight1Parse_spec c cfg s : conn_ok c → st_IsClient (h_state s) = true → typed s → session_offered cfg (h_state s) →
  wp (flight1Parse c cfg) (client_result cfg s) (client_result cfg s) s.
Proof.
  intros Hc Hcl Ht Ho. unfold flight1Parse. wp_run; try (apply client_result_same; done); [by apply flight3Parse_spec|by apply hello_verify_spec].
Qed.

(** ** Frames of the other flights *)

Lemma flight0Generate_frame cfg s : wp (flight0Generate cfg)
  (λ _ s', st_IsClient (h_state s') = st_IsClient (h_state s) ∧ h_cache s' = h_cache s) (λ r _, r.2 ≠ None) s.
Proof. unfold flight0Generate, Populate. wp_run; done. Qed.

Lemma flight1Generate_frame c cfg s : wp (flight1Generate c cfg)
  (λ _ s', st_IsClient (h_state s') = st_IsClient (h_state s) ∧ h_cache s' = h_cache s) (λ r _, r.2 ≠ None) s.
Proof. unfold flight1Generate, Populate. wp_run; done. Qed.

Lemma flight1Generate_session c cfg s : session_offered cfg (h_state s) →
  wp (flight1Generate c cfg) (λ _ s', session_offered cfg (h_state s')) (λ r _, r.2 ≠ None) s.
Proof.
  intros Ho. unfold flight1Generate, Populate. wp_run; try done; (split; st_simpl; [|congruence]); right; right; by do 3 eexists.
Qed.

Lemma flight4Generate_frame cfg s : wp (flight4Generate cfg) (λ _ s', frame s s') (λ r _, r.2 ≠ None) s.
Proof.
  unfold flight4Generate. do 5 wp_step.
  apply (wp_mono _ (λ _ s1, frame s s1) _ (λ r _, r.2 ≠ None)); [unfold select_protocol; wp_run; done| |done]. intros alpn s1 Hs1. wp_step.
  apply (wp_mono _ (λ _ s1, frame s s1) _ (λ r _, r.2 ≠ None)); [wp_run; done| |done]. intros cid s2 Hs2. wp_step.
  apply (wp_mono _ (λ _ s1, frame s s1) _ (λ r _, r.2 ≠ None)); [wp_run; done| |done]. intros _ s3 Hs3. wp_step. wp_step. wp_step.
  apply (wp_mono _ (λ _ s1, frame s s1) _ (λ r _, r.2 ≠ None)); [unfold flight4_certificate, flight4_psk; wp_run; done| |done].
  intros keys s4 Hs4. by apply wp_val.
Qed.

(** A resumed handshake keeps its session. *)
Definition session_frame s s' : Prop :=
  frame s s' ∧ st_SessionID (h_state s') = st_SessionID (h_state s) ∧ st_MasterSecret (h_state s') = st_MasterSecret (h_state s).

Lemma flight4bGenerate_frame cfg s : wp (flight4bGenerate cfg) (λ _ s', session_frame s s') (λ r _, r.2 ≠ None) s.
Proof.
  unfold flight4bGenerate. do 3 wp_step.
  apply (wp_mono _ (λ _ s1, session_frame s s1) _ (λ r _, r.2 ≠ None)); [unfold select_protocol; wp_run; done| |done]. intros alpn s1 Hs1. wp_run; done.
Qed.

(** The verify data is the only change of the last flights. *)
Definition only_verify_data s s' : Prop := ∃ d, h_state s' = (h_state s) <| st_LocalVerifyData := d |> ∧ h_cache s' = h_cache s.

Lemma local_verify_data_spec cfg vd rules sending s : wp (local_verify_data cfg vd rules sending) (λ _ s', only_verify_data s s') (λ r _, r.2 ≠ None) s.
Proof.
  unfold local_verify_data. wp_run; try done; [by eexists|]. exists (st_LocalVerifyData (h_state s)). split; [|done]. by destruct (h_state s).
Qed.

Lemma flight5bGenerate_spec cfg s : wp (flight5bGenerate cfg) (λ _ s', only_verify_data s s') (λ r _, r.2 ≠ None) s.
Proof. unfold flight5bGenerate. wp_step. eapply wp_mono; [apply local_verify_data_spec| |done]. intros d s' Hs. wp_run; done. Qed.

Lemma flight6Generate_spec cfg s : wp (flight6Generate cfg) (λ _ s', only_verify_data s s') (λ r _, r.2 ≠ None) s.
Proof. unfold flight6Generate. wp_step. eapply wp_mono; [apply local_verify_data_spec| |done]. intros d s' Hs. wp_run; done. Qed.

Definition weak_frame s s' : Prop :=
  st_IsClient (h_state s') = st_IsClient (h_state s) ∧ st_Cookie (h_state s') = st_Cookie (h_state s) ∧ grows (h_cache s) (h_cache s') ∧
  (typed s → typed s').

Lemma weaken_frame s s' : frame s s' → weak_frame s s'.
Proof. intros (Ei & Ek & Ec). unfold weak_frame. split_and!; [done..|rewrite Ec; apply grows_refl|by apply typed_same]. Qed.

Lemma flight4_finished_frame c cfg seq s s4 : conn_ok c → frame s s4 →
  wp (flight4_finished c cfg seq) (λ _ s', weak_frame s s') (λ r s', weak_frame s s' ∧ r.1.1 = None) s4.
Proof.
  intros Hc (Ei & Ek & Ec). unfold flight4_finished. wp_step. apply wp_handle_queued. intros r s5 Hq.
  destruct (co_state _ Hc _ _ _ Hq) as (seqs & le & re & Es5).
  pose proof (co_cache _ Hc _ _ _ Hq) as Hg. rewrite Ec in Hg.
  assert (typed s → typed s5) as Ht by (intros Hs; apply (co_typed _ Hc _ _ _ Hq); by apply (typed_same s)).
  assert (st_IsClient (h_state s5) = st_IsClient (h_state s) ∧ st_Cookie (h_state s5) = st_Cookie (h_state s)) as [Ei5 Ek5]
    by (rewrite Es5; st_simpl; done).
  assert (weak_frame s s5) as Hw by done.
  split; [intros ->|by intros e ->]. unfold flight4_client_auth, verify_connection. wp_run; done.
Qed.

Lemma flight4Parse_frame c cfg s : conn_ok c →
  wp (flight4Parse c cfg) (λ _ s', weak_frame s s') (λ r s', weak_frame s s' ∧ r.1.1 = None) s.
Proof.
  intros Hc. unfold flight4Parse. do 4 wp_step.
  destruct o as [[seq msgs]|]; [|by apply wp_val, weaken_frame].
  destruct (msgs !! TypeClientKeyExchange) as [[]|]; try (by apply wp_val, weaken_frame). wp_step.
  assert (∀ (r : presult) s', frame s s' ∧ r.1.1 = None → weak_frame s s' ∧ r.1.1 = None) as Hr by (intros r s' []; auto using weaken_frame).
  apply (wp_mono _ (λ _ s1, frame s s1) _ (λ r s', frame s s' ∧ r.1.1 = None)); [wp_run; done| |done]. intros _ s1 Hs1. wp_step.
  apply (wp_mono _ (λ _ s1, frame s s1) _ (λ r s', frame s s' ∧ r.1.1 = None)); [unfold flight4_verify, verify_peer_certificate; wp_run; done| |done].
  intros _ s2 Hs2. wp_step. wp_step. wp_step.
  apply (wp_mono _ (λ _ s1, frame s s1) _ (λ r s', frame s s' ∧ r.1.1 = None)); [unfold flight4_keys, flight4_premaster; wp_run; done| |done].
  intros _ s3 Hs3. wp_step.
  apply (wp_mono _ (λ _ s1, frame s s1) _ (λ r s', frame s s' ∧ r.1.1 = None)); [unfold flight4_save; wp_run; done| |done].
  intros _ s4 Hs4. by apply flight4_finished_frame.
Qed.

End auth.
End Flight12Auth.
