(* ===== verification/Flight13.v ===== *)
(** * The flights of a DTLS 1.3 handshake (src/dtls/internal/flight/flight13)

    Parsers and generators of the hello flights, in the monad of the flights of
    DTLS 1.2.  A parser tells two callbacks of its context about the messages it
    accepted and about the moment to derive the handshake's traffic secrets; the
    callbacks work on the world, in which the transcript lives. *)
From stdpp Require Import base tactics numbers list strings gmap.
From Stdlib Require Import ZArith Lia.
From S2P Require Import Prelude Sha2 Wire SignatureHash HandshakeCrypto Prf Record CipherSuite Extensions Fragment Handshake HandshakeState FlightCache Flight12.
Import Protocol SignatureHash Extension Handshake HandshakeHeader State Config HandshakeCrypto Flight Selection AlertDescription.
Import Flight12 (hs, MkHs, h_state, h_cache, h_world, h_keylog, M, out, Val, Ret, Crash, val, ret, gets, modify, lift, act, with_world, for_each,
  Populate, epoch0, epoch1, ems_offered, choose_suite, Packet, MkPacket, pk_Header, pk_Content, Content, HandshakeContent, plain, record_header,
  zero_header, fatal, gresult, packets, gerror, renegotiationInfoSCSV, cookieLength, CurvePointFormatUncompressed).
Open Scope Z_scope.

Module Flight13.

(** 0 is no flight. *)
Inductive Flight := Flight0 | Flight1 | Flight2 | Flight3 | Flight4 | Flight5.

#[global] Instance Flight_eq_dec : EqDecision Flight.
Proof. solve_decision. Defined.

Definition MissingExtension : Z := 109.

Definition HelloRetryRequestRandom : bytes :=
  be_put 32 0xCF21AD74E59A6111BE1D8C021E65B891C2A211167ABB8C5E079E09E2C8A8339C.

(** What a parser returns: the next flight, an alert and an error. *)
Definition presult : Type := option Flight * option Alert * option dtls_error.
Definition keep_reading : presult := (None, None, None).
Definition next (f : Flight) : presult := (Some f, None, None).
Definition fails (d : Z) (e : dtls_error) : presult := (None, Some (fatal d), Some e).
Definition alert_only (d : Z) : presult := (None, Some (fatal d), None).

Definition IsHelloRetryRequest (sh : MessageServerHello) : bool :=
  bool_decide (MarshalFixed (sh_Random sh) = HelloRetryRequestRandom).

(** The versions of the last supported_versions extension, and whether there is one. *)
Fixpoint selected_versions (seenSupportedVersions : bool) (versions : list Version) (extensions : list Extension)
    : res dtls_error (list Version * bool) :=
  match extensions with
  | [] => Ok (versions, seenSupportedVersions)
  | SupportedVersions vs selected :: extensions =>
      if seenSupportedVersions || negb selected || negb (len vs =? 1) then Err ErrInvalidServerHello
      else selected_versions true vs extensions
  | _ :: extensions => selected_versions seenSupportedVersions versions extensions
  end.

Definition ServerHelloSelectedVersions (extensions : list Extension) : res dtls_error (list Version * bool) :=
  selected_versions false [] extensions.

Definition validateHelloRetryRequestSelectedVersion (extensions : list Extension) : res dtls_error unit :=
  match ServerHelloSelectedVersions extensions with
  | Ok (versions, true) =>
      v ← idx versions 0;
      if negb (Version_Equal v Version1_3) then Err ErrUnsupportedProtocolVersion else Ok tt
  | Ok (_, false) | Err _ => Err ErrInvalidHelloRetryRequest
  | Panic => Panic
  end.

(** errors.Is(err, ErrUnsupportedProtocolVersion) *)
Definition is_unsupported_version (e : dtls_error) : bool :=
  match e with ErrUnsupportedProtocolVersion => true | _ => false end.

Section flights.
Context `{Cryptobyte} `{Ciphers} `{KeyExchange.KeyAgreement} `{PKI} {W : Type} `{World W}.

(** The context of the flights: the configuration and the callbacks, which are
    nil or not.  The deriver may change the state. *)
Record handshakeContext13 := MkContext {
  x_cfg : HandshakeConfig W;
  inboundHandshakeHandler : option (option CipherSuite.CipherSuite → list HandshakeCacheItem → action (W := W) unit);
  handshakeTrafficSecretDeriver : option (State → W → res dtls_error unit * State * W)
}.

Definition pull_items {R} (startSeq : Z) (rules : list HandshakeCachePullRule) : M (W := W) R (option (Z * pulled)) := λ s,
  match FullPullMapItems (h_cache s) startSeq (st_CipherSuite (h_state s)) rules with
  | Ok o => (Val o, s)
  | Err e => match e with end
  | Panic => (Crash, s)
  end.

Definition handle_inbound (x : handshakeContext13) (items : list HandshakeCacheItem) : M (W := W) presult unit :=
  match inboundHandshakeHandler x with
  | None => val tt
  | Some handler => cs ← gets st_CipherSuite; act (handler cs items) (fails InternalError)
  end.

Definition derive_secrets (x : handshakeContext13) : M (W := W) presult unit :=
  match handshakeTrafficSecretDeriver x with
  | None => val tt
  | Some derive => λ s,
      let '(r, st, w) := derive (h_state s) (h_world s) in lift r (fails InternalError) (MkHs st (h_cache s) w (h_keylog s))
  end.

(** ** The client *)

Definition selectServerHelloCipherSuite13 (serverHello : MessageServerHello) (cfg : HandshakeConfig W) : M (W := W) presult CipherSuite.CipherSuite :=
  match sh_CipherSuiteID serverHello with
  | None => ret (fails IllegalParameter ErrInvalidServerHello)
  | Some id =>
      match CipherSuite.ForID id (cf_CustomCipherSuites cfg) with
      | None => ret (fails InsufficientSecurity ErrCipherSuiteNoIntersection)
      | Some remoteCipherSuite =>
          if negb (CipherSuite.IDSupportsVersion (CipherSuite.ID remoteCipherSuite) Version1_3)
          then ret (fails InsufficientSecurity ErrInvalidCipherSuite) else
          match FindMatchingCipherSuite [remoteCipherSuite] (cf_LocalCipherSuites cfg) with
          | None => ret (fails InsufficientSecurity ErrInvalidCipherSuite)
          | Some selectedCipherSuite => val selectedCipherSuite
          end
      end
  end.

(** The share of the first key_share extension that has one. *)
Fixpoint server_share (extensions : list Extension) : option KeyShareEntry :=
  match extensions with
  | [] => None
  | KeyShare k :: extensions =>
      match ServerShare k with Some e => Some e | None => server_share extensions end
  | _ :: extensions => server_share extensions
  end.

(** The messages under the new keys. *)
Definition encrypted_extensions (x : handshakeContext13) (serverHelloSeq : Z) : M (W := W) presult presult :=
  o ← pull_items serverHelloSeq [epoch1 (x_cfg x) TypeEncryptedExtensions false false];
  match o with
  | None => val keep_reading
  | Some (seq, (msgs, items)) =>
      match msgs !! TypeEncryptedExtensions with
      | Some (EncryptedExtensions _) =>
          handle_inbound x items;;
          modify (λ s, s <| st_HandshakeRecvSequence := seq |>);;
          val (next Flight5)
      | _ => val (alert_only InternalError)
      end
  end.

(** The ServerHello: the version, the suite and the key exchange. *)
Definition server_hello13 (cfg : HandshakeConfig W) (serverHello : MessageServerHello) : M (W := W) presult unit :=
  if IsHelloRetryRequest serverHello then ret (fails UnexpectedMessage ErrUnexpectedSecondHelloRetryRequest) else
  if negb (Version_Equal (sh_Version serverHello) Version1_2) then ret (fails ProtocolVersion ErrUnsupportedProtocolVersion) else
  '(versions, seen) ← lift (ServerHelloSelectedVersions (sh_Extensions serverHello)) (λ _, fails IllegalParameter ErrInvalidServerHello);
  if negb (seen : bool) then ret (fails ProtocolVersion ErrUnsupportedProtocolVersion) else
  v ← lift (idx versions 0) (λ _, keep_reading);
  if negb (Version_Equal v Version1_3) then ret (fails ProtocolVersion ErrUnsupportedProtocolVersion) else
  modify (λ s, s <| st_RemoteVersions := versions |> <| st_LocalVersion := Version1_3 |>);;
  selectedCipherSuite ← selectServerHelloCipherSuite13 serverHello cfg;
  modify (choose_suite (Some selectedCipherSuite));;
  modify (λ s, s <| st_RemoteRandom := sh_Random serverHello |>);;
  match server_share (sh_Extensions serverHello) with
  | None => ret (fails IllegalParameter ErrServerKeyShareMissing)
  | Some serverShare =>
      keypairs ← gets st_LocalKeypairs;
      match keypairs !! ks_Group serverShare with
      | None => ret (fails IllegalParameter ErrServerKeyShareUnknownGroup)
      | Some localKeypair =>
          preMasterSecret ← lift (KeyExchange.PreMasterSecret (ks_KeyExchange serverShare) (KeyExchange.kp_PrivateKey localKeypair) (ks_Group serverShare))
                              (fails InternalError);
          modify (λ s, s <| st_PreMasterSecret := preMasterSecret |> <| st_NamedCurve := ks_Group serverShare |>
                         <| st_RemoteKeyEntries := Some [serverShare] |>)
      end
  end.

Definition flight13_3Parse (x : handshakeContext13) : M (W := W) presult presult :=
  recv ← gets st_HandshakeRecvSequence;
  o ← pull_items recv [epoch0 (x_cfg x) TypeServerHello false false];
  match o with
  | None => val keep_reading
  | Some (serverHelloSeq, (msgs, items)) =>
      match msgs !! TypeServerHello with
      | Some (ServerHello serverHello) =>
          server_hello13 (x_cfg x) serverHello;;
          handle_inbound x items;;
          derive_secrets x;;
          encrypted_extensions x serverHelloSeq
      | _ => val (alert_only InternalError)
      end
  end.

(** An extension of a HelloRetryRequest. *)
Definition retry_extension (ext : Extension) (s : State) : State :=
  match ext with
  | SupportedVersions versions _ => s <| st_RemoteVersions := versions |>
  | CookieExt cookie => s <| st_Cookie := cookie |>
  | KeyShare k =>
      match SelectedGroup k with
      | Some g => s <| st_RemoteKeyEntries := Some [MkKeyShareEntry g []] |>
      | None => s
      end
  | _ => s
  end.

Definition flight13_1Parse (x : handshakeContext13) : M (W := W) presult presult :=
  recv ← gets st_HandshakeRecvSequence;
  o ← pull_items recv [epoch0 (x_cfg x) TypeServerHello false true];
  match o with
  | None => val keep_reading
  | Some (seq, (msgs, items)) =>
      match msgs !! TypeServerHello with
      | Some (ServerHello sh) =>
          if negb (IsHelloRetryRequest sh) then flight13_3Parse x else
          if negb (Version_Equal (sh_Version sh) Version1_0) && negb (Version_Equal (sh_Version sh) Version1_2)
          then val (fails ProtocolVersion ErrUnsupportedProtocolVersion) else
          lift (validateHelloRetryRequestSelectedVersion (sh_Extensions sh))
            (λ e, fails (if is_unsupported_version e then ProtocolVersion else IllegalParameter) e);;
          selectedCipherSuite ← selectServerHelloCipherSuite13 sh (x_cfg x);
          modify (choose_suite (Some selectedCipherSuite));;
          modify (λ s, foldl (λ s ext, retry_extension ext s) s (sh_Extensions sh));;
          handle_inbound x items;;
          modify (λ s, s <| st_HandshakeRecvSequence := seq |>);;
          val (next Flight3)
      | _ => val (alert_only InternalError)
      end
  end.

(** The extensions of a ClientHello; [ecc] says whether the groups are offered. *)
Definition client_extensions13 (cfg : HandshakeConfig W) (ecc : bool) (shares : list KeyShareEntry) : list Extension :=
  [SupportedSignatureAlgorithms (cf_LocalSignatureSchemes cfg)] ++
  (if ems_offered cfg then [UseExtendedMasterSecret true] else []) ++
  [RenegotiationInfo 0] ++
  (if ecc then [SupportedEllipticCurves (cf_EllipticCurves cfg); SupportedPointFormats [CurvePointFormatUncompressed]] else []) ++
  (if 0 <? len (cf_SupportedProtocols cfg) then [ALPN (cf_SupportedProtocols cfg)] else []) ++
  [KeyShare (MkKeyShare (match shares with [] => None | _ => Some shares end) None None);
   SupportedVersions (SupportedVersionsRange (cf_MinVersion cfg) (cf_MaxVersion cfg)) false] ++
  (if 0 <? len (cf_LocalCertSignatureSchemes cfg) then [SignatureAlgorithmsCert (cf_LocalCertSignatureSchemes cfg)] else []) ++
  (if 0 <? len (cf_ServerName cfg) then [ServerName (cf_ServerName cfg)] else []) ++
  (if 0 <? len (cf_LocalSRTPProtectionProfiles cfg)
   then [UseSRTP (cf_LocalSRTPProtectionProfiles cfg) (cf_LocalSRTPMasterKeyIdentifier cfg)] else []).

(** The ClientHello message for the state, and its packet. *)
Definition client_hello_message (cfg : HandshakeConfig W) (s : State) (extensions : list Extension) : MessageClientHello :=
  MkClientHello Version1_2 (st_LocalRandom s) [] (st_SessionID s) (CipherSuiteIDs (cf_LocalCipherSuites cfg)) [0] extensions.

Definition client_hello13 (cfg : HandshakeConfig W) (s : State) (extensions : list Extension) : Packet :=
  let clientHello := client_hello_message cfg s extensions in
  plain (match cf_ClientHelloMessageHook cfg with
         | Some hook => hook clientHello
         | None => Some (ClientHello clientHello)
         end).

Definition share_of (k : KeyExchange.Keypair) : KeyShareEntry := MkKeyShareEntry (KeyExchange.kp_Curve k) (KeyExchange.kp_PublicKey k).

(** A pair of keys for each group. *)
Fixpoint generate_keypairs (groups : list Z) : M (W := W) gresult (list KeyExchange.Keypair) :=
  match groups with
  | [] => val []
  | group :: groups =>
      r ← with_world rand_Reader;
      keypair ← lift (KeyExchange.GenerateKeypair group r) gerror;
      keypairs ← generate_keypairs groups;
      val (keypair :: keypairs)
  end.

Definition add_keypairs (ks : list KeyExchange.Keypair) (m : gmap Z KeyExchange.Keypair) : gmap Z KeyExchange.Keypair :=
  foldl (λ m k, <[KeyExchange.kp_Curve k := k]> m) m ks.

(** The random bytes of the configuration's generator, if there is one. *)
Definition hello_random (cfg : HandshakeConfig W) : M (W := W) gresult unit :=
  match cf_HelloRandomBytesGenerator cfg with
  | Some gen => r ← with_world gen; modify (λ s, s <| st_LocalRandom := MkRandom (GMTUnixTime (st_LocalRandom s)) r |>)
  | None => val tt
  end.

Definition flight13_1Generate (cfg : HandshakeConfig W) : M (W := W) gresult gresult :=
  modify (λ s, s <| st_LocalEpoch := 0 |> <| st_RemoteEpoch := 0 |>);;
  match cf_EllipticCurves cfg with
  | [] => val (gerror ErrEmptyEllipticCurves)
  | curve :: _ =>
      if len (cf_LocalSignatureSchemes cfg) <? 1 then val (gerror ErrNoAvailableSignatureSchemes) else
      modify (λ s, s <| st_NamedCurve := curve |> <| st_Cookie := [] |>);;
      Populate gerror;;
      hello_random cfg;;
      keypairs ← generate_keypairs (cf_EllipticCurves cfg);
      modify (λ s, s <| st_LocalKeyEntries := map share_of keypairs |> <| st_LocalKeypairs := add_keypairs keypairs ∅ |>);;
      s ← gets id;
      let extensions := client_extensions13 cfg (existsb CipherSuite.ECC (cf_LocalCipherSuites cfg)) (st_LocalKeyEntries s) in
      val (packets [client_hello13 cfg s extensions])
  end.

(** The groups the server asked for that the client can offer but did not. *)
Definition retry_groups (cfg : HandshakeConfig W) (s : State) : list Z :=
  let localGroups := map ks_Group (st_LocalKeyEntries s) in
  filter (λ g, negb (existsb (Z.eqb g) localGroups) && existsb (Z.eqb g) (cf_EllipticCurves cfg) = true)
    (map ks_Group (default [] (st_RemoteKeyEntries s))).

Definition flight13_3Generate (cfg : HandshakeConfig W) : M (W := W) gresult gresult :=
  if len (cf_LocalSignatureSchemes cfg) <? 1 then val (gerror ErrNoAvailableSignatureSchemes) else
  s ← gets id;
  newKeypairs ← generate_keypairs (retry_groups cfg s);
  (if 0 <? len newKeypairs
   then modify (λ s, s <| st_LocalKeyEntries := map share_of newKeypairs ++ st_LocalKeyEntries s |>
                       <| st_LocalKeypairs := add_keypairs newKeypairs (st_LocalKeypairs s) |>)
   else val tt);;
  s ← gets id;
  if negb (bool_decide (Version1_3 ∈ st_RemoteVersions s)) then val (gerror ErrNoCommonProtocolVersion) else
  let extensions := client_extensions13 cfg (negb (st_NamedCurve s =? 0)) (st_LocalKeyEntries s) ++
                    (if 0 <? len (st_Cookie s) then [CookieExt (st_Cookie s)] else []) in
  val (packets [client_hello13 cfg s extensions]).

(** ** The server *)

Record clientHello13ExtensionSet := MkSeen { hasPreSharedKey : bool; hasSignatureAlgorithms : bool; hasSupportedGroups : bool }.

Definition processClientHello13SecurityExtension (cfg : HandshakeConfig W) (seen : clientHello13ExtensionSet) (ext : Extension)
    : M (W := W) presult clientHello13ExtensionSet :=
  match ext with
  | SupportedEllipticCurves curves =>
      if len curves =? 0 then ret (fails InsufficientSecurity ErrNoSupportedEllipticCurves) else
      modify (λ s, s <| st_RemoteGroups := curves |>);;
      val (MkSeen (hasPreSharedKey seen) (hasSignatureAlgorithms seen) true)
  | UseSRTP profiles mki =>
      match FindMatchingSRTPProfile (cf_LocalSRTPProtectionProfiles cfg) profiles with
      | None => ret (fails InsufficientSecurity ErrServerNoMatchingSRTPProfile)
      | Some p => modify (λ s, s <| st_SRTPProtectionProfile := p |> <| st_RemoteSRTPMasterKeyIdentifier := mki |>);; val seen
      end
  | SupportedSignatureAlgorithms algs =>
      modify (λ s, s <| st_RemoteSignatureSchemes := algs |>);;
      val (MkSeen (hasPreSharedKey seen) true (hasSupportedGroups seen))
  | SupportedVersions versions selected =>
      if selected : bool then ret (fails IllegalParameter ErrInvalidClientHello) else
      modify (λ s, s <| st_RemoteVersions := versions |>);; val seen
  | PreSharedKey _ => val (MkSeen true (hasSignatureAlgorithms seen) (hasSupportedGroups seen))
  | _ => val seen
  end.

Definition processClientHello13StateExtension (cfg : HandshakeConfig W) (ext : Extension) (s : State) : State :=
  match ext with
  | UseExtendedMasterSecret _ =>
      if bool_decide (cf_ExtendedMasterSecret cfg ≠ DisableExtendedMasterSecret) then s <| st_ExtendedMasterSecret := true |> else s
  | ServerName name => s <| st_ServerName := name |>
  | RenegotiationInfo _ => s <| st_RemoteSupportsRenegotiation := true |>
  | ALPN protocols => s <| st_PeerSupportedProtocols := protocols |>
  | ConnectionID cid =>
      match cf_ConnectionIDGenerator cfg with Some _ => s <| st_RemoteConnectionID := Some cid |> | None => s end
  | SignatureAlgorithmsCert algs => s <| st_RemoteCertSignatureSchemes := algs |>
  | KeyShare k => s <| st_RemoteKeyEntries := Some (default [] (ClientShares k)) |>
  | _ => s
  end.

Fixpoint process_extensions (cfg : HandshakeConfig W) (seen : clientHello13ExtensionSet) (extensions : list Extension)
    : M (W := W) presult clientHello13ExtensionSet :=
  match extensions with
  | [] => val seen
  | ext :: extensions =>
      seen ← processClientHello13SecurityExtension cfg seen ext;
      modify (processClientHello13StateExtension cfg ext);;
      process_extensions cfg seen extensions
  end.

Definition processClientHello13Extensions (cfg : HandshakeConfig W) (clientHello : MessageClientHello) : M (W := W) presult unit :=
  seen ← process_extensions cfg (MkSeen false false false) (ch_Extensions clientHello);
  if negb (hasPreSharedKey seen) && (negb (hasSignatureAlgorithms seen) || negb (hasSupportedGroups seen))
  then ret (fails MissingExtension ErrMissingClientHelloExtension) else val tt.

(** The groups of the client are nil exactly when they were never set: an empty
    list is refused. *)
Definition preferredClientGroup13 (cfg : HandshakeConfig W) (s : State) : option Z :=
  match st_RemoteGroups s with
  | [] => None
  | groups => find (λ group, existsb (Z.eqb group) groups) (cf_EllipticCurves cfg)
  end.

Definition clientKeyShareForGroup13 (s : State) (group : Z) : option KeyShareEntry :=
  match st_RemoteKeyEntries s with
  | None => None
  | Some entries => find (λ e, ks_Group e =? group) entries
  end.

Definition matchingClientKeyShare13 (cfg : HandshakeConfig W) (s : State) : option KeyShareEntry :=
  match preferredClientGroup13 cfg s with
  | None => None
  | Some selectedGroup => clientKeyShareForGroup13 s selectedGroup
  end.

Definition selectClientKeyShare13 (cfg : HandshakeConfig W) (s : State) : State :=
  match preferredClientGroup13 cfg s with
  | None => s
  | Some selectedGroup => s <| st_NamedCurve := selectedGroup |>
  end.

Definition needsClientKeypair13 (s : State) : bool :=
  match st_LocalKeypair s with
  | None => true
  | Some k => negb (KeyExchange.kp_Curve k =? st_NamedCurve s) || (st_NamedCurve s =? X25519MLKEM768)
  end.

Definition generateClientKeyShareSecret13 (cfg : HandshakeConfig W) : M (W := W) presult unit :=
  s ← gets id;
  match preferredClientGroup13 cfg s with
  | None =>
      match st_RemoteGroups s with
      | [] => val tt
      | _ => ret (fails InsufficientSecurity ErrNoSupportedEllipticCurves)
      end
  | Some selectedGroup =>
      modify (λ s, s <| st_NamedCurve := selectedGroup |>);;
      match clientKeyShareForGroup13 s selectedGroup with
      | None => ret (fails IllegalParameter ErrInvalidClientHello)
      | Some selectedEntry =>
          s ← gets id;
          (if needsClientKeypair13 s then
             r ← with_world rand_Reader;
             keypair ← lift (KeyExchange.GenerateKeypairForPeer (st_NamedCurve s) (ks_KeyExchange selectedEntry) r) (fails IllegalParameter);
             modify (λ s, s <| st_LocalKeypair := Some keypair |>)
           else val tt);;
          k ← Flight12.deref st_LocalKeypair;
          preMasterSecret ← lift (KeyExchange.PreMasterSecret (ks_KeyExchange selectedEntry) (KeyExchange.kp_PrivateKey k) (st_NamedCurve s))
                              (fails IllegalParameter);
          modify (λ s, s <| st_PreMasterSecret := preMasterSecret |>)
      end
  end.

Definition flight13_0Generate (cfg : HandshakeConfig W) : M (W := W) gresult gresult :=
  (if cf_InsecureSkipHelloVerify cfg then val tt else
     cookie ← act (rand_Read cookieLength) gerror;
     modify (λ s, s <| st_Cookie := cookie |>));;
  modify (λ s, s <| st_LocalEpoch := 0 |> <| st_RemoteEpoch := 0 |>);;
  if len (cf_EllipticCurves cfg) <? 1 then val (gerror ErrEmptyEllipticCurves) else
  Populate gerror;;
  val (packets []).

(** The client's suites that exist. *)
Definition remote_suites13 (cfg : HandshakeConfig W) (ids : list Z) : list CipherSuite.CipherSuite :=
  omap (λ id, if id =? renegotiationInfoSCSV then None else CipherSuite.ForID id (cf_CustomCipherSuites cfg)) ids.

(** What the first ClientHello decides: the suite, the extensions and the group. *)
Definition client_hello_parse (cfg : HandshakeConfig W) (clientHello : MessageClientHello) : M (W := W) presult Flight :=
  if negb (Version_Equal (ch_Version clientHello) Version1_2) then ret (fails ProtocolVersion ErrUnsupportedProtocolVersion) else
  modify (λ s, s <| st_RemoteRandom := ch_Random clientHello |>
                 <| st_RemoteSupportsRenegotiation :=
                      st_RemoteSupportsRenegotiation s || existsb (Z.eqb renegotiationInfoSCSV) (ch_CipherSuiteIDs clientHello) |>);;
  let selected := FindMatchingCipherSuite (remote_suites13 cfg (ch_CipherSuiteIDs clientHello)) (cf_LocalCipherSuites cfg) in
  modify (choose_suite selected);;
  match selected with
  | None => ret (fails InsufficientSecurity ErrCipherSuiteNoIntersection)
  | Some _ =>
      processClientHello13Extensions cfg clientHello;;
      s ← gets id;
      if negb (bool_decide (Version1_3 ∈ st_RemoteVersions s)) then ret (fails InternalError ErrInvalidProtocolVersionState) else
      modify (λ s, match st_RemoteConnectionID s with None => s <| st_LocalConnectionID := None |> | Some _ => s end);;
      if bool_decide (cf_ExtendedMasterSecret cfg = RequireExtendedMasterSecret) && negb (st_ExtendedMasterSecret s)
      then ret (fails InsufficientSecurity ErrServerRequiredButNoClientEMS) else
      modify (selectClientKeyShare13 cfg);;
      s ← gets id;
      if cf_InsecureSkipHelloVerify cfg then
        match matchingClientKeyShare13 cfg s with
        | Some _ => generateClientKeyShareSecret13 cfg;; val Flight4
        | None => val Flight2
        end
      else val Flight2
  end.

Definition flight13_0Parse (x : handshakeContext13) : M (W := W) presult presult :=
  version ← gets st_LocalVersion;
  if bool_decide (version ≠ Version1_3) then val (fails InternalError ErrInvalidProtocolVersionState) else
  o ← pull_items 0 [epoch0 (x_cfg x) TypeClientHello true false];
  match o with
  | None => val keep_reading
  | Some (seq, (msgs, items)) =>
      modify (λ s, s <| st_LocalConnectionID := None |> <| st_RemoteConnectionID := None |> <| st_HandshakeRecvSequence := seq |>);;
      match msgs !! TypeClientHello with
      | Some (ClientHello clientHello) =>
          nextFlight ← client_hello_parse (x_cfg x) clientHello;
          handle_inbound x items;;
          val (next nextFlight)
      | _ => val (alert_only InternalError)
      end
  end.

Definition clientHello13Cookie (extensions : list Extension) : bytes :=
  match omap (λ ext, match ext with CookieExt cookie => Some cookie | _ => None end) extensions with
  | cookie :: _ => cookie
  | [] => []
  end.

Definition flight13_2Parse (x : handshakeContext13) : M (W := W) presult presult :=
  recv ← gets st_HandshakeRecvSequence;
  o ← pull_items recv [epoch0 (x_cfg x) TypeClientHello true false];
  match o with
  | None => val keep_reading
  | Some (seq, (msgs, items)) =>
      match msgs !! TypeClientHello with
      | Some (ClientHello clientHello) =>
          if negb (Version_Equal (ch_Version clientHello) Version1_2) then val (fails ProtocolVersion ErrUnsupportedProtocolVersion) else
          let cookie := clientHello13Cookie (ch_Extensions clientHello) in
          if len cookie =? 0 then val keep_reading else
          expected ← gets st_Cookie;
          if negb (bool_decide (expected = cookie)) then val (fails AccessDenied ErrCookieMismatch) else
          processClientHello13Extensions (x_cfg x) clientHello;;
          generateClientKeyShareSecret13 (x_cfg x);;
          handle_inbound x items;;
          modify (λ s, s <| st_HandshakeRecvSequence := seq |>);;
          val (next Flight4)
      | _ => val (alert_only InternalError)
      end
  end.

(** The ServerHello of flights 2 and 4. *)
Definition server_hello_packet (random : Random) (cs : CipherSuite.CipherSuite) (exts : list Extension) : Packet :=
  plain (Some (ServerHello (MkServerHello Version1_2 random [] (Some (CipherSuite.ID cs)) (Some 0) exts))).

Definition flight13_2Generate (cfg : HandshakeConfig W) : M (W := W) gresult gresult :=
  modify (λ s, s <| st_HandshakeSendSequence := 0 |>);;
  s ← gets id;
  match st_CipherSuite s with
  | None => val (gerror ErrCipherSuiteUnset)
  | Some cs =>
      let random := UnmarshalFixed HelloRetryRequestRandom in
      let exts := [SupportedVersions [Version1_3] true] ++
                  (if st_NamedCurve s =? 0 then [] else [KeyShare (MkKeyShare None None (Some (st_NamedCurve s)))]) ++
                  (if 0 <? len (st_Cookie s) then [CookieExt (st_Cookie s)] else []) in
      val (packets [server_hello_packet random cs exts])
  end.

Definition flight13_4Generate (cfg : HandshakeConfig W) : M (W := W) gresult gresult :=
  s ← gets id;
  match st_CipherSuite s with
  | None => val (gerror ErrCipherSuiteUnset)
  | Some cs =>
      match st_LocalKeypair s with
      | None => val (gerror ErrServerKeyShareMissing)
      | Some k =>
          val (packets [server_hello_packet (st_LocalRandom s) cs
                          [SupportedVersions [Version1_3] true; KeyShare (MkKeyShare None (Some (share_of k)) None)];
                        MkPacket (record_header 1) (HandshakeContent zero_header (Some (EncryptedExtensions []))) true false true])
      end
  end.

(** ** The tables of the flights *)

(** The generator and whether the flight is retransmitted; the generators' context
    has no callbacks. *)
Definition GetGenerator (f : Flight) : option ((HandshakeConfig W → M (W := W) gresult gresult) * bool) :=
  match f with
  | Flight0 => Some (flight13_0Generate, true)
  | Flight1 => Some (flight13_1Generate, true)
  | Flight2 => Some (flight13_2Generate, false)
  | Flight3 => Some (flight13_3Generate, true)
  | Flight4 => Some (flight13_4Generate, true)
  | Flight5 => None
  end.

Definition Parse (f : Flight) : option (handshakeContext13 → M (W := W) presult presult) :=
  match f with
  | Flight0 => Some flight13_0Parse
  | Flight1 => Some flight13_1Parse
  | Flight2 => Some flight13_2Parse
  | Flight3 => Some flight13_3Parse
  | Flight4 | Flight5 => None
  end.

End flights.
End Flight13.
