(* ===== verification/Transcript13.v ===== *)
(** * The transcript of a DTLS 1.3 handshake
    (src/dtls/handshake_transcript_13.go and the transcript functions of
    src/dtls/handshaker_13.go)

    The transcript collects the handshake messages in their canonical form,
    without the fields of DTLS, until the suite's hash function is known, and
    hashes them from then on.  Messages that come again are recognised by their
    sender and number, and a HelloRetryRequest replaces the first ClientHello by
    its hash.  The traffic secrets, the input of the CertificateVerify signature
    and the Finished value are derived from it. *)
From stdpp Require Import base tactics numbers list strings gmap.
From Stdlib Require Import ZArith Lia.
From S2P Require Import Prelude Sha2 Wire SignatureHash HandshakeCrypto Prf Record CipherSuite Extensions Fragment Handshake HandshakeState FlightCache Flight12 Flight13.
Import Protocol Extension Handshake HandshakeHeader State Config Flight KeySchedule.
Open Scope Z_scope.

Module Transcript13.

Definition tlsHandshakeHeaderLength13 : Z := 4.
Definition TypeMessageHash : Z := 254.

Definition clientHandshakeTrafficLabel13 : gostring := gs "c hs traffic".
Definition serverHandshakeTrafficLabel13 : gostring := gs "s hs traffic".
Definition derivedSecretLabel13 : gostring := gs "derived".
Definition finishedLabel13 : gostring := gs "finished".
Definition serverCertificateVerifyContext13 : gostring := gs "TLS 1.3, server CertificateVerify" ++ [0].
Definition clientCertificateVerifyContext13 : gostring := gs "TLS 1.3, client CertificateVerify" ++ [0].
Definition certificateVerifyPaddingLen13 : Z := 64.

Inductive transcriptSender13 := transcriptClient13 | transcriptServer13.

#[global] Instance sender_eq_dec : EqDecision transcriptSender13.
Proof. solve_decision. Defined.

#[global] Instance sender_countable : Countable transcriptSender13.
Proof.
  refine (inj_countable' (λ s, match s with transcriptClient13 => true | transcriptServer13 => false end)
    (λ b, if b : bool then transcriptClient13 else transcriptServer13) _). by intros [].
Defined.

(** The sender and the number of a message. *)
Definition transcriptMessageID13 : Type := transcriptSender13 * Z.

Record seenTranscriptMessage13 := MkSeenMessage { seen_length : Z; seen_fingerprint : bytes }.

Record transcriptMessage13 := MkMessage { tm_id : transcriptMessageID13; tm_typ : Z }.

(** [tr_hash] are newHash and the running hash h: the function and what was
    written so far; they are set together. *)
Record handshakeTranscript13 := MkTranscript {
  tr_hash : option (Hash * bytes);
  tr_pending : list bytes;
  tr_transcript : bytes;
  tr_seen : gmap transcriptMessageID13 seenTranscriptMessage13;
  tr_order : list transcriptMessage13;
  tr_helloRetryApplied : bool
}.

Definition newHandshakeTranscript13 : handshakeTranscript13 := MkTranscript None [] [] ∅ [] false.

Definition canonicalHandshake13 (raw : bytes) : res dtls_error bytes :=
  if len raw <? HeaderLength then Err ErrBufferTooSmall else
  header ← Header_Unmarshal raw;
  if negb (FragmentOffset header =? 0) || negb (FragmentLength header =? Length header) || negb (len raw =? HeaderLength + Length header)
  then Err ErrInvalidHandshakeTranscriptMessage else
  Ok (sub 0 tlsHandshakeHeaderLength13 raw ++ sub HeaderLength (len raw) raw).

Definition validateCanonicalHandshake13 (message : bytes) : res dtls_error unit :=
  if len message <? tlsHandshakeHeaderLength13 then Err ErrBufferTooSmall else
  d ← slice_from message 1;
  if negb (BigEndianUint24 d =? len message - tlsHandshakeHeaderLength13) then Err ErrInvalidHandshakeTranscriptMessage else Ok tt.

(** ** Operations *)

(** An operation returns a value or an error, and the transcript. *)
Definition op (A : Type) : Type := handshakeTranscript13 → res dtls_error A * handshakeTranscript13.

#[global] Instance op_bind : MBind op := λ A B k m t,
  match m t with
  | (Ok a, t') => k a t'
  | (Err e, t') => (Err e, t')
  | (Panic, t') => (Panic, t')
  end.

Definition pure {A} (r : res dtls_error A) : op A := λ t, (r, t).

(** A nil function, or one that returns nil, is [None]; writing to a hash does
    not fail. *)
Definition selectHash (newHash : option Hash) : op unit := λ t,
  match newHash with
  | None => (Err ErrHandshakeTranscriptHashNotSelected, t)
  | Some h =>
      match tr_hash t with
      | Some _ => (Err ErrHandshakeTranscriptHashAlreadySelected, t)
      | None => (Ok tt, MkTranscript (Some (h, concat (tr_pending t))) [] (tr_transcript t) (tr_seen t) (tr_order t) (tr_helloRetryApplied t))
      end
  end.

Definition fingerprint (message : bytes) : seenTranscriptMessage13 := MkSeenMessage (len message) (h_sum Sha2.sha256 message).

Definition same_message (a b : seenTranscriptMessage13) : bool :=
  (seen_length a =? seen_length b) && bool_decide (seen_fingerprint a = seen_fingerprint b).

Definition appendCanonical (id : transcriptMessageID13) (message : bytes) : op unit := λ t,
  match validateCanonicalHandshake13 message with
  | Err e => (Err e, t)
  | Panic => (Panic, t)
  | Ok _ =>
      match tr_seen t !! id with
      | Some seen => (if same_message seen (fingerprint message) then Ok tt else Err ErrHandshakeTranscriptMessageChanged, t)
      | None =>
          match message with
          | [] => (Panic, t)
          | typ :: _ =>
              (Ok tt, MkTranscript
                (match tr_hash t with Some (h, written) => Some (h, written ++ message) | None => None end)
                (match tr_hash t with Some _ => tr_pending t | None => tr_pending t ++ [message] end)
                (tr_transcript t ++ message) (<[id := fingerprint message]> (tr_seen t)) (tr_order t ++ [MkMessage id typ])
                (tr_helloRetryApplied t))
          end
      end
  end.

Definition sum (t : handshakeTranscript13) : res dtls_error bytes :=
  match tr_hash t with
  | None => Err ErrHandshakeTranscriptHashNotSelected
  | Some (h, written) => Ok (h_sum h written)
  end.

Definition sumWithSuffix (suffix : bytes) (t : handshakeTranscript13) : res dtls_error bytes :=
  match tr_hash t with
  | None => Err ErrHandshakeTranscriptHashNotSelected
  | Some (h, _) => Ok (h_sum h (tr_transcript t ++ suffix))
  end.

Definition hasInitialClientHello13 (t : handshakeTranscript13) : bool :=
  match tr_order t with
  | [m] => bool_decide ((tm_id m).1 = transcriptClient13) && (tm_typ m =? TypeClientHello)
  | _ => false
  end.

(** The message that stands for the first ClientHello. *)
Definition message_hash (digest : bytes) : bytes := TypeMessageHash :: be_put 3 (len digest) ++ digest.

Definition applyHelloRetryRequest : op unit := λ t,
  match tr_hash t with
  | None => (Err ErrHandshakeTranscriptHashNotSelected, t)
  | Some (h, written) =>
      if tr_helloRetryApplied t || negb (hasInitialClientHello13 t) then (Err ErrHandshakeTranscriptHelloRetryRequestInvalid, t) else
      let messageHash := message_hash (h_sum h written) in
      (Ok tt, MkTranscript (Some (h, messageHash)) (tr_pending t) messageHash (tr_seen t) (tr_order t) true)
  end.

Definition transcriptSenderForSide13 (isClient : bool) : transcriptSender13 := if isClient then transcriptClient13 else transcriptServer13.

Definition is_already_selected (e : dtls_error) : bool :=
  match e with ErrHandshakeTranscriptHashAlreadySelected => true | _ => false end.

Definition selectTranscriptHashIfReady13 (cipherSuite : option CipherSuite.CipherSuite) : op unit := λ t,
  match cipherSuite with
  | None => (Ok tt, t)
  | Some cs =>
      match selectHash (Some (CipherSuite.HashFunc cs)) t with
      | (Err e, t) => (if is_already_selected e then Ok tt else Err e, t)
      | r => r
      end
  end.

Definition hasCanonical13 (id : transcriptMessageID13) (message : bytes) (t : handshakeTranscript13) : res dtls_error bool :=
  _ ← validateCanonicalHandshake13 message;
  match tr_seen t !! id with
  | None => Ok false
  | Some seen => if same_message seen (fingerprint message) then Ok true else Err ErrHandshakeTranscriptMessageChanged
  end.

Definition is_retry (message : Message) : bool :=
  match message with ServerHello sh => Flight13.IsHelloRetryRequest sh | _ => false end.

Definition appendHandshake13 (sender : transcriptSender13) (cipherSuite : option CipherSuite.CipherSuite) (seq : Z) (message : Message)
    (canonical : bytes) : op unit := λ t,
  let id := (sender, seq) in
  if is_retry message then
    match hasCanonical13 id canonical t with
    | Err e => (Err e, t)
    | Panic => (Panic, t)
    | Ok true => (Ok tt, t)
    | Ok false => (selectTranscriptHashIfReady13 cipherSuite;; applyHelloRetryRequest;; appendCanonical id canonical) t
    end
  else appendCanonical id canonical t.

(** A transcript that is nil does not occur: the connection and the state machine
    create one. *)
Section flights.
Context `{Cryptobyte}.

(** Marshal also fills in the lengths of the packet's header; it computes them
    again whenever the packet is marshalled. *)
Definition canonicalOutboundHandshake13 (p : Flight12.Packet) : res dtls_error (option (Z * Message * bytes)) :=
  match Flight12.pk_Content p with
  | Flight12.HandshakeContent h (Some m) =>
      '(_, raw) ← Handshake_Marshal h (Some m);
      canonical ← canonicalHandshake13 raw;
      Ok (Some (MessageSequence h, m, canonical))
  | _ => Ok None
  end.

Fixpoint appendOutboundHandshakeFlight13 (isClient : bool) (cipherSuite : option CipherSuite.CipherSuite) (pkts : list Flight12.Packet) : op unit :=
  match pkts with
  | [] => pure (Ok tt)
  | p :: pkts =>
      o ← pure (canonicalOutboundHandshake13 p);
      (match o with
       | None => pure (Ok tt)
       | Some (seq, m, canonical) => appendHandshake13 (transcriptSenderForSide13 isClient) cipherSuite seq m canonical
       end);;
      appendOutboundHandshakeFlight13 isClient cipherSuite pkts
  end.

Fixpoint appendInboundHandshakeCacheItems13 (cipherSuite : option CipherSuite.CipherSuite) (items : list HandshakeCacheItem) : op unit :=
  match items with
  | [] => pure (Ok tt)
  | item :: items =>
      canonical ← pure (canonicalHandshake13 (it_Data item));
      '(h, m) ← pure (Handshake_Unmarshal (keyExchangeAlgorithmForCipherSuite cipherSuite) (it_Data item));
      appendHandshake13 (transcriptSenderForSide13 (it_IsClient item)) cipherSuite (MessageSequence h) m canonical;;
      appendInboundHandshakeCacheItems13 cipherSuite items
  end.

Definition canonicalClientHelloInitialFlight13 (p : Flight12.Packet) : res dtls_error (option (Z * bytes)) :=
  match Flight12.pk_Content p with
  | Flight12.HandshakeContent h (Some m) =>
      if negb (Message_Type m =? TypeClientHello) then Ok None else
      '(_, raw) ← Handshake_Marshal h (Some m);
      canonical ← canonicalHandshake13 raw;
      Ok (Some (MessageSequence h, canonical))
  | _ => Ok None
  end.

(** Whether a ClientHello was appended. *)
Fixpoint appendClientHelloInitialFlights13 (flights : list Flight12.Packet) : op bool :=
  match flights with
  | [] => pure (Ok false)
  | p :: flights =>
      o ← pure (canonicalClientHelloInitialFlight13 p);
      match o with
      | None => appendClientHelloInitialFlights13 flights
      | Some (seq, canonical) =>
          appendCanonical (transcriptClient13, seq) canonical;;
          appendClientHelloInitialFlights13 flights;;
          pure (Ok true)
      end
  end.

(** ** The key schedule *)

Definition hashSize13 (hashFunc : option Hash) : res dtls_error Z :=
  match hashFunc with
  | None => Err ErrKeyScheduleMissingHashFunction
  | Some h => Ok (h_size h)
  end.

Definition deriveHandshakeTrafficSecrets13 (hashFunc : option Hash) (preMasterSecret transcriptHash : bytes) : res dtls_error HandshakeTrafficSecrets13 :=
  hashSize ← hashSize13 hashFunc;
  if (len preMasterSecret =? 0) || negb (len transcriptHash =? hashSize) then Err ErrLengthMismatch else
  earlySecret ← HkdfExtract hashFunc [] (zeros hashSize);
  derivedSecret ← DeriveSecret hashFunc earlySecret derivedSecretLabel13 None;
  handshakeSecret ← HkdfExtract hashFunc derivedSecret preMasterSecret;
  clientSecret ← HkdfExpandLabel hashFunc handshakeSecret clientHandshakeTrafficLabel13 transcriptHash hashSize;
  serverSecret ← HkdfExpandLabel hashFunc handshakeSecret serverHandshakeTrafficLabel13 transcriptHash hashSize;
  Ok (MkTrafficSecrets clientSecret serverSecret).

Definition deriveAndStoreHandshakeTrafficSecrets13 (s : State) (t : handshakeTranscript13) : res dtls_error unit * State * handshakeTranscript13 :=
  match st_CipherSuite s with
  | None => (Err ErrCipherSuiteNotSet, s, t)
  | Some cs =>
      let '(r, t) := (selectTranscriptHashIfReady13 (Some cs);;
                      transcriptHash ← (λ t, (sum t, t));
                      pure (deriveHandshakeTrafficSecrets13 (Some (CipherSuite.HashFunc cs)) (st_PreMasterSecret s) transcriptHash)) t in
      match r with
      | Ok secrets => (Ok tt, s <| st_HandshakeTrafficSecrets13 := secrets |>, t)
      | Err e => (Err e, s, t)
      | Panic => (Panic, s, t)
      end
  end.

Definition certificateVerifyInput13 (isClient : bool) (transcriptHash : bytes) : bytes :=
  let context := if isClient then clientCertificateVerifyContext13 else serverCertificateVerifyContext13 in
  replicate (Z.to_nat certificateVerifyPaddingLen13) 0x20 ++ context ++ transcriptHash.

Definition certificateVerifyInputFromTranscript13 (isClient : bool) (t : handshakeTranscript13) : res dtls_error bytes :=
  transcriptHash ← sum t;
  Ok (certificateVerifyInput13 isClient transcriptHash).

Definition finishedKey13 (hashFunc : option Hash) (baseKey : bytes) : res dtls_error bytes :=
  hashSize ← hashSize13 hashFunc;
  HkdfExpandLabel hashFunc baseKey finishedLabel13 [] hashSize.

Definition finishedVerifyData13 (hashFunc : option Hash) (baseKey transcriptHash : bytes) : res dtls_error bytes :=
  hashSize ← hashSize13 hashFunc;
  if negb (len transcriptHash =? hashSize) then Err ErrLengthMismatch else
  finishedKey ← finishedKey13 hashFunc baseKey;
  match hashFunc with
  | Some h => Ok (Prf.hmac h finishedKey transcriptHash)
  | None => Panic
  end.

Definition finishedVerifyDataFromTranscript13 (hashFunc : option Hash) (baseKey : bytes) (t : handshakeTranscript13) : res dtls_error bytes :=
  transcriptHash ← sum t;
  finishedVerifyData13 hashFunc baseKey transcriptHash.

Definition verifyFinishedData13 (hashFunc : option Hash) (baseKey transcriptHash verifyData : bytes) : res dtls_error unit :=
  expected ← finishedVerifyData13 hashFunc baseKey transcriptHash;
  if negb (bool_decide (expected = verifyData)) then Err ErrVerifyDataMismatch else Ok tt.

End flights.

(** ** Specification: the transcript of RFC 8446, section 4.4.1 *)

(** A message of the transcript: its identity, whether it is a HelloRetryRequest,
    and its canonical form. *)
Record entry := MkEntry { en_id : transcriptMessageID13; en_retry : bool; en_data : bytes }.

(** A message counts once. *)
Definition record (ms : list entry) (e : entry) : list entry :=
  if bool_decide (en_id e ∈ map en_id ms) then ms else ms ++ [e].

(** What is hashed: the messages one after the other, where a ClientHello that was
    answered by a HelloRetryRequest is replaced by its hash. *)
Definition rfc8446 (h : Hash) (ms : list entry) : bytes :=
  match ms with
  | ch1 :: hrr :: rest =>
      if en_retry hrr then message_hash (h_sum h (en_data ch1)) ++ en_data hrr ++ concat (map en_data rest) else concat (map en_data ms)
  | _ => concat (map en_data ms)
  end.

(** The transcripts that arise from calls, failed ones included, with the messages
    that were accepted. *)
Inductive runs : handshakeTranscript13 → list entry → Prop :=
  | runs_new : runs newHandshakeTranscript13 []
  | runs_select t ms h r t' : runs t ms → selectHash h t = (r, t') → runs t' ms
  | runs_append t ms sender cs seq m c t' : runs t ms → appendHandshake13 sender cs seq m c t = (Ok tt, t') →
      runs t' (record ms (MkEntry (sender, seq) (is_retry m) c))
  | runs_refused t ms sender cs seq m c e t' : runs t ms → appendHandshake13 sender cs seq m c t = (Err e, t') → runs t' ms.

(** ** Lemmas *)

(** The place of a HelloRetryRequest: it answers the first ClientHello. *)
Definition retry_second (ms : list entry) : Prop :=
  ∃ ch1 hrr rest, ms = ch1 :: hrr :: rest ∧ en_retry ch1 = false ∧ en_retry hrr = true ∧ Forall (λ e, en_retry e = false) rest ∧
    (en_id ch1).1 = transcriptClient13.

Record represents (t : handshakeTranscript13) (ms : list entry) : Prop := {
  rp_distinct : NoDup (map en_id ms);
  rp_seen e : e ∈ ms → tr_seen t !! en_id e = Some (fingerprint (en_data e));
  rp_unseen id : id ∉ map en_id ms → tr_seen t !! id = None;
  rp_order : tr_order t = map (λ e, MkMessage (en_id e) (hd 0 (en_data e))) ms;
  rp_retry : if tr_helloRetryApplied t then retry_second ms else Forall (λ e, en_retry e = false) ms;
  rp_hash : match tr_hash t with
            | None => tr_pending t = map en_data ms ∧ tr_helloRetryApplied t = false ∧ tr_transcript t = concat (map en_data ms)
            | Some (h, w) => tr_pending t = [] ∧ tr_transcript t = w ∧ w = rfc8446 h ms
            end
}.

Lemma rfc8446_snoc h ms e : (en_retry e = false ∨ ∃ ch1 hrr rest, ms = ch1 :: hrr :: rest) → rfc8446 h (ms ++ [e]) = rfc8446 h ms ++ en_data e.
Proof.
  intros Hc. destruct ms as [|a [|b ms]]; cbn [app rfc8446].
  - cbn. by rewrite app_nil_r.
  - destruct Hc as [->|(? & ? & ? & ?)]; [|done]. cbn. by rewrite !app_nil_r.
  - destruct (en_retry b); cbn [map concat]; rewrite map_app, concat_app; cbn [map concat]; by rewrite app_nil_r, <- !(assoc_L (++)).
Qed.

Lemma represents_new : represents newHandshakeTranscript13 [].
Proof. split; cbn; try done; [apply NoDup_nil_2|by intros e ?%elem_of_nil]. Qed.

Lemma represents_select h t ms : represents t ms → represents (selectHash h t).2 ms.
Proof.
  intros Hrep. unfold selectHash. destruct h as [h|]; [|done]. destruct (tr_hash t) as [[h' w]|] eqn:E; [done|].
  destruct Hrep as [Hd Hs Hu Ho Hr Hh]. rewrite E in Hh. destruct Hh as (Hp & Hb & Ht). split; try done. cbn. split_and!; [done|by rewrite Hp|]. rewrite Hp.
  rewrite Hb in Hr. unfold rfc8446. destruct ms as [|a [|b ms]]; [done..|].
  rewrite Forall_cons, Forall_cons in Hr. by destruct Hr as (_ & -> & _).
Qed.

Lemma select_ready_spec cs t : ∃ o, selectTranscriptHashIfReady13 cs t = (Ok tt, (selectHash o t).2) ∧ o = CipherSuite.HashFunc <$> cs.
Proof.
  unfold selectTranscriptHashIfReady13. destruct cs as [cs|]; [|by exists None]. exists (Some (CipherSuite.HashFunc cs)). split; [|done].
  unfold selectHash. by destruct (tr_hash t).
Qed.

Lemma selectHash_keeps h t : tr_seen (selectHash h t).2 = tr_seen t ∧ tr_order (selectHash h t).2 = tr_order t ∧
  tr_helloRetryApplied (selectHash h t).2 = tr_helloRetryApplied t.
Proof. unfold selectHash. destruct h; [|done]. by destruct (tr_hash t). Qed.

(** Appending a message that is new. *)
Lemma represents_append t ms e : represents t ms → en_id e ∉ map en_id ms → en_retry e = false →
  validateCanonicalHandshake13 (en_data e) = Ok tt →
  ∃ t', appendCanonical (en_id e) (en_data e) t = (Ok tt, t') ∧ represents t' (ms ++ [e]).
Proof.
  intros [Hd Hs Hu Ho Hr Hh] Hnew Hnr Hv. unfold appendCanonical. rewrite Hv, (Hu _ Hnew).
  destruct (en_data e) as [|typ rest] eqn:Ed; [done|]. rewrite <- Ed. eexists. split; [done|]. split; cbn [tr_seen tr_order tr_hash tr_pending tr_transcript tr_helloRetryApplied].
  - rewrite map_app. apply NoDup_app. split_and!; [done| |apply NoDup_singleton]. intros x Hx Hx'. apply list_elem_of_singleton in Hx'. by subst.
  - intros x [Hx|Hx%list_elem_of_singleton]%elem_of_app; [|subst; by rewrite lookup_insert_eq].
    rewrite lookup_insert_ne; [by apply Hs|]. intros E. apply Hnew. rewrite E. by apply list_elem_of_fmap_2.
  - intros id Hid. rewrite map_app, elem_of_app in Hid. rewrite lookup_insert_ne; [apply Hu; tauto|]. intros <-. apply Hid. right. by apply list_elem_of_singleton.
  - rewrite Ho, map_app. cbn. by rewrite Ed.
  - destruct (tr_helloRetryApplied t); [|by apply Forall_app; split; [|constructor]].
    destruct Hr as (ch1 & hrr & r & -> & H1 & H2 & H3 & H4). exists ch1, hrr, (r ++ [e]). split_and!; try done. by apply Forall_app; split; [|constructor].
  - destruct (tr_hash t) as [[h w]|].
    + destruct Hh as (-> & -> & ->). split_and!; [done..|]. by rewrite rfc8446_snoc by (by left).
    + destruct Hh as (-> & -> & ->). rewrite !map_app, concat_app. cbn. rewrite app_nil_r. done.
Qed.

(** A message that is there already is not appended again, and not replaced. *)
Lemma represents_again t ms e id data : represents t ms → e ∈ ms → en_id e = id →
  appendCanonical id data t =
    (_ ← validateCanonicalHandshake13 data;
     if same_message (fingerprint (en_data e)) (fingerprint data) then Ok tt else Err ErrHandshakeTranscriptMessageChanged, t).
Proof.
  intros Hr He <-. unfold appendCanonical. rewrite (rp_seen _ _ Hr e He). by destruct (validateCanonicalHandshake13 data).
Qed.

Lemma hasInitial_inv t ms : represents t ms → hasInitialClientHello13 t = true → ∃ e, ms = [e] ∧ (en_id e).1 = transcriptClient13.
Proof.
  intros Hr. unfold hasInitialClientHello13. rewrite (rp_order _ _ Hr). destruct ms as [|e [|e' ms]]; [done| |done]. cbn.
  rewrite andb_true_iff, bool_decide_eq_true. intros [? _]. by exists e.
Qed.

(** A HelloRetryRequest that is new. *)
Lemma represents_retry t ms e r t' : represents t ms → en_id e ∉ map en_id ms → en_retry e = true → validateCanonicalHandshake13 (en_data e) = Ok tt →
  (applyHelloRetryRequest;; appendCanonical (en_id e) (en_data e)) t = (r, t') →
  represents t' (match r with Ok _ => ms ++ [e] | _ => ms end).
Proof.
  intros Hrep Hnew He Hv. unfold applyHelloRetryRequest, mbind, op_bind. destruct (tr_hash t) as [[h w]|] eqn:Eh; [|by intros [= <- <-]].
  destruct (tr_helloRetryApplied t) eqn:Ea; [by intros [= <- <-]|]. destruct (hasInitialClientHello13 t) eqn:Ei; [|by intros [= <- <-]]. cbn [orb negb].
  destruct (hasInitial_inv _ _ Hrep Ei) as (ch1 & -> & Hc). destruct Hrep as [Hd Hs Hu Ho Hr Hh]. rewrite Eh in Hh. rewrite Ea in Hr.
  destruct Hh as (Hp & Ht & Hw). rewrite Forall_singleton in Hr. unfold appendCanonical. rewrite Hv. cbn [tr_seen]. rewrite (Hu _ Hnew).
  destruct (en_data e) as [|typ rest] eqn:Ed; [done|]. rewrite <- Ed. intros [= <- <-].
  assert (en_id ch1 ≠ en_id e) as Hne. { intros E. apply Hnew. rewrite <- E. by apply list_elem_of_singleton. }
  split; cbn [tr_seen tr_order tr_hash tr_pending tr_transcript tr_helloRetryApplied].
  - constructor; [|apply NoDup_singleton]. rewrite list_elem_of_singleton. done.
  - intros x [Hx|Hx%list_elem_of_singleton]%elem_of_app; [|subst; by rewrite lookup_insert_eq].
    rewrite lookup_insert_ne; [by apply Hs|]. apply list_elem_of_singleton in Hx as ->. done.
  - intros id Hid. cbn in Hid. rewrite !elem_of_cons in Hid. rewrite lookup_insert_ne; [apply Hu; cbn; rewrite elem_of_cons; tauto|]. intros <-. tauto.
  - rewrite Ho. cbn. by rewrite Ed.
  - exists ch1, e, []. split_and!; [done|exact Hr|done|constructor|done].
  - split_and!; [done..|]. unfold rfc8446. cbn [app map concat]. rewrite He, app_nil_r, Hw. cbn [rfc8446 map concat]. by rewrite app_nil_r.
Qed.

Lemma record_known ms e : en_id e ∈ map en_id ms → record ms e = ms.
Proof. intros He. unfold record. by rewrite bool_decide_true. Qed.

Lemma record_new ms e : en_id e ∉ map en_id ms → record ms e = ms ++ [e].
Proof. intros He. unfold record. by rewrite bool_decide_false. Qed.

Lemma known_entry ms id : id ∈ map en_id ms → ∃ e, e ∈ ms ∧ en_id e = id.
Proof. intros (e & -> & He)%list_elem_of_fmap. by exists e. Qed.

(** What a call of [appendHandshake13] does to the messages. *)
Lemma represents_step t ms sender cs seq m c r t' : represents t ms → appendHandshake13 sender cs seq m c t = (r, t') →
  represents t' (match r with Ok _ => record ms (MkEntry (sender, seq) (is_retry m) c) | _ => ms end).
Proof.
  intros Hrep E. set (e := MkEntry (sender, seq) (is_retry m) c). unfold appendHandshake13 in E. cbv zeta in E.
  destruct (decide (en_id e ∈ map en_id ms)) as [Hin|Hnew].
  - destruct (known_entry _ _ Hin) as (e' & He' & Eid). rewrite (record_known _ _ Hin).
    assert (t' = t) as ->; [|by destruct r]. destruct (is_retry m).
    + unfold hasCanonical13 in E. rewrite <- (eq_trans Eid eq_refl : en_id e' = (sender, seq)), (rp_seen _ _ Hrep _ He') in E.
      destruct (validateCanonicalHandshake13 c) as [[]| |]; cbn [mbind res_bind] in E; try congruence. destruct (same_message _ _); congruence.
    + rewrite (represents_again t ms e' (sender, seq) c) in E by done. congruence.
  - rewrite (record_new _ _ Hnew). destruct (is_retry m) eqn:Em.
    + unfold hasCanonical13 in E. pose proof (rp_unseen _ _ Hrep _ Hnew) as Hu. cbn [en_id e] in Hu. rewrite Hu in E.
      destruct (validateCanonicalHandshake13 c) as [[]| |] eqn:Ev; cbn [mbind res_bind] in E; try (injection E as <- <-; done).
      destruct (select_ready_spec cs t) as (o & Es & _). unfold mbind at 1, op_bind at 1 in E. rewrite Es in E.
      by apply (represents_retry _ _ e r t' (represents_select o _ _ Hrep)).
    + destruct (validateCanonicalHandshake13 c) as [[]| |] eqn:Ev.
      * destruct (represents_append t ms e Hrep Hnew eq_refl Ev) as (t'' & Ea & Hr'). cbn [en_id en_data e] in Ea. rewrite Ea in E. by injection E as <- <-.
      * unfold appendCanonical in E. rewrite Ev in E. by injection E as <- <-.
      * unfold appendCanonical in E. rewrite Ev in E. by injection E as <- <-.
Qed.

Lemma runs_represents t ms : runs t ms → represents t ms.
Proof.
  induction 1 as [|t ms h r t' _ IH E|t ms sender cs seq m c t' _ IH E|t ms sender cs seq m c e t' _ IH E].
  - apply represents_new.
  - apply (represents_select h) in IH. by rewrite E in IH.
  - by apply (represents_step _ _ _ _ _ _ _ _ _ IH) in E.
  - by apply (represents_step _ _ _ _ _ _ _ _ _ IH) in E.
Qed.

(** ** Property *)

(** C20: the transcript is that of RFC 8446.  After any calls, failed ones
    included, the transcript holds each message once, in the order of arrival;
    whenever the hash function was chosen, its value is the hash of the messages,
    with the first ClientHello replaced by its hash when a HelloRetryRequest was
    accepted, which is then the second message and the only one; adding a suffix
    hashes the same bytes and the suffix; and a message that comes again with
    another content is refused and changes nothing. *)
Theorem transcript13_refines_rfc8446 t ms : runs t ms →
  NoDup (map en_id ms) ∧ tr_order t = map (λ e, MkMessage (en_id e) (hd 0 (en_data e))) ms ∧
  (∀ e, e ∈ ms → en_retry e = true → retry_second ms) ∧
  (∀ h w, tr_hash t = Some (h, w) → sum t = Ok (h_sum h (rfc8446 h ms)) ∧
     ∀ suffix, sumWithSuffix suffix t = Ok (h_sum h (rfc8446 h ms ++ suffix))) ∧
  (∀ e sender cs seq m c, e ∈ ms → en_id e = (sender, seq) → validateCanonicalHandshake13 c = Ok tt →
     h_sum Sha2.sha256 c ≠ h_sum Sha2.sha256 (en_data e) → appendHandshake13 sender cs seq m c t = (Err ErrHandshakeTranscriptMessageChanged, t)).
Proof.
  intros Hrep%runs_represents. split_and!.
  - apply Hrep.
  - apply Hrep.
  - intros e He Hretry. pose proof (rp_retry _ _ Hrep) as Hr. destruct (tr_helloRetryApplied t); [done|].
    rewrite Forall_forall in Hr. specialize (Hr _ He). congruence.
  - intros h w E. pose proof (rp_hash _ _ Hrep) as Hh. rewrite E in Hh. destruct Hh as (_ & Ht & Hw).
    unfold sum, sumWithSuffix. rewrite E, Ht, Hw. done.
  - intros e sender cs seq m c He Eid Ev Hne.
    assert (same_message (fingerprint (en_data e)) (fingerprint c) = false) as Hs.
    { unfold same_message, fingerprint. cbn [seen_length seen_fingerprint]. rewrite (bool_decide_false (h_sum _ _ = _)) by congruence. apply andb_false_r. }
    unfold appendHandshake13. cbv zeta. rewrite (represents_again t ms e) by done. unfold hasCanonical13. rewrite Ev.
    cbn [mbind res_bind]. rewrite <- Eid, (rp_seen _ _ Hrep e He), Hs. by destruct (is_retry m).
Qed.

(** Two messages, the hash chosen in between. *)
Definition demo_hello : bytes := [TypeClientHello; 0; 0; 1; 7].
Definition demo_reply : bytes := [TypeServerHelloDone; 0; 0; 0].
Definition demo_begun : handshakeTranscript13 := (appendHandshake13 transcriptClient13 None 0 ServerHelloDone demo_hello newHandshakeTranscript13).2.
Definition demo_selected : handshakeTranscript13 := (selectHash (Some Sha2.sha256) demo_begun).2.
Definition demo_calls : handshakeTranscript13 := (appendHandshake13 transcriptServer13 None 0 ServerHelloDone demo_reply demo_selected).2.

Lemma transcript13_refines_rfc8446_witness :
  sum demo_calls = Ok (h_sum Sha2.sha256 [TypeClientHello; 0; 0; 1; 7; TypeServerHelloDone; 0; 0; 0]).
Proof.
  assert (runs demo_calls [MkEntry (transcriptClient13, 0) false demo_hello; MkEntry (transcriptServer13, 0) false demo_reply]) as Hr.
  { apply (runs_append demo_selected [MkEntry (transcriptClient13, 0) false demo_hello] transcriptServer13 None 0 ServerHelloDone demo_reply); [|reflexivity].
    apply (runs_select demo_begun _ (Some Sha2.sha256) (Ok tt)); [|reflexivity].
    apply (runs_append newHandshakeTranscript13 [] transcriptClient13 None 0 ServerHelloDone demo_hello); [apply runs_new|reflexivity]. }
  destruct (transcript13_refines_rfc8446 _ _ Hr) as (_ & _ & _ & Hsum & _).
  destruct (Hsum Sha2.sha256 (demo_hello ++ demo_reply) eq_refl) as [E _]. exact E.
Defined.

End Transcript13.
