(* ===== verification/Handshaker.v ===== *)
(** * The state machine of a DTLS 1.2 handshake (src/dtls/handshaker.go)

    [handshakeFSM12]: each flight is prepared, sent and, unless it is the last,
    waited for; a timer sends it again.  [step] interleaves the machine with the
    connection's reader, which adds messages to the cache at any time.  The
    connection is an interface ([flightConn], [flightConn_ok]). *)
From stdpp Require Import base tactics numbers list strings gmap relations.
From Stdlib Require Import ZArith Lia.
From S2P Require Import Prelude Sha2 Wire SignatureHash HandshakeCrypto Prf Record CipherSuite Extensions Fragment Handshake HandshakeState FlightCache Flight12 Flight12Auth.
Import Protocol SignatureHash Extension Handshake HandshakeHeader State Config HandshakeCrypto Flight Selection AlertDescription Flight12 Flight12Auth.
Open Scope Z_scope.

Module Handshaker.
Section handshaker.
Context `{Cryptobyte} `{Ciphers} `{KeyExchange.KeyAgreement} `{PKI} `{Unicode} {W : Type} `{World W}.

Inductive handshakeState := handshakeErrored (e : dtls_error) | handshakePreparing | handshakeSending | handshakeWaiting | handshakeFinished.

(** Durations are nanoseconds. *)
Definition Second : Z := 1000000000.

Record handshakeFSM12 := MkFSM {
  currentFlight : flight;
  flights : list Packet;
  retransmit : bool;
  retransmitInterval : Z;
  f_hs : hs (W := W)
}.

(** The connection: an alert is sent, packets are written (this changes the
    headers of their records), queued packets are processed. *)
Record flightConn := MkFlightConn {
  notify : Alert → hs (W := W) → res dtls_error unit * hs (W := W);
  writePackets : list Packet → hs (W := W) → res dtls_error unit * list Packet * hs (W := W);
  adaptFlightConn : Conn (W := W)
}.

Definition newHandshakeFSM12 (s : hs (W := W)) (cfg : HandshakeConfig W) (initialFlight : flight) : handshakeFSM12 :=
  MkFSM initialFlight [] false (cf_InitialRetransmitInterval cfg) s.

Definition with_state (f : State → State) (s : hs (W := W)) : hs (W := W) := MkHs (f (h_state s)) (h_cache s) (h_world s) (h_keylog s).

(** The alert, if there is one; its own error replaces the one at hand.  [None]
    is a crash. *)
Definition notify_alert (c : flightConn) (alert : option Alert) (err : option dtls_error) (s : hs (W := W)) : option (option dtls_error * hs (W := W)) :=
  match alert with
  | None => Some (err, s)
  | Some a =>
      match notify c a s with
      | (Panic, _) => None
      | (Ok _, s) => Some (err, s)
      | (Err alertErr, s) => Some (match err with Some _ => Some alertErr | None => None end, s)
      end
  end.

(** Epochs and message numbers of the packets: the packets, the highest epoch and
    the next message number. *)
Fixpoint number_packets (epoch nextEpoch sendSequence : Z) (ps : list Packet) : list Packet * Z * Z :=
  match ps with
  | [] => ([], nextEpoch, sendSequence)
  | p :: ps =>
      let h := pk_Header p in
      let e := u16 (RecordHeader.Epoch h + epoch) in
      let nextEpoch := if nextEpoch <? e then e else nextEpoch in
      let '(content, sendSequence) :=
        match pk_Content p with
        | HandshakeContent h m =>
            (HandshakeContent (MkHeader (Type_ h) (Length h) (u16 sendSequence) (FragmentOffset h) (FragmentLength h)) m, sendSequence + 1)
        | c => (c, sendSequence)
        end in
      let '(ps, nextEpoch, sendSequence) := number_packets epoch nextEpoch sendSequence ps in
      (MkPacket (RecordHeader.MkHeader (RecordHeader.ContentType h) (RecordHeader.ContentLen h) (RecordHeader.HVersion h) e
                   (RecordHeader.SequenceNumber h) (RecordHeader.ConnectionID h)) content (pk_ShouldEncrypt p) (pk_ShouldWrapCID p) (pk_ResetLocalSequenceNumber p) :: ps, nextEpoch, sendSequence)
  end.

(** What is done with the result of a generator. *)
Definition prepared (c : flightConn) (cfg : HandshakeConfig W) (f : handshakeFSM12) (rt : bool) (r : gresult) (s : hs (W := W))
    : option (handshakeState * handshakeFSM12) :=
  let '(pkts, alert, err) := r in
  '(err, s) ← notify_alert c alert err s;
  match err with
  | Some e => Some (handshakeErrored e, MkFSM (currentFlight f) [] rt (retransmitInterval f) s)
  | None =>
      let epoch := cf_InitialEpoch cfg in
      let '(pkts, nextEpoch, sendSequence) := number_packets epoch epoch (st_HandshakeSendSequence (h_state s)) pkts in
      let s := with_state (λ st, st <| st_HandshakeSendSequence := sendSequence |>) s in
      let s := if epoch =? nextEpoch then s else with_state (λ st, st <| st_LocalEpoch := nextEpoch |>) s in
      Some (handshakeSending, MkFSM (currentFlight f) pkts rt (retransmitInterval f) s)
  end.

Definition prepare (c : flightConn) (cfg : HandshakeConfig W) (f : handshakeFSM12) : option (handshakeState * handshakeFSM12) :=
  let '(gen, rt) := GetGenerator (currentFlight f) (adaptFlightConn c) cfg in
  match gen (f_hs f) with
  | (Crash, _) => None
  | (Val r, s) | (Ret r, s) => prepared c cfg f rt r s
  end.

Definition send (c : flightConn) (f : handshakeFSM12) : option (handshakeState * handshakeFSM12) :=
  let '(r, pkts, s) := writePackets c (flights f) (f_hs f) in
  let f := MkFSM (currentFlight f) pkts (retransmit f) (retransmitInterval f) s in
  match r with
  | Panic => None
  | Err e => Some (handshakeErrored e, f)
  | Ok _ => Some (if IsLastSendFlight (currentFlight f) then handshakeFinished else handshakeWaiting, f)
  end.

(** What [wait] and [finish] select on. *)
Inductive event := RecvHandshake (isRetransmit : bool) | RetransmitTimer | CtxDone (e : dtls_error).

Definition with_interval (f : handshakeFSM12) (i : Z) : handshakeFSM12 := MkFSM (currentFlight f) (flights f) (retransmit f) i (f_hs f).

(** The timer doubles the interval, up to a minute. *)
Definition backoff (cfg : HandshakeConfig W) (i : Z) : Z :=
  let i := if cf_DisableRetransmitBackoff cfg then i else i * 2 in
  if Second * 60 <? i then Second * 60 else i.

(** What is done with the result of a parser. *)
Definition received (c : flightConn) (f : handshakeFSM12) (r : presult) (s : hs (W := W)) : option (handshakeState * handshakeFSM12) :=
  let '(nextFlight, alert, err) := r in
  '(err, s) ← notify_alert c alert err s;
  let go q next := Some (q, MkFSM next (flights f) (retransmit f) (retransmitInterval f) s) in
  match err, nextFlight with
  | Some e, _ => go (handshakeErrored e) (currentFlight f)
  | None, None => go handshakeWaiting (currentFlight f)
  | None, Some next =>
      if IsLastRecvFlight next && bool_decide (currentFlight f = next) then go handshakeFinished (currentFlight f)
      else go handshakePreparing next
  end.

(** One round of the loop; in [handshakeWaiting] it goes on. *)
Definition wait (c : flightConn) (cfg : HandshakeConfig W) (ev : event) (f : handshakeFSM12) : option (handshakeState * handshakeFSM12) :=
  match ev with
  | RecvHandshake isRetransmit =>
      let f := if isRetransmit then f else with_interval f (cf_InitialRetransmitInterval cfg) in
      match Parse (currentFlight f) (adaptFlightConn c) cfg (f_hs f) with
      | (Crash, _) => None
      | (Val r, s) | (Ret r, s) => received c f r s
      end
  | RetransmitTimer =>
      if negb (retransmit f) then Some (handshakeWaiting, f)
      else Some (handshakeSending, with_interval f (backoff cfg (retransmitInterval f)))
  | CtxDone e => Some (handshakeErrored e, with_interval f (cf_InitialRetransmitInterval cfg))
  end.

Definition finish (ev : event) (f : handshakeFSM12) : option (handshakeState * handshakeFSM12) :=
  match ev with
  | RecvHandshake _ => Some (if st_IsClient (h_state (f_hs f)) then handshakeFinished else handshakeSending, f)
  | CtxDone e => Some (handshakeErrored e, f)
  | RetransmitTimer => None
  end.

(** The loop of Run, interleaved with the reader: it adds messages to the cache
    and may advance the remote epoch. *)
Inductive step (c : flightConn) (cfg : HandshakeConfig W) : handshakeState * handshakeFSM12 → handshakeState * handshakeFSM12 → Prop :=
  | step_prepare f r : prepare c cfg f = Some r → step c cfg (handshakePreparing, f) r
  | step_send f r : send c f = Some r → step c cfg (handshakeSending, f) r
  | step_wait ev f r : wait c cfg ev f = Some r → step c cfg (handshakeWaiting, f) r
  | step_finish ev f r : finish ev f = Some r → step c cfg (handshakeFinished, f) r
  | step_receive q f new w st : cache_typed (st_IsClient (h_state (f_hs f))) new → quiet (h_state (f_hs f)) st →
      step c cfg (q, f) (q, MkFSM (currentFlight f) (flights f) (retransmit f) (retransmitInterval f)
                              (MkHs st (h_cache (f_hs f) ++ new) w (h_keylog (f_hs f)))).

(** ** The interface of the connection *)

Record flightConn_ok (c : flightConn) : Prop := {
  fo_conn : conn_ok (adaptFlightConn c);
  fo_notify a s r s' : notify c a s = (r, s') → quiet (h_state s) (h_state s') ∧ h_cache s' = h_cache s;
  fo_write ps s r ps' s' : writePackets c ps s = (r, ps', s') → quiet (h_state s) (h_state s') ∧ grows (h_cache s) (h_cache s') ∧
    (typed s → typed s')
}.

(** ** The invariant *)

Implicit Types (s : hs (W := W)) (cfg : HandshakeConfig W) (f : handshakeFSM12).

(** The cache contains a ClientHello of the client with the server's cookie. *)
Definition hello_with_cookie s : Prop :=
  st_Cookie (h_state s) ≠ [] ∧ ∃ i kx hd ch, i ∈ h_cache s ∧ it_IsClient i = true ∧ it_Typ i = TypeClientHello ∧
    Handshake_Unmarshal kx (it_Data i) = Ok (hd, ClientHello ch) ∧ ch_Cookie ch = st_Cookie (h_state s).

Definition admitted cfg s : Prop := cf_InsecureSkipHelloVerify cfg = true ∨ hello_with_cookie s.

(** The client satisfies the configuration's policy. *)
Definition client_authenticated cfg s : Prop :=
  ∃ cs, st_CipherSuite (h_state s) = Some cs ∧ let certs := st_PeerCertificates (h_state s) in
    (certs ≠ [] → ∃ h0, grows h0 (h_cache s) ∧ client_verified cfg h0 certs) ∧
    (CipherSuite.AuthenticationType cs ≠ CipherSuite.AuthenticationTypeAnonymous →
     cf_ClientAuth cfg = RequireAnyClientCert ∨ cf_ClientAuth cfg = RequireAndVerifyClientCert → certs ≠ []).

(** At some time the peer's Finished message was there and correct. *)
Definition peer_finished cfg s (isClient : bool) (verifyData : bytes → bytes → Hash → res dtls_error bytes) (rules : list HandshakeCachePullRule) : Prop :=
  ∃ h0, grows h0 (h_cache s) ∧ finished_verified cfg (MkHs (h_state s) h0 (h_world s) (h_keylog s)) isClient verifyData rules.

Definition resumed_rules cfg : list HandshakeCachePullRule := hello_rules cfg ++ [epoch1 cfg TypeFinished false false].

(** What holds in each flight. *)
Definition flight_inv cfg (q : handshakeState) (fl : flight) s : Prop :=
  match fl with
  | Flight1 | Flight3 => st_IsClient (h_state s) = true ∧ q ≠ handshakeFinished ∧ session_offered cfg (h_state s)
  | Flight5 => st_IsClient (h_state s) = true ∧
      match q with
      | handshakePreparing => st_Protection (h_state s) = None ∧ kx_done cfg s
      | handshakeFinished => server_authenticated cfg s ∧ peer_finished cfg s false Prf.VerifyDataServer (full_rules cfg)
      | _ => server_authenticated cfg s
      end
  | Flight5b => st_IsClient (h_state s) = true ∧ q ≠ handshakeWaiting ∧ client_resumed cfg (h_state s) ∧
      peer_finished cfg s false Prf.VerifyDataServer (hello_rules cfg)
  | Flight0 | Flight2 => st_IsClient (h_state s) = false ∧ q ≠ handshakeFinished
  | Flight4 => st_IsClient (h_state s) = false ∧ q ≠ handshakeFinished ∧ admitted cfg s
  | Flight6 => st_IsClient (h_state s) = false ∧ q ≠ handshakeWaiting ∧ admitted cfg s ∧ client_authenticated cfg s
  | Flight4b => st_IsClient (h_state s) = false ∧ session_resumed cfg s ∧
      (q = handshakeFinished → peer_finished cfg s true Prf.VerifyDataClient (resumed_rules cfg))
  end.

Definition inv cfg (isClient : bool) (qf : handshakeState * handshakeFSM12) : Prop :=
  match qf.1 with
  | handshakeErrored _ => True
  | q => st_IsClient (h_state (f_hs qf.2)) = isClient ∧ typed (f_hs qf.2) ∧ flight_inv cfg q (currentFlight qf.2) (f_hs qf.2)
  end.

(** Which side a flight belongs to. *)
Definition client_flight (fl : flight) : bool :=
  match fl with Flight1 | Flight3 | Flight5 | Flight5b => true | _ => false end.

Lemma flight_inv_role cfg q fl s : flight_inv cfg q fl s → st_IsClient (h_state s) = client_flight fl.
Proof. destruct fl; cbn; tauto. Qed.

Lemma inv_intro cfg b q f : st_IsClient (h_state (f_hs f)) = b → typed (f_hs f) → flight_inv cfg q (currentFlight f) (f_hs f) → inv cfg b (q, f).
Proof. unfold inv. by destruct q. Qed.

(** *** Stability: the connection and the reader do not break it *)

Lemma grows_trans h1 h2 h3 : grows h1 h2 → grows h2 h3 → grows h1 h3.
Proof. intros [n1 ->] [n2 ->]. exists (n1 ++ n2). by rewrite (assoc_L (++)). Qed.

(** Another state of the session with the same messages and more: only epochs
    and sequence numbers differ. *)
Definition evolves s s' : Prop :=
  (∃ seqs le re ss, h_state s' = (h_state s) <| st_LocalSequenceNumber := seqs |> <| st_LocalEpoch := le |> <| st_RemoteEpoch := re |>
     <| st_HandshakeSendSequence := ss |>) ∧ grows (h_cache s) (h_cache s').

Lemma quiet_evolves s s' : quiet (h_state s) (h_state s') → grows (h_cache s) (h_cache s') → evolves s s'.
Proof. intros (seqs & le & re & E) Hg. split; [|done]. exists seqs, le, re, (st_HandshakeSendSequence (h_state s)). rewrite E. by destruct (h_state s). Qed.

Lemma evolves_trans s1 s2 s3 : evolves s1 s2 → evolves s2 s3 → evolves s1 s3.
Proof.
  intros [(? & ? & ? & ? & E2) Hg2] [(seqs & le & re & ss & E3) Hg3]. split; [|by eapply grows_trans].
  exists seqs, le, re, ss. rewrite E3, E2. by destruct (h_state s1).
Qed.

Lemma admitted_stable cfg s s' : st_Cookie (h_state s') = st_Cookie (h_state s) → grows (h_cache s) (h_cache s') → admitted cfg s → admitted cfg s'.
Proof.
  intros Ek [new Eg] [Hs|(Hne & i & kx & hd & ch & Hi & Hr)]; [by left|]. right. split; [by rewrite Ek|].
  exists i, kx, hd, ch. rewrite Ek, Eg. split; [by apply elem_of_app; left|done].
Qed.

Lemma finished_stable cfg s s' b vd rules : st_CipherSuite (h_state s') = st_CipherSuite (h_state s) →
  st_MasterSecret (h_state s') = st_MasterSecret (h_state s) → grows (h_cache s) (h_cache s') →
  peer_finished cfg s b vd rules → peer_finished cfg s' b vd rules.
Proof.
  intros Ec Em Hg (h0 & Hg0 & Hf). exists h0. split; [by eapply grows_trans|]. unfold finished_verified in *. cbn [h_state h_cache] in *.
  by rewrite Ec, Em.
Qed.

Lemma client_stable cfg s s' : st_CipherSuite (h_state s') = st_CipherSuite (h_state s) →
  st_PeerCertificates (h_state s') = st_PeerCertificates (h_state s) → grows (h_cache s) (h_cache s') →
  client_authenticated cfg s → client_authenticated cfg s'.
Proof.
  intros Ec Ep Hg (cs & Hcs & Hv & Hp). exists cs. cbv zeta in *. rewrite Ec, Ep. split_and!; [done| |done].
  intros Hne. destruct (Hv Hne) as (h0 & Hg0 & ?). exists h0. split; [by eapply grows_trans|done].
Qed.

Lemma resumed_stable cfg s s' : st_SessionID (h_state s') = st_SessionID (h_state s) →
  st_MasterSecret (h_state s') = st_MasterSecret (h_state s) → grows (h_cache s) (h_cache s') → session_resumed cfg s → session_resumed cfg s'.
Proof.
  intros Es Em [new Eg] (Hst & Hne & (i & kx & hd & ch & Hi & Hr) & Hget). unfold session_resumed. rewrite Es, Em, Eg. split_and!; [done..| |done].
  exists i, kx, hd, ch. split; [by apply elem_of_app; left|done].
Qed.

(** More messages may come after the client has its keys. *)
Lemma server_stable cfg s s' : (∃ seqs le re ss, h_state s' = (h_state s) <| st_LocalSequenceNumber := seqs |> <| st_LocalEpoch := le |> <| st_RemoteEpoch := re |>
     <| st_HandshakeSendSequence := ss |>) → grows (h_cache s) (h_cache s') → server_authenticated cfg s → server_authenticated cfg s'.
Proof.
  intros (seqs & le & re & ss & Eq) Hg (cs & p & Hcs & Hp & Hi & Hv). exists cs, p. rewrite Eq. st_simpl. split_and!; [done..|].
  intros Ha. destruct (Hv Ha) as (m & m' & Hr & Hm & Hr' & (pms & Hpms & Hs) & Ho). exists m, m'.
  split_and!; [by eapply received_grows|done|by eapply received_grows| |].
  - exists pms. split; [done|]. rewrite Eq. st_simpl. destruct (st_ExtendedMasterSecret (h_state s)); [|done].
    destruct Hs as (h0 & sending & Hg0 & Hs). exists h0, sending. split; [by eapply grows_trans|done].
  - intros Ho'. apply Ho. destruct Hg as [new Eg]. rewrite Eg in Ho'. intros i j Hi' Hj'. apply Ho'; by apply elem_of_app; left.
Qed.

Lemma kx_done_stable cfg s s' : st_CipherSuite (h_state s') = st_CipherSuite (h_state s) →
  st_PreMasterSecret (h_state s') = st_PreMasterSecret (h_state s) → grows (h_cache s) (h_cache s') → kx_done cfg s → kx_done cfg s'.
Proof.
  intros Ec Ep Hg Hk cs. rewrite Ec, Ep. intros Hcs Ha. destruct (Hk cs Hcs Ha) as (Hn & m & Hr & Hm).
  split; [done|]. exists m. split; [by eapply received_grows|done].
Qed.

Lemma flight_inv_stable cfg q fl s s' : evolves s s' → flight_inv cfg q fl s → flight_inv cfg q fl s'.
Proof.
  intros [Hev Hg]. pose proof (server_stable cfg s s' Hev Hg) as Hsa. destruct Hev as (seqs & le & re & ss & Eq).
  assert (st_IsClient (h_state s') = st_IsClient (h_state s) ∧ st_Cookie (h_state s') = st_Cookie (h_state s) ∧
    st_CipherSuite (h_state s') = st_CipherSuite (h_state s) ∧ st_Protection (h_state s') = st_Protection (h_state s) ∧
    st_PeerCertificates (h_state s') = st_PeerCertificates (h_state s) ∧ st_MasterSecret (h_state s') = st_MasterSecret (h_state s) ∧
    st_SessionID (h_state s') = st_SessionID (h_state s) ∧ st_PreMasterSecret (h_state s') = st_PreMasterSecret (h_state s))
    as (Ei & Ek & Ec & Ep & Epc & Em & Eid & Epms) by (rewrite Eq; by st_simpl).
  destruct (session_same cfg (h_state s) (h_state s') Eid Em) as [Hof Hre].
  destruct fl; cbn [flight_inv]; rewrite Ei; try (intuition; fail).
  - intros (? & ? & ?). eauto using admitted_stable.
  - intros (? & ? & Hf). split_and!; [done|by eapply resumed_stable|]. intros Hq. eauto using finished_stable.
  - intros (? & Hq). split; [done|]. destruct q; try (by auto).
    + rewrite Ep. destruct Hq. split; [done|]. by eapply kx_done_stable.
    + destruct Hq. split; [by auto|]. eauto using finished_stable.
  - intros (? & ? & ? & ?). split_and!; [by auto..|]. eauto using finished_stable.
  - intros (? & ? & ? & ?). split_and!; eauto using admitted_stable, client_stable.
Qed.

(** *** The flights keep the invariant *)

Lemma generate_inv c cfg fl s : conn_ok c → flight_inv cfg handshakePreparing fl s →
  wp (GetGenerator fl c cfg).1 (λ _ s', flight_inv cfg handshakeSending fl s' ∧ h_cache s' = h_cache s) (λ r _, r.2 ≠ None) s.
Proof.
  intros Hc Hi. destruct fl; cbn [GetGenerator fst] in *; cbn [flight_inv] in Hi |- *.
  - eapply wp_mono; [apply flight0Generate_frame| |done]. intros r s' [Ei Ec]. rewrite Ei, Ec. by destruct Hi.
  - destruct Hi as (Hi & _ & Ho). eapply wp_mono; [apply wp_conj; [apply flight1Generate_frame|by apply flight1Generate_session]| |by intros r s' []].
    intros r s' [[Ei Ec] Ho']. by rewrite Ei, Ec.
  - unfold flight2Generate. wp_run. by destruct Hi.
  - unfold flight3Generate. wp_run. by destruct Hi as (? & _ & ?).
  - eapply wp_mono; [apply flight4Generate_frame| |done]. intros r s' (Ei & Ek & Ec). destruct Hi as (? & _ & Ha). rewrite Ei.
    split; [|done]. split_and!; [done..|]. eapply admitted_stable; [done| |done]. rewrite Ec. apply grows_refl.
  - eapply wp_mono; [apply flight4bGenerate_frame| |done]. intros r s' ((Ei & Ek & Ec) & Es & Em). rewrite Ei.
    destruct Hi as (? & Hs & _). split; [|done]. split_and!; [done| |done]. eapply resumed_stable, Hs; [done..|]. rewrite Ec. apply grows_refl.
  - destruct Hi as (Hi & Hp & Hkx). eapply wp_mono; [by apply flight5Generate_spec| |done]. intros r s' [Ha (Ei & Ek & Ec)]. by rewrite Ei.
  - destruct Hi as (Hi & _ & Hre & Hf). eapply wp_mono; [by apply flight5bGenerate_spec| |done]. intros r s' (d & Es & Ec).
    split; [|done]. split_and!; [by rewrite Es|done|by rewrite Es|]. eapply finished_stable, Hf; [by rewrite Es..|]. rewrite Ec. apply grows_refl.
  - destruct Hi as (Hi & _ & Ha & Hcl). eapply wp_mono; [by apply flight6Generate_spec| |done]. intros r s' (d & Es & Ec).
    split; [|done]. split_and!; [by rewrite Es|done|eapply admitted_stable, Ha|eapply client_stable, Hcl]; try (by rewrite Es); rewrite Ec; apply grows_refl.
Qed.

(** What a parser leads to. *)
Definition parsed_inv cfg fl s (r : presult) s' : Prop :=
  st_IsClient (h_state s') = st_IsClient (h_state s) ∧ typed s' ∧ (r.1.1 = None → flight_inv cfg handshakeWaiting fl s') ∧
  ∀ g, r.1.1 = Some g → if IsLastRecvFlight g && bool_decide (fl = g) then flight_inv cfg handshakeFinished fl s' else flight_inv cfg handshakePreparing g s'.

Lemma flight0_parsed cfg fl s r s' : fl = Flight0 ∨ fl = Flight2 → typed s → st_IsClient (h_state s) = false →
  flight0_result cfg s r s' → parsed_inv cfg fl s r s'.
Proof.
  intros Hfl Ht Hi [(Ec & Ek & Ei) Hr]. split_and!; [done|..].
  - by eapply typed_same.
  - intros _. destruct Hfl as [-> | ->]; cbn [flight_inv]; (split; [congruence|done]).
  - intros g Hg. destruct (Hr g Hg) as (_ & _ & Hcase).
    destruct Hcase as [[-> Hs]|[[-> Hs]|[-> Hs]]]; destruct Hfl as [-> | ->]; cbn; (split; [congruence|]); try done; by split; [|left].
Qed.

Lemma client_parsed cfg fl s r s' : fl = Flight1 ∨ fl = Flight3 → st_IsClient (h_state s) = true →
  client_result cfg s r s' → parsed_inv cfg fl s r s'.
Proof.
  intros Hfl Hi (Ei & Hg & Ht & Ho & Hr). split_and!; [done..| |].
  - intros _. destruct Hfl as [-> | ->]; cbn [flight_inv]; (split; [congruence|done]).
  - intros g Eg. destruct (Hr g Eg) as [-> |[(-> & Hp & Hkx)|(-> & Hf & Hre)]]; destruct Hfl as [-> | ->]; cbn; (split; [congruence|]); try done;
      (split_and!; [done..|]); exists (h_cache s'); (split; [apply grows_refl|]); by destruct s'.
Qed.

Lemma echoed_admitted cfg s : cookie_echoed cfg s → typed s → admitted cfg s.
Proof.
  intros (st & seq & msgs & ch & Hp & Hl & Ec & Hne) Ht. right. split; [done|].
  destruct (FullPullMap_lookup _ _ _ _ _ _ _ _ Hp Hl) as (r & i & s0 & Hr & _ & Hi & Hm & hd & Hu & _).
  apply list_elem_of_singleton in Hr as ->. unfold cacheItemMatchesRule in Hm. cbn in Hm.
  rewrite !andb_true_iff, !Z.eqb_eq, bool_decide_eq_true in Hm. destruct Hm as [[? ?] _]. by repeat eexists.
Qed.

Lemma parse_inv c cfg fl s : conn_ok c → typed s → flight_inv cfg handshakeWaiting fl s →
  wp (Parse fl c cfg) (parsed_inv cfg fl s) (parsed_inv cfg fl s) s.
Proof.
  intros Hc Ht Hi. destruct fl; cbn [Parse flight_inv] in *.
  - destruct Hi. eapply wp_mono; [apply flight0Parse_spec|..]; intros r s'; apply flight0_parsed; auto.
  - destruct Hi as (Hi & _ & Ho). eapply wp_mono; [by apply flight1Parse_spec|..]; intros r s'; apply client_parsed; auto.
  - destruct Hi as [Hi _]. eapply wp_mono; [apply flight2Parse_spec| |intros r s'; apply flight0_parsed; auto].
    intros r s' [Hr|((Ec & Ek & Ei) & _ & _ & Hf)]; [revert Hr; apply flight0_parsed; auto|]. split_and!; [done|..].
    + by eapply typed_same.
    + intros _. split; [congruence|done].
    + intros g Eg. destruct (Hf g Eg) as [-> He]. cbn. split_and!; [congruence|done|].
      eapply admitted_stable; [exact Ek|rewrite Ec; apply grows_refl|by apply echoed_admitted].
  - destruct Hi as (Hi & _ & Ho). eapply wp_mono; [by apply flight3Parse_spec|..]; intros r s'; apply client_parsed; auto.
  - destruct Hi as (Hi & _ & Ha).
    assert (∀ (r : presult) s', weak_frame s s' → flight4_result cfg s r s' → parsed_inv cfg Flight4 s r s') as Hp.
    { intros r s' (Ei & Ek & Hg & Ht') Hr. split_and!; [done|by apply Ht'|..].
      - intros _. split_and!; [congruence|done|]. eapply admitted_stable; done.
      - intros g Eg. destruct (Hr g Eg) as (-> & cs & Hcs & Hv & Hpol). cbn. split_and!; [congruence|done|eapply admitted_stable; done|].
        exists cs. split_and!; [done|]. split; [|done]. intros Hne. exists (h_cache s). auto. }
    eapply wp_mono; [apply wp_conj; [by apply flight4Parse_spec|by apply flight4Parse_frame]|..].
    + intros r s' [Hr Hw]. auto.
    + intros r s' [Hr [Hw _]]. auto.
  - destruct Hi as (Hi & Hs & _).
    assert (∀ r : presult, r.1.1 = None → parsed_inv cfg Flight4b s r s) as Hn.
    { intros r Er. split_and!; [done..|]. intros g. by rewrite Er. }
    eapply wp_mono; [apply flight4bParse_spec| |by intros r s' [-> Er]; auto].
    intros r s' [-> Hf]. destruct r as [[[g|] a] e]; [|by apply Hn]. destruct (Hf g eq_refl) as [-> Hv].
    split_and!; [done..|]. intros g [= <-]. cbn. split_and!; [done..|]. intros _. exists (h_cache s). split; [apply grows_refl|]. by destruct s.
  - destruct Hi as [Hi Ha].
    assert (∀ s', h_state s' = h_state s → h_cache s' = h_cache s → st_IsClient (h_state s') = st_IsClient (h_state s) ∧ typed s' ∧
      flight_inv cfg handshakeWaiting Flight5 s') as Hs.
    { intros s' Es Ec. split_and!; [by rewrite Es|by apply (typed_same s); rewrite ?Es|]. split; [by rewrite Es|].
      unfold server_authenticated, secret_from in *. by rewrite Es, Ec. }
    eapply wp_mono; [apply flight5Parse_spec|..].
    + intros r s' (Es & Ec & Hf). destruct (Hs s' Es Ec) as (? & ? & Hi'). split_and!; [done..|].
      intros g Eg. destruct (Hf g Eg) as [-> Hv]. destruct Hi' as [? Ha']. split_and!; [done..|]. exists (h_cache s). rewrite Ec.
      split; [apply grows_refl|]. unfold finished_verified in *. cbn [h_state h_cache]. by rewrite Es.
    + intros r s' (Es & Ec & Er). destruct (Hs s' Es Ec) as (? & ? & ?). split_and!; [done..|]. intros g. by rewrite Er.
  - by destruct Hi as (_ & ? & _).
  - by destruct Hi as (_ & ? & _).
Qed.

(** *** The steps keep the invariant *)

Lemma notify_evolves c alert err s err' s' : flightConn_ok c → notify_alert c alert err s = Some (err', s') →
  evolves s s' ∧ h_cache s' = h_cache s ∧ (err' = None ↔ err = None).
Proof.
  intros Hc. unfold notify_alert. destruct alert as [a|].
  - destruct (notify c a s) as [[[]|e|] s1] eqn:En; [..|done]; intros [= <- <-]; destruct (fo_notify _ Hc _ _ _ _ En) as [Hq Ec];
      (split_and!; [|done|by destruct err]); (apply quiet_evolves; [done|]); rewrite Ec; apply grows_refl.
  - intros [= <- <-]. split_and!; [|done..]. apply quiet_evolves; [|apply grows_refl]. unfold quiet.
    exists (st_LocalSequenceNumber (h_state s)), (st_LocalEpoch (h_state s)), (st_RemoteEpoch (h_state s)). by destruct (h_state s).
Qed.

Lemma evolves_numbers s ss le : evolves s (with_state (λ st, st <| st_LocalEpoch := le |>) (with_state (λ st, st <| st_HandshakeSendSequence := ss |>) s)) ∧
  evolves s (with_state (λ st, st <| st_HandshakeSendSequence := ss |>) s).
Proof.
  split; (split; [|apply grows_refl]).
  - exists (st_LocalSequenceNumber (h_state s)), le, (st_RemoteEpoch (h_state s)), ss. cbn. by destruct (h_state s).
  - exists (st_LocalSequenceNumber (h_state s)), (st_LocalEpoch (h_state s)), (st_RemoteEpoch (h_state s)), ss. cbn. by destruct (h_state s).
Qed.

Lemma evolves_role s s' : evolves s s' → st_IsClient (h_state s') = st_IsClient (h_state s).
Proof. by intros [(? & ? & ? & ? & ->) _]. Qed.

Lemma prepared_inv c cfg f rt res s : flightConn_ok c → typed (f_hs f) →
  st_IsClient (h_state (f_hs f)) = client_flight (currentFlight f) →
  (res.2 = None → flight_inv cfg handshakeSending (currentFlight f) s ∧ h_cache s = h_cache (f_hs f)) →
  ∀ y, prepared c cfg f rt res s = Some y → inv cfg (client_flight (currentFlight f)) y.
Proof.
  intros Hc Ht Hro. destruct res as [[pkts alert] err]. cbn [snd]. intros Hs. unfold prepared. intros y.
  destruct (notify_alert c alert err s) as [[err' s1]|] eqn:En; [|done]. cbn [mbind option_bind].
  destruct (notify_evolves _ _ _ _ _ _ Hc En) as (Hev & Ec1 & Herr). destruct err' as [e|]; [by intros [= <-]|].
  destruct (Hs (proj1 Herr eq_refl)) as [Hi' Ec]. cbv zeta. destruct (number_packets _ _ _ _) as [[ps ne] ss].
  pose proof (evolves_numbers s1 ss ne) as [He1 He2]. set (s2 := if _ =? _ then _ else _). intros [= <-].
  assert (evolves s s2 ∧ h_cache s2 = h_cache (f_hs f)) as [Hev2 Ec2].
  { unfold s2. destruct (_ =? _); (split; [by eapply evolves_trans|cbn; congruence]). }
  assert (flight_inv cfg handshakeSending (currentFlight f) s2) as Hi2 by (by eapply flight_inv_stable).
  apply inv_intro; cbn [f_hs currentFlight]; [by eapply flight_inv_role| |done].
  apply (typed_same (f_hs f)); [|done..]. by rewrite (flight_inv_role _ _ _ _ Hi2).
Qed.

Lemma prepare_inv c cfg b f r : flightConn_ok c → inv cfg b (handshakePreparing, f) → prepare c cfg f = Some r → inv cfg b r.
Proof.
  intros Hc (Hb & Ht & Hi). unfold prepare. cbn [fst snd] in *. pose proof (generate_inv (adaptFlightConn c) cfg _ _ (fo_conn _ Hc) Hi) as Hg.
  rewrite (flight_inv_role _ _ _ _ Hi) in Hb. subst b. pose proof (flight_inv_role _ _ _ _ Hi) as Hro.
  destruct (GetGenerator (currentFlight f) (adaptFlightConn c) cfg) as [gen rt]. cbn [fst] in Hg. unfold wp in Hg.
  destruct (gen (f_hs f)) as [[res|res|] s]; [..|done]; intros Hr; (eapply prepared_inv; [..|exact Hr]); auto. done.
Qed.

Lemma send_inv c cfg b f r : flightConn_ok c → inv cfg b (handshakeSending, f) → send c f = Some r → inv cfg b r.
Proof.
  intros Hc (Hb & Ht & Hi). unfold send. cbn [fst snd] in *. destruct (writePackets c (flights f) (f_hs f)) as [[res ps] s] eqn:Ew.
  destruct (fo_write _ Hc _ _ _ _ _ Ew) as (Hq & Hg & Hty). destruct res as [[]|e|]; intros [= <-]; [|exact I].
  pose proof (quiet_evolves _ _ Hq Hg) as Hev. pose proof (flight_inv_stable _ _ _ _ _ Hev Hi) as Hi'.
  apply inv_intro; cbn [f_hs currentFlight]; [rewrite <- Hb; by apply evolves_role|by apply Hty|].
  destruct (currentFlight f) eqn:Ef; cbn; rewrite ?Ef; cbn [flight_inv] in *; intuition done.
Qed.

Lemma received_inv c cfg b f res s : flightConn_ok c → st_IsClient (h_state (f_hs f)) = b →
  parsed_inv cfg (currentFlight f) (f_hs f) res s → ∀ y, received c f res s = Some y → inv cfg b y.
Proof.
  intros Hc Hb. destruct res as [[next alert] err]. intros (Hr & Hty & Hnone & Hsome) y. unfold received.
  destruct (notify_alert c alert err s) as [[err' s1]|] eqn:En; [|done]. cbn [mbind option_bind].
  destruct (notify_evolves _ _ _ _ _ _ Hc En) as (Hev & Ec1 & _). pose proof (evolves_role _ _ Hev). apply (typed_same _ s1) in Hty; [|done..].
  cbv zeta. destruct err' as [e|]; [by intros [= <-]|].
  destruct next as [g|].
  - specialize (Hsome g eq_refl). destruct (_ && _); intros [= <-]; (apply inv_intro; cbn [f_hs currentFlight]; [congruence|done|by eapply flight_inv_stable]).
  - intros [= <-]. apply inv_intro; cbn [f_hs currentFlight]; [congruence|done|]. eapply flight_inv_stable; [done|]. by apply Hnone.
Qed.

Lemma wait_inv c cfg b ev f r : flightConn_ok c → inv cfg b (handshakeWaiting, f) → wait c cfg ev f = Some r → inv cfg b r.
Proof.
  intros Hc (Hb & Ht & Hi). cbn [fst snd] in *. destruct ev as [rt| |e]; cbn [wait].
  - set (f' := if rt then f else _). assert (currentFlight f' = currentFlight f ∧ f_hs f' = f_hs f) as [Ef Eh] by (unfold f'; by destruct rt).
    rewrite <- Ef, <- Eh in *. pose proof (parse_inv _ cfg _ _ (fo_conn _ Hc) Ht Hi) as Hp. unfold wp in Hp.
    destruct (Parse _ _ _ _) as [[res|res|] s]; [..|done]; intros Hr; by eapply received_inv.
  - destruct (retransmit f) eqn:Er; cbn [negb]; intros [= <-]; (apply inv_intro; [exact Hb|exact Ht|]); cbn [f_hs currentFlight with_interval].
    + destruct (currentFlight f); cbn [flight_inv] in *; intuition done.
    + exact Hi.
  - intros [= <-]. exact I.
Qed.

Lemma finish_inv cfg b ev f r : inv cfg b (handshakeFinished, f) → finish ev f = Some r → inv cfg b r.
Proof.
  intros (Hb & Ht & Hi). cbn [fst snd] in *. destruct ev as [rt| |e]; cbn [finish]; [|done|by intros [= <-]].
  destruct (st_IsClient (h_state (f_hs f))) eqn:Ec; intros [= <-]; (apply inv_intro; [congruence|exact Ht|]); [done|].
  destruct (currentFlight f); cbn [flight_inv] in *; intuition congruence.
Qed.

Lemma fsm_step_inv c cfg b x y : flightConn_ok c → step c cfg x y → inv cfg b x → inv cfg b y.
Proof.
  intros Hc. destruct 1 as [f r Hr|f r Hr|ev f r Hr|ev f r Hr|q f new w st Hty Hq]; intros Hi.
  - by eapply prepare_inv.
  - by eapply send_inv.
  - by eapply wait_inv.
  - by eapply finish_inv.
  - set (s' := MkHs _ _ _ _). assert (evolves (f_hs f) s') as Hev by (apply quiet_evolves; [done|by eexists]).
    destruct q; try exact I; destruct Hi as (Hb & Ht & Hi);
      (apply inv_intro; cbn [f_hs currentFlight]; [rewrite <- Hb; by apply evolves_role| |by eapply flight_inv_stable];
      unfold typed; rewrite (evolves_role _ _ Hev); by apply Forall_app).
Qed.

(** A new handshake of a client or a server. *)
Definition start cfg (isClient : bool) (w : W) : handshakeState * handshakeFSM12 :=
  (handshakePreparing, newHandshakeFSM12 (MkHs (new_state isClient) [] w []) cfg (if isClient then Flight1 else Flight0)).

Lemma fsm_reachable_inv c cfg b w y : flightConn_ok c → rtc (step c cfg) (start cfg b w) y → inv cfg b y.
Proof.
  intros Hc Hr. assert (inv cfg b (start cfg b w)) as Hs by (apply inv_intro; [done|constructor|destruct b; [split_and!; [done..|by split; [left|]]|done]]).
  revert Hs. induction Hr as [|x y z Hxy _ IH]; [done|]. intros Hi. apply IH. by eapply fsm_step_inv.
Qed.

(** ** Properties *)

(** What a client has when its machine is in state Finished, however the reader,
    the timer and the machine interleave: a full handshake with an authenticated
    server, or a session that it resumes. *)
Lemma client_finishes_authenticated c cfg w f : flightConn_ok c →
  rtc (step c cfg) (start cfg true w) (handshakeFinished, f) →
  let s := f_hs f in
  (currentFlight f = Flight5 ∧ server_authenticated cfg s ∧ peer_finished cfg s false Prf.VerifyDataServer (full_rules cfg)) ∨
  (currentFlight f = Flight5b ∧ client_resumed cfg (h_state s) ∧ peer_finished cfg s false Prf.VerifyDataServer (hello_rules cfg)).
Proof.
  intros Hc Hr. cbv zeta. destruct (fsm_reachable_inv _ _ _ _ _ Hc Hr) as (Hb & _ & Hi). cbn [fst snd] in *.
  pose proof (flight_inv_role _ _ _ _ Hi) as Hrole. rewrite Hb in Hrole.
  destruct (currentFlight f); try done; cbn [flight_inv] in Hi; tauto.
Qed.

(** What a server has in every reachable state: the cookie in flights 4 and 6, the
    policy on client certificates in flight 6, and a stored session in flight 4b,
    which ends only after a correct Finished message of the client. *)
Lemma server_finishes_authenticated c cfg w q f : flightConn_ok c →
  rtc (step c cfg) (start cfg false w) (q, f) → (∀ e, q ≠ handshakeErrored e) →
  let s := f_hs f in
  (currentFlight f = Flight4 ∨ currentFlight f = Flight6 → admitted cfg s) ∧
  (currentFlight f = Flight6 → client_authenticated cfg s) ∧
  (currentFlight f = Flight4b → session_resumed cfg s) ∧
  (q = handshakeFinished → currentFlight f = Flight6 ∨
     (currentFlight f = Flight4b ∧ peer_finished cfg s true Prf.VerifyDataClient (resumed_rules cfg))).
Proof.
  intros Hc Hr Hq. cbv zeta. pose proof (fsm_reachable_inv _ _ _ _ _ Hc Hr) as Hi. unfold inv in Hi. cbn [fst snd] in Hi.
  assert (st_IsClient (h_state (f_hs f)) = false ∧ flight_inv cfg q (currentFlight f) (f_hs f)) as [Hb Hf].
  { destruct q as [e| | | |]; [by destruct (Hq e)|..]; tauto. }
  pose proof (flight_inv_role _ _ _ _ Hf) as Hrole. rewrite Hb in Hrole.
  destruct (currentFlight f); try done; cbn [flight_inv] in Hf; intuition (done || congruence).
Qed.

(** *** The timer *)

Lemma backoff_bounds cfg i : 0 < i → 0 < backoff cfg i ≤ Second * 60.
Proof. intros Hi. unfold backoff, Second. destruct (cf_DisableRetransmitBackoff cfg), (Z.ltb_spec (1000000000 * 60) i), (Z.ltb_spec (1000000000 * 60) (i * 2)); lia. Qed.

Lemma step_interval c cfg x y : step c cfg x y → 0 < cf_InitialRetransmitInterval cfg →
  (let i := retransmitInterval x.2 in 0 < i ≤ Z.max (cf_InitialRetransmitInterval cfg) (Second * 60)) →
  let i := retransmitInterval y.2 in 0 < i ≤ Z.max (cf_InitialRetransmitInterval cfg) (Second * 60).
Proof.
  intros Hs Hpos Hi. cbv zeta in *. destruct Hs as [f r Hr|f r Hr|ev f r Hr|ev f r Hr|q f new w st Hty Hq]; cbn [snd] in *.
  - revert Hr. unfold prepare. destruct (GetGenerator _ _ _) as [gen rt].
    assert (∀ res s y, prepared c cfg f rt res s = Some y → retransmitInterval y.2 = retransmitInterval f) as Hp.
    { intros [[pkts alert] err] s y. unfold prepared. destruct (notify_alert _ _ _ _) as [[[e|] s1]|]; cbn [mbind option_bind]; [by intros [= <-]| |done].
      cbv zeta. destruct (number_packets _ _ _ _) as [[? ?] ?]. by intros [= <-]. }
    destruct (gen (f_hs f)) as [[res|res|] s]; [..|done]; intros Hr; by rewrite (Hp _ _ _ Hr).
  - revert Hr. unfold send. destruct (writePackets _ _ _) as [[[[]|e|] ps] s]; intros [= <-]; done.
  - destruct ev as [rt| |e]; cbn [wait] in Hr.
    + revert Hr. set (f' := if rt then f else _).
      assert (0 < retransmitInterval f' ≤ Z.max (cf_InitialRetransmitInterval cfg) (Second * 60)) as Hi' by (unfold f'; destruct rt; cbn; lia).
      assert (∀ res s y, received c f' res s = Some y → retransmitInterval y.2 = retransmitInterval f') as Hp.
      { intros [[next alert] err] s y. unfold received. destruct (notify_alert _ _ _ _) as [[[e|] s1]|]; cbn [mbind option_bind]; [by intros [= <-]| |done].
        cbv zeta. destruct next; [|by intros [= <-]]. destruct (_ && _); by intros [= <-]. }
      destruct (Parse _ _ _ _) as [[res|res|] s]; [..|done]; intros Hr; by rewrite (Hp _ _ _ Hr).
    + destruct (negb (retransmit f)); injection Hr as <-; [done|]. cbn. pose proof (backoff_bounds cfg (retransmitInterval f)). lia.
    + injection Hr as <-. cbn. lia.
  - destruct ev as [rt| |e]; cbn [finish] in Hr; [|done|]; by injection Hr as <-.
  - done.
Qed.

(** the retransmission timer: in every reachable state its interval is
    positive and at most a minute or the configured initial value; when nothing
    new arrives it doubles with every expiry up to a minute, and it is not changed
    when the backoff is disabled and the initial value is at most a minute. *)
Theorem retransmit_interval_bounds c cfg b w q f : 0 < cf_InitialRetransmitInterval cfg → rtc (step c cfg) (start cfg b w) (q, f) →
  0 < retransmitInterval f ≤ Z.max (cf_InitialRetransmitInterval cfg) (Second * 60) ∧
  ∀ k i, 0 ≤ i → Nat.iter (S k) (backoff cfg) i = Z.min (Second * 60) (if cf_DisableRetransmitBackoff cfg then i else i * 2 ^ Z.of_nat (S k)).
Proof.
  intros Hpos Hr. split.
  - assert (let i := retransmitInterval (start cfg b w).2 in 0 < i ≤ Z.max (cf_InitialRetransmitInterval cfg) (Second * 60)) as Hs by (cbn; lia).
    change f with ((q, f).2). revert Hs. induction Hr as [|x y z Hxy _ IH]; [done|]. intros Hs. apply IH. by eapply step_interval.
  - intros k i Hi. induction k as [|k IH].
    + cbn [Nat.iter nat_rect]. unfold backoff. destruct (cf_DisableRetransmitBackoff cfg).
      * destruct (Z.ltb_spec (Second * 60) i); lia.
      * change (2 ^ Z.of_nat 1) with 2. destruct (Z.ltb_spec (Second * 60) (i * 2)); lia.
    + rewrite Nat.iter_succ, IH. unfold backoff, Second. destruct (cf_DisableRetransmitBackoff cfg).
      * destruct (Z.ltb_spec (1000000000 * 60) (Z.min (1000000000 * 60) i)); lia.
      * rewrite (Nat2Z.inj_succ (S k)), Z.pow_succ_r by lia. set (p := 2 ^ Z.of_nat (S k)). assert (0 ≤ i * p) by (unfold p; lia).
        destruct (Z.ltb_spec (1000000000 * 60) (Z.min (1000000000 * 60) (i * p) * 2)); nia.
Qed.

(** *** The last flight *)

Lemma finished_client_stays c cfg f y : st_IsClient (h_state (f_hs f)) = true → step c cfg (handshakeFinished, f) y →
  (∃ e, y.1 = handshakeErrored e) ∨ (y.1 = handshakeFinished ∧ currentFlight y.2 = currentFlight f ∧ st_IsClient (h_state (f_hs y.2)) = true).
Proof.
  intros Hc Hs. inversion Hs as [| | |ev ? r Hr|q f0 new w st Hty (? & ? & ? & ->)]; subst.
  - destruct ev as [rt| |e]; cbn [finish] in Hr; [|done|injection Hr as <-; left; by eexists]. rewrite Hc in Hr. injection Hr as <-. by right.
  - right. cbn. by st_simpl.
Qed.

(** the client never sends the last flight of a resumed handshake again.  In
    a resumed handshake the client sends the last flight (5b).  Once it has sent
    it, the client's machine is in state Finished and no event makes it send
    again, also when the server repeats its own flight because flight 5b was
    lost; the server's machine cannot finish before it has received a Finished
    message of the client. *)
Theorem resumed_client_sends_once c cfg w f y : flightConn_ok c →
  rtc (step c cfg) (start cfg true w) (handshakeFinished, f) → currentFlight f = Flight5b → rtc (step c cfg) (handshakeFinished, f) y →
  (y.1 = handshakeFinished ∨ ∃ e, y.1 = handshakeErrored e) ∧
  (∀ c' cfg' w' f', flightConn_ok c' → rtc (step c' cfg') (start cfg' false w') (handshakeFinished, f') → currentFlight f' = Flight4b →
     ∃ i, i ∈ h_cache (f_hs f') ∧ it_IsClient i = true ∧ it_Typ i = TypeFinished).
Proof.
  intros Hc Hr Hf Hy. split.
  - destruct (fsm_reachable_inv _ _ _ _ _ Hc Hr) as (Hb & _ & _). cbn [fst snd] in Hb. clear Hr Hf.
    assert (∀ x y, rtc (step c cfg) x y → (∃ e, x.1 = handshakeErrored e) ∨ (x.1 = handshakeFinished ∧ st_IsClient (h_state (f_hs x.2)) = true) →
      y.1 = handshakeFinished ∨ ∃ e, y.1 = handshakeErrored e) as Hgen.
    { clear y Hy. induction 1 as [x|x z y Hxz _ IH]; [intros [?|[? _]]; auto|]. intros Hx. apply IH. destruct Hx as [[e He]|[Hq Hcl]].
      - left. destruct x as [q fx]. cbn in He. subst q. inversion Hxz; subst. by eexists.
      - destruct x as [q fx]. cbn in Hq, Hcl. subst q. destruct (finished_client_stays _ _ _ _ Hcl Hxz) as [?|(? & _ & ?)]; auto. }
    apply (Hgen _ _ Hy). right. done.
  - intros c' cfg' w' f' Hc' Hr' Hf'. destruct (fsm_reachable_inv _ _ _ _ _ Hc' Hr') as (_ & _ & Hi). cbn [fst snd] in Hi. rewrite Hf' in Hi.
    destruct Hi as (_ & _ & Hp). destruct (Hp eq_refl) as (h0 & [new Eg] & cs & st & seq & msgs & d & _ & Hpull & Hl & _). cbn [h_cache] in *.
    destruct (FullPullMap_lookup _ _ _ _ _ _ _ _ Hpull Hl) as (r & i & s0 & Hin & Ht & Hi & Hm & _).
    apply list_elem_of_singleton in Hin as ->. unfold cacheItemMatchesRule in Hm. cbn in Hm.
    rewrite !andb_true_iff, !Z.eqb_eq, bool_decide_eq_true in Hm. exists i. rewrite Eg. split; [by apply elem_of_app; left|tauto].
Qed.

End handshaker.
End Handshaker.
