(* ===== verification/Handshaker13.v ===== *)
(** * The state machine of a DTLS 1.3 handshake (src/dtls/handshaker_13.go)

    [handshakeFSM13]: preparing a flight numbers its messages, adds them to the
    transcript and derives the handshake's traffic secrets before the first
    protected message.  Sending, waiting and finishing are not implemented in the
    code.  The transcript is part of the world ([TranscriptStore]), so that the
    callbacks of the flights' parsers can work on it ([context13]). *)
From stdpp Require Import base tactics numbers list strings gmap.
From Stdlib Require Import ZArith Lia.
From S2P Require Import Prelude Sha2 Wire SignatureHash HandshakeCrypto Prf Record CipherSuite Extensions Fragment Handshake HandshakeState FlightCache Flight12 Flight12Auth Handshaker Flight13 Transcript13.
Import Protocol SignatureHash HandshakeCrypto Extension Handshake HandshakeHeader State Config Flight Selection AlertDescription Transcript13.
Import Flight12 (hs, MkHs, h_state, h_cache, h_world, h_keylog, M, out, Val, Ret, Crash, Packet, pk_Content, pk_ShouldEncrypt, gresult, fatal).
Import Handshaker (handshakeState, handshakeErrored, handshakePreparing, handshakeSending, handshakeWaiting, handshakeFinished, flightConn, notify_alert,
  number_packets, with_state).
Open Scope Z_scope.

(** The transcript in the world; what the code does with random numbers and the
    clock does not touch it. *)
Class TranscriptStore (W : Type) := {
  transcript : W → handshakeTranscript13;
  set_transcript : handshakeTranscript13 → W → W
}.

Class TranscriptStoreLaws (W : Type) `{World W, TranscriptStore W} := {
  transcript_set t w : transcript (set_transcript t w) = t;
  transcript_Read n w : transcript (rand_Read n w).2 = transcript w;
  transcript_Reader w : transcript (rand_Reader w).2 = transcript w;
  transcript_Now w : transcript (time_Now w).2 = transcript w
}.

Module Handshaker13.
Import Flight13.
Section handshaker.
Context `{Cryptobyte} `{Ciphers} `{KeyExchange.KeyAgreement} `{PKI} {W : Type} `{World W} `{TranscriptStore W}.

(** An operation on the transcript of the world. *)
Definition on_transcript {A} (o : op A) : action (W := W) A := λ w,
  let '(r, t) := o (transcript w) in (r, set_transcript t w).

(** The functions with the types of the callbacks. *)
Definition context13 (cfg : HandshakeConfig W) : handshakeContext13 (W := W) :=
  MkContext cfg
    (Some (λ cs items, on_transcript (appendInboundHandshakeCacheItems13 cs items)))
    (Some (λ s w, let '(r, s, t) := deriveAndStoreHandshakeTrafficSecrets13 s (transcript w) in (r, s, set_transcript t w))).

Record handshakeFSM13 := MkFSM13 {
  f13_currentFlight : Flight13.Flight;
  f13_flights : list Packet;
  f13_retransmit : bool;
  f13_retransmitInterval : Z;
  f13_hs : hs (W := W)
}.

Definition with_world (f : W → W) (s : hs (W := W)) : hs (W := W) := MkHs (h_state s) (h_cache s) (f (h_world s)) (h_keylog s).

Definition run_op {A} (o : op A) (s : hs (W := W)) : res dtls_error A * hs (W := W) :=
  let '(r, w) := on_transcript o (h_world s) in (r, MkHs (h_state s) (h_cache s) w (h_keylog s)).

Definition seedTranscriptFromInitialFlights (f : handshakeFSM13) : res dtls_error unit * handshakeFSM13 :=
  if negb (st_IsClient (h_state (f13_hs f))) then (Ok tt, f) else
  let '(r, s) := run_op (appendClientHelloInitialFlights13 (f13_flights f)) (f13_hs f) in
  let f := MkFSM13 (f13_currentFlight f) (f13_flights f) (f13_retransmit f) (f13_retransmitInterval f) s in
  match r with
  | Ok appended => (if f13_retransmit f && negb appended then Err ErrHandshakeTranscriptMissingClientHello else Ok tt, f)
  | Err e => (Err e, f)
  | Panic => (Panic, f)
  end.

(** [initialFlights] and [initialTranscript] may be nil. *)
Definition newHandshakeFSM13 (s : hs (W := W)) (cfg : HandshakeConfig W) (initialFlight : Flight13.Flight) (initialFlights : option (list Packet))
    (initialTranscript : option handshakeTranscript13) : res dtls_error unit * handshakeFSM13 :=
  seedTranscriptFromInitialFlights
    (MkFSM13 initialFlight (default [] initialFlights) (bool_decide (is_Some initialFlights)) (cf_InitialRetransmitInterval cfg)
       (with_world (set_transcript (default newHandshakeTranscript13 initialTranscript)) s)).

(** The packets before the first that is protected, and from there on. *)
Fixpoint protectedFlightStart (pkts : list Packet) : list Packet * list Packet :=
  match pkts with
  | [] => ([], [])
  | p :: pkts => if pk_ShouldEncrypt p then ([], p :: pkts) else let '(clear, protected) := protectedFlightStart pkts in (p :: clear, protected)
  end.

Definition append_outbound (pkts : list Packet) (s : hs (W := W)) : res dtls_error unit * hs (W := W) :=
  run_op (appendOutboundHandshakeFlight13 (st_IsClient (h_state s)) (st_CipherSuite (h_state s)) pkts) s.

(** The traffic secrets, unless there are any. *)
Definition derive_if_missing (s : hs (W := W)) : res dtls_error unit * hs (W := W) :=
  let secrets := st_HandshakeTrafficSecrets13 (h_state s) in
  if (len (ts_Client secrets) =? 0) && (len (ts_Server secrets) =? 0) then
    let '(r, st, t) := deriveAndStoreHandshakeTrafficSecrets13 (h_state s) (transcript (h_world s)) in
    (r, MkHs st (h_cache s) (set_transcript t (h_world s)) (h_keylog s))
  else (Ok tt, s).

(** The numbered packets are added to the transcript; [None] is a panic. *)
Definition append_flights (pkts : list Packet) (s : hs (W := W)) : res dtls_error unit * hs (W := W) :=
  let '(clear, protected) := protectedFlightStart pkts in
  match append_outbound clear s with
  | (Ok _, s) =>
      match protected with
      | [] => (Ok tt, s)
      | _ =>
          match derive_if_missing s with
          | (Ok _, s) => append_outbound protected s
          | r => r
          end
      end
  | r => r
  end.

Definition commitPreparedFlights (cfg : HandshakeConfig W) (f : handshakeFSM13) : res dtls_error unit * handshakeFSM13 :=
  let epoch := cf_InitialEpoch cfg in
  let '(pkts, nextEpoch, sendSequence) := number_packets epoch epoch (st_HandshakeSendSequence (h_state (f13_hs f))) (f13_flights f) in
  let s := with_state (λ st, st <| st_HandshakeSendSequence := sendSequence |>) (f13_hs f) in
  let '(r, s) := append_flights pkts s in
  let s := match r with
           | Ok _ => if epoch =? nextEpoch then s else with_state (λ st, st <| st_LocalEpoch := nextEpoch |>) s
           | _ => s
           end in
  (r, MkFSM13 (f13_currentFlight f) pkts (f13_retransmit f) (f13_retransmitInterval f) s).

(** What is done with the packets of a generator. *)
Definition committed (c : flightConn (W := W)) (cfg : HandshakeConfig W) (f : handshakeFSM13) (rt : bool) (r : gresult) (s : hs (W := W))
    : option (handshakeState * handshakeFSM13) :=
  let '(pkts, alert, err) := r in
  '(err, s) ← notify_alert c alert err s;
  let fsm pkts := MkFSM13 (f13_currentFlight f) pkts rt (f13_retransmitInterval f) s in
  match err with
  | Some e => Some (handshakeErrored e, fsm [])
  | None =>
      match commitPreparedFlights cfg (fsm pkts) with
      | (Ok _, f) => Some (handshakeSending, f)
      | (Err e, f) => Some (handshakeErrored e, f)
      | (Panic, _) => None
      end
  end.

(** [None] is a panic. *)
Definition prepare (c : flightConn (W := W)) (cfg : HandshakeConfig W) (f : handshakeFSM13) : option (handshakeState * handshakeFSM13) :=
  match GetGenerator (f13_currentFlight f) with
  | None => committed c cfg f (f13_retransmit f) ([], Some (fatal InternalError), Some ErrFlightUnimplemented13) (f13_hs f)
  | Some (gen, rt) =>
      match gen cfg (f13_hs f) with
      | (Crash, _) => None
      | (Val r, s) | (Ret r, s) => committed c cfg f rt r s
      end
  end.

Definition unimplemented (f : handshakeFSM13) : option (handshakeState * handshakeFSM13) := Some (handshakeErrored ErrStateUnimplemented13, f).

(** One round of the loop of Run. *)
Definition step13 (c : flightConn (W := W)) (cfg : HandshakeConfig W) (q : handshakeState) (f : handshakeFSM13) : option (handshakeState * handshakeFSM13) :=
  match q with
  | handshakePreparing => prepare c cfg f
  | handshakeSending | handshakeWaiting | handshakeFinished => unimplemented f
  | handshakeErrored _ => Some (handshakeErrored ErrInvalidFSMTransition, f)
  end.

(** The loop: it returns with an error, or panics; [None] when the fuel is spent. *)
Inductive run_result := Returned (e : dtls_error) | Panicked.

Fixpoint Run (fuel : nat) (c : flightConn (W := W)) (cfg : HandshakeConfig W) (q : handshakeState) (f : handshakeFSM13) : option (run_result * handshakeFSM13) :=
  match fuel with
  | O => None
  | S fuel =>
      match step13 c cfg q f with
      | None => Some (Panicked, f)
      | Some (handshakeErrored e, f) => Some (Returned e, f)
      | Some (q, f) => Run fuel c cfg q f
      end
  end.

End handshaker.
End Handshaker13.
