(* ===== verification/Agreement13.v ===== *)
(** * A DTLS 1.3 handshake up to its traffic secrets

    The flights, the transcript and the key schedule put together: when a client
    and a server of this library exchange their hello messages, directly or after
    a HelloRetryRequest, they derive the same traffic secrets from the same
    transcript. *)
From stdpp Require Import base tactics numbers list strings gmap.
From Stdlib Require Import ZArith Lia.
From S2P Require Import Prelude Sha2 Wire SignatureHash HandshakeCrypto Prf Record CipherSuite Extensions Fragment Handshake HandshakeState FlightCache Flight12 Flight12Auth Handshaker Flight13 Transcript13 Handshaker13.
Import Protocol SignatureHash HandshakeCrypto Extension Handshake HandshakeHeader State Config Flight Selection AlertDescription Transcript13.
Import Flight12 (hs, MkHs, h_state, h_cache, h_world, h_keylog, M, out, Val, Ret, Crash, Packet, pk_Content, pk_ShouldEncrypt, HandshakeContent, plain,
  gresult, packets, fatal, val, ret, gets, modify, lift, act, Populate, epoch0, epoch1, choose_suite).
Import Flight12Auth Flight13 Handshaker13.
Import Handshaker (flightConn, handshakeState, handshakeErrored, handshakePreparing, handshakeSending, handshakeWaiting, handshakeFinished, notify_alert, number_packets, with_state).
Import KeyExchange (GenerateKeypair, GenerateKeypairForPeer, PreMasterSecret, Keypair, kp_Curve, kp_PublicKey, kp_PrivateKey, KeyAgreement, KeyAgreementLaws).
Open Scope Z_scope.

Module Agreement13.

(** ** The transcript of one side *)

Section transcripts.
Context `{Cryptobyte}.
Implicit Types (t : handshakeTranscript13) (ms : list entry) (h : Hash).

(** The transcript has the messages [ms]; its hash function, once chosen, is [h]. *)
Definition holds h t ms : Prop := runs t ms ∧ ∀ h' w, tr_hash t = Some (h', w) → h' = h.

Lemma holds_new h : holds h newHandshakeTranscript13 [].
Proof. split; [apply runs_new|done]. Qed.

Lemma select_hash cs t h w : tr_hash (selectTranscriptHashIfReady13 cs t).2 = Some (h, w) →
  (∃ w', tr_hash t = Some (h, w')) ∨ ∃ cs', cs = Some cs' ∧ CipherSuite.HashFunc cs' = h.
Proof.
  destruct (select_ready_spec cs t) as (o & -> & ->). unfold selectHash. destruct cs as [cs|]; cbn [fmap option_fmap option_map snd]; [|eauto].
  destruct (tr_hash t) as [[h' w']|] eqn:E; cbn [snd]; [rewrite E; intros [= -> ->]; eauto|]. intros [= <- _]. right. eauto.
Qed.

Lemma append_hash sender cs seq m c t r t' h w : appendHandshake13 sender cs seq m c t = (r, t') → tr_hash t' = Some (h, w) →
  (∃ w', tr_hash t = Some (h, w')) ∨ ∃ cs', cs = Some cs' ∧ CipherSuite.HashFunc cs' = h.
Proof.
  assert (∀ id t r t' w, appendCanonical id c t = (r, t') → tr_hash t' = Some (h, w) → ∃ w', tr_hash t = Some (h, w')) as Happ.
  { intros id t0 r0 t0' w0. unfold appendCanonical. destruct (validateCanonicalHandshake13 c); [|intros [= <- <-]; eauto..].
    destruct (tr_seen t0 !! id); [intros [= <- <-]; eauto|]. destruct c; [intros [= <- <-]; eauto|]. intros [= <- <-]. cbn.
    destruct (tr_hash t0) as [[h0 w1]|]; [|done]. intros [= -> _]. eauto. }
  unfold appendHandshake13. cbv zeta. destruct (is_retry m); [|intros E Eh; left; by eapply Happ].
  destruct (hasCanonical13 _ _ _) as [[]| |]; [intros [= <- <-]; eauto| |intros [= <- <-]; eauto..].
  destruct (select_ready_spec cs t) as (o & Es & _). unfold mbind, op_bind. rewrite Es. pose proof (select_hash cs t h) as Hsel. rewrite Es in Hsel.
  cbn [snd] in Hsel. unfold applyHelloRetryRequest. destruct (tr_hash (selectHash o t).2) as [[h1 w1]|] eqn:E1; [|intros [= <- <-] E2; congruence].
  destruct (_ || _); [intros [= <- <-] E2; rewrite E1 in E2; injection E2 as <- <-; by eapply Hsel|].
  intros E Eh. destruct (Happ _ _ _ _ _ E Eh) as [w' E']. cbn in E'. injection E' as -> _. by eapply Hsel.
Qed.

(** A message of a side that is added. *)
Definition entry_of (isClient : bool) (seq : Z) (m : Message) (canonical : bytes) : entry :=
  MkEntry (transcriptSenderForSide13 isClient, seq) (is_retry m) canonical.

Definition hashes (cs : option CipherSuite.CipherSuite) h : Prop := ∀ c, cs = Some c → CipherSuite.HashFunc c = h.

Lemma holds_append h t ms b cs seq m c t' : holds h t ms → hashes cs h →
  appendHandshake13 (transcriptSenderForSide13 b) cs seq m c t = (Ok tt, t') → holds h t' (record ms (entry_of b seq m c)).
Proof.
  intros [Hr Hh] Hcs E. split; [by eapply runs_append|]. intros h' w Ew.
  destruct (append_hash _ _ _ _ _ _ _ _ _ _ E Ew) as [[w' E']|(cs' & -> & <-)]; [by eapply Hh|by apply Hcs].
Qed.

Lemma holds_outbound h t ms b cs p hd m t' : holds h t ms → hashes cs h → pk_Content p = HandshakeContent hd (Some m) →
  appendOutboundHandshakeFlight13 b cs [p] t = (Ok tt, t') →
  ∃ hd' raw c, Handshake_Marshal hd (Some m) = Ok (hd', raw) ∧ canonicalHandshake13 raw = Ok c ∧
    holds h t' (record ms (entry_of b (MessageSequence hd) m c)).
Proof.
  intros Ht Hcs Hp. cbn [appendOutboundHandshakeFlight13]. unfold canonicalOutboundHandshake13. rewrite Hp. unfold mbind, op_bind, pure.
  destruct (Handshake_Marshal hd (Some m)) as [[hd' raw]| |]; cbn [res_bind]; [|done..].
  destruct (canonicalHandshake13 raw) as [c| |] eqn:Ec; cbn [res_bind]; [|done..].
  destruct (appendHandshake13 _ _ _ _ _ t) as [[[]| |] t1] eqn:E; [|done..]. intros [= <-].
  exists hd', raw, c. split_and!; [done..|]. by eapply holds_append.
Qed.

Lemma holds_inbound h t ms cs item t' : holds h t ms → hashes cs h → appendInboundHandshakeCacheItems13 cs [item] t = (Ok tt, t') →
  ∃ hd m c, Handshake_Unmarshal (keyExchangeAlgorithmForCipherSuite cs) (it_Data item) = Ok (hd, m) ∧ canonicalHandshake13 (it_Data item) = Ok c ∧
    holds h t' (record ms (entry_of (it_IsClient item) (MessageSequence hd) m c)).
Proof.
  intros Ht Hcs. cbn [appendInboundHandshakeCacheItems13]. unfold mbind, op_bind, pure.
  destruct (canonicalHandshake13 (it_Data item)) as [c| |]; [|done..]. destruct (Handshake_Unmarshal _ _) as [[hd m]| |]; [|done..].
  destruct (appendHandshake13 _ _ _ _ _ t) as [[[]| |] t1] eqn:E; [|done..]. intros [= <-].
  exists hd, m, c. split_and!; [done..|]. by eapply holds_append.
Qed.

(** The traffic secrets are those of the messages. *)
Definition secrets_of h (pms : bytes) ms : res dtls_error HandshakeTrafficSecrets13 :=
  deriveHandshakeTrafficSecrets13 (Some h) pms (h_sum h (rfc8446 h ms)).

Lemma holds_derive h t ms (s : State) cs s' t' : holds h t ms → st_CipherSuite s = Some cs → CipherSuite.HashFunc cs = h →
  deriveAndStoreHandshakeTrafficSecrets13 s t = (Ok tt, s', t') →
  holds h t' ms ∧ ∃ secrets, secrets_of h (st_PreMasterSecret s) ms = Ok secrets ∧ s' = s <| st_HandshakeTrafficSecrets13 := secrets |>.
Proof.
  intros [Hr Hh] Ecs Eh. unfold deriveAndStoreHandshakeTrafficSecrets13. rewrite Ecs. unfold mbind, op_bind, pure.
  pose proof (select_hash (Some cs) t) as Hsel. destruct (select_ready_spec (Some cs) t) as (o & Es & Eo). rewrite Es in Hsel |- *. cbn [snd] in Hsel.
  destruct (sum (selectHash o t).2) as [th| |] eqn:Esum; [|done..]. rewrite Eh.
  destruct (deriveHandshakeTrafficSecrets13 (Some h) (st_PreMasterSecret s) th) as [secrets| |] eqn:Ed; [|done..]. intros [= <- <-].
  assert (runs (selectHash o t).2 ms) as Hr'. { destruct (selectHash o t) as [r t1] eqn:E1. by eapply runs_select. }
  assert (∀ h' w, tr_hash (selectHash o t).2 = Some (h', w) → h' = h) as Hh'.
  { intros h' w E. destruct (Hsel h' w E) as [[w' E']|(cs' & [= <-] & <-)]; [by eapply Hh|done]. }
  split; [by split|]. exists secrets. split; [|done]. unfold secrets_of. rewrite <- Ed. f_equal.
  pose proof (rp_hash _ _ (runs_represents _ _ Hr')) as Hp. unfold sum in Esum. destruct (tr_hash (selectHash o t).2) as [[h' w]|] eqn:E'; [|done].
  injection Esum as <-. destruct Hp as (_ & _ & Ew). pose proof (Hh' _ _ eq_refl) as ->. by rewrite Ew.
Qed.

End transcripts.

Section sides.
Context `{Cryptobyte} `{!CryptobyteLaws} `{Ciphers} `{KeyAgreement} `{PKI} {W : Type} `{World W} `{TranscriptStore W} `{!TranscriptStoreLaws W}.
Implicit Types (s : hs (W := W)) (cfg : HandshakeConfig W) (st : State).

(** The hash function of the suite of DTLS 1.3. *)
Definition H13 : Hash := CipherSuite.HashFunc CipherSuite.TLSChacha20Poly1305Sha256.

Definition transcript_of s : handshakeTranscript13 := transcript (h_world s).

(** ** What a side sends *)

(** The bytes of a packet's message. *)
Definition encodes (p : Packet) (seq : Z) (m : Message) (raw : bytes) : Prop :=
  ∃ hd hd', pk_Content p = HandshakeContent hd (Some m) ∧ MessageSequence hd = seq ∧ FragmentOffset hd = 0 ∧ Handshake_Marshal hd (Some m) = Ok (hd', raw).

(** Its fields are in the ranges of their encodings. *)
Definition encodable (m : Message) : Prop := (∀ kx, message_ok kx m) ∧ ∀ msg, Message_Marshal m = Ok msg → len msg < 2 ^ 24.

Lemma encodes_parse p seq m raw kx : encodes p seq m raw → is_u16 seq → encodable m →
  ∃ hd', Handshake_Unmarshal kx raw = Ok (hd', m) ∧ MessageSequence hd' = seq.
Proof.
  intros (hd & hd' & _ & <- & Ho & E) Hseq [Hok Hl]. destruct (Message_roundtrip kx m (Hok kx)) as (msg & Em & _).
  destruct (Handshake_roundtrip kx hd m msg Hseq Ho (Hok kx) Em (Hl _ Em)) as [E1 E2]. rewrite E1 in E. injection E as <- <-.
  by eexists.
Qed.

(** Preparing a flight: the generator's packets are numbered and added to the transcript. *)
Definition generates cfg (fl : Flight13.Flight) s s' (ps : list Packet) : Prop :=
  ∃ c f f', f13_hs f = s ∧ f13_currentFlight f = fl ∧ prepare c cfg f = Some (handshakeSending, f') ∧ f13_hs f' = s' ∧ f13_flights f' = ps.

(** States that differ in the local epoch at most. *)
Definition but_epoch st st' : Prop := ∃ e, st' = st <| st_LocalEpoch := e |>.

Lemma generates_inv cfg fl s s' ps gen rt Q : generates cfg fl s s' ps → GetGenerator fl = Some (gen, rt) →
  wp (gen cfg) (λ r s1, r.1.2 = None ∧ (r.2 = None → Q r.1.1 s1)) (λ r s1, r.1.2 = None ∧ r.2 ≠ None) s →
  ∃ pkts s1 e ss s2, Q pkts s1 ∧ number_packets (cf_InitialEpoch cfg) (cf_InitialEpoch cfg) (st_HandshakeSendSequence (h_state s1)) pkts = (ps, e, ss) ∧
    append_flights ps (with_state (λ st, st <| st_HandshakeSendSequence := ss |>) s1) = (Ok tt, s2) ∧
    but_epoch (h_state s2) (h_state s') ∧ h_world s' = h_world s2 ∧ h_cache s' = h_cache s2.
Proof.
  intros (c & f & f' & <- & <- & E & <- & <-) Hg Hw. unfold prepare in E. rewrite Hg in E. unfold wp in Hw.
  assert (∀ r s1, r.1.2 = None → (r.2 = None → Q r.1.1 s1) → committed c cfg f rt r s1 = Some (handshakeSending, f') →
    ∃ pkts s1 e ss s2, Q pkts s1 ∧ number_packets (cf_InitialEpoch cfg) (cf_InitialEpoch cfg) (st_HandshakeSendSequence (h_state s1)) pkts = (f13_flights f', e, ss) ∧
    append_flights (f13_flights f') (with_state (λ st, st <| st_HandshakeSendSequence := ss |>) s1) = (Ok tt, s2) ∧
    but_epoch (h_state s2) (h_state (f13_hs f')) ∧ h_world (f13_hs f') = h_world s2 ∧ h_cache (f13_hs f') = h_cache s2) as Hc.
  { intros [[pkts a] err] s1 Ha Hq Ec. cbn in Ha, Hq. subst a. unfold committed in Ec. cbn [notify_alert mbind option_bind] in Ec.
    destruct err as [e|]; [done|]. unfold commitPreparedFlights in Ec. cbn [f13_hs f13_flights] in Ec.
    destruct (number_packets _ _ _ pkts) as [[ps e] ss] eqn:En. destruct (append_flights ps _) as [[[]| |] s2] eqn:Ea; [|done..].
    injection Ec as <-. exists pkts, s1, e, ss, s2. cbn [f13_flights f13_hs]. split_and!; [by apply Hq|done|done|..]; destruct (_ =? e); try done.
    - exists (st_LocalEpoch (h_state s2)). by destruct (h_state s2).
    - by eexists. }
  destruct (gen cfg (f13_hs f)) as [[r|r|] s1]; [| |done]; destruct Hw as [Ha Hq]; eapply Hc; try done.
Qed.

(** *** The client's hello *)

Definition made (k : Keypair) : Prop := ∃ r, GenerateKeypair (kp_Curve k) r = Ok k.

Lemma GenerateKeypair_curve g r k : GenerateKeypair g r = Ok k → kp_Curve k = g.
Proof.
  unfold GenerateKeypair. destruct (Z.eqb_spec g X25519MLKEM768) as [->|_].
  - unfold KeyExchange.generateX25519MLKEM768ClientKeypair. intros (dk & _ & (x & _ & [= <-])%bind_Ok_inv)%bind_Ok_inv. done.
  - unfold KeyExchange.generateECDHKeypair. intros (ec & _ & (sk & _ & [= <-])%bind_Ok_inv)%bind_Ok_inv. done.
Qed.

(** The keys of the shares that the client offers. *)
Definition keys_ready st : Prop :=
  ∀ e, e ∈ st_LocalKeyEntries st → ∃ k, st_LocalKeypairs st !! ks_Group e = Some k ∧ share_of k = e ∧ made k.

Lemma add_keypairs_other ks m g : g ∉ map kp_Curve ks → add_keypairs ks m !! g = m !! g.
Proof.
  revert m. induction ks as [|k ks IH]; intros m Hg; [done|]. cbn in Hg. rewrite elem_of_cons in Hg.
  change (add_keypairs (k :: ks) m) with (add_keypairs ks (<[kp_Curve k := k]> m)). rewrite IH by tauto.
  apply lookup_insert_ne. intros E. apply Hg. by left.
Qed.

Lemma add_keypairs_in ks m k : NoDup (map kp_Curve ks) → k ∈ ks → add_keypairs ks m !! kp_Curve k = Some k.
Proof.
  revert m. induction ks as [|k' ks IH]; intros m Hn Hk; [by apply elem_of_nil in Hk|]. cbn in Hn. apply NoDup_cons in Hn as [Hn1 Hn2].
  change (add_keypairs (k' :: ks) m) with (add_keypairs ks (<[kp_Curve k' := k']> m)).
  apply elem_of_cons in Hk as [<-|Hk]; [|by apply IH]. rewrite add_keypairs_other by done. by rewrite lookup_insert_eq.
Qed.

Lemma share_groups ks : map ks_Group (map share_of ks) = map kp_Curve ks.
Proof. rewrite map_map. by apply map_ext. Qed.

(** What a generator of the client leaves alone. *)
Definition client_frame s s' : Prop :=
  st_IsClient (h_state s') = st_IsClient (h_state s) ∧ st_CipherSuite (h_state s') = st_CipherSuite (h_state s) ∧
  st_HandshakeSendSequence (h_state s') = st_HandshakeSendSequence (h_state s) ∧
  st_HandshakeRecvSequence (h_state s') = st_HandshakeRecvSequence (h_state s) ∧ transcript_of s' = transcript_of s ∧ h_cache s' = h_cache s.

(** The callback for the random bytes does not know the transcript. *)
Definition separate cfg : Prop :=
  ∀ gen w, cf_HelloRandomBytesGenerator cfg = Some gen → transcript (gen w).2 = transcript w.

Lemma generate_keypairs_spec gs s : wp (generate_keypairs gs)
  (λ ks s', h_state s' = h_state s ∧ transcript_of s' = transcript_of s ∧ h_cache s' = h_cache s ∧ map kp_Curve ks = gs ∧ Forall made ks)
  (λ r s', r.1.2 = None ∧ r.2 ≠ None) s.
Proof.
  revert s. induction gs as [|g gs IH]; intros s; cbn [generate_keypairs]; [by repeat constructor|].
  apply wp_bind, wp_with_world. intros r w Er. apply wp_bind, wp_lift; [|done]. intros k Ek. apply wp_bind. eapply wp_mono; [apply IH| |done].
  intros ks s' (Es & Et & Ec & Eg & Hm). apply wp_val. cbn [h_state h_cache] in *. split_and!; [done| |done| |].
  - rewrite Et. unfold transcript_of. cbn [h_world]. pose proof (transcript_Reader (h_world s)) as Ht. by rewrite Er in Ht.
  - cbn. by rewrite Eg, (GenerateKeypair_curve _ _ _ Ek).
  - constructor; [|done]. exists r. by rewrite (GenerateKeypair_curve _ _ _ Ek).
Qed.

(** The extensions of the hello of a flight. *)
Definition hello_extensions cfg (fl : Flight13.Flight) st : list Extension :=
  match fl with
  | Flight3 => client_extensions13 cfg (negb (st_NamedCurve st =? 0)) (st_LocalKeyEntries st) ++
               (if 0 <? len (st_Cookie st) then [CookieExt (st_Cookie st)] else [])
  | _ => client_extensions13 cfg (existsb CipherSuite.ECC (cf_LocalCipherSuites cfg)) (st_LocalKeyEntries st)
  end.

(** The hello of a generator: its shares are the client's, whose keys it has. *)
Definition hello_ready cfg fl (pkts : list Packet) s : Prop :=
  pkts = [client_hello13 cfg (h_state s) (hello_extensions cfg fl (h_state s))] ∧
  (NoDup (map ks_Group (st_LocalKeyEntries (h_state s))) → keys_ready (h_state s)).

Lemma Populate_spec s : wp (Populate Flight12.gerror)
  (λ _ s', ∃ r, h_state s' = (h_state s) <| st_LocalRandom := r |> ∧ transcript_of s' = transcript_of s ∧ h_cache s' = h_cache s)
  (λ r s', r.1.2 = None ∧ r.2 ≠ None) s.
Proof.
  unfold Populate. apply wp_bind, wp_with_world. intros now w En. apply wp_bind, wp_act; [|done]. intros tmp w' Er. apply wp_modify.
  exists (MkRandom now tmp). split_and!; [done| |done]. unfold transcript_of. cbn [h_world] in *.
  pose proof (transcript_Now (h_world s)) as Ht. rewrite En in Ht. cbn in Ht. rewrite <- Ht.
  pose proof (transcript_Read RandomBytesLength w) as Ht'. by rewrite Er in Ht'.
Qed.

Lemma hello_random_spec cfg s : separate cfg → wp (hello_random cfg)
  (λ _ s', (∃ r, h_state s' = (h_state s) <| st_LocalRandom := r |>) ∧ transcript_of s' = transcript_of s ∧ h_cache s' = h_cache s)
  (λ r s', r.1.2 = None ∧ r.2 ≠ None) s.
Proof.
  intros Hsep. unfold hello_random. destruct (cf_HelloRandomBytesGenerator cfg) as [gen|] eqn:Eh.
  - apply wp_bind, wp_with_world. intros b w Eb. apply wp_modify. split_and!; [by eexists| |done].
    unfold transcript_of. cbn [h_world]. specialize (Hsep gen (h_world s) Eh). by rewrite Eb in Hsep.
  - apply wp_val. split_and!; [|done..]. exists (st_LocalRandom (h_state s)). by destruct (h_state s).
Qed.

Lemma flight13_1Generate_spec cfg s : separate cfg → wp (flight13_1Generate cfg)
  (λ r s', r.1.2 = None ∧ (r.2 = None → hello_ready cfg Flight1 r.1.1 s' ∧ client_frame s s')) (λ r s', r.1.2 = None ∧ r.2 ≠ None) s.
Proof.
  intros Hsep. unfold flight13_1Generate. apply wp_bind, wp_modify. destruct (cf_EllipticCurves cfg) as [|g gs] eqn:Eg; [done|].
  destruct (_ <? 1); [done|]. apply wp_bind, wp_modify. apply wp_bind. eapply wp_mono; [apply Populate_spec| |done].
  intros [] s1 (r & E1 & Et1 & Ec1). apply wp_bind.
  eapply wp_mono; [by apply hello_random_spec| |done]. intros [] s2 ([r2 E2] & Et2 & Ec2). apply wp_bind. eapply wp_mono; [apply generate_keypairs_spec| |done].
  intros ks s3 (E3 & Et3 & Ec3 & Ek & Hm). apply wp_bind, wp_modify. apply wp_bind, wp_gets. apply wp_val. cbn [h_state h_cache fst snd packets] in *.
  split; [done|]. intros _. rewrite E3, E2, E1. split.
  - split; [done|]. unfold keys_ready. cbn [h_state]. st_simpl. rewrite share_groups. intros Hn e (k & -> & Hk)%list_elem_of_fmap. exists k. split_and!; [by apply add_keypairs_in|done|].
    by eapply Forall_forall.
  - unfold client_frame. cbn [h_state h_cache]. st_simpl. split_and!; try done; [|congruence].
    unfold transcript_of in *. cbn [h_world] in *. congruence.
Qed.

Lemma keys_ready_more st ks : keys_ready st → Forall made ks →
  let st' := st <| st_LocalKeyEntries := map share_of ks ++ st_LocalKeyEntries st |> <| st_LocalKeypairs := add_keypairs ks (st_LocalKeypairs st) |> in
  NoDup (map ks_Group (st_LocalKeyEntries st')) → keys_ready st'.
Proof.
  cbv zeta. unfold keys_ready. st_simpl. rewrite map_app, share_groups, NoDup_app. intros Hr Hm (Hn1 & Hn2 & Hn3) e [He|He]%elem_of_app.
  - apply list_elem_of_fmap in He as (k & -> & Hk). exists k. split_and!; [by apply add_keypairs_in|done|by eapply Forall_forall].
  - destruct (Hr e He) as (k & Ek & Es & Hk). exists k. split_and!; [|done..]. rewrite add_keypairs_other; [done|].
    intros Hin. apply (Hn2 _ Hin). by apply list_elem_of_fmap_2.
Qed.

Lemma flight13_3Generate_spec cfg s : keys_ready (h_state s) → wp (flight13_3Generate cfg)
  (λ r s', r.1.2 = None ∧ (r.2 = None → hello_ready cfg Flight3 r.1.1 s' ∧ client_frame s s')) (λ r s', r.1.2 = None ∧ r.2 ≠ None) s.
Proof.
  intros Hk. unfold flight13_3Generate. destruct (_ <? 1); [done|]. apply wp_bind, wp_gets. apply wp_bind. eapply wp_mono; [apply generate_keypairs_spec| |done].
  intros ks s1 (E1 & Et1 & Ec1 & _ & Hm). apply wp_bind.
  apply (wp_mono _ (λ _ s2, client_frame s s2 ∧ (NoDup (map ks_Group (st_LocalKeyEntries (h_state s2))) → keys_ready (h_state s2)))
    _ (λ r s', r.1.2 = None ∧ r.2 ≠ None)); [| |done].
  { unfold client_frame. destruct (0 <? len ks).
    - apply wp_modify. unfold transcript_of in *. cbn [h_state h_cache h_world] in *. rewrite E1. st_simpl. split; [by split_and!|]. by apply keys_ready_more.
    - apply wp_val. unfold transcript_of in *. rewrite E1. split; [by split_and!|done]. }
  intros [] s2 [Hf Hk2]. apply wp_bind, wp_gets. destruct (negb _); [done|]. apply wp_val. cbn [fst snd packets]. split; [done|]. intros _.
  by split.
Qed.

(** The effect of one message in the clear on its sender. *)
Lemma append_clear h s ms p hd m s' : holds h (transcript_of s) ms → hashes (st_CipherSuite (h_state s)) h →
  pk_Content p = HandshakeContent hd (Some m) → append_outbound [p] s = (Ok tt, s') →
  ∃ hd' raw c, Handshake_Marshal hd (Some m) = Ok (hd', raw) ∧ canonicalHandshake13 raw = Ok c ∧
    holds h (transcript_of s') (record ms (entry_of (st_IsClient (h_state s)) (MessageSequence hd) m c)) ∧ h_state s' = h_state s ∧ h_cache s' = h_cache s.
Proof.
  intros Hh Hcs Hp. unfold append_outbound, run_op, on_transcript, transcript_of in *. destruct (appendOutboundHandshakeFlight13 _ _ _ _) as [r t'] eqn:E.
  intros [= -> <-]. destruct (holds_outbound _ _ _ _ _ _ _ _ _ Hh Hcs Hp E) as (hd' & raw & c & ? & ? & ?).
  exists hd', raw, c. cbn [h_world h_state h_cache]. by rewrite transcript_set.
Qed.

Definition numbered_from (st st' : State) (n : Z) : Prop := but_epoch (st <| st_HandshakeSendSequence := n |>) st'.

Lemma generates_clear cfg fl s s' ps gen rt h ms m Q : generates cfg fl s s' ps → GetGenerator fl = Some (gen, rt) →
  wp (gen cfg) (λ r s1, r.1.2 = None ∧ (r.2 = None → r.1.1 = [plain (Some (m s1))] ∧ Q s1)) (λ r s1, r.1.2 = None ∧ r.2 ≠ None) s →
  (∀ s1, Q s1 → holds h (transcript_of s1) ms ∧ hashes (st_CipherSuite (h_state s1)) h) →
  ∃ p s1 raw c, ps = [p] ∧ Q s1 ∧ RecordHeader.Epoch (Flight12.pk_Header p) = u16 (cf_InitialEpoch cfg) ∧ let seq := u16 (st_HandshakeSendSequence (h_state s1)) in
    encodes p seq (m s1) raw ∧ canonicalHandshake13 raw = Ok c ∧
    holds h (transcript_of s') (record ms (entry_of (st_IsClient (h_state s1)) seq (m s1) c)) ∧
    numbered_from (h_state s1) (h_state s') (st_HandshakeSendSequence (h_state s1) + 1) ∧ h_cache s' = h_cache s1.
Proof.
  intros Hg Hgen Hw Hq.
  destruct (generates_inv _ _ _ _ _ _ _ (λ pkts s1, pkts = [plain (Some (m s1))] ∧ Q s1) Hg Hgen) as (pkts & s1 & e & ss & s2 & [-> HQ] & En & Ea & He & Hwd & Hca); [done|].
  cbn in En. injection En as <- <- <-. destruct (Hq _ HQ) as [Hh Hcs].
  unfold append_flights in Ea. cbn [protectedFlightStart pk_ShouldEncrypt] in Ea.
  destruct (append_outbound _ _) as [[[]| |] s3] eqn:Eo in Ea; [|done..]. injection Ea as ->.
  eapply append_clear in Eo as (hd' & raw & c & Em & Ec & Hh' & Es & Ecc); [|exact Hh|exact Hcs|reflexivity].
  eexists _, s1, raw, c. cbv zeta. cbn [MessageSequence h_state with_state Flight12.pk_Header RecordHeader.Epoch] in *. split_and!; [done|done|done|..].
  - exists (MkHeader 0 0 (u16 (st_HandshakeSendSequence (h_state s1))) 0 0), hd'. by split_and!.
  - done.
  - unfold transcript_of in *. by rewrite Hwd.
  - unfold numbered_from. by rewrite <- Es.
  - by rewrite Hca.
Qed.

(** ** What a side receives *)

(** The packets are in the cache of the receiver, as the last of their kind. *)
Definition arrives (fromClient : bool) s s' (ps : list Packet) : Prop :=
  h_state s' = h_state s ∧ transcript_of s' = transcript_of s ∧
  ∀ p seq m raw, p ∈ ps → encodes p seq m raw → ∃ item,
    lastCacheItemForRule (h_cache s') (MkRule (Message_Type m) (RecordHeader.Epoch (Flight12.pk_Header p)) fromClient false) = Some item ∧ it_Data item = raw.

Definition parses cfg (fl : Flight13.Flight) s s' (fl' : Flight13.Flight) : Prop :=
  ∃ parse, Parse fl = Some parse ∧ parse (context13 cfg) s = (Val (next fl'), s').

Lemma parses_inv cfg fl s s' fl' parse (Q : presult → hs → Prop) (Qr : presult → hs → Prop) :
  parses cfg fl s s' fl' → Parse fl = Some parse → wp (parse (context13 cfg)) Q Qr s → Q (next fl') s'.
Proof. intros (parse' & Hp & E) Hp'. rewrite Hp in Hp'. injection Hp' as ->. unfold wp. by rewrite E. Qed.

(** Pulling one message. *)
Lemma wp_pull_items {R} startSeq rules (Qv : option (Z * pulled) → hs → Prop) (Qr : R → hs → Prop) s :
  (∀ o, FullPullMapItems (h_cache s) startSeq (st_CipherSuite (h_state s)) rules = Ok o → Qv o s) → wp (pull_items startSeq rules : M R _) Qv Qr s.
Proof. unfold wp, pull_items. destruct (FullPullMapItems _ _ _ _) as [o|[]|]; auto. Qed.

Lemma pull_one cache startSeq cs typ e b opt seq msgs items item :
  lastCacheItemForRule cache (MkRule typ e b false) = Some item →
  FullPullMapItems cache startSeq cs [MkRule typ e b opt] = Ok (Some (seq, (msgs, items))) →
  ∃ hd m, Handshake_Unmarshal (keyExchangeAlgorithmForCipherSuite cs) (it_Data item) = Ok (hd, m) ∧ MessageSequence hd = u16 startSeq ∧
    seq = startSeq + 1 ∧ items = [item] ∧ msgs !! typ = Some m ∧ it_IsClient item = b.
Proof.
  intros Hl Hp. apply FullPullMapItems_iff in Hp as (_ & _ & -> & Hp). cbn [Pull map zip zip_with] in Hp.
  change (lastCacheItemForRule cache (MkRule typ e b opt)) with (lastCacheItemForRule cache (MkRule typ e b false)) in Hp. rewrite Hl in Hp.
  inversion Hp as [| |r i m rules sq sq' out out' items' (hd & Hu & Hs) Hrest]; subst. inversion Hrest; subst.
  exists hd, m. split_and!; [done|done|done|done|cbn; by rewrite lookup_insert_eq|].
  pose proof (last_best cache (MkRule typ e b false)) as Hb. rewrite Hl in Hb. destruct Hb as (_ & Hm & _).
  unfold cacheItemMatchesRule in Hm. rewrite !andb_true_iff, bool_decide_eq_true in Hm. by destruct Hm as [[_ ?] _].
Qed.

(** The packet's message as the receiver reads it. *)
Lemma pull_packet fromClient s s' ps p seq m raw startSeq cs opt sq msgs items :
  arrives fromClient s s' ps → p ∈ ps → encodes p seq m raw → is_u16 seq → encodable m →
  FullPullMapItems (h_cache s') startSeq cs [MkRule (Message_Type m) (RecordHeader.Epoch (Flight12.pk_Header p)) fromClient opt] = Ok (Some (sq, (msgs, items))) →
  seq = u16 startSeq ∧ sq = startSeq + 1 ∧ msgs !! Message_Type m = Some m ∧ ∃ item, items = [item] ∧ it_Data item = raw ∧ it_IsClient item = fromClient.
Proof.
  intros (_ & _ & Harr) Hin Henc Hseq Hok Hp. destruct (Harr _ _ _ _ Hin Henc) as (item & Hl & Hd).
  destruct (pull_one _ _ _ _ _ _ _ _ _ _ _ Hl Hp) as (hd & m' & Hu & Hs & -> & -> & Hm & Hb). rewrite Hd in Hu.
  destruct (encodes_parse _ _ _ _ (keyExchangeAlgorithmForCipherSuite cs) Henc Hseq Hok) as (hd' & Hu' & Hs'). rewrite Hu in Hu'. injection Hu' as -> ->.
  split_and!; [congruence|done|done|by exists item].
Qed.

(** The callback for the messages that a parser accepted. *)
Lemma handle_inbound_spec h cfg items item s ms p seq m raw : holds h (transcript_of s) ms → hashes (st_CipherSuite (h_state s)) h →
  items = [item] → it_Data item = raw → encodes p seq m raw → is_u16 seq → encodable m →
  wp (handle_inbound (context13 cfg) items)
    (λ _ s', ∃ c, canonicalHandshake13 raw = Ok c ∧ holds h (transcript_of s') (record ms (entry_of (it_IsClient item) seq m c)) ∧
       h_state s' = h_state s ∧ h_cache s' = h_cache s) (λ r _, r.1.1 = None) s.
Proof.
  intros Hh Hcs -> Hd Henc Hseq Hok. unfold handle_inbound, context13. cbn [inboundHandshakeHandler]. apply wp_bind, wp_gets. apply wp_act; [|done].
  intros [] w E. unfold on_transcript in E. destruct (appendInboundHandshakeCacheItems13 _ _ _) as [r t'] eqn:Ea. injection E as -> <-.
  destruct (holds_inbound _ _ _ _ _ _ Hh Hcs Ea) as (hd & m' & c & Hu & Hc & Hh'). rewrite Hd in *.
  destruct (encodes_parse _ _ _ _ (keyExchangeAlgorithmForCipherSuite (st_CipherSuite (h_state s))) Henc Hseq Hok) as (hd' & Hu' & Hs').
  rewrite Hu in Hu'. injection Hu' as -> ->. rewrite Hs' in Hh'. exists c. split_and!; [done| |done..].
  unfold transcript_of. cbn [h_world]. by rewrite transcript_set.
Qed.

(** *** The server reads a ClientHello *)

(** The shares of a hello. *)
Definition shares_ok (entries : list KeyShareEntry) (e : Extension) : Prop :=
  match e with KeyShare k => default [] (ClientShares k) = entries | _ => True end.

Definition offers (ch : MessageClientHello) (entries : list KeyShareEntry) : Prop :=
  Forall (shares_ok entries) (ch_Extensions ch) ∧ ∃ k, KeyShare k ∈ ch_Extensions ch.

(** What reading a hello leaves alone. *)
Definition server_frame s s' : Prop :=
  st_IsClient (h_state s') = st_IsClient (h_state s) ∧ st_CipherSuite (h_state s') = st_CipherSuite (h_state s) ∧
  st_HandshakeSendSequence (h_state s') = st_HandshakeSendSequence (h_state s) ∧
  st_HandshakeRecvSequence (h_state s') = st_HandshakeRecvSequence (h_state s) ∧
  st_HandshakeTrafficSecrets13 (h_state s') = st_HandshakeTrafficSecrets13 (h_state s) ∧
  transcript_of s' = transcript_of s ∧ h_cache s' = h_cache s.

Lemma server_frame_trans s1 s2 s3 : server_frame s1 s2 → server_frame s2 s3 → server_frame s1 s3.
Proof. intros (? & ? & ? & ? & ? & ? & ?) (? & ? & ? & ? & ? & ? & ?). unfold server_frame. split_and!; congruence. Qed.

Definition same_keypair s s' : Prop := st_LocalKeypair (h_state s') = st_LocalKeypair (h_state s) ∧ st_Cookie (h_state s') = st_Cookie (h_state s).

Lemma security_extension_spec cfg seen e s : wp (processClientHello13SecurityExtension cfg seen e)
  (λ _ s', server_frame s s' ∧ same_keypair s s' ∧ st_RemoteKeyEntries (h_state s') = st_RemoteKeyEntries (h_state s)) (λ r _, r.1.1 = None) s.
Proof. unfold processClientHello13SecurityExtension. by wp_run. Qed.

Lemma state_extension_spec cfg e s entries : shares_ok entries e →
  let s' := with_state (processClientHello13StateExtension cfg e) s in
  server_frame s s' ∧ same_keypair s s' ∧
  st_RemoteKeyEntries (h_state s') = match e with KeyShare _ => Some entries | _ => st_RemoteKeyEntries (h_state s) end.
Proof.
  intros He. unfold server_frame, same_keypair, transcript_of, with_state, processClientHello13StateExtension. cbn [h_state h_cache h_world].
  destruct e; try done; [by destruct (bool_decide _)|by destruct (cf_ConnectionIDGenerator cfg)|]. cbn [shares_ok] in He. by rewrite He.
Qed.

Lemma process_extensions_spec cfg entries exts seen s : Forall (shares_ok entries) exts → wp (process_extensions cfg seen exts)
  (λ _ s', server_frame s s' ∧ same_keypair s s' ∧
     (st_RemoteKeyEntries (h_state s') = Some entries ∨ st_RemoteKeyEntries (h_state s') = st_RemoteKeyEntries (h_state s) ∧ ∀ k, KeyShare k ∉ exts))
  (λ r _, r.1.1 = None) s.
Proof.
  intros Hall. revert seen s. induction Hall as [|e exts He _ IH]; intros seen s; cbn [process_extensions].
  { apply wp_val. split_and!; [done..|]. right. split; [done|]. intros k ?%elem_of_nil. done. }
  apply wp_bind. eapply wp_mono; [apply security_extension_spec| |done]. intros seen1 s1 (Hf1 & [Hk1 Hc1] & Hr1). apply wp_bind, wp_modify.
  change (MkHs _ _ _ _) with (with_state (processClientHello13StateExtension cfg e) s1).
  destruct (state_extension_spec cfg e s1 entries He) as (Hf2 & [Hk2 Hc2] & Hr2). eapply wp_mono; [apply IH| |done].
  intros _ s3 (Hf3 & [Hk3 Hc3] & Hr3). split_and!; [by eapply server_frame_trans, server_frame_trans|split; congruence|].
  destruct Hr3 as [Hr3|[Hr3 Hn3]]; [by left|]. rewrite Hr3, Hr2. destruct e; try (right; split; [done|]; intros k [?|?]%elem_of_cons; [done|by eapply Hn3]). by left.
Qed.

Lemma processClientHello_spec cfg ch entries s : offers ch entries → wp (processClientHello13Extensions cfg ch)
  (λ _ s', server_frame s s' ∧ same_keypair s s' ∧ st_RemoteKeyEntries (h_state s') = Some entries) (λ r _, r.1.1 = None) s.
Proof.
  intros [Hall [k Hk]]. unfold processClientHello13Extensions. apply wp_bind. eapply wp_mono; [by apply process_extensions_spec| |done].
  intros seen s1 (Hf & Hkp & Hr). destruct (_ && _); [done|]. apply wp_val. split_and!; [done..|]. destruct Hr as [?|[_ Hn]]; [done|]. by destruct (Hn k).
Qed.

(** The server's half of the key exchange, with one of the client's shares. *)
Definition keyed (entries : list KeyShareEntry) st : Prop :=
  ∃ e k r, e ∈ entries ∧ st_LocalKeypair st = Some k ∧ kp_Curve k = ks_Group e ∧
    GenerateKeypairForPeer (ks_Group e) (ks_KeyExchange e) r = Ok k ∧
    PreMasterSecret (ks_KeyExchange e) (kp_PrivateKey k) (ks_Group e) = Ok (st_PreMasterSecret st).

Lemma GenerateKeypairForPeer_curve g peer r k : GenerateKeypairForPeer g peer r = Ok k → kp_Curve k = g.
Proof.
  unfold GenerateKeypairForPeer. destruct (Z.eqb_spec g X25519MLKEM768) as [->|_].
  - unfold KeyExchange.generateX25519MLKEM768ServerKeypair. destruct (negb _); [done|].
    intros (b & _ & (ek & _ & E)%bind_Ok_inv)%bind_Ok_inv. destruct (KeyExchange.mlkem_Encapsulate ek r.1). apply bind_Ok_inv in E as (x & _ & [= <-]). done.
  - unfold KeyExchange.generateECDHKeypair. intros (ec & _ & (sk & _ & [= <-])%bind_Ok_inv)%bind_Ok_inv. done.
Qed.

Lemma generateClientKeyShareSecret13_spec cfg s entries : st_RemoteKeyEntries (h_state s) = Some entries → st_LocalKeypair (h_state s) = None →
  wp (generateClientKeyShareSecret13 cfg) (λ _ s', server_frame s s' ∧ (keyed entries (h_state s') ∨ st_LocalKeypair (h_state s') = None))
    (λ r _, r.1.1 = None) s.
Proof.
  intros Hr Hk. unfold generateClientKeyShareSecret13. apply wp_bind, wp_gets. destruct (preferredClientGroup13 cfg (id (h_state s))) as [g|].
  2: { destruct (st_RemoteGroups _); [|done]. apply wp_val. split; [done|by right]. }
  apply wp_bind, wp_modify. unfold clientKeyShareForGroup13, id. rewrite Hr. destruct (find _ entries) as [e|] eqn:Ef; [|done].
  apply find_some in Ef as [Hin%list_elem_of_In Eg%Z.eqb_eq]. apply wp_bind, wp_gets. unfold needsClientKeypair13. cbn [h_state]. st_simpl. rewrite Hk.
  apply wp_bind. apply wp_bind, wp_with_world. intros r w Er. apply wp_bind, wp_lift; [|done]. intros k Ek. apply wp_modify.
  apply wp_bind, wp_deref. cbn [h_state h_cache h_world]. st_simpl. intros k' [= <-]. apply wp_bind, wp_lift; [|done]. intros pms Ep. apply wp_modify.
  cbn [h_state h_cache h_world]. unfold server_frame, keyed, transcript_of. cbn [h_state h_cache h_world]. st_simpl. split.
  - split_and!; try done. pose proof (transcript_Reader (h_world s)) as Ht. cbn [h_world] in Er. by rewrite Er in Ht.
  - left. subst g. exists e, k, r. by rewrite (GenerateKeypairForPeer_curve _ _ _ _ Ek).
Qed.

(** A suite of the library or of the configuration. *)
Definition known_suite cfg (cs : CipherSuite.CipherSuite) : Prop := ∃ id, CipherSuite.ForID id (cf_CustomCipherSuites cfg) = Some cs.

Lemma FindMatching_in a b cs : FindMatchingCipherSuite a b = Some cs → cs ∈ a.
Proof.
  induction a as [|c a IH]; [done|]. cbn. destruct (existsb _ b); [intros [= <-]; by left|]. intros Hc. right. by apply IH.
Qed.

Lemma remote_suites13_known cfg ids b cs : FindMatchingCipherSuite (remote_suites13 cfg ids) b = Some cs → known_suite cfg cs.
Proof.
  intros Hin%FindMatching_in. unfold remote_suites13 in Hin. apply list_elem_of_omap in Hin as (id & _ & Hid).
  destruct (id =? _); [done|]. by exists id.
Qed.

(** The server after a hello: the message is in the transcript, and the key
    exchange is done or there is no key yet. *)
Record server_heard cfg s s' (fl : option Flight13.Flight) (ms : list entry) (entries : list KeyShareEntry) (cs : CipherSuite.CipherSuite) : Prop := {
  sv_suite : st_CipherSuite (h_state s') = Some cs ∧ known_suite cfg cs;
  sv_transcript : holds (CipherSuite.HashFunc cs) (transcript_of s') ms;
  sv_kept : st_IsClient (h_state s') = st_IsClient (h_state s) ∧ st_HandshakeSendSequence (h_state s') = st_HandshakeSendSequence (h_state s) ∧
    st_HandshakeTrafficSecrets13 (h_state s') = st_HandshakeTrafficSecrets13 (h_state s);
  sv_keyed : keyed entries (h_state s') ∨ st_LocalKeypair (h_state s') = None;
  sv_retry : fl = Some Flight2 → st_LocalKeypair (h_state s') = None
}.

(** The part of flight 0 that reads the hello. *)
Lemma client_hello_parse_spec cfg ch entries s : offers ch entries → st_LocalKeypair (h_state s) = None →
  wp (client_hello_parse cfg ch) (λ fl s', ∃ cs, (st_CipherSuite (h_state s') = Some cs ∧ known_suite cfg cs) ∧
      server_frame (with_state (λ st, st <| st_CipherSuite := Some cs |>) s) s' ∧
      (keyed entries (h_state s') ∨ st_LocalKeypair (h_state s') = None) ∧ (fl = Flight2 → st_LocalKeypair (h_state s') = None))
    (λ r _, r.1.1 = None) s.
Proof.
  intros Ho Hk. unfold client_hello_parse. destruct (negb _); [done|]. apply wp_bind, wp_modify. apply wp_bind, wp_modify.
  destruct (FindMatchingCipherSuite _ _) as [cs|] eqn:Ecs; [|done]. apply remote_suites13_known in Ecs. apply wp_bind.
  eapply wp_mono; [by apply processClientHello_spec| |done]. intros [] s1 (Hf1 & [Hk1 _] & Hr1). apply (λ E, eq_trans E Hk) in Hk1.
  assert (server_frame (with_state (λ st, st <| st_CipherSuite := Some cs |>) s) s1) as Hf.
  { destruct Hf1 as (? & ? & ? & ? & ? & ? & ?). unfold server_frame. by split_and!. }
  clear Hf1. apply wp_bind, wp_gets. destruct (negb _); [done|]. apply wp_bind, wp_modify. destruct (_ && _); [done|]. apply wp_bind, wp_modify. apply wp_bind, wp_gets.
  cbn [h_state h_cache h_world]. set (st2 := selectClientKeyShare13 _ _).
  assert (∃ cid curve, st2 = (h_state s1) <| st_LocalConnectionID := cid |> <| st_NamedCurve := curve |>) as (cid & curve & E2).
  { unfold st2, selectClientKeyShare13. set (st1 := match _ with Some _ => h_state s1 | None => _ end).
    assert (∃ cid, st1 = (h_state s1) <| st_LocalConnectionID := cid |>) as [cid E1].
    { unfold st1. destruct (st_RemoteConnectionID (h_state s1)); [|by eexists]. exists (st_LocalConnectionID (h_state s1)). by destruct (h_state s1). }
    exists cid. destruct (preferredClientGroup13 cfg st1); rewrite E1; [by eexists|]. exists (st_NamedCurve (h_state s1)). by destruct (h_state s1). }
  clearbody st2. subst st2. set (s2 := MkHs _ _ _ _).
  assert (server_frame (with_state (λ st, st <| st_CipherSuite := Some cs |>) s) s2) as Hf2 by exact Hf.
  assert (st_CipherSuite (h_state s2) = Some cs) as Hcs2 by apply Hf.
  destruct (cf_InsecureSkipHelloVerify cfg); [|apply wp_val; exists cs; split_and!; auto].
  destruct (matchingClientKeyShare13 _ _); [|apply wp_val; exists cs; split_and!; auto]. apply wp_bind.
  eapply wp_mono; [apply (generateClientKeyShareSecret13_spec cfg s2 entries); [exact Hr1|exact Hk1]| |done].
  intros [] s3 [Hf3 Hk3]. apply wp_val. exists cs. split_and!; [|done|by eapply server_frame_trans|done|done].
  destruct Hf3 as (_ & -> & _). done.
Qed.

(** A hello that arrives: [raw] is the encoding of [ch] as message [seq]. *)
Record hello_arrives cfg s0 s (ps : list Packet) (p : Packet) (seq : Z) (ch : MessageClientHello) (raw : bytes) : Prop := {
  ha_arrives : arrives true s0 s ps;
  ha_packet : p ∈ ps;
  ha_encodes : encodes p seq (ClientHello ch) raw;
  ha_seq : is_u16 seq;
  ha_encodable : encodable (ClientHello ch);
  ha_epoch : RecordHeader.Epoch (Flight12.pk_Header p) = cf_InitialEpoch cfg
}.

Lemma hello_pulled cfg s0 s ps p seq ch raw startSeq cs opt sq msgs items : hello_arrives cfg s0 s ps p seq ch raw →
  FullPullMapItems (h_cache s) startSeq cs [epoch0 cfg TypeClientHello true opt] = Ok (Some (sq, (msgs, items))) →
  seq = u16 startSeq ∧ sq = startSeq + 1 ∧ msgs !! TypeClientHello = Some (ClientHello ch) ∧ ∃ item, items = [item] ∧ it_Data item = raw ∧ it_IsClient item = true.
Proof.
  intros [Ha Hp He Hs Hok Hep]. unfold epoch0. rewrite <- Hep. apply (pull_packet true s0 s ps p seq (ClientHello ch) raw); done.
Qed.

Lemma flight13_0Parse_spec cfg s0 s ps p seq ch raw entries : hello_arrives cfg s0 s ps p seq ch raw → offers ch entries →
  st_LocalKeypair (h_state s) = None → transcript_of s = newHandshakeTranscript13 →
  wp (flight13_0Parse (context13 cfg)) (λ r s', ∀ fl, r.1.1 = Some fl → seq = 0 ∧ st_HandshakeRecvSequence (h_state s') = 1 ∧ ∃ cs c, canonicalHandshake13 raw = Ok c ∧
      server_heard cfg s s' (Some fl) [entry_of true seq (ClientHello ch) c] entries cs) (λ r _, r.1.1 = None) s.
Proof.
  intros Ha Ho Hk Ht. unfold flight13_0Parse. apply wp_bind, wp_gets. destruct (bool_decide _); [done|]. apply wp_bind, wp_pull_items.
  intros [[sq [msgs items]]|] Hp; [|done]. destruct (hello_pulled _ _ _ _ _ _ _ _ _ _ _ _ _ _ Ha Hp) as (Hseq & -> & Hm & item & Hi & Hd & Hb).
  apply wp_bind, wp_modify. rewrite Hm. apply wp_bind. eapply wp_mono; [by apply client_hello_parse_spec| |done].
  intros fl s1 (cs & [Hcs Hkn] & (E1 & _ & E3 & E4 & E5 & Et & _) & Hkey & Hretry). apply wp_bind.
  unfold transcript_of in *. cbn [h_world with_state h_state] in *. rewrite Ht in Et.
  eapply wp_mono; [eapply (handle_inbound_spec (CipherSuite.HashFunc cs) _ _ item s1 [] p seq (ClientHello ch) raw); try apply Ha; try done| |done].
  - unfold transcript_of. rewrite Et. apply holds_new.
  - rewrite Hcs. by intros ? [= <-].
  - intros [] s2 (c & Hc & Hh & Es & _). apply wp_val. intros fl' [= <-]. rewrite Es. split_and!; [done|done|]. exists cs, c. split; [done|].
    rewrite Hb in Hh. split; rewrite ?Es; try done. intros [= ->]. by apply Hretry.
Qed.

Lemma flight13_2Parse_spec cfg s0 s ps p seq ch raw entries ms cs : hello_arrives cfg s0 s ps p seq ch raw → offers ch entries →
  st_LocalKeypair (h_state s) = None → st_CipherSuite (h_state s) = Some cs → known_suite cfg cs → holds (CipherSuite.HashFunc cs) (transcript_of s) ms →
  wp (flight13_2Parse (context13 cfg)) (λ r s', ∀ fl, r.1.1 = Some fl → seq = u16 (st_HandshakeRecvSequence (h_state s)) ∧
      (0 < len (st_Cookie (h_state s)) ∧ clientHello13Cookie (ch_Extensions ch) = st_Cookie (h_state s)) ∧ ∃ c, canonicalHandshake13 raw = Ok c ∧
      server_heard cfg s s' None (record ms (entry_of true seq (ClientHello ch) c)) entries cs) (λ r _, r.1.1 = None) s.
Proof.
  intros Ha Ho Hk Hcs Hkn Ht. unfold flight13_2Parse. apply wp_bind, wp_gets. apply wp_bind, wp_pull_items.
  intros [[sq [msgs items]]|] Hp; [|done]. destruct (hello_pulled _ _ _ _ _ _ _ _ _ _ _ _ _ _ Ha Hp) as (Hseq & -> & Hm & item & Hi & Hd & Hb).
  rewrite Hm. destruct (negb _); [done|]. cbv zeta. destruct (Z.eqb_spec (len (clientHello13Cookie (ch_Extensions ch))) 0) as [|Hne]; [done|].
  apply wp_bind, wp_gets. destruct (bool_decide _) eqn:Eck; [|done]. apply bool_decide_eq_true in Eck. cbn [negb]. apply wp_bind.
  eapply wp_mono; [by apply processClientHello_spec| |done]. intros [] s1 (Hf1 & [Hk1 _] & Hr1). rewrite Hk in Hk1. apply wp_bind.
  eapply wp_mono; [by apply (generateClientKeyShareSecret13_spec cfg s1 entries)| |done]. intros [] s2 [Hf2 Hkey].
  destruct (server_frame_trans _ _ _ Hf1 Hf2) as (E1 & E2 & E3 & _ & E5 & Et & _). rewrite Hcs in E2. apply wp_bind.
  eapply wp_mono; [eapply (handle_inbound_spec (CipherSuite.HashFunc cs) _ _ item s2 ms p seq (ClientHello ch) raw); try apply Ha; try done| |done].
  - by rewrite Et.
  - rewrite E2. by intros ? [= <-].
  - intros [] s3 (c & Hc & Hh & Es & _). apply wp_bind, wp_modify. apply wp_val. intros fl _.
    pose proof (len_nonneg (clientHello13Cookie (ch_Extensions ch))). split_and!; [done|rewrite Eck; lia|done|]. exists c. split; [done|].
    rewrite Hb in Hh. split; unfold transcript_of, keyed in *; cbn [h_state h_world] in *; rewrite ?Es; st_simpl; done.
Qed.

(** *** The server's flights *)

Definition retry_hello (cs : CipherSuite.CipherSuite) st : MessageServerHello :=
  MkServerHello Version1_2 (UnmarshalFixed HelloRetryRequestRandom) [] (Some (CipherSuite.ID cs)) (Some 0)
    ([SupportedVersions [Version1_3] true] ++
     (if st_NamedCurve st =? 0 then [] else [KeyShare (MkKeyShare None None (Some (st_NamedCurve st)))]) ++
     (if 0 <? len (st_Cookie st) then [CookieExt (st_Cookie st)] else [])).

Lemma retry_hello_is_retry cs st : is_retry (ServerHello (retry_hello cs st)) = true.
Proof. reflexivity. Qed.

Definition answer_hello (cs : CipherSuite.CipherSuite) (random : Random) (k : Keypair) : MessageServerHello :=
  MkServerHello Version1_2 random [] (Some (CipherSuite.ID cs)) (Some 0)
    [SupportedVersions [Version1_3] true; KeyShare (MkKeyShare None (Some (share_of k)) None)].

Lemma generates_retry cfg s s' ps cs ms : generates cfg Flight2 s s' ps → st_CipherSuite (h_state s) = Some cs →
  holds (CipherSuite.HashFunc cs) (transcript_of s) ms →
  ∃ p raw c, ps = [p] ∧ RecordHeader.Epoch (Flight12.pk_Header p) = u16 (cf_InitialEpoch cfg) ∧
    encodes p 0 (ServerHello (retry_hello cs (h_state s))) raw ∧ canonicalHandshake13 raw = Ok c ∧
    holds (CipherSuite.HashFunc cs) (transcript_of s') (record ms (entry_of (st_IsClient (h_state s)) 0 (ServerHello (retry_hello cs (h_state s))) c)) ∧
    numbered_from (h_state s) (h_state s') 1.
Proof.
  intros Hg Hcs Hh.
  destruct (generates_clear cfg Flight2 s s' ps flight13_2Generate false (CipherSuite.HashFunc cs) ms (λ _, ServerHello (retry_hello cs (h_state s)))
    (λ s1, s1 = with_state (λ st, st <| st_HandshakeSendSequence := 0 |>) s) Hg eq_refl)
    as (p & s1 & raw & c & -> & -> & Hep & Henc & Hc & Hh' & Hn & _).
  - unfold flight13_2Generate. apply wp_bind, wp_modify. apply wp_bind, wp_gets. cbn [h_state id]. st_simpl. rewrite Hcs. apply wp_val. done.
  - intros s1 ->. split; [done|]. cbn [with_state h_state]. st_simpl. rewrite Hcs. by intros ? [= <-].
  - exists p, raw, c. split_and!; done.
Qed.

Lemma derive_if_missing_spec h s ms cs s' : holds h (transcript_of s) ms → st_CipherSuite (h_state s) = Some cs → CipherSuite.HashFunc cs = h →
  st_HandshakeTrafficSecrets13 (h_state s) = MkTrafficSecrets [] [] → derive_if_missing s = (Ok tt, s') →
  holds h (transcript_of s') ms ∧ ∃ secrets, secrets_of h (st_PreMasterSecret (h_state s)) ms = Ok secrets ∧
    h_state s' = (h_state s) <| st_HandshakeTrafficSecrets13 := secrets |>.
Proof.
  intros Hh Hcs Eh Hs. unfold derive_if_missing. rewrite Hs. cbn [ts_Client ts_Server len length Z.of_nat Z.eqb andb].
  destruct (deriveAndStoreHandshakeTrafficSecrets13 _ _) as [[r st] t] eqn:E. intros [= -> <-].
  destruct (holds_derive _ _ _ _ _ _ _ Hh Hcs Eh E) as (Hh' & secrets & E1 & ->). split; [|by exists secrets].
  unfold transcript_of. cbn [h_world]. by rewrite transcript_set.
Qed.

(** Flight 4: the secrets are derived between the ServerHello and the extensions. *)
Record answered cfg s s' (ps : list Packet) (cs : CipherSuite.CipherSuite) (ms : list entry) (p q : Packet) (k : Keypair) (raw c raw' c' : bytes) : Prop := {
  an_packets : ps = [p; q];
  an_keypair : st_LocalKeypair (h_state s) = Some k;
  an_epochs : RecordHeader.Epoch (Flight12.pk_Header p) = u16 (cf_InitialEpoch cfg) ∧ RecordHeader.Epoch (Flight12.pk_Header q) = u16 (1 + cf_InitialEpoch cfg);
  an_hello : encodes p (u16 (st_HandshakeSendSequence (h_state s))) (ServerHello (answer_hello cs (st_LocalRandom (h_state s)) k)) raw ∧ canonicalHandshake13 raw = Ok c;
  an_extensions : encodes q (u16 (st_HandshakeSendSequence (h_state s) + 1)) (EncryptedExtensions []) raw' ∧ canonicalHandshake13 raw' = Ok c';
  an_secrets : secrets_of (CipherSuite.HashFunc cs) (st_PreMasterSecret (h_state s))
    (record ms (entry_of (st_IsClient (h_state s)) (u16 (st_HandshakeSendSequence (h_state s))) (ServerHello (answer_hello cs (st_LocalRandom (h_state s)) k)) c)) =
    Ok (st_HandshakeTrafficSecrets13 (h_state s'));
  an_transcript : holds (CipherSuite.HashFunc cs) (transcript_of s')
    (record (record ms (entry_of (st_IsClient (h_state s)) (u16 (st_HandshakeSendSequence (h_state s))) (ServerHello (answer_hello cs (st_LocalRandom (h_state s)) k)) c))
       (entry_of (st_IsClient (h_state s)) (u16 (st_HandshakeSendSequence (h_state s) + 1)) (EncryptedExtensions []) c'));
  an_kept : st_CipherSuite (h_state s') = Some cs ∧ st_PreMasterSecret (h_state s') = st_PreMasterSecret (h_state s)
}.

Lemma generates_answer cfg s s' ps cs ms : generates cfg Flight4 s s' ps → st_CipherSuite (h_state s) = Some cs →
  holds (CipherSuite.HashFunc cs) (transcript_of s) ms → st_HandshakeTrafficSecrets13 (h_state s) = MkTrafficSecrets [] [] →
  ∃ p q k raw c raw' c', answered cfg s s' ps cs ms p q k raw c raw' c'.
Proof.
  intros Hg Hcs Hh Hs.
  destruct (generates_inv cfg Flight4 s s' ps flight13_4Generate true (λ pkts s1, s1 = s ∧ ∃ k, st_LocalKeypair (h_state s) = Some k ∧
    pkts = [server_hello_packet (st_LocalRandom (h_state s)) cs [SupportedVersions [Version1_3] true; KeyShare (MkKeyShare None (Some (share_of k)) None)];
            Flight12.MkPacket (Flight12.record_header 1) (HandshakeContent Flight12.zero_header (Some (EncryptedExtensions []))) true false true]) Hg eq_refl)
    as (pkts & s1 & e & ss & s2 & (-> & k & Hk & ->) & En & Ea & (ep & Ee) & Hwd & _).
  { unfold flight13_4Generate. apply wp_bind, wp_gets. unfold id. rewrite Hcs. destruct (st_LocalKeypair (h_state s)) as [k|]; [|done]. apply wp_val. eauto 6. }
  cbn in En. injection En as <- <- <-. unfold append_flights in Ea. cbn [protectedFlightStart pk_ShouldEncrypt] in Ea.
  destruct (append_outbound _ _) as [[[]| |] s3] eqn:E3 in Ea; [|done..].
  eapply append_clear in E3 as (hd1 & raw & c & Em & Ec & Hh3 & Es3 & _); [|exact Hh| |reflexivity]; [|cbn [with_state h_state]; st_simpl; rewrite Hcs; by intros ? [= <-]].
  cbn [with_state h_state MessageSequence] in Hh3, Es3. destruct (derive_if_missing s3) as [[[]| |] s4] eqn:E4; [|done..].
  eapply derive_if_missing_spec in E4 as (Hh4 & secrets & Esec & Es4); [|exact Hh3|by rewrite Es3|done|by rewrite Es3].
  eapply append_clear in Ea as (hd2 & raw' & c' & Em' & Ec' & Hh5 & Es5 & _); [|exact Hh4| |reflexivity]; [|rewrite Es4, Es3; st_simpl; rewrite Hcs; by intros ? [= <-]].
  rewrite Es3 in Es4, Esec. rewrite Es4 in Es5, Hh5. rewrite Es5 in Ee. cbn [MessageSequence] in Hh5.
  eexists _, _, k, raw, c, raw', c'. split; [reflexivity|done|..]; try (split; [|done]).
  - done.
  - by eexists _, hd1.
  - by eexists _, hd2.
  - rewrite Ee. st_simpl. exact Esec.
  - unfold transcript_of. rewrite Hwd. exact Hh5.
  - rewrite Ee. by st_simpl.
Qed.

(** *** The client reads the server's answer *)

(** The only suite of DTLS 1.3. *)
Lemma suite13_unique cfg cs : known_suite cfg cs → CipherSuite.IDSupportsVersion (CipherSuite.ID cs) Version1_3 = true → cs = CipherSuite.TLSChacha20Poly1305Sha256.
Proof.
  intros [n Hid] Hv. assert (CipherSuite.ID cs = CipherSuite.TLS_CHACHA20_POLY1305_SHA256) as E.
  { unfold CipherSuite.IDSupportsVersion, CipherSuite.SupportedVersions in Hv. by destruct (Z.eqb_spec (CipherSuite.ID cs) CipherSuite.TLS_CHACHA20_POLY1305_SHA256). }
  unfold CipherSuite.ForID in Hid. destruct (Z.eqb_spec n CipherSuite.TLS_CHACHA20_POLY1305_SHA256) as [_|Hne]; [by injection Hid|].
  repeat (destruct (_ =? _); [injection Hid as <-; done|]). destruct (cf_CustomCipherSuites cfg); [|done].
  apply find_some in Hid as [_ Hid%Z.eqb_eq]. congruence.
Qed.

Lemma ForID_chacha id custom : CipherSuite.ForID id custom = Some CipherSuite.TLSChacha20Poly1305Sha256 → id = CipherSuite.TLS_CHACHA20_POLY1305_SHA256.
Proof.
  unfold CipherSuite.ForID. destruct (Z.eqb_spec id CipherSuite.TLS_CHACHA20_POLY1305_SHA256) as [->|Hne]; [done|].
  repeat (destruct (_ =? _); [intros [=]|]). destruct custom; [|done]. by intros [_ Hid%Z.eqb_eq]%find_some.
Qed.

Lemma selectServerHello_spec cfg sh s : wp (selectServerHelloCipherSuite13 sh cfg)
  (λ cs s', s' = s ∧ cs = CipherSuite.TLSChacha20Poly1305Sha256 ∧ sh_CipherSuiteID sh = Some CipherSuite.TLS_CHACHA20_POLY1305_SHA256)
  (λ r _, r.1.1 = None) s.
Proof.
  unfold selectServerHelloCipherSuite13. destruct (sh_CipherSuiteID sh) as [id|]; [|done].
  destruct (CipherSuite.ForID id _) as [cs|] eqn:E; [|done]. destruct (CipherSuite.IDSupportsVersion _ _) eqn:Ev; [|done]. cbn [negb].
  destruct (FindMatchingCipherSuite _ _) as [cs'|] eqn:Ef; [|done]. apply FindMatching_in, list_elem_of_singleton in Ef as ->. apply wp_val.
  pose proof (suite13_unique cfg cs (ex_intro _ id E) Ev) as ->. split_and!; [done..|]. f_equal. by eapply ForID_chacha.
Qed.

(** The client's half of the key exchange. *)
Record client_answered s s' (sh : MessageServerHello) (share : KeyShareEntry) (k : Keypair) : Prop := {
  ca_share : server_share (sh_Extensions sh) = Some share;
  ca_key : st_LocalKeypairs (h_state s) !! ks_Group share = Some k;
  ca_secret : PreMasterSecret (ks_KeyExchange share) (kp_PrivateKey k) (ks_Group share) = Ok (st_PreMasterSecret (h_state s'));
  ca_group : st_NamedCurve (h_state s') = ks_Group share;
  ca_suite : st_CipherSuite (h_state s') = Some CipherSuite.TLSChacha20Poly1305Sha256;
  ca_id : sh_CipherSuiteID sh = Some CipherSuite.TLS_CHACHA20_POLY1305_SHA256;
  ca_retry : IsHelloRetryRequest sh = false
}.

Definition client_kept s s' : Prop :=
  transcript_of s' = transcript_of s ∧ h_cache s' = h_cache s ∧ st_HandshakeRecvSequence (h_state s') = st_HandshakeRecvSequence (h_state s).

Lemma server_hello13_spec cfg sh s : wp (server_hello13 cfg sh)
  (λ _ s', client_kept s s' ∧ ∃ share k, client_answered s s' sh share k) (λ r _, r.1.1 = None) s.
Proof.
  unfold server_hello13. destruct (IsHelloRetryRequest sh) eqn:Er; [done|]. destruct (negb _); [done|]. apply wp_bind, wp_lift; [|done].
  intros [versions seen] _. destruct seen; [|done]. cbn [negb]. apply wp_bind, wp_lift; [|done]. intros v _. destruct (negb _); [done|].
  apply wp_bind, wp_modify. apply wp_bind. eapply wp_mono; [apply selectServerHello_spec| |done]. intros cs s1 (-> & -> & Hid).
  apply wp_bind, wp_modify. apply wp_bind, wp_modify. destruct (server_share _) as [share|] eqn:Es; [|done]. apply wp_bind, wp_gets.
  cbn [h_state]. unfold choose_suite. st_simpl. destruct (_ !! ks_Group share) as [k|] eqn:Ek; [|done]. apply wp_bind, wp_lift; [|done]. intros pms Ep.
  apply wp_modify. split; [done|]. exists share, k. split; cbn [h_state h_cache]; st_simpl; done.
Qed.

(** The server's messages that arrive. *)
Record answer_arrives cfg s0 s (ps : list Packet) (p q : Packet) (seq seq' : Z) (sh : MessageServerHello) (raw raw' : bytes) : Prop := {
  aa_arrives : arrives false s0 s ps;
  aa_packets : p ∈ ps ∧ q ∈ ps;
  aa_hello : encodes p seq (ServerHello sh) raw ∧ is_u16 seq ∧ encodable (ServerHello sh);
  aa_extensions : encodes q seq' (EncryptedExtensions []) raw' ∧ is_u16 seq';
  aa_epochs : RecordHeader.Epoch (Flight12.pk_Header p) = cf_InitialEpoch cfg ∧ RecordHeader.Epoch (Flight12.pk_Header q) = u16 (cf_InitialEpoch cfg + 1)
}.

Lemma extensions_encodable : encodable (EncryptedExtensions []).
Proof.
  assert (extensions_ok []) as Hnil by (split_and!; [constructor..|reflexivity]). split; [done|]. intros msg E.
  destruct (extensions_codec [] Hnil) as (body & Em & Hl & _). change (Extension.Marshal [] = Ok msg) in E. assert (msg = be_put 2 (len body) ++ body) as -> by congruence.
  rewrite len_app, len_be_put. change (2 ^ 16) with 65536 in Hl. change (2 ^ 24) with 16777216. lia.
Qed.

(** The client when it has the server's answer. *)
Record client_done s s' (sh : MessageServerHello) (ms : list entry) (seq seq' : Z) (c c' : bytes) (share : KeyShareEntry) (k : Keypair) : Prop := {
  cd_answered : client_answered s s' sh share k;
  cd_secrets : secrets_of H13 (st_PreMasterSecret (h_state s')) (record ms (entry_of false seq (ServerHello sh) c)) = Ok (st_HandshakeTrafficSecrets13 (h_state s'));
  cd_transcript : holds H13 (transcript_of s') (record (record ms (entry_of false seq (ServerHello sh) c)) (entry_of false seq' (EncryptedExtensions []) c'))
}.

Lemma derive_secrets_spec cfg s ms cs : holds (CipherSuite.HashFunc cs) (transcript_of s) ms → st_CipherSuite (h_state s) = Some cs →
  wp (derive_secrets (context13 cfg)) (λ _ s', holds (CipherSuite.HashFunc cs) (transcript_of s') ms ∧ h_cache s' = h_cache s ∧
     ∃ secrets, secrets_of (CipherSuite.HashFunc cs) (st_PreMasterSecret (h_state s)) ms = Ok secrets ∧
       h_state s' = (h_state s) <| st_HandshakeTrafficSecrets13 := secrets |>) (λ r _, r.1.1 = None) s.
Proof.
  intros Hh Hcs. unfold derive_secrets, context13. cbn [handshakeTrafficSecretDeriver]. unfold wp.
  destruct (deriveAndStoreHandshakeTrafficSecrets13 _ _) as [[r st] t] eqn:E. unfold lift. destruct r as [[]| |]; [|done..].
  destruct (holds_derive _ _ _ _ _ _ _ Hh Hcs eq_refl E) as (Hh' & secrets & E1 & ->). unfold transcript_of. cbn [h_world h_cache h_state].
  rewrite transcript_set. split_and!; [done..|]. by exists secrets.
Qed.

Lemma encrypted_extensions_spec cfg s0 s ps p q seq seq' sh raw raw' ms start : answer_arrives cfg s0 s ps p q seq seq' sh raw raw' →
  ∀ s1, holds H13 (transcript_of s1) ms → hashes (st_CipherSuite (h_state s1)) H13 → h_cache s1 = h_cache s →
  wp (encrypted_extensions (context13 cfg) start) (λ r s', ∀ fl, r.1.1 = Some fl → seq' = u16 start ∧ ∃ c', canonicalHandshake13 raw' = Ok c' ∧
      holds H13 (transcript_of s') (record ms (entry_of false seq' (EncryptedExtensions []) c')) ∧
      ∃ n, h_state s' = (h_state s1) <| st_HandshakeRecvSequence := n |>) (λ r _, r.1.1 = None) s1.
Proof.
  intros [Ha [_ Hq] _ [He Hs] [_ Hep]] s1 Hh Hcs Hca. unfold encrypted_extensions. apply wp_bind, wp_pull_items. rewrite Hca.
  intros [[sq [msgs items]]|] Hp; [|done]. unfold epoch1 in Hp. cbn [x_cfg context13] in Hp. rewrite <- Hep in Hp.
  destruct (pull_packet _ _ _ _ _ _ _ _ _ _ _ _ _ _ Ha Hq He Hs extensions_encodable Hp) as (Hseq & _ & Hm & item & Hi & Hd & Hb).
  cbn [Message_Type] in Hm. rewrite Hm. apply wp_bind.
  eapply wp_mono; [by eapply (handle_inbound_spec H13 _ _ item s1 ms q seq' (EncryptedExtensions []) raw'); try apply extensions_encodable| |done].
  intros [] s2 (c' & Hc & Hh2 & Es & _). apply wp_bind, wp_modify. apply wp_val. intros fl _. split; [done|]. exists c'. rewrite Hb in Hh2.
  split_and!; [done|done|]. rewrite Es. by eexists.
Qed.

Lemma flight13_3Parse_spec cfg s0 s ps p q seq seq' sh raw raw' ms : answer_arrives cfg s0 s ps p q seq seq' sh raw raw' →
  holds H13 (transcript_of s) ms →
  wp (flight13_3Parse (context13 cfg)) (λ r s', ∀ fl, r.1.1 = Some fl →
      seq = u16 (st_HandshakeRecvSequence (h_state s)) ∧ seq' = u16 (st_HandshakeRecvSequence (h_state s) + 1) ∧
      ∃ c c' share k, canonicalHandshake13 raw = Ok c ∧ canonicalHandshake13 raw' = Ok c' ∧ client_done s s' sh ms seq seq' c c' share k)
    (λ r _, r.1.1 = None) s.
Proof.
  intros Haa Hh. pose proof Haa as [Ha [Hp _] (He & Hs & Hok) _ [Hep _]]. unfold flight13_3Parse. apply wp_bind, wp_gets. apply wp_bind, wp_pull_items.
  intros [[sq [msgs items]]|] Hpull; [|done]. unfold epoch0 in Hpull. cbn [x_cfg context13] in Hpull. rewrite <- Hep in Hpull.
  destruct (pull_packet _ _ _ _ _ _ _ _ _ _ _ _ _ _ Ha Hp He Hs Hok Hpull) as (Hseq & -> & Hm & item & Hi & Hd & Hb).
  cbn [Message_Type] in Hm. rewrite Hm. apply wp_bind. cbn [x_cfg context13]. eapply wp_mono; [apply server_hello13_spec| |done].
  intros [] s1 ((Et & Eca & Erecv) & share & k & Hans). apply wp_bind.
  eapply wp_mono; [eapply (handle_inbound_spec H13 _ _ item s1 ms p seq (ServerHello sh) raw); try done| |done]; [by rewrite Et|rewrite (ca_suite _ _ _ _ _ Hans); by intros ? [= <-]|].
  intros [] s2 (c & Hc & Hh2 & Es2 & Ec2). rewrite Hb in Hh2. apply wp_bind.
  eapply wp_mono; [apply (derive_secrets_spec cfg s2 _ _ Hh2); rewrite Es2; apply Hans| |done].
  intros [] s3 (Hh3 & Ec3 & secrets & Esec & Es3). eapply wp_mono; [eapply (encrypted_extensions_spec _ _ _ _ _ _ _ _ _ _ _ _ _ Haa s3)| |done].
  - exact Hh3.
  - rewrite Es3, Es2. st_simpl. rewrite (ca_suite _ _ _ _ _ Hans). by intros ? [= <-].
  - congruence.
  - intros r s4 Hr fl Hfl. destruct (Hr fl Hfl) as (Hseq' & c' & Hc' & Hh4 & n & Es4). split_and!; [done|by rewrite Hseq'|].
    exists c, c', share, k. split_and!; [done..|]. rewrite Es2 in Esec, Es3. rewrite Es3 in Es4.
    split; [|rewrite Es4; exact Esec|exact Hh4]. destruct Hans. by split; rewrite ?Es4.
Qed.

(** A HelloRetryRequest. *)
Definition retry_frame st st' : Prop :=
  st_IsClient st' = st_IsClient st ∧ st_HandshakeSendSequence st' = st_HandshakeSendSequence st ∧
  st_LocalKeyEntries st' = st_LocalKeyEntries st ∧ st_LocalKeypairs st' = st_LocalKeypairs st ∧ st_CipherSuite st' = st_CipherSuite st.

Lemma retry_extensions_frame exts st : retry_frame st (foldl (λ st ext, retry_extension ext st) st exts).
Proof.
  revert st. induction exts as [|e exts IH]; intros st; [done|]. cbn [foldl].
  assert (retry_frame st (retry_extension e st)) as (? & ? & ? & ? & ?). { destruct e; try done. cbn. by destruct (SelectedGroup k). }
  destruct (IH (retry_extension e st)) as (? & ? & ? & ? & ?). unfold retry_frame. split_and!; congruence.
Qed.

Lemma flight13_1Parse_spec cfg s0 s ps p seq sh raw ms : arrives false s0 s ps → p ∈ ps → encodes p seq (ServerHello sh) raw → is_u16 seq →
  encodable (ServerHello sh) → RecordHeader.Epoch (Flight12.pk_Header p) = cf_InitialEpoch cfg → holds H13 (transcript_of s) ms →
  if IsHelloRetryRequest sh then
    wp (flight13_1Parse (context13 cfg)) (λ r s', ∀ fl, r.1.1 = Some fl → fl = Flight3 ∧ seq = u16 (st_HandshakeRecvSequence (h_state s)) ∧
        sh_CipherSuiteID sh = Some CipherSuite.TLS_CHACHA20_POLY1305_SHA256 ∧
        retry_frame ((h_state s) <| st_CipherSuite := Some CipherSuite.TLSChacha20Poly1305Sha256 |>) (h_state s') ∧
        st_HandshakeRecvSequence (h_state s') = st_HandshakeRecvSequence (h_state s) + 1 ∧
        ∃ c, canonicalHandshake13 raw = Ok c ∧ holds H13 (transcript_of s') (record ms (entry_of false seq (ServerHello sh) c)))
      (λ r _, r.1.1 = None) s
  else ∀ Qv Qr, wp (flight13_3Parse (context13 cfg)) Qv Qr s → Qv keep_reading s → wp (flight13_1Parse (context13 cfg)) Qv Qr s.
Proof.
  intros Ha Hp He Hs Hok Hep Hh. assert (∀ start cs opt sq msgs items,
    FullPullMapItems (h_cache s) start cs [epoch0 cfg TypeServerHello false opt] = Ok (Some (sq, (msgs, items))) →
    seq = u16 start ∧ sq = start + 1 ∧ msgs !! TypeServerHello = Some (ServerHello sh) ∧ ∃ item, items = [item] ∧ it_Data item = raw ∧ it_IsClient item = false) as Hpull.
  { intros start cs opt sq msgs items. unfold epoch0. rewrite <- Hep. by apply (pull_packet false s0 s ps p seq (ServerHello sh) raw). }
  destruct (IsHelloRetryRequest sh) eqn:Er.
  - unfold flight13_1Parse. apply wp_bind, wp_gets. apply wp_bind, wp_pull_items. intros [[sq [msgs items]]|] E; [|done].
    destruct (Hpull _ _ _ _ _ _ E) as (Hseq & -> & -> & item & Hi & Hd & Hb). rewrite Er. cbn [negb]. destruct (_ && _); [done|].
    apply wp_bind, wp_lift; [|done]. intros [] _. apply wp_bind. eapply wp_mono; [apply selectServerHello_spec| |done]. intros cs s1 (-> & -> & Hid).
    apply wp_bind, wp_modify. apply wp_bind, wp_modify. cbn [h_state h_cache h_world h_keylog]. set (st1 := foldl _ _ _).
    assert (retry_frame ((h_state s) <| st_CipherSuite := Some CipherSuite.TLSChacha20Poly1305Sha256 |>) st1) as Hf.
    { exact (retry_extensions_frame (sh_Extensions sh) (choose_suite (Some CipherSuite.TLSChacha20Poly1305Sha256) (h_state s))). }
    clearbody st1. apply wp_bind.
    eapply wp_mono; [eapply (handle_inbound_spec H13 _ _ item _ ms p seq (ServerHello sh) raw); try done| |done].
    { cbn [h_state]. destruct Hf as (_ & _ & _ & _ & ->). by intros ? [= <-]. }
    intros [] s2 (c & Hc & Hh2 & Es2 & _). rewrite Hb in Hh2. apply wp_bind, wp_modify. apply wp_val. intros fl [= <-]. cbn [h_state] in *. rewrite Es2.
    split_and!; [done..|]. by exists c.
  - intros Qv Qr Hw Hn. unfold flight13_1Parse. apply wp_bind, wp_gets. apply wp_bind, wp_pull_items. intros [[sq [msgs items]]|] E; [|done].
    destruct (Hpull _ _ _ _ _ _ E) as (_ & _ & -> & _). by rewrite Er.
Qed.

(** ** The exchange *)

(** A new connection. *)
Record begins (isClient : bool) s : Prop := {
  bg_role : st_IsClient (h_state s) = isClient;
  bg_numbers : st_HandshakeSendSequence (h_state s) = 0 ∧ st_HandshakeRecvSequence (h_state s) = 0;
  bg_suite : st_CipherSuite (h_state s) = None;
  bg_keys : st_LocalKeypair (h_state s) = None ∧ st_HandshakeTrafficSecrets13 (h_state s) = MkTrafficSecrets [] [];
  bg_transcript : transcript_of s = newHandshakeTranscript13
}.

(** The packets' messages have fields in range. *)
Definition well_formed (p : Packet) : Prop := ∀ hd m, pk_Content p = HandshakeContent hd (Some m) → encodable m.

(** The hello messages of a handshake: each side prepares its flights, and the
    flights arrive at the other. *)
Inductive exchange13 (cfgC cfgS : HandshakeConfig W) : hs (W := W) → hs (W := W) → Prop :=
  | direct c0 c1 c2 c3 s0 s1 s2 s3 ch sh ee :
      begins true c0 → begins false s0 → Forall well_formed [ch; sh; ee] →
      generates cfgC Flight1 c0 c1 [ch] → arrives true s0 s1 [ch] → parses cfgS Flight0 s1 s2 Flight4 →
      generates cfgS Flight4 s2 s3 [sh; ee] → arrives false c1 c2 [sh; ee] → parses cfgC Flight1 c2 c3 Flight5 →
      exchange13 cfgC cfgS c3 s3
  | retried c0 c1 c2 c3 c4 c5 c6 s0 s1 s2 s3 s4 s5 s6 ch hrr ch2 sh ee :
      begins true c0 → begins false s0 → Forall well_formed [ch; hrr; ch2; sh; ee] →
      generates cfgC Flight1 c0 c1 [ch] → arrives true s0 s1 [ch] → parses cfgS Flight0 s1 s2 Flight2 →
      generates cfgS Flight2 s2 s3 [hrr] → arrives false c1 c2 [hrr] → parses cfgC Flight1 c2 c3 Flight3 →
      generates cfgC Flight3 c3 c4 [ch2] → arrives true s3 s4 [ch2] → parses cfgS Flight2 s4 s5 Flight4 →
      generates cfgS Flight4 s5 s6 [sh; ee] → arrives false c4 c5 [sh; ee] → parses cfgC Flight3 c5 c6 Flight5 →
      exchange13 cfgC cfgS c6 s6.

(** Configurations that can talk to each other: the client has no hook for its
    hello, and the epochs start at the same value. *)
Record compatible (cfgC cfgS : HandshakeConfig W) : Prop := {
  co_hook : cf_ClientHelloMessageHook cfgC = None;
  co_separate : separate cfgC;
  co_epoch : cf_InitialEpoch cfgC = cf_InitialEpoch cfgS ∧ is_u16 (cf_InitialEpoch cfgC)
}.

Context `{!KeyAgreementLaws}.

(** What the two sides have in common in the end: the suite, the premaster secret
    and the traffic secrets, which are those of the messages up to the ServerHello;
    their transcripts have the same messages. *)
Record agreed (c s : hs (W := W)) : Prop := {
  ag_suite : st_CipherSuite (h_state c) = Some CipherSuite.TLSChacha20Poly1305Sha256 ∧ st_CipherSuite (h_state s) = Some CipherSuite.TLSChacha20Poly1305Sha256;
  ag_premaster : st_PreMasterSecret (h_state c) = st_PreMasterSecret (h_state s);
  ag_secrets : st_HandshakeTrafficSecrets13 (h_state c) = st_HandshakeTrafficSecrets13 (h_state s);
  ag_messages : ∃ ms ee, runs (transcript_of c) (record ms ee) ∧ runs (transcript_of s) (record ms ee) ∧
    secrets_of H13 (st_PreMasterSecret (h_state c)) ms = Ok (st_HandshakeTrafficSecrets13 (h_state c))
}.

Lemma premaster_same (c2 c3 s2 : hs (W := W)) sh share k k' : keys_ready (h_state c2) → keyed (st_LocalKeyEntries (h_state c2)) (h_state s2) →
  st_LocalKeypair (h_state s2) = Some k → server_share (sh_Extensions sh) = Some (share_of k) → client_answered c2 c3 sh share k' →
  st_PreMasterSecret (h_state c3) = st_PreMasterSecret (h_state s2).
Proof.
  intros Hready (e & k1 & r' & He & Hk1 & Hcurve & Hgen & Hpms) Hk Hshare [Hs Hkey Hsec _ _ _ _]. rewrite Hk in Hk1. injection Hk1 as <-.
  rewrite Hshare in Hs. injection Hs as <-. cbn [share_of ks_Group ks_KeyExchange] in *. destruct (Hready e He) as (k2 & Hk2 & Hse & r & Hmade).
  rewrite Hcurve, Hk2 in Hkey. injection Hkey as ->. subst e. cbn [share_of ks_Group ks_KeyExchange] in *.
  rewrite Hcurve in Hsec. destruct (KeyExchange.premaster_agrees _ r r' k' k Hmade Hgen) as (z & Hz & Hz' & _). rewrite Hz in Hsec. congruence.
Qed.

Lemma sides_agree cfgS (c2 c3 s2 s3 : hs (W := W)) ps cs ms p q k raw c raw' c' share k' : keys_ready (h_state c2) →
  keyed (st_LocalKeyEntries (h_state c2)) (h_state s2) ∨ st_LocalKeypair (h_state s2) = None → known_suite cfgS cs → st_IsClient (h_state s2) = false →
  answered cfgS s2 s3 ps cs ms p q k raw c raw' c' →
  client_done c2 c3 (answer_hello cs (st_LocalRandom (h_state s2)) k) ms (u16 (st_HandshakeSendSequence (h_state s2)))
    (u16 (st_HandshakeSendSequence (h_state s2) + 1)) c c' share k' → agreed c3 s3.
Proof.
  intros Hready Hkeyed Hkn Hrole [_ Hk _ _ _ Hsec Htr [Hcs Hpms]] [Hans Hsec' Htr']. rewrite Hrole in Hsec, Htr.
  destruct Hkeyed as [Hkeyed|Hnone]; [|congruence]. assert (st_PreMasterSecret (h_state c3) = st_PreMasterSecret (h_state s2)) as Epms.
  { eapply premaster_same; [exact Hready|exact Hkeyed|exact Hk| |exact Hans]. done. }
  assert (cs = CipherSuite.TLSChacha20Poly1305Sha256) as ->.
  { apply (suite13_unique cfgS); [done|]. pose proof (ca_id _ _ _ _ _ Hans) as [= Eid]. by rewrite Eid. }
  change (CipherSuite.HashFunc CipherSuite.TLSChacha20Poly1305Sha256) with H13 in *.
  assert (st_HandshakeTrafficSecrets13 (h_state c3) = st_HandshakeTrafficSecrets13 (h_state s3)) as Es by (rewrite Epms, Hsec in Hsec'; congruence).
  split; [by split; [apply Hans|]|congruence|done|]. eexists _, _. split_and!; [apply Htr'|apply Htr|apply Hsec'].
Qed.

(** The client sends a hello. *)
Record hello_sent cfg s s' (ps : list Packet) (ms : list entry) (p : Packet) (ch : MessageClientHello) (raw c : bytes) : Prop := {
  hs_packet : ps = [p] ∧ RecordHeader.Epoch (Flight12.pk_Header p) = u16 (cf_InitialEpoch cfg);
  hs_encodes : encodes p (u16 (st_HandshakeSendSequence (h_state s))) (ClientHello ch) raw ∧ canonicalHandshake13 raw = Ok c;
  hs_transcript : holds H13 (transcript_of s') (record ms (entry_of (st_IsClient (h_state s)) (u16 (st_HandshakeSendSequence (h_state s))) (ClientHello ch) c));
  hs_offers : offers ch (st_LocalKeyEntries (h_state s'));
  hs_ready : encodable (ClientHello ch) → keys_ready (h_state s');
  hs_kept : st_IsClient (h_state s') = st_IsClient (h_state s) ∧ st_CipherSuite (h_state s') = st_CipherSuite (h_state s) ∧
    st_HandshakeSendSequence (h_state s') = st_HandshakeSendSequence (h_state s) + 1 ∧ st_HandshakeRecvSequence (h_state s') = st_HandshakeRecvSequence (h_state s)
}.

Lemma client_extensions13_offers cfg ecc entries : let l := client_extensions13 cfg ecc entries in
  Forall (shares_ok entries) l ∧ (∃ k, KeyShare k ∈ l) ∧ (Forall ext_ok l → NoDup (map ks_Group entries)).
Proof.
  cbv zeta. unfold client_extensions13. set (k := MkKeyShare _ None None).
  assert (default [] (ClientShares k) = entries) as Ek by (unfold k; cbn; by destruct entries). split_and!.
  - repeat (apply Forall_app; split); repeat constructor; try (destruct (_ : bool); repeat constructor). exact Ek.
  - exists k. rewrite !elem_of_app, !elem_of_cons. tauto.
  - intros Hall. rewrite !Forall_app in Hall. destruct Hall as (_ & _ & _ & _ & _ & Hk & _). apply Forall_cons in Hk as [[Hk _] _]. unfold k in Hk, Ek.
    destruct entries; [constructor|]. destruct Hk as (_ & Hn & _). exact Hn.
Qed.

Lemma hello_extensions_offers cfg fl st : let l := hello_extensions cfg fl st in
  Forall (shares_ok (st_LocalKeyEntries st)) l ∧ (∃ k, KeyShare k ∈ l) ∧ (Forall ext_ok l → NoDup (map ks_Group (st_LocalKeyEntries st))).
Proof.
  cbv zeta. unfold hello_extensions. destruct fl; try apply client_extensions13_offers.
  destruct (client_extensions13_offers cfg (negb (st_NamedCurve st =? 0)) (st_LocalKeyEntries st)) as (Hs & [k Hk] & Hn). split_and!.
  - apply Forall_app; split; [done|]. destruct (0 <? _); repeat constructor.
  - exists k. apply elem_of_app. by left.
  - intros [Hl _]%Forall_app. by apply Hn.
Qed.

Lemma generates_hello cfg fl s s' ps ms : (fl = Flight1 ∧ separate cfg ∨ fl = Flight3 ∧ keys_ready (h_state s)) → cf_ClientHelloMessageHook cfg = None →
  generates cfg fl s s' ps → holds H13 (transcript_of s) ms → hashes (st_CipherSuite (h_state s)) H13 →
  ∃ p ch raw c, hello_sent cfg s s' ps ms p ch raw c.
Proof.
  intros Hfl Hhook Hg Hh Hcs.
  assert (∃ gen rt, GetGenerator fl = Some (gen, rt) ∧ wp (gen cfg) (λ r s', r.1.2 = None ∧ (r.2 = None → hello_ready cfg fl r.1.1 s' ∧ client_frame s s'))
    (λ r s', r.1.2 = None ∧ r.2 ≠ None) s) as (gen & rt & Egen & Hw).
  { destruct Hfl as [[-> Hsep]|[-> Hk]]; eexists _, _; (split; [reflexivity|]); [by apply flight13_1Generate_spec|by apply flight13_3Generate_spec]. }
  pose (m := λ s1 : hs (W := W), ClientHello (client_hello_message cfg (h_state s1) (hello_extensions cfg fl (h_state s1)))).
  destruct (generates_clear cfg fl s s' ps gen rt H13 ms m
    (λ s1, client_frame s s1 ∧ (NoDup (map ks_Group (st_LocalKeyEntries (h_state s1))) → keys_ready (h_state s1))) Hg Egen)
    as (p & s1 & raw & c & -> & [(E1 & E2 & E3 & E4 & _) Hk1] & Hep & Henc & Hc & Hh' & [ep En] & _).
  - eapply wp_mono; [exact Hw| |done]. intros r s1 [Ha Hr]. split; [done|]. intros He. destruct (Hr He) as [[Hp Hk] Hf]. split; [|done].
    rewrite Hp. unfold client_hello13. by rewrite Hhook.
  - intros s1 [(_ & E2 & _ & _ & Et & _) _]. by rewrite E2, Et.
  - rewrite E1, E3 in *. destruct (hello_extensions_offers cfg fl (h_state s1)) as (Hs & Hks & Hn).
    exists p, (client_hello_message cfg (h_state s1) (hello_extensions cfg fl (h_state s1))), raw, c.
    split; rewrite ?En; st_simpl; try done. unfold keys_ready. st_simpl. intros [Hok _]. apply Hk1, Hn. apply (Hok 0).
Qed.

Lemma client_finishes cfg fl s0 s s' ps p q seq seq' sh raw raw' ms : fl = Flight1 ∨ fl = Flight3 → parses cfg fl s s' Flight5 →
  answer_arrives cfg s0 s ps p q seq seq' sh raw raw' → holds H13 (transcript_of s) ms →
  ∃ c c' share k, canonicalHandshake13 raw = Ok c ∧ canonicalHandshake13 raw' = Ok c' ∧ client_done s s' sh ms seq seq' c c' share k.
Proof.
  intros Hfl Hp Haa Hh. pose proof (flight13_3Parse_spec _ _ _ _ _ _ _ _ _ _ _ _ Haa Hh) as Hf3. pose proof Haa as [Ha [Hin _] (He & Hs & Hok) _ [Hep _]].
  destruct Hfl as [-> | ->].
  - pose proof (flight13_1Parse_spec cfg s0 s ps p seq sh raw ms Ha Hin He Hs Hok Hep Hh) as Hf1.
    destruct (IsHelloRetryRequest sh).
    + destruct (parses_inv _ _ _ _ _ _ _ _ Hp eq_refl Hf1 Flight5 eq_refl) as [? _]. done.
    + specialize (Hf1 _ _ Hf3). destruct (parses_inv _ _ _ _ _ _ _ _ Hp eq_refl (Hf1 ltac:(by intros fl [=])) Flight5 eq_refl) as (_ & _ & ?). done.
  - destruct (parses_inv _ _ _ _ _ _ _ _ Hp eq_refl Hf3 Flight5 eq_refl) as (_ & _ & ?). done.
Qed.

Lemma well_formed_encodable p seq m raw : well_formed p → encodes p seq m raw → encodable m.
Proof. intros Hw (hd & hd' & Hp & _). by eapply Hw. Qed.

Lemma is_u16_u16 z : is_u16 (u16 z).
Proof. unfold is_u16, u16. apply Z.mod_pos_bound. lia. Qed.

(** The server's last flight and its reading by the client. *)
Lemma last_flight cfgC cfgS c1 c2 c3 s0 s2 s3 fl fl' sh ee ms entries cs : compatible cfgC cfgS → Forall well_formed [sh; ee] →
  server_heard cfgS s0 s2 fl ms entries cs → st_HandshakeTrafficSecrets13 (h_state s0) = MkTrafficSecrets [] [] → st_IsClient (h_state s0) = false →
  generates cfgS Flight4 s2 s3 [sh; ee] → arrives false c1 c2 [sh; ee] → fl' = Flight1 ∨ fl' = Flight3 → parses cfgC fl' c2 c3 Flight5 →
  keys_ready (h_state c1) → st_LocalKeyEntries (h_state c1) = entries → holds H13 (transcript_of c1) ms → agreed c3 s3.
Proof.
  intros [_ _ [Hep Hu]] Hwf [[Hcs Hkn] Htr (Hrole & _ & Hsec) Hkeyed _] Hs0 Hr0 Hgen Harr Hfl Hparse Hready Hent Hh.
  destruct (generates_answer _ _ _ _ _ _ Hgen Hcs Htr) as (p & q & k & raw & c & raw' & c' & Han); [congruence|].
  pose proof Han as [[= <- <-] Hk [Hep1 Hep2] [Henc Hc] [Henc' Hc'] _ _ _]. pose proof Harr as (Est & Ettr & _).
  assert (answer_arrives cfgC c1 c2 [sh; ee] sh ee (u16 (st_HandshakeSendSequence (h_state s2))) (u16 (st_HandshakeSendSequence (h_state s2) + 1))
    (answer_hello cs (st_LocalRandom (h_state s2)) k) raw raw') as Haa.
  { apply Forall_cons in Hwf as [Hwf _]. split; [done| | | |].
    - split; apply elem_of_cons; [by left|right; by apply list_elem_of_singleton].
    - split_and!; [done|apply is_u16_u16|by eapply well_formed_encodable].
    - split; [done|apply is_u16_u16].
    - rewrite Hep1, Hep2, <- Hep. rewrite u16_small by done. split; [done|]. by rewrite Z.add_comm. }
  destruct (client_finishes _ _ _ _ _ _ _ _ _ _ _ _ _ ms Hfl Hparse Haa) as (cc & cc' & share & k' & Ecc & Ecc' & Hdone); [by rewrite Ettr|].
  rewrite Hc in Ecc. rewrite Hc' in Ecc'. injection Ecc as <-. injection Ecc' as <-.
  refine (sides_agree cfgS c2 c3 s2 s3 _ cs ms _ _ k _ _ _ _ _ _ _ _ Hkn _ Han Hdone); [by rewrite Est|by rewrite Est, Hent|congruence].
Qed.

(** The first hello and its reading by the server. *)
Lemma first_hello cfgC cfgS c0 c1 s0 s1 s2 ch fl : compatible cfgC cfgS → begins true c0 → begins false s0 → well_formed ch →
  generates cfgC Flight1 c0 c1 [ch] → arrives true s0 s1 [ch] → parses cfgS Flight0 s1 s2 fl →
  ∃ ms cs, server_heard cfgS s0 s2 (Some fl) ms (st_LocalKeyEntries (h_state c1)) cs ∧ st_HandshakeRecvSequence (h_state s2) = 1 ∧
    holds H13 (transcript_of c1) ms ∧ keys_ready (h_state c1) ∧ st_IsClient (h_state c1) = true ∧
    st_HandshakeSendSequence (h_state c1) = 1 ∧ st_HandshakeRecvSequence (h_state c1) = 0.
Proof.
  intros [Hhook Hsep [Hep Hu]] [Hcr [Hcn Hcn'] Hccs _ Hct] [Hsr [Hsn _] _ [Hsk Hss] Hst] Hwf Hg1 Ha1 Hp1. pose proof Ha1 as (Es1 & Et1 & _).
  destruct (generates_hello cfgC Flight1 c0 c1 [ch] []) as (p & m & raw & cc & Hsent); [by left|done|done|rewrite Hct; apply holds_new|by rewrite Hccs|].
  destruct Hsent as [[[= <-] Hpe] [Henc Hcan] Htr Hof Hre (Hk1 & Hk2 & Hk3 & Hk4)].
  pose proof (well_formed_encodable _ _ _ _ Hwf Henc) as Hok. rewrite Hcn, Hcr in *. change (u16 0) with 0 in *.
  assert (hello_arrives cfgS s0 s1 [ch] ch 0 m raw) as Hha.
  { split; [done|by apply list_elem_of_singleton|done|done|done|]. rewrite Hpe, <- Hep. by apply u16_small. }
  pose proof (flight13_0Parse_spec cfgS s0 s1 [ch] ch 0 m raw _ Hha Hof) as Hparse. rewrite Es1 in Hparse.
  destruct (parses_inv _ _ _ _ _ _ _ _ Hp1 eq_refl (Hparse Hsk ltac:(congruence)) fl eq_refl) as (_ & Hrecv & cs & cc' & Ecc & Hheard).
  rewrite Hcan in Ecc. injection Ecc as <-. eexists _, cs. split_and!; [|done|exact Htr|by apply Hre|done|done|congruence].
  destruct Hheard. rewrite Es1 in *. by split.
Qed.

(** The HelloRetryRequest and the second hello. *)
Lemma second_hello cfgC cfgS c1 c2 c3 c4 s0 s2 s3 s4 s5 hrr ch2 ms cs : compatible cfgC cfgS → Forall well_formed [hrr; ch2] →
  server_heard cfgS s0 s2 (Some Flight2) ms (st_LocalKeyEntries (h_state c1)) cs → st_HandshakeRecvSequence (h_state s2) = 1 → st_IsClient (h_state s0) = false →
  st_HandshakeTrafficSecrets13 (h_state s0) = MkTrafficSecrets [] [] →
  holds H13 (transcript_of c1) ms → keys_ready (h_state c1) → st_IsClient (h_state c1) = true → st_HandshakeSendSequence (h_state c1) = 1 → st_HandshakeRecvSequence (h_state c1) = 0 →
  generates cfgS Flight2 s2 s3 [hrr] → arrives false c1 c2 [hrr] → parses cfgC Flight1 c2 c3 Flight3 →
  generates cfgC Flight3 c3 c4 [ch2] → arrives true s3 s4 [ch2] → parses cfgS Flight2 s4 s5 Flight4 →
  ∃ ms', server_heard cfgS s4 s5 None ms' (st_LocalKeyEntries (h_state c4)) cs ∧ st_IsClient (h_state s4) = false ∧
    st_HandshakeTrafficSecrets13 (h_state s4) = MkTrafficSecrets [] [] ∧ holds H13 (transcript_of c4) ms' ∧ keys_ready (h_state c4).
Proof.
  intros [Hhook Hsep [Hep Hu]] Hwf [[Hcs Hkn] Htr (Hrole & _ & Hsec) _ Hnokey] Hrecv Hs0 Hss Hct Hready Hcr Hcn Hcv Hg2 Ha2 Hp2 Hg3 Ha3 Hp3.
  apply Forall_cons in Hwf as [Hwf1 Hwf]. apply Forall_cons in Hwf as [Hwf2 _].
  destruct (generates_retry _ _ _ _ _ _ Hg2 Hcs Htr) as (p & raw & cc & [= <-] & Hpe & Henc & Hcan & Htr3 & ep & Es3).
  pose proof Ha2 as (Ec2 & Et2 & _). pose proof Ha3 as (Es4 & Et4 & _). pose proof (well_formed_encodable _ _ _ _ Hwf1 Henc) as Hok1.
  pose proof (flight13_1Parse_spec cfgC c1 c2 [hrr] hrr 0 (retry_hello cs (h_state s2)) raw ms Ha2 (proj2 (list_elem_of_singleton _ _) eq_refl) Henc) as Hparse.
  change (IsHelloRetryRequest _) with true in Hparse. cbv iota in Hparse.
  destruct (parses_inv _ _ _ _ _ _ _ _ Hp2 eq_refl (Hparse ltac:(done) Hok1 ltac:(by rewrite Hpe, <- Hep, u16_small) ltac:(by rewrite Et2)) Flight3 eq_refl)
    as (_ & _ & [= Hid] & (F1 & F2 & F3 & F4 & F5) & _ & cc' & Ecc & Htr3'). rewrite Hcan in Ecc. injection Ecc as <-. rewrite Ec2 in *.
  assert (cs = CipherSuite.TLSChacha20Poly1305Sha256) as -> by (apply (suite13_unique cfgS); [done|by rewrite Hid]).
  change (CipherSuite.HashFunc CipherSuite.TLSChacha20Poly1305Sha256) with H13 in *.
  rewrite Hrole, Hs0 in Htr3. set (ms2 := record ms _) in Htr3, Htr3'. clearbody ms2.
  destruct (generates_hello cfgC Flight3 c3 c4 [ch2] ms2) as (p & m & raw2 & cc2 & Hsent);
    [right; split; [done|]; unfold keys_ready; by rewrite F3, F4|done|done|done|rewrite F5; by intros ? [= <-]|].
  destruct Hsent as [[[= <-] Hpe2] [Henc2 Hcan2] Htr4 Hof Hre _]. pose proof (well_formed_encodable _ _ _ _ Hwf2 Henc2) as Hok2.
  rewrite F1, F2 in *. change (st_IsClient (_ <| _ := _ |>)) with (st_IsClient (h_state c1)) in Htr4.
  change (st_HandshakeSendSequence (_ <| _ := _ |>)) with (st_HandshakeSendSequence (h_state c1)) in Henc2, Htr4. rewrite Hcr, Hcn in *. change (u16 1) with 1 in *.
  assert (hello_arrives cfgS s3 s4 [ch2] ch2 1 m raw2) as Hha.
  { split; [done|by apply list_elem_of_singleton|done|done|done|]. rewrite Hpe2, <- Hep. by apply u16_small. }
  assert (h_state s4 = (h_state s2) <| st_HandshakeSendSequence := 1 |> <| st_LocalEpoch := ep |>) as Es by congruence.
  pose proof (flight13_2Parse_spec cfgS s3 s4 [ch2] ch2 1 m raw2 _ ms2 CipherSuite.TLSChacha20Poly1305Sha256 Hha Hof) as Hparse2. rewrite Es in Hparse2.
  destruct (parses_inv _ _ _ _ _ _ _ _ Hp3 eq_refl (Hparse2 (Hnokey eq_refl) Hcs Hkn ltac:(by rewrite Et4)) Flight4 eq_refl) as (_ & _ & cc3 & Ecc & Hheard2).
  rewrite Hcan2 in Ecc. injection Ecc as <-. eexists. split_and!; [exact Hheard2| | |exact Htr4|by apply Hre]; rewrite Es; st_simpl; congruence.
Qed.

(** ** Properties *)

(** C19: client and server agree.  Whenever a client and a server of this library
    have exchanged their hello messages, directly or after a HelloRetryRequest
    with a second hello, so that the client has accepted the server's answer, both
    have chosen the same suite and hold the same premaster secret and the same
    handshake traffic secrets.  These are derived from the transcript up to the
    ServerHello, and both transcripts contain the same messages.  The messages
    are those that each side prepared, delivered unchanged. *)
Theorem handshake13_agrees cfgC cfgS c s : compatible cfgC cfgS → exchange13 cfgC cfgS c s → agreed c s.
Proof.
  intros Hco Hex.
  destruct Hex as [c0 c1 c2 c3 s0 s1 s2 s3 ch sh ee Hc0 Hs0 Hwf Hg1 Ha1 Hp1 Hg2 Ha2 Hp2|c0 c1 c2 c3 c4 c5 c6 s0 s1 s2 s3 s4 s5 s6 ch hrr ch2 sh ee Hc0 Hs0 Hwf Hg1 Ha1 Hp1 Hg2 Ha2 Hp2 Hg3 Ha3 Hp3 Hg4 Ha4 Hp4].
  - apply Forall_cons in Hwf as [Hwf1 Hwf].
    destruct (first_hello _ _ _ _ _ _ _ _ _ Hco Hc0 Hs0 Hwf1 Hg1 Ha1 Hp1) as (ms & cs & Hheard & _ & Htr & Hready & _).
    pose proof Hs0 as [Hsr _ _ [_ Hss] _].
    exact (last_flight cfgC cfgS c1 c2 c3 s0 s2 s3 _ Flight1 sh ee ms _ cs Hco Hwf Hheard Hss Hsr Hg2 Ha2 (or_introl eq_refl) Hp2 Hready eq_refl Htr).
  - apply Forall_cons in Hwf as [Hwf1 Hwf]. apply Forall_cons in Hwf as [Hwf2 Hwf]. apply Forall_cons in Hwf as [Hwf3 Hwf].
    destruct (first_hello _ _ _ _ _ _ _ _ _ Hco Hc0 Hs0 Hwf1 Hg1 Ha1 Hp1) as (ms & cs & Hheard & Hrecv & Htr & Hready & Hcr & Hcn & Hcv).
    assert (Forall well_formed [hrr; ch2]) as Hwf' by (apply Forall_cons; split; [exact Hwf2|apply Forall_singleton; exact Hwf3]). pose proof Hs0 as [Hsr _ _ [_ Hss] _].
    destruct (second_hello _ _ _ _ _ _ _ _ _ _ _ _ _ _ _ Hco Hwf' Hheard Hrecv Hsr Hss Htr Hready Hcr Hcn Hcv Hg2 Ha2 Hp2 Hg3 Ha3 Hp3) as (ms' & Hheard' & Hr4 & Hs4 & Htr' & Hready').
    exact (last_flight cfgC cfgS c4 c5 c6 s4 s5 s6 None Flight3 sh ee ms' _ cs Hco Hwf Hheard' Hs4 Hr4 Hg4 Ha4 (or_intror eq_refl) Hp4 Hready' eq_refl Htr').
Qed.

End sides.
End Agreement13.
