(* ===== verification/Run13.v ===== *)
(** * Runs of the DTLS 1.3 handshake

    What the server's flights do with cookies, how long the state machine runs, and
    a concrete exchange between a client and a server. *)
From stdpp Require Import base tactics numbers list strings gmap.
From Stdlib Require Import ZArith Lia.
From S2P Require Import Prelude Sha2 Wire SignatureHash HandshakeCrypto Prf Record CipherSuite Extensions Fragment Handshake HandshakeState FlightCache Flight12 Flight12Auth Handshaker Flight13 Transcript13 Handshaker13 Agreement13.
Import Protocol SignatureHash HandshakeCrypto Extension Handshake HandshakeHeader State Config Flight Selection AlertDescription Transcript13.
Import Flight12 (hs, MkHs, h_state, h_cache, h_world, h_keylog, M, out, Val, Ret, Crash, Packet, pk_Content, pk_ShouldEncrypt, HandshakeContent, plain,
  gresult, packets, fatal, val, ret, gets, modify, lift, act, Populate, epoch0, epoch1, choose_suite).
Import Flight12Auth Flight13 Handshaker13 Agreement13.
Import Handshaker (flightConn, handshakeState, handshakeErrored, handshakePreparing, handshakeSending, handshakeWaiting, handshakeFinished, notify_alert, number_packets, with_state).
Import KeyExchange (GenerateKeypair, GenerateKeypairForPeer, PreMasterSecret, Keypair, kp_Curve, kp_PublicKey, kp_PrivateKey, KeyAgreement, KeyAgreementLaws).
Open Scope Z_scope.

Module Run13.

Section cookies.
Context {W : Type} `{World W} `{Unicode} `{PKI} `{KeyAgreement} `{Ciphers} `{Cryptobyte}.
Abbreviation hs := (Flight12.hs (W := W)).
Implicit Types s : hs.

(** The steps of the server that leave its cookie and its cache as they are, and
    end the flight only with an error. *)
Definition cookie_of s : bytes := st_Cookie (h_state s).
Definition steady {A} (m : M (W := W) presult A) : Prop :=
  ∀ s, wp m (λ _ s', cookie_of s' = cookie_of s ∧ h_cache s' = h_cache s) (λ r _, r.1.1 = None) s.

Lemma steady_bind {A B} (m : M (W := W) presult A) (k : A → M (W := W) presult B) : steady m → (∀ a, steady (k a)) → steady (m ≫= k).
Proof.
  intros Hm Hk s. apply wp_bind. eapply wp_mono; [apply Hm| |done]. intros a s1 [Hc1 Hi1].
  eapply wp_mono; [apply Hk| |done]. intros b s2 [Hc2 Hi2]. split; congruence.
Qed.

Lemma steady_process_extensions cfg exts seen : steady (process_extensions cfg seen exts).
Proof.
  revert seen. induction exts as [|e es IH]; intros seen; [done|]. cbn [process_extensions].
  apply steady_bind; [unfold processClientHello13SecurityExtension; intros s; by wp_run|intros seen1]. apply steady_bind; [|intros _; apply IH].
  intros s. apply wp_modify. unfold cookie_of, processClientHello13StateExtension. cbn [h_state h_cache]. by destruct e; repeat case_match.
Qed.

Lemma steady_process cfg ch : steady (processClientHello13Extensions cfg ch).
Proof. apply steady_bind; [apply steady_process_extensions|]. intros seen s. by destruct (_ && _). Qed.

Lemma steady_key_share cfg : steady (generateClientKeyShareSecret13 cfg).
Proof. intros s. unfold generateClientKeyShareSecret13. by wp_run. Qed.

Lemma steady_inbound x items : steady (handle_inbound x items).
Proof. intros s. unfold handle_inbound. by wp_run. Qed.

(** A ClientHello of the cache with a cookie. *)
Definition hello_with_cookie13 s (cookie : bytes) : Prop :=
  cookie ≠ [] ∧ ∃ i kx hd ch, i ∈ h_cache s ∧ it_IsClient i = true ∧ it_Typ i = TypeClientHello ∧
    Handshake_Unmarshal kx (it_Data i) = Ok (hd, ClientHello ch) ∧ clientHello13Cookie (ch_Extensions ch) = cookie.

Lemma pulled_hello (cfg : HandshakeConfig W) s start cs sq msgs items ch : FullPullMapItems (h_cache s) start cs [epoch0 cfg TypeClientHello true false] = Ok (Some (sq, (msgs, items))) →
  msgs !! TypeClientHello = Some (ClientHello ch) →
  ∃ i kx hd, i ∈ h_cache s ∧ it_IsClient i = true ∧ it_Typ i = TypeClientHello ∧ Handshake_Unmarshal kx (it_Data i) = Ok (hd, ClientHello ch).
Proof.
  intros Hp Hm. assert (FullPullMap (h_cache s) start cs [epoch0 cfg TypeClientHello true false] = Ok (Some (sq, msgs))) as Hp' by (unfold FullPullMap; by rewrite Hp).
  destruct (FullPullMap_lookup _ _ _ _ _ _ _ _ Hp' Hm) as (r & i & seq0 & Hr & _ & Hi & Hmatch & hd & Hu & _).
  apply list_elem_of_singleton in Hr as ->. unfold cacheItemMatchesRule in Hmatch. rewrite !andb_true_iff, bool_decide_eq_true, !Z.eqb_eq in Hmatch.
  destruct Hmatch as [[Ht Hb] _]. by exists i, (keyExchangeAlgorithmForCipherSuite cs), hd.
Qed.

Lemma flight13_2Parse_cookie (x : handshakeContext13) s :
  wp (flight13_2Parse x) (λ r _, ∀ fl, r.1.1 = Some fl → fl = Flight4 ∧ hello_with_cookie13 s (cookie_of s)) (λ r _, r.1.1 = None) s.
Proof.
  unfold flight13_2Parse. apply wp_bind, wp_gets. apply wp_bind, wp_pull_items. intros [[sq [msgs items]]|] Hp; [|done].
  destruct (msgs !! TypeClientHello) as [[ch| | | | | | | | | | | |]|] eqn:Em; try done. destruct (negb _); [done|]. cbv zeta.
  destruct (Z.eqb_spec (len (clientHello13Cookie (ch_Extensions ch))) 0) as [|Hne]; [done|]. apply wp_bind, wp_gets. destruct (bool_decide _) eqn:Eck; [|done].
  apply bool_decide_eq_true in Eck. cbn [negb].
  assert (hello_with_cookie13 s (cookie_of s)) as Hc.
  { unfold cookie_of. rewrite Eck. split; [by intros E; rewrite E in Hne|]. destruct (pulled_hello _ _ _ _ _ _ _ _ Hp Em) as (i & kx & hd & ? & ? & ? & ?). by exists i, kx, hd, ch. }
  apply wp_bind. eapply wp_mono; [apply steady_process|intros _ s1 _|done]. apply wp_bind. eapply wp_mono; [apply steady_key_share|intros _ s2 _|done].
  apply wp_bind. eapply wp_mono; [apply steady_inbound|intros _ s3 _|done]. apply wp_bind, wp_modify. apply wp_val. by intros fl [= <-].
Qed.

(** The first ClientHello does not change the cookie, and leads to flight 4 only
    when hellos need not be verified. *)
Lemma flight13_0Parse_cookie (x : handshakeContext13) s :
  wp (flight13_0Parse x) (λ r s', (cookie_of s' = cookie_of s ∧ h_cache s' = h_cache s) ∧ (r.1.1 = Some Flight4 → cf_InsecureSkipHelloVerify (x_cfg x) = true)) (λ r _, r.1.1 = None) s.
Proof.
  unfold flight13_0Parse. apply wp_bind, wp_gets. destruct (bool_decide _); [done|]. apply wp_bind, wp_pull_items. intros [[sq [msgs items]]|] _; [|done].
  apply wp_bind, wp_modify. destruct (msgs !! TypeClientHello) as [[ch| | | | | | | | | | | |]|]; try done. apply wp_bind.
  apply (wp_mono _ (λ fl s1, (cookie_of s1 = cookie_of s ∧ h_cache s1 = h_cache s) ∧ (fl = Flight4 → cf_InsecureSkipHelloVerify (x_cfg x) = true)) _ (λ r _, r.1.1 = None)); [| |done].
  - unfold client_hello_parse. destruct (negb _); [done|]. apply wp_bind, wp_modify. apply wp_bind, wp_modify. destruct (FindMatchingCipherSuite _ _); [|done].
    apply wp_bind. eapply wp_mono; [apply steady_process|intros _ s1 [Hc1 Hi1]|done]. apply wp_bind, wp_gets. destruct (negb _); [done|].
    apply wp_bind, wp_modify. destruct (_ && _); [done|]. apply wp_bind, wp_modify. apply wp_bind, wp_gets.
    assert (∀ st, st_Cookie (selectClientKeyShare13 (x_cfg x) st) = st_Cookie st) as Hsel by (intros st; unfold selectClientKeyShare13; by repeat case_match).
    set (s2 := MkHs _ _ _ _). assert (cookie_of s2 = cookie_of s ∧ h_cache s2 = h_cache s) as [Hc2 Hi2].
    { subst s2. unfold cookie_of in *. cbn [h_state h_cache]. rewrite Hsel. cbn in Hc1, Hi1. by case_match. }
    destruct (cf_InsecureSkipHelloVerify (x_cfg x)); [|by apply wp_val]. destruct (matchingClientKeyShare13 _ _); [|by apply wp_val].
    apply wp_bind. eapply wp_mono; [apply steady_key_share|intros _ s3 [Hc3 Hi3]|done]. apply wp_val. split; [split; congruence|done].
  - intros fl s1 [[Hc1 Hi1] Hfl]. apply wp_bind. eapply wp_mono; [apply steady_inbound|intros _ s2 [Hc2 Hi2]|done]. apply wp_val.
    split; [split; congruence|]. by intros [= ->]; apply Hfl.
Qed.

(** a DTLS 1.3 server answers a client with its ServerHello only after the
    client has returned the server's cookie, unless the configuration says that the
    server need not verify hellos: from its first flight it goes to flight 4 only in that case, and from flight 2 only when a
    ClientHello of the cache has the server's own, non-empty cookie. *)
Theorem server13_requires_cookie (x : handshakeContext13) s s' fl :
  (flight13_0Parse x s = (Val (next Flight4), s') → cf_InsecureSkipHelloVerify (x_cfg x) = true) ∧
  (flight13_2Parse x s = (Val (next fl), s') → fl = Flight4 ∧ hello_with_cookie13 s (st_Cookie (h_state s))).
Proof.
  split; intros E.
  - pose proof (flight13_0Parse_cookie x s) as Hw. unfold wp in Hw. rewrite E in Hw. by apply Hw.
  - pose proof (flight13_2Parse_cookie x s) as Hw. unfold wp in Hw. rewrite E in Hw. by apply Hw.
Qed.

End cookies.

Section machine.
Context `{Cryptobyte} `{Ciphers} `{KeyAgreement} `{PKI} {W : Type} `{World W} `{TranscriptStore W}.
Abbreviation hs := (Flight12.hs (W := W)).
Implicit Types (s : hs) (cfg : HandshakeConfig W).

(** Preparing a flight changes the cookie only where its generator does. *)
Lemma append_flights_cookie ps s s' : append_flights ps s = (Ok tt, s') → cookie_of s' = cookie_of s.
Proof.
  unfold append_flights, append_outbound, derive_if_missing, deriveAndStoreHandshakeTrafficSecrets13, run_op, cookie_of.
  intros E. repeat (case_match; simplify_eq; try done).
Qed.

Lemma generates_cookie cfg fl s s' ps gen rt : generates cfg fl s s' ps → GetGenerator fl = Some (gen, rt) →
  wp (gen cfg) (λ r s1, r.1.2 = None ∧ (r.2 = None → cookie_of s1 = cookie_of s)) (λ r s1, r.1.2 = None ∧ r.2 ≠ None) s → cookie_of s' = cookie_of s.
Proof.
  intros Hg Hgen Hw. destruct (generates_inv cfg fl s s' ps gen rt (λ _ s1, cookie_of s1 = cookie_of s) Hg Hgen Hw)
    as (pkts & s1 & e & ss & s2 & Hc & _ & Ha%append_flights_cookie & [ep Hep] & _). unfold cookie_of in *. rewrite Hep. st_simpl. by rewrite Ha.
Qed.

(** The extensions of a packet's message. *)
Definition packet_extensions (p : Packet) : list Extension :=
  match pk_Content p with
  | HandshakeContent _ (Some (ServerHello sh)) => sh_Extensions sh
  | _ => []
  end.

Lemma number_packets_extensions e ne ss pkts ps e' ss' : number_packets e ne ss pkts = (ps, e', ss') →
  packet_extensions <$> ps = packet_extensions <$> pkts.
Proof.
  revert ne ss ps e' ss'. induction pkts as [|p pkts IH]; intros ne ss ps e' ss'; cbn [number_packets]; [by intros [= <- _ _]|]. cbv zeta.
  destruct (match pk_Content p with HandshakeContent _ _ => _ | _ => _ end) as [content ss1] eqn:Ec.
  destruct (number_packets _ _ _ pkts) as [[ps1 e1] ss2] eqn:En. intros [= <- _ _]. rewrite !fmap_cons. f_equal; [|by eapply IH].
  unfold packet_extensions. cbn [pk_Content Flight12.pk_Content]. by destruct (pk_Content p); simplify_eq.
Qed.

Lemma retry_packets cfg s s' ps : generates cfg Flight2 s s' ps → cookie_of s = [] → Forall (λ p, ∀ c, CookieExt c ∉ packet_extensions p) ps.
Proof.
  intros Hg Hc. unfold cookie_of in Hc. pose (plain := λ exts : list Extension, ∀ c, CookieExt c ∉ exts : Prop).
  destruct (generates_inv cfg Flight2 s s' ps flight13_2Generate false (λ pkts _, Forall plain (packet_extensions <$> pkts)) Hg eq_refl)
    as (pkts & s1 & e & ss & s2 & Hq & Hn%number_packets_extensions & _); [|by rewrite <- Hn, Forall_fmap in Hq].
  unfold flight13_2Generate. apply wp_bind, wp_modify. apply wp_bind, wp_gets. cbn [h_state id]. st_simpl. rewrite Hc.
  destruct (st_CipherSuite _); [|by apply wp_val]. apply wp_val. split; [done|]. intros _. apply Forall_singleton. intros ck.
  unfold packet_extensions. cbn. destruct (_ =? 0); cbn; rewrite !elem_of_cons, elem_of_nil; intros Hck; repeat destruct Hck as [Hck|Hck]; done.
Qed.

(** a server that does not verify hellos cannot retry.  If such a server,
    new, answers the first ClientHello with a HelloRetryRequest, the request
    has no cookie, and from then on no message whatever lets the server go on:
    it ignores every ClientHello without a cookie and refuses every other one. *)
Theorem unverified_retry_hangs cfg s0 s1 s2 s3 s4 s5 s6 ps ps' fl :
  cf_InsecureSkipHelloVerify cfg = true → st_Cookie (h_state s0) = [] →
  generates cfg Flight0 s0 s1 ps → h_state s2 = h_state s1 → parses cfg Flight0 s2 s3 Flight2 →
  generates cfg Flight2 s3 s4 ps' → h_state s5 = h_state s4 →
  Forall (λ p, ∀ c, CookieExt c ∉ packet_extensions p) ps' ∧ ¬ parses cfg Flight2 s5 s6 fl.
Proof.
  intros Hskip H0c Hg0 E2 Hp0 Hg2 E5.
  assert (cookie_of s1 = []) as H1c.
  { transitivity (cookie_of s0); [|done]. eapply generates_cookie; [done..|]. unfold flight13_0Generate. rewrite Hskip.
    apply wp_bind, wp_val. unfold Populate. by wp_run. }
  assert (cookie_of s3 = []) as H3c.
  { pose proof (parses_inv _ _ _ _ _ _ _ _ Hp0 eq_refl (flight13_0Parse_cookie (context13 cfg) s2)) as [[Hc _] _]. rewrite Hc. unfold cookie_of. by rewrite E2. }
  split; [by eapply retry_packets|]. intros Hp2.
  destruct (parses_inv _ _ _ _ _ _ _ _ Hp2 eq_refl (flight13_2Parse_cookie (context13 cfg) s5) fl eq_refl) as (_ & Hne & _). apply Hne.
  unfold cookie_of. rewrite E5. transitivity (cookie_of s3); [|done]. eapply generates_cookie; [done..|].
  unfold flight13_2Generate. by wp_run.
Qed.

(** A flight is ready to be sent, or there is an error. *)
Lemma prepare_ends (c : flightConn) cfg f q f' : prepare c cfg f = Some (q, f') → q = handshakeSending ∨ ∃ e, q = handshakeErrored e.
Proof.
  assert (∀ rt r s1, committed c cfg f rt r s1 = Some (q, f') → q = handshakeSending ∨ ∃ e, q = handshakeErrored e) as Hc.
  { intros rt [[pkts a] err] s1. unfold committed. destruct (notify_alert c a err s1) as [[[e|] s2]|]; cbn [mbind option_bind]; [naive_solver| |done].
    destruct (commitPreparedFlights _ _) as [[]]; naive_solver. }
  unfold prepare. destruct (GetGenerator _) as [[gen rt]|]; [|apply Hc]. destruct (gen cfg (f13_hs f)) as [[]]; [apply Hc..|done].
Qed.

(** the state machine of DTLS 1.3 stops after at most two rounds, with an
    error or a panic: sending a flight is not implemented, so that no handshake of
    DTLS 1.3 completes.  A machine that is prepared stops with this very error. *)
Theorem handshake13_terminates (c : flightConn) cfg q (f : handshakeFSM13 (W := W)) fuel : (2 ≤ fuel)%nat →
  (∃ r f', Run fuel c cfg q f = Some (r, f')) ∧
  ∀ f1, prepare c cfg f = Some (handshakeSending, f1) → Run fuel c cfg handshakePreparing f = Some (Returned ErrStateUnimplemented13, f1).
Proof.
  destruct fuel as [|[|fuel]]; [lia..|]. intros _. split; [|intros f1 E; cbn [Run step13]; by rewrite E].
  destruct q; cbn [Run step13 unimplemented]; eauto. destruct (prepare c cfg f) as [[q f1]|] eqn:E; [|eauto].
  destruct (prepare_ends _ _ _ _ _ E) as [->|[e ->]]; cbn; eauto.
Qed.

End machine.

(** ** A concrete exchange *)

Section scheduler.
Context `{Cryptobyte} `{Ciphers} `{KeyAgreement} `{PKI} {W : Type} `{World W} `{TranscriptStore W}.
Abbreviation hs := (Flight12.hs (W := W)).
Implicit Types (s : hs) (cfg : HandshakeConfig W).

(** A side prepares a flight; a side takes a flight and parses it. *)
Definition gen13 (c : flightConn) cfg fl s : option (hs * list Packet) :=
  match prepare c cfg (MkFSM13 fl [] false 0 s) with
  | Some (handshakeSending, f) => Some (f13_hs f, f13_flights f)
  | _ => None
  end.

Definition packet_item (fromClient : bool) (p : Packet) : option HandshakeCacheItem :=
  match pk_Content p with
  | HandshakeContent hd (Some m) =>
      match Handshake_Marshal hd (Some m) with
      | Ok (_, raw) => Some (MkItem (Message_Type m) fromClient (RecordHeader.Epoch (Flight12.pk_Header p)) (MessageSequence hd) raw)
      | _ => None
      end
  | _ => None
  end.

Definition deliver (fromClient : bool) (ps : list Packet) s : hs := MkHs (h_state s) (h_cache s ++ omap (packet_item fromClient) ps) (h_world s) (h_keylog s).

Definition last_of_kind s (fromClient : bool) (p : Packet) : bool :=
  match packet_item fromClient p with
  | Some i => bool_decide (lastCacheItemForRule (h_cache s) (MkRule (it_Typ i) (it_Epoch i) fromClient false) = Some i)
  | None => true
  end.

Definition parse13 cfg (fl fl' : Flight13.Flight) (fromClient : bool) (ps : list Packet) s : option hs :=
  let s1 := deliver fromClient ps s in
  if forallb (last_of_kind s1 fromClient) ps then
    match Parse fl with
    | Some parse => match parse (context13 cfg) s1 with (Val (Some fl1, None, None), s2) => if bool_decide (fl1 = fl') then Some s2 else None | _ => None end
    | None => None
    end
  else None.

Lemma gen13_sound c cfg fl s s' ps : gen13 c cfg fl s = Some (s', ps) → generates cfg fl s s' ps.
Proof.
  unfold gen13. destruct (prepare _ _ _) as [[q f]|] eqn:E; [|done]. destruct q; try done. intros [= <- <-].
  by exists c, (MkFSM13 fl [] false 0 s), f.
Qed.

Lemma parse13_sound cfg fl fl' fromClient ps s s' : parse13 cfg fl fl' fromClient ps s = Some s' →
  arrives fromClient s (deliver fromClient ps s) ps ∧ parses cfg fl (deliver fromClient ps s) s' fl'.
Proof.
  unfold parse13. cbv zeta. destruct (forallb _ _) eqn:Ef; [|done]. destruct (Parse fl) as [parse|] eqn:Ep; [|done].
  destruct (parse _ _) as [[[[[fl1|] [|]] [|]]| |] s2] eqn:E; try done. destruct (bool_decide_reflect (fl1 = fl')) as [->|]; [|done]. intros [= <-].
  split; [|by exists parse]. split; [done|]. split; [done|]. intros p seq m raw Hp (hd & hd' & Hc & _ & _ & Hm).
  rewrite List.forallb_forall in Ef. specialize (Ef p). rewrite <- list_elem_of_In in Ef. specialize (Ef Hp). unfold last_of_kind, packet_item in Ef.
  rewrite Hc, Hm in Ef. cbn [it_Typ it_Epoch] in Ef. apply bool_decide_eq_true in Ef. eexists. split; [exact Ef|done].
Qed.

(** The hello messages with a retry. *)
Definition retry13 (c : flightConn) cfgC cfgS (c0 s0 : hs) : option (hs * hs * list Packet) :=
  '(c1, chs) ← gen13 c cfgC Flight1 c0; s2 ← parse13 cfgS Flight0 Flight2 true chs s0;
  '(s3, hrrs) ← gen13 c cfgS Flight2 s2; c3 ← parse13 cfgC Flight1 Flight3 false hrrs c1;
  '(c4, chs2) ← gen13 c cfgC Flight3 c3; s5 ← parse13 cfgS Flight2 Flight4 true chs2 s3;
  '(s6, shs) ← gen13 c cfgS Flight4 s5; c6 ← parse13 cfgC Flight3 Flight5 false shs c4;
  match chs, hrrs, chs2, shs with
  | [_], [_], [_], [_; _] => Some (c6, s6, chs ++ hrrs ++ chs2 ++ shs)
  | _, _, _, _ => None
  end.

Lemma retry13_sound c cfgC cfgS c0 s0 c6 s6 ps : retry13 c cfgC cfgS c0 s0 = Some (c6, s6, ps) → begins true c0 → begins false s0 →
  Forall well_formed ps → exchange13 cfgC cfgS c6 s6.
Proof.
  unfold retry13. intros Hx Hc0 Hs0 Hw.
  apply bind_Some in Hx as ([c1 chs] & Hg1%gen13_sound & Hx). apply bind_Some in Hx as (s2 & [Ha1 Hp1]%parse13_sound & Hx).
  apply bind_Some in Hx as ([s3 hrrs] & Hg2%gen13_sound & Hx). apply bind_Some in Hx as (c3 & [Ha2 Hp2]%parse13_sound & Hx).
  apply bind_Some in Hx as ([c4 chs2] & Hg3%gen13_sound & Hx). apply bind_Some in Hx as (s5 & [Ha3 Hp3]%parse13_sound & Hx).
  apply bind_Some in Hx as ([s7 shs] & Hg4%gen13_sound & Hx). apply bind_Some in Hx as (c7 & [Ha4 Hp4]%parse13_sound & Hx).
  destruct chs as [|ch []], hrrs as [|hrr []], chs2 as [|ch2 []], shs as [|sh [|ee []]]; try done. injection Hx as <- <- <-.
  by eapply (retried cfgC cfgS).
Qed.
End scheduler.

(** The world of an example: the transcript and a counter for random values. *)
Record bench := MkBench { b_transcript : handshakeTranscript13; b_seed : Z }.

#[local] Instance bench_world : World bench := {|
  rand_Read n w := (Ok (be_put (Z.to_nat n) (b_seed w)), MkBench (b_transcript w) (b_seed w + 1));
  rand_Reader w := ((b_seed w, b_seed w), MkBench (b_transcript w) (b_seed w + 1));
  time_Now w := (0, w)
|}.

#[local] Instance bench_store : TranscriptStore bench := {| transcript := b_transcript; set_transcript t w := MkBench t (b_seed w) |}.

#[local] Instance bench_laws : TranscriptStoreLaws bench.
Proof. by split. Qed.

#[local] Existing Instance HandshakeCrypto.toy_pki.
#[local] Existing Instance KeyExchange.toy_agreement.

Definition bench_config (curves : list Z) (skip : bool) : HandshakeConfig bench := {|
  cf_LocalPSKCallback := None;
  cf_LocalPSKIdentityHint := None;
  cf_LocalCipherSuites := [CipherSuite.TLSChacha20Poly1305Sha256];
  cf_LocalSignatureSchemes := Algorithms;
  cf_LocalCertSignatureSchemes := [];
  cf_ExtendedMasterSecret := DisableExtendedMasterSecret;
  cf_LocalSRTPProtectionProfiles := [];
  cf_LocalSRTPMasterKeyIdentifier := [];
  cf_ServerName := gs "example";
  cf_SupportedProtocols := [];
  cf_ClientAuth := NoClientCert;
  cf_LocalCertificates := [];
  cf_InsecureSkipVerify := false;
  cf_VerifyPeerCertificate := None;
  cf_VerifyConnection := None;
  cf_HasSessionStore := false;
  cf_GetSession := λ _ w, (Ok (None, []), w);
  cf_SetSession := λ _ _ _ w, (Ok tt, w);
  cf_DelSession := λ _ w, (Ok tt, w);
  cf_RootCAs := None;
  cf_ClientCAs := None;
  cf_InitialRetransmitInterval := 1000000000;
  cf_DisableRetransmitBackoff := false;
  cf_CustomCipherSuites := None;
  cf_EllipticCurves := curves;
  cf_InsecureSkipHelloVerify := skip;
  cf_ConnectionIDGenerator := None;
  cf_HelloRandomBytesGenerator := None;
  cf_KeyLogWriter := false;
  cf_LocalGetCertificate := None;
  cf_LocalGetClientCertificate := None;
  cf_InitialEpoch := 0;
  cf_ClientHelloMessageHook := None;
  cf_ServerHelloMessageHook := None;
  cf_CertificateRequestMessageHook := None;
  cf_MinVersion := Version1_3;
  cf_MaxVersion := Version1_3
|}.

Definition bench_conn : flightConn (W := bench) :=
  Handshaker.MkFlightConn (λ _ s, (Ok tt, s)) (λ ps s, (Ok tt, ps, s)) (Flight12.MkConn (λ s, (Ok tt, s)) (λ _, [])).

Definition bench_start (isClient : bool) (seed : Z) : hs (W := bench) :=
  MkHs ((new_state isClient) <| st_LocalVersion := Version1_3 |>) [] (MkBench newHandshakeTranscript13 seed) [].

(** A server with its cookie. *)
Definition bench_server (curves : list Z) (skip : bool) : hs (W := bench) :=
  match gen13 bench_conn (bench_config curves skip) Flight0 (bench_start false 1000) with Some (s, _) => s | None => bench_start false 1000 end.

Definition bench_run : option (hs (W := bench) * hs (W := bench) * list Packet) :=
  retry13 bench_conn (bench_config [X25519] false) (bench_config [X25519] false) (bench_start true 7) (bench_server [X25519] false).

Definition bench_packets : list Packet :=
  Eval vm_compute in match bench_run with Some (_, _, ps) => ps | None => [] end.

(** The same messages, between a client and a server without a common group; the
    server does not verify hellos.  The states are those of the server after its
    first flight, after the client's hello, after the HelloRetryRequest, and with
    the client's second hello. *)
Definition stuck_run : option (hs (W := bench) * hs (W := bench) * hs (W := bench) * hs (W := bench) * list Packet * list Packet) :=
  '(s1, ps) ← gen13 bench_conn (bench_config [P384] true) Flight0 (bench_start false 1000);
  '(c1, chs) ← gen13 bench_conn (bench_config [X25519] false) Flight1 (bench_start true 7);
  s3 ← parse13 (bench_config [P384] true) Flight0 Flight2 true chs s1;
  '(s4, hrrs) ← gen13 bench_conn (bench_config [P384] true) Flight2 s3;
  c3 ← parse13 (bench_config [X25519] false) Flight1 Flight3 false hrrs c1;
  '(c4, chs2) ← gen13 bench_conn (bench_config [X25519] false) Flight3 c3;
  Some (s1, deliver true chs s1, s3, s4, hrrs, chs2).

#[local] Strategy expand [bench_run stuck_run].

Lemma bench_well_formed : Forall well_formed bench_packets.
Proof.
  assert (∀ p, (match pk_Content p with HandshakeContent _ (Some m) => encodable m | _ => True end) → well_formed p) as Hw.
  { intros p Hp hd m E. by rewrite E in Hp. }
  repeat (constructor; [apply Hw; split; [intros kx|intros msg [= <-]; vm_compute; reflexivity]|]); [..|constructor].
  all: cbn [message_ok]; repeat lazymatch goal with
    | |- client_hello_ok _ => unfold client_hello_ok; cbn [ch_Random ch_Cookie ch_SessionID ch_CipherSuiteIDs ch_CompressionMethods ch_Extensions]
    | |- server_hello_ok _ => unfold server_hello_ok; cbn [sh_Random sh_SessionID sh_CipherSuiteID sh_CompressionMethod sh_Extensions]
    | |- random_ok _ => split
    | |- extensions_ok _ => split
    | |- ext_ok _ => split
    | |- ext_values_ok _ => cbn [ext_values_ok default]
    | |- is_u16 _ => split
    | |- is_u32 _ => split
    | |- _ ∧ _ => split
    | |- ∃ _, _ => eexists
    | |- NoDup _ => apply NoDup_singleton
    | |- Forall _ _ => constructor
    | |- let _ := _ in _ => cbv zeta
    end; first [done | by vm_compute].
Qed.

(** The run succeeds, with these packets. *)
Lemma bench_run_packets : match bench_run with Some (_, _, ps) => bool_decide (length ps = 5)%nat | None => false end = true.
Proof. vm_compute. reflexivity. Qed.

Lemma bench_run_eq c s ps : bench_run = Some (c, s, ps) → ps = bench_packets.
Proof.
  assert ((λ r, r.2) <$> bench_run = Some bench_packets) as E by (vm_compute; reflexivity). intros Hr. rewrite Hr in E. by injection E as ->.
Qed.

Lemma bench_client_begins : begins true (bench_start true 7).
Proof. by split. Qed.

Lemma bench_server_begins : begins false (bench_server [X25519] false).
Proof. by split; vm_compute. Qed.

Lemma bench_compatible : compatible (bench_config [X25519] false) (bench_config [X25519] false).
Proof. split; [done|by intros ? ?|split; [done|split; done]]. Qed.

Lemma handshake13_agrees_witness :
  match bench_run with Some (_, _, ps) => bool_decide (length ps = 5)%nat | None => false end = true ∧
  ∀ c s ps, bench_run = Some (c, s, ps) → agreed c s.
Proof.
  split; [exact bench_run_packets|]. intros c s ps Hr. pose proof (bench_run_eq c s ps Hr) as ->.
  apply (handshake13_agrees (H6 := KeyExchange.toy_agreement_laws) (bench_config [X25519] false) (bench_config [X25519] false) c s bench_compatible).
  exact (retry13_sound _ _ _ _ _ _ _ _ Hr bench_client_begins bench_server_begins bench_well_formed).
Defined.

Lemma stuck_run_exists : match stuck_run with Some _ => true | None => false end = true.
Proof. vm_compute. reflexivity. Qed.

Lemma stuck_run_inv s1 s2 s3 s4 hrrs chs2 : stuck_run = Some (s1, s2, s3, s4, hrrs, chs2) →
  (∃ ps, generates (bench_config [P384] true) Flight0 (bench_start false 1000) s1 ps) ∧ h_state s2 = h_state s1 ∧
  parses (bench_config [P384] true) Flight0 s2 s3 Flight2 ∧ generates (bench_config [P384] true) Flight2 s3 s4 hrrs.
Proof.
  unfold stuck_run. intros Hx.
  apply bind_Some in Hx as ([t1 ps] & Hg0%gen13_sound & Hx). apply bind_Some in Hx as ([c1 chs] & _ & Hx).
  apply bind_Some in Hx as (t3 & [_ Hp]%parse13_sound & Hx). apply bind_Some in Hx as ([t4 hrrs'] & Hg2%gen13_sound & Hx).
  apply bind_Some in Hx as (c3 & _ & Hx). apply bind_Some in Hx as ([c4 chs2'] & _ & Hx). injection Hx as <- <- <- <- <- <-.
  split; [by exists ps|done].
Qed.

Lemma unverified_retry_hangs_witness :
  match stuck_run with Some _ => true | None => false end = true ∧
  ∀ s1 s2 s3 s4 hrrs chs2 s6 fl, stuck_run = Some (s1, s2, s3, s4, hrrs, chs2) →
    ¬ parses (bench_config [P384] true) Flight2 (deliver true chs2 s4) s6 fl.
Proof.
  split; [exact stuck_run_exists|]. intros s1 s2 s3 s4 hrrs chs2 s6 fl Hr. destruct (stuck_run_inv _ _ _ _ _ _ Hr) as ([ps Hg0] & E & Hp & Hg2).
  exact (proj2 (unverified_retry_hangs (bench_config [P384] true) (bench_start false 1000) s1 s2 s3 s4 (deliver true chs2 s4) s6 ps hrrs fl
    eq_refl eq_refl Hg0 E Hp Hg2 eq_refl)).
Defined.

Lemma handshake13_terminates_witness : ∃ r f',
  Run 2 bench_conn (bench_config [X25519] false) handshakePreparing (MkFSM13 Flight1 [] false 0 (bench_start true 7)) = Some (r, f').
Proof.
  exact (proj1 (handshake13_terminates bench_conn (bench_config [X25519] false) handshakePreparing (MkFSM13 Flight1 [] false 0 (bench_start true 7)) 2
    (le_n 2))).
Defined.

End Run13.
