(* ===== verification/DtlsConn.v ===== *)
(** * The DTLS 1.2 connection (src/dtls/conn.go)

    The record layer of a connection: packets become records with sequence
    numbers, are encrypted and packed into datagrams; datagrams are split,
    checked against replay, decrypted, reassembled and handed to the handshake or
    to the application.  A function is a program in the monad of the flights, over
    a world that also holds the connection's own fields ([net]).  The datagrams
    that are read live in buffers of a pool; a queued packet refers to its buffer.
    The replay detector, the network and the pool are interfaces. *)
From stdpp Require Import base tactics numbers list strings gmap relations.
From Stdlib Require Import ZArith Lia.
From S2P Require Import Prelude Sha2 Wire SignatureHash HandshakeCrypto Prf Record CipherSuite Extensions Fragment Handshake HandshakeState FlightCache Flight12 Flight12Auth Handshaker.
Import Protocol SignatureHash Extension Handshake HandshakeHeader State Config HandshakeCrypto Flight Selection AlertDescription Flight12 Flight12Auth Handshaker.
Open Scope Z_scope.

Module DtlsConn.

Definition inboundBufferSize : Z := 8192.
Definition maxAppDataPacketQueueSize : Z := 100.

(** ** Interfaces *)

(** The replay detector (pion/transport): [Check] says whether a number may be
    accepted, [Accept] marks it, and says whether it is the latest. *)
Class ReplayDetector := {
  detector : Type;
  replaydetector_New : Z → Z → detector;
  Check : detector → Z → bool;
  Accept : detector → Z → bool * detector
}.

(** A detector that was made with this window and this greatest number, and has
    accepted these numbers since. *)
Inductive accepted `{ReplayDetector} (window max : Z) : list Z → detector → Prop :=
  | accepted_none : accepted window max [] (replaydetector_New window max)
  | accepted_one ns d n : accepted window max ns d → 0 ≤ n → Check d n = true → accepted window max (n :: ns) (Accept d n).2.

(** The sliding window: a number is refused when it is too large, was accepted
    before, or is too far behind an accepted number. *)
Class ReplayDetectorLaws `{ReplayDetector} := {
  Check_spec window max ns d n : accepted window max ns d → 0 < window → 0 ≤ n →
    Check d n = true ↔ (n ≤ max ∧ (n ∉ ns) ∧ Forall (λ k, k < n + window) ns)
}.

(** The network, the pool of buffers and the callback for padding, on a world. *)
Class Network (W : Type) := {
  WriteToContext : bytes → gostring → W → option dtls_error * W;
  paddingLengthGenerator : Z → W → Z * W;
  is_closed_error : dtls_error → bool
}.

(** ** The connection's fields *)

(** Bytes in a buffer of the pool, or of their own. *)
Inductive ref := Pooled (buffer : nat) (offset n : nat) | Fresh (data : bytes).

Section conn.
Context `{Cryptobyte} `{Ciphers} `{KeyExchange.KeyAgreement} `{PKI} `{Unicode} {W : Type} `{World W} `{ReplayDetector} `{Network W}.

Record net := MkNet {
  n_fragmentBuffer : FragmentBuffer.fragmentBuffer;
  n_encryptedPackets : list (gostring * ref);
  n_rAddr : gostring;
  n_ReplayDetector : list detector;
  n_decrypted : list (bytes + dtls_error);
  n_completed : bool;
  n_closed : bool;
  n_closedByUser : bool;
  n_buffers : gmap nat bytes;
  n_world : W
}.

#[global] Instance net_eta : Eta net := λ n, MkNet (n_fragmentBuffer n) (n_encryptedPackets n) (n_rAddr n) (n_ReplayDetector n)
  (n_decrypted n) (n_completed n) (n_closed n) (n_closedByUser n) (n_buffers n) (n_world n).
#[global] Instance upd_n_fragmentBuffer : Update n_fragmentBuffer := ltac:(derive_update).
#[global] Instance upd_n_encryptedPackets : Update n_encryptedPackets := ltac:(derive_update).
#[global] Instance upd_n_rAddr : Update n_rAddr := ltac:(derive_update).
#[global] Instance upd_n_ReplayDetector : Update n_ReplayDetector := ltac:(derive_update).
#[global] Instance upd_n_decrypted : Update n_decrypted := ltac:(derive_update).
#[global] Instance upd_n_completed : Update n_completed := ltac:(derive_update).
#[global] Instance upd_n_closed : Update n_closed := ltac:(derive_update).
#[global] Instance upd_n_closedByUser : Update n_closedByUser := ltac:(derive_update).
#[global] Instance upd_n_buffers : Update n_buffers := ltac:(derive_update).
#[global] Instance upd_n_world : Update n_world := ltac:(derive_update).

Definition on_world {A} (f : W → A * W) (n : net) : A * net :=
  let '(a, w) := f (n_world n) in (a, n <| n_world := w |>).

#[global] Instance net_World : World net := {|
  rand_Read k := on_world (rand_Read k);
  rand_Reader := on_world rand_Reader;
  time_Now := on_world time_Now
|}.

(** Configuration of the connection. *)
Record conn_config := MkConnConfig {
  maximumTransmissionUnit : Z;
  replayProtectionWindow : Z;
  handshakeConfig : HandshakeConfig net
}.

Abbreviation CM := (M (W := net)).
Implicit Types (cc : conn_config).

Definition net_get {R A} (f : net → A) : CM R A := λ s, (Val (f (h_world s)), s).
Definition net_modify {R} (f : net → net) : CM R unit := λ s, (Val tt, MkHs (h_state s) (h_cache s) (f (h_world s)) (h_keylog s)).
Definition push_cache {R} (data : bytes) (epoch messageSequence typ : Z) (isClient : bool) : CM R unit := λ s,
  (Val tt, MkHs (h_state s) (Push (h_cache s) data epoch messageSequence typ isClient) (h_world s) (h_keylog s)).

(** The result of a function as a value. *)
Definition returns {R A} (m : CM A A) : CM R A := λ s,
  match m s with
  | (Val a, s') | (Ret a, s') => (Val a, s')
  | (Crash, s') => (Crash, s')
  end.

(** The error of a call, if it fails. *)
Definition try {R A} (m : CM dtls_error A) : CM R (option dtls_error) := λ s,
  match m s with
  | (Val _, s') => (Val None, s')
  | (Ret e, s') => (Val (Some e), s')
  | (Crash, s') => (Crash, s')
  end.

Definition fail_if {R} (o : option R) : CM R unit := match o with Some e => ret e | None => val tt end.

Definition local_cid (s : State) : bytes := default [] (st_LocalConnectionID s).
Definition remote_cid (s : State) : bytes := default [] (st_RemoteConnectionID s).

(** ** Sending *)

(** Content.Marshal and Content.ContentType; the header of a handshake message
    is completed. *)
Definition Content_Marshal (c : Content) : res dtls_error (Content * bytes) :=
  match c with
  | HandshakeContent h m => '(h, raw) ← Handshake_Marshal h m; Ok (HandshakeContent h m, raw)
  | ChangeCipherSpecContent => Ok (c, ChangeCipherSpec_Marshal)
  | AlertContent a => Ok (c, Alert_Marshal a)
  | ApplicationDataContent d => Ok (c, ApplicationData_Marshal d)
  end.

Definition Content_Type (c : Content) : Z :=
  match c with
  | HandshakeContent _ _ => ContentTypeHandshake
  | ChangeCipherSpecContent => ContentTypeChangeCipherSpec
  | AlertContent _ => ContentTypeAlert
  | ApplicationDataContent _ => ContentTypeApplicationData
  end.

Definition with_header (p : Packet) (h : RecordHeader.Header) : Packet :=
  MkPacket h (pk_Content p) (pk_ShouldEncrypt p) (pk_ShouldWrapCID p) (pk_ResetLocalSequenceNumber p).

(** pkt.Record.Marshal(): it sets the length and the type in the header. *)
Definition Record_Marshal (p : Packet) : res dtls_error (Packet * bytes) :=
  '(content, contentRaw) ← Content_Marshal (pk_Content p);
  let h := pk_Header p in
  let h := RecordHeader.MkHeader (Content_Type content) (u16 (len contentRaw)) (RecordHeader.HVersion h) (RecordHeader.Epoch h)
             (RecordHeader.SequenceNumber h) (RecordHeader.ConnectionID h) in
  headerRaw ← RecordHeader.Header_Marshal h;
  Ok (MkPacket h content (pk_ShouldEncrypt p) (pk_ShouldWrapCID p) (pk_ResetLocalSequenceNumber p), headerRaw ++ contentRaw).

(** A slice that is long enough for the epoch. *)
Definition grow {A} (l : list A) (epoch : Z) (a : A) : list A := l ++ replicate (Z.to_nat (epoch + 1) - length l) a.

(** The next sequence number of an epoch. *)
Definition next_sequence_number (epoch : Z) : CM dtls_error Z :=
  seqs ← gets st_LocalSequenceNumber;
  seq ← lift (idx seqs epoch) id;
  _ ← modify (λ s, s <| st_LocalSequenceNumber := <[Z.to_nat epoch := u64 (seq + 1)]> seqs |>);
  if RecordHeader.MaxSequenceNumber <? seq then ret ErrSequenceNumberOverflow else val seq.

Definition grow_sequence_numbers {R} (epoch : Z) : CM R unit :=
  modify (λ s, s <| st_LocalSequenceNumber := grow (st_LocalSequenceNumber s) epoch 0 |>).

(** A record with a connection ID around an inner plaintext. *)
Definition cid_record (h : RecordHeader.Header) (inner : RecordHeader.InnerPlaintext) (cid : bytes) : res dtls_error (RecordHeader.Header * bytes) :=
  rawInner ← RecordHeader.Inner_Marshal inner;
  let cidHeader := RecordHeader.MkHeader ContentTypeConnectionID (u16 (len rawInner)) (RecordHeader.HVersion h) (RecordHeader.Epoch h)
                     (RecordHeader.SequenceNumber h) cid in
  rawPacket ← RecordHeader.Header_Marshal cidHeader;
  Ok (cidHeader, rawPacket ++ rawInner).

(** c.state.CipherSuite.Encrypt *)
Definition encrypt_packet (p : Packet) (raw : bytes) : CM dtls_error bytes :=
  if pk_ShouldEncrypt p then
    _ ← deref st_CipherSuite;
    prot ← gets st_Protection;
    match prot with
    | None => ret ErrCipherSuiteNotInit
    | Some prot => lift (CipherSuite.Encrypt prot (pk_Header p) raw) id
    end
  else val raw.

Definition set_sequence_number (p : Packet) (seq : Z) : Packet :=
  let h := pk_Header p in
  with_header p (RecordHeader.MkHeader (RecordHeader.ContentType h) (RecordHeader.ContentLen h) (RecordHeader.HVersion h) (RecordHeader.Epoch h)
                   seq (RecordHeader.ConnectionID h)).

Definition processPacket (p : Packet) : CM dtls_error (Packet * bytes) :=
  let epoch := RecordHeader.Epoch (pk_Header p) in
  _ ← grow_sequence_numbers epoch;
  seq ← next_sequence_number epoch;
  let p := set_sequence_number p seq in
  '(p, rawPacket) ←
    (if pk_ShouldWrapCID p then
       '(p, _) ← lift (Record_Marshal p) id;
       '(_, content) ← lift (Content_Marshal (pk_Content p)) id;
       cid ← gets remote_cid;
       '(h, raw) ← lift (cid_record (pk_Header p) (RecordHeader.MkInner content (RecordHeader.ContentType (pk_Header p)) 0) cid) id;
       val (with_header p h, raw)
     else lift (Record_Marshal p) id);
  rawPacket ← encrypt_packet p rawPacket;
  val (p, rawPacket).

(** Pieces of [splitLen] bytes; the length of the data is enough fuel when
    [splitLen] is positive. *)
Fixpoint split_loop (fuel : nat) (i : Z) (data : bytes) (splitLen : Z) : res dtls_error (list bytes) :=
  if i <? len data then
    match fuel with
    | O => Panic
    | S fuel =>
        let j := Z.min (i + splitLen) (len data) in
        piece ← slice data i j;
        rest ← split_loop fuel (i + splitLen) data splitLen;
        Ok (piece :: rest)
    end
  else Ok [].

Definition splitBytes (data : bytes) (splitLen : Z) : res dtls_error (list bytes) := split_loop (length data) 0 data splitLen.

(** The fragments with their headers. *)
Fixpoint fragment_loop (h : Header) (offset : Z) (pieces : list bytes) : list bytes :=
  match pieces with
  | [] => []
  | piece :: pieces =>
      (Header_Marshal (MkHeader (Type_ h) (Length h) (MessageSequence h) (u32 offset) (u32 (len piece))) ++ piece)
        :: fragment_loop h (offset + len piece) pieces
  end.

Definition fragmentHandshake cc (h : Header) (m : option Message) : res dtls_error (list bytes) :=
  match m with
  | None => Panic
  | Some m =>
      content ← Message_Marshal m;
      contentFragments ← splitBytes content (maximumTransmissionUnit cc);
      let contentFragments := match contentFragments with [] => [[]] | _ => contentFragments end in
      Ok (fragment_loop h 0 contentFragments)
  end.

(** One record per fragment. *)
Fixpoint handshake_records cc (p : Packet) (fragments : list bytes) : CM dtls_error (Packet * list bytes) :=
  match fragments with
  | [] => val (p, [])
  | handshakeFragment :: fragments =>
      let h := pk_Header p in
      seq ← next_sequence_number (RecordHeader.Epoch h);
      '(h, rawPacket) ←
        (if pk_ShouldWrapCID p then
           zeros ← with_world (on_world (paddingLengthGenerator (len handshakeFragment)));
           cid ← gets remote_cid;
           lift (cid_record h (RecordHeader.MkInner handshakeFragment ContentTypeHandshake zeros) cid) id
         else
           let h := RecordHeader.MkHeader (RecordHeader.ContentType h) (u16 (len handshakeFragment)) (RecordHeader.HVersion h)
                      (RecordHeader.Epoch h) seq [] in
           rawPacket ← lift (RecordHeader.Header_Marshal h) id;
           val (h, rawPacket ++ handshakeFragment));
      let p := with_header p h in
      rawPacket ← encrypt_packet p rawPacket;
      '(p, rawPackets) ← handshake_records cc p fragments;
      val (p, rawPacket :: rawPackets)
  end.

Definition processHandshakePacket cc (p : Packet) (h : Header) (m : option Message) : CM dtls_error (Packet * list bytes) :=
  handshakeFragments ← lift (fragmentHandshake cc h m) id;
  _ ← grow_sequence_numbers (RecordHeader.Epoch (pk_Header p));
  handshake_records cc p handshakeFragments.

Fixpoint compact_loop (mtu : Z) (current : bytes) (rawPackets : list bytes) : list bytes :=
  match rawPackets with
  | [] => [current]
  | rawPacket :: rawPackets =>
      if (0 <? len current) && (mtu <=? len current + len rawPacket)
      then current :: compact_loop mtu rawPacket rawPackets
      else compact_loop mtu (current ++ rawPacket) rawPackets
  end.

Definition compactRawPackets cc (rawPackets : list bytes) : list bytes :=
  match rawPackets with
  | [_] => rawPackets
  | _ => compact_loop (maximumTransmissionUnit cc) [] rawPackets
  end.

(** The packets as changed, and the records they become. *)
Fixpoint raw_packets cc (pkts : list Packet) : CM dtls_error (list Packet * list bytes) :=
  match pkts with
  | [] => val ([], [])
  | p :: pkts =>
      '(p, raw) ←
        (match pk_Content p with
         | HandshakeContent _ _ =>
             '(p, handshakeRaw) ← lift (Record_Marshal p) id;
             data ← lift (slice_from handshakeRaw RecordHeader.FixedHeaderSize) id;
             isClient ← gets st_IsClient;
             match pk_Content p with
             | HandshakeContent h m =>
                 _ ← push_cache data (RecordHeader.Epoch (pk_Header p)) (MessageSequence h) (Type_ h) isClient;
                 processHandshakePacket cc p h m
             | _ => crash
             end
         | _ => '(p, rawPacket) ← processPacket p; val (p, [rawPacket])
         end);
      '(pkts, rest) ← raw_packets cc pkts;
      val (p :: pkts, raw ++ rest)
  end.

Definition write_datagram (d : bytes) : CM dtls_error unit :=
  rAddr ← net_get n_rAddr;
  err ← with_world (on_world (WriteToContext d rAddr));
  fail_if err.

Definition write_packets cc (pkts : list Packet) : CM dtls_error (list Packet) :=
  '(pkts, rawPackets) ← raw_packets cc pkts;
  match rawPackets with
  | [] => val pkts
  | _ => _ ← for_each (compactRawPackets cc rawPackets) write_datagram; val pkts
  end.

(** As a client, sessions are stored under the server's address and name. *)
Definition sessionKey cc : CM dtls_error bytes :=
  isClient ← gets st_IsClient;
  if isClient : bool then rAddr ← net_get n_rAddr; val (rAddr ++ gs "_" ++ cf_ServerName (handshakeConfig cc))
  else gets st_SessionID.

Definition send_alert cc (a : Alert) : CM dtls_error unit :=
  s ← gets id;
  _ ← (if (al_Level a =? Fatal) && (0 <? len (st_SessionID s)) && bool_decide (st_LocalVersion s = Version1_2) && cf_HasSessionStore (handshakeConfig cc)
       then key ← sessionKey cc; act (cf_DelSession (handshakeConfig cc) key) id
       else val tt);
  completed ← net_get n_completed;
  _ ← write_packets cc [MkPacket (record_header (st_LocalEpoch s)) (AlertContent a) completed (0 <? len (remote_cid s)) false];
  val tt.

(** Application data. *)
Definition conn_Write cc (payload : bytes) : CM dtls_error Z :=
  closed ← net_get n_closed;
  if closed : bool then ret ErrConnClosed else
  s ← gets id;
  _ ← write_packets cc [MkPacket (record_header (st_LocalEpoch s)) (ApplicationDataContent payload) true (0 <? len (remote_cid s)) false];
  val (len payload).

(** ** Receiving *)

Definition load (n : net) (r : ref) : bytes :=
  match r with
  | Fresh d => d
  | Pooled b offset k => take k (drop offset (default [] (n_buffers n !! b)))
  end.

(** What handleIncomingPacket returns: whether there is a handshake message and
    whether it is repeated, an alert to send, and an error. *)
Definition incoming : Type := bool * bool * option Alert * option dtls_error.
Definition discarded : incoming := (false, false, None, None).

Definition enqueueEncryptedPackets {R} (rAddr : gostring) (r : ref) : CM R unit :=
  net_modify (λ n, if len (n_encryptedPackets n) <? maxAppDataPacketQueueSize
                   then n <| n_encryptedPackets := n_encryptedPackets n ++ [(rAddr, r)] |> else n).

Definition enqueue_if {R} (enqueue : bool) (rAddr : gostring) (r : ref) : CM R unit :=
  if enqueue then enqueueEncryptedPackets rAddr r else val tt.

(** markPacketAsValid() *)
Definition mark (epoch seq : Z) : CM incoming bool :=
  ds ← net_get n_ReplayDetector;
  match ds !! Z.to_nat epoch with
  | None => crash
  | Some d =>
      let '(latest, d) := Accept d seq in
      _ ← net_modify (λ n, n <| n_ReplayDetector := <[Z.to_nat epoch := d]> ds |>);
      val latest
  end.

(** The keys, when the cipher suite is initialised. *)
Definition protection (s : State) : option CipherSuite.Protection :=
  match st_CipherSuite s with Some _ => st_Protection s | None => None end.

Definition zero_record_header (cid : bytes) : RecordHeader.Header := RecordHeader.MkHeader 0 0 (MkVersion 0 0) 0 0 cid.

(** The inner plaintext of a decrypted record with a connection ID, as a record
    of its own type. *)
Definition unwrap_cid (header : RecordHeader.Header) (buf : bytes) : res dtls_error bytes :=
  d ← slice_from buf (RecordHeader.Header_Size header);
  ip ← RecordHeader.Inner_Unmarshal d;
  raw ← RecordHeader.Header_Marshal (RecordHeader.MkHeader (RecordHeader.ip_RealType ip) (u16 (len (RecordHeader.ip_Content ip)))
          (RecordHeader.HVersion header) (RecordHeader.Epoch header) (RecordHeader.SequenceNumber header) []);
  Ok (raw ++ RecordHeader.ip_Content ip).

(** Decryption of a record of a later epoch: the record in the clear. *)
Definition decrypt_record (header : RecordHeader.Header) (buf : bytes) (r : ref) (rAddr : gostring) (enqueue : bool) : CM incoming bytes :=
  s ← gets id;
  match protection s with
  | None => _ ← enqueue_if enqueue rAddr r; ret discarded
  | Some prot =>
      let isCID := RecordHeader.ContentType header =? ContentTypeConnectionID in
      if (0 <? len (local_cid s)) && negb isCID then ret discarded else
      buf ← lift (CipherSuite.Decrypt prot (zero_record_header (if isCID then zeros (len (local_cid s)) else [])) buf) (λ _, discarded);
      buf ← lift (if isCID then unwrap_cid header buf else Ok buf) (λ _, discarded);
      if negb (bool_decide (local_cid s = RecordHeader.ConnectionID header)) then ret discarded else val buf
  end.

(** The complete messages go to the cache.  A message leaves the buffer in each
    round, so that one more round than messages is enough fuel. *)
Fixpoint pop_messages (fuel : nat) : CM incoming unit :=
  f ← net_get n_fragmentBuffer;
  match FragmentBuffer.pop f with
  | Panic => crash
  | Err e => match e with end
  | Ok (out, f) =>
      _ ← net_modify (λ n, n <| n_fragmentBuffer := f |>);
      match out, fuel with
      | None, _ => val tt
      | Some _, O => crash
      | Some (out, epoch), S fuel =>
          isClient ← gets st_IsClient;
          _ ← (match Header_Unmarshal out with
               | Ok header => push_cache out epoch (MessageSequence header) (Type_ header) (negb isClient)
               | Err _ => val tt
               | Panic => crash
               end);
          pop_messages fuel
      end
  end.

(** r.Unmarshal(buf), with the content. *)
Definition Record_Unmarshal (buf : bytes) : res dtls_error Content :=
  h ← RecordHeader.Header_Unmarshal (zero_record_header []) buf;
  let body := slice_from buf (RecordHeader.Header_Size h + len (RecordHeader.ConnectionID h)) in
  let t := RecordHeader.ContentType h in
  if t =? ContentTypeChangeCipherSpec then d ← body; _ ← ChangeCipherSpec_Unmarshal d; Ok ChangeCipherSpecContent
  else if t =? ContentTypeAlert then d ← body; a ← Alert_Unmarshal d; Ok (AlertContent a)
  else if t =? ContentTypeHandshake then d ← body; '(hd, m) ← Handshake_Unmarshal 0 d; Ok (HandshakeContent hd (Some m))
  else if t =? ContentTypeApplicationData then d ← body; d ← ApplicationData_Unmarshal d; Ok (ApplicationDataContent d)
  else Err ErrInvalidContentType.

(** What is done with the content of a record that is not a handshake record:
    whether the record is the latest one. *)
Definition handle_content (header : RecordHeader.Header) (c : Content) (r : ref) (rAddr : gostring) (enqueue : bool) : CM incoming bool :=
  let epoch := RecordHeader.Epoch header in
  let seq := RecordHeader.SequenceNumber header in
  match c with
  | AlertContent a =>
      _ ← mark epoch seq;
      ret (false, false, if al_Description a =? CloseNotify then Some (MkAlert Warning CloseNotify) else None, Some (ErrAlert (al_Level a) (al_Description a)))
  | ChangeCipherSpecContent =>
      s ← gets id;
      match protection s with
      | None => _ ← enqueue_if enqueue rAddr r; ret discarded
      | Some _ =>
          let newRemoteEpoch := u16 (epoch + 1) in
          if u16 (st_RemoteEpoch s + 1) =? newRemoteEpoch
          then _ ← modify (λ s, s <| st_RemoteEpoch := newRemoteEpoch |>); mark epoch seq
          else val false
      end
  | ApplicationDataContent d =>
      if epoch =? 0 then ret (false, false, Some (fatal UnexpectedMessage), Some ErrApplicationDataEpochZero) else
      latest ← mark epoch seq;
      _ ← net_modify (λ n, n <| n_decrypted := n_decrypted n ++ [inl d] |>);
      val latest
  | HandshakeContent _ _ => ret (false, false, Some (fatal UnexpectedMessage), Some ErrUnhandledContextType)
  end.

(** A record in the clear. *)
Definition handle_record (header : RecordHeader.Header) (buf : bytes) (r : ref) (rAddr : gostring) (enqueue : bool) : CM incoming incoming :=
  f ← net_get n_fragmentBuffer;
  let '(f, pushed) := FragmentBuffer.push f buf in
  _ ← net_modify (λ n, n <| n_fragmentBuffer := f |>);
  '(isHandshake, isRetransmit) ← lift pushed (λ _, discarded);
  if isHandshake : bool then
    _ ← mark (RecordHeader.Epoch header) (RecordHeader.SequenceNumber header);
    _ ← pop_messages (S (size (FragmentBuffer.cache f)));
    ret (true, isRetransmit, None, None)
  else
    content ← lift (Record_Unmarshal buf) (λ e, (false, false, Some (fatal DecodeError), Some e));
    isLatestSeqNum ← handle_content header content r rAddr enqueue;
    let originalCID := negb (RecordHeader.Epoch header =? 0) && (RecordHeader.ContentType header =? ContentTypeConnectionID) in
    _ ← net_modify (λ n, if originalCID && isLatestSeqNum then n <| n_rAddr := rAddr |> else n);
    val discarded.

Definition handleIncomingPacket cc (r : ref) (rAddr : gostring) (enqueue : bool) : CM incoming incoming :=
  buf ← net_get (λ n, load n r);
  s ← gets id;
  header ← lift (RecordHeader.Header_Unmarshal (zero_record_header (zeros (len (local_cid s)))) buf) (λ _, discarded);
  let epoch := RecordHeader.Epoch header in
  if st_RemoteEpoch s <? epoch then
    if u16 (st_RemoteEpoch s + 1) <? epoch then ret discarded
    else _ ← enqueue_if enqueue rAddr r; ret discarded
  else
  _ ← net_modify (λ n, n <| n_ReplayDetector := grow (n_ReplayDetector n) epoch (replaydetector_New (replayProtectionWindow cc) RecordHeader.MaxSequenceNumber) |>);
  ds ← net_get n_ReplayDetector;
  match ds !! Z.to_nat epoch with
  | None => crash
  | Some d =>
      if negb (Check d (RecordHeader.SequenceNumber header)) then ret discarded else
      buf ← (if epoch =? 0 then val buf else decrypt_record header buf r rAddr enqueue);
      handle_record header buf r rAddr enqueue
  end.

(** One packet of a datagram or of the queue, with the alert it causes. *)
Definition handle_packet cc (r : ref) (rAddr : gostring) (enqueue : bool) : CM dtls_error (bool * bool) :=
  '(hs, rtx, alert, err) ← returns (handleIncomingPacket cc r rAddr enqueue);
  alertErr ← (match alert with Some a => try (send_alert cc a) | None => val None end);
  _ ← fail_if (match err with Some _ => err | None => alertErr end);
  val (hs, rtx).

Definition handleQueuedPackets cc : CM dtls_error unit :=
  pkts ← net_get n_encryptedPackets;
  _ ← net_modify (λ n, n <| n_encryptedPackets := [] |>);
  for_each pkts (λ p, _ ← handle_packet cc p.2 p.1 false; val tt).

(** The records of a datagram in a buffer, one after the other. *)
Fixpoint refs (b : nat) (offset : nat) (records : list bytes) : list ref :=
  match records with
  | [] => []
  | r :: records => Pooled b offset (length r) :: refs b (offset + length r) records
  end.

Fixpoint handle_packets cc (rs : list ref) (rAddr : gostring) : CM dtls_error (bool * bool) :=
  match rs with
  | [] => val (false, false)
  | r :: rs =>
      '(hs, rtx) ← handle_packet cc r rAddr true;
      '(hs', rtx') ← handle_packets cc rs rAddr;
      val (hs || hs', rtx || rtx')
  end.

(** A datagram is read into buffer [b] of the pool; the result says whether the
    handshake is told, and whether of repeated messages only. *)
Definition readAndBuffer cc (b : nat) (datagram : bytes) (rAddr : gostring) : CM dtls_error (option bool) :=
  let d := take (Z.to_nat inboundBufferSize) datagram in
  _ ← net_modify (λ n, n <| n_buffers := <[b := d ++ drop (length d) (default (zeros inboundBufferSize) (n_buffers n !! b))]> (n_buffers n) |>);
  s ← gets id;
  pkts ← lift (RecordHeader.ContentAwareUnpackDatagram d (len (local_cid s))) id;
  '(hasHandshake, isRetransmit) ← handle_packets cc (refs b 0 pkts) rAddr;
  val (if hasHandshake : bool then Some isRetransmit else None).

(** ** The loop that reads, and the end of the connection *)

Definition is_fatal_or_close (level description : Z) : bool := (level =? Fatal) || (description =? CloseNotify).

Definition conn_close cc (byUser : bool) : CM dtls_error unit :=
  completed ← net_get n_completed;
  _ ← (if completed && byUser then try (send_alert cc (MkAlert Warning CloseNotify)) else val None);
  closedByUser ← net_get n_closedByUser;
  _ ← net_modify (λ n, (if byUser then n <| n_closedByUser := true |> else n) <| n_closed := true |>);
  if closedByUser : bool then ret ErrConnClosed else val tt.

(** What the loop does with an error: whether it goes on. *)
Definition alert_of (err : dtls_error) : option (Z * Z) :=
  match err with ErrAlert level description => Some (level, description) | _ => None end.
Definition is_invalid_length (err : dtls_error) : bool := match err with ErrInvalidPacketLength => true | _ => false end.

Definition on_read_error cc (err : dtls_error) : CM dtls_error bool :=
  completed ← net_get n_completed;
  let deliver := if completed : bool then net_modify (λ n, n <| n_decrypted := n_decrypted n ++ [inr err] |>) else val tt in
  match alert_of err with
  | Some (level, description) =>
      if is_fatal_or_close level description then _ ← try (conn_close cc false); val false
      else _ ← deliver; val true
  | None =>
      if is_invalid_length err then val true
      else if is_closed_error err then val false
      else _ ← deliver; val completed
  end.

(** One round of the loop. *)
Definition read_loop cc (b : nat) (datagram : bytes) (rAddr : gostring) : CM dtls_error (option (option bool)) := λ s,
  match readAndBuffer cc b datagram rAddr s with
  | (Val signal, s') => (Val (Some signal), s')
  | (Crash, s') => (Crash, s')
  | (Ret err, s') =>
      match on_read_error cc err s' with
      | (Val go, s'') => (Val (if go : bool then Some None else None), s'')
      | (Ret e, s'') => (Ret e, s'')
      | (Crash, s'') => (Crash, s'')
      end
  end.

(** Read: the data that was decrypted, or an error; [None] when it waits. *)
Definition conn_Read (buflen : Z) : CM dtls_error (option bytes) :=
  q ← net_get n_decrypted;
  closed ← net_get n_closed;
  match q with
  | [] => if closed : bool then ret (ErrOther (gs "EOF")) else val None
  | out :: q =>
      _ ← net_modify (λ n, n <| n_decrypted := q |>);
      match out with
      | inl d => if buflen <? len d then ret ErrBufferTooSmall else val (Some d)
      | inr e => ret e
      end
  end.

(** ** The connection as the handshake sees it *)

Definition result_of {A} (m : CM dtls_error A) (s : hs (W := net)) : res dtls_error unit * hs (W := net) :=
  match m s with
  | (Val _, s') => (Ok tt, s')
  | (Ret e, s') => (Err e, s')
  | (Crash, s') => (Panic, s')
  end.

Definition key_of cc (s : hs (W := net)) : bytes := match sessionKey cc s with (Val k, _) => k | _ => [] end.

Definition conn_flights cc : flightConn (W := net) := {|
  notify a := result_of (send_alert cc a);
  writePackets ps s := match write_packets cc ps s with
                       | (Val ps', s') => (Ok tt, ps', s')
                       | (Ret e, s') => (Err e, ps, s')
                       | (Crash, s') => (Panic, ps, s')
                       end;
  adaptFlightConn := {| HandleQueuedPackets := result_of (handleQueuedPackets cc); SessionKey := key_of cc |}
|}.

(** ** Relations between the states before and after *)

Implicit Types (s : hs (W := net)).

(** Weakest preconditions of the connection's own primitives. *)
Lemma wp_net_get {R A} (f : net → A) Qv (Qr : R → hs → Prop) s : Qv (f (h_world s)) s → wp (net_get f : CM R A) Qv Qr s.
Proof. done. Qed.

Lemma wp_net_modify {R} (f : net → net) (Qv : unit → hs → Prop) (Qr : R → hs → Prop) s :
  Qv tt (MkHs (h_state s) (h_cache s) (f (h_world s)) (h_keylog s)) → wp (net_modify f : CM R unit) Qv Qr s.
Proof. done. Qed.

Lemma wp_push_cache {R} d e q t b (Qv : unit → hs → Prop) (Qr : R → hs → Prop) s :
  Qv tt (MkHs (h_state s) (Push (h_cache s) d e q t b) (h_world s) (h_keylog s)) → wp (push_cache d e q t b : CM R unit) Qv Qr s.
Proof. done. Qed.

Lemma wp_returns {R A} (m : CM A A) Qv (Qr : R → hs → Prop) s : wp m Qv Qv s → wp (returns m : CM R A) Qv Qr s.
Proof. unfold wp, returns. by destruct (m s) as [[]]. Qed.

Lemma wp_try {R A} (m : CM dtls_error A) (Qv : option dtls_error → hs → Prop) (Qr : R → hs → Prop) s :
  wp m (λ _, Qv None) (λ e, Qv (Some e)) s → wp (try m : CM R _) Qv Qr s.
Proof. unfold wp, try. by destruct (m s) as [[]]. Qed.

Section keeps.
Context (P : hs (W := net) → hs (W := net) → Prop) {Ppre : PreOrder P}.

(** However the program ends, the relation holds between before and after. *)
Definition keeps {R A} (m : CM R A) : Prop := ∀ s, P s (m s).2.

Lemma keeps_bind {R A B} (m : CM R A) (k : A → CM R B) : keeps m → (∀ a, keeps (k a)) → keeps (m ≫= k).
Proof.
  intros Hm Hk s. specialize (Hm s). unfold mbind, M_bind. destruct (m s) as [[a|r|] s1]; [|done..]. transitivity s1; [done|]. apply Hk.
Qed.

Lemma keeps_pure {R A} (m : CM R A) : (∀ s, (m s).2 = s) → keeps m.
Proof. intros Hm s. by rewrite Hm. Qed.

Lemma keeps_val {R A} (a : A) : keeps (val a : CM R A).
Proof. by apply keeps_pure. Qed.
Lemma keeps_ret {R A} (r : R) : keeps (ret r : CM R A).
Proof. by apply keeps_pure. Qed.
Lemma keeps_crash {R A} : keeps (crash : CM R A).
Proof. by apply keeps_pure. Qed.
Lemma keeps_gets {R A} (f : State → A) : keeps (gets f : CM R A).
Proof. by apply keeps_pure. Qed.
Lemma keeps_net_get {R A} (f : net → A) : keeps (net_get f : CM R A).
Proof. by apply keeps_pure. Qed.
Lemma keeps_lift {R A} (m : res dtls_error A) (onerr : dtls_error → R) : keeps (lift m onerr).
Proof. apply keeps_pure. intros s. by destruct m. Qed.
Lemma keeps_deref {R A} (f : State → option A) : keeps (deref f : CM R A).
Proof. apply keeps_pure. intros s. unfold deref. by destruct (f (h_state s)). Qed.
Lemma keeps_fail_if {R} (o : option R) : keeps (fail_if o).
Proof. apply keeps_pure. intros s. by destruct o. Qed.

Lemma keeps_returns {R A} (m : CM A A) : keeps m → keeps (returns m : CM R A).
Proof. intros Hm s. specialize (Hm s). unfold returns. by destruct (m s) as [[]]. Qed.
Lemma keeps_try {R A} (m : CM dtls_error A) : keeps m → keeps (try m : CM R _).
Proof. intros Hm s. specialize (Hm s). unfold try. by destruct (m s) as [[]]. Qed.

Lemma keeps_for_each {R A} (l : list A) (f : A → CM R unit) : (∀ a, keeps (f a)) → keeps (for_each l f).
Proof. intros Hf. induction l as [|a l IH]; [apply keeps_val|]. by apply keeps_bind. Qed.

(** Changes of the state, of the connection and of the outside world. *)
Lemma keeps_modify {R} (f : State → State) : (∀ s, P s (MkHs (f (h_state s)) (h_cache s) (h_world s) (h_keylog s))) → keeps (modify f : CM R unit).
Proof. intros Hf s. apply Hf. Qed.
Lemma keeps_net_modify {R} (f : net → net) : (∀ s, P s (MkHs (h_state s) (h_cache s) (f (h_world s)) (h_keylog s))) → keeps (net_modify f : CM R unit).
Proof. intros Hf s. apply Hf. Qed.
Lemma keeps_on_world {R A} (f : W → A * W) : (∀ s w, P s (MkHs (h_state s) (h_cache s) ((h_world s) <| n_world := w |>) (h_keylog s))) →
  keeps (with_world (on_world f) : CM R A).
Proof. intros Hf s. unfold with_world, on_world. destruct (f (n_world (h_world s))) as [x w0]. apply Hf. Qed.
Lemma keeps_act {R A} (a : action A) (onerr : dtls_error → R) :
  (∀ s, P s (MkHs (h_state s) (h_cache s) (a (h_world s)).2 (h_keylog s))) → keeps (act a onerr).
Proof. intros Hf s. specialize (Hf s). unfold act. destruct (a (h_world s)) as [[x|e|] w]; done. Qed.
End keeps.

End conn.

Ltac keeps_step :=
  lazymatch goal with
  | |- keeps _ (mbind _ _) => apply keeps_bind; [apply _| |intros ?]
  | |- keeps _ (val _) => apply keeps_val; apply _
  | |- keeps _ (ret _) => apply keeps_ret; apply _
  | |- keeps _ crash => apply keeps_crash; apply _
  | |- keeps _ (gets _) => apply keeps_gets; apply _
  | |- keeps _ (net_get _) => apply keeps_net_get; apply _
  | |- keeps _ (lift _ _) => apply keeps_lift; apply _
  | |- keeps _ (deref _) => apply keeps_deref; apply _
  | |- keeps _ (fail_if _) => apply keeps_fail_if; apply _
  | |- keeps _ (returns _) => apply keeps_returns
  | |- keeps _ (try _) => apply keeps_try
  | |- keeps _ (for_each _ _) => apply keeps_for_each; [apply _|intros ?]
  | |- keeps _ (if ?b then _ else _) => destruct b eqn:?
  | |- keeps _ (match ?x with _ => _ end) => destruct x eqn:?
  end.

Ltac keeps_run := repeat keeps_step.

Section conn_interface.
Context `{Cryptobyte} `{Ciphers} `{KeyExchange.KeyAgreement} `{PKI} `{Unicode} {W : Type} `{World W} `{ReplayDetector} `{Network W}.
Abbreviation NET := (net (W := W)).
Abbreviation CM := (M (W := NET)).
Implicit Types (cc : conn_config (W := W)) (s : hs (W := NET)).

(** *** Sending changes only sequence numbers, and adds own messages to the cache *)

Definition sends s s' : Prop := quiet (h_state s) (h_state s') ∧
  ∃ new, h_cache s' = h_cache s ++ new ∧ Forall (λ i, it_IsClient i = st_IsClient (h_state s)) new.

Lemma quiet_refl st : quiet st st.
Proof. exists (st_LocalSequenceNumber st), (st_LocalEpoch st), (st_RemoteEpoch st). by destruct st. Qed.

Lemma quiet_trans st1 st2 st3 : quiet st1 st2 → quiet st2 st3 → quiet st1 st3.
Proof. intros (? & ? & ? & ->) (a & b & c & ->). exists a, b, c. by destruct st1. Qed.

Lemma quiet_role st st' : quiet st st' → st_IsClient st' = st_IsClient st.
Proof. by intros (? & ? & ? & ->). Qed.

#[global] Instance sends_preorder : PreOrder sends.
Proof.
  split.
  - intros s. split; [apply quiet_refl|]. exists []. by rewrite app_nil_r.
  - intros s1 s2 s3 [Hq1 (n1 & E1 & F1)] [Hq2 (n2 & E2 & F2)]. split; [by eapply quiet_trans|].
    exists (n1 ++ n2). rewrite E2, E1, (assoc_L (++)). split; [done|]. apply Forall_app. split; [done|]. by rewrite (quiet_role _ _ Hq1) in F2.
Qed.

Lemma sends_numbers s seqs : sends s (MkHs ((h_state s) <| st_LocalSequenceNumber := seqs |>) (h_cache s) (h_world s) (h_keylog s)).
Proof.
  split; [|exists []; by rewrite app_nil_r]. exists seqs, (st_LocalEpoch (h_state s)), (st_RemoteEpoch (h_state s)). cbn. by destruct (h_state s).
Qed.

Lemma sends_world s n : sends s (MkHs (h_state s) (h_cache s) n (h_keylog s)).
Proof. split; [apply quiet_refl|]. exists []. by rewrite app_nil_r. Qed.

Lemma next_sequence_number_sends e : keeps sends (next_sequence_number e).
Proof. unfold next_sequence_number. keeps_run. apply keeps_modify. intros s. apply sends_numbers. Qed.

Lemma grow_sequence_numbers_sends R e : keeps sends (grow_sequence_numbers e : CM R unit).
Proof. apply keeps_modify. intros s. apply sends_numbers. Qed.

Lemma encrypt_packet_sends p raw : keeps sends (encrypt_packet p raw).
Proof. unfold encrypt_packet. keeps_run. Qed.

Lemma processPacket_sends p : keeps sends (processPacket p).
Proof.
  unfold processPacket. keeps_run; auto using next_sequence_number_sends, grow_sequence_numbers_sends, encrypt_packet_sends.
Qed.

Lemma handshake_records_sends cc frags p : keeps sends (handshake_records cc p frags).
Proof.
  revert p. induction frags as [|x frags IH]; intros p; cbn [handshake_records]; cbv zeta;
    keeps_run; auto using next_sequence_number_sends, encrypt_packet_sends.
  apply keeps_on_world. intros s w. apply sends_world.
Qed.

Lemma raw_packets_sends cc pkts : keeps sends (raw_packets cc pkts).
Proof.
  induction pkts as [|p pkts IH]; cbn [raw_packets]; [apply keeps_val; apply _|].
  apply keeps_bind; [apply _| |intros [p' raw]; keeps_run; auto].
  destruct (pk_Content p); [|keeps_run; apply processPacket_sends..].
  apply keeps_bind; [apply _|keeps_run|]. intros [p' d]. apply keeps_bind; [apply _|keeps_run|]. intros data.
  intros s. destruct (pk_Content p') as [h m| | |]; [|reflexivity..].
  assert (keeps sends (processHandshakePacket cc p' h m)) as Hp.
  { unfold processHandshakePacket. keeps_run; auto using grow_sequence_numbers_sends, handshake_records_sends. }
  etransitivity; [|apply Hp]. split; [apply quiet_refl|]. eexists. split; [reflexivity|]. by repeat constructor.
Qed.

Lemma write_packets_sends cc pkts : keeps sends (write_packets cc pkts).
Proof.
  unfold write_packets, write_datagram. keeps_run; auto using raw_packets_sends. apply keeps_on_world. intros s w. apply sends_world.
Qed.

(** *** An alert does not change the cache *)

Definition still s s' : Prop := quiet (h_state s) (h_state s') ∧ h_cache s' = h_cache s ∧ h_keylog s' = h_keylog s.

#[global] Instance still_preorder : PreOrder still.
Proof.
  split; [by intros s; split; [apply quiet_refl|]|]. intros s1 s2 s3 (? & ? & ?) (? & ? & ?). split_and!; [by eapply quiet_trans|congruence..].
Qed.

Lemma still_world s n : still s (MkHs (h_state s) (h_cache s) n (h_keylog s)).
Proof. split_and!; [apply quiet_refl|done..]. Qed.

Lemma still_numbers s seqs : still s (MkHs ((h_state s) <| st_LocalSequenceNumber := seqs |>) (h_cache s) (h_world s) (h_keylog s)).
Proof. split_and!; [|done..]. by destruct (sends_numbers s seqs). Qed.

Lemma processPacket_still p : keeps still (processPacket p).
Proof.
  unfold processPacket, grow_sequence_numbers, next_sequence_number, encrypt_packet.
  keeps_run; apply keeps_modify; intros s; apply still_numbers.
Qed.

Lemma send_alert_still cc a : keeps still (send_alert cc a).
Proof.
  unfold send_alert, sessionKey, write_packets, write_datagram. cbn [raw_packets pk_Content]. keeps_run; auto using processPacket_still.
  - apply keeps_act. intros s. apply still_world.
  - apply keeps_on_world. intros s w. apply still_world.
Qed.

(** *** Receiving adds messages of the peer *)

Lemma Message_Unmarshal_type kx t d m : Message_Unmarshal kx t d = Ok m → Message_Type m = t.
Proof.
  unfold Message_Unmarshal.
  repeat match goal with |- (if t =? ?x then _ else _) = _ → _ => destruct (Z.eqb_spec t x) as [->|_] end; try done; try (by intros [= <-]);
    intros Hm; by apply bind_Ok_inv in Hm as (? & _ & [= <-]).
Qed.

Lemma Handshake_Unmarshal_type kx data hd m hd' : Handshake_Unmarshal kx data = Ok (hd, m) → Header_Unmarshal data = Ok hd' → Message_Type m = Type_ hd'.
Proof.
  unfold Handshake_Unmarshal. intros Hu Hh. rewrite Hh in Hu. cbn [mbind res_bind] in Hu.
  apply bind_Ok_inv in Hu as (d & _ & Hu). destruct (negb _); [done|]. destruct (negb _); [done|].
  apply bind_Ok_inv in Hu as (t & Ht & Hu). apply bind_Ok_inv in Hu as (d' & _ & Hu). apply bind_Ok_inv in Hu as (m' & Hm & [= <- <-]).
  rewrite (Message_Unmarshal_type _ _ _ _ Hm). revert Hh. unfold Header_Unmarshal. destruct (_ <? _); [done|]. rewrite Ht. cbn [mbind res_bind].
  intros Hh. repeat (apply bind_Ok_inv in Hh as (? & _ & Hh)). by injection Hh as <-.
Qed.

(** Epochs change, and messages are added that have the type in their header. *)
Definition receives s s' : Prop := quiet (h_state s) (h_state s') ∧ h_keylog s' = h_keylog s ∧
  ∃ new, h_cache s' = h_cache s ++ new ∧ cache_typed (st_IsClient (h_state s)) new.

#[global] Instance receives_preorder : PreOrder receives.
Proof.
  split.
  - intros s. split_and!; [apply quiet_refl|done|]. exists []. rewrite app_nil_r. split; [done|constructor].
  - intros s1 s2 s3 (Hq1 & K1 & n1 & E1 & F1) (Hq2 & K2 & n2 & E2 & F2). split_and!; [by eapply quiet_trans|congruence|].
    exists (n1 ++ n2). rewrite E2, E1, (assoc_L (++)). split; [done|]. apply Forall_app. split; [done|]. by rewrite (quiet_role _ _ Hq1) in F2.
Qed.

Lemma still_receives s s' : still s s' → receives s s'.
Proof. intros (Hq & Ec & Ek). split_and!; [done..|]. exists []. rewrite app_nil_r. split; [done|constructor]. Qed.

Lemma keeps_weaken (P Q : hs → hs → Prop) {R A} (m : CM R A) : (∀ s s', P s s' → Q s s') → keeps P m → keeps Q m.
Proof. intros HPQ Hm s. apply HPQ, Hm. Qed.

Lemma receives_world s n : receives s (MkHs (h_state s) (h_cache s) n (h_keylog s)).
Proof. apply still_receives, still_world. Qed.

Lemma net_modify_receives {R} f : keeps receives (net_modify f : CM R unit).
Proof. apply keeps_net_modify. intros s. apply receives_world. Qed.

Lemma mark_receives e q : keeps receives (mark e q).
Proof. unfold mark. keeps_run. apply net_modify_receives. Qed.

Lemma push_cache_receives {R} d e header b : Header_Unmarshal d = Ok header →
  keeps receives (push_cache d e (MessageSequence header) (Type_ header) b : CM R unit).
Proof.
  intros Eh s. split_and!; [apply quiet_refl|done|]. eexists. split; [reflexivity|].
  repeat constructor. intros _ kx hd m Hm. by eapply Handshake_Unmarshal_type.
Qed.

Lemma pop_messages_receives fuel : keeps receives (pop_messages fuel).
Proof. induction fuel as [|fuel IH]; cbn [pop_messages]; keeps_run; auto using net_modify_receives, push_cache_receives. Qed.

Lemma enqueue_if_receives {R} b rAddr r : keeps receives (enqueue_if b rAddr r : CM R unit).
Proof. unfold enqueue_if, enqueueEncryptedPackets. keeps_run. apply net_modify_receives. Qed.

Lemma handle_content_receives header c r rAddr b : keeps receives (handle_content header c r rAddr b).
Proof.
  unfold handle_content. keeps_run; auto using mark_receives, enqueue_if_receives, net_modify_receives.
  apply keeps_modify. intros s. split_and!; [|done|exists []; rewrite app_nil_r; split; [done|constructor]].
  exists (st_LocalSequenceNumber (h_state s)), (st_LocalEpoch (h_state s)), (u16 (RecordHeader.Epoch header + 1)). cbn. by destruct (h_state s).
Qed.

Lemma handleIncomingPacket_receives cc r rAddr b : keeps receives (handleIncomingPacket cc r rAddr b).
Proof.
  unfold handleIncomingPacket, decrypt_record, handle_record.
  keeps_run; auto using mark_receives, enqueue_if_receives, net_modify_receives, pop_messages_receives, handle_content_receives.
Qed.

Lemma handle_packet_receives cc r rAddr b : keeps receives (handle_packet cc r rAddr b).
Proof.
  unfold handle_packet. keeps_run; auto using handleIncomingPacket_receives.
  eapply keeps_weaken; [apply still_receives|apply send_alert_still].
Qed.

Lemma handleQueuedPackets_receives cc : keeps receives (handleQueuedPackets cc).
Proof. unfold handleQueuedPackets. keeps_run; auto using net_modify_receives, handle_packet_receives. Qed.

Lemma handle_packets_receives cc rs rAddr : keeps receives (handle_packets cc rs rAddr).
Proof. induction rs as [|r rs IH]; cbn [handle_packets]; keeps_run; auto using handle_packet_receives. Qed.

Lemma readAndBuffer_receives cc b d rAddr : keeps receives (readAndBuffer cc b d rAddr).
Proof. unfold readAndBuffer. keeps_run; auto using net_modify_receives, handle_packets_receives. Qed.

Lemma on_read_error_receives cc e : keeps receives (on_read_error cc e).
Proof.
  assert (keeps receives (send_alert cc (MkAlert Warning CloseNotify))) as Ha by (eapply keeps_weaken; [apply still_receives|apply send_alert_still]).
  unfold on_read_error, conn_close. cbv zeta. keeps_run; auto using net_modify_receives.
Qed.

Lemma read_loop_receives cc b d rAddr : keeps receives (read_loop cc b d rAddr).
Proof.
  intros s. unfold read_loop. pose proof (readAndBuffer_receives cc b d rAddr s) as Hr.
  destruct (readAndBuffer cc b d rAddr s) as [[sig|e|] s1]; [done| |done]. pose proof (on_read_error_receives cc e s1) as He.
  destruct (on_read_error cc e s1) as [[go|e'|] s2]; by transitivity s1.
Qed.

(** ** The connection implements the interface of the handshake *)

Lemma result_keeps (P : hs → hs → Prop) {A} (m : CM dtls_error A) s r s' : keeps P m → result_of m s = (r, s') → P s s'.
Proof. intros Hm. specialize (Hm s). unfold result_of. destruct (m s) as [[a|e|] s1]; by intros [= <- <-]. Qed.

Lemma receives_typed s s' : receives s s' → typed s → typed s'.
Proof. intros (Hq & _ & new & Ec & Hn) Ht. unfold typed. rewrite Ec, (quiet_role _ _ Hq). by apply Forall_app. Qed.

Lemma sends_typed s s' : sends s s' → typed s → typed s'.
Proof.
  intros [Hq (new & Ec & Hn)] Ht. unfold typed. rewrite Ec, (quiet_role _ _ Hq). apply Forall_app. split; [done|].
  eapply Forall_impl; [exact Hn|]. intros i Hi Hi'. rewrite Hi in Hi'. by destruct (st_IsClient (h_state s)).
Qed.

Lemma conn_flights_ok cc : flightConn_ok (conn_flights cc).
Proof.
  split.
  - split; intros s r s' Hq; cbn in Hq; pose proof (result_keeps _ _ _ _ _ (handleQueuedPackets_receives cc) Hq) as Hr;
      [apply Hr|destruct Hr as (_ & _ & new & ? & _); by exists new|by apply receives_typed].
  - intros a s r s' Hq. by destruct (result_keeps still _ _ _ _ (send_alert_still cc a) Hq) as (? & ? & _).
  - intros ps s r ps' s' Hw. assert (sends s s') as Hs.
    { cbn in Hw. pose proof (write_packets_sends cc ps s) as Hk. destruct (write_packets cc ps s) as [[a|e|] s1]; by injection Hw as <- <- <-. }
    split_and!; [apply Hs|destruct Hs as [_ (new & ? & _)]; by exists new|by apply sends_typed].
Qed.

(** ** The whole connection: handshake, reader and timer *)

Definition with_hs (f : handshakeFSM12 (W := NET)) s : handshakeFSM12 (W := NET) :=
  MkFSM (currentFlight f) (flights f) (retransmit f) (retransmitInterval f) s.

Inductive conn_step cc : handshakeState * handshakeFSM12 (W := NET) → handshakeState * handshakeFSM12 (W := NET) → Prop :=
  | conn_prepare f r : prepare (conn_flights cc) (handshakeConfig cc) f = Some r → conn_step cc (handshakePreparing, f) r
  | conn_send f r : send (conn_flights cc) f = Some r → conn_step cc (handshakeSending, f) r
  | conn_wait ev f r : wait (conn_flights cc) (handshakeConfig cc) ev f = Some r → conn_step cc (handshakeWaiting, f) r
  | conn_finish ev f r : finish ev f = Some r → conn_step cc (handshakeFinished, f) r
  | conn_completed f : conn_step cc (handshakeFinished, f)
      (handshakeFinished, with_hs f (MkHs (h_state (f_hs f)) (h_cache (f_hs f)) ((h_world (f_hs f)) <| n_completed := true |>) (h_keylog (f_hs f))))
  | conn_read q f b datagram rAddr o s : read_loop cc b datagram rAddr (f_hs f) = (o, s) → conn_step cc (q, f) (q, with_hs f s).

(** A connection that was just made. *)
Definition new_net (rAddr : gostring) (w : W) : NET := MkNet FragmentBuffer.newFragmentBuffer [] rAddr [] [] false false false ∅ w.
Definition conn_start cc (isClient : bool) (rAddr : gostring) (w : W) := start (handshakeConfig cc) isClient (new_net rAddr w).

(** What the reader does is what the handshake expects of it. *)
Lemma receives_step cc q f s : receives (f_hs f) s → step (conn_flights cc) (handshakeConfig cc) (q, f) (q, with_hs f s).
Proof.
  intros (Hq & Ek & new & Ec & Hn). destruct s as [st ca w kl]. cbn in *. subst. by apply step_receive.
Qed.

Lemma conn_step_simulated cc x y : conn_step cc x y → step (conn_flights cc) (handshakeConfig cc) x y.
Proof.
  destruct 1; [by constructor|by constructor|by econstructor|by econstructor|apply receives_step, receives_world|].
  apply receives_step. pose proof (read_loop_receives cc b datagram rAddr (f_hs f)) as Hr. by rewrite H7 in Hr.
Qed.

Lemma conn_reachable cc b rAddr w y : rtc (conn_step cc) (conn_start cc b rAddr w) y →
  rtc (step (conn_flights cc) (handshakeConfig cc)) (start (handshakeConfig cc) b (new_net rAddr w)) y.
Proof. intros Hr. eapply (rtc_congruence id); [|exact Hr]. intros x z. apply conn_step_simulated. Qed.

(** C11: whom a client of DTLS 1.2 is connected to.  However the machine of the
    handshake, its timer and the reader of datagrams interleave, and whatever
    datagrams arrive, a client whose machine is in state Finished has completed one
    of two handshakes.
    - A full handshake: the record keys are those of the master secret and the two
      random values.  For a suite with certificates, a ServerKeyExchange message
      that the client has received passed the signature check under the server's
      first certificate, for these random values and with an offered scheme; the
      chain passed VerifyServerCert unless InsecureSkipVerify is set, and the
      application accepted it.  The master secret is that of the public key in a
      received ServerKeyExchange message, which is the signed one if the client has
      received no two different ones.  The server's Finished message carried the
      verify data of the whole transcript under this secret.
    - A resumed session, which needs a session store: the server's Finished message
      carried the verify data of the two hello messages under the client's master
      secret, which is the secret of a session of the store, or is empty.  Nothing
      else authenticates the server, and with the empty secret
      ([resumption_without_secret] has a run) nothing does. *)
Theorem client_connects_authenticated cc rAddr w f : rtc (conn_step cc) (conn_start cc true rAddr w) (handshakeFinished, f) →
  let cfg := handshakeConfig cc in let s := f_hs f in
  (currentFlight f = Flight5 ∧ server_authenticated cfg s ∧ peer_finished cfg s false Prf.VerifyDataServer (full_rules cfg)) ∨
  (currentFlight f = Flight5b ∧ client_resumed cfg (h_state s) ∧ peer_finished cfg s false Prf.VerifyDataServer (hello_rules cfg)).
Proof. intros Hr. eapply client_finishes_authenticated; [apply conn_flights_ok|by eapply conn_reachable]. Qed.


End conn_interface.
End DtlsConn.
