(* ===== verification/ConnData.v ===== *)
(** * Application data over a DTLS 1.2 connection

    What Write of one end and the reader of the other do together: the records
    are opened, whatever the network does with the datagrams they are delivered at
    most once, and nothing is delivered that was not protected with the keys of
    the connection.  Also what a record of somebody else can do. *)
From stdpp Require Import base tactics numbers list strings gmap relations.
From Stdlib Require Import ZArith Lia.
From S2P Require Import Prelude Sha2 Wire SignatureHash HandshakeCrypto Prf Record CipherSuite Extensions Fragment Handshake HandshakeState FlightCache Flight12 Flight12Auth Handshaker DtlsConn.
Import Protocol SignatureHash Extension Handshake HandshakeHeader State Config HandshakeCrypto Flight Selection AlertDescription Flight12 Flight12Auth Handshaker DtlsConn.
Open Scope Z_scope.

Module ConnData.

(** ** Equations of the monad *)

Section equations.
Context {W : Type}.

Lemma bind_val {R A B} (m : M (W := W) R A) (k : A → M R B) s a s' : m s = (Val a, s') → (m ≫= k) s = k a s'.
Proof. unfold mbind, M_bind. by intros ->. Qed.

Lemma bind_ret {R A B} (m : M (W := W) R A) (k : A → M R B) s r s' : m s = (Ret r, s') → (m ≫= k) s = (Ret r, s').
Proof. unfold mbind, M_bind. by intros ->. Qed.

Lemma lift_Ok {R A} (m : res dtls_error A) (onerr : dtls_error → R) a (s : hs (W := W)) : m = Ok a → lift m onerr s = (Val a, s).
Proof. by intros ->. Qed.

Lemma bind_lift {R A B} (m : res dtls_error A) (onerr : dtls_error → R) (k : A → M R B) a (s : hs (W := W)) :
  m = Ok a → (lift m onerr ≫= k) s = k a s.
Proof. by intros ->. Qed.
End equations.

Lemma grow_lookup {A} (l : list A) e a : 0 ≤ e → grow l e a !! Z.to_nat e = Some (default a (l !! Z.to_nat e)).
Proof.
  intros He. unfold grow. destruct (l !! Z.to_nat e) as [x|] eqn:E; cbn [default].
  - by apply lookup_app_l_Some.
  - apply lookup_ge_None in E. rewrite lookup_app_r by done. apply lookup_replicate_2. lia.
Qed.

Section data.
Context `{CryptobyteLaws} `{CiphersLaws} `{KeyExchange.KeyAgreement} `{PKI} `{Unicode} {W : Type} `{World W} `{ReplayDetectorLaws} `{Network W}.
Abbreviation NET := (net (W := W)).
Abbreviation CM := (M (W := NET)).
Implicit Types (cc : conn_config (W := W)) (s : hs (W := NET)).

(** ** Sending *)

(** The next sequence number of an epoch. *)
Definition seq_of (s : hs (W := NET)) (e : Z) : Z := default 0 (st_LocalSequenceNumber (h_state s) !! Z.to_nat e).

(** The state after a number was used. *)
Definition used (e : Z) (s : hs (W := NET)) : hs (W := NET) :=
  MkHs ((h_state s) <| st_LocalSequenceNumber := <[Z.to_nat e := u64 (seq_of s e + 1)]> (grow (st_LocalSequenceNumber (h_state s)) e 0) |>)
    (h_cache s) (h_world s) (h_keylog s).

Lemma next_number {A} e s (k : Z → CM dtls_error A) : 0 ≤ e → seq_of s e ≤ RecordHeader.MaxSequenceNumber →
  (_ ← grow_sequence_numbers e; seq ← next_sequence_number e; k seq) s = k (seq_of s e) (used e s).
Proof.
  intros He Hm. set (l := grow (st_LocalSequenceNumber (h_state s)) e 0).
  assert (idx l e = Ok (seq_of s e) :> res dtls_error Z) as Hi.
  { unfold idx, l. destruct (Z.leb_spec 0 e); [|lia]. by rewrite grow_lookup. }
  erewrite bind_val; [|reflexivity]. apply bind_val. unfold next_sequence_number. erewrite bind_val; [|reflexivity].
  change (st_LocalSequenceNumber (h_state (MkHs _ _ _ _))) with l. erewrite bind_lift; [|exact Hi]. erewrite bind_val; [|reflexivity].
  destruct (Z.ltb_spec RecordHeader.MaxSequenceNumber (seq_of s e)); [lia|]. reflexivity.
Qed.

(** *** A packet that is protected *)

(** The two ends of one direction of a connection: keys, epoch and connection ID. *)
Record joined (e : Z) (s1 s2 : hs (W := NET)) : Prop := {
  jo_keys : ∃ p q, protection (h_state s1) = Some p ∧ protection (h_state s2) = Some q ∧ CipherSuite.opens p q;
  jo_epoch : is_u16 e ∧ 0 < e;
  jo_local : st_LocalEpoch (h_state s1) = e;
  jo_remote : st_RemoteEpoch (h_state s2) = e;
  jo_cid : remote_cid (h_state s1) = local_cid (h_state s2);
  jo_cid_ok : bytes_ok (local_cid (h_state s2)) ∧ len (local_cid (h_state s2)) < 2 ^ 8
}.

(** A packet of the connection with this content. *)
Definition protected_packet s (c : Content) : Packet :=
  MkPacket (record_header (st_LocalEpoch (h_state s))) c true (0 <? len (remote_cid (h_state s))) false.

(** A header of the record in the clear, and a record that is opened to it. *)
Definition clear_header (e n t k : Z) : RecordHeader.Header := RecordHeader.MkHeader t k Version1_2 e n [].

Definition record_for (e n : Z) s2 (t : Z) (content raw : bytes) : Prop :=
  ∃ body h, RecordHeader.is_record (len (local_cid (h_state s2))) raw body ∧ body ≠ [] ∧ len raw ≤ len content + 300 ∧
    RecordHeader.Header_Unmarshal (zero_record_header (zeros (len (local_cid (h_state s2))))) raw = Ok h ∧
    RecordHeader.Epoch h = e ∧ RecordHeader.SequenceNumber h = n ∧
    ∃ k, is_u16 k ∧ ∀ r rAddr b s, h_state s = h_state s2 → decrypt_record h raw r rAddr b s = (Val (Aead.header_bytes (clear_header e n t k) ++ content), s).

Lemma protection_Some (st : State) p : protection st = Some p → is_Some (st_CipherSuite st) ∧ st_Protection st = Some p.
Proof. unfold protection. by destruct (st_CipherSuite st). Qed.

Lemma encrypt_protected p raw s prot enc : pk_ShouldEncrypt p = true → protection (h_state s) = Some prot →
  CipherSuite.Encrypt prot (pk_Header p) raw = Ok enc → encrypt_packet p raw s = (Val enc, s).
Proof.
  intros Hp [[cs Hc] Hq]%protection_Some He. unfold encrypt_packet. rewrite Hp.
  erewrite bind_val; [|unfold deref; by rewrite Hc]. erewrite bind_val; [|reflexivity]. rewrite Hq. by apply lift_Ok.
Qed.

(** A decrypted record that is not wrapped. *)
Lemma decrypt_plain h raw r rAddr b s q plain : protection (h_state s) = Some q → local_cid (h_state s) = [] →
  RecordHeader.ContentType h ≠ ContentTypeConnectionID → RecordHeader.ConnectionID h = [] →
  CipherSuite.Decrypt q (zero_record_header []) raw = Ok plain → decrypt_record h raw r rAddr b s = (Val plain, s).
Proof.
  intros Hq Hc Ht Hh Hd. unfold decrypt_record. erewrite bind_val; [|reflexivity]. cbn [id]. rewrite Hq, Hc, Hh. cbv zeta.
  destruct (Z.eqb_spec (RecordHeader.ContentType h) ContentTypeConnectionID); [done|]. change (0 <? len []) with false. cbn [andb negb].
  erewrite bind_lift; [|exact Hd]. erewrite bind_lift; [|reflexivity]. by rewrite bool_decide_true.
Qed.

(** A record with a connection ID. *)
Lemma decrypt_cid h raw r rAddr b s q plain out : protection (h_state s) = Some q → local_cid (h_state s) = RecordHeader.ConnectionID h →
  RecordHeader.ContentType h = ContentTypeConnectionID →
  CipherSuite.Decrypt q (zero_record_header (zeros (len (local_cid (h_state s))))) raw = Ok plain → unwrap_cid h plain = Ok out →
  decrypt_record h raw r rAddr b s = (Val out, s).
Proof.
  intros Hq Hc Ht Hd Hu. unfold decrypt_record. erewrite bind_val; [|reflexivity]. cbn [id]. rewrite Hq, Ht, Z.eqb_refl. cbv zeta. cbn [negb].
  rewrite andb_false_r. erewrite bind_lift; [|exact Hd]. erewrite bind_lift; [|exact Hu]. by rewrite bool_decide_true.
Qed.

Lemma header_is_record c h body : is_u16 (len body) → RecordHeader.ContentLen h = len body →
  len (RecordHeader.ConnectionID h) = (if RecordHeader.ContentType h =? ContentTypeConnectionID then c else 0) →
  RecordHeader.is_record c (Aead.header_bytes h ++ body) body.
Proof.
  intros Hb Hl Hc. exists (RecordHeader.ContentType h), ([Major (RecordHeader.HVersion h); Minor (RecordHeader.HVersion h)] ++ be_put 2 (RecordHeader.Epoch h) ++
    be_put 6 (RecordHeader.SequenceNumber h) ++ RecordHeader.ConnectionID h).
  split_and!; [|rewrite !len_app, !len_be_put, Hc; autorewrite with golen; lia|done].
  unfold Aead.header_bytes. rewrite Hl, <- !(assoc_L (++)). done.
Qed.

(** The inner plaintext of a record with a connection ID. *)
Lemma unwrap_inner h inner e n t content : RecordHeader.HVersion h = Version1_2 → RecordHeader.Epoch h = e → RecordHeader.SequenceNumber h = n →
  is_u16 e → is_u48 n → is_byte t → t ≠ 0 → t ≠ ContentTypeConnectionID →
  RecordHeader.Inner_Marshal (RecordHeader.MkInner content t 0) = Ok inner →
  unwrap_cid h (Aead.header_bytes h ++ inner) = Ok (Aead.header_bytes (clear_header e n t (u16 (len content))) ++ content).
Proof.
  intros Hv He Hn Hu Hu' Ht Ht0 Htc Hm. unfold unwrap_cid. rewrite slice_from_app by (by rewrite Aead.header_bytes_len). cbn [mbind res_bind].
  destruct (RecordHeader.Inner_roundtrip (RecordHeader.MkInner content t 0)) as (b & Hb & Hi); [done..|]. rewrite Hm in Hb. injection Hb as <-.
  rewrite Hi. cbn [mbind res_bind RecordHeader.ip_RealType RecordHeader.ip_Content]. rewrite Hv, He, Hn.
  fold (clear_header e n t (u16 (len content))). rewrite Aead.Header_Marshal_bytes; [done|].
  split; cbn; [done|apply u16_range|by right|done..].
Qed.

Lemma Inner_Marshal_len content t : ∃ inner, RecordHeader.Inner_Marshal (RecordHeader.MkInner content t 0) = Ok inner ∧ len inner = len content + 1.
Proof.
  unfold RecordHeader.Inner_Marshal. cbn. rewrite Bytes_AddBytes, Bytes_AddUint, Bytes_AddBytes, Bytes_New. cbn [mbind res_bind app].
  eexists. split; [done|]. rewrite app_nil_r, len_app, len_be_put. lia.
Qed.

(** The plain record that Record.Marshal makes. *)
Lemma Record_Marshal_content p c t content : pk_Content p = c → Content_Marshal c = Ok (c, content) → Content_Type c = t → is_byte t →
  t ≠ ContentTypeConnectionID → RecordHeader.HVersion (pk_Header p) = Version1_2 → is_u16 (RecordHeader.Epoch (pk_Header p)) →
  is_u48 (RecordHeader.SequenceNumber (pk_Header p)) → RecordHeader.ConnectionID (pk_Header p) = [] →
  let h := clear_header (RecordHeader.Epoch (pk_Header p)) (RecordHeader.SequenceNumber (pk_Header p)) t (u16 (len content)) in
  Record_Marshal p = Ok (with_header p h, Aead.header_bytes h ++ content) ∧ RecordHeader.header_ok h.
Proof.
  intros Hp Hc Ht Hb Hn Hv He Hs Hi h. unfold Record_Marshal. rewrite Hp, Hc. cbn [mbind res_bind]. cbv zeta. rewrite Ht, Hv, Hi.
  fold (clear_header (RecordHeader.Epoch (pk_Header p)) (RecordHeader.SequenceNumber (pk_Header p)) t (u16 (len content))). fold h.
  assert (RecordHeader.header_ok h) as Hh by (split; cbn; [done|apply u16_range|by right|done..]).
  rewrite Aead.Header_Marshal_bytes by done. split; [|done]. unfold with_header. by rewrite Hp.
Qed.

(** The record with a connection ID around it. *)
Definition cid_header (h : RecordHeader.Header) (cid : bytes) (k : Z) : RecordHeader.Header :=
  RecordHeader.MkHeader ContentTypeConnectionID k (RecordHeader.HVersion h) (RecordHeader.Epoch h) (RecordHeader.SequenceNumber h) cid.

Lemma cid_record_ok h cid content t : RecordHeader.header_ok h → is_byte t → len cid < 2 ^ 8 → len content + 1 < 2 ^ 16 →
  ∃ inner, RecordHeader.Inner_Marshal (RecordHeader.MkInner content t 0) = Ok inner ∧ len inner = len content + 1 ∧
    let h1 := cid_header h cid (u16 (len inner)) in
    cid_record h (RecordHeader.MkInner content t 0) cid = Ok (h1, Aead.header_bytes h1 ++ inner) ∧ RecordHeader.header_ok h1.
Proof.
  intros Hh Ht Hc Hl. destruct (Inner_Marshal_len content t) as (inner & Hm & Hi). exists inner. split; [done|]. split; [done|]. cbv zeta.
  assert (RecordHeader.header_ok (cid_header h cid (u16 (len inner)))) as Hok by (destruct Hh; split; cbn; [done|apply u16_range|done..]).
  split; [|done]. unfold cid_record. rewrite Hm. cbn [mbind res_bind]. cbv zeta. fold (cid_header h cid (u16 (len inner))).
  by rewrite Aead.Header_Marshal_bytes.
Qed.

Lemma wrap_packet pk h c content t cid h1 raw s raw0 : Record_Marshal pk = Ok (with_header pk h, raw0) → Content_Marshal c = Ok (c, content) →
  pk_Content pk = c → RecordHeader.ContentType h = t → remote_cid (h_state s) = cid →
  cid_record h (RecordHeader.MkInner content t 0) cid = Ok (h1, raw) →
  ('(p, _) ← lift (Record_Marshal pk) id;
   '(_, content) ← lift (Content_Marshal (pk_Content p)) id;
   cid ← gets remote_cid;
   '(h, raw) ← lift (cid_record (pk_Header p) (RecordHeader.MkInner content (RecordHeader.ContentType (pk_Header p)) 0) cid) id;
   val (with_header p h, raw)) s = (Val (with_header pk h1, raw), s).
Proof.
  intros Hm Hc Hp Ht Hi Hr. unfold mbind, M_bind, lift. rewrite Hm. cbn [pk_Content with_header pk_Header]. rewrite Hp, Hc. unfold gets. by rewrite Ht, Hi, Hr.
Qed.

Lemma processPacket_record e s1 s2 c t content : joined e s1 s2 → 0 ≤ seq_of s1 e ≤ RecordHeader.MaxSequenceNumber →
  Content_Marshal c = Ok (c, content) → Content_Type c = t → is_byte t → t ≠ 0 → t ≠ ContentTypeConnectionID → t ≠ ContentTypeChangeCipherSpec →
  len content + 25 < 2 ^ 16 →
  ∃ p raw, processPacket (protected_packet s1 c) s1 = (Val (p, raw), used e s1) ∧ record_for e (seq_of s1 e) s2 t content raw.
Proof.
  intros [(p & q & Hp & Hq & Ho) [He He0] Hl Hr Hc [Hok Hcl]] Hn Hm Ht Hb Ht0 Htc Hts Hsz. pose proof (len_nonneg content) as Hc0.
  unfold processPacket. cbn [pk_Header protected_packet record_header RecordHeader.Epoch]. rewrite Hl. rewrite next_number by lia. cbv zeta.
  set (n := seq_of s1 e) in *. assert (is_u48 n) as Hu by (unfold RecordHeader.MaxSequenceNumber, is_u48 in *; lia).
  set (pk := set_sequence_number _ n).
  destruct (Record_Marshal_content pk c t content) as [Hrm Hhok]; [cbn; by rewrite ?Hl..|]. cbv zeta in Hrm, Hhok.
  change (RecordHeader.Epoch (pk_Header pk)) with (st_LocalEpoch (h_state s1)) in Hrm, Hhok. rewrite Hl in Hrm, Hhok.
  change (RecordHeader.SequenceNumber (pk_Header pk)) with n in Hrm, Hhok.
  set (h := clear_header e n t (u16 (len content))) in *.
  cbn [pk_ShouldWrapCID pk set_sequence_number with_header protected_packet]. rewrite Hc. set (cid := local_cid (h_state s2)) in *.
  destruct (Z.ltb_spec 0 (len cid)) as [Hwrap|Hplain].
  - destruct (cid_record_ok h cid content t) as (inner & Hin & Hil & Hcr & Hch); [done..|lia|lia|].
    erewrite bind_val; [|exact (wrap_packet pk h c content t cid _ _ (used e s1) _ Hrm Hm eq_refl eq_refl Hc Hcr)].
    set (h1 := cid_header h cid (u16 (len inner))) in *.
    destruct (Ho h1 (zero_record_header (zeros (len cid))) inner Hch) as (enc & Hen & Hel & Hde);
      [cbn; unfold zeros, len; rewrite length_replicate; lia|done|lia|].
    erewrite bind_val; [|apply (encrypt_protected _ _ _ p); [reflexivity|exact Hp|exact Hen]]. do 2 eexists. split; [reflexivity|].
    set (h' := Aead.with_len h1 (len enc)) in *. assert (is_u16 (len enc)) as Hle by (unfold is_u16; lia).
    assert (RecordHeader.header_ok h') as Hh' by (by apply Aead.with_len_ok).
    exists enc, h'. fold cid. split_and!.
    + by apply header_is_record.
    + intros ->. change (len []) with 0 in Hel. lia.
    + rewrite len_app, Aead.header_bytes_len. unfold RecordHeader.Header_Size, RecordHeader.FixedHeaderSize. cbn [h' Aead.with_len h1 cid_header RecordHeader.ConnectionID]. lia.
    + apply Aead.Header_read; [done|]. cbn. unfold zeros, len. rewrite length_replicate. lia.
    + done.
    + done.
    + exists (u16 (len content)). split; [apply u16_range|]. intros r rAddr b s Hs.
      apply (decrypt_cid _ _ _ _ _ _ q (Aead.header_bytes h' ++ inner)); rewrite ?Hs; [done|done|done|exact Hde|].
      by apply unwrap_inner.
  - assert (cid = []) as Hnil by (destruct cid; [done|unfold len in Hplain; cbn in Hplain; lia]).
    erewrite bind_val; [|by apply lift_Ok].
    destruct (Ho h (zero_record_header []) content Hhok) as (enc & Hen & Hel & Hde); [done|done|lia|].
    erewrite bind_val; [|apply (encrypt_protected _ _ _ p); [reflexivity|exact Hp|exact Hen]]. do 2 eexists. split; [reflexivity|].
    set (h' := Aead.with_len h (len enc)) in *. assert (is_u16 (len enc)) as Hle by (unfold is_u16; lia).
    assert (RecordHeader.header_ok h') as Hh' by (by apply Aead.with_len_ok).
    exists enc, h'. fold cid. rewrite Hnil. split_and!.
    + apply header_is_record; [done..|]. cbn. by destruct (Z.eqb_spec t ContentTypeConnectionID).
    + intros ->. change (len []) with 0 in Hel. lia.
    + rewrite len_app, Aead.header_bytes_len. unfold RecordHeader.Header_Size, RecordHeader.FixedHeaderSize. cbn. change (len []) with 0. lia.
    + by apply Aead.Header_read.
    + done.
    + done.
    + exists (len enc). split; [done|]. intros r rAddr b s Hs. apply (decrypt_plain _ _ _ _ _ _ q); rewrite ?Hs; done.
Qed.

(** *** Write *)

(** One datagram is handed to the network, which may fail. *)
Definition emit {A} (d : bytes) (a : A) s : out dtls_error A * hs (W := NET) :=
  let '(err, w) := WriteToContext d (n_rAddr (h_world s)) (n_world (h_world s)) in
  (match err with Some e => Ret e | None => Val a end, MkHs (h_state s) (h_cache s) ((h_world s) <| n_world := w |>) (h_keylog s)).

(** The greatest payload whose record fits into the buffer of the reader. *)
Definition max_payload : Z := inboundBufferSize - 300.

Lemma Write_emits cc e s1 s2 payload : joined e s1 s2 → 0 ≤ seq_of s1 e ≤ RecordHeader.MaxSequenceNumber →
  n_closed (h_world s1) = false → len payload ≤ max_payload →
  ∃ d, conn_Write cc payload s1 = emit d (len payload) (used e s1) ∧ record_for e (seq_of s1 e) s2 ContentTypeApplicationData payload d.
Proof.
  intros Hj Hn Hc Hl. unfold max_payload, inboundBufferSize in Hl.
  destruct (processPacket_record e s1 s2 (ApplicationDataContent payload) ContentTypeApplicationData payload)
    as (p & raw & Hp & Hr); [done..|lia|]. exists raw. split; [|done].
  unfold conn_Write. erewrite bind_val; [|reflexivity]. rewrite Hc. erewrite bind_val; [|reflexivity]. cbn [id].
  fold (protected_packet s1 (ApplicationDataContent payload)).
  assert (raw_packets cc [protected_packet s1 (ApplicationDataContent payload)] s1 = (Val ([p], [raw]), used e s1)) as Hraw.
  { cbn [raw_packets]. change (pk_Content (protected_packet s1 _)) with (ApplicationDataContent payload). unfold mbind, M_bind. by rewrite Hp. }
  unfold write_packets. unfold mbind, M_bind. rewrite Hraw. cbn [compactRawPackets for_each].
  unfold emit, write_datagram, mbind, M_bind, net_get, with_world, on_world.
  destruct (WriteToContext raw _ _) as [[err|] w]; reflexivity.
Qed.

(** ** Receiving *)

(** The detector of an epoch, which is made when the first record arrives. *)
Definition detector_at cc (e : Z) s : detector :=
  default (replaydetector_New (replayProtectionWindow cc) RecordHeader.MaxSequenceNumber) (n_ReplayDetector (h_world s) !! Z.to_nat e).

(** The buffer of handshake fragments has room; otherwise nothing is received. *)
Definition has_room s : Prop :=
  FragmentBuffer.totalBufferSize (n_fragmentBuffer (h_world s)) + inboundBufferSize < FragmentBuffer.fragmentBufferMaxSize ∧
  FragmentBuffer.totalFragmentCount (n_fragmentBuffer (h_world s)) < FragmentBuffer.fragmentBufferMaxCount.

(** What a receiver of application data keeps. *)
Definition same_but_data s s' : Prop := h_state s' = h_state s ∧ h_cache s' = h_cache s ∧ h_keylog s' = h_keylog s ∧
  n_fragmentBuffer (h_world s') = n_fragmentBuffer (h_world s) ∧ n_encryptedPackets (h_world s') = n_encryptedPackets (h_world s) ∧
  n_closed (h_world s') = n_closed (h_world s).

#[global] Instance same_but_data_preorder : PreOrder same_but_data.
Proof. split; [by intros s; split_and!|]. unfold same_but_data. intros s1 s2 s3 (?&?&?&?&?&?) (?&?&?&?&?&?). split_and!; congruence. Qed.

Lemma push_data f e n t k content : is_u16 e → is_u48 n → is_byte t → is_u16 k → t ≠ ContentTypeConnectionID → t ≠ ContentTypeHandshake →
  FragmentBuffer.totalBufferSize f + (13 + len content) < FragmentBuffer.fragmentBufferMaxSize →
  FragmentBuffer.totalFragmentCount f < FragmentBuffer.fragmentBufferMaxCount →
  FragmentBuffer.push f (Aead.header_bytes (clear_header e n t k) ++ content) = (f, Ok (false, false)).
Proof.
  intros He Hn Ht Hk Hc Hh Hs Hm. unfold FragmentBuffer.push. rewrite len_app, Aead.header_bytes_len.
  change (RecordHeader.Header_Size (clear_header e n t k)) with 13.
  destruct (Z.leb_spec FragmentBuffer.fragmentBufferMaxSize (FragmentBuffer.totalBufferSize f + (13 + len content))); [lia|].
  destruct (Z.leb_spec FragmentBuffer.fragmentBufferMaxCount (FragmentBuffer.totalFragmentCount f)); [lia|]. cbn [orb].
  rewrite Aead.Header_read; [|split; cbn; [done|done|by right|done..]|done].
  cbn [RecordHeader.ContentType clear_header]. by destruct (Z.eqb_spec t ContentTypeHandshake).
Qed.

Lemma Record_Unmarshal_data e n k payload : is_u16 e → is_u48 n → is_u16 k →
  Record_Unmarshal (Aead.header_bytes (clear_header e n ContentTypeApplicationData k) ++ payload) = Ok (ApplicationDataContent payload).
Proof.
  intros He Hn Hk. unfold Record_Unmarshal. rewrite Aead.Header_read; [|split; cbn; [done|done|by right|done..]|done].
  cbn [mbind res_bind]. cbv zeta. rewrite slice_from_app by (by rewrite Aead.header_bytes_len). reflexivity.
Qed.

(** A record of application data in the clear. *)
Lemma handle_record_data header k payload r rAddr b s ds d : let e := RecordHeader.Epoch header in let n := RecordHeader.SequenceNumber header in
  is_u16 e → 0 < e → is_u48 n → is_u16 k → has_room s → len payload ≤ max_payload →
  n_ReplayDetector (h_world s) = ds → ds !! Z.to_nat e = Some d →
  ∃ s', handle_record header (Aead.header_bytes (clear_header e n ContentTypeApplicationData k) ++ payload) r rAddr b s = (Val discarded, s') ∧
    same_but_data s s' ∧ n_decrypted (h_world s') = n_decrypted (h_world s) ++ [inl payload] ∧
    n_ReplayDetector (h_world s') = <[Z.to_nat e := (Accept d n).2]> ds.
Proof.
  intros e n He He0 Hn Hk [Hs Hm] Hl Hds Hd. unfold max_payload, inboundBufferSize in *. unfold handle_record.
  erewrite bind_val; [|reflexivity]. rewrite push_data; [|done..|lia|done]. erewrite bind_val; [|reflexivity].
  erewrite bind_val; [|reflexivity]. cbv beta iota. rewrite Record_Unmarshal_data by done. erewrite bind_val; [|reflexivity].
  unfold handle_content. fold e n. destruct (Z.eqb_spec e 0); [lia|]. cbn [negb].
  unfold mark, mbind, M_bind, net_get, net_modify. cbn [h_world]. change (n_ReplayDetector (update _ _ (h_world s))) with (n_ReplayDetector (h_world s)).
  rewrite Hds, Hd. destruct (Accept d n) as [latest d']. cbn [fst snd].
  destruct (RecordHeader.ContentType header =? ContentTypeConnectionID), latest; eexists; (split; [reflexivity|by split_and!]).
Qed.

Lemma handleIncoming_data cc e n s2 s payload raw r rAddr b : record_for e n s2 ContentTypeApplicationData payload raw → h_state s = h_state s2 →
  is_u16 e → 0 < e → is_u48 n → st_RemoteEpoch (h_state s2) = e → load (h_world s) r = raw → has_room s → len payload ≤ max_payload →
  ∃ s', same_but_data s s' ∧
    if Check (detector_at cc e s) n
    then handleIncomingPacket cc r rAddr b s = (Val discarded, s') ∧ n_decrypted (h_world s') = n_decrypted (h_world s) ++ [inl payload] ∧
         detector_at cc e s' = (Accept (detector_at cc e s) n).2
    else handleIncomingPacket cc r rAddr b s = (Ret discarded, s') ∧ n_decrypted (h_world s') = n_decrypted (h_world s) ∧
         detector_at cc e s' = detector_at cc e s.
Proof.
  intros (body & h & _ & _ & _ & Hh & Eh & En & k & Hk & Hdec) Hst He He0 Hn Hre Hload Hroom Hl.
  unfold handleIncomingPacket. erewrite bind_val; [|reflexivity]. rewrite Hload. erewrite bind_val; [|reflexivity]. cbn [id].
  rewrite Hst. erewrite bind_lift; [|exact Hh]. rewrite Eh, En, Hre, Z.ltb_irrefl. erewrite bind_val; [|reflexivity]. erewrite bind_val; [|reflexivity].
  set (s0 := MkHs _ _ _ _).
  set (ds := n_ReplayDetector (h_world s0)). assert (ds !! Z.to_nat e = Some (detector_at cc e s)) as Hds.
  { unfold ds, s0. cbn [h_world]. change (n_ReplayDetector (update _ _ (h_world s))) with
      (grow (n_ReplayDetector (h_world s)) e (replaydetector_New (replayProtectionWindow cc) RecordHeader.MaxSequenceNumber)).
    rewrite grow_lookup by lia. done. }
  rewrite Hds. destruct (Check (detector_at cc e s) n) eqn:Hcheck; cbn [negb].
  - destruct (Z.eqb_spec e 0); [lia|]. erewrite bind_val; [|by apply Hdec].
    destruct (handle_record_data h k payload r rAddr b s0 ds (detector_at cc e s)) as (s' & Hr & Hsame & Hdata & Hdet); rewrite ?Eh, ?En in *; [done..|].
    exists s'. split; [by destruct Hsame|]. split_and!; [done|done|]. unfold detector_at at 1. rewrite Hdet, list_lookup_insert_eq; [done|].
    by eapply lookup_lt_Some.
  - exists s0. split_and!; [done..|]. unfold detector_at at 1. fold ds. by rewrite Hds.
Qed.

Lemma load_datagram b d (n : NET) :
  load (n <| n_buffers := <[b := d ++ drop (length d) (default (zeros inboundBufferSize) (n_buffers n !! b))]> (n_buffers n) |>)
  (Pooled b 0 (length d)) = d.
Proof. set (m := <[b := _]> (n_buffers n)). cbn [load]. change (n_buffers (update _ _ n)) with m. unfold m. rewrite lookup_insert_eq. cbn [default from_option id]. by rewrite drop_0, take_app_length. Qed.

Lemma receive_datagram cc e n s2 s payload d b rAddr : record_for e n s2 ContentTypeApplicationData payload d → h_state s = h_state s2 →
  is_u16 e → 0 < e → is_u48 n → st_RemoteEpoch (h_state s2) = e → has_room s → len payload ≤ max_payload →
  ∃ s', readAndBuffer cc b d rAddr s = (Val None, s') ∧ same_but_data s s' ∧
    if Check (detector_at cc e s) n
    then n_decrypted (h_world s') = n_decrypted (h_world s) ++ [inl payload] ∧ detector_at cc e s' = (Accept (detector_at cc e s) n).2
    else n_decrypted (h_world s') = n_decrypted (h_world s) ∧ detector_at cc e s' = detector_at cc e s.
Proof.
  intros Hrec Hst He He0 Hn Hre Hroom Hl. pose proof Hrec as (body & h & Hr & Hne & Hlen & _).
  unfold max_payload, inboundBufferSize in Hl. unfold readAndBuffer. rewrite take_ge by (unfold len, inboundBufferSize in *; lia).
  erewrite bind_val; [|reflexivity]. set (s0 := MkHs _ _ _ _). erewrite bind_val; [|reflexivity]. cbn [id].
  assert (RecordHeader.ContentAwareUnpackDatagram d (len (local_cid (h_state s0))) = Ok [d]) as Hu.
  { unfold RecordHeader.ContentAwareUnpackDatagram. change (h_state s0) with (h_state s). rewrite Hst.
    pose proof (RecordHeader.ContentAware_complete (len (local_cid (h_state s2))) [d] (length d) [] []) as Hcomp. cbn [concat app] in Hcomp.
    rewrite app_nil_r in Hcomp. apply Hcomp; [apply len_nonneg|by split; [exists body|]|done..]. }
  erewrite bind_lift; [|exact Hu]. cbn [refs handle_packets].
  destruct (handleIncoming_data cc e n s2 s0 payload d (Pooled b 0 (length d)) rAddr true) as (s' & Hsame & Hres); [done..|apply load_datagram|done|done|].
  exists s'. change (detector_at cc e s0) with (detector_at cc e s) in Hres.
  assert (returns (R := dtls_error) (handleIncomingPacket cc (Pooled b 0 (length d)) rAddr true) s0 = (Val discarded, s')) as Hret.
  { unfold returns. by destruct (Check _ n); destruct Hres as (-> & _). }
  split; [|split; [done|by destruct (Check _ n); destruct Hres as (_ & ? & ?)]].
  unfold handle_packet, mbind, M_bind. rewrite Hret. reflexivity.
Qed.

(** ** A stream of application data *)

(** Write is called with these payloads, one after the other, and hands these
    datagrams to the network. *)
Fixpoint written cc (e : Z) (pds : list (bytes * bytes)) s s' : Prop :=
  match pds with
  | [] => s' = s
  | (p, d) :: pds => conn_Write cc p s = emit d (len p) (used e s) ∧ written cc e pds (emit d (len p) (used e s)).2 s'
  end.

(** The datagrams that arrive, with the buffer and the address they are read with. *)
Definition deliver cc (arrivals : list (bytes * nat * gostring)) s : hs (W := NET) :=
  foldl (λ s '(d, b, rAddr), (readAndBuffer cc b d rAddr s).2) s arrivals.

Lemma emit_joined {A} e d (a : A) s1 s2 : joined e s1 s2 → joined e (emit d a (used e s1)).2 s2.
Proof. intros [Hk He Hl Hr Hc Ho]. unfold emit. destruct (WriteToContext d _ _) as [err w]. split; done. Qed.

Lemma emit_seq {A} e d (a : A) s : 0 ≤ e → 0 ≤ seq_of s e ≤ RecordHeader.MaxSequenceNumber → seq_of (emit d a (used e s)).2 e = seq_of s e + 1.
Proof.
  intros He Hs. unfold emit. destruct (WriteToContext d _ _) as [err w]. unfold seq_of at 1. cbn [snd h_state used].
  set (l := <[_ := _]> (grow _ e 0)). change (st_LocalSequenceNumber (update _ _ (h_state s))) with l. unfold l. rewrite list_lookup_insert_eq.
  - cbn. unfold u64. unfold RecordHeader.MaxSequenceNumber in Hs. apply Z.mod_small. lia.
  - eapply lookup_lt_Some. by apply grow_lookup.
Qed.

Lemma emit_closed {A} e d (a : A) s : n_closed (h_world (emit d a (used e s)).2) = n_closed (h_world s).
Proof. unfold emit. by destruct (WriteToContext d _ _) as [err w]. Qed.

Lemma write_stream cc e s2 ps : ∀ s1, joined e s1 s2 → n_closed (h_world s1) = false → 0 ≤ seq_of s1 e →
  seq_of s1 e + len ps ≤ RecordHeader.MaxSequenceNumber + 1 → Forall (λ p, len p ≤ max_payload) ps →
  ∃ ds s1', written cc e (zip ps ds) s1 s1' ∧ length ds = length ps ∧
    ∀ i p d, ps !! i = Some p → ds !! i = Some d → record_for e (seq_of s1 e + Z.of_nat i) s2 ContentTypeApplicationData p d.
Proof.
  induction ps as [|p ps IH]; intros s1 Hj Hc Hs0 Hn Hl; [by exists [], s1|]. rewrite len_cons in Hn. pose proof (len_nonneg ps).
  apply Forall_cons in Hl as [Hp Hl]. destruct (Write_emits cc e s1 s2 p Hj) as (d & Hw & Hr); [lia|done|done|].
  assert (0 ≤ e) as He by (destruct Hj; lia). pose proof (emit_seq e d (len p) s1 He ltac:(lia)) as Hseq.
  destruct (IH (emit d (len p) (used e s1)).2) as (ds & s1' & Hws & Hlen & Hrs); [by apply emit_joined|by rewrite emit_closed|lia|lia|done|].
  exists (d :: ds), s1'. split; [done|]. split; [cbn; by f_equal|]. intros [|i] q x Hq Hx; cbn in Hq, Hx.
  - injection Hq as <-. injection Hx as <-. by rewrite Z.add_0_r.
  - specialize (Hrs i q x Hq Hx). rewrite Hseq in Hrs. by replace (seq_of s1 e + Z.of_nat (S i)) with (seq_of s1 e + 1 + Z.of_nat i) by lia.
Qed.

(** The numbers that were accepted when the payloads [js] of a stream were
    received, the latest first; the stream starts at [n0]. *)
Definition numbers (n0 : Z) (js : list nat) (ns : list Z) : list Z := ((λ j : nat, n0 + Z.of_nat j) <$> js) ++ ns.

Lemma elem_of_numbers n0 js ns k : k ∈ numbers n0 js ns ↔ (∃ j, j ∈ js ∧ k = n0 + Z.of_nat j) ∨ k ∈ ns.
Proof. unfold numbers. rewrite elem_of_app, list_elem_of_fmap. split; (intros [(j & ? & ?)|?]; [left; by exists j|by right]). Qed.

(** What the detector says to the payload [x] of a stream. *)
Lemma check_stream w n0 js ns d x : accepted w RecordHeader.MaxSequenceNumber (numbers n0 js ns) d → 0 < w → 0 ≤ n0 →
  n0 + Z.of_nat x ≤ RecordHeader.MaxSequenceNumber → Forall (λ k, k < n0) ns →
  if Check d (n0 + Z.of_nat x) then x ∉ js else x ∈ js ∨ ∃ j, j ∈ js ∧ Z.of_nat x + w ≤ Z.of_nat j.
Proof.
  intros Hacc Hw Hn0 Hx Hns. pose proof (Check_spec w _ _ d (n0 + Z.of_nat x) Hacc Hw ltac:(lia)) as Hs.
  rewrite Forall_forall in Hns. destruct (Check d (n0 + Z.of_nat x)).
  - destruct (proj1 Hs eq_refl) as (_ & Hni & _). contradict Hni. apply elem_of_numbers. left. by exists x.
  - destruct (decide (x ∈ js)) as [|Hnj]; [by left|].
    destruct (decide (Exists (λ j, Z.of_nat x + w ≤ Z.of_nat j) js)) as [(j & ? & ?)%Exists_exists|Hno]; [right; by exists j|].
    exfalso. enough (false = true) by done. apply Hs. split_and!; [done| |].
    + intros [(j & Hj & E)|Hk]%elem_of_numbers; [|apply Hns in Hk; lia]. replace x with j in Hnj by lia. done.
    + apply Forall_forall. intros k [(j & Hj & ->)|Hk]%elem_of_numbers; [|apply Hns in Hk; lia].
      apply Z.nle_gt. intros Hle. apply Hno, Exists_exists. exists j. split; [done|lia].
Qed.

(** Arrivals that stay within the window of the replay protection. *)
Definition within_window (w : Z) (js xs : list nat) : Prop :=
  ForallOrdPairs (λ x y, Z.of_nat x < Z.of_nat y + w) xs ∧ ∀ j x, j ∈ js → x ∈ xs → Z.of_nat j < Z.of_nat x + w.

Lemma within_window_cons w js x xs : within_window w js (x :: xs) → within_window w js xs ∧ within_window w (x :: js) xs ∧
  ∀ j, j ∈ js → Z.of_nat j < Z.of_nat x + w.
Proof.
  intros [Ho Hj]. inversion Ho as [|? ? Hx Hxs]; subst. rewrite Forall_forall in Hx. split_and!.
  - split; [done|]. intros j y Hj' Hy. apply Hj; [done|]. by right.
  - split; [done|]. intros j y [->|Hj']%elem_of_cons Hy; [by apply Hx|]. apply Hj; [done|]. by right.
  - intros j Hj'. apply Hj; [done|]. by left.
Qed.

Section stream.
Context cc (e n0 : Z) (s2 : hs (W := NET)) (ps ds : list bytes) (ns : list Z).
Abbreviation w := (replayProtectionWindow cc).
Hypotheses (He : is_u16 e) (He0 : 0 < e) (Hn0 : 0 ≤ n0) (Hmax : n0 + len ps ≤ RecordHeader.MaxSequenceNumber + 1) (Hw : 0 < w)
  (Hre : st_RemoteEpoch (h_state s2) = e) (Hsz : Forall (λ p, len p ≤ max_payload) ps) (Hns : Forall (λ k, k < n0) ns) (Hlen : length ds = length ps)
  (Hrec : ∀ i p d, ps !! i = Some p → ds !! i = Some d → record_for e (n0 + Z.of_nat i) s2 ContentTypeApplicationData p d).

(** The datagrams of the payloads that arrive. *)
Definition datagrams (arrivals : list (nat * nat * gostring)) : list (bytes * nat * gostring) :=
  omap (λ '(i, b, a), d ← ds !! i; Some (d, b, a)) arrivals.

Lemma receive_stream (arrivals : list (nat * nat * gostring)) : Forall (λ x, x < length ps)%nat arrivals.*1.*1 →
  ∀ s js0, h_state s = h_state s2 → has_room s → accepted w RecordHeader.MaxSequenceNumber (numbers n0 js0 ns) (detector_at cc e s) →
    ∃ js, n_decrypted (h_world (deliver cc (datagrams arrivals) s)) = n_decrypted (h_world s) ++ (inl <$> omap (ps !!.) js) ∧
      js `sublist_of` arrivals.*1.*1 ∧ NoDup js ∧ (∀ j, j ∈ js → j ∉ js0) ∧
      (within_window w js0 arrivals.*1.*1 → ∀ x, x ∈ arrivals.*1.*1 → x ∈ js ∨ x ∈ js0).
Proof.
  induction arrivals as [|[[x b] a] arrivals IH]; intros Hx s js0 Hst Hroom Hacc.
  { exists []. cbn. rewrite app_nil_r. split_and!; [done|done|constructor|by intros j ?%not_elem_of_nil|by intros _ x ?%not_elem_of_nil]. }
  cbn [fmap list_fmap fst] in Hx |- *. apply Forall_cons in Hx as [Hx Hxs].
  destruct (lookup_lt_is_Some_2 ps x Hx) as [p Hp]. destruct (lookup_lt_is_Some_2 ds x ltac:(lia)) as [d Hd].
  assert (Z.of_nat x < len ps) as Hx' by (unfold len; lia).
  assert (is_u48 (n0 + Z.of_nat x)) as Hn by (unfold RecordHeader.MaxSequenceNumber, is_u48 in *; lia).
  destruct (receive_datagram cc e (n0 + Z.of_nat x) s2 s p d b a) as (s' & Hread & Hsame & Hcase); [by apply Hrec|done..|exact (Forall_lookup_1 _ _ _ _ Hsz Hp)|].
  assert (h_state s' = h_state s2) as Hst' by (destruct Hsame; congruence).
  assert (has_room s') as Hroom' by (unfold has_room in *; destruct Hsame as (_ & _ & _ & -> & _); done).
  unfold datagrams. cbn [omap list_omap]. rewrite Hd. cbn [mbind option_bind deliver foldl]. rewrite Hread. cbn [snd].
  fold (datagrams arrivals) (deliver cc (datagrams arrivals) s').
  pose proof (check_stream w n0 js0 ns _ x Hacc Hw Hn0 ltac:(lia) Hns) as Hc. destruct (Check (detector_at cc e s) (n0 + Z.of_nat x)) eqn:Ec; destruct Hcase as [Hdata Hdet].
  - destruct (IH Hxs s' (x :: js0)) as (js & Hjs & Hsub & Hnd & Hfresh & Hall); [done|done|rewrite Hdet; apply accepted_one; [done|lia|done]|].
    exists (x :: js). split_and!.
    + rewrite Hjs, Hdata. cbn [omap list_omap]. rewrite Hp. by rewrite <- (assoc_L (++)).
    + by apply sublist_skip.
    + constructor; [|done]. intros Hi. apply (Hfresh x Hi). by left.
    + intros j [->|Hj]%elem_of_cons; [done|]. intros Hj0. apply (Hfresh j Hj). by right.
    + intros (_ & Hwin & _)%within_window_cons y [->|Hy]%elem_of_cons; [by left; left|].
      destruct (Hall Hwin y Hy) as [?|[->|?]%elem_of_cons]; [by left; right|by left; left|by right].
  - destruct (IH Hxs s' js0) as (js & Hjs & Hsub & Hnd & Hfresh & Hall); [done|done|by rewrite Hdet|].
    exists js. split_and!; [by rewrite Hjs, Hdata|by apply sublist_cons|done|done|].
    intros (Hwin & _ & Hx0)%within_window_cons y [->|Hy]%elem_of_cons; [|by apply Hall].
    destruct Hc as [?|(j & Hj & Hle)]; [by right|]. specialize (Hx0 j Hj). lia.
Qed.
End stream.

(** C15: application data is transmitted correctly.  Let [s1] and [s2] be the two
    ends of one direction of a connection (matching keys, epoch and connection
    IDs), with numbers left for all of the payloads.  Then each call of Write hands
    exactly one datagram to the network, and however the network loses, repeats
    and reorders these datagrams, and whatever buffers and addresses they are read
    with, the reader queues for Read payloads that were written, unchanged, each
    one at most once and in the order of arrival; when no datagram arrives behind
    one that is a whole replay window ahead of it, every payload that arrives is
    received. *)
Theorem application_data_delivered cc1 cc2 e s1 s2 ps ns : joined e s1 s2 → n_closed (h_world s1) = false →
  0 ≤ seq_of s1 e → seq_of s1 e + len ps ≤ RecordHeader.MaxSequenceNumber + 1 → Forall (λ p, len p ≤ max_payload) ps →
  has_room s2 → 0 < replayProtectionWindow cc2 → Forall (λ k, k < seq_of s1 e) ns →
  accepted (replayProtectionWindow cc2) RecordHeader.MaxSequenceNumber ns (detector_at cc2 e s2) →
  ∃ ds s1', written cc1 e (zip ps ds) s1 s1' ∧ length ds = length ps ∧
    ∀ arrivals : list (nat * nat * gostring), Forall (λ x, x < length ps)%nat arrivals.*1.*1 →
      ∃ js, n_decrypted (h_world (deliver cc2 (datagrams ds arrivals) s2)) = n_decrypted (h_world s2) ++ (inl <$> omap (ps !!.) js) ∧
        js `sublist_of` arrivals.*1.*1 ∧ NoDup js ∧
        (ForallOrdPairs (λ x y, Z.of_nat x < Z.of_nat y + replayProtectionWindow cc2) arrivals.*1.*1 → ∀ x, x ∈ arrivals.*1.*1 → x ∈ js).
Proof.
  intros Hj Hc H0s Hn Hl Hroom Hw Hns Hacc. destruct (write_stream cc1 e s2 ps s1 Hj Hc H0s Hn Hl) as (ds & s1' & Hwr & Hlen & Hrec).
  exists ds, s1'. split; [done|]. split; [done|]. intros arrivals Ha. destruct Hj as [_ [He He0] _ Hre _ _].
  destruct (receive_stream cc2 e (seq_of s1 e) s2 ps ds ns He He0 H0s Hn Hw Hre Hl Hns Hlen Hrec arrivals Ha s2 [])
    as (js & Hjs & Hsub & Hnd & _ & Hall); [done..|].
  exists js. split_and!; [done..|]. intros Ho x Hx. destruct (Hall ltac:(split; [exact Ho|]; intros j y Hj; by apply not_elem_of_nil in Hj) x Hx) as [?|?%not_elem_of_nil]; done.
Qed.

(** ** What the reader accepts from the network *)

(** The numbers of an epoch among the records that were accepted. *)
Definition numbers_of (e : Z) (acc : list (Z * Z)) : list Z := omap (λ '(e', n), if e' =? e then Some n else None) acc.

(** The detectors have accepted exactly these records, the latest first. *)
Definition detectors_ok cc (acc : list (Z * Z)) s : Prop :=
  ∀ e, 0 ≤ e → accepted (replayProtectionWindow cc) RecordHeader.MaxSequenceNumber (numbers_of e acc) (detector_at cc e s).

(** The record with this epoch and number contains this data under the keys of
    the connection. *)
Definition opened (st : State) (e n : Z) (data : bytes) : Prop :=
  ∃ prot raw h plain clear, protection st = Some prot ∧
    RecordHeader.Header_Unmarshal (zero_record_header (zeros (len (local_cid st)))) raw = Ok h ∧ RecordHeader.Epoch h = e ∧ RecordHeader.SequenceNumber h = n ∧
    let isCID := RecordHeader.ContentType h =? ContentTypeConnectionID in
    CipherSuite.Decrypt prot (zero_record_header (if isCID then zeros (len (local_cid st)) else [])) raw = Ok plain ∧
    (if isCID then unwrap_cid h plain else Ok plain) = Ok clear ∧ Record_Unmarshal clear = Ok (ApplicationDataContent data).

(** A record that was accepted, with the data it delivers. *)
Definition entry : Type := Z * Z * option bytes.
Definition entry_ok (st : State) (x : entry) : Prop :=
  let '(e, n, o) := x in 0 ≤ e ∧ match o with Some data => 0 < e ∧ opened st e n data | None => True end.

(** The application data in the queue for Read. *)
Definition received_data s : list bytes := omap (λ x, match x with inl d => Some d | inr _ => None end) (n_decrypted (h_world s)).

(** The buffers of the pool contain bytes. *)
Definition buffers_ok s : Prop := ∀ b l, n_buffers (h_world s) !! b = Some l → bytes_ok l.

Definition logs cc s s' : Prop := quiet (h_state s) (h_state s') ∧ ∀ acc, buffers_ok s → detectors_ok cc acc s → buffers_ok s' ∧
  ∃ new : list entry, detectors_ok cc (reverse new.*1 ++ acc) s' ∧ received_data s' = received_data s ++ omap snd new ∧ Forall (entry_ok (h_state s)) new.

Lemma quiet_opened st st' e n data : quiet st st' → opened st' e n data → opened st e n data.
Proof. by intros (? & ? & ? & ->) Ho. Qed.

Lemma quiet_entry st st' x : quiet st st' → entry_ok st' x → entry_ok st x.
Proof. intros Hq. destruct x as [[e n] [data|]]; [|done]. intros (He & He0 & Ho). split_and!; [done|done|by eapply quiet_opened]. Qed.

#[global] Instance logs_preorder cc : PreOrder (logs cc).
Proof.
  split.
  - intros s. split; [apply quiet_refl|]. intros acc Hb Hd. split; [done|]. exists []. split_and!; [done|by rewrite app_nil_r|constructor].
  - intros s1 s2 s3 [Hq1 H1s] [Hq2 H2s]. split; [by eapply quiet_trans|]. intros acc Hb Hd. destruct (H1s acc Hb Hd) as (Hb1 & n1 & Hd1 & Hr1 & He1).
    destruct (H2s _ Hb1 Hd1) as (Hb2 & n2 & Hd2 & Hr2 & He2). split; [done|]. exists (n1 ++ n2). split_and!.
    + by rewrite fmap_app, reverse_app, <- (assoc_L (++)).
    + by rewrite Hr2, Hr1, omap_app, (assoc_L (++)).
    + apply Forall_app. split; [done|]. eapply Forall_impl; [exact He2|]. intros x. by apply quiet_entry.
Qed.

(** Nothing is accepted when detectors and queue stay. *)
Lemma logs_nothing cc s s' : quiet (h_state s) (h_state s') → (∀ e, 0 ≤ e → detector_at cc e s' = detector_at cc e s) →
  received_data s' = received_data s → (buffers_ok s → buffers_ok s') → logs cc s s'.
Proof.
  intros Hq Hd Hr Hb. split; [done|]. intros acc Hbs Ha. split; [by apply Hb|]. exists []. rewrite app_nil_r. split_and!; [|done|constructor].
  intros e He. rewrite Hd by done. by apply Ha.
Qed.

(** *** What does not touch detectors and queue *)

Definition untouched s s' : Prop := quiet (h_state s) (h_state s') ∧ n_ReplayDetector (h_world s') = n_ReplayDetector (h_world s) ∧
  n_decrypted (h_world s') = n_decrypted (h_world s) ∧ n_buffers (h_world s') = n_buffers (h_world s).

Lemma untouched_refl s : untouched s s.
Proof. by split_and!; [apply quiet_refl|..]. Qed.

#[global] Instance untouched_preorder : PreOrder untouched.
Proof.
  split; [exact untouched_refl|]. intros s1 s2 s3 (?&?&?&?) (?&?&?&?). split_and!; [by eapply quiet_trans|congruence..].
Qed.

Lemma untouched_logs cc s s' : untouched s s' → logs cc s s'.
Proof.
  intros (Hq & Hd & Hr & Hb). apply logs_nothing; [done| |by unfold received_data; rewrite Hr|unfold buffers_ok; by rewrite Hb]. intros e He. unfold detector_at. by rewrite Hd.
Qed.

Lemma untouched_net s n : n_ReplayDetector n = n_ReplayDetector (h_world s) → n_decrypted n = n_decrypted (h_world s) →
  n_buffers n = n_buffers (h_world s) → untouched s (MkHs (h_state s) (h_cache s) n (h_keylog s)).
Proof. intros Hd Hr Hb. split_and!; [apply quiet_refl|done..]. Qed.

Lemma untouched_state s st : quiet (h_state s) st → untouched s (MkHs st (h_cache s) (h_world s) (h_keylog s)).
Proof. by intros Hq. Qed.

Lemma untouched_numbers s seqs : untouched s (MkHs ((h_state s) <| st_LocalSequenceNumber := seqs |>) (h_cache s) (h_world s) (h_keylog s)).
Proof. apply untouched_state. exists seqs, (st_LocalEpoch (h_state s)), (st_RemoteEpoch (h_state s)). cbn. by destruct (h_state s). Qed.

Lemma processPacket_untouched p : keeps untouched (processPacket p).
Proof.
  unfold processPacket, grow_sequence_numbers, next_sequence_number, encrypt_packet.
  keeps_run; apply keeps_modify; intros s; apply untouched_numbers.
Qed.

(** The callbacks of the session store change only the outside world. *)
Definition store_ok cc : Prop := ∀ key n, ∃ w, (cf_DelSession (handshakeConfig cc) key n).2 = n <| n_world := w |>.

Lemma delete_untouched cc key : store_ok cc → keeps untouched (act (cf_DelSession (handshakeConfig cc) key) id : CM dtls_error unit).
Proof. intros Hst. apply keeps_act. intros s. destruct (Hst key (h_world s)) as [w ->]. by apply untouched_net. Qed.

Lemma send_alert_untouched cc a : store_ok cc → keeps untouched (send_alert cc a).
Proof.
  intros Hst. unfold send_alert, sessionKey, write_packets, write_datagram. cbn [raw_packets pk_Content]. keeps_run; auto using processPacket_untouched.
  - by apply delete_untouched.
  - apply keeps_on_world. intros s w. by apply untouched_net.
Qed.

Lemma enqueue_if_untouched {R} b rAddr r : keeps untouched (enqueue_if b rAddr r : CM R unit).
Proof.
  unfold enqueue_if, enqueueEncryptedPackets. keeps_run. apply keeps_net_modify. intros s. destruct (_ <? _); by apply untouched_net.
Qed.

Lemma pop_messages_untouched fuel : keeps untouched (pop_messages fuel).
Proof.
  induction fuel as [|fuel IH]; cbn [pop_messages]; keeps_run; auto; try (apply keeps_net_modify; intros s; by apply untouched_net); intros s; by apply untouched_net.
Qed.

(** *** A record that is accepted *)

Lemma numbers_of_cons e n acc e' : numbers_of e' ((e, n) :: acc) = if e =? e' then n :: numbers_of e' acc else numbers_of e' acc.
Proof. unfold numbers_of. cbn. by destruct (e =? e'). Qed.

(** The state in which the record is marked as accepted. *)
Definition marked (e n : Z) (d : detector) s : hs (W := NET) :=
  MkHs (h_state s) (h_cache s) ((h_world s) <| n_ReplayDetector := <[Z.to_nat e := (Accept d n).2]> (n_ReplayDetector (h_world s)) |>) (h_keylog s).

Lemma mark_eq e n s d : n_ReplayDetector (h_world s) !! Z.to_nat e = Some d → mark e n s = (Val (Accept d n).1, marked e n d s).
Proof. intros Hd. unfold mark, mbind, M_bind, net_get. rewrite Hd. unfold marked. by destruct (Accept d n). Qed.

Lemma marked_detectors cc e n d acc s : 0 ≤ e → 0 ≤ n → n_ReplayDetector (h_world s) !! Z.to_nat e = Some d → Check d n = true →
  detectors_ok cc acc s → detectors_ok cc ((e, n) :: acc) (marked e n d s).
Proof.
  intros He Hn Hd Hc Ha e' He'. rewrite numbers_of_cons. specialize (Ha e' He'). unfold detector_at in *. cbn [marked h_world].
  set (l := <[_ := _]> _). change (n_ReplayDetector (update _ _ (h_world s))) with l. unfold l. destruct (Z.eqb_spec e e') as [->|Hne].
  - rewrite list_lookup_insert_eq by (by eapply lookup_lt_Some). cbn. rewrite Hd in Ha. by apply accepted_one.
  - rewrite list_lookup_insert_ne by lia. done.
Qed.

(** The outcome of a program with a record number: it accepts the record, with
    the data it delivers, or nothing. *)
Lemma marked_logs cc e n d s o s' : 0 ≤ e → 0 ≤ n → n_ReplayDetector (h_world s) !! Z.to_nat e = Some d → Check d n = true →
  quiet (h_state s) (h_state s') → n_ReplayDetector (h_world s') = n_ReplayDetector (h_world (marked e n d s)) →
  received_data s' = received_data s ++ omap id [o] → entry_ok (h_state s) (e, n, o) → n_buffers (h_world s') = n_buffers (h_world s) → logs cc s s'.
Proof.
  intros He Hn Hd Hc Hq Hdet Hr Ho Hb. split; [done|]. intros acc Hbs Ha. split; [unfold buffers_ok; by rewrite Hb|]. exists [(e, n, o)]. split_and!; [|by rewrite Hr; destruct o|constructor; [exact Ho|constructor]].
  intros e' He'. pose proof (marked_detectors cc e n d acc s He Hn Hd Hc Ha e' He') as Hm. unfold detector_at in *. by rewrite Hdet.
Qed.

Section record.
Context cc (header : RecordHeader.Header) (r : ref) (rAddr : gostring) (enqueue : bool) (s : hs (W := NET)) (d : detector).
Abbreviation e := (RecordHeader.Epoch header).
Abbreviation n := (RecordHeader.SequenceNumber header).
Hypotheses (He : 0 ≤ e) (Hn : 0 ≤ n) (Hd : n_ReplayDetector (h_world s) !! Z.to_nat e = Some d) (Hc : Check d n = true).

Lemma marked_only s' : untouched (marked e n d s) s' → logs cc s s'.
Proof.
  intros (Hq & Hdet & Hr & Hb). apply (marked_logs cc e n d s None); try done. unfold received_data. rewrite Hr. by rewrite app_nil_r.
Qed.

Lemma handle_content_logs c : (∀ data, c = ApplicationDataContent data → 0 < e → opened (h_state s) e n data) →
  logs cc s (handle_content header c r rAddr enqueue s).2.
Proof.
  intros Ho. unfold handle_content. destruct c as [h m| |a|data].
  - reflexivity.
  - erewrite bind_val; [|reflexivity]. cbn [id]. destruct (protection (h_state s)) as [prot|].
    2: { apply untouched_logs. assert (keeps untouched (_ ← enqueue_if enqueue rAddr r; ret discarded : CM incoming bool)) as Hk
           by (keeps_run; apply enqueue_if_untouched). apply Hk. }
    destruct (_ =? _); [|reflexivity]. erewrite bind_val; [|reflexivity]. set (s0 := MkHs _ _ _ _). rewrite (mark_eq _ _ s0 d) by done.
    apply marked_only. split_and!; [|done..]. exists (st_LocalSequenceNumber (h_state s)), (st_LocalEpoch (h_state s)), (u16 (e + 1)). cbn. by destruct (h_state s).
  - rewrite (bind_val _ _ _ _ _ (mark_eq _ _ s d Hd)). by apply marked_only.
  - destruct (Z.eqb_spec e 0) as [|Hne]; [reflexivity|]. rewrite (bind_val _ _ _ _ _ (mark_eq _ _ s d Hd)). 
    apply (marked_logs cc e n d s (Some data)); [done..|apply quiet_refl|done| |split_and!; [done|lia|apply (Ho data); [done|lia]]|done].
    unfold received_data. change (n_decrypted _) with (n_decrypted (h_world s) ++ [inl data]) at 1. by rewrite omap_app.
Qed.
End record.

(** A relation holds for a sequence when it holds for its parts. *)
Lemma logs_bind {R A B} cc (m : CM R A) (k : A → CM R B) s : logs cc s (m s).2 → (∀ a, keeps untouched (k a)) → logs cc s ((m ≫= k) s).2.
Proof.
  intros Hm Hk. unfold mbind, M_bind. destruct (m s) as [[a|x|] s1]; [|done..]. transitivity s1; [done|]. apply untouched_logs, Hk.
Qed.

Lemma handle_record_logs cc header buf r rAddr enqueue s d : let e := RecordHeader.Epoch header in let n := RecordHeader.SequenceNumber header in
  0 ≤ e → 0 ≤ n → n_ReplayDetector (h_world s) !! Z.to_nat e = Some d → Check d n = true →
  (∀ data, Record_Unmarshal buf = Ok (ApplicationDataContent data) → 0 < e → opened (h_state s) e n data) →
  logs cc s (handle_record header buf r rAddr enqueue s).2.
Proof.
  intros e n He Hn Hd Hc Ho. unfold handle_record. erewrite bind_val; [|reflexivity]. destruct (FragmentBuffer.push _ buf) as [f pushed].
  erewrite bind_val; [|reflexivity]. set (s0 := MkHs _ _ _ _). transitivity s0; [apply untouched_logs; by apply untouched_net|].
  destruct pushed as [[isHandshake isRetransmit]|er|]; [|reflexivity..]. erewrite bind_lift; [|reflexivity]. destruct isHandshake.
  - rewrite (bind_val _ _ _ _ _ (mark_eq _ _ s0 d Hd)). eapply marked_only; [done..|].
    assert (keeps untouched (_ ← pop_messages (S (size (FragmentBuffer.cache f))); ret (true, isRetransmit, None, None) : CM incoming incoming)) as Hk
      by (keeps_run; apply pop_messages_untouched). apply Hk.
  - destruct (Record_Unmarshal buf) as [content|er|] eqn:Eu; [|reflexivity..]. erewrite bind_lift; [|reflexivity]. apply logs_bind.
    + eapply handle_content_logs; [done..|]. intros data ->. by apply Ho.
    + intros latest. keeps_run. apply keeps_net_modify. intros s'. destruct (_ && _); by apply untouched_net.
Qed.

(** What decryption leaves as it is, and gives. *)
Lemma decrypt_record_spec header buf r rAddr enqueue s : RecordHeader.Header_Unmarshal (zero_record_header (zeros (len (local_cid (h_state s))))) buf = Ok header →
  match decrypt_record header buf r rAddr enqueue s with
  | (Val clear, s') => s' = s ∧ ∀ data, Record_Unmarshal clear = Ok (ApplicationDataContent data) →
      opened (h_state s) (RecordHeader.Epoch header) (RecordHeader.SequenceNumber header) data
  | (_, s') => untouched s s'
  end.
Proof.
  intros Hh. unfold decrypt_record. erewrite bind_val; [|reflexivity]. cbn [id]. destruct (protection (h_state s)) as [prot|] eqn:Hp.
  2: { assert (keeps untouched (_ ← enqueue_if enqueue rAddr r; ret discarded : CM incoming bytes)) as Hk by (keeps_run; apply enqueue_if_untouched).
       specialize (Hk s). unfold mbind, M_bind in *. by destruct (enqueue_if enqueue rAddr r s) as [[]]. }
  cbv zeta. destruct (_ && _); [apply untouched_refl|].
  destruct (CipherSuite.Decrypt prot _ buf) as [plain|er|] eqn:Ed; [|apply untouched_refl..]. erewrite bind_lift; [|reflexivity].
  destruct (if RecordHeader.ContentType header =? ContentTypeConnectionID then unwrap_cid header plain else Ok plain) as [clear|er|] eqn:Eu; [|apply untouched_refl..].
  erewrite bind_lift; [|reflexivity]. destruct (negb _); [apply untouched_refl|]. split; [done|]. intros data Hdata.
  exists prot, buf, header, plain, clear. by split_and!.
Qed.

Lemma load_bytes s r : buffers_ok s → (∀ d, r ≠ Fresh d) → bytes_ok (load (h_world s) r).
Proof.
  intros Hb Hr. destruct r as [b o k|d]; [|by destruct (Hr d)]. cbn [load]. apply bytes_ok_take.
  destruct (n_buffers (h_world s) !! b) as [l|] eqn:E; cbn [default]; [|rewrite drop_nil; constructor]. apply Forall_drop. by apply (Hb b).
Qed.

Lemma grow_detectors cc e s : 0 ≤ e → ∀ e', 0 ≤ e' →
  detector_at cc e' (MkHs (h_state s) (h_cache s) ((h_world s) <| n_ReplayDetector :=
    grow (n_ReplayDetector (h_world s)) e (replaydetector_New (replayProtectionWindow cc) RecordHeader.MaxSequenceNumber) |>) (h_keylog s)) = detector_at cc e' s.
Proof.
  intros He e' He'. unfold detector_at. cbn [h_world]. change (n_ReplayDetector (update _ _ _)) with
    (grow (n_ReplayDetector (h_world s)) e (replaydetector_New (replayProtectionWindow cc) RecordHeader.MaxSequenceNumber)).
  unfold grow. destruct (n_ReplayDetector (h_world s) !! Z.to_nat e') as [d|] eqn:E; [by rewrite (lookup_app_l_Some _ _ _ _ E)|].
  apply lookup_ge_None in E. rewrite lookup_app_r by done. destruct (replicate _ _ !! _) as [d|] eqn:Er; [|done]. by apply lookup_replicate in Er as [-> _].
Qed.

Lemma handleIncomingPacket_logs cc r rAddr enqueue s : bytes_ok (load (h_world s) r) → logs cc s (handleIncomingPacket cc r rAddr enqueue s).2.
Proof.
  intros Hok. unfold handleIncomingPacket. erewrite bind_val; [|reflexivity]. erewrite bind_val; [|reflexivity]. cbn [id].
  pose proof (RecordHeader.Header_Unmarshal_safe (zero_record_header (zeros (len (local_cid (h_state s))))) _ Hok) as Hsafe.
  destruct (RecordHeader.Header_Unmarshal _ _) as [header|er|] eqn:Hh; [|reflexivity..]. erewrite bind_lift; [|reflexivity]. destruct Hsafe as (_ & [He _] & Hn).
  destruct (_ <? RecordHeader.Epoch header).
  { apply untouched_logs. destruct (_ <? _); [reflexivity|].
    assert (keeps untouched (_ ← enqueue_if enqueue rAddr r; ret discarded : CM incoming incoming)) as Hk by (keeps_run; apply enqueue_if_untouched). apply Hk. }
  erewrite bind_val; [|reflexivity]. erewrite bind_val; [|reflexivity]. set (s0 := MkHs _ _ _ _).
  transitivity s0; [apply logs_nothing; [apply quiet_refl|by apply grow_detectors|done|done]|].
  destruct (n_ReplayDetector (h_world s0) !! _) as [d|] eqn:Hd; [|reflexivity]. destruct (Check d _) eqn:Hc; [|reflexivity]. cbn [negb].
  destruct (Z.eqb_spec (RecordHeader.Epoch header) 0) as [E0|Hne].
  - erewrite bind_val; [|reflexivity]. eapply handle_record_logs; [done..|]. intros data _ Hlt. lia.
  - pose proof (decrypt_record_spec header _ r rAddr enqueue s0 Hh) as Hdec. unfold mbind, M_bind.
    destruct (decrypt_record header _ r rAddr enqueue s0) as [[clear|x|] s1]; [|by apply untouched_logs..].
    destruct Hdec as [-> Hdata]. eapply handle_record_logs; [done..|]. intros data Hu _. by apply Hdata.
Qed.

Lemma handle_pooled_logs cc b o k rAddr enqueue : keeps (logs cc) (handleIncomingPacket cc (Pooled b o k) rAddr enqueue).
Proof.
  intros s. split; [apply handleIncomingPacket_receives|]. intros acc Hb. by apply handleIncomingPacket_logs, Hb; apply load_bytes.
Qed.

Lemma handle_packet_logs cc b o k rAddr enqueue : store_ok cc → keeps (logs cc) (handle_packet cc (Pooled b o k) rAddr enqueue).
Proof.
  intros Hst. unfold handle_packet. keeps_run; auto using handle_pooled_logs.
  eapply keeps_weaken; [apply untouched_logs|by apply send_alert_untouched].
Qed.

Lemma handle_packets_logs cc b rs rAddr : store_ok cc → ∀ o, keeps (logs cc) (handle_packets cc (refs b o rs) rAddr).
Proof. intros Hst. induction rs as [|r rs IH]; intros o; cbn [refs handle_packets]; keeps_run; auto using handle_packet_logs. Qed.

Lemma readAndBuffer_logs cc b d rAddr : store_ok cc → bytes_ok d → keeps (logs cc) (readAndBuffer cc b d rAddr).
Proof.
  intros Hst Hok. unfold readAndBuffer. keeps_run; auto using handle_packets_logs. apply keeps_net_modify. intros s.
  apply logs_nothing; [apply quiet_refl|done|done|]. intros Hb b' l. cbn [h_world].
  set (m := <[b := _]> _). change (n_buffers (update _ _ _)) with m. unfold m. rewrite lookup_insert. case_decide as E; [|by apply Hb].
  intros [= <-]. apply bytes_ok_app. split; [by apply bytes_ok_take|]. apply Forall_drop.
  destruct (n_buffers (h_world s) !! b) as [l'|] eqn:El; [by apply (Hb b)|]. by apply Forall_replicate.
Qed.

Lemma on_read_error_logs cc er : store_ok cc → keeps (logs cc) (on_read_error cc er).
Proof.
  intros Hst. assert (keeps (logs cc) (send_alert cc (MkAlert Warning CloseNotify))) as Ha
    by (eapply keeps_weaken; [apply untouched_logs|by apply send_alert_untouched]).
  unfold on_read_error, conn_close. cbv zeta. keeps_run; auto; apply keeps_net_modify; intros s; apply logs_nothing; try done; try apply quiet_refl.
  all: unfold received_data; cbn [h_world]; change (n_decrypted (update _ _ (h_world s))) with (n_decrypted (h_world s) ++ [inr er]) at 1;
    by rewrite omap_app, app_nil_r.
Qed.

Lemma read_loop_logs cc b d rAddr : store_ok cc → bytes_ok d → keeps (logs cc) (read_loop cc b d rAddr).
Proof.
  intros Hst Hok s. unfold read_loop. pose proof (readAndBuffer_logs cc b d rAddr Hst Hok s) as Hr.
  destruct (readAndBuffer cc b d rAddr s) as [[sig|er|] s1]; [done| |done]. pose proof (on_read_error_logs cc er Hst s1) as He.
  destruct (on_read_error cc er s1) as [[go|er'|] s2]; by transitivity s1.
Qed.

(** The reader's rounds for these datagrams. *)
Definition reads cc (arrivals : list (bytes * nat * gostring)) s : hs (W := NET) :=
  foldl (λ s '(d, b, rAddr), (read_loop cc b d rAddr s).2) s arrivals.

Lemma reads_logs cc arrivals : store_ok cc → Forall bytes_ok arrivals.*1.*1 → ∀ s, logs cc s (reads cc arrivals s).
Proof.
  intros Hst. induction arrivals as [|[[d b] a] arrivals IH]; intros Hok s; [reflexivity|]. cbn [fmap list_fmap fst] in Hok.
  apply Forall_cons in Hok as [Hd Hok]. cbn [reads foldl]. etransitivity; [|by apply IH]. by apply read_loop_logs.
Qed.

(** No number is accepted twice. *)
Lemma accepted_NoDup w max ns d : 0 < w → accepted w max ns d → NoDup ns.
Proof.
  intros Hw. induction 1 as [|ns d n Ha IH Hn Hc]; [constructor|]. constructor; [|done].
  by apply (Check_spec w max ns d n Ha Hw Hn) in Hc as (_ & ? & _).
Qed.

Lemma elem_of_numbers_of e n acc : n ∈ numbers_of e acc ↔ (e, n) ∈ acc.
Proof.
  unfold numbers_of. rewrite list_elem_of_omap. split.
  - intros ([e' n'] & Hx & Hf). destruct (Z.eqb_spec e' e) as [->|]; [|done]. by injection Hf as ->.
  - intros Hx. exists (e, n). split; [done|]. by rewrite Z.eqb_refl.
Qed.

Lemma detectors_NoDup cc acc s : 0 < replayProtectionWindow cc → Forall (λ x, 0 ≤ x.1) acc → detectors_ok cc acc s → NoDup acc.
Proof.
  intros Hw Ha Hd. assert (∀ e, 0 ≤ e → NoDup (numbers_of e acc)) as Hn by (intros e He; eapply accepted_NoDup; [exact Hw|by apply Hd]).
  clear Hd. induction acc as [|[e n] acc IH]; [constructor|]. apply Forall_cons in Ha as [He Ha]. constructor.
  - specialize (Hn e He). rewrite numbers_of_cons, Z.eqb_refl in Hn. apply NoDup_cons in Hn as [Hn _]. by rewrite <- elem_of_numbers_of.
  - apply IH; [done|]. intros e' He'. specialize (Hn e' He'). rewrite numbers_of_cons in Hn. destruct (e =? e'); [|done]. by apply NoDup_cons in Hn as [_ ?].
Qed.

(** *** What the cipher suites of DTLS 1.2 open *)

(** The plaintext of a record with this epoch and number, sealed with the key of
    the peer; the number is part of the authenticated data. *)
Definition sealed (a : Aead.aead) (e n : Z) (data : bytes) : Prop :=
  ∃ h nonce ct ad text, RecordHeader.Epoch h = e ∧ RecordHeader.SequenceNumber h = n ∧ Aead.additionalData h (len ct - 16) = Ok ad ∧
    Open (Aead.remoteAEAD a) nonce ct ad = Some text ∧
    ((RecordHeader.ContentType h = ContentTypeApplicationData ∧ text = data) ∨
     (RecordHeader.ContentType h = ContentTypeConnectionID ∧ ∃ z, RecordHeader.Inner_Unmarshal text = Ok (RecordHeader.MkInner data ContentTypeApplicationData z))).

(** The protection of a suite with this key. *)
Definition aead_protection (a : Aead.aead) (p : CipherSuite.Protection) : Prop :=
  p = CipherSuite.MkProtection (Aead.encrypt a) (Aead.decrypt a) ∨ p = CipherSuite.MkProtection (Aead.ChaCha_Encrypt a) (Aead.ChaCha_Decrypt a).

Lemma suites12_protection cs ms cr sr b p : cs ∈ CipherSuite.suites12 → CipherSuite.Init cs ms cr sr b = Ok p → ∃ a, aead_protection a p.
Proof.
  unfold CipherSuite.suites12. rewrite !elem_of_cons. intros [->|[->|[->|[->|Hn]]]]; cbn [CipherSuite.Init]; [..|by apply not_elem_of_nil in Hn];
    unfold CipherSuite.init_gcm, CipherSuite.init_chacha; intros (a & _ & [= <-])%bind_Ok_inv; exists a; [by left|by left|by right|by right].
Qed.

(** Decryption gives the header back, with what was opened; only
    ChangeCipherSpec records pass as they are. *)
Lemma decrypt_opens a p h0 raw plain : aead_protection a p → CipherSuite.Decrypt p h0 raw = Ok plain →
  ∃ h, RecordHeader.Header_Unmarshal h0 raw = Ok h ∧
    (RecordHeader.ContentType h = ContentTypeChangeCipherSpec ∧ plain = raw ∨
     ∃ nonce ct ad text hd, Aead.additionalData h (len ct - 16) = Ok ad ∧ Open (Aead.remoteAEAD a) nonce ct ad = Some text ∧
       slice raw 0 (RecordHeader.Header_Size h) = (Ok hd : res dtls_error bytes) ∧ plain = hd ++ text).
Proof.
  intros [-> | ->]; cbn [CipherSuite.Decrypt]; unfold Aead.decrypt, Aead.ChaCha_Decrypt; intros (h & Hh & Hd)%bind_Ok_inv; exists h; (split; [done|]);
    (destruct (Z.eqb_spec (RecordHeader.ContentType h) ContentTypeChangeCipherSpec); [left; by injection Hd|right]).
  - destruct (_ <=? _); [done|]. apply bind_Ok_inv in Hd as (iv & _ & Hd). apply bind_Ok_inv in Hd as (explicit & _ & Hd). apply bind_Ok_inv in Hd as (ct & _ & Hd).
    apply bind_Ok_inv in Hd as (ad & Had & Hd). destruct (Open _ _ ct ad) as [text|] eqn:Eo; [|done]. apply bind_Ok_inv in Hd as (hd & Hhd & [= <-]).
    by exists (iv ++ explicit), ct, ad, text, hd.
  - apply bind_Ok_inv in Hd as (ct & _ & Hd). apply bind_Ok_inv in Hd as (ad & Had & Hd). destruct (Open _ _ ct ad) as [text|] eqn:Eo; [|done].
    apply bind_Ok_inv in Hd as (hd & Hhd & [= <-]). by exists (Aead.chacha_nonce (Aead.remoteWriteIV a) h), ct, ad, text, hd.
Qed.

Lemma Header_Unmarshal_first h0 raw h : RecordHeader.Header_Unmarshal h0 raw = Ok h → idx raw 0 = (Ok (RecordHeader.ContentType h) : res dtls_error Z) ∧
  (RecordHeader.ContentType h ≠ ContentTypeConnectionID → RecordHeader.ConnectionID h = [] ∧ ∀ h1, RecordHeader.Header_Unmarshal h1 raw = Ok h).
Proof.
  unfold RecordHeader.Header_Unmarshal. destruct (_ <? _); [done|]. intros (ct & Hct & Hu)%bind_Ok_inv. rewrite Hct. cbn [mbind res_bind].
  apply bind_Ok_inv in Hu as ([cid size] & Hcid & Hu). pose proof Hu as Hu0. do 8 apply bind_Ok_inv in Hu as (? & _ & Hu). destruct (_ && _); [done|]. injection Hu as <-.
  cbn [RecordHeader.ContentType RecordHeader.ConnectionID]. split; [done|]. intros Hne.
  destruct (Z.eqb_spec ct ContentTypeConnectionID); [done|]. injection Hcid as <- <-. split; [done|]. intros h1. by cbn [mbind res_bind].
Qed.

Lemma Record_Unmarshal_inv buf data : Record_Unmarshal buf = Ok (ApplicationDataContent data) →
  idx buf 0 = (Ok ContentTypeApplicationData : res dtls_error Z) ∧ slice_from buf 13 = (Ok data : res dtls_error bytes).
Proof.
  unfold Record_Unmarshal. intros (h & Hh & Hu)%bind_Ok_inv. apply Header_Unmarshal_first in Hh as [Hct Hc]. cbv zeta in Hu.
  destruct (_ =? ContentTypeChangeCipherSpec); [by apply bind_Ok_inv in Hu as (? & _ & (? & _ & ?)%bind_Ok_inv)|].
  destruct (_ =? ContentTypeAlert); [by apply bind_Ok_inv in Hu as (? & _ & (? & _ & ?)%bind_Ok_inv)|].
  destruct (_ =? ContentTypeHandshake); [by apply bind_Ok_inv in Hu as (? & _ & ([] & _ & ?)%bind_Ok_inv)|].
  destruct (Z.eqb_spec (RecordHeader.ContentType h) ContentTypeApplicationData) as [E|]; [|done].
  rewrite E in Hct, Hc. destruct (Hc ltac:(done)) as [Hcid _]. unfold RecordHeader.Header_Size in Hu. rewrite Hcid in Hu.
  apply bind_Ok_inv in Hu as (d & Hd & (d' & [= <-] & [= <-])%bind_Ok_inv). done.
Qed.

Lemma slice_prefix_first (raw hd text : bytes) k : slice raw 0 k = (Ok hd : res dtls_error bytes) → 0 < k → idx (hd ++ text) 0 = (idx raw 0 : res dtls_error Z) ∧ len hd = k.
Proof.
  unfold slice. destruct (_ && _) eqn:E; [|done]. rewrite !andb_true_iff, !Z.leb_le in E. intros [= <-] Hk. split; [|rewrite len_sub; lia].
  unfold sub, idx. rewrite Z.sub_0_r, drop_0. cbn [Z.leb Z.compare]. destruct raw as [|x raw]; [unfold len in E; cbn in E; lia|].
  destruct (Z.to_nat k) eqn:Ek; [lia|]. done.
Qed.

Lemma opened_sealed a p st e n data : protection st = Some p → aead_protection a p → opened st e n data → sealed a e n data.
Proof.
  intros Hp Ha (p' & raw & h & plain & clear & Hp' & Hh & He & Hn & Hd & Hc & Hu). rewrite Hp in Hp'. injection Hp' as <-.
  apply Record_Unmarshal_inv in Hu as [Hct Hdata]. destruct (Header_Unmarshal_first _ _ _ Hh) as [Hfirst Hplain].
  destruct (decrypt_opens a p _ _ _ Ha Hd) as (h2 & Hh2 & Hcase).
  assert (h2 = h) as ->.
  { destruct (Z.eqb_spec (RecordHeader.ContentType h) ContentTypeConnectionID) as [|Hne]; [congruence|]. destruct (Hplain Hne) as [_ Hall]. rewrite Hall in Hh2. congruence. }
  destruct Hcase as [[Hccs ->]|(nonce & ct & ad & text & hd & Had & Hopen & Hhd & ->)].
  { rewrite Hccs in Hc. cbn in Hc. injection Hc as <-. rewrite Hfirst, Hccs in Hct. done. }
  pose proof (len_nonneg (RecordHeader.ConnectionID h)).
  destruct (slice_prefix_first raw hd text _ Hhd) as [Hi Hl]; [unfold RecordHeader.Header_Size, RecordHeader.FixedHeaderSize; lia|].
  exists h, nonce, ct, ad, text. split_and!; [done..|].
  destruct (Z.eqb_spec (RecordHeader.ContentType h) ContentTypeConnectionID) as [Ecid|Hne].
  - right. split; [done|]. unfold unwrap_cid in Hc. rewrite slice_from_app in Hc by done. cbn [mbind res_bind] in Hc.
    apply bind_Ok_inv in Hc as ([content typ z] & Hip & (hb & Hm & [= <-])%bind_Ok_inv). exists z. rewrite Hip. unfold RecordHeader.Header_Marshal in Hm.
    destruct (_ <? _); [done|]. injection Hm as <-. cbn in Hct. injection Hct as ->. cbn [RecordHeader.ip_Content] in *.
    rewrite (slice_from_app _ content 13) in Hdata by done. by injection Hdata as <-.
  - left. injection Hc as <-. destruct (Hplain Hne) as [Hcid _]. rewrite Hi, Hfirst in Hct. injection Hct as Hct. split; [done|].
    unfold RecordHeader.Header_Size in Hl. rewrite Hcid in Hl. rewrite slice_from_app in Hdata by done. by injection Hdata.
Qed.

(** The entries with data. *)
Definition delivered (new : list entry) : list (Z * Z * bytes) := omap (λ '(k, o), data ← o; Some (k, data)) new.

Lemma delivered_spec st new : Forall (entry_ok st) new →
  (delivered new).*2 = omap snd new ∧ (delivered new).*1 `sublist_of` new.*1 ∧ Forall (λ '(e, n, data), 0 < e ∧ opened st e n data) (delivered new).
Proof.
  induction 1 as [|[[e n] [data|]] new [He Ho] _ (IH1 & IH2 & IH3)]; [by split_and!|..]; unfold delivered in *;
    cbn [omap list_omap option_bind mbind fmap list_fmap fst snd].
  - split_and!; [by f_equal|by apply sublist_skip|by constructor].
  - split_and!; [done|by apply sublist_cons|done].
Qed.

(** C16: nothing but the peer's data is delivered, and nothing twice.  Let the
    connection have the keys of one of the cipher suites of DTLS 1.2, and let any
    datagrams arrive, of anybody and in any order.  Every piece of application
    data that is queued for Read then was sealed with the peer's key in a record
    of an epoch after the first whose epoch and number are part of what is
    authenticated, and no two pieces come from records with the same epoch and
    number, nor from a record that was accepted before. *)
Theorem data_authentic_once cc a p arrivals s acc : store_ok cc → 0 < replayProtectionWindow cc → buffers_ok s → Forall bytes_ok arrivals.*1.*1 →
  detectors_ok cc acc s → Forall (λ x, 0 ≤ x.1) acc → protection (h_state s) = Some p → aead_protection a p →
  ∃ log : list (Z * Z * bytes), received_data (reads cc arrivals s) = received_data s ++ log.*2 ∧ NoDup log.*1 ∧
    (∀ k, k ∈ log.*1 → k ∉ acc) ∧ Forall (λ '(e, n, data), 0 < e ∧ sealed a e n data) log.
Proof.
  intros Hst Hw Hb Hok Hd Hacc Hp Ha. destruct (reads_logs cc arrivals Hst Hok s) as [_ Hl]. destruct (Hl acc Hb Hd) as (_ & new & Hd' & Hr & He). clear Hl.
  apply detectors_NoDup in Hd'; [|done|].
  2: { apply Forall_app. split; [|done]. apply Forall_reverse, Forall_fmap. eapply Forall_impl; [exact He|]. by intros [[e n] o] [? _]. }
  rewrite reverse_Permutation in Hd'. apply NoDup_app in Hd' as (Hn & Hdis & _). destruct (delivered_spec _ _ He) as (Hdata & Hsub & Hall).
  exists (delivered new). split_and!.
  - by rewrite Hdata.
  - by eapply sublist_NoDup.
  - intros k Hk. apply Hdis. by eapply elem_of_sublist.
  - eapply Forall_impl; [exact Hall|]. intros [[e n] data] [? Ho]. split; [done|by eapply opened_sealed].
Qed.
End data.
End ConnData.
