(* ===== verification/ConnSend.v ===== *)
(** * The records a DTLS 1.2 connection sends

    The numbers of the records of a flight, which are part of the nonces of their
    protection, and how the records are packed into datagrams; how a handshake
    message is split and put together again by the peer. *)
From stdpp Require Import base tactics numbers list strings gmap relations.
From Stdlib Require Import ZArith Lia.
From S2P Require Import Prelude Sha2 Wire SignatureHash HandshakeCrypto Prf Record CipherSuite Extensions Fragment Handshake HandshakeState FlightCache Flight12 Flight12Auth Handshaker DtlsConn ConnData.
Import Protocol SignatureHash Extension Handshake HandshakeHeader State Config HandshakeCrypto Flight Selection AlertDescription Flight12 Flight12Auth Handshaker DtlsConn ConnData.
Open Scope Z_scope.

Module ConnSend.

(** ** Numbers *)

(** Epoch and number of a record as it is sent. *)
Definition record_key (raw : bytes) : Z * Z := (be_get (sub 3 5 raw), be_get (sub 5 11 raw)).

Lemma record_key_take raw raw' : take 11 raw = take 11 raw' → record_key raw = record_key raw'.
Proof.
  intros E. unfold record_key, sub. cbn [Z.to_nat Pos.to_nat Pos.iter_op Nat.add Z.sub Z.opp Z.add Z.pos_sub Pos.pred_double].
  assert (∀ i j, (i + j ≤ 11)%nat → take j (drop i raw) = take j (drop i raw')) as Hs.
  { intros i j Hij. rewrite !take_drop_commute. f_equal. replace (i + j)%nat with ((i + j) `min` 11)%nat by lia. by rewrite <- !take_take, E. }
  f_equal; f_equal; apply Hs; vm_compute; lia.
Qed.

Lemma record_key_header h rest : is_u16 (RecordHeader.Epoch h) → is_u48 (RecordHeader.SequenceNumber h) →
  record_key (Aead.header_bytes h ++ rest) = (RecordHeader.Epoch h, RecordHeader.SequenceNumber h).
Proof.
  intros He Hn. unfold record_key. f_equal.
  - transitivity (be_get (be_put 2 (RecordHeader.Epoch h))); [reflexivity|]. rewrite be_get_put. by apply Z.mod_small.
  - transitivity (be_get (be_put 6 (RecordHeader.SequenceNumber h))); [reflexivity|]. rewrite be_get_put. by apply Z.mod_small.
Qed.

(** Encryption leaves type, version, epoch and number of a record as they are. *)
Definition keeps_header (p : CipherSuite.Protection) : Prop :=
  ∀ h raw enc, CipherSuite.Encrypt p h raw = Ok enc → take 11 enc = take 11 raw.

Lemma put_u16_prefix l off v l' : Prf.put_u16 l off v = Ok l' → 11 ≤ off → take 11 l' = take 11 l.
Proof.
  unfold Prf.put_u16. destruct (_ && _) eqn:E; [|done]. rewrite andb_true_iff, !Z.leb_le in E. unfold len in E. intros [= <-] Ho.
  rewrite take_app_le by (rewrite length_take; lia). rewrite take_take. f_equal. lia.
Qed.

Section send.
Context `{CryptobyteLaws} `{CiphersLaws} `{KeyExchange.KeyAgreement} `{PKI} `{Unicode} {W : Type} `{World W} `{ReplayDetector} `{Network W}.
Abbreviation NET := (net (W := W)).
Abbreviation CM := (M (W := NET)).
Implicit Types (cc : conn_config (W := W)) (s : hs (W := NET)).

Lemma aead_keeps_header a p : aead_protection a p → keeps_header p.
Proof.
  intros Ha h raw enc He. pose proof (len_nonneg (RecordHeader.ConnectionID h)).
  assert (∃ hd rest, slice raw 0 (RecordHeader.Header_Size h) = (Ok hd : res dtls_error bytes) ∧ take 11 enc = take 11 (hd ++ rest)) as (hd & rest & Hs & ->).
  { destruct Ha as [-> | ->]; cbn [CipherSuite.Encrypt] in He; unfold Aead.encrypt, Aead.ChaCha_Encrypt in He.
    - apply bind_Ok_inv in He as (pl & _ & He). apply bind_Ok_inv in He as (hd & Hhd & He). apply bind_Ok_inv in He as (iv & _ & He).
      apply bind_Ok_inv in He as (ad & _ & He). cbv zeta in He. apply put_u16_prefix in He; [|unfold RecordHeader.Header_Size, RecordHeader.FixedHeaderSize; lia].
      exists hd. by eexists.
    - apply bind_Ok_inv in He as (pl & _ & He). apply bind_Ok_inv in He as (hd & Hhd & He).
      apply bind_Ok_inv in He as (ad & _ & He). cbv zeta in He. apply put_u16_prefix in He; [|unfold RecordHeader.Header_Size, RecordHeader.FixedHeaderSize; lia].
      exists hd. by eexists. }
  unfold slice in Hs. destruct (_ && _) eqn:E; [|done]. rewrite !andb_true_iff, !Z.leb_le in E. injection Hs as <-.
  unfold RecordHeader.Header_Size, RecordHeader.FixedHeaderSize, len in *. unfold sub. rewrite drop_0, take_app_le by (rewrite length_take; lia).
  rewrite take_take. f_equal. lia.
Qed.

(** The counters are 64 bits wide. *)
Definition counters_ok s : Prop := Forall (λ n, 0 ≤ n < 2 ^ 64) (st_LocalSequenceNumber (h_state s)).

(** Between [s] and [s'] these records were numbered. *)
Record numbered s (raws : list bytes) s' : Prop := {
  nu_quiet : quiet (h_state s) (h_state s');
  nu_ok : counters_ok s';
  nu_length : (length (st_LocalSequenceNumber (h_state s)) ≤ length (st_LocalSequenceNumber (h_state s')))%nat;
  nu_mono : ∀ e, 0 ≤ e → seq_of s e ≤ seq_of s' e;
  nu_nodup : NoDup (record_key <$> raws);
  nu_range : ∀ e n, (e, n) ∈ record_key <$> raws → 0 ≤ e ∧ seq_of s e ≤ n < seq_of s' e
}.

Lemma numbered_refl s : counters_ok s → numbered s [] s.
Proof. intros Hc. split; [apply quiet_refl|done|done|done|constructor|]. by intros e n ?%not_elem_of_nil. Qed.

Lemma numbered_trans s1 s2 s3 r1 r2 : numbered s1 r1 s2 → numbered s2 r2 s3 → numbered s1 (r1 ++ r2) s3.
Proof.
  intros [Hq1 Hc1 Hl1 Hm1 Hn1 Hr1] [Hq2 Hc2 Hl2 Hm2 Hn2 Hr2]. split; [by eapply quiet_trans|done|lia|intros e He; etrans; [by apply Hm1|by apply Hm2]|..]; rewrite fmap_app.
  - apply NoDup_app. split_and!; [done| |done]. intros [e n] Ha Hb. apply Hr1 in Ha. apply Hr2 in Hb. lia.
  - intros e n [Ha|Hb]%elem_of_app.
    + destruct (Hr1 e n Ha) as [He ?]. specialize (Hm2 e He). lia.
    + destruct (Hr2 e n Hb) as [He ?]. specialize (Hm1 e He). lia.
Qed.

(** A counter after its number was taken. *)
Definition bump (e : Z) s : hs (W := NET) :=
  MkHs ((h_state s) <| st_LocalSequenceNumber := <[Z.to_nat e := u64 (seq_of s e + 1)]> (st_LocalSequenceNumber (h_state s)) |>) (h_cache s) (h_world s) (h_keylog s).

Lemma seq_of_range s e : counters_ok s → 0 ≤ seq_of s e < 2 ^ 64.
Proof.
  intros Hc. unfold seq_of. destruct (_ !! _) as [n|] eqn:E; [|cbn; lia]. cbn. by eapply (Forall_lookup_1 (λ n, 0 ≤ n < 2 ^ 64)).
Qed.

Lemma seq_of_bump s e e' : counters_ok s → 0 ≤ e → (Z.to_nat e < length (st_LocalSequenceNumber (h_state s)))%nat →
  seq_of s e ≤ RecordHeader.MaxSequenceNumber → 0 ≤ e' → seq_of (bump e s) e' = if e' =? e then seq_of s e + 1 else seq_of s e'.
Proof.
  intros Hc He Hl Hm He'. pose proof (seq_of_range s e Hc). unfold RecordHeader.MaxSequenceNumber in *. unfold seq_of at 1.
  change (st_LocalSequenceNumber (h_state (bump e s))) with (<[Z.to_nat e := u64 (seq_of s e + 1)]> (st_LocalSequenceNumber (h_state s))). destruct (Z.eqb_spec e' e) as [->|Hne].
  - rewrite list_lookup_insert_eq by done. cbn. unfold u64. apply Z.mod_small. lia.
  - by rewrite list_lookup_insert_ne by lia.
Qed.

Lemma numbered_bump_any s e : counters_ok s → 0 ≤ e → (Z.to_nat e < length (st_LocalSequenceNumber (h_state s)))%nat →
  seq_of s e ≤ RecordHeader.MaxSequenceNumber → numbered s [] (bump e s).
Proof.
  intros Hc He Hl Hm. pose proof (seq_of_range s e Hc). unfold RecordHeader.MaxSequenceNumber in *.
  set (l := <[Z.to_nat e := u64 (seq_of s e + 1)]> (st_LocalSequenceNumber (h_state s))).
  assert (st_LocalSequenceNumber (h_state (bump e s)) = l) as El by done. split.
  - exists l, (st_LocalEpoch (h_state s)), (st_RemoteEpoch (h_state s)). cbn. by destruct (h_state s).
  - unfold counters_ok. rewrite El. apply Forall_insert; [done|]. unfold u64. apply Z.mod_pos_bound. lia.
  - rewrite El. unfold l. by rewrite length_insert.
  - intros e' He'. rewrite seq_of_bump by (unfold RecordHeader.MaxSequenceNumber; done). destruct (Z.eqb_spec e' e) as [->|]; lia.
  - constructor.
  - by intros e' n ?%not_elem_of_nil.
Qed.

Lemma numbered_bump s e raw : counters_ok s → 0 ≤ e → (Z.to_nat e < length (st_LocalSequenceNumber (h_state s)))%nat →
  seq_of s e ≤ RecordHeader.MaxSequenceNumber → record_key raw = (e, seq_of s e) → numbered s [raw] (bump e s).
Proof.
  intros Hc He Hl Hm Hk. destruct (numbered_bump_any s e) as [? ? ? ? _ _]; [done..|]. split; [done..|apply NoDup_singleton|].
  intros e' n Hi. apply list_elem_of_singleton in Hi. rewrite Hk in Hi. injection Hi as -> ->. split; [done|]. rewrite seq_of_bump, Z.eqb_refl by done. lia.
Qed.

Lemma numbered_grow s e : counters_ok s → 0 ≤ e →
  numbered s [] (MkHs ((h_state s) <| st_LocalSequenceNumber := grow (st_LocalSequenceNumber (h_state s)) e 0 |>) (h_cache s) (h_world s) (h_keylog s)).
Proof.
  intros Hc He. set (l := grow _ e 0). set (s' := MkHs _ _ _ _). assert (st_LocalSequenceNumber (h_state s') = l) as El by done. split.
  - exists l, (st_LocalEpoch (h_state s)), (st_RemoteEpoch (h_state s)). cbn. by destruct (h_state s).
  - unfold counters_ok. rewrite El. apply Forall_app. split; [done|]. by apply Forall_replicate.
  - rewrite El. unfold l, grow. rewrite length_app. lia.
  - intros e' He'. unfold seq_of. rewrite El. unfold l, grow. destruct (st_LocalSequenceNumber (h_state s) !! Z.to_nat e') as [n|] eqn:E.
    + by rewrite (lookup_app_l_Some _ _ _ _ E).
    + apply lookup_ge_None in E. rewrite lookup_app_r by done. destruct (replicate _ _ !! _) as [d|] eqn:Er; [|done]. by apply lookup_replicate in Er as [-> _].
  - constructor.
  - by intros e' n ?%not_elem_of_nil.
Qed.

(** *** The records of a packet *)

Lemma Header_Marshal_inv h raw : RecordHeader.Header_Marshal h = Ok raw → raw = Aead.header_bytes h.
Proof. unfold RecordHeader.Header_Marshal. destruct (_ <? _); [done|]. by intros [= <-]. Qed.

Definition same_number (h h' : RecordHeader.Header) : Prop := RecordHeader.Epoch h' = RecordHeader.Epoch h ∧ RecordHeader.SequenceNumber h' = RecordHeader.SequenceNumber h.

Lemma Record_Marshal_inv p p' raw : Record_Marshal p = Ok (p', raw) → same_number (pk_Header p) (pk_Header p') ∧
  pk_ShouldWrapCID p' = pk_ShouldWrapCID p ∧ ∃ rest, raw = Aead.header_bytes (pk_Header p') ++ rest.
Proof.
  unfold Record_Marshal. intros ([content c] & _ & (hd & Hh & [= <- <-])%bind_Ok_inv)%bind_Ok_inv. apply Header_Marshal_inv in Hh as ->.
  split; [done|]. split; [done|]. by eexists.
Qed.

Lemma cid_record_inv h inner cid h' raw : cid_record h inner cid = Ok (h', raw) → same_number h h' ∧ ∃ rest, raw = Aead.header_bytes h' ++ rest.
Proof.
  unfold cid_record. intros (ri & _ & (hd & Hh & [= <- <-])%bind_Ok_inv)%bind_Ok_inv. apply Header_Marshal_inv in Hh as ->. split; [done|]. by eexists.
Qed.

(** The keys leave the headers of records as they are. *)
Definition headers_kept s : Prop := ∀ p, st_Protection (h_state s) = Some p → keeps_header p.

Lemma quiet_headers_kept s s' : quiet (h_state s) (h_state s') → headers_kept s → headers_kept s'.
Proof. intros (? & ? & ? & E) Hk p. rewrite E. apply Hk. Qed.

Lemma wp_next_number e s (Q : Z → hs (W := NET) → Prop) : counters_ok s → 0 ≤ e → (Z.to_nat e < length (st_LocalSequenceNumber (h_state s)))%nat →
  (seq_of s e ≤ RecordHeader.MaxSequenceNumber → Q (seq_of s e) (bump e s)) → wp (next_sequence_number e) Q (λ _ _, True) s.
Proof.
  intros Hc He Hl HQ. destruct (lookup_lt_is_Some_2 _ _ Hl) as [n Hn]. unfold next_sequence_number. apply wp_bind, wp_gets, wp_bind.
  assert (seq_of s e = n) as En by (unfold seq_of; by rewrite Hn).
  apply wp_lift; [|done]. intros a Ha. unfold idx in Ha. destruct (0 <=? e); [|done]. rewrite Hn in Ha. injection Ha as <-.
  apply wp_bind, wp_modify. rewrite <- En. fold (bump e s). destruct (Z.ltb_spec RecordHeader.MaxSequenceNumber (seq_of s e)); [done|]. by apply wp_val, HQ.
Qed.

Lemma wp_encrypt p raw s (Q : bytes → hs (W := NET) → Prop) : headers_kept s → (∀ enc, take 11 enc = take 11 raw → Q enc s) →
  wp (encrypt_packet p raw) Q (λ _ _, True) s.
Proof.
  intros Hk HQ. unfold encrypt_packet. wp_run; try done; [|by apply HQ]. apply HQ. by eapply Hk.
Qed.

Lemma processPacket_numbered p s : counters_ok s → headers_kept s → is_u16 (RecordHeader.Epoch (pk_Header p)) →
  wp (processPacket p) (λ '(_, raw) s', numbered s [raw] s') (λ _ _, True) s.
Proof.
  intros Hc Hk He. set (e := RecordHeader.Epoch (pk_Header p)) in *. unfold processPacket, grow_sequence_numbers. fold e. apply wp_bind, wp_modify, wp_bind.
  pose proof (numbered_grow s e Hc ltac:(destruct He; lia)) as Hg. set (s0 := MkHs _ _ _ _) in *.
  apply wp_next_number; [apply Hg|destruct He; lia| |].
  { eapply lookup_lt_Some. by apply (grow_lookup (st_LocalSequenceNumber (h_state s)) e 0); destruct He. }
  intros Hm. set (n := seq_of s0 e). cbv zeta. apply wp_bind.
  assert (∀ raw rest h, raw = Aead.header_bytes h ++ rest → RecordHeader.Epoch h = e → RecordHeader.SequenceNumber h = n → ∀ enc, take 11 enc = take 11 raw →
    numbered s [enc] (bump e s0)) as Hdone.
  { intros raw rest h -> E1 E2 enc Ht. change [enc] with ([] ++ [enc]). eapply numbered_trans; [exact Hg|].
    apply numbered_bump; [apply Hg|destruct He; lia| |done|].
    - eapply lookup_lt_Some. by apply (grow_lookup (st_LocalSequenceNumber (h_state s)) e 0); destruct He.
    - rewrite (record_key_take _ _ Ht), record_key_header; rewrite ?E1, ?E2; [done|done|].
      pose proof (seq_of_range s0 e (nu_ok _ _ _ Hg)). unfold is_u48, RecordHeader.MaxSequenceNumber, n in *. lia. }
  assert (headers_kept (bump e s0)) as Hk' by (intros q; apply Hk).
  destruct (pk_ShouldWrapCID _).
  - apply wp_bind, wp_lift; [|done]. intros [p2 r2] Hrm%Record_Marshal_inv. apply wp_bind, wp_lift; [|done]. intros [? content] _. apply wp_bind, wp_gets, wp_bind, wp_lift; [|done].
    intros [h raw] ([E1 E2] & rest & ->)%cid_record_inv. destruct Hrm as [[E3 E4] _]. apply wp_val, wp_bind, wp_encrypt; [done|]. intros enc Ht. apply wp_val.
    eapply Hdone; [reflexivity| | |exact Ht]; rewrite ?E1, ?E2, ?E3, ?E4; done.
  - apply wp_lift; [|done]. intros [p2 raw] ([E1 E2] & _ & rest & ->)%Record_Marshal_inv. apply wp_bind, wp_encrypt; [done|]. intros enc Ht. apply wp_val.
    eapply Hdone; [reflexivity| | |exact Ht]; rewrite ?E1, ?E2; done.
Qed.

(** Handshake messages: one record per fragment, when they are not wrapped. *)
Lemma handshake_records_numbered cc frags : ∀ p s, counters_ok s → headers_kept s → is_u16 (RecordHeader.Epoch (pk_Header p)) → pk_ShouldWrapCID p = false →
  (Z.to_nat (RecordHeader.Epoch (pk_Header p)) < length (st_LocalSequenceNumber (h_state s)))%nat →
  wp (handshake_records cc p frags) (λ '(_, raws) s', numbered s raws s') (λ _ _, True) s.
Proof.
  induction frags as [|x frags IH]; intros p s Hc Hk He Hw Hl; cbn [handshake_records]; [by apply wp_val, numbered_refl|].
  set (e := RecordHeader.Epoch (pk_Header p)) in *. cbv zeta. apply wp_bind, wp_next_number; [done|destruct He; lia|done|]. intros Hm. rewrite Hw.
  apply wp_bind, wp_bind, wp_lift; [|done]. intros hd ->%Header_Marshal_inv. apply wp_val, wp_bind, wp_encrypt; [intros q; apply Hk|].
  intros enc Ht. apply wp_bind. assert (numbered s [enc] (bump e s)) as Hn.
  { apply numbered_bump; [done|destruct He; lia|done|done|]. rewrite (record_key_take _ _ Ht), record_key_header; [done|done|].
    pose proof (seq_of_range s e Hc). unfold is_u48, RecordHeader.MaxSequenceNumber in *. cbn. lia. }
  eapply wp_mono; [apply IH; [apply Hn|intros q; apply Hk|done|done|]| |done].
  { change (Z.to_nat e < length (st_LocalSequenceNumber (h_state (bump e s))))%nat. pose proof (nu_length _ _ _ Hn). lia. }
  intros [p' raws] s' Hn'. apply wp_val. exact (numbered_trans _ _ _ [enc] raws Hn Hn').
Qed.

(** *** Wrapped handshake messages *)

Lemma cid_record_number h inner cid h' raw : cid_record h inner cid = Ok (h', raw) → RecordHeader.SequenceNumber h ≤ RecordHeader.MaxSequenceNumber.
Proof.
  unfold cid_record. intros (ri & _ & (hd & Hh & _)%bind_Ok_inv)%bind_Ok_inv. unfold RecordHeader.Header_Marshal in Hh. cbn [RecordHeader.SequenceNumber] in Hh.
  by destruct (Z.ltb_spec RecordHeader.MaxSequenceNumber (RecordHeader.SequenceNumber h)).
Qed.

(** The records of the packet have the number in the packet's header. *)
Definition header_number (p : Packet) : Z * Z := (RecordHeader.Epoch (pk_Header p), RecordHeader.SequenceNumber (pk_Header p)).

(** The numbers that are taken from the counter are not used. *)
Lemma wrapped_records cc frags : ∀ p s, counters_ok s → headers_kept s → is_u16 (RecordHeader.Epoch (pk_Header p)) → 0 ≤ RecordHeader.SequenceNumber (pk_Header p) →
  pk_ShouldWrapCID p = true → (Z.to_nat (RecordHeader.Epoch (pk_Header p)) < length (st_LocalSequenceNumber (h_state s)))%nat →
  wp (handshake_records cc p frags) (λ '(p', raws) s', numbered s [] s' ∧ same_number (pk_Header p) (pk_Header p') ∧ pk_ShouldWrapCID p' = true ∧ pk_Content p' = pk_Content p ∧
    Forall (λ raw, record_key raw = header_number p) raws) (λ _ _, True) s.
Proof.
  induction frags as [|x frags IH]; intros p s Hc Hk He Hn Hw Hl; cbn [handshake_records]; [apply wp_val; split_and!; [by apply numbered_refl|done|done|done|constructor]|].
  set (e := RecordHeader.Epoch (pk_Header p)) in *. cbv zeta. rewrite Hw. apply wp_bind, wp_next_number; [done|destruct He; lia|done|]. intros Hm. apply wp_bind, wp_bind, wp_with_world.
  intros zeros w _. apply wp_bind, wp_gets, wp_lift; [|done]. intros [h raw] Hcr. pose proof (cid_record_number _ _ _ _ _ Hcr) as Hmax.
  apply cid_record_inv in Hcr as ([E1 E2] & rest & ->). apply wp_bind, wp_encrypt; [intros q; apply Hk|]. intros enc Ht. apply wp_bind. set (s2 := MkHs _ _ _ _).
  assert (record_key enc = header_number p) as Hkey.
  { rewrite (record_key_take _ _ Ht), record_key_header; rewrite ?E1, ?E2; [done|done|]. unfold is_u48, RecordHeader.MaxSequenceNumber in *. lia. }
  assert (numbered s [] s2) as Hb by (pose proof (numbered_bump_any s e Hc ltac:(destruct He; lia) Hl Hm) as [? ? ? ? ? ?]; by split).
  eapply wp_mono; [apply (IH (with_header p h) s2)| |done]; cbn [pk_Header with_header pk_ShouldWrapCID]; rewrite ?E1, ?E2; [apply Hb|intros q; apply Hk|done..| |].
  - fold e. pose proof (nu_length _ _ _ Hb). lia.
  - intros [p' raws] s' (Hq & [E3 E4] & Hw' & Hct & Hall). apply wp_val. split_and!; [exact (numbered_trans _ _ _ [] [] Hb Hq)|by split; rewrite ?E3, ?E4, ?E1, ?E2|done|done|].
    constructor; [done|]. unfold header_number in *. cbn [pk_Header with_header] in Hall. by rewrite E1, E2 in Hall.
Qed.

Definition wrapped_message (p : Packet) : bool :=
  match pk_Content p with HandshakeContent _ _ => pk_ShouldWrapCID p | _ => false end.

(** The fields have the widths of their types. *)
Definition sendable (p : Packet) : Prop := is_u16 (RecordHeader.Epoch (pk_Header p)) ∧ 0 ≤ RecordHeader.SequenceNumber (pk_Header p) < 2 ^ 64.

(** The records of one packet: those of a wrapped message have the number in the
    header, all others numbers of their own. *)
Definition packet_numbered (p : Packet) s (raws : list bytes) s' : Prop :=
  if wrapped_message p then numbered s [] s' ∧ Forall (λ raw, record_key raw = header_number p) raws else numbered s raws s'.

(** The packet that is kept for retransmission has the same number again. *)
Definition kept_wrapped (p p' : Packet) : Prop := wrapped_message p = true → wrapped_message p' = true ∧ header_number p' = header_number p.

(** One packet of a flight. *)
Definition raw_packet cc (p : Packet) : CM dtls_error (Packet * list bytes) :=
  match pk_Content p with
  | HandshakeContent _ _ =>
      '(p, handshakeRaw) ← lift (Record_Marshal p) id;
      data ← lift (slice_from handshakeRaw RecordHeader.FixedHeaderSize) id;
      isClient ← gets st_IsClient;
      match pk_Content p with
      | HandshakeContent h m =>
          _ ← push_cache data (RecordHeader.Epoch (pk_Header p)) (MessageSequence h) (Type_ h) isClient;
          processHandshakePacket cc p h m
      | _ => crash
      end
  | _ => '(p, rawPacket) ← processPacket p; val (p, [rawPacket])
  end.

Lemma raw_packet_numbered cc p s : sendable p → counters_ok s → headers_kept s →
  wp (raw_packet cc p) (λ '(p', raws) s', packet_numbered p s raws s' ∧ kept_wrapped p p') (λ _ _, True) s.
Proof.
  intros [He Hn] Hc Hk. unfold raw_packet, packet_numbered, kept_wrapped, wrapped_message. destruct (pk_Content p) as [h m| |a|d] eqn:Ep.
  2-4: apply wp_bind; (eapply wp_mono; [by apply processPacket_numbered| |done]); intros [p' raw] s' Hnu; by apply wp_val.
  apply wp_bind, wp_lift; [|done]. intros [p1 r1] ([E1 E2] & Ew & _)%Record_Marshal_inv. apply wp_bind, wp_lift; [|done]. intros data _. apply wp_bind, wp_gets.
  destruct (pk_Content p1) as [h1 m1| | |] eqn:Ep1; [|apply wp_crash..]. apply wp_bind, wp_push_cache. set (s0 := MkHs _ _ _ _).
  unfold processHandshakePacket, grow_sequence_numbers. apply wp_bind, wp_lift; [|done]. intros frags _. apply wp_bind, wp_modify.
  set (e := RecordHeader.Epoch (pk_Header p1)). assert (is_u16 e) as He1 by (unfold e; by rewrite E1).
  pose proof (numbered_grow s0 e Hc ltac:(destruct He1; lia)) as Hg. match type of Hg with numbered _ _ ?x => set (s1 := x) in * end.
  assert (numbered s [] s1) as Hg'.
  { destruct Hg as [Hgq Hgc Hgl Hgm Hgn Hgr]. exact (Build_numbered s [] s1 Hgq Hgc Hgl Hgm Hgn Hgr). }
  assert (Z.to_nat e < length (st_LocalSequenceNumber (h_state s1)))%nat as Hl.
  { eapply lookup_lt_Some. by apply (grow_lookup (st_LocalSequenceNumber (h_state s)) e 0); destruct He1. }
  destruct (pk_ShouldWrapCID p) eqn:Hw.
  - eapply wp_mono; [apply wrapped_records; [apply Hg|intros q; apply Hk|done|rewrite E2; lia|congruence|done]| |done].
    intros [p2 raws] s' (Hq & [E3 E4] & Hw' & Hct & Hall). unfold header_number in *. rewrite E1, E2 in *. split_and!; [exact (numbered_trans _ _ _ [] [] Hg' Hq)|done|].
    intros _. rewrite Hct, Ep1, E3, E4. done.
  - eapply wp_mono; [apply handshake_records_numbered; [apply Hg|intros q; apply Hk|done|congruence|done]| |done].
    intros [p2 raws] s' Hnu. split; [exact (numbered_trans _ _ _ [] raws Hg' Hnu)|done].
Qed.

Lemma raw_packets_cons cc p pkts : raw_packets cc (p :: pkts) = ('(p, raw) ← raw_packet cc p; '(pkts, rest) ← raw_packets cc pkts; val (p :: pkts, raw ++ rest)).
Proof. done. Qed.

(** The records that have a number of their own: all but those of wrapped messages. *)
Fixpoint own_numbers (pkts : list Packet) (rss : list (list bytes)) : list bytes :=
  match pkts, rss with
  | p :: pkts, rs :: rss => (if wrapped_message p then [] else rs) ++ own_numbers pkts rss
  | _, _ => []
  end.

Lemma own_numbers_all pkts rss : length pkts = length rss → Forall (λ p, wrapped_message p = false) pkts → own_numbers pkts rss = concat rss.
Proof. intros Hl Hp. revert rss Hl. induction Hp as [|p pkts Hp Hps IH]; intros [|rs rss] Hl; [done..|]. cbn [own_numbers concat]. rewrite Hp, IH; [done|]. by injection Hl. Qed.

(** Every packet of the flight and its records. *)
Definition header_numbered (p : Packet) (rs : list bytes) : Prop := wrapped_message p = true → Forall (λ raw, record_key raw = header_number p) rs.

Lemma raw_packets_numbered cc pkts : Forall sendable pkts → ∀ s, counters_ok s → headers_kept s →
  wp (raw_packets cc pkts) (λ '(pkts', raws) s', ∃ rss, raws = concat rss ∧ Forall2 header_numbered pkts rss ∧ Forall2 kept_wrapped pkts pkts' ∧ numbered s (own_numbers pkts rss) s')
    (λ _ _, True) s.
Proof.
  induction 1 as [|p pkts Hp Hps IH]; intros s Hc Hk; [apply wp_val; exists []; split_and!; [done|constructor|constructor|by apply numbered_refl]|].
  rewrite raw_packets_cons. apply wp_bind. eapply wp_mono; [by apply raw_packet_numbered| |done]. intros [p' rs] s1 [Hn Hkw].
  assert (numbered s (if wrapped_message p then [] else rs) s1 ∧ header_numbered p rs) as [Hn1 Hh].
  { unfold packet_numbered, header_numbered in *. by destruct (wrapped_message p); [destruct Hn|]. }
  apply wp_bind. eapply wp_mono; [apply IH; [apply Hn1|by eapply quiet_headers_kept; [apply Hn1|]]| |done].
  intros [ps' rest] s2 (rss & -> & Hhs & Hks & Hn2). apply wp_val. exists (rs :: rss). split_and!; [done|by constructor|by constructor|]. exact (numbered_trans _ _ _ _ _ Hn1 Hn2).
Qed.

(** ** Packing into datagrams *)

Lemma compact_loop_groups mtu raws : ∀ group, len (concat group) < mtu ∨ (∃ r, r ∈ group ∧ concat group = r) ∨ group = [] →
  ∃ groups, compact_loop mtu (concat group) raws = (λ g, concat g) <$> groups ∧ concat groups = group ++ raws ∧
    Forall (λ g, len (concat g) < mtu ∨ (∃ r, r ∈ g ∧ concat g = r) ∨ g = []) groups.
Proof.
  induction raws as [|r raws IH]; intros group Hg; cbn [compact_loop].
  - exists [group]. split_and!; [done|done|by constructor].
  - destruct (Z.ltb_spec 0 (len (concat group))) as [Hlt|Hle]; cbn [andb].
    + destruct (Z.leb_spec mtu (len (concat group) + len r)) as [Hfull|Hroom].
      * destruct (IH [r]) as (groups & Hc & Hcat & Hall); [right; left; exists r; split; [by left|apply app_nil_r]|]. cbn [concat] in Hc. rewrite app_nil_r in Hc.
        exists (group :: groups). cbn [fmap list_fmap concat]. rewrite Hc, Hcat. split_and!; [done|done|by constructor].
      * destruct (IH (group ++ [r])) as (groups & Hc & Hcat & Hall); rewrite concat_app in *; cbn [concat] in *; rewrite app_nil_r in *.
        { left. by rewrite len_app. }
        exists groups. rewrite Hc, Hcat, <- (assoc_L (++)). done.
    + assert (concat group = []) as E by (destruct (concat group) as [|z l]; [done|unfold len in Hle; cbn in Hle; lia]).
      destruct (IH (group ++ [r])) as (groups & Hc & Hcat & Hall); rewrite concat_app in *; cbn [concat] in *; rewrite app_nil_r in *.
      { right. left. exists r. split; [apply elem_of_app; right; by left|by rewrite E]. }
      exists groups. rewrite Hc, Hcat, <- (assoc_L (++)). done.
Qed.

Lemma compactRawPackets_groups cc raws : ∃ groups, compactRawPackets cc raws = (λ g, concat g) <$> groups ∧ concat groups = raws ∧
  Forall (λ g, len (concat g) < maximumTransmissionUnit cc ∨ (∃ r, r ∈ g ∧ concat g = r) ∨ g = []) groups.
Proof.
  unfold compactRawPackets. destruct raws as [|r [|r' raws]].
  - apply (compact_loop_groups _ [] []). by right; right.
  - exists [[r]]. cbn. rewrite !app_nil_r. split_and!; [done|done|]. constructor; [|constructor]. right. left. exists r. split; [by left|apply app_nil_r].
  - apply (compact_loop_groups _ (r :: r' :: raws) []). by right; right.
Qed.

(** C17: the numbers of the records of a flight.  When a flight is turned into
    records, no two records have the same epoch and number, each number is a fresh
    one of the counter of its epoch, and the counters never go back, so that the
    numbers of later flights are different too; the exception are the records of a
    handshake message that is wrapped with a connection ID (the Finished message of
    a connection that uses them), which all have the number in the packet's header,
    and have it again when the packet that is kept is retransmitted.  In a flight
    without such messages all records have numbers of their own.  The records are
    packed in order into datagrams that are shorter than the maximum transmission
    unit or consist of one record. *)
Theorem flight_records_numbered cc pkts s pkts' raws s' : counters_ok s → headers_kept s → Forall sendable pkts →
  raw_packets cc pkts s = (Val (pkts', raws), s') →
  (∃ rss, raws = concat rss ∧ Forall2 header_numbered pkts rss ∧ Forall2 kept_wrapped pkts pkts' ∧
    NoDup (record_key <$> own_numbers pkts rss) ∧ (∀ e n, (e, n) ∈ record_key <$> own_numbers pkts rss → 0 ≤ e ∧ seq_of s e ≤ n < seq_of s' e) ∧
    (Forall (λ p, wrapped_message p = false) pkts → own_numbers pkts rss = raws)) ∧
  (∀ e, 0 ≤ e → seq_of s e ≤ seq_of s' e) ∧ counters_ok s' ∧
  ∃ groups, compactRawPackets cc raws = (λ g, concat g) <$> groups ∧ concat groups = raws ∧
    Forall (λ g, len (concat g) < maximumTransmissionUnit cc ∨ (∃ r, r ∈ g ∧ concat g = r) ∨ g = []) groups.
Proof.
  intros Hc Hk Hp Hr. pose proof (raw_packets_numbered cc pkts Hp s Hc Hk) as Hw. unfold wp in Hw. rewrite Hr in Hw. destruct Hw as (rss & -> & Hh & Hkw & [_ Ho _ Hm Hn Hrg]).
  split_and!; [|done|done|apply compactRawPackets_groups]. exists rss. split_and!; [done..|]. intros Hall. apply own_numbers_all; [|done]. by eapply Forall2_length.
Qed.

(** ** Handshake messages in fragments *)

Lemma split_loop_pieces data n fuel : 0 < n → ∀ i, 0 ≤ i → len data - i ≤ Z.of_nat fuel →
  ∃ pieces, split_loop fuel i data n = Ok pieces ∧ concat pieces = drop (Z.to_nat i) data ∧ Forall (λ p, p ≠ [] ∧ len p ≤ n) pieces.
Proof.
  intros Hn. induction fuel as [|fuel IH]; intros i Hi Hf; cbn [split_loop]; destruct (Z.ltb_spec i (len data)) as [Hlt|Hge]; [lia| | |].
  1,3: exists []; split_and!; [done| |constructor]; symmetry; apply drop_ge; unfold len in Hge; lia.
  set (j := Z.min (i + n) (len data)). rewrite slice_ok by lia. cbn [mbind res_bind].
  destruct (IH (i + n)) as (pieces & Hp & Hc & Hall); [lia|lia|]. rewrite Hp. cbn [mbind res_bind]. exists (sub i j data :: pieces). split_and!; [done| |].
  - cbn [concat]. rewrite Hc. unfold sub. rewrite <- (take_drop (Z.to_nat (j - i)) (drop (Z.to_nat i) data)) at 2. f_equal. rewrite drop_drop.
    destruct (Z.le_gt_cases (i + n) (len data)).
    + f_equal. unfold j. lia.
    + unfold j, len in *. rewrite !drop_ge; [done|lia|lia].
  - constructor; [|done]. assert (len (sub i j data) = j - i) as Hl by (apply len_sub; lia). split; [|lia]. intros E. rewrite E in Hl. change (len []) with 0 in Hl. lia.
Qed.

Lemma splitBytes_pieces data n : 0 < n → ∃ pieces, splitBytes data n = Ok pieces ∧ concat pieces = data ∧ Forall (λ p, p ≠ [] ∧ len p ≤ n) pieces.
Proof.
  intros Hn. destruct (split_loop_pieces data n (length data) Hn 0) as (pieces & Hp & Hc & Hall); [lia|unfold len; lia|]. by exists pieces.
Qed.

Lemma fragment_loop_parts h pieces : ∀ o, 0 ≤ o → o + len (concat pieces) < 2 ^ 24 →
  fragment_loop h o pieces = FragmentBuffer.fragment_bytes <$> FragmentBuffer.parts (Type_ h) (Length h) (MessageSequence h) o pieces.
Proof.
  induction pieces as [|p pieces IH]; intros o Ho Hl; [done|]. cbn [concat] in Hl. rewrite len_app in Hl. pose proof (len_nonneg p). pose proof (len_nonneg (concat pieces)).
  cbn [fragment_loop FragmentBuffer.parts fmap list_fmap]. rewrite IH by lia. unfold FragmentBuffer.fragment_bytes at 2. cbn [fst snd].
  unfold u32. rewrite !Z.mod_small by lia. done.
Qed.

Lemma pieces_cuts pieces : Forall (λ p : bytes, p ≠ []) pieces → FragmentBuffer.cuts_ok (match pieces with [] => [[]] | _ => pieces end).
Proof.
  destruct 1 as [|p pieces Hp Hps]; [done|]. revert p Hp. induction Hps as [|q pieces Hq Hps IH]; intros p Hp; [done|]. split; [done|by apply IH].
Qed.

Lemma parts_lengths t l q n cs : ∀ o, Forall (λ c : bytes, len c ≤ n) cs → Forall (λ x, len x.2 ≤ n) (FragmentBuffer.parts t l q o cs).
Proof. induction cs as [|c cs IH]; intros o Hc; [constructor|]. apply Forall_cons in Hc as [Hc Hcs]. constructor; [done|by apply IH]. Qed.

(** C18: a handshake message reaches the peer as it was written.  With a positive
    maximum transmission unit every message [raw] is cut into fragments of at most
    that many bytes of its body (the loop ends), and once the peer, who expects a
    message with this number, has received records that carry all of the fragments,
    in any order, repeated, and mixed with fragments of other messages, it puts
    into its cache exactly the bytes that the sender put into its own, so that both
    compute their verify data over the same transcript. *)
Theorem handshake_message_transmitted cc h0 m h raw : 0 < maximumTransmissionUnit cc → Handshake_Marshal h0 (Some m) = Ok (h, raw) → len raw < 2 ^ 24 →
  ∃ frags, fragmentHandshake cc h (Some m) = Ok (FragmentBuffer.fragment_bytes <$> frags) ∧ Forall (λ x, len x.2 ≤ maximumTransmissionUnit cc) frags ∧
  ∀ f rs, FragmentBuffer.buffer_ok f → FragmentBuffer.currentMessageSequenceNumber f = MessageSequence h → FragmentBuffer.cache f !! MessageSequence h = None →
    Forall FragmentBuffer.record_ok rs →
    FragmentBuffer.totalBufferSize f + len (concat (map FragmentBuffer.record_bytes rs)) < FragmentBuffer.fragmentBufferMaxSize →
    FragmentBuffer.totalFragmentCount f + len (concat (map snd rs)) < FragmentBuffer.fragmentBufferMaxCount →
    (∀ r p, r ∈ rs → p ∈ r.2 → MessageSequence p.1 = MessageSequence h → p ∈ frags) → (∀ p, p ∈ frags → ∃ r, r ∈ rs ∧ p ∈ r.2) →
    ∃ f' epoch, FragmentBuffer.run (map (λ r, FragmentBuffer.Push (FragmentBuffer.record_bytes r)) rs ++ [FragmentBuffer.Pop]) f = Ok (f', [(raw, epoch)]).
Proof.
  intros Hmtu Hm Hl. unfold Handshake_Marshal in Hm. destruct (Z.eqb_spec (FragmentOffset h0) 0) as [E0|]; [|done]. cbn [negb] in Hm.
  apply bind_Ok_inv in Hm as (body & Hb & Hm). cbv zeta in Hm. rewrite E0 in Hm. set (hd := MkHeader _ _ _ _ _) in Hm.
  assert (hd = h ∧ Header_Marshal hd ++ body = raw) as [Eh Er] by (split; congruence). clear Hm. destruct (splitBytes_pieces body _ Hmtu) as (pieces & Hs & Hc & Hall).
  assert (len raw = 12 + len body) as Hraw by (rewrite <- Er; by rewrite len_app, len_Header_Marshal). pose proof (len_nonneg body).
  assert (u32 (len body) = len body) as Hu by (unfold u32; apply Z.mod_small; lia). set (cs := match pieces with [] => [[]] | _ => pieces end).
  assert (concat cs = body) as Hcs by (unfold cs; by destruct pieces). assert (Length h = len body) as Hlen by (by rewrite <- Eh, <- Hu).
  exists (FragmentBuffer.parts (Type_ h) (Length h) (MessageSequence h) 0 cs). split_and!.
  - unfold fragmentHandshake. rewrite Hb. cbn [mbind res_bind]. rewrite Hs. cbn [mbind res_bind]. fold cs. rewrite fragment_loop_parts; [done|lia|rewrite Hcs; lia].
  - apply parts_lengths. unfold cs. destruct pieces as [|p ps]; [constructor; [change (len []) with 0; lia|constructor]|]. eapply Forall_impl; [exact Hall|]. by intros x [_ ?].
  - intros f rs Hok Hcur Hnone Hrs H1s H2s Hin Hex.
    destruct (FragmentBuffer.reassembled (Type_ h) cs f rs) as (f' & epoch & Hrun); rewrite ?Hcs, ?Hcur, <- ?Hlen in *; try done.
    + apply pieces_cuts. eapply Forall_impl; [exact Hall|]. by intros p [? _].
    + lia.
    + exists f', epoch. rewrite Hrun. do 4 f_equal. rewrite <- Er, <- Eh. unfold FragmentBuffer.message. done.
Qed.
End send.
End ConnSend.
