(* ===== verification/ConnRun.v ===== *)
(** * Runs of two DTLS connections

    An executable scheduler for the steps of a connection, and a client and a
    server that are joined by their datagrams.  With it handshakes are run on
    concrete implementations of the cryptographic interfaces: some that complete,
    and some with an attacker, who replaces a key exchange, resumes a session
    without a secret, or does without a certificate that is required. *)
From stdpp Require Import base tactics numbers list strings gmap relations.
From Stdlib Require Import ZArith Lia.
From S2P Require Import Prelude Sha2 Wire SignatureHash HandshakeCrypto Prf Record CipherSuite Extensions Fragment Handshake HandshakeState FlightCache Flight12 Flight12Auth Handshaker DtlsConn ConnData ConnSend.
Import Protocol SignatureHash Extension Handshake HandshakeHeader State Config HandshakeCrypto Flight Selection AlertDescription Flight12 Flight12Auth Handshaker DtlsConn ConnData ConnSend.
Open Scope Z_scope.

Module ConnRun.

Section scheduler.
Context `{Cryptobyte} `{Ciphers} `{KeyExchange.KeyAgreement} `{PKI} `{Unicode} {W : Type} `{World W} `{ReplayDetector} `{Network W}.
Abbreviation NET := (net (W := W)).
Abbreviation fsm := (handshakeState * handshakeFSM12 (W := NET))%type.
Implicit Types (cc : conn_config (W := W)) (x y : fsm).

(** What happens next at a connection. *)
Inductive turn := Machine | Event (ev : event) | Completed | Datagram (buffer : nat) (datagram : bytes) (rAddr : gostring).

Definition exec cc (t : turn) x : option fsm :=
  let '(q, f) := x in
  match t, q with
  | Machine, handshakePreparing => prepare (conn_flights cc) (handshakeConfig cc) f
  | Machine, handshakeSending => send (conn_flights cc) f
  | Event ev, handshakeWaiting => wait (conn_flights cc) (handshakeConfig cc) ev f
  | Event ev, handshakeFinished => finish ev f
  | Completed, handshakeFinished =>
      Some (q, with_hs f (MkHs (h_state (f_hs f)) (h_cache (f_hs f)) ((h_world (f_hs f)) <| n_completed := true |>) (h_keylog (f_hs f))))
  | Datagram b d rAddr, _ => Some (q, with_hs f (read_loop cc b d rAddr (f_hs f)).2)
  | _, _ => None
  end.

Lemma exec_sound cc t x y : exec cc t x = Some y → conn_step cc x y.
Proof.
  destruct x as [q f]. unfold exec. destruct t, q; try done; intros Hx; try (by econstructor); injection Hx as <-;
    try (by constructor); destruct (read_loop cc buffer datagram rAddr (f_hs f)) eqn:E; by econstructor.
Qed.

(** *** Two connections: a round of a script is a turn of one side, or the
    delivery of the datagrams that the other side has sent. *)

Context (sent : W → list bytes).

Inductive round := OnClient (t : turn) | OnServer (t : turn) | ToClient | ToServer.

(** How many datagrams of the client and of the server were delivered. *)
Record pair := MkPair { p_client : fsm; p_server : fsm; p_toServer : nat; p_toClient : nat }.

Definition outbox x : list bytes := sent (n_world (h_world (f_hs x.2))).

Definition read_all cc (rAddr : gostring) (ds : list bytes) x : fsm :=
  foldl (λ x d, default x (exec cc (Datagram 0 d rAddr) x)) x ds.

Definition play (cl sv : conn_config (W := W)) (r : round) (p : pair) : option pair :=
  match r with
  | OnClient t => x ← exec cl t (p_client p); Some (MkPair x (p_server p) (p_toServer p) (p_toClient p))
  | OnServer t => x ← exec sv t (p_server p); Some (MkPair (p_client p) x (p_toServer p) (p_toClient p))
  | ToServer =>
      let o := outbox (p_client p) in
      Some (MkPair (p_client p) (read_all sv (gs "client") (drop (p_toServer p) o) (p_server p)) (length o) (p_toClient p))
  | ToClient =>
      let o := outbox (p_server p) in
      Some (MkPair (read_all cl (gs "server") (drop (p_toClient p) o) (p_client p)) (p_server p) (p_toServer p) (length o))
  end.

Definition run (cl sv : conn_config (W := W)) (script : list round) (p : pair) : option pair :=
  foldl (λ o r, p ← o; play cl sv r p) (Some p) script.

Lemma read_all_sound cc rAddr ds x : rtc (conn_step cc) x (read_all cc rAddr ds x).
Proof.
  revert x. induction ds as [|d ds IH]; intros x; [done|]. cbn [read_all foldl]. etrans; [|apply IH].
  destruct (exec cc _ x) eqn:E; cbn [default]; [|done]. by apply rtc_once, (exec_sound _ _ _ _ E).
Qed.

Lemma play_sound cl sv r p p' : play cl sv r p = Some p' →
  rtc (conn_step cl) (p_client p) (p_client p') ∧ rtc (conn_step sv) (p_server p) (p_server p').
Proof.
  destruct r as [t|t| |]; cbn [play]; intros Hx.
  - apply bind_Some in Hx as (x & Hx & [= <-]). split; [|done]. by apply rtc_once, (exec_sound _ _ _ _ Hx).
  - apply bind_Some in Hx as (x & Hx & [= <-]). split; [done|]. by apply rtc_once, (exec_sound _ _ _ _ Hx).
  - injection Hx as <-. split; [apply read_all_sound|done].
  - injection Hx as <-. split; [done|apply read_all_sound].
Qed.

Lemma run_sound cl sv script p p' : run cl sv script p = Some p' →
  rtc (conn_step cl) (p_client p) (p_client p') ∧ rtc (conn_step sv) (p_server p) (p_server p').
Proof.
  unfold run. revert p. induction script as [|r script IH]; intros p; [by intros [= <-]|]. cbn [foldl mbind option_bind].
  destruct (play cl sv r p) as [p1|] eqn:E.
  - intros Hr. destruct (play_sound _ _ _ _ _ E), (IH _ Hr). split; by etrans.
  - intros Hr. exfalso. clear -Hr. induction script as [|r script IH]; [done|]. apply IH, Hr.
Qed.
End scheduler.

(** ** Concrete implementations *)

(** A replay detector that remembers every number. *)
Record seen := MkSeen { sn_window : Z; sn_max : Z; sn_numbers : list Z }.

#[export] Instance toy_detector : ReplayDetector := {|
  detector := seen;
  replaydetector_New w m := MkSeen w m [];
  Check d n := (n <=? sn_max d) && forallb (λ m, negb (n =? m) && (m <? n + sn_window d)) (sn_numbers d);
  Accept d n := (forallb (λ m, m <? n) (sn_numbers d), MkSeen (sn_window d) (sn_max d) (n :: sn_numbers d))
|}.

Lemma toy_accepted w m ns d : accepted w m ns d → d = MkSeen w m ns.
Proof. by induction 1 as [|ns d n _ -> _ _]. Qed.

#[export] Instance toy_detector_laws : ReplayDetectorLaws.
Proof.
  split. intros w m ns d n ->%toy_accepted Hw Hn. cbn. rewrite andb_true_iff, Z.leb_le, List.forallb_forall, Forall_forall.
  setoid_rewrite andb_true_iff. setoid_rewrite Z.ltb_lt. setoid_rewrite negb_true_iff. setoid_rewrite Z.eqb_neq.
  setoid_rewrite <- list_elem_of_In. split.
  - intros [Hm Hf]. split_and!; [done|intros Hi; by destruct (Hf n Hi)|intros k Hk; by apply Hf].
  - intros (Hm & Hi & Hf). split; [done|]. intros k Hk. split; [by intros ->|by apply Hf].
Qed.

(** The outside world: the datagrams that were sent, a counter for random values,
    and the sessions of the store, by their keys. *)
Record outside := MkOutside { o_sent : list bytes; o_seed : Z; o_sessions : list (bytes * (bytes * bytes)) }.

#[export] Instance toy_world : World outside := {|
  rand_Read n w := (Ok (be_put (Z.to_nat n) (o_seed w)), MkOutside (o_sent w) (o_seed w + 1) (o_sessions w));
  rand_Reader w := ((o_seed w, o_seed w), MkOutside (o_sent w) (o_seed w + 1) (o_sessions w));
  time_Now w := (0, w)
|}.

#[export] Instance toy_network : Network outside := {|
  WriteToContext d rAddr w := (None, MkOutside (o_sent w ++ [d]) (o_seed w) (o_sessions w));
  paddingLengthGenerator n w := (0, w);
  is_closed_error e := false
|}.

#[export] Instance toy_unicode : Unicode := id.

#[local] Existing Instance HandshakeCrypto.toy_pki.
#[local] Existing Instance KeyExchange.toy_agreement.

Abbreviation NET := (net (W := outside)).

(** A store of sessions. *)
Definition find_session (w : outside) (key : bytes) : option (bytes * bytes) :=
  snd <$> find (λ x, bool_decide (x.1 = key)) (o_sessions w).
Definition put_session (key : bytes) (o : option (bytes * bytes)) (w : outside) : outside :=
  let rest := List.filter (λ x, negb (bool_decide (x.1 = key))) (o_sessions w) in
  MkOutside (o_sent w) (o_seed w) (match o with Some x => (key, x) :: rest | None => rest end).

(** What differs between the examples; [su_session] is a session that the store
    has for every other key. *)
Record setup := MkSetup {
  su_psk : option bytes;
  su_suites : list CipherSuite.CipherSuite;
  su_certificates : list tls_Certificate;
  su_clientAuth : Z;
  su_cid : option bytes;
  su_session : option (option (bytes * bytes));
  su_ems : ExtendedMasterSecretType
}.

Definition demo_config (u : setup) : HandshakeConfig NET := {|
  cf_LocalPSKCallback := (λ psk _ w, (Ok psk, w)) <$> su_psk u;
  cf_LocalPSKIdentityHint := (λ _, gs "hint") <$> su_psk u;
  cf_LocalCipherSuites := su_suites u;
  cf_LocalSignatureSchemes := Algorithms;
  cf_LocalCertSignatureSchemes := [];
  cf_ExtendedMasterSecret := su_ems u;
  cf_LocalSRTPProtectionProfiles := [];
  cf_LocalSRTPMasterKeyIdentifier := [];
  cf_ServerName := gs "example";
  cf_SupportedProtocols := [];
  cf_ClientAuth := su_clientAuth u;
  cf_LocalCertificates := su_certificates u;
  cf_InsecureSkipVerify := false;
  cf_VerifyPeerCertificate := None;
  cf_VerifyConnection := None;
  cf_HasSessionStore := bool_decide (su_session u ≠ None);
  cf_GetSession := λ key w, (Ok (match find_session (n_world w) key, su_session u with
                                 | Some (id, secret), _ | None, Some (Some (id, secret)) => (Some id, secret)
                                 | None, _ => (None, []) end), w);
  cf_SetSession := λ key id secret w, (Ok tt, w <| n_world := put_session key (Some (id, secret)) (n_world w) |>);
  cf_DelSession := λ key w, (Ok tt, w <| n_world := put_session key None (n_world w) |>);
  cf_RootCAs := None;
  cf_ClientCAs := None;
  cf_InitialRetransmitInterval := Second;
  cf_DisableRetransmitBackoff := false;
  cf_CustomCipherSuites := Some (su_suites u);
  cf_EllipticCurves := [X25519];
  cf_InsecureSkipHelloVerify := false;
  cf_ConnectionIDGenerator := (λ cid w, (Some cid, w)) <$> su_cid u;
  cf_HelloRandomBytesGenerator := None;
  cf_KeyLogWriter := false;
  cf_LocalGetCertificate := None;
  cf_LocalGetClientCertificate := None;
  cf_InitialEpoch := 0;
  cf_ClientHelloMessageHook := None;
  cf_ServerHelloMessageHook := None;
  cf_CertificateRequestMessageHook := None;
  cf_MinVersion := Version1_2;
  cf_MaxVersion := Version1_2
|}.

Definition demo_conn (u : setup) : conn_config (W := outside) := MkConnConfig 1200 64 (demo_config u).

Definition pair_start (u v : setup) : pair :=
  MkPair (conn_start (demo_conn u) true (gs "server") (MkOutside [] 7 [])) (conn_start (demo_conn v) false (gs "client") (MkOutside [] 1000 [])) 0 0.

Definition demo (u v : setup) (script : list round) : option pair := run o_sent (demo_conn u) (demo_conn v) script (pair_start u v).

(** A hash that is fast to compute, and cipher suites of the application's own
    with it. *)
Definition toy_hash : Hash := MkHash (λ m, take 16 (concat (replicate 6 (be_put 3 (foldl (λ a x, Z.land (a * 33 + x) 0xffffff) 1 m))))) 16 16.
Definition toy_psk_suite : CipherSuite.CipherSuite :=
  CipherSuite.MkSuite 0xfe01 0 toy_hash CipherSuite.AuthenticationTypePreSharedKey KeyExchangeAlgorithmPsk true (CipherSuite.init_gcm 16 toy_hash).
Definition toy_cert_suite : CipherSuite.CipherSuite :=
  CipherSuite.MkSuite 0xfe02 ECDSASign toy_hash CipherSuite.AuthenticationTypeCertificate KeyExchangeAlgorithmEcdhe true (CipherSuite.init_gcm 16 toy_hash).

(** A shared key; certificates of both sides and connection IDs; a session that
    is resumed. *)
Definition psk_setup : setup := MkSetup (Some [1; 2; 3; 4]) [toy_psk_suite] [] NoClientCert None None RequireExtendedMasterSecret.
Definition toy_certificate (k : Z) : tls_Certificate := MkTLSCertificate (Some [[1; k]]) (Some (toy_signer 1 [k])) None.
Definition cert_setup (k : Z) (cid : bytes) : setup := MkSetup None [toy_cert_suite] [toy_certificate k] RequireAndVerifyClientCert (Some cid) None RequireExtendedMasterSecret.
Definition resumed_setup : setup := MkSetup (Some [1; 2; 3; 4]) [toy_psk_suite] [] NoClientCert None (Some (Some ([9; 9; 9], zeros 48))) RequireExtendedMasterSecret.

(** Messages arrive: a machine that waits looks at them, makes its flight and
    sends it. *)
Definition client_flight_turn : list round := [ToClient; OnClient (Event (RecvHandshake false)); OnClient Machine; OnClient Machine].
Definition server_flight_turn : list round := [ToServer; OnServer (Event (RecvHandshake false)); OnServer Machine; OnServer Machine].

Definition full_handshake : list round :=
  [OnClient Machine; OnClient Machine; OnServer Machine; OnServer Machine] ++ server_flight_turn ++ client_flight_turn ++
  server_flight_turn ++ client_flight_turn ++ server_flight_turn ++ [ToClient; OnClient (Event (RecvHandshake false)); OnClient Completed; OnServer Completed].

Definition resumed_handshake : list round :=
  [OnClient Machine; OnClient Machine; OnServer Machine; OnServer Machine] ++ server_flight_turn ++ client_flight_turn ++
  [ToServer; OnServer (Event (RecvHandshake false))].


(** Both machines have finished in these flights, with the same keys. *)
Definition connected (fc fs : flight) (o : option (pair (W := outside))) : bool :=
  match o with
  | Some p =>
      match (p_client p).1, (p_server p).1 with
      | handshakeFinished, handshakeFinished =>
          bool_decide (currentFlight (p_client p).2 = fc) && bool_decide (currentFlight (p_server p).2 = fs) &&
          bool_decide (st_MasterSecret (h_state (f_hs (p_client p).2)) = st_MasterSecret (h_state (f_hs (p_server p).2)))
      | _, _ => false
      end
  | None => false
  end.

Lemma connected_run u v script fc fs : connected fc fs (demo u v script) = true → ∃ f g,
  rtc (conn_step (demo_conn u)) (conn_start (demo_conn u) true (gs "server") (MkOutside [] 7 [])) (handshakeFinished, f) ∧ currentFlight f = fc ∧
  rtc (conn_step (demo_conn v)) (conn_start (demo_conn v) false (gs "client") (MkOutside [] 1000 [])) (handshakeFinished, g) ∧ currentFlight g = fs.
Proof.
  unfold connected. destruct (demo u v script) as [[[qc f] [qs g] n m]|] eqn:E; [|discriminate]. unfold demo in E. apply run_sound in E as [Hc Hs].
  unfold pair_start in Hc, Hs. cbn [p_client p_server fst snd] in *. destruct qc; try discriminate; destruct qs; try discriminate.
  rewrite !andb_true_iff, !bool_decide_eq_true. intros [[E1 E2] _]. exists f, g. exact (conj Hc (conj E1 (conj Hs E2))).
Qed.

(** The three examples. *)
Lemma psk_connected : connected Flight5 Flight6 (demo psk_setup psk_setup full_handshake) = true.
Proof. vm_compute. reflexivity. Qed.

Lemma cert_connected : connected Flight5 Flight6 (demo (cert_setup 7 [1; 2; 3]) (cert_setup 8 [5; 6]) full_handshake) = true.
Proof. vm_compute. reflexivity. Qed.

Lemma resumed_connected : connected Flight5b Flight4b (demo resumed_setup resumed_setup resumed_handshake) = true.
Proof. vm_compute. reflexivity. Qed.

Lemma client_connects_authenticated_witness : let cc := demo_conn (cert_setup 7 [1; 2; 3]) in let cfg := handshakeConfig cc in
  ∃ f, rtc (conn_step cc) (conn_start cc true (gs "server") (MkOutside [] 7 [])) (handshakeFinished, f) ∧
    server_authenticated cfg (f_hs f) ∧ peer_finished cfg (f_hs f) false Prf.VerifyDataServer (full_rules cfg).
Proof.
  cbv zeta. destruct (connected_run _ _ _ _ _ cert_connected) as (f & g & Hc & Ef & _). exists f. split; [exact Hc|].
  destruct (client_connects_authenticated _ _ _ _ Hc) as [(_ & Ha & Hf)|[E _]]; [exact (conj Ha Hf)|congruence].
Defined.


Lemma resumed_client_sends_once_witness : let cc := demo_conn resumed_setup in
  (∃ f, rtc (conn_step cc) (conn_start cc true (gs "server") (MkOutside [] 7 [])) (handshakeFinished, f) ∧
     (handshakeFinished = handshakeFinished ∨ ∃ e, handshakeFinished = handshakeErrored e)) ∧
  ∃ i, it_IsClient i = true ∧ it_Typ i = TypeFinished.
Proof.
  cbv zeta. destruct (connected_run _ _ _ _ _ resumed_connected) as (f & g & Hc & Ef & Hs & Eg).
  destruct (resumed_client_sends_once (conn_flights (demo_conn resumed_setup)) _ _ f (handshakeFinished, f) (conn_flights_ok _) (conn_reachable _ _ _ _ _ Hc) Ef (rtc_refl _ _))
    as [Hq Hn].
  destruct (Hn _ _ _ g (conn_flights_ok _) (conn_reachable _ _ _ _ _ Hs) Eg) as (i & _ & Hi & Ht).
  split; [exists f; exact (conj Hc Hq)|exists i; exact (conj Hi Ht)].
Defined.

Lemma retransmit_interval_bounds_witness : let cc := demo_conn psk_setup in ∃ f,
  rtc (conn_step cc) (conn_start cc true (gs "server") (MkOutside [] 7 [])) (handshakeFinished, f) ∧
  0 < retransmitInterval f ≤ Second * 60 ∧ Nat.iter 7 (backoff (handshakeConfig cc)) Second = Second * 60.
Proof.
  cbv zeta. destruct (connected_run _ _ _ _ _ psk_connected) as (f & g & Hc & _). exists f.
  destruct (retransmit_interval_bounds (conn_flights (demo_conn psk_setup)) (demo_config psk_setup) _ _ _ _ (eq_refl : 0 < Second) (conn_reachable _ _ _ _ _ Hc)) as [Hb Hi].
  refine (conj Hc (conj Hb _)). refine (eq_trans (Hi 6%nat Second _) _); [discriminate|reflexivity].
Defined.

(** ** Application data *)

(** An established connection with these keys. *)
Definition established (isClient : bool) (p : CipherSuite.Protection) (numbers : list Z) (localCID remoteCID : bytes) : hs (W := NET) :=
  MkHs ((new_state isClient) <| st_CipherSuite := Some CipherSuite.TLSPskWithAes128GcmSha256 |> <| st_Protection := Some p |>
          <| st_LocalEpoch := 1 |> <| st_RemoteEpoch := 1 |> <| st_LocalSequenceNumber := numbers |>
          <| st_LocalConnectionID := Some localCID |> <| st_RemoteConnectionID := Some remoteCID |>)
    [] (new_net (gs "peer") (MkOutside [] 0 [])) [].

Lemma application_data_delivered_witness : ∃ s1 s2 ds s1', written (demo_conn psk_setup) 1 (zip [[1; 2]; [3]] ds) s1 s1' ∧
  ∃ js, n_decrypted (h_world (deliver (demo_conn psk_setup) (datagrams ds [(1%nat, 0%nat, gs "a"); (0%nat, 0%nat, gs "b"); (1%nat, 0%nat, gs "a")]) s2)) =
    inl <$> omap ([[1; 2]; [3]] !!.) js ∧ NoDup js ∧ (∀ x, x ∈ [1; 0; 1]%nat → x ∈ js).
Proof.
  destruct (CipherSuite.suites12_init CipherSuite.TLSPskWithAes128GcmSha256 [1] [2] [3]) as (p & q & _ & _ & Ho & _).
  { apply elem_of_cons. right. apply elem_of_cons. by left. }
  set (s1 := established true p [5; 7] [9; 9] [4; 4; 4]). set (s2 := established false q [5; 1] [4; 4; 4] [9; 9]).
  assert (joined 1 s1 s2) as Hj.
  { split; [by exists p, q|split; [split; lia|lia]|done|done|done|]. split; [|by apply Z.ltb_lt]. by apply (bool_decide_unpack _); vm_compute. }
  destruct (application_data_delivered (demo_conn psk_setup) (demo_conn psk_setup) 1 s1 s2 [[1; 2]; [3]] []) as (ds & s1' & Hw & _ & Hall);
    [exact Hj|reflexivity|by apply Z.leb_le|by apply Z.leb_le|repeat constructor; by apply Z.leb_le|split; by apply Z.ltb_lt|by apply Z.ltb_lt|constructor|constructor|].
  exists s1, s2, ds, s1'. split; [exact Hw|].
  destruct (Hall [(1%nat, 0%nat, gs "a"); (0%nat, 0%nat, gs "b"); (1%nat, 0%nat, gs "a")]) as (js & Hd & _ & Hn & Hi); [repeat constructor|].
  exists js. split; [exact Hd|]. split; [exact Hn|]. apply Hi. repeat constructor.
Defined.

(** A connection whose peer has the same keys, and the datagram of a write. *)
Definition toy_aead : Aead.aead := Aead.MkAead (MkCipher AES_GCM (zeros 16)) (MkCipher AES_GCM (zeros 16)) (zeros 4) (zeros 4).
Definition toy_end (isClient : bool) : hs (W := NET) :=
  established isClient (CipherSuite.MkProtection (Aead.encrypt toy_aead) (Aead.decrypt toy_aead)) [5; 7] [] [].
Definition toy_datagram : bytes := List.last (o_sent (n_world (h_world (conn_Write (demo_conn psk_setup) [1; 2; 3] (toy_end false)).2))) [].

(** The datagram arrives twice, with others in between. *)
Definition toy_input : list (bytes * nat * gostring) :=
  [([23; 254; 253; 0; 1], 0%nat, gs "a"); (toy_datagram, 0%nat, gs "b"); (zeros 40, 1%nat, gs "b"); (toy_datagram, 1%nat, gs "b")].

Lemma data_authentic_once_witness : ∃ log : list (Z * Z * bytes), received_data (reads (demo_conn psk_setup) toy_input (toy_end true)) = log.*2 ∧
  log.*2 = [[1; 2; 3]] ∧ NoDup log.*1 ∧ Forall (λ '(e, n, data), 0 < e ∧ sealed toy_aead e n data) log.
Proof.
  destruct (data_authentic_once (demo_conn psk_setup) toy_aead (CipherSuite.MkProtection (Aead.encrypt toy_aead) (Aead.decrypt toy_aead))
    toy_input (toy_end true) []) as (log & Hr & Hn & _ & Hs).
  - intros key n. by eexists.
  - by apply Z.ltb_lt.
  - intros b l. change (n_buffers (h_world (toy_end true))) with (∅ : gmap nat bytes). by rewrite lookup_empty.
  - apply (bool_decide_unpack _). by vm_compute.
  - intros e He. constructor.
  - constructor.
  - reflexivity.
  - by left.
  - exists log. split; [exact Hr|]. split; [|split; [exact Hn|exact Hs]]. change (log.*2) with (received_data (toy_end true) ++ log.*2).
    rewrite <- Hr. vm_compute. reflexivity.
Defined.

(** ** Records of somebody else *)

Definition toy_keys (isClient : bool) : CipherSuite.Protection :=
  match CipherSuite.init_gcm 16 toy_hash (zeros 48) [2] [3] isClient with Ok p => p | _ => CipherSuite.MkProtection (λ _ _, Panic) (λ _ _, Panic) end.

Definition sender : hs (W := NET) := established true (toy_keys true) [5; 7] [] [].
Definition receiver : hs (W := NET) :=
  let s := established false (toy_keys false) [5; 7] [] [] in MkHs (h_state s) (h_cache s) ((h_world s) <| n_completed := true |>) (h_keylog s).

(** The datagram of Write. *)
Definition authentic : bytes := List.last (o_sent (n_world (h_world (conn_Write (demo_conn psk_setup) [1; 2; 3] sender).2))) [].

(** A record in the clear of this type, epoch and number. *)
Definition forged_record (typ epoch n : Z) (content : bytes) : bytes :=
  match RecordHeader.Header_Marshal (RecordHeader.MkHeader typ (len content) Version1_2 epoch n []) with Ok h => h ++ content | _ => [] end.

(** Empty fragments of a message that will never come. *)
Definition forged_fragments (n first : Z) : bytes :=
  forged_record ContentTypeHandshake 0 n (concat (map (λ i, Header_Marshal (MkHeader TypeClientHello 1000 60000 i 0)) (seqZ first 50))).

Definition after (ds : list bytes) : hs (W := NET) := reads (demo_conn psk_setup) ((λ d, (d, 0%nat, gs "anybody")) <$> ds) receiver.

(** records that anybody can make affect an established connection.  The
    receiver of this run gets the application data of the sender's datagram.  It
    does not get it after a forged ChangeCipherSpec record of the current epoch
    with the greatest number, which is not authenticated but moves the replay
    window; nor after twenty forged datagrams with empty handshake fragments in the
    clear, which fill the buffer of fragments for good; and after a forged alert in
    the clear the connection is closed. *)
Theorem forged_records_accepted :
  received_data (after [authentic]) = [[1; 2; 3]] ∧
  received_data (after [forged_record ContentTypeChangeCipherSpec 1 RecordHeader.MaxSequenceNumber [1]; authentic]) = [] ∧
  received_data (after (((λ i, forged_fragments i (50 * i)) <$> seqZ 0 20) ++ [authentic])) = [] ∧
  n_closed (h_world (after [authentic])) = false ∧
  n_closed (h_world (after [authentic; forged_record ContentTypeAlert 0 0 [Fatal; InternalError]])) = true.
Proof. vm_compute. split_and!; reflexivity. Qed.

(** ** Records that are sent *)

Definition aead_conn (cid : bytes) : hs (W := NET) :=
  established true (CipherSuite.MkProtection (Aead.encrypt toy_aead) (Aead.decrypt toy_aead)) [5; 7] cid cid.

Lemma aead_conn_headers cid : headers_kept (aead_conn cid).
Proof. intros p [= <-]. eapply aead_keeps_header. by left. Qed.

Definition small_mtu : conn_config (W := outside) := MkConnConfig 5 64 (demo_config psk_setup).

Definition demo_flight : list Packet :=
  [plain (Some (Finished (zeros 12))); change_cipher_spec; finished_packet (zeros 12) false; finished_packet (zeros 12) true; MkPacket (record_header 1) (ApplicationDataContent [1; 2]) true true false].

Definition is_val {R A} (x : out R A * hs (W := NET)) : bool := match x.1 with Val _ => true | _ => false end.

Lemma is_val_inv {R A} (x : out R A * hs (W := NET)) : is_val x = true → ∃ a s, x = (Val a, s).
Proof. destruct x as [[a|r|] s]; try discriminate. intros _. by exists a, s. Qed.

Lemma flight_records_numbered_witness : ∃ pkts' raws s' rss, raw_packets small_mtu demo_flight (aead_conn [7]) = (Val (pkts', raws), s') ∧
  raws = concat rss ∧ Forall2 header_numbered demo_flight rss ∧ NoDup (record_key <$> own_numbers demo_flight rss).
Proof.
  destruct (is_val_inv (raw_packets small_mtu demo_flight (aead_conn [7]))) as ([pkts' raws] & s' & E); [vm_compute; reflexivity|].
  destruct (flight_records_numbered small_mtu demo_flight (aead_conn [7]) pkts' raws s') as ((rss & E1 & E2 & _ & E3 & _) & _); [|apply aead_conn_headers| |exact E|].
  - by apply (bool_decide_unpack _); vm_compute.
  - by apply (bool_decide_unpack _); vm_compute.
  - exists pkts', raws, s', rss. split_and!; [exact E|exact E1|exact E2|exact E3].
Defined.

Lemma handshake_message_transmitted_witness : ∃ h raw frags, Handshake_Marshal zero_header (Some (Finished (zeros 12))) = Ok (h, raw) ∧
  fragmentHandshake small_mtu h (Some (Finished (zeros 12))) = Ok (FragmentBuffer.fragment_bytes <$> frags) ∧ Forall (λ x, len x.2 ≤ 5) frags.
Proof.
  destruct (Handshake_Marshal zero_header (Some (Finished (zeros 12)))) as [[h raw]|e|] eqn:E; [|discriminate..].
  destruct (handshake_message_transmitted small_mtu zero_header (Finished (zeros 12)) h raw) as (frags & Hf & Hl & _); [reflexivity|exact E| |].
  - vm_compute in E. injection E as <- <-. reflexivity.
  - exists h, raw, frags. split; [reflexivity|]. split; [exact Hf|exact Hl].
Defined.

(** ** A server key exchange that is replaced between two flights *)

Definition ecdhe_setup (certs : list tls_Certificate) : setup := MkSetup None [toy_cert_suite] certs NoClientCert None None RequireExtendedMasterSecret.

(** The handshake up to the server's flight 4. *)
Definition up_to_flight4 : list round :=
  [OnClient Machine; OnClient Machine; OnServer Machine; OnServer Machine] ++ server_flight_turn ++ client_flight_turn ++ server_flight_turn.

(** A record in the clear with a handshake message. *)
Definition plain_record (n : Z) (m : bytes) : bytes :=
  match RecordHeader.Header_Marshal (RecordHeader.MkHeader ContentTypeHandshake (len m) Version1_2 0 n []) with Ok h => h ++ m | _ => [] end.

Definition message_of (typ : Z) (h : Cache) : option (Header * Message) :=
  i ← find (λ i, it_Typ i =? typ) h;
  match Handshake_Unmarshal KeyExchangeAlgorithmEcdhe (it_Data i) with Ok hm => Some hm | _ => None end.

Definition encoded (hm : Header * Message) : bytes := match Handshake_Marshal hm.1 (Some hm.2) with Ok (_, raw) => raw | _ => [] end.

(** The attacker's own key, put in place of the server's. *)
Definition attacker_key : bytes := be_put 32 42.

Definition forged (m : Message) : Message :=
  match m with
  | ServerKeyExchange k => ServerKeyExchange (MkServerKeyExchange (sk_IdentityHint k) (sk_EllipticCurveType k) (sk_NamedCurve k) attacker_key
                             (sk_HashAlgorithm k) (sk_SignatureAlgorithm k) (sk_Signature k))
  | m => m
  end.

Definition with_sequence (n : Z) (h : Header) : Header := MkHeader (Type_ h) (Length h) n (FragmentOffset h) (FragmentLength h).

(** The server's flight with the forged key; its own key exchange as one more
    message. *)
Definition forged_flight (h : Cache) : option (list bytes * bytes) :=
  hello ← message_of TypeServerHello h; cert ← message_of TypeCertificate h; kx ← message_of TypeServerKeyExchange h; done ← message_of TypeServerHelloDone h;
  Some ([plain_record 10 (encoded hello); plain_record 11 (encoded cert); plain_record 12 (encoded (kx.1, forged kx.2)); plain_record 13 (encoded done)],
        plain_record 14 (encoded (with_sequence (MessageSequence done.1 + 1) kx.1, kx.2))).

(** What the attacker computes from the messages in the clear and its own key. *)
Definition attacker_secret (h : Cache) : res dtls_error bytes :=
  match message_of TypeClientKeyExchange h with
  | Some (_, ClientKeyExchange k) =>
      pms ← KeyExchange.PreMasterSecret (default [] (ck_PublicKey k)) attacker_key X25519;
      Prf.ExtendedMasterSecret pms (SessionHash h toy_hash 0 []) toy_hash
  | _ => Err ErrInvalidClientKeyExchange
  end.

(** The forged flight is parsed, and the server's key exchange arrives before the
    client checks the signature and sends flight 5. *)
Definition race : option (handshakeState * handshakeFSM12 (W := NET)) :=
  p ← demo (ecdhe_setup []) (ecdhe_setup [toy_certificate 8]) up_to_flight4;
  '(flight4, kx) ← forged_flight (h_cache (f_hs (p_server p).2));
  let cc := demo_conn (ecdhe_setup []) in
  let x := read_all cc (gs "server") flight4 (p_client p) in
  x ← exec cc (Event (RecvHandshake false)) x;
  x ← exec cc (Datagram 0 kx (gs "server")) x;
  x ← exec cc Machine x;
  exec cc Machine x.

(** The state of the client, its certificates of the server, and whether the
    secret of its keys is the attacker's. *)
Definition raced : option (handshakeState * flight * list bytes * bool * bool) :=
  x ← race; let s := f_hs x.2 in
  Some (x.1, currentFlight x.2, st_PeerCertificates (h_state s), IsInitialized (h_state s),
        match attacker_secret (h_cache s) with Ok k => bool_decide (k = st_MasterSecret (h_state s)) | _ => false end).

(** the signature that a client verifies need not be that of the key it uses.
    The premaster secret is computed when flight 4 is parsed, and the signature of
    the ServerKeyExchange is verified when flight 5 is made, on the message that is
    then the latest in the cache.  In this run the client receives a flight 4 with
    an attacker's key and the server's own ServerKeyExchange as one more message
    in between: it accepts the server's certificate and signature and sends its
    Finished message under keys that the attacker computes from its own key and
    the messages in the clear. *)
Theorem signature_of_another_key : raced = Some (handshakeWaiting, Flight5, [[1; 8]], true, true).
Proof. vm_compute. reflexivity. Qed.

(** ** A ClientHello that is changed on the way *)

Definition plain_psk_setup : setup := MkSetup (Some [1; 2; 3; 4]) [toy_psk_suite] [] NoClientCert None None DisableExtendedMasterSecret.

(** One more cipher suite in the second ClientHello. *)
Definition tampered (m : Message) : Message :=
  match m with
  | ClientHello h => ClientHello (MkClientHello (ch_Version h) (ch_Random h) (ch_Cookie h) (ch_SessionID h) (ch_CipherSuiteIDs h ++ [0x1234])
                       (ch_CompressionMethods h) (ch_Extensions h))
  | m => m
  end.

Definition tampered_run : option pair :=
  let cc := demo_conn plain_psk_setup in
  p ← demo plain_psk_setup plain_psk_setup ([OnClient Machine; OnClient Machine; OnServer Machine; OnServer Machine] ++ server_flight_turn ++ client_flight_turn);
  hello ← message_of TypeClientHello (rev (h_cache (f_hs (p_client p).2)));
  x ← exec cc (Datagram 0 (plain_record 20 (encoded (hello.1, tampered hello.2))) (gs "client")) (p_server p);
  run o_sent cc cc ([OnServer (Event (RecvHandshake false)); OnServer Machine; OnServer Machine] ++ client_flight_turn ++ server_flight_turn ++
                    [ToClient; OnClient (Event (RecvHandshake false))])
    (MkPair (p_client p) x (length (outbox o_sent (p_client p))) (p_toClient p)).

Definition tampered_end : option (handshakeState * handshakeState * flight) :=
  p ← tampered_run; Some ((p_client p).1, (p_server p).1, currentFlight (p_server p).2).

(** the server does not verify the client's Finished message.  In this run
    the client's ClientHello was changed on the way to the server, so that the two
    transcripts differ: the server completes the handshake all the same, and only
    the client notices, from the server's Finished message. *)
Theorem server_ignores_finished : tampered_end = Some (handshakeErrored ErrVerifyDataMismatch, handshakeFinished, Flight6).
Proof. vm_compute. reflexivity. Qed.

(** ** A session that is resumed without its secret *)

(** A client with a store that has no session, and no certificate of its own. *)
Definition store_setup (certs : list tls_Certificate) (auth : Z) (ems : ExtendedMasterSecretType) : setup :=
  MkSetup None [toy_cert_suite] certs auth None (Some None) ems.

(** The attacker's ServerHello, with a session ID of its own. *)
Definition attacker_random : Random := MkRandom 0 (zeros 28).
Definition attacker_hello : bytes :=
  encoded (MkHeader 0 0 0 0 0, ServerHello (MkServerHello Version1_2 attacker_random [1; 2; 3] (Some 0xfe02) (Some 0) [UseExtendedMasterSecret true])).

(** A Finished message for the two hello messages under the empty secret, in a
    record under the keys of the empty secret. *)
Definition attacker_finished (cc : conn_config (W := outside)) (h : Cache) : option (list bytes) :=
  match message_of TypeClientHello h, Prf.VerifyDataServer [] (PullAndMerge h (hello_rules (handshakeConfig cc))) toy_hash with
  | Some (_, ClientHello ch), Ok d =>
      match CipherSuite.Init toy_cert_suite [] (MarshalFixed (ch_Random ch)) (MarshalFixed attacker_random) false with
      | Ok p =>
          let s := established false p [50; 0] [] [] in
          let finished := MkPacket (record_header 1) (HandshakeContent (MkHeader 0 0 1 0 0) (Some (Finished d))) true false false in
          Some (o_sent (n_world (h_world (write_packets cc [change_cipher_spec; finished] s).2)))
      | _ => None
      end
  | _, _ => None
  end.

(** The ServerHello comes alone, and again in the datagram of the Finished message. *)
Definition hijack : option (handshakeState * handshakeFSM12 (W := NET)) :=
  let cc := demo_conn (store_setup [] NoClientCert RequireExtendedMasterSecret) in
  x ← exec cc Machine (conn_start cc true (gs "server") (MkOutside [] 7 []));
  x ← exec cc Machine x;
  x ← exec cc (Datagram 0 (plain_record 10 attacker_hello) (gs "server")) x;
  x ← exec cc (Event (RecvHandshake false)) x;
  finished ← attacker_finished cc (h_cache (f_hs x.2));
  x ← exec cc (Datagram 0 (concat finished ++ plain_record 11 attacker_hello) (gs "server")) x;
  x ← exec cc (Event (RecvHandshake false)) x;
  x ← exec cc Machine x;
  exec cc Machine x.

(** The state of the client, the server's certificates and the master secret. *)
Definition hijacked : option (handshakeState * flight * list bytes * bytes) :=
  x ← hijack; let st := h_state (f_hs x.2) in Some (x.1, currentFlight x.2, st_PeerCertificates st, st_MasterSecret st).

(** a client with a session store can be connected to anybody.  It takes the
    session ID of a ServerHello for its own, with an empty secret, and waits for
    the rest of the flight; when it looks at the same ServerHello again, the
    session ID is the one it has, and it resumes a session with the empty secret.
    In this run the store has no session and the suite needs a certificate: the
    client completes with an attacker that has no certificate and no secret. *)
Theorem resumption_without_secret : hijacked = Some (handshakeFinished, Flight5b, [], []).
Proof. vm_compute. reflexivity. Qed.

(** ** A client without a certificate *)

Definition strict_server : setup := store_setup [toy_certificate 8] RequireAnyClientCert DisableExtendedMasterSecret.

(** A client that has this session. *)
Definition bare_client (session : option (bytes * bytes)) : setup :=
  MkSetup None [toy_cert_suite] [] NoClientCert None (Some session) DisableExtendedMasterSecret.

(** The server's flight without its CertificateRequest. *)
Definition unasked_flight (h : Cache) : option (list bytes) :=
  hello ← message_of TypeServerHello h; cert ← message_of TypeCertificate h; kx ← message_of TypeServerKeyExchange h; done ← message_of TypeServerHelloDone h;
  Some [plain_record 10 (encoded hello); plain_record 11 (encoded cert); plain_record 12 (encoded kx);
        plain_record 13 (encoded (with_sequence (MessageSequence done.1 - 1) done.1, done.2))].

(** The first connection of such a client: it answers the server's flight as if no
    certificate was asked for, and sends its key exchange but no Finished message.
    The result is the server, and the session as the client knows it. *)
Definition half_handshake : option ((handshakeState * handshakeFSM12 (W := NET)) * (bytes * bytes)) :=
  let cl := demo_conn (bare_client None) in let sv := demo_conn strict_server in
  p ← demo (bare_client None) strict_server up_to_flight4;
  flight4 ← unasked_flight (h_cache (f_hs (p_server p).2));
  x ← exec cl (Event (RecvHandshake false)) (read_all cl (gs "server") flight4 (p_client p));
  x ← exec cl Machine x;
  x ← exec cl Machine x;
  cke ← message_of TypeClientKeyExchange (h_cache (f_hs x.2));
  y ← exec sv (Datagram 0 (plain_record 20 (encoded cke)) (gs "client")) (p_server p);
  y ← exec sv (Event (RecvHandshake false)) y;
  let st := h_state (f_hs x.2) in Some (y, (st_SessionID st, st_MasterSecret st)).

(** Its second connection, to a server with the same store. *)
Definition second_connection : option (pair (W := outside)) :=
  '(y, session) ← half_handshake;
  let cl := demo_conn (bare_client (Some session)) in let sv := demo_conn strict_server in
  run o_sent cl sv resumed_handshake
    (MkPair (conn_start cl true (gs "server") (MkOutside [] 7 []))
       (conn_start sv false (gs "client") (MkOutside [] 2000 (o_sessions (n_world (h_world (f_hs y.2)))))) 0 0).

(** The states of the server in the two connections, and the certificates of the
    client in the second. *)
Definition unasked : option ((handshakeState * flight) * (handshakeState * flight) * list bytes) :=
  '(y, _) ← half_handshake; p ← second_connection; let z := p_server p in
  Some ((y.1, currentFlight y.2), (z.1, currentFlight z.2), st_PeerCertificates (h_state (f_hs z.2))).

(** the policy on client certificates does not hold for resumed sessions.  The
    server stores the session when it has the client's key exchange, before it asks
    whether a required certificate was sent.  In this run the server requires a
    certificate: a client without one lets its first handshake wait in flight 4,
    and completes a second connection that resumes the session of the first. *)
Theorem policy_skipped_by_resumption : unasked = Some ((handshakeWaiting, Flight4), (handshakeFinished, Flight4b), []).
Proof. vm_compute. reflexivity. Qed.
End ConnRun.
